(* ===== verification/_CoqProject ===== *)
-Q . S2P
Prelude.v
Effects.v
RustStr.v
HttpDate.v
Vocabulary.v
F64.v
External.v
Bytes.v
CursorKey.v
Endpoint.v
AuthState.v
PairRow.v
Restore.v
Schedule.v
Rejection.v
Ledger.v
LedgerSafety.v
Wire.v
Attempt.v
AttemptSafety.v
Authority.v
AuthoritySafety.v
Cloak.v
KeyFiles.v
KeyRecovery.v
Effective.v
HttpRange.v
Text.v
LifeData.v
Geo.v
LifeEnergy.v
LifeCost.v
LifeDrive.v
LifeParse.v
LifeSteps.v
LifeApply.v
LifeProject.v
LifeInv.v
LifeSafe.v
LifeTotal.v
LifeMarks.v
LifeProps.v
LifeLead.v
LifeStates.v
PublicQuery.v
HistoryRoutes.v
PublicCursor.v
PublicHistory.v
StreamWire.v
StreamPolicy.v
StreamLiveness.v
StreamSession.v
StreamAudit.v
StreamDelivery.v
BTree.v
SchedTypes.v
SchedState.v
SchedAccount.v
SchedOps.v
SchedLoop.v
SchedTick.v
SchedDue.v
SchedCommit.v
SchedInv.v
SchedSteps.v
SchedRestart.v
PackData.v
PackRules.v
SyncProtocol.v
SyncReader.v
SyncSafety.v
SyncDelta.v
SyncMirror.v
PackLife.v
TileRaster.v
TileGen.v
TileClean.v
TileRoute.v
TileTally.v
TilePayload.v
