(* ===== verification/Prelude.v ===== *)
(** * Verification of the Teslatlas Hub

    The Hub ([src/src]) collects data from Tesla cars for an owner: it keeps the
    owner's sign-in alive, polls and streams, stores what it learns in SQLite and
    serves it to the owner's devices; its compute crate ([src/compute]) draws the map
    of a month.  This library verifies the parts where a
    mistake costs the owner most: the legacy sign-in, whose single-use refresh
    token must never be lost, resent or sent to the wrong host; the key files that
    seal it; the request ledger, which keeps paid Fleet requests below the monthly
    cap; the stream; the vehicle scheduler, which decides when a car is read
    and when it is left to sleep; the lifecycle, which folds what was read into
    drives, charges and states; the two ways out, the history API and the sync
    packs a device keeps its mirror with; and the map tiles.

    ** The program's parts and their files

    The legacy auth unit, [src/src/auth/legacy_auth]:

    - [HttpDate]: [http_date.rs], the IMF-fixdate reader.
    - [Vocabulary]: [vocabulary.rs] and [LegacyAuthError] of [legacy_auth.rs].
    - [Endpoint]: [endpoint.rs], which host a refresh token may be sent to.
    - [AuthState], [PairRow], [Restore]: [state.rs], namely the durable status with
      its row codec and the recorder that writes it; the image of the stored pair
      and its re-read (with the row type of [storage/db.rs]); and the restore at
      start.
    - [Schedule]: [schedule.rs], refresh times and retry delays, with its one
      floating-point computation done in the binary64 of [F64].
    - [Rejection]: [rejection.rs], the fuse that decides when 401s mean that the
      sign-in is gone.
    - [Wire]: [wire.rs], the token request, the bounded read of the answer and
      the outcome table, with [is_fleet_api_named] of [api/owner_api.rs].
    - [Attempt], [AttemptSafety]: [attempt.rs], one exchange and the single flight
      that runs it.
    - [Authority], [AuthoritySafety]: [authority.rs] and [LegacyAuth] of
      [legacy_auth.rs], the in-memory authority that gates requests and applies
      results.
    - [Effective]: [effective.rs], the read-only summary of the stored sign-in.

    Keys and envelopes, [src/src/auth]:

    - [Cloak]: [teslamate_token.rs], the envelopes of the token pair.
    - [KeyFiles], [KeyRecovery]: [teslamate_credentials.rs], the key and cursor
      key files, their replacement and the recovery of an interrupted one.

    The stream, [src/src/collection/tesla_stream]:

    - [StreamWire]: [wire.rs], frames and records; [StreamPolicy]: [policy.rs],
      failure classes and delays; [StreamLiveness]: [liveness.rs], the clocks of a
      socket, with [echo.rs]; [StreamSession]: [session.rs], the
      supervisor with its attempts, audit and delivery; [StreamAudit] and
      [StreamDelivery]: its theorems.

    The collector, [src/src/collection/collector]:

    - [Ledger], [LedgerSafety]: [scheduler_counters.rs], the counts, reservations,
      cost and cap of billed requests.
    - [SchedTypes], [SchedState]: the data of [scheduler.rs] and
      [scheduler_state.rs]; one car's phases, evidence and holds
      ([scheduler_sleep.rs], [scheduler_holds.rs]); the scheduler's record.
    - [SchedAccount], [SchedOps]: [scheduler_errors.rs] with the account half of
      [scheduler_holds.rs], and the failures of reads, checks, lists and probes,
      the lists, the restore of a car, what is due and what a read or probe does.
    - [SchedLoop]: streams, lifecycle views, settings, owner actions and the wait
      of the loop.
    - [SchedTick]: the pending rows, gaps, baseline, commit, rollback, month, cap
      and load.
    - [SchedDue], [SchedCommit], [SchedInv], [SchedSteps], [SchedRestart]: its
      theorems; the concrete scheduler of the witnesses is in [SchedDue].

    The drive and charge lifecycle, [src/src/runtime/lifecycle]:

    - [LifeData]: the rules the stream shares, the rows of [sync/hub_pack/model.rs],
      the open session of [models.rs] and the parsed observation of [projection.rs].
    - [Geo]: units, coordinates and distance ([geo/location.rs]) and the geofence
      rule of [models.rs], with its theorem.
    - [LifeEnergy], [LifeCost]: energy, power, phases, efficiency and cost of a
      charge ([drive_and_charge.rs], [imported_charge_aggregates.rs], [models.rs]),
      with the theorem on the folded facts.
    - [LifeDrive]: the fold of a point into a drive, elevation and the end of a
      drive.
    - [LifeParse]: [parse_sample] of [projection.rs] over JSON; [LifeSteps]:
      freshness, evidence, reach and the small rules of the steps; [LifeApply]: the
      drive and charge steps; [LifeProject]: versions, service mode, phase, state
      interval, watermarks, one observation, a page, Hub events.
    - [LifeInv], [LifeSafe], [LifeTotal], [LifeMarks]: the invariant,
      each step over it, and the watermarks; [LifeProps], [LifeLead], [LifeStates]:
      the theorems.

    The API, [src/src/api]:

    - [HttpRange]: [http_range.rs].
    - [CursorKey]: the key and its keyed hashes ([protocol.rs]) and the text of a
      cursor.  [PublicQuery]: [public_query.rs], the items, the query,
      its cursor and the assembly of a page.  [HistoryRoutes]: the page reads of
      [storage/db/observations_and_lifecycle.rs] with the selections of
      [storage/db.rs], and the handlers of [server/history_routes.rs].
    - [PublicCursor], [PublicHistory]: their theorems.

    Sync, [src/src/sync/hub_pack], [src/src/api/protocol.rs] and
    [src/src/storage/db/live_sync.rs]:

    - [PackData]: the rows, requests and deltas of [model.rs] and the limits of
      [protocol.rs]; [PackRules]: the checks of a snapshot, of a delta and of a
      physical snapshot of schema 2.2 ([validation.rs], [validation_helpers.rs]).
      [PackLife]: which position rows of the lifecycle pass.
    - [SyncProtocol]: versions, digests, the description of a pack, the lineage, the
      manifest and the signed cursor of [protocol.rs], with the manifest the Hub signs
      ([manifest.rs]); [SyncReader]: the verification of a pack object.  [SyncSafety]:
      the theorems on cursors and lineages.
    - [SyncDelta]: the two ways [live_sync.rs] makes a delta, from the journal and from
      the materialised rows.  [SyncMirror]: a mirror, what a delta does to it, and the
      theorems.

    Map tiles, [src/compute/src]:

    - [TileRaster]: [raster.rs], the simplification of a drive, its guard and the
      segments on the tiles.  [TileGen]: [lib.rs], the page of positions, the
      accumulation, the packing and the payload.  [TileClean]: [cleaner.rs], with its
      theorem.
    - [TileRoute]: the simplification and the end of every drive; [TileTally]: what a
      generation adds up to; [TilePayload]: the payload and the page; their theorems.

    Shared: [Prelude] (record updates, machine integers, the error monad, tactics
    and hints), [Effects] (computations over an outside state), [RustStr] (the
    parts of [str]), [Text] (Unicode white space and the reading of floats), [F64]
    (binary64), [Bytes] (fixed-width integers), [BTree] ([BTreeMap] as an ordered
    association list), [External] (crates and [std::time]).

    ** How they interact

    An exchange ([Attempt.run_exchange]) reserves the stored refresh token, sends
    it ([Wire.send]), classifies the answer ([Wire.classify_answer]), computes the
    successor's schedule ([Schedule.after_send]) and persists it; the authority
    applies the published result ([Authority.apply_result]), and its gate decides
    when the next exchange may start; a 401 of a data request goes through the fuse
    ([Rejection.record_rejection]); the derived status is stored ([AuthState.set])
    and a restart rebuilds all of it ([Restore]).  The pair is sealed by [Cloak]
    under a key that [KeyFiles] keeps.

    The scheduler classifies each failed request ([SchedAccount.classify]), takes
    frames of the stream as evidence ([SchedLoop.apply_frame_evidence]), asks the
    ledger before a paid request ([SchedTick.admit_request]) and gives its rows to
    the store once per tick ([SchedTick.take_tick], then [commit_succeeded] or
    [commit_failed]).

    Each stored observation goes once through [LifeProject.apply_sample]: the
    payload is parsed ([LifeParse.parse_sample]), its groups are compared with the
    watermarks of the session ([LifeSteps.fresh_families]), the evidence is
    classified, the ten steps close, open and fold the sessions
    ([LifeProject.apply_lifecycle_steps] over [LifeApply]), and the watermarks move.
    A page merges the deltas ([LifeProject.merge_step_delta]); the store labels the
    closed drives with [Geo.apply_geofence_labels] and prices the closed charges
    with [LifeCost.calculate_charge_cost].

    The rows the lifecycle wrote are read back by the history routes: a handler
    parses the query with its cursor ([PublicQuery.parse_query]), asks the store for
    one row more than the page holds, and cuts the page at its limit and at the byte
    limit ([PublicQuery.bounded_public_page]) with a cursor after its last row.

    The same rows go to the mirrors of the owner's devices: each write leaves a
    mutation in a journal, a claim of them becomes a delta
    ([SyncDelta.projection_delta_for_mutations]), which the pack checks
    ([PackRules.validate_delta]) and the lineage chains to its parent
    ([SyncProtocol.canonical_delta_chain_digest]); a long lineage is shortened by a
    delta made of the journal ([SyncDelta.projection_delta_for_compaction]); and a
    receiver verifies the manifest, the cursor and each object
    ([SyncProtocol.manifest_validate], [SyncProtocol.cursor_verify],
    [SyncReader.verify_reader]).

    The positions of a month's drives are cleaned
    ([TileClean.prepare_positions_for_tile_rendering_v1]) and given in pages to
    [TileGen.generate_internal], which draws each drive at every zoom
    ([TileRaster.visit_drive_lod_tiers]), counts how often each segment is drawn
    ([TileGen.merge_raw_segment]) and packs the counts ([TileGen.finish]).

    ** How the code is represented

    Structs are records with the source's fields (prefixed where two structs
    share a name), enums are inductive types, [&mut self] methods return the new
    record, [Result] is [result] and [Option] is [option].  Integers are [Z] with
    the width written in the operation ([i64_sadd] is [saturating_add], [i64_sub]
    the wrapping subtraction of a release build).  A [&str] is its bytes.  Times
    are arguments, as in the code; an [Instant] and a [Duration] are nanoseconds,
    and one call of a scheduler operation reads one clock.  The jitter source is
    an infinite sequence of doubles that each draw shifts.  A [BTreeMap] is a list
    in key order, so a loop over it is a fold in the code's order; a [HashMap]
    whose order cannot be seen is represented the same way.

    The raster kernel returns nothing of its caller but an error, so it is a list of
    what it asks for ([TileRaster.Action]: a checkpoint, an evaluation of the budget, a
    segment to visit, an error) with its result, and [TileGen.perform] does each in
    order; the cancellation flag and the progress callback answer from a state of their
    own ([TileGen.Control]), and a visitor of pages is a tree over the answers it gets
    ([TileGen.Visitor]).

    Async functions that only await ports are computations over an arbitrary
    outside state ([Effects.st]), so a theorem about them holds for every behaviour
    of the store, the clock, the guard and the network.  The key files run in a
    world whose every system call may fail or be the last before a crash.  Code
    outside [src/] is a parameter: the [url], [base64] and [serde_json] crates
    ([External], [Wire.JsonText]), SHA-256 ([External.Digest]), the AEAD of
    [Cloak], the [time] crate ([Ledger.Calendar]), [sin], [cos] and [asin] of the
    platform ([F64.Libm]), [tan] and [ln] ([TileRaster.TileLibm]), the [hex] crate ([CursorKey.Hex]), the length of a JSON
    text ([PublicQuery.PageJson]), the reading of stored rows ([SyncDelta.RowJson]), the
    zstd decoder ([SyncReader.Zstd], which may ask its source for bytes, give bytes or
    fail, as it likes), the row store of the recorder
    ([AuthState.StatusSink]) and the reads of the SQLite store ([PairRow.HubStore]);
    concrete instances evaluate the examples and witnesses.

    ** What the theorems show

    - The money: scheduled polling never passes the cap under any interleaving of
      starts, completions, plans, commits and crashes; a crash never loses a
      request that may have been billed; a planned request waits for its
      reservation at most once; month keys order like the months; every row the
      ledger writes passes the table's checks ([LedgerSafety]).
    - The refresh token: an exchange sends at most once, after reserving, and
      never frees an input that is or may be spent ([AttemptSafety]); such a
      token is never presented again, token requests are a minute apart, and the
      pair in use changes only when its successor is written
      ([AuthoritySafety]); grants are accepted exactly when sound and the
      outcome table tells truthfully what was spent ([Wire]); the endpoint rules
      are implemented exactly ([Endpoint]); a re-read proves a write ([PairRow]).
    - Stops and status: a stop needs three rejected generations, one token counts
      once, confirmation reads are spaced ([Rejection]); a restart keeps stops,
      is idempotent and spaces requests ([Restore]); derived and restored
      statuses are always storable and read back exactly ([AuthoritySafety],
      [Restore], [AuthState]); the read-only view agrees with a restart
      ([Effective]).
    - The keys: whatever fails or dies and whenever, a committed pair opens at the
      next start, a replacement is atomic and a cursor key is created once
      ([KeyRecovery]); a sealed pair opens ([Cloak]).
    - The stream: rows and receipts are audited in every prefix of a run, and a run
      that answers, with an error or without, has completed them unless the audit store
      itself failed ([StreamAudit]); what is delivered is well formed and of the right car, the
      power gate is open only inside a session, and a session whose peer is gone
      ends ([StreamDelivery]); a frame is read by its columns ([StreamWire]).
    - The scheduler: the choice of due requests is fair, capped and empty for a
      stopped account, and the loop never sleeps past a deadline ([SchedDue]); a
      committed tick leaves nothing to write ([SchedCommit]); every reachable
      scheduler is well formed, and a Suspended car is read only at the end of its
      suspension or behind the live gate, except after the two operations that
      lose the gate ([SchedSteps]); a stored row reads back, a failed commit returns
      every field of the tick's baseline but a credential stop and a sent probe and the first account stop stands ([SchedRestart]).
    - The lifecycle: any page of observations applies to its end, and an invariant
      of every session that collection reaches from a new one - the seed of an imported
      open session, which may hold both, is left out - says that a drive and a charge
      are never open together and that a restart decodes the session; every row is well formed;
      redelivery changes nothing; a fact counts once; no position is lost in a
      merge ([LifeProps]); a parked fact ends a drive at its own time although
      later positions were folded first ([LifeLead]); the state intervals tile the
      timeline ([LifeStates]); the label of a point does not depend on an order
      ([Geo]), and the folded facts of a charge decide as its sorted samples do
      ([LifeCost]).
    - The public history: a cursor is accepted exactly when the Hub issued it for
      the same request ([PublicCursor]); a client that follows the cursors sees every
      row of the window once and in order, and no page passes its limits
      ([PublicHistory]).
    - The sync: the delta of a claim brings a lagging mirror to the stored rows
      and compacting a run of the journal is replaying it ([SyncMirror]); an accepted object is the one the digest names, what it
      decodes to has the declared size and header, and its verification ends ([SyncReader]); the head digest commits to every pack before it
      and a cursor verifies exactly as what was issued ([SyncSafety]); a
      position row of the lifecycle is published unless it is at (0, 0) ([PackLife]).
    - The map tiles: the payload is the same for every order of the drives and every
      grouping into pages ([TileTally]); it holds every segment that is drawn, within
      its bounds and in order, and a page of positions reads back ([TilePayload]); a
      simplified route keeps the shape of the drive, and the kernel ends on every drive
      ([TileRoute]); a cleaned drive is a part of the raw one ([TileClean]).

    ** Bounds and fuel

    The recursion is structural everywhere but in these places.
    [RustStr.dec_width] gives 20 steps, enough for the at most 20 digits of a
    [u64].  A stream session's read loop counts its wakes, and
    [StreamDelivery.silent_session_terminates] gives the number that is enough; the
    audit theorems hold for every number of wakes and attempts.  Time arguments are
    bounded only where a theorem says so, far above any clock ([sane_time] is an
    hour below the largest [i64]).  An observation takes at most ten identifiers of a
    kind ([LifeTotal.STEP_IDS]), so a page of [n] applies while each counter has
    room for [10 * n].  A walk through pages counts its requests, and one per row and
    one more are enough.  The verification of an object takes one step per declared byte
    and two more, and the drain of its rest one per byte left and one more
    ([SyncReader.verified_object_is_the_named_one] shows that they are enough).  The
    stack loops of the raster kernel take two steps per point of their range, which is
    enough for every drive ([TileRoute.every_drive_ends]); its walk over tiles is bounded
    by the 4096 iterations of the code.

    ** What is not modelled

    SQL, sockets, TLS, cryptography and the tasks that drive the modelled
    decisions; logging, the status page, the events of a no-data close and the
    write guard of the scheduler; the seed of a session from an import and the JSON
    text of a stored session; the SQLite writers and readers of packs, the planning of a
    compaction and the transactions that commit a lineage; the TeslaMate import, the
    HTTP server but for the history routes, the current state, the collector's tasks,
    geocoding and the macOS application.  The [Debug] implementations and zeroisation
    have no model.

    ** Plan

    What could follow: the current state, the planning of a compaction, the seed of an
    imported session and the staging of an import. *)
From Stdlib Require Export ZArith Lia Bool Ascii String.
From stdpp Require Export base decidable option list strings gmap list_numbers.

#[global] Open Scope Z_scope.
#[global] Open Scope bool_scope.

(** ** Record updates

    [r <| field := v |>] is Rust's [Self { field: v, ..r }] and the effect of an
    assignment [self.field = v].  A record type declares its field list once
    ([Eta]); the setter of a projection is found from it by type class search. *)

Class Eta (R : Type) := eta : R -> R.
Class Updatable {R E : Type} (getter : R -> E) := update_with : (E -> E) -> R -> R.
#[global] Arguments update_with {R E} getter {_} _ _ /.

Ltac derive_updatable :=
  match goal with
  | |- @Updatable ?R ?E ?g =>
      let f := fresh "f" in
      let r := fresh "r" in
      intros f r;
      let i := constr:(_ : Eta R) in
      let b := eval hnf in (@eta R i r) in
      match eval pattern (g r) in b with
      | ?k _ => let t := eval cbv beta in (k (f (g r))) in exact t
      end
  end.
#[export] Hint Extern 0 (@Updatable _ _ _) => derive_updatable : typeclass_instances.

Notation "r <| field := v |>" := (update_with field (fun _ => v) r)
  (at level 1, left associativity, format "r  <|  field  :=  v  |>").

(** ** Machine integers

    A Rust integer is a [Z] together with the operation the source applies to
    it; the width is written out in the operation.  Release builds of the Hub
    have no [overflow-checks], so plain [+], [-], [*] wrap. *)

Definition i64_min : Z := -9223372036854775808.
Definition i64_max : Z := 9223372036854775807.
Definition i32_min : Z := -2147483648.
Definition i32_max : Z := 2147483647.
Definition u8_max : Z := 255.
Definition u32_max : Z := 4294967295.
Definition u64_max : Z := 18446744073709551615.

Definition in_i64 (z : Z) : Prop := i64_min <= z <= i64_max.
Definition in_u64 (z : Z) : Prop := 0 <= z <= u64_max.
Definition in_u8 (z : Z) : Prop := 0 <= z <= u8_max.

Definition clamp (lo hi z : Z) : Z := Z.max lo (Z.min hi z).

Definition i64_sadd (a b : Z) : Z := clamp i64_min i64_max (a + b).
Definition i64_ssub (a b : Z) : Z := clamp i64_min i64_max (a - b).
Definition i64_smul (a b : Z) : Z := clamp i64_min i64_max (a * b).
Definition i64_wrap (z : Z) : Z := (z - i64_min) mod 18446744073709551616 + i64_min.
Definition i64_add (a b : Z) : Z := i64_wrap (a + b).
Definition i64_sub (a b : Z) : Z := i64_wrap (a - b).
Definition i64_mul (a b : Z) : Z := i64_wrap (a * b).

Definition u64_sadd (a b : Z) : Z := Z.min u64_max (a + b).
Definition u64_ssub (a b : Z) : Z := Z.max 0 (a - b).
Definition u64_smul (a b : Z) : Z := Z.min u64_max (a * b).
Definition u8_sadd (a b : Z) : Z := Z.min u8_max (a + b).
Definition u32_sadd (a b : Z) : Z := Z.min u32_max (a + b).
Definition u32_ssub (a b : Z) : Z := Z.max 0 (a - b).

(** [i64::try_from(u64)] and [u64::try_from(i64)]. *)
Definition i64_try_from (z : Z) : option Z :=
  if (i64_min <=? z) && (z <=? i64_max) then Some z else None.
Definition u64_try_from (z : Z) : option Z :=
  if (0 <=? z) && (z <=? u64_max) then Some z else None.

(** Unfold the width of every machine operation and call [lia]. *)
Ltac munfold :=
  unfold in_i64, in_u64, in_u8, i64_sadd, i64_ssub, i64_smul,
    u64_sadd, u64_ssub, u64_smul, u8_sadd, u32_sadd, u32_ssub, clamp,
    i32_min, i32_max, i64_min, i64_max, u64_max, u32_max, u8_max in *.
Ltac mlia := munfold; lia.

(** [lia] with quotients and remainders by constants. *)
Ltac dlia := Z.to_euclidean_division_equations; lia.

Lemma i64_wrap_small z : in_i64 z -> i64_wrap z = z.
Proof.
  unfold in_i64, i64_wrap, i64_min, i64_max; intros Hz.
  rewrite Z.mod_small; lia.
Qed.

Lemma i64_wrap_range z : in_i64 (i64_wrap z).
Proof.
  unfold in_i64, i64_wrap, i64_min, i64_max.
  pose proof (Z.mod_pos_bound (z - -9223372036854775808) 18446744073709551616); lia.
Qed.

Lemma i64_sadd_range a b : in_i64 (i64_sadd a b).
Proof. mlia. Qed.
Lemma i64_ssub_range a b : in_i64 (i64_ssub a b).
Proof. mlia. Qed.
Lemma i64_smul_range a b : in_i64 (i64_smul a b).
Proof. mlia. Qed.

Lemma i64_sadd_small a b : in_i64 (a + b) -> i64_sadd a b = a + b.
Proof. mlia. Qed.
Lemma i64_ssub_small a b : in_i64 (a - b) -> i64_ssub a b = a - b.
Proof. mlia. Qed.

Lemma i64_try_from_Some z n : i64_try_from z = Some n <-> n = z /\ in_i64 z.
Proof.
  unfold i64_try_from, in_i64.
  destruct (i64_min <=? z) eqn:?, (z <=? i64_max) eqn:?; simpl; naive_solver lia.
Qed.

Create HintDb machine.
Create Rewrite HintDb machine_rw.
#[export] Hint Resolve i64_wrap_range i64_sadd_range i64_ssub_range i64_smul_range : machine.
#[export] Hint Rewrite i64_wrap_small using (munfold; lia) : machine_rw.

(** ** [Result] *)

Inductive result (E A : Type) : Type :=
| Ok (a : A)
| Err (e : E).
Arguments Ok {E A} a.
Arguments Err {E A} e.

#[global] Instance result_ret {E} : MRet (result E) := fun _ a => Ok a.
#[global] Instance result_bind {E} : MBind (result E) := fun _ _ f m =>
  match m with Ok a => f a | Err e => Err e end.
#[global] Instance result_fmap {E} : FMap (result E) := fun _ _ f m =>
  match m with Ok a => Ok (f a) | Err e => Err e end.
#[global] Instance result_eq_dec `{EqDecision E, EqDecision A} : EqDecision (result E A).
Proof. solve_decision. Defined.

(** [Option::ok_or], [Result::ok], [Result::is_ok]. *)
Definition ok_or {E A} (o : option A) (e : E) : result E A :=
  match o with Some a => Ok a | None => Err e end.
Definition result_ok {E A} (r : result E A) : option A :=
  match r with Ok a => Some a | Err _ => None end.
Definition is_ok {E A} (r : result E A) : bool :=
  match r with Ok _ => true | Err _ => false end.

Lemma ok_or_Ok {E A} (o : option A) (e : E) a : ok_or o e = Ok a <-> o = Some a.
Proof. destruct o; simpl; naive_solver. Qed.

Lemma result_bind_Ok {E A B} (m : result E A) (f : A -> result E B) b :
  m ≫= f = Ok b <-> exists a, m = Ok a /\ f a = Ok b.
Proof. destruct m; simpl; naive_solver. Qed.

(** ** [Option] *)

Definition is_some {A} (o : option A) : bool := match o with Some _ => true | None => false end.
Definition is_none {A} (o : option A) : bool := negb (is_some o).
Definition is_some_and {A} (o : option A) (p : A -> bool) : bool :=
  match o with Some a => p a | None => false end.
Definition is_none_or {A} (o : option A) (p : A -> bool) : bool :=
  match o with Some a => p a | None => true end.
Definition opt_filter {A} (p : A -> bool) (o : option A) : option A :=
  match o with Some a => if p a then Some a else None | None => None end.
Definition opt_or {A} (a b : option A) : option A :=
  match a with Some _ => a | None => b end.
Definition map_or {A B} (o : option A) (d : B) (f : A -> B) : B :=
  match o with Some a => f a | None => d end.
Definition then_some {A} (b : bool) (a : A) : option A := if b then Some a else None.

(** [Iterator::find] and [Iterator::position]. *)
Fixpoint find_first {A} (p : A -> bool) (l : list A) : option A :=
  match l with
  | [] => None
  | x :: l => if p x then Some x else find_first p l
  end.

Lemma find_first_Some {A} (p : A -> bool) l x :
  find_first p l = Some x -> x ∈ l /\ p x = true.
Proof.
  induction l as [|y l IH]; simpl; [done|].
  destruct (p y) eqn:E; intros; simplify_eq; [by split; [left|]|].
  destruct IH; [done|]. split; [by right|done].
Qed.

(** A search by an injective key finds the element itself. *)
Lemma find_first_key {A} (key : A -> string) (l : list A) x :
  Inj (=) (=) key -> x ∈ l ->
  find_first (fun y => bool_decide (key y = key x)) l = Some x.
Proof.
  intros Hinj. induction l as [|y l IH]; simpl; intros Hx.
  - by apply elem_of_nil in Hx.
  - case_bool_decide as E.
    + f_equal. by apply Hinj.
    + apply elem_of_cons in Hx as [->|Hx]; [done|auto].
Qed.

(** A decidable property of the integers [lo .. lo + n - 1], by evaluation. *)
Lemma zrange_check (p : Z -> bool) lo n :
  forallb p (seqZ lo n) = true -> forall r, lo <= r < lo + n -> p r = true.
Proof.
  intros H r Hr. rewrite forallb_forall in H. apply H.
  apply list_elem_of_In, elem_of_seqZ. lia.
Qed.

(** ** Filters *)

Lemma filter_none {A} (P : A -> Prop) `{forall x, Decision (P x)} xs : (forall x, x ∈ xs -> ~ P x) -> filter P xs = [].
Proof.
  induction xs as [|x xs IH]; intros Hn; [done|]. rewrite filter_cons_False by (apply Hn; set_solver). apply IH. set_solver.
Qed.
Lemma filter_every {A} (P : A -> Prop) `{forall x, Decision (P x)} xs : Forall P xs -> filter P xs = xs.
Proof. induction 1; [done|]. rewrite filter_cons_True by done. congruence. Qed.
Lemma filter_bool_cons {A} (f : A -> bool) x xs :
  filter (fun y => f y) (x :: xs) = if f x then x :: filter (fun y => f y) xs else filter (fun y => f y) xs.
Proof. destruct (f x) eqn:E; [apply filter_cons_True|apply filter_cons_False]; by rewrite E; auto. Qed.

(** ** Tactics *)

(** Split every [match]/[if] in the goal and the hypotheses. *)
Ltac cases :=
  repeat (case_match || case_bool_decide || case_decide); simplify_eq/=.

(** Turn boolean facts into propositions and close the arithmetic. *)
Ltac bsimp :=
  repeat match goal with
  | H : (_ && _) = true |- _ => apply andb_true_iff in H as [??]
  | H : (_ || _) = false |- _ => apply orb_false_iff in H as [??]
  | H : negb _ = true |- _ => apply negb_true_iff in H
  | H : negb _ = false |- _ => apply negb_false_iff in H
  | H : bool_decide _ = true |- _ => apply bool_decide_eq_true in H
  | H : bool_decide _ = false |- _ => apply bool_decide_eq_false in H
  | H : (_ <=? _) = true |- _ => apply Z.leb_le in H
  | H : (_ <=? _) = false |- _ => apply Z.leb_gt in H
  | H : (_ <? _) = true |- _ => apply Z.ltb_lt in H
  | H : (_ <? _) = false |- _ => apply Z.ltb_ge in H
  | H : (_ =? _) = true |- _ => apply Z.eqb_eq in H
  | H : (_ =? _) = false |- _ => apply Z.eqb_neq in H
  end.
