(* ===== verification/Effects.v ===== *)
(** * Computations over an outside state

    Async code that only awaits ports is a function of an arbitrary state [S]
    that stands for everything outside it.  A port wrapped by [noting] appends
    the call it was to a log, so that theorems can speak of the calls a
    computation makes, in order, whatever the outside answers.  [wp] is the
    weakest precondition of a computation, with one rule per construct. *)
From S2P Require Import Prelude.

Definition st (S A : Type) : Type := S -> A * S.
#[export] Instance st_ret {S} : MRet (st S) := fun _ a s => (a, s).
#[export] Instance st_bind {S} : MBind (st S) := fun _ _ f m s => let '(a, s) := m s in f a s.

(** Run an operation and note the call it was; run one without noting it. *)
Definition noting {C S A : Type} (call : A -> C) (m : st S A) : st (S * list C) A :=
  fun w => let '(a, s) := m w.1 in (a, (s, (w.2 ++ [call a])%list)).
Definition quiet {C S A : Type} (m : st S A) : st (S * list C) A :=
  fun w => let '(a, s) := m w.1 in (a, (s, w.2)).

Definition wp {S A} (m : st S A) (Q : A -> S -> Prop) (s : S) : Prop := let '(a, s') := m s in Q a s'.

Lemma wp_ret {S A} (a : A) Q (s : S) : Q a s -> wp (mret a) Q s.
Proof. done. Qed.
Lemma wp_bind {S A B} (m : st S A) (f : A -> st S B) Q s :
  wp m (fun a s' => wp (f a) Q s') s -> wp (m ≫= f) Q s.
Proof. unfold wp, mbind, st_bind. by destruct (m s). Qed.
Lemma wp_mono {S A} (m : st S A) (P Q : A -> S -> Prop) s :
  wp m P s -> (forall a s', P a s' -> Q a s') -> wp m Q s.
Proof. unfold wp. destruct (m s). auto. Qed.
Lemma wp_elim {S A} (m : st S A) Q s a s' : wp m Q s -> m s = (a, s') -> Q a s'.
Proof. unfold wp. intros H E. by rewrite E in H. Qed.
Lemma wp_intro {S A} (m : st S A) (Q : A -> S -> Prop) s :
  (forall a s', m s = (a, s') -> Q a s') -> wp m Q s.
Proof. unfold wp. intros H. destruct (m s). auto. Qed.
Lemma wp_quiet {C S A : Type} (m : st S A) Q s (log : list C) :
  (forall a s', Q a (s', log)) -> wp (quiet m) Q (s, log).
Proof. intros H. unfold wp, quiet. simpl. destruct (m s). apply H. Qed.
Lemma wp_noting {C S A : Type} (call : A -> C) (m : st S A) Q s log :
  (forall a s', Q a (s', (log ++ [call a])%list)) -> wp (noting call m) Q (s, log).
Proof. intros H. unfold wp, noting. simpl. destruct (m s). apply H. Qed.
