(* ===== verification/RustStr.v ===== *)
(** * The parts of Rust's [str], [u8] and [char] API that the Hub uses

    A [&str] is its byte sequence, held as a [string] of [ascii] (one [ascii]
    per byte).  Everything here is the behaviour of the Rust standard library
    on that byte sequence; the components call these definitions where the
    source calls the methods of the same name. *)
From S2P Require Import Prelude.

(** ** Bytes *)

Definition byte_of (c : ascii) : Z := Z.of_N (N_of_ascii c).

Definition is_ascii_digit (c : ascii) : bool := (48 <=? byte_of c) && (byte_of c <=? 57).
Definition is_ascii_lowercase (c : ascii) : bool := (97 <=? byte_of c) && (byte_of c <=? 122).
Definition is_ascii_uppercase (c : ascii) : bool := (65 <=? byte_of c) && (byte_of c <=? 90).
Definition is_ascii_alphabetic (c : ascii) : bool := is_ascii_lowercase c || is_ascii_uppercase c.
Definition is_ascii_alphanumeric (c : ascii) : bool := is_ascii_alphabetic c || is_ascii_digit c.
(** [u8::is_ascii_whitespace]: SP, HT, LF, FF, CR. *)
Definition is_ascii_whitespace (c : ascii) : bool :=
  let b := byte_of c in
  (b =? 32) || (b =? 9) || (b =? 10) || (b =? 12) || (b =? 13).
(** [u8::is_ascii_control]. *)
Definition is_ascii_control (c : ascii) : bool := (byte_of c <=? 31) || (byte_of c =? 127).
Definition to_ascii_lowercase (c : ascii) : ascii :=
  if is_ascii_uppercase c then ascii_of_N (N_of_ascii c + 32) else c.

(** ** UTF-8

    [str::from_utf8(..).is_ok()]: the well-formed sequences of the Unicode
    Standard (no overlong form, no surrogate, nothing past U+10FFFF). *)
Definition byte_in (lo hi : Z) (c : ascii) : bool := (lo <=? byte_of c) && (byte_of c <=? hi).
Definition is_continuation : ascii -> bool := byte_in 128 191.

Fixpoint is_utf8 (s : string) : bool :=
  match s with
  | EmptyString => true
  | String a s1 =>
      if byte_in 0 127 a then is_utf8 s1
      else match s1 with
      | EmptyString => false
      | String b s2 =>
          if byte_in 194 223 a then is_continuation b && is_utf8 s2
          else match s2 with
          | EmptyString => false
          | String c s3 =>
              let second := if byte_of a =? 224 then byte_in 160 191 b
                            else if byte_of a =? 237 then byte_in 128 159 b
                            else byte_in 225 239 a && is_continuation b in
              if second then is_continuation c && is_utf8 s3
              else match s3 with
              | EmptyString => false
              | String d s4 =>
                  (if byte_of a =? 240 then byte_in 144 191 b
                   else if byte_of a =? 244 then byte_in 128 143 b
                   else byte_in 241 243 a && is_continuation b)
                  && is_continuation c && is_continuation d && is_utf8 s4
              end
          end
      end
  end.

(** ** Whole strings *)

Fixpoint str_all (p : ascii -> bool) (s : string) : bool :=
  match s with
  | EmptyString => true
  | String c s => p c && str_all p s
  end.
Fixpoint str_any (p : ascii -> bool) (s : string) : bool :=
  match s with
  | EmptyString => false
  | String c s => p c || str_any p s
  end.
Definition str_is_empty (s : string) : bool :=
  match s with EmptyString => true | _ => false end.
Definition str_len (s : string) : Z := Z.of_nat (String.length s).
Definition str_contains (c : ascii) (s : string) : bool :=
  str_any (fun d => bool_decide (d = c)) s.
Fixpoint eq_ignore_ascii_case (s t : string) : bool :=
  match s, t with
  | EmptyString, EmptyString => true
  | String a s, String b t =>
      bool_decide (to_ascii_lowercase a = to_ascii_lowercase b) && eq_ignore_ascii_case s t
  | _, _ => false
  end.

Fixpoint strip_prefix (p s : string) : option string :=
  match p, s with
  | EmptyString, _ => Some s
  | String a p, String b s => if bool_decide (a = b) then strip_prefix p s else None
  | String _ _, EmptyString => None
  end.

(** [str::strip_suffix] for a one-character suffix. *)
Fixpoint strip_suffix_char (c : ascii) (s : string) : option string :=
  match s with
  | EmptyString => None
  | String d EmptyString => if bool_decide (d = c) then Some EmptyString else None
  | String d s' => String d <$> strip_suffix_char c s'
  end.

(** [str::split(char)]: never empty; a separator-free text is its own only part. *)
Fixpoint str_split (c : ascii) (s : string) : list string :=
  match s with
  | EmptyString => [EmptyString]
  | String d s =>
      if bool_decide (d = c) then EmptyString :: str_split c s
      else match str_split c s with
           | [] => [String d EmptyString]
           | part :: parts => String d part :: parts
           end
  end.

(** [str::split_once(char)]: around the first separator. *)
Fixpoint split_once (c : ascii) (s : string) : option (string * string) :=
  match s with
  | EmptyString => None
  | String d s =>
      if bool_decide (d = c) then Some (EmptyString, s)
      else match split_once c s with
           | Some (a, b) => Some (String d a, b)
           | None => None
           end
  end.

(** [str::split_once(&str)]: around the first occurrence of a text. *)
Fixpoint split_once_str (p s : string) : option (string * string) :=
  match strip_prefix p s with
  | Some rest => Some (EmptyString, rest)
  | None =>
      match s with
      | EmptyString => None
      | String d s =>
          match split_once_str p s with
          | Some (a, b) => Some (String d a, b)
          | None => None
          end
      end
  end.

(** The first part of [str::split] at any byte of a set. *)
Fixpoint take_until (p : ascii -> bool) (s : string) : string :=
  match s with
  | EmptyString => EmptyString
  | String c s => if p c then EmptyString else String c (take_until p s)
  end.

(** The first [n] bytes and the rest, when there are as many. *)
Fixpoint str_split_at (n : nat) (s : string) : option (string * string) :=
  match n, s with
  | O, _ => Some (EmptyString, s)
  | S n, String c s =>
      match str_split_at n s with Some (a, b) => Some (String c a, b) | None => None end
  | S _, EmptyString => None
  end.

(** [str::trim_matches(set)]. *)
Fixpoint trim_start (p : ascii -> bool) (s : string) : string :=
  match s with
  | EmptyString => EmptyString
  | String c s' => if p c then trim_start p s' else s
  end.
Fixpoint trim_end (p : ascii -> bool) (s : string) : string :=
  match s with
  | EmptyString => EmptyString
  | String c s =>
      match trim_end p s with
      | EmptyString => if p c then EmptyString else String c EmptyString
      | t => String c t
      end
  end.
Definition trim_matches (p : ascii -> bool) (s : string) : string := trim_end p (trim_start p s).

(** [str::trim] on ASCII text: the whitespace characters below 0x80 of
    Unicode's [White_Space] (HT, LF, VT, FF, CR and SP). *)
Definition is_ascii_white_space (c : ascii) : bool :=
  let b := byte_of c in ((9 <=? b) && (b <=? 13)) || (b =? 32).
Definition trim_ascii (s : string) : string := trim_matches is_ascii_white_space s.

(** ** Decimal numbers *)

Definition digit_of (c : ascii) : option Z :=
  if is_ascii_digit c then Some (byte_of c - 48) else None.

Fixpoint digits_acc (acc : Z) (s : string) : option Z :=
  match s with
  | EmptyString => Some acc
  | String c s =>
      match digit_of c with
      | Some d => digits_acc (acc * 10 + d) s
      | None => None
      end
  end.

(** The value of a non-empty run of ASCII digits. *)
Definition digits_value (s : string) : option Z :=
  match s with EmptyString => None | _ => digits_acc 0 s end.

(** [str::parse] at an integer type with bounds [lo..=hi]: an optional [+] (and,
    for a signed type, [-]), then at least one digit, within the bounds. *)
Definition parse_int (lo hi : Z) (s : string) : option Z :=
  let bounded v := if (lo <=? v) && (v <=? hi) then Some v else None in
  match s with
  | EmptyString => None
  | String c rest =>
      if bool_decide (c = "+"%char) then digits_value rest ≫= bounded
      else if bool_decide (c = "-"%char) && (lo <? 0)
           then digits_value rest ≫= fun v => bounded (- v)
      else digits_value s ≫= bounded
  end.
Definition parse_i64 : string -> option Z := parse_int i64_min i64_max.

Definition digit_char (d : Z) : ascii := ascii_of_N (Z.to_N (d + 48)).

(** [{:0width$}] of a non-negative number that fits the width. *)
Fixpoint print_fixed (width : nat) (z : Z) : string :=
  match width with
  | O => EmptyString
  | S w => String (digit_char (z / 10 ^ Z.of_nat w mod 10)) (print_fixed w z)
  end.

(** The number of decimal digits of [z], at least 1; [fuel] bounds it. *)
Fixpoint dec_width (fuel : nat) (z : Z) : nat :=
  match fuel with
  | O => 1%nat
  | S f => if z <? 10 then 1%nat else S (dec_width f (z / 10))
  end.

(** [format!("{}", u64)]: at most 20 digits, so 20 steps are enough. *)
Definition print_u64 (z : Z) : string := print_fixed (dec_width 20 z) z.

(** ** Lemmas *)

Lemma byte_of_digit_char d : 0 <= d <= 9 -> byte_of (digit_char d) = d + 48.
Proof.
  intros. unfold byte_of, digit_char.
  rewrite N_ascii_embedding by lia. lia.
Qed.

Lemma digit_of_digit_char d : 0 <= d <= 9 -> digit_of (digit_char d) = Some d.
Proof.
  intros H. unfold digit_of, is_ascii_digit. rewrite byte_of_digit_char by done.
  destruct (48 <=? d + 48) eqn:?, (d + 48 <=? 57) eqn:?; bsimp; try lia. simpl. f_equal. lia.
Qed.

Lemma digit_of_Some c d : digit_of c = Some d -> 0 <= d <= 9 /\ is_ascii_digit c = true.
Proof. unfold digit_of. destruct (is_ascii_digit c) eqn:E; [|done]. unfold is_ascii_digit in E. bsimp. intros. simplify_eq. lia. Qed.

Lemma digits_acc_all s acc v : digits_acc acc s = Some v -> str_all is_ascii_digit s = true.
Proof.
  revert acc; induction s as [|c s IH]; simpl; intros acc; [done|].
  destruct (digit_of c) eqn:E; [|done].
  intros H%IH. apply digit_of_Some in E as [_ ->]. done.
Qed.

Lemma digits_acc_is_Some s acc : str_all is_ascii_digit s = true -> is_Some (digits_acc acc s).
Proof.
  revert acc; induction s as [|c s IH]; simpl; intros acc H; [done|].
  bsimp. unfold digit_of. rewrite H. eauto.
Qed.

Lemma digits_acc_bounds s acc v :
  0 <= acc -> digits_acc acc s = Some v ->
  acc * 10 ^ str_len s <= v < (acc + 1) * 10 ^ str_len s.
Proof.
  unfold str_len. revert acc v; induction s as [|c s IH]; intros acc v Hacc; cbn -[Z.pow Z.of_nat].
  { intros; simplify_eq. simpl. lia. }
  destruct (digit_of c) as [d|] eqn:E; [|done]. apply digit_of_Some in E as [Hd _].
  intros H%IH; [|lia]. rewrite Nat2Z.inj_succ, Z.pow_succ_r by lia. nia.
Qed.

Lemma digits_acc_print_fixed w z acc :
  0 <= z -> digits_acc acc (print_fixed w z) = Some (acc * 10 ^ Z.of_nat w + z mod 10 ^ Z.of_nat w).
Proof.
  intros Hz. revert acc; induction w as [|w IH]; intros acc; cbn -[Z.pow Z.of_nat].
  { simpl. rewrite Z.mod_1_r. f_equal. lia. }
  rewrite digit_of_digit_char.
  2: { pose proof (Z.mod_pos_bound (z / 10 ^ Z.of_nat w) 10). lia. }
  rewrite IH. f_equal.
  rewrite Nat2Z.inj_succ, Z.pow_succ_r by lia.
  rewrite (Z.mul_comm 10), Z.rem_mul_r by lia. ring.
Qed.

Lemma print_fixed_len w z : str_len (print_fixed w z) = Z.of_nat w.
Proof. unfold str_len. induction w; simpl; [done|]. lia. Qed.

Lemma digits_acc_print w z :
  0 <= z < 10 ^ Z.of_nat w -> digits_acc 0 (print_fixed w z) = Some z.
Proof. intros. rewrite digits_acc_print_fixed by lia. rewrite Z.mod_small by lia. done. Qed.

Lemma print_fixed_digits w z : 0 <= z -> str_all is_ascii_digit (print_fixed w z) = true.
Proof. intros. eapply digits_acc_all. by apply (digits_acc_print_fixed w z 0). Qed.

Lemma dec_width_bound fuel z : 0 <= z < 10 ^ (Z.of_nat fuel + 1) -> z < 10 ^ Z.of_nat (dec_width fuel z).
Proof.
  revert z; induction fuel as [|f IH]; intros z Hz; cbn -[Z.pow Z.of_nat]; [simpl in *; lia|].
  destruct (z <? 10) eqn:E; bsimp; [simpl; lia|].
  rewrite Nat2Z.inj_succ, Z.pow_succ_r by lia.
  assert (z / 10 < 10 ^ Z.of_nat (dec_width f (z / 10))).
  { apply IH. split; [apply Z.div_pos; lia|]. apply Z.div_lt_upper_bound; [lia|].
    rewrite <- Z.pow_succ_r by lia. replace (Z.succ (Z.of_nat f + 1)) with (Z.of_nat (S f) + 1) by lia. lia. }
  pose proof (Z.div_mod z 10). pose proof (Z.mod_pos_bound z 10). nia.
Qed.

Lemma dec_width_pos fuel z : exists w, dec_width fuel z = S w.
Proof. destruct fuel; simpl; [eauto|]. case_match; eauto. Qed.

Lemma print_u64_value z : in_u64 z -> digits_value (print_u64 z) = Some z.
Proof.
  intros Hz. unfold print_u64, digits_value.
  assert (Hv : digits_acc 0 (print_fixed (dec_width 20 z) z) = Some z).
  { apply digits_acc_print. split; [mlia|]. apply dec_width_bound.
    unfold in_u64, u64_max in Hz. simpl. lia. }
  destruct (dec_width_pos 20 z) as [w Hw]. rewrite Hw in *. exact Hv.
Qed.

(** Joining parts that hold no separator and splitting again gives the parts. *)
Fixpoint str_join (c : ascii) (l : list string) : string :=
  match l with
  | [] => EmptyString
  | [s] => s
  | s :: l => append s (String c (str_join c l))
  end.

Lemma str_split_app c s t :
  str_contains c s = false ->
  str_split c (append s (String c t)) = s :: str_split c t.
Proof.
  unfold str_contains. induction s as [|d s IH]; simpl; intros H.
  - by rewrite bool_decide_true.
  - bsimp. rewrite bool_decide_false by done. by rewrite IH.
Qed.

Lemma str_split_none c s : str_contains c s = false -> str_split c s = [s].
Proof.
  unfold str_contains. induction s as [|d s IH]; simpl; intros H; [done|].
  bsimp. rewrite bool_decide_false by done. by rewrite IH.
Qed.

Lemma str_split_join c l :
  l <> [] -> Forall (fun s => str_contains c s = false) l -> str_split c (str_join c l) = l.
Proof.
  intros Hne Hall. induction Hall as [|s l Hs Hl IH]; [done|].
  destruct l as [|t l]; simpl; [by apply str_split_none|].
  rewrite str_split_app by done. f_equal. by apply IH.
Qed.

Lemma str_all_not_contains p c s : str_all p s = true -> p c = false -> str_contains c s = false.
Proof.
  unfold str_contains. induction s as [|d s IH]; simpl; [done|].
  intros H Hc. bsimp. rewrite bool_decide_false by congruence. auto.
Qed.

Lemma str_split_nonempty c s : str_split c s <> [].
Proof. destruct s; simpl; [done|]. case_bool_decide; [done|]. by case_match. Qed.

(** Splitting loses nothing. *)
Lemma str_join_split c s : str_join c (str_split c s) = s.
Proof.
  induction s as [|d s IH]; simpl; [done|].
  case_bool_decide as E.
  - subst. pose proof (str_split_nonempty c s). destruct (str_split c s) eqn:Es; [done|].
    simpl. by rewrite <- IH.
  - destruct (str_split c s) as [|p ps] eqn:Es; [by apply str_split_nonempty in Es|].
    rewrite <- IH. destruct ps; done.
Qed.

Lemma strip_suffix_char_app c s : strip_suffix_char c (append s (String c EmptyString)) = Some s.
Proof.
  induction s as [|d s IH]; simpl; [by rewrite bool_decide_true|].
  rewrite IH. destruct s; done.
Qed.

Lemma strip_suffix_char_Some c s t :
  strip_suffix_char c s = Some t -> s = append t (String c EmptyString).
Proof.
  revert t; induction s as [|d s IH]; intros t; simpl; [done|].
  destruct s as [|e s].
  - case_bool_decide; intros; simplify_eq. done.
  - destruct (strip_suffix_char c (String e s)) as [u|] eqn:E; simpl; [|done].
    intros [= <-]. by rewrite (IH u).
Qed.

Lemma digit_char_of c d : digit_of c = Some d -> digit_char d = c.
Proof.
  unfold digit_of. destruct (is_ascii_digit c) eqn:E; [|done]. intros [= <-].
  unfold digit_char, byte_of. replace (Z.to_N (Z.of_N (N_of_ascii c) - 48 + 48)) with (N_of_ascii c) by lia.
  apply ascii_N_embedding.
Qed.

(** A digit run is the zero-padded print of its value. *)
Lemma print_fixed_digits_acc s acc v :
  0 <= acc -> digits_acc acc s = Some v -> print_fixed (String.length s) v = s.
Proof.
  revert acc; induction s as [|c s IH]; intros acc Hacc; cbn -[Z.pow Z.of_nat]; [done|].
  destruct (digit_of c) as [d|] eqn:E; [|done]. intros H.
  pose proof (digit_of_Some _ _ E) as [Hd _].
  rewrite (IH (acc * 10 + d)) by (done || lia). f_equal.
  apply digits_acc_bounds in H; [|lia]. unfold str_len in H.
  replace (v / 10 ^ Z.of_nat (String.length s)) with (acc * 10 + d).
  2: { apply (Z.div_unique_pos _ _ _ (v - (acc * 10 + d) * 10 ^ Z.of_nat (String.length s))); lia. }
  rewrite (Z.add_comm (acc * 10)), Z_mod_plus_full, Z.mod_small by lia. by apply digit_char_of.
Qed.

Lemma digits_value_nonneg s v : digits_value s = Some v -> 0 <= v.
Proof.
  unfold digits_value. destruct s as [|c s]; [done|].
  intros H%digits_acc_bounds; [|lia]. lia.
Qed.

(** On a digit run, [parse] reads the value and checks the bounds only. *)
Lemma parse_int_digits lo hi s :
  str_all is_ascii_digit s = true -> lo <= 0 ->
  parse_int lo hi s = digits_value s ≫= fun v => if v <=? hi then Some v else None.
Proof.
  intros Hs Hlo. unfold parse_int. destruct s as [|c s]; [done|].
  assert (Hc : is_ascii_digit c = true) by (simpl in Hs; by bsimp).
  rewrite (bool_decide_false (c = "+"%char)), (bool_decide_false (c = "-"%char)) by (intros ->; done).
  cbn [andb]. destruct (digits_value (String c s)) as [v|] eqn:E; [|done].
  apply digits_value_nonneg in E. cbn [mbind option_bind].
  replace (lo <=? v) with true by lia. done.
Qed.

Lemma trim_start_fix p s : str_all (fun c => negb (p c)) s = true -> trim_start p s = s.
Proof. destruct s; simpl; [done|]. intros H. bsimp. by rewrite H. Qed.

Lemma trim_end_fix p s : str_all (fun c => negb (p c)) s = true -> trim_end p s = s.
Proof.
  induction s as [|c s IH]; simpl; [done|]. intros H. bsimp.
  rewrite IH by done. rewrite H. by destruct s.
Qed.

Lemma trim_matches_fix p s : str_all (fun c => negb (p c)) s = true -> trim_matches p s = s.
Proof. intros. unfold trim_matches. rewrite trim_start_fix by done. by apply trim_end_fix. Qed.

(** Fixed-width numbers compare as strings the way they compare as numbers. *)
Lemma ascii_compare_digit a b : 0 <= a <= 9 -> 0 <= b <= 9 ->
  Ascii.compare (digit_char a) (digit_char b) = Z.compare a b.
Proof.
  intros Ha Hb. unfold Ascii.compare.
  assert (forall d, 0 <= d <= 9 -> N_of_ascii (digit_char d) = Z.to_N (d + 48)) as Hd.
  { intros d Hd. pose proof (byte_of_digit_char d Hd) as H. unfold byte_of in H. lia. }
  rewrite !Hd by done. destruct (Z.compare_spec a b); [apply N.compare_eq_iff|apply N.compare_lt_iff|
    apply N.compare_gt_iff]; lia.
Qed.

Lemma lex_compare p q x y n : 0 <= x < n -> 0 <= y < n ->
  Z.compare (p * n + x) (q * n + y) = match Z.compare p q with Eq => Z.compare x y | r => r end.
Proof.
  intros Hx Hy. destruct (Z.compare_spec p q) as [->|?|?].
  - rewrite Z.add_compare_mono_l. done.
  - apply Z.compare_lt_iff. nia.
  - apply Z.compare_gt_iff. nia.
Qed.

Lemma compare_print_fixed_mod w a b s t : 0 <= a -> 0 <= b ->
  String.compare (append (print_fixed w a) s) (append (print_fixed w b) t)
  = match Z.compare (a mod 10 ^ Z.of_nat w) (b mod 10 ^ Z.of_nat w) with
    | Eq => String.compare s t | r => r end.
Proof.
  intros Ha Hb. induction w as [|w IH]; [simpl; by rewrite !Z.mod_1_r|].
  cbn [print_fixed]. change (append (String ?c ?u) ?v) with (String c (append u v)).
  cbn [String.compare].
  assert (0 < 10 ^ Z.of_nat w) by (apply Z.pow_pos_nonneg; lia).
  assert (forall z, 0 <= z / 10 ^ Z.of_nat w mod 10 <= 9) as Hm.
  { intros z. pose proof (Z.mod_pos_bound (z / 10 ^ Z.of_nat w) 10). lia. }
  rewrite ascii_compare_digit, IH by done.
  rewrite Nat2Z.inj_succ, Z.pow_succ_r, (Z.mul_comm 10), !Z.rem_mul_r by lia.
  rewrite !(Z.add_comm (_ mod 10 ^ _)), !(Z.mul_comm (10 ^ _)).
  rewrite lex_compare by (apply Z.mod_pos_bound; lia).
  by destruct (Z.compare (_ / _ mod 10) _).
Qed.

Lemma compare_print_fixed w a b s t :
  0 <= a < 10 ^ Z.of_nat w -> 0 <= b < 10 ^ Z.of_nat w ->
  String.compare (append (print_fixed w a) s) (append (print_fixed w b) t)
  = match Z.compare a b with Eq => String.compare s t | r => r end.
Proof. intros. rewrite compare_print_fixed_mod, !Z.mod_small by lia. done. Qed.

Lemma str_append_nil s : append s EmptyString = s.
Proof.
  induction s as [|c s IH]; [done|].
  change (append (String c s) EmptyString) with (String c (append s EmptyString)). by rewrite IH.
Qed.

Lemma str_append_cons c s t : append (String c s) t = String c (append s t).
Proof. done. Qed.
Lemma str_len_app s t : str_len (append s t) = str_len s + str_len t.
Proof. unfold str_len. induction s as [|c s IH]; [done|]. rewrite str_append_cons. cbn [String.length]. lia. Qed.

Lemma split_once_app c s u :
  str_contains c s = false -> split_once c (append s (String c u)) = Some (s, u).
Proof.
  unfold str_contains. induction s as [|d s IH]; simpl; intros H.
  - by rewrite bool_decide_true.
  - bsimp. rewrite bool_decide_false by done. by rewrite IH.
Qed.

Lemma split_once_Some c s a b :
  split_once c s = Some (a, b) -> s = append a (String c b) /\ str_contains c a = false.
Proof.
  unfold str_contains. revert a; induction s as [|d s IH]; intros a; simpl; [done|].
  case_bool_decide as E; [intros; by simplify_eq|].
  destruct (split_once c s) as [[x y]|] eqn:Es; [|done]. intros; simplify_eq.
  destruct (IH x) as [-> Hx]; [done|]. split; [done|]. simpl. by rewrite bool_decide_false, Hx.
Qed.

Lemma split_once_None c s : split_once c s = None <-> str_contains c s = false.
Proof.
  unfold str_contains. induction s as [|d s IH]; simpl; [done|].
  case_bool_decide; simpl; [done|]. destruct (split_once c s) as [[x y]|]; naive_solver.
Qed.

Lemma strip_prefix_app p s : strip_prefix p (append p s) = Some s.
Proof.
  induction p as [|c p IH]; [done|]. rewrite str_append_cons. simpl. by rewrite bool_decide_true.
Qed.

Lemma strip_prefix_Some p s t : strip_prefix p s = Some t -> s = append p t.
Proof.
  revert s; induction p as [|c p IH]; intros [|d s]; simpl; intros; simplify_eq; [done..|].
  case_bool_decide; [|done]. subst. rewrite str_append_cons. f_equal. auto.
Qed.

Lemma str_all_app p s t : str_all p (append s t) = str_all p s && str_all p t.
Proof.
  induction s as [|c s IH]; [done|]. rewrite str_append_cons. simpl. by rewrite IH, andb_assoc.
Qed.

Lemma str_any_app p s t : str_any p (append s t) = str_any p s || str_any p t.
Proof.
  induction s as [|c s IH]; [done|]. rewrite str_append_cons. simpl. by rewrite IH, orb_assoc.
Qed.

(** A text of [q] bytes holds no [p] byte when no byte is both. *)
Lemma str_all_not_any p q s :
  (forall c, q c = true -> p c = false) -> str_all q s = true -> str_any p s = false.
Proof. intros Hpq. induction s as [|c s IH]; simpl; [done|]. intros H. bsimp. rewrite Hpq by done. auto. Qed.

Lemma digits_value_all s v : digits_value s = Some v -> s <> EmptyString /\ str_all is_ascii_digit s = true.
Proof. destruct s as [|c s]; [done|]. intros H. split; [done|]. exact (digits_acc_all (String c s) 0 v H). Qed.
