(* ===== verification/HttpDate.v ===== *)
(** * IMF-fixdate reading (src/src/auth/legacy_auth/http_date.rs)

    [parse_http_date] and its calendar helpers, translated statement by
    statement, and the theorem that the reader accepts exactly the IMF-fixdate
    texts of the proleptic Gregorian dates from 1970 to 9999 and returns their
    epoch second. *)
From S2P Require Import Prelude RustStr.

Local Open Scope string_scope.
Local Open Scope Z_scope.

Definition DAY_NAMES : list string := ["Sun"; "Mon"; "Tue"; "Wed"; "Thu"; "Fri"; "Sat"].
Definition MONTH_NAMES : list string :=
  ["Jan"; "Feb"; "Mar"; "Apr"; "May"; "Jun"; "Jul"; "Aug"; "Sep"; "Oct"; "Nov"; "Dec"].
Definition EPOCH_WEEKDAY_FROM_SUNDAY : Z := 4.

(** A number of exactly [width] ASCII digits. *)
Definition fixed_digits (text : string) (width : Z) : option Z :=
  if negb (str_len text =? width) || negb (str_all is_ascii_digit text) then None
  else parse_i64 text.

(** Rust's [%] and [/] on [i64] are [Z.rem] and [Z.quot]. *)
Definition is_leap_year (year : Z) : bool :=
  ((Z.rem year 4 =? 0) && negb (Z.rem year 100 =? 0)) || (Z.rem year 400 =? 0).

Definition days_in_month (year month : Z) : Z :=
  match month with
  | 1 | 3 | 5 | 7 | 8 | 10 | 12 => 31
  | 4 | 6 | 9 | 11 => 30
  | _ => if is_leap_year year then 29 else 28
  end.

Definition days_from_civil (year0 month day : Z) : Z :=
  let year := if month <=? 2 then year0 - 1 else year0 in
  let era := year / 400 in
  let year_of_era := year - era * 400 in
  let month_from_march := Z.rem (month + 9) 12 in
  let day_of_year := Z.quot (153 * month_from_march + 2) 5 + day - 1 in
  let day_of_era :=
    year_of_era * 365 + Z.quot year_of_era 4 - Z.quot year_of_era 100 + day_of_year in
  era * 146097 + day_of_era - 719468.

(** [Iterator::next] over an already split text. *)
Definition next {A} (l : list A) : option (A * list A) :=
  match l with [] => None | x :: l => Some (x, l) end.

(** [MONTH_NAMES.iter().position(|name| *name == month_name)]. *)
Fixpoint position (name : string) (names : list string) : option Z :=
  match names with
  | [] => None
  | n :: names => if bool_decide (n = name) then Some 0 else Z.succ <$> position name names
  end.

Definition parse_http_date (text : string) : option Z :=
  '(day_field, fields) ← next (str_split " "%char text);
  day_name ← strip_suffix_char ","%char day_field;
  '(f, fields) ← next fields;
  day ← fixed_digits f 2;
  '(month_name, fields) ← next fields;
  month0 ← position month_name MONTH_NAMES;
  let month := month0 + 1 in
  '(f, fields) ← next fields;
  year ← fixed_digits f 4;
  '(f, fields) ← next fields;
  let clock := str_split ":"%char f in
  '(f, clock) ← next clock;
  hour ← fixed_digits f 2;
  '(f, clock) ← next clock;
  minute ← fixed_digits f 2;
  '(f, clock) ← next clock;
  second ← fixed_digits f 2;
  if is_some (next clock) then None else
  '(zone, fields) ← next fields;
  if negb (bool_decide (zone = "GMT")) || is_some (next fields) then None else
  if (year <? 1970) || negb ((1 <=? day) && (day <=? days_in_month year month)) then None else
  if (23 <? hour) || (59 <? minute) || (59 <? second) then None else
  let days := days_from_civil year month day in
  let weekday := (days + EPOCH_WEEKDAY_FROM_SUNDAY) mod 7 in
  name ← DAY_NAMES !! Z.to_nat weekday;
  if negb (bool_decide (name = day_name)) then None else
  Some (days * 86400 + hour * 3600 + minute * 60 + second).

(** ** Specification: the calendar and its printed form *)

Record civil := Civil
  { c_year : Z; c_month : Z; c_day : Z; c_hour : Z; c_minute : Z; c_second : Z }.

Definition civil_valid (c : civil) : Prop :=
  1970 <= c_year c <= 9999 /\ 1 <= c_month c <= 12 /\
  1 <= c_day c <= days_in_month (c_year c) (c_month c) /\
  0 <= c_hour c <= 23 /\ 0 <= c_minute c <= 59 /\ 0 <= c_second c <= 59.

(** The day after a date, by the rules of the calendar alone. *)
Definition next_day (y m d : Z) : Z * Z * Z :=
  if d <? days_in_month y m then (y, m, d + 1)
  else if m <? 12 then (y, m + 1, 1) else (y + 1, 1, 1).

Definition civil_days (c : civil) : Z := days_from_civil (c_year c) (c_month c) (c_day c).
Definition civil_epoch (c : civil) : Z :=
  civil_days c * 86400 + c_hour c * 3600 + c_minute c * 60 + c_second c.

Definition nth_name (names : list string) (i : Z) : string := names !!! Z.to_nat i.

(** The IMF-fixdate of RFC 9110 section 5.6.7. *)
Definition imf_fixdate (c : civil) : string :=
  str_join " "%char
    [ append (nth_name DAY_NAMES ((civil_days c + EPOCH_WEEKDAY_FROM_SUNDAY) mod 7)) ",";
      print_fixed 2 (c_day c);
      nth_name MONTH_NAMES (c_month c - 1);
      print_fixed 4 (c_year c);
      str_join ":"%char
        [print_fixed 2 (c_hour c); print_fixed 2 (c_minute c); print_fixed 2 (c_second c)];
      "GMT" ].

Example imf_rfc : imf_fixdate (Civil 1994 11 6 8 49 37) = "Sun, 06 Nov 1994 08:49:37 GMT".
Proof. vm_compute. reflexivity. Qed.
Example parse_rfc : parse_http_date "Sun, 06 Nov 1994 08:49:37 GMT" = Some 784111777.
Proof. vm_compute. reflexivity. Qed.
Example parse_wrong_weekday : parse_http_date "Mon, 06 Nov 1994 08:49:37 GMT" = None.
Proof. vm_compute. reflexivity. Qed.

(** ** The calendar *)

Ltac month_cases H :=
  match type of H with
  | 1 <= ?m <= 12 =>
      assert (m = 1 \/ m = 2 \/ m = 3 \/ m = 4 \/ m = 5 \/ m = 6 \/ m = 7 \/ m = 8 \/
              m = 9 \/ m = 10 \/ m = 11 \/ m = 12) as Hcases by lia; clear H;
      destruct Hcases as [->|[->|[->|[->|[->|[->|[->|[->|[->|[->|[->| ->]]]]]]]]]]]
  end.

Lemma is_leap_year_spec y : 0 <= y ->
  is_leap_year y = ((y mod 4 =? 0) && negb (y mod 100 =? 0)) || (y mod 400 =? 0).
Proof. intros. unfold is_leap_year. rewrite !Z.rem_mod_nonneg by lia. done. Qed.

Lemma days_in_month_bounds y m : 28 <= days_in_month y m <= 31.
Proof.
  unfold days_in_month. destruct (is_leap_year y);
    repeat (case_match; try lia).
Qed.

(** The day count in the form [lia] reads: March-based year [y], month offset [mo]. *)
Lemma days_from_civil_div y m d : 1 <= y -> 1 <= m <= 12 ->
  days_from_civil y m d =
    let y' := if m <=? 2 then y - 1 else y in
    let yoe := y' mod 400 in
    (y' / 400) * 146097 + (yoe * 365 + yoe / 4 - yoe / 100
      + ((153 * ((m + 9) mod 12) + 2) / 5 + d - 1)) - 719468.
Proof.
  intros Hy Hm. unfold days_from_civil. cbv zeta.
  assert (Hyp : 0 <= (if m <=? 2 then y - 1 else y)) by (destruct (m <=? 2); lia).
  set (y' := if m <=? 2 then y - 1 else y) in *. clearbody y'.
  replace (y' - y' / 400 * 400) with (y' mod 400) by (rewrite Z.mod_eq; lia).
  pose proof (Z.mod_pos_bound y' 400). pose proof (Z.mod_pos_bound (m + 9) 12).
  rewrite Z.rem_mod_nonneg by lia. rewrite !Z.quot_div_nonneg by lia. done.
Qed.

(** The days before year-of-era [r] of an era that starts in March. *)
Definition era_days (r : Z) : Z := r * 365 + r / 4 - r / 100.

Definition leap_of_era (r : Z) : bool :=
  ((r mod 4 =? 0) && negb (r mod 100 =? 0)) || (r mod 400 =? 0).

(** One March-based year is 365 days, or 366 when its February is a leap one. *)
Lemma era_days_step r : 0 < r < 400 ->
  era_days r = era_days (r - 1) + (if leap_of_era r then 366 else 365).
Proof.
  intros Hr. apply Z.eqb_eq.
  apply (zrange_check
    (fun r => era_days r =? era_days (r - 1) + (if leap_of_era r then 366 else 365)) 1 399);
    [vm_compute; reflexivity | lia].
Qed.

Lemma is_leap_year_era y : 0 <= y -> is_leap_year y = leap_of_era (y mod 400).
Proof.
  intros. rewrite is_leap_year_spec by done. unfold leap_of_era.
  rewrite (Z.mod_mod_divide y 400 4) by (by exists 100).
  rewrite (Z.mod_mod_divide y 400 100) by (by exists 4).
  by rewrite Z.mod_mod by lia.
Qed.

(** Feb 28 or 29 to Mar 1 is the one step where the March-based year changes. *)
Lemma leap_step y : 1 <= y ->
  days_from_civil y 3 1 = days_from_civil y 2 (if is_leap_year y then 29 else 28) + 1.
Proof.
  intros Hy. rewrite is_leap_year_era by lia. rewrite !days_from_civil_div by lia.
  cbn -[Z.mul Z.div Z.modulo]. fold (era_days (y mod 400)). fold (era_days ((y - 1) mod 400)).
  change ((2 + 9) mod 12) with 11. change ((3 + 9) mod 12) with 0.
  change ((153 * 11 + 2) / 5) with 337. change ((153 * 0 + 2) / 5) with 0.
  pose proof (Z.div_mod y 400). pose proof (Z.mod_pos_bound y 400).
  destruct (Z.eq_dec (y mod 400) 0) as [E|E].
  - rewrite <- (Z.mod_unique (y - 1) 400 (y / 400 - 1) 399) by lia. rewrite E.
    rewrite <- (Z.div_unique (y - 1) 400 (y / 400 - 1) 399) by lia.
    change (leap_of_era 0) with true. change (era_days 399) with 145731.
    change (era_days 0) with 0. lia.
  - rewrite <- (Z.mod_unique (y - 1) 400 (y / 400) (y mod 400 - 1)) by lia.
    rewrite <- (Z.div_unique (y - 1) 400 (y / 400) (y mod 400 - 1)) by lia.
    rewrite (era_days_step (y mod 400)) by lia.
    destruct (leap_of_era _); lia.
Qed.

(** Evaluate the month terms of [days_from_civil_div] at literal months. *)
Ltac eval_months :=
  repeat match goal with
  | |- context [(153 * ((?a + 9) mod 12) + 2) / 5] =>
      let v := eval vm_compute in ((153 * ((a + 9) mod 12) + 2) / 5) in
      change ((153 * ((a + 9) mod 12) + 2) / 5) with v
  | |- context [if ?a <=? 2 then _ else _] =>
      let v := eval vm_compute in (a <=? 2) in change (a <=? 2) with v; cbv iota
  end.

Lemma days_from_civil_next y m d :
  1970 <= y -> 1 <= m <= 12 -> 1 <= d <= days_in_month y m ->
  let '(y', m', d') := next_day y m d in
  days_from_civil y' m' d' = days_from_civil y m d + 1.
Proof.
  intros Hy Hm Hd. unfold next_day. destruct (d <? days_in_month y m) eqn:E; bsimp.
  { unfold days_from_civil. lia. }
  assert (d = days_in_month y m) as -> by lia. clear Hd E.
  destruct (Z.eq_dec m 2) as [->|Hm2].
  { change (2 <? 12) with true. cbv iota. change (2 + 1) with 3. apply leap_step. lia. }
  destruct (m <? 12) eqn:E12; bsimp.
  - rewrite !days_from_civil_div by lia. cbv zeta.
    month_cases Hm; try lia; eval_months; unfold days_in_month; lia.
  - assert (m = 12) as -> by lia. rewrite !days_from_civil_div by lia. cbv zeta. eval_months.
    replace (y + 1 - 1) with y by lia. unfold days_in_month. lia.
Qed.

Lemma days_from_civil_epoch : days_from_civil 1970 1 1 = 0.
Proof. reflexivity. Qed.

(** ** Fields *)

Lemma fixed_digits_print w v :
  (0 < w <= 18)%nat -> 0 <= v < 10 ^ Z.of_nat w ->
  fixed_digits (print_fixed w v) (Z.of_nat w) = Some v.
Proof.
  intros Hw Hv. unfold fixed_digits.
  rewrite print_fixed_len, Z.eqb_refl, print_fixed_digits by lia. simpl.
  unfold parse_i64. rewrite parse_int_digits by (apply print_fixed_digits || unfold i64_min; lia).
  assert (10 ^ Z.of_nat w <= 10 ^ 18) by (apply Z.pow_le_mono_r; lia).
  destruct w as [|w]; [lia|].
  change (digits_value (print_fixed (S w) v)) with (digits_acc 0 (print_fixed (S w) v)).
  rewrite digits_acc_print by lia. simpl.
  destruct (v <=? i64_max) eqn:E; [done|]. unfold i64_max in E. lia.
Qed.

Lemma fixed_digits_print2 v : 0 <= v <= 99 -> fixed_digits (print_fixed 2 v) 2 = Some v.
Proof. intros. apply (fixed_digits_print 2); simpl; lia. Qed.
Lemma fixed_digits_print4 v : 0 <= v <= 9999 -> fixed_digits (print_fixed 4 v) 4 = Some v.
Proof. intros. apply (fixed_digits_print 4); simpl; lia. Qed.

Lemma fixed_digits_Some s w v :
  fixed_digits s (Z.of_nat w) = Some v -> s = print_fixed w v /\ 0 <= v < 10 ^ Z.of_nat w.
Proof.
  unfold fixed_digits. destruct (str_len s =? Z.of_nat w) eqn:El; [|done].
  destruct (str_all is_ascii_digit s) eqn:Ea; [|done]. simpl. bsimp.
  unfold parse_i64. rewrite parse_int_digits by (done || unfold i64_min; lia).
  destruct (digits_value s) as [v'|] eqn:E; [|done]. simpl. case_match; [|done]. intros [= ->].
  assert (Hacc : digits_acc 0 s = Some v) by (destruct s; done).
  unfold str_len in El. apply Nat2Z.inj in El. subst w. split.
  - symmetry. by eapply print_fixed_digits_acc.
  - apply digits_acc_bounds in Hacc; [|lia]. unfold str_len in Hacc. lia.
Qed.

Lemma position_Some name names i :
  position name names = Some i -> 0 <= i /\ names !! Z.to_nat i = Some name.
Proof.
  revert i; induction names as [|n names IH]; intros i; simpl; [done|].
  case_bool_decide; [by intros [= <-]; subst|].
  destruct (position name names) as [j|] eqn:E; simpl; [|done]. intros [= <-].
  destruct (IH j eq_refl). split; [lia|]. by rewrite Z2Nat.inj_succ.
Qed.

Lemma position_MONTH_NAMES m : 1 <= m <= 12 ->
  position (nth_name MONTH_NAMES (m - 1)) MONTH_NAMES = Some (m - 1).
Proof. intros H. month_cases H; vm_compute; reflexivity. Qed.

Lemma month_name_no_sep c m : 1 <= m <= 12 -> is_ascii_alphabetic c = false ->
  str_contains c (nth_name MONTH_NAMES (m - 1)) = false.
Proof.
  intros H Hc. apply (str_all_not_contains is_ascii_alphabetic); [|done].
  month_cases H; vm_compute; reflexivity.
Qed.

Lemma DAY_NAMES_lookup z : DAY_NAMES !! Z.to_nat (z mod 7) = Some (nth_name DAY_NAMES (z mod 7)).
Proof.
  unfold nth_name. apply list_lookup_lookup_total_lt.
  pose proof (Z.mod_pos_bound z 7). simpl. lia.
Qed.

Lemma day_name_no_sep z c : is_ascii_alphabetic c = false ->
  str_contains c (nth_name DAY_NAMES (z mod 7)) = false.
Proof.
  intros Hc. apply (str_all_not_contains is_ascii_alphabetic); [|done].
  pose proof (Z.mod_pos_bound z 7 ltac:(lia)) as H.
  apply (zrange_check (fun i => str_all is_ascii_alphabetic (nth_name DAY_NAMES i)) 0 7);
    [vm_compute; reflexivity | lia].
Qed.

Lemma str_contains_cons c d s : str_contains c (String d s) = bool_decide (d = c) || str_contains c s.
Proof. done. Qed.

Lemma str_contains_app c s t : str_contains c (append s t) = str_contains c s || str_contains c t.
Proof. unfold str_contains. induction s; simpl; [done|]. rewrite IHs. by rewrite orb_assoc. Qed.

Lemma print_fixed_no_sep w v c :
  0 <= v -> is_ascii_digit c = false -> str_contains c (print_fixed w v) = false.
Proof. intros. eapply str_all_not_contains; [by apply print_fixed_digits|done]. Qed.

(** ** The reader accepts every printed date *)

Lemma imf_fixdate_split c : civil_valid c ->
  str_split " "%char (imf_fixdate c) =
    [ append (nth_name DAY_NAMES ((civil_days c + EPOCH_WEEKDAY_FROM_SUNDAY) mod 7)) ",";
      print_fixed 2 (c_day c); nth_name MONTH_NAMES (c_month c - 1); print_fixed 4 (c_year c);
      str_join ":"%char
        [print_fixed 2 (c_hour c); print_fixed 2 (c_minute c); print_fixed 2 (c_second c)];
      "GMT" ].
Proof.
  intros (Hy & Hm & Hd & Hh & Hmi & Hs). unfold imf_fixdate.
  apply str_split_join; [done|].
  repeat apply Forall_cons_2; try apply Forall_nil_2; try done.
  - rewrite str_contains_app, day_name_no_sep by done. done.
  - apply print_fixed_no_sep; [lia|done].
  - by apply month_name_no_sep.
  - apply print_fixed_no_sep; [lia|done].
  - cbn [str_join]. rewrite !str_contains_app.
    rewrite !str_contains_cons, !str_contains_app, !str_contains_cons.
    rewrite !print_fixed_no_sep by (done || lia). done.
Qed.

Lemma clock_split h m s : 0 <= h -> 0 <= m -> 0 <= s ->
  str_split ":"%char (str_join ":"%char [print_fixed 2 h; print_fixed 2 m; print_fixed 2 s]) =
    [print_fixed 2 h; print_fixed 2 m; print_fixed 2 s].
Proof.
  intros. apply str_split_join; [done|].
  repeat apply Forall_cons_2; try apply Forall_nil_2; by apply print_fixed_no_sep.
Qed.

Lemma parse_imf_fixdate c : civil_valid c -> parse_http_date (imf_fixdate c) = Some (civil_epoch c).
Proof.
  intros Hc. pose proof Hc as (Hy & Hm & Hd & Hh & Hmi & Hs).
  pose proof (days_in_month_bounds (c_year c) (c_month c)).
  unfold parse_http_date. rewrite imf_fixdate_split by done.
  cbn [next mbind option_bind]. rewrite strip_suffix_char_app. cbn [next mbind option_bind].
  rewrite fixed_digits_print2 by lia. cbn [next mbind option_bind].
  rewrite position_MONTH_NAMES by done. cbn [next mbind option_bind].
  rewrite fixed_digits_print4 by lia. cbn [next mbind option_bind].
  rewrite clock_split by lia. cbn [next mbind option_bind].
  do 3 (rewrite fixed_digits_print2 by lia; cbn [next mbind option_bind is_some]).
  replace (c_month c - 1 + 1) with (c_month c) by lia.
  rewrite (bool_decide_true ("GMT" = "GMT")) by done. cbn [negb orb].
  replace ((c_year c <? 1970) ||
    negb ((1 <=? c_day c) && (c_day c <=? days_in_month (c_year c) (c_month c)))) with false by lia.
  replace ((23 <? c_hour c) || (59 <? c_minute c) || (59 <? c_second c)) with false by lia.
  cbv zeta. fold (civil_days c). rewrite DAY_NAMES_lookup. cbn [mbind option_bind].
  rewrite bool_decide_true by done. done.
Qed.

(** ** and nothing else *)

Lemma next_Some {A} (l : list A) x l' : next l = Some (x, l') -> l = x :: l'.
Proof. destruct l; naive_solver. Qed.

Lemma next_none {A} (l : list A) : is_some (next l) = false -> l = [].
Proof. by destruct l. Qed.

Lemma parse_http_date_Some text t :
  parse_http_date text = Some t ->
  exists c, civil_valid c /\ text = imf_fixdate c /\ t = civil_epoch c.
Proof.
  unfold parse_http_date. intros H.
  repeat match goal with
  | H : (next ?l ≫= _) = Some _ |- _ =>
      let x := fresh "f" in let r := fresh "rest" in let E := fresh "E" in
      destruct (next l) as [[x r]|] eqn:E; [apply next_Some in E | done]; cbn [mbind option_bind] in H
  | H : (?o ≫= _) = Some _ |- _ =>
      let E := fresh "E" in destruct o eqn:E; [|done]; cbn [mbind option_bind] in H
  | H : (if ?b then None else _) = Some _ |- _ => let E := fresh "E" in destruct b eqn:E; [done|]
  end.
  simplify_eq. bsimp. subst.
  repeat match goal with H : is_some (next _) = false |- _ => apply next_none in H; subst end.
  repeat match goal with
  | H : fixed_digits _ 2 = Some _ |- _ => apply (fixed_digits_Some _ 2) in H as [-> ?]
  | H : fixed_digits _ 4 = Some _ |- _ => apply (fixed_digits_Some _ 4) in H as [-> ?]
  | H : strip_suffix_char _ _ = Some _ |- _ => apply strip_suffix_char_Some in H; subst
  | H : position _ _ = Some _ |- _ => apply position_Some in H as [? ?]
  end.
  match goal with H : MONTH_NAMES !! Z.to_nat ?i = Some _, H' : DAY_NAMES !! _ = Some _ |- _ =>
    rename H into Hmon; rename H' into Hday; pose proof (lookup_lt_Some _ _ _ Hmon) as Hlt;
    cbn [MONTH_NAMES length] in Hlt end.
  rewrite DAY_NAMES_lookup in Hday. injection Hday as Hday.
  match goal with
  | _ : str_split ":"%char _ = [print_fixed 2 ?h; print_fixed 2 ?mi; print_fixed 2 ?sec],
    _ : str_split " "%char _ = [_; print_fixed 2 ?d; _; print_fixed 4 ?y; _; _],
    _ : MONTH_NAMES !! Z.to_nat ?m = Some _ |- _ => exists (Civil y (m + 1) d h mi sec)
  end.
  split; [|split; [|done]].
  - unfold civil_valid; simpl in *. lia.
  - unfold imf_fixdate. cbn [c_year c_month c_day c_hour c_minute c_second civil_days].
    unfold civil_days. cbn [c_year c_month c_day].
    rewrite Hday, Z.add_simpl_r. unfold nth_name. rewrite (list_lookup_total_correct _ _ _ Hmon).
    match goal with E : str_split ":"%char _ = _ |- _ => rewrite <- E end.
    rewrite str_join_split.
    match goal with E : str_split " "%char _ = _ |- _ => rewrite <- E end.
    by rewrite str_join_split.
Qed.

(** ** Properties *)

(** C40.  [parse_http_date] reads exactly the IMF-fixdate texts: it returns [Some t]
    if and only if the text is the RFC 9110 IMF-fixdate (right weekday name included)
    of a valid Gregorian date and time of the years 1970 to 9999, and [t] is then that
    instant's epoch second. *)
Theorem parse_http_date_spec text t :
  parse_http_date text = Some t <->
  exists c, civil_valid c /\ text = imf_fixdate c /\ t = civil_epoch c.
Proof.
  split; [apply parse_http_date_Some|].
  intros (c & Hc & -> & ->). by apply parse_imf_fixdate.
Qed.

(** [days_from_civil] is the day count of the calendar: 1970-01-01 is day 0 and
    the day after any date (by the rule of month lengths and leap years alone) has the
    next number. *)
Theorem days_from_civil_counts_days y m d :
  1970 <= y -> 1 <= m <= 12 -> 1 <= d <= days_in_month y m ->
  days_from_civil 1970 1 1 = 0 /\
  (let '(y', m', d') := next_day y m d in
   days_from_civil y' m' d' = days_from_civil y m d + 1).
Proof.
  intros. split; [apply days_from_civil_epoch|]. by apply days_from_civil_next.
Qed.

Lemma days_from_civil_counts_days_witness :
  days_from_civil 2024 3 1 = days_from_civil 2024 2 29 + 1.
Proof.
  destruct (days_from_civil_counts_days 2024 2 29) as [_ H]; [lia | lia | change (days_in_month 2024 2) with 29; lia |].
  exact H.
Defined.
