(* ===== verification/Vocabulary.v ===== *)
(** * The closed code vocabularies and the error type of the legacy auth unit

    [src/src/auth/legacy_auth/vocabulary.rs], whole, and [LegacyAuthError] of
    [src/src/auth/legacy_auth.rs]. *)
From S2P Require Import Prelude RustStr.
Local Open Scope string_scope.
Local Open Scope Z_scope.

Inductive SignOutReason :=
| RefreshTokenRejected
| RefreshOutcomeUnknown
| RefreshResponseUnusable
| AccessTokenRejected
| StoredPairInvalid
| ProviderTokenRejected
| ProviderTokenExpired.

Inductive RefusalReason := OwnerApi | Client.

Inductive RetryReason :=
| Network
| SensitiveAccess
| TeslaUnavailable
| RefreshBlocked
| RefreshRequestRejected
| TokenEndpointMisrouted
| ClientCheck
| ShortTokenLifetime
| ClockSkew
| RefreshNotRenewed
| StoreUnavailable.

Inductive ConfigurationReason :=
| RegionConflict
| RegionRequired
| IssuerNotAllowed
| TokenUrlInvalid
| TokenUrlNotAllowed.

#[export] Instance SignOutReason_eq_dec : EqDecision SignOutReason.
Proof. solve_decision. Defined.
#[export] Instance RefusalReason_eq_dec : EqDecision RefusalReason.
Proof. solve_decision. Defined.
#[export] Instance RetryReason_eq_dec : EqDecision RetryReason.
Proof. solve_decision. Defined.
#[export] Instance ConfigurationReason_eq_dec : EqDecision ConfigurationReason.
Proof. solve_decision. Defined.

(** [SignOutReason::code], [RefusalReason::code], [RetryReason::code] and
    [ConfigurationReason::code]. *)
Definition signout_code (r : SignOutReason) : string :=
  match r with
  | RefreshTokenRejected => "refresh_token_rejected"
  | RefreshOutcomeUnknown => "refresh_outcome_unknown"
  | RefreshResponseUnusable => "refresh_response_unusable"
  | AccessTokenRejected => "access_token_rejected"
  | StoredPairInvalid => "stored_pair_invalid"
  | ProviderTokenRejected => "provider_token_rejected"
  | ProviderTokenExpired => "provider_token_expired"
  end.

Definition refusal_code (r : RefusalReason) : string :=
  match r with OwnerApi => "owner_api" | Client => "client" end.

Definition retry_code (r : RetryReason) : string :=
  match r with
  | Network => "network"
  | SensitiveAccess => "sensitive_access"
  | TeslaUnavailable => "tesla_unavailable"
  | RefreshBlocked => "refresh_blocked"
  | RefreshRequestRejected => "refresh_request_rejected"
  | TokenEndpointMisrouted => "token_endpoint_misrouted"
  | ClientCheck => "client_check"
  | ShortTokenLifetime => "short_token_lifetime"
  | ClockSkew => "clock_skew"
  | RefreshNotRenewed => "refresh_not_renewed"
  | StoreUnavailable => "store_unavailable"
  end.

Definition configuration_code (r : ConfigurationReason) : string :=
  match r with
  | RegionConflict => "region_conflict"
  | RegionRequired => "region_required"
  | IssuerNotAllowed => "issuer_not_allowed"
  | TokenUrlInvalid => "token_url_invalid"
  | TokenUrlNotAllowed => "token_url_not_allowed"
  end.

Record LoadFailureState := MkLoadFailureState {
  lf_state : string;
  lf_reason : string;
}.

Definition CONFIGURATION_ERROR : string := "configuration_error".
Definition SIGNED_OUT : string := "signed_out".

Definition lf_configuration (reason : ConfigurationReason) : LoadFailureState :=
  MkLoadFailureState CONFIGURATION_ERROR (configuration_code reason).
Definition lf_signed_out (reason : SignOutReason) : LoadFailureState :=
  MkLoadFailureState SIGNED_OUT (signout_code reason).

(** ** [LegacyAuthError]

    The variants of the source; a variant whose name is also a reason carries
    the prefix [E]. *)
Inductive LegacyAuthError :=
| InvalidAccessToken
| InvalidIssuer
| InvalidRefreshToken
| InvalidResponse
| ResponseTooLarge
| Transport
| RotationOutcomeUnknown
| SensitiveRotationOutcomeUnknown
| HttpStatus (status : Z)
| RefreshDeferred
| InvalidClock
| InvalidPersistedSchedule
| Persistence
| SensitivePersistenceUnavailable
| SensitiveAccessUnavailable
| ERegionConflict
| ERegionRequired
| ETokenUrlInvalid
| ETokenUrlNotAllowed
| ERefreshTokenRejected
| ClientRefused
| OwnerApiRefused (reason : RefusalReason)
| EAccessTokenRejected
| EProviderTokenRejected
| EProviderTokenExpired
| ERefreshNotRenewed
| RefreshNotPossible
| VehicleAccessRejected
| AuthUnavailable (retry_at : option Z)
| RetryNotPossible (reason : SignOutReason)
| SignedOut (reason : SignOutReason).

#[export] Instance LegacyAuthError_eq_dec : EqDecision LegacyAuthError.
Proof. solve_decision. Defined.

Definition configuration_reason (e : LegacyAuthError) : option ConfigurationReason :=
  match e with
  | ERegionConflict => Some RegionConflict
  | ERegionRequired => Some RegionRequired
  | InvalidIssuer => Some IssuerNotAllowed
  | ETokenUrlInvalid => Some TokenUrlInvalid
  | ETokenUrlNotAllowed => Some TokenUrlNotAllowed
  | _ => None
  end.

Definition load_failure_state (e : LegacyAuthError) : option LoadFailureState :=
  match configuration_reason e with
  | Some reason => Some (lf_configuration reason)
  | None =>
      then_some match e with InvalidAccessToken | InvalidRefreshToken => true | _ => false end
        (lf_signed_out StoredPairInvalid)
  end.

Definition err_is_signed_out (e : LegacyAuthError) : bool :=
  match e with
  | EAccessTokenRejected | EProviderTokenRejected | EProviderTokenExpired | SignedOut _ => true
  | _ => false
  end.

Definition is_terminal_auth_failure (e : LegacyAuthError) : bool :=
  is_some (configuration_reason e)
  || is_some (load_failure_state e)
  || match e with
     | EAccessTokenRejected | EProviderTokenRejected | EProviderTokenExpired
     | OwnerApiRefused _ | SignedOut _ => true
     | _ => false
     end.

(** [LegacyAuthManagerError] of [credentials.rs]; credential errors are not told apart. *)
Inductive LegacyAuthManagerError :=
| MCredential
| MAuth (error : LegacyAuthError)
| MObserverRefreshDisabled.

Definition is_terminal (error : LegacyAuthManagerError) : bool :=
  match error with MAuth error => is_terminal_auth_failure error | _ => false end.

Definition is_sensitive_access_failure (error : LegacyAuthManagerError) : bool :=
  match error with
  | MCredential => true
  | MAuth SensitiveAccessUnavailable | MAuth SensitiveRotationOutcomeUnknown => true
  | _ => false
  end.

(** ** Every vocabulary as a list, for the searches of the row reader *)

Definition all_signout : list SignOutReason :=
  [RefreshTokenRejected; RefreshOutcomeUnknown; RefreshResponseUnusable; AccessTokenRejected;
   StoredPairInvalid; ProviderTokenRejected; ProviderTokenExpired].
Definition all_refusal : list RefusalReason := [OwnerApi; Client].
Definition all_retry : list RetryReason :=
  [Network; SensitiveAccess; TeslaUnavailable; RefreshBlocked; RefreshRequestRejected;
   TokenEndpointMisrouted; ClientCheck; ShortTokenLifetime; ClockSkew; RefreshNotRenewed;
   StoreUnavailable].
Definition all_configuration : list ConfigurationReason :=
  [RegionConflict; RegionRequired; IssuerNotAllowed; TokenUrlInvalid; TokenUrlNotAllowed].

#[export] Instance signout_code_inj : Inj (=) (=) signout_code.
Proof. by intros [] []. Qed.
#[export] Instance refusal_code_inj : Inj (=) (=) refusal_code.
Proof. by intros [] []. Qed.
#[export] Instance retry_code_inj : Inj (=) (=) retry_code.
Proof. by intros [] []. Qed.
#[export] Instance configuration_code_inj : Inj (=) (=) configuration_code.
Proof. by intros [] []. Qed.

Lemma all_signout_complete r : r ∈ all_signout.
Proof. destruct r; set_solver. Qed.
Lemma all_refusal_complete r : r ∈ all_refusal.
Proof. destruct r; set_solver. Qed.
Lemma all_retry_complete r : r ∈ all_retry.
Proof. destruct r; set_solver. Qed.
Lemma all_configuration_complete r : r ∈ all_configuration.
Proof. destruct r; set_solver. Qed.

(** A wire code of R53: short lower-case ASCII words joined by underscores. *)
Definition is_wire_code (s : string) : bool :=
  negb (str_is_empty s) && (str_len s <=? 32)
  && str_all (fun c => is_ascii_lowercase c || bool_decide (c = "_"%char)) s.

Lemma reason_codes_wire :
  (forall r, is_wire_code (signout_code r) = true) /\
  (forall r, is_wire_code (refusal_code r) = true) /\
  (forall r, is_wire_code (retry_code r) = true) /\
  (forall r, is_wire_code (configuration_code r) = true).
Proof. split_and!; by intros []. Qed.

(** The codes of different vocabularies never collide, so a bare reason code
    names its vocabulary. *)
Lemma reason_codes_disjoint :
  (forall a b, signout_code a <> refusal_code b) /\
  (forall a b, signout_code a <> retry_code b) /\
  (forall a b, signout_code a <> configuration_code b) /\
  (forall a b, refusal_code a <> retry_code b) /\
  (forall a b, refusal_code a <> configuration_code b) /\
  (forall a b, retry_code a <> configuration_code b).
Proof. split_and!; by intros [] []. Qed.
