(* ===== verification/F64.v ===== *)
(** * Rust's [f64], executably

    An [f64] is a binary64 number of the Standard Library's [SpecFloat] (the
    IEEE 754 model with [prec = 53], [emax = 1024]), so every operation the
    Hub applies is the correctly rounded one and computes.  The lemmas bound
    a rounded result by a representable number: rounding never crosses one. *)
From S2P Require Import Prelude.
From Stdlib Require Import SpecFloat.
Definition f64 : Type := spec_float.
Definition f64_valid (x : f64) : bool := valid_binary 53 1024 x.

Definition f64_mul : f64 -> f64 -> f64 := SFmul 53 1024.
Definition f64_add : f64 -> f64 -> f64 := SFadd 53 1024.
Definition f64_div : f64 -> f64 -> f64 := SFdiv 53 1024.
Definition f64_ltb : f64 -> f64 -> bool := SFltb.
Definition f64_leb : f64 -> f64 -> bool := SFleb.

(** [z as f64]. *)
Definition f64_of_Z (z : Z) : f64 := binary_normalize 53 1024 z 0 false.
Definition f64_zero : f64 := f64_of_Z 0.
Definition f64_one : f64 := f64_of_Z 1.

Definition f64_is_nan (x : f64) : bool := match x with S754_nan => true | _ => false end.
Definition f64_is_finite (x : f64) : bool :=
  match x with S754_zero _ | S754_finite _ _ _ => true | _ => false end.

(** [f64::clamp]. *)
Definition f64_clamp (x lo hi : f64) : f64 :=
  let x := if f64_ltb x lo then lo else x in
  if f64_ltb hi x then hi else x.

(** The integer part of a magnitude [m * 2^e], and whether a fraction was cut. *)
Definition int_part (m : positive) (e : Z) : Z :=
  if 0 <=? e then Z.pos m * 2 ^ e else Z.pos m / 2 ^ (- e).
Definition has_fraction (m : positive) (e : Z) : bool :=
  if 0 <=? e then false else negb (Z.pos m mod 2 ^ (- e) =? 0).

Definition signed (s : bool) (z : Z) : Z := if s then - z else z.

(** The [f64] of an integer, with the sign of a zero result kept. *)
Definition f64_of_signed (s : bool) (z : Z) : f64 :=
  if z =? 0 then S754_zero s else f64_of_Z z.

Definition f64_trunc (x : f64) : f64 :=
  match x with
  | S754_finite s m e => if 0 <=? e then x else f64_of_signed s (signed s (int_part m e))
  | _ => x
  end.
Definition f64_floor (x : f64) : f64 :=
  match x with
  | S754_finite s m e =>
      if 0 <=? e then x
      else f64_of_signed s
             (signed s (int_part m e) - (if s && has_fraction m e then 1 else 0))
  | _ => x
  end.

(** [x as i64], [x as u64]: truncation towards zero, saturating; NaN is 0. *)
Definition f64_to_int (lo hi : Z) (x : f64) : Z :=
  match x with
  | S754_nan => 0
  | S754_zero _ => 0
  | S754_infinity s => if s then lo else hi
  | S754_finite s m e => clamp lo hi (signed s (int_part m e))
  end.
Definition f64_as_i64 : f64 -> Z := f64_to_int i64_min i64_max.
Definition f64_as_u64 : f64 -> Z := f64_to_int 0 u64_max.

(** The correctly rounded quotient of two integers, with its sign: the rounding
    that [str::parse::<f64>] applies to a decimal text. *)
Definition f64_of_ratio (s : bool) (n : Z) (d : positive) : f64 :=
  match n with
  | Z0 => S754_zero s
  | Zpos p =>
      let '(m, e, l) := SFdiv_core_binary 53 1024 (Zpos p) 0 (Zpos d) 0 in
      binary_round_aux 53 1024 s m e l
  | Zneg _ => S754_nan
  end.

Example f64_ex_ratio :
  f64_of_ratio true 335 10 = S754_finite true 4714705859903488 (-47) /\
  f64_of_ratio false 1 10 = S754_finite false 7205759403792794 (-56).
Proof. split; vm_compute; reflexivity. Qed.

Example f64_ex : f64_as_i64 (f64_mul (f64_of_Z 300) (f64_div (f64_of_Z 1) (f64_of_Z 3))) = 100.
Proof. vm_compute. reflexivity. Qed.

(** ** Values

    Every number that arises is [m * 2^e] with [e >= -3000]; [sc m e] is its
    value in units of [2^-3000]. *)
Definition sc (m e : Z) : Z := m * 2 ^ (e + 3000).

Lemma pow2_pos k : 0 <= k -> 0 < 2 ^ k.
Proof. intros. apply Z.pow_pos_nonneg; lia. Qed.

Lemma sc_shift m e k : 0 <= k -> -3000 <= e -> sc (m * 2 ^ k) e = sc m (e + k).
Proof.
  intros. unfold sc. replace (e + k + 3000) with (k + (e + 3000)) by lia.
  rewrite (Z.pow_add_r 2 k (e + 3000)) by lia. ring.
Qed.

Lemma sc_le m m' e : -3000 <= e -> m <= m' -> sc m e <= sc m' e.
Proof. intros. unfold sc. pose proof (pow2_pos (e + 3000)). nia. Qed.

Lemma sc_le_inv m m' e : -3000 <= e -> sc m e <= sc m' e -> m <= m'.
Proof. intros. unfold sc in *. pose proof (pow2_pos (e + 3000)). nia. Qed.

Lemma digits2_pos_bounds p :
  2 ^ (Z.pos (digits2_pos p) - 1) <= Z.pos p < 2 ^ Z.pos (digits2_pos p).
Proof.
  induction p as [p IH|p IH|]; cbn [digits2_pos]; [..|simpl; lia];
    rewrite Pos2Z.inj_succ; replace (Z.succ (Z.pos (digits2_pos p)) - 1)
      with (Z.succ (Z.pos (digits2_pos p) - 1)) by lia;
    rewrite !Z.pow_succ_r by lia; lia.
Qed.

(** ** Right shifts with a sticky bit *)

Lemma iter_pos_nat {A} (f : A -> A) p x : iter_pos f p x = Nat.iter (Pos.to_nat p) f x.
Proof.
  assert (Hadd : forall n m y, Nat.iter n f (Nat.iter m f y) = Nat.iter (n + m) f y).
  { intros n m y. induction n; simpl; congruence. }
  assert (Hs : forall n y, Nat.iter n f (f y) = Nat.iter (S n) f y).
  { intros. change (f y) with (Nat.iter 1 f y). rewrite Hadd. f_equal. lia. }
  revert x; induction p as [p IH|p IH|]; intros x; simpl iter_pos; [..|done].
  - rewrite !IH, Hadd, Hs. f_equal. lia.
  - rewrite !IH, Hadd. f_equal. lia.
Qed.

(** After [k] shifts of an exact [v]: the quotient, and no sticky bit when the
    remainder is zero. *)
Lemma shr_iter v k : 0 <= v ->
  let r := Nat.iter k shr_1 (Build_shr_record v false false) in
  shr_m r = v / 2 ^ Z.of_nat k /\ (v mod 2 ^ Z.of_nat k = 0 -> shr_r r = false /\ shr_s r = false).
Proof.
  intros Hv r. subst r. induction k as [|k [IHm IHs]]; [simpl; rewrite Z.div_1_r; done|].
  simpl Nat.iter. set (r := Nat.iter k shr_1 _) in *.
  rewrite Nat2Z.inj_succ, Z.pow_succ_r by lia.
  pose proof (pow2_pos (Z.of_nat k)) as Hp. specialize (Hp ltac:(lia)).
  rewrite (Z.mul_comm 2), <- Z.div_div, Z.rem_mul_r by lia.
  pose proof (Z.mod_pos_bound v (2 ^ Z.of_nat k)).
  pose proof (Z.mod_pos_bound (v / 2 ^ Z.of_nat k) 2 ltac:(lia)).
  assert (Hmod : v mod 2 ^ Z.of_nat k + 2 ^ Z.of_nat k * ((v / 2 ^ Z.of_nat k) mod 2) = 0 ->
                 v mod 2 ^ Z.of_nat k = 0 /\ (v / 2 ^ Z.of_nat k) mod 2 = 0) by (intros; nia).
  assert (0 <= v / 2 ^ Z.of_nat k) by (apply Z.div_pos; lia).
  rewrite <- IHm in *. destruct r as [m rr ss]; cbn [shr_m shr_r shr_s] in *.
  destruct m as [|[p|p|]|p]; cbn [shr_1 shr_m shr_r shr_s]; try lia; (split; [clear; dlia|]).
  all: intros Hz%Hmod; destruct Hz as [Hz1 Hz2]; destruct (IHs Hz1) as [-> ->]; try done.
  all: revert Hz2; clear; dlia.
Qed.

Lemma shr_exact v e n : 0 <= v ->
  let '(r, e') := shr (Build_shr_record v false false) e n in
  e' = e + Z.max 0 n /\ shr_m r = v / 2 ^ Z.max 0 n /\
  (v mod 2 ^ Z.max 0 n = 0 -> loc_of_shr_record r = loc_Exact).
Proof.
  intros Hv. destruct n as [|p|p]; simpl shr; cbn [fst snd].
  1,3: simpl; rewrite Z.div_1_r; split_and!; [lia|done|done].
  pose proof (shr_iter v (Pos.to_nat p) Hv) as [Hm Hs]. rewrite <- iter_pos_nat in *.
  rewrite positive_nat_Z in *. replace (Z.max 0 (Z.pos p)) with (Z.pos p) by lia.
  split_and!; [done|done|]. intros Hz. destruct (Hs Hz) as [H1 H2].
  destruct (iter_pos _ _ _) as [m r s]; simpl in *; subst; done.
Qed.

(** ** Rounding never crosses a representable number *)

Definition fexp64 : Z -> Z := fexp 53 1024.

Lemma fexp64_eq e : fexp64 e = Z.max (e - 53) (-1074).
Proof. reflexivity. Qed.

(** The canonical mantissa and exponent of a valid finite number. *)
Definition canonical (m e : Z) : Prop :=
  exists d, 2 ^ (d - 1) <= m < 2 ^ d /\ 0 < d /\ e = fexp64 (d + e) /\ e <= 971.

Lemma f64_valid_canonical s m e : f64_valid (S754_finite s m e) = true -> canonical (Z.pos m) e.
Proof.
  unfold f64_valid, valid_binary, bounded, canonical_mantissa. intros H. bsimp.
  exists (Z.pos (digits2_pos m)). split; [apply digits2_pos_bounds|].
  unfold fexp64. lia.
Qed.

(** One rounding of [v * 2^e]: an integer [k] at exponent [e' = fexp64 (d + e)]
    that is the quotient, or one more when the quotient was inexact. *)
Definition rounded (v e k e' : Z) : Prop :=
  exists n, 0 <= n /\ e' = e + n /\
    (k = v / 2 ^ n \/ (k = v / 2 ^ n + 1 /\ v mod 2 ^ n <> 0)).

Lemma shr_fexp_round v e d :
  0 < v -> 2 ^ (d - 1) <= v < 2 ^ d -> d = Zdigits2 v ->
  let '(r, e') := shr_fexp 53 1024 v e loc_Exact in
  e' = Z.max e (fexp64 (d + e)) /\
  rounded v e (round_nearest_even (shr_m r) (loc_of_shr_record r)) e'.
Proof.
  intros Hv Hd Hdig. unfold shr_fexp. cbn [shr_record_of_loc]. rewrite <- Hdig. fold fexp64.
  pose proof (shr_exact v e (fexp64 (d + e) - e) ltac:(lia)) as H.
  destruct (shr _ e _) as [r e']. destruct H as (-> & Hm & Hx).
  split; [lia|]. exists (Z.max 0 (fexp64 (d + e) - e)). split_and!; [lia|done|].
  rewrite <- Hm. destruct (Z.eq_dec (v mod 2 ^ Z.max 0 (fexp64 (d + e) - e)) 0) as [E|E].
  - rewrite (Hx E). by left.
  - destruct (loc_of_shr_record r) as [|[]]; simpl; auto. destruct (Z.even (shr_m r)); auto.
Qed.

Lemma Zdigits2_bounds v : 0 < v -> 2 ^ (Zdigits2 v - 1) <= v < 2 ^ Zdigits2 v /\ 0 < Zdigits2 v.
Proof. destruct v as [|p|p]; try lia. intros _. simpl Zdigits2. pose proof (digits2_pos_bounds p). lia. Qed.

Lemma pow2_lt_inv a b : 0 <= b -> 2 ^ a < 2 ^ b -> a < b.
Proof.
  intros Hb H. destruct (Z.lt_ge_cases a b); [done|].
  assert (2 ^ b <= 2 ^ a) by (apply Z.pow_le_mono_r; lia). lia.
Qed.

Lemma pow2_le_inv a b : 0 <= a -> 2 ^ a <= 2 ^ b -> a <= b.
Proof.
  intros Ha H. destruct (Z.le_gt_cases a b); [done|].
  destruct (Z.lt_ge_cases b 0).
  - rewrite (Z.pow_neg_r 2 b) in H by lia. pose proof (pow2_pos a). lia.
  - assert (2 ^ b < 2 ^ a) by (apply Z.pow_lt_mono_r; lia). lia.
Qed.

(** Digits and exponent after the first rounding. *)
Lemma rounded_digits v e k e' d :
  0 < v -> 0 < d -> 2 ^ (d - 1) <= v < 2 ^ d -> e' = Z.max e (fexp64 (d + e)) ->
  rounded v e k e' ->
  0 <= k /\ (fexp64 (d + e) <= e -> k = v) /\ (e < fexp64 (d + e) -> -1074 <= e' /\ k <= 2 ^ 53).
Proof.
  intros Hv Hd0 Hd He' (n & Hn & He'' & Hk).
  assert (Hn' : n = Z.max 0 (fexp64 (d + e) - e)) by lia.
  assert (0 <= v / 2 ^ n) by (apply Z.div_pos; [lia|apply pow2_pos; lia]).
  split; [lia|]. rewrite fexp64_eq in *. split.
  - intros. assert (n = 0) as -> by lia. change (2 ^ 0) with 1 in *.
    rewrite Z.div_1_r, Z.mod_1_r in *. lia.
  - intros. split; [lia|].
    assert (v / 2 ^ n < 2 ^ 53); [|lia].
    apply Z.div_lt_upper_bound; [apply pow2_pos; lia|].
    rewrite <- Z.pow_add_r by lia.
    apply Z.lt_le_trans with (2 ^ d); [lia|]. apply Z.pow_le_mono_r; lia.
Qed.

(** The second shift only absorbs a carry, exactly. *)
Lemma shr_fexp_carry k e' :
  -3000 <= e' -> 0 < k -> (fexp64 (Zdigits2 k + e') <= e' \/ (-1074 <= e' /\ k <= 2 ^ 53)) ->
  let '(r, e'') := shr_fexp 53 1024 k e' loc_Exact in
  e' <= e'' /\ 0 < shr_m r /\ sc (shr_m r) e'' = sc k e'.
Proof.
  intros He' Hk Hcase. pose proof (Zdigits2_bounds k Hk) as [Hd Hd0].
  unfold shr_fexp. cbn [shr_record_of_loc]. fold fexp64.
  pose proof (shr_exact k e' (fexp64 (Zdigits2 k + e') - e') ltac:(lia)) as H.
  destruct (shr _ e' _) as [r e'']. destruct H as (-> & Hm & _).
  assert (Hz : Z.max 0 (fexp64 (Zdigits2 k + e') - e') = 0 \/
               (k = 2 ^ 53 /\ Z.max 0 (fexp64 (Zdigits2 k + e') - e') = 1)).
  { rewrite fexp64_eq in *. destruct Hcase as [?|[? ?]]; [lia|].
    assert (Zdigits2 k - 1 <= 53) by (apply pow2_le_inv; lia).
    destruct (Z.eq_dec (Zdigits2 k) 54) as [E|E]; [|lia].
    rewrite E in *. right. change (54 - 1) with 53 in Hd. lia. }
  rewrite Hm. destruct Hz as [-> | [-> ->]].
  - rewrite Z.pow_0_r, Z.div_1_r, Z.add_0_r. lia.
  - change (2 ^ 53 / 2 ^ 1) with (2 ^ 52). split_and!; [lia|lia|].
    rewrite <- (sc_shift (2 ^ 52) e' 1) by lia. done.
Qed.

(** ** Values of floats *)

Definition f64_sc (x : f64) : Z :=
  match x with S754_finite s m e => signed s (sc (Z.pos m) e) | _ => 0 end.

(** [binary_round_aux] returns the rounded integer at its exponent. *)
Lemma binary_round_aux_value s v e :
  0 < v -> -3000 <= e ->
  exists k e', rounded v e k e' /\ e' = Z.max e (fexp64 (Zdigits2 v + e)) /\ 0 <= k /\
    let r := binary_round_aux 53 1024 s v e loc_Exact in
    (k = 0 /\ r = S754_zero s) \/
    (0 < k /\ exists m e'', sc (Z.pos m) e'' = sc k e' /\ -1074 <= e'' /\
       r = if e'' <=? 971 then S754_finite s m e'' else S754_infinity s).
Proof.
  intros Hv He. pose proof (Zdigits2_bounds v Hv) as [Hd Hd0].
  unfold binary_round_aux.
  pose proof (shr_fexp_round v e (Zdigits2 v) Hv Hd eq_refl) as H.
  destruct (shr_fexp 53 1024 v e loc_Exact) as [r e']. destruct H as [He' Hr].
  set (k := round_nearest_even _ _) in *.
  destruct (rounded_digits _ _ _ _ _ Hv Hd0 Hd He' Hr) as (Hk & Hk1 & Hk2).
  exists k, e'. split_and!; [done..|]. cbv zeta.
  destruct (Z.eq_dec k 0) as [E|E].
  { left. rewrite E. split; [done|].
    destruct (Z.le_gt_cases (fexp64 (Zdigits2 v + e)) e) as [C|C]; [specialize (Hk1 C); lia|].
    unfold shr_fexp. cbn [shr_record_of_loc Zdigits2]. fold fexp64.
    pose proof (shr_exact 0 e' (fexp64 (0 + e') - e') ltac:(lia)) as H.
    destruct (shr _ e' _) as [r2 e2]. destruct H as (_ & -> & _). by rewrite Z.div_0_l by (pose proof (pow2_pos (Z.max 0 (fexp64 (0 + e') - e'))); lia). }
  right. split; [lia|].
  assert (Hc : fexp64 (Zdigits2 k + e') <= e' \/ (-1074 <= e' /\ k <= 2 ^ 53)).
  { destruct (Z.le_gt_cases (fexp64 (Zdigits2 v + e)) e) as [C|C]; [|by right; apply Hk2].
    left. rewrite (Hk1 C). replace e' with e by lia. done. }
  pose proof (shr_fexp_carry k e' ltac:(lia) ltac:(lia) Hc) as H.
  destruct (shr_fexp 53 1024 k e' loc_Exact) as [r2 e2]. destruct H as (H1 & H2 & H3).
  rewrite fexp64_eq in He'.
  destruct (shr_m r2) as [|m|m]; [lia| |lia]. exists m, e2. split_and!; [done|lia|done].
Qed.

(** A canonical number with a smaller exponent than [v] is below [v]'s binade. *)
Lemma canonical_below v e d mB eB :
  -3000 <= e -> 0 < d -> 2 ^ (d - 1) <= v -> canonical mB eB ->
  eB < Z.max (d + e - 53) (-1074) -> sc mB eB < 2 ^ (d - 1 + (e + 3000)) /\ e < d + e /\ -1074 < d + e - 53.
Proof.
  intros He Hd Hv (dB & HmB & HdB & HeB & _) Hlt. rewrite fexp64_eq in HeB. split; [|lia].
  unfold sc. apply Z.lt_le_trans with (2 ^ dB * 2 ^ (eB + 3000)).
  - pose proof (pow2_pos (eB + 3000)). nia.
  - rewrite <- Z.pow_add_r by lia. apply Z.pow_le_mono_r; lia.
Qed.

Lemma sc_binade v e d : -3000 <= e -> 0 < d -> 2 ^ (d - 1) <= v -> 2 ^ (d - 1 + (e + 3000)) <= sc v e.
Proof.
  intros. unfold sc. rewrite Z.pow_add_r by lia. pose proof (pow2_pos (e + 3000)). nia.
Qed.

Lemma rounded_upper v e k e' d mB eB :
  0 < v -> -3000 <= e -> 0 < d -> 2 ^ (d - 1) <= v < 2 ^ d ->
  e' = Z.max e (fexp64 (d + e)) -> rounded v e k e' -> canonical mB eB ->
  sc v e <= sc mB eB -> sc k e' <= sc mB eB.
Proof.
  intros Hv He Hd0 Hd He' Hr HB Hle.
  destruct (rounded_digits _ _ _ _ _ Hv Hd0 Hd He' Hr) as (Hk & Hk1 & _).
  destruct (Z.le_gt_cases (fexp64 (d + e)) e) as [C|C].
  { rewrite (Hk1 C). replace e' with e by lia. done. }
  assert (HeB : e' <= eB).
  { destruct (Z.le_gt_cases e' eB) as [|Hlt]; [done|]. exfalso.
    destruct (canonical_below v e d mB eB) as [Hb _]; [done|done|lia|done| |].
    - rewrite fexp64_eq in *. lia.
    - pose proof (sc_binade v e d). lia. }
  destruct Hr as (n & Hn & -> & Hkv).
  set (kB := mB * 2 ^ (eB - (e + n))).
  assert (HkB : sc mB eB = sc kB (e + n)).
  { unfold kB. rewrite sc_shift by lia. f_equal. lia. }
  rewrite HkB in *. apply sc_le; [lia|].
  rewrite <- sc_shift in Hle by lia. apply sc_le_inv in Hle; [|done].
  pose proof (pow2_pos n Hn). pose proof (Z.div_mod v (2 ^ n)). pose proof (Z.mod_pos_bound v (2 ^ n)).
  assert (v / 2 ^ n <= kB) by (apply Z.div_le_upper_bound; lia).
  destruct Hkv as [-> | [-> ?]]; [done|]. nia.
Qed.

Lemma rounded_lower v e k e' d mB eB :
  0 < v -> -3000 <= e -> 0 < d -> 2 ^ (d - 1) <= v < 2 ^ d ->
  e' = Z.max e (fexp64 (d + e)) -> rounded v e k e' -> canonical mB eB ->
  sc mB eB <= sc v e -> sc mB eB <= sc k e'.
Proof.
  intros Hv He Hd0 Hd He' Hr HB Hle.
  destruct (rounded_digits _ _ _ _ _ Hv Hd0 Hd He' Hr) as (Hk & Hk1 & _).
  destruct (Z.le_gt_cases (fexp64 (d + e)) e) as [C|C].
  { rewrite (Hk1 C). replace e' with e by lia. done. }
  destruct Hr as (n & Hn & -> & Hkv). pose proof (pow2_pos n Hn).
  assert (Hfloor : v / 2 ^ n <= k) by lia.
  apply Z.le_trans with (sc (v / 2 ^ n) (e + n)); [|apply sc_le; lia].
  destruct (Z.le_gt_cases (e + n) eB) as [HeB|HeB].
  - set (kB := mB * 2 ^ (eB - (e + n))).
    assert (HkB : sc mB eB = sc kB (e + n)).
    { unfold kB. rewrite sc_shift by lia. f_equal. lia. }
    rewrite HkB in *. apply sc_le; [lia|].
    rewrite <- sc_shift in Hle by lia. apply sc_le_inv in Hle; [|done].
    apply Z.div_le_lower_bound; lia.
  - destruct (canonical_below v e d mB eB) as (Hb & _ & Hb2); [done|done|lia|done| |].
    { rewrite fexp64_eq in *. lia. }
    rewrite fexp64_eq in *.
    assert (Hnd : n = d - 53) by lia.
    apply Z.le_trans with (2 ^ (d - 1 + (e + 3000))); [lia|].
    unfold sc. replace (d - 1 + (e + 3000)) with ((d - 1 - n) + (e + n + 3000)) by lia.
    rewrite Z.pow_add_r by lia. pose proof (pow2_pos (e + n + 3000)).
    assert (2 ^ (d - 1 - n) <= v / 2 ^ n); [|nia].
    apply Z.div_le_lower_bound; [lia|]. rewrite <- Z.pow_add_r by lia.
    replace (n + (d - 1 - n)) with (d - 1) by lia. lia.
Qed.

(** A non-negative finite float with its scaled value in [lo, hi]. *)
Definition f64_between (x : f64) (lo hi : Z) : Prop :=
  (exists s, x = S754_zero s /\ lo <= 0 <= hi) \/
  (exists m e, x = S754_finite false m e /\ -1074 <= e /\ lo <= sc (Z.pos m) e <= hi).

(** Both bounds for the float that [binary_round_aux] returns. *)
Lemma binary_round_aux_between v e mL eL mU eU :
  0 < v -> -3000 <= e -> canonical mU eU -> (mL = 0 \/ canonical mL eL) ->
  sc mL eL <= sc v e <= sc mU eU -> sc mU eU <= 2 ^ 3971 ->
  f64_between (binary_round_aux 53 1024 false v e loc_Exact) (sc mL eL) (sc mU eU).
Proof.
  intros Hv He HU HL [Hle Hge] Hmax. pose proof (Zdigits2_bounds v Hv) as [Hd Hd0].
  destruct (binary_round_aux_value false v e Hv He) as (k & e' & Hr & He' & Hk & Hres).
  pose proof (rounded_upper _ _ _ _ _ _ _ Hv He Hd0 Hd He' Hr HU Hge) as Hup.
  assert (Hlo : sc mL eL <= sc k e').
  { destruct HL as [->|HL]; [|exact (rounded_lower _ _ _ _ _ _ _ Hv He Hd0 Hd He' Hr HL Hle)].
    unfold sc. pose proof (Z.pow_nonneg 2 (e' + 3000)). nia. }
  cbv zeta in *. destruct Hres as [[-> ->] | (Hk0 & m & e'' & Hm & He'' & ->)].
  - left. exists false. unfold sc in *. split; [done|lia].
  - assert (e'' <= 971).
    { destruct (Z.le_gt_cases e'' 971) as [|Hgt]; [done|]. exfalso.
      assert (2 ^ 3972 <= 2 ^ (e'' + 3000)) by (apply Z.pow_le_mono_r; lia).
      assert (2 ^ 3971 < 2 ^ 3972) by (apply Z.pow_lt_mono_r; lia).
      unfold sc in Hm at 1. nia. }
    replace (e'' <=? 971) with true by lia. right. exists m, e''. rewrite Hm. done.
Qed.

Lemma sc_mul m1 e1 m2 e2 : -1500 <= e1 -> -1500 <= e2 ->
  sc (m1 * m2) (e1 + e2) * 2 ^ 3000 = sc m1 e1 * sc m2 e2.
Proof.
  intros. unfold sc.
  replace (m1 * m2 * 2 ^ (e1 + e2 + 3000) * 2 ^ 3000)
    with (m1 * m2 * (2 ^ (e1 + e2 + 3000) * 2 ^ 3000)) by ring.
  rewrite <- Z.pow_add_r by lia.
  replace (e1 + e2 + 3000 + 3000) with ((e1 + 3000) + (e2 + 3000)) by lia.
  rewrite Z.pow_add_r by lia. ring.
Qed.

Lemma canonical_exp m e : canonical m e -> -1074 <= e <= 971.
Proof. intros (d & _ & _ & H & ?). rewrite fexp64_eq in H. lia. Qed.

(** A product of two non-negative numbers, between representable bounds. *)
Lemma f64_mul_between m1 e1 m2 e2 mL eL mU eU :
  -1074 <= e1 -> -1074 <= e2 ->
  canonical mU eU -> (mL = 0 \/ canonical mL eL) -> sc mU eU <= 2 ^ 3971 ->
  sc mL eL * 2 ^ 3000 <= sc (Z.pos m1) e1 * sc (Z.pos m2) e2 <= sc mU eU * 2 ^ 3000 ->
  f64_between (f64_mul (S754_finite false m1 e1) (S754_finite false m2 e2)) (sc mL eL) (sc mU eU).
Proof.
  intros H1 H2 HU HL Hmax Hb.
  unfold f64_mul. cbn [SFmul xorb].
  apply binary_round_aux_between; [lia|lia|done|done| |done].
  rewrite Pos2Z.inj_mul. rewrite <- sc_mul in Hb by lia.
  pose proof (pow2_pos 3000 ltac:(lia)). set (P := 2 ^ 3000) in *. clearbody P. nia.
Qed.

Lemma f64_one_sc : f64_sc f64_one = 2 ^ 3000.
Proof. vm_compute. reflexivity. Qed.

Lemma sc_le_one m : (m <= 4503599627370496)%positive -> sc (Z.pos m) (-52) <= sc 4503599627370496 (-52).
Proof. intros H. apply sc_le; [done|]. exact H. Qed.

(** Non-negative, not NaN or infinite, and at most [b] (in units of [2^-3000]). *)
Definition f64_within (x : f64) (b : Z) : Prop :=
  f64_valid x = true /\ f64_sc x <= b /\
  ((exists s, x = S754_zero s) \/ (exists m e, x = S754_finite false m e)).

(** [x.clamp(0.0, 1.0)] of a number that is not NaN lies in [0, 1]. *)
Lemma f64_clamp_unit u :
  f64_valid u = true -> f64_is_nan u = false ->
  f64_within (f64_clamp u f64_zero f64_one) (2 ^ 3000).
Proof.
  intros Hv Hn. unfold f64_clamp.
  change f64_zero with (S754_zero false). change f64_one with (S754_finite false 4503599627370496 (-52)).
  assert (HB : sc 4503599627370496 (-52) = 2 ^ 3000) by exact f64_one_sc.
  assert (Hpos : 0 <= 2 ^ 3000) by (apply Z.pow_nonneg; lia).
  assert (Hsmall : forall d e, 0 < d -> -1074 <= e -> d + e <= 0 -> 2 ^ d * 2 ^ (e + 3000) <= 2 ^ 3000).
  { intros. rewrite <- Z.pow_add_r by lia. apply Z.pow_le_mono_r; lia. }
  revert HB Hpos Hsmall. generalize (2 ^ 3000). intros B HB Hpos Hsmall.
  assert (Hone : f64_within (S754_finite false 4503599627370496 (-52)) B).
  { split_and!; [done| |eauto]. cbn [f64_sc signed]. lia. }
  assert (Hzero : forall s, f64_within (S754_zero s) B).
  { intros s. split_and!; [done|done|eauto]. }
  unfold f64_ltb, SFltb.
  destruct u as [s|[]| |[] m e]; try done; cbn [SFcompare]; try (apply Hzero); try (apply Hone).
  destruct (Z.compare_spec (-52) e) as [E|E|E]; cbn [SFcompare]; [|done|].
  - clear Hn; destruct E. change (Pos.compare_cont Eq 4503599627370496 m) with (Pos.compare 4503599627370496 m).
    destruct (Pos.compare_spec 4503599627370496 m) as [<-|?|?]; try done.
    split_and!; [done| |eauto]. cbn [f64_sc signed]. rewrite <- HB.
    apply sc_le_one. by apply Pos.lt_le_incl.
  - split_and!; [done| |eauto]. apply f64_valid_canonical in Hv as (d & Hd & Hd0 & He & _).
    rewrite fexp64_eq in He. cbn [f64_sc signed]. unfold sc.
    apply Z.le_trans with (2 ^ d * 2 ^ (e + 3000)); [|apply Hsmall; lia].
    pose proof (pow2_pos (e + 3000)). nia.
Qed.

(** The integer part as a quotient of the scaled value. *)
Lemma int_part_sc m e : -3000 <= e -> int_part m e = sc (Z.pos m) e / 2 ^ 3000.
Proof.
  intros He. unfold int_part, sc. destruct (0 <=? e) eqn:E; bsimp.
  - replace (e + 3000) with (e + 3000) by lia. rewrite Z.pow_add_r by lia.
    rewrite Z.mul_assoc, Z.div_mul; [done|]. pose proof (pow2_pos 3000). lia.
  - replace (2 ^ 3000) with (2 ^ (- e) * 2 ^ (e + 3000)) by (rewrite <- Z.pow_add_r by lia; f_equal; lia).
    rewrite Z.div_mul_cancel_r; [done| |].
    + pose proof (pow2_pos (- e)). lia.
    + pose proof (pow2_pos (e + 3000)). lia.
Qed.

(** [(x * u) as i64] with [0 <= u <= 1] stays between 0 and the integer part of [x]. *)
Lemma f64_mul_unit_int lo hi m e u :
  canonical (Z.pos m) e -> sc (Z.pos m) e <= 2 ^ 3971 -> f64_within u (2 ^ 3000) ->
  lo <= 0 -> int_part m e <= hi ->
  0 <= f64_to_int lo hi (f64_mul (S754_finite false m e) u) <= int_part m e.
Proof.
  intros Hc Hmax (Hv & Hle & Hform) Hlo Hhi.
  pose proof (canonical_exp _ _ Hc) as He.
  assert (Hpos : 0 < 2 ^ 3000) by (apply pow2_pos; lia).
  assert (H0 : 0 <= int_part m e).
  { rewrite int_part_sc by lia. apply Z.div_pos; [|done].
    unfold sc. pose proof (pow2_pos (e + 3000)). nia. }
  destruct Hform as [[s ->] | (m2 & e2 & ->)].
  { simpl. lia. }
  pose proof (f64_valid_canonical _ _ _ Hv) as Hc2. cbn [f64_sc signed] in Hle.
  destruct (f64_mul_between m e m2 e2 0 0 (Z.pos m) e (proj1 He) (proj1 (canonical_exp _ _ Hc2)) Hc (or_introl eq_refl) Hmax) as [Hz | Hf].
  { rewrite (Z.mul_0_l (2 ^ (0 + 3000)) : sc 0 0 = 0).
    assert (0 <= sc (Z.pos m) e) by (unfold sc; pose proof (pow2_pos (e + 3000)); nia).
    assert (0 <= sc (Z.pos m2) e2).
    { apply canonical_exp in Hc2. unfold sc; pose proof (pow2_pos (e2 + 3000)); nia. }
    revert Hle Hpos. generalize (2 ^ 3000). intros; nia. }
  - destruct Hz as (s & -> & _). simpl. lia.
  - destruct Hf as (m3 & e3 & -> & He3 & Hlo3 & Hup3). cbn [f64_to_int signed].
    assert (int_part m3 e3 <= int_part m e).
    { rewrite !int_part_sc by lia. by apply Z.div_le_mono. }
    assert (0 <= int_part m3 e3).
    { rewrite int_part_sc by lia. apply Z.div_pos; [|done].
      rewrite (Z.mul_0_l (2 ^ (0 + 3000)) : sc 0 0 = 0) in Hlo3. done. }
    unfold clamp. lia.
Qed.

(** ** Sums, exact integers and floors *)

Lemma pos_iter_xO m d : Z.pos (Pos.iter xO m d) = Z.pos m * 2 ^ Z.pos d.
Proof.
  induction d as [|d IH] using Pos.peano_ind; [simpl; lia|].
  rewrite Pos.iter_succ, Pos2Z.inj_succ, Z.pow_succ_r by lia. lia.
Qed.

Lemma shl_align_sc m e e' : -3000 <= e' ->
  let '(m', e2) := shl_align m e e' in
  sc (Z.pos m') e2 = sc (Z.pos m) e /\ e2 = Z.min e e'.
Proof.
  intros He'. unfold shl_align. destruct (e' - e) as [|d|d] eqn:E; [split; [done|lia]..|].
  split; [|lia]. rewrite pos_iter_xO, sc_shift by lia. f_equal. lia.
Qed.

Lemma binary_normalize_between v e mL eL mU eU :
  0 < v -> -3000 <= e -> canonical mU eU -> (mL = 0 \/ canonical mL eL) ->
  sc mL eL <= sc v e <= sc mU eU -> sc mU eU <= 2 ^ 3971 ->
  f64_between (binary_normalize 53 1024 v e false) (sc mL eL) (sc mU eU).
Proof.
  intros Hv He HU HL Hb Hmax. destruct v as [|v|v]; [lia| |lia]. cbn [binary_normalize].
  unfold binary_round. fold fexp64.
  pose proof (shl_align_sc v e (fexp64 (Z.pos (digits2_pos v) + e))) as H.
  rewrite fexp64_eq in *. destruct (shl_align v e _) as [m' e2].
  destruct H as [H1 H2]; [lia|].
  apply binary_round_aux_between; [lia|lia|done|done|by rewrite H1|done].
Qed.

(** A sum of two positive numbers, between representable bounds. *)
Lemma f64_add_between m1 e1 m2 e2 mL eL mU eU :
  -1074 <= e1 -> -1074 <= e2 ->
  canonical mU eU -> (mL = 0 \/ canonical mL eL) -> sc mU eU <= 2 ^ 3971 ->
  sc mL eL <= sc (Z.pos m1) e1 + sc (Z.pos m2) e2 <= sc mU eU ->
  f64_between (f64_add (S754_finite false m1 e1) (S754_finite false m2 e2)) (sc mL eL) (sc mU eU).
Proof.
  intros H1 H2 HU HL Hmax Hb. unfold f64_add. cbn [SFadd cond_Zopp].
  pose proof (shl_align_sc m1 e1 (Z.min e1 e2) ltac:(lia)) as Ha1.
  pose proof (shl_align_sc m2 e2 (Z.min e1 e2) ltac:(lia)) as Ha2.
  destruct (shl_align m1 e1 _) as [n1 f1], (shl_align m2 e2 _) as [n2 f2]. cbn [fst].
  destruct Ha1 as [Ha1 Hf1], Ha2 as [Ha2 Hf2].
  replace f1 with (Z.min e1 e2) in * by lia. replace f2 with (Z.min e1 e2) in * by lia.
  apply binary_normalize_between; [lia|lia|done|done| |done].
  replace (sc (Z.pos n1 + Z.pos n2) (Z.min e1 e2)) with (sc (Z.pos m1) e1 + sc (Z.pos m2) e2); [done|].
  rewrite <- Ha1, <- Ha2. unfold sc. ring.
Qed.

(** The canonical form of a positive integer below [2^53]. *)
Lemma canonical_int z : 0 < z < 2 ^ 53 -> exists m e, canonical m e /\ sc m e = sc z 0 /\ sc m e <= 2 ^ 3971.
Proof.
  intros Hz. pose proof (Zdigits2_bounds z ltac:(lia)) as [Hd Hd0].
  assert (Hle : Zdigits2 z - 1 < 53) by (apply pow2_lt_inv; lia).
  assert (Hsc : sc (z * 2 ^ (53 - Zdigits2 z)) (Zdigits2 z - 53) = sc z 0).
  { rewrite sc_shift by lia. f_equal. lia. }
  exists (z * 2 ^ (53 - Zdigits2 z)), (Zdigits2 z - 53). split_and!; [|done|].
  - exists 53. split; [split|split_and!; [lia| |lia]].
    + replace (53 - 1) with ((Zdigits2 z - 1) + (53 - Zdigits2 z)) by lia.
      rewrite Z.pow_add_r by lia. pose proof (pow2_pos (53 - Zdigits2 z)). nia.
    + replace (2 ^ 53) with (2 ^ Zdigits2 z * 2 ^ (53 - Zdigits2 z)) by (rewrite <- Z.pow_add_r by lia; f_equal; lia).
      pose proof (pow2_pos (53 - Zdigits2 z)). nia.
    + rewrite fexp64_eq. lia.
  - rewrite Hsc. unfold sc. apply Z.le_trans with (2 ^ 53 * 2 ^ (0 + 3000)).
    + apply Z.mul_le_mono_nonneg_r; [apply Z.pow_nonneg; lia|lia].
    + rewrite <- Z.pow_add_r by lia. apply Z.pow_le_mono_r; lia.
Qed.

(** An integer below [2^53] is represented exactly. *)
Lemma f64_of_Z_exact z : 0 <= z < 2 ^ 53 -> f64_between (f64_of_Z z) (sc z 0) (sc z 0).
Proof.
  intros Hz. destruct (Z.eq_dec z 0) as [->|]; [left; by exists false|].
  destruct (canonical_int z) as (m & e & Hc & Hs & Hm); [lia|].
  unfold f64_of_Z. rewrite <- Hs. apply binary_normalize_between; rewrite ?Hs; (lia || auto).
Qed.

Lemma sc_int z : sc z 0 = z * 2 ^ 3000.
Proof. done. Qed.

Lemma int_part_between m e lo hi :
  -1074 <= e -> sc lo 0 <= sc (Z.pos m) e <= sc hi 0 -> lo <= int_part m e <= hi.
Proof.
  intros He. rewrite int_part_sc by lia. rewrite !sc_int. intros H.
  assert (Hp : 0 < 2 ^ 3000) by (apply pow2_pos; lia). revert Hp H. generalize (2 ^ 3000). intros P Hp H.
  split; [apply Z.div_le_lower_bound; lia|]. apply Z.div_le_upper_bound; lia.
Qed.

Lemma f64_as_u64_between x lo hi :
  0 <= lo -> hi <= u64_max -> f64_between x (sc lo 0) (sc hi 0) -> lo <= f64_as_u64 x <= hi.
Proof.
  intros Hlo Hhi [(s & -> & H)|(m & e & -> & He & H)].
  - cbn [f64_as_u64 f64_to_int]. unfold f64_as_u64. simpl. rewrite !sc_int in H.
    assert (Hp : 0 < 2 ^ 3000) by (apply pow2_pos; lia). revert Hp H. generalize (2 ^ 3000). intros. nia.
  - unfold f64_as_u64. cbn [f64_to_int signed]. apply int_part_between in H; [|done]. unfold clamp. lia.
Qed.

(** [x.floor() as u64] of a number between two integers stays between them. *)
Lemma f64_floor_as_u64_between x lo hi :
  0 <= lo -> hi < 2 ^ 53 -> f64_between x (sc lo 0) (sc hi 0) ->
  lo <= f64_as_u64 (f64_floor x) <= hi.
Proof.
  intros Hlo Hhi Hx. destruct Hx as [Hx|(m & e & -> & He & H)].
  - apply f64_as_u64_between; [done|mlia|]. left. destruct Hx as (s & -> & H). by exists s.
  - cbn [f64_floor andb signed]. destruct (0 <=? e) eqn:Ee.
    { apply f64_as_u64_between; [done|mlia|]. right. eauto. }
    pose proof (int_part_between m e lo hi He H) as Hi. rewrite Z.sub_0_r.
    unfold f64_of_signed. destruct (int_part m e =? 0) eqn:E0; bsimp; [cbn; lia|].
    pose proof (f64_of_Z_exact (int_part m e) ltac:(lia)) as Hz.
    apply f64_as_u64_between in Hz; [lia..|]. mlia.
Qed.

(** ** Rounding a number of moderate size stays finite *)

Lemma shr_iter_m r k : 0 <= shr_m r -> shr_m (Nat.iter k shr_1 r) = shr_m r / 2 ^ Z.of_nat k.
Proof.
  intros Hr. induction k as [|k IH]; [simpl; by rewrite Z.div_1_r|].
  simpl Nat.iter. rewrite Nat2Z.inj_succ, Z.pow_succ_r by lia.
  pose proof (pow2_pos (Z.of_nat k) ltac:(lia)).
  rewrite (Z.mul_comm 2), <- Z.div_div by lia. rewrite <- IH.
  assert (0 <= shr_m (Nat.iter k shr_1 r)) by (rewrite IH; apply Z.div_pos; lia).
  destruct (Nat.iter k shr_1 r) as [m a b]; cbn [shr_m] in *.
  destruct m as [|[p|p|]|p]; cbn [shr_1 shr_m]; try lia; dlia.
Qed.

Lemma shr_m_spec r e n : 0 <= shr_m r ->
  let '(r', e') := shr r e n in e' = e + Z.max 0 n /\ shr_m r' = shr_m r / 2 ^ Z.max 0 n.
Proof.
  intros Hr. destruct n as [|p|p]; simpl shr.
  1,3: simpl; rewrite Z.div_1_r; split; [lia|done].
  rewrite iter_pos_nat, shr_iter_m, positive_nat_Z by done. split; [lia|done].
Qed.

Lemma Zdigits2_le v d : 0 <= v < 2 ^ d -> 0 <= d -> Zdigits2 v <= d.
Proof.
  intros Hv Hd. destruct (Z.eq_dec v 0) as [->|]; [done|].
  pose proof (Zdigits2_bounds v ltac:(lia)) as [Hb _].
  assert (Zdigits2 v - 1 < d) by (apply pow2_lt_inv; lia). lia.
Qed.

Lemma shr_record_of_loc_m m l : shr_m (shr_record_of_loc m l) = m.
Proof. by destruct l as [|[]]. Qed.

Lemma round_nearest_even_bounds m l : 0 <= m -> 0 <= round_nearest_even m l <= m + 1.
Proof. intros. destruct l as [|[]]; simpl; try lia. destruct (Z.even m); lia. Qed.

(** [q * 2^e] below [2^900] rounds to a finite number. *)
Lemma binary_round_aux_finite s q e l D :
  0 <= q < 2 ^ D -> 0 <= D -> e <= 900 -> D + e <= 900 ->
  f64_is_finite (binary_round_aux 53 1024 s q e l) = true.
Proof.
  intros Hq HD He HDe. unfold binary_round_aux, shr_fexp. fold fexp64.
  pose proof (shr_m_spec (shr_record_of_loc q l) e (fexp64 (Zdigits2 q + e) - e)) as H.
  rewrite shr_record_of_loc_m in H. specialize (H ltac:(lia)).
  destruct (shr _ e _) as [r e']. destruct H as [He' Hm].
  set (n := Z.max 0 (fexp64 (Zdigits2 q + e) - e)) in *.
  assert (Hn : 0 <= n) by lia. pose proof (pow2_pos n Hn) as Hp.
  assert (Hnv : n = Z.max 0 (Z.max (Zdigits2 q + e - 53) (-1074) - e)) by (unfold n; by rewrite fexp64_eq).
  clearbody n.
  pose proof (Zdigits2_le q D Hq HD) as Hdq.
  assert (Hm0 : 0 <= shr_m r) by (rewrite Hm; apply Z.div_pos; lia).
  pose proof (round_nearest_even_bounds (shr_m r) (loc_of_shr_record r) Hm0) as Hk.
  set (k := round_nearest_even _ _) in *.
  assert (Hdk : Zdigits2 k <= Z.max 0 (D - n) + 1).
  { apply Zdigits2_le; [|lia]. assert (shr_m r < 2 ^ Z.max 0 (D - n)).
    { rewrite Hm. apply Z.div_lt_upper_bound; [lia|]. rewrite <- Z.pow_add_r by lia.
      apply Z.lt_le_trans with (2 ^ D); [lia|]. apply Z.pow_le_mono_r; lia. }
    rewrite Z.pow_add_r by lia. lia. }
  pose proof (shr_m_spec (shr_record_of_loc k loc_Exact) e' (fexp64 (Zdigits2 k + e') - e')) as H.
  rewrite shr_record_of_loc_m in H. specialize (H ltac:(lia)).
  destruct (shr _ e' _) as [r2 e'']. destruct H as [He'' Hm2].
  assert (0 <= shr_m r2).
  { rewrite Hm2. apply Z.div_pos; [lia|]. apply pow2_pos. lia. }
  rewrite fexp64_eq in He''. destruct (shr_m r2) as [|m|m]; [done| |lia].
  change (1024 - 53) with 971. replace (e'' <=? 971) with true by lia. done.
Qed.

(** The nearest double of a decimal number below [2^200] is finite. *)
Lemma f64_of_ratio_finite s n d : 0 <= n < 2 ^ 200 -> f64_is_finite (f64_of_ratio s n d) = true.
Proof.
  intros Hn. destruct n as [|n|n]; [done| |lia]. unfold f64_of_ratio, SFdiv_core_binary. fold fexp64.
  pose proof (Zdigits2_le (Z.pos n) 200 ltac:(lia) ltac:(lia)) as Hd.
  pose proof (Zdigits2_bounds (Z.pos n) ltac:(lia)) as [_ Hd1].
  pose proof (Zdigits2_bounds (Z.pos d) ltac:(lia)) as [_ Hd2].
  rewrite !Z.add_0_r, !Z.sub_0_r. set (e' := Z.min _ 0). assert (He' : e' <= 0) by lia.
  set (m' := match 0 - e' with Z0 => Z.pos n | Z.pos _ => _ | Z.neg _ => 0 end).
  assert (Hm' : 0 <= m' < 2 ^ (200 - e')).
  { unfold m'. destruct (0 - e') as [|p|p] eqn:E; [replace e' with 0 by lia; change (200 - 0) with 200; lia| |lia].
    rewrite <- E, Z.shiftl_mul_pow2 by lia. pose proof (pow2_pos (0 - e') ltac:(lia)).
    replace (200 - e') with (200 + (0 - e')) by lia. rewrite Z.pow_add_r by lia. nia. }
  pose proof (Z_div_mod m' (Z.pos d) ltac:(lia)) as Hdiv.
  destruct (Z.div_eucl m' (Z.pos d)) as [q r]. destruct Hdiv as [Hq Hr].
  apply (binary_round_aux_finite s q e' _ (200 - e')); [|lia|lia|lia]. nia.
Qed.

(** ** More of Rust's [f64]: comparison, rounding and the mathematical functions

    What the drive and charge lifecycle and the geography use beyond [F64]: the
    order of floats, [max], [min], [round], decimal rounding, [sqrt] and the
    platform's trigonometric functions, which the Standard Library of Rust leaves
    to the host and which are parameters here ([Libm]). *)

Definition f64_sub : f64 -> f64 -> f64 := SFsub 53 1024.
Definition f64_opp : f64 -> f64 := SFopp.
Definition f64_abs : f64 -> f64 := SFabs.
Definition f64_sqrt : f64 -> f64 := SFsqrt 53 1024.
(** [==], which takes the two zeros as equal and no NaN as equal to anything. *)
Definition f64_eqb : f64 -> f64 -> bool := SFeqb.

(** The double nearest to [n / d], as the compiler reads the literal [n / d]. *)
Definition f64_lit (n : Z) (d : positive) : f64 := f64_of_ratio (n <? 0) (Z.abs n) d.

(** [f64::max] and [f64::min]: the other operand when one is NaN.  (Rust leaves
    the sign of the result open for two zeros of different signs; here it is the
    first operand's.) *)
Definition f64_max (x y : f64) : f64 :=
  if f64_is_nan x then y else if f64_ltb x y then y else x.
Definition f64_min (x y : f64) : f64 :=
  if f64_is_nan x then y else if f64_ltb y x then y else x.

(** [(lo..=hi).contains(&x)]. *)
Definition f64_contains (lo hi x : f64) : bool := f64_leb lo x && f64_leb x hi.

(** [f64::round]: to the nearest integer, halves away from zero. *)
Definition round_part (m : positive) (e : Z) : Z :=
  if 0 <=? e then Z.pos m * 2 ^ e else (Z.pos m + 2 ^ (- e - 1)) / 2 ^ (- e).
Definition f64_round (x : f64) : f64 :=
  match x with
  | S754_finite s m e => if 0 <=? e then x else f64_of_signed s (signed s (round_part m e))
  | _ => x
  end.

(** [f64::fract]. *)
Definition f64_fract (x : f64) : f64 := f64_sub x (f64_trunc x).

(** [f64::total_cmp], for the values the Hub compares with it: every number below
    NaN and [-0.0] below [0.0]. *)
Definition f64_total_cmp (x y : f64) : comparison :=
  match x, y with
  | S754_nan, S754_nan => Eq
  | S754_nan, _ => Gt
  | _, S754_nan => Lt
  | S754_zero s, S754_zero t => Bool.compare t s
  | _, _ => match SFcompare x y with Some c => c | None => Eq end
  end.

(** ** The functions of the host's mathematical library *)
Class Libm := { f64_sin : f64 -> f64; f64_cos : f64 -> f64; f64_asin : f64 -> f64 }.

(** [std::f64::consts::PI / 180.0], the factor of [to_radians]. *)
Definition PI : f64 := S754_finite false 7074237752028440 (-51).
Definition RADS_PER_DEG : f64 := f64_div PI (f64_of_Z 180).
Definition to_radians (x : f64) : f64 := f64_mul x RADS_PER_DEG.

Example floats_ex :
  f64_as_i64 (f64_round (f64_lit 25 10)) = 3 /\ f64_as_i64 (f64_round (f64_lit (-25) 10)) = -3
  /\ f64_eqb (f64_fract (f64_lit 5 2)) (f64_lit 1 2) = true
  /\ f64_eqb (f64_sqrt (f64_of_Z 49)) (f64_of_Z 7) = true
  /\ f64_max S754_nan f64_one = f64_one /\ f64_min f64_zero f64_one = f64_zero.
Proof. vm_compute. repeat split. Qed.

(** ** The order of floats

    [SFcompare] is a lexicographic comparison of the class, the exponent and the
    mantissa, so it is linear on all numbers, canonical or not. *)
Definition rank (x : f64) : Z * Z * Z :=
  match x with
  | S754_nan => (3, 0, 0)
  | S754_infinity s => (if s then -2 else 2, 0, 0)
  | S754_zero _ => (0, 0, 0)
  | S754_finite s m e => if s then (-1, - e, - Z.pos m) else (1, e, Z.pos m)
  end.

Definition rank_lt (p q : Z * Z * Z) : Prop :=
  let '(a, b, c) := p in
  let '(a', b', c') := q in
  a < a' \/ a = a' /\ (b < b' \/ b = b' /\ c < c').

Lemma SFcompare_rank x y : f64_is_nan x = false -> f64_is_nan y = false ->
  match SFcompare x y with
  | Some Lt => rank_lt (rank x) (rank y)
  | Some Eq => rank x = rank y
  | Some Gt => rank_lt (rank y) (rank x)
  | None => False
  end.
Proof.
  destruct x as [?|[]| |[] m e], y as [?|[]| |[] m' e']; try done; intros _ _; cbn; try lia.
  - destruct (Z.compare_spec e e') as [->| |]; [|lia..].
    change (Pos.compare_cont Eq m m') with (Pos.compare m m').
    destruct (Pos.compare_spec m m') as [->| |]; cbn; [done|lia..].
  - destruct (Z.compare_spec e e') as [->| |]; [|lia..].
    change (Pos.compare_cont Eq m m') with (Pos.compare m m').
    destruct (Pos.compare_spec m m') as [->| |]; cbn; [done|lia..].
Qed.

Lemma f64_ltb_rank x y :
  f64_ltb x y = true <-> f64_is_nan x = false /\ f64_is_nan y = false /\ rank_lt (rank x) (rank y).
Proof.
  unfold f64_ltb, SFltb.
  destruct (f64_is_nan x) eqn:Hx; [destruct x; naive_solver|].
  destruct (f64_is_nan y) eqn:Hy; [destruct y; try done; destruct x; naive_solver|].
  pose proof (SFcompare_rank x y Hx Hy) as H. destruct (SFcompare x y) as [[]|]; [| | |done].
  - rewrite H. destruct (rank y) as [[a b] c]. cbn. split; [done|lia].
  - split; [naive_solver|done].
  - destruct (rank x) as [[a b] c], (rank y) as [[a' b'] c']. cbn in *. split; [done|lia].
Qed.

Lemma f64_leb_rank x y :
  f64_leb x y = true <->
  f64_is_nan x = false /\ f64_is_nan y = false /\ (rank_lt (rank x) (rank y) \/ rank x = rank y).
Proof.
  unfold f64_leb, SFleb.
  destruct (f64_is_nan x) eqn:Hx; [destruct x; naive_solver|].
  destruct (f64_is_nan y) eqn:Hy; [destruct y; try done; destruct x; naive_solver|].
  pose proof (SFcompare_rank x y Hx Hy) as H. destruct (SFcompare x y) as [[]|]; [| | |done].
  - naive_solver.
  - naive_solver.
  - destruct (rank x) as [[a b] c], (rank y) as [[a' b'] c']. cbn in *.
    split; [done|]. intros (_ & _ & [?|?]); [lia|]. simplify_eq. lia.
Qed.

Lemma f64_eqb_rank x y :
  f64_eqb x y = true <-> f64_is_nan x = false /\ f64_is_nan y = false /\ rank x = rank y.
Proof.
  unfold f64_eqb, SFeqb.
  destruct (f64_is_nan x) eqn:Hx; [destruct x; naive_solver|].
  destruct (f64_is_nan y) eqn:Hy; [destruct y; try done; destruct x; naive_solver|].
  pose proof (SFcompare_rank x y Hx Hy) as H. destruct (SFcompare x y) as [[]|]; [| | |done].
  - naive_solver.
  - destruct (rank x) as [[a b] c], (rank y) as [[a' b'] c']. cbn in *. split; [done|].
    intros (_ & _ & ?). simplify_eq. lia.
  - destruct (rank x) as [[a b] c], (rank y) as [[a' b'] c']. cbn in *. split; [done|].
    intros (_ & _ & ?). simplify_eq. lia.
Qed.

(** Facts about a comparison become facts about ranks, then [lia]. *)
Ltac frank_facts :=
  repeat match goal with
  | H : f64_ltb _ _ = true |- _ => apply f64_ltb_rank in H as (? & ? & ?)
  | H : f64_leb _ _ = true |- _ => apply f64_leb_rank in H as (? & ? & ?)
  | H : f64_eqb _ _ = true |- _ => apply f64_eqb_rank in H as (? & ? & ?)
  | H : _ = false |- _ => rewrite <- not_true_iff_false in H
  end.

Lemma f64_leb_total x y : f64_is_nan x = false -> f64_is_nan y = false -> f64_leb x y = negb (f64_ltb y x).
Proof.
  intros Hx Hy. apply eq_true_iff_eq. rewrite negb_true_iff, <- not_true_iff_false, f64_leb_rank, f64_ltb_rank.
  destruct (rank x) as [[a b] c], (rank y) as [[a' b'] c']. cbn. split.
  - intros (_ & _ & [?|?]) (_ & _ & ?); [lia|]. simplify_eq. lia.
  - intros H. split_and!; [done..|].
    assert (Hn : ~ (a' < a \/ a' = a /\ (b' < b \/ b' = b /\ c' < c))) by (intros ?; apply H; done).
    destruct (decide (a = a')) as [->|]; [|left; lia].
    destruct (decide (b = b')) as [->|]; [|left; lia].
    destruct (decide (c = c')) as [->|]; [by right|left; lia].
Qed.

Lemma f64_leb_trans x y z : f64_leb x y = true -> f64_leb y z = true -> f64_leb x z = true.
Proof.
  rewrite !f64_leb_rank. destruct (rank x) as [[a b] c], (rank y) as [[a' b'] c'], (rank z) as [[a2 b2] c2]. cbn.
  intros (Hx & _ & [?|?]) (_ & Hz & [?|?]); split_and!; try done; simplify_eq; auto; left; lia.
Qed.

Lemma f64_leb_refl x : f64_is_nan x = false -> f64_leb x x = true.
Proof. rewrite f64_leb_rank. auto. Qed.

Lemma f64_ltb_leb x y : f64_ltb x y = true -> f64_leb x y = true.
Proof. rewrite f64_ltb_rank, f64_leb_rank. naive_solver. Qed.

Lemma f64_finite_not_nan x : f64_is_finite x = true -> f64_is_nan x = false.
Proof. by destruct x. Qed.

Lemma f64_max_le x y z : f64_leb x z = true -> f64_leb y z = true -> f64_leb (f64_max x y) z = true.
Proof. intros. unfold f64_max. repeat case_match; done. Qed.

Lemma f64_max_ge_l x y : f64_is_nan x = false -> f64_leb x (f64_max x y) = true.
Proof.
  intros Hx. unfold f64_max. rewrite Hx. destruct (f64_ltb x y) eqn:E; [by apply f64_ltb_leb|by apply f64_leb_refl].
Qed.

Lemma f64_max_ge_r x y : f64_is_nan x = false -> f64_is_nan y = false -> f64_leb y (f64_max x y) = true.
Proof.
  intros Hx Hy. unfold f64_max. rewrite Hx. destruct (f64_ltb x y) eqn:E; [by apply f64_leb_refl|].
  rewrite f64_leb_total by done. by rewrite E.
Qed.

Lemma f64_max_finite x y : f64_is_finite x = true -> f64_is_finite y = true -> f64_is_finite (f64_max x y) = true.
Proof. intros. unfold f64_max. repeat case_match; done. Qed.
