(* ===== verification/External.v ===== *)
(** * What the Hub takes from other crates

    [serde_json::Value] as a data type with its documented accessors, and the
    operations of the [url], [base64] and [serde_json] crates as the fields of
    one type class: every definition that calls them takes an [External]
    instance, so nothing is assumed about them beyond what a theorem names. *)
From S2P Require Import Prelude RustStr F64.
Local Open Scope string_scope.
Local Open Scope Z_scope.

(** ** [serde_json::Value] *)

(** [serde_json::Number] without [arbitrary_precision]: a [u64], a negative
    [i64] or a finite [f64]. *)
Inductive number :=
| PosInt (n : Z)
| NegInt (n : Z)
| Float (x : f64).

Inductive json :=
| JNull
| JBool (b : bool)
| JNumber (n : number)
| JString (s : string)
| JArray (l : list json)
| JObject (m : list (string * json)).

Definition number_as_u64 (n : number) : option Z :=
  match n with PosInt n => Some n | _ => None end.
Definition number_as_i64 (n : number) : option Z :=
  match n with PosInt n => i64_try_from n | NegInt n => Some n | Float _ => None end.
Definition number_as_f64 (n : number) : option f64 :=
  match n with PosInt n | NegInt n => Some (f64_of_Z n) | Float x => Some x end.

Definition json_as_number (v : json) : option number :=
  match v with JNumber n => Some n | _ => None end.
Definition json_as_str (v : json) : option string :=
  match v with JString s => Some s | _ => None end.
Definition json_as_object (v : json) : option (list (string * json)) :=
  match v with JObject m => Some m | _ => None end.
Definition json_is_object (v : json) : bool := is_some (json_as_object v).

(** [Map::get]: the members of an object have distinct names. *)
Fixpoint obj_get (k : string) (m : list (string * json)) : option json :=
  match m with
  | [] => None
  | (k', v) :: m => if bool_decide (k' = k) then Some v else obj_get k m
  end.

(** ** [url::Host] *)
Inductive url_host_kind :=
| HostDomain (name : string)
| HostIpv4 (octets : Z * Z * Z * Z)
| HostIpv6 (address : Z).

(** ** The crates the modelled code calls *)
Class External := {
  Url : Type;
  Url_eq_dec :: EqDecision Url;
  Url_inhabited :: Inhabited Url;
  url_parse : string -> option Url;
  url_scheme : Url -> string;
  url_host_str : Url -> option string;
  url_host : Url -> option url_host_kind;
  url_username : Url -> string;
  url_password : Url -> option string;
  url_query : Url -> option string;
  url_fragment : Url -> option string;
  (** [URL_SAFE_NO_PAD.decode] *)
  b64url_decode : string -> option string;
  (** [serde_json::from_slice::<Value>] *)
  json_from_slice : string -> option json;
}.

(** SHA-256 of the [sha2] crate. *)
Class Digest := { sha256 : string -> string }.

(** ** A small concrete instance, used to evaluate the definitions

    URLs of the forms [https://host/path] and [http://127.0.0.1/path]; tokens
    are their own base64 text, and two JSON texts are known. *)
Module Sample.

Record surl := MkSurl { su_scheme : string; su_host : string; su_path : string }.

#[global] Instance surl_eq_dec : EqDecision surl.
Proof. solve_decision. Defined.
#[global] Instance surl_inhabited : Inhabited surl := populate (MkSurl "" "" "").

Definition parse_after (scheme rest : string) : option surl :=
  match split_once "/" rest with
  | Some (host, path) => Some (MkSurl scheme host path)
  | None => Some (MkSurl scheme rest "")
  end.

Definition parse (s : string) : option surl :=
  match strip_prefix "https://" s with
  | Some rest => parse_after "https" rest
  | None => match strip_prefix "http://" s with
            | Some rest => parse_after "http" rest
            | None => None
            end
  end.

Definition host (u : surl) : option url_host_kind :=
  if bool_decide (su_host u = "127.0.0.1") then Some (HostIpv4 (127, 0, 0, 1))
  else Some (HostDomain (su_host u)).

Definition global_claims : json :=
  JObject [("iss", JString "https://auth.tesla.com/oauth2/v3"); ("exp", JNumber (PosInt 1800000000))].

Definition from_slice (s : string) : option json :=
  if bool_decide (s = "h") then Some (JObject [("alg", JString "RS256")])
  else if bool_decide (s = "p") then Some global_claims
  else None.

Definition external : External := {|
  Url := surl;
  url_parse := parse;
  url_scheme := su_scheme;
  url_host_str u := Some (su_host u);
  url_host := host;
  url_username _ := "";
  url_password _ := None;
  url_query _ := None;
  url_fragment _ := None;
  b64url_decode s := Some s;
  json_from_slice := from_slice;
|}.

End Sample.

(** ** [std::time::Duration] and [Instant]

    A [External] is its number of nanoseconds, an [Instant] the nanoseconds since
    an arbitrary origin of the monotonic clock.  [Instant + Duration] panics only
    past the range of the platform clock, which no program lives to see; it is
    plain addition here. *)

Definition Duration : Type := Z.
Definition Instant : Type := Z.

Definition NANOS_PER_SEC : Z := 1000000000.
Definition NANOS_PER_MILLI : Z := 1000000.

Definition duration_max : Duration := u64_max * NANOS_PER_SEC + 999999999.

Definition from_secs (s : Z) : Duration := s * NANOS_PER_SEC.
Definition from_millis (ms : Z) : Duration := ms * NANOS_PER_MILLI.
Definition as_secs (d : Duration) : Z := d / NANOS_PER_SEC.
Definition as_millis (d : Duration) : Z := d / NANOS_PER_MILLI.
Definition duration_smul (d : Duration) (k : Z) : Duration := Z.min duration_max (d * k).

(** [Instant::saturating_duration_since]. *)
Definition saturating_duration_since (later earlier : Instant) : Duration := Z.max 0 (later - earlier).

Lemma as_millis_from_millis ms : as_millis (from_millis ms) = ms.
Proof. unfold as_millis, from_millis, NANOS_PER_MILLI. by rewrite Z.div_mul. Qed.

(** Unfold durations to integers. *)
Ltac dunfold :=
  unfold Duration, Instant, from_secs, from_millis, as_millis, as_secs, duration_smul, duration_max,
    saturating_duration_since, NANOS_PER_SEC, NANOS_PER_MILLI in *.
