(* ===== verification/Bytes.v ===== *)
(** * Bytes: fixed-width integers, hexadecimal text and HMAC

    Big- and little-endian integers of [to_be_bytes] and [from_le_bytes], the [hex]
    crate as an interface with its documented laws, and [hmac_sha256],
    [constant_time_eq] and [CursorKey] of [src/src/api/protocol.rs]. *)
From S2P Require Import Prelude RustStr External.
Local Open Scope string_scope.
Local Open Scope Z_scope.

(** ** Integers as bytes *)

Definition byte_ascii (z : Z) : ascii := ascii_of_N (Z.to_N (z mod 256)).

(** [u64::to_le_bytes]. *)
Fixpoint le_bytes (width : nat) (z : Z) : string :=
  match width with
  | O => ""
  | S width => String (byte_ascii z) (le_bytes width (z / 256))
  end.
(** [to_be_bytes]: a negative integer by its two's complement. *)
Fixpoint be_bytes (width : nat) (z : Z) : string :=
  match width with
  | O => ""
  | S width => String (byte_ascii (z / 256 ^ Z.of_nat width)) (be_bytes width z)
  end.
(** [from_be_bytes] and [Uuid::from_bytes]: a big-endian number on top of [acc]. *)
Fixpoint be_value (acc : Z) (bytes : string) : Z :=
  match bytes with
  | EmptyString => acc
  | String c bytes => be_value (acc * 256 + byte_of c) bytes
  end.
Definition i64_from_be (bytes : string) : Z := i64_wrap (be_value 0 bytes).

Lemma byte_of_ascii z : byte_of (byte_ascii z) = z mod 256.
Proof.
  unfold byte_of, byte_ascii. pose proof (Z.mod_pos_bound z 256 ltac:(lia)).
  rewrite N_ascii_embedding by lia. lia.
Qed.
Lemma byte_of_range c : 0 <= byte_of c < 256.
Proof. unfold byte_of. pose proof (N_ascii_bounded c). lia. Qed.
Lemma byte_ascii_of c : byte_ascii (byte_of c) = c.
Proof.
  unfold byte_ascii. rewrite Z.mod_small by apply byte_of_range. unfold byte_of. rewrite N2Z.id. apply ascii_N_embedding.
Qed.

Lemma be_bytes_length w z : String.length (be_bytes w z) = w.
Proof. induction w; cbn; congruence. Qed.

Lemma be_value_acc s acc : be_value acc s = acc * 256 ^ str_len s + be_value 0 s.
Proof.
  revert acc. induction s as [|c s IH]; intros acc; cbn [be_value]; [rewrite Z.pow_0_r; lia|].
  rewrite IH, (IH (0 * 256 + byte_of c)). unfold str_len. cbn [String.length]. rewrite Nat2Z.inj_succ, Z.pow_succ_r by lia. ring.
Qed.

Lemma be_value_bytes w z : be_value 0 (be_bytes w z) = z mod 256 ^ Z.of_nat w.
Proof.
  induction w as [|w IH]; cbn [be_bytes be_value]; [by rewrite Z.mod_1_r|].
  rewrite be_value_acc, IH, byte_of_ascii. unfold str_len. rewrite be_bytes_length, Nat2Z.inj_succ, Z.pow_succ_r by lia.
  set (p := 256 ^ Z.of_nat w). assert (0 < p) by (unfold p; lia).
  rewrite Z.mul_0_l, Z.add_0_l, (Z.mul_comm 256 p), Z.rem_mul_r by lia. ring.
Qed.

Lemma be_value_range s : 0 <= be_value 0 s < 256 ^ str_len s.
Proof.
  induction s as [|c s IH]; [unfold str_len; cbn; lia|]. cbn [be_value]. rewrite be_value_acc.
  unfold str_len in *. cbn [String.length]. rewrite Nat2Z.inj_succ, Z.pow_succ_r by lia. pose proof (byte_of_range c). nia.
Qed.

(** The low bytes do not depend on what is above them. *)
Lemma be_bytes_low n w k z : (n <= w)%nat -> be_bytes n (k * 256 ^ Z.of_nat w + z) = be_bytes n z.
Proof.
  induction n as [|n IH]; intros Hn; [done|]. cbn [be_bytes]. rewrite IH by lia. f_equal. unfold byte_ascii. do 2 f_equal.
  replace (Z.of_nat w) with (Z.of_nat (w - n - 1) + 1 + Z.of_nat n) by lia. rewrite !Z.pow_add_r, Z.pow_1_r by lia.
  rewrite Z.mul_assoc, Z.div_add_l, Z.mul_assoc, Z.add_comm, Z.mod_add by lia. done.
Qed.

Lemma be_bytes_value w s : String.length s = w -> be_bytes w (be_value 0 s) = s.
Proof.
  revert w. induction s as [|c s IH]; intros [|w]; cbn [String.length]; try done. intros [= Hw].
  cbn [be_bytes]. assert (Hv : be_value 0 (String c s) = byte_of c * 256 ^ Z.of_nat w + be_value 0 s).
  { cbn [be_value]. rewrite be_value_acc. unfold str_len. rewrite Hw. ring. }
  pose proof (be_value_range s) as Hr. unfold str_len in Hr. rewrite Hw in Hr. f_equal.
  - rewrite Hv. replace (_ / _) with (byte_of c); [apply byte_ascii_of|].
    symmetry. rewrite Z.div_add_l by lia. rewrite Z.div_small by lia. lia.
  - rewrite Hv, be_bytes_low by lia. by apply IH.
Qed.

Lemma i64_from_be_bytes z : in_i64 z -> i64_from_be (be_bytes 8 z) = z.
Proof.
  intros Hz. unfold i64_from_be. rewrite be_value_bytes. unfold i64_wrap, in_i64, i64_min, i64_max in *.
  replace (256 ^ Z.of_nat 8) with 18446744073709551616 by reflexivity. dlia.
Qed.
Lemma be_bytes_i64_from s : String.length s = 8%nat -> be_bytes 8 (i64_from_be s) = s.
Proof.
  intros Hs. rewrite <- (be_bytes_value 8 s Hs) at 2. unfold i64_from_be. set (v := be_value 0 s).
  assert (Hw : exists k, i64_wrap v = k * 256 ^ 8 + v).
  { exists (- ((v - i64_min) / 18446744073709551616)). unfold i64_wrap, i64_min. rewrite Z.mod_eq by lia. lia. }
  destruct Hw as [k ->]. by apply (be_bytes_low 8 8).
Qed.
Lemma i64_from_be_range s : in_i64 (i64_from_be s).
Proof. apply i64_wrap_range. Qed.

(** ** Slices *)

Definition slice (offset length : nat) (bytes : string) : string := substring offset length bytes.
Definition byte_at (offset : nat) (bytes : string) : Z := be_value 0 (slice offset 1 bytes).
Definition uuid_bytes (id : Z) : string := be_bytes 16 id.

Lemma slice_length i n s : (i + n <= String.length s)%nat -> String.length (slice i n s) = n.
Proof.
  unfold slice. revert i n. induction s as [|c s IH]; intros [|i] [|n]; cbn; try lia.
  - intros H. f_equal. apply (IH 0%nat n). lia.
  - intros H. apply (IH i 0%nat). lia.
  - intros H. apply (IH i (S n)). lia.
Qed.

Lemma append_length s t : String.length (append s t) = (String.length s + String.length t)%nat.
Proof. induction s as [|c s IH]; cbn; [done|]. rewrite str_append_cons. cbn. congruence. Qed.

(** A string of known length, byte by byte. *)
Ltac explode s := repeat (destruct s as [|? s]; [discriminate|]); destruct s; [|discriminate].

Lemma be_value_one w z : 0 <= z < 256 ^ Z.of_nat w -> be_value 0 (be_bytes w z) = z.
Proof. intros H. rewrite be_value_bytes. by apply Z.mod_small. Qed.
