(* ===== verification/CursorKey.v ===== *)
(** * The cursor key and the text of a cursor

    [hmac_sha256], [constant_time_eq] and [CursorKey] of [src/src/api/protocol.rs], the
    [hex] crate as an interface, and what the two cursor texts of the Hub share:
    [prefix.<payload hex>.<tag hex>]. *)
From S2P Require Import Prelude RustStr External Bytes.
Local Open Scope string_scope.
Local Open Scope Z_scope.

(** ** The [hex] crate *)

(** [b.is_ascii_digit() || (b'a'..=b'f').contains(&b)]. *)
Definition lowercase_hex_byte (c : ascii) : bool := is_ascii_digit c || byte_in 97 102 c.
Definition lowercase_hex (value : string) : bool := str_all lowercase_hex_byte value.

Class Hex := { hex_encode : string -> string; hex_decode : string -> option string }.
(** What its documentation says of [encode] and [decode]. *)
Class HexLaws `{Hex} := {
  hex_encode_len b : String.length (hex_encode b) = (2 * String.length b)%nat;
  hex_encode_lower b : lowercase_hex (hex_encode b) = true;
  hex_decode_encode b : hex_decode (hex_encode b) = Some b;
  hex_decode_lower s b : lowercase_hex s = true -> hex_decode s = Some b -> hex_encode b = s;
}.

(** [decode_to_slice] into an array of [n] bytes. *)
Definition decode_to_slice `{Hex} (n : nat) (s : string) : option string :=
  bytes ← hex_decode s; then_some (bool_decide (String.length bytes = n)) bytes.

(** ** Keyed hashes *)

Definition byte_xor (a b : ascii) : ascii := byte_ascii (Z.lxor (byte_of a) (byte_of b)).
Definition string_map (f : ascii -> ascii) (s : string) : string :=
  string_of_list_ascii (map f (list_ascii_of_string s)).
(** A buffer of [n] zero bytes with [s] written to its start. *)
Definition zero_padded (n : nat) (s : string) : string :=
  append s (string_of_list_ascii (repeat (byte_ascii 0) (n - String.length s))).

Definition hmac_sha256 `{Digest} (key message : string) : string :=
  let BLOCK_BYTES := 64%nat in
  let key_block := zero_padded BLOCK_BYTES (if str_len key >? Z.of_nat BLOCK_BYTES then sha256 key else key) in
  let inner_digest := sha256 (append (string_map (byte_xor (byte_ascii 54)) key_block) message) in
  sha256 (append (string_map (byte_xor (byte_ascii 92)) key_block) inner_digest).

Fixpoint different (acc : Z) (l r : string) : Z :=
  match l, r with
  | String a l, String b r => different (Z.lor acc (Z.lxor (byte_of a) (byte_of b))) l r
  | _, _ => acc
  end.
Definition constant_time_eq (l r : string) : bool :=
  if negb (str_len l =? str_len r) then false else different 0 l r =? 0.

(** ** The key *)

Definition MANIFEST_SIGNING_SEED_DOMAIN : string := "teslatlas-hub/manifest-ed25519-signing-seed/v1".
Definition FLEET_CREDENTIAL_ENCRYPTION_DOMAIN : string := "teslatlas-hub/fleet-credential-encryption/v1".
Definition PUBLIC_QUERY_CURSOR_DOMAIN : string :=
  append "teslatlas-hub/public-query-cursor/v1" (String "000"%char "").

(** Thirty-two bytes. *)
Definition CursorKey : Type := string.

Definition manifest_signing_seed `{Digest} (key : CursorKey) : string := hmac_sha256 key MANIFEST_SIGNING_SEED_DOMAIN.
Definition fleet_credential_encryption_key `{Digest} (key : CursorKey) : string :=
  hmac_sha256 key FLEET_CREDENTIAL_ENCRYPTION_DOMAIN.
Definition public_query_cursor_tag `{Digest} (key : CursorKey) (payload : string) : string :=
  hmac_sha256 key (append PUBLIC_QUERY_CURSOR_DOMAIN payload).
Definition verifies_public_query_cursor_tag `{Digest} (key : CursorKey) (payload tag : string) : bool :=
  constant_time_eq (public_query_cursor_tag key payload) tag.

(** ** The text of a cursor *)

Definition cursor_text `{Hex} (prefix payload tag : string) : string :=
  append prefix (append "." (append (hex_encode payload) (append "." (hex_encode tag)))).

Definition cursor_bytes `{Hex} (payload_len tag_len : nat) (payload_hex tag_hex : string) : option (string * string) :=
  if negb (bool_decide (String.length payload_hex = (payload_len * 2)%nat))
     || negb (bool_decide (String.length tag_hex = (tag_len * 2)%nat))
     || negb (lowercase_hex payload_hex) || negb (lowercase_hex tag_hex)
  then None
  else
    payload ← decode_to_slice payload_len payload_hex;
    tag ← decode_to_slice tag_len tag_hex;
    mret (payload, tag).

(** [prefix.payload.tag] and nothing more. *)
Definition split_cursor `{Hex} (payload_len tag_len : nat) (cursor prefix : string) : option (string * string) :=
  match str_split "." cursor with
  | [found_prefix; payload_hex; tag_hex]%list =>
      if bool_decide (found_prefix = prefix) then cursor_bytes payload_len tag_len payload_hex tag_hex else None
  | _ => None
  end.

(** ** Facts *)

Lemma different_zero acc l r :
  String.length l = String.length r -> 0 <= acc -> different acc l r = 0 <-> acc = 0 /\ l = r.
Proof.
  revert acc r. induction l as [|a l IH]; intros acc [|b r]; cbn; try done; [intuition|].
  intros [= Hl] Ha. pose proof (byte_of_range a). pose proof (byte_of_range b).
  assert (0 <= Z.lxor (byte_of a) (byte_of b)) by (apply Z.lxor_nonneg; lia).
  rewrite IH; [|done|by apply Z.lor_nonneg]. rewrite Z.lor_eq_0_iff, Z.lxor_eq_0_iff. split.
  - intros [[-> Hab] ->]. split; [done|]. f_equal. by rewrite <- (byte_ascii_of a), <- (byte_ascii_of b), Hab.
  - by intros [-> [= -> ->]].
Qed.

Lemma constant_time_eq_true l r : constant_time_eq l r = true <-> l = r.
Proof.
  unfold constant_time_eq. split.
  - case_match eqn:Hl; [done|]. apply negb_false_iff, Z.eqb_eq in Hl. intros H%Z.eqb_eq.
    apply different_zero in H as [_ H]; [done| |lia]. unfold str_len in Hl. lia.
  - intros ->. rewrite Z.eqb_refl. cbn [negb]. apply Z.eqb_eq. by apply different_zero.
Qed.

Lemma lowercase_hex_no_dot s : lowercase_hex s = true -> str_contains "." s = false.
Proof. intros H. by eapply str_all_not_contains. Qed.

Lemma cursor_bytes_spec `{HexLaws} pl tl p t payload tag :
  cursor_bytes pl tl p t = Some (payload, tag)
  <-> p = hex_encode payload /\ t = hex_encode tag /\ String.length payload = pl /\ String.length tag = tl.
Proof.
  unfold cursor_bytes, decode_to_slice. split.
  - case_match eqn:Hc; [done|]. repeat (apply orb_false_iff in Hc as [Hc ?]). bsimp.
    intros (x & (y & Hy & Hx)%bind_Some & (z & (w & Hw & Hz)%bind_Some & E)%bind_Some)%bind_Some.
    unfold then_some in *. repeat case_match; simplify_eq/=. bsimp.
    cbv [mret option_ret] in E. injection E as <- <-. rewrite (hex_decode_lower p x), (hex_decode_lower t z) by done. done.
  - intros (-> & -> & <- & <-). rewrite !hex_encode_len, !hex_encode_lower, !hex_decode_encode.
    rewrite !bool_decide_true by lia. cbn. by rewrite !bool_decide_true.
Qed.

(** A text splits exactly when it is the text of its bytes. *)
Lemma split_cursor_spec `{HexLaws} pl tl cursor prefix payload tag :
  str_contains "." prefix = false ->
  split_cursor pl tl cursor prefix = Some (payload, tag)
  <-> cursor = cursor_text prefix payload tag /\ String.length payload = pl /\ String.length tag = tl.
Proof.
  intros Hp. unfold split_cursor. split.
  - destruct (str_split "." cursor) as [|x [|y [|z [|? ?]]]] eqn:Es; try done.
    case_bool_decide; [subst x|done]. intros (-> & -> & Hl)%cursor_bytes_spec. split; [|done].
    rewrite <- (str_join_split "." cursor), Es. unfold cursor_text. cbn [str_join]. done.
  - intros (-> & Hl & Ht). unfold cursor_text.
    change (append "." (hex_encode tag)) with (String "." (hex_encode tag)).
    change (append "." (append (hex_encode payload) (String "." (hex_encode tag))))
      with (String "." (append (hex_encode payload) (String "." (hex_encode tag)))).
    rewrite (str_split_app "." prefix) by done.
    rewrite (str_split_app "." (hex_encode payload)) by apply lowercase_hex_no_dot, hex_encode_lower.
    rewrite (str_split_none "." (hex_encode tag)) by apply lowercase_hex_no_dot, hex_encode_lower.
    rewrite bool_decide_true by done. by apply cursor_bytes_spec.
Qed.

(** ** A hexadecimal text *)

Definition hex_char (d : Z) : ascii := byte_ascii (if d <? 10 then 48 + d else 87 + d).
Definition hex_value (c : ascii) : option Z :=
  if is_ascii_digit c then Some (byte_of c - 48) else then_some (byte_in 97 102 c) (byte_of c - 87).
Fixpoint hex_text (s : string) : string :=
  match s with
  | EmptyString => ""
  | String c s => String (hex_char (byte_of c / 16)) (String (hex_char (byte_of c mod 16)) (hex_text s))
  end.
Fixpoint hex_read (s : string) : option string :=
  match s with
  | EmptyString => Some ""
  | String _ EmptyString => None
  | String a (String b s) => x ← hex_value a; y ← hex_value b; rest ← hex_read s; Some (String (byte_ascii (16 * x + y)) rest)
  end.

Lemma byte_cases (P : ascii -> Prop) : (forall n, (n < 256)%nat -> P (ascii_of_nat n)) -> forall c, P c.
Proof. intros H c. rewrite <- (ascii_nat_embedding c). apply H, nat_ascii_bounded. Qed.

Definition hex_byte_ok (c : ascii) : bool :=
  let a := hex_char (byte_of c / 16) in
  let b := hex_char (byte_of c mod 16) in
  lowercase_hex_byte a && lowercase_hex_byte b
  && match hex_value a, hex_value b with
     | Some x, Some y => bool_decide (byte_ascii (16 * x + y) = c)
     | _, _ => false
     end.
Lemma hex_byte_all c : hex_byte_ok c = true.
Proof.
  revert c. apply byte_cases. intros n Hn.
  assert (forallb (fun n => hex_byte_ok (ascii_of_nat n)) (seq 0 256) = true) as H by (vm_compute; reflexivity).
  rewrite forallb_forall in H. apply H, in_seq. lia.
Qed.
Definition hex_digit_ok (c : ascii) : bool :=
  negb (lowercase_hex_byte c)
  || match hex_value c with Some x => (0 <=? x) && (x <? 16) && bool_decide (hex_char x = c) | None => false end.
Lemma hex_digit_all c : hex_digit_ok c = true.
Proof.
  revert c. apply byte_cases. intros n Hn.
  assert (forallb (fun n => hex_digit_ok (ascii_of_nat n)) (seq 0 256) = true) as H by (vm_compute; reflexivity).
  rewrite forallb_forall in H. apply H, in_seq. lia.
Qed.

Definition ascii_hex : Hex := {| hex_encode := hex_text; hex_decode := hex_read |}.
Lemma ascii_hex_laws : @HexLaws ascii_hex.
Proof.
  split; cbn.
  - induction b as [|c b IH]; cbn; [done|]. rewrite IH. lia.
  - induction b as [|c b IH]; cbn [hex_text lowercase_hex str_all]; [done|]. pose proof (hex_byte_all c) as Hc. unfold hex_byte_ok in Hc. bsimp.
    unfold lowercase_hex in *. cbn. by rewrite H, H1.
  - induction b as [|c b IH]; cbn [hex_text hex_read]; [done|]. pose proof (hex_byte_all c) as Hc. unfold hex_byte_ok in Hc. bsimp.
    repeat case_match; try done. bsimp. cbn. rewrite IH. cbn. congruence.
  - fix IH 1. intros [|a [|c s]] b; cbn; [by intros _ [= <-]|done|].
    unfold lowercase_hex. cbn [str_all]. rewrite !andb_true_iff. intros (Ha & Hc & Hs).
    pose proof (hex_digit_all a) as Da. pose proof (hex_digit_all c) as Dc. unfold hex_digit_ok in *. rewrite Ha, Hc in *. cbn [negb orb] in *.
    destruct (hex_value a) as [x|]; [|done]. destruct (hex_value c) as [y|]; [|done]. bsimp. cbn.
    intros (r & Hr & [= <-])%bind_Some. cbn [hex_text]. rewrite (IH s r Hs Hr), byte_of_ascii, Z.mod_small by lia.
    rewrite (Z.mul_comm 16 x), Z.div_add_l, (Z.div_small y), (Z.add_comm (x * 16)), Z.mod_add, (Z.mod_small y), Z.add_0_r by lia.
    congruence.
Qed.
