(* ===== verification/Endpoint.v ===== *)
(** * Issuer, region and token-endpoint selection

    [src/src/auth/legacy_auth/endpoint.rs]: which host a refresh token may be
    sent to, decided before any network use.  The [url], [base64] and
    [serde_json] crates come from [External]. *)
From S2P Require Import Prelude RustStr F64 Vocabulary External.
Local Open Scope string_scope.
Local Open Scope Z_scope.

Inductive StreamRegion := Global | China.
#[export] Instance StreamRegion_eq_dec : EqDecision StreamRegion.
Proof. solve_decision. Defined.

Inductive CollectorMode := Legacy | ProviderMode | FleetPolling.

Definition GLOBAL_ISSUER : string := "https://auth.tesla.com/oauth2/v3".
Definition CHINA_ISSUER : string := "https://auth.tesla.cn/oauth2/v3".
Definition GLOBAL_TOKEN_ENDPOINT : string := "https://auth.tesla.com/oauth2/v3/token".
Definition CHINA_TOKEN_ENDPOINT : string := "https://auth.tesla.cn/oauth2/v3/token".
Definition MAX_EXP_SECONDS : Z := 253402300799.

Inductive AuthMode := Tesla | Provider.
#[export] Instance AuthMode_eq_dec : EqDecision AuthMode.
Proof. solve_decision. Defined.

(** [EndpointSource]; the test-only variant is not part of the program. *)
Inductive EndpointSource := ProviderConfig | JwtIssuer | ConfiguredRegion.
#[export] Instance EndpointSource_eq_dec : EqDecision EndpointSource.
Proof. solve_decision. Defined.

Definition source_code (s : EndpointSource) : string :=
  match s with
  | ProviderConfig => "provider_config"
  | JwtIssuer => "jwt_issuer"
  | ConfiguredRegion => "configured_region"
  end.

Record AuthEndpointConfig := MkAuthEndpointConfig {
  mode : AuthMode;
  region : option StreamRegion;
  token_url : option string;
  allow_loopback_http : bool;
}.

(** [AuthEndpointConfig::from_config], from the fields it reads: the derived
    collector mode, [stream_region] and [legacy_auth.token_url]. *)
Definition from_config (collector_mode : CollectorMode) (stream_region : option StreamRegion)
    (url : option string) (loopback : bool) : AuthEndpointConfig :=
  let mode := match collector_mode with
              | ProviderMode => Provider
              | Legacy | FleetPolling => Tesla
              end in
  MkAuthEndpointConfig mode stream_region url loopback.

Definition region_of_issuer (issuer : string) : option StreamRegion :=
  if bool_decide (issuer = GLOBAL_ISSUER) then Some Global
  else if bool_decide (issuer = CHINA_ISSUER) then Some China
  else None.

Definition issuer_of_region (r : StreamRegion) : string :=
  match r with Global => GLOBAL_ISSUER | China => CHINA_ISSUER end.

Definition token_endpoint_text (r : StreamRegion) : string :=
  match r with Global => GLOBAL_TOKEN_ENDPOINT | China => CHINA_TOKEN_ENDPOINT end.

Definition is_access_token (token : string) : bool :=
  let all_allowed :=
    str_all (fun byte => is_ascii_alphanumeric byte || str_contains byte "-._~+/=") token in
  all_allowed && str_any (fun byte => negb (bool_decide (byte = "="%char))) token.

Definition is_refresh_token (token : string) : bool :=
  negb (str_is_empty token)
  && str_all (fun byte => (0x20 <=? byte_of byte) && (byte_of byte <=? 0x7e)) token.

(** SP, HTAB, CR and LF. *)
Definition is_token_whitespace (c : ascii) : bool :=
  (byte_of c =? 32) || (byte_of c =? 9) || (byte_of c =? 13) || (byte_of c =? 10).
Definition trim_token_whitespace (value : string) : string := trim_matches is_token_whitespace value.

Definition check_token_grammar (access_token refresh_token : string) (m : AuthMode)
    : result LegacyAuthError unit :=
  if negb (is_access_token access_token) then Err InvalidAccessToken
  else
    let refresh_ok := match m with
                      | Tesla => is_refresh_token refresh_token
                      | Provider => str_is_empty refresh_token || is_refresh_token refresh_token
                      end in
    if refresh_ok then Ok tt else Err InvalidRefreshToken.

(** A JWT [exp] as whole seconds. *)
Definition exp_seconds (value : json) : option Z :=
  number ← json_as_number value;
  seconds ← match number_as_u64 number with
            | Some unsigned => i64_try_from unsigned
            | None =>
                match number_as_i64 number with
                | Some signed => Some signed
                | None =>
                    x ← number_as_f64 number;
                    let float := f64_trunc x in
                    if negb (f64_leb f64_zero float && f64_leb float (f64_of_Z MAX_EXP_SECONDS))
                    then None
                    else Some (f64_as_i64 float)
                end
            end;
  then_some ((0 <=? seconds) && (seconds <=? MAX_EXP_SECONDS)) seconds.

Record JwtClaims := MkJwtClaims { iss : option string; exp : option Z }.

Section WithExternal.
Context `{X : External}.

Record EndpointSelection := MkEndpointSelection {
  token_endpoint : option Url;
  sel_region : StreamRegion;
  source : EndpointSource;
  pinned_issuer : option string;
}.

(** [Url::parse(text).expect(..)]; the panic branch, a [url] crate that does not
    parse one of the two pinned texts, is the arbitrary [inhabitant]. *)
Definition token_endpoint_of_region (r : StreamRegion) : Url :=
  default inhabitant (url_parse (token_endpoint_text r)).

(** [Ipv4Addr::is_loopback] and [Ipv6Addr::is_loopback]. *)
Definition host_is_loopback_ip (url : Url) : bool :=
  match url_host url with
  | Some (HostIpv4 (a, _, _, _)) => a =? 127
  | Some (HostIpv6 address) => address =? 1
  | _ => false
  end.

Definition validate_token_url (value : option string) (allow_loopback : bool)
    : result LegacyAuthError Url :=
  text ← ok_or value ETokenUrlInvalid;
  url ← ok_or (url_parse text) ETokenUrlInvalid;
  let has_host := is_some_and (url_host_str url) (fun host => negb (str_is_empty host)) in
  if negb has_host
     || negb (str_is_empty (url_username url))
     || is_some (url_password url)
     || is_some (url_query url)
     || is_some (url_fragment url)
  then Err ETokenUrlInvalid
  else if bool_decide (url_scheme url = "https") then Ok url
  else if bool_decide (url_scheme url = "http")
          && (allow_loopback && host_is_loopback_ip url) then Ok url
  else Err ETokenUrlInvalid.

Definition parse_jwt (token : string) : option JwtClaims :=
  match str_split "." token with
  | [header; payload; _] =>
      if str_is_empty header || str_is_empty payload then None
      else
        header ← b64url_decode header;
        header ← json_from_slice header;
        if negb (json_is_object header) then None
        else
          payload ← b64url_decode payload;
          claims ← json_from_slice payload;
          claims ← json_as_object claims;
          Some (MkJwtClaims (obj_get "iss" claims ≫= json_as_str)
                            (obj_get "exp" claims ≫= exp_seconds))
  | _ => None
  end.

Definition select_tesla (access_token : string) (config : AuthEndpointConfig)
    : result LegacyAuthError EndpointSelection :=
  if is_some (token_url config) then Err ETokenUrlNotAllowed
  else
    let claims := parse_jwt access_token in
    '(r, s) ← match claims ≫= iss with
              | Some issuer =>
                  r ← ok_or (region_of_issuer issuer) InvalidIssuer;
                  if is_some_and (region config) (fun configured => negb (bool_decide (configured = r)))
                  then Err ERegionConflict
                  else Ok (r, JwtIssuer)
              | None =>
                  r ← ok_or (region config) ERegionRequired;
                  Ok (r, ConfiguredRegion)
              end;
    Ok (MkEndpointSelection (Some (token_endpoint_of_region r)) r s (Some (issuer_of_region r))).

Definition select_endpoint (access_token refresh_token : string) (config : AuthEndpointConfig)
    : result LegacyAuthError EndpointSelection :=
  _ ← check_token_grammar access_token refresh_token (mode config);
  match mode config with
  | Tesla => select_tesla access_token config
  | Provider =>
      if str_is_empty refresh_token then
        Ok (MkEndpointSelection None (default Global (region config)) ProviderConfig None)
      else
        url ← validate_token_url (token_url config) (allow_loopback_http config);
        Ok (MkEndpointSelection (Some url) (default Global (region config)) ProviderConfig None)
  end.

(** ** Specification

    What the rules R4 to R8a promise of a selection, independent of the order
    of the checks. *)

(** A URL a provider's token request may go to. *)
Definition provider_url_ok (allow_loopback : bool) (u : Url) : Prop :=
  (exists h, url_host_str u = Some h /\ h <> "") /\
  url_username u = "" /\ url_password u = None /\ url_query u = None /\ url_fragment u = None /\
  (url_scheme u = "https"
   \/ url_scheme u = "http" /\ allow_loopback = true /\ host_is_loopback_ip u = true).

Inductive endpoint_rule (access refresh : string) (c : AuthEndpointConfig) : EndpointSelection -> Prop :=
| rule_jwt r :
    mode c = Tesla -> is_refresh_token refresh = true -> token_url c = None ->
    parse_jwt access ≫= iss = Some (issuer_of_region r) ->
    (region c = None \/ region c = Some r) ->
    endpoint_rule access refresh c
      (MkEndpointSelection (Some (token_endpoint_of_region r)) r JwtIssuer (Some (issuer_of_region r)))
| rule_region r :
    mode c = Tesla -> is_refresh_token refresh = true -> token_url c = None ->
    parse_jwt access ≫= iss = None -> region c = Some r ->
    endpoint_rule access refresh c
      (MkEndpointSelection (Some (token_endpoint_of_region r)) r ConfiguredRegion
         (Some (issuer_of_region r)))
| rule_access_only :
    mode c = Provider -> refresh = "" ->
    endpoint_rule access refresh c
      (MkEndpointSelection None (default Global (region c)) ProviderConfig None)
| rule_provider text u :
    mode c = Provider -> is_refresh_token refresh = true ->
    token_url c = Some text -> url_parse text = Some u ->
    provider_url_ok (allow_loopback_http c) u ->
    endpoint_rule access refresh c
      (MkEndpointSelection (Some u) (default Global (region c)) ProviderConfig None).

Lemma str_is_empty_true s : str_is_empty s = true <-> s = "".
Proof. by destruct s. Qed.

Lemma region_of_issuer_Some i r : region_of_issuer i = Some r <-> i = issuer_of_region r.
Proof. unfold region_of_issuer. destruct r; cases; naive_solver. Qed.

Lemma validate_token_url_Ok v b u :
  validate_token_url v b = Ok u <->
  exists text, v = Some text /\ url_parse text = Some u /\ provider_url_ok b u.
Proof.
  unfold validate_token_url, provider_url_ok.
  destruct v as [text|]; simpl; [|naive_solver].
  destruct (url_parse text) as [w|] eqn:Hp; simpl; [|naive_solver].
  transitivity (u = w /\
    is_some_and (url_host_str w) (fun h => negb (str_is_empty h)) = true /\
    url_username w = "" /\ url_password w = None /\ url_query w = None /\ url_fragment w = None /\
    (url_scheme w = "https"
     \/ url_scheme w = "http" /\ b = true /\ host_is_loopback_ip w = true)).
  - destruct (is_some_and _ _), (url_username w), (url_password w), (url_query w),
      (url_fragment w); simpl; try naive_solver.
    destruct b, (host_is_loopback_ip w); cases; naive_solver.
  - assert (is_some_and (url_host_str w) (fun h => negb (str_is_empty h)) = true <->
            exists h, url_host_str w = Some h /\ h <> "") as ->.
    { destruct (url_host_str w) as [[]|]; simpl; naive_solver. }
    split.
    + intros (-> & ?). by exists text.
    + intros (? & [= <-] & ? & ?). simplify_eq. by split.
Qed.

Lemma select_tesla_Ok a c sel :
  select_tesla a c = Ok sel <->
  token_url c = None /\ exists r,
    token_endpoint sel = Some (token_endpoint_of_region r) /\ sel_region sel = r /\
    pinned_issuer sel = Some (issuer_of_region r) /\
    ((parse_jwt a ≫= iss = Some (issuer_of_region r) /\ (region c = None \/ region c = Some r)
      /\ source sel = JwtIssuer)
     \/ (parse_jwt a ≫= iss = None /\ region c = Some r /\ source sel = ConfiguredRegion)).
Proof.
  unfold select_tesla. destruct (token_url c); simpl; [naive_solver|].
  destruct (parse_jwt a ≫= iss) as [i|]; simpl.
  - destruct (region_of_issuer i) as [r|] eqn:Hr; simpl.
    + assert (forall r', i = issuer_of_region r' <-> r = r') as Hiff.
      { intros r'. rewrite <- region_of_issuer_Some, Hr. naive_solver. }
      destruct (region c) as [r'|]; simpl; [case_bool_decide|]; simpl;
        destruct sel; simpl; naive_solver.
    + assert (forall r', i <> issuer_of_region r') as Hno.
      { intros r' Hi%region_of_issuer_Some. congruence. }
      naive_solver.
  - destruct (region c) as [r|]; simpl; destruct sel; naive_solver.
Qed.

(** Choosing the token endpoint implements the rules R4 to R8a exactly: a
    selection is returned if and only if the access token fits its grammar and
    one of the four rules derives it.  In Tesla mode the endpoint is one of the
    two pinned ones, of the region the token's issuer or the owner names; in
    provider mode it is the configured URL, over TLS or to a loopback address
    literal under the test flag. *)
Theorem select_endpoint_implements_rules a t c sel :
  select_endpoint a t c = Ok sel <-> is_access_token a = true /\ endpoint_rule a t c sel.
Proof.
  unfold select_endpoint, check_token_grammar.
  destruct (is_access_token a); simpl; [|naive_solver].
  destruct (mode c) eqn:Hm.
  - destruct (is_refresh_token t) eqn:Ht; simpl.
    + rewrite select_tesla_Ok. split.
      * intros (? & r & ? & ? & ? & [(?&?&?)|(?&?&?)]); destruct sel; simplify_eq/=;
          split; [done| by constructor | done | by constructor].
      * intros [_ []]; try congruence; naive_solver.
    + split; [done|]. intros [_ Hr]; destruct Hr; try congruence.
  - assert (is_refresh_token "" = false) as He by done.
    destruct (str_is_empty t) eqn:Ht; simpl.
    + apply str_is_empty_true in Ht as ->. split; [intros [= <-]; split; [done|by constructor]|].
      intros [_ Hr]; destruct Hr; try congruence.
    + assert (t <> "") as Hne by (intros ->; done).
      destruct (is_refresh_token t) eqn:Hrt; simpl.
      * rewrite result_bind_Ok. setoid_rewrite validate_token_url_Ok. split.
        -- intros (u & (text & ? & ? & ?) & [= <-]). split; [done|]. by econstructor.
        -- intros [_ []]; try congruence. eexists. split; [by eexists|done].
      * split; [done|]. intros [_ Hr]; destruct Hr; try congruence.
Qed.

(** Every refusal names its load state. *)
Lemma select_endpoint_Err a t c e :
  select_endpoint a t c = Err e -> is_some (load_failure_state e) = true.
Proof.
  unfold select_endpoint, check_token_grammar, select_tesla, validate_token_url, ok_or.
  intros H. repeat (case_match; simplify_eq/=; try done).
Qed.

Lemma exp_seconds_range v n : exp_seconds v = Some n -> 0 <= n <= MAX_EXP_SECONDS.
Proof.
  unfold exp_seconds, then_some. intros (?&?&H)%bind_Some.
  apply bind_Some in H as (s & _ & H). case_match; simplify_eq. bsimp. lia.
Qed.

Lemma parse_jwt_exp_range token c e :
  parse_jwt token = Some c -> exp c = Some e -> 0 <= e <= MAX_EXP_SECONDS.
Proof.
  unfold parse_jwt. intros H He. cases.
  repeat match goal with H : _ ≫= _ = Some _ |- _ => apply bind_Some in H as (?&?&?) end.
  case_match; simplify_eq.
  repeat match goal with H : _ ≫= _ = Some _ |- _ => apply bind_Some in H as (?&?&?) end.
  simplify_eq/=. apply bind_Some in He as (?&?&?). by eapply exp_seconds_range.
Qed.
End WithExternal.

(** The selection evaluated on the sample instance: a JWT of the global issuer,
    the same token against a configured China region, and a provider URL. *)
Example select_endpoint_jwt :
  select_endpoint (X := Sample.external) "h.p.s" "refresh" (MkAuthEndpointConfig Tesla None None false)
  = Ok (MkEndpointSelection (X := Sample.external)
          (Some (Sample.MkSurl "https" "auth.tesla.com" "oauth2/v3/token")) Global JwtIssuer
          (Some GLOBAL_ISSUER)).
Proof. reflexivity. Qed.

Example select_endpoint_conflict :
  select_endpoint (X := Sample.external) "h.p.s" "refresh"
    (MkAuthEndpointConfig Tesla (Some China) None false) = Err ERegionConflict.
Proof. reflexivity. Qed.

Example select_endpoint_provider :
  select_endpoint (X := Sample.external) "opaque" "refresh"
    (MkAuthEndpointConfig Provider None (Some "http://127.0.0.1/token") true)
  = Ok (MkEndpointSelection (X := Sample.external)
          (Some (Sample.MkSurl "http" "127.0.0.1" "token")) Global ProviderConfig None).
Proof. reflexivity. Qed.
