(* ===== verification/AuthState.v ===== *)
(** * The durable status of the legacy credential unit

    First half of [src/src/auth/legacy_auth/state.rs]: the states and reasons of
    R52, the stops of R43, the fuse columns, [AuthStatus] with its invariant and
    its stored row ([CollectorAuthRow] of [src/src/storage/db/auth_state.rs]),
    the clock floor and the skew flag. *)
From S2P Require Import Prelude RustStr HttpDate Vocabulary Endpoint External.
Local Open Scope string_scope.
Local Open Scope Z_scope.

(** A UUID as its 128-bit number. *)
Definition Uuid : Type := Z.

Definition CLOCK_FLOOR_EPOCH_SECONDS : Z := 1577836800.
Definition CLOCK_RECHECK_SECONDS : Z := 60.
Definition SKEW_ALLOWANCE_SECONDS : Z := 300.
Definition MIN_REFRESH_INTERVAL_SECONDS : Z := 60.
Definition FUSE_WINDOW_SECONDS : Z := 3600.
Definition FUSE_LIMIT : Z := 3.
Definition EXTERNAL_WRITE_RECHECK_SECONDS : Z := 60.
Definition PERSISTENCE_RETRY_SECONDS : list Z := [5; 10; 20; 40; 80; 160; 300].

(** [StoreError]: the one variant this unit raises itself, the two of the pair
    row, and any other failure of the database. *)
Inductive StoreError :=
| InvalidStoredAuthStatus
| TeslaMateTokenPairEmpty
| TeslaMateTokenCiphertextTooLarge
| InvalidTeslaMateTokenSchedule
| InvalidLegacyRefreshGeneration
| OtherStoreError.

(** ** States and reasons *)

Inductive AuthState :=
| StReady
| StRefreshing
| StRetrying
| StPersistencePending
| StAwaitingConfirmation
| StObserverWaiting
| StClockInvalid
| StConfigurationError
| StSignInRequired
| StSignedOut
| StApiRefused.

#[export] Instance AuthState_eq_dec : EqDecision AuthState.
Proof. solve_decision. Defined.

(** [AuthState::ALL]. *)
Definition all_states : list AuthState :=
  [StReady; StRefreshing; StRetrying; StPersistencePending; StAwaitingConfirmation;
   StObserverWaiting; StClockInvalid; StConfigurationError; StSignInRequired; StSignedOut;
   StApiRefused].

Definition state_code (s : AuthState) : string :=
  match s with
  | StReady => "ready"
  | StRefreshing => "refreshing"
  | StRetrying => "retrying"
  | StPersistencePending => "persistence_pending"
  | StAwaitingConfirmation => "awaiting_confirmation"
  | StObserverWaiting => "observer_waiting"
  | StClockInvalid => "clock_invalid"
  | StConfigurationError => "configuration_error"
  | StSignInRequired => "sign_in_required"
  | StSignedOut => "signed_out"
  | StApiRefused => "api_refused"
  end.

(** [iter().find(|x| x.code() == code)]. *)
Definition find_code {A} (code_of : A -> string) (all : list A) (code : string) : option A :=
  find_first (fun x => bool_decide (code_of x = code)) all.

Definition state_from_code (code : string) : option AuthState := find_code state_code all_states code.

Inductive ObserverReason := TokenRejected | TokenExpired | ObsClockSkew.
#[export] Instance ObserverReason_eq_dec : EqDecision ObserverReason.
Proof. solve_decision. Defined.

Definition all_observer : list ObserverReason := [TokenRejected; TokenExpired; ObsClockSkew].
Definition observer_code (r : ObserverReason) : string :=
  match r with
  | TokenRejected => "token_rejected"
  | TokenExpired => "token_expired"
  | ObsClockSkew => "clock_skew"
  end.

Inductive StatusReason :=
| RRetry (r : RetryReason)
| RSignOut (r : SignOutReason)
| RRefusal (r : RefusalReason)
| RConfiguration (r : ConfigurationReason)
| RObserver (r : ObserverReason).
#[export] Instance StatusReason_eq_dec : EqDecision StatusReason.
Proof. solve_decision. Defined.

Definition status_reason_code (r : StatusReason) : string :=
  match r with
  | RRetry r => retry_code r
  | RSignOut r => signout_code r
  | RRefusal r => refusal_code r
  | RConfiguration r => configuration_code r
  | RObserver r => observer_code r
  end.

(** [AuthState::admits]: R52's table. *)
Definition admits (s : AuthState) (reason : option StatusReason) : bool :=
  match s, reason with
  | (StReady | StRefreshing | StPersistencePending | StClockInvalid), None => true
  | StRetrying, Some (RRetry _)
  | StObserverWaiting, Some (RObserver _)
  | StConfigurationError, Some (RConfiguration _)
  | StApiRefused, Some (RRefusal _)
  | StSignedOut, Some (RSignOut _) => true
  | StAwaitingConfirmation, Some (RSignOut r) => bool_decide (r = AccessTokenRejected)
  | StSignInRequired, Some (RSignOut r) =>
      match r with
      | RefreshTokenRejected | RefreshOutcomeUnknown | RefreshResponseUnusable => true
      | _ => false
      end
  | _, _ => false
  end.

Definition lease_is_terminal (s : AuthState) : bool :=
  match s with StSignedOut => true | _ => false end.

(** [StatusReason::parse]. *)
Definition status_reason_parse (s : AuthState) (code : string) : option StatusReason :=
  match s with
  | StRetrying => RRetry <$> find_code retry_code all_retry code
  | StObserverWaiting => RObserver <$> find_code observer_code all_observer code
  | StConfigurationError => RConfiguration <$> find_code configuration_code all_configuration code
  | StSignInRequired | StSignedOut | StAwaitingConfirmation =>
      opt_filter (fun r => admits s (Some r)) (RSignOut <$> find_code signout_code all_signout code)
  | StApiRefused => RRefusal <$> find_code refusal_code all_refusal code
  | StReady | StRefreshing | StPersistencePending | StClockInvalid => None
  end.

Inductive StoppedMode := SmLegacy | SmProvider.
#[export] Instance StoppedMode_eq_dec : EqDecision StoppedMode.
Proof. solve_decision. Defined.

Definition stopped_mode_of (m : AuthMode) : StoppedMode :=
  match m with Tesla => SmLegacy | Provider => SmProvider end.
Definition stopped_mode_code (m : StoppedMode) : string :=
  match m with SmLegacy => "legacy" | SmProvider => "provider" end.
Definition stopped_mode_from_code (code : string) : option StoppedMode :=
  if bool_decide (code = "legacy") then Some SmLegacy
  else if bool_decide (code = "provider") then Some SmProvider
  else None.

(** ** Stops *)

Inductive AuthStop :=
| StopSignIn (r : SignOutReason)
| StopSignedOut (r : SignOutReason)
| StopRefused (r : RefusalReason).
#[export] Instance AuthStop_eq_dec : EqDecision AuthStop.
Proof. solve_decision. Defined.

Definition stop_state (s : AuthStop) : AuthState :=
  match s with
  | StopSignIn _ => StSignInRequired
  | StopSignedOut _ => StSignedOut
  | StopRefused _ => StApiRefused
  end.
Definition stop_reason (s : AuthStop) : StatusReason :=
  match s with
  | StopSignIn r | StopSignedOut r => RSignOut r
  | StopRefused r => RRefusal r
  end.
Definition blocks_requests (s : AuthStop) : bool :=
  negb match s with StopSignIn _ => true | _ => false end.
Definition lifted_by_external_write (s : AuthStop) : bool :=
  negb match s with StopRefused _ => true | _ => false end.
Definition lifted_by_owner_retry (s : AuthStop) : bool :=
  match s with
  | StopSignedOut (AccessTokenRejected | ProviderTokenRejected) | StopRefused _ => true
  | _ => false
  end.
Definition lifted_by_mode_change (s : AuthStop) : bool :=
  match s with StopRefused _ => true | _ => false end.

(** ** The fuse columns *)

Record FuseSnapshot := MkFuseSnapshot {
  fs_consecutive : Z;
  fs_generation : option Uuid;
  fs_last_rejection_at : option Z;
  fs_pause_until : option Z;
  fs_rejected_access : option Uuid;
}.
#[export] Instance FuseSnapshot_eq_dec : EqDecision FuseSnapshot.
Proof. solve_decision. Defined.

(** [FuseSnapshot::default()]. *)
Definition fuse_default : FuseSnapshot := MkFuseSnapshot 0 None None None None.

Definition fuse_is_consistent (f : FuseSnapshot) : bool :=
  (fs_consecutive f <=? FUSE_LIMIT)
  && Bool.eqb (fs_consecutive f =? 0) (is_none (fs_generation f))
  && (is_none (fs_rejected_access f) || (fs_consecutive f >? 0)).

Definition rejection_window_open (last_rejection_at now : Z) : bool :=
  i64_ssub now last_rejection_at <=? FUSE_WINDOW_SECONDS.

(** ** [AuthStatus] *)

Record AuthStatus := MkAuthStatus {
  st_state : AuthState;
  st_reason : option StatusReason;
  st_collecting : bool;
  st_retry_at : option Z;
  st_stopped_generation : option Uuid;
  st_stopped_mode : option StoppedMode;
  st_fuse : FuseSnapshot;
  st_clock_skew : bool;
}.
#[export] Instance eta_AuthStatus : Eta AuthStatus := fun s =>
  MkAuthStatus (st_state s) (st_reason s) (st_collecting s) (st_retry_at s)
    (st_stopped_generation s) (st_stopped_mode s) (st_fuse s) (st_clock_skew s).
#[export] Instance AuthStatus_eq_dec : EqDecision AuthStatus.
Proof. solve_decision. Defined.

Definition status_ready (fuse : FuseSnapshot) (skew : bool) : AuthStatus :=
  MkAuthStatus StReady None true None None None fuse skew.
Definition status_idle (s : AuthState) (r : option StatusReason) (fuse : FuseSnapshot) (skew : bool)
    : AuthStatus :=
  MkAuthStatus s r false None None None fuse skew.
Definition status_observer_waiting (r : ObserverReason) (fuse : FuseSnapshot) (skew : bool) : AuthStatus :=
  status_idle StObserverWaiting (Some (RObserver r)) fuse skew.
Definition status_awaiting_confirmation (fuse : FuseSnapshot) (skew : bool) : AuthStatus :=
  status_idle StAwaitingConfirmation (Some (RSignOut AccessTokenRejected)) fuse skew.

(** [AuthStatus::stopped]. *)
Definition status_stopped (stop : AuthStop) (generation : Uuid) (m : StoppedMode) (usable : bool)
    (fuse : FuseSnapshot) (skew : bool) : AuthStatus :=
  let status := status_idle (stop_state stop) (Some (stop_reason stop)) fuse skew in
  match stop with
  | StopSignIn _ =>
      status <| st_stopped_generation := Some generation |> <| st_collecting := usable |>
  | StopSignedOut _ => status <| st_stopped_generation := Some generation |>
  | StopRefused _ => status <| st_stopped_mode := Some m |>
  end.

(** [AuthStatus::stop]. *)
Definition status_stop (s : AuthStatus) : option AuthStop :=
  match st_state s, st_reason s with
  | StSignInRequired, Some (RSignOut r) => Some (StopSignIn r)
  | StSignedOut, Some (RSignOut r) => Some (StopSignedOut r)
  | StApiRefused, Some (RRefusal r) => Some (StopRefused r)
  | _, _ => None
  end.

Definition with_usability (s : AuthStatus) (usable : bool) : AuthStatus :=
  match st_state s with
  | StRetrying | StPersistencePending | StSignInRequired => s <| st_collecting := usable |>
  | _ => s
  end.

Definition with_sign_in_expired (s : AuthStatus) : AuthStatus :=
  match st_state s, st_reason s with
  | StSignInRequired, Some r =>
      s <| st_state := StSignedOut |> <| st_reason := Some r |> <| st_collecting := false |>
  | _, _ => s
  end.

Definition always_collects (s : AuthState) : bool :=
  match s with StReady | StRefreshing => true | _ => false end.
Definition never_collects (s : AuthState) : bool :=
  match s with
  | StAwaitingConfirmation | StObserverWaiting | StClockInvalid | StConfigurationError
  | StSignedOut | StApiRefused => true
  | _ => false
  end.

(** [AuthStatus::is_consistent]: the invariants of R52 and of the table. *)
Definition is_consistent (s : AuthStatus) : bool :=
  let sign_stop := match st_state s with StSignInRequired | StSignedOut => true | _ => false end in
  admits (st_state s) (st_reason s)
  && Bool.eqb sign_stop (is_some (st_stopped_generation s))
  && Bool.eqb (bool_decide (st_state s = StApiRefused)) (is_some (st_stopped_mode s))
  && fuse_is_consistent (st_fuse s)
  && (negb (always_collects (st_state s)) || st_collecting s)
  && (negb (never_collects (st_state s)) || negb (st_collecting s))
  && (bool_decide (st_state s = StRetrying) || is_none (st_retry_at s)).

(** ** The stored row *)

Record CollectorAuthRow := MkCollectorAuthRow {
  row_state : string;
  row_reason : option string;
  row_collecting : bool;
  row_retry_at : option Z;
  row_stopped_generation : option Uuid;
  row_stopped_mode : option string;
  row_fuse_consecutive : Z;
  row_fuse_generation : option Uuid;
  row_fuse_last_rejection_at : option Z;
  row_fuse_pause_until : option Z;
  row_fuse_rejected_access_digest : option Uuid;
  row_clock_skew : bool;
}.
#[export] Instance CollectorAuthRow_eq_dec : EqDecision CollectorAuthRow.
Proof. solve_decision. Defined.

Definition to_row (s : AuthStatus) : CollectorAuthRow := {|
  row_state := state_code (st_state s);
  row_reason := status_reason_code <$> st_reason s;
  row_collecting := st_collecting s;
  row_retry_at := st_retry_at s;
  row_stopped_generation := st_stopped_generation s;
  row_stopped_mode := stopped_mode_code <$> st_stopped_mode s;
  row_fuse_consecutive := fs_consecutive (st_fuse s);
  row_fuse_generation := fs_generation (st_fuse s);
  row_fuse_last_rejection_at := fs_last_rejection_at (st_fuse s);
  row_fuse_pause_until := fs_pause_until (st_fuse s);
  row_fuse_rejected_access_digest := fs_rejected_access (st_fuse s);
  row_clock_skew := st_clock_skew s;
|}.

Definition from_row (row : CollectorAuthRow) : result StoreError AuthStatus :=
  state ← ok_or (state_from_code (row_state row)) InvalidStoredAuthStatus;
  reason ← match row_reason row with
           | Some code =>
               r ← ok_or (status_reason_parse state code) InvalidStoredAuthStatus;
               Ok (Some r)
           | None => Ok None
           end;
  stopped_mode ← match row_stopped_mode row with
                 | Some code =>
                     m ← ok_or (stopped_mode_from_code code) InvalidStoredAuthStatus;
                     Ok (Some m)
                 | None => Ok None
                 end;
  let status := {|
    st_state := state;
    st_reason := reason;
    st_collecting := row_collecting row;
    st_retry_at := row_retry_at row;
    st_stopped_generation := row_stopped_generation row;
    st_stopped_mode := stopped_mode;
    st_fuse := {|
      fs_consecutive := row_fuse_consecutive row;
      fs_generation := row_fuse_generation row;
      fs_last_rejection_at := row_fuse_last_rejection_at row;
      fs_pause_until := row_fuse_pause_until row;
      fs_rejected_access := row_fuse_rejected_access_digest row;
    |};
    st_clock_skew := row_clock_skew row;
  |} in
  if is_consistent status then Ok status else Err InvalidStoredAuthStatus.

(** ** Clock *)

Definition clock_is_valid (now : Z) : bool := now >=? CLOCK_FLOOR_EPOCH_SECONDS.

Definition skew_after_answer (current : bool) (date_header : option string) (received_at : Z) : bool :=
  match date_header ≫= parse_http_date with
  | None => current
  | Some server => Z.abs (server - received_at) >? SKEW_ALLOWANCE_SECONDS
  end.

(** ** Lemmas *)

#[export] Instance state_code_inj : Inj (=) (=) state_code.
Proof. by intros [] []. Qed.
#[export] Instance observer_code_inj : Inj (=) (=) observer_code.
Proof. by intros [] []. Qed.

Lemma all_states_complete s : s ∈ all_states.
Proof. destruct s; set_solver. Qed.
Lemma all_observer_complete s : s ∈ all_observer.
Proof. destruct s; set_solver. Qed.

(** A search by an injective code in a complete list inverts the code. *)
Lemma find_code_spec {A} (code_of : A -> string) all c x :
  Inj (=) (=) code_of -> (forall y, y ∈ all) ->
  find_code code_of all c = Some x <-> code_of x = c.
Proof.
  intros Hinj Hall. unfold find_code. split.
  - intros [_ H]%find_first_Some. by apply bool_decide_eq_true in H.
  - intros <-. by apply find_first_key.
Qed.

Lemma state_from_code_spec c s : state_from_code c = Some s <-> state_code s = c.
Proof. apply find_code_spec; [apply _|apply all_states_complete]. Qed.

Lemma stopped_mode_from_code_spec c m : stopped_mode_from_code c = Some m <-> stopped_mode_code m = c.
Proof. unfold stopped_mode_from_code. destruct m; cases; naive_solver. Qed.

(** A reason code is read back exactly when the state admits the reason. *)
Lemma status_reason_parse_spec s c r :
  status_reason_parse s c = Some r <-> admits s (Some r) = true /\ status_reason_code r = c.
Proof.
  assert (forall A (f : A -> string) all (k : A -> StatusReason), Inj (=) (=) f -> (forall y, y ∈ all) ->
    k <$> find_code f all c = Some r <-> exists a, r = k a /\ f a = c) as Hk.
  { intros A f all k ? ?. rewrite fmap_Some. split.
    - intros (a & Ha & ->). apply find_code_spec in Ha; eauto.
    - intros (a & -> & Ha). exists a. split; [by apply find_code_spec|done]. }
  assert (forall (p : StatusReason -> bool) o, opt_filter p o = Some r <-> o = Some r /\ p r = true) as Hf.
  { intros p [x|]; simpl; [destruct (p x) eqn:?|]; split; naive_solver congruence. }
  assert (forall o, opt_filter (fun r => admits s (Some r)) o = Some r <->
            o = Some r /\ admits s (Some r) = true) as Hs by (intros; apply Hf).
  unfold status_reason_parse. destruct s; rewrite ?Hs, ?Hk;
    (apply _ || apply all_retry_complete || apply all_observer_complete ||
     apply all_configuration_complete || apply all_signout_complete || apply all_refusal_complete
     || (destruct r; simpl; clear; naive_solver)).
Qed.

Lemma from_row_spec row s :
  from_row row = Ok s <-> is_consistent s = true /\ to_row s = row.
Proof.
  unfold from_row. split.
  - intros H. repeat (apply result_bind_Ok in H as (? & ? & H)).
    case_match eqn:Hc; [|done]. injection H as <-. split; [done|].
    rename select (ok_or (state_from_code _) _ = Ok _) into Hs.
    apply ok_or_Ok, state_from_code_spec in Hs.
    destruct row as [rs rr ? ? ? rm]; simpl in *. unfold to_row; simpl. f_equal; [done| |].
    + destruct rr; [|naive_solver].
      rename select (ok_or _ _ ≫= _ = Ok _) into Hr.
      apply result_bind_Ok in Hr as (r & Hr%ok_or_Ok & [= <-]).
      apply status_reason_parse_spec in Hr as [_ <-]. done.
    + destruct rm; [|naive_solver].
      rename select (ok_or (stopped_mode_from_code _) _ ≫= _ = Ok _) into Hm.
      apply result_bind_Ok in Hm as (m & Hm%ok_or_Ok & [= <-]).
      apply stopped_mode_from_code_spec in Hm as <-. done.
  - intros [Hc <-].
    rewrite (proj2 (ok_or_Ok _ _ (st_state s))) by by apply state_from_code_spec.
    destruct s as [ss sr sc sa sg sm [? ? ? ? ?] sk]; simpl in *.
    assert (admits ss sr = true) as Ha by (unfold is_consistent in Hc; simpl in Hc; bsimp; done).
    replace (match status_reason_code <$> sr with _ => _ end)
      with (@Ok StoreError _ sr); simpl.
    2:{ destruct sr as [r|]; simpl; [|done].
        by rewrite (proj2 (status_reason_parse_spec ss _ r)). }
    replace (match stopped_mode_code <$> sm with _ => _ end)
      with (@Ok StoreError _ sm); simpl; [by rewrite Hc|].
    destruct sm as [m|]; simpl; [|done].
    by rewrite (proj2 (stopped_mode_from_code_spec _ m)).
Qed.

(** The stored row reads back as a status exactly when it is the row that
    status writes and the status satisfies the invariants of R52: [from_row] is
    the exact partial inverse of [to_row] on consistent statuses, so no stored
    stop is ever guessed at, lost or invented by a restart. *)
Theorem from_row_exact row s :
  from_row row = Ok s <-> is_consistent s = true /\ to_row s = row.
Proof. apply from_row_spec. Qed.

(** ** The one writer of the status row

    [StatusSink], [StatusWrite] and [StatusRecorder] of
    [src/src/auth/legacy_auth/state.rs] (R43, R52a).  The sink is an interface:
    the recorder is proved against what a row store promises, a successful
    write holds the row and a failed one holds what it held. *)

(** [trait StatusSink], with the sink's own state threaded through. *)
Class StatusSink (S : Type) := {
  write_status : S -> CollectorAuthRow -> Z -> result StoreError bool * S;
  (** The row the store holds (ghost: no code reads it). *)
  sink_row : S -> option CollectorAuthRow;
}.

(** What the recorder relies on. *)
Class LawfulSink (S : Type) `{StatusSink S} := {
  write_ok : forall s row now b s', write_status s row now = (Ok b, s') -> sink_row s' = Some row;
  write_err : forall s row now e s', write_status s row now = (Err e, s') -> sink_row s' = sink_row s;
}.

Inductive StatusWrite :=
| Unchanged
| Written
| Deferred (retry_at_ms : Z).

Section Recorder.
Context {S : Type} `{HS : StatusSink S}.

Record StatusRecorder := MkStatusRecorder {
  sink : S;
  current : AuthStatus;
  written : option CollectorAuthRow;
  failures : Z;
  next_attempt_ms : option Z;
}.
#[global] Instance eta_StatusRecorder : Eta StatusRecorder := fun r =>
  MkStatusRecorder (sink r) (current r) (written r) (failures r) (next_attempt_ms r).

Definition recorder_new (s : S) (initial : AuthStatus) (stored : option CollectorAuthRow)
    : StatusRecorder :=
  MkStatusRecorder s initial stored 0 None.

Definition hold (r : StatusRecorder) (status : AuthStatus) : StatusRecorder :=
  r <| current := status |>.

Definition is_synced (r : StatusRecorder) : bool :=
  bool_decide (written r = Some (to_row (current r))).

(** The delay after the [n]-th failure in a row; [usize] is 64-bit. *)
Definition persistence_delay_ms (n : Z) : Z :=
  let step := Z.min n (Z.of_nat (length PERSISTENCE_RETRY_SECONDS) - 1) in
  i64_smul (default i64_max (i64_try_from (PERSISTENCE_RETRY_SECONDS !!! Z.to_nat step))) 1000.

Definition attempt (r : StatusRecorder) (now_ms : Z) : StatusWrite * StatusRecorder :=
  let row := to_row (current r) in
  match write_status (sink r) row now_ms with
  | (Ok _, s) =>
      (Written, r <| sink := s |> <| written := Some row |> <| failures := 0 |>
                  <| next_attempt_ms := None |>)
  | (Err _, s) =>
      let retry_at_ms := i64_sadd now_ms (persistence_delay_ms (failures r)) in
      (Deferred retry_at_ms,
       r <| sink := s |> <| failures := u64_sadd (failures r) 1 |>
         <| next_attempt_ms := Some retry_at_ms |>)
  end.

Definition set (r : StatusRecorder) (status : AuthStatus) (now_ms : Z) : StatusWrite * StatusRecorder :=
  let r := r <| current := status |> in
  if is_synced r then (Unchanged, r <| failures := 0 |> <| next_attempt_ms := None |>)
  else
    match next_attempt_ms r with
    | Some retry_at_ms =>
        if now_ms <? retry_at_ms then (Deferred retry_at_ms, r) else attempt r now_ms
    | None => attempt r now_ms
    end.

(** ** The recorder as a machine: the calls the unit makes of it *)
Inductive recorder_step : StatusRecorder -> StatusRecorder -> Prop :=
| step_hold r s : recorder_step r (hold r s)
| step_set r s now w r' : set r s now = (w, r') -> recorder_step r r'
| step_attempt r now w r' : attempt r now = (w, r') -> recorder_step r r'.

(** What the recorder believes about the store is true, and a retry is armed
    exactly while a failure is counted. *)
Record recorder_inv (r : StatusRecorder) : Prop := {
  inv_written : forall row, written r = Some row -> sink_row (sink r) = Some row;
  inv_failures : 0 <= failures r <= u64_max;
  inv_armed : is_Some (next_attempt_ms r) <-> 0 < failures r;
}.

Lemma persistence_delay_bounds n : 0 <= n -> 5000 <= persistence_delay_ms n <= 300000.
Proof.
  intros Hn. unfold persistence_delay_ms.
  change (Z.of_nat (length PERSISTENCE_RETRY_SECONDS) - 1) with 6. cbv zeta.
  assert (Z.to_nat (Z.min n 6) <= 6)%nat as Hk by lia. revert Hk.
  generalize (Z.to_nat (Z.min n 6)). intros k Hk.
  do 7 (destruct k as [|k]; [vm_compute; split; discriminate|]). lia.
Qed.

Context `{!LawfulSink S}.

Lemma attempt_inv r now w r' : attempt r now = (w, r') -> recorder_inv r -> recorder_inv r'.
Proof.
  unfold attempt. destruct (write_status _ _ _) as [[b|e] s'] eqn:E; intros [= <- <-] [Hw Hf Ha].
  - apply write_ok in E. split; simpl; [naive_solver|mlia|].
    split; [by intros [? ?]|lia].
  - apply write_err in E. split; simpl.
    + intros row Hrow. rewrite E. auto.
    + mlia.
    + split; [|eauto]. intros _. mlia.
Qed.

Lemma set_inv r s now w r' : set r s now = (w, r') -> recorder_inv r -> recorder_inv r'.
Proof.
  unfold set. intros H Hi.
  assert (recorder_inv (r <| current := s |>)) as Hi' by (by destruct Hi).
  destruct (is_synced _).
  - injection H as <- <-. destruct Hi' as [Hw Hf Ha]. split; simpl in *; [done|mlia|].
    split; [by intros [? ?]|lia].
  - destruct (next_attempt_ms _); [destruct (_ <? _)|]; simplify_eq; eauto using attempt_inv.
Qed.

(** Every call the unit makes keeps the invariant. *)
Lemma recorder_step_inv r r' : recorder_step r r' -> recorder_inv r -> recorder_inv r'.
Proof.
  destruct 1; intros Hi; [by destruct Hi|by eapply set_inv|by eapply attempt_inv].
Qed.

Lemma recorder_new_inv s i stored : sink_row s = stored -> recorder_inv (recorder_new s i stored).
Proof.
  intros <-. split; simpl; [naive_solver|mlia|]. split; [by intros [? ?]|lia].
Qed.

Lemma recorder_reachable_inv s i stored r :
  sink_row s = stored -> rtc recorder_step (recorder_new s i stored) r -> recorder_inv r.
Proof.
  intros Hs H. eapply rtc_ind_r in H; [exact H| |].
  - by apply recorder_new_inv.
  - intros ? ? _ Hst Hi. by eapply recorder_step_inv.
Qed.

(** The status row never lags silently: in every state the recorder can
    reach from a start that read the stored row, setting a status makes it the
    status in memory whatever the store does, reports [Unchanged] or [Written]
    only when the store holds exactly that row, and otherwise reports the armed
    retry time, after at most five minutes when it attempted a write. *)
Theorem recorder_set_contract s i stored r status now w r' :
  sink_row s = stored -> rtc recorder_step (recorder_new s i stored) r ->
  set r status now = (w, r') ->
  current r' = status /\
  match w with
  | Unchanged | Written => sink_row (sink r') = Some (to_row status) /\ next_attempt_ms r' = None
  | Deferred t => next_attempt_ms r' = Some t /\
      (next_attempt_ms r = Some t /\ now < t \/ i64_sadd now 5000 <= t <= i64_sadd now 300000)
  end.
Proof.
  intros Hs Hr Hset. pose proof (recorder_reachable_inv _ _ _ _ Hs Hr) as Hi.
  pose proof (set_inv _ _ _ _ _ Hset Hi) as Hi'.
  unfold set in Hset. simpl in Hset. destruct (is_synced _) eqn:Es.
  - injection Hset as <- <-. simpl. split; [done|]. split; [|done].
    apply Hi'. unfold is_synced in Es. by bsimp.
  - assert (attempt (r <| current := status |>) now = (w, r') ->
      current r' = status /\
      match w with
      | Unchanged | Written => sink_row (sink r') = Some (to_row status) /\ next_attempt_ms r' = None
      | Deferred t => next_attempt_ms r' = Some t /\
          i64_sadd now 5000 <= t <= i64_sadd now 300000
      end) as Hatt.
    { unfold attempt. simpl. destruct (write_status _ _ _) as [[b|e] s'] eqn:E; intros [= <- <-]; simpl.
      - apply write_ok in E. done.
      - split; [done|]. split; [done|].
        pose proof (persistence_delay_bounds (failures r)). destruct Hi. mlia. }
    destruct (next_attempt_ms r) as [t|] eqn:Et; [destruct (now <? t) eqn:El|].
    + injection Hset as <- <-. simpl. bsimp. eauto.
    + apply Hatt in Hset as [? Hm]. split; [done|]. destruct w; naive_solver.
    + apply Hatt in Hset as [? Hm]. split; [done|]. destruct w; naive_solver.
Qed.
End Recorder.

(** ** A row store that fails on request, to evaluate the recorder *)
Module FlakySink.
(** The stored row and the answers still to give: [true] succeeds. *)
Definition flaky : Type := option CollectorAuthRow * list bool.

#[global] Instance flaky_sink : StatusSink flaky := {
  write_status '(stored, answers) row _ :=
    match answers with
    | false :: rest => (Err OtherStoreError, (stored, rest))
    | true :: rest => (Ok true, (Some row, rest))
    | [] => (Ok true, (Some row, []))
    end;
  sink_row := fst;
}.

#[global] Instance flaky_lawful : LawfulSink flaky.
Proof.
  split; intros [stored [|[] rest]] row now; simpl; intros; simplify_eq/=; done.
Qed.
End FlakySink.

(** Two failures and a success: the third attempt, at its time, holds the row. *)
Lemma recorder_set_contract_witness :
  let s : FlakySink.flaky := (None, [false; false; true]) in
  let up := status_ready fuse_default false in
  let r0 := recorder_new s up None in
  let r1 := (set r0 up 1000).2 in
  let r2 := (set r1 up 6000).2 in
  let r3 := (set r2 up 16000).2 in
  next_attempt_ms r1 = Some 6000 /\ next_attempt_ms r2 = Some 16000 /\
  current r3 = up /\ sink_row (sink r3) = Some (to_row up) /\ next_attempt_ms r3 = None.
Proof.
  intros s up r0 r1 r2 r3.
  split; [reflexivity|]. split; [reflexivity|].
  refine (recorder_set_contract s up None r2 up 16000 Written r3 _ _ _); [reflexivity| |reflexivity].
  eapply rtc_l; [eapply (step_set r0 up 1000); reflexivity|].
  eapply rtc_l; [eapply (step_set r1 up 6000); reflexivity|]. apply rtc_refl.
Defined.
