(* ===== verification/PairRow.v ===== *)
(** * The stored pair row against the unit's own writes

    [TeslaMateLegacyTokenStore] of [src/src/storage/db.rs], the receipt facts of
    [src/src/storage/db/legacy_credentials.rs], and [stored_pair_relation],
    [PairImage] and [persist_reread] of [src/src/auth/legacy_auth/state.rs]
    (R24, R44a, R62).  The database is the record [HubStore] of the answers its
    reads give at one moment. *)
From S2P Require Import Prelude AuthState.
Local Open Scope string_scope.
Local Open Scope Z_scope.

(** Ciphertext bytes. *)
Definition bytes : Type := list Z.

(** 16 KiB of plaintext and the Cloak V1 envelope: two bytes, the tag
    [AES.GCM.V1], a 12-byte nonce and a 16-byte authentication tag. *)
Definition MAX_LEGACY_TOKEN_CIPHERTEXT_BYTES : Z := 16 * 1024 + (2 + 10 + 12 + 16).

Record TeslaMateLegacyTokenStore := MkTokenStore {
  ts_access : bytes;
  ts_refresh : bytes;
  ts_expires_at : Z;
  ts_next_refresh_at : Z;
  ts_credential_generation : option Uuid;
}.
#[export] Instance TokenStore_eq_dec : EqDecision TeslaMateLegacyTokenStore.
Proof. solve_decision. Defined.

(** [Vec::len] as [usize]. *)
Definition byte_len (b : bytes) : Z := Z.of_nat (length b).

Definition token_store_new (access refresh : bytes) (expires_at next_refresh_at : Z)
    (generation : option Uuid) : result StoreError TeslaMateLegacyTokenStore :=
  if (byte_len access =? 0) || (byte_len refresh =? 0) then Err TeslaMateTokenPairEmpty
  else if (byte_len access >? MAX_LEGACY_TOKEN_CIPHERTEXT_BYTES)
          || (byte_len refresh >? MAX_LEGACY_TOKEN_CIPHERTEXT_BYTES)
  then Err TeslaMateTokenCiphertextTooLarge
  else
    let imported := (expires_at =? 0) && (next_refresh_at =? 0) in
    let scheduled := (expires_at >? next_refresh_at) && (next_refresh_at >? 0) in
    if negb imported && negb scheduled then Err InvalidTeslaMateTokenSchedule
    else Ok (MkTokenStore access refresh expires_at next_refresh_at generation).

Definition token_store_imported (access refresh : bytes) : result StoreError TeslaMateLegacyTokenStore :=
  token_store_new access refresh 0 0 None.

Definition token_store_refreshed (access refresh : bytes) (expires_at next_refresh_at : Z)
    : result StoreError TeslaMateLegacyTokenStore :=
  value ← token_store_new access refresh expires_at next_refresh_at None;
  if ts_expires_at value =? 0 then Err InvalidTeslaMateTokenSchedule else Ok value.

(** [Uuid::is_nil] is the number zero. *)
Definition with_credential_generation (row : TeslaMateLegacyTokenStore) (generation : Uuid)
    : result StoreError TeslaMateLegacyTokenStore :=
  if generation =? 0 then Err InvalidLegacyRefreshGeneration
  else token_store_new (ts_access row) (ts_refresh row) (ts_expires_at row)
         (ts_next_refresh_at row) (Some generation).

Record LegacyReceiptFacts := MkReceiptFacts {
  rf_transport : string;
  rf_operation : string;
  rf_outcome : string;
}.
Definition is_started (f : LegacyReceiptFacts) : bool := bool_decide (rf_outcome f = "started").
Definition is_token_refresh_success (f : LegacyReceiptFacts) : bool :=
  bool_decide (rf_transport f = "legacy_auth")
  && bool_decide (rf_operation f = "token_refresh")
  && bool_decide (rf_outcome f = "success").

Record LegacyPairSnapshot := MkPairSnapshot {
  snap_row : option TeslaMateLegacyTokenStore;
  snap_receipt : option LegacyReceiptFacts;
}.

Inductive StoredLegacyGeneration := NoRow | Unbound | Bound (g : Uuid).

Definition ReceiptId : Type := Z.

(** The reads of [HubStore] this unit makes. *)
Record HubStore := MkHubStore {
  stored_legacy_credential_generation : result StoreError StoredLegacyGeneration;
  legacy_generation_is_refresh_output : Uuid -> result StoreError bool;
  legacy_pair_and_receipt_snapshot : ReceiptId -> result StoreError LegacyPairSnapshot;
  has_unresolved_legacy_refresh : result StoreError bool;
  load_collector_auth_row : result StoreError (option CollectorAuthRow);
  latest_legacy_refresh_started_at_ms : result StoreError (option Z);
}.

(** ** R44a *)

Inductive StoredPairRelation := RelCurrent | OwnOutput (g : Uuid) | RelExternal | RelMissing.

Definition stored_pair_relation (store : HubStore) (own : Uuid) : result StoreError StoredPairRelation :=
  generation ← stored_legacy_credential_generation store;
  match generation with
  | NoRow => Ok RelMissing
  | Unbound => Ok RelExternal
  | Bound stored =>
      if stored =? own then Ok RelCurrent
      else
        output ← legacy_generation_is_refresh_output store stored;
        Ok (if (output : bool) then OwnOutput stored else RelExternal)
  end.

(** ** R24 *)

Inductive PersistReread :=
| AlreadyPersisted
| ClosedForThisAttempt
| StillInput
| RereadExternal
| RereadMissing.

Record PairImage := MkPairImage {
  im_access : bytes;
  im_refresh : bytes;
  im_expires_at : Z;
  im_next_refresh_at : Z;
  im_generation : Uuid;
}.

(** [PairImage::of]. *)
Definition image_of (row : TeslaMateLegacyTokenStore) (generation : Uuid) : PairImage :=
  MkPairImage (ts_access row) (ts_refresh row) (ts_expires_at row) (ts_next_refresh_at row) generation.

Definition row_for_a_retry (im : PairImage) (generation expires_at next_refresh_at : Z)
    : option TeslaMateLegacyTokenStore :=
  if negb (im_generation im =? generation)
     || negb (im_expires_at im =? expires_at)
     || negb (im_next_refresh_at im =? next_refresh_at)
  then None
  else result_ok (
    row ← token_store_refreshed (im_access im) (im_refresh im) (im_expires_at im) (im_next_refresh_at im);
    with_credential_generation row (im_generation im)).

Definition is_the_row (im : PairImage) (row : TeslaMateLegacyTokenStore) : bool :=
  bool_decide (ts_credential_generation row = Some (im_generation im))
  && bool_decide (ts_access row = im_access im)
  && bool_decide (ts_refresh row = im_refresh im)
  && (ts_expires_at row =? im_expires_at im)
  && (ts_next_refresh_at row =? im_next_refresh_at im).

Record OwnWrite := MkOwnWrite { ow_receipt : ReceiptId; ow_image : PairImage }.

Definition persist_reread (store : HubStore) (input successor : Uuid) (own : option OwnWrite)
    : result StoreError PersistReread :=
  match opt_filter (fun _ => input =? successor) own with
  | Some own =>
      snapshot ← legacy_pair_and_receipt_snapshot store (ow_receipt own);
      match snap_row snapshot with
      | None => Ok RereadMissing
      | Some row =>
          match ts_credential_generation row with
          | None => Ok RereadExternal
          | Some generation =>
              if negb (generation =? successor) then Ok RereadExternal
              else
                let receipt := snap_receipt snapshot in
                let is_the_write := is_the_row (ow_image own) row in
                let still_open := is_some_and receipt is_started in
                Ok (if is_the_write then
                      if is_some_and receipt is_token_refresh_success then ClosedForThisAttempt
                      else StillInput
                    else if still_open then StillInput
                    else RereadExternal)
          end
      end
  | None =>
      generation ← stored_legacy_credential_generation store;
      Ok match generation with
         | NoRow => RereadMissing
         | Unbound => RereadExternal
         | Bound stored =>
             if stored =? successor then AlreadyPersisted
             else if stored =? input then StillInput
             else RereadExternal
         end
  end.

(** ** What they prove *)

(** The rows the store accepts from a refresh. *)
Definition refreshed_row (row : TeslaMateLegacyTokenStore) : Prop :=
  1 <= byte_len (ts_access row) <= MAX_LEGACY_TOKEN_CIPHERTEXT_BYTES /\
  1 <= byte_len (ts_refresh row) <= MAX_LEGACY_TOKEN_CIPHERTEXT_BYTES /\
  0 < ts_next_refresh_at row < ts_expires_at row.

Lemma token_store_new_Ok a r e n g row :
  token_store_new a r e n g = Ok row <->
  row = MkTokenStore a r e n g /\
  1 <= byte_len a <= MAX_LEGACY_TOKEN_CIPHERTEXT_BYTES /\
  1 <= byte_len r <= MAX_LEGACY_TOKEN_CIPHERTEXT_BYTES /\
  (e = 0 /\ n = 0 \/ 0 < n < e).
Proof.
  assert (0 <= byte_len a /\ 0 <= byte_len r) as [? ?] by (unfold byte_len; lia).
  unfold token_store_new. rewrite !(Z.gtb_ltb).
  destruct (byte_len a =? 0) eqn:?, (byte_len r =? 0) eqn:?,
    (MAX_LEGACY_TOKEN_CIPHERTEXT_BYTES <? byte_len a) eqn:?,
    (MAX_LEGACY_TOKEN_CIPHERTEXT_BYTES <? byte_len r) eqn:?; simpl; bsimp;
    try (split; [done|lia]).
  destruct (e =? 0) eqn:?, (n =? 0) eqn:?, (n <? e) eqn:?, (0 <? n) eqn:?; simpl; bsimp;
    try (split; [done|lia]);
    (split; [intros [= <-]; split_and!; try done; lia | by intros (-> & _)]).
Qed.

Lemma token_store_refreshed_Ok a r e n row :
  token_store_refreshed a r e n = Ok row <->
  row = MkTokenStore a r e n None /\ refreshed_row row.
Proof.
  unfold token_store_refreshed, refreshed_row. rewrite result_bind_Ok. split.
  - intros (v & (-> & ? & ? & ?)%token_store_new_Ok & Hv). simpl in Hv.
    destruct (e =? 0) eqn:E; [done|]. bsimp. simplify_eq/=. split_and!; try done; lia.
  - intros (-> & ? & ? & ?). simpl in *. eexists. split.
    + apply token_store_new_Ok. split_and!; try done; lia.
    + simpl. destruct (e =? 0) eqn:?; [bsimp; lia|done].
Qed.

Lemma with_generation_Ok row g row' :
  refreshed_row row -> with_credential_generation row g = Ok row' <->
  g <> 0 /\ row' = MkTokenStore (ts_access row) (ts_refresh row) (ts_expires_at row)
                      (ts_next_refresh_at row) (Some g).
Proof.
  intros (? & ? & ?). unfold with_credential_generation.
  destruct (g =? 0) eqn:?; bsimp; [naive_solver|].
  rewrite token_store_new_Ok. naive_solver lia.
Qed.

Lemma is_the_row_true im row :
  is_the_row im row = true <->
  row = MkTokenStore (im_access im) (im_refresh im) (im_expires_at im) (im_next_refresh_at im)
          (Some (im_generation im)).
Proof.
  unfold is_the_row. destruct row as [? ? ? ? ?], im; simpl. split.
  - intros H. bsimp. by subst.
  - intros [= -> -> -> -> ->]. by rewrite !bool_decide_eq_true_2, !Z.eqb_refl.
Qed.

(** A retry of an interrupted write puts the very row the attempt wrote: the
    image of an accepted row, asked for with that write's generation and
    schedule, rebuilds exactly it, recognises it as its own, and refuses to
    rebuild any other write. *)
Theorem pair_image_rebuilds_its_row row g e n :
  refreshed_row row -> g <> 0 ->
  let stored := MkTokenStore (ts_access row) (ts_refresh row) (ts_expires_at row)
                  (ts_next_refresh_at row) (Some g) in
  is_the_row (image_of row g) stored = true /\
  forall g' row',
    row_for_a_retry (image_of row g) g' e n = Some row' <->
    g' = g /\ e = ts_expires_at row /\ n = ts_next_refresh_at row /\ row' = stored.
Proof.
  intros Hr Hg stored. split; [by apply is_the_row_true|]. intros g' row'.
  unfold row_for_a_retry. simpl.
  destruct (g =? g') eqn:?, (ts_expires_at row =? e) eqn:?, (ts_next_refresh_at row =? n) eqn:?;
    simpl; bsimp; try naive_solver. subst g' e n.
  rewrite (proj2 (token_store_refreshed_Ok _ _ _ _ _) (conj eq_refl Hr)). simpl.
  destruct (with_credential_generation _ g) as [w|] eqn:Hw; simpl.
  - apply with_generation_Ok in Hw as [_ ->]; [naive_solver|done].
  - rewrite (proj2 (with_generation_Ok (MkTokenStore _ _ _ _ None) g _ Hr) (conj Hg eq_refl)) in Hw. done.
Qed.

Definition sample_row : TeslaMateLegacyTokenStore := MkTokenStore [1; 2] [3] 2000000000 1999999000 None.

Lemma pair_image_rebuilds_its_row_witness :
  row_for_a_retry (image_of sample_row 77) 77 2000000000 1999999000
  = Some (MkTokenStore [1; 2] [3] 2000000000 1999999000 (Some 77)).
Proof.
  apply (pair_image_rebuilds_its_row sample_row 77 2000000000 1999999000);
    [vm_compute; intuition discriminate | discriminate | repeat split].
Defined.

(** A re-read never takes somebody else's row for the unit's own write: with
    the unit's own receipt and image, it calls the successor persisted only when
    the store holds it, and for a successor that kept the refresh token (whose
    generation proves nothing) only when the stored row is bit for bit the one
    written and the attempt's receipt is closed as a successful refresh. *)
Theorem persist_reread_proves_the_write store input successor own v :
  persist_reread store input successor (Some own) = Ok v ->
  (v = AlreadyPersisted ->
     input <> successor /\ stored_legacy_credential_generation store = Ok (Bound successor)) /\
  (v = ClosedForThisAttempt ->
     input = successor /\ exists row facts,
       legacy_pair_and_receipt_snapshot store (ow_receipt own)
         = Ok (MkPairSnapshot (Some row) (Some facts)) /\
       row = MkTokenStore (im_access (ow_image own)) (im_refresh (ow_image own))
               (im_expires_at (ow_image own)) (im_next_refresh_at (ow_image own))
               (Some (im_generation (ow_image own))) /\
       facts = MkReceiptFacts "legacy_auth" "token_refresh" "success").
Proof.
  unfold persist_reread, opt_filter. destruct (input =? successor) eqn:E; bsimp.
  - intros ([row receipt] & Hs & H)%result_bind_Ok. split; [intros ->|intros ->].
    + simpl in H. repeat case_match; simplify_eq.
    + split; [done|]. simpl in H. destruct row as [row|]; [|done].
      destruct (ts_credential_generation row); [|done].
      destruct (negb _); [done|]. destruct (is_the_row _ row) eqn:Hi; [|by case_match].
      destruct receipt as [facts|]; simpl in H; [|done].
      destruct (is_token_refresh_success facts) eqn:Hf; [|done].
      exists row, facts. split; [done|]. split; [by apply is_the_row_true|].
      unfold is_token_refresh_success in Hf. bsimp. destruct facts; simpl in *; by subst.
  - intros (g & Hg & H)%result_bind_Ok. destruct g as [| |g]; [naive_solver..|].
    destruct (g =? successor) eqn:?; [|destruct (g =? input); naive_solver].
    bsimp. split; [|naive_solver]. intros _. by subst.
Qed.

(** A store whose row and receipt are the successful write of an attempt that
    kept its refresh token. *)
Definition sample_store : HubStore := {|
  stored_legacy_credential_generation := Ok (Bound 77);
  legacy_generation_is_refresh_output _ := Ok true;
  legacy_pair_and_receipt_snapshot _ :=
    Ok (MkPairSnapshot (Some (MkTokenStore [1; 2] [3] 2000000000 1999999000 (Some 77)))
          (Some (MkReceiptFacts "legacy_auth" "token_refresh" "success")));
  has_unresolved_legacy_refresh := Ok false;
  load_collector_auth_row := Ok None;
  latest_legacy_refresh_started_at_ms := Ok None;
|}.

Lemma persist_reread_proves_the_write_witness :
  persist_reread sample_store 77 77 (Some (MkOwnWrite 1 (image_of sample_row 77)))
    = Ok ClosedForThisAttempt /\
  exists row facts,
    legacy_pair_and_receipt_snapshot sample_store 1 = Ok (MkPairSnapshot (Some row) (Some facts)).
Proof.
  split; [reflexivity|].
  destruct (persist_reread_proves_the_write sample_store 77 77
              (MkOwnWrite 1 (image_of sample_row 77)) ClosedForThisAttempt eq_refl)
    as [_ [_ (row & facts & H & _)]]; [reflexivity|].
  exists row, facts. exact H.
Defined.
