(* ===== verification/Restore.v ===== *)
(** * Restoring the unit's state at start

    The R57 half of [src/src/auth/legacy_auth/state.rs]: [PairLoad],
    [StartInputs], [StartFacts], [restore_from_facts], [restored_fuse],
    [fuse_owes_forced_refresh], [restart_floor] and the external-write table
    [status_after_external_write]. *)
From S2P Require Import Prelude Vocabulary Endpoint AuthState PairRow.
Local Open Scope Z_scope.

Inductive PairLoad :=
| Loaded (generation : Uuid) (usable_until : option Z)
| Invalid (generation : Uuid).

Definition pair_generation (p : PairLoad) : Uuid :=
  match p with Loaded g _ | Invalid g => g end.

Definition pair_is_usable (p : PairLoad) (now : Z) : bool :=
  match p with
  | Loaded _ usable_until => is_none_or usable_until (fun until => now <? until)
  | Invalid _ => false
  end.

Record StartInputs := MkStartInputs {
  si_now : Z;
  si_mode : AuthMode;
  si_observer : bool;
  si_pair : PairLoad;
  si_configuration : result ConfigurationReason unit;
  si_c3_reset_refusal : bool;
}.

Record StartFacts := MkStartFacts {
  sf_unresolved_attempt : bool;
  sf_stored : option CollectorAuthRow;
  sf_current_is_refresh_output : bool;
  sf_last_receipt_started_at_ms : option Z;
}.
#[export] Instance eta_StartFacts : Eta StartFacts := fun f =>
  MkStartFacts (sf_unresolved_attempt f) (sf_stored f) (sf_current_is_refresh_output f)
    (sf_last_receipt_started_at_ms f).

(** [StartFacts::read]. *)
Definition facts_read (store : HubStore) (current : Uuid) : result StoreError StartFacts :=
  unresolved ← has_unresolved_legacy_refresh store;
  stored ← load_collector_auth_row store;
  output ← legacy_generation_is_refresh_output store current;
  started ← latest_legacy_refresh_started_at_ms store;
  Ok (MkStartFacts unresolved stored output started).

Record RestoredAuth := MkRestoredAuth {
  ra_status : AuthStatus;
  ra_clock_valid : bool;
  ra_token_requests_not_before : Z;
  ra_pause_elapsed : bool;
}.

Definition restored_fuse (stored : option AuthStatus) (current : Uuid)
    (current_is_refresh_output : bool) (now : Z) (clock_valid : bool) : FuseSnapshot :=
  match st_fuse <$> stored with
  | None => fuse_default
  | Some fuse =>
      if fs_consecutive fuse =? 0 then fuse_default
      else
        let same_history :=
          bool_decide (fs_generation fuse = Some current) || current_is_refresh_output in
        let recent :=
          negb clock_valid
          || is_some_and (fs_last_rejection_at fuse) (fun at_ => rejection_window_open at_ now) in
        if same_history && recent then fuse else fuse_default
  end.

Definition fuse_owes_forced_refresh (fuse : FuseSnapshot) (current current_access : Uuid)
    (now : Z) (clock_valid : bool) : bool :=
  (fs_consecutive fuse >=? 1)
  && bool_decide (fs_generation fuse = Some current)
  && bool_decide (fs_rejected_access fuse = Some current_access)
  && (negb clock_valid
      || is_some_and (fs_last_rejection_at fuse) (fun at_ => rejection_window_open at_ now)).

(** [div_euclid] by a positive divisor is the floor division of [Z]. *)
Definition restart_floor (now : Z) (last_receipt_started_at_ms : option Z) : Z :=
  match last_receipt_started_at_ms with
  | None => 0
  | Some started_ms =>
      let interval_ms := MIN_REFRESH_INTERVAL_SECONDS * 1000 in
      let floor := i64_sadd (i64_sadd started_ms interval_ms) 999 / 1000 in
      Z.min floor (i64_sadd now MIN_REFRESH_INTERVAL_SECONDS)
  end.

Definition is_invalid (p : PairLoad) : bool :=
  match p with Invalid _ => true | Loaded _ _ => false end.

(** [facts.stored.as_ref().map(AuthStatus::from_row).transpose()?]. *)
Definition stored_status (stored : option CollectorAuthRow) : result StoreError (option AuthStatus) :=
  match stored with
  | None => Ok None
  | Some row => Some <$> from_row row
  end.

(** The stop of steps 2, 3 and 5 of [restore_from_facts]. *)
Definition restored_refusal (stored : option AuthStatus) (m : StoppedMode) (c3_reset : bool)
    : option RefusalReason :=
  stored ≫= fun status =>
    match status_stop status with
    | Some (StopRefused reason) =>
        if bool_decide (st_stopped_mode status = Some m) && negb c3_reset then Some reason else None
    | _ => None
    end.

Definition restored_stop (inputs : StartInputs) (unresolved : bool) (stored : option AuthStatus)
    : option AuthStop :=
  let current := pair_generation (si_pair inputs) in
  let m := stopped_mode_of (si_mode inputs) in
  let refusal := restored_refusal stored m (si_c3_reset_refusal inputs) in
  let pair_stop :=
    match si_pair inputs with
    | Invalid _ => Some (StopSignedOut StoredPairInvalid)
    | Loaded _ _ => if unresolved then Some (StopSignedOut RefreshOutcomeUnknown) else None
    end in
  let stored_stop :=
    stored ≫= fun status =>
      match status_stop status with
      | Some ((StopSignIn _ | StopSignedOut _) as stop) =>
          if bool_decide (st_stopped_generation status = Some current) then Some stop else None
      | _ => None
      end in
  if is_invalid (si_pair inputs) then pair_stop
  else match refusal with
       | Some reason => Some (StopRefused reason)
       | None => opt_or pair_stop stored_stop
       end.

Definition restore_from_facts (inputs : StartInputs) (facts : StartFacts)
    : result StoreError RestoredAuth :=
  let now := si_now inputs in
  let current := pair_generation (si_pair inputs) in
  let m := stopped_mode_of (si_mode inputs) in
  let clock_valid := clock_is_valid now in
  let usable := clock_valid && pair_is_usable (si_pair inputs) now in
  stored ← stored_status (sf_stored facts);
  let fuse := restored_fuse stored current (sf_current_is_refresh_output facts) now clock_valid in
  let pause := opt_filter (fun _ => negb (si_observer inputs)) (fs_pause_until fuse) in
  let awaiting := clock_valid && is_some_and pause (fun until => now <? until) in
  let pause_elapsed := clock_valid && is_some_and pause (fun until => until <=? now) in
  let stop := restored_stop inputs (sf_unresolved_attempt facts) stored in
  let sign_in_expired := clock_valid && negb usable in
  let skew := is_some_and stored st_clock_skew in
  let status :=
    match stop with
    | Some stop =>
        let status := status_stopped stop current m usable fuse skew in
        if sign_in_expired then with_sign_in_expired status else status
    | None =>
        if negb clock_valid then status_idle StClockInvalid None fuse skew
        else match si_configuration inputs with
             | Err reason => status_idle StConfigurationError (Some (RConfiguration reason)) fuse skew
             | Ok _ =>
                 if awaiting then
                   status_idle StAwaitingConfirmation (Some (RSignOut AccessTokenRejected)) fuse skew
                 else status_ready fuse skew
             end
    end in
  Ok (MkRestoredAuth status clock_valid
        (restart_floor now (sf_last_receipt_started_at_ms facts)) pause_elapsed).

Definition restore_at_start (store : HubStore) (inputs : StartInputs) : result StoreError RestoredAuth :=
  facts ← facts_read store (pair_generation (si_pair inputs));
  restore_from_facts inputs facts.

Definition status_after_external_write (previous : AuthStatus) (m : AuthMode) (pair : PairLoad)
    (configuration : result ConfigurationReason unit) (clock_valid : bool) : AuthStatus :=
  let fuse := fuse_default in
  let skew := st_clock_skew previous in
  let stored_mode := stopped_mode_of m in
  if is_invalid pair then
    status_stopped (StopSignedOut StoredPairInvalid) (pair_generation pair) stored_mode false fuse skew
  else
    let fallthrough :=
      if negb clock_valid then status_idle StClockInvalid None fuse skew
      else match configuration with
           | Err reason => status_idle StConfigurationError (Some (RConfiguration reason)) fuse skew
           | Ok _ => status_ready fuse skew
           end in
    match status_stop previous with
    | Some (StopRefused _ as stop) =>
        if negb (lifted_by_external_write stop)
        then status_stopped stop (pair_generation pair) stored_mode false fuse skew
        else fallthrough
    | _ => fallthrough
    end.

(** ** Lemmas *)

Lemma fuse_default_consistent : fuse_is_consistent fuse_default = true.
Proof. reflexivity. Qed.

(** The sign-in stops the table of R52 admits. *)
Definition stop_admitted (s : AuthStop) : bool := admits (stop_state s) (Some (stop_reason s)).

Lemma status_stopped_consistent stop g m usable fuse skew :
  stop_admitted stop = true -> fuse_is_consistent fuse = true ->
  is_consistent (status_stopped stop g m usable fuse skew) = true.
Proof.
  unfold is_consistent, stop_admitted. intros Ha Hf.
  destruct stop as [[]|[]|[]]; simpl in *; rewrite ?Hf; try done; by destruct usable.
Qed.

Lemma status_idle_consistent s r fuse skew :
  admits s r = true -> fuse_is_consistent fuse = true ->
  never_collects s = true -> s <> StSignedOut -> s <> StApiRefused ->
  is_consistent (status_idle s r fuse skew) = true.
Proof.
  unfold is_consistent. intros Ha Hf Hn ? ?. simpl. rewrite Ha, Hf.
  by destruct s.
Qed.

Lemma status_ready_consistent fuse skew :
  fuse_is_consistent fuse = true -> is_consistent (status_ready fuse skew) = true.
Proof. unfold is_consistent. simpl. by intros ->. Qed.

Lemma with_sign_in_expired_consistent s :
  is_consistent s = true -> is_consistent (with_sign_in_expired s) = true.
Proof.
  unfold with_sign_in_expired, is_consistent.
  destruct s as [[] [[| [] | | | ]|] c [] [] [] f k]; simpl; try done; by destruct (fuse_is_consistent f), c.
Qed.

Lemma status_stop_admitted s stop :
  is_consistent s = true -> status_stop s = Some stop -> stop_admitted stop = true.
Proof.
  unfold is_consistent, status_stop, stop_admitted. intros Hc Hs. bsimp.
  destruct s as [[] [[]|] ? ? ? ? ? ?]; simpl in *; by simplify_eq/=.
Qed.

Lemma stored_status_Ok stored s :
  stored_status stored = Ok s -> forall st, s = Some st -> is_consistent st = true.
Proof.
  unfold stored_status. destruct stored as [row|]; simpl; [|naive_solver].
  destruct (from_row row) eqn:E; simpl; [|done]. intros [= <-] ? [= <-].
  apply from_row_spec in E. naive_solver.
Qed.

Lemma restored_fuse_consistent stored g o now v :
  (forall st, stored = Some st -> is_consistent st = true) ->
  fuse_is_consistent (restored_fuse stored g o now v) = true.
Proof.
  intros H. unfold restored_fuse. destruct stored as [st|]; simpl; [|done].
  destruct (_ =? 0); [done|]. destruct (_ && _); [|done].
  specialize (H st eq_refl). unfold is_consistent in H. by bsimp.
Qed.

Lemma restored_stop_admitted inputs u stored stop :
  (forall st, stored = Some st -> is_consistent st = true) ->
  restored_stop inputs u stored = Some stop -> stop_admitted stop = true.
Proof.
  unfold restored_stop, restored_refusal. intros H.
  destruct (si_pair inputs) as [g ?|g]; simpl; [|by intros [= <-]].
  destruct stored as [st|]; simpl; [|by destruct u; intros; simplify_eq/=].
  specialize (H st eq_refl). pose proof (status_stop_admitted st) as Ha.
  destruct (status_stop st) as [[r|r|r]|]; simpl; try (case_bool_decide; simpl);
    destruct u; simpl; intros; simplify_eq/=; eauto; case_match; simplify_eq/=; eauto.
Qed.

(** The status a restart computes, as a function of the status it read. *)
Definition restored_status (inputs : StartInputs) (unresolved output : bool)
    (stored : option AuthStatus) : AuthStatus :=
  let now := si_now inputs in
  let valid := clock_is_valid now in
  let usable := valid && pair_is_usable (si_pair inputs) now in
  let fuse := restored_fuse stored (pair_generation (si_pair inputs)) output now valid in
  let skew := is_some_and stored st_clock_skew in
  match restored_stop inputs unresolved stored with
  | Some stop =>
      let s := status_stopped stop (pair_generation (si_pair inputs))
                 (stopped_mode_of (si_mode inputs)) usable fuse skew in
      if valid && negb usable then with_sign_in_expired s else s
  | None =>
      if negb valid then status_idle StClockInvalid None fuse skew
      else match si_configuration inputs with
           | Err reason => status_idle StConfigurationError (Some (RConfiguration reason)) fuse skew
           | Ok _ =>
               if valid && is_some_and (opt_filter (fun _ => negb (si_observer inputs))
                                          (fs_pause_until fuse)) (fun until => now <? until)
               then status_awaiting_confirmation fuse skew
               else status_ready fuse skew
           end
  end.

Lemma restore_from_facts_Ok inputs facts r :
  restore_from_facts inputs facts = Ok r ->
  exists stored, stored_status (sf_stored facts) = Ok stored /\
    ra_status r = restored_status inputs (sf_unresolved_attempt facts)
                    (sf_current_is_refresh_output facts) stored.
Proof. unfold restore_from_facts. intros (s & Hs & [= <-])%result_bind_Ok. eauto. Qed.

Lemma restored_status_ok inputs u o stored :
  (forall st, stored = Some st -> is_consistent st = true) ->
  is_consistent (restored_status inputs u o stored) = true.
Proof.
  intros Hst. unfold restored_status.
  pose proof (restored_fuse_consistent stored (pair_generation (si_pair inputs)) o
    (si_now inputs) (clock_is_valid (si_now inputs)) Hst) as Hf.
  destruct (restored_stop inputs u stored) as [stop|] eqn:Hs.
  - apply restored_stop_admitted in Hs; [|done].
    case_match; [apply with_sign_in_expired_consistent|]; by apply status_stopped_consistent.
  - repeat case_match; try by apply status_idle_consistent. by apply status_ready_consistent.
Qed.

(** The status a restart computes always satisfies the invariants of R52 and
    of the table, whatever row, pair, clock and configuration it starts from:
    the assertion at the end of the restore cannot fire and the row it writes
    reads back. *)
Theorem restored_status_consistent inputs facts r :
  restore_from_facts inputs facts = Ok r -> is_consistent (ra_status r) = true.
Proof.
  intros (stored & Hs & ->)%restore_from_facts_Ok.
  apply restored_status_ok. by eapply stored_status_Ok.
Qed.

(** A refused account on a host whose clock is right. *)
Definition refused_status : AuthStatus :=
  status_stopped (StopRefused OwnerApi) 7 SmLegacy false fuse_default false.
Definition sample_inputs : StartInputs :=
  MkStartInputs 1800000000 Tesla false (Loaded 9 (Some 1800003600)) (Ok tt) false.
Definition sample_facts : StartFacts := MkStartFacts false (Some (to_row refused_status)) false None.

Lemma restored_status_consistent_witness :
  exists r, restore_from_facts sample_inputs sample_facts = Ok r /\ is_consistent (ra_status r) = true.
Proof.
  eexists. split; [reflexivity|].
  apply (restored_status_consistent sample_inputs sample_facts). reflexivity.
Defined.

Lemma stored_status_to_row st :
  is_consistent st = true -> stored_status (Some (to_row st)) = Ok (Some st).
Proof. intros H. simpl. by rewrite (proj2 (from_row_spec (to_row st) st)). Qed.

Lemma status_stop_expired stop g m u f k :
  status_stop (with_sign_in_expired (status_stopped stop g m u f k))
  = Some match stop with StopSignIn r => StopSignedOut r | s => s end.
Proof. by destruct stop. Qed.

Lemma status_stop_stopped stop g m u f k : status_stop (status_stopped stop g m u f k) = Some stop.
Proof. by destruct stop. Qed.

(** Whether a stored stop still counts at a start: a refusal in the mode it was given
    for, unless the collector reports that it reset it; a credential stop while its
    generation is the stored one and no attempt is unresolved. *)
Definition stop_counts (inputs : StartInputs) (facts : StartFacts) (st : AuthStatus) (stop : AuthStop) : bool :=
  match stop with
  | StopRefused _ =>
      bool_decide (st_stopped_mode st = Some (stopped_mode_of (si_mode inputs))) && negb (si_c3_reset_refusal inputs)
  | StopSignIn _ | StopSignedOut _ =>
      bool_decide (st_stopped_generation st = Some (pair_generation (si_pair inputs))) && negb (sf_unresolved_attempt facts)
  end.

(** C24. No restart lifts a stop by itself. From the row of a stopped account: while
    the stored pair is valid and the stop still counts - a refusal in the same mode
    that the collector did not report as reset, a credential stop of the stored
    generation with no attempt unresolved - the account is stopped for the same
    reason, a sign-in stop as a sign-out exactly when the clock is right and the pair
    has expired; and a restart ends without a stop exactly when the pair is valid, the
    stop no longer counts and no attempt is unresolved. *)
Theorem restart_keeps_stop inputs facts st stop :
  is_consistent st = true -> status_stop st = Some stop -> sf_stored facts = Some (to_row st) ->
  exists r, restore_from_facts inputs facts = Ok r
  /\ (is_invalid (si_pair inputs) = false -> stop_counts inputs facts st stop = true ->
      status_stop (ra_status r) = Some
        match stop with
        | StopSignIn reason =>
            if clock_is_valid (si_now inputs) && negb (pair_is_usable (si_pair inputs) (si_now inputs))
            then StopSignedOut reason else stop
        | StopSignedOut _ | StopRefused _ => stop
        end)
  /\ (status_stop (ra_status r) = None <->
      is_invalid (si_pair inputs) = false /\ stop_counts inputs facts st stop = false /\ sf_unresolved_attempt facts = false).
Proof.
  intros Hc Hstop Hsto.
  unfold restore_from_facts. rewrite Hsto, stored_status_to_row by done. simpl.
  eexists. split; [reflexivity|]. simpl.
  assert (Hr : restored_stop inputs (sf_unresolved_attempt facts) (Some st)
    = match si_pair inputs with
      | Invalid _ => Some (StopSignedOut StoredPairInvalid)
      | Loaded _ _ => if stop_counts inputs facts st stop then Some stop
                      else if sf_unresolved_attempt facts then Some (StopSignedOut RefreshOutcomeUnknown) else None
      end).
  { unfold restored_stop, restored_refusal, stop_counts. simpl. rewrite Hstop. destruct (si_pair inputs); [|done]. simpl.
    destruct stop; simpl; destruct (sf_unresolved_attempt facts); simpl; rewrite ?andb_false_r, ?andb_true_r;
      first [done | by case_bool_decide | by destruct (bool_decide _ && _)]. }
  rewrite Hr. unfold pair_is_usable, is_invalid. destruct (si_pair inputs) as [g until|g]; simpl.
  - destruct (stop_counts _ _ _ _); simpl.
    + destruct (clock_is_valid _); simpl; [destruct (is_none_or _ _); simpl|]; rewrite ?status_stop_expired, ?status_stop_stopped;
        destruct stop; naive_solver.
    + destruct (sf_unresolved_attempt facts); simpl.
      * destruct (clock_is_valid _); simpl; [destruct (is_none_or _ _); simpl|]; rewrite ?status_stop_expired, ?status_stop_stopped; naive_solver.
      * split; [done|]. split; [done|]. intros _. by repeat case_match.
  - destruct (clock_is_valid _); simpl; rewrite ?status_stop_expired, ?status_stop_stopped; naive_solver.
Qed.

(** A refusal stands; a sign-in stop whose pair has expired is a sign-out. *)
Definition sign_in_status : AuthStatus :=
  status_stopped (StopSignIn RefreshTokenRejected) 9 SmLegacy true fuse_default false.
Definition later_inputs : StartInputs := MkStartInputs 1800007200 Tesla false (Loaded 9 (Some 1800003600)) (Ok tt) false.
Lemma restart_keeps_stop_witness :
  (exists r, restore_from_facts sample_inputs sample_facts = Ok r /\ status_stop (ra_status r) = Some (StopRefused OwnerApi))
  /\ (exists r, restore_from_facts later_inputs (sample_facts <| sf_stored := Some (to_row sign_in_status) |>) = Ok r
      /\ status_stop (ra_status r) = Some (StopSignedOut RefreshTokenRejected)).
Proof.
  split.
  - destruct (restart_keeps_stop sample_inputs sample_facts refused_status (StopRefused OwnerApi)) as (r & E & K & _); try reflexivity.
    exists r. split; [exact E|]. rewrite K; reflexivity.
  - destruct (restart_keeps_stop later_inputs (sample_facts <| sf_stored := Some (to_row sign_in_status) |>)
      sign_in_status (StopSignIn RefreshTokenRejected)) as (r & E & K & _); try reflexivity.
    exists r. split; [exact E|]. rewrite K; reflexivity.
Defined.

(** ** A second restart *)

Lemma restored_fuse_again stored g o now v st :
  st_fuse st = restored_fuse stored g o now v -> restored_fuse (Some st) g o now v = st_fuse st.
Proof.
  intros H. unfold restored_fuse at 1. simpl. rewrite H.
  unfold restored_fuse. destruct stored as [s|]; simpl; [|done].
  destruct (fs_consecutive (st_fuse s) =? 0) eqn:?; simpl; [done|].
  destruct (_ && _) eqn:E; simpl; [|done]. rewrite Heqb. by rewrite E.
Qed.

Lemma status_stopped_fuse stop g m u f k : st_fuse (status_stopped stop g m u f k) = f.
Proof. by destruct stop. Qed.
Lemma status_stopped_skew stop g m u f k : st_clock_skew (status_stopped stop g m u f k) = k.
Proof. by destruct stop. Qed.
Lemma expired_fuse s : st_fuse (with_sign_in_expired s) = st_fuse s.
Proof. unfold with_sign_in_expired. by repeat case_match. Qed.
Lemma expired_skew s : st_clock_skew (with_sign_in_expired s) = st_clock_skew s.
Proof. unfold with_sign_in_expired. by repeat case_match. Qed.

Lemma restored_status_fuse inputs u o stored :
  st_fuse (restored_status inputs u o stored)
  = restored_fuse stored (pair_generation (si_pair inputs)) o (si_now inputs)
      (clock_is_valid (si_now inputs)).
Proof.
  unfold restored_status. repeat case_match; rewrite ?expired_fuse, ?status_stopped_fuse; done.
Qed.

Lemma restored_status_skew inputs u o stored :
  st_clock_skew (restored_status inputs u o stored) = is_some_and stored st_clock_skew.
Proof.
  unfold restored_status. repeat case_match; rewrite ?expired_skew, ?status_stopped_skew; done.
Qed.

(** The stop a second restart computes is the one the first wrote. *)
Lemma restored_stop_again inputs u o stored :
  restored_stop inputs u (Some (restored_status inputs u o stored))
  = match restored_stop inputs u stored with
    | Some (StopSignIn r as stop) =>
        Some (if clock_is_valid (si_now inputs)
                 && negb (clock_is_valid (si_now inputs)
                          && pair_is_usable (si_pair inputs) (si_now inputs))
              then StopSignedOut r else stop)
    | other => other
    end.
Proof.
  unfold restored_status. destruct (restored_stop inputs u stored) as [stop|] eqn:Hs.
  - set (expired := clock_is_valid _ && negb _).
    unfold restored_stop in *. destruct (si_pair inputs) as [g w|g]; simpl in *; [|by simplify_eq].
    unfold restored_refusal in *.
    destruct stop as [r|r|r], expired; simpl; rewrite ?(bool_decide_eq_true_2 (Some _ = Some _)) by done;
      try done; destruct u; simpl in *; try done;
      destruct stored as [st|]; simpl in *; try done;
      destruct (status_stop st) as [[]|]; simpl in *; repeat case_match; simplify_eq/=; bsimp; try done.
  - unfold restored_stop in *. destruct (si_pair inputs) as [g w|g]; simpl in *; [|done].
    destruct (restored_refusal stored _ _); [done|].
    destruct u; [done|]. by repeat case_match.
Qed.

Lemma restored_status_again inputs u o stored :
  restored_status inputs u o (Some (restored_status inputs u o stored))
  = restored_status inputs u o stored.
Proof.
  set (st := restored_status inputs u o stored).
  assert (st_fuse st = restored_fuse stored (pair_generation (si_pair inputs)) o (si_now inputs)
            (clock_is_valid (si_now inputs))) as Hf by apply restored_status_fuse.
  assert (st_clock_skew st = is_some_and stored st_clock_skew) as Hk by apply restored_status_skew.
  unfold restored_status at 1. unfold st at 1. rewrite restored_stop_again. fold st.
  rewrite (restored_fuse_again _ _ _ _ _ _ Hf). simpl. rewrite Hf, Hk.
  unfold st, restored_status.
  destruct (restored_stop inputs u stored) as [[r|r|r]|]; try done.
  destruct (clock_is_valid (si_now inputs)) eqn:Hv; simpl; [|done].
  by destruct (pair_is_usable _ _).
Qed.

(** Restarting is idempotent: a restart that reads back the row the last
    restart wrote, with nothing else changed, computes exactly the same state,
    so a crash loop neither loosens nor accumulates anything and the second
    start has nothing to write. *)
Theorem restore_idempotent inputs facts r :
  restore_from_facts inputs facts = Ok r ->
  restore_from_facts inputs (facts <| sf_stored := Some (to_row (ra_status r)) |>) = Ok r.
Proof.
  intros H. pose proof H as H'.
  apply restore_from_facts_Ok in H' as (stored & Hs & Hst).
  assert (forall st, stored = Some st -> is_consistent st = true) as Hc by by eapply stored_status_Ok.
  unfold restore_from_facts in *. rewrite Hs in H. simpl in H.
  change (sf_stored (facts <| sf_stored := _ |>)) with (Some (to_row (ra_status r))).
  rewrite stored_status_to_row by (rewrite Hst; by apply restored_status_ok). simpl.
  pose proof (restored_status_again inputs (sf_unresolved_attempt facts)
    (sf_current_is_refresh_output facts) stored) as Ha. rewrite <- Hst in Ha.
  assert (restored_fuse (Some (ra_status r)) (pair_generation (si_pair inputs))
    (sf_current_is_refresh_output facts) (si_now inputs) (clock_is_valid (si_now inputs))
    = restored_fuse stored (pair_generation (si_pair inputs))
    (sf_current_is_refresh_output facts) (si_now inputs) (clock_is_valid (si_now inputs))) as Hf.
  { erewrite restored_fuse_again; rewrite Hst; [|apply restored_status_fuse].
    apply restored_status_fuse. }
  injection H as <-. f_equal. f_equal; [exact Ha|by rewrite Hf].
Qed.

Lemma restore_idempotent_witness :
  exists r, restore_from_facts sample_inputs sample_facts = Ok r /\
    restore_from_facts sample_inputs (sample_facts <| sf_stored := Some (to_row (ra_status r)) |>) = Ok r.
Proof.
  eexists. split; [reflexivity|]. apply (restore_idempotent sample_inputs sample_facts). reflexivity.
Defined.

(** After a restart the first token request waits a full minute from the
    start of the last one: the floor is the first whole second at least 60,000
    ms after the receipt, and never later than a minute from now, even when the
    clock moved backwards since. *)
Theorem restart_floor_spaces_requests now started :
  in_i64 now -> in_i64 (now + 60) -> i64_min <= started <= i64_max - 60999 ->
  let f := restart_floor now (Some started) in
  f <= now + 60 /\
  (started <= now * 1000 -> started + 60000 <= f * 1000 < started + 61000) /\
  (f < now + 60 -> started + 60000 <= f * 1000).
Proof.
  unfold restart_floor, MIN_REFRESH_INTERVAL_SECONDS. intros Hn Hn' Hs. cbv zeta.
  rewrite (i64_sadd_small now 60) by mlia.
  rewrite (i64_sadd_small started (60 * 1000)) by mlia.
  rewrite i64_sadd_small by mlia. clear. dlia.
Qed.

Lemma restart_floor_spaces_requests_witness :
  restart_floor 1800000000 (Some 1799999999500) = 1800000060 /\
  1799999999500 + 60000 <= 1800000060 * 1000 < 1799999999500 + 61000.
Proof.
  split; [reflexivity|].
  apply (restart_floor_spaces_requests 1800000000 1799999999500); vm_compute; intuition discriminate.
Defined.

(** The external-write table of R44a never produces an inconsistent status, and
    lifts exactly the credential stops. *)
Lemma status_after_external_write_ok previous m pair c valid :
  is_consistent (status_after_external_write previous m pair c valid) = true /\
  (is_invalid pair = false -> forall stop, status_stop previous = Some stop ->
     status_stop (status_after_external_write previous m pair c valid)
     = if lifted_by_external_write stop then None else Some stop).
Proof.
  unfold status_after_external_write. destruct pair as [g w|g]; simpl.
  - split.
    + destruct (status_stop previous) as [[]|];
        [| |by apply (status_stopped_consistent (StopRefused _))|];
        destruct valid, c; (by apply status_ready_consistent) || by apply status_idle_consistent.
    + intros _ stop ->. destruct stop; simpl; [| |done]; by destruct valid, c.
  - by split.
Qed.
