(* ===== verification/Schedule.v ===== *)
(** * The refresh schedule and the retry policy

    [src/src/auth/legacy_auth/schedule.rs], whole: arithmetic on epoch seconds
    in [i64], and the one floating-point computation of the unit, the spread of
    a backoff delay. *)
From Stdlib Require Import SpecFloat.
From S2P Require Import Prelude RustStr HttpDate F64 Vocabulary External Endpoint AuthState.
Local Open Scope string_scope.
Local Open Scope Z_scope.

Definition LIFETIME_FALLBACK_SECONDS : Z := 28800.
Definition SCHEDULE_CEILING_SECONDS : Z := 86400.
Definition MIN_STORED_SPAN_SECONDS : Z := 2.
Definition SHORT_LIFETIME_SECONDS : Z := 120.
Definition DUE_GAP_SECONDS : Z := SCHEDULE_CEILING_SECONDS + SKEW_ALLOWANCE_SECONDS.
Definition RETRY_BASE_SECONDS : Z := MIN_REFRESH_INTERVAL_SECONDS.
Definition RETRY_CAP_SECONDS : Z := 300.
Definition RETRY_STEP_LIMIT : Z := 3.
Definition RETRY_SPREAD_PERCENT : Z := 10.
Definition RETRY_AFTER_MIN_SECONDS : Z := 60.
Definition RETRY_AFTER_MAX_SECONDS : Z := 3600.
Definition SLOW_RETRY_SECONDS : Z := 3600.
Definition CLIENT_CHECK_SECONDS : Z := 60.
Definition CLIENT_REFUSAL_LIMIT : Z := 2.

Definition expires_in_seconds (value : json) : option Z :=
  seconds ← match value with
            | JNumber number =>
                unsigned ← number_as_u64 number;
                Some (default i64_max (i64_try_from unsigned))
            | JString text =>
                if str_is_empty text || negb (str_all is_ascii_digit text) then None
                else Some (default i64_max (parse_i64 text))
            | _ => None
            end;
  then_some (seconds >=? 1) seconds.

Definition lifetime_seconds (expires_in : option json) (jwt_exp : option Z) (t_s : Z) : Z :=
  match expires_in ≫= expires_in_seconds with
  | Some seconds => seconds
  | None =>
      match jwt_exp with
      | Some exp => i64_ssub (i64_ssub exp SKEW_ALLOWANCE_SECONDS) t_s
      | None => LIFETIME_FALLBACK_SECONDS
      end
  end.

Record Schedule := MkSchedule {
  usable_until : Z;
  expires_at : Z;
  next_refresh_at : Z;
}.

Definition after_send `{External} (t_s : Z) (expires_in : option json) (access_token : string)
    : Schedule :=
  let jwt_exp := parse_jwt access_token ≫= exp in
  let lifetime := Z.min (lifetime_seconds expires_in jwt_exp t_s) SCHEDULE_CEILING_SECONDS in
  let usable := i64_sadd t_s lifetime in
  let usable := match jwt_exp with
                | Some exp => Z.min usable (i64_ssub exp SKEW_ALLOWANCE_SECONDS)
                | None => usable
                end in
  let expires := Z.max usable (i64_sadd t_s MIN_STORED_SPAN_SECONDS) in
  let lead := Z.max (Z.quot (i64_sub expires t_s) 4) 1 in
  MkSchedule usable expires (i64_sub expires lead).

Definition is_short (s : Schedule) (t_s : Z) : bool :=
  i64_ssub (usable_until s) t_s <? SHORT_LIFETIME_SECONDS.

Definition refreshed_form_due (expires_at next_refresh_at now : Z) : bool :=
  (now >=? next_refresh_at) || (expires_at >? i64_sadd now DUE_GAP_SECONDS).

Inductive RetryPlan :=
| Backoff
| RetryAfter (seconds : Z)
| Slow
| ClientCheckPlan.
#[export] Instance RetryPlan_eq_dec : EqDecision RetryPlan.
Proof. solve_decision. Defined.

Definition retry_delay (plan : RetryPlan) (step : Z) (spread_unit : f64) : Z * Z :=
  match plan with
  | Backoff =>
      let step := Z.min step RETRY_STEP_LIMIT in
      let base := Z.min (Z.shiftl RETRY_BASE_SECONDS step) RETRY_CAP_SECONDS in
      let unit := if f64_is_finite spread_unit then f64_clamp spread_unit f64_zero f64_one
                  else f64_zero in
      let spread :=
        f64_as_i64 (f64_mul (f64_div (f64_mul (f64_of_Z base) (f64_of_Z RETRY_SPREAD_PERCENT))
                               (f64_of_Z 100)) unit) in
      (i64_add base spread, Z.min (u8_sadd step 1) RETRY_STEP_LIMIT)
  | RetryAfter seconds =>
      (clamp RETRY_AFTER_MIN_SECONDS RETRY_AFTER_MAX_SECONDS seconds,
       Z.min (u8_sadd step 1) RETRY_STEP_LIMIT)
  | Slow => (SLOW_RETRY_SECONDS, step)
  | ClientCheckPlan => (CLIENT_CHECK_SECONDS, step)
  end.

(** [header] is [headers.get("retry-after")?.to_str().ok()]: text of visible
    ASCII and tabs, on which [str::trim] removes ASCII white space. *)
Definition retry_after_seconds (header : option string) (now : Z) : option Z :=
  value ← trim_ascii <$> header;
  if negb (str_is_empty value) && str_all is_ascii_digit value
  then Some (default i64_max (parse_i64 value))
  else (fun date => i64_ssub date now) <$> parse_http_date value.

Definition plan_for_reason (reason : RetryReason) : RetryPlan :=
  match reason with
  | RefreshRequestRejected | TokenEndpointMisrouted => Slow
  | ClientCheck => ClientCheckPlan
  | Network | SensitiveAccess | TeslaUnavailable | RefreshBlocked | ShortTokenLifetime
  | ClockSkew | RefreshNotRenewed | StoreUnavailable => Backoff
  end.

(** ** The schedule *)

Lemma expires_in_seconds_pos v n : expires_in_seconds v = Some n -> 1 <= n.
Proof.
  unfold expires_in_seconds, then_some. intros (s & _ & H)%bind_Some.
  rewrite Z.geb_leb in H. case_match; simplify_eq. by bsimp.
Qed.

(** The schedule stored after a refresh is sound for every send time,
    lifetime and token: the refresh comes strictly after the request and
    strictly before the stored expiry, no stored time is more than a day ahead,
    the token is never considered usable past its own [exp] less the skew
    allowance, no [i64] operation overflows, and the pair is not due at once. *)
Theorem after_send_sound `{External} t_s expires_in token :
  0 < t_s <= i64_max - DUE_GAP_SECONDS ->
  let s := after_send t_s expires_in token in
  t_s < next_refresh_at s < expires_at s /\ expires_at s <= t_s + SCHEDULE_CEILING_SECONDS /\
  usable_until s <= expires_at s /\
  (forall e, parse_jwt token ≫= exp = Some e -> usable_until s <= e - SKEW_ALLOWANCE_SECONDS) /\
  refreshed_form_due (expires_at s) (next_refresh_at s) t_s = false /\
  4 * (expires_at s - next_refresh_at s) <= Z.max 4 (expires_at s - t_s).
Proof.
  intros Ht s.
  assert (forall e, parse_jwt token ≫= exp = Some e -> 0 <= e <= MAX_EXP_SECONDS) as Hexp.
  { intros e (c & Hc & He)%bind_Some. by eapply parse_jwt_exp_range. }
  unfold DUE_GAP_SECONDS, SCHEDULE_CEILING_SECONDS, SKEW_ALLOWANCE_SECONDS, MAX_EXP_SECONDS in *.
  set (u := usable_until s).
  assert (u <= t_s + 86400 /\ forall e, parse_jwt token ≫= exp = Some e -> u <= e - 300) as [Hu1 Hu2].
  { unfold u, s, after_send. cbn [usable_until].
    unfold SCHEDULE_CEILING_SECONDS, SKEW_ALLOWANCE_SECONDS.
    destruct (parse_jwt token ≫= exp) as [e|].
    - pose proof (Hexp e eq_refl). split; [|intros ? [= <-]]; mlia.
    - split; [mlia|done]. }
  assert (Hx : expires_at s = Z.max u (t_s + 2)).
  { unfold s, after_send. cbn [expires_at]. f_equal.
    unfold MIN_STORED_SPAN_SECONDS. mlia. }
  assert (Hn : next_refresh_at s = Z.max u (t_s + 2) - Z.max (Z.quot (Z.max u (t_s + 2) - t_s) 4) 1).
  { change (next_refresh_at s)
      with (i64_sub (expires_at s) (Z.max (Z.quot (i64_sub (expires_at s) t_s) 4) 1)).
    rewrite Hx. unfold i64_sub. rewrite (i64_wrap_small (_ - t_s)) by mlia.
    rewrite i64_wrap_small; [done|]. rewrite Z.quot_div_nonneg by lia. munfold. clear Hu2 Hexp. dlia. }
  unfold refreshed_form_due, DUE_GAP_SECONDS, SCHEDULE_CEILING_SECONDS, SKEW_ALLOWANCE_SECONDS.
  rewrite i64_sadd_small by mlia. rewrite Z.geb_leb, Z.gtb_ltb, orb_false_iff, Z.leb_gt, Z.ltb_ge.
  rewrite Z.quot_div_nonneg in Hn by lia.
  clearbody u. clear Hexp. rewrite Hx, Hn. split_and!; try done; clear Hu2 Hx Hn; dlia.
Qed.

Lemma after_send_sound_witness :
  let s := after_send (H := Sample.external) 1700000000 (Some (JNumber (PosInt 28800))) "opaque" in
  s = MkSchedule 1700028800 1700028800 1700021600 /\ 1700000000 < next_refresh_at s < expires_at s.
Proof.
  split; [reflexivity|].
  apply (after_send_sound (H := Sample.external) 1700000000 (Some (JNumber (PosInt 28800))) "opaque").
  vm_compute. intuition discriminate.
Defined.

(** ** The retry policy *)

(** The four backoff bases and the float their spread is a share of. *)
Definition backoff_base (step : Z) : Z :=
  Z.min (Z.shiftl RETRY_BASE_SECONDS (Z.min step RETRY_STEP_LIMIT)) RETRY_CAP_SECONDS.
Definition spread_cap (base : Z) : f64 :=
  f64_div (f64_mul (f64_of_Z base) (f64_of_Z RETRY_SPREAD_PERCENT)) (f64_of_Z 100).

Lemma backoff_base_cases step : 0 <= step ->
  backoff_base step = 60 \/ backoff_base step = 120 \/ backoff_base step = 240 \/ backoff_base step = 300.
Proof.
  intros H. unfold backoff_base, RETRY_STEP_LIMIT.
  assert (Z.min step 3 = 0 \/ Z.min step 3 = 1 \/ Z.min step 3 = 2 \/ Z.min step 3 = 3)
    as [-> | [-> | [-> | ->]]] by lia; vm_compute; tauto.
Qed.

(** A finite positive float of modest size times a unit, truncated. *)
Lemma f64_unit_share x u k :
  match x with
  | S754_finite false m e => f64_valid x && (sc (Z.pos m) e <=? 2 ^ 3971) && (int_part m e =? k)
  | _ => false
  end = true ->
  0 <= k <= i64_max -> f64_within u (2 ^ 3000) -> 0 <= f64_as_i64 (f64_mul x u) <= k.
Proof.
  destruct x as [| | |[] m e]; try done. intros Hx Hk Hu. bsimp. subst k.
  apply f64_mul_unit_int; [by eapply f64_valid_canonical|done|done|done|lia].
Qed.

Lemma backoff_spread base u :
  base = 60 \/ base = 120 \/ base = 240 \/ base = 300 ->
  f64_within u (2 ^ 3000) -> 0 <= f64_as_i64 (f64_mul (spread_cap base) u) <= base / 10.
Proof.
  intros Hb Hu. apply f64_unit_share; [|destruct Hb as [->|[->|[->| ->]]]; vm_compute; split; discriminate|done].
  destruct Hb as [->|[->|[->| ->]]]; vm_compute; reflexivity.
Qed.

Lemma spread_unit_within u : f64_valid u = true ->
  f64_within (if f64_is_finite u then f64_clamp u f64_zero f64_one else f64_zero) (2 ^ 3000).
Proof.
  intros Hv. destruct (f64_is_finite u) eqn:E.
  - apply f64_clamp_unit; [done|]. by destruct u.
  - split; [done|]. split; [|left; by exists false].
    change (f64_sc f64_zero) with 0. apply Z.pow_nonneg. lia.
Qed.

Lemma retry_delay_backoff step u :
  retry_delay Backoff step u
  = (i64_add (backoff_base step) (f64_as_i64 (f64_mul (spread_cap (backoff_base step))
       (if f64_is_finite u then f64_clamp u f64_zero f64_one else f64_zero))),
     Z.min (u8_sadd (Z.min step RETRY_STEP_LIMIT) 1) RETRY_STEP_LIMIT).
Proof. reflexivity. Qed.

Lemma retry_delay_spec plan step u delay step' :
  0 <= step <= RETRY_STEP_LIMIT -> f64_valid u = true -> retry_delay plan step u = (delay, step') ->
  60 <= delay <= 3600 /\ step <= step' <= RETRY_STEP_LIMIT /\
  (plan = Backoff ->
     backoff_base step <= delay <= backoff_base step + backoff_base step / 10 /\ delay <= 330 /\
     step' = Z.min (step + 1) RETRY_STEP_LIMIT).
Proof.
  unfold RETRY_STEP_LIMIT at 1. intros Hs Hu.
  destruct plan as [|seconds| |]; [rewrite retry_delay_backoff|..]; cbn [retry_delay]; intros [= <- <-];
    unfold RETRY_STEP_LIMIT in *.
  - pose proof (backoff_base_cases step ltac:(lia)) as Hb.
    pose proof (backoff_spread _ _ Hb (spread_unit_within u Hu)) as Hsp.
    revert Hsp. generalize (f64_as_i64 (f64_mul (spread_cap (backoff_base step))
      (if f64_is_finite u then f64_clamp u f64_zero f64_one else f64_zero))).
    intros spread Hsp. unfold i64_add.
    assert (backoff_base step / 10 <= 30 /\ 0 <= spread <= 30)
      by (destruct Hb as [E|[E|[E|E]]]; rewrite E in *; vm_compute (_ / 10) in *; lia).
    rewrite i64_wrap_small by mlia. split_and!; mlia.
  - unfold RETRY_AFTER_MIN_SECONDS, RETRY_AFTER_MAX_SECONDS. split_and!; done || mlia.
  - unfold SLOW_RETRY_SECONDS. split_and!; done || mlia.
  - unfold CLIENT_CHECK_SECONDS. split_and!; done || mlia.
Qed.

(** Whatever step has been reached and whatever the random source returns
    (any double, NaN and infinities included), the next token attempt waits
    between a minute and an hour; a backoff waits its base of 60, 120, 240 or 300
    seconds plus at most a tenth, and the step never leaves 0 to 3. *)
Theorem retry_delay_bounded plan step u delay step' :
  0 <= step <= RETRY_STEP_LIMIT -> f64_valid u = true -> retry_delay plan step u = (delay, step') ->
  60 <= delay <= 3600 /\ step <= step' <= RETRY_STEP_LIMIT /\
  (plan = Backoff ->
     backoff_base step <= delay <= backoff_base step + backoff_base step / 10 /\ delay <= 330 /\
     step' = Z.min (step + 1) RETRY_STEP_LIMIT).
Proof. apply retry_delay_spec. Qed.

Lemma retry_delay_bounded_witness :
  retry_delay Backoff 1 f64_one = (132, 2) /\ 60 <= 132 <= 3600.
Proof.
  split; [vm_compute; reflexivity|].
  apply (retry_delay_bounded Backoff 1 f64_one 132 2);
    [vm_compute; intuition discriminate | vm_compute; reflexivity | vm_compute; reflexivity].
Defined.

(** [Retry-After] with delay-seconds: the value, the largest [i64] above it. *)
Lemma retry_after_seconds_digits text now v :
  str_all is_ascii_digit text = true -> digits_value text = Some v ->
  retry_after_seconds (Some text) now = Some (Z.min v i64_max).
Proof.
  intros Ht Hv. unfold retry_after_seconds. simpl.
  assert (trim_ascii text = text) as ->.
  { apply trim_matches_fix. clear Hv. induction text as [|c t IH]; [done|]. simpl in *.
    apply andb_true_iff in Ht as [Hc Ht]. rewrite IH by done. rewrite andb_true_r.
    revert Hc. unfold is_ascii_digit, is_ascii_white_space. intros Hc. bsimp. 
    apply negb_true_iff. lia. }
  rewrite Ht. assert (str_is_empty text = false) as -> by by destruct text. cbn [negb andb].
  unfold parse_i64. rewrite parse_int_digits, Hv by done. cbn [mbind option_bind].
  destruct (v <=? i64_max) eqn:E; simpl; bsimp; f_equal; lia.
Qed.
