(* ===== verification/Rejection.v ===== *)
(** * The rejection fuse

    [src/src/auth/legacy_auth/rejection.rs], whole: which 401s count as evidence
    against the account (R40, R41), the pause, the confirmation reads and their
    spacing (R41a), and the marks of cars.  [OwnerApiError] and the state the
    collector's send counter changes are parameters. *)
From S2P Require Import Prelude Vocabulary AuthState.
Local Open Scope Z_scope.

Definition REJECTION_PAUSE_SECONDS : Z := 300.
Definition CONFIRMATION_SPACING_SECONDS : Z := 60.
Definition MAX_CONFIRMATION_ERRORS : nat := 8.

Definition VehicleId : Type := Z.

Inductive RequestScope :=
| ScAccount
| ScVehicle (v : VehicleId)
| ScAction (v : VehicleId).
#[export] Instance RequestScope_eq_dec : EqDecision RequestScope.
Proof. solve_decision. Defined.

Definition scope_vehicle (s : RequestScope) : option VehicleId :=
  match s with ScAccount => None | ScVehicle v | ScAction v => Some v end.

Inductive HolderKind := Managed | Observer | AccessTokenOnly.
#[export] Instance HolderKind_eq_dec : EqDecision HolderKind.
Proof. solve_decision. Defined.

Record RejectionContext := MkRejectionContext {
  rc_scope : RequestScope;
  rc_generation : Uuid;
  rc_current : Uuid;
  rc_token_usable : bool;
  rc_remedy_pending : bool;
  rc_refresh_possible : bool;
  rc_holder : HolderKind;
  rc_access_digest : Uuid;
  rc_sign_in : option SignOutReason;
}.

Inductive RejectionAction :=
| RetryWithCurrent
| NotCounted
| Coalesced
| VehicleRejected (v : VehicleId)
| Confirm
| ForceRefreshThenRetry
| PauseThenRefresh (until : Z)
| PauseThenConfirm (until : Z)
| Stop (r : SignOutReason)
| ObserverWait.

Record ConfirmationState := MkConfirmationState {
  last_started_at : option Z;
  in_flight : bool;
}.
#[export] Instance eta_ConfirmationState : Eta ConfirmationState := fun c =>
  MkConfirmationState (last_started_at c) (in_flight c).

Section Fuse.
Context {OwnerApiError World : Type}.

Record LegacyAuthFuse := MkFuse {
  rejected_generation : option Uuid;
  consecutive : Z;
  last_rejection_at : option Z;
  pause_until : option Z;
  rejected_access : option Uuid;
  vehicle_rejected : gmap VehicleId Uuid;
  stream_cleared_generation : option Uuid;
  confirmation : ConfirmationState;
  blown : bool;
  last_account_generation : option Uuid;
  confirmations_unreported : Z;
  confirmation_errors : list OwnerApiError;
  send_counter : option (World -> World);
  sends : Z;
}.
#[global] Instance eta_Fuse : Eta LegacyAuthFuse := fun f =>
  MkFuse (rejected_generation f) (consecutive f) (last_rejection_at f) (pause_until f)
    (rejected_access f) (vehicle_rejected f) (stream_cleared_generation f) (confirmation f) (blown f)
    (last_account_generation f) (confirmations_unreported f) (confirmation_errors f)
    (send_counter f) (sends f).

(** [LegacyAuthFuse::default()]. *)
Definition fuse_new : LegacyAuthFuse :=
  MkFuse None 0 None None None ∅ None (MkConfirmationState None false) false None 0 [] None 0.

Definition from_snapshot (s : FuseSnapshot) : LegacyAuthFuse :=
  fuse_new <| rejected_generation := fs_generation s |>
    <| consecutive := Z.min (fs_consecutive s) FUSE_LIMIT |>
    <| last_rejection_at := fs_last_rejection_at s |>
    <| pause_until := fs_pause_until s |>
    <| rejected_access := fs_rejected_access s |>.

Definition snapshot (f : LegacyAuthFuse) : FuseSnapshot :=
  MkFuseSnapshot (consecutive f) (rejected_generation f) (last_rejection_at f) (pause_until f)
    (rejected_access f).

Definition is_blown (f : LegacyAuthFuse) : bool := blown f.
Definition note_stop (f : LegacyAuthFuse) (stopped : bool) : LegacyAuthFuse := f <| blown := stopped |>.
Definition clear_pause (f : LegacyAuthFuse) : LegacyAuthFuse := f <| pause_until := None |>.

Definition reset (f : LegacyAuthFuse) : LegacyAuthFuse :=
  f <| rejected_generation := None |>
    <| consecutive := 0 |>
    <| last_rejection_at := None |>
    <| pause_until := None |>
    <| rejected_access := None |>
    <| vehicle_rejected := ∅ |>
    <| stream_cleared_generation := None |>
    <| blown := false |>.

Definition record_success (f : LegacyAuthFuse) (_generation : Uuid) (scope : RequestScope)
    : LegacyAuthFuse :=
  let f := f <| rejected_generation := None |>
             <| consecutive := 0 |>
             <| last_rejection_at := None |>
             <| pause_until := None |>
             <| rejected_access := None |> in
  match scope_vehicle scope with
  | Some vehicle => f <| vehicle_rejected := delete vehicle (vehicle_rejected f) |>
  | None => f
  end.

Definition is_stop (a : RejectionAction) : bool := match a with Stop _ => true | _ => false end.

Definition count_rejection (f : LegacyAuthFuse) (now : Z) (ctx : RejectionContext)
    : RejectionAction * LegacyAuthFuse :=
  let f := if is_some_and (last_rejection_at f) (fun at_ => negb (rejection_window_open at_ now))
           then f <| consecutive := 0 |> else f in
  let f := f <| consecutive := Z.min (u8_sadd (consecutive f) 1) FUSE_LIMIT |>
             <| rejected_generation := Some (rc_generation ctx) |>
             <| last_rejection_at := Some now |> in
  let pause := i64_sadd now REJECTION_PAUSE_SECONDS in
  let '(action, f) :=
    match rc_holder ctx with
    | Observer => (ObserverWait, f)
    | AccessTokenOnly =>
        if consecutive f =? 1 then (PauseThenConfirm pause, f <| pause_until := Some pause |>)
        else (Stop ProviderTokenRejected, f)
    | Managed =>
        match rc_sign_in ctx with
        | Some reason => (Stop reason, f)
        | None =>
            if consecutive f =? 1 then (ForceRefreshThenRetry, f)
            else if consecutive f =? 2 then (PauseThenRefresh pause, f <| pause_until := Some pause |>)
            else (Stop AccessTokenRejected, f)
        end
    end in
  if is_stop action then (action, f <| rejected_access := None |> <| blown := true |>)
  else (action, f <| rejected_access := Some (rc_access_digest ctx) |>).

(** Steps 4 to 6 of R40. *)
Definition vehicle_steps (f : LegacyAuthFuse) (now : Z) (ctx : RejectionContext)
    : RejectionAction * LegacyAuthFuse :=
  match scope_vehicle (rc_scope ctx) with
  | Some vehicle =>
      if bool_decide (vehicle_rejected f !! vehicle = Some (rc_generation ctx))
      then (VehicleRejected vehicle, f)
      else (Confirm, f)
  | None => count_rejection f now ctx
  end.

Definition record_rejection (f : LegacyAuthFuse) (now : Z) (ctx : RejectionContext)
    : RejectionAction * LegacyAuthFuse :=
  if negb (rc_generation ctx =? rc_current ctx) then (RetryWithCurrent, f)
  else if negb (rc_token_usable ctx) || rc_remedy_pending ctx then (NotCounted, f)
  else if bool_decide (rejected_generation f = Some (rc_generation ctx))
          && is_some_and (last_rejection_at f) (fun at_ => rejection_window_open at_ now)
  then
    let pause_over := bool_decide (rc_holder ctx = AccessTokenOnly)
                      && is_some_and (pause_until f) (fun until => until <=? now) in
    if negb pause_over then (Coalesced, f)
    else if bool_decide (rc_scope ctx = ScAccount)
    then (Stop ProviderTokenRejected, f <| blown := true |>)
    else vehicle_steps f now ctx
  else vehicle_steps f now ctx.

Definition begin_confirmation (f : LegacyAuthFuse) (now : Z) : result Z unit * LegacyAuthFuse :=
  let start :=
    (Ok tt,
     f <| confirmation := MkConfirmationState (Some now) true |>
       <| confirmations_unreported := u32_sadd (confirmations_unreported f) 1 |>) in
  match last_started_at (confirmation f) with
  | Some started =>
      let next := i64_sadd started CONFIRMATION_SPACING_SECONDS in
      if in_flight (confirmation f) || (now <? next) then (Err next, f) else start
  | None => start
  end.

Definition confirmation_retry_at (f : LegacyAuthFuse) : option Z :=
  (fun started => i64_sadd started CONFIRMATION_SPACING_SECONDS) <$> last_started_at (confirmation f).

Definition finish_confirmation (f : LegacyAuthFuse) : LegacyAuthFuse :=
  f <| confirmation := (confirmation f) <| in_flight := false |> |>.

Definition mark_vehicle_rejected (f : LegacyAuthFuse) (v : VehicleId) (g : Uuid) : LegacyAuthFuse :=
  f <| vehicle_rejected := <[v := g]> (vehicle_rejected f) |>.
Definition note_stream_cleared (f : LegacyAuthFuse) (g : Uuid) : LegacyAuthFuse :=
  f <| stream_cleared_generation := Some g |>.
Definition stream_cleared (f : LegacyAuthFuse) (g : Uuid) : bool :=
  bool_decide (stream_cleared_generation f = Some g).
Definition note_account_generation (f : LegacyAuthFuse) (g : Uuid) : LegacyAuthFuse :=
  f <| last_account_generation := Some g |>.
Definition take_confirmation_count (f : LegacyAuthFuse) : Z * LegacyAuthFuse :=
  (confirmations_unreported f, f <| confirmations_unreported := 0 |>).
Definition arm_send_counter (f : LegacyAuthFuse) (counter : World -> World) : LegacyAuthFuse :=
  f <| send_counter := Some counter |> <| sends := 0 |>.
Definition disarm_send_counter (f : LegacyAuthFuse) : Z * LegacyAuthFuse :=
  (sends f, f <| send_counter := None |> <| sends := 0 |>).
Definition note_send (f : LegacyAuthFuse) (w : World) : LegacyAuthFuse * World :=
  let f := f <| sends := u32_sadd (sends f) 1 |> in
  match send_counter f with
  | Some counter => (f, counter w)
  | None => (f, w)
  end.
Definition note_confirmation_error (f : LegacyAuthFuse) (e : OwnerApiError) : LegacyAuthFuse :=
  if bool_decide (length (confirmation_errors f) < MAX_CONFIRMATION_ERRORS)%nat
  then f <| confirmation_errors := confirmation_errors f ++ [e] |> else f.
Definition take_confirmation_errors (f : LegacyAuthFuse) : list OwnerApiError * LegacyAuthFuse :=
  (confirmation_errors f, f <| confirmation_errors := [] |>).

(** ** The fuse as a machine

    [Quiet] steps change neither the count nor the confirmation times;
    [Rejected] is a 401 the fuse judged, at [now]; [Confirmed] is a confirmation
    read started at [now] whose own 401, at [later], counts. *)
Inductive event := Quiet | Succeeded | Rejected (now : Z) (ctx : RejectionContext)
| Confirmed (now later : Z) (ctx : RejectionContext).

Inductive fuse_step : LegacyAuthFuse -> event -> LegacyAuthFuse -> Prop :=
| fs_success f g s : fuse_step f Succeeded (record_success f g s)
| fs_reset f : fuse_step f Succeeded (reset f)
| fs_finish f : fuse_step f Quiet (finish_confirmation f)
| fs_note_stop f b : fuse_step f Quiet (note_stop f b)
| fs_clear_pause f : fuse_step f Quiet (clear_pause f)
| fs_mark f v g : fuse_step f Quiet (mark_vehicle_rejected f v g)
| fs_stream f g : fuse_step f Quiet (note_stream_cleared f g)
| fs_account f g : fuse_step f Quiet (note_account_generation f g)
| fs_take_count f : fuse_step f Quiet (take_confirmation_count f).2
| fs_arm f c : fuse_step f Quiet (arm_send_counter f c)
| fs_disarm f : fuse_step f Quiet (disarm_send_counter f).2
| fs_send f w : fuse_step f Quiet (note_send f w).1
| fs_error f e : fuse_step f Quiet (note_confirmation_error f e)
| fs_take_errors f : fuse_step f Quiet (take_confirmation_errors f).2
| fs_rejected f now ctx a f' :
    record_rejection f now ctx = (a, f') -> fuse_step f (Rejected now ctx) f'
| fs_confirm_inconclusive f now ctx f1 f2 :
    in_i64 now -> record_rejection f now ctx = (Confirm, f1) -> begin_confirmation f1 now = (Ok tt, f2) ->
    fuse_step f Quiet (finish_confirmation f2)
| fs_confirmed f now later ctx f1 f2 a f' :
    in_i64 now -> record_rejection f now ctx = (Confirm, f1) -> begin_confirmation f1 now = (Ok tt, f2) ->
    now <= later -> count_rejection (finish_confirmation f2) later ctx = (a, f') ->
    fuse_step f (Confirmed now later ctx) f'.

(** A run, its events newest first. *)
Inductive fuse_run (f0 : LegacyAuthFuse) : list event -> LegacyAuthFuse -> Prop :=
| run_nil : fuse_run f0 [] f0
| run_step es f e f' : fuse_run f0 es f -> fuse_step f e f' -> fuse_run f0 (e :: es) f'.

(** The rejections of a run the fuse was shown, newest first: when, and which
    generation. *)
Definition rejections (es : list event) : list (Z * Uuid) :=
  omap (fun e => match e with
                 | Rejected now ctx => Some (now, rc_generation ctx)
                 | Confirmed _ later ctx => Some (later, rc_generation ctx)
                 | _ => None
                 end) es.

(** A step whose answer is the stop [r]. *)
Inductive stops (f : LegacyAuthFuse) : event -> SignOutReason -> Prop :=
| stops_rejected now ctx r f' :
    record_rejection f now ctx = (Stop r, f') -> stops f (Rejected now ctx) r
| stops_confirmed now later ctx f1 f2 r f' :
    record_rejection f now ctx = (Confirm, f1) -> begin_confirmation f1 now = (Ok tt, f2) ->
    now <= later -> count_rejection (finish_confirmation f2) later ctx = (Stop r, f') ->
    stops f (Confirmed now later ctx) r.

(** ** Well-formedness *)

(** The columns agree, and a counted rejection has its time. *)
Record fuse_wf (f : LegacyAuthFuse) : Prop := {
  wf_range : 0 <= consecutive f <= FUSE_LIMIT;
  wf_generation : consecutive f = 0 <-> rejected_generation f = None;
  wf_access : is_Some (rejected_access f) -> 0 < consecutive f;
  wf_time : 0 < consecutive f -> is_Some (last_rejection_at f);
}.

Lemma fuse_wf_consistent f : fuse_wf f -> fuse_is_consistent (snapshot f) = true.
Proof.
  intros [Hr Hg Ha _]. unfold fuse_is_consistent, is_none. simpl. rewrite Z.gtb_ltb.
  replace (consecutive f =? 0) with (negb (is_some (rejected_generation f))).
  2:{ symmetry. destruct (rejected_generation f); simpl; [apply Z.eqb_neq|apply Z.eqb_eq]; naive_solver. }
  rewrite Bool.eqb_reflx, andb_true_r. apply andb_true_intro. split; [apply Z.leb_le; lia|].
  destruct (rejected_access f); simpl; [|done]. apply Z.ltb_lt. eauto.
Qed.

Lemma count_rejection_facts f now ctx a f' :
  count_rejection f now ctx = (a, f') -> 0 <= consecutive f <= FUSE_LIMIT ->
  rejected_generation f' = Some (rc_generation ctx) /\ last_rejection_at f' = Some now /\
  confirmation f' = confirmation f /\
  consecutive f' =
    Z.min FUSE_LIMIT (if is_some_and (last_rejection_at f) (fun t => negb (rejection_window_open t now))
                      then 1 else consecutive f + 1).
Proof.
  unfold count_rejection, FUSE_LIMIT. intros H Hc.
  destruct (is_some_and (last_rejection_at f) _), (rc_holder ctx);
    repeat (case_match; simplify_eq/=); split_and!; try done; mlia.
Qed.

Lemma count_rejection_wf f now ctx a f' :
  count_rejection f now ctx = (a, f') -> fuse_wf f -> fuse_wf f'.
Proof.
  intros H Hw. pose proof (wf_range _ Hw) as Hr.
  destruct (count_rejection_facts _ _ _ _ _ H Hr) as (Hg & Ht & _ & Hc). unfold FUSE_LIMIT in *.
  assert (1 <= consecutive f' <= 3) by (case_match; lia).
  split; unfold FUSE_LIMIT; try lia; [rewrite Hg; naive_solver lia|rewrite Ht; eauto].
Qed.

Lemma vehicle_steps_wf f now ctx a f' :
  vehicle_steps f now ctx = (a, f') -> fuse_wf f -> fuse_wf f'.
Proof. unfold vehicle_steps. intros. repeat case_match; simplify_eq; eauto using count_rejection_wf. Qed.

Lemma record_rejection_wf f now ctx a f' :
  record_rejection f now ctx = (a, f') -> fuse_wf f -> fuse_wf f'.
Proof.
  unfold record_rejection. intros H Hw. repeat case_match; simplify_eq; eauto using vehicle_steps_wf.
  by destruct Hw.
Qed.

Lemma begin_confirmation_wf f now r f' :
  begin_confirmation f now = (r, f') -> fuse_wf f -> fuse_wf f'.
Proof. unfold begin_confirmation. intros H []. repeat case_match; simplify_eq; by split. Qed.

Lemma fuse_step_wf f e f' : fuse_step f e f' -> fuse_wf f -> fuse_wf f'.
Proof.
  destruct 1; intros Hw; eauto using record_rejection_wf.
  all: try (destruct Hw; by split).
  - unfold record_success. destruct (scope_vehicle s); split; simpl; unfold FUSE_LIMIT; naive_solver lia.
  - split; simpl; unfold FUSE_LIMIT; naive_solver lia.
  - unfold note_send. simpl. destruct (send_counter f); destruct Hw; by split.
  - unfold note_confirmation_error. case_bool_decide; [|done]. destruct Hw; by split.
  - assert (fuse_wf f2) as [] by eauto using begin_confirmation_wf, record_rejection_wf. by split.
  - eapply count_rejection_wf; [done|].
    assert (fuse_wf f2) as [] by eauto using begin_confirmation_wf, record_rejection_wf. by split.
Qed.

Lemma fuse_new_wf : fuse_wf fuse_new.
Proof. split; simpl; unfold FUSE_LIMIT; naive_solver lia. Qed.

Lemma from_snapshot_wf s :
  fuse_is_consistent s = true -> 0 <= fs_consecutive s ->
  (0 < fs_consecutive s -> is_Some (fs_last_rejection_at s)) -> fuse_wf (from_snapshot s).
Proof.
  unfold fuse_is_consistent, is_none. rewrite Z.gtb_ltb. intros H Hn Ht. bsimp.
  destruct (fs_generation s) eqn:Eg, (fs_consecutive s =? 0) eqn:E0; simpl in *; try done; bsimp;
  (split; simpl; unfold FUSE_LIMIT in *; rewrite ?Eg; try naive_solver lia);
  intros [? Ha]; rewrite Ha in *; simpl in *; bsimp; lia.
Qed.

Lemma fuse_run_wf f0 es f : fuse_run f0 es f -> fuse_wf f0 -> fuse_wf f.
Proof. induction 1; eauto using fuse_step_wf. Qed.

(** In every state the fuse reaches from a consistent stored row, its
    durable columns satisfy the table's CHECKs, so the status that carries them
    can always be written, and a restart rebuilds exactly those columns. *)
Theorem fuse_columns_always_storable s es f :
  fuse_is_consistent s = true -> 0 <= fs_consecutive s ->
  (0 < fs_consecutive s -> is_Some (fs_last_rejection_at s)) ->
  fuse_run (from_snapshot s) es f ->
  fuse_is_consistent (snapshot f) = true /\ snapshot (from_snapshot (snapshot f)) = snapshot f.
Proof.
  intros Hc Hn Ht Hrun. apply fuse_run_wf in Hrun; [|by apply from_snapshot_wf].
  split; [by apply fuse_wf_consistent|]. destruct Hrun as [? _ _ _].
  unfold snapshot, from_snapshot. simpl. f_equal. lia.
Qed.

(** ** Evidence *)

Definition managed (ctx : RejectionContext) : Prop := rc_holder ctx = Managed /\ rc_sign_in ctx = None.
Definition managed_event (e : event) : Prop :=
  match e with Rejected _ ctx | Confirmed _ _ ctx => managed ctx | _ => True end.

(** Rejections of different generations in a row, each inside the fuse window of
    the one before (newest first). *)
Fixpoint chained (ev : list (Z * Uuid)) : Prop :=
  match ev with
  | x :: ((y :: _) as ev') => x.2 <> y.2 /\ rejection_window_open y.1 x.1 = true /\ chained ev'
  | _ => True
  end.

(** What the count stands for: that many rejections the fuse was shown. *)
Definition evidence (es : list event) (f : LegacyAuthFuse) : Prop :=
  0 < consecutive f ->
  exists t g ev, sublist ((t, g) :: ev) (rejections es) /\ chained ((t, g) :: ev) /\
    last_rejection_at f = Some t /\ rejected_generation f = Some g /\
    consecutive f <= Z.of_nat (length ev) + 1.

Lemma window_closed_later t now later :
  now <= later -> rejection_window_open t now = false -> rejection_window_open t later = false.
Proof. unfold rejection_window_open, FUSE_WINDOW_SECONDS. rewrite !Z.leb_gt. mlia. Qed.

(** A 401 of a managed unit that is not coalesced carries a new generation, or
    comes after the window closed. *)
Lemma not_coalesced f now ctx a f' :
  record_rejection f now ctx = (a, f') -> managed ctx ->
  (a = Confirm \/ a <> Coalesced /\ count_rejection f now ctx = (a, f')) ->
  forall t, last_rejection_at f = Some t -> rejected_generation f = Some (rc_generation ctx) ->
  rejection_window_open t now = false.
Proof.
  intros H [Hm _] Ha t Ht Hg. unfold record_rejection in H. rewrite Ht, Hg in H. simpl in H.
  rewrite (bool_decide_eq_true_2 (Some _ = Some _)) in H by done. simpl in H.
  rewrite (bool_decide_eq_false_2 (rc_holder ctx = AccessTokenOnly)) in H by congruence. simpl in H.
  destruct (rejection_window_open t now); [|done].
  destruct (rc_generation ctx =? rc_current ctx); simpl in H;
    [destruct (negb (rc_token_usable ctx) || rc_remedy_pending ctx)|]; simplify_eq;
    destruct Ha as [?|[? Hc]]; try done; unfold count_rejection in Hc; rewrite Hm in Hc;
    repeat (case_match; simplify_eq/=).
Qed.

(** Counting one more rejection extends the evidence. *)
Lemma count_evidence es e f g0 now ctx a f' :
  fuse_wf f -> evidence es f -> count_rejection g0 now ctx = (a, f') ->
  consecutive g0 = consecutive f -> last_rejection_at g0 = last_rejection_at f ->
  rejections (e :: es) = (now, rc_generation ctx) :: rejections es ->
  (forall t, last_rejection_at f = Some t -> rejected_generation f = Some (rc_generation ctx) ->
     rejection_window_open t now = false) ->
  evidence (e :: es) f'.
Proof.
  intros Hw He Hc Hc0 Hl0 Hr Hfresh _. pose proof (wf_range _ Hw) as Hrange.
  apply count_rejection_facts in Hc as (Hg & Ht & _ & Hn); [|lia].
  rewrite Hc0, Hl0 in Hn. rewrite Hr.
  destruct (decide (0 < consecutive f)) as [Hpos|Hz].
  - destruct (He Hpos) as (t & g & ev & Hsub & Hch & Hlt & Hlg & Hlen).
    rewrite Hlt in Hn. simpl in Hn.
    destruct (rejection_window_open t now) eqn:Ho; simpl in Hn.
    + exists now, (rc_generation ctx), ((t, g) :: ev). split_and!; try done.
      * by constructor.
      * simpl. split; [|done]. intros Heq. rewrite Hfresh in Ho; congruence.
      * simpl length. lia.
    + exists now, (rc_generation ctx), []. split_and!; try done; [|simpl; unfold FUSE_LIMIT in *; lia].
      constructor. apply sublist_nil_l.
  - assert (consecutive f = 0) as Hcf by lia.
    exists now, (rc_generation ctx), []. split_and!; try done.
    + constructor. apply sublist_nil_l.
    + simpl. rewrite Hcf in Hn. unfold FUSE_LIMIT in *. case_match; lia.
Qed.

Lemma evidence_mono es e f f' :
  evidence es f -> consecutive f' = consecutive f -> last_rejection_at f' = last_rejection_at f ->
  rejected_generation f' = rejected_generation f -> evidence (e :: es) f'.
Proof.
  intros He Hc Hl Hg. unfold evidence. rewrite Hc, Hl, Hg. intros Hp.
  destruct (He Hp) as (t & g & ev & Hsub & ?). exists t, g, ev. split; [|done].
  unfold rejections. simpl. case_match; [by apply sublist_cons|done].
Qed.

(** The rejection either leaves the count alone or is counted. *)
Lemma record_rejection_cases f now ctx a f' :
  record_rejection f now ctx = (a, f') ->
  (consecutive f' = consecutive f /\ last_rejection_at f' = last_rejection_at f /\
   rejected_generation f' = rejected_generation f /\ (is_stop a = true -> rc_holder ctx = AccessTokenOnly))
  \/ (a <> Coalesced /\ count_rejection f now ctx = (a, f')).
Proof.
  unfold record_rejection, vehicle_steps. intros H.
  assert (forall b, count_rejection f now ctx = (Coalesced, b) -> False) as Hnc.
  { unfold count_rejection. intros b Hb. repeat (case_match; simplify_eq/=). }
  repeat (case_match; simplify_eq; bsimp); try (by left); try (right; split; [|done]; intros ->; eauto).
Qed.

Lemma begin_confirmation_counts f now r f' :
  begin_confirmation f now = (r, f') ->
  consecutive f' = consecutive f /\ last_rejection_at f' = last_rejection_at f /\
  rejected_generation f' = rejected_generation f.
Proof. unfold begin_confirmation. intros H. by repeat (case_match; simplify_eq/=). Qed.

Lemma confirm_leaves_fuse f now ctx f1 : record_rejection f now ctx = (Confirm, f1) -> f1 = f.
Proof.
  unfold record_rejection, vehicle_steps, count_rejection. intros H.
  by repeat (case_match; simplify_eq/=).
Qed.

Lemma fuse_step_evidence es f e f' :
  fuse_wf f -> evidence es f -> managed_event e -> fuse_step f e f' -> evidence (e :: es) f'.
Proof.
  intros Hw He Hm Hs. destruct Hs; try by apply (evidence_mono _ _ _ _ He).
  - intros Hp. exfalso. unfold record_success in Hp. destruct (scope_vehicle s); simpl in Hp; lia.
  - intros Hp. simpl in Hp. lia.
  - apply (evidence_mono _ _ _ _ He); unfold note_send; simpl; by destruct (send_counter f).
  - apply (evidence_mono _ _ _ _ He); unfold note_confirmation_error; by case_bool_decide.
  - rename select (record_rejection _ _ _ = _) into Hr.
    destruct (record_rejection_cases _ _ _ _ _ Hr) as [(? & ? & ? & _)|[Hnc Hc]].
    + by apply (evidence_mono _ _ _ _ He).
    + eapply count_evidence; [done|done|exact Hc|done..|]. by eapply not_coalesced; eauto.
  - rename select (record_rejection _ _ _ = _) into Hr.
    rename select (begin_confirmation _ _ = _) into Hb.
    apply confirm_leaves_fuse in Hr as ->. apply begin_confirmation_counts in Hb as (? & ? & ?).
    by apply (evidence_mono _ _ _ _ He).
  - rename select (record_rejection _ _ _ = _) into Hr.
    rename select (begin_confirmation _ _ = _) into Hb.
    pose proof (not_coalesced _ _ _ _ _ Hr Hm (or_introl eq_refl)) as Hfresh.
    apply confirm_leaves_fuse in Hr as ->. apply begin_confirmation_counts in Hb as (? & ? & ?).
    eapply (count_evidence es _ f (finish_confirmation f2) later); try done.
    intros t Ht Hg. eapply window_closed_later; eauto.
Qed.

Lemma fuse_run_evidence es f :
  fuse_run fuse_new es f -> Forall managed_event es -> fuse_wf f /\ evidence es f.
Proof.
  induction 1 as [|es f e f' Hrun IH Hs]; intros Hm.
  - split; [apply fuse_new_wf|]. intros Hp. simpl in Hp. lia.
  - apply Forall_cons in Hm as [? ?]. destruct IH; [done|].
    split; [by eapply fuse_step_wf|by eapply fuse_step_evidence].
Qed.

(** A stop of a managed unit is the third count. *)
Lemma count_stop_third f now ctx r f' :
  count_rejection f now ctx = (Stop r, f') -> 0 <= consecutive f <= FUSE_LIMIT -> managed ctx ->
  r = AccessTokenRejected /\ consecutive f' = FUSE_LIMIT.
Proof.
  intros H Hr [Hm Hs]. unfold FUSE_LIMIT in *.
  assert (1 <= Z.min (u8_sadd (consecutive f) 1) 3 <= 3 /\ Z.min (u8_sadd 0 1) 3 = 1) as [? ?] by mlia.
  unfold count_rejection, FUSE_LIMIT in H. rewrite Hm, Hs in H.
  destruct (is_some_and (last_rejection_at f) _); simpl in H; repeat (case_match; simplify_eq/=); bsimp;
    split; done || lia.
Qed.

(** The account is signed out for a rejected token only on account-wide
    evidence: when a managed unit's fuse, started clean, answers a 401 with a
    stop, it had been shown three rejections in a row, of two or three different
    token generations with no generation twice in a row, each within an hour of
    the one before; any number of cars retrying the same token, and any success
    in between, cannot add up to one. *)
Theorem stop_needs_three_rejected_generations es f e r f' :
  fuse_run fuse_new es f -> Forall managed_event (e :: es) ->
  fuse_step f e f' -> stops f e r ->
  r = AccessTokenRejected /\
  exists t3 g3 t2 g2 t1 g1,
    sublist [(t3, g3); (t2, g2); (t1, g1)] (rejections (e :: es)) /\
    g3 <> g2 /\ g2 <> g1 /\
    rejection_window_open t2 t3 = true /\ rejection_window_open t1 t2 = true.
Proof.
  intros Hrun [Hme Hm]%Forall_cons Hs Hst.
  destruct (fuse_run_evidence _ _ Hrun Hm) as [Hw He].
  pose proof (wf_range _ Hw) as Hrange.
  pose proof (fuse_step_evidence _ _ _ _ Hw He Hme Hs) as He'.
  assert (r = AccessTokenRejected /\ consecutive f' = FUSE_LIMIT) as [-> Hc].
  { destruct Hst as [now ctx r f'' Hr|now later ctx f1 f2 r f'' Hr Hb Hle Hcnt]; inversion Hs as [| | | | | | | | | | | | | |? ? ? ? ? Hr'| |? ? ? ? ? ? ? ? ? Hr' Hb' ? Hc'];
      subst.
    - rewrite Hr in Hr'. injection Hr' as <- <-.
      destruct (record_rejection_cases _ _ _ _ _ Hr) as [(_ & _ & _ & Ha)|[_ Hcnt]].
      + destruct Hme. specialize (Ha eq_refl). congruence.
      + by eapply count_stop_third.
    - rewrite Hr in Hr'. injection Hr' as <-. rewrite Hb in Hb'. injection Hb' as <-.
      rewrite Hcnt in Hc'. injection Hc' as <- <-.
      apply confirm_leaves_fuse in Hr as ->. apply begin_confirmation_counts in Hb as (Hb & _).
      eapply count_stop_third; [exact Hcnt|simpl; lia|done]. }
  split; [done|]. destruct He' as (t3 & g3 & ev & Hsub & Hch & _ & _ & Hlen); [unfold FUSE_LIMIT in *; lia|].
  rewrite Hc in Hlen. unfold FUSE_LIMIT in Hlen.
  destruct ev as [|[t2 g2] [|[t1 g1] ev]]; simpl in Hlen; try lia.
  simpl in Hch. exists t3, g3, t2, g2, t1, g1. split; [|naive_solver].
  etrans; [|exact Hsub]. do 3 constructor. apply sublist_nil_l.
Qed.

(** One rejected token is one piece of evidence: after a managed unit has
    counted a rejection, every further 401 that carries the same token within
    the window, from any car and any number of times, leaves the fuse exactly as
    it was. *)
Theorem same_token_counts_once f now ctx a f' :
  count_rejection f now ctx = (a, f') ->
  forall later ctx', managed ctx' -> rc_generation ctx' = rc_generation ctx ->
  rejection_window_open now later = true ->
  (record_rejection f' later ctx').2 = f' /\
  (record_rejection f' later ctx').1 ∈ [RetryWithCurrent; NotCounted; Coalesced].
Proof.
  intros H later ctx' [Hm _] Hg Ho.
  assert (rejected_generation f' = Some (rc_generation ctx) /\ last_rejection_at f' = Some now) as [Hg' Ht'].
  { unfold count_rejection in H. by repeat (case_match; simplify_eq/=). }
  unfold record_rejection. rewrite Hg', Ht', Hg, Hm. simpl. rewrite Ho.
  rewrite (bool_decide_eq_true_2 (Some _ = Some _)) by done.
  repeat case_match; simpl; (split; [done|]); set_solver.
Qed.

(** ** Confirmation spacing *)

Definition started_before (t : Z) (f : LegacyAuthFuse) : Prop :=
  exists s, last_started_at (confirmation f) = Some s /\ t <= s <= i64_max.

Lemma begin_confirmation_Ok f now f' :
  begin_confirmation f now = (Ok tt, f') ->
  last_started_at (confirmation f') = Some now /\
  forall s, last_started_at (confirmation f) = Some s -> i64_sadd s 60 <= now.
Proof.
  unfold begin_confirmation, CONFIRMATION_SPACING_SECONDS.
  destruct (last_started_at (confirmation f)) as [s|]; [destruct (_ || _) eqn:E|];
    intros; simplify_eq/=; split; try done; intros ? [= <-]. bsimp. lia.
Qed.

Lemma count_rejection_confirmation f now ctx a f' :
  count_rejection f now ctx = (a, f') -> confirmation f' = confirmation f.
Proof. unfold count_rejection. intros H. by repeat (case_match; simplify_eq/=). Qed.

Lemma record_rejection_confirmation f now ctx a f' :
  record_rejection f now ctx = (a, f') -> confirmation f' = confirmation f.
Proof.
  unfold record_rejection, vehicle_steps. intros H.
  repeat (case_match; simplify_eq/=); eauto using count_rejection_confirmation.
Qed.

Lemma begin_started_before f now f' t :
  begin_confirmation f now = (Ok tt, f') -> in_i64 now -> started_before t f -> started_before t f'.
Proof.
  intros [Hs Hle]%begin_confirmation_Ok Hn (s & Hs' & Hr). exists now. split; [done|].
  specialize (Hle s Hs'). revert Hle Hn. mlia.
Qed.

Lemma fuse_step_started t f e f' : fuse_step f e f' -> started_before t f -> started_before t f'.
Proof.
  unfold started_before. destruct 1; simpl; eauto.
  - unfold record_success. destruct (scope_vehicle s); eauto.
  - unfold note_send. simpl. destruct (send_counter f); simpl; eauto.
  - unfold note_confirmation_error. case_bool_decide; eauto.
  - rename select (record_rejection _ _ _ = _) into Hr.
    by rewrite (record_rejection_confirmation _ _ _ _ _ Hr).
  - rename select (record_rejection _ _ _ = _) into Hr. apply confirm_leaves_fuse in Hr as ->.
    intros Hb. eapply begin_started_before; eauto.
  - rename select (record_rejection _ _ _ = _) into Hr. apply confirm_leaves_fuse in Hr as ->.
    rename select (count_rejection _ _ _ = _) into Hc.
    rewrite (count_rejection_confirmation _ _ _ _ _ Hc). simpl.
    intros Hb. eapply begin_started_before; eauto.
Qed.

(** A storm of 401s adds at most one confirmation read a minute: whatever
    the fuse does after one confirmation read has started, the next that is
    allowed to start does so at least sixty seconds later. *)
Theorem confirmations_are_spaced f t1 f1 es f2 t2 f3 :
  in_i64 t1 -> begin_confirmation f t1 = (Ok tt, f1) ->
  fuse_run f1 es f2 -> begin_confirmation f2 t2 = (Ok tt, f3) ->
  i64_sadd t1 CONFIRMATION_SPACING_SECONDS <= t2.
Proof.
  intros Ht1 [Hs1 _]%begin_confirmation_Ok Hrun [_ Hs2]%begin_confirmation_Ok.
  assert (started_before t1 f2) as (s & Hs & Hle).
  { assert (started_before t1 f1) as Hb by (exists t1; split; [done|mlia]). clear Hs1 Hs2.
    induction Hrun; eauto using fuse_step_started. }
  specialize (Hs2 s Hs). unfold CONFIRMATION_SPACING_SECONDS. revert Hs2. mlia.
Qed.
End Fuse.
Arguments LegacyAuthFuse : clear implicits.

(** ** The fuse evaluated *)

Definition managed_ctx (g : Uuid) : RejectionContext :=
  MkRejectionContext ScAccount g g true false true Managed (g + 100) None.

Definition fuse0 : LegacyAuthFuse unit unit := fuse_new.
Definition fuse1 : LegacyAuthFuse unit unit := (record_rejection fuse0 1700000000 (managed_ctx 1)).2.
Definition fuse2 : LegacyAuthFuse unit unit := (record_rejection fuse1 1700000400 (managed_ctx 2)).2.
Definition fuse3 : LegacyAuthFuse unit unit := (record_rejection fuse2 1700000800 (managed_ctx 3)).2.

Lemma fuse_steps_sample :
  fuse_step fuse0 (Rejected 1700000000 (managed_ctx 1)) fuse1 /\
  fuse_step fuse1 (Rejected 1700000400 (managed_ctx 2)) fuse2 /\
  fuse_step fuse2 (Rejected 1700000800 (managed_ctx 3)) fuse3.
Proof.
  split_and!; [apply (fs_rejected fuse0 _ _ ForceRefreshThenRetry)
              |apply (fs_rejected fuse1 _ _ (PauseThenRefresh 1700000700))
              |apply (fs_rejected fuse2 _ _ (Stop AccessTokenRejected))]; vm_compute; reflexivity.
Qed.

Lemma stop_needs_three_rejected_generations_witness :
  (record_rejection fuse2 1700000800 (managed_ctx 3)).1 = Stop AccessTokenRejected /\
  exists t3 g3 t2 g2 t1 g1,
    sublist [(t3, g3); (t2, g2); (t1, g1)]
      (rejections [Rejected 1700000800 (managed_ctx 3); Rejected 1700000400 (managed_ctx 2);
                   Rejected 1700000000 (managed_ctx 1)]) /\
    g3 <> g2 /\ g2 <> g1 /\
    rejection_window_open t2 t3 = true /\ rejection_window_open t1 t2 = true.
Proof.
  split; [vm_compute; reflexivity|].
  refine (proj2 (stop_needs_three_rejected_generations
    [Rejected 1700000400 (managed_ctx 2); Rejected 1700000000 (managed_ctx 1)] fuse2
    (Rejected 1700000800 (managed_ctx 3)) AccessTokenRejected fuse3 _ _ _ _)).
  - apply (run_step _ [Rejected 1700000000 (managed_ctx 1)] fuse1);
      [apply (run_step _ [] fuse0); [apply run_nil|]|]; apply fuse_steps_sample.
  - repeat constructor.
  - apply fuse_steps_sample.
  - apply (stops_rejected fuse2 _ _ _ fuse3). vm_compute. reflexivity.
Defined.

Lemma fuse_columns_always_storable_witness :
  fuse_is_consistent (snapshot fuse1) = true /\
  snapshot (OwnerApiError := unit) (World := unit) (from_snapshot (snapshot fuse1)) = snapshot fuse1.
Proof.
  apply (fuse_columns_always_storable fuse_default [Rejected 1700000000 (managed_ctx 1)] fuse1).
  - reflexivity.
  - discriminate.
  - discriminate.
  - apply (run_step _ [] fuse0); [apply run_nil|]. apply fuse_steps_sample.
Defined.

Lemma same_token_counts_once_witness :
  (record_rejection fuse1 1700000010 (managed_ctx 1)).2 = fuse1 /\
  (record_rejection fuse1 1700000010 (managed_ctx 1)).1 ∈ [RetryWithCurrent; NotCounted; Coalesced].
Proof.
  apply (same_token_counts_once fuse0 1700000000 (managed_ctx 1) ForceRefreshThenRetry fuse1);
    [vm_compute; reflexivity | split; reflexivity | reflexivity | vm_compute; reflexivity].
Defined.

Lemma confirmations_are_spaced_witness :
  let f1 := (begin_confirmation fuse0 1700000000).2 in
  let f2 := finish_confirmation f1 in
  (begin_confirmation f2 1700000059).1 = Err 1700000060 /\
  i64_sadd 1700000000 CONFIRMATION_SPACING_SECONDS <= 1700000060.
Proof.
  intros f1 f2. split; [vm_compute; reflexivity|].
  refine (confirmations_are_spaced fuse0 1700000000 f1 [Quiet] f2 1700000060
            (begin_confirmation f2 1700000060).2 _ _ _ _).
  - vm_compute. intuition discriminate.
  - vm_compute. reflexivity.
  - apply (run_step _ [] f1); [apply run_nil|]. apply fs_finish.
  - vm_compute. reflexivity.
Defined.
