(* ===== verification/Ledger.v ===== *)
(** * The request ledger: counter, cost and local cap

    [src/src/collection/collector/scheduler_counters.rs]: [LedgerState] with
    every operation, the counted start of a Fleet helper, and the estimate.
    [u64] counts are [Z] with saturation written out; [u128] products are exact.
    The [time] crate is the parameter [Calendar]; a monotonic instant is its
    nanosecond count. *)
From S2P Require Import Prelude RustStr Endpoint.
Local Open Scope string_scope.
Local Open Scope Z_scope.

Definition COST_UNITS_PER_DOLLAR : Z := 150000.
Definition COST_UNITS_PER_CENT : Z := COST_UNITS_PER_DOLLAR / 100.
Definition K_RESERVE_BLOCK : Z := 20.
Definition K_CAP_WARN_PERCENT : Z := 80.
Definition K_COUNTER_FLUSH_NS : Z := 60 * 60 * 1000000000.
Definition K_PROJECTION_MIN_ELAPSED_MS : Z := 24 * 60 * 60 * 1000.
Definition TESLA_MONTHLY_DISCOUNT_CENTS : Z := 1000.
Definition K_CLOCK_DIVERGENCE_MS : Z := 60000.
Definition CAP_SCOPE_NOTE : string := "The local cap governs scheduled polling.".
Definition PROJECTION_AFTER_FIRST_DAY : string := "projection after the first day".

(** [u64::div_ceil] and [u128::div_ceil]. *)
Definition div_ceil (a b : Z) : Z := (a + b - 1) / b.

(** [CollectorMode::code]. *)
Definition mode_code (m : CollectorMode) : string :=
  match m with Legacy => "legacy" | ProviderMode => "provider" | FleetPolling => "fleet_polling" end.
#[export] Instance CollectorMode_eq_dec : EqDecision CollectorMode.
Proof. solve_decision. Defined.

(** ** Categories and prices *)

Inductive RequestCategory := Data | State | Wake | Command.
#[export] Instance RequestCategory_eq_dec : EqDecision RequestCategory.
Proof. solve_decision. Defined.

Definition all_categories : list RequestCategory := [Data; State; Wake; Command].
Definition category_code (c : RequestCategory) : string :=
  match c with Data => "data" | State => "state" | Wake => "wake" | Command => "command" end.
Definition category_from_code (code : string) : option RequestCategory :=
  find_first (fun c => bool_decide (category_code c = code)) all_categories.

(** An array [[T; 4]] indexed by [RequestCategory::index]. *)
Record quad (A : Type) := MkQuad { q_data : A; q_state : A; q_wake : A; q_command : A }.
Arguments MkQuad {A} _ _ _ _.
Arguments q_data {A} _.
Arguments q_state {A} _.
Arguments q_wake {A} _.
Arguments q_command {A} _.

Definition qget {A} (q : quad A) (c : RequestCategory) : A :=
  match c with Data => q_data q | State => q_state q | Wake => q_wake q | Command => q_command q end.
Definition qset {A} (q : quad A) (c : RequestCategory) (a : A) : quad A :=
  match c with
  | Data => MkQuad a (q_state q) (q_wake q) (q_command q)
  | State => MkQuad (q_data q) a (q_wake q) (q_command q)
  | Wake => MkQuad (q_data q) (q_state q) a (q_command q)
  | Command => MkQuad (q_data q) (q_state q) (q_wake q) a
  end.
Definition qconst {A} (a : A) : quad A := MkQuad a a a a.
Definition qmap {A B} (f : A -> B) (q : quad A) : quad B :=
  MkQuad (f (q_data q)) (f (q_state q)) (f (q_wake q)) (f (q_command q)).

Record FleetPricing := MkFleetPricing {
  price_data : Z;
  price_state : option Z;
  price_wake : Z;
  price_command : Z;
  price_signal : Z;
}.

Definition price_units (pricing : FleetPricing) (c : RequestCategory) : option Z :=
  per_dollar ← match c with
               | Data => Some (price_data pricing)
               | State => price_state pricing
               | Wake => Some (price_wake pricing)
               | Command => Some (price_command pricing)
               end;
  Some (div_ceil COST_UNITS_PER_DOLLAR (Z.max per_dollar 1)).

Inductive FleetApiError :=
| InvalidEndpoint
| RequestTimeout
| RequestNotSent
| FleetTransport
| FleetHttpStatus (status : Z)
| ProviderHttpStatus (status : Z) (error : string) (description : option string)
| RateLimited (retry_after_seconds : Z)
| FleetResponseTooLarge
| ResponseRead
| FleetInvalidResponse
| InvalidCommand
| CommandRejected
| InvalidTelemetryConfig
| TelemetryConfigTooLarge
| CommandProxyUnavailable
| InvalidChargeLimit.

Definition fleet_error_billable (e : FleetApiError) : bool :=
  match e with
  | RequestNotSent | InvalidEndpoint | InvalidCommand | InvalidTelemetryConfig
  | TelemetryConfigTooLarge | CommandProxyUnavailable | InvalidChargeLimit => false
  | RequestTimeout | FleetTransport => true
  | FleetHttpStatus status | ProviderHttpStatus status _ _ => status <? 500
  | RateLimited _ => true
  | FleetResponseTooLarge | ResponseRead | FleetInvalidResponse | CommandRejected => true
  end.

Definition fleet_result_billable {A} (r : result FleetApiError A) : bool :=
  match r with Ok _ => true | Err e => fleet_error_billable e end.

Definition fleet_result_attempted {A} (r : result FleetApiError A) : bool :=
  negb match r with
       | Err (InvalidEndpoint | InvalidCommand | InvalidTelemetryConfig | TelemetryConfigTooLarge
             | CommandProxyUnavailable | InvalidChargeLimit) => true
       | _ => false
       end.

(** ** The month *)

Record MonthSpan := MkMonthSpan { key : string; start_ms : Z; end_ms : Z }.
Definition length_ms (m : MonthSpan) : Z := i64_ssub (end_ms m) (start_ms m).

(** The [time] crate: [Date::from_calendar_date(year, month, 1)] as the Unix
    second of its midnight in UTC, and the year and month of the
    [OffsetDateTime] at a Unix second. *)
Class Calendar := {
  first_of_month : Z -> Z -> option Z;
  year_month_at : Z -> option (Z * Z);
}.

(** [format!("{:0w$}")] of a non-negative number, and of a signed year. *)
Definition print_padded (w : nat) (z : Z) : string := print_fixed (Nat.max w (dec_width 20 z)) z.
Definition print_year (year : Z) : string :=
  if year <? 0 then String "-" (print_padded 3 (- year)) else print_padded 4 year.

Definition from_year_month `{Calendar} (year month : Z) : option MonthSpan :=
  first ← first_of_month year month;
  '(next_year, next_month) ←
    (if month =? 12 then y ← then_some (year + 1 <=? i32_max) (year + 1); Some (y, 1)
     else Some (year, month + 1));
  next ← first_of_month next_year next_month;
  start ← i64_try_from (first * 1000);
  end_ ← i64_try_from (next * 1000);
  Some (MkMonthSpan (append (print_year year) (String "-" (print_padded 2 month))) start end_).

(** [i64::div_euclid] by a positive number is the floor division. *)
Definition containing `{Calendar} (epoch_ms : Z) : option MonthSpan :=
  '(year, month) ← year_month_at (epoch_ms / 1000);
  from_year_month year month.

(** [Month::try_from(u8)] accepts 1 to 12. *)
Definition of_key `{Calendar} (k : string) : option MonthSpan :=
  '(year, month) ← split_once "-" k;
  year ← parse_int i32_min i32_max year;
  month ← parse_int 0 u8_max month;
  month ← then_some ((1 <=? month) && (month <=? 12)) month;
  from_year_month year month.

Inductive MonthEvent := MonthUnchanged | Rolled (from to : string).

(** ** The ledger *)

Inductive Withheld := WCap | WReservation | WAccount.
Inductive Admission := StartAdmitted | IsWithheld (w : Withheld).

Record CategoryCount := MkCount {
  sent : Z;
  billable : Z;
  c_in_flight : Z;
  reserved_pending : Z;
  reserved_persisted : Z;
}.
#[export] Instance eta_CategoryCount : Eta CategoryCount := fun c =>
  MkCount (sent c) (billable c) (c_in_flight c) (reserved_pending c) (reserved_persisted c).
Definition count_default : CategoryCount := MkCount 0 0 0 0 0.

Record CounterView := MkView { v_sent : Z; v_billable : Z; v_reserved : Z }.
#[export] Instance CounterView_eq_dec : EqDecision CounterView.
Proof. solve_decision. Defined.
Definition view_default : CounterView := MkView 0 0 0.

Record CollectorCounterRow := MkCounterRow {
  cr_month : string;
  cr_mode : string;
  cr_category : string;
  cr_sent : Z;
  cr_billable : Z;
  cr_reserved : Z;
}.

(** [LedgerState]; the clock is read by the caller and passed as arguments. *)
Record LedgerState := MkLedger {
  l_mode : CollectorMode;
  pricing : FleetPricing;
  cap_units : Z;
  span : MonthSpan;
  anchor : Z * Z;
  frozen : bool;
  deferred_logged : bool;
  counts : quad CategoryCount;
  persisted : quad CounterView;
  started_since_start : quad Z;
  warned : bool;
  last_flush : Z;
}.
#[export] Instance eta_LedgerState : Eta LedgerState := fun l =>
  MkLedger (l_mode l) (pricing l) (cap_units l) (span l) (anchor l) (frozen l) (deferred_logged l)
    (counts l) (persisted l) (started_since_start l) (warned l) (last_flush l).

Definition is_fleet (l : LedgerState) : bool := bool_decide (l_mode l = FleetPolling).

Definition billed (l : LedgerState) (c : RequestCategory) : bool :=
  is_fleet l && is_some (price_units (pricing l) c).

Definition price (l : LedgerState) (c : RequestCategory) : Z := default 0 (price_units (pricing l) c).

Definition gross_units (l : LedgerState) (include_in_flight : bool) : Z :=
  fold_left (fun total c =>
    if billed l c then
      let count := qget (counts l) c in
      let requests := u64_sadd (billable count) (if include_in_flight then c_in_flight count else 0) in
      u64_sadd total (u64_smul requests (price l c))
    else total) all_categories 0.

Definition not_billed (count : CategoryCount) : Z :=
  u64_ssub (u64_ssub (sent count) (c_in_flight count)) (billable count).

Definition exposure_requests (count : CategoryCount) (reserved : Z) : Z :=
  Z.max (u64_sadd (billable count) (c_in_flight count)) (u64_ssub reserved (not_billed count)).

Definition exposure_units (l : LedgerState) (except : option RequestCategory) : Z :=
  fold_left (fun total c =>
    if billed l c && negb (bool_decide (Some c = except)) then
      let count := qget (counts l) c in
      u64_sadd total (u64_smul (exposure_requests count (reserved_pending count)) (price l c))
    else total) all_categories 0.

Definition max_reserved (l : LedgerState) (c : RequestCategory) : Z :=
  let count := qget (counts l) c in
  let affordable := u64_ssub (cap_units l) (exposure_units l (Some c)) / Z.max (price l c) 1 in
  u64_sadd affordable (not_billed count).

Definition pending_reservation (l : LedgerState) : bool :=
  existsb (fun c => let count := qget (counts l) c in
                    reserved_pending count >? reserved_persisted count) all_categories.

Definition check_cap_warning (l : LedgerState) : LedgerState :=
  if negb (is_fleet l) || warned l || (cap_units l =? 0) then l
  else
    let gross := gross_units l true in
    if u64_smul gross 100 >=? u64_smul (cap_units l) K_CAP_WARN_PERCENT
    then l <| warned := true |> else l.

(** The update of one category's count. *)
Definition set_count (l : LedgerState) (c : RequestCategory) (count : CategoryCount) : LedgerState :=
  l <| counts := qset (counts l) c count |>.

(** The counting half of [start]. *)
Definition count_start (l : LedgerState) (c : RequestCategory) : LedgerState :=
  let count := qget (counts l) c in
  let l := set_count l c (count <| sent := u64_sadd (sent count) 1 |>
                                <| c_in_flight := u64_sadd (c_in_flight count) 1 |>) in
  let l := l <| started_since_start :=
                 qset (started_since_start l) c (u64_sadd (qget (started_since_start l) c) 1) |> in
  check_cap_warning l.

Definition start (l : LedgerState) (c : RequestCategory) : Admission * LedgerState :=
  let admission := (StartAdmitted, count_start l c) in
  if billed l c then
    let p := price l c in
    if u64_sadd (gross_units l true) p >? cap_units l then (IsWithheld WCap, l)
    else
      let count := qget (counts l) c in
      if sent count >=? reserved_persisted count then
        let wanted := u64_sadd (Z.max (reserved_pending count) (sent count)) 1 in
        if (reserved_pending count >? reserved_persisted count) || (max_reserved l c >=? wanted)
        then (IsWithheld WReservation, l)
        else (IsWithheld WCap, l)
      else admission
  else admission.

Definition unstart (l : LedgerState) (c : RequestCategory) : LedgerState :=
  let count := qget (counts l) c in
  let l := set_count l c (count <| sent := u64_ssub (sent count) 1 |>
                                <| c_in_flight := u64_ssub (c_in_flight count) 1 |>) in
  l <| started_since_start :=
        qset (started_since_start l) c (u64_ssub (qget (started_since_start l) c) 1) |>.

Definition complete (l : LedgerState) (c : RequestCategory) (is_billable : bool) : LedgerState :=
  let count := qget (counts l) c in
  let count := count <| c_in_flight := u64_ssub (c_in_flight count) 1 |> in
  let count :=
    if billed l c && is_billable && (billable count <? sent count) then
      let count := count <| billable := billable count + 1 |> in
      count <| reserved_pending := Z.max (reserved_pending count) (billable count) |>
    else count in
  check_cap_warning (set_count l c count).

Definition record_completed (l : LedgerState) (c : RequestCategory) (is_billable : bool) : LedgerState :=
  let count := qget (counts l) c in
  let count := count <| sent := u64_sadd (sent count) 1 |> in
  let count :=
    if billed l c then
      let count := if is_billable then count <| billable := u64_sadd (billable count) 1 |> else count in
      count <| reserved_pending := Z.max (reserved_pending count) (billable count) |>
    else count in
  check_cap_warning (set_count l c count).

(** One round of the loop of [plan]. *)
Definition plan_one (l : LedgerState) (c : RequestCategory) (planned : Z) : LedgerState :=
  if (planned =? 0) || negb (billed l c) then l
  else
    let count := qget (counts l) c in
    if u64_ssub (reserved_pending count) (sent count) >=? planned then l
    else
      let desired := Z.max planned (Z.min K_RESERVE_BLOCK (qget (started_since_start l) c)) in
      let lift := u64_ssub (sent count) (reserved_pending count) in
      let base := u64_sadd (reserved_pending count) lift in
      let ceiling := max_reserved l c in
      if ceiling <? base then l
      else
        let raise := Z.min desired (ceiling - base) in
        set_count l c (count <| reserved_pending := u64_sadd base raise |>).

Definition plan (l : LedgerState) (steps : list (RequestCategory * Z)) : bool * LedgerState :=
  if negb (is_fleet l) then (false, l)
  else
    let l := fold_left (fun l '(c, planned) => plan_one l c planned) steps l in
    (pending_reservation l, l).

(** [Instant::saturating_duration_since(..).as_millis()] as [i64]. *)
Definition elapsed_millis (mono since : Z) : Z :=
  default i64_max (i64_try_from (Z.max 0 (mono - since) / 1000000)).

Definition projected_wall (l : LedgerState) (mono wall : Z) : Z * LedgerState :=
  if negb (is_fleet l) then (wall, l)
  else
    let elapsed_ms := elapsed_millis mono (anchor l).1 in
    let l := if negb (frozen l)
                && (i64_ssub (i64_ssub wall (anchor l).2) elapsed_ms >? K_CLOCK_DIVERGENCE_MS)
             then l <| frozen := true |> else l in
    if frozen l then (i64_sadd (anchor l).2 elapsed_ms, l)
    else (wall, l <| anchor := (mono, wall) |>).

(** [refresh]: [wall] is [clock.wall_now_ms().ok()]. *)
Definition refresh `{Calendar} (l : LedgerState) (wall : option Z) (mono : Z) : MonthEvent * LedgerState :=
  match wall with
  | None => (MonthUnchanged, l)
  | Some wall =>
      let '(judged, l) := projected_wall l mono wall in
      match containing judged with
      | None => (MonthUnchanged, l)
      | Some candidate =>
          if String.ltb (key (span l)) (key candidate) then
            let from := key (span l) in
            (Rolled from (key candidate),
             l <| span := candidate |> <| anchor := (mono, wall) |> <| frozen := false |>
               <| deferred_logged := false |> <| warned := false |>
               <| counts := qmap (fun count => MkCount (c_in_flight count) 0 (c_in_flight count) 0 0)
                              (counts l) |>
               <| persisted := qconst view_default |>)
          else if is_fleet l && negb (deferred_logged l)
                  && is_some_and (containing wall) (fun actual => String.ltb (key (span l)) (key actual))
          then (MonthUnchanged, l <| deferred_logged := true |>)
          else (MonthUnchanged, l)
      end
  end.

Definition view_of (count : CategoryCount) : CounterView :=
  MkView (u64_ssub (sent count) (c_in_flight count)) (billable count) (reserved_pending count).

Definition dirty (l : LedgerState) : bool :=
  existsb (fun c => negb (bool_decide (view_of (qget (counts l) c) = qget (persisted l) c))) all_categories.

(** The closures [signed] and [unsigned]. *)
Definition signed (z : Z) : Z := default i64_max (i64_try_from z).
Definition unsigned (z : Z) : Z := default 0 (u64_try_from z).

Definition row_of (l : LedgerState) (c : RequestCategory) (view : CounterView) : CollectorCounterRow :=
  MkCounterRow (key (span l)) (mode_code (l_mode l)) (category_code c)
    (signed (v_sent view)) (signed (v_billable view)) (signed (v_reserved view)).

Definition rows (l : LedgerState) : list CollectorCounterRow :=
  omap (fun c =>
    let view := view_of (qget (counts l) c) in
    then_some (negb (bool_decide (view = qget (persisted l) c))) (row_of l c view)) all_categories.

(** Whether [mark_persisted] and [load] skip the row, else its category. *)
Definition row_category (l : LedgerState) (row : CollectorCounterRow) : option RequestCategory :=
  if negb (bool_decide (cr_month row = key (span l)))
     || negb (bool_decide (cr_mode row = mode_code (l_mode l)))
  then None
  else category_from_code (cr_category row).

Definition row_view (row : CollectorCounterRow) : CounterView :=
  MkView (unsigned (cr_sent row)) (unsigned (cr_billable row)) (unsigned (cr_reserved row)).

Definition mark_row (l : LedgerState) (row : CollectorCounterRow) : LedgerState :=
  match row_category l row with
  | None => l
  | Some c =>
      let count := qget (counts l) c in
      let l := l <| persisted := qset (persisted l) c (row_view row) |> in
      set_count l c (count <| reserved_persisted :=
                               Z.max (reserved_persisted count) (unsigned (cr_reserved row)) |>)
  end.

Definition mark_persisted (l : LedgerState) (rs : list CollectorCounterRow) (mono : Z) : LedgerState :=
  (fold_left mark_row rs l) <| last_flush := mono |>.

(** The count [load] makes of a stored row. *)
Definition loaded_count (is_billed : bool) (v : CounterView) : CategoryCount :=
  let count := MkCount (v_sent v) (v_billable v) 0 (v_reserved v) (v_reserved v) in
  if is_billed && (v_reserved v >? v_sent v) then
    let converted := v_reserved v - v_sent v in
    count <| sent := u64_sadd (v_sent v) converted |> <| billable := u64_sadd (v_billable v) converted |>
  else count.

Definition load_row (l : LedgerState) (row : CollectorCounterRow) : LedgerState :=
  match row_category l row with
  | None => l
  | Some c =>
      let l := l <| persisted := qset (persisted l) c (row_view row) |> in
      set_count l c (loaded_count (billed l c) (row_view row))
  end.

(** [Iterator::max] of the row months. *)
Definition latest_month (rs : list CollectorCounterRow) : option string :=
  fold_left (fun best row =>
    match best with
    | None => Some (cr_month row)
    | Some b => if String.ltb (cr_month row) b then Some b else Some (cr_month row)
    end) rs None.

Definition cap_warning_level (l : LedgerState) : bool :=
  (cap_units l >? 0) && (u64_smul (gross_units l true) 100 >=? u64_smul (cap_units l) K_CAP_WARN_PERCENT).

Definition load `{Calendar} (l : LedgerState) (rs : list CollectorCounterRow) (wall : option Z) (mono : Z)
    : LedgerState :=
  let l := match wall with
           | Some wall =>
               let l := l <| anchor := (mono, wall) |> in
               match containing wall with Some calendar => l <| span := calendar |> | None => l end
           | None => l
           end in
  let l := match opt_filter (fun latest => String.ltb (key (span l)) latest) (latest_month rs) ≫= of_key with
           | Some latest => l <| span := latest |>
           | None => l
           end in
  let l := l <| frozen := false |> <| deferred_logged := false |> <| warned := false |>
             <| counts := qconst count_default |> <| persisted := qconst view_default |> in
  let l := fold_left load_row rs l in
  let l := l <| last_flush := mono |> in
  l <| warned := cap_warning_level l |>.

Record CostEstimate := MkCostEstimate {
  gross_cents : Z;
  net_cents : Z;
  cap_cents : Z;
  cap_warning : bool;
  projected_cents : option Z;
  stop_ms : option Z;
  note : option string;
  scope_note : string;
}.

Definition estimate (l : LedgerState) (wall : option Z) : option CostEstimate :=
  if negb (is_fleet l) then None
  else
    let gross := gross_units l false in
    let cents := div_ceil gross COST_UNITS_PER_CENT in
    let elapsed_ms := map_or wall 0 (fun wall => i64_ssub wall (start_ms (span l))) in
    let cap := cap_units l / COST_UNITS_PER_CENT in
    let base projected stop shown :=
      MkCostEstimate cents (u64_ssub cents TESLA_MONTHLY_DISCOUNT_CENTS) (Z.min cap u32_max)
        (cap_warning_level l) projected stop shown CAP_SCOPE_NOTE in
    if elapsed_ms <? K_PROJECTION_MIN_ELAPSED_MS
    then Some (base None None (Some PROJECTION_AFTER_FIRST_DAY))
    else
      let elapsed := Z.max 0 elapsed_ms in
      let length := Z.max 0 (length_ms (span l)) in
      let projected := div_ceil (gross * length) (elapsed * COST_UNITS_PER_CENT) in
      let stop :=
        if gross >? 0 then
          let offset := elapsed * cap_units l / gross in
          if offset <? length then (fun o => i64_sadd (start_ms (span l)) o) <$> i64_try_from offset
          else None
        else None in
      Some (base (Some (Z.min projected u64_max)) stop None).

(** [RequestLedger::new]'s state. *)
Definition ledger_new (m : CollectorMode) (p : FleetPricing) (monthly_cap_cents : Z) (s : MonthSpan)
    (now wall : Z) : LedgerState :=
  MkLedger m p (u64_smul monthly_cap_cents COST_UNITS_PER_CENT) s (now, wall) false false
    (qconst count_default) (qconst view_default) (qconst 0) false now.

Definition record_fleet_result {A} (l : LedgerState) (c : RequestCategory) (r : result FleetApiError A)
    : LedgerState :=
  if fleet_result_attempted r then record_completed l c (fleet_result_billable r) else l.

Definition flush_due (l : LedgerState) (mono : Z) : bool :=
  dirty l && (Z.max 0 (mono - last_flush l) >=? K_COUNTER_FLUSH_NS).

Definition cap_allows_one_more (l : LedgerState) : bool :=
  let prices := omap (fun c => then_some (billed l c) (price l c)) [Data; State] in
  let cheapest := match prices with [] => 0 | p :: ps => fold_left Z.min ps p end in
  u64_sadd (gross_units l true) cheapest <=? cap_units l.

(** ** [CountedStart]: the guard of one admitted Fleet request *)

Record CountedStart := MkCountedStart { cs_category : RequestCategory; cs_armed : bool }.

Definition guard_admitted (has_ledger : bool) (c : RequestCategory) : CountedStart :=
  MkCountedStart c has_ledger.
Definition guard_resend (l : LedgerState) (c : RequestCategory) : option CountedStart * LedgerState :=
  match start l c with
  | (StartAdmitted, l') => (Some (MkCountedStart c true), l')
  | (_, l') => (None, l')
  end.
Definition guard_complete {A} (g : CountedStart) (l : LedgerState) (r : result FleetApiError A)
    : CountedStart * LedgerState :=
  if cs_armed g then
    (MkCountedStart (cs_category g) false,
     if fleet_result_attempted r then complete l (cs_category g) (fleet_result_billable r)
     else unstart l (cs_category g))
  else (g, l).
Definition guard_drop (g : CountedStart) (l : LedgerState) : LedgerState :=
  if cs_armed g then unstart l (cs_category g) else l.
