(* ===== verification/LedgerSafety.v ===== *)
(** * The cap is never passed, and a crash never undercounts

    Theorems about [Ledger]: the arithmetic behind the cap, the machine of the
    scheduled requests with its durable rows and crashes, and the safety of both
    sides (C3 R25, R27). *)
From S2P Require Import Prelude RustStr HttpDate Endpoint Ledger.
Local Open Scope Z_scope.

(** ** Counts *)

(** What every operation keeps of one category: no request is counted twice and
    nothing saturates. *)
Record count_wf (k : CategoryCount) : Prop := {
  wf_b : 0 <= billable k;
  wf_i : 0 <= c_in_flight k;
  wf_bi : billable k + c_in_flight k <= sent k;
  wf_s : sent k <= u64_max;
  wf_rp : 0 <= reserved_persisted k <= reserved_pending k;
  wf_r : reserved_pending k <= u64_max;
}.

(** Requests answered and not billed, the requests that count, and the exposure,
    as exact numbers. *)
Definition unbilled (k : CategoryCount) : Z := sent k - c_in_flight k - billable k.
Definition counted (k : CategoryCount) : Z := billable k + c_in_flight k.
Definition expo (k : CategoryCount) : Z := Z.max (counted k) (reserved_pending k - unbilled k).

Lemma not_billed_eq k : count_wf k -> not_billed k = unbilled k.
Proof. intros []. unfold not_billed, unbilled. mlia. Qed.

Lemma exposure_requests_eq k : count_wf k -> exposure_requests k (reserved_pending k) = expo k.
Proof.
  intros H. unfold exposure_requests. rewrite not_billed_eq by done. destruct H.
  unfold expo, counted, unbilled. mlia.
Qed.

Lemma expo_nonneg k : count_wf k -> 0 <= counted k <= expo k.
Proof. intros []. unfold expo, counted. lia. Qed.

Lemma count_default_wf : count_wf count_default.
Proof. split; simpl; mlia. Qed.

Lemma qget_qset {A} (q : quad A) c d a : qget (qset q c a) d = if decide (c = d) then a else qget q d.
Proof. by destruct c, d. Qed.

Lemma qset_id {A} (q : quad A) c : qset q c (qget q c) = q.
Proof. by destruct q, c. Qed.

Lemma qget_const {A} (a : A) c : qget (qconst a) c = a.
Proof. by destruct c. Qed.

Lemma qget_map {A B} (f : A -> B) q c : qget (qmap f q) c = f (qget q c).
Proof. by destruct c. Qed.

(** ** Sums over the billed categories *)

Definition term (l : LedgerState) (f : CategoryCount -> Z) (c : RequestCategory) : Z :=
  if billed l c then f (qget (counts l) c) * price l c else 0.
Definition total (l : LedgerState) (f : CategoryCount -> Z) : Z :=
  term l f Data + term l f State + term l f Wake + term l f Command.

(** The cap fits any configured [u32] number of cents. *)
Record ledger_wf (l : LedgerState) : Prop := {
  lwf_counts : forall c, count_wf (qget (counts l) c);
  lwf_cap : 0 <= cap_units l <= u32_max * COST_UNITS_PER_CENT;
}.

Lemma price_pos l c : billed l c = true -> 1 <= price l c.
Proof.
  unfold billed, price, price_units. intros H. bsimp.
  destruct (match c with Data => _ | State => _ | Wake => _ | Command => _ end) as [p|]; [|done].
  simpl. unfold div_ceil, COST_UNITS_PER_DOLLAR.
  apply Z.div_le_lower_bound; lia.
Qed.

Lemma term_nonneg l f c : (forall k, count_wf k -> 0 <= f k) -> ledger_wf l -> 0 <= term l f c.
Proof.
  intros Hf [Hc _]. unfold term. destruct (billed l c) eqn:E; [|done].
  apply price_pos in E. specialize (Hf _ (Hc c)). nia.
Qed.

(** A saturating fold over the four categories is the saturated sum. *)
Lemma fold_sat (g : RequestCategory -> bool) (x : RequestCategory -> Z) :
  (forall c, 0 <= x c) ->
  fold_left (fun total c => if g c then u64_sadd total (Z.min u64_max (x c)) else total) all_categories 0
  = Z.min u64_max ((if g Data then x Data else 0) + (if g State then x State else 0)
                   + (if g Wake then x Wake else 0) + (if g Command then x Command else 0)).
Proof.
  intros H. pose proof (H Data). pose proof (H State). pose proof (H Wake). pose proof (H Command).
  simpl. destruct (g Data), (g State), (g Wake), (g Command); mlia.
Qed.

Lemma price_nonneg l c : 0 <= price l c.
Proof.
  unfold price, price_units. destruct (match c with Data => _ | State => _ | Wake => _ | Command => _ end);
    simpl; [|done]. apply Z.div_pos; unfold COST_UNITS_PER_DOLLAR; lia.
Qed.

Lemma fold_left_ext {A B} (f g : A -> B -> A) l a :
  (forall x y, f x y = g x y) -> fold_left f l a = fold_left g l a.
Proof. intros H. revert a. induction l as [|b l IH]; intros a; simpl; [done|]. by rewrite H, IH. Qed.

Lemma gross_units_eq l : ledger_wf l -> gross_units l true = Z.min u64_max (total l counted).
Proof.
  intros [Hc _]. unfold gross_units.
  rewrite (fold_left_ext _ (fun t c => if billed l c
    then u64_sadd t (Z.min u64_max (counted (qget (counts l) c) * price l c)) else t)).
  - apply (fold_sat (billed l) (fun c => counted (qget (counts l) c) * price l c)).
    intros c. apply Z.mul_nonneg_nonneg; [|apply price_nonneg]. by apply expo_nonneg.
  - intros t c. destruct (billed l c); [|done]. f_equal. unfold u64_smul. do 2 f_equal.
    destruct (Hc c). unfold counted. mlia.
Qed.

Lemma exposure_units_eq l : ledger_wf l -> exposure_units l None = Z.min u64_max (total l expo).
Proof.
  intros [Hc _]. unfold exposure_units.
  rewrite (fold_left_ext _ (fun t c => if billed l c
    then u64_sadd t (Z.min u64_max (expo (qget (counts l) c) * price l c)) else t)).
  - apply (fold_sat (billed l) (fun c => expo (qget (counts l) c) * price l c)).
    intros c. apply Z.mul_nonneg_nonneg; [|apply price_nonneg].
    pose proof (expo_nonneg _ (Hc c)). lia.
  - intros t c. rewrite andb_true_r. destruct (billed l c); [|done].
    by rewrite exposure_requests_eq.
Qed.

Lemma exposure_except_eq l c : ledger_wf l ->
  exposure_units l (Some c) = Z.min u64_max (total l expo - term l expo c).
Proof.
  intros [Hc _]. unfold exposure_units.
  rewrite (fold_left_ext _ (fun t d => if billed l d && negb (bool_decide (Some d = Some c))
    then u64_sadd t (Z.min u64_max (expo (qget (counts l) d) * price l d)) else t)).
  - rewrite (fold_sat (fun d => billed l d && negb (bool_decide (Some d = Some c)))
              (fun d => expo (qget (counts l) d) * price l d)).
    + f_equal. unfold total, term.
      destruct c; rewrite ?(bool_decide_eq_true_2 (Some ?[x] = Some ?x)) by done; simpl;
        rewrite ?andb_true_r, ?andb_false_r; lia.
    + intros d. apply Z.mul_nonneg_nonneg; [|apply price_nonneg].
      pose proof (expo_nonneg _ (Hc d)). lia.
  - intros t d. destruct (billed l d && _); [|done]. by rewrite exposure_requests_eq.
Qed.

(** Only the changed category's term moves. *)
Lemma total_set_count l f c k :
  total (set_count l c k) f
  = total l f - term l f c + (if billed l c then f k * price l c else 0).
Proof.
  unfold total. assert (forall d, term (set_count l c k) f d
    = if decide (c = d) then (if billed l c then f k * price l c else 0) else term l f d) as H.
  { intros d. unfold term at 1. change (billed (set_count l c k) d) with (billed l d).
    change (price (set_count l c k) d) with (price l d).
    change (counts (set_count l c k)) with (qset (counts l) c k). rewrite qget_qset.
    destruct (decide (c = d)) as [->|]; [done|]. done. }
  rewrite !H. destruct c; simpl; lia.
Qed.

(** Ledgers of one mode and one price list compare category by category. *)
Lemma total_le l l' f g :
  l_mode l' = l_mode l -> pricing l' = pricing l ->
  (forall c, billed l c = true -> f (qget (counts l) c) <= g (qget (counts l') c)) ->
  total l f <= total l' g.
Proof.
  intros Hm Hp H. unfold total.
  assert (forall c, term l f c <= term l' g c) as Hc.
  { intros c. unfold term. assert (billed l' c = billed l c) as -> by (unfold billed, is_fleet; by rewrite Hm, Hp).
    assert (price l' c = price l c) as -> by (unfold price; by rewrite Hp).
    destruct (billed l c) eqn:E; [|done].
    apply Z.mul_le_mono_nonneg_r; [apply price_nonneg|auto]. }
  pose proof (Hc Data). pose proof (Hc State). pose proof (Hc Wake). pose proof (Hc Command). lia.
Qed.

(** The two ledgers count and price alike; they differ in the month's clock or
    in what has been logged. *)
Record same_money (l l' : LedgerState) : Prop := {
  sm_counts : counts l' = counts l;
  sm_mode : l_mode l' = l_mode l;
  sm_pricing : pricing l' = pricing l;
  sm_cap : cap_units l' = cap_units l;
  sm_persisted : persisted l' = persisted l;
  sm_key : key (span l') = key (span l);
}.

Lemma same_money_total l l' f : same_money l l' -> total l' f = total l f.
Proof.
  intros [Hc Hm Hp _ _ _]. unfold total, term, billed, price, is_fleet.
  by rewrite Hc, Hm, Hp.
Qed.

Lemma check_cap_warning_same l : same_money l (check_cap_warning l).
Proof. unfold check_cap_warning. repeat case_match; by split. Qed.

(** ** One category against its stored row *)

(** [v] is the row the store holds, [k] the count in memory. *)
Record cat_inv (is_billed : bool) (k : CategoryCount) (v : CounterView) : Prop := {
  ci_row : 0 <= v_billable v <= v_sent v /\ v_sent v <= i64_max /\ 0 <= v_reserved v <= i64_max;
  (** sends rely only on a reservation the store holds *)
  ci_reserved : reserved_persisted k <= v_reserved v <= reserved_pending k;
  (** what was known not to be billed stays not billed *)
  ci_unbilled : v_sent v - v_billable v <= unbilled k;
  (** nothing was sent beyond the stored reservation *)
  ci_sent : is_billed = true -> sent k <= Z.max (v_reserved v) (v_sent v);
  ci_flight : is_billed = true -> 0 < c_in_flight k -> sent k <= reserved_pending k;
}.

(** The counts after [start], [unstart] and [complete]. *)
Definition k_start (k : CategoryCount) : CategoryCount :=
  k <| sent := u64_sadd (sent k) 1 |> <| c_in_flight := u64_sadd (c_in_flight k) 1 |>.
Definition k_unstart (k : CategoryCount) : CategoryCount :=
  k <| sent := u64_ssub (sent k) 1 |> <| c_in_flight := u64_ssub (c_in_flight k) 1 |>.
Definition k_complete (bill : bool) (k : CategoryCount) : CategoryCount :=
  let k := k <| c_in_flight := u64_ssub (c_in_flight k) 1 |> in
  if bill && (billable k <? sent k) then
    let k := k <| billable := billable k + 1 |> in
    k <| reserved_pending := Z.max (reserved_pending k) (billable k) |>
  else k.

Ltac count_solve :=
  repeat match goal with H : count_wf _ |- _ => destruct H | H : cat_inv _ _ _ |- _ => destruct H end;
  unfold expo, counted, unbilled in *; simpl in *; intros; munfold; try lia.

Lemma k_start_ok b k v :
  count_wf k -> cat_inv b k v -> sent k < u64_max -> (b = true -> sent k < reserved_persisted k) ->
  count_wf (k_start k) /\ cat_inv b (k_start k) v /\ (b = true -> expo (k_start k) = expo k).
Proof.
  intros Hw Hi Hs Hb. unfold k_start. split_and!; [split|split|]; count_solve.
  all: try (specialize (Hb ltac:(done))); try (specialize (ci_sent0 ltac:(done))); lia.
Qed.

Lemma k_unstart_ok b k v :
  count_wf k -> cat_inv b k v -> 0 < c_in_flight k ->
  count_wf (k_unstart k) /\ cat_inv b (k_unstart k) v /\ expo (k_unstart k) <= expo k.
Proof.
  intros Hw Hi Hf. unfold k_unstart. split_and!; [split|split|]; count_solve.
  all: try (specialize (ci_sent0 ltac:(done))); try (specialize (ci_flight0 ltac:(done) ltac:(lia))); lia.
Qed.

Lemma k_complete_ok b bill k v :
  count_wf k -> cat_inv b k v -> 0 < c_in_flight k ->
  count_wf (k_complete bill k) /\ cat_inv b (k_complete bill k) v /\ expo (k_complete bill k) <= expo k.
Proof.
  intros Hw Hi Hf. unfold k_complete. simpl.
  destruct bill; simpl; [destruct (billable k <? sent k) eqn:E; bsimp|];
    (split_and!; [split|split|]); count_solve.
  all: try (specialize (ci_sent0 ltac:(done))); try (specialize (ci_flight0 ltac:(done) ltac:(lia))); lia.
Qed.

(** A raise to [r] between [max reserved sent] and the ceiling. *)
Lemma k_raise_ok b k v r :
  count_wf k -> cat_inv b k v -> reserved_pending k <= r -> sent k <= r -> r <= u64_max ->
  let k' := k <| reserved_pending := r |> in
  count_wf k' /\ cat_inv b k' v /\ expo k' = r - unbilled k.
Proof.
  intros Hw Hi H1 H2 H3. split_and!; [split|split|]; count_solve. by apply ci_sent0.
Qed.

(** The row a commit writes. *)
Lemma view_of_eq k : count_wf k -> view_of k = MkView (sent k - c_in_flight k) (billable k) (reserved_pending k).
Proof. intros []. unfold view_of. f_equal. mlia. Qed.

Lemma k_written_ok b k v :
  count_wf k -> cat_inv b k v -> sent k <= i64_max -> reserved_pending k <= i64_max ->
  cat_inv b k (view_of k).
Proof.
  intros Hw Hi Hs Hr. rewrite view_of_eq by done. split; count_solve.
  all: destruct (decide (c_in_flight k = 0)); [lia|]; specialize (ci_flight0 ltac:(done) ltac:(lia)); lia.
Qed.

(** The count a restart makes of a stored row. *)
Lemma loaded_ok b k v :
  count_wf k -> cat_inv b k v ->
  let k' := loaded_count b v in
  count_wf k' /\ cat_inv b k' v /\
  (b = true -> counted k <= counted k' /\ expo k' = counted k' /\
               counted k' = v_billable v + Z.max 0 (v_reserved v - v_sent v)).
Proof.
  intros Hw Hi. unfold loaded_count. rewrite Z.gtb_ltb. destruct b; simpl;
    [destruct (v_sent v <? v_reserved v) eqn:E; bsimp|]; (split_and!; [split|split|]); count_solve.
  all: try (specialize (ci_sent0 eq_refl)); lia.
Qed.

(** ** The machine: scheduled requests, commits and crashes within one month *)

(** The ledger in memory, the rows the store holds, and the rows of a commit
    that the store has accepted and the ledger has not yet been told of. *)
Record machine := MkMachine {
  m_ledger : LedgerState;
  m_store : quad CounterView;
  m_commit : option (list CollectorCounterRow);
}.

(** The write of rows keyed by month, mode and category. *)
Definition upsert (l : LedgerState) (V : quad CounterView) (rs : list CollectorCounterRow)
    : quad CounterView :=
  fold_left (fun V row => match row_category l row with
                          | Some c => qset V c (row_view row)
                          | None => V
                          end) rs V.

Definition store_rows (l : LedgerState) (V : quad CounterView) : list CollectorCounterRow :=
  map (fun c => row_of l c (qget V c)) all_categories.

Definition fits_rows (l : LedgerState) : Prop :=
  forall c, sent (qget (counts l) c) <= i64_max /\ reserved_pending (qget (counts l) c) <= i64_max.

Inductive ledger_step `{Calendar} : machine -> machine -> Prop :=
| ls_start l V m c a l' :
    start l c = (a, l') -> sent (qget (counts l) c) < u64_max ->
    ledger_step (MkMachine l V m) (MkMachine l' V m)
| ls_unstart l V m c :
    0 < c_in_flight (qget (counts l) c) ->
    ledger_step (MkMachine l V m) (MkMachine (unstart l c) V m)
| ls_complete l V m c b :
    0 < c_in_flight (qget (counts l) c) ->
    ledger_step (MkMachine l V m) (MkMachine (complete l c b) V m)
| ls_plan l V m steps b l' :
    Forall (fun '(_, planned) => 0 <= planned) steps -> plan l steps = (b, l') ->
    ledger_step (MkMachine l V m) (MkMachine l' V m)
| ls_same_month l V m wall mono l' :
    refresh l wall mono = (MonthUnchanged, l') ->
    ledger_step (MkMachine l V m) (MkMachine l' V m)
| ls_commit l V :
    fits_rows l ->
    ledger_step (MkMachine l V None) (MkMachine l (upsert l V (rows l)) (Some (rows l)))
| ls_marked l V rs mono :
    ledger_step (MkMachine l V (Some rs)) (MkMachine (mark_persisted l rs mono) V None)
| ls_crash l V m l0 wall mono :
    l_mode l0 = l_mode l -> pricing l0 = pricing l -> cap_units l0 = cap_units l ->
    key (span (load l0 (store_rows l V) wall mono)) = key (span l) ->
    ledger_step (MkMachine l V m) (MkMachine (load l0 (store_rows l V) wall mono) V None).

(** The ledger a restart would compute from the store. *)
Definition reloaded (l : LedgerState) (V : quad CounterView) : LedgerState :=
  l <| counts := qmap (loaded_count true) V |>.

Definition commit_inv (l : LedgerState) (V : quad CounterView) (m : option (list CollectorCounterRow))
    : Prop :=
  match m with
  | None => forall c, qget (persisted l) c = qget V c
  | Some rs => (forall row, row ∈ rs -> exists c, row = row_of l c (qget V c)) /\
               forall c, qget (persisted l) c = qget V c \/ row_of l c (qget V c) ∈ rs
  end.

Record machine_inv (M : machine) : Prop := {
  mi_wf : ledger_wf (m_ledger M);
  mi_cat : forall c, cat_inv (billed (m_ledger M) c) (qget (counts (m_ledger M)) c) (qget (m_store M) c);
  mi_cap : total (m_ledger M) expo <= cap_units (m_ledger M);
  mi_store : total (reloaded (m_ledger M) (m_store M)) counted <= cap_units (m_ledger M);
  mi_commit : commit_inv (m_ledger M) (m_store M) (m_commit M);
}.

Lemma same_money_billed l l' c : same_money l l' -> billed l' c = billed l c.
Proof. intros [_ Hm Hp _ _ _]. unfold billed, is_fleet. by rewrite Hm, Hp. Qed.

Lemma reloaded_total l l' V f :
  l_mode l' = l_mode l -> pricing l' = pricing l -> total (reloaded l' V) f = total (reloaded l V) f.
Proof. intros Hm Hp. unfold total, term, billed, price, is_fleet. simpl. by rewrite Hm, Hp. Qed.

Lemma row_of_key l l' c v :
  key (span l') = key (span l) -> l_mode l' = l_mode l -> row_of l' c v = row_of l c v.
Proof. intros Hk Hm. unfold row_of. by rewrite Hk, Hm. Qed.

Lemma commit_inv_same l l' V m :
  persisted l' = persisted l -> key (span l') = key (span l) -> l_mode l' = l_mode l ->
  commit_inv l V m -> commit_inv l' V m.
Proof.
  intros Hp Hk Hm. unfold commit_inv. rewrite Hp. destruct m as [rs|]; [|done].
  assert (forall c v, row_of l' c v = row_of l c v) as Hr by (intros; by apply row_of_key).
  intros [H1 H2]. split; [intros x Hx|intros c; rewrite Hr; auto].
  destruct (H1 x Hx) as [c ->]. exists c. by rewrite Hr.
Qed.

(** The counts carry the invariant; the commit in progress is separate. *)
Lemma inv_recommit l l' V m m' :
  counts l' = counts l -> l_mode l' = l_mode l -> pricing l' = pricing l -> cap_units l' = cap_units l ->
  commit_inv l' V m' -> machine_inv (MkMachine l V m) -> machine_inv (MkMachine l' V m').
Proof.
  intros Hcounts Hm Hp Hcu Hcm [[Hw Hc] Hi Hcap Hst _]. simpl in *.
  assert (forall c, billed l' c = billed l c) as Hb by (intros; unfold billed, is_fleet; by rewrite Hm, Hp).
  assert (forall f, total l' f = total l f) as Ht.
  { intros f. unfold total, term, price. by rewrite !Hb, Hcounts, Hp. }
  split; simpl; [|intros c; rewrite Hcounts, Hb; auto|by rewrite Ht, Hcu| |done].
  - split; [intros c; by rewrite Hcounts|by rewrite Hcu].
  - by rewrite (reloaded_total l l'), Hcu.
Qed.

Lemma inv_same_money l l' V m :
  same_money l l' -> machine_inv (MkMachine l V m) -> machine_inv (MkMachine l' V m).
Proof.
  intros [] Hi. apply (inv_recommit l _ _ m); try done. apply (commit_inv_same l); try done. apply Hi.
Qed.

(** Replacing one category's count keeps the invariant when the new count does
    and the exposure stays within the cap. *)
Lemma inv_set_count l V m c k :
  machine_inv (MkMachine l V m) -> count_wf k -> cat_inv (billed l c) k (qget V c) ->
  total (set_count l c k) expo <= cap_units l ->
  machine_inv (MkMachine (set_count l c k) V m).
Proof.
  intros [[Hw Hc] Hi Hcap Hst Hcm] Hk Hck Ht. simpl in *. split; simpl; try done.
  - split; [|done]. intros d. simpl. rewrite qget_qset. destruct (decide (c = d)); [done|apply Hw].
  - intros d. change (billed (set_count l c k) d) with (billed l d). rewrite qget_qset.
    destruct (decide (c = d)) as [<-|]; [done|apply Hi].
Qed.

Lemma total_set_le l c k :
  ledger_wf l -> (billed l c = true -> expo k <= expo (qget (counts l) c)) ->
  total (set_count l c k) expo <= total l expo.
Proof.
  intros Hw He. rewrite total_set_count. unfold term.
  destruct (billed l c); [|lia]. specialize (He eq_refl).
  pose proof (price_nonneg l c). nia.
Qed.

Lemma inv_count_le l V m c k :
  machine_inv (MkMachine l V m) -> count_wf k -> cat_inv (billed l c) k (qget V c) ->
  (billed l c = true -> expo k <= expo (qget (counts l) c)) ->
  machine_inv (MkMachine (set_count l c k) V m).
Proof.
  intros Hi Hk Hck He. apply inv_set_count; try done.
  pose proof (total_set_le l c k (mi_wf _ Hi) He). pose proof (mi_cap _ Hi). simpl in *. lia.
Qed.

(** ** Scheduled operations keep the invariant *)

Lemma start_admitted l c l' :
  start l c = (StartAdmitted, l') ->
  same_money (set_count l c (k_start (qget (counts l) c))) l' /\
  (billed l c = true -> sent (qget (counts l) c) < reserved_persisted (qget (counts l) c)).
Proof.
  intros H. assert (l' = count_start l c) as ->.
  { unfold start in H. repeat (case_match; simplify_eq); done. }
  split.
  - unfold count_start. cbv zeta.
    set (l1 := _ <| started_since_start := _ |>).
    pose proof (check_cap_warning_same l1) as []. by split.
  - intros Hb. unfold start in H. rewrite Hb in H. rewrite Z.geb_leb in H.
    repeat (case_match; simplify_eq); bsimp; done.
Qed.

Lemma start_not_admitted l c a l' : start l c = (a, l') -> a <> StartAdmitted -> l' = l.
Proof. unfold start. intros H Ha. by repeat (case_match; simplify_eq). Qed.

Lemma start_inv l V m c a l' :
  start l c = (a, l') -> sent (qget (counts l) c) < u64_max ->
  machine_inv (MkMachine l V m) -> machine_inv (MkMachine l' V m).
Proof.
  intros H Hs Hi. destruct a; [|by apply start_not_admitted in H as ->].
  apply start_admitted in H as [Hsm Hr].
  destruct (k_start_ok (billed l c) _ _ (lwf_counts _ (mi_wf _ Hi) c) (mi_cat _ Hi c) Hs Hr)
    as (? & ? & He).
  eapply inv_same_money; [exact Hsm|]. apply inv_count_le; try done.
  intros Hb. specialize (He Hb). simpl in He. lia.
Qed.

Lemma unstart_inv l V m c :
  0 < c_in_flight (qget (counts l) c) -> machine_inv (MkMachine l V m) ->
  machine_inv (MkMachine (unstart l c) V m).
Proof.
  intros Hf Hi.
  destruct (k_unstart_ok (billed l c) _ _ (lwf_counts _ (mi_wf _ Hi) c) (mi_cat _ Hi c) Hf) as (? & ? & ?).
  apply (inv_same_money (set_count l c (k_unstart (qget (counts l) c)))); [by split|].
  by apply inv_count_le.
Qed.

Lemma complete_inv l V m c b :
  0 < c_in_flight (qget (counts l) c) -> machine_inv (MkMachine l V m) ->
  machine_inv (MkMachine (complete l c b) V m).
Proof.
  intros Hf Hi.
  destruct (k_complete_ok (billed l c) (billed l c && b) _ _
    (lwf_counts _ (mi_wf _ Hi) c) (mi_cat _ Hi c) Hf) as (? & ? & ?).
  apply (inv_same_money (set_count l c (k_complete (billed l c && b) (qget (counts l) c)))).
  - unfold complete. apply check_cap_warning_same.
  - by apply inv_count_le.
Qed.

(** What a planned category may reserve is what the cap leaves it. *)
Lemma max_reserved_bound l c :
  ledger_wf l -> total l expo <= cap_units l -> billed l c = true ->
  max_reserved l c <= u64_max /\
  (max_reserved l c - unbilled (qget (counts l) c)) * price l c
  <= cap_units l - (total l expo - term l expo c).
Proof.
  intros Hw Hcap Hb. unfold max_reserved. rewrite exposure_except_eq, not_billed_eq by first [done|apply Hw].
  set (T := total l expo - term l expo c).
  pose proof (price_pos l c Hb) as Hp. pose proof (lwf_cap _ Hw) as Hcu.
  pose proof (term_nonneg l expo c (fun k H => ltac:(pose proof (expo_nonneg k H); lia)) Hw) as Ht.
  assert (0 <= unbilled (qget (counts l) c)) as Hn.
  { destruct (lwf_counts _ Hw c). unfold unbilled. lia. }
  assert (u64_ssub (cap_units l) (Z.min u64_max T) = cap_units l - T) as ->.
  { assert (T <= cap_units l) by (unfold T; lia). clearbody T.
    change (u32_max * COST_UNITS_PER_CENT) with 6442450942500 in Hcu. mlia. }
  rewrite Z.max_l by lia. set (q := (cap_units l - T) / price l c).
  assert (q * price l c <= cap_units l - T) by (unfold q; rewrite Z.mul_comm; apply Z.mul_div_le; lia).
  clearbody q T. split; [mlia|]. unfold u64_sadd.
  pose proof (Z.le_min_r u64_max (q + unbilled (qget (counts l) c))). nia.
Qed.

Lemma plan_one_inv l V m c planned :
  0 <= planned -> machine_inv (MkMachine l V m) -> machine_inv (MkMachine (plan_one l c planned) V m).
Proof.
  intros Hpl Hi. unfold plan_one.
  destruct ((planned =? 0) || negb (billed l c)) eqn:E0; [done|]. bsimp.
  rename select (billed l c = true) into Hb.
  destruct (_ >=? planned); [done|]. cbv zeta.
  destruct (max_reserved l c <? _) eqn:E2; [done|]. bsimp.
  pose proof (mi_wf _ Hi) as Hw. pose proof (mi_cap _ Hi) as Hcap. simpl in Hw, Hcap.
  pose proof (lwf_counts _ Hw c) as Hk.
  destruct (max_reserved_bound l c Hw Hcap Hb) as [Hm Hmb].
  set (k := qget (counts l) c) in *.
  set (desired := Z.max planned _).
  assert (u64_sadd (reserved_pending k) (u64_ssub (sent k) (reserved_pending k))
          = Z.max (reserved_pending k) (sent k)) as Hbase by (destruct Hk; mlia).
  rewrite Hbase in *. set (base := Z.max (reserved_pending k) (sent k)) in *.
  assert (0 <= desired) as Hd by (unfold desired; lia).
  assert (u64_sadd base (Z.min desired (max_reserved l c - base))
          = base + Z.min desired (max_reserved l c - base)) as ->.
  { destruct Hk. mlia. }
  set (r := base + Z.min desired (max_reserved l c - base)).
  assert (base <= r <= max_reserved l c) as [Hr1 Hr2] by lia.
  destruct (k_raise_ok (billed l c) k (qget V c) r Hk (mi_cat _ Hi c)) as (? & ? & He); try lia.
  apply inv_set_count; try done.
  rewrite total_set_count, Hb, He.
  pose proof (price_pos l c Hb). clearbody r base k. nia.
Qed.

Lemma plan_inv l V m steps b l' :
  Forall (fun '(_, planned) => 0 <= planned) steps -> plan l steps = (b, l') ->
  machine_inv (MkMachine l V m) -> machine_inv (MkMachine l' V m).
Proof.
  unfold plan. intros Hs H Hi. destruct (negb (is_fleet l)); simplify_eq; [done|].
  revert l Hi. induction Hs as [|[c planned] steps Hp Hs IH]; intros l Hi; simpl; [done|].
  apply IH. by apply plan_one_inv.
Qed.

Lemma refresh_unchanged `{Calendar} l wall mono l' :
  refresh l wall mono = (MonthUnchanged, l') -> same_money l l'.
Proof.
  unfold refresh. destruct wall as [wall|]; [|intros; simplify_eq; by split].
  destruct (projected_wall l mono wall) as [judged l1] eqn:Hp.
  assert (same_money l l1) as Hs.
  { unfold projected_wall in Hp. by repeat (case_match; simplify_eq/=). }
  intros Hr. destruct (containing judged); [|by simplify_eq].
  destruct (String.ltb _ _); [done|].
  case_match; simplify_eq/=; [|done]. destruct Hs. by split.
Qed.

(** ** Commits *)

Lemma category_from_code_eq c : category_from_code (category_code c) = Some c.
Proof. by destruct c. Qed.

Lemma row_category_row_of l c v : row_category l (row_of l c v) = Some c.
Proof.
  unfold row_category, row_of. simpl. rewrite !bool_decide_eq_true_2 by done. apply category_from_code_eq.
Qed.

Definition view_range (v : CounterView) : Prop :=
  0 <= v_sent v <= i64_max /\ 0 <= v_billable v <= i64_max /\ 0 <= v_reserved v <= i64_max.

Lemma unsigned_signed z : 0 <= z <= i64_max -> unsigned (signed z) = z.
Proof.
  intros Hz. unfold signed, unsigned, i64_try_from, u64_try_from.
  replace (i64_min <=? z) with true by mlia. replace (z <=? i64_max) with true by lia. simpl.
  replace (0 <=? z) with true by lia. by replace (z <=? u64_max) with true by mlia.
Qed.

Lemma row_view_row_of l c v : view_range v -> row_view (row_of l c v) = v.
Proof.
  intros (? & ? & ?). unfold row_view, row_of. simpl. rewrite !unsigned_signed by done. by destruct v.
Qed.

Lemma cat_inv_range b k v : cat_inv b k v -> view_range v.
Proof. intros [(? & ? & ?)]. unfold view_range. lia. Qed.

(** Upserting one good row per listed category. *)
Lemma upsert_rows l V0 (g : RequestCategory -> CounterView) cs :
  (forall c, view_range (g c)) ->
  forall c, qget (upsert l V0 (map (fun c => row_of l c (g c)) cs)) c
            = if decide (c ∈ cs) then g c else qget V0 c.
Proof.
  intros Hg. revert V0. induction cs as [|d cs IH]; intros V0 c; simpl.
  - destruct (decide (c ∈ [])) as [Hc|]; [by apply elem_of_nil in Hc|done].
  - unfold upsert in *. simpl. rewrite row_category_row_of, row_view_row_of, IH, qget_qset by done.
    destruct (decide (c ∈ cs)) as [Hc|Hc], (decide (c ∈ d :: cs)) as [Hd|Hd]; try done;
      destruct (decide (d = c)) as [->|]; try done; set_solver.
Qed.

Lemma omap_then_some {A B} (P : A -> Prop) `{!forall x, Decision (P x)} (g : A -> B) l :
  omap (fun x => then_some (negb (bool_decide (P x))) (g x)) l = map g (filter (fun x => ~ P x) l).
Proof.
  induction l as [|x l IH]; [done|]. rewrite filter_cons. cbn. unfold then_some at 1.
  destruct (decide (P x)) as [Hx|Hx].
  - rewrite bool_decide_eq_true_2 by done. destruct (decide (~ P x)); [done|]. exact IH.
  - rewrite bool_decide_eq_false_2 by done. destruct (decide (~ P x)); [|done].
    simpl. f_equal. exact IH.
Qed.

(** The rows of a commit are the views that differ from the store's. *)
Lemma rows_eq l :
  rows l = map (fun c => row_of l c (view_of (qget (counts l) c)))
             (filter (fun c => view_of (qget (counts l) c) <> qget (persisted l) c) all_categories).
Proof.
  unfold rows. apply (omap_then_some (fun c => view_of (qget (counts l) c) = qget (persisted l) c)).
Qed.

Lemma all_categories_complete c : c ∈ all_categories.
Proof. destruct c; set_solver. Qed.

(** After a commit the store holds the view of every category. *)
Lemma upsert_commit l V :
  (forall c, view_range (view_of (qget (counts l) c))) ->
  (forall c, qget (persisted l) c = qget V c) ->
  forall c, qget (upsert l V (rows l)) c = view_of (qget (counts l) c).
Proof.
  intros Hr Hp c. rewrite rows_eq, upsert_rows by done.
  destruct (decide _) as [|Hn]; [done|]. rewrite <- Hp.
  destruct (decide (view_of (qget (counts l) c) = qget (persisted l) c)) as [E|E]; [done|].
  destruct Hn. apply list_elem_of_filter. split; [done|apply all_categories_complete].
Qed.

Lemma quad_ext {A} (p q : quad A) : (forall c, qget p c = qget q c) -> p = q.
Proof.
  intros H. pose proof (H Data). pose proof (H State). pose proof (H Wake). pose proof (H Command).
  destruct p, q; simpl in *; congruence.
Qed.

Lemma commit_step_inv l V :
  fits_rows l -> machine_inv (MkMachine l V None) ->
  machine_inv (MkMachine l (upsert l V (rows l)) (Some (rows l))).
Proof.
  intros Hf [Hw Hi Hcap Hst Hcm]. simpl in *.
  assert (forall c, cat_inv (billed l c) (qget (counts l) c) (view_of (qget (counts l) c))) as Hi'.
  { intros c. destruct (Hf c). eapply k_written_ok; eauto. apply Hw. }
  assert (forall c, qget (upsert l V (rows l)) c = view_of (qget (counts l) c)) as Hu.
  { apply upsert_commit; [|done]. intros c. by eapply cat_inv_range. }
  split; simpl; try done.
  - intros c. by rewrite Hu.
  - etrans; [|exact Hcap]. apply total_le; [done|done|]. intros c _. simpl.
    rewrite qget_map, Hu. pose proof (lwf_counts _ Hw c) as Hk.
    rewrite view_of_eq by done. unfold loaded_count. rewrite Z.gtb_ltb. simpl.
    destruct (_ <? _) eqn:E; simpl; bsimp; destruct Hk; unfold expo, counted, unbilled; simpl; mlia.
  - split.
    + intros row Hrow. rewrite rows_eq in Hrow. apply list_elem_of_fmap in Hrow as (c & -> & _).
      exists c. by rewrite Hu.
    + intros c. rewrite Hu.
      destruct (decide (view_of (qget (counts l) c) = qget (persisted l) c)) as [E|E]; [by left|right].
      rewrite rows_eq. apply list_elem_of_fmap. exists c. split; [done|].
      apply list_elem_of_filter. split; [done|apply all_categories_complete].
Qed.

Lemma mark_row_inv l V row rs :
  machine_inv (MkMachine l V (Some (row :: rs))) -> machine_inv (MkMachine (mark_row l row) V (Some rs)).
Proof.
  intros [Hw Hi Hcap Hst [Hrows Hper]]. simpl in *.
  destruct (Hrows row) as [c ->]; [by left|].
  pose proof (cat_inv_range _ _ _ (Hi c)) as Hr.
  unfold mark_row. rewrite row_category_row_of, row_view_row_of by done.
  set (k := qget (counts l) c).
  assert (unsigned (cr_reserved (row_of l c (qget V c))) = v_reserved (qget V c)) as ->
    by (apply unsigned_signed, Hr).
  set (k' := k <| reserved_persisted := Z.max (reserved_persisted k) (v_reserved (qget V c)) |>).
  set (l1 := l <| persisted := qset (persisted l) c (qget V c) |>).
  assert (machine_inv (MkMachine l1 V (Some rs))) as H1.
  { apply (inv_recommit l _ _ (Some (row_of l c (qget V c) :: rs))); try done. split; simpl.
    - intros x Hx. apply (Hrows x). by right.
    - intros d. rewrite qget_qset. destruct (decide (c = d)) as [->|Hne]; [by left|].
      destruct (Hper d) as [?|Hd]; [by left|]. apply elem_of_cons in Hd as [Hd|Hd]; [|by right].
      left. exfalso. apply Hne. pose proof (row_category_row_of l c (qget V c)) as Hc.
      rewrite <- Hd, row_category_row_of in Hc. congruence. }
  pose proof (lwf_counts _ Hw c) as Hk. pose proof (Hi c) as Hci.
  apply (inv_count_le l1); try done.
  - destruct Hk, Hci. split; simpl; try done. fold k in ci_reserved0, wf_rp0 |- *. lia.
  - destruct Hk, Hci. split; simpl; try done. fold k in ci_reserved0, wf_rp0 |- *. lia.
Qed.

Lemma mark_persisted_inv l V rs mono :
  machine_inv (MkMachine l V (Some rs)) -> machine_inv (MkMachine (mark_persisted l rs mono) V None).
Proof.
  intros Hi. unfold mark_persisted.
  assert (machine_inv (MkMachine (fold_left mark_row rs l) V (Some []))) as Hm.
  { revert l Hi. induction rs as [|row rs IH]; intros l Hi; simpl; [done|].
    apply IH. by apply mark_row_inv. }
  apply (inv_same_money (fold_left mark_row rs l)); [by split|].
  apply (inv_recommit (fold_left mark_row rs l) _ _ (Some [])); try done.
  destruct (mi_commit _ Hm) as [_ Hp]. intros c. destruct (Hp c) as [?|Hc]; [done|].
  by apply elem_of_nil in Hc.
Qed.

(** ** Restart *)

Lemma load_rows_fold l V cs lA :
  (forall c, view_range (qget V c)) -> key (span lA) = key (span l) -> l_mode lA = l_mode l ->
  let l' := fold_left load_row (map (fun c => row_of l c (qget V c)) cs) lA in
  l_mode l' = l_mode lA /\ pricing l' = pricing lA /\ cap_units l' = cap_units lA /\ span l' = span lA /\
  forall c, (c ∈ cs -> qget (counts l') c = loaded_count (billed lA c) (qget V c) /\
                       qget (persisted l') c = qget V c) /\
            (c ∉ cs -> qget (counts l') c = qget (counts lA) c /\
                       qget (persisted l') c = qget (persisted lA) c).
Proof.
  intros Hr. revert lA. induction cs as [|d cs IH]; intros lA Hk Hm; simpl.
  { split_and!; try done. intros c. split; [intros Hc; by apply elem_of_nil in Hc|done]. }
  set (lB := load_row lA (row_of l d (qget V d))).
  assert (lB = set_count (lA <| persisted := qset (persisted lA) d (qget V d) |>) d
                 (loaded_count (billed lA d) (qget V d))) as HB.
  { unfold lB, load_row. rewrite <- (row_of_key l lA) by done.
    by rewrite row_category_row_of, row_view_row_of. }
  clearbody lB.
  destruct (IH lB) as (H1 & H2 & H3 & H4 & H5); [by rewrite HB|by rewrite HB|].
  revert H1 H2 H3 H4 H5. generalize (fold_left load_row (map (fun c => row_of l c (qget V c)) cs) lB).
  intros l' H1 H2 H3 H4 H5. rewrite H1, H2, H3, H4.
  assert (forall c, billed lB c = billed lA c) as Hb by by rewrite HB.
  assert (forall c, qget (counts lB) c
            = if decide (d = c) then loaded_count (billed lA d) (qget V d) else qget (counts lA) c) as Hcb.
  { intros c. rewrite HB. apply qget_qset. }
  assert (forall c, qget (persisted lB) c = if decide (d = c) then qget V d else qget (persisted lA) c) as Hpb.
  { intros c. rewrite HB. apply qget_qset. }
  split_and!; [by rewrite HB..|]. intros c. destruct (H5 c) as [Hin Hout]. rewrite Hb in Hin.
  rewrite Hcb, Hpb in Hout. destruct (decide (c ∈ cs)) as [Hc|Hc].
  - split; [intros _; by apply Hin|set_solver].
  - destruct (Hout Hc) as [-> ->]. split.
    + intros [->|?]%elem_of_cons; [|done]. by destruct (decide (d = d)).
    + intros Hn. destruct (decide (d = c)); [set_solver|done].
Qed.

Lemma load_spec `{Calendar} l l0 V wall mono :
  (forall c, view_range (qget V c)) -> l_mode l0 = l_mode l ->
  key (span (load l0 (store_rows l V) wall mono)) = key (span l) ->
  let l' := load l0 (store_rows l V) wall mono in
  l_mode l' = l_mode l0 /\ pricing l' = pricing l0 /\ cap_units l' = cap_units l0 /\
  forall c, qget (counts l') c = loaded_count (billed l0 c) (qget V c) /\
            qget (persisted l') c = qget V c.
Proof.
  intros Hr Hm. unfold load.
  set (l1 := match wall with Some w => _ | None => l0 end).
  set (l2 := match opt_filter _ (latest_month (store_rows l V)) ≫= of_key with Some m => _ | None => l1 end).
  set (lA := l2 <| frozen := false |> <| deferred_logged := false |> <| warned := false |>
               <| counts := qconst count_default |> <| persisted := qconst view_default |>).
  assert (l_mode lA = l_mode l0 /\ pricing lA = pricing l0 /\ cap_units lA = cap_units l0) as (HmA & HpA & HcA).
  { unfold lA, l2, l1. simpl. repeat case_match; done. }
  assert (forall c, billed lA c = billed l0 c) as HbA by (intros c; unfold billed, is_fleet; by rewrite HmA, HpA).
  assert (forall rs lB, span (fold_left load_row rs lB) = span lB) as Hsp.
  { intros rs. induction rs as [|row rs IH]; intros lB; simpl; [done|]. rewrite IH.
    unfold load_row. by destruct (row_category lB row). }
  clearbody lA. clear l1 l2. intros Hk. simpl in Hk |- *. 
  assert (key (span lA) = key (span l)) as HkA.
  { change (key (span (fold_left load_row (store_rows l V) lA)) = key (span l)) in Hk. by rewrite Hsp in Hk. }
  destruct (load_rows_fold l V all_categories lA Hr HkA) as (H1 & H2 & H3 & _ & H5); [congruence|].
  unfold store_rows in *. simpl in H1, H2, H3, H5 |- *. rewrite H1, H2, H3. split_and!; try done.
  intros c. rewrite <- HbA. apply H5. apply all_categories_complete.
Qed.

Lemma crash_inv `{Calendar} l V m l0 wall mono :
  l_mode l0 = l_mode l -> pricing l0 = pricing l -> cap_units l0 = cap_units l ->
  key (span (load l0 (store_rows l V) wall mono)) = key (span l) ->
  machine_inv (MkMachine l V m) ->
  machine_inv (MkMachine (load l0 (store_rows l V) wall mono) V None).
Proof.
  intros Hm Hp Hc Hk [Hw Hi Hcap Hst Hcm]. simpl in *.
  assert (forall c, view_range (qget V c)) as Hr by (intros c; by eapply cat_inv_range).
  destruct (load_spec l l0 V wall mono Hr Hm Hk) as (Hm' & Hp' & Hc' & Hq).
  set (l' := load _ _ _ _) in *. clearbody l'.
  assert (forall c, billed l0 c = billed l c) as Hb0 by (intros c; unfold billed, is_fleet; by rewrite Hm, Hp).
  assert (forall c, billed l' c = billed l c) as Hb by (intros c; unfold billed, is_fleet; by rewrite Hm', Hp', Hm, Hp).
  assert (forall c, let k' := loaded_count (billed l c) (qget V c) in
    count_wf k' /\ cat_inv (billed l c) k' (qget V c) /\
    (billed l c = true -> counted (qget (counts l) c) <= counted k' /\ expo k' = counted k' /\
       counted k' = v_billable (qget V c) + Z.max 0 (v_reserved (qget V c) - v_sent (qget V c)))) as Hl.
  { intros c. apply loaded_ok; [apply Hw|apply Hi]. }
  split; simpl.
  - split; [|rewrite Hc', Hc; apply Hw]. intros c. destruct (Hq c) as [-> _]. rewrite Hb0. apply Hl.
  - intros c. destruct (Hq c) as [-> _]. rewrite Hb0, Hb. apply Hl.
  - rewrite Hc', Hc. etrans; [|exact Hst]. apply total_le; [simpl; congruence|simpl; congruence|].
    intros c Hbc. destruct (Hq c) as [-> _]. rewrite Hb in Hbc. simpl. rewrite qget_map, Hb0, Hbc.
    destruct (Hl c) as (_ & _ & He). rewrite Hbc in He. destruct (He eq_refl) as (_ & -> & _). done.
  - rewrite (reloaded_total l l') by congruence. by rewrite Hc', Hc.
  - intros c. by destruct (Hq c).
Qed.

Lemma ledger_step_inv `{Calendar} M M' : ledger_step M M' -> machine_inv M -> machine_inv M'.
Proof.
  destruct 1; eauto using start_inv, unstart_inv, complete_inv, plan_inv, commit_step_inv,
    mark_persisted_inv, crash_inv, inv_same_money, refresh_unchanged.
Qed.

(** ** The cap *)

Definition machine_new (m : CollectorMode) (p : FleetPricing) (cents : Z) (s : MonthSpan) (now wall : Z)
    : machine :=
  MkMachine (ledger_new m p cents s now wall) (qconst view_default) None.

Lemma machine_new_inv m p cents s now wall :
  0 <= cents <= u32_max -> machine_inv (machine_new m p cents s now wall).
Proof.
  intros Hc.
  assert (u64_smul cents COST_UNITS_PER_CENT = cents * 1500) as Hcap.
  { unfold u64_smul. change COST_UNITS_PER_CENT with 1500. mlia. }
  assert (forall l f, f count_default = 0 -> counts l = qconst count_default -> total l f = 0) as Hz.
  { intros l f Hf Hl. unfold total, term. rewrite Hl, !qget_const, Hf. repeat case_match; lia. }
  split; simpl; rewrite ?Hcap.
  - split; simpl; [intros c; rewrite qget_const; apply count_default_wf|].
    rewrite Hcap. change COST_UNITS_PER_CENT with 1500. lia.
  - intros c. rewrite !qget_const. split; simpl; unfold unbilled; simpl; mlia.
  - rewrite Hz by done. lia.
  - rewrite Hz by done. lia.
  - intros c. by rewrite !qget_const.
Qed.

Lemma machine_reachable_inv `{Calendar} m p cents s now wall M :
  0 <= cents <= u32_max -> rtc ledger_step (machine_new m p cents s now wall) M -> machine_inv M.
Proof.
  intros Hc H1. eapply rtc_ind_r in H1; [exact H1|by apply machine_new_inv|].
  intros ? ? _ Hs Hi. by eapply ledger_step_inv.
Qed.

Lemma machine_inv_gross M :
  machine_inv M ->
  gross_units (m_ledger M) true = total (m_ledger M) counted /\
  total (m_ledger M) counted <= cap_units (m_ledger M).
Proof.
  intros [Hw Hi Hcap _ _]. rewrite gross_units_eq by done.
  assert (total (m_ledger M) counted <= total (m_ledger M) expo) as Hle.
  { apply total_le; [done|done|]. intros c _. apply expo_nonneg, Hw. }
  pose proof (lwf_cap _ Hw) as Hcu. change (u32_max * COST_UNITS_PER_CENT) with 6442450942500 in Hcu.
  split; [mlia|lia].
Qed.

(** C1. Scheduled polling never passes the owner's cap: in every state reached
    by any interleaving of admissions, completions, withdrawals, plans, commits
    and crashes within a month, the month's gross cost, counting every request
    that has been started and may still be billed, is at most the cap, and so is
    the whole exposure the reservations allow. *)
Theorem scheduled_polling_never_passes_cap `{Calendar} m p cents s now wall M :
  0 <= cents <= u32_max -> rtc ledger_step (machine_new m p cents s now wall) M ->
  gross_units (m_ledger M) true <= cap_units (m_ledger M) /\
  exposure_units (m_ledger M) None <= cap_units (m_ledger M).
Proof.
  intros Hc Hr. pose proof (machine_reachable_inv _ _ _ _ _ _ _ Hc Hr) as Hi.
  split; [destruct (machine_inv_gross _ Hi); lia|].
  rewrite exposure_units_eq by apply Hi. pose proof (mi_cap _ Hi). lia.
Qed.

(** A crash never undercounts and never breaks the cap: wherever a crash
    falls between starts, completions, commits and their acknowledgement, the
    ledger a restart loads from the store in the same month counts at least every
    request that was billed or still in flight, and at most the cap. *)
Theorem restart_never_undercounts `{Calendar} m p cents s now wall M l0 wall' mono' :
  0 <= cents <= u32_max -> rtc ledger_step (machine_new m p cents s now wall) M ->
  l_mode l0 = l_mode (m_ledger M) -> pricing l0 = pricing (m_ledger M) ->
  cap_units l0 = cap_units (m_ledger M) ->
  let l' := load l0 (store_rows (m_ledger M) (m_store M)) wall' mono' in
  key (span l') = key (span (m_ledger M)) ->
  gross_units (m_ledger M) true <= gross_units l' true <= cap_units (m_ledger M).
Proof.
  intros Hc Hr Hm Hp Hcap l' Hk.
  pose proof (machine_reachable_inv _ _ _ _ _ _ _ Hc Hr) as Hi. destruct M as [l V cm]. simpl in *.
  pose proof (crash_inv l V cm l0 wall' mono' Hm Hp Hcap Hk Hi) as Hi'.
  destruct (machine_inv_gross _ Hi) as [Hg _], (machine_inv_gross _ Hi') as [Hg' Hle]. simpl in *.
  assert (forall c, view_range (qget V c)) as Hv by (intros c; eapply cat_inv_range, Hi).
  destruct (load_spec l l0 V wall' mono' Hv Hm Hk) as (Hm' & Hp' & Hc' & Hq).
  fold l' in Hg', Hle, Hm', Hp', Hc', Hq. rewrite Hg, Hg'. split; [|rewrite <- Hcap, <- Hc'; exact Hle].
  apply total_le; [congruence|congruence|]. intros c Hb.
  destruct (Hq c) as [-> _]. assert (billed l0 c = true) as ->
    by (unfold billed, is_fleet in *; by rewrite Hm, Hp).
  pose proof (mi_cat _ Hi c) as Hci. simpl in Hci. rewrite Hb in Hci.
  by apply (loaded_ok true _ _ (lwf_counts _ (mi_wf _ Hi) c) Hci).
Qed.

(** ** A planned request is deferred at most once *)

(** The reservation sends may use is at least the one the store was told. *)
Definition reserved_known (l : LedgerState) : Prop :=
  forall c, v_reserved (qget (persisted l) c) <= reserved_persisted (qget (counts l) c).

Lemma rows_mark l mono c :
  (forall c, view_range (view_of (qget (counts l) c))) -> reserved_known l ->
  let l' := mark_persisted l (rows l) mono in
  (exists r, qget (counts l') c = (qget (counts l) c) <| reserved_persisted := r |>) /\
  reserved_pending (qget (counts l) c) <= reserved_persisted (qget (counts l') c).
Proof.
  intros Hv Hk. unfold mark_persisted.
  change (counts (_ <| last_flush := _ |>)) with (counts (fold_left mark_row (rows l) l)).
  assert (forall cs l1, (forall d, row_of l1 d = row_of l d) ->
    let l2 := fold_left mark_row (map (fun d => row_of l d (view_of (qget (counts l) d))) cs) l1 in
    (exists r, qget (counts l2) c = (qget (counts l1) c) <| reserved_persisted := r |>) /\
    reserved_persisted (qget (counts l1) c) <= reserved_persisted (qget (counts l2) c) /\
    (c ∈ cs -> reserved_pending (qget (counts l) c) <= reserved_persisted (qget (counts l2) c))) as Hfold.
  { intros cs. induction cs as [|d cs IH]; intros l1 Hrow; simpl.
    - split_and!; try done; [|intros Hc; by apply elem_of_nil in Hc].
      exists (reserved_persisted (qget (counts l1) c)). by destruct (qget (counts l1) c).
    - set (l2 := mark_row l1 _).
      assert (l2 = set_count (l1 <| persisted := qset (persisted l1) d (view_of (qget (counts l) d)) |>) d
        ((qget (counts l1) d) <| reserved_persisted :=
           Z.max (reserved_persisted (qget (counts l1) d)) (reserved_pending (qget (counts l) d)) |>)) as E2.
      { unfold l2, mark_row. rewrite <- Hrow, row_category_row_of, row_view_row_of by done.
        assert (unsigned (cr_reserved (row_of l1 d (view_of (qget (counts l) d))))
                = reserved_pending (qget (counts l) d)) as ->; [|done].
        apply (unsigned_signed (reserved_pending _)), (Hv d). }
      clearbody l2. destruct (IH l2) as (H1 & H3 & H4); [by rewrite E2|].
      revert H1 H3 H4. generalize (fold_left mark_row
        (map (fun d => row_of l d (view_of (qget (counts l) d))) cs) l2).
      intros l3 [r H1] H3 H4.
      assert (qget (counts l2) c = if decide (d = c) then (qget (counts l1) d) <| reserved_persisted :=
           Z.max (reserved_persisted (qget (counts l1) d)) (reserved_pending (qget (counts l) d)) |>
         else qget (counts l1) c) as Hc2 by (rewrite E2; apply qget_qset).
      rewrite Hc2 in H1, H3.
      destruct (decide (d = c)) as [->|Hne]; simpl in *; (split_and!; [by exists r|lia|]).
      { lia. }
      intros [->|?]%elem_of_cons; [done|auto]. }
  rewrite rows_eq.
  destruct (Hfold (filter (fun c => view_of (qget (counts l) c) <> qget (persisted l) c) all_categories) l)
    as (H1 & H3 & H4); [done|]. split; [done|].
  destruct (decide (view_of (qget (counts l) c) = qget (persisted l) c)) as [E|E].
  - specialize (Hk c). rewrite <- E in Hk. simpl in Hk. lia.
  - apply H4, list_elem_of_filter. split; [done|apply all_categories_complete].
Qed.

Lemma known_same l l' : same_money l l' -> reserved_known l -> reserved_known l'.
Proof. intros [Hc _ _ _ Hp _] Hk c. rewrite Hc, Hp. apply Hk. Qed.

Lemma known_set l c k :
  reserved_persisted k = reserved_persisted (qget (counts l) c) ->
  reserved_known l -> reserved_known (set_count l c k).
Proof.
  intros He Hk d. simpl. rewrite qget_qset. destruct (decide (c = d)) as [<-|]; [rewrite He|]; apply Hk.
Qed.

Lemma known_plan l steps b l' : plan l steps = (b, l') -> reserved_known l -> reserved_known l'.
Proof.
  unfold plan. intros H Hk. destruct (negb (is_fleet l)); simplify_eq; [done|].
  revert l Hk. induction steps as [|[c planned] steps IH]; intros l Hk; simpl; [done|].
  apply IH. unfold plan_one. repeat case_match; try done. by apply known_set.
Qed.

Lemma known_mark l rs mono : reserved_known l -> reserved_known (mark_persisted l rs mono).
Proof.
  intros Hk. unfold mark_persisted. change (reserved_known (fold_left mark_row rs l)).
  revert l Hk. induction rs as [|row rs IH]; intros l Hk; simpl; [done|]. apply IH.
  unfold mark_row. destruct (row_category l row) as [c|]; [|done].
  intros d. simpl. rewrite !qget_qset. destruct (decide (c = d)); [simpl; lia|apply Hk].
Qed.

Lemma known_load `{Calendar} l rs wall mono : reserved_known (load l rs wall mono).
Proof.
  unfold load. set (lA := _ <| persisted := qconst view_default |>).
  assert (reserved_known lA) as Hk by (intros c; unfold lA; simpl; by rewrite !qget_const).
  clearbody lA. change (reserved_known (fold_left load_row rs lA)).
  revert lA Hk. induction rs as [|row rs IH]; intros lA Hk; simpl; [done|]. apply IH.
  unfold load_row. destruct (row_category lA row) as [c|]; [|done].
  intros d. simpl. rewrite !qget_qset. destruct (decide (c = d)); [|apply Hk].
  unfold loaded_count. by case_match.
Qed.

Lemma ledger_step_known `{Calendar} M M' :
  ledger_step M M' -> reserved_known (m_ledger M) -> reserved_known (m_ledger M').
Proof.
  destruct 1; simpl; intros Hk; eauto using known_plan, known_mark, known_load, known_same, refresh_unchanged.
  - destruct a; [|rename select (start _ _ = _) into Hs; by apply start_not_admitted in Hs as ->].
    rename select (start _ _ = _) into Hs. apply start_admitted in Hs as [Hsm _].
    eapply known_same; [exact Hsm|]. by apply known_set.
  - apply (known_same (set_count l c (k_unstart (qget (counts l) c)))); [by split|]. by apply known_set.
  - apply (known_same (set_count l c (k_complete (billed l c && b) (qget (counts l) c)))).
    + apply check_cap_warning_same.
    + apply known_set; [|done]. unfold k_complete. by case_match.
Qed.

(** What planning one request leaves of its category. *)
Lemma plan_one_result l c n l1 :
  plan_one l c n = l1 -> billed l c = true -> 1 <= n -> count_wf (qget (counts l) c) ->
  exists r, l1 = set_count l c ((qget (counts l) c) <| reserved_pending := r |>) /\
    (sent (qget (counts l) c) < r \/ max_reserved l c <= Z.max r (sent (qget (counts l) c))).
Proof.
  intros <- Hb Hn Hk. unfold plan_one. rewrite Hb. replace (n =? 0) with false by lia. simpl.
  rewrite Z.geb_leb. set (k := qget (counts l) c) in *.
  assert (l = set_count l c (k <| reserved_pending := reserved_pending k |>)) as Hid.
  { replace (k <| reserved_pending := reserved_pending k |>) with k by (by destruct k).
    unfold set_count, k. rewrite qset_id. by destruct l. }
  assert (u64_sadd (reserved_pending k) (u64_ssub (sent k) (reserved_pending k))
          = Z.max (reserved_pending k) (sent k)) as Hbase by (destruct Hk; mlia).
  destruct (n <=? _) eqn:E1; bsimp.
  { exists (reserved_pending k). split; [done|]. left. revert E1. mlia. }
  rewrite Hbase. destruct (max_reserved l c <? _) eqn:E2; bsimp.
  { exists (reserved_pending k). split; [done|]. right. lia. }
  eexists. split; [done|].
  assert (max_reserved l c <= u64_max) by (unfold max_reserved; mlia).
  set (desired := Z.max n _). assert (1 <= desired) by lia. clearbody desired.
  destruct (decide (max_reserved l c = Z.max (reserved_pending k) (sent k))) as [E|E].
  - right. rewrite E. replace (Z.min desired _) with 0 by lia. destruct Hk. mlia.
  - left. destruct Hk. mlia.
Qed.

(** Acknowledging a commit does not move what the cap leaves a category. *)
Lemma max_reserved_mark l mono c :
  (forall d, view_range (view_of (qget (counts l) d))) -> reserved_known l ->
  max_reserved (mark_persisted l (rows l) mono) c = max_reserved l c.
Proof.
  intros Hv Hk. set (l' := mark_persisted l (rows l) mono).
  assert (l_mode l' = l_mode l /\ pricing l' = pricing l /\ cap_units l' = cap_units l) as (Hm & Hp & Hc).
  { unfold l', mark_persisted. generalize (rows l). intros rs. simpl. clear.
    revert l. induction rs as [|row rs IH]; intros l; simpl; [done|].
    destruct (IH (mark_row l row)) as (-> & -> & ->). unfold mark_row.
    by destruct (row_category l row). }
  assert (forall d, exists r, qget (counts l') d = (qget (counts l) d) <| reserved_persisted := r |>) as Hq.
  { intros d. by destruct (rows_mark l mono d Hv Hk). }
  assert (forall d, billed l' d = billed l d) as Hb by (intros; unfold billed, is_fleet; by rewrite Hm, Hp).
  assert (forall d, price l' d = price l d) as Hpr by (intros; unfold price; by rewrite Hp).
  clearbody l'. unfold max_reserved. rewrite Hc, Hpr.
  assert (exposure_units l' (Some c) = exposure_units l (Some c)) as ->.
  { unfold exposure_units. apply fold_left_ext. intros t d. rewrite Hb, Hpr.
    destruct (Hq d) as [r ->]. done. }
  destruct (Hq c) as [r ->]. done.
Qed.

Lemma machine_reachable_known `{Calendar} m p cents s now wall M :
  rtc ledger_step (machine_new m p cents s now wall) M -> reserved_known (m_ledger M).
Proof.
  intros Hr. remember (machine_new m p cents s now wall) as M0 eqn:E0.
  assert (reserved_known (m_ledger M0)) as H0 by (subst; intros d; simpl; by rewrite !qget_const).
  clear E0. induction Hr; eauto using ledger_step_known.
Qed.

(** A scheduled request waits for its reservation at most once: after its
    category has been planned and the plan committed, the request is admitted or
    the month's cap is reached; it is never asked to plan and commit again. *)
Theorem planned_request_never_waits_again `{Calendar} m p cents s now wall l V c n b l1 mono :
  0 <= cents <= u32_max ->
  rtc ledger_step (machine_new m p cents s now wall) (MkMachine l V None) ->
  billed l c = true -> 1 <= n -> plan l [(c, n)] = (b, l1) -> fits_rows l1 ->
  (start (mark_persisted l1 (rows l1) mono) c).1 <> IsWithheld WReservation.
Proof.
  intros Hc Hr Hb Hn Hpl Hf.
  pose proof (machine_reachable_inv _ _ _ _ _ _ _ Hc Hr) as Hi.
  pose proof (machine_reachable_known _ _ _ _ _ _ _ Hr) as Hk. simpl in Hk.
  pose proof (known_plan _ _ _ _ Hpl Hk) as Hk1.
  assert (machine_inv (MkMachine l1 V None)) as Hi1.
  { eapply plan_inv; [|exact Hpl|exact Hi]. repeat constructor. lia. }
  assert (forall d, view_range (view_of (qget (counts l1) d))) as Hv1.
  { intros d. destruct (Hf d). eapply cat_inv_range, k_written_ok; [apply Hi1|apply (mi_cat _ Hi1)|done|done]. }
  assert (l1 = plan_one l c n) as E1.
  { unfold plan in Hpl. unfold billed in Hb. apply andb_true_iff in Hb as [Hfl _].
    rewrite Hfl in Hpl. simpl in Hpl. congruence. }
  destruct (plan_one_result l c n l1 (eq_sym E1) Hb Hn (lwf_counts _ (mi_wf _ Hi) c)) as (r & El1 & Hor).
  pose proof (max_reserved_mark l1 mono c Hv1 Hk1) as Hmr.
  destruct (rows_mark l1 mono c Hv1 Hk1) as [(q & Hq) Hle].
  revert Hmr Hq Hle. generalize (mark_persisted l1 (rows l1) mono). intros l2 Hmr Hq Hle.
  assert (qget (counts l1) c = (qget (counts l) c) <| reserved_pending := r |>) as Hk1c.
  { rewrite El1. simpl. rewrite qget_qset. by destruct (decide (c = c)). }
  destruct (Hf c) as [Hfs Hfr]. rewrite Hk1c in Hq, Hle, Hfs, Hfr. simpl in Hle, Hfs, Hfr.
  assert (max_reserved l1 c = max_reserved l c) as Hm1.
  { unfold max_reserved. rewrite !exposure_except_eq by apply Hi || apply Hi1.
    rewrite Hk1c, El1, total_set_count. change (price (set_count _ _ _) c) with (price l c).
    unfold term at 2. change (billed (set_count l c ?[k]) c) with (billed l c). rewrite Hb. simpl.
    rewrite qget_qset. destruct (decide (c = c)); [|done]. do 4 f_equal.
    change (price (set_count _ _ _) c) with (price l c). lia. }
  unfold start.
  destruct (billed l2 c); [|done]. destruct (_ >? cap_units l2); [done|].
  rewrite Hq. simpl. rewrite Z.geb_leb.
  rewrite Hq in Hle. simpl in Hle.
  destruct (q <=? sent (qget (counts l) c)) eqn:E; [|done]. bsimp.
  rewrite Hmr, Hm1. destruct ((r >? q) || _) eqn:Eo; [|done]. exfalso.
  rewrite Z.gtb_ltb, Z.geb_leb in Eo. apply orb_true_iff in Eo as [Eo|Eo]; bsimp; [lia|].
  destruct Hor; [lia|]. revert Eo. mlia.
Qed.

(** ** The month *)

Lemma elapsed_millis_range mono since : 0 <= elapsed_millis mono since <= i64_max.
Proof.
  unfold elapsed_millis, i64_try_from. set (z := _ / 1000000).
  assert (0 <= z) by (apply Z.div_pos; lia). clearbody z. destruct (_ && _) eqn:E; simpl; bsimp; mlia.
Qed.

(** An instant at most a minute past what the monotonic clock projects from the
    last trusted reading. *)
Definition vouched (l : LedgerState) (mono judged : Z) : Prop :=
  judged <= i64_sadd (i64_sadd (anchor l).2 (elapsed_millis mono (anchor l).1)) K_CLOCK_DIVERGENCE_MS.

(** A forward step of the wall clock cannot reset the count inside Tesla's
    billing month: when a Fleet ledger changes month, the instant that decided
    is at most a minute past the time the monotonic clock projects from the last
    trusted reading, and months only ever move forward. *)
Theorem month_change_is_monotonic_time `{Calendar} l wall mono from to l' :
  l_mode l = FleetPolling -> 0 <= (anchor l).2 <= i64_max -> 0 <= wall <= i64_max ->
  refresh l (Some wall) mono = (Rolled from to, l') ->
  exists judged, containing judged = Some (span l') /\
    vouched l mono judged /\
    from = key (span l) /\ to = key (span l') /\ String.ltb from to = true.
Proof.
  intros Hm Ha Hwl. unfold refresh. destruct (projected_wall l mono wall) as [judged l1] eqn:Hp.
  destruct (containing judged) as [cand|] eqn:Hc; [|done].
  assert (span l1 = span l /\ vouched l mono judged) as [Hs Hj].
  { unfold vouched. unfold projected_wall, is_fleet in Hp. rewrite bool_decide_eq_true_2 in Hp by done. simpl in Hp.
    pose proof (elapsed_millis_range mono (anchor l).1) as He.
    set (e := elapsed_millis mono (anchor l).1) in *. clearbody e. unfold K_CLOCK_DIVERGENCE_MS in *.
    rewrite Z.gtb_ltb in Hp.
    destruct (frozen l) eqn:Ef; simpl in Hp.
    - rewrite Ef in Hp. injection Hp as <- <-. split; [done|mlia].
    - destruct (60000 <? _) eqn:E; simpl in Hp; rewrite ?Ef in Hp; injection Hp as <- <-; simpl.
      + split; [done|mlia].
      + split; [done|]. bsimp. revert E Ha He Hwl. mlia. }
  destruct (String.ltb _ _) eqn:El.
  - intros [= <- <- <-]. simpl. exists judged. rewrite <- Hs. split_and!; try done.
  - destruct (_ && _); done.
Qed.

(** ** The table's CHECKs *)

(** Everything that changes counts, the unscheduled senders, month changes and
    commits included. *)
Inductive any_step `{Calendar} : LedgerState -> LedgerState -> Prop :=
| as_start l c a l' : start l c = (a, l') -> sent (qget (counts l) c) < u64_max -> any_step l l'
| as_unstart l c : 0 < c_in_flight (qget (counts l) c) -> any_step l (unstart l c)
| as_complete l c b : any_step l (complete l c b)
| as_recorded l c b : sent (qget (counts l) c) < u64_max -> any_step l (record_completed l c b)
| as_plan l steps b l' :
    Forall (fun '(_, planned) => 0 <= planned) steps -> plan l steps = (b, l') -> any_step l l'
| as_refresh l wall mono e l' : refresh l wall mono = (e, l') -> any_step l l'
| as_marked l rs mono : any_step l (mark_persisted l rs mono).

(** The part of a count the CHECKs of [collector_request_counters] see. *)
Definition checked (k : CategoryCount) : Prop :=
  0 <= billable k /\ 0 <= c_in_flight k /\ billable k + c_in_flight k <= sent k /\
  sent k <= u64_max /\ billable k <= reserved_pending k.
Definition all_checked (l : LedgerState) : Prop := forall c, checked (qget (counts l) c).

Lemma checked_set l c k : checked k -> all_checked l -> all_checked (set_count l c k).
Proof. intros Hk Hl d. simpl. rewrite qget_qset. destruct (decide (c = d)); [done|apply Hl]. Qed.

Lemma checked_same l l' : counts l' = counts l -> all_checked l -> all_checked l'.
Proof. intros Hc Hl d. rewrite Hc. apply Hl. Qed.

Lemma checked_warning l : all_checked l -> all_checked (check_cap_warning l).
Proof. apply checked_same, check_cap_warning_same. Qed.

Ltac checked_solve H := unfold checked in *; simpl in *; revert H; munfold; lia.

Lemma plan_one_checked l c n : 0 <= n -> all_checked l -> all_checked (plan_one l c n).
Proof.
  intros Hn Hl. unfold plan_one. pose proof (Hl c) as Hk. set (k := qget (counts l) c) in *.
  destruct (_ || _); [done|]. destruct (_ >=? n); [done|]. cbv zeta.
  destruct (_ <? _) eqn:E; [done|]. bsimp. apply checked_set; [|done].
  assert (max_reserved l c <= u64_max) by (unfold max_reserved; mlia).
  set (d := Z.max n _). assert (0 <= d) by lia. clearbody d.
  unfold checked in *. simpl. revert E Hk. mlia.
Qed.

Lemma any_step_checked `{Calendar} l l' : any_step l l' -> all_checked l -> all_checked l'.
Proof.
  destruct 1; intros Hl; try pose proof (Hl c) as Hk.
  - destruct a; [|rename select (start _ _ = _) into Hs; by apply start_not_admitted in Hs as ->].
    rename select (start _ _ = _) into Hs. apply start_admitted in Hs as [[Hc _ _ _ _ _] _].
    apply (checked_same _ _ Hc), checked_set; [|done]. unfold k_start. checked_solve Hk.
  - apply (checked_same (set_count l c (k_unstart (qget (counts l) c)))); [done|].
    apply checked_set; [|done]. unfold k_unstart. checked_solve Hk.
  - apply checked_warning, checked_set; [|done]. cbv zeta. simpl.
    destruct (billed l c && b); simpl; [destruct (_ <? _) eqn:E; bsimp|]; checked_solve Hk.
  - apply checked_warning, checked_set; [|done]. cbv zeta. simpl.
    destruct (billed l c), b; checked_solve Hk.
  - rename select (plan _ _ = _) into Hp. unfold plan in Hp.
    destruct (negb (is_fleet l)); simplify_eq; [done|].
    rename select (Forall _ _) into Hs. revert l Hl.
    induction Hs as [|[c n] steps Hn Hs IH]; intros l Hl; simpl; [done|].
    apply IH. by apply plan_one_checked.
  - rename select (refresh _ _ _ = _) into Hr. destruct e.
    { apply refresh_unchanged in Hr. by apply (checked_same l), Hl; apply Hr. }
    unfold refresh in Hr. destruct wall as [wall|]; [|done].
    destruct (projected_wall l mono wall) as [judged l1] eqn:Hp.
    assert (counts l1 = counts l) as Hc1 by (unfold projected_wall in Hp; by repeat (case_match; simplify_eq/=)).
    destruct (containing judged); [|done]. destruct (String.ltb _ _); [|by destruct (_ && _)].
    injection Hr as <- <- <-. intros c. simpl. rewrite qget_map, Hc1. specialize (Hl c).
    checked_solve Hl.
  - unfold mark_persisted. apply (checked_same (fold_left mark_row rs l)); [done|].
    revert l Hl. induction rs as [|row rs IH]; intros l Hl; simpl; [done|]. apply IH.
    unfold mark_row. destruct (row_category l row) as [c|]; [|done].
    apply checked_set; [apply (Hl c)|done].
Qed.

(** Every row the ledger asks the store to write satisfies the CHECKs of
    [collector_request_counters] (0 <= billable <= sent, reserved >= billable),
    after any mix of scheduled and unscheduled requests, completions, plans,
    month changes and commits, so a counter commit is never refused. *)
Theorem counter_rows_satisfy_checks `{Calendar} m p cents s now wall l row :
  rtc any_step (ledger_new m p cents s now wall) l -> row ∈ rows l ->
  0 <= cr_billable row <= cr_sent row /\ cr_billable row <= cr_reserved row.
Proof.
  intros Hr Hrow.
  assert (all_checked l) as Hl.
  { assert (all_checked (ledger_new m p cents s now wall)) as H0.
    { intros c. simpl. rewrite qget_const. unfold checked; simpl. mlia. }
    clear Hrow. induction Hr; eauto using any_step_checked. }
  rewrite rows_eq in Hrow. apply list_elem_of_fmap in Hrow as (c & -> & _). simpl.
  destruct (Hl c) as (? & ? & ? & ? & ?). set (k := qget (counts l) c) in *.
  assert (forall z, 0 <= z -> signed z = Z.min z i64_max) as Hs.
  { intros z Hz. unfold signed, i64_try_from. destruct (_ && _) eqn:E; simpl; bsimp; [lia|].
    apply andb_false_iff in E as [E|E]; bsimp; mlia. }
  assert (u64_ssub (sent k) (c_in_flight k) = sent k - c_in_flight k) as -> by mlia.
  rewrite !Hs by lia. mlia.
Qed.

(** ** The ledger evaluated

    Tesla's published prices (500 data requests, 50 wakes, 1,000 commands a
    dollar, free state checks) and a cap of one cent: five data requests. *)

(** ** Month keys *)

Lemma dec_width_le fuel z w : 0 <= z < 10 ^ Z.of_nat (S w) -> (dec_width fuel z <= S w)%nat.
Proof.
  revert z w. induction fuel as [|f IH]; intros z w Hz; cbn [dec_width]; [lia|].
  destruct (z <? 10) eqn:E; [lia|]. bsimp. destruct w as [|w]; [simpl in Hz; lia|].
  apply le_n_S, IH. rewrite Nat2Z.inj_succ, Z.pow_succ_r in Hz by lia.
  split; [apply Z.div_pos; lia|]. apply Z.div_lt_upper_bound; lia.
Qed.

Lemma print_padded_fixed w z : 0 <= z < 10 ^ Z.of_nat (S w) -> print_padded (S w) z = print_fixed (S w) z.
Proof. intros H%(dec_width_le 20). unfold print_padded. by rewrite Nat.max_l. Qed.

Lemma parse_print_fixed lo hi w z :
  lo <= 0 -> 0 <= z < 10 ^ Z.of_nat (S w) -> z <= hi -> parse_int lo hi (print_fixed (S w) z) = Some z.
Proof.
  intros Hlo Hz Hhi. rewrite parse_int_digits by (lia || (apply print_fixed_digits; lia)).
  change (digits_value (print_fixed (S w) z)) with (digits_acc 0 (print_fixed (S w) z)).
  rewrite digits_acc_print by done. simpl. destruct (z <=? hi) eqn:E; [done|]. bsimp. lia.
Qed.

Lemma from_year_month_key `{Calendar} y m s :
  0 <= y <= 9999 -> 1 <= m <= 12 -> from_year_month y m = Some s ->
  key s = append (print_fixed 4 y) (String "-" (print_fixed 2 m)).
Proof.
  intros Hy Hm. unfold from_year_month. intros (?&_&H0)%bind_Some.
  apply bind_Some in H0 as ([ny nm]&_&H0). repeat (apply bind_Some in H0 as (?&_&H0)).
  injection H0 as <-. cbn [key]. unfold print_year.
  replace (y <? 0) with false by lia. rewrite !print_padded_fixed by (simpl; lia). done.
Qed.

(** The month [m] of the year [y] comes before the other. *)
Definition month_before (y m y' m' : Z) : Prop := y < y' \/ y = y' /\ m < m'.

(** Stored month keys name their months and order like them: for every month
    of the years 0 to 9999 the key reads back as the same span, and the string
    comparison the ledger uses to keep a closed month closed is the
    chronological one. *)
Theorem month_keys_name_and_order `{Calendar} y m s y' m' s' :
  0 <= y <= 9999 -> 1 <= m <= 12 -> from_year_month y m = Some s ->
  0 <= y' <= 9999 -> 1 <= m' <= 12 -> from_year_month y' m' = Some s' ->
  of_key (key s) = Some s /\
  (String.ltb (key s) (key s') = true <-> month_before y m y' m').
Proof.
  intros Hy Hm Hs Hy' Hm' Hs'. pose proof (from_year_month_key y m s Hy Hm Hs) as Hk.
  pose proof (from_year_month_key y' m' s' Hy' Hm' Hs') as Hk'. split.
  - unfold of_key. rewrite Hk, split_once_app.
    2: { apply (str_all_not_contains is_ascii_digit); [apply print_fixed_digits; lia|done]. }
    cbn [mbind option_bind]. rewrite !parse_print_fixed by (simpl; mlia). cbn [mbind option_bind].
    replace ((1 <=? m) && (m <=? 12)) with true by lia. done.
  - rewrite Hk, Hk'. unfold String.ltb, month_before. rewrite compare_print_fixed by (simpl; lia).
    cbn [String.compare]. change (Ascii.compare "-" "-") with Eq. cbv iota.
    pose proof (compare_print_fixed 2 m m' "" "" ltac:(simpl; lia) ltac:(simpl; lia)) as Hc.
    rewrite !str_append_nil in Hc. rewrite Hc.
    destruct (Z.compare_spec y y'), (Z.compare_spec m m'); simpl; split; try done; intros; lia.
Qed.


Definition tesla_pricing : FleetPricing := MkFleetPricing 500 None 50 1000 150000.
Definition january : MonthSpan := MkMonthSpan "2026-01" 1767225600000 1769904000000.
Definition february : MonthSpan := MkMonthSpan "2026-02" 1769904000000 1772323200000.

#[export] Instance sample_calendar : Calendar := {
  first_of_month y m := Some (days_from_civil y m 1 * 86400);
  year_month_at s := Some (2026, if s <? 1769904000 then 1 else 2);
}.

Definition sample_ledger : LedgerState := ledger_new FleetPolling tesla_pricing 1 january 0 1767225600000.
Definition sample_new : machine := machine_new FleetPolling tesla_pricing 1 january 0 1767225600000.

(** Plan one data request, commit, acknowledge, send it, and start another that
    is still in flight when the plan runs out. *)
Definition planned : LedgerState := (plan sample_ledger [(Data, 2)]).2.
Definition committed : LedgerState := mark_persisted planned (rows planned) 1.
Definition sent_one : LedgerState := (start committed Data).2.
Definition done_one : LedgerState := complete sent_one Data true.
Definition sent_two : LedgerState := (start done_one Data).2.
Definition sample_machine : machine :=
  MkMachine sent_two (upsert planned (qconst view_default) (rows planned)) None.

Lemma sample_machine_reachable : rtc ledger_step sample_new sample_machine.
Proof.
  set (V1 := upsert planned (qconst view_default) (rows planned)).
  apply (rtc_l _ _ (MkMachine planned (qconst view_default) None)).
  { apply (ls_plan _ _ _ [(Data, 2)] true); [repeat constructor; lia|vm_compute; reflexivity]. }
  apply (rtc_l _ _ (MkMachine planned V1 (Some (rows planned)))).
  { apply ls_commit. intros []; vm_compute; split; discriminate. }
  apply (rtc_l _ _ (MkMachine committed V1 None)); [apply ls_marked|].
  apply (rtc_l _ _ (MkMachine sent_one V1 None)).
  { apply (ls_start _ _ _ Data StartAdmitted); vm_compute; reflexivity. }
  apply (rtc_l _ _ (MkMachine done_one V1 None)).
  { apply ls_complete. vm_compute. reflexivity. }
  apply (rtc_l _ _ (MkMachine sent_two V1 None)).
  { apply (ls_start _ _ _ Data StartAdmitted); vm_compute; reflexivity. }
  apply rtc_refl.
Qed.

Lemma scheduled_polling_never_passes_cap_witness :
  gross_units sent_two true = 600 /\ gross_units sent_two true <= cap_units sent_two.
Proof.
  split; [vm_compute; reflexivity|].
  apply (scheduled_polling_never_passes_cap FleetPolling tesla_pricing 1 january 0 1767225600000
           sample_machine); [vm_compute; intuition discriminate | exact sample_machine_reachable].
Defined.

Lemma restart_never_undercounts_witness :
  let l' := load sample_ledger (store_rows sent_two (m_store sample_machine)) (Some 1767225700000) 5 in
  gross_units l' true = 600 /\ gross_units sent_two true <= gross_units l' true <= cap_units sent_two.
Proof.
  intros l'. split; [vm_compute; reflexivity|].
  apply (restart_never_undercounts FleetPolling tesla_pricing 1 january 0 1767225600000 sample_machine
           sample_ledger (Some 1767225700000) 5);
    [vm_compute; intuition discriminate | exact sample_machine_reachable | vm_compute; reflexivity ..].
Defined.

Lemma planned_request_never_waits_again_witness :
  (start sample_ledger Data).1 = IsWithheld WReservation /\
  (start (mark_persisted (plan sample_ledger [(Data, 1)]).2 (rows (plan sample_ledger [(Data, 1)]).2) 1) Data).1
    <> IsWithheld WReservation.
Proof.
  split; [vm_compute; reflexivity|].
  apply (planned_request_never_waits_again FleetPolling tesla_pricing 1 january 0 1767225600000
           sample_ledger (qconst view_default) Data 1 true (plan sample_ledger [(Data, 1)]).2 1).
  - vm_compute. intuition discriminate.
  - apply rtc_refl.
  - vm_compute. reflexivity.
  - discriminate.
  - vm_compute. reflexivity.
  - intros []; vm_compute; split; discriminate.
Defined.

Lemma month_change_is_monotonic_time_witness :
  let l := (refresh sample_ledger (Some 1769904000000) 1000000000).2 in
  span l = january /\ frozen l = true /\
  exists judged, containing judged = Some (span (refresh l (Some 1769904000001) 2678400000000000).2) /\
    vouched l 2678400000000000 judged.
Proof.
  intros l. split; [vm_compute; reflexivity|]. split; [vm_compute; reflexivity|].
  destruct (month_change_is_monotonic_time l 1769904000001 2678400000000000 "2026-01" "2026-02"
    (refresh l (Some 1769904000001) 2678400000000000).2) as (judged & H1 & H2 & _).
  - vm_compute; reflexivity.
  - vm_compute; intuition discriminate.
  - vm_compute; intuition discriminate.
  - vm_compute; reflexivity.
  - exists judged. split; assumption.
Defined.

Lemma counter_rows_satisfy_checks_witness :
  let l := record_completed sample_ledger Data true in
  rows l = [MkCounterRow "2026-01" "fleet_polling" "data" 1 1 1] /\ (0 <= 1 <= 1 /\ 1 <= 1).
Proof.
  intros l. split; [vm_compute; reflexivity|].
  apply (counter_rows_satisfy_checks FleetPolling tesla_pricing 1 january 0 1767225600000 l
           (MkCounterRow "2026-01" "fleet_polling" "data" 1 1 1)).
  - eapply rtc_l; [|apply rtc_refl]. apply as_recorded. vm_compute. reflexivity.
  - left.
Defined.

Lemma month_keys_name_and_order_witness :
  from_year_month 2025 12 = Some (MkMonthSpan "2025-12" 1764547200000 1767225600000) /\
  of_key "2025-12" = Some (MkMonthSpan "2025-12" 1764547200000 1767225600000).
Proof.
  split; [vm_compute; reflexivity|].
  apply (month_keys_name_and_order 2025 12 (MkMonthSpan "2025-12" 1764547200000 1767225600000)
    2026 1 january); (lia || (vm_compute; reflexivity)).
Defined.
