(* ===== verification/Wire.v ===== *)
(** * The token request and its answer

    [src/src/auth/legacy_auth/wire.rs]: the request body, the bounded read of
    the answer, the outcome table R45 and the validation of a 2xx answer, with
    [is_fleet_api_named] of [src/src/api/owner_api.rs].  The HTTP client and
    the JSON text reader and writer are parameters: what the client reported is
    an argument, and [serde_json] comes from [External] and [JsonText]. *)
From S2P Require Import Prelude RustStr F64 Vocabulary External Endpoint.
Local Open Scope string_scope.
Local Open Scope Z_scope.

Definition MAX_TOKEN_RESPONSE_BYTES : Z := 64 * 1024.
Definition MAX_TOKEN_BYTES : Z := 16 * 1024.
Definition MAX_ERROR_BODY_BYTES : nat := 4096.
Definition FLEET_API_NAME : string := "fleetapi".
Definition CLIENT_ID : string := "ownerapi".
Definition REFRESH_SCOPE : string := "openid email offline_access".

(** ** [serde_json] as the derived readers see it

    What the deserializer hands a visitor for one member value, and the member's
    reading as a [Value] (which can fail where a visitor that skips the value
    does not). *)
Inductive visited :=
| VisitUnit
| VisitBool (b : bool)
| VisitI64 (n : Z)
| VisitU64 (n : Z)
| VisitF64 (x : f64)
| VisitStr (s : string)
| VisitSeq
| VisitMap.

Record entry := MkEntry { e_visit : visited; e_value : option json }.

Class JsonText := {
  (** The members of one JSON object text with a name of the list, in text
      order and with repetitions; [None] when the text is not one JSON value. *)
  json_entries : list string -> string -> option (list (string * entry));
  (** [serde_json::to_writer] of an object of string members. *)
  json_write : list (string * string) -> option string;
}.

(** The entry of one member; a derived struct reader refuses a second one.
    [None] is the refusal, [Some None] an absent member. *)
Definition only_entry (k : string) (es : list (string * entry)) : option (option entry) :=
  match filter (fun e => e.1 = k) es with
  | [] => Some None
  | [e] => Some (Some e.2)
  | _ => None
  end.

(** [Option<T>]: JSON [null] and an absent member are [None]. *)
Definition optional {A} (read : entry -> option A) (e : option entry) : option (option A) :=
  match e with
  | None => Some None
  | Some e => match e_visit e with VisitUnit => Some None | _ => Some <$> read e end
  end.

Inductive Member := Text (s : string) | OtherValue.

(** [Member::deserialize]: every visitor method of the source. *)
Definition member_of (e : entry) : option Member :=
  match e_visit e with
  | VisitStr s => Some (Text s)
  | VisitUnit => None
  | VisitBool _ | VisitI64 _ | VisitU64 _ | VisitF64 _ | VisitSeq | VisitMap => Some OtherValue
  end.

Definition string_of (e : entry) : option string :=
  match e_visit e with VisitStr s => Some s | _ => None end.

Record WireAnswer := MkWireAnswer {
  w_access_token : option Member;
  w_refresh_token : option Member;
  w_id_token : option Member;
  w_expires_in : option json;
  w_token_type : option Member;
}.

(** The derived [Deserialize] of [WireAnswer]. *)
Definition read_wire_answer `{JsonText} (text : string) : option WireAnswer :=
  es ← json_entries ["access_token"; "refresh_token"; "id_token"; "expires_in"; "token_type"] text;
  access ← only_entry "access_token" es ≫= optional member_of;
  refresh ← only_entry "refresh_token" es ≫= optional member_of;
  id ← only_entry "id_token" es ≫= optional member_of;
  expires ← only_entry "expires_in" es ≫= optional e_value;
  kind ← only_entry "token_type" es ≫= optional member_of;
  Some (MkWireAnswer access refresh id expires kind).

(** ** The request *)

(** [token_request_body]: measured by one pass of the writer, filled by a
    second, and refused when the two lengths differ. *)
Definition token_request_body `{JsonText} (refresh_token : string) : option string :=
  let request := [("grant_type", "refresh_token"); ("client_id", CLIENT_ID);
                  ("refresh_token", refresh_token); ("scope", REFRESH_SCOPE)] in
  counter ← str_len <$> json_write request;
  body ← json_write request;
  then_some (str_len body =? counter) body.

Inductive AnswerBody := Complete (b : string) | TooLarge.

(** The two headers the unit reads, as [headers.get(..)?.to_str().ok()]. *)
Record HeaderMap := MkHeaders { h_retry_after : option string; h_date : option string }.

Record RawAnswer := MkRawAnswer { a_status : Z; a_headers : HeaderMap; a_body : AnswerBody }.

Inductive Exchange :=
| XNotSent
| ConnectTimedOut
| XUnknown
| Answer (a : RawAnswer).

(** What [reqwest::Error] reports about itself. *)
Record SendError := MkSendError { is_connect : bool; is_timeout : bool; is_builder : bool }.

Definition from_send_error (e : SendError) : Exchange :=
  if is_connect e && is_timeout e then ConnectTimedOut
  else if is_connect e || is_builder e then XNotSent
  else XUnknown.

(** The read loop of [PreparedRequest::send]: a chunk that failed to arrive is
    [None]; the accumulator never passes the cap. *)
Fixpoint read_chunks (status : Z) (headers : HeaderMap) (bytes : string)
    (chunks : list (option string)) : Exchange :=
  match chunks with
  | [] => Answer (MkRawAnswer status headers (Complete bytes))
  | None :: _ => XUnknown
  | Some chunk :: chunks =>
      if str_len chunk >? MAX_TOKEN_RESPONSE_BYTES - str_len bytes
      then Answer (MkRawAnswer status headers TooLarge)
      else read_chunks status headers (append bytes chunk) chunks
  end.

Record Response := MkResponse {
  r_status : Z;
  r_headers : HeaderMap;
  r_content_length : option Z;
  r_chunks : list (option string);
}.

(** [PreparedRequest::send], from what the client's [send] came to. *)
Definition send (outcome : result SendError Response) : Exchange :=
  match outcome with
  | Err error => from_send_error error
  | Ok response =>
      if is_some_and (r_content_length response) (fun length => length >? MAX_TOKEN_RESPONSE_BYTES)
      then Answer (MkRawAnswer (r_status response) (r_headers response) TooLarge)
      else read_chunks (r_status response) (r_headers response) "" (r_chunks response)
  end.

(** ** Error answers *)

Inductive TokenErrorCode :=
| InvalidRequest
| InvalidClient
| InvalidGrant
| UnauthorizedClient
| UnsupportedGrantType
| InvalidScope
| LoginRequired.
#[export] Instance TokenErrorCode_eq_dec : EqDecision TokenErrorCode.
Proof. solve_decision. Defined.

Definition is_json_whitespace (c : ascii) : bool :=
  (byte_of c =? 32) || (byte_of c =? 9) || (byte_of c =? 10) || (byte_of c =? 13).
Definition is_json_object_text (bytes : string) : bool :=
  match trim_start is_json_whitespace bytes with
  | String c _ => bool_decide (c = "{"%char)
  | EmptyString => false
  end.

Definition parse_error_code `{JsonText} (body : AnswerBody) : option TokenErrorCode :=
  match body with
  | TooLarge => None
  | Complete bytes =>
      if negb (is_json_object_text bytes) then None
      else
        es ← json_entries ["error"] bytes;
        error ← only_entry "error" es ≫= optional string_of;
        text ← error;
        if bool_decide (text = "invalid_request") then Some InvalidRequest
        else if bool_decide (text = "invalid_client") then Some InvalidClient
        else if bool_decide (text = "invalid_grant") then Some InvalidGrant
        else if bool_decide (text = "unauthorized_client") then Some UnauthorizedClient
        else if bool_decide (text = "unsupported_grant_type") then Some UnsupportedGrantType
        else if bool_decide (text = "invalid_scope") then Some InvalidScope
        else if bool_decide (text = "login_required") then Some LoginRequired
        else None
  end.

(** [String::from_utf8_lossy] keeps every ASCII byte and turns the rest into
    characters that are not ASCII; only ASCII letters and digits are read. *)
Definition error_body_texts `{External} (bytes : string) : list string :=
  let bytes := substring 0 MAX_ERROR_BODY_BYTES bytes in
  match json_from_slice bytes with
  | Some (JObject fields) =>
      omap (fun key => obj_get key fields ≫= json_as_str) ["error"; "error_description"]
  | _ => [bytes]
  end.

Fixpoint str_filter_map (p : ascii -> bool) (f : ascii -> ascii) (s : string) : string :=
  match s with
  | EmptyString => EmptyString
  | String c s => if p c then String (f c) (str_filter_map p f s) else str_filter_map p f s
  end.
(** [str::contains] of a [&str]. *)
Fixpoint str_has_sub (needle s : string) : bool :=
  is_some (strip_prefix needle s)
  || match s with EmptyString => false | String _ s => str_has_sub needle s end.

Definition is_fleet_api_named `{External} (bytes : string) : bool :=
  existsb (fun text =>
    str_has_sub FLEET_API_NAME (str_filter_map is_ascii_alphanumeric to_ascii_lowercase text))
    (error_body_texts bytes).

(** ** The outcome table *)

Inductive AttemptClass :=
| CNotSent
| CRotated
| CNotRotated
| ConsumedWithoutSuccessor
| CUnknown
| CClientRefused
| Dead
| RequestRejected
| Refused
| Misrouted
| Blocked
| Transient
| CNotRenewed.
#[export] Instance AttemptClass_eq_dec : EqDecision AttemptClass.
Proof. solve_decision. Defined.

Definition consumes_input (c : AttemptClass) : bool :=
  match c with
  | CRotated | ConsumedWithoutSuccessor | CUnknown | Dead => true
  | _ => false
  end.

Record FailedAnswer := MkFailedAnswer { f_class : AttemptClass; f_error : LegacyAuthError }.

Inductive AcceptedKind := Rotated | NotRotated | NotRenewed.
#[export] Instance AcceptedKind_eq_dec : EqDecision AcceptedKind.
Proof. solve_decision. Defined.

Definition kind_class (k : AcceptedKind) : AttemptClass :=
  match k with Rotated => CRotated | NotRotated => CNotRotated | NotRenewed => CNotRenewed end.

Record AcceptedTokens := MkAccepted {
  t_access_token : string;
  t_refresh_token : string;
  t_kind : AcceptedKind;
  t_expires_in : option json;
}.

Definition classify_error_answer (status : Z) (code : option TokenErrorCode) (names_fleet_api : bool)
    : FailedAnswer :=
  let eq s := status =? s in
  let client := match code with Some (InvalidClient | UnauthorizedClient) => true | _ => false end in
  let dead := match code with Some (InvalidGrant | LoginRequired) => true | _ => false end in
  if (eq 400 || eq 401) && client then MkFailedAnswer CClientRefused ClientRefused
  else if (eq 400 || eq 401) && dead then MkFailedAnswer Dead ERefreshTokenRejected
  else if eq 400 || (eq 401 && is_none code) then MkFailedAnswer RequestRejected (HttpStatus status)
  else if eq 403 && names_fleet_api then MkFailedAnswer Refused (OwnerApiRefused OwnerApi)
  else if eq 403 then MkFailedAnswer Blocked (HttpStatus status)
  else if eq 408 || eq 425 || eq 429 || ((500 <=? status) && (status <=? 599))
  then MkFailedAnswer Transient (HttpStatus status)
  else MkFailedAnswer Misrouted (HttpStatus status).

(** [StatusCode::is_success]. *)
Definition is_success (status : Z) : bool := (200 <=? status) && (status <=? 299).

Definition token_fits (ok : string -> bool) (text : string) : bool :=
  ok text && (str_len text <=? MAX_TOKEN_BYTES).

Section WithReaders.
Context `{X : External} `{J : JsonText}.

Definition accept_tokens (body : AnswerBody) (presented_access presented_refresh : string)
    (pinned : option string) : result FailedAnswer AcceptedTokens :=
  let unusable error := MkFailedAnswer ConsumedWithoutSuccessor error in
  let invalid := unusable InvalidResponse in
  match body with
  | TooLarge => Err (unusable ResponseTooLarge)
  | Complete bytes =>
      if negb (is_json_object_text bytes) then Err invalid
      else
        wire ← ok_or (read_wire_answer bytes) invalid;
        access_token ← match w_access_token wire with
                       | Some (Text text) =>
                           if token_fits is_access_token text then Ok text else Err invalid
                       | _ => Err invalid
                       end;
        new_refresh ← match w_refresh_token wire with
                      | None => Ok None
                      | Some (Text text) =>
                          if token_fits is_refresh_token text then Ok (Some text) else Err invalid
                      | Some OtherValue => Err invalid
                      end;
        _ ← match w_token_type wire with
            | None => Ok tt
            | Some (Text text) => if eq_ignore_ascii_case text "bearer" then Ok tt else Err invalid
            | Some OtherValue => Err invalid
            end;
        let other_issuer :=
          match pinned, parse_jwt access_token ≫= iss with
          | Some pinned, Some issuer => negb (bool_decide (issuer = pinned))
          | _, _ => false
          end in
        if (other_issuer : bool) then Err invalid
        else
          let rotated :=
            is_some_and new_refresh (fun refresh => negb (bool_decide (refresh = presented_refresh))) in
          let kind := if (rotated : bool) then Rotated
                      else if bool_decide (access_token = presented_access) then NotRenewed
                      else NotRotated in
          let refresh_token := match new_refresh with
                               | Some refresh => if (rotated : bool) then refresh else presented_refresh
                               | None => presented_refresh
                               end in
          Ok (MkAccepted access_token refresh_token kind (w_expires_in wire))
  end.

Definition classify_answer (answer : RawAnswer) (presented_access presented_refresh : string)
    (pinned : option string) : result FailedAnswer AcceptedTokens :=
  if is_success (a_status answer)
  then accept_tokens (a_body answer) presented_access presented_refresh pinned
  else
    let code := parse_error_code (a_body answer) in
    let names_fleet_api :=
      (a_status answer =? 403)
      && match a_body answer with
         | Complete bytes => is_fleet_api_named bytes
         | TooLarge => false
         end in
    Err (classify_error_answer (a_status answer) code names_fleet_api).

End WithReaders.

(** ** The read *)

Lemma str_app_cons c a b : append (String c a) b = String c (append a b).
Proof. reflexivity. Qed.
Lemma str_app_assoc a b c : append (append a b) c = append a (append b c).
Proof. induction a as [|x a IH]; [done|]. by rewrite !str_app_cons, IH. Qed.

Fixpoint chunks_text (chunks : list string) : string :=
  match chunks with [] => "" | c :: cs => append c (chunks_text cs) end.

Lemma read_chunks_Complete st h acc chunks a :
  str_len acc <= MAX_TOKEN_RESPONSE_BYTES ->
  read_chunks st h acc chunks = Answer a ->
  a_status a = st /\ a_headers a = h /\
  forall b, a_body a = Complete b <->
    exists cs, chunks = Some <$> cs /\ b = append acc (chunks_text cs) /\
      str_len b <= MAX_TOKEN_RESPONSE_BYTES.
Proof.
  revert acc. induction chunks as [|[c|] chunks IH]; intros acc Hacc; simpl; [| |done].
  - intros [= <-]. split_and!; [done..|]. intros b. split.
    + intros [= <-]. exists []. by rewrite str_append_nil.
    + intros (cs & E & -> & _). by destruct cs; [rewrite str_append_nil|].
  - destruct (str_len c >? _) eqn:E.
    + intros [= <-]. split_and!; [done..|]. intros b. split; [done|].
      intros ([|c' cs] & [= <- _] & -> & Hl). exfalso.
      rewrite Z.gtb_ltb in E. bsimp. cbn [chunks_text] in Hl. rewrite !str_len_app in Hl. unfold str_len in *. lia.
    + intros H. rewrite Z.gtb_ltb in E. bsimp.
      destruct (IH (append acc c)) as (? & ? & Hb); [rewrite str_len_app; lia|done|].
      split_and!; [done..|]. intros b. rewrite Hb. split.
      * intros (cs & -> & -> & ?). exists (c :: cs). cbn [chunks_text]. by rewrite <- str_app_assoc.
      * intros ([|c' cs] & [= <- ->] & -> & ?). exists cs. cbn [chunks_text]. rewrite str_app_assoc. done.
Qed.

Lemma read_chunks_kind st h acc chunks :
  (exists a, read_chunks st h acc chunks = Answer a) \/
  read_chunks st h acc chunks = XUnknown /\ None ∈ chunks.
Proof.
  revert acc. induction chunks as [|[c|] chunks IH]; intros acc; simpl;
    [eauto| |right; split; [done|by left]].
  case_match; [eauto|]. destruct (IH (append acc c)) as [?|[??]]; [eauto|].
  right. split; [done|by right].
Qed.

(** Reading the answer of a token request is bounded and never calls a sent
    request unsent: a request counts as not sent exactly when the client reports
    a connection-phase or builder failure, and a complete body is the
    concatenation of every chunk received, whole and within the cap. *)
Theorem send_is_bounded_and_honest outcome :
  (send outcome = XNotSent \/ send outcome = ConnectTimedOut <->
   exists e, outcome = Err e /\ (is_connect e = true \/ is_builder e = true)) /\
  (forall a b, send outcome = Answer a -> a_body a = Complete b ->
   str_len b <= MAX_TOKEN_RESPONSE_BYTES /\
   exists r cs, outcome = Ok r /\ r_chunks r = Some <$> cs /\ b = chunks_text cs /\
     a_status a = r_status r /\ a_headers a = r_headers r).
Proof.
  split.
  - destruct outcome as [r|[[] [] []]]; unfold send, from_send_error; simpl; try naive_solver.
    split; [|naive_solver]. case_match; [naive_solver|].
    destruct (read_chunks_kind (r_status r) (r_headers r) "" (r_chunks r)) as [[a ->]|[-> _]];
      naive_solver.
  - intros a b Hs Hb. destruct outcome as [r|e]; unfold send in Hs; [|unfold from_send_error in Hs; cases].
    case_match; [by simplify_eq|].
    apply read_chunks_Complete in Hs as (? & ? & Hc); [|done].
    apply Hc in Hb as (cs & ? & -> & ?). split; [done|]. by exists r, cs.
Qed.

(** ** The 2xx answer *)

(** What the new pair is to the presented one. *)
Definition renewal (presented_access presented_refresh access refresh : string) (k : AcceptedKind)
    : Prop :=
  match k with
  | Rotated => refresh <> presented_refresh
  | NotRotated => refresh = presented_refresh /\ access <> presented_access
  | NotRenewed => refresh = presented_refresh /\ access = presented_access
  end.

Section Accept.
Context `{X : External} `{J : JsonText}.

Inductive sound_grant (bytes pa pr : string) (pinned : option string) : AcceptedTokens -> Prop :=
| sound_grant_intro w access new_refresh kind :
    is_json_object_text bytes = true ->
    read_wire_answer bytes = Some w ->
    w_access_token w = Some (Text access) -> token_fits is_access_token access = true ->
    w_refresh_token w = Text <$> new_refresh ->
    is_none_or new_refresh (token_fits is_refresh_token) = true ->
    (w_token_type w = None \/
     exists s, w_token_type w = Some (Text s) /\ eq_ignore_ascii_case s "bearer" = true) ->
    (forall p i, pinned = Some p -> parse_jwt access ≫= iss = Some i -> i = p) ->
    renewal pa pr access (default pr new_refresh) kind ->
    sound_grant bytes pa pr pinned
      (MkAccepted access (default pr new_refresh) kind (w_expires_in w)).

(** The last step: kind and refresh token from the new member. *)
Lemma renewal_computed pa pr access new_refresh k r :
  let rotated := is_some_and new_refresh (fun refresh => negb (bool_decide (refresh = pr))) in
  (k = (if rotated then Rotated else if bool_decide (access = pa) then NotRenewed else NotRotated) /\
   r = match new_refresh with Some refresh => if rotated then refresh else pr | None => pr end) <->
  renewal pa pr access (default pr new_refresh) k /\ r = default pr new_refresh.
Proof.
  destruct new_refresh as [n|]; simpl; destruct k; repeat case_bool_decide; simpl; naive_solver.
Qed.

Lemma issuer_check pinned (found : option string) :
  match pinned, found with Some p, Some i => negb (bool_decide (i = p)) | _, _ => false end = false <->
  forall p i, pinned = Some p -> found = Some i -> i = p.
Proof. destruct pinned, found; simpl; try case_bool_decide; naive_solver. Qed.

Lemma accept_tokens_Ok bytes pa pr pinned t :
  accept_tokens (Complete bytes) pa pr pinned = Ok t <-> sound_grant bytes pa pr pinned t.
Proof.
  unfold accept_tokens. split.
  - destruct (is_json_object_text bytes) eqn:Hobj; simpl; [|done].
    destruct (read_wire_answer bytes) as [w|] eqn:Hw; simpl; [|done].
    destruct (w_access_token w) as [[a|]|] eqn:Ha; simpl; try done.
    destruct (token_fits is_access_token a) eqn:Hfit; simpl; [|done].
    intros H. apply result_bind_Ok in H as (nr & Hr & H).
    apply result_bind_Ok in H as ([] & Ht & H).
    assert (w_refresh_token w = Text <$> nr /\
            is_none_or nr (token_fits is_refresh_token) = true) as [? ?].
    { destruct (w_refresh_token w) as [[s|]|]; simplify_eq/=; [|done].
      destruct (token_fits is_refresh_token s) eqn:?; simplify_eq/=; auto. }
    match type of H with (if ?b then _ else _) = _ => destruct b eqn:Hi; [done|] end.
    pose proof (proj1 (issuer_check _ _) Hi). injection H as <-.
    destruct (proj1 (renewal_computed pa pr a nr _ _) (conj eq_refl eq_refl)) as [Hk ->].
    econstructor; try done.
    destruct (w_token_type w) as [[s|]|]; simplify_eq/=; [|by left].
    destruct (eq_ignore_ascii_case s "bearer") eqn:?; simplify_eq. right. eauto.
  - intros [w a nr k -> -> Ha Hfit Hr Hnr Htype Hi Hk]. simpl. rewrite Ha, Hfit. simpl.
    assert ((match w_refresh_token w with
             | None => Ok None
             | Some (Text text) =>
                 if token_fits is_refresh_token text then Ok (Some text)
                 else Err (MkFailedAnswer ConsumedWithoutSuccessor InvalidResponse)
             | Some OtherValue => Err (MkFailedAnswer ConsumedWithoutSuccessor InvalidResponse)
             end) = Ok nr) as ->.
    { rewrite Hr. destruct nr; simpl in *; [by rewrite Hnr|done]. }
    simpl.
    assert ((match w_token_type w with
             | None => Ok tt
             | Some (Text text) =>
                 if eq_ignore_ascii_case text "bearer" then Ok tt
                 else Err (MkFailedAnswer ConsumedWithoutSuccessor InvalidResponse)
             | Some OtherValue => Err (MkFailedAnswer ConsumedWithoutSuccessor InvalidResponse)
             end) = Ok tt) as ->.
    { destruct Htype as [->|(s & -> & ->)]; done. }
    simpl. rewrite (proj2 (issuer_check pinned (parse_jwt a ≫= iss)) Hi).
    destruct (proj2 (renewal_computed pa pr a nr k (default pr nr)) (conj Hk eq_refl)) as [-> ->].
    done.
Qed.

Lemma accept_tokens_Err body pa pr pinned f :
  accept_tokens body pa pr pinned = Err f -> f_class f = ConsumedWithoutSuccessor /\
  (f_error f = InvalidResponse \/ f_error f = ResponseTooLarge).
Proof.
  unfold accept_tokens, ok_or. intros H.
  repeat (case_match; simplify_eq/=; try (split; [done|]; auto; fail)).
Qed.

(** A 2xx answer is accepted exactly when it is a sound grant: a JSON object
    within the cap whose access token fits its grammar and size, whose refresh
    token is absent or fits, whose token type is absent or bearer, and which no
    other issuer minted; the accepted pair is then the new one, and its kind
    says truthfully whether the refresh token, only the access token or nothing
    changed. *)
Theorem accepted_exactly_sound_grants a pa pr pinned t :
  classify_answer a pa pr pinned = Ok t <->
  is_success (a_status a) = true /\
  exists bytes, a_body a = Complete bytes /\ sound_grant bytes pa pr pinned t.
Proof.
  unfold classify_answer. destruct (is_success (a_status a)); [|naive_solver].
  destruct (a_body a) as [bytes|]; [|naive_solver].
  rewrite accept_tokens_Ok. naive_solver.
Qed.

(** ** The outcome table *)

(** The class an answer falls in. *)
Definition answer_class (r : result FailedAnswer AcceptedTokens) : AttemptClass :=
  match r with Ok t => kind_class (t_kind t) | Err f => f_class f end.

Lemma classify_error_answer_spec status code fleet f :
  is_success status = false -> classify_error_answer status code fleet = f ->
  (consumes_input (f_class f) = true <->
   (status = 400 \/ status = 401) /\ (code = Some InvalidGrant \/ code = Some LoginRequired)) /\
  (is_terminal_auth_failure (f_error f) = true <-> status = 403 /\ fleet = true).
Proof.
  unfold classify_error_answer. intros _ <-.
  destruct (status =? 400) eqn:E0, (status =? 401) eqn:E1, (status =? 403) eqn:E3;
    bsimp; try lia; destruct code as [[]|], fleet; simpl;
    try (split; split; naive_solver lia);
    repeat (case_match; simpl; try (split; split; naive_solver lia)).
Qed.

(** The outcome table decides truthfully whether the presented refresh
    token is spent: after a 2xx unless the answer kept it, and after an error
    answer exactly when a 400 or 401 says the grant is invalid or a login is
    required; and an error answer ends collection only when a 403 names the
    Fleet API. *)
Theorem outcome_table_spends_truthfully a pa pr pinned :
  let r := classify_answer a pa pr pinned in
  (consumes_input (answer_class r) = true <->
   if is_success (a_status a)
   then forall t, r = Ok t -> t_refresh_token t <> pr
   else (a_status a = 400 \/ a_status a = 401) /\
        (parse_error_code (a_body a) = Some InvalidGrant \/
         parse_error_code (a_body a) = Some LoginRequired)) /\
  (forall f, r = Err f -> is_terminal_auth_failure (f_error f) = true ->
   a_status a = 403 /\ exists bytes, a_body a = Complete bytes /\ is_fleet_api_named bytes = true).
Proof.
  intros r. subst r. unfold classify_answer. destruct (is_success (a_status a)) eqn:Hs.
  - destruct (accept_tokens _ _ _ _) as [t|f] eqn:Ht; simpl.
    + split; [|done]. destruct (a_body a) as [bytes|]; [|done].
      apply accept_tokens_Ok in Ht as [w acc nr k _ _ _ _ _ _ _ _ Hk]. simpl.
      split; [intros Hc ? [= <-]; simpl|intros Hc; specialize (Hc _ eq_refl); simpl in Hc];
        destruct k; simpl in *; naive_solver.
    + apply accept_tokens_Err in Ht as [-> He]. split; [by split|].
      intros f' [= <-]. destruct He as [->| ->]; done.
  - match goal with |- context [classify_error_answer _ _ ?fleet] =>
      destruct (classify_error_answer_spec (a_status a) (parse_error_code (a_body a)) fleet _ Hs eq_refl)
        as [Hc Hterm] end.
    cbn [answer_class]. rewrite Hc.
    split; [done|]. intros f [= <-] Ht. rewrite Hterm in Ht. destruct Ht as [? Hf].
    split; [done|]. apply andb_true_iff in Hf as [_ Hf].
    destruct (a_body a) as [bytes|]; [|done]. eauto.
Qed.

End Accept.

(** A small [JsonText] that knows four answers, and the table evaluated on it. *)
Module SampleText.
Definition str (s : string) : entry := MkEntry (VisitStr s) (Some (JString s)).
Definition entries (names : list string) (text : string) : option (list (string * entry)) :=
  filter (fun e => e.1 ∈ names) <$>
  (if bool_decide (text = "{rotated}")
   then Some [("access_token", str "new"); ("refresh_token", str "next"); ("token_type", str "bearer")]
   else if bool_decide (text = "{same}") then Some [("access_token", str "old")]
   else if bool_decide (text = "{grant}") then Some [("error", str "invalid_grant")]
   else if bool_decide (text = "{twice}")
   then Some [("error", str "invalid_grant"); ("error", str "invalid_grant")]
   else None).
Definition json_text : JsonText := {| json_entries := entries; json_write _ := Some "{}" |}.
End SampleText.

Example classify_samples :
  let classify st body := answer_class (classify_answer (X := Sample.external) (J := SampleText.json_text)
    (MkRawAnswer st (MkHeaders None None) body) "old" "kept" None) in
  classify 200 (Complete "{rotated}") = CRotated /\
  classify 200 (Complete " {same}") = ConsumedWithoutSuccessor /\
  classify 200 (Complete "{same}") = CNotRenewed /\
  classify 401 (Complete "{grant}") = Dead /\
  classify 401 (Complete "{twice}") = RequestRejected /\
  classify 403 (Complete "Please use the FLEET-API.") = Refused /\
  classify 403 TooLarge = Blocked /\ classify 503 TooLarge = Transient /\ classify 302 TooLarge = Misrouted.
Proof. vm_compute. split_and!; reflexivity. Qed.
