(* ===== verification/Attempt.v ===== *)
(** * One token attempt and the single flight that runs it

    [src/src/auth/legacy_auth/attempt.rs].  The exchange is a computation over a
    state [S] that holds everything outside it (the store, the guard, the clock,
    the shutdown flag, the network); the ports and the client are functions of
    that state, so every interleaving of the world with the exchange is some
    choice of them.  The SHA-256 of a generation is a parameter. *)
From S2P Require Import Prelude Effects RustStr F64 Vocabulary External Bytes Endpoint AuthState PairRow Schedule Wire.
Local Open Scope string_scope.
Local Open Scope Z_scope.

(** ** Data *)

Inductive OutboundRequestOutcome :=
| OSuccess
| OHttpError
| OTimeout
| OTransportError
| OAuthenticationRejected
| OProtocolError
| OResponseTooLarge
| OCancelled.
#[export] Instance OutboundRequestOutcome_eq_dec : EqDecision OutboundRequestOutcome.
Proof. solve_decision. Defined.

Record Attempt := MkAttempt { at_receipt : option ReceiptId; at_input : Uuid }.
#[export] Instance Attempt_eq_dec : EqDecision Attempt.
Proof. solve_decision. Defined.

Inductive BeginFailure := BExternalWrite | BOwnOutput | BUnresolved | BStore.

Record Closing := MkClosing {
  cl_outcome : OutboundRequestOutcome;
  cl_http_status : option Z;
  cl_retry_after_seconds : option Z;
  release_input : bool;
}.
#[export] Instance Closing_eq_dec : EqDecision Closing.
Proof. solve_decision. Defined.

Inductive PendingClose :=
| PCancel (a : Attempt)
| PClose (a : Attempt) (c : Closing).

Record SuccessorPair := MkSuccessor {
  sp_access_token : string;
  sp_refresh_token : string;
  sp_kind : AcceptedKind;
  sp_schedule : Schedule;
  sp_sent_at : Z;
  sp_input : Uuid;
  sp_output : Uuid;
  sp_attempt : Attempt;
}.

Inductive ExchangeKind :=
| KNotSent (reason : RetryReason)
| KAborted
| KRowChanged (f : BeginFailure)
| KPersisted (successor : SuccessorPair)
| KPending (successor : SuccessorPair) (error : LegacyAuthError)
| KExternal
| KFailed (class : AttemptClass) (error : LegacyAuthError) (status : option Z) (retry_after : option Z).

Record ExchangeResult := MkExchangeResult {
  x_kind : ExchangeKind;
  x_input : Uuid;
  x_sent_at : option Z;
  x_finished_at : Z;
  x_server_date : option string;
  x_pending_close : option PendingClose;
}.
#[export] Instance eta_ExchangeResult : Eta ExchangeResult := fun x =>
  MkExchangeResult (x_kind x) (x_input x) (x_sent_at x) (x_finished_at x) (x_server_date x)
    (x_pending_close x).

(** [AttemptPorts]; [finish] belongs to the manager that owes a closing. *)
Record AttemptPorts (S : Type) := MkPorts {
  sensitive_access : st S (result LegacyAuthError unit);
  begin : st S (result BeginFailure Attempt);
  cancel_unsent : Attempt -> st S (result unit unit);
  close : Attempt -> Closing -> st S (result unit unit);
  finish : PendingClose -> st S (result unit unit);
  persist : Attempt -> SuccessorPair -> st S (result unit unit);
  reread : Attempt -> Uuid -> st S PersistReread;
}.
Arguments MkPorts {S}.
Arguments sensitive_access {S} _.
Arguments begin {S} _.
Arguments cancel_unsent {S} _ _.
Arguments close {S} _ _ _.
Arguments finish {S} _ _.
Arguments persist {S} _ _ _.
Arguments reread {S} _ _ _.

(** ** The successor *)

Definition GENERATION_DOMAIN : string :=
  append "teslatlas-hub:legacy-refresh-generation:v1" (String "000"%char "").
Definition legacy_refresh_credential_generation `{Digest} (refresh : string) : Uuid :=
  let bytes := sha256 (append GENERATION_DOMAIN (append (le_bytes 8 (str_len refresh)) refresh)) in
  be_value 0 (substring 0 16 bytes).

(** [validate_token_component] of [credentials.rs]. *)
Definition validate_token_component (value : string) : bool :=
  negb (str_is_empty value) && (str_len value <=? MAX_TOKEN_BYTES)
  && negb (str_any (fun b => (byte_of b =? 0) || (byte_of b =? 13) || (byte_of b =? 10)
                             || is_ascii_control b) value).
Definition from_secret_parts (access_token refresh_token : string) : option (string * string) :=
  then_some (validate_token_component access_token && validate_token_component refresh_token)
    (access_token, refresh_token).

Definition closing_for (class : AttemptClass) (status : Z) (retry_after : option Z) : option Closing :=
  let http outcome release := MkClosing outcome (Some status) None release in
  match class with
  | Dead => Some (http OAuthenticationRejected false)
  | CClientRefused | RequestRejected | Refused | Misrouted | Blocked => Some (http OHttpError true)
  | Transient =>
      Some (MkClosing OHttpError (Some status) (retry_after ≫= u64_try_from) true)
  | CNotRenewed => Some (http OSuccess true)
  | CNotSent | CRotated | CNotRotated | ConsumedWithoutSuccessor | CUnknown => None
  end.

Definition successor_of `{External} `{Digest} (accepted : AcceptedTokens) (sent_at : Z) (a : Attempt)
    : option SuccessorPair :=
  tokens ← from_secret_parts (t_access_token accepted) (t_refresh_token accepted);
  let output := legacy_refresh_credential_generation tokens.2 in
  if bool_decide (t_kind accepted = Rotated) && (output =? at_input a) then None
  else
    Some (MkSuccessor (t_access_token accepted) (t_refresh_token accepted) (t_kind accepted)
      (after_send sent_at (t_expires_in accepted) (t_access_token accepted)) sent_at
      (at_input a) output a).

(** ** Writing the successor *)

Inductive PersistStep :=
| PDone
| PPending (error : LegacyAuthError)
| PExternal.

(** The write under the guard. *)
Definition persist_write {S} (ports : AttemptPorts S) (successor : SuccessorPair) : st S PersistStep :=
  guard ← sensitive_access ports;
  match guard with
  | Err _ => mret (PPending SensitivePersistenceUnavailable)
  | Ok _ =>
      written ← persist ports (sp_attempt successor) successor;
      mret (match written with Ok _ => PDone | Err _ => PPending Persistence end)
  end.

Definition persist_step {S} (ports : AttemptPorts S) (successor : SuccessorPair)
    (reread_first : bool) : st S PersistStep :=
  if reread_first then
    found ← reread ports (sp_attempt successor) (sp_output successor);
    match found with
    | AlreadyPersisted =>
        if bool_decide (sp_kind successor = Rotated) || negb (sp_output successor =? sp_input successor)
        then mret PDone
        else persist_write ports successor
    | ClosedForThisAttempt => mret PDone
    | RereadExternal => mret PExternal
    | StillInput | RereadMissing => persist_write ports successor
    end
  else persist_write ports successor.

(** ** The exchange *)

Section Exchange.
Context `{X : External} `{J : JsonText} `{D : Digest} {S : Type}.

(** [ExchangeInput]: what the detached task owns.  [client_send] is what the
    client's POST of a body to the endpoint comes to. *)
Record ExchangeInput := MkExchangeInput {
  client_send : Url -> string -> st S (result SendError Response);
  i_endpoint : Url;
  i_access_token : string;
  i_refresh_token : string;
  i_pinned_issuer : option string;
  i_ports : AttemptPorts S;
  env_now : st S Z;
  shutdown : st S bool;
  i_generation : Uuid;
}.

Definition ended (I : ExchangeInput) (kind : ExchangeKind) (input : Uuid) (sent_at : option Z)
    (date : option string) : st S ExchangeResult :=
  now ← env_now I;
  mret (MkExchangeResult kind input sent_at now date None).

(** The closure [cancel]. *)
Definition exchange_cancel (I : ExchangeInput) (a : Attempt) (kind : ExchangeKind) : st S ExchangeResult :=
  result ← ended I kind (at_input a) None None;
  cancelled ← cancel_unsent (i_ports I) a;
  mret (match cancelled with
        | Ok _ => result
        | Err _ => result <| x_pending_close := Some (PCancel a) |>
        end).

(** The closure [close]. *)
Definition exchange_close (I : ExchangeInput) (a : Attempt) (closing : Closing)
    : st S (option PendingClose) :=
  closed ← close (i_ports I) a closing;
  mret (match closed with Ok _ => None | Err _ => Some (PClose a closing) end).

Definition close_class (I : ExchangeInput) (a : Attempt) (closing : option Closing)
    : st S (option PendingClose) :=
  match closing with
  | None => mret None
  | Some closing => exchange_close I a closing
  end.

(** From a complete answer to the result. *)
Definition exchange_answer (I : ExchangeInput) (a : Attempt) (sent_at : Z) (answer : RawAnswer)
    : st S ExchangeResult :=
  let server_date := h_date (a_headers answer) in
  let status := a_status answer in
  match classify_answer answer (i_access_token I) (i_refresh_token I) (i_pinned_issuer I) with
  | Err failure =>
      now ← env_now I;
      let retry_after := retry_after_seconds (h_retry_after (a_headers answer)) now in
      pending ← close_class I a (closing_for (f_class failure) status retry_after);
      result ← ended I (KFailed (f_class failure) (f_error failure) (Some status) retry_after)
                 (at_input a) (Some sent_at) server_date;
      mret (result <| x_pending_close := pending |>)
  | Ok accepted =>
      if bool_decide (t_kind accepted = NotRenewed) then
        pending ← close_class I a (closing_for CNotRenewed status None);
        result ← ended I (KFailed CNotRenewed ERefreshNotRenewed (Some status) None)
                   (at_input a) (Some sent_at) server_date;
        mret (result <| x_pending_close := pending |>)
      else
        match successor_of accepted sent_at a with
        | None =>
            ended I (KFailed ConsumedWithoutSuccessor InvalidResponse (Some status) None)
              (at_input a) (Some sent_at) server_date
        | Some successor =>
            step ← persist_step (i_ports I) successor false;
            ended I (match step with
                     | PDone => KPersisted successor
                     | PPending error => KPending successor error
                     | PExternal => KExternal
                     end) (at_input a) (Some sent_at) server_date
        end
  end.

(** From the guard to the send, and the connection-phase outcomes. *)
Definition exchange_send (I : ExchangeInput) (a : Attempt) (body : string) : st S ExchangeResult :=
  guard ← sensitive_access (i_ports I);
  match guard with
  | Err _ => exchange_cancel I a (KNotSent SensitiveAccess)
  | Ok _ =>
      stopping ← shutdown I;
      if (stopping : bool) then exchange_cancel I a KAborted
      else
        sent_at ← env_now I;
        outcome ← client_send I (i_endpoint I) body;
        match send outcome with
        | (XNotSent | ConnectTimedOut) as failed =>
            let outcome := match failed with ConnectTimedOut => OTimeout | _ => OTransportError end in
            pending ← exchange_close I a (MkClosing outcome None None true);
            result ← ended I (KNotSent Network) (at_input a) (Some sent_at) None;
            mret (result <| x_pending_close := pending |>)
        | XUnknown =>
            guard ← sensitive_access (i_ports I);
            let error := match guard with
                         | Err _ => SensitiveRotationOutcomeUnknown
                         | Ok _ => RotationOutcomeUnknown
                         end in
            ended I (KFailed CUnknown error None None) (at_input a) (Some sent_at) None
        | Answer answer => exchange_answer I a sent_at answer
        end
  end.

Definition run_exchange (I : ExchangeInput) : st S ExchangeResult :=
  reserved ← begin (i_ports I);
  match reserved with
  | Err failure => ended I (KRowChanged failure) (i_generation I) None None
  | Ok a =>
      match token_request_body (i_refresh_token I) with
      | None => exchange_cancel I a (KNotSent Network)
      | Some body => exchange_send I a body
      end
  end.
End Exchange.
Arguments ExchangeInput {_} S.

(** ** The single flight *)

Inductive FlightState :=
| Idle
| Running
| Finished (r : ExchangeResult).

Definition is_running (f : FlightState) : bool := match f with Running => true | _ => false end.

(** [Flight::start]: whether the exchange task was spawned. *)
Definition flight_start (f : FlightState) : bool * FlightState :=
  match f with Idle => (true, Running) | _ => (false, f) end.

Definition take_result (f : FlightState) : option ExchangeResult * FlightState :=
  match f with Finished r => (Some r, Idle) | _ => (None, f) end.

Definition publish (r : ExchangeResult) (f : FlightState) : FlightState := Finished r.

Record FinishGuard := MkFinishGuard { g_input : Uuid; g_finished : bool }.

(** [FinishGuard::finish] and its [Drop]. *)
Definition guard_finish (g : FinishGuard) (r : ExchangeResult) (f : FlightState) : FinishGuard * FlightState :=
  (MkFinishGuard (g_input g) true, publish r f).
Definition finish_guard_drop (g : FinishGuard) (now : Z) (f : FlightState) : FlightState :=
  if g_finished g then f
  else publish (MkExchangeResult (KFailed CUnknown RotationOutcomeUnknown None None)
                  (g_input g) None now None None) f.
