(* ===== verification/AttemptSafety.v ===== *)
(** * What an attempt does to the refresh token

    Theorems about [Attempt]: the calls one exchange makes on its ports, whatever
    they answer; the writing of a successor; and the single flight. *)
From S2P Require Import Prelude Effects RustStr F64 Vocabulary External Endpoint AuthState PairRow Schedule Wire Attempt.
Local Open Scope string_scope.
Local Open Scope Z_scope.

(** ** The calls of an exchange *)

Inductive Call :=
| CallBegin (r : result BeginFailure Attempt)
| CallSent (e : Exchange)
| CallCancel (a : Attempt) (done : bool)
| CallClose (a : Attempt) (c : Closing) (done : bool)
| CallPersist (a : Attempt) (p : SuccessorPair) (done : bool).

Definition noted_ports {S} (p : AttemptPorts S) : AttemptPorts (S * list Call) := {|
  sensitive_access := quiet (sensitive_access p);
  begin := noting CallBegin (begin p);
  cancel_unsent a := noting (fun r => CallCancel a (is_ok r)) (cancel_unsent p a);
  close a c := noting (fun r => CallClose a c (is_ok r)) (close p a c);
  finish c := quiet (finish p c);
  persist a sp := noting (fun r => CallPersist a sp (is_ok r)) (persist p a sp);
  reread a g := quiet (reread p a g);
|}.

Section Noted.
Context `{X : External} `{J : JsonText} `{D : Digest} {S : Type}.

Definition noted (I : ExchangeInput S) : ExchangeInput (S * list Call) := {|
  client_send u b := noting (fun outcome => CallSent (send outcome)) (client_send I u b);
  i_endpoint := i_endpoint I;
  i_access_token := i_access_token I;
  i_refresh_token := i_refresh_token I;
  i_pinned_issuer := i_pinned_issuer I;
  i_ports := noted_ports (i_ports I);
  env_now := quiet (env_now I);
  shutdown := quiet (shutdown I);
  i_generation := i_generation I;
|}.

Definition sends (log : list Call) : list Exchange :=
  omap (fun c => match c with CallSent e => Some e | _ => None end) log.

(** The class of what a send came to. *)
Definition exchange_class (I : ExchangeInput S) (e : Exchange) : AttemptClass :=
  match e with
  | XNotSent | ConnectTimedOut => CNotSent
  | XUnknown => CUnknown
  | Answer a =>
      answer_class (classify_answer a (i_access_token I) (i_refresh_token I) (i_pinned_issuer I))
  end.

(** A call that asks the store to let the input be sent again, one that settles
    the receipt at all, and one that freed the input. *)
Definition frees (c : Call) : bool :=
  match c with CallCancel _ _ => true | CallClose _ c _ => release_input c | _ => false end.
Definition settles (c : Call) : bool :=
  match c with CallCancel _ _ | CallClose _ _ _ | CallPersist _ _ _ => true | _ => false end.
Definition freed (c : Call) : bool :=
  match c with CallCancel _ d => d | CallClose _ c d => release_input c && d | _ => false end.
Definition pending_frees (p : PendingClose) : bool :=
  match p with PCancel _ => true | PClose _ c => release_input c end.

(** The result says the input was not spent. *)
Definition reports_unspent (k : ExchangeKind) : bool :=
  match k with
  | KNotSent _ | KAborted => true
  | KFailed class _ _ _ => negb (consumes_input class)
  | _ => false
  end.

Record exchange_ok (I : ExchangeInput S) (r : ExchangeResult) (log : list Call) : Prop := {
  ok_one_send : (length (sends log) <= 1)%nat;
  ok_reserved : sends log <> [] -> exists a rest, log = CallBegin (Ok a) :: rest;
  ok_frees e : e ∈ sends log -> consumes_input (exchange_class I e) = true ->
    existsb frees log = false /\ is_some_and (x_pending_close r) pending_frees = false;
  ok_unresolved e : e ∈ sends log ->
    exchange_class I e = CUnknown \/ exchange_class I e = ConsumedWithoutSuccessor ->
    existsb settles log = false /\ x_pending_close r = None;
  ok_unspent : reports_unspent (x_kind r) = true ->
    existsb freed log = true \/ is_some_and (x_pending_close r) pending_frees = true;
}.

Lemma closing_for_release class status ra c :
  closing_for class status ra = Some c -> release_input c = negb (consumes_input class).
Proof. by destruct class; intros [= <-]. Qed.

(** Only row 4 leaves a failed answer without a closing. *)
Lemma failed_unclosed answer pa pr pinned f status ra :
  classify_answer answer pa pr pinned = Err f -> closing_for (f_class f) status ra = None ->
  f_class f = ConsumedWithoutSuccessor.
Proof.
  unfold classify_answer. case_match; [by intros [-> _]%accept_tokens_Err|].
  intros [= <-]. unfold classify_error_answer. repeat case_match; done.
Qed.

Lemma ended_wp I k i sa d Q s log :
  (forall now s', Q (MkExchangeResult k i sa now d None) (s', log)) ->
  wp (ended (noted I) k i sa d) Q (s, log).
Proof. intros H. apply wp_bind, wp_quiet. intros now s'. apply wp_ret, H. Qed.

Lemma close_wp I a c Q s log :
  (forall (d : bool) s', Q (if d then None else Some (PClose a c)) (s', (log ++ [CallClose a c d])%list)) ->
  wp (exchange_close (noted I) a c) Q (s, log).
Proof.
  intros H. apply wp_bind, wp_noting. intros r s'. apply wp_ret. destruct r; [apply (H true)|apply (H false)].
Qed.

Lemma cancel_wp I a k Q s log :
  (forall now (d : bool) s', Q (MkExchangeResult k (at_input a) None now None (if d then None else Some (PCancel a)))
     (s', (log ++ [CallCancel a d])%list)) ->
  wp (exchange_cancel (noted I) a k) Q (s, log).
Proof.
  intros H. apply wp_bind, ended_wp. intros now s'. apply wp_bind, wp_noting. intros r s''.
  apply wp_ret. destruct r; [apply (H now true)|apply (H now false)].
Qed.

(** The verdict of one finished exchange is a finite check. *)
Ltac verdict Hk :=
  constructor; simpl;
  [ lia
  | by eauto
  | intros ? ->%list_elem_of_singleton; rewrite Hk
  | intros ? ->%list_elem_of_singleton; rewrite Hk
  | idtac ].

Lemma persist_wp I sp Q s log :
  (forall step s' calls, step <> PExternal ->
     (calls = [] \/ exists d, calls = [CallPersist (sp_attempt sp) sp d]) ->
     Q step (s', (log ++ calls)%list)) ->
  wp (persist_step (i_ports (noted I)) sp false) Q (s, log).
Proof.
  intros H. apply wp_bind, wp_quiet. intros [g|g] s'.
  - apply wp_bind, wp_noting. intros r s''. apply wp_ret. apply H; [by destruct r|eauto].
  - apply wp_ret. rewrite <- (app_nil_r log). apply H; auto.
Qed.

Lemma answer_ok I a sent_at answer s :
  wp (exchange_answer (noted I) a sent_at answer) (fun r w => exchange_ok I r w.2)
    (s, [CallBegin (Ok a); CallSent (Answer answer)]).
Proof.
  unfold exchange_answer. cbn [i_access_token i_refresh_token i_pinned_issuer noted].
  destruct (classify_answer _ _ _ _) as [t|f] eqn:Hc.
  - assert (exchange_class I (Answer answer) = kind_class (t_kind t)) as Hk.
    { simpl. by rewrite Hc. }
    case_bool_decide as Hr.
    + rewrite Hr in Hk. apply wp_bind, close_wp. intros d s1.
      apply wp_bind, ended_wp. intros now s2. apply wp_ret. 
      destruct d; verdict Hk; naive_solver.
    + destruct (successor_of t sent_at a) as [sp|].
      * apply wp_bind, persist_wp. intros step s1 calls Hs Hcalls. apply ended_wp. intros now s2.
        destruct Hcalls as [->|[d ->]]; verdict Hk; destruct step, (t_kind t); naive_solver.
      * apply ended_wp. intros now s1. verdict Hk; naive_solver.
  - assert (exchange_class I (Answer answer) = f_class f) as Hk.
    { simpl. by rewrite Hc. }
    apply wp_bind, wp_quiet. intros now s1. apply wp_bind.
    destruct (closing_for (f_class f) _ _) as [c|] eqn:Hcl; simpl.
    + pose proof (closing_for_release _ _ _ _ Hcl) as Hrel.
      apply close_wp. intros d s2. apply wp_bind, ended_wp. intros now' s3. apply wp_ret.
      destruct (f_class f), d; simpl in Hcl, Hrel; simplify_eq; verdict Hk; naive_solver.
    + apply wp_ret, wp_bind, ended_wp. intros now' s2. apply wp_ret.
      rewrite (failed_unclosed _ _ _ _ _ _ _ Hc Hcl) in Hk |- *. verdict Hk; naive_solver.
Qed.

Lemma send_ok I a body s :
  wp (exchange_send (noted I) a body) (fun r w => exchange_ok I r w.2) (s, [CallBegin (Ok a)]).
Proof.
  apply wp_bind, wp_quiet. intros [g|g] s1;
    [|apply cancel_wp; intros now d s2; split; destruct d; simpl; set_solver by lia].
  apply wp_bind, wp_quiet. intros [] s2;
    [apply cancel_wp; intros now d s3; split; destruct d; simpl; set_solver by lia|].
  apply wp_bind, wp_quiet. intros sent_at s3. apply wp_bind, wp_noting. intros outcome s4.
  destruct (send outcome) as [| | |answer] eqn:Hs; simpl; [| | |apply answer_ok].
  3: { apply wp_bind, wp_quiet. intros g' s5. apply ended_wp. intros now s6.
       assert (exchange_class I XUnknown = CUnknown) as Hk by done. verdict Hk; naive_solver. }
  all: apply wp_bind, close_wp; intros d s5; apply wp_bind, ended_wp; intros now s6; apply wp_ret.
  - assert (exchange_class I XNotSent = CNotSent) as Hk by done.
    destruct d; verdict Hk; naive_solver.
  - assert (exchange_class I ConnectTimedOut = CNotSent) as Hk by done.
    destruct d; verdict Hk; naive_solver.
Qed.

(** C20. A refresh token is never freed for another request unless it certainly
    was not spent, and never forgotten when it was not: whatever the store, the
    guard, the clock, the shutdown flag and the network answer, an exchange
    sends at most once; if what the send came to spends the input (or may have),
    no call and no owed closing releases it, and an outcome that is unknown or
    unusable leaves the attempt unresolved; and if the result reports the input
    unspent, a call has released it or a closing that will is owed. *)
Theorem exchange_never_frees_a_spent_token (I : ExchangeInput S) s :
  let '(r, (_, log)) := run_exchange (noted I) (s, []) in exchange_ok I r log.
Proof.
  enough (wp (run_exchange (noted I)) (fun r w => exchange_ok I r w.2) (s, [])) as H.
  { unfold wp in H. by destruct (run_exchange (noted I) (s, [])) as [r [s' log]]. }
  apply wp_bind, wp_noting. intros [a|f] s1; [|apply ended_wp; intros; split; simpl; set_solver by lia].
  cbn [i_refresh_token noted]. destruct (token_request_body _) as [body|]; [apply send_ok|].
  apply cancel_wp. intros now d s2. split; destruct d; simpl; set_solver by lia.
Qed.

(** ** What the result says about the send *)

(** The result kinds an outcome of the send at [sent_at] can end in. *)
Inductive ends_in (I : ExchangeInput S) (sent_at : Z) : Exchange -> ExchangeKind -> Prop :=
| ends_not_sent : ends_in I sent_at XNotSent (KNotSent Network)
| ends_timed_out : ends_in I sent_at ConnectTimedOut (KNotSent Network)
| ends_unknown error : ends_in I sent_at XUnknown (KFailed CUnknown error None None)
| ends_failed a f ra :
    classify_answer a (i_access_token I) (i_refresh_token I) (i_pinned_issuer I) = Err f ->
    ends_in I sent_at (Answer a) (KFailed (f_class f) (f_error f) (Some (a_status a)) ra)
| ends_not_renewed a t error status ra :
    classify_answer a (i_access_token I) (i_refresh_token I) (i_pinned_issuer I) = Ok t ->
    t_kind t = NotRenewed ->
    ends_in I sent_at (Answer a) (KFailed CNotRenewed error status ra)
| ends_unusable a t error status ra :
    classify_answer a (i_access_token I) (i_refresh_token I) (i_pinned_issuer I) = Ok t ->
    ends_in I sent_at (Answer a) (KFailed ConsumedWithoutSuccessor error status ra)
| ends_successor a t at_ sp k :
    classify_answer a (i_access_token I) (i_refresh_token I) (i_pinned_issuer I) = Ok t ->
    t_kind t <> NotRenewed -> successor_of t sent_at at_ = Some sp ->
    k = KPersisted sp \/ (exists error, k = KPending sp error) ->
    ends_in I sent_at (Answer a) k.

Definition tells_truth (I : ExchangeInput S) (r : ExchangeResult) (log : list Call) : Prop :=
  match sends log with
  | [] => x_sent_at r = None
  | [e] => exists t, x_sent_at r = Some t /\ ends_in I t e (x_kind r)
  | _ => False
  end.

Lemma answer_tells I a sent_at answer s :
  wp (exchange_answer (noted I) a sent_at answer) (fun r w => tells_truth I r w.2)
    (s, [CallBegin (Ok a); CallSent (Answer answer)]).
Proof.
  unfold exchange_answer. cbn [i_access_token i_refresh_token i_pinned_issuer noted].
  destruct (classify_answer _ _ _ _) as [t|f] eqn:Hc.
  - case_bool_decide as Hr.
    + apply wp_bind, close_wp. intros d s1. apply wp_bind, ended_wp. intros now s2. apply wp_ret.
      eexists. split; [done|]. by eapply ends_not_renewed.
    + destruct (successor_of t sent_at a) as [sp|] eqn:Hsp.
      * apply wp_bind, persist_wp. intros step s1 calls Hs Hcalls. apply ended_wp. intros now s2.
        destruct Hcalls as [->|[d ->]]; (eexists; split; [done|]); eapply ends_successor;
          try done; destruct step; naive_solver.
      * apply ended_wp. intros now s1. eexists. split; [done|]. by eapply ends_unusable.
  - apply wp_bind, wp_quiet. intros now s1. apply wp_bind.
    destruct (closing_for _ _ _) as [c|]; simpl.
    + apply close_wp. intros d s2. apply wp_bind, ended_wp. intros now' s3. apply wp_ret.
      eexists. split; [done|]. by apply ends_failed.
    + apply wp_ret, wp_bind, ended_wp. intros now' s2. apply wp_ret.
      eexists. split; [done|]. by apply ends_failed.
Qed.

Lemma exchange_tells_truth (I : ExchangeInput S) s :
  wp (run_exchange (noted I)) (fun r w => tells_truth I r w.2) (s, []).
Proof.
  apply wp_bind, wp_noting. intros [a|f] s1; [|by apply ended_wp].
  cbn [i_refresh_token noted]. destruct (token_request_body _) as [body|]; [|by apply cancel_wp].
  apply wp_bind, wp_quiet. intros [g|g] s2; [|by apply cancel_wp].
  apply wp_bind, wp_quiet. intros [] s3; [by apply cancel_wp|].
  apply wp_bind, wp_quiet. intros sent_at s4. apply wp_bind, wp_noting. intros outcome s5.
  destruct (send outcome) as [| | |answer] eqn:Hs; simpl; [| | |apply answer_tells].
  3: { apply wp_bind, wp_quiet. intros g' s6. apply ended_wp. intros now s7.
       eexists. split; [done|]. constructor. }
  all: apply wp_bind, close_wp; intros d s6; apply wp_bind, ended_wp; intros now s7; apply wp_ret;
    eexists; split; [done|]; constructor.
Qed.
End Noted.

(** ** The single flight *)

(** The flight with the guards of its live tasks, and what was published and
    taken so far. *)
Record FlightWorld := MkFlightWorld {
  fw_state : FlightState;
  fw_tasks : list FinishGuard;
  fw_started : nat;
  fw_published : list ExchangeResult;
  fw_taken : list ExchangeResult;
}.

Definition guard_result (g : FinishGuard) (now : Z) : ExchangeResult :=
  MkExchangeResult (KFailed CUnknown RotationOutcomeUnknown None None) (g_input g) None now None None.

Inductive flight_step : FlightWorld -> FlightWorld -> Prop :=
| fs_start f tasks n pub taken input spawned f' :
    flight_start f = (spawned, f') ->
    flight_step (MkFlightWorld f tasks n pub taken)
      (if (spawned : bool) then MkFlightWorld f' (MkFinishGuard input false :: tasks) (S n) pub taken
       else MkFlightWorld f' tasks n pub taken)
| fs_finish f before g after n pub taken r g' f' now :
    guard_finish g r f = (g', f') ->
    flight_step (MkFlightWorld f (before ++ g :: after)%list n pub taken)
      (MkFlightWorld (finish_guard_drop g' now f') (before ++ after)%list n (pub ++ [r])%list taken)
| fs_panic f before g after n pub taken now :
    flight_step (MkFlightWorld f (before ++ g :: after)%list n pub taken)
      (MkFlightWorld (finish_guard_drop g now f) (before ++ after)%list n (pub ++ [guard_result g now])%list taken)
| fs_take f tasks n pub taken r f' :
    take_result f = (r, f') ->
    flight_step (MkFlightWorld f tasks n pub taken) (MkFlightWorld f' tasks n pub (taken ++ option_list r)%list).

Record flight_inv (w : FlightWorld) : Prop := {
  fi_running : is_running (fw_state w) = true <-> fw_tasks w <> [];
  fi_single : (length (fw_tasks w) <= 1)%nat;
  fi_fresh : Forall (fun g => g_finished g = false) (fw_tasks w);
  fi_accounted : fw_started w = (length (fw_tasks w) + length (fw_published w))%nat;
  fi_delivered : fw_published w =
    (fw_taken w ++ match fw_state w with Finished r => [r] | _ => [] end)%list;
}.

(** A flight with a live task has exactly that one. *)
Lemma one_task (before after : list FinishGuard) g :
  (length (before ++ g :: after)%list <= 1)%nat -> before = [] /\ after = [].
Proof. rewrite length_app. simpl. destruct before, after; simpl; try lia. done. Qed.

(** A flight that is not running has no live task. *)
Lemma no_task (tasks : list FinishGuard) : (false = true <-> tasks <> []) -> tasks = [].
Proof. destruct tasks; [done|]. intros [_ H]. by specialize (H ltac:(done)). Qed.

Lemma flight_step_inv w w' : flight_step w w' -> flight_inv w -> flight_inv w'.
Proof.
  intros [f tasks n pub taken input spawned f' Hs | f before g after n pub taken r g' f' now Hf
         | f before g after n pub taken now | f tasks n pub taken r f' Ht] [Hrun Hone Hfresh Hacc Hdel];
    simpl in *.
  - destruct f; simplify_eq/=; [|by split..].
    apply no_task in Hrun as ->.
    split; simpl; [done|lia|by repeat constructor|lia|done].
  - apply one_task in Hone as [-> ->]. injection Hf as <- <-. simpl in *.
    destruct f; simpl in *; [by apply no_task in Hrun| |by apply no_task in Hrun].
    rewrite app_nil_r in Hdel. subst. split; simpl; [done|lia|constructor|rewrite length_app; simpl; lia|done].
  - apply one_task in Hone as [-> ->]. simpl in *.
    apply Forall_cons in Hfresh as [Hg _]. unfold finish_guard_drop. rewrite Hg.
    destruct f; simpl in *; [by apply no_task in Hrun| |by apply no_task in Hrun].
    rewrite app_nil_r in Hdel. subst. split; simpl; [done|lia|constructor|rewrite length_app; simpl; lia|done].
  - destruct f as [| |x]; simplify_eq/=; rewrite ?app_nil_r in *; subst; split; simpl; rewrite ?app_nil_r;
      done || lia.
Qed.

(** At most one exchange is in flight, and every exchange that starts is
    answered exactly once: in every state reached by starts, completions, panics
    of the task and takes in any order, a task is live exactly while the flight
    is running, and the results taken so far, followed by the one that waits,
    are all the results published, in order, none lost, repeated or
    overwritten. *)
Theorem single_flight_answers_once w :
  rtc flight_step (MkFlightWorld Idle [] 0 [] []) w -> flight_inv w.
Proof.
  intros H. remember (MkFlightWorld Idle [] 0 [] []) as w0.
  assert (flight_inv w0) as Hi.
  { subst. split; simpl; [done|lia|constructor|done|done]. }
  clear Heqw0. induction H as [|x y z Hstep _ IH]; [done|].
  apply IH. by eapply flight_step_inv.
Qed.

Lemma single_flight_answers_once_witness :
  exists w, fw_started w = 1%nat /\ length (fw_taken w) = 1%nat /\ flight_inv w.
Proof.
  exists (MkFlightWorld Idle [] 1 [guard_result (MkFinishGuard 7 false) 9] [guard_result (MkFinishGuard 7 false) 9]).
  split; [done|]. split; [done|]. apply single_flight_answers_once.
  eapply rtc_l. { exact (fs_start Idle [] 0 [] [] 7 true Running eq_refl). }
  eapply rtc_l. { exact (fs_panic Running [] (MkFinishGuard 7 false) [] 1 [] [] 9). }
  eapply rtc_l. { exact (fs_take (Finished (guard_result (MkFinishGuard 7 false) 9)) [] 1
    [guard_result (MkFinishGuard 7 false) 9] [] _ Idle eq_refl). }
  apply rtc_refl.
Defined.
