(* ===== verification/Authority.v ===== *)
(** * The in-memory authority

    [LegacyAuth] of [src/src/auth/legacy_auth.rs] with its loaders, and
    [src/src/auth/legacy_auth/authority.rs], whole: the gates that keep a token
    request from starting, the due rule, what a published exchange result does
    to the pair, the schedule and the stop, and the status the authority is in.
    Every function takes the time as an argument. *)
From S2P Require Import Prelude Effects RustStr F64 Vocabulary External Endpoint AuthState PairRow Restore Schedule Rejection Wire Attempt.
Local Open Scope string_scope.
Local Open Scope Z_scope.

Section Authority.
Context `{X : External}.

Record LegacyAuth := MkLegacyAuth {
  access_token : string;
  refresh_token : string;
  token_type : string;
  la_expires_at : Z;
  la_next_refresh_at : Z;
  la_token_endpoint : option Url;
  endpoint_source : EndpointSource;
  la_pinned_issuer : option string;
  la_region : StreamRegion;
  la_usable_until : option Z;
  retry_at : option Z;
  retry_step : Z;
  retry_reason : option RetryReason;
  startup_refresh_pending : bool;
  last_success_at : option Z;
  client_refusals : Z;
  la_stop : option AuthStop;
  clock_skew : bool;
  pending_successor : option SuccessorPair;
  persist_failures : Z;
  persist_retry_at : option Z;
  pending_close : option PendingClose;
  close_failures : Z;
  close_retry_at : option Z;
  token_requests_not_before : Z;
  hold_until : option Z;
  forced_after_hold : bool;
  observer_rejected : bool;
  schedule_diagnostic : option LegacyAuthError;
}.
#[export] Instance eta_LegacyAuth : Eta LegacyAuth := fun a =>
  MkLegacyAuth (access_token a) (refresh_token a) (token_type a) (la_expires_at a)
    (la_next_refresh_at a) (la_token_endpoint a) (endpoint_source a) (la_pinned_issuer a)
    (la_region a) (la_usable_until a) (retry_at a) (retry_step a) (retry_reason a)
    (startup_refresh_pending a) (last_success_at a) (client_refusals a) (la_stop a) (clock_skew a)
    (pending_successor a) (persist_failures a) (persist_retry_at a) (pending_close a)
    (close_failures a) (close_retry_at a) (token_requests_not_before a) (hold_until a)
    (forced_after_hold a) (observer_rejected a) (schedule_diagnostic a).

(** ** Loading a stored pair *)

Inductive StoredSchedule := SchedImported | SchedRefreshed | SchedInvalid.

Definition classify_stored_schedule (expires next_refresh : Z) : StoredSchedule :=
  if (expires =? 0) && (next_refresh =? 0) then SchedImported
  else if (next_refresh >? 0) && (expires >? next_refresh) then SchedRefreshed
  else SchedInvalid.

Definition usable_until_of (access : string) (refreshed : bool) (expires : Z) : option Z :=
  let exp_limit := (fun e => i64_sub e SKEW_ALLOWANCE_SECONDS) <$> (parse_jwt access ≫= exp) in
  if refreshed then Some (map_or exp_limit expires (fun limit => Z.min limit expires))
  else exp_limit.

Definition stored_usable_until (access : string) (expires next_refresh : Z) : option Z :=
  let refreshed := match classify_stored_schedule expires next_refresh with
                   | SchedRefreshed => true | _ => false end in
  usable_until_of (trim_token_whitespace access) refreshed expires.

Definition stored_pair_passes_grammar (access refresh : string) (m : StoppedMode) : bool :=
  let m := match m with SmLegacy => Tesla | SmProvider => Provider end in
  is_ok (check_token_grammar (trim_token_whitespace access) (trim_token_whitespace refresh) m).

Definition from_persisted_state (access refresh : string) (expires next_refresh : Z)
    (endpoint : AuthEndpointConfig) : result LegacyAuthError LegacyAuth :=
  let access := trim_token_whitespace access in
  let refresh := trim_token_whitespace refresh in
  selection ← select_endpoint access refresh endpoint;
  let '(expires, next_refresh, diagnostic, refreshed) :=
    match classify_stored_schedule expires next_refresh with
    | SchedRefreshed => (expires, next_refresh, None, true)
    | SchedImported => (0, 0, None, false)
    | SchedInvalid => (0, 0, Some InvalidPersistedSchedule, false)
    end in
  Ok {|
    access_token := access;
    refresh_token := refresh;
    token_type := "Bearer";
    la_expires_at := expires;
    la_next_refresh_at := next_refresh;
    la_token_endpoint := token_endpoint selection;
    endpoint_source := source selection;
    la_pinned_issuer := pinned_issuer selection;
    la_region := sel_region selection;
    la_usable_until := usable_until_of access refreshed expires;
    retry_at := None;
    retry_step := 0;
    retry_reason := None;
    startup_refresh_pending := negb refreshed && negb (str_is_empty refresh);
    last_success_at := None;
    client_refusals := 0;
    la_stop := None;
    clock_skew := false;
    pending_successor := None;
    persist_failures := 0;
    persist_retry_at := None;
    pending_close := None;
    close_failures := 0;
    close_retry_at := None;
    token_requests_not_before := 0;
    hold_until := None;
    forced_after_hold := false;
    observer_rejected := false;
    schedule_diagnostic := diagnostic;
  |}.

Definition from_access_token (access refresh : string) (endpoint : AuthEndpointConfig)
    : result LegacyAuthError LegacyAuth :=
  auth ← from_persisted_state access refresh 0 0 endpoint;
  Ok (auth <| startup_refresh_pending := false |>).

Definition inert (region : StreamRegion) : LegacyAuth :=
  MkLegacyAuth "" "" "Bearer" 0 0 None ConfiguredRegion None region None None 0 None false None 0
    None false None 0 None None 0 None 0 None false false None.

(** ** Gates *)

Inductive Block :=
| InFlight
| SuccessorPending
| ClosePending
| Stopped
| NoRefreshPath
| BClockInvalid
| Until (t : Z).

Definition is_usable (a : LegacyAuth) (now : Z) : bool :=
  is_none_or (la_usable_until a) (fun until => now <? until).

Definition effective_stop (a : LegacyAuth) (now : Z) : option AuthStop :=
  match la_stop a with
  | Some (StopSignIn reason) =>
      if negb (is_usable a now) then Some (StopSignedOut reason) else la_stop a
  | None =>
      if is_none (la_token_endpoint a) && negb (is_usable a now)
      then Some (StopSignedOut ProviderTokenExpired) else None
  | stop => stop
  end.

Definition settle_stop (a : LegacyAuth) (now : Z) : LegacyAuth :=
  match effective_stop a now with
  | Some stop => a <| la_stop := Some stop |>
  | None => a
  end.

Definition remedy_pending (a : LegacyAuth) : bool :=
  is_some (retry_at a) || startup_refresh_pending a || is_some (pending_successor a).

(** The time gates, and [.flatten().filter(..).max()]. *)
Definition time_gates (a : LegacyAuth) : list (option Z) :=
  [retry_at a;
   (fun sent => i64_sadd sent MIN_REFRESH_INTERVAL_SECONDS) <$> last_success_at a;
   Some (token_requests_not_before a);
   hold_until a].
Definition opt_max (l : list Z) : option Z :=
  match l with [] => None | x :: l => Some (foldl Z.max x l) end.

Definition gate (a : LegacyAuth) (now : Z) (in_flight : bool) : option Block :=
  if in_flight then Some InFlight
  else if is_some (pending_successor a) then Some SuccessorPending
  else if is_some (pending_close a) then Some ClosePending
  else if is_some (effective_stop a now) then Some Stopped
  else if is_none (la_token_endpoint a) then Some NoRefreshPath
  else if negb (clock_is_valid now) then Some BClockInvalid
  else Until <$> opt_max (filter (fun until => until > now) (omap id (time_gates a))).

Definition is_due (a : LegacyAuth) (now : Z) : bool :=
  startup_refresh_pending a
  || is_some (retry_at a)
  || (is_some (la_token_endpoint a) && negb (is_usable a now))
  || ((la_expires_at a >? 0) && refreshed_form_due (la_expires_at a) (la_next_refresh_at a) now).

Definition stop_error (s : AuthStop) : LegacyAuthError :=
  match s with
  | StopRefused reason => OwnerApiRefused reason
  | StopSignIn _ => RefreshNotPossible
  | StopSignedOut AccessTokenRejected => EAccessTokenRejected
  | StopSignedOut ProviderTokenRejected => EProviderTokenRejected
  | StopSignedOut ProviderTokenExpired => EProviderTokenExpired
  | StopSignedOut other => SignedOut other
  end.

Definition token_available (a : LegacyAuth) (now : Z) : result LegacyAuthError unit :=
  if str_is_empty (access_token a) then Err (AuthUnavailable None)
  else
    match opt_filter blocks_requests (effective_stop a now) with
    | Some stop => Err (stop_error stop)
    | None =>
        if negb (clock_is_valid now)
        then Err (AuthUnavailable (Some (i64_sadd now CLOCK_RECHECK_SECONDS)))
        else
          match opt_filter (fun until => now <? until) (hold_until a) with
          | Some until => Err (AuthUnavailable (Some until))
          | None =>
              if observer_rejected a then Err (AuthUnavailable None)
              else if negb (is_usable a now)
              then Err (AuthUnavailable (opt_or (persist_retry_at a) (retry_at a)))
              else Ok tt
          end
    end.

(** ** Transitions *)

Definition schedule_retry (a : LegacyAuth) (reason : RetryReason) (plan : RetryPlan) (now : Z)
    (spread_unit : f64) : LegacyAuth :=
  let '(delay, next_step) := retry_delay plan (retry_step a) spread_unit in
  a <| retry_at := Some (i64_sadd now delay) |>
    <| retry_reason := Some reason |>
    <| retry_step := next_step |>.

Definition clear_retry (a : LegacyAuth) : LegacyAuth :=
  a <| retry_at := None |> <| retry_reason := None |> <| retry_step := 0 |>.

Definition apply_persisted (a : LegacyAuth) (successor : SuccessorPair) (now : Z) (spread_unit : f64)
    : LegacyAuth :=
  let schedule := sp_schedule successor in
  let a := a <| access_token := sp_access_token successor |>
             <| refresh_token := sp_refresh_token successor |>
             <| token_type := "Bearer" |>
             <| la_expires_at := expires_at schedule |>
             <| la_next_refresh_at := next_refresh_at schedule |>
             <| la_usable_until := Some (usable_until schedule) |>
             <| last_success_at := Some (sp_sent_at successor) |>
             <| startup_refresh_pending := false |>
             <| client_refusals := 0 |>
             <| schedule_diagnostic := None |>
             <| pending_successor := None |>
             <| persist_failures := 0 |>
             <| persist_retry_at := None |> in
  if is_short schedule (sp_sent_at successor) then
    let reason := if clock_skew a then ClockSkew else ShortTokenLifetime in
    schedule_retry a reason (plan_for_reason reason) now spread_unit
  else clear_retry a.

(** [usize::saturating_add]. *)
Definition usize_sadd : Z -> Z -> Z := u64_sadd.
(** The wait after [failures] failed tries: R24's schedule, held at its last
    entry. *)
Definition persistence_delay (failures : Z) : Z :=
  let step := Z.min failures (Z.of_nat (length PERSISTENCE_RETRY_SECONDS) - 1) in
  default i64_max (PERSISTENCE_RETRY_SECONDS !! Z.to_nat step ≫= i64_try_from).

Definition note_persist_failure (a : LegacyAuth) (now : Z) : LegacyAuth :=
  a <| persist_retry_at := Some (i64_sadd now (persistence_delay (persist_failures a))) |>
    <| persist_failures := usize_sadd (persist_failures a) 1 |>.
Definition hold_successor (a : LegacyAuth) (successor : SuccessorPair) (now : Z) : LegacyAuth :=
  note_persist_failure (a <| pending_successor := Some successor |>) now.

Definition note_close_failure (a : LegacyAuth) (now : Z) : LegacyAuth :=
  a <| close_retry_at := Some (i64_sadd now (persistence_delay (close_failures a))) |>
    <| close_failures := usize_sadd (close_failures a) 1 |>.
Definition hold_close (a : LegacyAuth) (pending : PendingClose) (now : Z) : LegacyAuth :=
  note_close_failure (a <| pending_close := Some pending |>) now.

Definition clear_close (a : LegacyAuth) : LegacyAuth :=
  a <| pending_close := None |> <| close_failures := 0 |> <| close_retry_at := None |>.

Definition close_retry_due (a : LegacyAuth) (now : Z) : bool :=
  is_some (pending_close a) && is_none_or (close_retry_at a) (fun at_ => now >=? at_).
Definition persist_retry_due (a : LegacyAuth) (now : Z) : bool :=
  is_some (pending_successor a) && is_none_or (persist_retry_at a) (fun at_ => now >=? at_).

Definition set_stop (a : LegacyAuth) (stop : AuthStop) : LegacyAuth :=
  a <| la_stop := Some stop |> <| retry_at := None |> <| retry_reason := None |>.

Definition store_unavailable (a : LegacyAuth) (now : Z) (spread_unit : f64)
    : LegacyAuthError * LegacyAuth :=
  let a := schedule_retry (a <| client_refusals := 0 |>) StoreUnavailable
             (plan_for_reason StoreUnavailable) now spread_unit in
  (AuthUnavailable (retry_at a), a).

Inductive Applied :=
| Done (e : option LegacyAuthError)
| Adopt (external : bool).

Definition apply_failure (a : LegacyAuth) (class : AttemptClass) (error : LegacyAuthError)
    (status : option Z) (retry_after : option Z) (now : Z) (spread_unit : f64)
    : Applied * LegacyAuth :=
  let a := if bool_decide (class = CClientRefused) then a else a <| client_refusals := 0 |> in
  let done a := (Done (Some error), a) in
  match class with
  | ConsumedWithoutSuccessor => done (set_stop a (StopSignIn RefreshResponseUnusable))
  | CUnknown => done (set_stop a (StopSignIn RefreshOutcomeUnknown))
  | Dead => done (set_stop a (StopSignIn RefreshTokenRejected))
  | CClientRefused =>
      let a := a <| client_refusals := u8_sadd (client_refusals a) 1 |> in
      if client_refusals a >=? CLIENT_REFUSAL_LIMIT
      then (Done (Some (OwnerApiRefused Client)), set_stop a (StopRefused Client))
      else done (schedule_retry a ClientCheck ClientCheckPlan now spread_unit)
  | Refused => done (set_stop a (StopRefused OwnerApi))
  | RequestRejected => done (schedule_retry a RefreshRequestRejected Slow now spread_unit)
  | Misrouted => done (schedule_retry a TokenEndpointMisrouted Slow now spread_unit)
  | Blocked => done (schedule_retry a RefreshBlocked Backoff now spread_unit)
  | Transient =>
      let asked := is_some_and status (fun s => (s =? 429) || (s =? 503)) in
      let plan := match retry_after with
                  | Some seconds => if (asked : bool) then RetryAfter seconds else Backoff
                  | None => Backoff
                  end in
      done (schedule_retry a TeslaUnavailable plan now spread_unit)
  | CNotRenewed => done (schedule_retry a RefreshNotRenewed Backoff now spread_unit)
  | CNotSent | CRotated | CNotRotated => done a
  end.

(** The opening of [apply_result]: the skew flag and an owed closing. *)
Definition note_answer (a : LegacyAuth) (r : ExchangeResult) : LegacyAuth :=
  let now := x_finished_at r in
  let a := a <| clock_skew := skew_after_answer (clock_skew a) (x_server_date r) now |> in
  match x_pending_close r with Some pending => hold_close a pending now | None => a end.

Definition apply_result (a : LegacyAuth) (r : ExchangeResult) (spread_unit : f64)
    : Applied * LegacyAuth :=
  let now := x_finished_at r in
  let a := note_answer a r in
  match x_kind r with
  | KNotSent reason =>
      let a := a <| client_refusals := 0 |> in
      let a := schedule_retry a reason (plan_for_reason reason) now spread_unit in
      (Done (Some match reason with
                  | SensitiveAccess => SensitiveAccessUnavailable
                  | _ => Transport
                  end), a)
  | KAborted => (Done (Some RefreshDeferred), a)
  | KRowChanged BExternalWrite | KExternal => (Adopt true, a)
  | KRowChanged BOwnOutput => (Adopt false, a)
  | KRowChanged BUnresolved =>
      (Done (Some (SignedOut RefreshOutcomeUnknown)), set_stop a (StopSignedOut RefreshOutcomeUnknown))
  | KRowChanged BStore =>
      let '(error, a) := store_unavailable a now spread_unit in (Done (Some error), a)
  | KPersisted successor => (Done None, apply_persisted a successor now spread_unit)
  | KPending successor _ => (Done None, hold_successor a successor now)
  | KFailed class error status retry_after =>
      apply_failure a class error status retry_after now spread_unit
  end.

(** ** The status *)

Definition derive_status (a : LegacyAuth) (now : Z) (generation : Uuid) (m : StoppedMode)
    (in_flight : bool) (fuse : FuseSnapshot) : AuthStatus :=
  let usable := clock_is_valid now && is_usable a now in
  match effective_stop a now with
  | Some stop => status_stopped stop generation m usable fuse (clock_skew a)
  | None =>
      let idle s r := MkAuthStatus s r false None None None fuse (clock_skew a) in
      if negb (clock_is_valid now) then idle StClockInvalid None
      else if is_some (pending_successor a)
      then with_usability (idle StPersistencePending None) usable
      else if in_flight
      then (idle StRefreshing None) <| st_state := StRefreshing |> <| st_collecting := true |>
      else
        match retry_reason a, retry_at a with
        | Some reason, Some at_ =>
            with_usability ((idle StRetrying (Some (RRetry reason))) <| st_retry_at := Some at_ |>) usable
        | _, _ => status_ready fuse (clock_skew a)
        end
  end.

Definition derive_full_status (a : LegacyAuth) (now : Z) (generation : Uuid) (m : StoppedMode)
    (in_flight : bool) (fuse : FuseSnapshot) (holder : HolderKind) : AuthStatus :=
  let base := derive_status a now generation m in_flight fuse in
  match st_state base with
  | StSignedOut | StSignInRequired | StApiRefused | StClockInvalid => base
  | _ =>
      if bool_decide (holder = Observer) then
        let reason := if observer_rejected a then Some TokenRejected
                      else if negb (is_usable a now)
                      then Some (if clock_skew a then ObsClockSkew else TokenExpired)
                      else None in
        match reason with
        | Some reason => status_observer_waiting reason fuse (clock_skew a)
        | None => base
        end
      else if is_some_and (hold_until a) (fun until => now <? until)
      then status_awaiting_confirmation fuse (clock_skew a)
      else base
  end.

End Authority.
