(* ===== verification/AuthoritySafety.v ===== *)
(** * What the authority guarantees

    Theorems about [Authority], some of them end to end with the exchange of
    [Attempt]: the invariant of every reachable authority and the status it
    derives, the gates, the token that is handed out, and what becomes of a
    spent refresh token. *)
From S2P Require Import Prelude Effects RustStr F64 Vocabulary External Endpoint AuthState PairRow Restore Schedule Rejection Wire Attempt AttemptSafety Authority.
Local Open Scope string_scope.
Local Open Scope Z_scope.

Section Safety.
Context `{X : External}.
Implicit Types a : LegacyAuth.

(** ** The invariant *)

Record auth_wf a : Prop := {
  wf_retry : is_some (retry_at a) = is_some (retry_reason a);
  wf_step : 0 <= retry_step a <= RETRY_STEP_LIMIT;
  wf_refusals : 0 <= client_refusals a <= u8_max;
  wf_stop stop : la_stop a = Some stop -> stop_admitted stop = true;
  wf_persist : is_some (persist_retry_at a) = is_some (pending_successor a);
  wf_close : is_some (close_retry_at a) = is_some (pending_close a);
}.

(** Everything the manager does to an authority between two loads. *)
Inductive auth_step : LegacyAuth -> LegacyAuth -> Prop :=
| as_result a r u ap a' :
    f64_valid u = true -> apply_result a r u = (ap, a') -> auth_step a a'
| as_settle a now : auth_step a (settle_stop a now)
| as_stop a stop : stop_admitted stop = true -> auth_step a (set_stop a stop)
| as_clear_retry a : auth_step a (clear_retry a)
| as_persist_failed a now : is_some (pending_successor a) = true -> auth_step a (note_persist_failure a now)
| as_persisted a sp now u :
    f64_valid u = true -> pending_successor a = Some sp -> auth_step a (apply_persisted a sp now u)
| as_close_failed a now : is_some (pending_close a) = true -> auth_step a (note_close_failure a now)
| as_closed a : auth_step a (clear_close a)
| as_hold a until : auth_step a (a <| hold_until := until |>)
| as_floor a floor : auth_step a (a <| token_requests_not_before := floor |>)
| as_observer a b : auth_step a (a <| observer_rejected := b |>).

Lemma schedule_retry_wf a reason plan now u :
  f64_valid u = true -> auth_wf a -> auth_wf (schedule_retry a reason plan now u).
Proof.
  intros Hu [H1 H2 H3 H4 H5 H6]. unfold schedule_retry.
  destruct (retry_delay plan (retry_step a) u) as [delay step'] eqn:E.
  apply retry_delay_spec in E as (_ & Hs & _); [|done|done].
  destruct a; split; simpl in *; try done. lia.
Qed.

Lemma set_stop_wf a stop : stop_admitted stop = true -> auth_wf a -> auth_wf (set_stop a stop).
Proof. intros Hs [H1 H2 H3 H4 H5 H6]. destruct a; split; simpl in *; try done. naive_solver. Qed.

Lemma refusals_wf a n : 0 <= n <= u8_max -> auth_wf a -> auth_wf (a <| client_refusals := n |>).
Proof. intros Hn [H1 H2 H3 H4 H5 H6]. by destruct a; split. Qed.

Lemma hold_close_wf a p now : auth_wf a -> auth_wf (hold_close a p now).
Proof. intros [H1 H2 H3 H4 H5 H6]. by destruct a; split. Qed.

Lemma hold_successor_wf a sp now : auth_wf a -> auth_wf (hold_successor a sp now).
Proof. intros [H1 H2 H3 H4 H5 H6]. by destruct a; split. Qed.

Lemma clear_retry_wf a : auth_wf a -> auth_wf (clear_retry a).
Proof. intros [H1 H2 H3 H4 H5 H6]. by destruct a; split. Qed.

Lemma apply_persisted_wf a sp now u :
  f64_valid u = true -> auth_wf a -> auth_wf (apply_persisted a sp now u).
Proof.
  intros Hu [H1 H2 H3 H4 H5 H6]. unfold apply_persisted.
  case_match; [apply schedule_retry_wf; [done|]|apply clear_retry_wf];
    by destruct a; split.
Qed.

Lemma skew_wf a k : auth_wf a -> auth_wf (a <| clock_skew := k |>).
Proof. intros [H1 H2 H3 H4 H5 H6]. by destruct a; split. Qed.

Hint Resolve schedule_retry_wf set_stop_wf refusals_wf hold_close_wf hold_successor_wf
  clear_retry_wf apply_persisted_wf skew_wf : auth_wf.

Lemma apply_failure_wf a class error status ra now u ap a' :
  f64_valid u = true -> auth_wf a -> apply_failure a class error status ra now u = (ap, a') -> auth_wf a'.
Proof.
  intros Hu Ha.
  assert (auth_wf (a <| client_refusals := 0 |>)) by (apply refusals_wf; done).
  assert (auth_wf (a <| client_refusals := u8_sadd (client_refusals a) 1 |>)).
  { apply refusals_wf; [|done]. destruct Ha. mlia. }
  unfold apply_failure. case_bool_decide as Hc; [rewrite Hc; case_match|destruct class; try done];
    intros [= <- <-]; auto with auth_wf.
Qed.

Lemma note_answer_wf a r : auth_wf a -> auth_wf (note_answer a r).
Proof. unfold note_answer. intros. case_match; auto with auth_wf. Qed.
Hint Resolve note_answer_wf : auth_wf.

Lemma apply_result_wf a r u ap a' :
  f64_valid u = true -> auth_wf a -> apply_result a r u = (ap, a') -> auth_wf a'.
Proof.
  intros Hu Ha%(note_answer_wf _ r). unfold apply_result, store_unavailable.
  revert Ha. generalize (note_answer a r). intros b Hb.
  assert (auth_wf (b <| client_refusals := 0 |>)) by (apply refusals_wf; done).
  destruct (x_kind r) as [reason| |[]| | | |class error status ra];
    [..|by apply apply_failure_wf]; intros [= <- <-]; auto with auth_wf.
Qed.

Lemma effective_stop_admitted a now stop :
  auth_wf a -> effective_stop a now = Some stop -> stop_admitted stop = true.
Proof.
  intros Ha. pose proof (wf_stop _ Ha) as Hs. unfold effective_stop.
  destruct (la_stop a) as [[r|r|r]|]; try case_match; intros [= <-]; auto.
Qed.

Lemma auth_step_wf a a' : auth_step a a' -> auth_wf a -> auth_wf a'.
Proof.
  intros [] Ha; eauto using apply_result_wf with auth_wf.
  - unfold settle_stop. destruct (effective_stop a0 now) as [stop|] eqn:E; [|done].
    apply (effective_stop_admitted _ _ _ Ha) in E.
    destruct Ha, a0; split; simpl in *; try done. naive_solver.
  - destruct Ha, a0; split; simpl in *; congruence || done.
  - destruct Ha, a0; split; simpl in *; congruence || done.
  - by destruct Ha, a0; split.
  - by destruct Ha, a0; split.
  - by destruct Ha, a0; split.
  - by destruct Ha, a0; split.
Qed.

(** A freshly loaded pair, or the inert one. *)
Inductive fresh : LegacyAuth -> Prop :=
| fresh_loaded access refresh e n c a : from_persisted_state access refresh e n c = Ok a -> fresh a
| fresh_inert region : fresh (inert region).

Lemma fresh_wf a : fresh a -> auth_wf a.
Proof.
  intros [access refresh e n c b H|]; [|by split].
  unfold from_persisted_state in H. apply result_bind_Ok in H as (sel & _ & H).
  destruct (classify_stored_schedule e n); simplify_eq/=; by split.
Qed.

Lemma reachable_wf a0 a : fresh a0 -> rtc auth_step a0 a -> auth_wf a.
Proof.
  intros Hf%fresh_wf Hr. induction Hr as [|x y z Hstep _ IH]; [done|].
  apply IH. by eapply auth_step_wf.
Qed.

(** ** The status *)

Lemma derive_status_consistent a now g m f fuse :
  auth_wf a -> fuse_is_consistent fuse = true -> is_consistent (derive_status a now g m f fuse) = true.
Proof.
  intros Ha Hf. unfold derive_status.
  destruct (effective_stop a now) as [stop|] eqn:E.
  { apply status_stopped_consistent; [by eapply effective_stop_admitted|done]. }
  destruct (clock_is_valid now); simpl.
  2: { by apply status_idle_consistent. }
  destruct (is_some (pending_successor a)).
  { unfold is_consistent. simpl. rewrite Hf. by destruct (is_usable a now). }
  destruct f; [unfold is_consistent; simpl; by rewrite Hf|].
  destruct (retry_reason a), (retry_at a); try by apply status_ready_consistent.
  unfold is_consistent. simpl. rewrite Hf. by destruct (is_usable a now).
Qed.

Lemma derive_full_status_consistent a now g m f fuse h :
  auth_wf a -> fuse_is_consistent fuse = true ->
  is_consistent (derive_full_status a now g m f fuse h) = true.
Proof.
  intros Ha Hf. unfold derive_full_status.
  pose proof (derive_status_consistent a now g m f fuse Ha Hf) as Hb.
  assert (is_consistent (if bool_decide (h = Observer)
     then match (if observer_rejected a then Some TokenRejected
                 else if negb (is_usable a now)
                 then Some (if clock_skew a then ObsClockSkew else TokenExpired) else None) with
          | Some reason => status_observer_waiting reason fuse (clock_skew a)
          | None => derive_status a now g m f fuse
          end
     else if is_some_and (hold_until a) (fun until => now <? until)
     then status_awaiting_confirmation fuse (clock_skew a)
     else derive_status a now g m f fuse) = true) as Hr.
  { case_match; case_match; try done; by apply status_idle_consistent. }
  by destruct (st_state (derive_status a now g m f fuse)).
Qed.

(** Every status the authority derives can be stored and read back: from
    any loaded (or inert) pair, through any sequence of exchange results, stops,
    write and closing retries, holds and floors, and at every time, the derived
    status satisfies the invariants of R52 and of the table; and it shows a
    retry exactly with the time and reason of the one that is pending. *)
Theorem derived_status_always_storable a0 a now g m f fuse h :
  fresh a0 -> rtc auth_step a0 a -> fuse_is_consistent fuse = true ->
  let s := derive_full_status a now g m f fuse h in
  is_consistent s = true /\ from_row (to_row s) = Ok s /\
  (st_state s = StRetrying -> st_retry_at s = retry_at a /\ is_some (retry_at a) = true /\
     st_reason s = RRetry <$> retry_reason a).
Proof.
  intros H0 Hr Hf s. pose proof (reachable_wf _ _ H0 Hr) as Ha.
  pose proof (derive_full_status_consistent a now g m f fuse h Ha Hf) as Hc.
  split; [done|]. split; [by apply from_row_spec|].
  subst s. unfold derive_full_status, derive_status.
  destruct (effective_stop a now) as [[| |]|]; simpl; try done.
  destruct (clock_is_valid now); simpl; [|done].
  destruct (is_some (pending_successor a)); [simpl; repeat case_match; done|].
  destruct f; [simpl; repeat case_match; done|].
  destruct (retry_reason a), (retry_at a); simpl; repeat case_match; done.
Qed.

(** ** The gates *)

Lemma foldl_max_spec (l : list Z) x :
  (foldl Z.max x l = x \/ foldl Z.max x l ∈ l) /\ x <= foldl Z.max x l /\
  forall y, y ∈ l -> y <= foldl Z.max x l.
Proof.
  revert x. induction l as [|z l IH]; intros x; simpl.
  { split_and!; [by left|lia|]. intros y Hy. by apply elem_of_nil in Hy. }
  destruct (IH (Z.max x z)) as (Hm & Hx & Hl). split_and!.
  - destruct Hm as [->|]; [|by right; right].
    destruct (Z.max_spec x z) as [[_ ->]|[_ ->]]; [right; by left|by left].
  - lia.
  - intros y [->|Hy]%elem_of_cons; [lia|auto].
Qed.

Lemma opt_max_Some l m : opt_max l = Some m -> m ∈ l /\ forall y, y ∈ l -> y <= m.
Proof.
  destruct l as [|x l]; [done|]. simpl. intros [= <-].
  destruct (foldl_max_spec l x) as (Hm & Hx & Hl). split.
  - destruct Hm as [->|]; [by left|by right].
  - intros y [->|Hy]%elem_of_cons; auto.
Qed.

Lemma open_gates_elem a now t :
  t ∈ filter (fun until => until > now) (omap id (time_gates a)) <-> now < t /\ Some t ∈ time_gates a.
Proof.
  rewrite list_elem_of_filter, list_elem_of_omap. split.
  - intros [? (x & Hx & Hid)]. cbn in Hid. subst x. split; [lia|done].
  - intros [? Hx]. split; [lia|]. by exists (Some t).
Qed.

(** Everything but the time gates. *)
Definition ungated a (f : bool) (now : Z) : Prop :=
  f = false /\ pending_successor a = None /\ pending_close a = None /\
  effective_stop a now = None /\ is_some (la_token_endpoint a) = true /\ clock_is_valid now = true.

Lemma gate_cases a now f :
  (ungated a f now /\
   gate a now f = Until <$> opt_max (filter (fun until => until > now) (omap id (time_gates a)))) \/
  (~ ungated a f now /\ exists b, gate a now f = Some b /\ forall t, b <> Until t).
Proof.
  unfold gate, ungated, is_none. destruct f; [right; split; [naive_solver|eauto]|].
  destruct (pending_successor a); simpl; [right; split; [naive_solver|eauto]|].
  destruct (pending_close a); simpl; [right; split; [naive_solver|eauto]|].
  destruct (effective_stop a now); simpl; [right; split; [naive_solver|eauto]|].
  destruct (la_token_endpoint a); simpl; [|right; split; [naive_solver|eauto]].
  destruct (clock_is_valid now); simpl; [by left|right; split; [naive_solver|eauto]].
Qed.

Lemma gate_open_iff a now f :
  gate a now f = None <->
  ungated a f now /\ forall t, Some t ∈ time_gates a -> t <= now.
Proof.
  destruct (gate_cases a now f) as [[Hu ->]|(Hu & b & -> & _)]; [|naive_solver].
  destruct (opt_max _) as [m|] eqn:E; simpl.
  - apply opt_max_Some in E as [Hm%open_gates_elem _]. split; [done|].
    intros [_ H]. destruct Hm as [? Hm%H]. lia.
  - split; [|done]. intros _. split; [done|]. intros t Ht.
    destruct (decide (now < t)); [|lia]. exfalso.
    assert (t ∈ filter (fun until => until > now) (omap id (time_gates a))) as Hin
      by by apply open_gates_elem.
    destruct (filter _ _); [by apply elem_of_nil in Hin|done].
Qed.

(** The retry time, the minute since the last success, the restart floor and the
    confirmation pause are all past. *)
Definition times_past a (now : Z) : Prop :=
  (forall t, retry_at a = Some t -> t <= now) /\
  (forall t, last_success_at a = Some t -> i64_sadd t MIN_REFRESH_INTERVAL_SECONDS <= now) /\
  token_requests_not_before a <= now /\ (forall t, hold_until a = Some t -> t <= now).

Lemma times_past_spec a now :
  (forall t, Some t ∈ time_gates a -> t <= now) <-> times_past a now.
Proof.
  unfold time_gates, times_past.
  setoid_rewrite elem_of_cons. setoid_rewrite elem_of_cons. setoid_rewrite elem_of_cons.
  setoid_rewrite list_elem_of_singleton.
  destruct (last_success_at a); simpl; split; naive_solver.
Qed.

(** The gate of a token request opens exactly when everything allows it: no
    exchange in flight, no successor or closing owed, no stop, a refresh path, a
    sound clock, and the retry time, the minute since the last success, the
    restart floor and the confirmation pause all past; and when it names a time,
    that is the moment it opens, not before and not after, unless a stop comes
    first. *)
Theorem gate_opens_exactly_when_named a now f :
  (gate a now f = None <->
   f = false /\ pending_successor a = None /\ pending_close a = None /\
   effective_stop a now = None /\ is_some (la_token_endpoint a) = true /\ clock_is_valid now = true /\
   times_past a now) /\
  (forall t, gate a now f = Some (Until t) ->
   now < t /\ forall now', now <= now' -> effective_stop a now' = None ->
   (gate a now' f = None <-> t <= now')).
Proof.
  split.
  - rewrite gate_open_iff, times_past_spec. unfold ungated. tauto.
  - intros t. destruct (gate_cases a now f) as [[Hu ->]|(_ & b & -> & Hb)]; [|naive_solver].
    destruct (opt_max _) as [m|] eqn:E; simpl; [|done]. intros [= <-].
    apply opt_max_Some in E as [[Hm1 Hm2]%open_gates_elem Hmax]. split; [done|].
    intros now' Hn Hs. rewrite gate_open_iff. split; [intros [_ H]; auto|].
    intros Ht. split.
    + destruct Hu as (?&?&?&_&?&Hc). unfold ungated, clock_is_valid in *. split_and!; try done.
      rewrite Z.geb_leb in *. bsimp. apply Z.leb_le. lia.
    + intros t' Ht'. destruct (decide (now < t')); [|lia].
      assert (t' <= m); [|lia]. apply Hmax. by apply open_gates_elem.
Qed.

(** ** The token that is handed out *)

Lemma stop_error_terminal stop : is_terminal_auth_failure (stop_error stop) = blocks_requests stop.
Proof. by destruct stop as [[]|[]|[]]. Qed.

(** The access token may be sent: the conditions of R29, R38, R41, R28 and R43. *)
Definition sendable a (now : Z) : Prop :=
  access_token a <> "" /\
  (forall stop, effective_stop a now = Some stop -> exists r, stop = StopSignIn r) /\
  clock_is_valid now = true /\ (forall t, hold_until a = Some t -> t <= now) /\
  observer_rejected a = false /\ (forall t, la_usable_until a = Some t -> now < t).

(** The access token is handed out exactly while it may be sent: it is not
    empty, no stop in force blocks requests (a sign-in that is only owed does
    not), the clock is sound, no confirmation pause runs, no observer rejection
    stands and the token has not passed its usability; and the refusal is
    terminal exactly when a stop blocks requests. *)
Theorem token_available_exactly_while_sendable a now :
  (token_available a now = Ok tt <-> sendable a now) /\
  (forall e, token_available a now = Err e ->
   (is_terminal_auth_failure e = true <->
    access_token a <> "" /\
    exists stop, effective_stop a now = Some stop /\ blocks_requests stop = true)).
Proof.
  unfold token_available, sendable.
  assert (forall until : option Z, opt_filter (fun t => now <? t) until = None <->
            forall t, until = Some t -> t <= now) as Hhold.
  { intros [t|]; simpl; [|naive_solver]. destruct (now <? t) eqn:E; bsimp.
    - split; [done|]. intros H. specialize (H t eq_refl). lia.
    - split; [|done]. by intros _ ? [= <-]. }
  assert (is_usable a now = true <-> forall t, la_usable_until a = Some t -> now < t) as Hus.
  { unfold is_usable. destruct (la_usable_until a) as [t|]; simpl; [|naive_solver].
    rewrite Z.ltb_lt. naive_solver. }
  rewrite <- Hus, <- Hhold. clear Hus Hhold.
  assert (str_is_empty (access_token a) = false <-> access_token a <> "") as Hemp
    by by destruct (access_token a).
  destruct (str_is_empty (access_token a)).
  { assert (access_token a = "") as -> by (destruct (access_token a); [done|naive_solver]).
    split; [naive_solver|]. intros e [= <-]. simpl. naive_solver. }
  assert (access_token a <> "") by tauto. clear Hemp.
  destruct (effective_stop a now) as [stop|]; simpl.
  - destruct (blocks_requests stop) eqn:Hb.
    + split; [split; [done|]; intros (_ & Hs & _); destruct (Hs stop eq_refl) as [r ->]; done|].
      intros e [= <-]. rewrite stop_error_terminal, Hb. naive_solver.
    + destruct stop; try done.
      destruct (clock_is_valid now), (opt_filter _ _), (observer_rejected a), (is_usable a now); simpl;
        split; naive_solver.
  - destruct (clock_is_valid now), (opt_filter _ _), (observer_rejected a), (is_usable a now); simpl;
      split; naive_solver.
Qed.

(** ** What a result does *)

Definition pair_in_use a : string * string * Z * Z * option Z * option Z :=
  (access_token a, refresh_token a, la_expires_at a, la_next_refresh_at a, la_usable_until a,
   last_success_at a).

Lemma note_answer_pair a r :
  pair_in_use (note_answer a r) = pair_in_use a /\
  pending_successor (note_answer a r) = pending_successor a.
Proof. unfold note_answer. by case_match; destruct a. Qed.

Lemma schedule_retry_pair a reason plan now u :
  pair_in_use (schedule_retry a reason plan now u) = pair_in_use a /\
  pending_successor (schedule_retry a reason plan now u) = pending_successor a.
Proof. unfold schedule_retry. destruct (retry_delay _ _ _). by destruct a. Qed.

Lemma apply_failure_pair a class error status ra now u :
  let a' := (apply_failure a class error status ra now u).2 in
  pair_in_use a' = pair_in_use a /\ pending_successor a' = pending_successor a.
Proof.
  unfold apply_failure. case_bool_decide as Hc; [rewrite Hc; case_match|destruct class; try done];
    cbn [fst snd]; rewrite ?(proj1 (schedule_retry_pair _ _ _ _ _)), ?(proj2 (schedule_retry_pair _ _ _ _ _));
    by destruct a.
Qed.

(** The pair in use changes only when its successor has been written: a
    result other than a persisted successor leaves the tokens, their times and
    the last success as they were; a validated successor whose write is pending
    is held beside them; and a persisted one replaces them all at once. *)
Theorem pair_changes_only_when_persisted a r u :
  let a' := (apply_result a r u).2 in
  match x_kind r with
  | KPersisted sp =>
      pair_in_use a' = (sp_access_token sp, sp_refresh_token sp, expires_at (sp_schedule sp),
        next_refresh_at (sp_schedule sp), Some (usable_until (sp_schedule sp)), Some (sp_sent_at sp)) /\
      pending_successor a' = None
  | KPending sp _ => pair_in_use a' = pair_in_use a /\ pending_successor a' = Some sp
  | _ => pair_in_use a' = pair_in_use a /\ pending_successor a' = pending_successor a
  end.
Proof.
  unfold apply_result, store_unavailable. destruct (note_answer_pair a r) as [<- <-].
  generalize (note_answer a r). intros b.
  destruct (x_kind r) as [reason| |[]|sp| | |class error status ra]; cbn [fst snd];
    try (rewrite (proj1 (schedule_retry_pair _ _ _ _ _)), (proj2 (schedule_retry_pair _ _ _ _ _)));
    try apply apply_failure_pair; try by destruct b.
  unfold apply_persisted. case_match; [|by destruct b].
  rewrite (proj1 (schedule_retry_pair _ _ _ _ _)), (proj2 (schedule_retry_pair _ _ _ _ _)).
  by destruct b.
Qed.

Lemma stopped_gate a stop now f : la_stop a = Some stop -> gate a now f <> None.
Proof.
  intros Hs [(_ & _ & _ & He & _) _]%gate_open_iff. unfold effective_stop in He. rewrite Hs in He.
  destruct stop; try done. by case_match.
Qed.

Lemma pending_gate a now f : is_some (pending_successor a) = true -> gate a now f <> None.
Proof. intros Hs [(_ & Hp & _) _]%gate_open_iff. by rewrite Hp in Hs. Qed.

Lemma retry_gate a t now f : retry_at a = Some t -> gate a now f = None -> t <= now.
Proof. intros Hr [_ H]%gate_open_iff. apply H. unfold time_gates. rewrite Hr. by left. Qed.

Lemma success_gate a t now f :
  last_success_at a = Some t -> gate a now f = None -> i64_sadd t MIN_REFRESH_INTERVAL_SECONDS <= now.
Proof. intros Hr [_ H]%gate_open_iff. apply H. unfold time_gates. rewrite Hr. right. by left. Qed.
End Safety.

(** ** The exchange and the authority together *)

Section EndToEnd.
Context `{X : External} `{J : JsonText} `{D : Digest} {S : Type}.

Lemma classify_rotated answer pa pr pinned t :
  classify_answer answer pa pr pinned = Ok t -> t_kind t = Rotated -> t_refresh_token t <> pr.
Proof.
  unfold classify_answer. case_match; [|done]. destruct (a_body answer) as [bytes|]; [|done].
  intros [w access nr k ? ? ? ? ? ? ? ? Hk]%accept_tokens_Ok. simpl. by intros ->.
Qed.

Lemma successor_of_Some t sent_at a sp :
  successor_of t sent_at a = Some sp ->
  sp_refresh_token sp = t_refresh_token t /\ sp_sent_at sp = sent_at.
Proof.
  unfold successor_of. intros (tokens & _ & H)%bind_Some. by case_match; simplify_eq/=.
Qed.

Lemma failure_stops a class error status ra now u :
  consumes_input class = true -> class <> CRotated ->
  exists stop, la_stop (apply_failure a class error status ra now u).2 = Some stop.
Proof. destruct class; try done; intros; destruct a; simpl; eauto. Qed.

Lemma failed_not_rotated answer pa pr pinned f :
  classify_answer answer pa pr pinned = Err f ->
  f_class f <> CRotated /\ f_class f <> CNotSent /\ f_class f <> CNotRotated.
Proof.
  intros H. split_and!; intros Hc;
    assert (closing_for (f_class f) 0 None = None) as Hn by (by rewrite Hc);
    apply (failed_unclosed _ _ _ _ _ _ _ H) in Hn; congruence.
Qed.

(** No token request may start, at any time. *)
Definition shut (a : LegacyAuth) : Prop := forall now f, gate a now f <> None.

(** C2. A spent refresh token is never presented again: when the outcome of an
    exchange spends the token it presented (or may have), the authority that
    applies the result either uses a pair with another refresh token or keeps
    the gate of token requests shut at every later time, until credentials or a
    held successor change it. *)
Theorem spent_token_never_presented_again (I : ExchangeInput S) s r s' log e a u :
  run_exchange (noted I) (s, []) = (r, (s', log)) -> e ∈ sends log ->
  consumes_input (exchange_class I e) = true ->
  let a' := (apply_result a r u).2 in
  refresh_token a' <> i_refresh_token I \/ shut a'.
Proof.
  intros Hrun He Hc a'. pose proof (exchange_tells_truth I s) as Ht. unfold wp in Ht.
  rewrite Hrun in Ht. unfold tells_truth in Ht. simpl in Ht.
  destruct (sends log) as [|e' [|]]; [by apply elem_of_nil in He| |done].
  apply list_elem_of_singleton in He as <-. destruct Ht as (t & _ & Hend).
  subst a'. unfold apply_result.
  destruct Hend as [| |error|an fa ra Hcl|an ta error st ra Hcl Hk|an ta error st ra Hcl|an ta at_ sp k Hcl Hk Hsp Hend];
    simpl in Hc; rewrite ?Hcl in Hc; simpl in Hc; try done.
  - right. intros now f. by eapply stopped_gate.
  - right. edestruct (failure_stops (note_answer a r)) as [stop Hs];
      [exact Hc|apply (failed_not_rotated _ _ _ _ _ Hcl)|]. intros now f. by eapply stopped_gate.
  - by rewrite Hk in Hc.
  - right. intros now f. by eapply stopped_gate.
  - destruct Hend as [->|[error ->]]; [|right; intros now f; by apply pending_gate].
    left. destruct (t_kind ta) eqn:Hkind; try done.
    apply (classify_rotated _ _ _ _ _ Hcl) in Hkind.
    apply successor_of_Some in Hsp as [Hr _].
    cbn [snd]. unfold apply_persisted. case_match; [|simpl; congruence].
    unfold schedule_retry. destruct (retry_delay _ _ _). simpl. congruence.
Qed.

(** The times of an exchange are epoch seconds an hour and more below the top of
    [i64]. *)
Definition sane_time (t : Z) : Prop := 0 <= t <= i64_max - 3600.

Lemma schedule_retry_waits a reason plan now u :
  auth_wf a -> f64_valid u = true -> sane_time now ->
  exists t, retry_at (schedule_retry a reason plan now u) = Some t /\ now + 60 <= t.
Proof.
  intros Ha Hu Hn. unfold schedule_retry.
  destruct (retry_delay plan (retry_step a) u) as [delay step'] eqn:E.
  apply retry_delay_spec in E as (Hd & _); [|apply Ha|done].
  eexists. split; [done|]. unfold sane_time in Hn. mlia.
Qed.

(** A failed answer stops the unit or schedules a retry. *)
Lemma failure_stops_or_waits a class error status ra now u :
  auth_wf a -> f64_valid u = true -> sane_time now ->
  class <> CRotated -> class <> CNotSent -> class <> CNotRotated ->
  let a' := (apply_failure a class error status ra now u).2 in
  is_some (la_stop a') = true \/ exists t, retry_at a' = Some t /\ now + 60 <= t.
Proof.
  intros Ha Hu Hn ? ? ?.
  assert (auth_wf (a <| client_refusals := 0 |>)) by (apply refusals_wf; done).
  assert (auth_wf (a <| client_refusals := u8_sadd (client_refusals a) 1 |>)).
  { apply refusals_wf; [|done]. destruct Ha. mlia. }
  unfold apply_failure. case_bool_decide as Hc; [rewrite Hc; case_match|destruct class; try done];
    cbn [fst snd]; ((by left) || (right; by apply schedule_retry_waits)).
Qed.

(** Token requests are at least a minute apart: after an exchange that sent
    a request, whatever its outcome, the authority that applies the result lets
    no further token request start within sixty seconds of the send (or of the
    end of the exchange, if the clock was set back meanwhile), from every
    reachable state of the authority. *)
Theorem token_requests_are_spaced (I : ExchangeInput S) s r s' log t a0 a u now f :
  run_exchange (noted I) (s, []) = (r, (s', log)) -> x_sent_at r = Some t ->
  sane_time t -> sane_time (x_finished_at r) ->
  fresh a0 -> rtc auth_step a0 a -> f64_valid u = true ->
  gate (apply_result a r u).2 now f = None -> Z.min t (x_finished_at r) + 60 <= now.
Proof.
  intros Hrun Hsent Ht Hfin H0 Hr Hu. pose proof (reachable_wf _ _ H0 Hr) as Ha.
  apply (note_answer_wf _ r) in Ha.
  pose proof (exchange_tells_truth I s) as Hw. unfold wp in Hw.
  rewrite Hrun in Hw. unfold tells_truth in Hw. simpl in Hw.
  destruct (sends log) as [|e [|]]; [congruence| |done].
  destruct Hw as (t' & Hs' & Hend). assert (t' = t) as -> by congruence. clear Hs' Hsent Hrun.
  remember (x_kind r) as kind eqn:Hkind.
  assert (forall class error status ra, kind = KFailed class error status ra ->
    class <> CRotated -> class <> CNotSent -> class <> CNotRotated ->
    gate (apply_result a r u).2 now f = None -> Z.min t (x_finished_at r) + 60 <= now) as Hfailed.
  { intros class error status ra Hk ? ? ? Hg. unfold apply_result in Hg. rewrite <- Hkind, Hk in Hg.
    destruct (failure_stops_or_waits (note_answer a r) class error status ra (x_finished_at r) u)
      as [Hstop|(t' & Hra & ?)]; try done.
    - destruct (la_stop _) as [stop|] eqn:E in Hstop; [|done]. by eapply stopped_gate in E.
    - eapply retry_gate in Hra; [|done]. lia. }
  assert (kind = KNotSent Network ->
    gate (apply_result a r u).2 now f = None -> Z.min t (x_finished_at r) + 60 <= now) as Hnot.
  { intros Hk Hg. unfold apply_result in Hg. rewrite <- Hkind, Hk in Hg. cbn [snd] in Hg.
    edestruct (schedule_retry_waits ((note_answer a r) <| client_refusals := 0 |>)) as (t' & Hra & ?);
      [by apply refusals_wf|exact Hu|exact Hfin|]. eapply retry_gate in Hra; [|done]. lia. }
  destruct Hend as [| | |an fa ra Hcl| | |an ta at_ sp k Hcl Hk Hsp Hend].
  - by apply Hnot.
  - by apply Hnot.
  - by eapply Hfailed.
  - destruct (failed_not_rotated _ _ _ _ _ Hcl) as (?&?&?). by eapply Hfailed.
  - by eapply Hfailed.
  - by eapply Hfailed.
  - intros Hg. unfold apply_result in Hg. rewrite <- Hkind in Hg.
    destruct Hend as [->|[error ->]]; cbn [snd] in Hg; [|by apply pending_gate in Hg].
    apply successor_of_Some in Hsp as [_ Hsent]. eapply (success_gate _ t) in Hg.
    + unfold MIN_REFRESH_INTERVAL_SECONDS, sane_time in *. mlia.
    + unfold apply_persisted. case_match; [|by destruct (note_answer a r); simpl; f_equal].
      unfold schedule_retry. destruct (retry_delay _ _ _).
      destruct (note_answer a r). simpl. by f_equal.
Qed.
End EndToEnd.

(** ** A concrete run *)

(** A world whose every call succeeds, whose clock stands still and whose token
    endpoint answers every request with one response. *)
Module SampleRun.
#[export] Existing Instance Sample.external.
#[export] Existing Instance SampleText.json_text.
#[export] Instance digest : Digest := {| sha256 s := s |}.

Definition ports : AttemptPorts unit := {|
  sensitive_access s := (Ok tt, s);
  begin s := (Ok (MkAttempt (Some 1) 5), s);
  cancel_unsent _ s := (Ok tt, s);
  close _ _ s := (Ok tt, s);
  finish _ s := (Ok tt, s);
  persist _ _ s := (Ok tt, s);
  reread _ _ s := (StillInput, s);
|}.

Definition input (status : Z) (body : string) : ExchangeInput unit := {|
  client_send _ _ s := (Ok (MkResponse status (MkHeaders None None) None [Some body]), s);
  i_endpoint := Sample.MkSurl "http" "127.0.0.1" "token";
  i_access_token := "old";
  i_refresh_token := "kept";
  i_pinned_issuer := None;
  i_ports := ports;
  env_now s := (1700000000, s);
  shutdown s := (false, s);
  i_generation := 5;
|}.

Definition config : AuthEndpointConfig := MkAuthEndpointConfig Provider None (Some "http://127.0.0.1/token") true.
Definition loaded : LegacyAuth :=
  match from_persisted_state "old" "kept" 0 0 config with Ok a => a | Err _ => inert Global end.
Definition run (status : Z) (body : string) : ExchangeResult :=
  (run_exchange (noted (input status body)) (tt, [])).1.
Definition calls (status : Z) (body : string) : list Call :=
  (run_exchange (noted (input status body)) (tt, [])).2.2.
End SampleRun.

Import SampleRun.

(** An invalid grant stops the unit; a rotation replaces the pair. *)
Example sample_outcomes :
  la_stop (apply_result loaded (run 400 "{grant}") f64_zero).2 = Some (StopSignIn RefreshTokenRejected) /\
  refresh_token (apply_result loaded (run 200 "{rotated}") f64_zero).2 = "next" /\
  gate (apply_result loaded (run 503 "") f64_zero).2 1700000000 false = Some (Until 1700000060).
Proof. vm_compute. split_and!; reflexivity. Qed.

Lemma sample_fresh : fresh loaded.
Proof. apply (fresh_loaded "old" "kept" 0 0 config). vm_compute. reflexivity. Defined.

Lemma derived_status_always_storable_witness :
  let a := (apply_result loaded (run 503 "") f64_zero).2 in
  let s := derive_full_status a 1700000001 5 SmLegacy false fuse_default Managed in
  st_state s = StRetrying /\ is_consistent s = true.
Proof.
  intros a s. split; [vm_compute; reflexivity|].
  refine (proj1 (derived_status_always_storable loaded a 1700000001 5 SmLegacy false fuse_default Managed
    sample_fresh _ _)); [|reflexivity].
  - apply rtc_once.
    apply (as_result loaded (run 503 "") f64_zero (apply_result loaded (run 503 "") f64_zero).1);
      vm_compute; reflexivity.
Defined.

Lemma spent_token_never_presented_again_witness :
  let a' := (apply_result loaded (run 400 "{grant}") f64_zero).2 in
  refresh_token a' = "kept" /\ (refresh_token a' <> "kept" \/ shut a').
Proof.
  split; [vm_compute; reflexivity|].
  apply (spent_token_never_presented_again (input 400 "{grant}") tt (run 400 "{grant}") tt
    (calls 400 "{grant}")
    (Answer (MkRawAnswer 400 (MkHeaders None None) (Complete "{grant}"))) loaded f64_zero).
  - vm_compute. reflexivity.
  - vm_compute. by left.
  - vm_compute. reflexivity.
Defined.

Lemma token_requests_are_spaced_witness :
  let a' := (apply_result loaded (run 503 "") f64_zero).2 in
  gate a' 1700000060 false = None /\ Z.min 1700000000 1700000000 + 60 <= 1700000060.
Proof.
  split; [vm_compute; reflexivity|].
  apply (token_requests_are_spaced (input 503 "") tt (run 503 "") tt (calls 503 "") 1700000000 loaded
    loaded f64_zero 1700000060 false).
  - vm_compute. reflexivity.
  - vm_compute. reflexivity.
  - vm_compute. split; discriminate.
  - vm_compute. split; discriminate.
  - exact sample_fresh.
  - apply rtc_refl.
  - reflexivity.
  - vm_compute. reflexivity.
Defined.
