(* ===== verification/Cloak.v ===== *)
(** * The Cloak envelope of a stored token pair

    [src/src/auth/teslamate_token.rs]: TeslaMate's AES-GCM envelope (type byte,
    length and text of the cipher's name, nonce, authentication tag,
    ciphertext), sealing and opening of one access/refresh pair, and the
    checks on token files.  The cipher is the [aes_gcm] crate, a parameter of
    the model; a nonce drawn from the operating system is an argument of the
    operation that draws it, [None] when the entropy source fails. *)
From S2P Require Import Prelude RustStr External Bytes Endpoint AuthState PairRow Wire Attempt.
Local Open Scope string_scope.
Local Open Scope Z_scope.

(** ** Bytes of a text *)

Fixpoint bytes_of (s : string) : bytes :=
  match s with
  | EmptyString => []
  | String c s => byte_of c :: bytes_of s
  end.
Fixpoint text_of (b : bytes) : string :=
  match b with
  | [] => EmptyString
  | x :: b => String (ascii_of_N (Z.to_N x)) (text_of b)
  end.

(** ** The cipher *)

(** [Aes256Gcm] of the [aes_gcm] crate with a payload of message and
    associated data; an encryption ends in the 16-byte tag. *)
Class Aead := {
  Aes256Gcm : Type;
  new_from_slice : bytes -> option Aes256Gcm;
  aead_encrypt : Aes256Gcm -> bytes -> bytes -> bytes -> option bytes;
  aead_decrypt : Aes256Gcm -> bytes -> bytes -> bytes -> option bytes;
}.

Definition CLOAK_TYPE : Z := 1.
Definition CLOAK_TAG : bytes := bytes_of "AES.GCM.V1".
Definition NONCE_BYTES : nat := 12.
Definition AUTH_TAG_BYTES : nat := 16.
Definition ASSOCIATED_DATA : bytes := bytes_of "AES256GCM".
Definition CLOAK_ENVELOPE_OVERHEAD_BYTES : Z :=
  2 + byte_len CLOAK_TAG + Z.of_nat NONCE_BYTES + Z.of_nat AUTH_TAG_BYTES.
Definition MAX_LEGACY_TOKEN_PLAINTEXT_BYTES : Z := 16 * 1024.

Inductive TeslaMateTokenError :=
| EntropyUnavailable
| EmptyEncryptionKey
| InvalidEncryptionKey
| UnsupportedEnvelope
| AuthenticationFailed
| EncryptionFailed
| InvalidPlaintext.
#[export] Instance TeslaMateTokenError_eq_dec : EqDecision TeslaMateTokenError.
Proof. solve_decision. Defined.

(** [OwnerTokens] of [credentials.rs], as [from_secret_parts] builds it. *)
Definition OwnerTokens : Type := (string * string).
Definition access_token_of (t : OwnerTokens) : string := t.1.
Definition refresh_token_of (t : OwnerTokens) : string := t.2.

Section Cloak.
Context `{D : Digest} `{C : Aead}.

Definition cloak_cipher (encryption_key : bytes) : result TeslaMateTokenError Aes256Gcm :=
  match encryption_key with
  | [] => Err EmptyEncryptionKey
  | _ => ok_or (new_from_slice (bytes_of (sha256 (text_of encryption_key)))) InvalidEncryptionKey
  end.

(** The slice [b[from..to]] of a buffer known to be long enough. *)
Definition slice (b : bytes) (from to : nat) : bytes := take (to - from) (drop from b).

(** The three [checked_add]s act on an index below 256 + 28, far from the
    bound of [usize]. *)
Definition decrypt_cloak_value (cipher : Aes256Gcm) (encrypted : bytes)
    : result TeslaMateTokenError bytes :=
  match encrypted with
  | kind :: tag_len :: _ =>
      if negb (kind =? CLOAK_TYPE) then Err UnsupportedEnvelope
      else
        let tag_bytes := Z.to_nat tag_len in
        let nonce_start := 2%nat in
        let nonce_end := (nonce_start + tag_bytes)%nat in
        let auth_tag_start := (nonce_end + NONCE_BYTES)%nat in
        let ciphertext_start := (auth_tag_start + AUTH_TAG_BYTES)%nat in
        if negb (tag_bytes =? length CLOAK_TAG)%nat
           || (length encrypted <=? ciphertext_start)%nat
           || negb (bool_decide (slice encrypted nonce_start nonce_end = CLOAK_TAG))
        then Err UnsupportedEnvelope
        else
          let ciphertext :=
            (drop ciphertext_start encrypted ++ slice encrypted auth_tag_start ciphertext_start)%list in
          let nonce := slice encrypted nonce_end auth_tag_start in
          ok_or (aead_decrypt cipher nonce ciphertext ASSOCIATED_DATA) AuthenticationFailed
  | _ => Err UnsupportedEnvelope
  end.

Definition encrypt_cloak_value (cipher : Aes256Gcm) (entropy : option bytes) (plaintext : bytes)
    : result TeslaMateTokenError bytes :=
  nonce ← ok_or entropy EntropyUnavailable;
  ciphertext_and_tag ← ok_or (aead_encrypt cipher nonce plaintext ASSOCIATED_DATA) EncryptionFailed;
  if (length ciphertext_and_tag <? AUTH_TAG_BYTES)%nat then Err EncryptionFailed
  else
    let tag_start := (length ciphertext_and_tag - AUTH_TAG_BYTES)%nat in
    let auth_tag := drop tag_start ciphertext_and_tag in
    let ciphertext := take tag_start ciphertext_and_tag in
    Ok ([CLOAK_TYPE; byte_len CLOAK_TAG] ++ CLOAK_TAG ++ nonce ++ auth_tag ++ ciphertext)%list.

Definition secret_utf8_copy (b : bytes) : result TeslaMateTokenError string :=
  let s := text_of b in
  if is_utf8 s then Ok s else Err InvalidPlaintext.

Definition decrypt_legacy_owner_tokens (encryption_key encrypted_access encrypted_refresh : bytes)
    : result TeslaMateTokenError OwnerTokens :=
  cipher ← cloak_cipher encryption_key;
  access ← decrypt_cloak_value cipher encrypted_access;
  refresh ← decrypt_cloak_value cipher encrypted_refresh;
  access ← secret_utf8_copy access;
  refresh ← secret_utf8_copy refresh;
  ok_or (from_secret_parts access refresh) InvalidPlaintext.

Definition encrypt_legacy_owner_tokens (encryption_key : bytes) (tokens : OwnerTokens)
    (entropy entropy' : option bytes) : result TeslaMateTokenError (bytes * bytes) :=
  cipher ← cloak_cipher encryption_key;
  access ← encrypt_cloak_value cipher entropy (bytes_of (access_token_of tokens));
  refresh ← encrypt_cloak_value cipher entropy' (bytes_of (refresh_token_of tokens));
  Ok (access, refresh).

(** [bytes.last() == Some(c)], then [pop]. *)
Definition pop_byte (c : Z) (b : bytes) : option bytes :=
  match last b with
  | Some x => if x =? c then Some (take (length b - 1) b) else None
  | None => None
  end.
Definition strip_line_ending (b : bytes) : bytes :=
  match pop_byte 10 b with
  | Some b => default b (pop_byte 13 b)
  | None => b
  end.

Definition validate_file_token_plaintext (value : bytes) : result TeslaMateTokenError unit :=
  let s := text_of value in
  if str_is_empty s || (str_len s >? MAX_LEGACY_TOKEN_PLAINTEXT_BYTES) || negb (is_utf8 s)
     || str_any (fun b => (byte_of b =? 0) || (byte_of b =? 13) || (byte_of b =? 10)
                          || is_ascii_control b) s
  then Err InvalidPlaintext else Ok ().

Definition encrypt_legacy_owner_token_files (encryption_key access_file refresh_file : bytes)
    (entropy entropy' : option bytes) : result TeslaMateTokenError (bytes * bytes) :=
  let access := strip_line_ending access_file in
  let refresh := strip_line_ending refresh_file in
  _ ← validate_file_token_plaintext access;
  _ ← validate_file_token_plaintext refresh;
  cipher ← cloak_cipher encryption_key;
  access ← encrypt_cloak_value cipher entropy access;
  refresh ← encrypt_cloak_value cipher entropy' refresh;
  Ok (access, refresh).

Definition ACCESS_DOMAIN : string :=
  append "teslatlas-hub:legacy-access-rejected:v1" (String "000"%char "").
Definition legacy_access_token_digest (access_token : string) : Uuid :=
  let access := trim_token_whitespace access_token in
  let bytes := sha256 (append ACCESS_DOMAIN (append (le_bytes 8 (str_len access)) access)) in
  be_value 0 (substring 0 16 bytes).

(** ** Lemmas *)

(** What the crates promise: a SHA-256 digest has 32 bytes, a 32-byte key is
    accepted, and a message within the token bound sealed under a 96-bit nonce
    gains the 16-byte tag and opens again under the same key, nonce and
    associated data. *)
Class AeadLaws : Prop := {
  digest_length s : String.length (sha256 s) = 32%nat;
  key_accepted k : length k = 32%nat -> is_Some (new_from_slice k);
  seal_opens c nonce m aad :
    length nonce = NONCE_BYTES -> byte_len m <= MAX_LEGACY_TOKEN_PLAINTEXT_BYTES ->
    exists out, aead_encrypt c nonce m aad = Some out
      /\ length out = (length m + AUTH_TAG_BYTES)%nat /\ aead_decrypt c nonce out aad = Some m;
}.

End Cloak.

Lemma bytes_of_length s : length (bytes_of s) = String.length s.
Proof. induction s; simpl; congruence. Qed.
Lemma text_of_bytes_of s : text_of (bytes_of s) = s.
Proof.
  induction s as [|c s IH]; [done|]. simpl. rewrite IH. unfold byte_of.
  by rewrite N2Z.id, ascii_N_embedding.
Qed.

(** The five parts of an envelope, cut where the reader cuts. *)
Lemma envelope_parts (nonce tag body : bytes) :
  length nonce = NONCE_BYTES -> length tag = AUTH_TAG_BYTES ->
  let e := ([CLOAK_TYPE; byte_len CLOAK_TAG] ++ CLOAK_TAG ++ nonce ++ tag ++ body)%list in
  slice e 2 12 = CLOAK_TAG /\ slice e 12 24 = nonce /\ slice e 24 40 = tag /\ drop 40 e = body
  /\ length e = (40 + length body)%nat.
Proof.
  intros Hn Ht. do 12 (destruct nonce as [|? nonce]; [done|]). destruct nonce; [|done].
  do 16 (destruct tag as [|? tag]; [done|]). by destruct tag.
Qed.

Section Theorems.
Context `{D : Digest} `{C : Aead} `{L : !AeadLaws}.

Lemma cloak_cipher_Ok key : key <> [] -> exists c, cloak_cipher key = Ok c.
Proof.
  intros Hk. destruct (key_accepted (bytes_of (sha256 (text_of key)))) as [c Hc].
  { by rewrite bytes_of_length, digest_length. }
  exists c. unfold cloak_cipher. rewrite Hc. by destruct key.
Qed.

(** One value sealed is an envelope of the message's length and forty bytes
    more, and opens to the message. *)
Lemma sealed_value_opens c nonce m :
  length nonce = NONCE_BYTES -> 0 < byte_len m <= MAX_LEGACY_TOKEN_PLAINTEXT_BYTES ->
  exists e, encrypt_cloak_value c (Some nonce) m = Ok e
    /\ byte_len e = byte_len m + CLOAK_ENVELOPE_OVERHEAD_BYTES /\ decrypt_cloak_value c e = Ok m.
Proof.
  intros Hn Hm. destruct (seal_opens c nonce m ASSOCIATED_DATA Hn) as (out & He & Hl & Hd); [lia|].
  set (k := length m). unfold encrypt_cloak_value. cbn [ok_or mbind result_bind]. rewrite He.
  cbn [ok_or mbind result_bind].
  destruct (Nat.ltb_spec (length out) AUTH_TAG_BYTES) as [Hs|_]; [unfold AUTH_TAG_BYTES in *; lia|].
  eexists. split; [reflexivity|].
  set (tag := drop _ out). set (body := take _ out).
  assert (length body = k) as Hbody by (unfold body, k, AUTH_TAG_BYTES in *; rewrite length_take; lia).
  assert (length tag = AUTH_TAG_BYTES) as Htag by (unfold tag, AUTH_TAG_BYTES in *; rewrite length_drop; lia).
  assert (body ++ tag = out)%list as Hout by apply take_drop.
  destruct (envelope_parts nonce tag body Hn Htag) as (H1 & H2 & H3 & H4 & H5).
  set (e := ([CLOAK_TYPE; _] ++ _)%list) in *. split.
  { unfold byte_len at 1. rewrite H5, Hbody. unfold k, byte_len, CLOAK_ENVELOPE_OVERHEAD_BYTES.
    change (byte_len CLOAK_TAG) with 10. unfold NONCE_BYTES, AUTH_TAG_BYTES. lia. }
  unfold decrypt_cloak_value. unfold e at 1. cbn [app].
  change (negb (CLOAK_TYPE =? CLOAK_TYPE)) with false. cbv beta iota zeta.
  change (Z.to_nat (byte_len CLOAK_TAG)) with 10%nat.
  change (2 + 10)%nat with 12%nat. change (12 + NONCE_BYTES)%nat with 24%nat.
  change (24 + AUTH_TAG_BYTES)%nat with 40%nat. fold e.
  rewrite H1, H2, H3, H4, H5, Hout, Hd. rewrite bool_decide_eq_true_2 by done.
  change (negb (10 =? length CLOAK_TAG)%nat) with false.
  destruct (Nat.leb_spec (40 + length body) 40); [unfold byte_len in Hm; lia|done].
Qed.

Lemma valid_component_len s : validate_token_component s = true ->
  0 < byte_len (bytes_of s) <= MAX_LEGACY_TOKEN_PLAINTEXT_BYTES.
Proof.
  unfold validate_token_component, byte_len, str_len. rewrite bytes_of_length.
  rewrite !andb_true_iff, Z.leb_le. intros [[Hne Hl] _].
  destruct s; [done|]. unfold MAX_TOKEN_BYTES in Hl. unfold MAX_LEGACY_TOKEN_PLAINTEXT_BYTES.
  cbn [String.length] in *. lia.
Qed.

Lemma from_secret_parts_Some a r t : from_secret_parts a r = Some t <->
  t = (a, r) /\ validate_token_component a = true /\ validate_token_component r = true.
Proof.
  unfold from_secret_parts, then_some.
  destruct (validate_token_component a), (validate_token_component r); naive_solver.
Qed.

Lemma sealed_pair_opens_spec key access refresh nonce nonce' :
  key <> [] -> length nonce = NONCE_BYTES -> length nonce' = NONCE_BYTES ->
  from_secret_parts access refresh = Some (access, refresh) ->
  is_utf8 access = true -> is_utf8 refresh = true ->
  exists a r, encrypt_legacy_owner_tokens key (access, refresh) (Some nonce) (Some nonce') = Ok (a, r)
    /\ decrypt_legacy_owner_tokens key a r = Ok (access, refresh)
    /\ token_store_imported a r = Ok (MkTokenStore a r 0 0 None).
Proof.
  intros Hk Hn Hn' Hv Ha Hr. pose proof Hv as (_ & Va & Vr)%from_secret_parts_Some.
  destruct (cloak_cipher_Ok key Hk) as [c Hc].
  apply valid_component_len in Va, Vr.
  destruct (sealed_value_opens c nonce _ Hn Va) as (a & Ea & La & Da).
  destruct (sealed_value_opens c nonce' _ Hn' Vr) as (r & Er & Lr & Dr).
  exists a, r. unfold encrypt_legacy_owner_tokens, decrypt_legacy_owner_tokens.
  rewrite Hc. simpl. unfold access_token_of, refresh_token_of. simpl. rewrite Ea. simpl. rewrite Er.
  rewrite Da. simpl. rewrite Dr. simpl. unfold secret_utf8_copy.
  rewrite !text_of_bytes_of, Ha, Hr. simpl. rewrite Hv. do 2 (split; [done|]).
  unfold token_store_imported, token_store_new.
  change CLOAK_ENVELOPE_OVERHEAD_BYTES with 40 in *.
  unfold MAX_LEGACY_TOKEN_PLAINTEXT_BYTES, MAX_LEGACY_TOKEN_CIPHERTEXT_BYTES in *.
  cases; bsimp; try lia; done.
Qed.

(** A valid pair sealed under any non-empty key opens to exactly that
    pair under the same key, and the two envelopes are within the bound of the
    token store, which accepts them as an imported row. *)
Theorem sealed_pair_opens key access refresh nonce nonce' :
  key <> [] -> length nonce = NONCE_BYTES -> length nonce' = NONCE_BYTES ->
  from_secret_parts access refresh = Some (access, refresh) ->
  is_utf8 access = true -> is_utf8 refresh = true ->
  exists a r, encrypt_legacy_owner_tokens key (access, refresh) (Some nonce) (Some nonce') = Ok (a, r)
    /\ decrypt_legacy_owner_tokens key a r = Ok (access, refresh)
    /\ token_store_imported a r = Ok (MkTokenStore a r 0 0 None).
Proof. apply sealed_pair_opens_spec. Qed.

Lemma bytes_of_text_of b : Forall in_u8 b -> bytes_of (text_of b) = b.
Proof.
  induction 1 as [|x b Hx _ IH]; [done|]. simpl. rewrite IH. f_equal. unfold byte_of.
  unfold in_u8, u8_max in Hx. rewrite N_ascii_embedding by lia. lia.
Qed.

(** The file check and the check of [OwnerTokens] agree on what a token is. *)
Lemma file_token_valid b : validate_file_token_plaintext b = Ok () <->
  validate_token_component (text_of b) = true /\ is_utf8 (text_of b) = true.
Proof.
  unfold validate_file_token_plaintext, validate_token_component, MAX_LEGACY_TOKEN_PLAINTEXT_BYTES,
    MAX_TOKEN_BYTES. rewrite Z.gtb_ltb, Z.ltb_antisym.
  destruct (str_is_empty _), (_ <=? _), (is_utf8 _), (str_any _ _); simpl; naive_solver.
Qed.

(** A pair read from two token files is the pair the files hold, less one
    line ending each. *)
Lemma sealed_files_open key fa fr nonce nonce' a r :
  key <> [] -> length nonce = NONCE_BYTES -> length nonce' = NONCE_BYTES ->
  Forall in_u8 (strip_line_ending fa) -> Forall in_u8 (strip_line_ending fr) ->
  encrypt_legacy_owner_token_files key fa fr (Some nonce) (Some nonce') = Ok (a, r) ->
  decrypt_legacy_owner_tokens key a r = Ok (text_of (strip_line_ending fa), text_of (strip_line_ending fr)).
Proof.
  intros Hk Hn Hn' Ba Br H. unfold encrypt_legacy_owner_token_files in H.
  apply result_bind_Ok in H as ([] & [Va Ua]%file_token_valid & H).
  apply result_bind_Ok in H as ([] & [Vr Ur]%file_token_valid & H).
  destruct (sealed_pair_opens_spec key (text_of (strip_line_ending fa)) (text_of (strip_line_ending fr))
    nonce nonce' Hk Hn Hn') as (a' & r' & He & Hd & _); [by apply from_secret_parts_Some|done|done|].
  unfold encrypt_legacy_owner_tokens, access_token_of, refresh_token_of in He. simpl in He.
  rewrite !bytes_of_text_of in He by done. rewrite H in He. by injection He as -> ->.
Qed.

End Theorems.

(** ** A toy cipher: the tag is the key's last byte, sixteen times *)
Module SampleCipher.

#[export] Instance digest : Digest := {|
  sha256 s := append (substring 0 32 s)
    (substring (String.length (substring 0 32 s)) 32 "0123456789abcdef0123456789abcdef") |}.
#[export] Instance aead : Aead := {|
  Aes256Gcm := bytes;
  new_from_slice k := Some k;
  aead_encrypt k _ m _ := Some (m ++ replicate 16 (default 0 (last k)))%list;
  aead_decrypt k _ out _ :=
    then_some (bool_decide (drop (length out - 16) out = replicate 16 (default 0 (last k))))
      (take (length out - 16) out);
|}.
Lemma substring_length n m s : String.length (substring n m s) = Nat.min m (String.length s - n).
Proof. revert n m; induction s as [|c s IH]; intros [|n] [|m]; simpl; try done; rewrite IH; lia. Qed.
#[export] Instance laws : AeadLaws.
Proof.
  split.
  - intros s. cbn [sha256 digest]. assert (forall x y, String.length (append x y) = (String.length x + String.length y)%nat) as ->.
    { induction x; simpl; intros; auto. }
    rewrite !substring_length. change (String.length "0123456789abcdef0123456789abcdef") with 32%nat. lia.
  - intros k _. by exists k.
  - intros c nonce m aad _ _. eexists. split; [reflexivity|]. cbn [aead_decrypt aead].
    rewrite length_app, length_replicate. split; [done|].
    replace (length m + 16 - 16)%nat with (length m) by lia.
    by rewrite take_app_length, drop_app_length, bool_decide_eq_true_2.
Qed.

Definition key : bytes := bytes_of "teslamate-test-encryption-key-v1".
Definition nonce : bytes := [1; 2; 3; 4; 5; 6; 7; 8; 9; 10; 11; 12].

End SampleCipher.

Import SampleCipher.
Lemma sealed_pair_opens_witness :
  exists a r, encrypt_legacy_owner_tokens key ("access-01", "refresh-01")
      (Some nonce) (Some nonce) = Ok (a, r)
    /\ decrypt_legacy_owner_tokens key a r = Ok ("access-01", "refresh-01")
    /\ token_store_imported a r = Ok (MkTokenStore a r 0 0 None).
Proof.
  apply (sealed_pair_opens key "access-01" "refresh-01" nonce
    nonce); (reflexivity || discriminate).
Defined.
