(* ===== verification/KeyFiles.v ===== *)
(** * The key files beside the token pair

    [src/src/auth/teslamate_credentials.rs]: the encryption key of the stored
    pair lives in a file, the pair in SQLite, and the two are replaced
    together by keeping the old key until the new pair has committed.  The
    outside is a [World] (the secrets directory, the named files, the committed
    pair) and a script that says, per system call, whether it works, fails or
    the process dies there; a call that dies or fails has no effect, except
    that a write may have gone through in part. *)
From S2P Require Import Prelude RustStr External AuthState PairRow Attempt Cloak.
From stdpp Require Import gmap.
Local Open Scope Z_scope.

Definition SECRETS_DIRECTORY_MODE : Z := 448.
Definition KEY_FILE_MODE : Z := 384.
Definition MAX_KEY_BYTES : Z := 16 * 1024.
Definition CURSOR_KEY_BYTES : Z := 32.

(** The paths of the module: [key_path], [previous_key_path],
    [cursor_key_path] and the two temporary names. *)
Inductive KeyPath := PCurrent | PPrevious | PTemporary | PCursor | PCursorTemporary.
#[export] Instance KeyPath_eq_dec : EqDecision KeyPath.
Proof. solve_decision. Defined.
Definition path_number (p : KeyPath) : nat :=
  match p with PCurrent => 0 | PPrevious => 1 | PTemporary => 2 | PCursor => 3 | PCursorTemporary => 4 end.
Definition path_numbered (n : nat) : option KeyPath :=
  [PCurrent; PPrevious; PTemporary; PCursor; PCursorTemporary] !! n.
#[export] Program Instance KeyPath_countable : Countable KeyPath :=
  inj_countable path_number path_numbered _.
Next Obligation. by intros []. Qed.

(** What [symlink_metadata] and [fstat] report. *)
Inductive FileKind := Regular | Directory | Symlink | OtherKind.
#[export] Instance FileKind_eq_dec : EqDecision FileKind.
Proof. solve_decision. Defined.
Record Meta := MkMeta { m_kind : FileKind; m_mode : Z; m_uid : Z; m_dev : Z; m_ino : Z }.
Record Entry := MkEntry { e_meta : Meta; e_bytes : bytes }.

Inductive Fault := Works | Fails (written : nat) | Dies (written : nat).

Record World := MkWorld {
  w_secrets : option Meta;
  w_files : gmap KeyPath Entry;
  w_tokens : option TeslaMateLegacyTokenStore;
  w_next_ino : Z;
  w_faults : list Fault;
  w_guard : list bool;
}.
#[export] Instance eta_World : Eta World := fun w =>
  MkWorld (w_secrets w) (w_files w) (w_tokens w) (w_next_ino w) (w_faults w) (w_guard w).

Inductive TeslaMateCredentialError :=
| KEntropyUnavailable
| EmptyKey
| KeyTooLarge
| CreateSecretsDirectory
| InspectSecretsDirectory
| UnsafeSecretsDirectory
| InspectKey
| UnsafeKeyFile
| CreateTemporaryKey
| ProtectTemporaryKey
| WriteTemporaryKey
| SyncTemporaryKey
| ReplaceKey
| RemoveKey
| RestoreKey
| PendingKeyReplacement
| PendingKeyReplacementWithoutTokens
| NoMatchingKeyGeneration
| SettlementRefused
| OpenSecretsDirectory
| SyncSecretsDirectory
| ReadKey
| KeyIdentityChanged
| InspectCursorKey
| UnsafeCursorKeyFile
| InvalidCursorKeyLength
| CreateTemporaryCursorKey
| ProtectTemporaryCursorKey
| WriteTemporaryCursorKey
| SyncTemporaryCursorKey
| PublishCursorKey
| RemoveTemporaryCursorKey
| ReadCursorKey
| CursorKeyIdentityChanged.

Inductive TeslaMateCredentialImportError :=
| ICredential (e : TeslaMateCredentialError)
| ITokenStore (e : StoreError)
| ITokenCipher (e : TeslaMateTokenError)
| IRollback (store : StoreError) (rollback : TeslaMateCredentialError).

Inductive TeslaMateCredentialRemovalError :=
| RTokenStore (e : StoreError)
| RCredential (e : TeslaMateCredentialError).

(** ** Computations that may fail or die *)

Inductive ending (E A : Type) := Returned (r : result E A) | Died.
Arguments Returned {E A} r.
Arguments Died {E A}.

Definition io (E A : Type) : Type := World -> ending E A * World.
#[export] Instance io_ret {E} : MRet (io E) := fun _ a w => (Returned (Ok a), w).
#[export] Instance io_bind {E} : MBind (io E) := fun _ _ f m w =>
  match m w with
  | (Returned (Ok a), w) => f a w
  | (Returned (Err e), w) => (Returned (Err e), w)
  | (Died, w) => (Died, w)
  end.
Definition fail {E A} (e : E) : io E A := fun w => (Returned (Err e), w).
Definition lift {E A} (r : result E A) : io E A := fun w => (Returned r, w).
(** A call whose result is matched on instead of propagated. *)
Definition catch {E F A} (m : io E A) : io F (result E A) := fun w =>
  match m w with
  | (Returned r, w) => (Returned (Ok r), w)
  | (Died, w) => (Died, w)
  end.
Definition map_err {E F A} (f : E -> F) (m : io E A) : io F A :=
  r ← catch m; match r with Ok a => mret a | Err e => fail (f e) end.

(** One system call: its error, what a failed or dying call leaves behind, and
    its effect. *)
Definition sys {E A} (failed : E) (spoil : nat -> World -> World) (act : World -> result E A * World)
    : io E A := fun w =>
  match w_faults w with
  | [] => let '(r, w) := act w in (Returned r, w)
  | f :: fs =>
      let w := w <| w_faults := fs |> in
      match f with
      | Works => let '(r, w) := act w in (Returned r, w)
      | Fails n => (Returned (Err failed), spoil n w)
      | Dies n => (Died, spoil n w)
      end
  end.
Definition untouched (n : nat) (w : World) : World := w.
(** A call that only reads. *)
Definition look {E A} (failed : E) (f : World -> result E A) : io E A :=
  sys failed untouched (fun w => (f w, w)).

(** [may_settle]: the run's guard, asked anew each time. *)
Definition may_settle {E} : io E bool := fun w =>
  match w_guard w with
  | [] => (Returned (Ok true), w)
  | b :: bs => (Returned (Ok b), w <| w_guard := bs |>)
  end.

Section KeyFiles.
Context `{D : Digest} `{C : Aead}.
(** The user the process runs as and its file-creation mask. *)
Variable uid umask : Z.

(** ** The system calls *)

(** [fs::symlink_metadata]; [None] is [ErrorKind::NotFound]. *)
Definition symlink_metadata (failed : TeslaMateCredentialError) (p : KeyPath)
    : io TeslaMateCredentialError (option Meta) :=
  look failed (fun w => Ok (e_meta <$> w_files w !! p)).
Definition remove_file (failed : TeslaMateCredentialError) (p : KeyPath) : io TeslaMateCredentialError unit :=
  sys failed untouched (fun w =>
    match w_files w !! p with
    | Some _ => (Ok (), w <| w_files := delete p (w_files w) |>)
    | None => (Err failed, w)
    end).
Definition rename_file (failed : TeslaMateCredentialError) (a b : KeyPath) : io TeslaMateCredentialError unit :=
  sys failed untouched (fun w =>
    match w_files w !! a with
    | Some e => (Ok (), w <| w_files := <[b := e]> (delete a (w_files w)) |>)
    | None => (Err failed, w)
    end).
(** [fs::hard_link]; [false] is [ErrorKind::AlreadyExists]. *)
Definition hard_link (failed : TeslaMateCredentialError) (a b : KeyPath) : io TeslaMateCredentialError bool :=
  sys failed untouched (fun w =>
    match w_files w !! a, w_files w !! b with
    | Some _, Some _ => (Ok false, w)
    | Some e, None => (Ok true, w <| w_files := <[b := e]> (w_files w) |>)
    | None, _ => (Err failed, w)
    end).
(** [OpenOptions] with [create_new] and [mode(KEY_FILE_MODE)]. *)
Definition create_new (failed : TeslaMateCredentialError) (p : KeyPath) : io TeslaMateCredentialError unit :=
  sys failed untouched (fun w =>
    match w_files w !! p with
    | Some _ => (Err failed, w)
    | None =>
        let meta := MkMeta Regular (Z.land KEY_FILE_MODE (Z.lnot umask)) uid 0 (w_next_ino w) in
        (Ok (), w <| w_files := <[p := MkEntry meta []]> (w_files w) |>
                  <| w_next_ino := w_next_ino w + 1 |>)
    end).
Definition with_mode (mode : Z) (e : Entry) : Entry :=
  let m := e_meta e in MkEntry (MkMeta (m_kind m) mode (m_uid m) (m_dev m) (m_ino m)) (e_bytes e).
Definition with_bytes (b : bytes) (e : Entry) : Entry := MkEntry (e_meta e) b.
Definition set_permissions (failed : TeslaMateCredentialError) (p : KeyPath) : io TeslaMateCredentialError unit :=
  sys failed untouched (fun w => (Ok (), w <| w_files := alter (with_mode KEY_FILE_MODE) p (w_files w) |>)).
Definition write_all (failed : TeslaMateCredentialError) (p : KeyPath) (b : bytes)
    : io TeslaMateCredentialError unit :=
  sys failed (fun n w => w <| w_files := alter (with_bytes (take n b)) p (w_files w) |>)
    (fun w => (Ok (), w <| w_files := alter (with_bytes b) p (w_files w) |>)).
Definition sync_all (failed : TeslaMateCredentialError) : io TeslaMateCredentialError unit :=
  look failed (fun _ => Ok ()).
Definition sync_directory : io TeslaMateCredentialError unit :=
  look OpenSecretsDirectory (fun w => ok_or ((fun _ => ()) <$> w_secrets w) OpenSecretsDirectory);;
  look SyncSecretsDirectory (fun _ => Ok ()).

(** A temporary name is a fresh UUID: what an earlier run left under its own
    temporary name is never met again. *)
Definition new_v4 {E} (p : KeyPath) : io E unit := fun w =>
  (Returned (Ok ()), w <| w_files := delete p (w_files w) |>).

(** ** The secrets directory *)

Definition secrets_directory_is_unsafe (m : Meta) : bool :=
  bool_decide (m_kind m = Symlink) || negb (bool_decide (m_kind m = Directory))
  || negb (Z.land (m_mode m) 511 =? SECRETS_DIRECTORY_MODE).
Definition validate_secrets_directory : io TeslaMateCredentialError unit :=
  m ← look InspectSecretsDirectory (fun w => ok_or (w_secrets w) InspectSecretsDirectory);
  if secrets_directory_is_unsafe m then fail UnsafeSecretsDirectory else mret ().
(** [DirBuilder::create]; [false] is [ErrorKind::AlreadyExists]. *)
Definition create_secrets_directory : io TeslaMateCredentialError bool :=
  sys CreateSecretsDirectory untouched (fun w =>
    match w_secrets w with
    | Some _ => (Ok false, w)
    | None =>
        let meta := MkMeta Directory (Z.land SECRETS_DIRECTORY_MODE (Z.lnot umask)) uid 0 (w_next_ino w) in
        (Ok true, w <| w_secrets := Some meta |> <| w_next_ino := w_next_ino w + 1 |>)
    end).
Definition ensure_secrets_directory : io TeslaMateCredentialError unit :=
  found ← look InspectSecretsDirectory (fun w => Ok (w_secrets w));
  match found with
  | Some _ => validate_secrets_directory
  | None => _ ← create_secrets_directory; validate_secrets_directory
  end.

(** ** One key file *)

Definition key_file_is_unsafe (m : Meta) : bool :=
  bool_decide (m_kind m = Symlink) || negb (bool_decide (m_kind m = Regular))
  || negb (Z.land (m_mode m) 511 =? KEY_FILE_MODE) || negb (m_uid m =? uid).
Definition validate_key (key : bytes) : result TeslaMateCredentialError unit :=
  if byte_len key =? 0 then Err EmptyKey
  else if byte_len key >? MAX_KEY_BYTES then Err KeyTooLarge
  else Ok ().
Definition path_exists (p : KeyPath) : io TeslaMateCredentialError bool :=
  m ← symlink_metadata InspectKey p; mret (is_some m).
Definition validate_key_file (p : KeyPath) : io TeslaMateCredentialError unit :=
  m ← symlink_metadata InspectKey p;
  match m with
  | None => fail InspectKey
  | Some m => if key_file_is_unsafe m then fail UnsafeKeyFile else mret ()
  end.
Definition remove_checked_key_file (p : KeyPath) : io TeslaMateCredentialError unit :=
  validate_key_file p;; remove_file RemoveKey p.

(** [read_checked_secret_file]: the descriptor holds the entry it opened. *)
Definition read_checked_secret_file (p : KeyPath) (maximum : Z) (cursor : bool)
    : io TeslaMateCredentialError bytes :=
  let read_error := if cursor then ReadCursorKey else ReadKey in
  let unsafe := if cursor then UnsafeCursorKeyFile else UnsafeKeyFile in
  let changed := if cursor then CursorKeyIdentityChanged else KeyIdentityChanged in
  descriptor ← look read_error (fun w =>
    match w_files w !! p with
    | None => Err read_error
    | Some e => if bool_decide (m_kind (e_meta e) = Symlink) then Err unsafe else Ok e
    end);
  held ← look read_error (fun _ => Ok (e_meta descriptor));
  if negb (bool_decide (m_kind held = Regular)) || negb (Z.land (m_mode held) 511 =? KEY_FILE_MODE)
     || negb (m_uid held =? uid)
  then fail unsafe
  else
    look read_error (fun _ => Ok ());;
    look read_error (fun _ => Ok ());;
    read ← look read_error (fun _ => Ok (take (Z.to_nat (maximum + 1)) (e_bytes descriptor)));
    if byte_len read >? maximum then fail (if cursor then InvalidCursorKeyLength else KeyTooLarge)
    else
      current ← look changed (fun w => ok_or (e_meta <$> w_files w !! p) changed);
      if bool_decide (m_kind current = Symlink) || negb (bool_decide (m_kind current = Regular))
         || negb (m_uid current =? m_uid held) || negb (m_dev current =? m_dev held)
         || negb (m_ino current =? m_ino held) || negb (Z.land (m_mode current) 511 =? KEY_FILE_MODE)
      then fail changed
      else mret read.
Definition read_checked_key_file (p : KeyPath) (maximum : Z) : io TeslaMateCredentialError bytes :=
  read_checked_secret_file p maximum false.
Definition read_checked_cursor_key_file (p : KeyPath) : io TeslaMateCredentialError bytes :=
  read_checked_secret_file p CURSOR_KEY_BYTES true.

Definition load_key_file (p : KeyPath) : io TeslaMateCredentialError bytes :=
  key ← read_checked_key_file p MAX_KEY_BYTES;
  lift (validate_key key);;
  mret key.
Definition load_key : io TeslaMateCredentialError bytes :=
  validate_secrets_directory;; load_key_file PCurrent.

Definition write_private_key_file (p : KeyPath) (key : bytes) : io TeslaMateCredentialError unit :=
  create_new CreateTemporaryKey p;;
  set_permissions ProtectTemporaryKey p;;
  write_all WriteTemporaryKey p key;;
  sync_all SyncTemporaryKey.

(** ** Replacing the key and the pair *)

Definition key_matches_tokens (key : bytes) (tokens : TeslaMateLegacyTokenStore) : bool :=
  match decrypt_legacy_owner_tokens key (ts_access tokens) (ts_refresh tokens) with
  | Err _ => false
  | Ok plaintext =>
      is_none_or (ts_credential_generation tokens) (fun expected =>
        legacy_refresh_credential_generation (refresh_token_of plaintext) =? expected)
  end.

Definition restore_previous_key : io TeslaMateCredentialError unit :=
  validate_key_file PPrevious;;
  exists_ ← path_exists PCurrent;
  match exists_ with
  | true =>
      allowed ← may_settle;
      match allowed with
      | false => fail SettlementRefused
      | true => remove_checked_key_file PCurrent
      end
  | false => mret ()
  end;;
  allowed ← may_settle;
  match allowed with
  | false => fail SettlementRefused
  | true => rename_file RestoreKey PPrevious PCurrent;; sync_directory
  end.

(** [load_key_for_tokens_with]; [load_key_for_tokens] is the run whose guard
    always allows. *)
Definition load_key_for_tokens_with (tokens : TeslaMateLegacyTokenStore)
    : io TeslaMateCredentialError bytes :=
  previous_exists ← path_exists PPrevious;
  loaded ← catch load_key;
  let otherwise e :=
    match previous_exists with
    | true =>
        prior ← load_key_file PPrevious;
        if negb (key_matches_tokens prior tokens) then fail NoMatchingKeyGeneration
        else restore_previous_key;; load_key
    | false => fail e
    end in
  match loaded with
  | Ok current =>
      if key_matches_tokens current tokens then
        match previous_exists with
        | true =>
            allowed ← may_settle;
            match allowed with
            | false => fail SettlementRefused
            | true => remove_checked_key_file PPrevious;; sync_directory;; mret current
            end
        | false => mret current
        end
      else otherwise NoMatchingKeyGeneration
  | Err e => otherwise e
  end.

Definition select_stored_legacy_key_read_only (tokens : TeslaMateLegacyTokenStore)
    : io TeslaMateCredentialError bytes :=
  current_exists ← path_exists PCurrent;
  current ← catch load_key;
  if match current with Ok key => key_matches_tokens key tokens | Err _ => false end
  then lift current
  else
    previous_exists ← path_exists PPrevious;
    match previous_exists with
    | true =>
        previous ← load_key_file PPrevious;
        if key_matches_tokens previous tokens then
          if current_exists && negb (is_ok current) then lift current else mret previous
        else fail NoMatchingKeyGeneration
    | false =>
        match current with
        | Ok _ => fail NoMatchingKeyGeneration
        | Err error => fail error
        end
    end.
Definition validate_stored_legacy_credentials_read_only (tokens : TeslaMateLegacyTokenStore)
    : io TeslaMateCredentialError unit :=
  _ ← select_stored_legacy_key_read_only tokens; mret ().

(** The three calls of [HubStore]: each is one transaction. *)
Definition load_teslamate_legacy_tokens : io StoreError (option TeslaMateLegacyTokenStore) :=
  look OtherStoreError (fun w => Ok (w_tokens w)).
Definition replace_teslamate_legacy_tokens (tokens : TeslaMateLegacyTokenStore) : io StoreError unit :=
  sys OtherStoreError untouched (fun w => (Ok (), w <| w_tokens := Some tokens |>)).
Definition clear_teslamate_legacy_tokens : io StoreError unit :=
  sys OtherStoreError untouched (fun w => (Ok (), w <| w_tokens := None |>)).

Definition recover_pending_key_replacement : io TeslaMateCredentialImportError unit :=
  pending ← map_err ICredential (path_exists PPrevious);
  match pending with
  | false => mret ()
  | true =>
      stored ← map_err ITokenStore load_teslamate_legacy_tokens;
      stored ← lift (ok_or stored (ICredential PendingKeyReplacementWithoutTokens));
      _ ← map_err ICredential (load_key_for_tokens_with stored);
      mret ()
  end.

(** [KeyReplacement] is its [had_previous]. *)
Definition replacement_commit (had_previous : bool) : io TeslaMateCredentialError unit :=
  match had_previous with
  | true => remove_checked_key_file PPrevious;; sync_directory
  | false => mret ()
  end.
Definition replacement_rollback (had_previous : bool) : io TeslaMateCredentialError unit :=
  exists_ ← path_exists PCurrent;
  match exists_ with true => remove_checked_key_file PCurrent | false => mret () end;;
  match had_previous with true => rename_file RestoreKey PPrevious PCurrent | false => mret () end;;
  sync_directory.

(** [let _ = call;]. *)
Definition ignore {A} (m : io TeslaMateCredentialError A) : io TeslaMateCredentialError unit :=
  _ ← catch (E := TeslaMateCredentialError) m; mret ().

Definition begin_key_replacement (key : bytes) : io TeslaMateCredentialError bool :=
  lift (validate_key key);;
  ensure_secrets_directory;;
  pending ← path_exists PPrevious;
  match pending with
  | true => fail PendingKeyReplacement
  | false =>
      had_previous ← path_exists PCurrent;
      match had_previous with true => validate_key_file PCurrent | false => mret () end;;
      new_v4 PTemporary;;
      write_private_key_file PTemporary key;;
      match had_previous with
      | true =>
          moved ← catch (rename_file ReplaceKey PCurrent PPrevious);
          match moved with
          | Err error => ignore (remove_file RemoveKey PTemporary);; fail error
          | Ok _ => sync_directory
          end
      | false => mret ()
      end;;
      moved ← catch (rename_file ReplaceKey PTemporary PCurrent);
      match moved with
      | Err error =>
          match had_previous with
          | true => ignore (rename_file ReplaceKey PPrevious PCurrent);; ignore sync_directory
          | false => mret ()
          end;;
          ignore (remove_file RemoveKey PTemporary);;
          fail error
      | Ok _ => sync_directory;; mret had_previous
      end
  end.

(** The row [replace_key_and_tokens] commits. *)
Definition bound_row (key : bytes) (tokens : TeslaMateLegacyTokenStore)
    : result TeslaMateCredentialImportError TeslaMateLegacyTokenStore :=
  match decrypt_legacy_owner_tokens key (ts_access tokens) (ts_refresh tokens) with
  | Err e => Err (ITokenCipher e)
  | Ok plaintext =>
      match with_credential_generation tokens
              (legacy_refresh_credential_generation (refresh_token_of plaintext)) with
      | Err e => Err (ITokenStore e)
      | Ok row => Ok row
      end
  end.
Definition replace_key_and_tokens (key : bytes) (tokens : TeslaMateLegacyTokenStore)
    : io TeslaMateCredentialImportError unit :=
  recover_pending_key_replacement;;
  row ← lift (bound_row key tokens);
  replacement ← map_err ICredential (begin_key_replacement key);
  stored ← catch (replace_teslamate_legacy_tokens row);
  match stored with
  | Err store_error =>
      undone ← catch (replacement_rollback replacement);
      match undone with
      | Ok _ => fail (ITokenStore store_error)
      | Err rollback => fail (IRollback store_error rollback)
      end
  | Ok _ => map_err ICredential (replacement_commit replacement)
  end.

Definition remove_key_and_tokens : io TeslaMateCredentialRemovalError unit :=
  map_err RTokenStore clear_teslamate_legacy_tokens;;
  map_err RCredential (
    current_exists ← path_exists PCurrent;
    previous_exists ← path_exists PPrevious;
    match current_exists with true => remove_checked_key_file PCurrent | false => mret () end;;
    match previous_exists with true => remove_checked_key_file PPrevious | false => mret () end;;
    if current_exists || previous_exists then sync_directory else mret ()).

(** ** The cursor key *)

(** [load_cursor_key_file]: [CursorKey::from_bytes] of exactly 32 bytes. *)
Definition load_cursor_key_file (p : KeyPath) : io TeslaMateCredentialError bytes :=
  b ← read_checked_cursor_key_file p;
  if byte_len b =? CURSOR_KEY_BYTES then mret b else fail InvalidCursorKeyLength.

(** [create_cursor_key_once]; [entropy] is the 32 bytes drawn. *)
Definition create_cursor_key_once (entropy : option bytes) : io TeslaMateCredentialError bytes :=
  new_v4 PCursorTemporary;;
  key ← lift (ok_or entropy KEntropyUnavailable);
  created ← catch (
    create_new CreateTemporaryCursorKey PCursorTemporary;;
    set_permissions ProtectTemporaryCursorKey PCursorTemporary;;
    write_all WriteTemporaryCursorKey PCursorTemporary key;;
    sync_all SyncTemporaryCursorKey;;
    linked ← hard_link PublishCursorKey PCursorTemporary PCursor;
    match linked with
    | true =>
        remove_file RemoveTemporaryCursorKey PCursorTemporary;;
        sync_directory;;
        mret key
    | false =>
        ignore (remove_file RemoveTemporaryCursorKey PCursorTemporary);;
        load_cursor_key_file PCursor
    end);
  match created with
  | Ok key => mret key
  | Err e => ignore (remove_file RemoveTemporaryCursorKey PCursorTemporary);; fail e
  end.

Definition load_or_create_cursor_key (entropy : option bytes) : io TeslaMateCredentialError bytes :=
  ensure_secrets_directory;;
  found ← symlink_metadata InspectCursorKey PCursor;
  match found with
  | Some _ => load_cursor_key_file PCursor
  | None => create_cursor_key_once entropy
  end.

Definition load_existing_cursor_key_bytes : io TeslaMateCredentialError (option bytes) :=
  found ← symlink_metadata InspectCursorKey PCursor;
  match found with
  | Some _ => b ← read_checked_cursor_key_file PCursor; mret (Some b)
  | None => mret None
  end.

End KeyFiles.
