(* ===== verification/KeyRecovery.v ===== *)
(** * The committed pair can always be opened again

    Over [KeyFiles]: a triple logic for computations that may fail or die, the
    invariant that one of the two key files opens the committed pair, and its
    preservation by every operation whatever system call fails or is the last
    of the process. *)
From S2P Require Import Prelude RustStr External AuthState PairRow Attempt Cloak KeyFiles.
From stdpp Require Import gmap.
Local Open Scope Z_scope.

(** ** Triples

    [triple P m Q R]: from a world in [P], [m] returns a value in [Q], or fails
    or dies in [R]. *)
Definition triple {E A} (P : World -> Prop) (m : io E A) (Q : A -> World -> Prop) (R : World -> Prop) : Prop :=
  forall w, P w -> match m w with
                   | (Returned (Ok a), w') => Q a w'
                   | (_, w') => R w'
                   end.

(** A property of the disk alone: the script and the guard do not matter. *)
Class Disk (P : World -> Prop) : Prop := disk_of : forall w w',
  w_secrets w = w_secrets w' -> w_files w = w_files w' -> w_tokens w = w_tokens w' -> P w -> P w'.

Section Logic.
Context {E : Type}.

Lemma triple_ret {A} (a : A) P (R : World -> Prop) : triple P (mret a : io E A) (fun b w => b = a /\ P w) R.
Proof. by intros w H. Qed.
Lemma triple_fail {A} (e : E) (P : World -> Prop) (Q : A -> World -> Prop) : triple P (fail e) Q P.
Proof. by intros w H. Qed.
Lemma triple_bind {A B} (m : io E A) (f : A -> io E B) P Q Q' R :
  triple P m Q R -> (forall a, triple (Q a) (f a) Q' R) -> triple P (m ≫= f) Q' R.
Proof.
  intros Hm Hf w Hw. specialize (Hm w Hw). unfold mbind, io_bind.
  destruct (m w) as [[[a|e]|] w']; [by apply Hf|done|done].
Qed.
Lemma triple_conseq {A} (m : io E A) (P P' : World -> Prop) (Q Q' : A -> World -> Prop) (R R' : World -> Prop) :
  triple P m Q R -> (forall w, P' w -> P w) -> (forall a w, Q a w -> Q' a w) -> (forall w, R w -> R' w) ->
  triple P' m Q' R'.
Proof. intros Hm HP HQ HR w Hw. specialize (Hm w (HP w Hw)). destruct (m w) as [[[e|a]|] w']; auto. Qed.
Lemma triple_from {A} (P : World -> Prop) (m : io E A) (P' : World -> Prop) Q R :
  (forall w, P' w -> P w) -> triple P m Q R -> triple P' m Q R.
Proof. intros H Hm w Hw. exact (Hm w (H w Hw)). Qed.
Lemma triple_to {A} (Q : A -> World -> Prop) (m : io E A) P Q' R :
  (forall a w, Q a w -> Q' a w) -> triple P m Q R -> triple P m Q' R.
Proof. intros H Hm. by eapply triple_conseq. Qed.
Lemma triple_else {A} (R : World -> Prop) (m : io E A) P Q (R' : World -> Prop) :
  (forall w, R w -> R' w) -> triple P m Q R -> triple P m Q R'.
Proof. intros H Hm. by eapply triple_conseq. Qed.
Lemma triple_pre {A} (m : io E A) (phi : Prop) (P : World -> Prop) Q R :
  (phi -> triple P m Q R) -> triple (fun w => phi /\ P w) m Q R.
Proof. intros H w [Hp Hw]. exact (H Hp w Hw). Qed.
Lemma triple_ex {A B} (m : io E A) (P : B -> World -> Prop) Q R :
  (forall b, triple (P b) m Q R) -> triple (fun w => exists b, P b w) m Q R.
Proof. intros H w [b Hw]. exact (H b w Hw). Qed.
Lemma triple_catch {F A} (m : io E A) P Q R :
  triple P m Q R ->
  triple (E := F) P (catch m) (fun r w => match r with Ok a => Q a w | Err _ => R w end) R.
Proof. intros Hm w Hw. specialize (Hm w Hw). unfold catch. by destruct (m w) as [[[e|a]|] w']. Qed.
Lemma triple_map_err {F A} (g : E -> F) (m : io E A) P Q R : triple P m Q R -> triple P (map_err g m) Q R.
Proof.
  intros Hm w Hw. specialize (Hm w Hw). unfold map_err, mbind, io_bind, catch.
  by destruct (m w) as [[[e|a]|] w'].
Qed.
Lemma triple_lift {A} (r : result E A) (P : World -> Prop) :
  triple P (lift r) (fun a w => r = Ok a /\ P w) P.
Proof. intros w Hw. unfold lift. by destruct r. Qed.
Lemma triple_sys {A} (failed : E) spoil (act : World -> result E A * World) (P : World -> Prop) Q R `{!Disk P} :
  (forall n w, P w -> R (spoil n w)) ->
  (forall w, P w -> match act w with (Ok a, w') => Q a w' | (Err _, w') => R w' end) ->
  triple P (sys failed spoil act) Q R.
Proof.
  intros Hs Ha w Hw. unfold sys. destruct (w_faults w) as [|f fs].
  - specialize (Ha w Hw). by destruct (act w) as [[?|?] ?].
  - assert (P (w <| w_faults := fs |>)) as Hw' by (by eapply disk_of; [..|exact Hw]).
    destruct f; [|by apply Hs..]. specialize (Ha _ Hw'). by destruct (act _) as [[?|?] ?].
Qed.
Lemma triple_look {A} (failed : E) (f : World -> result E A) (P : World -> Prop) `{!Disk P} :
  triple P (look failed f) (fun a w => f w = Ok a /\ P w) P.
Proof.
  apply triple_sys; [done|done|]. intros w Hw. by destruct (f w) eqn:?.
Qed.
Lemma triple_settle (P : World -> Prop) `{!Disk P} : triple P (may_settle (E := E)) (fun _ w => P w) P.
Proof.
  intros w Hw. unfold may_settle. destruct (w_guard w); [done|]. by eapply disk_of; [..|exact Hw].
Qed.

End Logic.

(** A predicate written on the fields of the disk is one. *)
Definition disk (p : option Meta -> gmap KeyPath Entry -> option TeslaMateLegacyTokenStore -> Prop)
    : World -> Prop := fun w => p (w_secrets w) (w_files w) (w_tokens w).
#[export] Instance disk_disk p : Disk (disk p).
Proof. unfold disk. by intros w w' -> -> ->. Qed.
Lemma and_disk (P Q : World -> Prop) : Disk P -> Disk Q -> Disk (fun w => P w /\ Q w).
Proof. intros HP HQ w w' ? ? ? []. split; by eapply disk_of. Qed.
Lemma ex_disk {A} (P : A -> World -> Prop) : (forall a, Disk (P a)) -> Disk (fun w => exists a, P a w).
Proof. intros HP w w' ? ? ? [a H]. exists a. by eapply disk_of. Qed.
Lemma pure_disk (phi : Prop) : Disk (fun _ => phi).
Proof. by intros w w'. Qed.
Lemma file_disk (p : KeyPath) (o : option Entry) : Disk (fun w => w_files w !! p = o).
Proof. by intros w w' _ ->. Qed.
#[export] Hint Extern 1 (Disk (fun _ => _ /\ _)) => apply and_disk : typeclass_instances.
#[export] Hint Extern 1 (Disk (fun _ => exists _, _)) => apply ex_disk; intros ? : typeclass_instances.
#[export] Hint Extern 1 (Disk (fun _ => w_files _ !! _ = _)) => apply file_disk : typeclass_instances.
#[export] Hint Extern 0 (Disk (fun w => ?P w)) => change (Disk P) : typeclass_instances.
#[export] Hint Extern 2 (Disk (fun _ => _)) => apply pure_disk : typeclass_instances.

(** [m] leaves the disk as it is. *)
Definition reads {E A} (m : io E A) : Prop := forall P, Disk P -> triple P m (fun _ w => P w) P.
Lemma reads_bind {E A B} (m : io E A) (f : A -> io E B) : reads m -> (forall a, reads (f a)) -> reads (m ≫= f).
Proof. intros Hm Hf P HP. eapply triple_bind; [by apply Hm|]. intros a. by apply Hf. Qed.
Lemma reads_look {E A} (failed : E) (f : World -> result E A) : reads (look failed f).
Proof. intros P HP. eapply triple_conseq; [by apply triple_look|done|by intros ?? []|done]. Qed.
Lemma reads_ret {E A} (a : A) : reads (mret a : io E A).
Proof. by intros P HP w Hw. Qed.
Lemma reads_fail {E A} (e : E) : reads (fail e : io E A).
Proof. by intros P HP w Hw. Qed.
Lemma reads_lift {E A} (r : result E A) : reads (lift r : io E A).
Proof. intros P HP w Hw. by destruct r. Qed.
Lemma reads_catch {E F A} (m : io E A) : reads m -> reads (catch (F := F) m).
Proof.
  intros Hm P HP. eapply triple_conseq; [by apply triple_catch, Hm|done|by intros [] ?|done].
Qed.
Create HintDb reads.
#[export] Hint Resolve reads_bind reads_look reads_ret reads_fail reads_lift reads_catch : reads.
(** Split a reader along its binds, tests and matches. *)
Ltac reads := repeat first
  [ apply reads_bind; [|intros ?] | apply reads_look | apply reads_ret | apply reads_fail
  | apply reads_lift | apply reads_catch | solve [eauto with reads] | case_match ].

Section Readers.
Context (uid umask : Z).
Lemma reads_sync_directory : reads sync_directory.
Proof. unfold sync_directory. reads. Qed.
Lemma reads_validate_secrets : reads validate_secrets_directory.
Proof. unfold validate_secrets_directory. reads. Qed.
Lemma reads_metadata e p : reads (symlink_metadata e p).
Proof. apply reads_look. Qed.
Lemma reads_path_exists p : reads (path_exists p).
Proof. unfold path_exists, symlink_metadata. reads. Qed.
Lemma reads_validate_key_file p : reads (validate_key_file uid p).
Proof. unfold validate_key_file, symlink_metadata. reads. Qed.
Lemma reads_secret_file p n c : reads (read_checked_secret_file uid p n c).
Proof. unfold read_checked_secret_file. cbv zeta. reads. Qed.
#[local] Hint Resolve reads_secret_file reads_validate_secrets : reads.
Lemma reads_load_key_file p : reads (load_key_file uid p).
Proof. unfold load_key_file, read_checked_key_file. reads. Qed.
#[local] Hint Resolve reads_load_key_file : reads.
Lemma reads_load_key : reads (load_key uid).
Proof. unfold load_key. reads. Qed.
End Readers.
#[export] Hint Resolve reads_sync_directory reads_validate_secrets reads_metadata reads_path_exists
  reads_validate_key_file reads_secret_file reads_load_key_file reads_load_key : reads.

(** ** The invariant *)

Section Recovery.
Context `{D : Digest} `{C : Aead}.
Variable uid umask : Z.
Implicit Types fs : gmap KeyPath Entry.

Definition safe_entry (e : Entry) : Prop := key_file_is_unsafe uid (e_meta e) = false.
Definition both_safe fs : Prop :=
  forall p e, p = PCurrent \/ p = PPrevious -> fs !! p = Some e -> safe_entry e.
(** The file at [p] is a key that opens the pair [t]. *)
Definition opens fs (p : KeyPath) (t : TeslaMateLegacyTokenStore) : Prop :=
  exists e, fs !! p = Some e /\ validate_key (e_bytes e) = Ok ()
    /\ key_matches_tokens (e_bytes e) t = true.
Definition directory_safe (s : option Meta) : Prop :=
  exists m, s = Some m /\ secrets_directory_is_unsafe m = false.

(** Both key files are safe, and one of them opens the committed pair. *)
Definition recoverable : World -> Prop := disk (fun s fs t =>
  both_safe fs /\ forall t', t = Some t' ->
    directory_safe s /\ (opens fs PCurrent t' \/ opens fs PPrevious t')).

(** The interrupted states of a replacement: what the two files hold. *)
Definition holding (cur prev : option Entry) (t : option TeslaMateLegacyTokenStore) (dir : Prop)
    : World -> Prop := disk (fun s fs t' =>
  fs !! PCurrent = cur /\ fs !! PPrevious = prev /\ t' = t /\ (dir -> directory_safe s)).

Definition entry_safe (o : option Entry) : Prop := forall e, o = Some e -> safe_entry e.
Definition entry_opens (o : option Entry) (t : TeslaMateLegacyTokenStore) : Prop :=
  exists e, o = Some e /\ validate_key (e_bytes e) = Ok () /\ key_matches_tokens (e_bytes e) t = true.

(** *** What the readers return *)

Lemma read_secret_file_value p maximum cursor (P : World -> Prop) `{!Disk P} : 0 <= maximum ->
  triple P (read_checked_secret_file uid p maximum cursor)
    (fun b w => P w /\ exists e, w_files w !! p = Some e /\ e_bytes e = b /\ safe_entry e
                                /\ byte_len b <= maximum) P.
Proof.
  intros Hmax. unfold read_checked_secret_file. cbv zeta.
  eapply triple_bind; [apply triple_look; apply _|]. intros d.
  apply (triple_from (fun w => P w /\ w_files w !! p = Some d)).
  { intros w [Hd HP]. split; [done|]. cases; naive_solver. }
  apply (triple_else (fun w => P w /\ w_files w !! p = Some d)); [by intros w []|].
  eapply triple_bind; [apply triple_look; apply _|]. intros held. cbv beta; apply triple_pre. intros [= <-].
  case_match eqn:Hsafe; [apply triple_fail|].
  do 2 (eapply triple_bind; [apply triple_look; apply _|]; intros []; cbv beta; apply triple_pre; intros _).
  eapply triple_bind; [apply triple_look; apply _|]. intros b. cbv beta; apply triple_pre. intros [= <-].
  case_match eqn:Hlen; [apply triple_fail|].
  rewrite Z.gtb_ltb, Z.ltb_ge in Hlen. unfold byte_len in Hlen. rewrite length_take in Hlen.
  rewrite take_ge by lia.
  eapply triple_bind; [apply triple_look; apply _|]. intros current. apply (triple_from (fun w => P w /\ w_files w !! p = Some d)); [by intros w []|].
  case_match; [apply triple_fail|].
  eapply triple_to; [|apply triple_ret].
  intros b w [-> [HP Hd]]. split; [done|]. exists d. repeat split; [done| |unfold byte_len; lia].
  unfold safe_entry, key_file_is_unsafe. rewrite !orb_false_iff, !negb_false_iff in Hsafe.
  destruct Hsafe as [[Hk Hm] Hu]. rewrite Hk, Hm, Hu. apply bool_decide_eq_true in Hk. by rewrite Hk.
Qed.

Lemma load_key_file_value p (P : World -> Prop) `{!Disk P} :
  triple P (load_key_file uid p)
    (fun key w => P w /\ exists e, w_files w !! p = Some e /\ e_bytes e = key /\ safe_entry e
                                  /\ validate_key key = Ok ()) P.
Proof.
  unfold load_key_file, read_checked_key_file.
  eapply triple_bind; [apply read_secret_file_value; [apply _|done]|]. intros key.
  apply (triple_from (fun w => P w /\ exists e, w_files w !! p = Some e /\ e_bytes e = key /\ safe_entry e));
    [naive_solver|].
  eapply triple_bind.
  { eapply triple_else; [|apply triple_lift]. by intros w []. }
  intros []. cbv beta; apply triple_pre. intros Hv.
  eapply triple_to; [|apply triple_ret]. naive_solver.
Qed.

Lemma load_key_value (P : World -> Prop) `{!Disk P} :
  triple P (load_key uid)
    (fun key w => P w /\ exists e, w_files w !! PCurrent = Some e /\ e_bytes e = key /\ safe_entry e
                                  /\ validate_key key = Ok ()) P.
Proof.
  unfold load_key. eapply triple_bind; [apply reads_validate_secrets; apply _|]. intros []. by apply load_key_file_value.
Qed.

Lemma path_exists_value p (P : World -> Prop) `{!Disk P} :
  triple P (path_exists p) (fun b w => b = is_some (w_files w !! p) /\ P w) P.
Proof.
  unfold path_exists, symlink_metadata. eapply triple_bind; [apply triple_look; apply _|]. intros m.
  eapply triple_to; [|apply triple_ret].
  intros b w [-> [[= <-] HP]]. split; [|done]. by destruct (w_files w !! p).
Qed.

(** *** The states of a replacement *)

Lemma holding_recoverable cur prev t dir w :
  holding cur prev t dir w -> entry_safe cur -> entry_safe prev ->
  (forall t', t = Some t' -> dir /\ (entry_opens cur t' \/ entry_opens prev t')) ->
  recoverable w.
Proof.
  intros (Hc & Hp & Ht & Hd) Sc Sp Ho. split.
  - intros p e [->| ->] He; [apply Sc|apply Sp]; congruence.
  - intros t' Ht'. destruct (Ho t') as [Hdir [H|H]]; [congruence|..];
      (split; [by apply Hd|]); unfold opens, entry_opens in *; rewrite ?Hc, ?Hp; auto.
Qed.

Lemma holding_dir cur prev t (dir dir' : Prop) w :
  (dir' -> dir) -> holding cur prev t dir w -> holding cur prev t dir' w.
Proof. intros Hd (? & ? & ? & H). repeat split; try done. intros H'. by apply H, Hd. Qed.

Lemma recoverable_holding w : recoverable w ->
  exists cur prev t, holding cur prev t (is_Some t) w /\ entry_safe cur /\ entry_safe prev
    /\ forall t', t = Some t' -> entry_opens cur t' \/ entry_opens prev t'.
Proof.
  intros [Hs Ho]. exists (w_files w !! PCurrent), (w_files w !! PPrevious), (w_tokens w). repeat split.
  - intros [t Ht]. by apply (Ho t).
  - intros e He. apply (Hs PCurrent); auto.
  - intros e He. apply (Hs PPrevious); auto.
  - intros t' Ht. destruct (Ho t' Ht) as [_ [H|H]]; [by left|by right].
Qed.

#[local] Instance holding_disk cur prev t dir : Disk (holding cur prev t dir).
Proof. apply _. Qed.

(** One call on the files, by cases on the file it acts on. *)
Ltac hold :=
  match goal with |- context [match w_files ?w !! ?p with _ => _ end] => destruct (w_files w !! p) eqn:? end;
  repeat split; simpl; by simplify_map_eq.

Lemma remove_current cur prev t dir :
  triple (holding cur prev t dir) (remove_checked_key_file uid PCurrent)
    (fun _ => holding None prev t dir) (holding cur prev t dir).
Proof.
  unfold remove_checked_key_file. eapply triple_bind; [apply reads_validate_key_file; apply _|]. intros [].
  apply triple_sys; [apply _|done|]. intros w (Hc & Hp & Ht & Hd).
  hold.
Qed.
Lemma remove_previous cur prev t dir :
  triple (holding cur prev t dir) (remove_checked_key_file uid PPrevious)
    (fun _ => holding cur None t dir) (holding cur prev t dir).
Proof.
  unfold remove_checked_key_file. eapply triple_bind; [apply reads_validate_key_file; apply _|]. intros [].
  apply triple_sys; [apply _|done|]. intros w (Hc & Hp & Ht & Hd).
  hold.
Qed.
Lemma previous_to_current e cur prev t dir :
  triple (holding cur prev t dir) (rename_file e PPrevious PCurrent)
    (fun _ => holding prev None t dir) (holding cur prev t dir).
Proof.
  apply triple_sys; [apply _|done|]. intros w (Hc & Hp & Ht & Hd).
  hold.
Qed.
Lemma current_to_previous e cur prev t dir tmp :
  triple (fun w => holding cur prev t dir w /\ w_files w !! PTemporary = tmp) (rename_file e PCurrent PPrevious)
    (fun _ w => holding None cur t dir w /\ w_files w !! PTemporary = tmp) (holding cur prev t dir).
Proof.
  apply triple_sys; [apply _|by intros n w []|]. intros w ((Hc & Hp & Ht & Hd) & Htmp).
  hold.
Qed.
Lemma temporary_to_current e cur prev t dir tmp :
  triple (fun w => holding cur prev t dir w /\ w_files w !! PTemporary = Some tmp)
    (rename_file e PTemporary PCurrent)
    (fun _ => holding (Some tmp) prev t dir) (holding cur prev t dir).
Proof.
  apply triple_sys; [apply _|by intros n w []|]. intros w ((Hc & Hp & Ht & Hd) & Htmp).
  hold.
Qed.

(** *** Settling an interrupted replacement *)

Definition kept (t : option TeslaMateLegacyTokenStore) (w : World) : Prop := recoverable w /\ w_tokens w = t.
#[local] Instance kept_disk t : Disk (kept t).
Proof. intros w w' Hs Hf Ht [H1 H2]. split; [by eapply disk_of|congruence]. Qed.

Lemma holding_kept cur prev t dir w :
  entry_safe cur -> entry_safe prev ->
  (forall t', t = Some t' -> dir /\ (entry_opens cur t' \/ entry_opens prev t')) ->
  holding cur prev t dir w -> kept t w.
Proof. intros Hc Hp Ho Hw. split; [by eapply holding_recoverable|]. by destruct Hw as (_ & _ & -> & _). Qed.

Lemma no_entry_safe : entry_safe None.
Proof. by intros e. Qed.
#[local] Hint Resolve no_entry_safe : core.

Lemma restore_previous_spec cur prev t :
  entry_safe cur -> entry_safe prev -> entry_opens prev t ->
  triple (holding cur prev (Some t) True) (restore_previous_key uid)
    (fun _ => holding prev None (Some t) True) (kept (Some t)).
Proof.
  intros Sc Sp Op. unfold restore_previous_key.
  assert (forall c w, entry_safe c -> holding c prev (Some t) True w -> kept (Some t) w) as K1.
  { intros c w Sc'. apply holding_kept; [done..|]. intros t' [= ->]. auto. }
  assert (forall w, holding prev None (Some t) True w -> kept (Some t) w) as K2.
  { intros w. apply holding_kept; [done..|]. intros t' [= ->]. auto. }
  eapply triple_bind; [eapply triple_else, reads_validate_key_file, _; eauto|]. intros [].
  eapply triple_bind; [eapply triple_else, path_exists_value, _; eauto|]. intros found.
  apply (triple_from (holding cur prev (Some t) True)); [by intros w []|].
  apply (triple_bind _ _ _ (fun _ w => exists c, entry_safe c /\ holding c prev (Some t) True w)).
  { destruct found.
    - eapply triple_bind; [eapply triple_else, triple_settle, _; eauto|]. intros [].
      + eapply triple_conseq; [apply remove_current|done|by exists None|eauto].
      + eapply triple_else, triple_fail; eauto.
    - eapply triple_to; [|apply triple_ret]. intros [] w (_ & Hw). eauto. }
  intros []. eapply triple_bind.
  { eapply triple_else, triple_settle; [|apply _]. intros w (c & ? & ?). eauto. }
  intros [].
  - intros w (c & Sc' & Hw). revert w Hw.
    change (triple (holding c prev (Some t) True) (rename_file RestoreKey PPrevious PCurrent;; sync_directory)
      (fun _ => holding prev None (Some t) True) (kept (Some t))).
    eapply triple_bind; [eapply triple_else, previous_to_current; eauto|]. intros [].
    eapply triple_else, reads_sync_directory, _. eauto.
  - eapply triple_else, triple_fail. intros w (c & ? & ?). eauto.
Qed.

(** What a settled pair of files is: one key, which opens the pair. *)
Definition settled (t : TeslaMateLegacyTokenStore) (key : bytes) (w : World) : Prop :=
  exists e, holding (Some e) None (Some t) True w /\ e_bytes e = key /\ safe_entry e
    /\ validate_key key = Ok () /\ key_matches_tokens key t = true.

Lemma settled_kept t key w : settled t key w -> kept (Some t) w.
Proof.
  intros (e & Hw & <- & Hs & Hv & Hm). eapply holding_kept, Hw; [by intros ? [= <-]|done|].
  intros t' [= <-]. split; [done|]. left. by exists e.
Qed.

(** A key read from one of the two files is what that file holds. *)
Lemma load_prior_spec cur prev t dir :
  triple (holding cur prev t dir) (load_key_file uid PPrevious)
    (fun k w => (exists e, prev = Some e /\ e_bytes e = k /\ safe_entry e /\ validate_key k = Ok ())
                /\ holding cur prev t dir w)
    (holding cur prev t dir).
Proof.
  eapply triple_to, load_key_file_value, _. intros k w [Hw (e & He & ?)].
  split; [|done]. exists e. split; [|done]. by destruct Hw as (_ & <- & _).
Qed.
Lemma load_key_spec cur prev t dir :
  triple (holding cur prev t dir) (load_key uid)
    (fun k w => (exists e, cur = Some e /\ e_bytes e = k /\ safe_entry e /\ validate_key k = Ok ())
                /\ holding cur prev t dir w)
    (holding cur prev t dir).
Proof.
  eapply triple_to, load_key_value, _. intros k w [Hw (e & He & ?)].
  split; [|done]. exists e. split; [|done]. by destruct Hw as (<- & _).
Qed.
Lemma previous_exists_spec cur prev t dir :
  triple (holding cur prev t dir) (path_exists PPrevious)
    (fun b w => b = is_some prev /\ holding cur prev t dir w) (holding cur prev t dir).
Proof. eapply triple_to, path_exists_value, _. intros b w [-> Hw]. split; [|done]. by destruct Hw as (_ & -> & _). Qed.
Lemma current_exists_spec cur prev t dir :
  triple (holding cur prev t dir) (path_exists PCurrent)
    (fun b w => b = is_some cur /\ holding cur prev t dir w) (holding cur prev t dir).
Proof. eapply triple_to, path_exists_value, _. intros b w [-> Hw]. split; [|done]. by destruct Hw as (-> & _). Qed.

(** The previous key put back, when it is the one that opens the pair. *)
Lemma fall_back_spec cur prev t e :
  entry_safe cur -> entry_safe prev -> entry_opens cur t \/ entry_opens prev t ->
  triple (holding cur prev (Some t) True)
    (match is_some prev with
     | true => prior ← load_key_file uid PPrevious;
               if negb (key_matches_tokens prior t) then fail NoMatchingKeyGeneration
               else restore_previous_key uid;; load_key uid
     | false => fail e
     end) (settled t) (kept (Some t)).
Proof.
  intros Sc Sp Ho.
  assert (forall w, holding cur prev (Some t) True w -> kept (Some t) w) as K.
  { intros w. apply holding_kept; [done..|]. by intros t' [= <-]. }
  destruct prev as [p|]; simpl; [|eapply triple_else, triple_fail; eauto].
  eapply triple_bind; [eapply triple_else, load_prior_spec; eauto|]. intros k. cbv beta. apply triple_pre.
  intros (? & [= <-] & Hk & Hs & Hv). case_match eqn:Hm; [eapply triple_else, triple_fail; eauto|].
  apply negb_false_iff in Hm. assert (entry_opens (Some p) t) as Op by (exists p; by rewrite Hk).
  eapply triple_bind; [by apply restore_previous_spec|]. intros [].
  eapply triple_conseq; [apply load_key_spec|done|..].
  - intros k' w ((e' & [= <-] & Hk' & _) & Hw). rewrite <- Hk', Hk. by exists p.
  - intros w Hw. eapply settled_kept. by exists p.
Qed.

Lemma settlement_spec cur prev t :
  entry_safe cur -> entry_safe prev -> entry_opens cur t \/ entry_opens prev t ->
  triple (holding cur prev (Some t) True) (load_key_for_tokens_with uid t) (settled t) (kept (Some t)).
Proof.
  intros Sc Sp Ho.
  assert (forall w, holding cur prev (Some t) True w -> kept (Some t) w) as K.
  { intros w. apply holding_kept; [done..|]. by intros t' [= <-]. }
  unfold load_key_for_tokens_with.
  eapply triple_bind; [eapply triple_else, previous_exists_spec; eauto|]. intros found.
  cbv beta. apply triple_pre. intros ->.
  eapply triple_bind; [eapply triple_else, triple_catch, load_key_spec; eauto|].
  intros [key|err]; cbv beta iota; [|by apply fall_back_spec].
  - apply triple_pre. intros (e & -> & Hk & Hs & Hv). case_match eqn:Hm; [|by apply fall_back_spec].
    destruct prev as [p|]; simpl.
    + eapply triple_bind; [eapply triple_else, triple_settle, _; eauto|].
      intros []; [|eapply triple_else, triple_fail; eauto].
      eapply triple_bind; [eapply triple_else, remove_previous; eauto|]. intros [].
      eapply triple_bind.
      { eapply triple_else, reads_sync_directory, _. intros w Hw. eapply settled_kept. by exists e. }
      intros []. eapply triple_to, triple_ret. intros k w [-> Hw]. by exists e.
    + eapply triple_to, triple_ret. intros k w [-> Hw]. by exists e.
Qed.

(** *** Beginning, committing and undoing a replacement *)

Lemma validate_directory_spec cur prev t dir :
  triple (holding cur prev t dir) validate_secrets_directory
    (fun _ => holding cur prev t True) (holding cur prev t dir).
Proof.
  unfold validate_secrets_directory. eapply triple_bind; [apply triple_look, _|]. intros m.
  case_match eqn:Hm; [eapply triple_else, triple_fail; by intros w []|].
  eapply triple_to, triple_ret. intros [] w (_ & Hd & Hc & Hp & Ht & _). repeat split; try done.
  intros _. exists m. split; [|done]. by apply ok_or_Ok in Hd.
Qed.

Lemma ensure_directory_spec cur prev t dir :
  triple (holding cur prev t dir) (ensure_secrets_directory uid umask)
    (fun _ => holding cur prev t True) (holding cur prev t dir).
Proof.
  unfold ensure_secrets_directory. eapply triple_bind; [apply triple_look, _|]. intros [m|].
  { eapply triple_from, validate_directory_spec. by intros w []. }
  apply (triple_from (disk (fun s fs t' => s = None /\ fs !! PCurrent = cur /\ fs !! PPrevious = prev
    /\ t' = t /\ (dir -> directory_safe s)))).
  { intros w [[= Hs] (? & ? & ? & ?)]. by repeat split. }
  apply (triple_bind _ _ _ (fun _ => holding cur prev t dir)); [|intros ?; apply validate_directory_spec].
  apply triple_sys; [apply _|by intros n w (_ & ? & ? & ? & ?)|].
  intros w (Hs & Hc & Hp & Ht & Hd). rewrite Hs. repeat split; try done. simpl. intros (? & ? & _)%Hd. congruence.
Qed.

(** The files of a replacement are as they were, and the temporary file is as
    said. *)
Definition drafting cur t (q : option Entry -> Prop) : World -> Prop := fun w =>
  holding cur None t True w /\ exists tmp, w_files w !! PTemporary = tmp /\ q tmp.
#[local] Instance drafting_disk cur t q : Disk (drafting cur t q).
Proof. unfold drafting. apply _. Qed.

(** A call that touches the temporary file only. *)
Lemma draft_step {A} (failed : TeslaMateCredentialError) spoil act cur t q (q' : A -> option Entry -> Prop) :
  (forall n w p, p <> PTemporary -> w_files (spoil n w) !! p = w_files w !! p) ->
  (forall n w, w_secrets (spoil n w) = w_secrets w /\ w_tokens (spoil n w) = w_tokens w) ->
  (forall w tmp, w_files w !! PTemporary = tmp -> q tmp ->
     (forall p, p <> PTemporary -> w_files (act w).2 !! p = w_files w !! p)
     /\ w_secrets (act w).2 = w_secrets w /\ w_tokens (act w).2 = w_tokens w
     /\ match (act w).1 with Ok a => q' a (w_files (act w).2 !! PTemporary) | Err _ => True end) ->
  triple (drafting cur t q) (sys failed spoil act) (fun a => drafting cur t (q' a)) (holding cur None t True).
Proof.
  intros Hs1 Hs2 Ha.
  assert (forall w w', (forall p, p <> PTemporary -> w_files w' !! p = w_files w !! p) ->
    w_secrets w' = w_secrets w -> w_tokens w' = w_tokens w ->
    holding cur None t True w -> holding cur None t True w') as Hframe.
  { intros w w' Hf Hs Ht (H1 & H2 & H3 & H4). unfold holding, disk. rewrite !Hf, Hs, Ht by done. done. }
  apply triple_sys; [apply _|..].
  - intros n w [Hw _]. eapply Hframe; [..|done]; naive_solver.
  - intros w [Hw (tmp & Htmp & Hq)]. destruct (Ha w tmp Htmp Hq) as (H1 & H2 & H3 & H4).
    destruct (act w) as [[a|e] w']; simpl in *; [split; [by eapply Hframe|eauto]|by eapply Hframe].
Qed.

Lemma write_private_spec cur t key :
  triple (drafting cur t (fun tmp => tmp = None)) (write_private_key_file uid umask PTemporary key)
    (fun _ => drafting cur t (fun tmp => exists e, tmp = Some e /\ e_bytes e = key /\ safe_entry e))
    (holding cur None t True).
Proof.
  unfold write_private_key_file.
  apply (triple_bind _ _ _ (fun _ => drafting cur t (fun tmp =>
    exists e, tmp = Some e /\ m_kind (e_meta e) = Regular /\ m_uid (e_meta e) = uid))).
  { apply draft_step; [done|done|]. intros w tmp -> ->. split_and!; try done.
    - intros p Hp. simpl. by simplify_map_eq.
    - eexists. simpl. by simplify_map_eq. }
  intros []. apply (triple_bind _ _ _ (fun _ => drafting cur t (fun tmp =>
    exists e, tmp = Some e /\ safe_entry e))).
  { apply draft_step; [done|done|]. intros w tmp Htmp (e & -> & Hk & Hu). split_and!; try done.
    - intros p Hp. simpl. by rewrite lookup_alter_ne.
    - eexists. simpl. rewrite lookup_alter, decide_True, Htmp by done. split; [done|].
      unfold safe_entry, key_file_is_unsafe. simpl. rewrite Hk, Hu, Z.eqb_refl. done. }
  intros []. apply (triple_bind _ _ _ (fun _ => drafting cur t (fun tmp =>
    exists e, tmp = Some e /\ e_bytes e = key /\ safe_entry e))).
  { apply draft_step; [|done|].
    - intros n w p Hp. simpl. by rewrite lookup_alter_ne.
    - intros w tmp Htmp (e & -> & Hs). split_and!; try done.
      + intros p Hp. simpl. by rewrite lookup_alter_ne.
      + eexists. simpl. rewrite lookup_alter, decide_True, Htmp by done. done. }
  intros []. eapply triple_conseq; [apply reads_look, _|done|done|by intros w []].
Qed.

Lemma ignore_spec {A} (m : io TeslaMateCredentialError A) P (Q : World -> Prop) :
  triple P m (fun _ => Q) Q -> triple P (ignore m) (fun _ => Q) Q.
Proof.
  intros Hm. unfold ignore. eapply triple_bind; [apply triple_catch, Hm|].
  intros r. apply (triple_from Q); [by destruct r|]. eapply triple_to, triple_ret. by intros ? w [].
Qed.

(** A state between the two renames, and one after both: the old key is the
    current or the previous file. *)
Lemma begun_kept cur t e w :
  entry_safe cur -> (forall t', t = Some t' -> entry_opens cur t') -> entry_safe e ->
  holding e cur t True w -> kept t w.
Proof. intros Sc Ho Se. apply holding_kept; [done..|]. intros t' Ht. split; [done|]. right. by apply Ho. Qed.

Lemma drop_temporary e t : triple (kept t) (ignore (remove_file e PTemporary)) (fun _ => kept t) (kept t).
Proof.
  apply ignore_spec, triple_sys; [apply _|done|]. intros w Hw. destruct (w_files w !! PTemporary); [|done].
  destruct Hw as [[Hs Ho] Ht]. split; [split; simpl|done].
  - intros p x [->| ->] Hx; simplify_map_eq; [apply (Hs PCurrent)|apply (Hs PPrevious)]; auto.
  - intros t' Ht'. destruct (Ho _ Ht') as [? [H'|H']]; (split; [done|]); [left|right];
      unfold opens in *; by simplify_map_eq.
Qed.
Lemma give_up_spec {A} e e' t (Q : A -> World -> Prop) :
  triple (kept t) (ignore (remove_file e PTemporary);; fail e') Q (kept t).
Proof. eapply triple_bind; [apply drop_temporary|]. intros []. apply triple_fail. Qed.

(** The two renames of [begin_key_replacement], the new key in the temporary
    file. *)
Lemma publish_spec cur t e :
  entry_safe cur -> (forall t', t = Some t' -> entry_opens cur t') -> safe_entry e ->
  triple (fun w => holding cur None t True w /\ w_files w !! PTemporary = Some e)
    (match is_some cur with
     | true =>
         moved ← catch (rename_file ReplaceKey PCurrent PPrevious);
         match moved with
         | Err error => ignore (remove_file RemoveKey PTemporary);; fail error
         | Ok _ => sync_directory
         end
     | false => mret ()
     end;;
     moved ← catch (rename_file ReplaceKey PTemporary PCurrent);
     match moved with
     | Err error =>
         match is_some cur with
         | true => ignore (rename_file ReplaceKey PPrevious PCurrent);; ignore sync_directory
         | false => mret ()
         end;;
         ignore (remove_file RemoveKey PTemporary);;
         fail error
     | Ok _ => sync_directory;; mret (is_some cur)
     end)
    (fun had w => had = is_some cur /\ holding (Some e) cur t True w) (kept t).
Proof.
  intros Sc Ho Se. assert (entry_safe (Some e)) as Se' by (by intros ? [= <-]).
  assert (forall w, holding cur None t True w -> kept t w) as K2.
  { intros w. apply holding_kept; [done..|]. auto. }
  assert (forall x w, entry_safe x -> holding x cur t True w -> kept t w) as K3 by (intros x w; by apply begun_kept).
  apply (triple_bind _ _ _ (fun _ w => holding None cur t True w /\ w_files w !! PTemporary = Some e)).
  { destruct cur as [c|]; simpl; [|by eapply triple_to, triple_ret; intros ? w []].
    eapply triple_bind; [eapply triple_else, triple_catch, current_to_previous; eauto|].
    intros [[]|err]; cbv beta iota.
    - eapply triple_else, reads_sync_directory, _. intros w [Hw _]. eauto.
    - eapply triple_from, give_up_spec. eauto. }
  intros []. eapply triple_bind; [eapply triple_else, triple_catch, temporary_to_current; eauto|].
  intros [[]|err]; cbv beta iota.
  - eapply triple_bind; [eapply triple_else, reads_sync_directory, _; eauto|]. intros []. apply triple_ret.
  - apply (triple_bind _ _ _ (fun _ => kept t)); [|intros []; apply give_up_spec].
    destruct cur as [c|]; simpl; [|eapply triple_to, triple_ret; intros ? w []; eauto].
    apply (triple_bind _ _ _ (fun _ => kept t)); [|intros []; apply ignore_spec, reads_sync_directory, _].
    apply ignore_spec. eapply triple_conseq; [apply previous_to_current|done|eauto|eauto].
Qed.

Lemma begin_spec cur t dir key :
  entry_safe cur -> (forall t', t = Some t' -> dir /\ entry_opens cur t') ->
  triple (holding cur None t dir) (begin_key_replacement uid umask key)
    (fun had w => had = is_some cur /\ validate_key key = Ok () /\
       exists e, e_bytes e = key /\ safe_entry e /\ holding (Some e) cur t True w) (kept t).
Proof.
  intros Sc Ho. assert (forall t', t = Some t' -> entry_opens cur t') as Ho' by (intros; by apply Ho).
  assert (forall w, holding cur None t dir w -> kept t w) as K1.
  { intros w. apply holding_kept; [done..|]. intros t' Ht. destruct (Ho t' Ht). auto. }
  assert (forall w, holding cur None t True w -> kept t w) as K2.
  { intros w. apply holding_kept; [done..|]. auto. }
  assert (forall w, holding None cur t True w -> kept t w) as K3 by (intros w; by apply begun_kept).
  unfold begin_key_replacement.
  eapply triple_bind; [eapply triple_else, triple_lift; eauto|]. intros []. cbv beta.
  apply triple_pre. intros Hv.
  eapply triple_bind; [eapply triple_else, ensure_directory_spec; eauto|]. intros [].
  eapply triple_bind; [eapply triple_else, previous_exists_spec; eauto|]. intros pending.
  cbv beta. apply triple_pre. intros ->. simpl.
  eapply triple_bind; [eapply triple_else, current_exists_spec; eauto|]. intros had.
  cbv beta. apply triple_pre. intros ->.
  apply (triple_bind _ _ _ (fun _ => holding cur None t True)).
  { destruct (is_some cur); [eapply triple_else, reads_validate_key_file, _; eauto|].
    eapply triple_to, triple_ret. by intros ? w []. }
  intros []. apply (triple_bind _ _ _ (fun _ => drafting cur t (fun tmp => tmp = None))).
  { intros w (Hc & Hp & Ht & Hd). simpl. repeat split; simpl; simplify_map_eq; try done. eauto. }
  intros []. eapply triple_bind; [eapply triple_else, write_private_spec; eauto|]. intros [].
  apply (triple_from (fun w => exists e, (e_bytes e = key /\ safe_entry e)
    /\ (holding cur None t True w /\ w_files w !! PTemporary = Some e))).
  { intros w (Hw & _ & Htmp & e & -> & Hk & Hs). by exists e. }
  apply triple_ex. intros e. apply triple_pre. intros [Hk Hs].
  eapply triple_to, publish_spec; [|done..]. intros had w [-> Hw]. eauto 6.
Qed.

Lemma rollback_spec cur e t :
  entry_safe cur -> (forall t', t = Some t' -> entry_opens cur t') -> safe_entry e ->
  triple (holding (Some e) cur t True) (replacement_rollback uid (is_some cur))
    (fun _ => kept t) (kept t).
Proof.
  intros Sc Ho Se. assert (entry_safe (Some e)) as Se' by (by intros ? [= <-]).
  assert (forall x w, entry_safe x -> holding x cur t True w -> kept t w) as K3 by (intros x w; by apply begun_kept).
  assert (forall w, holding cur None t True w -> kept t w) as K2.
  { intros w. apply holding_kept; [done..|]. auto. }
  unfold replacement_rollback.
  eapply triple_bind; [eapply triple_else, current_exists_spec; eauto|]. intros b. cbv beta.
  apply triple_pre. intros ->. simpl.
  eapply triple_bind; [eapply triple_else, remove_current; eauto|]. intros [].
  apply (triple_bind _ _ _ (fun _ => kept t)); [|intros []; apply reads_sync_directory, _].
  destruct cur as [c|]; simpl; [|eapply triple_to, triple_ret; intros ? w []; eauto].
  eapply triple_conseq; [apply previous_to_current|done|eauto|eauto].
Qed.

Lemma commit_spec cur e row :
  entry_safe cur -> safe_entry e -> entry_opens (Some e) row ->
  triple (holding (Some e) cur (Some row) True) (replacement_commit uid (is_some cur))
    (fun _ => kept (Some row)) (kept (Some row)).
Proof.
  intros Sc Se Ho. assert (entry_safe (Some e)) as Se' by (by intros ? [= <-]).
  assert (forall x w, entry_safe x -> holding (Some e) x (Some row) True w -> kept (Some row) w) as K.
  { intros x w Sx. apply holding_kept; [done..|]. intros t' [= <-]. auto. }
  unfold replacement_commit. destruct cur as [c|]; simpl; [|eapply triple_to, triple_ret; intros ? w []; eauto].
  eapply triple_bind; [eapply triple_else, remove_previous; eauto|]. intros [].
  eapply triple_to, triple_else, reads_sync_directory, _; eauto.
Qed.

Lemma with_generation_fields row g row' : with_credential_generation row g = Ok row' ->
  row' = MkTokenStore (ts_access row) (ts_refresh row) (ts_expires_at row) (ts_next_refresh_at row) (Some g).
Proof. unfold with_credential_generation, token_store_new. cases; naive_solver. Qed.

(** The key a replacement is made with opens the row it commits. *)
Lemma bound_row_opens key tokens row :
  bound_row key tokens = Ok row -> key_matches_tokens key row = true.
Proof.
  unfold bound_row, key_matches_tokens.
  destruct (decrypt_legacy_owner_tokens _ _ _) as [plain|] eqn:Hd; [|done].
  destruct (with_credential_generation _ _) as [r|] eqn:Hg; [|done]. intros [= <-].
  apply with_generation_fields in Hg as ->.
  cbn [ts_access ts_refresh ts_credential_generation is_none_or]. rewrite Hd. apply Z.eqb_refl.
Qed.

Lemma recover_pending_spec t :
  triple (kept t) (recover_pending_key_replacement uid)
    (fun _ w => exists cur, entry_safe cur /\ (forall t', t = Some t' -> entry_opens cur t')
                  /\ holding cur None t (is_Some t) w) (kept t).
Proof.
  intros w [Hr Ht]. destruct (recoverable_holding w Hr) as (cur & prev & t0 & Hw & Sc & Sp & Ho).
  assert (t0 = t) as -> by (destruct Hw as (_ & _ & <- & _); done). clear Hr Ht. revert w Hw.
  change (triple (holding cur prev t (is_Some t)) (recover_pending_key_replacement uid)
    (fun _ w => exists cur, entry_safe cur /\ (forall t', t = Some t' -> entry_opens cur t')
                  /\ holding cur None t (is_Some t) w) (kept t)).
  assert (forall w, holding cur prev t (is_Some t) w -> kept t w) as K.
  { intros w. apply holding_kept; [done..|]. intros t' ->. auto. }
  unfold recover_pending_key_replacement.
  eapply triple_bind; [eapply triple_else, triple_map_err, previous_exists_spec; eauto|]. intros b. cbv beta.
  apply triple_pre. intros ->. destruct prev as [p|]; simpl.
  - eapply triple_bind; [eapply triple_else, triple_map_err, triple_look, _; eauto|]. intros stored.
    apply (triple_from (fun w => stored = t /\ holding cur (Some p) t (is_Some t) w)).
    { intros w [[= <-] Hw]. split; [|done]. by destruct Hw as (_ & _ & -> & _). }
    apply triple_pre. intros ->. eapply triple_bind; [eapply triple_else, triple_lift; eauto|].
    intros row. cbv beta. apply triple_pre. intros ->%ok_or_Ok.
    eapply triple_bind.
    + apply triple_map_err. eapply triple_from, (settlement_spec cur (Some p)); [|done|done|eauto].
      intros w. apply holding_dir. by eexists.
    + intros key. eapply triple_to, triple_ret. intros [] w [_ (e & Hw & <- & Hs & Hv & Hm)].
      exists (Some e). split; [by intros ? [= <-]|]. split; [intros t' [= <-]; by exists e|].
      by eapply holding_dir, Hw.
  - eapply triple_to, triple_ret. intros [] w [_ Hw]. exists cur. split_and!; [done| |done].
    intros t' Ht. destruct (Ho t' Ht) as [|(? & [=] & _)]; done.
Qed.

(** What a replacement may leave: the pair as it was, or the new one. *)
Definition replaced (t : option TeslaMateLegacyTokenStore) (key : bytes) (tokens : TeslaMateLegacyTokenStore)
    (w : World) : Prop :=
  kept t w \/ exists row, bound_row key tokens = Ok row /\ kept (Some row) w.

Lemma store_spec cur e t row :
  triple (holding (Some e) cur t True) (replace_teslamate_legacy_tokens row)
    (fun _ => holding (Some e) cur (Some row) True) (holding (Some e) cur t True).
Proof. apply triple_sys; [apply _|done|]. intros w (? & ? & ? & ?). by repeat split. Qed.

Lemma replace_spec t key tokens :
  triple (kept t) (replace_key_and_tokens uid umask key tokens)
    (fun _ w => exists row, bound_row key tokens = Ok row /\ kept (Some row) w) (replaced t key tokens).
Proof.
  assert (forall w, kept t w -> replaced t key tokens w) as K by (by left).
  unfold replace_key_and_tokens.
  eapply triple_bind; [eapply triple_else, recover_pending_spec; eauto|]. intros []. cbv beta.
  apply triple_ex. intros cur. apply triple_pre. intros Sc. apply triple_pre. intros Ho.
  eapply triple_bind.
  { eapply triple_else, triple_lift. intros w Hw. apply K. eapply holding_kept, Hw; [done..|].
    intros t' Ht. rewrite Ht. split; [by eexists|]. left. by apply Ho. }
  intros row. cbv beta. apply triple_pre. intros Hrow. pose proof (bound_row_opens _ _ _ Hrow) as Hm.
  eapply triple_bind.
  { eapply triple_else, triple_map_err, begin_spec; [eauto|done|]. intros t' Ht. rewrite Ht. split; [by eexists|by apply Ho]. }
  intros had. cbv beta. apply triple_pre. intros ->. apply triple_pre. intros Hv.
  apply triple_ex. intros e. apply triple_pre. intros Hk. apply triple_pre. intros Se.
  assert (entry_opens (Some e) row) as Oe by (exists e; by rewrite Hk).
  eapply triple_bind.
  { eapply triple_else, triple_catch, store_spec. intros w Hw. apply K. eapply begun_kept, Hw; try done. by intros ? [= <-]. }
  intros [[]|err]; cbv beta iota.
  - eapply triple_conseq; [by apply triple_map_err, commit_spec|done|eauto|right; eauto].
  - eapply triple_bind; [eapply triple_else, triple_catch, rollback_spec; eauto|].
    intros [[]|err2]; cbv beta iota; (eapply triple_else, triple_fail; eauto).
Qed.

Lemma remove_spec t :
  triple (kept t) (remove_key_and_tokens uid) (fun _ => kept None) (fun w => kept t w \/ kept None w).
Proof.
  intros w [Hr Ht]. destruct (recoverable_holding w Hr) as (cur & prev & t0 & Hw & Sc & Sp & Ho).
  assert (t0 = t) as -> by (destruct Hw as (_ & _ & <- & _); done). clear Hr Ht. revert w Hw.
  change (triple (holding cur prev t (is_Some t)) (remove_key_and_tokens uid)
    (fun _ => kept None) (fun w => kept t w \/ kept None w)).
  assert (forall c p w, entry_safe c -> entry_safe p -> holding c p None True w -> kept None w) as K.
  { intros c p w ? ?. by apply holding_kept. }
  assert (forall c p w, entry_safe c -> entry_safe p -> holding c p None False w -> kept None w) as K'.
  { intros c p w ? ?. by apply holding_kept. }
  unfold remove_key_and_tokens. apply (triple_bind _ _ _ (fun _ => holding cur prev None False)).
  { apply triple_map_err, triple_sys; [apply _|..].
    - intros n w Hw. left. eapply holding_kept, Hw; [done..|]. intros t' ->. auto.
    - intros w (? & ? & ? & ?). by repeat split. }
  intros []. apply triple_map_err, (triple_else (kept None)); [by right|].
  eapply triple_bind; [eapply triple_else, current_exists_spec; eauto|]. intros ce. cbv beta.
  apply triple_pre. intros ->.
  eapply triple_bind; [eapply triple_else, previous_exists_spec; eauto|]. intros pe. cbv beta.
  apply triple_pre. intros ->.
  apply (triple_bind _ _ _ (fun _ => holding None prev None False)).
  { destruct cur; simpl; [eapply triple_else, remove_current; eauto|]. by eapply triple_to, triple_ret; intros ? w []. }
  intros []. apply (triple_bind _ _ _ (fun _ => holding None None None False)).
  { destruct prev; simpl; [eapply triple_else, remove_previous; eauto|]. by eapply triple_to, triple_ret; intros ? w []. }
  intros []. case_match; [|eapply triple_to, triple_ret; intros ? w []; eauto].
  eapply triple_to, triple_else, reads_sync_directory, _; eauto.
Qed.

Lemma load_for_tokens_spec t :
  triple (kept (Some t)) (load_key_for_tokens_with uid t) (settled t) (kept (Some t)).
Proof.
  intros w [Hr Ht]. destruct (recoverable_holding w Hr) as (cur & prev & t0 & Hw & Sc & Sp & Ho).
  assert (t0 = Some t) as -> by (destruct Hw as (_ & _ & <- & _); done).
  apply (settlement_spec cur prev t Sc Sp (Ho t eq_refl)). eapply holding_dir, Hw. by eexists.
Qed.

(** ** Histories *)

(** What a process may do with the two stores, and one such process: each has
    its own script of faults and its own guard. *)
Inductive operation :=
| OpReplace (key : bytes) (tokens : TeslaMateLegacyTokenStore)
| OpLoad
| OpRemove.
Definition restart (faults : list Fault) (guard : list bool) (w : World) : World :=
  w <| w_faults := faults |> <| w_guard := guard |>.
Definition run_op (o : operation) (w : World) : World :=
  match o with
  | OpReplace key tokens => (replace_key_and_tokens uid umask key tokens w).2
  | OpLoad => match w_tokens w with
              | Some t => (load_key_for_tokens_with uid t w).2
              | None => w
              end
  | OpRemove => (remove_key_and_tokens uid w).2
  end.
Inductive history (w : World) : World -> Prop :=
| history_start : history w w
| history_step w' o faults guard : history w w' -> history w (run_op o (restart faults guard w')).

Lemma triple_world {E A} (m : io E A) P (Q : A -> World -> Prop) R (I : World -> Prop) w :
  triple P m Q R -> P w -> (forall a w', Q a w' -> I w') -> (forall w', R w' -> I w') -> I (m w).2.
Proof. intros Hm Hw HQ HR. specialize (Hm w Hw). destruct (m w) as [[[a|e]|] w']; simpl; eauto. Qed.

Lemma run_op_recoverable o w : recoverable w -> recoverable (run_op o w).
Proof.
  intros Hr. assert (kept (w_tokens w) w) as Hw by done.
  destruct o as [key tokens| |]; simpl.
  - eapply triple_world; [apply replace_spec|exact Hw|..].
    + by intros _ w' (row & _ & []).
    + by intros w' [[]|(row & _ & [])].
  - destruct (w_tokens w) as [t|]; [|done]. eapply triple_world; [apply load_for_tokens_spec|exact Hw|..].
    + intros key w' H%settled_kept. apply H.
    + by intros w' [].
  - eapply triple_world; [apply remove_spec|exact Hw|..]; [by intros _ w' []|by intros w' [[]|[]]].
Qed.

Lemma history_recoverable w w' : recoverable w -> history w w' -> recoverable w'.
Proof.
  intros Hw. induction 1 as [|w' o f g _ IH]; [done|]. apply run_op_recoverable.
  by eapply disk_of; [..|exact IH].
Qed.

(** ** A start with no fault *)

(** No call of the run fails and its guard allows. *)
Definition calm (w : World) : Prop := w_faults w = [] /\ w_guard w = [].

Lemma bind_run {E A B} (m : io E A) (f : A -> io E B) w a w' :
  m w = (Returned (Ok a), w') -> (m ≫= f) w = f a w'.
Proof. intros H. unfold mbind, io_bind. by rewrite H. Qed.
Lemma sys_calm {E A} (e : E) spoil (act : World -> result E A * World) w :
  calm w -> sys e spoil act w = let '(r, w') := act w in (Returned r, w').
Proof. intros [H _]. unfold sys. by rewrite H. Qed.
Lemma settle_calm {E} w : calm w -> may_settle (E := E) w = (Returned (Ok true), w).
Proof. intros [_ H]. unfold may_settle. by rewrite H. Qed.

Lemma path_exists_calm p w : calm w -> path_exists p w = (Returned (Ok (is_some (w_files w !! p))), w).
Proof.
  intros Hw. unfold path_exists, symlink_metadata, look. erewrite bind_run by (rewrite sys_calm by done; reflexivity).
  by destruct (w_files w !! p).
Qed.
Lemma sync_calm w : calm w -> is_Some (w_secrets w) -> sync_directory w = (Returned (Ok ()), w).
Proof.
  intros Hw [m Hm]. unfold sync_directory, look. erewrite bind_run; [by rewrite sys_calm|].
  rewrite sys_calm by done. by rewrite Hm.
Qed.
Lemma validate_calm p e w : calm w -> w_files w !! p = Some e -> safe_entry e ->
  validate_key_file uid p w = (Returned (Ok ()), w).
Proof.
  intros Hw He Hs. unfold validate_key_file, symlink_metadata, look.
  erewrite bind_run by (rewrite sys_calm by done; reflexivity). rewrite He. simpl. unfold safe_entry in Hs. by rewrite Hs.
Qed.
Lemma remove_calm p e w : calm w -> w_files w !! p = Some e -> safe_entry e ->
  remove_checked_key_file uid p w = (Returned (Ok ()), w <| w_files := delete p (w_files w) |>).
Proof.
  intros Hw He Hs. unfold remove_checked_key_file. erewrite bind_run by by eapply validate_calm.
  unfold remove_file. rewrite sys_calm by done. by rewrite He.
Qed.
Lemma read_calm p e w : calm w -> w_files w !! p = Some e -> safe_entry e -> validate_key (e_bytes e) = Ok () ->
  load_key_file uid p w = (Returned (Ok (e_bytes e)), w).
Proof.
  intros Hw He Hs Hv. unfold load_key_file, read_checked_key_file, read_checked_secret_file. cbv zeta.
  unfold safe_entry, key_file_is_unsafe in Hs. rewrite !orb_false_iff, !negb_false_iff in Hs.
  destruct Hs as [[[Hs Hk] Hm] Hu].
  assert (byte_len (e_bytes e) <= MAX_KEY_BYTES) as Hlen.
  { unfold validate_key in Hv. repeat case_match; try done. bsimp. lia. }
  erewrite bind_run; [|].
  - erewrite bind_run; [reflexivity|]. unfold lift. by rewrite Hv.
  - unfold look. erewrite bind_run by (rewrite sys_calm by done; rewrite He, Hs; done).
    erewrite bind_run by (rewrite sys_calm by done; reflexivity). rewrite Hk, Hm, Hu. cbn [negb orb]. cbv beta iota.
    do 2 erewrite bind_run by (rewrite sys_calm by done; reflexivity).
    erewrite bind_run by (rewrite sys_calm by done; reflexivity).
    unfold byte_len in Hlen. rewrite take_ge by lia. destruct (_ >? _) eqn:Hgt; [unfold byte_len in Hgt; bsimp; lia|].
    erewrite bind_run by (rewrite sys_calm by done; rewrite He; done).
    cbv beta. rewrite Hs, Hk, Hm, !Z.eqb_refl. done.
Qed.

(** A calm reader returns, and changes nothing. *)
Definition calm_reader {E A} (m : io E A) : Prop := forall w, calm w -> exists r, m w = (Returned r, w).
Lemma calm_bind {E A B} (m : io E A) (f : A -> io E B) :
  calm_reader m -> (forall a, calm_reader (f a)) -> calm_reader (m ≫= f).
Proof.
  intros Hm Hf w Hw. destruct (Hm w Hw) as [[a|e] H].
  - erewrite bind_run by exact H. by apply Hf.
  - exists (Err e). unfold mbind, io_bind. by rewrite H.
Qed.
Lemma calm_look {E A} (e : E) (f : World -> result E A) : calm_reader (look e f).
Proof. intros w Hw. unfold look. rewrite sys_calm by done. eauto. Qed.
Lemma calm_lift {E A} (r : result E A) : calm_reader (lift r : io E A).
Proof. intros w _. by exists r. Qed.
Lemma calm_load_key : calm_reader (load_key uid).
Proof.
  unfold load_key, validate_secrets_directory, load_key_file, read_checked_key_file, read_checked_secret_file.
  cbv zeta. repeat first [apply calm_bind; [|intros ?] | apply calm_look | apply calm_lift
    | apply (calm_lift (Ok _)) | apply (calm_lift (Err _)) | case_match].
Qed.
Lemma load_key_calm e w : calm w -> directory_safe (w_secrets w) -> w_files w !! PCurrent = Some e ->
  safe_entry e -> validate_key (e_bytes e) = Ok () -> load_key uid w = (Returned (Ok (e_bytes e)), w).
Proof.
  intros Hw (m & Hm & Hd) He Hs Hv. unfold load_key. erewrite bind_run; [by apply read_calm|].
  unfold validate_secrets_directory, look. erewrite bind_run by (rewrite sys_calm by done; rewrite Hm; reflexivity).
  by rewrite Hd.
Qed.

(** Put back the previous key in a calm run. *)
Lemma restore_calm p w : calm w -> directory_safe (w_secrets w) -> both_safe (w_files w) ->
  w_files w !! PPrevious = Some p ->
  exists w', restore_previous_key uid w = (Returned (Ok ()), w') /\ calm w'
    /\ w_secrets w' = w_secrets w /\ w_files w' !! PCurrent = Some p.
Proof.
  intros Hw Hd Hs Hp. destruct Hd as (m & Hm & Hd). unfold restore_previous_key.
  erewrite bind_run by (eapply validate_calm; [done..|]; eapply (Hs PPrevious); eauto).
  erewrite bind_run by by apply path_exists_calm.
  set (w1 := match w_files w !! PCurrent with Some _ => w <| w_files := delete PCurrent (w_files w) |> | None => w end).
  assert (calm w1 /\ w_secrets w1 = w_secrets w /\ w_files w1 !! PPrevious = Some p) as (C1 & S1 & P1).
  { unfold w1. case_match; [|done]. split; [done|]. split; [done|]. simpl. by simplify_map_eq. }
  rewrite (bind_run _ _ _ () w1).
  2: { unfold w1. destruct (w_files w !! PCurrent) as [c|] eqn:Hc; simpl; [|done].
       erewrite bind_run by by apply settle_calm. eapply remove_calm; [done..|]. eapply (Hs PCurrent); eauto. }
  erewrite bind_run by by apply settle_calm. cbv beta iota.
  eexists. erewrite bind_run.
  2: { unfold rename_file. rewrite sys_calm by done. rewrite P1. reflexivity. }
  rewrite sync_calm; [|done|simpl; rewrite S1, Hm; by eexists].
  repeat split; simpl; [apply C1|apply C1|done|by simplify_map_eq].
Qed.

Lemma settle_runs t w : calm w -> kept (Some t) w ->
  exists key w', load_key_for_tokens_with uid t w = (Returned (Ok key), w') /\ settled t key w'.
Proof.
  intros Hc Hk. pose proof (load_for_tokens_spec t w Hk) as Hspec.
  cut (exists key w', load_key_for_tokens_with uid t w = (Returned (Ok key), w')).
  { intros (key & w' & H). rewrite H in Hspec. eauto. }
  clear Hspec. destruct Hk as [[Hs Ho] Ht]. destruct (Ho t Ht) as [Hd Hopen]. pose proof Hd as (m & Hm & _).
  unfold load_key_for_tokens_with. erewrite bind_run by by apply path_exists_calm.
  destruct (calm_load_key w Hc) as [r Hr].
  rewrite (bind_run _ _ _ r w) by (unfold catch; by rewrite Hr).
  assert (opens (w_files w) PCurrent t -> exists key, r = Ok key /\ key_matches_tokens key t = true) as Hcur.
  { intros (e & He & Hv & Hmt). exists (e_bytes e). split; [|done].
    rewrite (load_key_calm e) in Hr; [congruence|done..| |done]. eapply (Hs PCurrent); eauto. }
  assert (forall err, opens (w_files w) PPrevious t -> exists key w',
    (match is_some (w_files w !! PPrevious) with
     | true => prior ← load_key_file uid PPrevious;
               if negb (key_matches_tokens prior t) then fail NoMatchingKeyGeneration
               else restore_previous_key uid;; load_key uid
     | false => fail err
     end) w = (Returned (Ok key), w')) as Hback.
  { intros err (e & He & Hv & Hmt). rewrite He. simpl.
    erewrite bind_run by (eapply read_calm; [done..| |done]; eapply (Hs PPrevious); eauto). rewrite Hmt. simpl.
    destruct (restore_calm e w Hc Hd Hs He) as (w' & Hw' & Hc' & Hs' & He').
    erewrite bind_run by exact Hw'.
    erewrite (load_key_calm e); [by eauto|done|by rewrite Hs'|done| |done]. eapply (Hs PPrevious); eauto. }
  destruct r as [key|err]; simpl.
  - destruct (key_matches_tokens key t) eqn:Hmt.
    + destruct (w_files w !! PPrevious) as [p|] eqn:Hp; simpl; [|by eauto].
      erewrite bind_run by by apply settle_calm. cbv beta iota.
      erewrite bind_run by (eapply remove_calm; [done..|]; eapply (Hs PPrevious); eauto).
      erewrite bind_run by (apply sync_calm; [done|]; simpl; rewrite Hm; by eexists). by eauto.
    + apply Hback. destruct Hopen as [(k & [= <-] & ?)%Hcur|]; [congruence|done].
  - apply Hback. destruct Hopen as [(k & [=] & ?)%Hcur|]; done.
Qed.

(** C7.  Whatever processes replace, load or remove the key and the pair,
    whichever of their system calls fail and wherever they die: as long as a
    pair is committed, the next start that meets no fault finds a key that
    opens it, keeps that key as the only one and leaves the pair alone. *)
Theorem committed_pair_always_opens w w' t :
  recoverable w -> history w w' -> w_tokens w' = Some t ->
  exists key w'', load_key_for_tokens_with uid t (restart [] [] w') = (Returned (Ok key), w'')
    /\ key_matches_tokens key t = true
    /\ e_bytes <$> w_files w'' !! PCurrent = Some key /\ w_files w'' !! PPrevious = None
    /\ w_tokens w'' = Some t.
Proof.
  intros Hr Hh Ht. pose proof (history_recoverable w w' Hr Hh) as Hr'.
  destruct (settle_runs t (restart [] [] w')) as (key & w'' & Hrun & e & (Hc & Hp & Ht' & _) & Hk & _ & _ & Hm).
  { done. }
  { split; [|done]. by eapply disk_of; [..|exact Hr']. }
  exists key, w''. rewrite Hc. simpl. by rewrite Hk.
Qed.

(** A replacement is atomic: when it returns success, the committed pair
    is the given one, bound to the generation of its refresh token; when it
    fails or dies, the committed pair is the old one or that one, and in every
    case one of the two key files opens it. *)
Theorem replacement_is_atomic key tokens w :
  recoverable w ->
  let '(ending, w') := replace_key_and_tokens uid umask key tokens w in
  recoverable w'
  /\ (w_tokens w' = w_tokens w \/ result_ok (bound_row key tokens) = w_tokens w')
  /\ (ending = Returned (Ok ()) -> is_Some (w_tokens w') /\ result_ok (bound_row key tokens) = w_tokens w').
Proof.
  intros Hr. pose proof (replace_spec (w_tokens w) key tokens w (conj Hr eq_refl)) as H.
  destruct (replace_key_and_tokens uid umask key tokens w) as [[[[]|e]|] w'].
  - destruct H as (row & Hrow & Hw & Ht). rewrite Hrow, Ht. simpl. eauto.
  - destruct H as [[Hw Ht]|(row & Hrow & Hw & Ht)]; rewrite ?Hrow, ?Ht; naive_solver.
  - destruct H as [[Hw Ht]|(row & Hrow & Hw & Ht)]; rewrite ?Hrow, ?Ht; naive_solver.
Qed.

(** ** The cursor key *)

Definition cursor_is (o : option Entry) : World -> Prop := disk (fun _ fs _ => fs !! PCursor = o).

(** The calls of a creation that act on the temporary name. *)
Lemma cursor_untouched {A} (failed : TeslaMateCredentialError) spoil (act : World -> result TeslaMateCredentialError A * World) o :
  (forall n w, w_files (spoil n w) !! PCursor = w_files w !! PCursor) ->
  (forall w, w_files (act w).2 !! PCursor = w_files w !! PCursor) ->
  triple (cursor_is o) (sys failed spoil act) (fun _ => cursor_is o) (cursor_is o).
Proof.
  intros Hs Ha. apply triple_sys; [apply _|..]; unfold cursor_is, disk.
  - intros n w <-. apply Hs.
  - intros w <-. specialize (Ha w). by destruct (act w) as [[a|e] w'].
Qed.

Lemma ensure_keeps_cursor o :
  triple (cursor_is o) (ensure_secrets_directory uid umask) (fun _ => cursor_is o) (cursor_is o).
Proof.
  unfold ensure_secrets_directory. eapply triple_bind; [apply reads_look, _|].
  intros [m|]; [apply reads_validate_secrets, _|].
  apply (triple_bind _ _ _ (fun _ => cursor_is o)); [|intros ?; apply reads_validate_secrets, _].
  apply triple_sys; [apply _|done|]. intros w Hw. by destruct (w_secrets w).
Qed.

#[local] Instance cursor_is_disk o : Disk (cursor_is o).
Proof. apply disk_disk. Qed.
Lemma load_cursor_value e :
  triple (cursor_is (Some e)) (load_cursor_key_file uid PCursor)
    (fun b w => b = e_bytes e /\ cursor_is (Some e) w) (cursor_is (Some e)).
Proof.
  unfold load_cursor_key_file, read_checked_cursor_key_file.
  eapply triple_bind; [apply read_secret_file_value; [apply _|done]|]. intros b.
  case_match; [|eapply triple_else, triple_fail; by intros w []].
  eapply triple_to, triple_ret. intros b' w (-> & Hw & e' & He' & <- & _). split; [|done].
  unfold cursor_is, disk in Hw. congruence.
Qed.

Definition cursor_draft (q : Entry -> Prop) : World -> Prop := fun w =>
  cursor_is None w /\ exists e, w_files w !! PCursorTemporary = Some e /\ q e.
#[local] Instance cursor_draft_disk q : Disk (cursor_draft q).
Proof. unfold cursor_draft. apply _. Qed.
(** The file of the cursor key is one of those [phi] allows. *)
Definition cursor_in (phi : option Entry -> Prop) (w : World) : Prop := exists o, phi o /\ cursor_is o w.
#[local] Instance cursor_in_disk phi : Disk (cursor_in phi).
Proof. unfold cursor_in. apply _. Qed.
Definition whole (key : bytes) (o : option Entry) : Prop := e_bytes <$> o = Some key.
Definition absent_or_whole (key : bytes) (o : option Entry) : Prop := o = None \/ whole key o.

Lemma cursor_in_weaken (phi psi : option Entry -> Prop) w :
  (forall o, phi o -> psi o) -> cursor_in phi w -> cursor_in psi w.
Proof. intros H (o & Ho & Hw). exists o. auto. Qed.

Lemma drop_cursor_temporary e phi :
  triple (cursor_in phi) (remove_file e PCursorTemporary) (fun _ => cursor_in phi) (cursor_in phi).
Proof.
  apply triple_ex. intros o. apply triple_pre. intros Ho.
  eapply triple_conseq; [apply (cursor_untouched _ _ _ o)|done|by exists o|by exists o]; [done|].
  intros w. destruct (w_files w !! PCursorTemporary); simpl; by simplify_map_eq.
Qed.

(** The file is written whole under its temporary name, then linked. *)
Lemma draft_cursor_spec key :
  triple (cursor_draft (fun e => e_bytes e = key))
    (linked ← hard_link PublishCursorKey PCursorTemporary PCursor;
     match linked with
     | true =>
         remove_file RemoveTemporaryCursorKey PCursorTemporary;;
         sync_directory;;
         mret key
     | false =>
         ignore (remove_file RemoveTemporaryCursorKey PCursorTemporary);;
         load_cursor_key_file uid PCursor
     end)
    (fun b w => b = key /\ cursor_in (whole key) w) (cursor_in (absent_or_whole key)).
Proof.
  assert (forall w, cursor_in (whole key) w -> cursor_in (absent_or_whole key) w) as K.
  { intros w. apply cursor_in_weaken. by right. }
  apply (triple_bind _ _ _ (fun b w => b = true /\ cursor_in (whole key) w)).
  { apply triple_sys; [apply _|intros n w [Hw _]; exists None; split; [by left|done]|].
    intros w [Hw (e & He & <-)]. unfold cursor_is, disk in Hw. rewrite He, Hw. split; [done|].
    exists (Some e). split; [done|]. unfold cursor_is, disk. simpl. by simplify_map_eq. }
  intros linked. apply triple_pre. intros ->.
  eapply triple_bind; [eapply triple_else, drop_cursor_temporary; eauto|]. intros [].
  eapply triple_bind; [eapply triple_else, reads_sync_directory, _; eauto|]. intros [].
  apply triple_ret.
Qed.

Lemma cursor_draft_step {A} (failed : TeslaMateCredentialError) spoil act (P : World -> Prop) `{!Disk P} (q' : A -> Entry -> Prop) key :
  (forall w, P w -> cursor_is None w) ->
  (forall n w, w_files (spoil n w) !! PCursor = w_files w !! PCursor) ->
  (forall w, P w -> w_files (act w).2 !! PCursor = w_files w !! PCursor
    /\ match (act w).1 with
       | Ok a => exists e, w_files (act w).2 !! PCursorTemporary = Some e /\ q' a e
       | Err _ => True
       end) ->
  triple P (sys failed spoil act) (fun a => cursor_draft (q' a)) (cursor_in (absent_or_whole key)).
Proof.
  intros HP Hs Ha. apply triple_sys; [done|..]; unfold cursor_draft, cursor_in, cursor_is, disk in *.
  - intros n w Hw%HP. exists None. split; [by left|]. by rewrite Hs.
  - intros w Hw. destruct (Ha w Hw) as [H1 H2]. specialize (HP w Hw). rewrite <- H1 in HP.
    destruct (act w) as [[a|e] w']; simpl in *; [done|]. exists None. split; [by left|done].
Qed.

Lemma create_cursor_spec key :
  triple (cursor_is None) (create_cursor_key_once uid umask (Some key))
    (fun b w => b = key /\ cursor_in (whole key) w) (cursor_in (absent_or_whole key)).
Proof.
  unfold create_cursor_key_once.
  apply (triple_bind _ _ _ (fun _ w => cursor_is None w /\ w_files w !! PCursorTemporary = None)).
  { intros w Hw. unfold new_v4, cursor_is, disk in *. simpl. by simplify_map_eq. }
  intros []. eapply triple_bind.
  { eapply triple_else, triple_lift. intros w [Hw _]. exists None. split; [by left|done]. }
  intros k. cbv beta. apply triple_pre. intros [= <-].
  eapply triple_bind; [apply triple_catch|intros [b|e]; cbv beta iota].
  - eapply triple_bind; [apply (cursor_draft_step _ _ _ _ (fun _ _ => True)); [by intros w []|done|]|intros []].
    { intros w [Hw Ht]. rewrite Ht. simpl. simplify_map_eq. eauto. }
    eapply triple_bind; [apply (cursor_draft_step _ _ _ _ (fun _ _ => True)); [by intros w []|done|]|intros []].
    { intros w [Hw (e & Ht & _)]. simpl. rewrite lookup_alter_ne by done.
      rewrite lookup_alter, decide_True, Ht by done. eauto. }
    eapply triple_bind; [apply (cursor_draft_step _ _ _ _ (fun _ e => e_bytes e = key)); [by intros w []|..]|intros []].
    { intros n w. simpl. by rewrite lookup_alter_ne. }
    { intros w [Hw (e & Ht & _)]. simpl. rewrite lookup_alter_ne by done.
      rewrite lookup_alter, decide_True, Ht by done. eauto. }
    eapply triple_bind; [eapply triple_else, reads_look, _|intros []; apply draft_cursor_spec].
    intros w [Hw _]. exists None. split; [by left|done].
  - eapply triple_to, triple_ret. naive_solver.
  - eapply triple_bind; [apply ignore_spec, drop_cursor_temporary|]. intros []. apply triple_fail.
Qed.

Lemma load_or_create_existing e entropy :
  triple (cursor_is (Some e)) (load_or_create_cursor_key uid umask entropy)
    (fun b w => b = e_bytes e /\ cursor_is (Some e) w) (cursor_is (Some e)).
Proof.
  unfold load_or_create_cursor_key. eapply triple_bind; [apply ensure_keeps_cursor|]. intros [].
  eapply triple_bind; [apply triple_look, _|]. intros [m|].
  - eapply triple_from, load_cursor_value. by intros w [].
  - intros w [Hf Hw]. unfold cursor_is, disk in Hw. by rewrite Hw in Hf.
Qed.

Lemma load_or_create_absent key :
  triple (cursor_is None) (load_or_create_cursor_key uid umask (Some key))
    (fun b w => b = key /\ cursor_in (whole key) w) (cursor_in (absent_or_whole key)).
Proof.
  unfold load_or_create_cursor_key.
  assert (forall w, cursor_is None w -> cursor_in (absent_or_whole key) w) as K.
  { intros w Hw. exists None. split; [by left|done]. }
  eapply triple_bind; [eapply triple_else, ensure_keeps_cursor; eauto|]. intros [].
  eapply triple_bind; [eapply triple_else, triple_look, _; eauto|]. intros [m|].
  - intros w [Hf Hw]. unfold cursor_is, disk in Hw. by rewrite Hw in Hf.
  - eapply triple_from, create_cursor_spec. by intros w [].
Qed.

(** Any number of later processes asking for the cursor key. *)
Inductive cursor_history (w : World) : World -> Prop :=
| cursor_start : cursor_history w w
| cursor_step w' entropy faults : cursor_history w w' ->
    cursor_history w (load_or_create_cursor_key uid umask entropy (restart faults [] w')).2.

Lemma cursor_history_keeps e w w' : cursor_is (Some e) w -> cursor_history w w' -> cursor_is (Some e) w'.
Proof.
  intros Hw. induction 1 as [|w' entropy f _ IH]; [done|].
  eapply triple_world; [apply load_or_create_existing|by eapply disk_of; [..|exact IH]|by intros a w2 []|done].
Qed.

Lemma load_or_create_Ok entropy w b w1 :
  load_or_create_cursor_key uid umask entropy w = (Returned (Ok b), w1) ->
  cursor_in (whole b) w1.
Proof.
  intros Hrun. destruct (w_files w !! PCursor) as [e|] eqn:He.
  - pose proof (load_or_create_existing e entropy w He) as H. rewrite Hrun in H. destruct H as [-> H].
    by exists (Some e).
  - destruct entropy as [key|].
    + pose proof (load_or_create_absent key w He) as H. rewrite Hrun in H. by destruct H as [-> H].
    + exfalso. assert (triple (cursor_is None) (load_or_create_cursor_key uid umask None) (fun _ _ => False) (fun _ => True)) as H.
      { unfold load_or_create_cursor_key.
        eapply triple_bind; [eapply triple_else, ensure_keeps_cursor; done|]. intros [].
        eapply triple_bind; [eapply triple_else, triple_look, _; done|]. intros [m|].
        - intros w' [Hf Hw']. unfold cursor_is, disk in Hw'. by rewrite Hw' in Hf.
        - by intros w' _. }
      specialize (H w He). by rewrite Hrun in H.
Qed.

(** The cursor key is created once: after any start that returned a key,
    whatever later starts do, fail at or die in, the file holds exactly that
    key, and every later start that returns a key returns the same. *)
Theorem cursor_key_is_created_once entropy w b w1 w2 :
  load_or_create_cursor_key uid umask entropy w = (Returned (Ok b), w1) -> cursor_history w1 w2 ->
  e_bytes <$> w_files w2 !! PCursor = Some b
  /\ forall entropy' b' w3, load_or_create_cursor_key uid umask entropy' w2 = (Returned (Ok b'), w3) -> b' = b.
Proof.
  intros Hrun Hh. apply load_or_create_Ok in Hrun as ([e|] & Ho & Hw); [|done].
  pose proof (cursor_history_keeps e w1 w2 Hw Hh) as Hw2. unfold whole in Ho. simpl in Ho. injection Ho as <-.
  split; [unfold cursor_is, disk in Hw2; by rewrite Hw2|].
  intros entropy' b' w3 Hrun. pose proof (load_or_create_existing e entropy' w2 Hw2) as H.
  rewrite Hrun in H. by destruct H as [-> _].
Qed.

End Recovery.

(** ** Concrete runs, with the toy cipher *)
Module SampleKeys.
Import SampleCipher.

Definition key2 : bytes := bytes_of "teslamate-test-encryption-key-v2".
Definition pair (k : bytes) (access refresh : string) : TeslaMateLegacyTokenStore :=
  match encrypt_legacy_owner_tokens k (access, refresh) (Some nonce) (Some nonce) with
  | Ok (a, r) => MkTokenStore a r 0 0 None
  | Err _ => MkTokenStore [] [] 0 0 None
  end.
Definition empty_world : World := MkWorld None ∅ None 1 [] [].
Definition first_import : operation := OpReplace key (pair key "access-01" "refresh-01").
Definition second_import : operation := OpReplace key2 (pair key2 "access-02" "refresh-02").

(** A first import, then a second whose process dies after both renames and before
    the new pair commits: the old key is the previous file. *)
Definition imported : World := run_op 1000 18 first_import (restart [] [] empty_world).
Definition interrupted : World :=
  run_op 1000 18 second_import (restart (replicate 15 Works ++ [Dies 0])%list [] imported).

Lemma interrupted_has_both :
  is_some (w_files interrupted !! PCurrent) && is_some (w_files interrupted !! PPrevious)
  && bool_decide (e_bytes <$> w_files interrupted !! PPrevious = Some key) = true.
Proof. vm_compute. reflexivity. Qed.

Definition committed : TeslaMateLegacyTokenStore :=
  default (MkTokenStore [] [] 0 0 None) (w_tokens interrupted).

(** A guard that allows the first mutation of the settlement and refuses the
    second. *)
Definition refused_midway : ending TeslaMateCredentialError bytes * World :=
  load_key_for_tokens_with 1000 committed (restart [] [true; false] interrupted).

End SampleKeys.
Import SampleCipher SampleKeys.

(** A refused settlement does not always leave both key files as they were: the
    guard is asked again after the current file has been removed. *)
Theorem refused_settlement_removes_current :
  refused_midway.1 = Returned (Err SettlementRefused)
  /\ is_Some (w_files interrupted !! PCurrent) /\ w_files refused_midway.2 !! PCurrent = None.
Proof. split; [|split]; vm_compute; eauto. Qed.

Lemma empty_world_recoverable : recoverable 1000 empty_world.
Proof. split; [by intros p e _ Hp|by intros t]. Qed.

Lemma committed_pair_always_opens_witness :
  exists key w'', load_key_for_tokens_with 1000 committed (restart [] [] interrupted) = (Returned (Ok key), w'')
    /\ key_matches_tokens key committed = true
    /\ e_bytes <$> w_files w'' !! PCurrent = Some key /\ w_files w'' !! PPrevious = None
    /\ w_tokens w'' = Some committed.
Proof.
  apply (committed_pair_always_opens 1000 18 empty_world interrupted committed).
  - exact empty_world_recoverable.
  - unfold interrupted, imported. repeat constructor.
  - vm_compute. reflexivity.
Defined.

Lemma replacement_is_atomic_witness :
  let '(ending, w') := replace_key_and_tokens 1000 18 key (pair key "access-01" "refresh-01") empty_world in
  recoverable 1000 w'
  /\ (w_tokens w' = w_tokens empty_world
      \/ result_ok (bound_row key (pair key "access-01" "refresh-01")) = w_tokens w')
  /\ (ending = Returned (Ok ()) -> is_Some (w_tokens w')
      /\ result_ok (bound_row key (pair key "access-01" "refresh-01")) = w_tokens w').
Proof. apply (replacement_is_atomic 1000 18). exact empty_world_recoverable. Defined.

Definition sample_cursor : bytes := bytes_of "0123456789abcdef0123456789abcdef".
Definition cursor_first : World :=
  (load_or_create_cursor_key 1000 18 (Some sample_cursor) empty_world).2.
Lemma cursor_key_is_created_once_witness :
  e_bytes <$> w_files cursor_first !! PCursor = Some sample_cursor
  /\ forall entropy' b' w3, load_or_create_cursor_key 1000 18 entropy' cursor_first = (Returned (Ok b'), w3) -> b' = sample_cursor.
Proof.
  apply (cursor_key_is_created_once 1000 18 (Some sample_cursor) empty_world sample_cursor cursor_first).
  - vm_compute. reflexivity.
  - constructor.
Defined.
