(* ===== verification/Effective.v ===== *)
(** * The status a reader without the credential unit derives

    [src/src/auth/legacy_auth/effective.rs]: the stored status row is read
    through the current pair, with the unit's own predicates.  The row comes
    from the store, the pair and its key through the readers of [KeyFiles].
    The theorems compare the derived status with the one a restart of the unit
    would compute from the same row and the same pair. *)
From S2P Require Import Prelude RustStr Vocabulary External Endpoint AuthState PairRow Restore Attempt Authority Cloak KeyFiles KeyRecovery.
From stdpp Require Import gmap.
Local Open Scope string_scope.
Local Open Scope Z_scope.

Record EffectiveAuth := MkEffectiveAuth { ef_row : CollectorAuthRow; ef_usable_until : option Z }.

Inductive EffectiveAuthError :=
| EffStore (e : StoreError)
| EffKey (e : TeslaMateCredentialError)
| EffCipher (e : TeslaMateTokenError).

(** [stored_auth_view]. *)
Definition stored_auth_view (row : CollectorAuthRow) : CollectorAuthRow :=
  if bool_decide (row_state row = "sign_in_required") && negb (row_collecting row) then
    match from_row row with
    | Ok status => to_row (with_sign_in_expired status)
    | Err _ => row
    end
  else row.

Section Effective.
Context `{X : External} `{D : Digest} `{C : Aead}.
Variable uid : Z.

Definition unchanged (row : CollectorAuthRow) : EffectiveAuth := MkEffectiveAuth row None.

(** The part of [effective_auth_row] after the pair has been decrypted. *)
Definition effective_of_pair (row : CollectorAuthRow) (status : AuthStatus)
    (tokens : TeslaMateLegacyTokenStore) (plaintext : OwnerTokens) (m : StoppedMode) (now_ms : Z)
    : EffectiveAuth :=
  let generation := legacy_refresh_credential_generation (refresh_token_of plaintext) in
  let usable_until :=
    stored_usable_until (access_token_of plaintext) (ts_expires_at tokens) (ts_next_refresh_at tokens) in
  if negb (stored_pair_passes_grammar (access_token_of plaintext) (refresh_token_of plaintext) m) then
    unchanged (to_row (status_stopped (StopSignedOut StoredPairInvalid) generation m false fuse_default
                         (st_clock_skew status)))
  else if (bool_decide (row_state row = "sign_in_required") || bool_decide (row_state row = "signed_out"))
          && negb (bool_decide (st_stopped_generation status = Some generation))
  then unchanged (to_row (status_ready fuse_default (st_clock_skew status)))
  else
    let now := now_ms / 1000 in
    if negb (clock_is_valid now) then unchanged (to_row (with_usability status false))
    else
      let usable := is_none_or usable_until (fun until => now <? until) in
      let status :=
        if bool_decide (row_state row = "sign_in_required") then
          if usable then with_usability status true else with_sign_in_expired status
        else
          let collecting := st_collecting status && usable in
          with_usability status collecting in
      let still_sign_in := bool_decide (st_state status = StSignInRequired) in
      MkEffectiveAuth (to_row status) (if still_sign_in then usable_until else None).

(** The four states that read the pair. *)
Definition reads_pair (state : string) : bool :=
  bool_decide (state = "sign_in_required") || bool_decide (state = "signed_out")
  || bool_decide (state = "retrying") || bool_decide (state = "persistence_pending").

Definition effective_auth_row (store : HubStore) (m : StoppedMode) (now_ms : Z)
    : io EffectiveAuthError (option EffectiveAuth) :=
  loaded ← map_err EffStore (lift (load_collector_auth_row store));
  match loaded with
  | None => mret None
  | Some row =>
      if bool_decide (row_state row = "api_refused") then
        status ← map_err EffStore (lift (from_row row));
        if bool_decide (st_stopped_mode status = Some m) then mret (Some (unchanged row))
        else mret (Some (unchanged (to_row (status_ready fuse_default (st_clock_skew status)))))
      else if reads_pair (row_state row) then
        status ← map_err EffStore (lift (from_row row));
        stored ← map_err EffStore load_teslamate_legacy_tokens;
        match stored with
        | None => mret (Some (unchanged row))
        | Some tokens =>
            key ← map_err EffKey (select_stored_legacy_key_read_only uid tokens);
            plaintext ← map_err EffCipher
              (lift (decrypt_legacy_owner_tokens key (ts_access tokens) (ts_refresh tokens)));
            mret (Some (effective_of_pair row status tokens plaintext m now_ms))
        end
      else mret (Some (unchanged row))
  end.

(** ** What a restart makes of the same pair *)

Definition pair_load (tokens : TeslaMateLegacyTokenStore) (plaintext : OwnerTokens) (m : StoppedMode) : PairLoad :=
  let generation := legacy_refresh_credential_generation (refresh_token_of plaintext) in
  if stored_pair_passes_grammar (access_token_of plaintext) (refresh_token_of plaintext) m
  then Loaded generation
         (stored_usable_until (access_token_of plaintext) (ts_expires_at tokens) (ts_next_refresh_at tokens))
  else Invalid generation.

(** The stop two statuses say, to whom it applies, and whether collection goes
    on under it. *)
Definition same_stop (s s' : AuthStatus) : Prop :=
  status_stop s = status_stop s'
  /\ (is_Some (status_stop s) ->
      st_stopped_generation s = st_stopped_generation s' /\ st_collecting s = st_collecting s').

Lemma with_usability_consistent s u : is_consistent s = true -> is_consistent (with_usability s u) = true.
Proof.
  unfold with_usability, is_consistent.
  destruct s as [st r c ra g m f k]. simpl. by destruct st.
Qed.

(** The status of the derived row. *)
Definition effective_status (row : CollectorAuthRow) (status : AuthStatus)
    (tokens : TeslaMateLegacyTokenStore) (plaintext : OwnerTokens) (m : StoppedMode) (now : Z) : AuthStatus :=
  let pair := pair_load tokens plaintext m in
  let skew := st_clock_skew status in
  if is_invalid pair
  then status_stopped (StopSignedOut StoredPairInvalid) (pair_generation pair) m false fuse_default skew
  else if match st_state status with StSignInRequired | StSignedOut => true | _ => false end
          && negb (bool_decide (st_stopped_generation status = Some (pair_generation pair)))
  then status_ready fuse_default skew
  else if negb (clock_is_valid now) then with_usability status false
  else
    let usable := pair_is_usable pair now in
    if bool_decide (st_state status = StSignInRequired)
    then if usable then with_usability status true else with_sign_in_expired status
    else with_usability status (st_collecting status && usable).

Lemma state_is_code row s c : from_row row = Ok s ->
  bool_decide (row_state row = state_code c) = bool_decide (st_state s = c).
Proof.
  intros [_ <-]%from_row_spec. simpl. apply bool_decide_ext. split; [by intros ?%(inj state_code)|by intros ->].
Qed.

Lemma effective_of_pair_row row status tokens plaintext m now_ms :
  from_row row = Ok status ->
  ef_row (effective_of_pair row status tokens plaintext m now_ms)
  = to_row (effective_status row status tokens plaintext m (now_ms / 1000)).
Proof.
  intros Hrow. unfold effective_of_pair, effective_status, pair_load.
  change "sign_in_required" with (state_code StSignInRequired). change "signed_out" with (state_code StSignedOut).
  rewrite !(state_is_code row status) by done.
  destruct (stored_pair_passes_grammar _ _ m); simpl; [|done].
  destruct (st_state status); simpl; repeat case_match; done.
Qed.

Lemma effective_status_consistent row status tokens plaintext m now :
  is_consistent status = true -> is_consistent (effective_status row status tokens plaintext m now) = true.
Proof.
  intros Hs. unfold effective_status. cbv zeta.
  repeat case_match; auto using with_usability_consistent, with_sign_in_expired_consistent,
    status_stopped_consistent, status_ready_consistent.
Qed.

Lemma effective_agrees row status tokens plaintext mode now observer cfg c3 output :
  is_consistent status = true -> st_state status = StSignInRequired \/ st_state status = StSignedOut ->
  same_stop (effective_status row status tokens plaintext (stopped_mode_of mode) now)
    (restored_status (MkStartInputs now mode observer (pair_load tokens plaintext (stopped_mode_of mode)) cfg c3)
       false output (Some status)).
Proof.
  intros Hc Hst. unfold effective_status, restored_status, restored_stop, restored_refusal.
  destruct (pair_load _ _ _) as [g until|g]; cbn [si_pair si_now si_mode si_c3_reset_refusal si_configuration
    si_observer is_invalid pair_generation pair_is_usable negb]; cbv zeta.
  2: { rewrite andb_false_r. by destruct (clock_is_valid now). }
  set (usable := is_none_or until _).
  destruct status as [st reason col ra sg sm fuse skew]. simpl in *.
  unfold is_consistent in Hc. simpl in Hc. rewrite !andb_true_iff in Hc.
  destruct Hc as [[[[[[Ha _] _] _] _] Hn] _].
  destruct Hst as [-> | ->], reason as [[|r|?|?|?]|]; try done; simpl;
    destruct (decide (sg = Some g)) as [->|Hg]; rewrite ?(bool_decide_eq_true_2 _ eq_refl), ?(bool_decide_eq_false_2 _ Hg);
    simpl; destruct (clock_is_valid now), usable; simpl;
    repeat case_match; unfold same_stop; simpl; destruct col; try done;
    (split; [reflexivity|]); intros [? Hx]; first [discriminate Hx | done].
Qed.

(** *** The readers of the pair *)

Lemma select_spec tokens (P : World -> Prop) `{!Disk P} :
  triple P (select_stored_legacy_key_read_only uid tokens)
    (fun key w => key_matches_tokens key tokens = true /\ P w) P.
Proof.
  unfold select_stored_legacy_key_read_only.
  eapply triple_bind; [apply reads_path_exists, _|]. intros ce.
  eapply triple_bind; [apply reads_catch; [apply reads_load_key|apply _]|]. intros current.
  destruct (match current with Ok key => _ | Err _ => _ end) eqn:Hm.
  { destruct current as [key|]; [|done]. by intros w Hw. }
  eapply triple_bind; [apply reads_path_exists, _|]. intros [].
  - eapply triple_bind; [apply reads_load_key_file, _|]. intros prev.
    destruct (key_matches_tokens prev tokens) eqn:Hp; [|apply triple_fail].
    destruct current as [cur|err]; simpl; rewrite ?andb_false_r.
    + eapply triple_to, triple_ret. by intros k w [-> Hw].
    + destruct ce; [by intros w Hw|]. eapply triple_to, triple_ret. by intros k w [-> Hw].
  - destruct current; apply triple_fail.
Qed.

(** What a returned view of a row that reads the pair is. *)
Lemma effective_auth_row_spec store m now_ms w v w' row status tokens :
  load_collector_auth_row store = Ok (Some row) -> from_row row = Ok status ->
  reads_pair (row_state row) = true -> w_tokens w = Some tokens ->
  effective_auth_row store m now_ms w = (Returned (Ok (Some v)), w') ->
  w_files w' = w_files w /\ w_tokens w' = w_tokens w
  /\ exists key plaintext, key_matches_tokens key tokens = true
       /\ decrypt_legacy_owner_tokens key (ts_access tokens) (ts_refresh tokens) = Ok plaintext
       /\ v = effective_of_pair row status tokens plaintext m now_ms.
Proof.
  intros Hload Hrow Hreads Htok Hrun.
  set (P := disk (fun s fs t => fs = w_files w /\ t = w_tokens w)).
  assert (triple P (effective_auth_row store m now_ms)
    (fun o w' => forall v, o = Some v -> P w' /\ exists key plaintext, key_matches_tokens key tokens = true
       /\ decrypt_legacy_owner_tokens key (ts_access tokens) (ts_refresh tokens) = Ok plaintext
       /\ v = effective_of_pair row status tokens plaintext m now_ms) (fun _ => True)) as H.
  { unfold effective_auth_row. rewrite Hload.
    eapply triple_bind; [apply triple_map_err; eapply triple_else, triple_lift; done|].
    intros loaded. cbv beta. apply triple_pre. intros [= <-].
    destruct (bool_decide (row_state row = "api_refused")) eqn:Ha.
    { apply bool_decide_eq_true in Ha. by rewrite Ha in Hreads. }
    rewrite Hreads, Hrow.
    eapply triple_bind; [apply triple_map_err; eapply triple_else, triple_lift; done|].
    intros s. cbv beta. apply triple_pre. intros [= <-].
    eapply triple_bind; [apply triple_map_err; eapply triple_else, triple_look; [done|apply _]|].
    intros stored. apply (triple_from (fun w => stored = Some tokens /\ P w)).
    { intros w0 [[= <-] Hw0]. split; [|done]. destruct Hw0 as [_ Ht]. by rewrite Ht. }
    apply triple_pre. intros ->.
    eapply triple_bind; [apply triple_map_err; eapply triple_else, select_spec; [done|apply _]|].
    intros key. cbv beta. apply triple_pre. intros Hkey.
    eapply triple_bind; [apply triple_map_err; eapply triple_else, triple_lift; done|].
    intros plaintext. cbv beta. apply triple_pre. intros Hplain.
    eapply triple_to, triple_ret. intros o w0 [-> Hw0] v' [= <-]. split; [done|]. by exists key, plaintext. }
  specialize (H w (conj eq_refl eq_refl)). rewrite Hrun in H. destruct (H v eq_refl) as [[Hf Ht] Hex]. done.
Qed.

(** A reader without the credential unit shows the stop a restart of the
    unit would find: for a stored sign-in or sign-out stop, the derived row
    reads back as a status whose stop (and, while there is one, its generation
    and whether it collects) is that of the status restored from the same row,
    the same pair and the same clock, whatever the unit's configuration; and
    deriving it changes no file and no row. *)
Theorem effective_view_agrees_with_restart store mode now_ms w v w' row status tokens :
  load_collector_auth_row store = Ok (Some row) -> from_row row = Ok status ->
  st_state status = StSignInRequired \/ st_state status = StSignedOut -> w_tokens w = Some tokens ->
  effective_auth_row store (stopped_mode_of mode) now_ms w = (Returned (Ok (Some v)), w') ->
  w_files w' = w_files w /\ w_tokens w' = w_tokens w /\
  exists key plaintext s,
    decrypt_legacy_owner_tokens key (ts_access tokens) (ts_refresh tokens) = Ok plaintext
    /\ key_matches_tokens key tokens = true /\ from_row (ef_row v) = Ok s
    /\ forall observer cfg c3 output receipt r,
         restore_from_facts
           (MkStartInputs (now_ms / 1000) mode observer
              (pair_load tokens plaintext (stopped_mode_of mode)) cfg c3)
           (MkStartFacts false (Some row) output receipt) = Ok r ->
         same_stop s (ra_status r).
Proof.
  intros Hload Hrow Hst Htok Hrun. pose proof Hrow as [Hc Hto]%from_row_spec.
  eapply effective_auth_row_spec in Hrun as (Hf & Ht & key & plaintext & Hkey & Hplain & ->); [|done..| |done].
  2: { rewrite <- Hto. simpl. by destruct Hst as [-> | ->]. }
  split; [done|]. split; [done|].
  exists key, plaintext, (effective_status row status tokens plaintext (stopped_mode_of mode) (now_ms / 1000)).
  rewrite effective_of_pair_row by done.
  split; [done|]. split; [done|]. split; [apply from_row_spec; eauto using effective_status_consistent|].
  intros observer cfg c3 output receipt r (stored & Hs & ->)%restore_from_facts_Ok.
  unfold stored_status in Hs. simpl in Hs. rewrite Hrow in Hs. injection Hs as <-.
  by apply effective_agrees.
Qed.

End Effective.

(** ** A concrete reading *)
Module SampleView.
Import SampleCipher SampleKeys.
#[local] Existing Instance Sample.external.

Definition tokens : TeslaMateLegacyTokenStore := pair key "h.p.s" "refresh-01".
Definition world : World := run_op 1000 18 (OpReplace key tokens) (restart [] [] empty_world).
Definition bound : TeslaMateLegacyTokenStore := default tokens (w_tokens world).
Definition generation : Uuid := legacy_refresh_credential_generation "refresh-01".
(** Sign-in required, written while the token was usable; [exp] of the sample
    token is 1800000000. *)
Definition stopped : AuthStatus :=
  status_stopped (StopSignIn RefreshTokenRejected) generation SmLegacy true fuse_default false.
Definition store : HubStore := {|
  stored_legacy_credential_generation := Ok NoRow;
  legacy_generation_is_refresh_output _ := Ok false;
  legacy_pair_and_receipt_snapshot _ := Err OtherStoreError;
  has_unresolved_legacy_refresh := Ok false;
  load_collector_auth_row := Ok (Some (to_row stopped));
  latest_legacy_refresh_started_at_ms := Ok None;
|}.
Definition view (now_ms : Z) : option EffectiveAuth :=
  match (effective_auth_row 1000 store SmLegacy now_ms world).1 with
  | Returned (Ok v) => v
  | _ => None
  end.

(** Usable and still a sign-in one second before the bound; signed out from
    the bound on; a clock before 2020 neither converts nor collects. *)
Lemma view_over_time :
  (fun now => (fun v => (row_state (ef_row v), row_collecting (ef_row v), ef_usable_until v)) <$> view now)
    <$> [1799999699999; 1799999700000; 1000]
  = [Some ("sign_in_required", true, Some 1799999700); Some ("signed_out", false, None);
     Some ("sign_in_required", false, None)].
Proof. vm_compute. reflexivity. Qed.

Definition late : Z := 1799999700000.
Definition seen : EffectiveAuth := default (unchanged (to_row stopped)) (view late).

End SampleView.

Lemma effective_view_agrees_with_restart_witness :
  let X := Sample.external in let D := SampleCipher.digest in let C := SampleCipher.aead in
  w_files SampleView.world = w_files SampleView.world /\ w_tokens SampleView.world = w_tokens SampleView.world /\
  exists key plaintext s,
    decrypt_legacy_owner_tokens key (ts_access SampleView.bound) (ts_refresh SampleView.bound) = Ok plaintext
    /\ key_matches_tokens key SampleView.bound = true /\ from_row (ef_row SampleView.seen) = Ok s
    /\ forall observer cfg c3 output receipt r,
         restore_from_facts
           (MkStartInputs (SampleView.late / 1000) Tesla observer
              (pair_load SampleView.bound plaintext SmLegacy) cfg c3)
           (MkStartFacts false (Some (to_row SampleView.stopped)) output receipt) = Ok r ->
         same_stop s (ra_status r).
Proof.
  intros X D C.
  refine (effective_view_agrees_with_restart 1000 SampleView.store Tesla SampleView.late SampleView.world
    SampleView.seen SampleView.world (to_row SampleView.stopped) SampleView.stopped SampleView.bound _ _ _ _ _);
    try (vm_compute; reflexivity). left. reflexivity.
Defined.
