(* ===== verification/HttpRange.v ===== *)
(** * The byte-range reader of the pack endpoint ([src/src/api/http_range.rs])

    [parse_single_range] turns the value of a [Range] header into one inclusive
    interval of a representation, or names why it will not.  The reference is
    the set of byte positions a range asks for, [asks_for]; the reader returns
    exactly that set, as an interval, when it is not empty. *)
From S2P Require Import Prelude RustStr.

Local Open Scope string_scope.
Local Open Scope Z_scope.

(** ** Definitions *)

Record ResolvedByteRange := {
  start : Z;
  end_ : Z;
  complete_length : Z;
  requested : bool;
}.

Inductive RangeError :=
| EmptyRepresentation
| UnsupportedUnit
| MultipleRanges
| Malformed
| Overflow
| Unsatisfiable
| ZeroLengthSuffix.

#[global] Instance RangeError_eq_dec : EqDecision RangeError.
Proof. solve_decision. Defined.
#[global] Instance ResolvedByteRange_eq_dec : EqDecision ResolvedByteRange.
Proof. solve_decision. Defined.

Definition u64_wrap (z : Z) : Z := z mod 18446744073709551616.

Definition range_len (r : ResolvedByteRange) : Z := u64_wrap (end_ r - start r + 1).
Definition is_partial (r : ResolvedByteRange) : bool := requested r.

Definition content_range (r : ResolvedByteRange) : string :=
  "bytes " +:+ print_u64 (start r) +:+ "-" +:+ print_u64 (end_ r) +:+ "/"
  +:+ print_u64 (complete_length r).

Definition unsatisfied_content_range (complete_length : Z) : string :=
  "bytes */" +:+ print_u64 complete_length.

Definition invalid_unit_or_syntax (header : string) : RangeError :=
  if str_contains "="%char header then UnsupportedUnit else Malformed.

(** [checked_mul] and [checked_add] of [u64]. *)
Definition u64_checked (z : Z) : option Z := if z <=? u64_max then Some z else None.

Fixpoint parse_decimal_loop (number : Z) (value : string) : result RangeError Z :=
  match value with
  | EmptyString => Ok number
  | String digit value =>
      match u64_checked (number * 10) ≫= fun number => u64_checked (number + (byte_of digit - 48)) with
      | Some number => parse_decimal_loop number value
      | None => Err Overflow
      end
  end.

Definition parse_decimal (value : string) : result RangeError Z :=
  if str_is_empty value || negb (str_all is_ascii_digit value) then Err Malformed
  else parse_decimal_loop 0 value.

Definition resolve_bounded (start requested_end complete_length : Z) :
    result RangeError ResolvedByteRange :=
  if (complete_length <=? start) || (requested_end <? start) then Err Unsatisfiable
  else Ok {| start := start; end_ := Z.min requested_end (complete_length - 1);
             complete_length := complete_length; requested := true |}.

Definition resolve_open_ended (start complete_length : Z) : result RangeError ResolvedByteRange :=
  if complete_length <=? start then Err Unsatisfiable
  else Ok {| start := start; end_ := complete_length - 1;
             complete_length := complete_length; requested := true |}.

Definition resolve_suffix (suffix_length complete_length : Z) : result RangeError ResolvedByteRange :=
  if suffix_length =? 0 then Err ZeroLengthSuffix
  else
    let length := Z.min suffix_length complete_length in
    Ok {| start := complete_length - length; end_ := complete_length - 1;
          complete_length := complete_length; requested := true |}.

(** The part of [parse_single_range] behind the [bytes=] prefix. *)
Definition parse_range_value (value : string) (complete_length : Z) :
    result RangeError ResolvedByteRange :=
  if str_is_empty value then Err Malformed
  else if str_contains ","%char value then Err MultipleRanges
  else if str_any is_ascii_whitespace value then Err Malformed
  else
    '(first, last) ← ok_or (split_once "-"%char value) Malformed;
    if str_contains "-"%char last then Err Malformed
    else match str_is_empty first, str_is_empty last with
    | true, true => Err Malformed
    | true, false => n ← parse_decimal last; resolve_suffix n complete_length
    | false, true => n ← parse_decimal first; resolve_open_ended n complete_length
    | false, false =>
        a ← parse_decimal first; b ← parse_decimal last; resolve_bounded a b complete_length
    end.

Definition parse_single_range (header : option string) (complete_length : Z) :
    result RangeError ResolvedByteRange :=
  if complete_length =? 0 then Err EmptyRepresentation
  else match header with
  | None => Ok {| start := 0; end_ := complete_length - 1;
                  complete_length := complete_length; requested := false |}
  | Some header =>
      value ← ok_or (strip_prefix "bytes=" header) (invalid_unit_or_syntax header);
      parse_range_value value complete_length
  end.

(** ** The reference: what a range asks for *)

Inductive byte_range := Span (first last : Z) | From (first : Z) | Suffix (count : Z).

(** [value] spells [spec]: decimal digits around one hyphen, nothing else. *)
Inductive spells : string -> byte_range -> Prop :=
| spells_span s t a b :
    digits_value s = Some a -> digits_value t = Some b ->
    spells (s +:+ String "-" t) (Span a b)
| spells_from s a : digits_value s = Some a -> spells (s +:+ "-") (From a)
| spells_suffix t n : digits_value t = Some n -> spells (String "-" t) (Suffix n).

Definition fits (spec : byte_range) : bool :=
  match spec with
  | Span a b => (a <=? u64_max) && (b <=? u64_max)
  | From a => a <=? u64_max
  | Suffix n => n <=? u64_max
  end.

(** The byte positions of a representation of [len] bytes that a range selects. *)
Definition asks_for (spec : byte_range) (len i : Z) : Prop :=
  0 <= i < len /\
  match spec with
  | Span a b => a <= i <= b
  | From a => a <= i
  | Suffix n => len - n <= i
  end.

(** ** Lemmas *)

Lemma parse_decimal_loop_spec s acc :
  0 <= acc <= u64_max ->
  str_all is_ascii_digit s = true ->
  parse_decimal_loop acc s
  = match digits_acc acc s with
    | Some n => if n <=? u64_max then Ok n else Err Overflow
    | None => Err Malformed
    end.
Proof.
  revert acc; induction s as [|c s IH]; intros acc Hacc Hs.
  { simpl. by replace (acc <=? u64_max) with true by lia. }
  simpl in Hs. bsimp. cbn [parse_decimal_loop digits_acc].
  destruct (digits_acc_is_Some (String c s) acc) as [v Hv]; [simpl; by rewrite H|].
  cbn [digits_acc] in Hv. unfold digit_of in *. rewrite H in *.
  assert (Hd : 0 <= byte_of c - 48) by (unfold is_ascii_digit in H; bsimp; lia).
  unfold u64_checked. destruct (acc * 10 <=? u64_max) eqn:E1; cbn [mbind option_bind].
  1: destruct (acc * 10 + (byte_of c - 48) <=? u64_max) eqn:E2; [apply IH; [bsimp; lia|done]|].
  all: rewrite Hv; apply digits_acc_bounds in Hv; [|lia];
    assert (1 <= 10 ^ str_len s) by (apply (Z.pow_le_mono_r 10 0); unfold str_len; lia);
    bsimp; replace (v <=? u64_max) with false by nia; done.
Qed.

(** The checked loop reads the number the digits spell, or names the problem. *)
Lemma parse_decimal_spec s :
  parse_decimal s
  = match digits_value s with
    | Some n => if n <=? u64_max then Ok n else Err Overflow
    | None => Err Malformed
    end.
Proof.
  unfold parse_decimal, digits_value. destruct s as [|c s]; [done|]. cbn [str_is_empty orb].
  destruct (str_all is_ascii_digit (String c s)) eqn:E; cbn [negb].
  - apply parse_decimal_loop_spec; [mlia|done].
  - destruct (digits_acc 0 (String c s)) eqn:Ed; [|done]. apply digits_acc_all in Ed. congruence.
Qed.

Definition resolve (spec : byte_range) (len : Z) : result RangeError ResolvedByteRange :=
  match spec with
  | Span a b => resolve_bounded a b len
  | From a => resolve_open_ended a len
  | Suffix n => resolve_suffix n len
  end.

Lemma digits_plain s n c :
  digits_value s = Some n -> is_ascii_digit c = false -> str_contains c s = false.
Proof. intros [_ H]%digits_value_all Hc. by eapply str_all_not_contains. Qed.

Lemma digits_no_space s n : digits_value s = Some n -> str_any is_ascii_whitespace s = false.
Proof.
  intros [_ H]%digits_value_all. eapply str_all_not_any; [|exact H]. intros c.
  unfold is_ascii_digit, is_ascii_whitespace. intros Hc. bsimp.
  destruct (byte_of c =? 32) eqn:?, (byte_of c =? 9) eqn:?, (byte_of c =? 10) eqn:?,
    (byte_of c =? 12) eqn:?, (byte_of c =? 13) eqn:?; bsimp; try done; lia.
Qed.

(** A well-spelled range is resolved as its numbers say, or overflows. *)
Lemma parse_range_value_spells v spec len :
  spells v spec ->
  parse_range_value v len = if fits spec then resolve spec len else Err Overflow.
Proof.
  intros [s t a b Hs Ht|s a Hs|t n Ht]; unfold parse_range_value.
  - replace (str_is_empty _) with false by (by destruct s).
    unfold str_contains at 1. rewrite !str_any_app. fold (str_contains "," s). cbn [str_any].
    fold (str_contains "," t).
    rewrite (digits_plain s a), (digits_plain t b), (digits_no_space s a), (digits_no_space t b) by done.
    rewrite split_once_app by (by eapply digits_plain). cbn [ok_or mbind result_bind].
    rewrite (digits_plain t b) by done.
    destruct (digits_value_all _ _ Hs) as [Hs0 _], (digits_value_all _ _ Ht) as [Ht0 _].
    destruct s as [|c s]; [done|]. destruct t as [|d t]; [done|]. cbn [str_is_empty].
    rewrite !parse_decimal_spec, Hs, Ht. cbn [fits].
    destruct (a <=? u64_max), (b <=? u64_max); done.
  - replace (str_is_empty _) with false by (by destruct s).
    unfold str_contains at 1. rewrite !str_any_app. fold (str_contains "," s).
    rewrite (digits_plain s a), (digits_no_space s a) by done.
    rewrite split_once_app by (by eapply digits_plain). cbn [ok_or mbind result_bind].
    destruct (digits_value_all _ _ Hs) as [Hs0 _]. destruct s as [|c s]; [done|]. cbn [str_is_empty].
    rewrite parse_decimal_spec, Hs. cbn [fits]. by destruct (a <=? u64_max).
  - unfold str_contains at 1. cbn [str_any str_is_empty]. fold (str_contains "," t).
    rewrite (digits_plain t n), (digits_no_space t n) by done.
    change (split_once "-" (String "-" t)) with (Some ("", t)). cbn [ok_or mbind result_bind orb].
    rewrite (digits_plain t n) by done.
    destruct (digits_value_all _ _ Ht) as [Ht0 _]. destruct t as [|d t]; [done|]. cbn [str_is_empty].
    rewrite parse_decimal_spec, Ht. cbn [fits]. by destruct (n <=? u64_max).
Qed.

Lemma parse_decimal_Ok s n : parse_decimal s = Ok n -> digits_value s = Some n /\ n <= u64_max.
Proof.
  rewrite parse_decimal_spec. destruct (digits_value s) as [m|]; [|done].
  destruct (m <=? u64_max) eqn:E; [|done]. intros [= <-]. bsimp. done.
Qed.

(** Nothing else is resolved: past the numbers, only spelled ranges get there. *)
Lemma parse_range_value_resolved v len :
  (forall spec, spells v spec -> fits spec = false) ->
  parse_range_value v len ∈ [Err Malformed; Err MultipleRanges; Err Overflow].
Proof.
  intros Hno. unfold parse_range_value.
  assert (Hd : forall s e, parse_decimal s = Err e -> e = Malformed \/ e = Overflow).
  { intros s e. rewrite parse_decimal_spec. destruct (digits_value s); [case_match|]; naive_solver. }
  assert (Hin : forall e, e = Malformed \/ e = Overflow ->
    (Err e : result RangeError ResolvedByteRange) ∈ [Err Malformed; Err MultipleRanges; Err Overflow])
    by (intros e [-> | ->]; set_solver).
  case_match; [set_solver|]. case_match; [set_solver|]. case_match; [set_solver|].
  destruct (split_once "-" v) as [[f l]|] eqn:Es; cbn; [|set_solver].
  apply split_once_Some in Es as [-> _]. case_match; [set_solver|].
  destruct (str_is_empty f) eqn:Ef, (str_is_empty l) eqn:El; [set_solver| | |].
  - destruct (parse_decimal l) as [n|e] eqn:E; cbn; [|eauto].
    apply parse_decimal_Ok in E as [E ?]. destruct f; [|done].
    specialize (Hno _ (spells_suffix _ _ E)). simpl in Hno. bsimp. lia.
  - destruct (parse_decimal f) as [n|e] eqn:E; cbn; [|eauto].
    apply parse_decimal_Ok in E as [E ?]. destruct l; [|done].
    specialize (Hno _ (spells_from _ _ E)). simpl in Hno. bsimp. lia.
  - destruct (parse_decimal f) as [n|e] eqn:E; cbn; [|eauto].
    destruct (parse_decimal l) as [m|e] eqn:E'; cbn; [|eauto].
    apply parse_decimal_Ok in E as [E ?], E' as [E' ?].
    specialize (Hno _ (spells_span _ _ _ _ E E')). simpl in Hno. apply andb_false_iff in Hno as [?|?]; bsimp; lia.
Qed.

(** The range a value spells, computed. *)
Definition spelled (v : string) : option byte_range :=
  match split_once "-" v with
  | Some (f, l) =>
      match digits_value f, digits_value l, str_is_empty f, str_is_empty l with
      | Some a, Some b, _, _ => Some (Span a b)
      | Some a, None, _, true => Some (From a)
      | None, Some b, true, _ => Some (Suffix b)
      | _, _, _, _ => None
      end
  | None => None
  end.

Lemma spelled_spec v spec : spells v spec <-> spelled v = Some spec.
Proof.
  unfold spelled. split.
  - intros [s t a b Hs Ht|s a Hs|t n Ht].
    + rewrite split_once_app by (by eapply digits_plain). by rewrite Hs, Ht.
    + rewrite split_once_app by (by eapply digits_plain). by rewrite Hs.
    + simpl. by rewrite Ht.
  - destruct (split_once "-" v) as [[f l]|] eqn:Es; [|done].
    apply split_once_Some in Es as [-> _].
    destruct (digits_value f) as [a|] eqn:Ef, (digits_value l) as [b|] eqn:El.
    + intros [= <-]. by constructor.
    + destruct l; simpl; [|done]. intros [= <-]. by constructor.
    + destruct f; simpl; [|done]. intros [= <-]. by constructor.
    + done.
Qed.

(** [header] asks for [spec]: the unit is [bytes] and the value spells it. *)
Definition header_spells (header : string) (spec : byte_range) : Prop :=
  exists v, header = "bytes=" +:+ v /\ spells v spec.

Definition selects (r : ResolvedByteRange) (spec : byte_range) (len : Z) : Prop :=
  complete_length r = len /\ requested r = true /\ start r <= end_ r /\
  (forall i, start r <= i <= end_ r <-> asks_for spec len i).

Lemma spells_nonneg v spec :
  spells v spec -> match spec with Span a b => 0 <= a /\ 0 <= b | From a | Suffix a => 0 <= a end.
Proof. intros [s t a b Hs Ht|s a Hs|t n Ht]; eauto using digits_value_nonneg. Qed.

Lemma parse_header_spells h spec len :
  0 < len -> header_spells h spec ->
  parse_single_range (Some h) len = if fits spec then resolve spec len else Err Overflow.
Proof.
  intros Hlen (v & -> & Hv). unfold parse_single_range.
  replace (len =? 0) with false by lia.
  rewrite strip_prefix_app. by apply parse_range_value_spells.
Qed.

(** What a header that spells no fitting range gets. *)
Lemma parse_header_other h len :
  0 < len -> (forall spec, header_spells h spec -> fits spec = false) ->
  parse_single_range (Some h) len ∈ [Err Malformed; Err MultipleRanges; Err Overflow; Err UnsupportedUnit].
Proof.
  intros Hlen Hno. unfold parse_single_range. replace (len =? 0) with false by lia.
  destruct (strip_prefix "bytes=" h) as [v|] eqn:E; cbn [ok_or mbind result_bind].
  - apply strip_prefix_Some in E. pose proof (parse_range_value_resolved v len) as H.
    enough (parse_range_value v len ∈ [Err Malformed; Err MultipleRanges; Err Overflow]) by set_solver.
    apply H. intros spec Hs. apply Hno. by exists v.
  - unfold invalid_unit_or_syntax. case_match; set_solver.
Qed.

Lemma header_spells_dec h :
  (exists spec, header_spells h spec) \/ (forall spec, ~ header_spells h spec).
Proof.
  destruct (strip_prefix "bytes=" h) as [v|] eqn:E.
  - apply strip_prefix_Some in E as ->. destruct (spelled v) as [spec|] eqn:Es.
    + left. exists spec, v. by rewrite spelled_spec.
    + right. intros spec (w & Hw & H%spelled_spec). simplify_eq.
  - right. intros spec (w & -> & _). by rewrite strip_prefix_app in E.
Qed.

(** Resolving selects exactly the asked-for positions when there are any. *)
Lemma resolve_spec v spec len :
  spells v spec -> 0 < len ->
  match resolve spec len with
  | Ok r => selects r spec len
  | Err Unsatisfiable => spec <> Suffix 0 /\ forall i, ~ asks_for spec len i
  | Err ZeroLengthSuffix => spec = Suffix 0
  | Err _ => False
  end.
Proof.
  intros Hv%spells_nonneg Hlen. destruct spec as [a b|a|n]; simpl;
    unfold resolve_bounded, resolve_open_ended, resolve_suffix, selects, asks_for.
  - destruct (len <=? a) eqn:?, (b <? a) eqn:?; bsimp; simpl; repeat split; try done; intros; try lia.
  - destruct (len <=? a) eqn:?; bsimp; simpl; repeat split; try done; intros; try lia.
  - destruct (n =? 0) eqn:?; bsimp; simpl; [by subst|]. repeat split; try done; intros; try lia.
Qed.

Lemma selects_inj r r' spec len : selects r spec len -> selects r' spec len -> r = r'.
Proof.
  intros (Hc & Hr & Hle & Hi) (Hc' & Hr' & Hle' & Hi').
  assert (Heq : forall i, start r <= i <= end_ r <-> start r' <= i <= end_ r').
  { intros i. by rewrite Hi, Hi'. }
  destruct r as [s e c q], r' as [s' e' c' q']; simpl in *.
  pose proof (proj1 (Heq s)); pose proof (proj1 (Heq e)).
  pose proof (proj2 (Heq s')); pose proof (proj2 (Heq e')).
  assert (s = s') by lia. assert (e = e') by lia. congruence.
Qed.

Lemma spells_header_inj h spec spec' : header_spells h spec -> header_spells h spec' -> spec = spec'.
Proof.
  intros (v & -> & Hv%spelled_spec) (w & Hw & Hw'%spelled_spec).
  apply (f_equal (strip_prefix "bytes=")) in Hw. rewrite !strip_prefix_app in Hw. simplify_eq. congruence.
Qed.

(** The refusals of a header that spells a range, which is then the only one. *)
Lemma refusals_spelled h spec len :
  0 < len -> header_spells h spec ->
  (parse_single_range (Some h) len = Err Unsatisfiable <->
     exists spec, header_spells h spec /\ fits spec = true /\ spec <> Suffix 0 /\
                  forall i, ~ asks_for spec len i) /\
  (parse_single_range (Some h) len = Err ZeroLengthSuffix <-> header_spells h (Suffix 0)) /\
  (forall spec, header_spells h spec -> fits spec = false ->
     parse_single_range (Some h) len = Err Overflow) /\
  ((forall spec, header_spells h spec -> fits spec = false) <->
     parse_single_range (Some h) len ∈ [Err Malformed; Err MultipleRanges; Err Overflow; Err UnsupportedUnit]) /\
  (forall header, parse_single_range header 0 = Err EmptyRepresentation).
Proof.
  intros Hlen Hs. rewrite (parse_header_spells h spec len Hlen Hs).
  assert (Huniq : forall spec', header_spells h spec' <-> spec' = spec).
  { intros spec'. split; [intros H; by apply (spells_header_inj h)|by intros ->]. }
  setoid_rewrite Huniq. destruct Hs as (v & _ & Hv). pose proof (resolve_spec v spec len Hv Hlen) as Hr.
  assert (Hall : (forall spec', spec' = spec -> fits spec' = false) <-> fits spec = false)
    by (split; [intros H; by apply H|by intros ? ? ->]).
  rewrite Hall. clear Hall. destruct (fits spec) eqn:Ef.
  2: { split_and!; [split; [done|intros (? & -> & ? & _); congruence]|split; [done|by intros <-]|done| |done].
       split; [set_solver|done]. }
  destruct (resolve spec len) as [r|e] eqn:Er.
  - destruct Hr as (_ & _ & Hle & Hi). pose proof (proj1 (Hi (start r)) ltac:(lia)) as Hin.
    split_and!; [split; [done|]|split; [done|]|intros; congruence|split; [done|set_solver]|done].
    + intros (? & -> & _ & _ & Hn). by destruct (Hn (start r)).
    + intros <-. destruct Hin. lia.
  - assert (Hne : e = Unsatisfiable \/ e = ZeroLengthSuffix) by (destruct e; try done; auto).
    split_and!; [| |intros; congruence|split; [done|]|done].
    + split; [intros [= ->]; exists spec; naive_solver|]. intros (? & -> & _ & ? & _). naive_solver.
    + split; [intros [= ->]; done|]. intros <-. destruct Hne as [-> | ->]; [by destruct Hr|done].
    + destruct Hne as [-> | ->]; set_solver.
Qed.

(** ** Properties *)

(** A header is answered with an interval exactly when it is [bytes=] and one
    range whose numbers fit a [u64] and which asks for at least one byte of the
    representation; the interval is then exactly the set of byte positions asked
    for, it lies inside the representation, and its length is counted without
    wrapping.  Without a header the interval is the whole representation. *)
Theorem range_selects_what_is_asked (len : Z) (Hlen : 0 < len <= u64_max) :
  (forall h r, parse_single_range (Some h) len = Ok r <->
    exists spec, header_spells h spec /\ fits spec = true /\ selects r spec len) /\
  (forall r, parse_single_range None len = Ok r <->
    r = {| start := 0; end_ := len - 1; complete_length := len; requested := false |}) /\
  (forall h r, parse_single_range h len = Ok r ->
    0 <= start r <= end_ r /\ end_ r < len /\ range_len r = end_ r - start r + 1).
Proof.
  assert (Hiff : forall h r, parse_single_range (Some h) len = Ok r <->
    exists spec, header_spells h spec /\ fits spec = true /\ selects r spec len).
  { intros h r. split.
    - intros Hok. destruct (header_spells_dec h) as [[spec Hs]|Hno].
      + exists spec. rewrite (parse_header_spells h spec) in Hok by (done || lia).
        destruct (fits spec); [|done]. destruct Hs as (v & -> & Hv).
        pose proof (resolve_spec v spec len Hv ltac:(lia)) as H. rewrite Hok in H.
        split; [by exists v|]. split; [done|exact H].
      + pose proof (parse_header_other h len ltac:(lia) (fun spec Hs => False_ind _ (Hno spec Hs))) as H.
        rewrite Hok in H. set_solver.
    - intros (spec & Hs & Hfit & Hsel). rewrite (parse_header_spells h spec), Hfit by (done || lia).
      destruct Hs as (v & -> & Hv). pose proof (resolve_spec v spec len Hv ltac:(lia)) as H.
      destruct Hsel as (Hc & Hr & Hle & Hi).
      assert (Hask : asks_for spec len (start r)) by (apply Hi; lia).
      destruct (resolve spec len) as [r'|[]] eqn:E; try done.
      + f_equal. by apply (selects_inj r' r spec len).
      + destruct H as [_ H]. by destruct (H (start r)).
      + subst spec. unfold asks_for in Hask. lia. }
  assert (Hnone : forall r, parse_single_range None len = Ok r <->
    r = {| start := 0; end_ := len - 1; complete_length := len; requested := false |}).
  { intros r. unfold parse_single_range. replace (len =? 0) with false by lia. naive_solver. }
  split; [done|split; [done|]]. intros h r Hok.
  enough (0 <= start r <= end_ r /\ end_ r < len) as [? ?].
  { repeat split; try lia. unfold range_len, u64_wrap. apply Z.mod_small. mlia. }
  destruct h as [h|]; [apply Hiff in Hok as (spec & _ & _ & _ & _ & Hle & Hi)|apply Hnone in Hok as ->; simpl; lia].
  pose proof (proj1 (Hi (start r))) as H1. pose proof (proj1 (Hi (end_ r))) as H2.
  unfold asks_for in *. destruct H1, H2; lia.
Qed.

Lemma range_selects_what_is_asked_witness :
  parse_single_range (Some "bytes=-500") 200
    = Ok {| start := 0; end_ := 199; complete_length := 200; requested := true |} /\
  range_len {| start := 0; end_ := 199; complete_length := 200; requested := true |} = 200.
Proof.
  split; [vm_compute; reflexivity|].
  refine (proj2 (proj2 (proj2 (proj2 (range_selects_what_is_asked 200 _)) (Some "bytes=-500") _ _))).
  - vm_compute; split; congruence.
  - vm_compute; reflexivity.
Defined.

(** The refusals are named exactly.  A range whose numbers fit and that asks
    for no byte of the representation is unsatisfiable, except for the empty
    suffix, which has its own name; a spelled number beyond [u64] is an overflow;
    another unit is unsupported; a header without a fitting range gets one of the
    syntax errors; and an empty representation is refused before anything is
    read. *)
Theorem range_refusals_are_exact (len : Z) (Hlen : 0 < len) (h : string) :
  (parse_single_range (Some h) len = Err Unsatisfiable <->
     exists spec, header_spells h spec /\ fits spec = true /\ spec <> Suffix 0 /\
                  forall i, ~ asks_for spec len i) /\
  (parse_single_range (Some h) len = Err ZeroLengthSuffix <-> header_spells h (Suffix 0)) /\
  (forall spec, header_spells h spec -> fits spec = false ->
     parse_single_range (Some h) len = Err Overflow) /\
  ((forall spec, header_spells h spec -> fits spec = false) <->
     parse_single_range (Some h) len ∈ [Err Malformed; Err MultipleRanges; Err Overflow; Err UnsupportedUnit]) /\
  (forall header, parse_single_range header 0 = Err EmptyRepresentation).
Proof.
  destruct (header_spells_dec h) as [[spec Hs]|Hno].
  - by apply (refusals_spelled h spec).
  - pose proof (parse_header_other h len Hlen (fun spec Hs => False_ind _ (Hno spec Hs))) as Hin.
    split_and!; try done.
    + split; [intros E; rewrite E in Hin; set_solver|]. intros (spec & Hs & _). by destruct (Hno spec).
    + split; [intros E; rewrite E in Hin; set_solver|]. intros Hs. by destruct (Hno (Suffix 0)).
    + intros spec Hs. by destruct (Hno spec).
    + split; [done|]. intros _ spec Hs. by destruct (Hno spec).
Qed.

Lemma range_refusals_are_exact_witness :
  parse_single_range (Some "bytes=-0") 10 = Err ZeroLengthSuffix.
Proof.
  refine (proj2 (proj1 (proj2 (range_refusals_are_exact 10 _ "bytes=-0"))) _).
  - vm_compute; reflexivity.
  - exists "-0". split; [reflexivity|]. apply spells_suffix. vm_compute; reflexivity.
Defined.

Example range_overflow :
  parse_single_range (Some "bytes=0-18446744073709551616") 10 = Err Overflow.
Proof. vm_compute. reflexivity. Qed.
