(* ===== verification/Text.v ===== *)
(** * Texts as Rust reads them

    [str::trim] and [split_whitespace] over Unicode's [White_Space], ASCII case,
    the number of characters of a text, and [str::parse::<f64>] with its whole
    grammar.  A text is its UTF-8 bytes, as in [RustStr]. *)
From S2P Require Import Prelude RustStr F64.
From Stdlib Require Import SpecFloat.
Local Open Scope string_scope.
Local Open Scope Z_scope.

(** ** White space *)

(** The two-byte and three-byte characters of [White_Space]: U+0085, U+00A0,
    U+1680, U+2000 to U+200A, U+2028, U+2029, U+202F, U+205F, U+3000. *)
Definition is_white_space2 (a b : ascii) : bool :=
  (byte_of a =? 194) && ((byte_of b =? 133) || (byte_of b =? 160)).
Definition is_white_space3 (a b c : ascii) : bool :=
  let x := byte_of c in
  if byte_of a =? 225 then (byte_of b =? 154) && (x =? 128)
  else if byte_of a =? 226 then
    if byte_of b =? 128 then ((128 <=? x) && (x <=? 138)) || (x =? 168) || (x =? 169) || (x =? 175)
    else (byte_of b =? 129) && (x =? 159)
  else (byte_of a =? 227) && (byte_of b =? 128) && (x =? 128).

(** Strip white space from the front; [two] and [three] read the bytes of a
    character in the order of the text. *)
Fixpoint strip_white (two : ascii -> ascii -> bool) (three : ascii -> ascii -> ascii -> bool) (s : string) : string :=
  match s with
  | EmptyString => EmptyString
  | String a s1 =>
      if is_ascii_white_space a then strip_white two three s1
      else match s1 with
           | EmptyString => s
           | String b s2 =>
               if two a b then strip_white two three s2
               else match s2 with
                    | EmptyString => s
                    | String c s3 => if three a b c then strip_white two three s3 else s
                    end
           end
  end.

Fixpoint rev_append (s acc : string) : string :=
  match s with EmptyString => acc | String c s => rev_append s (String c acc) end.
Definition str_rev (s : string) : string := rev_append s EmptyString.

Definition utrim_start : string -> string := strip_white is_white_space2 is_white_space3.
(** From the back a character's bytes come in reverse. *)
Definition utrim_end (s : string) : string :=
  str_rev (strip_white (fun b a => is_white_space2 a b) (fun c b a => is_white_space3 a b c) (str_rev s)).
Definition utrim (s : string) : string := utrim_end (utrim_start s).

(** The characters before the first white space. *)
Fixpoint take_word (s : string) : string :=
  match s with
  | EmptyString => EmptyString
  | String a s1 =>
      if is_ascii_white_space a then EmptyString
      else match s1 with
           | EmptyString => s
           | String b s2 =>
               if is_white_space2 a b then EmptyString
               else match s2 with
                    | String c _ => if is_white_space3 a b c then EmptyString else String a (take_word s1)
                    | EmptyString => String a (take_word s1)
                    end
           end
  end.

(** [s.split_whitespace().next()]. *)
Definition first_word (s : string) : option string :=
  match utrim_start s with EmptyString => None | s => Some (take_word s) end.

(** ** Case and length *)

Fixpoint str_map (f : ascii -> ascii) (s : string) : string :=
  match s with EmptyString => EmptyString | String c s => String (f c) (str_map f s) end.
Definition to_lowercase : string -> string := str_map to_ascii_lowercase.
Definition to_ascii_uppercase (c : ascii) : ascii :=
  if is_ascii_lowercase c then ascii_of_N (Z.to_N (byte_of c - 32)) else c.
Definition to_uppercase : string -> string := str_map to_ascii_uppercase.

(** [s.chars().count()]: every character has one byte that continues no other. *)
Fixpoint chars_count (s : string) : Z :=
  match s with
  | EmptyString => 0
  | String c s => (if is_continuation c then 0 else 1) + chars_count s
  end.

(** [s.replace(c, _)] with nothing. *)
Fixpoint remove_char (c : ascii) (s : string) : string :=
  match s with
  | EmptyString => EmptyString
  | String d s => if bool_decide (d = c) then remove_char c s else String d (remove_char c s)
  end.

Definition starts_with (p s : string) : bool := is_some (strip_prefix p s).

(** ** [str::parse::<f64>] *)

(** A run of digits: its value on top of [acc], its length on top of [n], the rest. *)
Fixpoint take_digits (acc n : Z) (s : string) : Z * Z * string :=
  match s with
  | String c s' =>
      match digit_of c with
      | Some d => take_digits (acc * 10 + d) (n + 1) s'
      | None => (acc, n, s)
      end
  | EmptyString => (acc, n, s)
  end.

(** The double nearest to [mantissa * 10^exponent].  Beyond [10^400] it is
    infinite and below [10^-400] it is zero, far outside the range of doubles. *)
Definition f64_of_decimal (negative : bool) (mantissa digits exponent : Z) : f64 :=
  if mantissa =? 0 then S754_zero negative
  else if 400 <? exponent then S754_infinity negative
  else if exponent + digits <? -400 then S754_zero negative
  else if 0 <=? exponent then f64_of_ratio negative (mantissa * 10 ^ exponent) 1
  else f64_of_ratio negative mantissa (Z.to_pos (10 ^ (- exponent))).

(** An optional sign. *)
Definition take_sign (s : string) : bool * string :=
  match s with
  | String "-" s => (true, s)
  | String "+" s => (false, s)
  | _ => (false, s)
  end.

(** The exponent of a number: absent, or [e] or [E], an optional sign and digits. *)
Definition take_exponent (s : string) : option Z :=
  match s with
  | EmptyString => Some 0
  | String c s =>
      if bool_decide (c = "e"%char) || bool_decide (c = "E"%char) then
        let '(negative, s) := take_sign s in
        match take_digits 0 0 s with
        | (v, n, EmptyString) => if n =? 0 then None else Some (if negative : bool then - v else v)
        | _ => None
        end
      else None
  end.

Definition parse_f64_number (negative : bool) (s : string) : option f64 :=
  let '(whole, nwhole, rest) := take_digits 0 0 s in
  let '(mantissa, n, rest) :=
    match rest with
    | String "." rest => take_digits whole nwhole rest
    | _ => (whole, nwhole, rest)
    end in
  if n =? 0 then None
  else exponent ← take_exponent rest;
       Some (f64_of_decimal negative mantissa n (exponent - (n - nwhole))).

Definition parse_f64 (s : string) : option f64 :=
  let '(negative, s) := take_sign s in
  match s with
  | EmptyString => None
  | _ =>
      match parse_f64_number negative s with
      | Some x => Some x
      | None =>
          if eq_ignore_ascii_case s "nan" then Some S754_nan
          else if eq_ignore_ascii_case s "inf" || eq_ignore_ascii_case s "infinity"
               then Some (S754_infinity negative) else None
      end
  end.

Example text_ex :
  utrim (String "194" (String "160" " a b ")) = "a b"
  /\ utrim (append "x" (String "227" (String "128" (String "128" EmptyString)))) = "x"
  /\ first_word "  2024.14.5 abc" = Some "2024.14.5" /\ first_word "  " = None
  /\ chars_count (String "195" (String "169" "a")) = 2
  /\ to_lowercase "WiFi_Wait" = "wifi_wait" /\ to_uppercase "p74d" = "P74D"
  /\ remove_char " " "model 3" = "model3".
Proof. vm_compute. repeat split. Qed.

Example parse_f64_ex :
  parse_f64 "-12.5" = Some (f64_of_ratio true 125 10) /\ parse_f64 "1e3" = Some (f64_of_Z 1000)
  /\ parse_f64 ".5E-1" = Some (f64_of_ratio false 5 100) /\ parse_f64 "." = None /\ parse_f64 "" = None
  /\ parse_f64 "+" = None /\ parse_f64 "1e" = None /\ parse_f64 "1 " = None
  /\ parse_f64 "-Infinity" = Some (S754_infinity true) /\ parse_f64 "1e999" = Some (S754_infinity false)
  /\ parse_f64 "3." = Some (f64_of_Z 3) /\ parse_f64 "NaN" = Some S754_nan.
Proof. vm_compute. repeat split. Qed.

(** ** Lemmas *)

Lemma strip_white_idem two three s : strip_white two three (strip_white two three s) = strip_white two three s.
Proof.
  assert (H : forall n s, (String.length s <= n)%nat ->
                strip_white two three (strip_white two three s) = strip_white two three s).
  { induction n as [|n IH]; intros [|a s1] Hn; try done; [simpl in Hn; lia|]. simpl in Hn.
    cbn [strip_white]. destruct (is_ascii_white_space a) eqn:Ha; [apply IH; lia|].
    destruct s1 as [|b s2]; [cbn [strip_white]; by rewrite Ha|]. simpl in Hn.
    destruct (two a b) eqn:Hb; [apply IH; lia|].
    destruct s2 as [|c s3]; [cbn [strip_white]; by rewrite Ha, Hb|]. simpl in Hn.
    destruct (three a b c) eqn:Hc; [apply IH; lia|]. cbn [strip_white]. by rewrite Ha, Hb, Hc. }
  by eapply H.
Qed.
