(* ===== verification/LifeData.v ===== *)
(** * Rules of the drive and charge lifecycle that intake shares

    The plausible sample times and the enum names of [src/src/runtime/lifecycle]:
    one rule for every source of a fact. *)
From S2P Require Import Prelude RustStr F64 External Text.
Local Open Scope string_scope.
Local Open Scope Z_scope.

Definition K_EARLIEST_MS : Z := 1325376000000.
Definition K_SKEW_MS : Z := 60000.

Definition CANONICAL_ENUM_NAMES : list string :=
  ["P"; "R"; "N"; "D"; "Charging"; "Starting"; "Stopped"; "NoPower"; "Complete";
   "Disconnected"; "Unknown"; "Invalid"; "SNA"].

Definition ENUM_TYPE_PREFIXES : list string := ["DetailedChargeState"; "ChargeState"; "ShiftState"].

(** The [for] loop of [normalise_enum_text]: strip the first prefix that matches. *)
Fixpoint strip_type_prefix (prefixes : list string) (rest : string) : string :=
  match prefixes with
  | [] => rest
  | prefix :: prefixes =>
      match str_split_at (String.length prefix) rest with
      | Some (head, tail) =>
          if eq_ignore_ascii_case head prefix then tail else strip_type_prefix prefixes rest
      | None => strip_type_prefix prefixes rest
      end
  end.


Definition normalise_enum_text (text : string) : option string :=
  let rest := strip_type_prefix ENUM_TYPE_PREFIXES (utrim text) in
  find_first (fun name => eq_ignore_ascii_case name rest) CANONICAL_ENUM_NAMES.

Example normalise_ex :
  normalise_enum_text " shiftstateD " = Some "D" /\
  normalise_enum_text "DetailedChargeStateCharging" = Some "Charging" /\
  normalise_enum_text "sna" = Some "SNA" /\ normalise_enum_text "B" = None.
Proof. vm_compute. repeat split. Qed.

(** ** The drive and charge lifecycle: data

    The rows the Hub stores ([src/src/sync/hub_pack/model.rs]), the open-session
    state that survives a restart ([src/src/runtime/lifecycle/models.rs]) and the
    parsed observation ([projection.rs]), field by field.  A field keeps the
    source's name after a prefix of its struct. *)

(** ** Rows *)

Inductive GeofenceBillingType := PerKwh | PerMinute.

Record ProjectionDrive := MkProjectionDrive {
  pd_id : Z;
  pd_car_id : Z;
  pd_optimized_at_ms : option Z;
  pd_start_date_ms : Z;
  pd_end_date_ms : Z;
  pd_distance_km : option f64;
  pd_duration_min : option Z;
  pd_efficiency : option f64;
  pd_outside_temp_avg : option f64;
  pd_inside_temp_avg : option f64;
  pd_speed_max : option Z;
  pd_power_max : option f64;
  pd_power_min : option f64;
  pd_start_ideal_range_km : option f64;
  pd_end_ideal_range_km : option f64;
  pd_start_address : option string;
  pd_end_address : option string;
  pd_start_geofence : option string;
  pd_end_geofence : option string;
  pd_start_latitude : option f64;
  pd_start_longitude : option f64;
  pd_end_latitude : option f64;
  pd_end_longitude : option f64;
  pd_start_soc : option Z;
  pd_end_soc : option Z;
  pd_start_rated_range_km : option f64;
  pd_end_rated_range_km : option f64;
  pd_ascent : option Z;
  pd_descent : option Z;
}.
#[export] Instance eta_ProjectionDrive : Eta ProjectionDrive := fun r =>
  MkProjectionDrive (pd_id r) (pd_car_id r) (pd_optimized_at_ms r) (pd_start_date_ms r) (pd_end_date_ms r)
  (pd_distance_km r) (pd_duration_min r) (pd_efficiency r) (pd_outside_temp_avg r) (pd_inside_temp_avg r)
  (pd_speed_max r) (pd_power_max r) (pd_power_min r) (pd_start_ideal_range_km r) (pd_end_ideal_range_km r)
  (pd_start_address r) (pd_end_address r) (pd_start_geofence r) (pd_end_geofence r) (pd_start_latitude r)
  (pd_start_longitude r) (pd_end_latitude r) (pd_end_longitude r) (pd_start_soc r) (pd_end_soc r)
  (pd_start_rated_range_km r) (pd_end_rated_range_km r) (pd_ascent r) (pd_descent r).

Record ProjectionPosition := MkProjectionPosition {
  pp_id : Z;
  pp_drive_id : option Z;
  pp_car_id : Z;
  pp_date_ms : Z;
  pp_latitude : f64;
  pp_longitude : f64;
  pp_speed : option Z;
  pp_power : option f64;
  pp_battery_level : option Z;
  pp_usable_battery_level : option Z;
  pp_elevation : option Z;
  pp_odometer : option f64;
  pp_ideal_battery_range_km : option f64;
  pp_est_battery_range_km : option f64;
  pp_rated_battery_range_km : option f64;
  pp_fan_status : option Z;
  pp_driver_temp_setting : option f64;
  pp_passenger_temp_setting : option f64;
  pp_is_climate_on : option bool;
  pp_is_rear_defroster_on : option bool;
  pp_is_front_defroster_on : option bool;
  pp_inside_temp : option f64;
  pp_outside_temp : option f64;
  pp_battery_heater : option bool;
  pp_battery_heater_on : option bool;
  pp_battery_heater_no_power : option bool;
  pp_tpms_pressure_fl : option f64;
  pp_tpms_pressure_fr : option f64;
  pp_tpms_pressure_rl : option f64;
  pp_tpms_pressure_rr : option f64;
}.
#[export] Instance eta_ProjectionPosition : Eta ProjectionPosition := fun r =>
  MkProjectionPosition (pp_id r) (pp_drive_id r) (pp_car_id r) (pp_date_ms r) (pp_latitude r) (pp_longitude r)
  (pp_speed r) (pp_power r) (pp_battery_level r) (pp_usable_battery_level r) (pp_elevation r) (pp_odometer r)
  (pp_ideal_battery_range_km r) (pp_est_battery_range_km r) (pp_rated_battery_range_km r) (pp_fan_status r)
  (pp_driver_temp_setting r) (pp_passenger_temp_setting r) (pp_is_climate_on r) (pp_is_rear_defroster_on r)
  (pp_is_front_defroster_on r) (pp_inside_temp r) (pp_outside_temp r) (pp_battery_heater r)
  (pp_battery_heater_on r) (pp_battery_heater_no_power r) (pp_tpms_pressure_fl r) (pp_tpms_pressure_fr r)
  (pp_tpms_pressure_rl r) (pp_tpms_pressure_rr r).

Record ProjectionCharge := MkProjectionCharge {
  pc_id : Z;
  pc_car_id : Z;
  pc_start_date_ms : Z;
  pc_end_date_ms : option Z;
  pc_charge_energy_added : option f64;
  pc_charge_energy_used_kwh : option f64;
  pc_start_ideal_range_km : option f64;
  pc_end_ideal_range_km : option f64;
  pc_cost : option f64;
  pc_fast_charger_type : option string;
  pc_billing_type : option GeofenceBillingType;
  pc_cost_per_unit : option f64;
  pc_session_fee : option f64;
  pc_start_latitude : option f64;
  pc_start_longitude : option f64;
  pc_start_battery_level : option Z;
  pc_end_battery_level : option Z;
  pc_duration_min : option Z;
  pc_address : option string;
  pc_location_name : option string;
  pc_geofence : option string;
  pc_is_dc : option bool;
  pc_charge_rate_km_per_hour : option f64;
  pc_max_charger_power_kw : option f64;
  pc_outside_temp_avg : option f64;
  pc_start_rated_range_km : option f64;
  pc_end_rated_range_km : option f64;
}.
#[export] Instance eta_ProjectionCharge : Eta ProjectionCharge := fun r =>
  MkProjectionCharge (pc_id r) (pc_car_id r) (pc_start_date_ms r) (pc_end_date_ms r) (pc_charge_energy_added r)
  (pc_charge_energy_used_kwh r) (pc_start_ideal_range_km r) (pc_end_ideal_range_km r) (pc_cost r)
  (pc_fast_charger_type r) (pc_billing_type r) (pc_cost_per_unit r) (pc_session_fee r) (pc_start_latitude r)
  (pc_start_longitude r) (pc_start_battery_level r) (pc_end_battery_level r) (pc_duration_min r) (pc_address r)
  (pc_location_name r) (pc_geofence r) (pc_is_dc r) (pc_charge_rate_km_per_hour r) (pc_max_charger_power_kw r)
  (pc_outside_temp_avg r) (pc_start_rated_range_km r) (pc_end_rated_range_km r).

Record ProjectionChargeSample := MkProjectionChargeSample {
  ps_id : Z;
  ps_charge_process_id : Z;
  ps_timestamp_ms : Z;
  ps_battery_level : option Z;
  ps_usable_battery_level : option Z;
  ps_charge_energy_added_kwh : option f64;
  ps_charger_power_kw : option f64;
  ps_charger_voltage : option f64;
  ps_charger_actual_current : option f64;
  ps_charger_pilot_current : option f64;
  ps_charger_phases : option Z;
  ps_ideal_range_km : option f64;
  ps_rated_range_km : option f64;
  ps_outside_temp_c : option f64;
  ps_battery_heater_on : option bool;
  ps_battery_heater : option bool;
  ps_battery_heater_no_power : option bool;
  ps_not_enough_power_to_heat : option bool;
  ps_fast_charger_present : option bool;
  ps_fast_charger_brand : option string;
  ps_fast_charger_type : option string;
  ps_charge_cable : option string;
}.
#[export] Instance eta_ProjectionChargeSample : Eta ProjectionChargeSample := fun r =>
  MkProjectionChargeSample (ps_id r) (ps_charge_process_id r) (ps_timestamp_ms r) (ps_battery_level r)
  (ps_usable_battery_level r) (ps_charge_energy_added_kwh r) (ps_charger_power_kw r) (ps_charger_voltage r)
  (ps_charger_actual_current r) (ps_charger_pilot_current r) (ps_charger_phases r) (ps_ideal_range_km r)
  (ps_rated_range_km r) (ps_outside_temp_c r) (ps_battery_heater_on r) (ps_battery_heater r)
  (ps_battery_heater_no_power r) (ps_not_enough_power_to_heat r) (ps_fast_charger_present r)
  (ps_fast_charger_brand r) (ps_fast_charger_type r) (ps_charge_cable r).

Record ProjectionState := MkProjectionState {
  pst_id : Z;
  pst_car_id : Z;
  pst_state : string;
  pst_start_date_ms : Z;
  pst_end_date_ms : option Z;
}.
#[export] Instance eta_ProjectionState : Eta ProjectionState := fun r =>
  MkProjectionState (pst_id r) (pst_car_id r) (pst_state r) (pst_start_date_ms r) (pst_end_date_ms r).

Record ProjectionUpdate := MkProjectionUpdate {
  pu_id : Z;
  pu_car_id : Z;
  pu_start_date_ms : Z;
  pu_end_date_ms : Z;
  pu_version : string;
}.
#[export] Instance eta_ProjectionUpdate : Eta ProjectionUpdate := fun r =>
  MkProjectionUpdate (pu_id r) (pu_car_id r) (pu_start_date_ms r) (pu_end_date_ms r) (pu_version r).

Record ProjectionCarPatch := MkProjectionCarPatch {
  cp_name : option string;
  cp_model : option string;
  cp_vin : option string;
  cp_trim_badging : option string;
  cp_marketing_name : option string;
  cp_exterior_color : option string;
  cp_wheel_type : option string;
  cp_spoiler_type : option string;
  cp_firmware_version : option string;
}.
#[export] Instance eta_ProjectionCarPatch : Eta ProjectionCarPatch := fun r =>
  MkProjectionCarPatch (cp_name r) (cp_model r) (cp_vin r) (cp_trim_badging r) (cp_marketing_name r)
  (cp_exterior_color r) (cp_wheel_type r) (cp_spoiler_type r) (cp_firmware_version r).

(** ** Open sessions *)

Inductive VehiclePhase := VpUnknown | VpOnline | VpAsleep | VpOffline | VpSuspended | VpDriving | VpCharging | VpUpdating.
#[export] Instance VehiclePhase_eq_dec : EqDecision VehiclePhase.
Proof. solve_decision. Defined.

Record ParkedSnapshot := MkParkedSnapshot {
  sn_at_ms : option Z;
  sn_seen_at_ms : Z;
  sn_battery_level : option Z;
  sn_ideal_range_km : option f64;
  sn_rated_range_km : option f64;
  sn_odometer_km : option f64;
  sn_odometer_coarse : bool;
  sn_latitude : option f64;
  sn_longitude : option f64;
  sn_energy_added_kwh : option f64;
  sn_after_drive : bool;
  sn_unplugged : bool;
}.
#[export] Instance eta_ParkedSnapshot : Eta ParkedSnapshot := fun r =>
  MkParkedSnapshot (sn_at_ms r) (sn_seen_at_ms r) (sn_battery_level r) (sn_ideal_range_km r)
  (sn_rated_range_km r) (sn_odometer_km r) (sn_odometer_coarse r) (sn_latitude r) (sn_longitude r)
  (sn_energy_added_kwh r) (sn_after_drive r) (sn_unplugged r).

Record ImportedOpenSessionRefs := MkImportedOpenSessionRefs {
  io_source_id : string;
  io_content_sha256 : string;
  io_drive_source_row_id : option Z;
  io_drive_position_count : Z;
  io_charge_source_row_id : option Z;
  io_charge_sample_count : Z;
  io_state_source_row_id : option Z;
  io_standalone_position_count : Z;
}.
#[export] Instance eta_ImportedOpenSessionRefs : Eta ImportedOpenSessionRefs := fun r =>
  MkImportedOpenSessionRefs (io_source_id r) (io_content_sha256 r) (io_drive_source_row_id r)
  (io_drive_position_count r) (io_charge_source_row_id r) (io_charge_sample_count r) (io_state_source_row_id r)
  (io_standalone_position_count r).

Record OpenState := MkOpenState {
  st_id : Z;
  st_car_id : Z;
  st_state : string;
  st_start_date_ms : Z;
}.
#[export] Instance eta_OpenState : Eta OpenState := fun r =>
  MkOpenState (st_id r) (st_car_id r) (st_state r) (st_start_date_ms r).

Record OpenUpdate := MkOpenUpdate {
  up_id : Z;
  up_car_id : Z;
  up_start_date_ms : Z;
}.
#[export] Instance eta_OpenUpdate : Eta OpenUpdate := fun r =>
  MkOpenUpdate (up_id r) (up_car_id r) (up_start_date_ms r).

Record GainedRangeChargeSeed := MkGainedRangeChargeSeed {
  gs_start_date_ms : Z;
  gs_start_battery_level : option Z;
  gs_start_ideal_range_km : option f64;
  gs_start_rated_range_km : option f64;
  gs_start_latitude : option f64;
  gs_start_longitude : option f64;
  gs_first_energy_added : f64;
}.
#[export] Instance eta_GainedRangeChargeSeed : Eta GainedRangeChargeSeed := fun r =>
  MkGainedRangeChargeSeed (gs_start_date_ms r) (gs_start_battery_level r) (gs_start_ideal_range_km r)
  (gs_start_rated_range_km r) (gs_start_latitude r) (gs_start_longitude r) (gs_first_energy_added r).

Record OpenCharge := MkOpenCharge {
  oc_id : Z;
  oc_car_id : Z;
  oc_start_date_ms : Z;
  oc_start_battery_level : option Z;
  oc_start_ideal_range_km : option f64;
  oc_start_rated_range_km : option f64;
  oc_start_latitude : option f64;
  oc_start_longitude : option f64;
  oc_is_dc : option bool;
  oc_fast_charger_type : option string;
  oc_max_charger_power_kw : option f64;
  oc_outside_temp_sum : f64;
  oc_outside_temp_count : Z;
  oc_first_energy_added : option f64;
  oc_max_energy_added : option f64;
  oc_last_energy_added : option f64;
  oc_last_battery_level : option Z;
  oc_last_ideal_range_km : option f64;
  oc_last_rated_range_km : option f64;
  oc_sample_count : Z;
  oc_energy_used_kwh : option f64;
  oc_last_sample_timestamp_ms : option Z;
  oc_last_sample_power_kw : option f64;
  oc_energy_added_carry_kwh : f64;
  oc_prev_energy_added_kwh : option f64;
  oc_ratio_used_kwh : f64;
  oc_ratio_added_kwh : f64;
  oc_fully_powered : bool;
  oc_pre_sample_kwh : option f64;
  oc_phase_count : option Z;
  oc_last_odometer_km : option f64;
  oc_last_odometer_coarse : option bool;
  oc_samples : list ProjectionChargeSample;
}.
#[export] Instance eta_OpenCharge : Eta OpenCharge := fun r =>
  MkOpenCharge (oc_id r) (oc_car_id r) (oc_start_date_ms r) (oc_start_battery_level r)
  (oc_start_ideal_range_km r) (oc_start_rated_range_km r) (oc_start_latitude r) (oc_start_longitude r)
  (oc_is_dc r) (oc_fast_charger_type r) (oc_max_charger_power_kw r) (oc_outside_temp_sum r)
  (oc_outside_temp_count r) (oc_first_energy_added r) (oc_max_energy_added r) (oc_last_energy_added r)
  (oc_last_battery_level r) (oc_last_ideal_range_km r) (oc_last_rated_range_km r) (oc_sample_count r)
  (oc_energy_used_kwh r) (oc_last_sample_timestamp_ms r) (oc_last_sample_power_kw r)
  (oc_energy_added_carry_kwh r) (oc_prev_energy_added_kwh r) (oc_ratio_used_kwh r) (oc_ratio_added_kwh r)
  (oc_fully_powered r) (oc_pre_sample_kwh r) (oc_phase_count r) (oc_last_odometer_km r)
  (oc_last_odometer_coarse r) (oc_samples r).

(** An open drive holds copies of itself: its still checkpoint and its lead
    checkpoints. *)
Inductive OpenDrive := MkOpenDrive {
  od_id : Z;
  od_car_id : Z;
  od_start_date_ms : Z;
  od_start_latitude : option f64;
  od_start_longitude : option f64;
  od_start_soc : option Z;
  od_start_rated_range_km : option f64;
  od_speed_max : option Z;
  od_outside_temp_sum : f64;
  od_outside_temp_count : Z;
  od_position_count : Z;
  od_last_position_date_ms : option Z;
  od_last_latitude : option f64;
  od_last_longitude : option f64;
  od_last_soc : option Z;
  od_last_rated_range_km : option f64;
  od_last_odometer : option f64;
  od_first_odometer : option f64;
  od_power_max : option f64;
  od_power_min : option f64;
  od_inside_temp_sum : f64;
  od_inside_temp_count : Z;
  od_start_ideal_range_km : option f64;
  od_end_ideal_range_km : option f64;
  od_elevation_ascent : Z;
  od_elevation_descent : Z;
  od_last_elevation : option Z;
  od_saw_offline : bool;
  od_last_charge_energy_added : option f64;
  od_last_ideal_range_km : option f64;
  od_last_folded_at_ms : option Z;
  od_last_motion_at_ms : option Z;
  od_max_displacement_m : f64;
  od_elevation_count : Z;
  od_odometer_coarse : bool;
  od_still_checkpoint : option OpenDrive;
  od_lead_checkpoints : list LeadCheckpoint;
  od_positions : list ProjectionPosition;
}
with LeadCheckpoint := MkLeadCheckpoint {
  lc_cut_ms : Z;
  lc_drive : OpenDrive;
}.
#[export] Instance eta_OpenDrive : Eta OpenDrive := fun r =>
  MkOpenDrive (od_id r) (od_car_id r) (od_start_date_ms r) (od_start_latitude r) (od_start_longitude r)
  (od_start_soc r) (od_start_rated_range_km r) (od_speed_max r) (od_outside_temp_sum r)
  (od_outside_temp_count r) (od_position_count r) (od_last_position_date_ms r) (od_last_latitude r)
  (od_last_longitude r) (od_last_soc r) (od_last_rated_range_km r) (od_last_odometer r) (od_first_odometer r)
  (od_power_max r) (od_power_min r) (od_inside_temp_sum r) (od_inside_temp_count r) (od_start_ideal_range_km r)
  (od_end_ideal_range_km r) (od_elevation_ascent r) (od_elevation_descent r) (od_last_elevation r)
  (od_saw_offline r) (od_last_charge_energy_added r) (od_last_ideal_range_km r) (od_last_folded_at_ms r)
  (od_last_motion_at_ms r) (od_max_displacement_m r) (od_elevation_count r) (od_odometer_coarse r)
  (od_still_checkpoint r) (od_lead_checkpoints r) (od_positions r).
#[export] Instance eta_LeadCheckpoint : Eta LeadCheckpoint := fun r =>
  MkLeadCheckpoint (lc_cut_ms r) (lc_drive r).

Record OpenSessionState := MkOpenSessionState {
  os_version : Z;
  os_last_observation_id : Z;
  os_id_cursors_seeded : bool;
  os_last_observed_at_ms : option Z;
  os_last_drive_timestamp_ms : option Z;
  os_last_charge_timestamp_ms : option Z;
  os_last_vehicle_timestamp_ms : option Z;
  os_imported_drive_watermark_ms : option Z;
  os_imported_charge_watermark_ms : option Z;
  os_imported_state_watermark_ms : option Z;
  os_next_drive_id : Z;
  os_next_position_id : Z;
  os_next_charge_id : Z;
  os_next_charge_sample_id : Z;
  os_next_state_id : Z;
  os_next_update_id : Z;
  os_last_stationary_position_at_ms : option Z;
  os_phase : VehiclePhase;
  os_open_drive : option OpenDrive;
  os_pending_gained_range_charge : option GainedRangeChargeSeed;
  os_open_charge : option OpenCharge;
  os_open_state : option OpenState;
  os_open_update : option OpenUpdate;
  os_imported_open : option ImportedOpenSessionRefs;
  os_service_mode : option bool;
  os_car_metadata : option ProjectionCarPatch;
  os_last_position_battery_heater : option bool;
  os_last_position_battery_heater_on : option bool;
  os_last_position_battery_heater_no_power : option bool;
  os_last_position_est_battery_range_km : option f64;
  os_last_position_fan_status : option Z;
  os_last_position_driver_temp_setting : option f64;
  os_last_position_passenger_temp_setting : option f64;
  os_last_position_is_rear_defroster_on : option bool;
  os_last_position_is_front_defroster_on : option bool;
  os_last_position_tpms_pressure_fl : option f64;
  os_last_position_tpms_pressure_fr : option f64;
  os_last_position_tpms_pressure_rl : option f64;
  os_last_position_tpms_pressure_rr : option f64;
  os_parked_snapshot : option ParkedSnapshot;
  os_last_car_version : option string;
  os_last_car_version_at_ms : option Z;
  os_last_standalone_latitude : option f64;
  os_last_standalone_longitude : option f64;
  os_last_reach : option string;
  os_last_position_fact_ms : option Z;
  os_last_battery_fact_ms : option Z;
  os_last_climate_fact_ms : option Z;
  os_last_odometer_fact_ms : option Z;
  os_service_mode_refused : bool;
}.
#[export] Instance eta_OpenSessionState : Eta OpenSessionState := fun r =>
  MkOpenSessionState (os_version r) (os_last_observation_id r) (os_id_cursors_seeded r)
  (os_last_observed_at_ms r) (os_last_drive_timestamp_ms r) (os_last_charge_timestamp_ms r)
  (os_last_vehicle_timestamp_ms r) (os_imported_drive_watermark_ms r) (os_imported_charge_watermark_ms r)
  (os_imported_state_watermark_ms r) (os_next_drive_id r) (os_next_position_id r) (os_next_charge_id r)
  (os_next_charge_sample_id r) (os_next_state_id r) (os_next_update_id r) (os_last_stationary_position_at_ms r)
  (os_phase r) (os_open_drive r) (os_pending_gained_range_charge r) (os_open_charge r) (os_open_state r)
  (os_open_update r) (os_imported_open r) (os_service_mode r) (os_car_metadata r)
  (os_last_position_battery_heater r) (os_last_position_battery_heater_on r)
  (os_last_position_battery_heater_no_power r) (os_last_position_est_battery_range_km r)
  (os_last_position_fan_status r) (os_last_position_driver_temp_setting r)
  (os_last_position_passenger_temp_setting r) (os_last_position_is_rear_defroster_on r)
  (os_last_position_is_front_defroster_on r) (os_last_position_tpms_pressure_fl r)
  (os_last_position_tpms_pressure_fr r) (os_last_position_tpms_pressure_rl r)
  (os_last_position_tpms_pressure_rr r) (os_parked_snapshot r) (os_last_car_version r)
  (os_last_car_version_at_ms r) (os_last_standalone_latitude r) (os_last_standalone_longitude r)
  (os_last_reach r) (os_last_position_fact_ms r) (os_last_battery_fact_ms r) (os_last_climate_fact_ms r)
  (os_last_odometer_fact_ms r) (os_service_mode_refused r).

Record LifecycleDelta := MkLifecycleDelta {
  d_drives : list ProjectionDrive;
  d_discarded_drive_ids : list Z;
  d_positions : list ProjectionPosition;
  d_charges : list ProjectionCharge;
  d_charge_samples : list ProjectionChargeSample;
  d_states : list ProjectionState;
  d_updates : list ProjectionUpdate;
  d_charge_start_coordinates : list (Z * f64 * f64);
  d_open_drive_positions : list ProjectionPosition;
  d_open_charge_samples : list ProjectionChargeSample;
}.
#[export] Instance eta_LifecycleDelta : Eta LifecycleDelta := fun r =>
  MkLifecycleDelta (d_drives r) (d_discarded_drive_ids r) (d_positions r) (d_charges r) (d_charge_samples r)
  (d_states r) (d_updates r) (d_charge_start_coordinates r) (d_open_drive_positions r)
  (d_open_charge_samples r).

(** ** Observations *)

Inductive SourceKind := Full | Sparse | Stream | Discovery | HubEvent | UnknownKind.
#[export] Instance SourceKind_eq_dec : EqDecision SourceKind.
Proof. solve_decision. Defined.

Inductive HubEventKind := NoData | ServiceRefused.
#[export] Instance HubEventKind_eq_dec : EqDecision HubEventKind.
Proof. solve_decision. Defined.

Record Families := MkFamilies {
  fa_motion : bool;
  fa_position : bool;
  fa_battery : bool;
  fa_charge_session : bool;
  fa_climate : bool;
  fa_odometer : bool;
  fa_vehicle_status : bool;
}.
#[export] Instance eta_Families : Eta Families := fun r =>
  MkFamilies (fa_motion r) (fa_position r) (fa_battery r) (fa_charge_session r) (fa_climate r) (fa_odometer r)
  (fa_vehicle_status r).

Record ParsedSample := MkParsedSample {
  p_kind : SourceKind;
  p_hub_event : option HubEventKind;
  p_provider_feed : option string;
  p_observed_at_ms : Z;
  p_drive_timestamp_ms : Z;
  p_charge_timestamp_ms : Z;
  p_climate_timestamp_ms : Z;
  p_vehicle_timestamp_ms : Z;
  p_carried : Families;
  p_vehicle_state_present : bool;
  p_service_mode : option bool;
  p_car_version : option string;
  p_car_metadata : option ProjectionCarPatch;
  p_shift_state : option string;
  p_shift_state_key_present : bool;
  p_stream_frame : bool;
  p_drive_data_present : bool;
  p_speed : option Z;
  p_latitude : option f64;
  p_longitude : option f64;
  p_power : option f64;
  p_battery_level : option Z;
  p_usable_battery_level : option Z;
  p_rated_range_km : option f64;
  p_ideal_range_km : option f64;
  p_est_range_km : option f64;
  p_odometer : option f64;
  p_elevation : option Z;
  p_is_climate_on : option bool;
  p_inside_temp : option f64;
  p_outside_temp : option f64;
  p_fan_status : option Z;
  p_driver_temp_setting : option f64;
  p_passenger_temp_setting : option f64;
  p_is_rear_defroster_on : option bool;
  p_is_front_defroster_on : option bool;
  p_tpms_pressure_fl : option f64;
  p_tpms_pressure_fr : option f64;
  p_tpms_pressure_rl : option f64;
  p_tpms_pressure_rr : option f64;
  p_charging_state : option string;
  p_software_update_status : option string;
  p_charge_data_present : bool;
  p_charge_energy_added : option f64;
  p_charger_power_kw : option f64;
  p_charger_voltage : option f64;
  p_charger_actual_current : option f64;
  p_charger_pilot_current : option f64;
  p_charger_phases : option Z;
  p_fast_charger_present : option bool;
  p_fast_charger_brand : option string;
  p_fast_charger_type : option string;
  p_charge_cable : option string;
  p_battery_heater_on : option bool;
  p_battery_heater : option bool;
  p_battery_heater_no_power : option bool;
  p_not_enough_power_to_heat : option bool;
}.
#[export] Instance eta_ParsedSample : Eta ParsedSample := fun r =>
  MkParsedSample (p_kind r) (p_hub_event r) (p_provider_feed r) (p_observed_at_ms r) (p_drive_timestamp_ms r)
  (p_charge_timestamp_ms r) (p_climate_timestamp_ms r) (p_vehicle_timestamp_ms r) (p_carried r)
  (p_vehicle_state_present r) (p_service_mode r) (p_car_version r) (p_car_metadata r) (p_shift_state r)
  (p_shift_state_key_present r) (p_stream_frame r) (p_drive_data_present r) (p_speed r) (p_latitude r)
  (p_longitude r) (p_power r) (p_battery_level r) (p_usable_battery_level r) (p_rated_range_km r)
  (p_ideal_range_km r) (p_est_range_km r) (p_odometer r) (p_elevation r) (p_is_climate_on r) (p_inside_temp r)
  (p_outside_temp r) (p_fan_status r) (p_driver_temp_setting r) (p_passenger_temp_setting r)
  (p_is_rear_defroster_on r) (p_is_front_defroster_on r) (p_tpms_pressure_fl r) (p_tpms_pressure_fr r)
  (p_tpms_pressure_rl r) (p_tpms_pressure_rr r) (p_charging_state r) (p_software_update_status r)
  (p_charge_data_present r) (p_charge_energy_added r) (p_charger_power_kw r) (p_charger_voltage r)
  (p_charger_actual_current r) (p_charger_pilot_current r) (p_charger_phases r) (p_fast_charger_present r)
  (p_fast_charger_brand r) (p_fast_charger_type r) (p_charge_cable r) (p_battery_heater_on r)
  (p_battery_heater r) (p_battery_heater_no_power r) (p_not_enough_power_to_heat r).

(** What an observation says about driving and charging, the update status and
    the reachability. *)
Inductive DriveEvidence := Motion | Park | NoInfo.
#[export] Instance DriveEvidence_eq_dec : EqDecision DriveEvidence.
Proof. solve_decision. Defined.

Inductive ChargeEvidence := Active | Hold | Complete | Disconnected | NoCharge.
#[export] Instance ChargeEvidence_eq_dec : EqDecision ChargeEvidence.
Proof. solve_decision. Defined.

Inductive UpdateStatusClass := Installing | Offered | Idle | NoStatus.
#[export] Instance UpdateStatusClass_eq_dec : EqDecision UpdateStatusClass.
Proof. solve_decision. Defined.

Inductive Reach := ROnline | RAsleep | ROffline.
#[export] Instance Reach_eq_dec : EqDecision Reach.
Proof. solve_decision. Defined.

Inductive Movement := Moved | Unmoved | UnknownMovement.
#[export] Instance Movement_eq_dec : EqDecision Movement.
Proof. solve_decision. Defined.

Record DrivePoint := MkDrivePoint {
  dp_at_ms : Z;
  dp_coordinates : option ((f64 * f64));
  dp_speed : option Z;
  dp_power : option f64;
  dp_battery_level : option Z;
  dp_ideal_range_km : option f64;
  dp_rated_range_km : option f64;
  dp_odometer_km : option f64;
  dp_odometer_coarse : bool;
  dp_outside_temp : option f64;
  dp_inside_temp : option f64;
  dp_charge_energy_added : option f64;
  dp_evidence : DriveEvidence;
}.
#[export] Instance eta_DrivePoint : Eta DrivePoint := fun r =>
  MkDrivePoint (dp_at_ms r) (dp_coordinates r) (dp_speed r) (dp_power r) (dp_battery_level r)
  (dp_ideal_range_km r) (dp_rated_range_km r) (dp_odometer_km r) (dp_odometer_coarse r) (dp_outside_temp r)
  (dp_inside_temp r) (dp_charge_energy_added r) (dp_evidence r).

Record LifecycleSample := MkLifecycleSample {
  ls_observation_id : Z;
  ls_observed_at_ms : Z;
  ls_vehicle_state : string;
  ls_payload : json;
}.
#[export] Instance eta_LifecycleSample : Eta LifecycleSample := fun r =>
  MkLifecycleSample (ls_observation_id r) (ls_observed_at_ms r) (ls_vehicle_state r) (ls_payload r).

Record LifecycleStep := MkLifecycleStep {
  step_state : OpenSessionState;
  step_delta : LifecycleDelta;
  step_quarantined : bool;
}.
#[export] Instance eta_LifecycleStep : Eta LifecycleStep := fun r =>
  MkLifecycleStep (step_state r) (step_delta r) (step_quarantined r).

(** ** Charging *)

Inductive FastChargerKind := Supercharger | OtherDc | TeslaAc | NoInformation | Unrecognised.
#[export] Instance FastChargerKind_eq_dec : EqDecision FastChargerKind.
Proof. solve_decision. Defined.

Inductive SampleBrand := BrandTesla | BrandOther | NoBrand.
#[export] Instance SampleBrand_eq_dec : EqDecision SampleBrand.
Proof. solve_decision. Defined.

Record ChargeEnergyTotals := MkChargeEnergyTotals {
  et_added_kwh : option f64;
  et_used_kwh : option f64;
}.
#[export] Instance eta_ChargeEnergyTotals : Eta ChargeEnergyTotals := fun r =>
  MkChargeEnergyTotals (et_added_kwh r) (et_used_kwh r).

Record EfficiencyPoint := MkEfficiencyPoint {
  ep_level : Z;
  ep_counter_kwh : f64;
  ep_rated_km : f64;
}.
#[export] Instance eta_EfficiencyPoint : Eta EfficiencyPoint := fun r =>
  MkEfficiencyPoint (ep_level r) (ep_counter_kwh r) (ep_rated_km r).

Record EfficiencyFold := MkEfficiencyFold {
  ef_first : option EfficiencyPoint;
  ef_last : option EfficiencyPoint;
  ef_heater_seen : bool;
  ef_rejected : bool;
}.
#[export] Instance eta_EfficiencyFold : Eta EfficiencyFold := fun r =>
  MkEfficiencyFold (ef_first r) (ef_last r) (ef_heater_seen r) (ef_rejected r).

Record SamplePower := MkSamplePower {
  sp_power_kw : option f64;
  sp_phase_count : option Z;
}.
#[export] Instance eta_SamplePower : Eta SamplePower := fun r =>
  MkSamplePower (sp_power_kw r) (sp_phase_count r).

Record PhaseSet := MkPhaseSet {
  ph_one : bool;
  ph_two : bool;
  ph_three : bool;
}.
#[export] Instance eta_PhaseSet : Eta PhaseSet := fun r =>
  MkPhaseSet (ph_one r) (ph_two r) (ph_three r).

Record ChargeSessionKind := MkChargeSessionKind {
  ck_is_dc : option bool;
  ck_fast_charger_type : option string;
}.
#[export] Instance eta_ChargeSessionKind : Eta ChargeSessionKind := fun r =>
  MkChargeSessionKind (ck_is_dc r) (ck_fast_charger_type r).

Record ChargeDisplayAggregates := MkChargeDisplayAggregates {
  da_last_battery_level : option Z;
  da_last_ideal_range_km : option f64;
  da_last_rated_range_km : option f64;
  da_max_charger_power_kw : option f64;
  da_outside_temp_sum : f64;
  da_outside_temp_count : Z;
}.
#[export] Instance eta_ChargeDisplayAggregates : Eta ChargeDisplayAggregates := fun r =>
  MkChargeDisplayAggregates (da_last_battery_level r) (da_last_ideal_range_km r) (da_last_rated_range_km r)
  (da_max_charger_power_kw r) (da_outside_temp_sum r) (da_outside_temp_count r).

Record ChargeTariff := MkChargeTariff {
  ct_billing_type : GeofenceBillingType;
  ct_cost_per_unit : option f64;
  ct_session_fee : option f64;
}.
#[export] Instance eta_ChargeTariff : Eta ChargeTariff := fun r =>
  MkChargeTariff (ct_billing_type r) (ct_cost_per_unit r) (ct_session_fee r).

Record ChargeCostContext := MkChargeCostContext {
  cc_free_supercharging : bool;
  cc_brand_is_tesla : bool;
  cc_span_observed : bool;
}.
#[export] Instance eta_ChargeCostContext : Eta ChargeCostContext := fun r =>
  MkChargeCostContext (cc_free_supercharging r) (cc_brand_is_tesla r) (cc_span_observed r).

Record ChargeSampleFacts := MkChargeSampleFacts {
  sf_first : option (Z * Z);
  sf_previous : option (Z * Z);
  sf_last : option (Z * Z);
  sf_largest_counter : option f64;
  sf_tesla_brand : bool;
  sf_other_brand : bool;
}.
#[export] Instance eta_ChargeSampleFacts : Eta ChargeSampleFacts := fun r =>
  MkChargeSampleFacts (sf_first r) (sf_previous r) (sf_last r) (sf_largest_counter r) (sf_tesla_brand r)
  (sf_other_brand r).

Record ElevationWalk := MkElevationWalk {
  ew_reference_m : option Z;
  ew_count : Z;
  ew_ascent_m : Z;
  ew_descent_m : Z;
}.
#[export] Instance eta_ElevationWalk : Eta ElevationWalk := fun r =>
  MkElevationWalk (ew_reference_m r) (ew_count r) (ew_ascent_m r) (ew_descent_m r).

Record GeofenceFence := MkGeofenceFence {
  gf_source_geofence_id : Z;
  gf_name : string;
  gf_latitude : f64;
  gf_longitude : f64;
  gf_radius_m : f64;
  gf_billing_type : option GeofenceBillingType;
  gf_cost_per_unit : option f64;
  gf_session_fee : option f64;
}.
#[export] Instance eta_GeofenceFence : Eta GeofenceFence := fun r =>
  MkGeofenceFence (gf_source_geofence_id r) (gf_name r) (gf_latitude r) (gf_longitude r) (gf_radius_m r)
  (gf_billing_type r) (gf_cost_per_unit r) (gf_session_fee r).

Record IdFloors := MkIdFloors {
  if_drives : Z;
  if_positions : Z;
  if_charges : Z;
  if_charge_samples : Z;
  if_states : Z;
  if_updates : Z;
}.
#[export] Instance eta_IdFloors : Eta IdFloors := fun r =>
  MkIdFloors (if_drives r) (if_positions r) (if_charges r) (if_charge_samples r) (if_states r) (if_updates r).

Record AfterGapCharge := MkAfterGapCharge {
  ag_start_ms : Z;
  ag_unmoved : bool;
}.
#[export] Instance eta_AfterGapCharge : Eta AfterGapCharge := fun r =>
  MkAfterGapCharge (ag_start_ms r) (ag_unmoved r).

(** ** The [Default] values *)

Definition Families_default : Families :=
  MkFamilies false false false false false false false.

Definition ParsedSample_default : ParsedSample :=
  MkParsedSample UnknownKind None None 0 0 0 0 0 Families_default false None None None None false false false
  None None None None None None None None None None None None None None None None None None None None None None
  None None None false None None None None None None None None None None None None None None.

Definition OpenSessionState_default : OpenSessionState :=
  MkOpenSessionState 0 0 false None None None None None None None 0 0 0 0 0 0 None VpUnknown None None None
  None None None None None None None None None None None None None None None None None None None None None None
  None None None None None None false.

Definition LifecycleDelta_default : LifecycleDelta :=
  MkLifecycleDelta [] [] [] [] [] [] [] [] [] [].

Definition ProjectionCarPatch_default : ProjectionCarPatch :=
  MkProjectionCarPatch None None None None None None None None None.

Definition ParkedSnapshot_default : ParkedSnapshot :=
  MkParkedSnapshot None 0 None None None None false None None None false false.

Definition ChargeSessionKind_default : ChargeSessionKind :=
  MkChargeSessionKind None None.

Definition ChargeDisplayAggregates_default : ChargeDisplayAggregates :=
  MkChargeDisplayAggregates None None None None f64_zero 0.

Definition ChargeSampleFacts_default : ChargeSampleFacts :=
  MkChargeSampleFacts None None None None false false.

Definition ElevationWalk_default : ElevationWalk :=
  MkElevationWalk None 0 0 0.

(** ** Errors *)

Inductive LifecycleError :=
| LeInvalidCarId | LeInvalidOfflineDriveTimeout | LeInvalidPayload | LeInvalidCoordinates | LeInvalidTimeline
| LeIdentifierExhausted | LeSessionTooLarge (actual maximum : Z) | LeSessionEncode | LeSessionDecode
| LeUnsupportedSessionVersion (version : Z) | LeCorruptSession | LeInvalidImportedSession.
