(* ===== verification/Geo.v ===== *)
(** * Units, coordinates and geofences

    The decimal rounding and the unit conversions of
    [src/src/runtime/lifecycle/state_and_updates.rs], the points and the distance of
    [src/src/geo/location.rs], and the geofence rule of [lifecycle/models.rs]. *)
From S2P Require Import Prelude F64 LifeData.
From Stdlib Require Import SpecFloat.
Local Open Scope Z_scope.

(** ** Units *)

Definition K_MILE_KM : f64 := f64_lit 1609344 1000000.
Definition K_DMIN_KM : f64 := f64_lit 1 10.

(** [10f64.powi(precision)] is exact for the precisions in use (0 to 6). *)
Definition round_to_precision (value : f64) (precision : Z) : f64 :=
  let scale := f64_of_Z (10 ^ precision) in
  f64_div (f64_round (f64_mul value scale)) scale.
Definition miles_to_km (miles : f64) : f64 := f64_mul miles K_MILE_KM.
Definition miles_to_km_rounded (miles : f64) (precision : Z) : f64 := round_to_precision (miles_to_km miles) precision.
Definition mph_to_kmh (mph : f64) : Z := f64_as_i64 (f64_round (f64_mul mph K_MILE_KM)).

Definition finite_reading (value : option f64) : option f64 := opt_filter f64_is_finite value.

(** ** Coordinates *)

Definition MEAN_EARTH_RADIUS_M : f64 := f64_lit 63710088 10.

Record Wgs84Point := MkWgs84Point { w_latitude : f64; w_longitude : f64 }.
Inductive LocationError := InvalidLatitude | InvalidLongitude.

Definition latitude_ok (x : f64) : bool := f64_is_finite x && f64_contains (f64_of_Z (-90)) (f64_of_Z 90) x.
Definition longitude_ok (x : f64) : bool := f64_is_finite x && f64_contains (f64_of_Z (-180)) (f64_of_Z 180) x.

Definition wgs84_new (latitude longitude : f64) : result LocationError Wgs84Point :=
  if negb (latitude_ok latitude) then Err InvalidLatitude
  else if negb (longitude_ok longitude) then Err InvalidLongitude
  else Ok (MkWgs84Point latitude longitude).

Definition valid_coordinates (latitude longitude : option f64) : option (f64 * f64) :=
  match latitude, longitude with
  | Some la, Some lo =>
      then_some (f64_is_finite la && f64_is_finite lo && f64_contains (f64_of_Z (-90)) (f64_of_Z 90) la
                 && f64_contains (f64_of_Z (-180)) (f64_of_Z 180) lo) (la, lo)
  | _, _ => None
  end.

Definition great_circle_distance_m `{Libm} (a b : Wgs84Point) : f64 :=
  let phi_a := to_radians (w_latitude a) in
  let phi_b := to_radians (w_latitude b) in
  let delta_phi := to_radians (f64_sub (w_latitude b) (w_latitude a)) in
  let delta_lambda := to_radians (f64_sub (w_longitude b) (w_longitude a)) in
  let two := f64_of_Z 2 in
  let half_phi := f64_sin (f64_div delta_phi two) in
  let half_lambda := f64_sin (f64_div delta_lambda two) in
  let h := f64_clamp (f64_add (f64_mul half_phi half_phi)
             (f64_mul (f64_mul (f64_mul (f64_cos phi_a) (f64_cos phi_b)) half_lambda) half_lambda))
             f64_zero f64_one in
  f64_mul (f64_mul two MEAN_EARTH_RADIUS_M) (f64_asin (f64_sqrt h)).

(** The distance of two coordinate pairs, when both are points. *)
Definition distance_between `{Libm} (from to : f64 * f64) : option f64 :=
  match wgs84_new from.1 from.2, wgs84_new to.1 to.2 with
  | Ok a, Ok b => Some (great_circle_distance_m a b)
  | _, _ => None
  end.

(** ** The geofence rule *)

(** The comparison of two fences with their distances. *)
Definition fence_cmp (left right : GeofenceFence * f64) : comparison :=
  match f64_total_cmp (gf_radius_m left.1) (gf_radius_m right.1) with
  | Eq => match f64_total_cmp left.2 right.2 with
          | Eq => Z.compare (gf_source_geofence_id left.1) (gf_source_geofence_id right.1)
          | c => c
          end
  | c => c
  end.

(** [Iterator::min_by]: the first of the least elements. *)
Definition min_by {A} (cmp : A -> A -> comparison) (l : list A) : option A :=
  match l with
  | [] => None
  | x :: l => Some (fold_left (fun least y => match cmp least y with Gt => y | _ => least end) l x)
  end.

(** A fence that contains the point, with the distance to its centre. *)
Definition fence_contains `{Libm} (point : Wgs84Point) (fence : GeofenceFence) : option (GeofenceFence * f64) :=
  if f64_is_finite (gf_radius_m fence) && f64_ltb f64_zero (gf_radius_m fence) then
    centre ← result_ok (wgs84_new (gf_latitude fence) (gf_longitude fence));
    let distance := great_circle_distance_m point centre in
    then_some (f64_leb distance (gf_radius_m fence)) (fence, distance)
  else None.

Definition match_geofence `{Libm} (latitude longitude : f64) (fences : list GeofenceFence) : option GeofenceFence :=
  point ← result_ok (wgs84_new latitude longitude);
  fst <$> min_by fence_cmp (omap (fence_contains point) fences).

Definition match_geofence_name `{Libm} (latitude longitude : f64) (fences : list GeofenceFence) : option string :=
  gf_name <$> match_geofence latitude longitude fences.

Definition label_of `{Libm} (latitude longitude : option f64) (fences : list GeofenceFence) : option string :=
  match latitude, longitude with
  | Some la, Some lo => match_geofence_name la lo fences
  | _, _ => None
  end.
Definition label_drive `{Libm} (fences : list GeofenceFence) (d : ProjectionDrive) : ProjectionDrive :=
  d <| pd_start_geofence := label_of (pd_start_latitude d) (pd_start_longitude d) fences |>
    <| pd_end_geofence := label_of (pd_end_latitude d) (pd_end_longitude d) fences |>.
Definition apply_geofence_labels `{Libm} (delta : LifecycleDelta) (fences : list GeofenceFence) : LifecycleDelta :=
  delta <| d_drives := label_drive fences <$> d_drives delta |>.

Example units_ex :
  f64_eqb (round_to_precision (f64_lit 12345 10000) 2) (f64_lit 123 100) = true
  /\ mph_to_kmh (f64_of_Z 60) = 97
  /\ latitude_ok (f64_of_Z 90) = true /\ latitude_ok (f64_lit 900001 10000) = false
  /\ longitude_ok (f64_of_Z (-180)) = true /\ latitude_ok S754_nan = false.
Proof. vm_compute. repeat split. Qed.

(** ** The geofence rule does not depend on the order of the catalogue

    [min_by] under a strict weak order finds a least element; when the order separates
    the elements it is the only one, so the result is the same for every order of the
    list. *)

Local Open Scope string_scope.
Local Open Scope list_scope.

Section MinBy.
Context {A : Type} (cmp : A -> A -> comparison) (lt : A -> A -> Prop).
Hypothesis cmp_gt : forall a b, cmp a b = Gt <-> lt b a.
Hypothesis lt_trans : forall a b c, lt a b -> lt b c -> lt a c.
Hypothesis lt_cotrans : forall a b c, lt a b -> lt a c \/ lt c b.
Hypothesis lt_irrefl : forall a, ~ lt a a.

Lemma fold_min_least l x :
  let m := fold_left (fun least y => match cmp least y with Gt => y | _ => least end) l x in
  m ∈ x :: l /\ (forall y, y ∈ x :: l -> ~ lt y m).
Proof.
  revert x. induction l as [|z l IH]; intros x; cbn [fold_left].
  - split; [left|]. intros y Hy. apply list_elem_of_singleton in Hy as ->. apply lt_irrefl.
  - set (x' := match cmp x z with Gt => z | _ => x end). destruct (IH x') as [Hin Hle]. cbv zeta in Hin, Hle.
    set (m := fold_left _ l x') in *. clearbody m.
    assert (Hx' : (x' = z /\ lt z x) \/ (x' = x /\ ~ lt z x)).
    { unfold x'. destruct (cmp x z) eqn:E; [right|right|left; split; [done|by apply cmp_gt]];
        (split; [done|]; intros Hl%cmp_gt; congruence). }
    assert (Hm : ~ lt x' m) by (apply Hle; left).
    split.
    + apply elem_of_cons in Hin as [->|Hin]; [|by right; right].
      destruct Hx' as [[-> _]|[-> _]]; [right; left|left].
    + intros y Hy. apply elem_of_cons in Hy as [->|Hy]; [|apply elem_of_cons in Hy as [->|Hy]].
      * destruct Hx' as [[-> Hzx]|[-> _]]; [|done]. intros Hxm. apply Hm. by eapply lt_trans.
      * destruct Hx' as [[-> _]|[-> Hzx]]; [done|]. intros Hzm. destruct (lt_cotrans _ _ x Hzm); auto.
      * apply Hle. by right.
Qed.

Lemma min_by_Some l m : min_by cmp l = Some m -> m ∈ l /\ (forall y, y ∈ l -> ~ lt y m).
Proof. destruct l as [|x l]; [done|]. intros [= <-]. apply fold_min_least. Qed.

Lemma min_by_perm l l' :
  (forall a b, a ∈ l -> b ∈ l -> a = b \/ lt a b \/ lt b a) -> l ≡ₚ l' -> min_by cmp l = min_by cmp l'.
Proof.
  intros Hsep Hp. destruct (min_by cmp l) as [m|] eqn:E.
  - destruct (min_by cmp l') as [m'|] eqn:E'.
    + apply min_by_Some in E as [Hm Hle], E' as [Hm' Hle']. rewrite <- Hp in Hm'.
      destruct (Hsep m m' Hm Hm') as [->|[H|H]]; [done| |].
      * exfalso. apply (Hle' m); [by rewrite <- Hp|done].
      * by apply Hle in Hm'.
    + destruct l' as [|? ?]; [|done]. symmetry in Hp. apply Permutation_nil in Hp as ->. done.
  - destruct l as [|? ?]; [|done]. apply Permutation_nil in Hp as ->. done.
Qed.
End MinBy.

(** ** [total_cmp] *)

Definition total_rank (x : f64) : Z * Z * Z := match x with S754_zero true => (0, 0, -1) | _ => rank x end.

Lemma total_cmp_rank x y :
  match f64_total_cmp x y with
  | Lt => rank_lt (total_rank x) (total_rank y)
  | Eq => total_rank x = total_rank y
  | Gt => rank_lt (total_rank y) (total_rank x)
  end.
Proof.
  assert (Hc : forall x y, f64_is_nan x = false -> f64_is_nan y = false ->
    match x, y with S754_zero _, S754_zero _ => False | _, _ => True end ->
    match (match SFcompare x y with Some c => c | None => Eq end) with
    | Lt => rank_lt (total_rank x) (total_rank y) | Eq => total_rank x = total_rank y
    | Gt => rank_lt (total_rank y) (total_rank x) end).
  { intros a b Ha Hb Hz. pose proof (SFcompare_rank a b Ha Hb) as H. destruct (SFcompare a b) as [c|]; [|done].
    destruct a as [[]|[]| |[] ? ?], b as [[]|[]| |[] ? ?]; try done; destruct c; cbn in *; try done; try lia; try (by simplify_eq). }
  destruct x as [s|s| |s m e], y as [t|t| |t n f]; cbn [f64_total_cmp]; try (apply Hc; done); try done.
  all: repeat match goal with s : bool |- _ => destruct s end; cbn; try done; lia.
Qed.

Lemma rank_lt_irrefl p : ~ rank_lt p p.
Proof. destruct p as [[a b] c]. cbn. lia. Qed.
Lemma rank_lt_trans p q r : rank_lt p q -> rank_lt q r -> rank_lt p r.
Proof. destruct p as [[a b] c], q as [[a' b'] c'], r as [[a2 b2] c2]. cbn. lia. Qed.
Lemma rank_trichotomy p q : rank_lt p q \/ p = q \/ rank_lt q p.
Proof.
  destruct p as [[a b] c], q as [[a' b'] c']. cbn.
  destruct (Z.lt_trichotomy a a') as [?|[->|?]]; [left; lia| |right; right; lia].
  destruct (Z.lt_trichotomy b b') as [?|[->|?]]; [left; lia| |right; right; lia].
  destruct (Z.lt_trichotomy c c') as [?|[->|?]]; [left; lia|right; by left|right; right; lia].
Qed.

(** ** The order of the fences *)

Definition fence_key (x : GeofenceFence * f64) : (Z * Z * Z) * (Z * Z * Z) * Z :=
  (total_rank (gf_radius_m x.1), total_rank x.2, gf_source_geofence_id x.1).

(** Smaller radius, then smaller distance, then smaller catalogue id. *)
Definition fence_lt (a b : GeofenceFence * f64) : Prop :=
  let '(r, d, i) := fence_key a in
  let '(r', d', i') := fence_key b in
  rank_lt r r' \/ (r = r' /\ (rank_lt d d' \/ (d = d' /\ i < i'))).

Lemma fence_lt_irrefl a : ~ fence_lt a a.
Proof. unfold fence_lt. destruct (fence_key a) as [[r d] i]. intros [H|[_ [H|[_ H]]]]; try (by apply rank_lt_irrefl in H). lia. Qed.

Lemma fence_lt_trans a b c : fence_lt a b -> fence_lt b c -> fence_lt a c.
Proof.
  unfold fence_lt. destruct (fence_key a) as [[r d] i], (fence_key b) as [[r' d'] i'], (fence_key c) as [[r2 d2] i2].
  intros [H1|[-> [H1|[-> H1]]]] [H2|[-> [H2|[-> H2]]]]; eauto 10 using rank_lt_trans.
  right. split; [done|]. right. split; [done|lia].
Qed.

Lemma fence_trichotomy a b : fence_lt a b \/ fence_key a = fence_key b \/ fence_lt b a.
Proof.
  unfold fence_lt. destruct (fence_key a) as [[r d] i], (fence_key b) as [[r' d'] i'].
  destruct (rank_trichotomy r r') as [?|[->|?]]; [by left; left| |by right; right; left].
  destruct (rank_trichotomy d d') as [?|[->|?]]; [left; right; auto| |right; right; right; auto].
  destruct (Z.lt_trichotomy i i') as [?|[->|?]]; [left; right; auto|right; by left|right; right; right; auto].
Qed.

Lemma fence_lt_cotrans a b c : fence_lt a b -> fence_lt a c \/ fence_lt c b.
Proof.
  intros H. destruct (fence_trichotomy a c) as [?|[E|Hc]]; [by left| |].
  - right. unfold fence_lt in *. by rewrite <- E.
  - right. by eapply fence_lt_trans.
Qed.

Lemma fence_cmp_gt a b : fence_cmp a b = Gt <-> fence_lt b a.
Proof.
  unfold fence_cmp, fence_lt, fence_key. pose proof (total_cmp_rank (gf_radius_m a.1) (gf_radius_m b.1)) as H1.
  pose proof (total_cmp_rank a.2 b.2) as H2.
  destruct (f64_total_cmp (gf_radius_m a.1) (gf_radius_m b.1)).
  - rewrite H1. destruct (f64_total_cmp a.2 b.2).
    + rewrite H2, Z.compare_gt_iff. split; [by right; split; [|right]|].
      intros [H|[_ [H|[_ H]]]]; try (by apply rank_lt_irrefl in H). done.
    + split; [done|]. intros [H|[_ [H|[E _]]]]; [by apply rank_lt_irrefl in H| |].
      * exfalso. by apply (rank_lt_irrefl (total_rank a.2)), (rank_lt_trans _ (total_rank b.2)).
      * rewrite E in H2. by apply rank_lt_irrefl in H2.
    + split; [|done]. intros _. right. by split; [|left].
  - split; [done|]. intros [H|[E _]].
    + exfalso. by apply (rank_lt_irrefl (total_rank (gf_radius_m a.1))), (rank_lt_trans _ (total_rank (gf_radius_m b.1))).
    + rewrite E in H1. by apply rank_lt_irrefl in H1.
  - split; [|done]. intros _. by left.
Qed.

(** ** The theorem *)

(** The fences that contain a point, each with its distance. *)
Definition containing `{Libm} (la lo : f64) (fences : list GeofenceFence) : list (GeofenceFence * f64) :=
  match result_ok (wgs84_new la lo) with Some point => omap (fence_contains point) fences | None => [] end.

Lemma match_geofence_containing `{Libm} la lo fences :
  match_geofence la lo fences = fst <$> min_by fence_cmp (containing la lo fences).
Proof. unfold match_geofence, containing. by destruct (result_ok _). Qed.

Lemma containing_sub `{Libm} la lo fences x : x ∈ containing la lo fences -> x.1 ∈ fences.
Proof.
  unfold containing. destruct (result_ok _) as [p|]; [|by intros ?%elem_of_nil].
  intros (f & Hf & E)%list_elem_of_omap. unfold fence_contains in E. case_match; [|done].
  apply bind_Some in E as (c & _ & E). unfold then_some in E. by case_match; simplify_eq.
Qed.

(** The distance is a function of the fence. *)
Lemma containing_unique `{Libm} la lo fences x y :
  x ∈ containing la lo fences -> y ∈ containing la lo fences -> x.1 = y.1 -> x = y.
Proof.
  unfold containing. destruct (result_ok _) as [p|]; [|by intros ?%elem_of_nil].
  intros (f & _ & Ex)%list_elem_of_omap (g & _ & Ey)%list_elem_of_omap.
  assert (Hfst : forall f z, fence_contains p f = Some z -> z.1 = f).
  { intros f0 z E. unfold fence_contains in E. case_match; [|done].
    apply bind_Some in E as (c & _ & E). unfold then_some in E. by case_match; simplify_eq. }
  rewrite (Hfst _ _ Ex), (Hfst _ _ Ey). intros ->. congruence.
Qed.

Lemma NoDup_key {A} (f : A -> Z) l x y : NoDup (f <$> l) -> x ∈ l -> y ∈ l -> f x = f y -> x = y.
Proof.
  induction l as [|z l IH]; cbn; intros Hn; [by intros ?%elem_of_nil|]. apply NoDup_cons in Hn as [Hz Hn].
  intros [->|Hx]%elem_of_cons [->|Hy]%elem_of_cons E; [done| | |by apply IH].
  - destruct Hz. rewrite E. by apply list_elem_of_fmap_2.
  - destruct Hz. rewrite <- E. by apply list_elem_of_fmap_2.
Qed.

(** C30: The label of a point is a function of the set of fences: with catalogue ids
    that are unique, any order of the catalogue names the same fence, and no fence that
    contains the point has a smaller radius, or the same radius and a smaller
    distance, or both the same and a smaller id. *)
Theorem geofence_rule_order_free `{Libm} (la lo : f64) (fences fences' : list GeofenceFence)
    (Hids : NoDup (gf_source_geofence_id <$> fences)) (Hperm : fences ≡ₚ fences') :
  match_geofence la lo fences = match_geofence la lo fences'
  /\ (forall g, match_geofence la lo fences = Some g ->
        exists d, (g, d) ∈ containing la lo fences /\ forall x, x ∈ containing la lo fences -> ~ fence_lt x (g, d)).
Proof.
  split.
  - rewrite !match_geofence_containing. f_equal. apply (min_by_perm fence_cmp fence_lt fence_cmp_gt fence_lt_trans
      fence_lt_cotrans fence_lt_irrefl).
    + intros a b Ha Hb. destruct (fence_trichotomy a b) as [?|[E|?]]; [by right; left| |by right; right].
      left. eapply containing_unique; [done|done|]. injection E as _ _ E.
      eapply (NoDup_key gf_source_geofence_id fences); [exact Hids| | |exact E]; by eapply containing_sub.
    + unfold containing. destruct (result_ok _); [|done]. by rewrite Hperm.
  - intros g. rewrite match_geofence_containing. intros (x & Ex & ->)%fmap_Some.
    apply (min_by_Some fence_cmp fence_lt fence_cmp_gt fence_lt_trans fence_lt_cotrans fence_lt_irrefl) in Ex as [Hin Hle].
    exists x.2. by destruct x.
Qed.

Definition ex_fence (id : Z) (radius : Z) : GeofenceFence :=
  {| gf_source_geofence_id := id; gf_name := "Home"; gf_latitude := f64_of_Z 51; gf_longitude := f64_of_Z 1;
     gf_radius_m := f64_of_Z radius; gf_billing_type := None; gf_cost_per_unit := None; gf_session_fee := None |}.

Lemma geofence_rule_order_free_witness :
  let libm := {| f64_sin := fun x => x; f64_cos := fun _ => f64_one; f64_asin := fun x => x |} in
  let fences := [ex_fence 1 300; ex_fence 2 200; ex_fence 3 200] in
  (gf_source_geofence_id <$> match_geofence (H := libm) (f64_of_Z 51) (f64_of_Z 1) fences) = Some 2
  /\ match_geofence (H := libm) (f64_of_Z 51) (f64_of_Z 1) fences
     = match_geofence (H := libm) (f64_of_Z 51) (f64_of_Z 1) (reverse fences).
Proof.
  split; [vm_compute; reflexivity|]. apply geofence_rule_order_free.
  - vm_compute. by apply (bool_decide_unpack _).
  - symmetry. apply reverse_Permutation.
Defined.
