(* ===== verification/LifeEnergy.v ===== *)
(** * The drive and charge lifecycle: energy, power and cost of a charge

    The charging half of [src/src/runtime/lifecycle/drive_and_charge.rs] (counter
    and interval folds, phases, session kind, totals, efficiency), the shared sample
    folds of [imported_charge_aggregates.rs] and the cost rules of [models.rs].  All
    sums run in binary64, in the source's order of operations. *)
From S2P Require Import Prelude RustStr F64 Text LifeData Geo.
Local Open Scope string_scope.
Local Open Scope Z_scope.

Definition K_INT_MAX_MS : Z := 600000.
Definition K_ENERGY_EPS_KWH : f64 := f64_lit 5 1000.
Definition K_COUNTER_DIP_KWH : f64 := f64_lit 5 100.
Definition K_PRE_SAMPLE_KWH : f64 := f64_lit 4 100.
Definition K_RATIO_MIN_KWH : f64 := f64_one.
Definition K_AC_FLOOR : f64 := f64_lit 95 100.
Definition MS_PER_HOUR : f64 := f64_of_Z 3600000.

(** ** The counter *)

Definition counter_restarted (previous_kwh current_kwh : f64) : bool :=
  f64_ltb (f64_add K_COUNTER_DIP_KWH K_ENERGY_EPS_KWH) (f64_sub previous_kwh current_kwh).

Definition round2 (value : f64) : f64 :=
  let rounded := round_to_precision value 2 in
  if f64_eqb rounded f64_zero then f64_zero else rounded.

Definition not_negative (x : f64) : bool := f64_leb f64_zero x.

Definition usable_energy_counter (sample : ProjectionChargeSample) : option f64 :=
  opt_filter not_negative (finite_reading (ps_charge_energy_added_kwh sample)).

Definition fold_energy_counter (open : OpenCharge) (counter : f64) : OpenCharge :=
  let baseline := default f64_zero (oc_first_energy_added open) in
  let '(baseline, open) :=
    match oc_max_energy_added open with
    | None =>
        if counter_restarted baseline counter
        then (f64_zero, open <| oc_max_energy_added := Some counter |>)
        else (baseline, open <| oc_max_energy_added := Some (f64_max baseline counter) |>)
    | Some maximum =>
        if f64_leb maximum counter then (baseline, open <| oc_max_energy_added := Some counter |>)
        else
          let previous := default maximum (oc_last_energy_added open) in
          if counter_restarted previous counter
          then (f64_zero,
                open <| oc_energy_added_carry_kwh := f64_add (oc_energy_added_carry_kwh open) (f64_sub maximum baseline) |>
                     <| oc_max_energy_added := Some counter |>)
          else (baseline, open)
    end in
  open <| oc_first_energy_added := Some baseline |> <| oc_last_energy_added := Some counter |>.

(** ** The interval *)

Definition fold_charge_interval (open : OpenCharge) (dt_ms : Z) (power_kw counter : option f64) : OpenCharge :=
  if dt_ms <=? 0 then open
  else
    match oc_last_sample_power_kw open, power_kw with
    | Some before, Some now =>
        if dt_ms <=? K_INT_MAX_MS then
          let used := f64_div (f64_mul (f64_div (f64_add before now) (f64_of_Z 2)) (f64_of_Z dt_ms)) MS_PER_HOUR in
          let open := open <| oc_energy_used_kwh := Some (f64_add (default f64_zero (oc_energy_used_kwh open)) used) |> in
          match oc_prev_energy_added_kwh open, counter with
          | Some previous, Some counter =>
              if negb (counter_restarted previous counter) then
                open <| oc_ratio_used_kwh := f64_add (oc_ratio_used_kwh open) used |>
                     <| oc_ratio_added_kwh := f64_add (oc_ratio_added_kwh open) (f64_sub counter previous) |>
              else open
          | _, _ => open
          end
        else open <| oc_fully_powered := false |>
    | _, _ => open <| oc_fully_powered := false |>
    end.

(** ** Power and phases *)

Definition K_V_MIN : f64 := f64_of_Z 90.
Definition K_V_MAX : f64 := f64_of_Z 305.
Definition K_I_MAX : f64 := f64_of_Z 80.
Definition K_AC_MAX_KW : f64 := f64_lit 57645 1000.
Definition K_PHASE_ABS_KW : f64 := f64_one.
Definition K_PHASE_REL : f64 := f64_lit 1 10.
Definition K_AC_EVIDENCE_MIN_KW : f64 := f64_one.

Definition usable_charger_power_kw (sample : ProjectionChargeSample) : option f64 :=
  opt_filter not_negative (finite_reading (ps_charger_power_kw sample)).

Definition per_phase_ac_inputs (sample : ProjectionChargeSample) : option (f64 * f64) :=
  voltage ← finite_reading (ps_charger_voltage sample);
  current ← finite_reading (ps_charger_actual_current sample);
  then_some (f64_contains K_V_MIN K_V_MAX voltage && (f64_ltb f64_zero current && f64_leb current K_I_MAX))
    (voltage, current).

Definition phase_power_kw (phases : Z) (voltage current : f64) : f64 :=
  f64_div (f64_mul (f64_mul (f64_of_Z phases) voltage) current) (f64_of_Z 1000).

Definition phase_len (set : PhaseSet) : Z := Z.b2z (ph_one set) + Z.b2z (ph_two set) + Z.b2z (ph_three set).
Definition phase_contains (set : PhaseSet) (phases : Z) : bool :=
  if phases =? 1 then ph_one set else if phases =? 2 then ph_two set
  else if phases =? 3 then ph_three set else false.
Definition phase_only (set : PhaseSet) : option Z :=
  if negb (phase_len set =? 1) then None else find_first (phase_contains set) [1; 2; 3].

(** Whether [n] phases agree with the reported power. *)
Definition phase_agrees (reported_kw voltage current : f64) (phases : Z) : bool :=
  let predicted := phase_power_kw phases voltage current in
  f64_leb (f64_abs (f64_sub predicted reported_kw)) (f64_add K_PHASE_ABS_KW (f64_mul K_PHASE_REL predicted)).

Definition phase_consistency_set (sample : ProjectionChargeSample) : option PhaseSet :=
  reported_kw ← usable_charger_power_kw sample;
  '(voltage, current) ← per_phase_ac_inputs sample;
  let agrees := phase_agrees reported_kw voltage current in
  Some (MkPhaseSet (agrees 1) (agrees 2) (agrees 3)).

(** ** The kind of the session *)

Definition FAST_CHARGER_PREFIX : string := "FastCharger".

Definition fast_charger_kind (fast_charger_type : option string) : FastChargerKind :=
  match fast_charger_type with
  | None => NoInformation
  | Some text =>
      let text := utrim text in
      let rest := match str_split_at (String.length FAST_CHARGER_PREFIX) text with
                  | Some (head, tail) => if eq_ignore_ascii_case head FAST_CHARGER_PREFIX then tail else text
                  | None => text
                  end in
      let named := existsb (fun name => eq_ignore_ascii_case rest name) in
      if named ["Supercharger"] then Supercharger
      else if named ["CHAdeMO"; "GB"; "Combo"] then OtherDc
      else if named ["ACSingleWireCAN"; "MCSingleWireCAN"] then TeslaAc
      else if str_is_empty rest || named ["<invalid>"; "Unknown"; "SNA"; "Other"; "Tesla"] then NoInformation
      else Unrecognised
  end.
Definition is_supercharger (fast_charger_type : option string) : bool :=
  bool_decide (fast_charger_kind fast_charger_type = Supercharger).

Definition sample_kind_evidence (sample : ProjectionChargeSample) : option bool :=
  let kind := fast_charger_kind (ps_fast_charger_type sample) in
  let power := finite_reading (ps_charger_power_kw sample) in
  let dc := bool_decide (kind = Supercharger) || bool_decide (kind = OtherDc)
            || (bool_decide (ps_fast_charger_present sample = Some true) && negb (bool_decide (kind = TeslaAc)))
            || is_some_and power (fun power => f64_ltb K_AC_MAX_KW power) in
  if dc then Some true
  else
    let flow := opt_filter (fun power => f64_leb K_AC_EVIDENCE_MIN_KW power) power in
    let ac := bool_decide (kind = TeslaAc)
              || (bool_decide (ps_fast_charger_present sample = Some false) && is_some flow)
              || (is_some flow && is_some_and (phase_consistency_set sample) (fun set => is_some (phase_only set))) in
    then_some ac false.

Definition session_kind_after (is_dc evidence : option bool) : option bool :=
  match is_dc, evidence with
  | Some true, _ => Some true
  | _, Some true => Some true
  | None, Some false => Some false
  | current, _ => current
  end.

Definition session_charger_type_after (current : option string) (sample : ProjectionChargeSample) : option string :=
  match current with
  | Some _ => current
  | None =>
      text ← ps_fast_charger_type sample;
      match fast_charger_kind (Some text) with
      | NoInformation => None
      | _ => Some (utrim text)
      end
  end.

Definition phase_in_range (phases : Z) : bool := (1 <=? phases) && (phases <=? 3).

Definition sample_grid_power_kw (sample : ProjectionChargeSample) (session_is_dc : option bool)
    (session_phase_count : option Z) : SamplePower :=
  let reported := usable_charger_power_kw sample in
  let reported_only := MkSamplePower reported None in
  if bool_decide (session_is_dc = Some true) then reported_only
  else
    match per_phase_ac_inputs sample with
    | None => reported_only
    | Some (voltage, current) =>
        let label := opt_filter phase_in_range (ps_charger_phases sample) in
        let session := opt_filter phase_in_range session_phase_count in
        let chosen :=
          match reported with
          | Some _ =>
              consistent ← phase_consistency_set sample;
              match phase_only consistent with
              | Some only => Some (only, true)
              | None =>
                  match opt_filter (phase_contains consistent) label with
                  | Some label => Some (label, true)
                  | None => (fun session => (session, false)) <$> opt_filter (phase_contains consistent) session
                  end
              end
          | None =>
              opt_or ((fun label => (label, true)) <$> label) ((fun session => (session, false)) <$> session)
          end in
        match chosen with
        | Some (phases, fixed_by_sample) =>
            MkSamplePower (Some (phase_power_kw phases voltage current)) (then_some fixed_by_sample phases)
        | None => reported_only
        end
    end.

(** ** One sample *)

Definition fold_charge_session_kind (kind : ChargeSessionKind) (sample : ProjectionChargeSample) : ChargeSessionKind :=
  MkChargeSessionKind (session_kind_after (ck_is_dc kind) (sample_kind_evidence sample))
    (session_charger_type_after (ck_fast_charger_type kind) sample).
Definition charge_session_kind (samples : list ProjectionChargeSample) : ChargeSessionKind :=
  fold_left fold_charge_session_kind samples ChargeSessionKind_default.

Definition observe_charge_sample (open : OpenCharge) (sample : ProjectionChargeSample) : OpenCharge :=
  let first := (oc_sample_count open =? 0) && is_none (oc_last_sample_timestamp_ms open) in
  let counter := usable_energy_counter sample in
  let open := match counter with Some counter => fold_energy_counter open counter | None => open end in
  let kind := fold_charge_session_kind (MkChargeSessionKind (oc_is_dc open) (oc_fast_charger_type open)) sample in
  let open := open <| oc_is_dc := ck_is_dc kind |> <| oc_fast_charger_type := ck_fast_charger_type kind |> in
  let power := sample_grid_power_kw sample (oc_is_dc open) (oc_phase_count open) in
  let open :=
    if first then
      let baseline := default f64_zero (oc_first_energy_added open) in
      open <| oc_energy_used_kwh := Some f64_zero |> <| oc_fully_powered := true |>
           <| oc_pre_sample_kwh := (_ ← counter; (fun maximum => f64_sub maximum baseline) <$> oc_max_energy_added open) |>
    else
      match oc_last_sample_timestamp_ms open with
      | Some previous_ms =>
          fold_charge_interval open (i64_ssub (ps_timestamp_ms sample) previous_ms) (sp_power_kw power) counter
      | None => open <| oc_fully_powered := false |>
      end in
  let open := open <| oc_prev_energy_added_kwh := counter |> <| oc_last_sample_power_kw := sp_power_kw power |>
                   <| oc_last_sample_timestamp_ms := Some (ps_timestamp_ms sample) |> in
  let open := if is_some (sp_phase_count power) then open <| oc_phase_count := sp_phase_count power |> else open in
  open <| oc_sample_count := u32_sadd (oc_sample_count open) 1 |>.

(** ** The display values *)

Definition aggregates_of_open (open : OpenCharge) : ChargeDisplayAggregates :=
  MkChargeDisplayAggregates (oc_last_battery_level open) (oc_last_ideal_range_km open)
    (oc_last_rated_range_km open) (oc_max_charger_power_kw open) (oc_outside_temp_sum open)
    (oc_outside_temp_count open).
Definition store_into (a : ChargeDisplayAggregates) (open : OpenCharge) : OpenCharge :=
  open <| oc_last_battery_level := da_last_battery_level a |>
       <| oc_last_ideal_range_km := da_last_ideal_range_km a |>
       <| oc_last_rated_range_km := da_last_rated_range_km a |>
       <| oc_max_charger_power_kw := da_max_charger_power_kw a |>
       <| oc_outside_temp_sum := da_outside_temp_sum a |>
       <| oc_outside_temp_count := da_outside_temp_count a |>.
Definition outside_temp_avg (a : ChargeDisplayAggregates) : option f64 :=
  then_some (da_outside_temp_count a >? 0) (f64_div (da_outside_temp_sum a) (f64_of_Z (da_outside_temp_count a))).

Definition fold_charge_display_aggregates (a : ChargeDisplayAggregates) (sample : ProjectionChargeSample)
    : ChargeDisplayAggregates :=
  let a := a <| da_last_battery_level := opt_or (ps_battery_level sample) (da_last_battery_level a) |>
             <| da_last_ideal_range_km := opt_or (finite_reading (ps_ideal_range_km sample)) (da_last_ideal_range_km a) |>
             <| da_last_rated_range_km := opt_or (finite_reading (ps_rated_range_km sample)) (da_last_rated_range_km a) |> in
  let a := match opt_filter not_negative (finite_reading (ps_charger_power_kw sample)) with
           | Some power => a <| da_max_charger_power_kw :=
                               Some (map_or (da_max_charger_power_kw a) power (fun maximum => f64_max maximum power)) |>
           | None => a
           end in
  match finite_reading (ps_outside_temp_c sample) with
  | Some temperature => a <| da_outside_temp_sum := f64_add (da_outside_temp_sum a) temperature |>
                          <| da_outside_temp_count := u32_sadd (da_outside_temp_count a) 1 |>
  | None => a
  end.
Definition charge_display_aggregates (samples : list ProjectionChargeSample) : ChargeDisplayAggregates :=
  fold_left fold_charge_display_aggregates samples ChargeDisplayAggregates_default.

Definition observe_charge_aggregate (open : OpenCharge) (sample : ProjectionChargeSample) : OpenCharge :=
  store_into (fold_charge_display_aggregates (aggregates_of_open open) sample) open.

(** ** Totals *)

(** The counter's own measurement [k + (m - b)]. *)
Definition counter_energy (open : OpenCharge) : option f64 :=
  (fun maximum => f64_add (oc_energy_added_carry_kwh open)
                    (f64_sub maximum (default f64_zero (oc_first_energy_added open)))) <$> oc_max_energy_added open.

Definition ratio_energy (open : OpenCharge) : option f64 :=
  let net := f64_add (oc_energy_added_carry_kwh open)
               (f64_sub (default f64_zero (opt_or (oc_last_energy_added open) (oc_max_energy_added open)))
                  (default f64_zero (oc_first_energy_added open))) in
  then_some (f64_leb K_RATIO_MIN_KWH (oc_ratio_added_kwh open) && f64_ltb f64_zero net)
    (f64_div (f64_mul net (oc_ratio_used_kwh open)) (oc_ratio_added_kwh open)).

Definition energy_used (open : OpenCharge) : option f64 :=
  let samples := oc_sample_count open in
  let integral := oc_energy_used_kwh open in
  let gap_free := oc_fully_powered open in
  match counter_energy open with
  | None => if (samples >=? 2) && gap_free then integral else None
  | Some energy =>
      if f64_ltb energy K_ENERGY_EPS_KWH then
        if samples <=? 1 then Some f64_zero else if gap_free then integral else None
      else
        let before_first := opt_filter (fun before => f64_leb before K_PRE_SAMPLE_KWH) (oc_pre_sample_kwh open) in
        if gap_free && (samples >=? 2) && is_some before_first then
          integral ← integral;
          before ← before_first;
          Some (f64_add integral before)
        else ratio_energy open
  end.

Definition below_ac_floor (open : OpenCharge) (used : f64) : bool :=
  bool_decide (oc_is_dc open = Some false)
  && is_some_and (counter_energy open)
       (fun energy => f64_leb K_RATIO_MIN_KWH energy && f64_ltb used (f64_mul K_AC_FLOOR energy)).

Definition charge_energy_totals (open : OpenCharge) : ChargeEnergyTotals :=
  MkChargeEnergyTotals
    ((fun energy => round2 (f64_max energy f64_zero)) <$> counter_energy open)
    (round2 <$> opt_filter (fun used => f64_is_finite used && negb (below_ac_floor open used)) (energy_used open)).
