(* ===== verification/LifeCost.v ===== *)
(** * The drive and charge lifecycle: totals of stored samples, efficiency, cost

    The scratch fold over stored samples and the efficiency figure of
    [drive_and_charge.rs], the tariffs, the cost of a closed charge and the facts its
    rules read from the samples, of [models.rs]. *)
From S2P Require Import Prelude RustStr F64 Text LifeData Geo LifeEnergy.
From Stdlib Require Import SpecFloat Sorting.Sorted.
Local Open Scope string_scope.
Local Open Scope Z_scope.

(** ** Sample order: by time, then id; [sort_by_key] is stable *)

Definition sample_key (s : ProjectionChargeSample) : Z * Z := (ps_timestamp_ms s, ps_id s).
Definition key_ltb (a b : Z * Z) : bool := (a.1 <? b.1) || ((a.1 =? b.1) && (a.2 <? b.2)).

Fixpoint insert_sample (s : ProjectionChargeSample) (l : list ProjectionChargeSample) : list ProjectionChargeSample :=
  match l with
  | [] => [s]
  | x :: l => if key_ltb (sample_key x) (sample_key s) then x :: insert_sample s l else s :: x :: l
  end.
Definition sort_samples (l : list ProjectionChargeSample) : list ProjectionChargeSample :=
  foldr insert_sample [] l.

Definition charge_empty (id car_id start_date_ms : Z) : OpenCharge :=
  {| oc_id := id; oc_car_id := car_id; oc_start_date_ms := start_date_ms; oc_start_battery_level := None;
     oc_start_ideal_range_km := None; oc_start_rated_range_km := None; oc_start_latitude := None;
     oc_start_longitude := None; oc_is_dc := None; oc_fast_charger_type := None; oc_max_charger_power_kw := None;
     oc_outside_temp_sum := f64_zero; oc_outside_temp_count := 0; oc_first_energy_added := None;
     oc_max_energy_added := None; oc_last_energy_added := None; oc_last_battery_level := None;
     oc_last_ideal_range_km := None; oc_last_rated_range_km := None; oc_sample_count := 0;
     oc_energy_used_kwh := None; oc_last_sample_timestamp_ms := None; oc_last_sample_power_kw := None;
     oc_energy_added_carry_kwh := f64_zero; oc_prev_energy_added_kwh := None; oc_ratio_used_kwh := f64_zero;
     oc_ratio_added_kwh := f64_zero; oc_fully_powered := false; oc_pre_sample_kwh := None; oc_phase_count := None;
     oc_last_odometer_km := None; oc_last_odometer_coarse := None; oc_samples := [] |}.

Definition charge_energy_from_samples (samples : list ProjectionChargeSample) (baseline_kwh : option f64)
    : ChargeEnergyTotals :=
  let scratch := (charge_empty 0 0 0) <| oc_first_energy_added := baseline_kwh |> in
  charge_energy_totals (fold_left observe_charge_sample (sort_samples samples) scratch).

(** ** Efficiency *)

Definition K_EFF_MAX_LEVEL : Z := 90.
Definition K_EFF_MIN_SPAN : Z := 10.
Definition K_EFF_MIN_FIGURES : nat := 3.

Definition fold_new : EfficiencyFold := MkEfficiencyFold None None false false.

Definition window_point (sample : ProjectionChargeSample) : option EfficiencyPoint :=
  level ← opt_filter (fun level => level <=? K_EFF_MAX_LEVEL) (ps_battery_level sample);
  counter_kwh ← usable_energy_counter sample;
  rated_km ← finite_reading (ps_rated_range_km sample);
  Some (MkEfficiencyPoint level counter_kwh rated_km).

Definition heater_on (sample : ProjectionChargeSample) : bool :=
  bool_decide (ps_battery_heater_on sample = Some true) || bool_decide (ps_battery_heater sample = Some true).

Definition fold_observe (f : EfficiencyFold) (sample : ProjectionChargeSample) : EfficiencyFold :=
  let heater := heater_on sample in
  let point := window_point sample in
  match ef_first f with
  | None => match point with
            | Some point => f <| ef_first := Some point |> <| ef_heater_seen := heater |>
            | None => f
            end
  | Some first =>
      let f := if heater then f <| ef_heater_seen := true |> else f in
      match point with
      | Some point =>
          let previous := ep_counter_kwh (default first (ef_last f)) in
          let f := if ef_heater_seen f || f64_ltb (ep_counter_kwh point) previous
                   then f <| ef_rejected := true |> else f in
          f <| ef_last := Some point |>
      | None => f
      end
  end.

Definition figure_of (a b : EfficiencyPoint) : option f64 :=
  let level_span := i64_sub (ep_level b) (ep_level a) in
  let energy_added := f64_sub (ep_counter_kwh b) (ep_counter_kwh a) in
  let range_gained := f64_sub (ep_rated_km b) (ep_rated_km a) in
  if (level_span <? K_EFF_MIN_SPAN) || f64_leb energy_added f64_zero || f64_leb range_gained f64_zero then None
  else
    let figure := f64_div (f64_mul (f64_of_Z 1000) energy_added) range_gained in
    then_some (f64_is_finite figure && f64_ltb f64_zero figure) figure.

Definition fold_finish (f : EfficiencyFold) : option f64 :=
  if ef_rejected f then None
  else a ← ef_first f; b ← ef_last f; figure_of a b.

Definition session_efficiency_wh_per_km (samples : list ProjectionChargeSample) : option f64 :=
  fold_finish (fold_left fold_observe (sort_samples samples) fold_new).

Fixpoint insert_figure (x : f64) (l : list f64) : list f64 :=
  match l with
  | [] => [x]
  | y :: l => match f64_total_cmp y x with Lt => y :: insert_figure x l | _ => x :: y :: l end
  end.
Definition sort_figures (l : list f64) : list f64 := foldr insert_figure [] l.

Definition car_efficiency_from_figures (figures : list f64) : option f64 :=
  if (length figures <? K_EFF_MIN_FIGURES)%nat then None
  else
    let sorted := sort_figures figures in
    let middle := (length sorted / 2)%nat in
    let median := if (length sorted mod 2 =? 1)%nat then nth middle sorted f64_zero
                  else f64_div (f64_add (nth (middle - 1) sorted f64_zero) (nth middle sorted f64_zero)) (f64_of_Z 2) in
    Some (round_to_precision median 1).

(** ** Cost *)

Definition MS_PER_MINUTE : f64 := f64_of_Z 60000.
Definition COST_E2_LIMIT : f64 := f64_of_Z 99999999999999.

Definition free_supercharging_site (fast_charger_type : option string) (is_dc : option bool) (brand_is_tesla : bool) : bool :=
  is_supercharger fast_charger_type
  || (bool_decide (is_dc = Some true) && brand_is_tesla
      && bool_decide (fast_charger_kind fast_charger_type = OtherDc)).
Definition is_free_supercharging_site (charge : ProjectionCharge) (brand_is_tesla : bool) : bool :=
  free_supercharging_site (pc_fast_charger_type charge) (pc_is_dc charge) brand_is_tesla.

Definition tariff_of_charge (charge : ProjectionCharge) : option ChargeTariff :=
  billing_type ← pc_billing_type charge;
  Some (MkChargeTariff billing_type (pc_cost_per_unit charge) (pc_session_fee charge)).

Definition price_ok (x : f64) : bool := f64_is_finite x && not_negative x.

Definition tariff_of_fence (fence : GeofenceFence) : option ChargeTariff :=
  billing_type ← gf_billing_type fence;
  rate ← gf_cost_per_unit fence;
  if negb (f64_is_finite rate) || f64_ltb rate f64_zero then None
  else if is_some_and (gf_session_fee fence) (fun fee => negb (f64_is_finite fee) || f64_ltb fee f64_zero) then None
  else Some (MkChargeTariff billing_type (Some rate) (gf_session_fee fence)).

Definition waive_fee (t : ChargeTariff) : ChargeTariff :=
  t <| ct_session_fee := (fun _ => f64_zero) <$> ct_session_fee t |>.

Definition cost_fits_pack_scale (cost : f64) : bool :=
  let hundredths := f64_round (f64_mul cost (f64_of_Z 100)) in
  f64_is_finite hundredths && f64_leb (f64_abs hundredths) COST_E2_LIMIT.

Definition charge_units (charge : ProjectionCharge) (billing_type : GeofenceBillingType) (span_observed : bool) : option f64 :=
  match billing_type with
  | PerKwh => match pc_is_dc charge with
              | Some true => finite_reading (pc_charge_energy_added charge)
              | Some false | None => finite_reading (pc_charge_energy_used_kwh charge)
              end
  | PerMinute =>
      end_ ← pc_end_date_ms charge;
      if (end_ <? pc_start_date_ms charge) || negb span_observed then None
      else Some (f64_div (f64_of_Z (i64_sub end_ (pc_start_date_ms charge))) MS_PER_MINUTE)
  end.

Definition calculate_charge_cost (charge : ProjectionCharge) (tariff : option ChargeTariff) (context : ChargeCostContext)
    : option f64 :=
  if cc_free_supercharging context && is_free_supercharging_site charge (cc_brand_is_tesla context) then Some f64_zero
  else
    tariff ← tariff;
    rate ← opt_filter price_ok (ct_cost_per_unit tariff);
    let fee := default f64_zero (ct_session_fee tariff) in
    if negb (f64_is_finite fee) || f64_ltb fee f64_zero then None
    else
      units ← opt_filter not_negative (charge_units charge (ct_billing_type tariff) (cc_span_observed context));
      let cost := round2 (f64_add (f64_mul units rate) fee) in
      then_some (cost_fits_pack_scale cost) cost.

(** ** The facts the cost rules read from the samples *)

Definition sample_brand (sample : ProjectionChargeSample) : SampleBrand :=
  match ps_fast_charger_brand sample with
  | None => NoBrand
  | Some text =>
      let text := utrim text in
      let named := existsb (fun name => eq_ignore_ascii_case text name) in
      if named ["Tesla"] then BrandTesla
      else if str_is_empty text || named ["<invalid>"; "Unknown"; "SNA"] then NoBrand
      else BrandOther
  end.

Definition facts_observe (f : ChargeSampleFacts) (sample : ProjectionChargeSample) : ChargeSampleFacts :=
  let key := sample_key sample in
  let f := if is_none_or (sf_first f) (fun first => key_ltb key first) then f <| sf_first := Some key |> else f in
  let f := match sf_last f with
           | None => f <| sf_last := Some key |>
           | Some last =>
               if key_ltb last key then f <| sf_previous := Some last |> <| sf_last := Some key |>
               else if is_none_or (sf_previous f) (fun previous => key_ltb previous key)
                    then f <| sf_previous := Some key |> else f
           end in
  let f := match usable_energy_counter sample with
           | Some counter => f <| sf_largest_counter :=
                                 Some (map_or (sf_largest_counter f) counter (fun best => f64_max best counter)) |>
           | None => f
           end in
  match sample_brand sample with
  | BrandTesla => f <| sf_tesla_brand := true |>
  | BrandOther => f <| sf_other_brand := true |>
  | NoBrand => f
  end.
Definition facts_of (samples : list ProjectionChargeSample) : ChargeSampleFacts :=
  fold_left facts_observe samples ChargeSampleFacts_default.
Definition brand_is_tesla (f : ChargeSampleFacts) : bool := sf_tesla_brand f && negb (sf_other_brand f).

Definition charge_span_observed_from (charge : ProjectionCharge) (facts : ChargeSampleFacts) : bool :=
  match sf_first facts, sf_last facts with
  | Some (first, _), Some (last, _) =>
      if K_INT_MAX_MS <? i64_ssub first (pc_start_date_ms charge) then false
      else if is_some_and (sf_previous facts) (fun '(previous, _) => K_INT_MAX_MS <? i64_ssub last previous) then false
      else if is_some_and (pc_end_date_ms charge) (fun end_ => K_INT_MAX_MS <? i64_ssub end_ last) then false
      else true
  | _, _ => true
  end.

Definition charge_continues_plug_in_from (charge : ProjectionCharge) (facts : ChargeSampleFacts) : bool :=
  match finite_reading (pc_charge_energy_added charge) with
  | None => false
  | Some added => is_some_and (sf_largest_counter facts)
                    (fun largest => f64_leb K_ENERGY_EPS_KWH (f64_sub largest added))
  end.

(** ** The drive and charge lifecycle: facts of a charge's samples

    The constant-space fold of [ChargeSampleFacts] against the rules over the sorted
    slice: the first key, the last and the one before it, the largest counter and the
    brands do not depend on the order the samples are offered in. *)

Local Open Scope list_scope.

(** ** Keys *)

Definition key_lt (a b : Z * Z) : Prop := key_ltb a b = true.

Lemma key_lt_spec a b : key_lt a b <-> a.1 < b.1 \/ (a.1 = b.1 /\ a.2 < b.2).
Proof.
  unfold key_lt, key_ltb. rewrite orb_true_iff, andb_true_iff, !Z.ltb_lt, Z.eqb_eq. done.
Qed.
Lemma key_lt_irrefl a : ~ key_lt a a.
Proof. rewrite key_lt_spec. lia. Qed.
Lemma key_lt_trans a b c : key_lt a b -> key_lt b c -> key_lt a c.
Proof. rewrite !key_lt_spec. lia. Qed.
Lemma key_lt_asym a b : key_lt a b -> key_ltb b a = false.
Proof. intros H. apply not_true_iff_false. intros H'. by apply (key_lt_irrefl a), (key_lt_trans _ b). Qed.

(** The rule over a slice in order. *)
Definition second_last {A} (l : list A) : option A := last (removelast l).

Definition key_facts (f : ChargeSampleFacts) : option (Z * Z) * option (Z * Z) * option (Z * Z) :=
  (sf_first f, sf_previous f, sf_last f).

(** [facts_observe] on the keys alone. *)
Definition observe_key (f : option (Z * Z) * option (Z * Z) * option (Z * Z)) (key : Z * Z)
    : option (Z * Z) * option (Z * Z) * option (Z * Z) :=
  let '(first, previous, latest) := f in
  (if is_none_or first (fun first => key_ltb key first) then Some key else first,
   match latest with
   | None => previous
   | Some l => if key_ltb l key then Some l
               else if is_none_or previous (fun previous => key_ltb previous key) then Some key else previous
   end,
   match latest with
   | None => Some key
   | Some l => if key_ltb l key then Some key else Some l
   end).

Lemma observe_key_facts f s : key_facts (facts_observe f s) = observe_key (key_facts f) (sample_key s).
Proof.
  destruct f as [fi pr la lc tb ob]. unfold facts_observe, key_facts, observe_key. cbn [sf_first].
  set (k := sample_key s). destruct (is_none_or fi _); cbn [sf_first sf_previous sf_last sf_largest_counter update_with];
    (destruct la as [l|]; [destruct (key_ltb l k) eqn:E; [|destruct (is_none_or pr _) eqn:E']|]);
    cbn; rewrite ?E, ?E'; destruct (usable_energy_counter s), (sample_brand s); try reflexivity.
Qed.

Lemma last_snoc_eq {A} (l : list A) x : last (l ++ [x]) = Some x.
Proof. apply last_snoc. Qed.

Lemma sorted_app_mid (l1 l2 : list (Z * Z)) k :
  StronglySorted key_lt (l1 ++ k :: l2) ->
  StronglySorted key_lt (l1 ++ l2) /\ (forall a, a ∈ l1 -> key_lt a k) /\ (forall b, b ∈ l2 -> key_lt k b).
Proof.
  induction l1 as [|x l1 IH]; cbn; intros Hs; inversion Hs as [|? ? Hs' Hx]; subst.
  - split_and!; [done|by intros ? ?%elem_of_nil|]. intros b Hb. by apply (proj1 (Forall_forall _ _) Hx).
  - destruct (IH Hs') as (H1 & H2 & H3). rewrite Forall_forall in Hx. split_and!.
    + constructor; [done|]. apply Forall_forall. intros y Hy. apply Hx. set_solver.
    + intros a [->|Ha]%elem_of_cons; [apply Hx; set_solver|by apply H2].
    + done.
Qed.

(** The facts of keys whose sorted form is [s]. *)
Definition sorted_facts (s : list (Z * Z)) : option (Z * Z) * option (Z * Z) * option (Z * Z) :=
  (head s, second_last s, last s).

Lemma observe_key_sorted l1 l2 k :
  StronglySorted key_lt (l1 ++ k :: l2) ->
  observe_key (sorted_facts (l1 ++ l2)) k = sorted_facts (l1 ++ k :: l2).
Proof.
  intros Hs. destruct (sorted_app_mid _ _ _ Hs) as (Hs' & Hlo & Hhi). unfold sorted_facts, observe_key, second_last.
  assert (Hfirst : (if is_none_or (head (l1 ++ l2)) (fun first => key_ltb k first) then Some k else head (l1 ++ l2))
                   = head (l1 ++ k :: l2)).
  { destruct l1 as [|x l1]; cbn.
    - destruct l2 as [|y l2]; cbn; [done|]. by rewrite (Hhi y ltac:(left)).
    - by rewrite (key_lt_asym _ _ (Hlo x ltac:(left))). }
  destruct l2 as [|y l2 _] using rev_ind.
  - (* the greatest key *)
    rewrite app_nil_r in *. rewrite last_snoc. rewrite removelast_last.
    destruct l1 as [|x l1 _] using rev_ind; [done|]. rewrite last_snoc.
    rewrite (Hlo x) by (apply elem_of_app; right; left). by rewrite Hfirst.
  - assert (Ey : key_ltb y k = false) by (apply key_lt_asym, Hhi, elem_of_app; right; left).
    rewrite app_comm_cons, !app_assoc, !last_snoc, !removelast_last, Ey.
    rewrite !app_assoc in Hfirst. rewrite app_comm_cons, app_assoc in Hfirst. rewrite Hfirst. f_equal. f_equal.
    destruct l2 as [|z l2 _] using rev_ind.
    + rewrite app_nil_r, last_snoc. destruct l1 as [|x l1 _] using rev_ind; [done|]. rewrite last_snoc. cbn [is_none_or].
      by rewrite (Hlo x) by (apply elem_of_app; right; left).
    + rewrite app_comm_cons, !app_assoc, !last_snoc. cbn [is_none_or].
      rewrite (key_lt_asym k z); [done|]. apply Hhi. set_solver.
Qed.

Lemma facts_keys_sorted l s :
  StronglySorted key_lt s -> s ≡ₚ (sample_key <$> l) -> key_facts (facts_of l) = sorted_facts s.
Proof.
  revert s. induction l as [|x l IH] using rev_ind; intros s Hs Hp.
  - cbn in Hp. symmetry in Hp. apply Permutation_nil in Hp as ->. done.
  - unfold facts_of. rewrite fold_left_app. cbn [fold_left]. fold (facts_of l). rewrite observe_key_facts.
    rewrite fmap_app in Hp. cbn in Hp. rewrite Permutation_app_comm in Hp. cbn in Hp.
    assert (Hin : sample_key x ∈ s) by (rewrite Hp; left).
    apply list_elem_of_split in Hin as (l1 & l2 & ->).
    destruct (sorted_app_mid _ _ _ Hs) as (Hs' & _ & _).
    rewrite (IH (l1 ++ l2) Hs'); [by apply observe_key_sorted|].
    rewrite <- Permutation_middle in Hp. by apply Permutation_cons_inv in Hp.
Qed.

(** ** The reference: the samples in order *)

Definition in_order (l : list ProjectionChargeSample) : list (Z * Z) := sample_key <$> sort_samples l.

Lemma insert_sample_perm s l : insert_sample s l ≡ₚ s :: l.
Proof. induction l as [|x l IH]; cbn; [done|]. case_match; [|done]. rewrite IH. by constructor. Qed.
Lemma sort_samples_perm l : sort_samples l ≡ₚ l.
Proof. induction l as [|x l IH]; cbn; [done|]. rewrite insert_sample_perm. by constructor. Qed.

Lemma key_trichotomy a b : key_ltb a b = false -> a <> b -> key_lt b a.
Proof.
  rewrite <- not_true_iff_false. fold (key_lt a b). rewrite !key_lt_spec. destruct a as [a1 a2], b as [b1 b2]. cbn.
  intros H Hne. destruct (decide (a1 = b1)) as [->|]; [|lia]. destruct (decide (a2 = b2)) as [->|]; [done|lia].
Qed.

Lemma insert_sample_sorted s l :
  StronglySorted key_lt (sample_key <$> l) -> sample_key s ∉ sample_key <$> l ->
  StronglySorted key_lt (sample_key <$> insert_sample s l).
Proof.
  induction l as [|x l IH]; cbn; intros Hs Hn; [by repeat constructor|]. inversion Hs as [|? ? Hs' Hx]; subst.
  apply not_elem_of_cons in Hn as [Hne Hn]. destruct (key_ltb (sample_key x) (sample_key s)) eqn:E; cbn.
  - constructor; [by apply IH|]. rewrite insert_sample_perm. cbn. by constructor.
  - constructor; [done|]. assert (Hk : key_lt (sample_key s) (sample_key x)) by (apply key_trichotomy; done).
    constructor; [done|]. eapply Forall_impl; [exact Hx|]. intros y. by apply key_lt_trans.
Qed.

Lemma in_order_sorted l : NoDup (sample_key <$> l) -> StronglySorted key_lt (in_order l).
Proof.
  unfold in_order. induction l as [|x l IH]; cbn; intros Hn; [constructor|]. apply NoDup_cons in Hn as [Hx Hn].
  apply insert_sample_sorted; [by apply IH|]. by rewrite sort_samples_perm.
Qed.

(** ** The counter and the brands *)

Definition counters (l : list ProjectionChargeSample) : list f64 := omap usable_energy_counter l.
Definition has_brand (b : SampleBrand) (l : list ProjectionChargeSample) : bool :=
  existsb (fun s => bool_decide (sample_brand s = b)) l.

Lemma observe_counter f s :
  sf_largest_counter (facts_observe f s) =
  match usable_energy_counter s with
  | Some c => Some (map_or (sf_largest_counter f) c (fun best => f64_max best c))
  | None => sf_largest_counter f
  end.
Proof.
  destruct f as [fi pr la lc tb ob]. unfold facts_observe. cbv zeta. set (k := sample_key s).
  destruct (is_none_or _ _); cbn [sf_first sf_previous sf_last sf_largest_counter update_with]; (destruct la as [l|]; [destruct (key_ltb l k) eqn:E; [|destruct (is_none_or pr _) eqn:E']|]);
    cbn; rewrite ?E, ?E'; destruct (usable_energy_counter s), (sample_brand s); reflexivity.
Qed.

Lemma observe_brands f s :
  sf_tesla_brand (facts_observe f s) = sf_tesla_brand f || bool_decide (sample_brand s = BrandTesla)
  /\ sf_other_brand (facts_observe f s) = sf_other_brand f || bool_decide (sample_brand s = BrandOther).
Proof.
  destruct f as [fi pr la lc tb ob]. unfold facts_observe. cbv zeta. set (k := sample_key s).
  destruct (is_none_or _ _); cbn [sf_first sf_previous sf_last sf_largest_counter update_with]; (destruct la as [l|]; [destruct (key_ltb l k) eqn:E; [|destruct (is_none_or pr _) eqn:E']|]);
    cbn; rewrite ?E, ?E'; destruct (usable_energy_counter s), (sample_brand s); cbn; rewrite ?orb_false_r, ?orb_true_r; done.
Qed.

Lemma usable_counter_nan s c : usable_energy_counter s = Some c -> f64_is_nan c = false.
Proof.
  unfold usable_energy_counter, finite_reading, opt_filter. destruct (ps_charge_energy_added_kwh s) as [x|]; [|done].
  destruct (f64_is_finite x) eqn:E; [|done]. case_match; [|done]. intros [= <-]. by apply f64_finite_not_nan.
Qed.

Lemma counters_nan l c : c ∈ counters l -> f64_is_nan c = false.
Proof. intros (s & _ & E)%list_elem_of_omap. by eapply usable_counter_nan. Qed.

Lemma facts_of_snoc l x : facts_of (l ++ [x]) = facts_observe (facts_of l) x.
Proof. unfold facts_of. by rewrite fold_left_app. Qed.

Definition largest_of (o : option f64) (l : list f64) : Prop :=
  match o with None => l = [] | Some m => m ∈ l /\ forall c, c ∈ l -> f64_leb c m = true end.

Lemma facts_largest l : largest_of (sf_largest_counter (facts_of l)) (counters l).
Proof.
  induction l as [|x l IH] using rev_ind; [done|]. rewrite facts_of_snoc, observe_counter. unfold counters. rewrite omap_app.
  fold (counters l). cbn. destruct (usable_energy_counter x) as [c|] eqn:Ec; [|by rewrite app_nil_r].
  pose proof (usable_counter_nan _ _ Ec) as Hc. destruct (sf_largest_counter (facts_of l)) as [m|]; cbn in *.
  - destruct IH as [Hm Hle]. pose proof (counters_nan _ _ Hm) as Hn. split.
    + unfold f64_max. rewrite Hn. case_match; set_solver.
    + intros d [Hd|Hd]%elem_of_app.
      * eapply f64_leb_trans; [by apply Hle|by apply f64_max_ge_l].
      * apply list_elem_of_singleton in Hd as ->. by apply f64_max_ge_r.
  - rewrite IH. cbn. split; [left|]. intros d Hd. apply list_elem_of_singleton in Hd as ->. by apply f64_leb_refl.
Qed.

Lemma facts_brands l :
  sf_tesla_brand (facts_of l) = has_brand BrandTesla l /\ sf_other_brand (facts_of l) = has_brand BrandOther l.
Proof.
  unfold has_brand. induction l as [|x l [IH1 IH2]] using rev_ind; [done|]. rewrite facts_of_snoc.
  destruct (observe_brands (facts_of l) x) as [-> ->]. rewrite !existsb_app, IH1, IH2. cbn. by rewrite !orb_false_r.
Qed.

(** Two numbers of the same rank, subtracted from, compare alike with a positive bound. *)
Lemma rank_eq_cases x y : f64_is_nan x = false -> f64_is_nan y = false -> rank x = rank y ->
  x = y \/ exists s t, x = S754_zero s /\ y = S754_zero t.
Proof.
  destruct x as [?|[]| |[] m e], y as [?|[]| |[] m' e']; cbn; intros; simplify_eq; auto; try (right; eauto; fail); left; f_equal; lia.
Qed.

Lemma sub_zero_below s a : f64_leb K_ENERGY_EPS_KWH (f64_sub (S754_zero s) a) = f64_leb K_ENERGY_EPS_KWH (f64_sub (S754_zero (negb s)) a).
Proof. by destruct s, a as [[]|[]| |[] m e]. Qed.

Lemma eps_rank x y a : f64_is_nan x = false -> f64_is_nan y = false -> rank x = rank y ->
  f64_leb K_ENERGY_EPS_KWH (f64_sub x a) = f64_leb K_ENERGY_EPS_KWH (f64_sub y a).
Proof.
  intros Hx Hy E. destruct (rank_eq_cases x y Hx Hy E) as [->|(s & t & -> & ->)]; [done|].
  destruct (decide (s = t)) as [->|Hne]; [done|]. rewrite (sub_zero_below s). by replace (negb s) with t by (destruct s, t; done).
Qed.

(** ** The rules over the sorted slice *)

(** [span_rule charge keys]: the start, the last two samples and the end are each
    within [K_INT_MAX_MS] of what they are compared with. *)
Definition span_rule (charge : ProjectionCharge) (keys : list (Z * Z)) : bool :=
  match head keys, last keys with
  | Some first, Some latest =>
      (i64_ssub first.1 (pc_start_date_ms charge) <=? K_INT_MAX_MS)
      && is_none_or (second_last keys) (fun previous => i64_ssub latest.1 previous.1 <=? K_INT_MAX_MS)
      && is_none_or (pc_end_date_ms charge) (fun end_ => i64_ssub end_ latest.1 <=? K_INT_MAX_MS)
  | _, _ => true
  end.

Lemma span_rule_facts charge f keys :
  key_facts f = sorted_facts keys -> charge_span_observed_from charge f = span_rule charge keys.
Proof.
  unfold key_facts, sorted_facts, charge_span_observed_from, span_rule. intros [= -> -> ->].
  destruct (head keys) as [[first i]|]; [|done]. destruct (last keys) as [[latest j]|]; [|done]. cbn [fst].
  rewrite Z.leb_antisym. destruct (K_INT_MAX_MS <? _); cbn [negb andb]; [done|].
  destruct (second_last keys) as [[previous k]|]; cbn [is_some_and is_none_or fst];
    rewrite ?Z.leb_antisym; try (destruct (K_INT_MAX_MS <? _); cbn [negb andb]; [done|]);
    (destruct (pc_end_date_ms charge); cbn [is_some_and is_none_or]; [|done]); rewrite Z.leb_antisym; by destruct (_ <? _).
Qed.

(** A counter of the samples that no other one exceeds. *)
Definition is_largest (m : f64) (cs : list f64) : Prop := m ∈ cs /\ forall c, c ∈ cs -> f64_leb c m = true.

Lemma largest_decides m m' cs a :
  (forall c, c ∈ cs -> f64_is_nan c = false) -> is_largest m cs -> is_largest m' cs ->
  f64_leb K_ENERGY_EPS_KWH (f64_sub m a) = f64_leb K_ENERGY_EPS_KWH (f64_sub m' a).
Proof.
  intros Hn [Hm Hle] [Hm' Hle']. apply eps_rank; [by apply Hn..|].
  pose proof (Hle _ Hm') as L1. pose proof (Hle' _ Hm) as L2. apply f64_leb_rank in L1 as (_ & _ & L1), L2 as (_ & _ & L2).
  destruct (rank m) as [[b c] d], (rank m') as [[b' c'] d']. cbn in *. destruct L1 as [L1|L1], L2 as [L2|L2]; simplify_eq; done || lia.
Qed.

(** The rule of a continued plug-in over a charge's samples: the largest usable counter
    exceeds the energy the charge reports by at least [K_ENERGY_EPS_KWH]. *)
Definition plug_in_rule (charge : ProjectionCharge) (samples : list ProjectionChargeSample) (continues : bool) : Prop :=
  match finite_reading (pc_charge_energy_added charge), counters samples with
  | Some added, (_ :: _) as cs =>
      (exists m, is_largest m cs)
      /\ forall m, is_largest m cs -> continues = f64_leb K_ENERGY_EPS_KWH (f64_sub m added)
  | _, _ => continues = false
  end.

Lemma plug_in_rule_facts charge samples : plug_in_rule charge samples (charge_continues_plug_in_from charge (facts_of samples)).
Proof.
  unfold plug_in_rule, charge_continues_plug_in_from. destruct (finite_reading _) as [added|]; [|done].
  pose proof (facts_largest samples) as H. destruct (sf_largest_counter (facts_of samples)) as [m|]; cbn in H.
  - destruct (counters samples) as [|c cs] eqn:E; [by destruct H as [?%elem_of_nil _]|]. split; [by exists m|]. intros m' Hm'.
    cbn. apply (largest_decides m m' (c :: cs)); [|exact H|exact Hm']. rewrite <- E. apply counters_nan.
  - by rewrite H.
Qed.

Lemma plug_in_rule_perm charge samples samples' continues :
  samples ≡ₚ samples' -> plug_in_rule charge samples' continues -> plug_in_rule charge samples continues.
Proof.
  intros Hp. unfold plug_in_rule. destruct (finite_reading _) as [added|]; [|done].
  assert (Hc : counters samples ≡ₚ counters samples') by (unfold counters; by rewrite Hp).
  assert (Hl : forall m, is_largest m (counters samples) <-> is_largest m (counters samples')).
  { intros m. unfold is_largest. rewrite Hc. split; intros [? Hle]; (split; [done|]); intros c Hin; apply Hle; by rewrite ?Hc in *. }
  destruct (counters samples) as [|c cs], (counters samples') as [|c' cs'].
  - done.
  - by apply Permutation_nil_cons in Hc.
  - by apply symmetry, Permutation_nil_cons in Hc.
  - intros [[m Hm] H]. split; [exists m; by apply Hl|]. intros m' Hm'. by apply H, Hl.
Qed.

(** C32: The facts folded one sample at a time, in constant space and in any order, give
    the decisions of the rules over the samples themselves: the observed span is
    [span_rule] of their keys in order of time, then id; a charge continues its plug-in
    exactly when the largest usable counter among the samples exceeds the energy the
    charge reports by the counter's tolerance ([plug_in_rule]); the brand is Tesla
    exactly when a sample names Tesla and none names another. *)
Theorem folded_facts_match_sorted_rule (charge : ProjectionCharge) (samples samples' : list ProjectionChargeSample)
    (Hkeys : NoDup (sample_key <$> samples)) (Hperm : samples ≡ₚ samples') :
  charge_span_observed_from charge (facts_of samples') = span_rule charge (in_order samples)
  /\ plug_in_rule charge samples (charge_continues_plug_in_from charge (facts_of samples'))
  /\ brand_is_tesla (facts_of samples') = has_brand BrandTesla samples && negb (has_brand BrandOther samples).
Proof.
  split_and!.
  - apply span_rule_facts, facts_keys_sorted; [by apply in_order_sorted|].
    unfold in_order. by rewrite sort_samples_perm, Hperm.
  - apply (plug_in_rule_perm _ _ samples' _ Hperm), plug_in_rule_facts.
  - unfold brand_is_tesla. destruct (facts_brands samples') as [-> ->].
    assert (Hb : forall b, has_brand b samples' = has_brand b samples).
    { intros b. unfold has_brand. apply eq_true_iff_eq. rewrite !existsb_exists.
      split; intros (x & Hx%list_elem_of_In & E); exists x; (split; [|done]); apply list_elem_of_In; [by rewrite Hperm|by rewrite <- Hperm]. }
    by rewrite !Hb.
Qed.

Definition ex_charge_sample (id t : Z) (brand : option string) : ProjectionChargeSample :=
  {| ps_id := id; ps_charge_process_id := 1; ps_timestamp_ms := t; ps_battery_level := None; ps_usable_battery_level := None;
     ps_charge_energy_added_kwh := Some (f64_of_Z id); ps_charger_power_kw := None; ps_charger_voltage := None;
     ps_charger_actual_current := None; ps_charger_pilot_current := None; ps_charger_phases := None;
     ps_ideal_range_km := None; ps_rated_range_km := None; ps_outside_temp_c := None; ps_battery_heater_on := None;
     ps_battery_heater := None; ps_battery_heater_no_power := None; ps_not_enough_power_to_heat := None;
     ps_fast_charger_present := None; ps_fast_charger_brand := brand; ps_fast_charger_type := None; ps_charge_cable := None |}.
Definition ex_charge (start end_ : Z) : ProjectionCharge :=
  {| pc_id := 1; pc_car_id := 9; pc_start_date_ms := start; pc_end_date_ms := Some end_; pc_charge_energy_added := None;
     pc_charge_energy_used_kwh := None; pc_start_ideal_range_km := None; pc_end_ideal_range_km := None; pc_cost := None;
     pc_fast_charger_type := None; pc_billing_type := None; pc_cost_per_unit := None; pc_session_fee := None;
     pc_start_latitude := None; pc_start_longitude := None; pc_start_battery_level := None; pc_end_battery_level := None;
     pc_duration_min := None; pc_address := None; pc_location_name := None; pc_geofence := None; pc_is_dc := None;
     pc_charge_rate_km_per_hour := None; pc_max_charger_power_kw := None; pc_outside_temp_avg := None;
     pc_start_rated_range_km := None; pc_end_rated_range_km := None |}.
Definition ex_samples : list ProjectionChargeSample :=
  [ex_charge_sample 1 1000 (Some "Tesla"); ex_charge_sample 2 500000 None; ex_charge_sample 3 1200000 None].

(** A gap of 700 s before the last sample: the span is not observed. The counters reach
    3 kWh and the charge reports 1: it continues a plug-in. *)
Lemma folded_facts_match_sorted_rule_witness :
  let charge := (ex_charge 0 1200000) <| pc_charge_energy_added := Some (f64_of_Z 1) |> in
  charge_span_observed_from charge (facts_of (reverse ex_samples)) = span_rule charge (in_order ex_samples)
  /\ span_rule charge (in_order ex_samples) = false
  /\ charge_continues_plug_in_from charge (facts_of (reverse ex_samples)) = true
  /\ plug_in_rule charge ex_samples true.
Proof.
  intros charge.
  assert (C : charge_continues_plug_in_from charge (facts_of (reverse ex_samples)) = true) by (vm_compute; reflexivity).
  assert (K : NoDup (sample_key <$> ex_samples)) by (vm_compute; by apply (bool_decide_unpack _)).
  destruct (folded_facts_match_sorted_rule charge ex_samples (reverse ex_samples) K) as (S & P & _);
    [symmetry; apply reverse_Permutation|].
  rewrite C in P. split; [exact S|]. split; [vm_compute; reflexivity|]. by split.
Defined.
