(* ===== verification/LifeDrive.v ===== *)
(** * The drive and charge lifecycle: an open drive

    The drive half of [src/src/runtime/lifecycle/drive_and_charge.rs]: the elevation
    walk, the fold of one point, the checkpoints and the row of a closed drive. *)
From S2P Require Import Prelude F64 LifeData Geo.
Local Open Scope Z_scope.

Definition K_PARK_INTERVAL_MS : Z := 15 * 60 * 1000.
Definition K_ELEV_BAND : Z := 2.
Definition K_ELEV_MIN : Z := -1000.
Definition K_ELEV_MAX : Z := 9000.
Definition K_SMALLINT_MAX : Z := 32767.
Definition K_LEAD_CHECKPOINTS : nat := 4.

(** ** The elevation walk *)

Definition elevation_ok (value : Z) : bool := (K_ELEV_MIN <=? value) && (value <=? K_ELEV_MAX).

Definition i64_sneg (z : Z) : Z := clamp i64_min i64_max (- z).

Definition walk_step (w : ElevationWalk) (elevation_m : option Z) : ElevationWalk :=
  match opt_filter elevation_ok elevation_m with
  | None => w
  | Some elevation =>
      let w := w <| ew_count := u32_sadd (ew_count w) 1 |> in
      match ew_reference_m w with
      | None => w <| ew_reference_m := Some elevation |>
      | Some reference =>
          let change := i64_ssub elevation reference in
          if change >=? K_ELEV_BAND then
            w <| ew_ascent_m := i64_sadd (ew_ascent_m w) change |> <| ew_reference_m := Some elevation |>
          else if i64_sneg change >=? K_ELEV_BAND then
            w <| ew_descent_m := i64_sadd (ew_descent_m w) (i64_sneg change) |> <| ew_reference_m := Some elevation |>
          else w
      end
  end.

Definition walk_totals (w : ElevationWalk) : option Z * option Z :=
  if ew_count w <? 2 then (None, None)
  else (Some (Z.min (ew_ascent_m w) K_SMALLINT_MAX), Some (Z.min (ew_descent_m w) K_SMALLINT_MAX)).

Definition elevation_totals (elevations : list (option Z)) : option Z * option Z :=
  walk_totals (fold_left walk_step elevations ElevationWalk_default).

(** ** The open drive *)

Definition drive_empty (id car_id start_date_ms : Z) : OpenDrive :=
  {| od_id := id; od_car_id := car_id; od_start_date_ms := start_date_ms; od_start_latitude := None;
     od_start_longitude := None; od_start_soc := None; od_start_rated_range_km := None; od_speed_max := None;
     od_outside_temp_sum := f64_zero; od_outside_temp_count := 0; od_position_count := 0;
     od_last_position_date_ms := None; od_last_latitude := None; od_last_longitude := None; od_last_soc := None;
     od_last_rated_range_km := None; od_last_odometer := None; od_first_odometer := None; od_power_max := None;
     od_power_min := None; od_inside_temp_sum := f64_zero; od_inside_temp_count := 0;
     od_start_ideal_range_km := None; od_end_ideal_range_km := None; od_elevation_ascent := 0;
     od_elevation_descent := 0; od_last_elevation := None; od_saw_offline := false;
     od_last_charge_energy_added := None; od_last_ideal_range_km := None; od_last_folded_at_ms := None;
     od_last_motion_at_ms := None; od_max_displacement_m := f64_zero; od_elevation_count := 0;
     od_odometer_coarse := false; od_still_checkpoint := None; od_lead_checkpoints := []; od_positions := [] |}.

Definition effective_last_folded_ms (d : OpenDrive) : Z :=
  default (od_start_date_ms d) (opt_or (od_last_folded_at_ms d) (od_last_position_date_ms d)).
Definition effective_last_motion_ms (d : OpenDrive) : Z :=
  default (od_start_date_ms d) (opt_or (od_last_motion_at_ms d) (od_last_position_date_ms d)).
Definition effective_elevation_count (d : OpenDrive) : Z :=
  if (od_elevation_count d =? 0) && is_some (od_last_elevation d) then 1 else od_elevation_count d.

Definition elevation_walk (d : OpenDrive) : ElevationWalk :=
  MkElevationWalk (od_last_elevation d) (effective_elevation_count d) (od_elevation_ascent d) (od_elevation_descent d).

(** A copy without its positions and checkpoints. *)
Definition detached_copy (open : OpenDrive) : OpenDrive :=
  open <| od_positions := [] |> <| od_still_checkpoint := None |> <| od_lead_checkpoints := [] |>.

(** ** The fold of one point, part by part *)

Definition fold_position (position : ProjectionPosition) (open : OpenDrive) : OpenDrive :=
  let walk := walk_step (elevation_walk open) (pp_elevation position) in
  open <| od_position_count := u32_sadd (od_position_count open) 1 |>
       <| od_last_position_date_ms := Some (pp_date_ms position) |>
       <| od_last_latitude := Some (pp_latitude position) |>
       <| od_last_longitude := Some (pp_longitude position) |>
       <| od_last_elevation := ew_reference_m walk |>
       <| od_elevation_count := ew_count walk |>
       <| od_elevation_ascent := ew_ascent_m walk |>
       <| od_elevation_descent := ew_descent_m walk |>.

Definition fold_coordinates `{Libm} (at_ : f64 * f64) (open : OpenDrive) : OpenDrive :=
  let open := if is_none (od_start_latitude open) || is_none (od_start_longitude open)
              then open <| od_start_latitude := Some at_.1 |> <| od_start_longitude := Some at_.2 |> else open in
  match od_start_latitude open, od_start_longitude open with
  | Some start_latitude, Some start_longitude =>
      match distance_between (start_latitude, start_longitude) at_ with
      | Some distance => open <| od_max_displacement_m := f64_max (od_max_displacement_m open) distance |>
      | None => open
      end
  | _, _ => open
  end.

Definition fold_odometer (odometer : f64) (coarse : bool) (open : OpenDrive) : OpenDrive :=
  let first := default odometer (od_first_odometer open) in
  open <| od_first_odometer := Some first |>
       <| od_last_odometer := Some (f64_max (map_or (od_last_odometer open) odometer (fun last => f64_max last odometer)) first) |>
       <| od_odometer_coarse := od_odometer_coarse open || coarse |>.

(** The values of the battery, motion, climate and charge families. *)
Definition fold_soc (point : DrivePoint) (open : OpenDrive) : OpenDrive :=
  match dp_battery_level point with
  | Some level => open <| od_start_soc := Some (default level (od_start_soc open)) |> <| od_last_soc := Some level |>
  | None => open
  end.
Definition fold_ideal (point : DrivePoint) (open : OpenDrive) : OpenDrive :=
  match dp_ideal_range_km point with
  | Some ideal => open <| od_start_ideal_range_km := Some (default ideal (od_start_ideal_range_km open)) |>
                       <| od_end_ideal_range_km := Some ideal |> <| od_last_ideal_range_km := Some ideal |>
  | None => open
  end.
Definition fold_rated (point : DrivePoint) (open : OpenDrive) : OpenDrive :=
  match dp_rated_range_km point with
  | Some rated => open <| od_start_rated_range_km := Some (default rated (od_start_rated_range_km open)) |>
                       <| od_last_rated_range_km := Some rated |>
  | None => open
  end.
Definition fold_speed (point : DrivePoint) (open : OpenDrive) : OpenDrive :=
  match dp_speed point with
  | Some speed => open <| od_speed_max := Some (map_or (od_speed_max open) speed (fun m => Z.max m speed)) |>
  | None => open
  end.
Definition fold_power (point : DrivePoint) (open : OpenDrive) : OpenDrive :=
  match dp_power point with
  | Some power => open <| od_power_max := Some (map_or (od_power_max open) power (fun m => f64_max m power)) |>
                       <| od_power_min := Some (map_or (od_power_min open) power (fun m => f64_min m power)) |>
  | None => open
  end.
Definition fold_outside (point : DrivePoint) (open : OpenDrive) : OpenDrive :=
  match dp_outside_temp point with
  | Some temp => open <| od_outside_temp_sum := f64_add (od_outside_temp_sum open) temp |>
                      <| od_outside_temp_count := u32_sadd (od_outside_temp_count open) 1 |>
  | None => open
  end.
Definition fold_inside (point : DrivePoint) (open : OpenDrive) : OpenDrive :=
  match dp_inside_temp point with
  | Some temp => open <| od_inside_temp_sum := f64_add (od_inside_temp_sum open) temp |>
                      <| od_inside_temp_count := u32_sadd (od_inside_temp_count open) 1 |>
  | None => open
  end.
Definition fold_charge_energy (point : DrivePoint) (open : OpenDrive) : OpenDrive :=
  match dp_charge_energy_added point with
  | Some energy => open <| od_last_charge_energy_added := Some energy |>
  | None => open
  end.
Definition fold_values (point : DrivePoint) (open : OpenDrive) : OpenDrive :=
  let open := fold_rated point (fold_ideal point (fold_soc point open)) in
  let open := fold_inside point (fold_outside point (fold_power point (fold_speed point open))) in
  fold_charge_energy point open.

(** The time, the stored position, the coordinates and the odometer of the point. *)
Definition fold_time (point : DrivePoint) (open : OpenDrive) : OpenDrive :=
  open <| od_last_folded_at_ms :=
            Some (map_or (od_last_folded_at_ms open) (dp_at_ms point) (fun last => Z.max last (dp_at_ms point))) |>.
Definition fold_emitted (emitted : option ProjectionPosition) (open : OpenDrive) : OpenDrive :=
  match emitted with Some position => fold_position position open | None => open end.
Definition fold_at `{Libm} (point : DrivePoint) (open : OpenDrive) : OpenDrive :=
  match dp_coordinates point with Some at_ => fold_coordinates at_ open | None => open end.
Definition fold_odo (point : DrivePoint) (open : OpenDrive) : OpenDrive :=
  match opt_filter f64_is_finite (dp_odometer_km point) with
  | Some odometer => fold_odometer odometer (dp_odometer_coarse point) open
  | None => open
  end.

(** Everything of the fold but the still checkpoint. *)
Definition fold_facts `{Libm} (open : OpenDrive) (point : DrivePoint) (emitted : option ProjectionPosition) : OpenDrive :=
  fold_values point (fold_odo point (fold_at point (fold_emitted emitted (fold_time point open)))).

(** The still checkpoint. *)
Definition fold_still (point : DrivePoint) (track_still : bool) (open : OpenDrive) : OpenDrive :=
  match dp_evidence point with
  | Motion => open <| od_last_motion_at_ms := Some (dp_at_ms point) |> <| od_still_checkpoint := None |>
  | NoInfo => if track_still && is_none (od_still_checkpoint open)
              then open <| od_still_checkpoint := Some (detached_copy open) |> else open
  | Park => open
  end.

Definition fold_drive_point `{Libm} (open : OpenDrive) (point : DrivePoint) (emitted : option ProjectionPosition)
    (track_still : bool) : OpenDrive :=
  fold_still point track_still (fold_facts open point emitted).

Definition observe_drive_point `{Libm} (open : OpenDrive) (point : DrivePoint) (emitted : option ProjectionPosition) : OpenDrive :=
  fold_drive_point open point emitted true.

Definition position_point (position : ProjectionPosition) : DrivePoint :=
  {| dp_at_ms := pp_date_ms position; dp_coordinates := Some (pp_latitude position, pp_longitude position);
     dp_speed := pp_speed position; dp_power := pp_power position; dp_battery_level := pp_battery_level position;
     dp_ideal_range_km := pp_ideal_battery_range_km position; dp_rated_range_km := pp_rated_battery_range_km position;
     dp_odometer_km := pp_odometer position; dp_odometer_coarse := false; dp_outside_temp := pp_outside_temp position;
     dp_inside_temp := pp_inside_temp position; dp_charge_energy_added := None; dp_evidence := Motion |}.
Definition observe_drive_position `{Libm} (open : OpenDrive) (position : ProjectionPosition) : OpenDrive :=
  observe_drive_point open (position_point position) (Some position).

(** ** The row of a closed drive *)

Definition drive_distance (open : OpenDrive) : option f64 :=
  match od_first_odometer open, od_last_odometer open with
  | Some first, Some last =>
      if f64_is_finite first && f64_is_finite last then Some (f64_max (f64_sub last first) f64_zero) else None
  | _, _ => None
  end.

Definition drive_kept (open : OpenDrive) (always_keep : bool) : bool :=
  let distance_km := drive_distance open in
  always_keep || is_some_and distance_km (fun distance => f64_leb K_DMIN_KM distance)
  || ((is_none distance_km || od_odometer_coarse open)
      && f64_leb (f64_mul K_DMIN_KM (f64_of_Z 1000)) (od_max_displacement_m open)).

Definition drive_end (open : OpenDrive) (explicit_end : option Z) : Z :=
  Z.max (map_or explicit_end (effective_last_folded_ms open) (fun end_ => Z.max end_ (effective_last_folded_ms open)))
    (od_start_date_ms open).

Definition duration_min_of (start_ms end_ms : Z) : Z :=
  f64_as_i64 (f64_min (f64_round (f64_div (f64_of_Z (i64_sub end_ms start_ms)) (f64_of_Z 60000))) (f64_of_Z K_SMALLINT_MAX)).

Definition mean_of (sum : f64) (count : Z) : option f64 :=
  then_some (count >? 0) (round_to_precision (f64_div sum (f64_of_Z count)) 1).
Definition round_opt (value : option f64) (precision : Z) : option f64 := (fun v => round_to_precision v precision) <$> value.

Definition finalize_drive (open : OpenDrive) (always_keep : bool) (explicit_end : option Z)
    : result LifecycleError (option ProjectionDrive) :=
  let end_date_ms := drive_end open explicit_end in
  if negb (drive_kept open always_keep) then Ok None
  else
    let '(ascent, descent) := walk_totals (elevation_walk open) in
    Ok (Some
      {| pd_id := od_id open; pd_car_id := od_car_id open; pd_optimized_at_ms := None;
         pd_start_date_ms := od_start_date_ms open; pd_end_date_ms := end_date_ms;
         pd_distance_km := drive_distance open;
         pd_duration_min := Some (duration_min_of (od_start_date_ms open) end_date_ms); pd_efficiency := None;
         pd_outside_temp_avg := mean_of (od_outside_temp_sum open) (od_outside_temp_count open);
         pd_inside_temp_avg := mean_of (od_inside_temp_sum open) (od_inside_temp_count open);
         pd_speed_max := od_speed_max open; pd_power_max := od_power_max open; pd_power_min := od_power_min open;
         pd_start_ideal_range_km := round_opt (od_start_ideal_range_km open) 2;
         pd_end_ideal_range_km := round_opt (od_end_ideal_range_km open) 2;
         pd_start_address := None; pd_end_address := None; pd_start_geofence := None; pd_end_geofence := None;
         pd_start_latitude := round_opt (od_start_latitude open) 6; pd_start_longitude := round_opt (od_start_longitude open) 6;
         pd_end_latitude := round_opt (od_last_latitude open) 6; pd_end_longitude := round_opt (od_last_longitude open) 6;
         pd_start_soc := od_start_soc open; pd_end_soc := od_last_soc open;
         pd_start_rated_range_km := round_opt (od_start_rated_range_km open) 2;
         pd_end_rated_range_km := round_opt (od_last_rated_range_km open) 2;
         pd_ascent := ascent; pd_descent := descent |}).
