(* ===== verification/LifeParse.v ===== *)
(** * The drive and charge lifecycle: reading one observation

    The field readers of [src/src/runtime/lifecycle/state_and_updates.rs] and
    [parse_sample] of [projection.rs], with the car names of
    [src/src/sync/hub_pack/model.rs].  A payload is a [serde_json::Value]. *)
From S2P Require Import Prelude RustStr F64 Text External LifeData Geo LifeEnergy LifeDrive.
Local Open Scope string_scope.
Local Open Scope Z_scope.

Notation object := (list (string * json)) (only parsing).

(** ** Field readers *)

Definition MAX_FIELD_TEXT_CHARS : Z := 255.
Definition SMALLINT_MIN : Z := -32768.
Definition SMALLINT_MAX : Z := K_SMALLINT_MAX.

Definition as_f64 (v : json) : option f64 := json_as_number v ≫= number_as_f64.
Definition as_bool (v : json) : option bool := match v with JBool b => Some b | _ => None end.

Definition object_field (map : object) (key : string) : option object := obj_get key map ≫= json_as_object.

Definition float_field (map : object) (key : string) : option f64 :=
  value ← obj_get key map;
  number ← match value with
           | JNumber number => number_as_f64 number
           | JString text => parse_f64 (utrim text)
           | _ => None
           end;
  then_some (f64_is_finite number) number.

Definition int_field (map : object) (key : string) : option Z :=
  number ← f64_round <$> float_field map key;
  then_some (f64_ltb (f64_abs number) (f64_of_Z i64_max)) (f64_as_i64 number).

Definition bool_field (map : object) (key : string) : option bool := obj_get key map ≫= as_bool.

Definition text_field (fields : option object) (key : string) : option string :=
  opt_filter (fun value => negb (str_is_empty value)) (utrim <$> ((fields ≫= obj_get key) ≫= json_as_str)).

Definition timestamp_field (fields : object) (key : string) : option Z :=
  value ← obj_get key fields;
  timestamp ← opt_or (json_as_number value ≫= number_as_i64)
                (opt_or (text ← json_as_str value; parse_i64 (utrim text))
                   (number ← as_f64 value;
                    then_some (f64_is_finite number && f64_leb f64_one number
                               && f64_leb number (f64_of_Z i64_max) && f64_eqb (f64_fract number) f64_zero)
                      (f64_as_i64 number)));
  then_some (timestamp >? 0) timestamp.

Definition scaled_field (map : option object) (key : string) (precision : Z) (min max : f64) : option f64 :=
  map ← map;
  value ← (fun x => round_to_precision x precision) <$> float_field map key;
  then_some (f64_contains min max value) value.

Definition miles_field (map : option object) (key : string) (precision : Z) (min max : f64) : option f64 :=
  map ← map;
  value ← (fun x => miles_to_km_rounded x precision) <$> float_field map key;
  then_some (f64_contains min max value) value.

Definition in_range (min max value : Z) : bool := (min <=? value) && (value <=? max).

Definition ranged_int_field (map : option object) (key : string) (min max : Z) : option Z :=
  opt_filter (in_range min max) (map ← map; int_field map key).

Definition bounded_text_field (map : option object) (key : string) : option string :=
  opt_filter (fun text => chars_count text <=? MAX_FIELD_TEXT_CHARS) (text_field map key).

Definition group_time (group : option object) (observed_at_ms : Z) : Z :=
  let latest := i64_sadd observed_at_ms K_SKEW_MS in
  default observed_at_ms
    (opt_filter (in_range K_EARLIEST_MS latest) (fields ← group; timestamp_field fields "timestamp")).

Definition vehicle_data_object (root : object) : result LifecycleError object :=
  let provider_response := raw ← obj_get "provider_raw_json" root ≫= json_as_object; obj_get "response" raw in
  ok_or (opt_or provider_response (obj_get "vehicle_data" root) ≫= json_as_object) LeInvalidPayload.

Definition group_object (data : option object) (key : string) : result LifecycleError (option object) :=
  match data ≫= obj_get key with
  | None | Some JNull => Ok None
  | Some (JObject group) => Ok (Some group)
  | Some _ => Err LeInvalidPayload
  end.

(** ** Names of the car *)

Definition normalize_tesla_model_code (value : string) : string :=
  let trimmed := utrim value in
  let compact := remove_char " " (to_lowercase trimmed) in
  if starts_with "models" compact || bool_decide (compact = "lychee") then "S"
  else if starts_with "model3" compact then "3"
  else if starts_with "modelx" compact || bool_decide (compact = "tamarind") then "X"
  else if starts_with "modely" compact then "Y"
  else if starts_with "cybertruck" compact then "Cybertruck"
  else trimmed.

Definition normalize_tesla_trim (value : string) : string := to_uppercase (utrim value).

Definition VIN_YEAR_LETTERS : string := "ABCDEFGHJKLMNPRSTVWXY".

Fixpoint str_index (c : ascii) (s : string) (i : Z) : option Z :=
  match s with
  | EmptyString => None
  | String d s => if bool_decide (d = c) then Some i else str_index c s (i + 1)
  end.

(** The model year of a VIN's tenth character: 2010 to 2030 for the letters in
    order, 2031 to 2039 for the digits. *)
Definition vin_model_year (c : ascii) : option Z :=
  match str_index c VIN_YEAR_LETTERS 2010 with
  | Some year => Some year
  | None => if byte_in 49 57 c then Some (2030 + (byte_of c - 48)) else None
  end.

Definition is_ascii_text (s : string) : bool := str_all (fun c => byte_of c <? 128) s.

Definition model_3_base_trim (vin : option string) : string :=
  match opt_filter (fun vin => (str_len vin =? 17) && is_ascii_text vin) vin with
  | None => "SR+"
  | Some vin =>
      match String.get 9 vin ≫= vin_model_year with
      | Some model_year => if 2022 <=? model_year then "RWD" else "SR+"
      | None => "SR+"
      end
  end.

Definition derive_tesla_marketing_name (model : string) (trim_badging raw_car_type vin : option string) : option string :=
  let model := normalize_tesla_model_code model in
  let trim := normalize_tesla_trim <$> trim_badging in
  let raw := to_lowercase (default "" raw_car_type) in
  let row m t r := bool_decide (model = m) && bool_decide (trim = Some t) && is_none_or r (fun r => bool_decide (raw = r)) in
  if row "S" "100D" (Some "lychee") then Some "LR"
  else if row "S" "P100D" (Some "lychee") then Some "Plaid"
  else if row "S" "100D" (Some "models2") then Some "LR+"
  else if row "3" "P74D" None then Some "LR AWD Performance"
  else if row "3" "74D" None then Some "LR AWD"
  else if row "3" "74" None then Some "LR"
  else if row "3" "62" None then Some "MR"
  else if row "3" "50" None then Some (model_3_base_trim vin)
  else if row "X" "100D" (Some "tamarind") then Some "LR"
  else if row "X" "P100D" (Some "tamarind") then Some "Plaid"
  else if row "Y" "P74D" None then Some "LR AWD Performance"
  else if row "Y" "74D" None then Some "LR AWD"
  else if row "Y" "74" None then Some "LR"
  else if row "Y" "50" None then Some "SR"
  else None.

Definition patch_is_empty (p : ProjectionCarPatch) : bool :=
  is_none (cp_name p) && is_none (cp_model p) && is_none (cp_vin p) && is_none (cp_trim_badging p)
  && is_none (cp_marketing_name p) && is_none (cp_exterior_color p) && is_none (cp_wheel_type p)
  && is_none (cp_spoiler_type p) && is_none (cp_firmware_version p).

(** [merge_newer]: a stated value replaces the known one. *)
Definition merge_newer (old newer : ProjectionCarPatch) : ProjectionCarPatch :=
  MkProjectionCarPatch (opt_or (cp_name newer) (cp_name old)) (opt_or (cp_model newer) (cp_model old))
    (opt_or (cp_vin newer) (cp_vin old)) (opt_or (cp_trim_badging newer) (cp_trim_badging old))
    (opt_or (cp_marketing_name newer) (cp_marketing_name old)) (opt_or (cp_exterior_color newer) (cp_exterior_color old))
    (opt_or (cp_wheel_type newer) (cp_wheel_type old)) (opt_or (cp_spoiler_type newer) (cp_spoiler_type old))
    (opt_or (cp_firmware_version newer) (cp_firmware_version old)).

Definition car_patch (kind : SourceKind) (root : object) (vehicle_data vehicle_state vehicle_config : option object)
    : ProjectionCarPatch :=
  let raw_car_type := text_field vehicle_config "car_type" in
  let model := normalize_tesla_model_code <$> raw_car_type in
  let trim_badging := normalize_tesla_trim <$> text_field vehicle_config "trim_badging" in
  let vin := opt_or (text_field (Some root) "vin") (text_field vehicle_data "vin") in
  {| cp_name := opt_or (text_field (Some root) "display_name")
                  (opt_or (text_field vehicle_data "display_name") (text_field vehicle_state "vehicle_name"));
     cp_model := model; cp_vin := vin; cp_trim_badging := trim_badging;
     cp_marketing_name := (raw ← raw_car_type; m ← model; derive_tesla_marketing_name m trim_badging (Some raw) vin);
     cp_exterior_color := text_field vehicle_config "exterior_color";
     cp_wheel_type := text_field vehicle_config "wheel_type";
     cp_spoiler_type := text_field vehicle_config "spoiler_type";
     cp_firmware_version := if bool_decide (kind = Sparse) then None else text_field vehicle_state "car_version" |}.

(** ** [parse_sample] *)

Definition HUB_EVENT_RECORD_TYPE : string := "hub_lifecycle_event_v1".

Definition has_vehicle_data (kind : SourceKind) : bool :=
  match kind with Full | Sparse | Stream => true | _ => false end.

(** What the record type says: the kind, its data object, the provider's feed and
    the Hub's event. *)
Record Envelope := MkEnvelope {
  en_kind : SourceKind; en_data : option object; en_feed : option string; en_event : option HubEventKind
}.

Definition read_envelope (root : object) : result LifecycleError Envelope :=
  let record_type := obj_get "record_type" root ≫= json_as_str in
  let is_type t := bool_decide (record_type = Some t) in
  if is_type "owner_api_vehicle_data_v1" then
    data ← vehicle_data_object root; mret (MkEnvelope Full (Some data) None None)
  else if is_type "fleet_api_vehicle_data_v1" then
    let feed := opt_filter (fun feed => negb (str_is_empty feed))
                  (utrim <$> (obj_get "provider_feed" root ≫= json_as_str)) in
    data ← vehicle_data_object root;
    mret (MkEnvelope (if is_some feed then Sparse else Full) (Some data) feed None)
  else if is_type "owner_api_discovery_v1" || is_type "fleet_api_discovery_v1" then
    mret (MkEnvelope Discovery None None None)
  else if is_type "tesla_stream_update_v1" then
    data ← ok_or (obj_get "fields" root ≫= json_as_object) LeInvalidPayload;
    mret (MkEnvelope Stream (Some data) None None)
  else if is_type HUB_EVENT_RECORD_TYPE then
    let event := obj_get "event" root ≫= json_as_str in
    mret (MkEnvelope HubEvent None None
            (if bool_decide (event = Some "no_data") then Some NoData
             else if bool_decide (event = Some "service_refused") then Some ServiceRefused else None))
  else mret (MkEnvelope UnknownKind None None None).

(** The values of each group. *)
Definition parse_drive (drive : option object) (p : ParsedSample) : ParsedSample :=
  let p := p <| p_shift_state := text_field drive "shift_state" |>
             <| p_shift_state_key_present :=
                  is_some_and (drive ≫= obj_get "shift_state") (fun v => match v with JNull => true | _ => false end) |>
             <| p_speed := opt_filter (in_range 0 SMALLINT_MAX) (mph_to_kmh <$> (fields ← drive; float_field fields "speed")) |>
             <| p_power := scaled_field drive "power" 0 (f64_of_Z SMALLINT_MIN) (f64_of_Z SMALLINT_MAX) |> in
  let pair := fields ← drive;
              latitude ← float_field fields "latitude";
              longitude ← float_field fields "longitude";
              valid_coordinates (Some (round_to_precision latitude 6)) (Some (round_to_precision longitude 6)) in
  let p := match pair with
           | Some (latitude, longitude) => p <| p_latitude := Some latitude |> <| p_longitude := Some longitude |>
           | None => p
           end in
  p <| p_elevation := opt_or (ranged_int_field drive "elevation" SMALLINT_MIN SMALLINT_MAX)
                        (ranged_int_field drive "native_location_elevation" SMALLINT_MIN SMALLINT_MAX) |>.

Definition MAX_RANGE_KM : f64 := f64_lit 999999 100.

Definition parse_charge (charge : option object) (p : ParsedSample) : ParsedSample :=
  let smallint_f64 key := scaled_field charge key 0 (f64_of_Z SMALLINT_MIN) (f64_of_Z SMALLINT_MAX) in
  p <| p_charging_state := text_field charge "charging_state" |>
    <| p_battery_level := ranged_int_field charge "battery_level" 0 100 |>
    <| p_usable_battery_level := ranged_int_field charge "usable_battery_level" 0 100 |>
    <| p_rated_range_km := miles_field charge "battery_range" 2 f64_zero MAX_RANGE_KM |>
    <| p_ideal_range_km := miles_field charge "ideal_battery_range" 2 f64_zero MAX_RANGE_KM |>
    <| p_est_range_km := miles_field charge "est_battery_range" 2 f64_zero MAX_RANGE_KM |>
    <| p_charge_energy_added := scaled_field charge "charge_energy_added" 2 f64_zero (f64_lit 99999999 100) |>
    <| p_charger_power_kw := smallint_f64 "charger_power" |>
    <| p_charger_voltage := smallint_f64 "charger_voltage" |>
    <| p_charger_actual_current := smallint_f64 "charger_actual_current" |>
    <| p_charger_pilot_current := smallint_f64 "charger_pilot_current" |>
    <| p_charger_phases := ranged_int_field charge "charger_phases" SMALLINT_MIN SMALLINT_MAX |>
    <| p_fast_charger_present := (fields ← charge; bool_field fields "fast_charger_present") |>
    <| p_fast_charger_brand := bounded_text_field charge "fast_charger_brand" |>
    <| p_fast_charger_type := bounded_text_field charge "fast_charger_type" |>
    <| p_charge_cable := bounded_text_field charge "conn_charge_cable" |>
    <| p_battery_heater_on := (fields ← charge; bool_field fields "battery_heater_on") |>
    <| p_not_enough_power_to_heat := (fields ← charge; bool_field fields "not_enough_power_to_heat") |>.

Definition parse_climate (climate : option object) (p : ParsedSample) : ParsedSample :=
  let temperature key := scaled_field climate key 1 (f64_lit (-9999) 10) (f64_lit 9999 10) in
  let flag key := fields ← climate; bool_field fields key in
  p <| p_inside_temp := temperature "inside_temp" |>
    <| p_outside_temp := temperature "outside_temp" |>
    <| p_driver_temp_setting := temperature "driver_temp_setting" |>
    <| p_passenger_temp_setting := temperature "passenger_temp_setting" |>
    <| p_fan_status := ranged_int_field climate "fan_status" i32_min i32_max |>
    <| p_is_climate_on := flag "is_climate_on" |>
    <| p_is_rear_defroster_on := flag "is_rear_defroster_on" |>
    <| p_is_front_defroster_on := flag "is_front_defroster_on" |>
    <| p_battery_heater := flag "battery_heater" |>
    <| p_battery_heater_no_power := flag "battery_heater_no_power" |>.

Definition parse_vehicle (vehicle_state : option object) (p : ParsedSample) : ParsedSample :=
  let pressure key := scaled_field vehicle_state key 1 f64_zero (f64_lit 9999 10) in
  p <| p_service_mode := (fields ← vehicle_state; bool_field fields "service_mode") |>
    <| p_car_version := text_field vehicle_state "car_version" |>
    <| p_software_update_status :=
         utrim <$> (fields ← vehicle_state; update ← object_field fields "software_update";
                    obj_get "status" update ≫= json_as_str) |>
    <| p_odometer := opt_filter (fun odometer => f64_leb f64_zero odometer && f64_is_finite odometer)
                       (miles_to_km <$> (fields ← vehicle_state; float_field fields "odometer")) |>
    <| p_tpms_pressure_fl := pressure "tpms_pressure_fl" |>
    <| p_tpms_pressure_fr := pressure "tpms_pressure_fr" |>
    <| p_tpms_pressure_rl := pressure "tpms_pressure_rl" |>
    <| p_tpms_pressure_rr := pressure "tpms_pressure_rr" |>.

Definition carried_families (p : ParsedSample) : Families :=
  {| fa_motion := is_some (p_shift_state p) || is_some (p_speed p) || is_some (p_power p)
                  || (bool_decide (p_kind p = Full) && p_shift_state_key_present p);
     fa_position := is_some (p_latitude p) && is_some (p_longitude p);
     fa_battery := is_some (p_battery_level p) || is_some (p_usable_battery_level p) || is_some (p_rated_range_km p)
                   || is_some (p_ideal_range_km p) || is_some (p_est_range_km p);
     fa_charge_session := is_some (p_charging_state p) || is_some (p_charge_energy_added p)
                   || is_some (p_charger_power_kw p) || is_some (p_charger_voltage p)
                   || is_some (p_charger_actual_current p) || is_some (p_charger_pilot_current p)
                   || is_some (p_charger_phases p) || is_some (p_fast_charger_present p)
                   || is_some (p_fast_charger_brand p) || is_some (p_fast_charger_type p)
                   || is_some (p_charge_cable p) || is_some (p_battery_heater_on p)
                   || is_some (p_not_enough_power_to_heat p);
     fa_climate := is_some (p_is_climate_on p) || is_some (p_inside_temp p) || is_some (p_outside_temp p)
                   || is_some (p_fan_status p) || is_some (p_driver_temp_setting p)
                   || is_some (p_passenger_temp_setting p) || is_some (p_is_rear_defroster_on p)
                   || is_some (p_is_front_defroster_on p) || is_some (p_battery_heater p)
                   || is_some (p_battery_heater_no_power p);
     fa_odometer := is_some (p_odometer p);
     fa_vehicle_status := is_some (p_service_mode p) || is_some (p_car_version p) || is_some (p_software_update_status p)
                   || is_some (p_tpms_pressure_fl p) || is_some (p_tpms_pressure_fr p)
                   || is_some (p_tpms_pressure_rl p) || is_some (p_tpms_pressure_rr p) |}.

(** The record of a kind with vehicle data or of a discovery. *)
Definition parse_groups (sample : LifecycleSample) (root : object) (vehicle_data : option object) (p : ParsedSample)
    : result LifecycleError ParsedSample :=
  let observed_at_ms := ls_observed_at_ms sample in
  drive ← group_object vehicle_data "drive_state";
  charge ← group_object vehicle_data "charge_state";
  climate ← group_object vehicle_data "climate_state";
  vehicle_state ← group_object vehicle_data "vehicle_state";
  vehicle_config ← group_object vehicle_data "vehicle_config";
  let p := p <| p_drive_timestamp_ms := group_time drive observed_at_ms |>
             <| p_charge_timestamp_ms := group_time charge observed_at_ms |>
             <| p_climate_timestamp_ms := group_time climate observed_at_ms |>
             <| p_vehicle_timestamp_ms := group_time vehicle_state observed_at_ms |>
             <| p_vehicle_state_present := is_some vehicle_state |>
             <| p_drive_data_present := is_some drive |>
             <| p_charge_data_present := is_some charge |> in
  let p := if eq_ignore_ascii_case (ls_vehicle_state sample) "online" && is_some vehicle_data && is_some vehicle_state then
             let patch := car_patch (p_kind p) root vehicle_data vehicle_state vehicle_config in
             p <| p_car_metadata := then_some (negb (patch_is_empty patch)) patch |>
           else p in
  let p := parse_vehicle vehicle_state (parse_climate climate (parse_charge charge (parse_drive drive p))) in
  mret (p <| p_carried := carried_families p |>).

(** The times of a record that has no group of its own are the observation's. *)
Definition parsed_at (observed_at_ms : Z) : ParsedSample :=
  ParsedSample_default <| p_observed_at_ms := observed_at_ms |> <| p_drive_timestamp_ms := observed_at_ms |>
    <| p_charge_timestamp_ms := observed_at_ms |> <| p_climate_timestamp_ms := observed_at_ms |>
    <| p_vehicle_timestamp_ms := observed_at_ms |>.

Definition parse_sample (sample : LifecycleSample) : result LifecycleError ParsedSample :=
  root ← ok_or (json_as_object (ls_payload sample)) LeInvalidPayload;
  envelope ← read_envelope root;
  let kind := en_kind envelope in
  let p := (parsed_at (ls_observed_at_ms sample)) <| p_kind := kind |> <| p_stream_frame := bool_decide (kind = Stream) |>
             <| p_provider_feed := en_feed envelope |> <| p_hub_event := en_event envelope |> in
  if bool_decide (kind = UnknownKind) || bool_decide (kind = HubEvent) then mret p
  else parse_groups sample root (en_data envelope) p.
