(* ===== verification/LifeSteps.v ===== *)
(** * The drive and charge lifecycle: the steps of one observation

    The classification, the freshness rules and the ten steps of
    [src/src/runtime/lifecycle/projection.rs], with the drive and charge steps of
    [drive_and_charge.rs] and the rules of [state_and_updates.rs].  A step takes the
    session state and the delta and returns both, or the error that drops them. *)
From S2P Require Import Prelude RustStr F64 Text External LifeData Geo LifeEnergy LifeCost LifeDrive LifeParse.
Local Open Scope string_scope.
Local Open Scope Z_scope.

(** ** Small rules *)

Definition reach_from_text (text : string) : option Reach :=
  if bool_decide (text = "online") then Some ROnline
  else if bool_decide (text = "asleep") then Some RAsleep
  else if bool_decide (text = "offline") then Some ROffline else None.
Definition reach_as_str (r : Reach) : string :=
  match r with ROnline => "online" | RAsleep => "asleep" | ROffline => "offline" end.

Definition update_status_class (status : option string) : UpdateStatusClass :=
  match status with
  | None => NoStatus
  | Some status =>
      let status := to_lowercase (utrim status) in
      if bool_decide (status = "installing") then Installing
      else if bool_decide (status ∈ ["available"; "scheduled"; "downloading"; "downloading_wifi_wait"; "wifi_wait"])
           then Offered
      else if str_is_empty status then Idle else NoStatus
  end.

Definition MAX_VERSION_TEXT_CHARS : Z := 255.

Definition version_component (part : string) : option Z :=
  if (1 <=? str_len part) && (str_len part <=? 9) && str_all is_ascii_digit part
  then parse_int 0 u32_max part else None.

Definition version_key (text : string) : option (list Z) :=
  let text := utrim text in
  if MAX_VERSION_TEXT_CHARS <? chars_count text then None
  else
    token ← first_word text;
    components ← mapM version_component (str_split "." token);
    then_some (2 <=? Z.of_nat (length components)) components.

(** Component by component; a missing trailing component counts as 0. *)
Fixpoint compare_version_keys (earlier later : list Z) : comparison :=
  let next a b rest := match Z.compare a b with Eq => rest | other => other end in
  match earlier with
  | [] =>
      (fix against_zero (l : list Z) : comparison :=
         match l with [] => Eq | b :: l => next 0 b (against_zero l) end) later
  | a :: earlier =>
      next a (default 0 (head later)) (compare_version_keys earlier (tail later))
  end.

Definition movement_between (earlier_km later_km : option f64) : Movement :=
  match finite_reading earlier_km, finite_reading later_km with
  | Some earlier, Some later => if f64_leb K_DMIN_KM (f64_sub later earlier) then Moved else Unmoved
  | _, _ => UnknownMovement
  end.
Definition unmoved (earlier_km later_km : option f64) : bool := bool_decide (movement_between earlier_km later_km = Unmoved).

(** A counter that restarted against the one before. *)
Definition restarted_since (before now : option f64) : bool :=
  match before, now with Some before, Some now => counter_restarted before now | _, _ => false end.

Definition charge_energy_baseline (snapshot : option ParkedSnapshot) (counter_kwh odometer_km : option f64) : f64 :=
  match snapshot with
  | None => f64_zero
  | Some snapshot =>
      match finite_reading (sn_energy_added_kwh snapshot) with
      | None => f64_zero
      | Some known =>
          let restarted := is_some_and counter_kwh (fun now => counter_restarted known now) in
          let moved := bool_decide (movement_between (sn_odometer_km snapshot) odometer_km = Moved) in
          if restarted || sn_after_drive snapshot || sn_unplugged snapshot || moved then f64_zero else known
      end
  end.

Definition after_gap_charge (snapshot : ParkedSnapshot) (parsed : ParsedSample) (class : ChargeEvidence)
    : option AfterGapCharge :=
  start_ms ← sn_at_ms snapshot;
  known ← finite_reading (sn_energy_added_kwh snapshot);
  let unmoved := unmoved (sn_odometer_km snapshot) (p_odometer parsed) in
  let class_fits := match class with
                    | Hold | Complete => true
                    | Disconnected => unmoved
                    | Active | NoCharge => false
                    end in
  let counter_new := is_some_and (p_charge_energy_added parsed)
                       (fun now => f64_ltb f64_zero now && (counter_restarted now known || counter_restarted known now)) in
  let level_higher := match p_battery_level parsed, sn_battery_level snapshot with
                      | Some now, Some before => now >? before
                      | _, _ => match p_rated_range_km parsed, sn_rated_range_km snapshot with
                                | Some now, Some before => f64_ltb before now
                                | _, _ => false
                                end
                      end in
  then_some (class_fits && counter_new && level_higher) (MkAfterGapCharge start_ms unmoved).

Definition snapshot_after_charge (open : OpenCharge) (end_ms : Z) (unplugged : bool) : ParkedSnapshot :=
  {| sn_at_ms := Some end_ms; sn_seen_at_ms := end_ms; sn_battery_level := oc_last_battery_level open;
     sn_ideal_range_km := oc_last_ideal_range_km open; sn_rated_range_km := oc_last_rated_range_km open;
     sn_odometer_km := oc_last_odometer_km open;
     sn_odometer_coarse := is_some (oc_last_odometer_km open) && default true (oc_last_odometer_coarse open);
     sn_latitude := oc_start_latitude open; sn_longitude := oc_start_longitude open;
     sn_energy_added_kwh := oc_last_energy_added open; sn_after_drive := false; sn_unplugged := unplugged |}.

Definition logical_state (phase : VehiclePhase) : option string :=
  match phase with
  | VpOnline | VpDriving | VpCharging | VpUpdating | VpSuspended => Some "online"
  | VpAsleep => Some "asleep"
  | VpOffline => Some "offline"
  | VpUnknown => None
  end.
Definition phase_effective (phase : VehiclePhase) : VehiclePhase :=
  match phase with VpSuspended => VpOnline | other => other end.

(** ** Evidence *)

Definition gear_of (shift_state : option string) : option string :=
  opt_filter (fun name => bool_decide (name ∈ ["P"; "R"; "N"; "D"])) (shift_state ≫= normalise_enum_text).

Definition classify_drive (parsed : ParsedSample) (motion_fresh : bool) : DriveEvidence :=
  if negb motion_fresh then NoInfo
  else
    match gear_of (p_shift_state parsed) with
    | Some gear => if bool_decide (gear = "P") then Park else Motion
    | None =>
        if is_some_and (p_speed parsed) (fun value => value >? 0) then Motion
        else if bool_decide (p_kind parsed = Full) && p_shift_state_key_present parsed
                && is_none_or (p_speed parsed) (fun value => value =? 0) then Park
        else NoInfo
    end.

Definition is_plugged (c : ChargeEvidence) : bool := match c with Active | Hold | Complete => true | _ => false end.
Definition is_end (c : ChargeEvidence) : bool := match c with Complete | Disconnected => true | _ => false end.

Definition classify_charge (parsed : ParsedSample) (charge_session_fresh : bool) : ChargeEvidence :=
  if negb charge_session_fresh then NoCharge
  else
    let is_state names := is_some_and (p_charging_state parsed ≫= normalise_enum_text) (fun n => bool_decide (n ∈ names)) in
    if is_state ["Charging"] then Active
    else if is_state ["Starting"; "Stopped"; "NoPower"] then Hold
    else if is_state ["Complete"] then Complete
    else if is_state ["Disconnected"] then Disconnected
    else NoCharge.

Definition resolve_conflicts (parsed : ParsedSample) (drive : DriveEvidence) (charge : ChargeEvidence) (status : UpdateStatusClass)
    : DriveEvidence * ChargeEvidence * UpdateStatusClass :=
  let '(drive, charge) :=
    if bool_decide (drive = Motion) && is_plugged charge then
      if p_charge_timestamp_ms parsed <=? p_drive_timestamp_ms parsed then (drive, NoCharge) else (NoInfo, charge)
    else (drive, charge) in
  (drive, charge, if bool_decide (status = Installing) && bool_decide (drive = Motion) then NoStatus else status).

(** ** Freshness *)

Definition later_than (fact_ms : Z) (watermark : option Z) : bool := is_none_or watermark (fun w => w <? fact_ms).

Definition families_any (f : Families) : bool :=
  fa_motion f || fa_position f || fa_battery f || fa_charge_session f || fa_climate f || fa_odometer f || fa_vehicle_status f.

Definition fresh_families (state : OpenSessionState) (parsed : ParsedSample) : Families :=
  let carried := p_carried parsed in
  let drive_gate := later_than (p_drive_timestamp_ms parsed) (os_imported_drive_watermark_ms state) in
  let charge_gate := later_than (p_charge_timestamp_ms parsed) (os_imported_charge_watermark_ms state) in
  {| fa_motion := fa_motion carried && drive_gate && later_than (p_drive_timestamp_ms parsed) (os_last_drive_timestamp_ms state);
     fa_position := fa_position carried && drive_gate
       && later_than (p_drive_timestamp_ms parsed) (opt_or (os_last_position_fact_ms state) (os_last_drive_timestamp_ms state));
     fa_battery := fa_battery carried
       && later_than (p_charge_timestamp_ms parsed) (opt_or (os_last_battery_fact_ms state) (os_last_charge_timestamp_ms state));
     fa_charge_session := fa_charge_session carried && charge_gate
       && later_than (p_charge_timestamp_ms parsed) (os_last_charge_timestamp_ms state);
     fa_climate := fa_climate carried && later_than (p_climate_timestamp_ms parsed) (os_last_climate_fact_ms state);
     fa_odometer := fa_odometer carried
       && later_than (p_vehicle_timestamp_ms parsed) (opt_or (os_last_odometer_fact_ms state) (os_last_vehicle_timestamp_ms state));
     fa_vehicle_status := fa_vehicle_status carried
       && later_than (p_vehicle_timestamp_ms parsed) (os_last_vehicle_timestamp_ms state) |}.

(** [carry]: the row's value and the cache after it. *)
Definition carry {A} (row cache : option A) (family_fresh : bool) : option A * option A :=
  (opt_or row cache, if family_fresh then opt_or row cache else cache).

Definition carry_forward (state : OpenSessionState) (parsed : ParsedSample) (fresh : Families) : OpenSessionState * ParsedSample :=
  let heater := carry (p_battery_heater parsed) (os_last_position_battery_heater state) (fa_climate fresh) in
  let heater_on := carry (p_battery_heater_on parsed) (os_last_position_battery_heater_on state) (fa_charge_session fresh) in
  let no_power := carry (p_battery_heater_no_power parsed) (os_last_position_battery_heater_no_power state) (fa_climate fresh) in
  let est := carry (p_est_range_km parsed) (os_last_position_est_battery_range_km state) (fa_battery fresh) in
  let fan := carry (p_fan_status parsed) (os_last_position_fan_status state) (fa_climate fresh) in
  let driver := carry (p_driver_temp_setting parsed) (os_last_position_driver_temp_setting state) (fa_climate fresh) in
  let passenger := carry (p_passenger_temp_setting parsed) (os_last_position_passenger_temp_setting state) (fa_climate fresh) in
  let rear := carry (p_is_rear_defroster_on parsed) (os_last_position_is_rear_defroster_on state) (fa_climate fresh) in
  let front := carry (p_is_front_defroster_on parsed) (os_last_position_is_front_defroster_on state) (fa_climate fresh) in
  let fl := carry (p_tpms_pressure_fl parsed) (os_last_position_tpms_pressure_fl state) (fa_vehicle_status fresh) in
  let fr := carry (p_tpms_pressure_fr parsed) (os_last_position_tpms_pressure_fr state) (fa_vehicle_status fresh) in
  let rl := carry (p_tpms_pressure_rl parsed) (os_last_position_tpms_pressure_rl state) (fa_vehicle_status fresh) in
  let rr := carry (p_tpms_pressure_rr parsed) (os_last_position_tpms_pressure_rr state) (fa_vehicle_status fresh) in
  (state <| os_last_position_battery_heater := heater.2 |> <| os_last_position_battery_heater_on := heater_on.2 |>
         <| os_last_position_battery_heater_no_power := no_power.2 |> <| os_last_position_est_battery_range_km := est.2 |>
         <| os_last_position_fan_status := fan.2 |> <| os_last_position_driver_temp_setting := driver.2 |>
         <| os_last_position_passenger_temp_setting := passenger.2 |> <| os_last_position_is_rear_defroster_on := rear.2 |>
         <| os_last_position_is_front_defroster_on := front.2 |> <| os_last_position_tpms_pressure_fl := fl.2 |>
         <| os_last_position_tpms_pressure_fr := fr.2 |> <| os_last_position_tpms_pressure_rl := rl.2 |>
         <| os_last_position_tpms_pressure_rr := rr.2 |>,
   parsed <| p_battery_heater := heater.1 |> <| p_battery_heater_on := heater_on.1 |>
          <| p_battery_heater_no_power := no_power.1 |> <| p_est_range_km := est.1 |> <| p_fan_status := fan.1 |>
          <| p_driver_temp_setting := driver.1 |> <| p_passenger_temp_setting := passenger.1 |>
          <| p_is_rear_defroster_on := rear.1 |> <| p_is_front_defroster_on := front.1 |>
          <| p_tpms_pressure_fl := fl.1 |> <| p_tpms_pressure_fr := fr.1 |>
          <| p_tpms_pressure_rl := rl.1 |> <| p_tpms_pressure_rr := rr.1 |>).

Definition accepted_reach (state : OpenSessionState) (parsed : ParsedSample) (envelope_state : string) (fresh : Families)
    : option Reach :=
  if bool_decide (p_kind parsed = HubEvent) then None
  else
    let not_older := is_none_or (os_last_observed_at_ms state) (fun observed => observed <=? p_observed_at_ms parsed) in
    let after_import := later_than (p_observed_at_ms parsed) (os_imported_state_watermark_ms state) in
    if negb (not_older && after_import) then None
    else if has_vehicle_data (p_kind parsed) && families_any fresh then Some ROnline
    else reach_from_text envelope_state.

(** What steps 3 to 9 read. *)
Record Observation := MkObservation {
  ob_parsed : ParsedSample;
  ob_car_id : Z;
  ob_t_gap_ms : Z;
  ob_reach : option Reach;
  ob_fresh : Families;
  ob_drive : DriveEvidence;
  ob_charge : ChargeEvidence;
  ob_status : UpdateStatusClass;
}.
Definition t_obs (o : Observation) : Z := p_observed_at_ms (ob_parsed o).
Definition event (o : Observation) : option HubEventKind := p_hub_event (ob_parsed o).

(** ** Identifiers *)

Definition next_id (id : Z) : result LifecycleError Z :=
  if id =? i64_max then Err LeIdentifierExhausted else Ok (id + 1).

Definition next_position_id (state : OpenSessionState) : result LifecycleError (Z * OpenSessionState) :=
  let id := os_next_position_id state in
  next ← next_id id; mret (id, state <| os_next_position_id := next |>).
Definition allocate_charge_id (state : OpenSessionState) : result LifecycleError (Z * OpenSessionState) :=
  let id := os_next_charge_id state in
  next ← next_id id; mret (id, state <| os_next_charge_id := next |>).
Definition allocate_charge_sample_id (state : OpenSessionState) : result LifecycleError (Z * OpenSessionState) :=
  let id := os_next_charge_sample_id state in
  next ← next_id id; mret (id, state <| os_next_charge_sample_id := next |>).
