(* ===== verification/LifeApply.v ===== *)
(** * The drive and charge lifecycle: the drive and charge steps

    The close, open, fold and sample steps of
    [src/src/runtime/lifecycle/drive_and_charge.rs], the standalone position and the
    parked snapshot.  A step takes the session and the delta ([Work]) and returns
    both, or the error that drops them.  [Vec::partition_point] is the length of the
    longest prefix that satisfies its predicate: the cuts of the lead checkpoints are
    ordered ([LifeInv.v]). *)
From S2P Require Import Prelude F64 External LifeData Geo LifeEnergy LifeCost LifeDrive LifeSteps.
Local Open Scope Z_scope.

Definition Work : Type := OpenSessionState * LifecycleDelta.

(** ** Rows of one observation *)

Definition row_of_sample (position_id : Z) (drive_id : option Z) (car_id : Z) (s : ParsedSample) (latitude longitude : f64)
    : ProjectionPosition :=
  {| pp_id := position_id; pp_drive_id := drive_id; pp_car_id := car_id; pp_date_ms := p_drive_timestamp_ms s;
     pp_latitude := latitude; pp_longitude := longitude; pp_speed := p_speed s; pp_power := p_power s;
     pp_battery_level := p_battery_level s; pp_usable_battery_level := p_usable_battery_level s;
     pp_elevation := p_elevation s; pp_odometer := p_odometer s; pp_ideal_battery_range_km := p_ideal_range_km s;
     pp_est_battery_range_km := p_est_range_km s; pp_rated_battery_range_km := p_rated_range_km s;
     pp_fan_status := p_fan_status s; pp_driver_temp_setting := p_driver_temp_setting s;
     pp_passenger_temp_setting := p_passenger_temp_setting s; pp_is_climate_on := p_is_climate_on s;
     pp_is_rear_defroster_on := p_is_rear_defroster_on s; pp_is_front_defroster_on := p_is_front_defroster_on s;
     pp_inside_temp := p_inside_temp s; pp_outside_temp := p_outside_temp s; pp_battery_heater := p_battery_heater s;
     pp_battery_heater_on := p_battery_heater_on s; pp_battery_heater_no_power := p_battery_heater_no_power s;
     pp_tpms_pressure_fl := p_tpms_pressure_fl s; pp_tpms_pressure_fr := p_tpms_pressure_fr s;
     pp_tpms_pressure_rl := p_tpms_pressure_rl s; pp_tpms_pressure_rr := p_tpms_pressure_rr s |}.

Definition position_from_sample (position_id : Z) (drive_id : option Z) (car_id : Z) (s : ParsedSample)
    : result LifecycleError (option ProjectionPosition) :=
  match valid_coordinates (p_latitude s) (p_longitude s) with
  | None => if is_some (p_latitude s) || is_some (p_longitude s) then Err LeInvalidCoordinates else Ok None
  | Some (latitude, longitude) => Ok (Some (row_of_sample position_id drive_id car_id s latitude longitude))
  end.

(** [charge_sample_from] *)
Definition charge_sample_from (id charge_id : Z) (p : ParsedSample) : ProjectionChargeSample :=
  {| ps_id := id; ps_charge_process_id := charge_id; ps_timestamp_ms := p_charge_timestamp_ms p;
     ps_battery_level := p_battery_level p; ps_usable_battery_level := p_usable_battery_level p;
     ps_charge_energy_added_kwh := p_charge_energy_added p; ps_charger_power_kw := p_charger_power_kw p;
     ps_charger_voltage := p_charger_voltage p; ps_charger_actual_current := p_charger_actual_current p;
     ps_charger_pilot_current := p_charger_pilot_current p; ps_charger_phases := p_charger_phases p;
     ps_ideal_range_km := p_ideal_range_km p; ps_rated_range_km := p_rated_range_km p; ps_outside_temp_c := p_outside_temp p;
     ps_battery_heater_on := p_battery_heater_on p; ps_battery_heater := p_battery_heater p;
     ps_battery_heater_no_power := p_battery_heater_no_power p; ps_not_enough_power_to_heat := p_not_enough_power_to_heat p;
     ps_fast_charger_present := p_fast_charger_present p; ps_fast_charger_brand := p_fast_charger_brand p;
     ps_fast_charger_type := p_fast_charger_type p; ps_charge_cable := p_charge_cable p |}.

(** ** The fold of one observation into the open drive *)

Definition has_fresh_drive_facts (o : Observation) : bool := fa_motion (ob_fresh o) || fa_position (ob_fresh o).

(** A value of a family, when the family is fresh. *)
Definition when_fresh {A} (fresh : bool) (value : option A) : option A := if fresh then value else None.

Definition coordinates_of (p : ParsedSample) : option (f64 * f64) :=
  latitude ← p_latitude p; longitude ← p_longitude p; Some (latitude, longitude).

Definition drive_point (o : Observation) : DrivePoint :=
  let p := ob_parsed o in
  let fresh := ob_fresh o in
  {| dp_at_ms := p_drive_timestamp_ms p;
     dp_coordinates := when_fresh (fa_position fresh) (coordinates_of p);
     dp_speed := when_fresh (fa_motion fresh) (p_speed p);
     dp_power := when_fresh (fa_motion fresh) (p_power p);
     dp_battery_level := when_fresh (fa_battery fresh) (p_battery_level p);
     dp_ideal_range_km := when_fresh (fa_battery fresh) (p_ideal_range_km p);
     dp_rated_range_km := when_fresh (fa_battery fresh) (p_rated_range_km p);
     dp_odometer_km := when_fresh (fa_odometer fresh) (p_odometer p);
     dp_odometer_coarse := negb (bool_decide (p_kind p = Full));
     dp_outside_temp := when_fresh (fa_climate fresh) (p_outside_temp p);
     dp_inside_temp := when_fresh (fa_climate fresh) (p_inside_temp p);
     dp_charge_energy_added := when_fresh (fa_charge_session fresh) (p_charge_energy_added p);
     dp_evidence := ob_drive o |}.

Definition stores_position (open : OpenDrive) (o : Observation) : bool :=
  let p := ob_parsed o in
  fa_position (ob_fresh o) && is_some (p_latitude p) && is_some (p_longitude p)
  && is_none_or (od_last_position_date_ms open) (fun last => last <? p_drive_timestamp_ms p).

(** A fresh position without a fresh motion family, later than the motion watermark. *)
Definition is_lead (s : OpenSessionState) (o : Observation) : bool :=
  fa_position (ob_fresh o) && negb (fa_motion (ob_fresh o))
  && later_than (dp_at_ms (drive_point o)) (os_last_drive_timestamp_ms s).

(** [insert] at [partition_point(cut_ms <= t)]. *)
Fixpoint insert_lead (lead : LeadCheckpoint) (leads : list LeadCheckpoint) : list LeadCheckpoint :=
  match leads with
  | [] => [lead]
  | x :: leads => if lc_cut_ms x <=? lc_cut_ms lead then x :: insert_lead lead leads else lead :: x :: leads
  end.

(** (a) fresh motion removes the cuts at or before it; (b) a lead fold keeps a copy of
    the drive as it stands. *)
Definition lead_update (motion lead : bool) (t : Z) (open : OpenDrive) : OpenDrive :=
  let open := if motion
              then open <| od_lead_checkpoints := filter (fun c => t < lc_cut_ms c) (od_lead_checkpoints open) |>
              else open in
  if lead then
    let leads := od_lead_checkpoints open in
    let leads := if (K_LEAD_CHECKPOINTS <=? length leads)%nat then tail leads else leads in
    open <| od_lead_checkpoints := insert_lead (MkLeadCheckpoint t (detached_copy open)) leads |>
  else open.

(** (c) fold into the drive and into every checkpoint cut after the point. *)
Definition fold_lead `{Libm} (point : DrivePoint) (c : LeadCheckpoint) : LeadCheckpoint :=
  if dp_at_ms point <? lc_cut_ms c
  then MkLeadCheckpoint (lc_cut_ms c) (fold_drive_point (lc_drive c) point None false) else c.

Definition fold_all `{Libm} (open : OpenDrive) (point : DrivePoint) (position : option ProjectionPosition) : OpenDrive :=
  let open := observe_drive_point open point position in
  open <| od_lead_checkpoints := map (fold_lead point) (od_lead_checkpoints open) |>.

Definition fold_into_open_drive `{Libm} (s : OpenSessionState) (o : Observation)
    : result LifecycleError (OpenSessionState * option ProjectionPosition) :=
  match os_open_drive s with
  | None => Ok (s, None)
  | Some open =>
      '(s, position) ← (if stores_position open o then
                          '(id, s) ← next_position_id s;
                          position ← position_from_sample id (Some (od_id open)) (ob_car_id o) (ob_parsed o);
                          mret (s, position)
                        else mret (s, None));
      let point := drive_point o in
      let open := lead_update (fa_motion (ob_fresh o)) (is_lead s o) (dp_at_ms point) open in
      mret (s <| os_open_drive := Some (fold_all open point position) |>, position)
  end.

(** ** Closing a drive *)

Definition record_drive_close_references (s : OpenSessionState) (open : OpenDrive) : OpenSessionState :=
  let s := match od_last_position_date_ms open, od_last_latitude open, od_last_longitude open with
           | Some at_ms, Some latitude, Some longitude =>
               s <| os_last_stationary_position_at_ms := Some at_ms |>
                 <| os_last_standalone_latitude := Some latitude |> <| os_last_standalone_longitude := Some longitude |>
           | _, _, _ => s
           end in
  let folded_at := effective_last_folded_ms open in
  s <| os_parked_snapshot := Some
         {| sn_at_ms := Some folded_at; sn_seen_at_ms := folded_at; sn_battery_level := od_last_soc open;
            sn_ideal_range_km := od_end_ideal_range_km open; sn_rated_range_km := od_last_rated_range_km open;
            sn_odometer_km := od_last_odometer open; sn_odometer_coarse := od_odometer_coarse open;
            sn_latitude := opt_or (od_last_latitude open) (od_start_latitude open);
            sn_longitude := opt_or (od_last_longitude open) (od_start_longitude open);
            sn_energy_added_kwh := od_last_charge_energy_added open; sn_after_drive := true; sn_unplugged := false |} |>.

(** The drive the row is made of: for lack of evidence the still checkpoint, for an
    explicit end the lead checkpoint with the smallest cut above it. *)
Definition end_source (open : OpenDrive) (loe_end : bool) (explicit_end : option Z) : OpenDrive :=
  let bare := open <| od_still_checkpoint := None |> <| od_lead_checkpoints := [] |> in
  if loe_end then default bare (od_still_checkpoint open)
  else
    match explicit_end ≫= (fun end_ => find_first (fun lead => end_ <? lc_cut_ms lead) (od_lead_checkpoints open)) with
    | Some lead => (lc_drive lead) <| od_positions := od_positions open |>
    | None => bare
    end.

Definition standalone (position : ProjectionPosition) : ProjectionPosition := position <| pp_drive_id := None |>.
Definition opt_list {A} (o : option A) : list A := match o with Some a => [a] | None => [] end.

Definition imported_drive (s : OpenSessionState) (open : OpenDrive) : bool :=
  bool_decide ((os_imported_open s ≫= io_drive_source_row_id) = Some (od_id open)).

Definition close_open_drive (w : Work) (loe_end : bool) (closing_position : option ProjectionPosition)
    (explicit_end : option Z) : result LifecycleError Work :=
  let '(s, delta) := w in
  match os_open_drive s with
  | None => Ok w
  | Some open =>
      let s := s <| os_open_drive := None |> in
      let s := record_drive_close_references s open in
      let source := end_source open loe_end explicit_end in
      let buffered := od_positions source in
      closed ← finalize_drive (source <| od_positions := [] |>) (imported_drive s open) explicit_end;
      mret (s,
        match closed with
        | Some drive =>
            delta <| d_drives := d_drives delta ++ [drive] |>
                  <| d_open_drive_positions := d_open_drive_positions delta ++ buffered ++ opt_list closing_position |>
        | None =>
            delta <| d_discarded_drive_ids := d_discarded_drive_ids delta ++ [od_id open] |>
                  <| d_positions := d_positions delta ++ map standalone (buffered ++ opt_list closing_position) |>
        end)
  end.

(** Items 1 to 5 of the close: the drive ended at its last evidence. *)
Definition drive_evidence_lost (s : OpenSessionState) (o : Observation) (open : OpenDrive) : bool :=
  let drive_facts := has_fresh_drive_facts o in
  let t_drive := p_drive_timestamp_ms (ob_parsed o) in
  let last_folded := effective_last_folded_ms open in
  let last_motion := effective_last_motion_ms open in
  let gap := ob_t_gap_ms o in
  bool_decide (ob_reach o = Some RAsleep)
  || bool_decide (os_service_mode s = Some true)
  || (drive_facts && (gap <? i64_ssub t_drive last_folded))
  || (negb drive_facts && (gap <? i64_ssub (t_obs o) last_folded))
  || bool_decide (event o = Some NoData)
  || (drive_facts && bool_decide (ob_drive o = NoInfo) && (gap <? i64_ssub t_drive last_motion)).

Definition drive_close_step `{Libm} (o : Observation) (w : Work) : result LifecycleError Work :=
  let '(s, delta) := w in
  match os_open_drive s with
  | None => Ok w
  | Some open =>
      let t_drive := p_drive_timestamp_ms (ob_parsed o) in
      if drive_evidence_lost s o open then close_open_drive w true None None
      else if bool_decide (ob_drive o = Park) || is_plugged (ob_charge o) then
        if fa_motion (ob_fresh o) || (fa_position (ob_fresh o) && (effective_last_folded_ms open <=? t_drive)) then
          '(s, position) ← fold_into_open_drive s o;
          close_open_drive (s, delta) false position (Some t_drive)
        else close_open_drive w true None None
      else Ok w
  end.

(** ** The open charge *)

Definition last_evidence_ms (open : OpenCharge) : Z :=
  Z.max (default (oc_start_date_ms open) (oc_last_sample_timestamp_ms open)) (oc_start_date_ms open).

Definition states_charge (p : ParsedSample) : bool := is_some (p_charging_state p) || is_some (p_charge_energy_added p).

Definition anchors_charge_sample (s : OpenSessionState) (o : Observation) : bool :=
  let p := ob_parsed o in
  if negb (fa_charge_session (ob_fresh o)) || negb (states_charge p) then false
  else
    later_than (p_charge_timestamp_ms p) (os_imported_charge_watermark_ms s)
    && is_none_or (os_open_charge s ≫= oc_last_sample_timestamp_ms) (fun last => last <? p_charge_timestamp_ms p).

(** The counter of the observation against the charge's last one. *)
Definition counter_fell (open : OpenCharge) (o : Observation) : option bool :=
  now ← p_charge_energy_added (ob_parsed o); last ← oc_last_energy_added open; Some (counter_restarted last now).

Definition charge_continues_across_gap (open : OpenCharge) (o : Observation) : bool :=
  negb (bool_decide (ob_charge o = NoCharge))
  && bool_decide (counter_fell open o = Some false)
  && unmoved (oc_last_odometer_km open) (p_odometer (ob_parsed o)).

Definition finalize_charge (open : OpenCharge) (end_date_ms : option Z)
    : result LifecycleError (ProjectionCharge * list ProjectionChargeSample) :=
  let end_date_ms := default (oc_start_date_ms open) end_date_ms in
  if end_date_ms <? oc_start_date_ms open then Err LeInvalidTimeline
  else
    let totals := charge_energy_totals open in
    Ok ({| pc_id := oc_id open; pc_car_id := oc_car_id open; pc_start_date_ms := oc_start_date_ms open;
           pc_end_date_ms := Some end_date_ms; pc_charge_energy_added := et_added_kwh totals;
           pc_charge_energy_used_kwh := et_used_kwh totals; pc_start_ideal_range_km := oc_start_ideal_range_km open;
           pc_end_ideal_range_km := oc_last_ideal_range_km open; pc_cost := None;
           pc_fast_charger_type := oc_fast_charger_type open; pc_billing_type := None; pc_cost_per_unit := None;
           pc_session_fee := None; pc_start_latitude := oc_start_latitude open;
           pc_start_longitude := oc_start_longitude open; pc_start_battery_level := oc_start_battery_level open;
           pc_end_battery_level := oc_last_battery_level open;
           pc_duration_min := Some (Z.max (Z.quot (i64_sub end_date_ms (oc_start_date_ms open)) 60000) 0);
           pc_address := None; pc_location_name := None; pc_geofence := None; pc_is_dc := oc_is_dc open;
           pc_charge_rate_km_per_hour := None; pc_max_charger_power_kw := oc_max_charger_power_kw open;
           pc_outside_temp_avg := then_some (oc_outside_temp_count open >? 0)
                                    (f64_div (oc_outside_temp_sum open) (f64_of_Z (oc_outside_temp_count open)));
           pc_start_rated_range_km := oc_start_rated_range_km open;
           pc_end_rated_range_km := oc_last_rated_range_km open |},
        oc_samples open).

Definition charge_start_coordinate (open : OpenCharge) : list (Z * f64 * f64) :=
  match oc_start_latitude open, oc_start_longitude open with
  | Some latitude, Some longitude => [(oc_id open, latitude, longitude)]
  | _, _ => []
  end.

Definition close_open_charge (w : Work) (end_ms : Z) (unplugged : bool) : result LifecycleError Work :=
  let '(s, delta) := w in
  match os_open_charge s with
  | None => Ok w
  | Some open =>
      let end_ms := Z.max end_ms (oc_start_date_ms open) in
      '(charge, samples) ← finalize_charge open (Some end_ms);
      mret (s <| os_open_charge := None |> <| os_parked_snapshot := Some (snapshot_after_charge open end_ms unplugged) |>,
            delta <| d_charges := d_charges delta ++ [charge] |>
                  <| d_charge_start_coordinates := d_charge_start_coordinates delta ++ charge_start_coordinate open |>
                  <| d_open_charge_samples := d_open_charge_samples delta ++ samples |>)
  end.

Definition charge_must_close (s : OpenSessionState) (o : Observation) (open : OpenCharge) : bool :=
  bool_decide (ob_reach o = Some RAsleep) || bool_decide (os_service_mode s = Some true)
  || bool_decide (ob_drive o = Motion)
  || (anchors_charge_sample s o
      && (bool_decide (counter_fell open o = Some true)
          || ((ob_t_gap_ms o <? i64_ssub (p_charge_timestamp_ms (ob_parsed o)) (last_evidence_ms open))
              && negb (charge_continues_across_gap open o)))).

Definition charge_close_step (o : Observation) (w : Work) : result LifecycleError Work :=
  match os_open_charge w.1 with
  | None => Ok w
  | Some open => if charge_must_close w.1 o open then close_open_charge w (last_evidence_ms open) false else Ok w
  end.

(** ** Opening a session *)

(** The latest end of a session closed earlier in the same observation. *)
Definition after_closed (delta : LifecycleDelta) : option Z :=
  match map pd_end_date_ms (d_drives delta) ++ omap pc_end_date_ms (d_charges delta) with
  | [] => None
  | x :: l => Some (fold_left Z.max l x)
  end.

(** The start values of a drive from the parked snapshot. *)
Definition drive_from_snapshot (snapshot : ParkedSnapshot) (open : OpenDrive) : OpenDrive :=
  let open := match sn_odometer_km snapshot with
              | Some odometer => open <| od_first_odometer := Some odometer |> <| od_last_odometer := Some odometer |>
                                      <| od_odometer_coarse := sn_odometer_coarse snapshot |>
              | None => open
              end in
  let open := match sn_latitude snapshot, sn_longitude snapshot with
              | Some latitude, Some longitude => open <| od_start_latitude := Some latitude |>
                                                      <| od_start_longitude := Some longitude |>
              | _, _ => open
              end in
  open <| od_start_soc := sn_battery_level snapshot |> <| od_start_ideal_range_km := sn_ideal_range_km snapshot |>
       <| od_start_rated_range_km := sn_rated_range_km snapshot |>.

Definition drive_open_step (o : Observation) (w : Work) : result LifecycleError Work :=
  let '(s, delta) := w in
  if negb (bool_decide (ob_drive o = Motion)) || is_some (os_open_drive s) || bool_decide (os_service_mode s = Some true)
  then Ok w
  else
    let t_drive := p_drive_timestamp_ms (ob_parsed o) in
    let start := map_or (after_closed delta) t_drive (fun end_ => Z.max end_ t_drive) in
    let id := os_next_drive_id s in
    next ← next_id id;
    let open := drive_empty id (ob_car_id o) start in
    let open := match opt_filter (fun snapshot => i64_ssub t_drive (sn_seen_at_ms snapshot) <=? ob_t_gap_ms o)
                        (os_parked_snapshot s) with
                | Some snapshot => drive_from_snapshot snapshot open
                | None => open
                end in
    mret (s <| os_next_drive_id := next |> <| os_parked_snapshot := None |> <| os_open_drive := Some open |>, delta).

(** Start time and start values of a charge: the observation's own when energy flows,
    the snapshot's after a gap. *)
Definition charge_start (s : OpenSessionState) (o : Observation) : option (Z * option Z * option f64 * option f64) :=
  let p := ob_parsed o in
  let t_charge := p_charge_timestamp_ms p in
  match ob_charge o with
  | Active => Some (t_charge, p_battery_level p, p_ideal_range_km p, p_rated_range_km p)
  | NoCharge => None
  | Hold | Complete | Disconnected =>
      snapshot ← os_parked_snapshot s;
      after_gap ← after_gap_charge snapshot p (ob_charge o);
      let start := Z.min (ag_start_ms after_gap) t_charge in
      Some (if ag_unmoved after_gap
            then (start, sn_battery_level snapshot, sn_ideal_range_km snapshot, sn_rated_range_km snapshot)
            else (start, None, None, None))
  end.

(** The observation's own coordinates, else the snapshot's when the car is unmoved. *)
Definition charge_coordinates (s : OpenSessionState) (p : ParsedSample) : option (f64 * f64) :=
  opt_or (valid_coordinates (p_latitude p) (p_longitude p))
    (snapshot ← os_parked_snapshot s;
     if unmoved (sn_odometer_km snapshot) (p_odometer p)
     then valid_coordinates (sn_latitude snapshot) (sn_longitude snapshot) else None).

Definition charge_open_step (o : Observation) (w : Work) : result LifecycleError Work :=
  let '(s, delta) := w in
  if is_some (os_open_charge s) || is_some (os_open_drive s) || bool_decide (os_service_mode s = Some true)
     || negb (anchors_charge_sample s o)
  then Ok w
  else
    let p := ob_parsed o in
    match charge_start s o with
    | None => Ok w
    | Some (start, battery, ideal, rated) =>
        let baseline := charge_energy_baseline (os_parked_snapshot s) (p_charge_energy_added p) (p_odometer p) in
        let coordinates := charge_coordinates s p in
        let start := map_or (after_closed delta) start (fun end_ => Z.max end_ start) in
        '(id, s) ← allocate_charge_id s;
        let open := charge_empty id (ob_car_id o) start in
        let open := open <| oc_start_battery_level := battery |> <| oc_start_ideal_range_km := ideal |>
                         <| oc_start_rated_range_km := rated |> in
        let open := match coordinates with
                    | Some (latitude, longitude) => open <| oc_start_latitude := Some latitude |>
                                                         <| oc_start_longitude := Some longitude |>
                    | None => open
                    end in
        let open := open <| oc_last_odometer_km := p_odometer p |>
                         <| oc_last_odometer_coarse := (fun _ => negb (bool_decide (p_kind p = Full))) <$> p_odometer p |>
                         <| oc_first_energy_added := Some baseline |> in
        mret (s <| os_open_charge := Some open |>, delta)
    end.

(** ** Extending a session *)

Definition drive_fold_step `{Libm} (o : Observation) (w : Work) : result LifecycleError Work :=
  let '(s, delta) := w in
  if is_none (os_open_drive s) || negb (has_fresh_drive_facts o) then Ok w
  else
    '(s, position) ← fold_into_open_drive s o;
    mret (s, delta <| d_open_drive_positions := d_open_drive_positions delta ++ opt_list position |>).

Definition observe_sample (open : OpenCharge) (sample : ProjectionChargeSample) : OpenCharge :=
  (observe_charge_sample (observe_charge_aggregate open sample) sample)
    <| oc_last_sample_timestamp_ms := Some (ps_timestamp_ms sample) |>.

(** The sample row of an anchoring observation. *)
Definition charge_sample_row (o : Observation) (w : Work) : result LifecycleError Work :=
  let '(s, delta) := w in
  match os_open_charge s with
  | None => Ok w
  | Some open =>
      '(id, s) ← allocate_charge_sample_id s;
      let sample := charge_sample_from id (oc_id open) (ob_parsed o) in
      mret (s <| os_open_charge := Some (observe_sample open sample) |>,
            delta <| d_open_charge_samples := d_open_charge_samples delta ++ [sample] |>)
  end.

(** The last odometer of the open charge. *)
Definition charge_odometer (o : Observation) (s : OpenSessionState) : OpenSessionState :=
  let p := ob_parsed o in
  match os_open_charge s, when_fresh (fa_odometer (ob_fresh o)) (p_odometer p) with
  | Some open, Some odometer =>
      s <| os_open_charge := Some (open <| oc_last_odometer_km := Some odometer |>
                                        <| oc_last_odometer_coarse := Some (negb (bool_decide (p_kind p = Full))) |>) |>
  | _, _ => s
  end.

Definition charge_sample_step (o : Observation) (w : Work) : result LifecycleError Work :=
  if is_none (os_open_charge w.1) then Ok w
  else
    let anchors := anchors_charge_sample w.1 o in
    '(s, delta) ← (if anchors then charge_sample_row o w else mret w);
    let s := charge_odometer o s in
    if anchors && is_end (ob_charge o)
    then close_open_charge (s, delta) (p_charge_timestamp_ms (ob_parsed o)) (bool_decide (ob_charge o = Disconnected))
    else mret (s, delta).

(** ** The standalone position and the parked snapshot *)

Definition moved_from_standalone `{Libm} (s : OpenSessionState) (latitude longitude : f64) : bool :=
  match os_last_standalone_latitude s, os_last_standalone_longitude s with
  | Some last_latitude, Some last_longitude =>
      is_some_and (distance_between (last_latitude, last_longitude) (latitude, longitude))
        (fun distance => f64_leb (f64_mul K_DMIN_KM (f64_of_Z 1000)) distance)
  | _, _ => false
  end.

Definition standalone_position_step `{Libm} (o : Observation) (w : Work) : result LifecycleError Work :=
  let '(s, delta) := w in
  if is_some (os_open_drive s) || negb (fa_position (ob_fresh o)) then Ok w
  else
    let p := ob_parsed o in
    match coordinates_of p with
    | None => Ok w
    | Some (latitude, longitude) =>
        let t_drive := p_drive_timestamp_ms p in
        if is_some_and (os_last_stationary_position_at_ms s) (fun last => t_drive <=? last)
           || is_some_and (os_imported_drive_watermark_ms s) (fun watermark => t_drive <=? watermark)
        then Ok w
        else
          let interval_elapsed := is_none_or (os_last_stationary_position_at_ms s)
                                    (fun last => K_PARK_INTERVAL_MS <=? i64_ssub t_drive last) in
          let moved := moved_from_standalone s latitude longitude in
          let service_motion := bool_decide (os_service_mode s = Some true) && bool_decide (ob_drive o = Motion) in
          if negb (interval_elapsed || moved || service_motion) then Ok w
          else
            '(id, s) ← next_position_id s;
            position ← position_from_sample id None (ob_car_id o) p;
            match position with
            | None => mret (s, delta)
            | Some position =>
                mret (s <| os_last_stationary_position_at_ms := Some t_drive |>
                        <| os_last_standalone_latitude := Some latitude |>
                        <| os_last_standalone_longitude := Some longitude |>,
                      delta <| d_positions := d_positions delta ++ [position] |>)
            end
    end.

(** The fields a fresh family covers. *)
Definition snapshot_battery (p : ParsedSample) (n : ParkedSnapshot) : ParkedSnapshot :=
  n <| sn_battery_level := opt_or (p_battery_level p) (sn_battery_level n) |>
    <| sn_ideal_range_km := opt_or (p_ideal_range_km p) (sn_ideal_range_km n) |>
    <| sn_rated_range_km := opt_or (p_rated_range_km p) (sn_rated_range_km n) |>.
Definition snapshot_odometer (p : ParsedSample) (n : ParkedSnapshot) : ParkedSnapshot :=
  match p_odometer p with
  | Some odometer => n <| sn_odometer_km := Some odometer |> <| sn_odometer_coarse := negb (bool_decide (p_kind p = Full)) |>
  | None => n
  end.
Definition snapshot_position (p : ParsedSample) (n : ParkedSnapshot) : ParkedSnapshot :=
  match coordinates_of p with
  | Some (latitude, longitude) => n <| sn_latitude := Some latitude |> <| sn_longitude := Some longitude |>
  | None => n
  end.
Definition snapshot_charge (p : ParsedSample) (charge : ChargeEvidence) (n : ParkedSnapshot) : ParkedSnapshot :=
  let n := n <| sn_energy_added_kwh := opt_or (p_charge_energy_added p) (sn_energy_added_kwh n) |> in
  if bool_decide (charge = Disconnected) then n <| sn_unplugged := true |> else n.

Definition snapshot_seen_at (p : ParsedSample) (fresh : Families) (seen_at_ms : Z) : Z :=
  let seen := if fa_battery fresh || fa_charge_session fresh then Z.max seen_at_ms (p_charge_timestamp_ms p) else seen_at_ms in
  let seen := if fa_odometer fresh then Z.max seen (p_vehicle_timestamp_ms p) else seen in
  if fa_position fresh then Z.max seen (p_drive_timestamp_ms p) else seen.

Definition parked_snapshot_step (o : Observation) (s : OpenSessionState) : OpenSessionState :=
  let p := ob_parsed o in
  let fresh := ob_fresh o in
  if is_some (os_open_drive s) || is_some (os_open_charge s)
     || negb (fa_battery fresh || fa_odometer fresh || fa_position fresh || fa_charge_session fresh)
  then s
  else
    let n := default (ParkedSnapshot_default <| sn_seen_at_ms := i64_min |>) (os_parked_snapshot s) in
    let n := n <| sn_seen_at_ms := snapshot_seen_at p fresh (sn_seen_at_ms n) |> in
    let n := if fa_battery fresh then snapshot_battery p n else n in
    let n := if fa_odometer fresh then snapshot_odometer p n else n in
    let n := if fa_position fresh then snapshot_position p n else n in
    let n := if fa_charge_session fresh then snapshot_charge p (ob_charge o) n else n in
    let n := if fa_charge_session fresh && states_charge p
             then n <| sn_at_ms := Some (map_or (sn_at_ms n) (p_charge_timestamp_ms p)
                                           (fun at_ => Z.max at_ (p_charge_timestamp_ms p))) |>
             else n in
    s <| os_parked_snapshot := Some n |>.
