(* ===== verification/LifeProject.v ===== *)
(** * The drive and charge lifecycle: one observation, a page, a Hub event

    The vehicle facts, the update status, the phase and the state interval, the
    order of the ten steps, and the entry points of
    [src/src/runtime/lifecycle/projection.rs] and [models.rs].  A session comes from
    [OpenSessionState::new] or from [decode], whose acceptance test is
    [decode_accepts]; the JSON of the blob itself is serde's. *)
From S2P Require Import Prelude RustStr F64 Text External LifeData Geo LifeEnergy LifeCost LifeDrive LifeParse LifeSteps LifeApply.
Local Open Scope string_scope.
Local Open Scope Z_scope.
Local Open Scope list_scope.

(** ** The session at rest *)

Definition CURRENT_VERSION : Z := 1.

Definition session_new : OpenSessionState :=
  OpenSessionState_default <| os_version := CURRENT_VERSION |> <| os_next_drive_id := 1 |> <| os_next_position_id := 1 |>
    <| os_next_charge_id := 1 |> <| os_next_charge_sample_id := 1 |> <| os_next_state_id := 1 |> <| os_next_update_id := 1 |>.

(** The checks of [decode] on a blob that parsed. *)
Definition decode_accepts (s : OpenSessionState) : result LifecycleError OpenSessionState :=
  if negb (os_version s =? CURRENT_VERSION) then Err (LeUnsupportedSessionVersion (os_version s))
  else if (os_next_drive_id s <? 1) || (os_next_position_id s <? 1) || (os_next_charge_id s <? 1)
          || (os_next_charge_sample_id s <? 1) || (os_next_state_id s <? 1) || (os_next_update_id s <? 1)
          || (os_last_observation_id s <? 0)
  then Err LeCorruptSession else Ok s.

Definition raise_cursor (next floor : Z) : Z := Z.max next (i64_sadd (Z.max floor 0) 1).
Definition raise_id_cursors (s : OpenSessionState) (used : IdFloors) : OpenSessionState :=
  s <| os_next_drive_id := raise_cursor (os_next_drive_id s) (if_drives used) |>
    <| os_next_position_id := raise_cursor (os_next_position_id s) (if_positions used) |>
    <| os_next_charge_id := raise_cursor (os_next_charge_id s) (if_charges used) |>
    <| os_next_charge_sample_id := raise_cursor (os_next_charge_sample_id s) (if_charge_samples used) |>
    <| os_next_state_id := raise_cursor (os_next_state_id s) (if_states used) |>
    <| os_next_update_id := raise_cursor (os_next_update_id s) (if_updates used) |>.

(** [max_by_key((end_date_ms, id))]: the last of the greatest. *)
Definition newer_update (best u : ProjectionUpdate) : ProjectionUpdate :=
  if key_ltb (pu_end_date_ms u, pu_id u) (pu_end_date_ms best, pu_id best) then best else u.

Definition seed_version_from_updates (s : OpenSessionState) (updates : list ProjectionUpdate) : OpenSessionState :=
  if is_some (os_last_car_version s) then s
  else
    match List.filter (fun u => is_some (version_key (pu_version u))) updates with
    | [] => s
    | u :: rest =>
        let newest := fold_left newer_update rest u in
        s <| os_last_car_version := Some (utrim (pu_version newest)) |>
          <| os_last_car_version_at_ms := Some (pu_end_date_ms newest) |>
    end.

Definition seed_version_from_car_row (s : OpenSessionState) (version : option string) (known_since_ms : option Z)
    : OpenSessionState :=
  if is_some (os_last_car_version s) then s
  else
    match utrim <$> version with
    | None => s
    | Some version =>
        if is_none (version_key version) then s
        else s <| os_last_car_version := Some version |>
               <| os_last_car_version_at_ms := opt_filter (fun at_ => 0 <? at_) known_since_ms |>
    end.

Definition convert_pending_seed (s : OpenSessionState) : OpenSessionState :=
  match os_pending_gained_range_charge s with
  | None => s
  | Some seed =>
      let s := s <| os_pending_gained_range_charge := None |> in
      if is_some (os_open_drive s) || is_some (os_parked_snapshot s) then s
      else s <| os_parked_snapshot := Some
             {| sn_at_ms := Some (gs_start_date_ms seed); sn_seen_at_ms := gs_start_date_ms seed;
                sn_battery_level := gs_start_battery_level seed; sn_ideal_range_km := gs_start_ideal_range_km seed;
                sn_rated_range_km := gs_start_rated_range_km seed; sn_odometer_km := None; sn_odometer_coarse := false;
                sn_latitude := gs_start_latitude seed; sn_longitude := gs_start_longitude seed;
                sn_energy_added_kwh := Some (gs_first_energy_added seed); sn_after_drive := false;
                sn_unplugged := false |} |>
  end.

(** ** Vehicle facts *)

Definition apply_car_metadata (o : Observation) (s : OpenSessionState) : OpenSessionState :=
  match p_car_metadata (ob_parsed o) with
  | Some newer => s <| os_car_metadata := Some (merge_newer (default ProjectionCarPatch_default (os_car_metadata s)) newer) |>
  | None => s
  end.

Definition set_service_mode (mode : option bool) (refused : bool) (s : OpenSessionState) : OpenSessionState :=
  s <| os_service_mode := mode |> <| os_service_mode_refused := refused |>.

Definition apply_service_mode (o : Observation) (s : OpenSessionState) : OpenSessionState :=
  let p := ob_parsed o in
  if bool_decide (event o = Some ServiceRefused) then set_service_mode (Some true) true s
  else
    let status_fresh := fa_vehicle_status (ob_fresh o) && has_vehicle_data (p_kind p) in
    match (if status_fresh then p_service_mode p else None) with
    | Some stated => set_service_mode (Some stated) false s
    | None =>
        if bool_decide (p_kind p = Full) && status_fresh then set_service_mode None false s
        else if os_service_mode_refused s && bool_decide (p_kind p = Full) && families_any (ob_fresh o)
             then set_service_mode None false s
        else s
    end.

Definition known_version (text : string) (t_vehicle : Z) (s : OpenSessionState) : OpenSessionState :=
  s <| os_last_car_version := Some text |> <| os_last_car_version_at_ms := Some t_vehicle |>.

(** The identifier and start of an update that finished: the open install's, or a new
    one with the time of the older version. *)
Definition finished_update (s : OpenSessionState) : result LifecycleError (Z * option Z * OpenSessionState) :=
  match os_open_update s with
  | Some open => Ok (up_id open, Some (up_start_date_ms open), s <| os_open_update := None |>)
  | None => next ← next_id (os_next_update_id s); mret (os_next_update_id s, None, s <| os_next_update_id := next |>)
  end.

Definition apply_version_facts (o : Observation) (w : Work) : result LifecycleError Work :=
  let '(s, delta) := w in
  let p := ob_parsed o in
  if negb (bool_decide (p_kind p = Full)) || negb (fa_vehicle_status (ob_fresh o)) then Ok w
  else
    let text := default "" (utrim <$> p_car_version p) in
    match p_car_version p ≫= (fun version => version_key (utrim version)) with
    | None => Ok w
    | Some key =>
        let t_vehicle := p_vehicle_timestamp_ms p in
        match os_last_car_version s ≫= version_key with
        | None => Ok (known_version text t_vehicle s, delta)
        | Some known_key =>
            match compare_version_keys key known_key with
            | Gt =>
                '(id, install_start, s) ← finished_update s;
                let start := Z.min (default t_vehicle (opt_or install_start (os_last_car_version_at_ms s))) t_vehicle in
                mret (known_version text t_vehicle s,
                      delta <| d_updates := d_updates delta ++ [MkProjectionUpdate id (ob_car_id o) start t_vehicle text] |>)
            | Eq => Ok (s <| os_last_car_version_at_ms := Some t_vehicle |>, delta)
            | Lt => Ok w
            end
        end
    end.

Definition apply_update_status (o : Observation) (s : OpenSessionState) : result LifecycleError OpenSessionState :=
  if bool_decide (ob_drive o = Motion) && is_some (os_open_update s) then Ok (s <| os_open_update := None |>)
  else
    match ob_status o with
    | Installing =>
        if is_none (os_open_update s) && is_none (os_open_drive s) then
          let id := os_next_update_id s in
          next ← next_id id;
          mret (s <| os_next_update_id := next |>
                  <| os_open_update := Some (MkOpenUpdate id (ob_car_id o) (p_vehicle_timestamp_ms (ob_parsed o))) |>)
        else Ok s
    | Offered | Idle => Ok (s <| os_open_update := None |>)
    | NoStatus => Ok s
    end.

(** ** Phase and state interval *)

Definition derive_phase (o : Observation) (s : OpenSessionState) : VehiclePhase :=
  let last_reach := opt_or (ob_reach o) (os_last_reach s ≫= reach_from_text) in
  match last_reach with
  | Some RAsleep => VpAsleep
  | Some ROffline => VpOffline
  | _ =>
      if is_some (os_open_drive s) then VpDriving
      else if is_some (os_open_update s) then VpUpdating
      else if is_some (os_open_charge s) then VpCharging
      else if bool_decide (last_reach = Some ROnline) then VpOnline
      else phase_effective (os_phase s)
  end.

(** The row of the state interval that ends. *)
Definition closed_state (car_id at_ms : Z) (open : option OpenState) : list ProjectionState :=
  match open with
  | Some open => [MkProjectionState (st_id open) car_id (st_state open) (st_start_date_ms open)
                    (Some (Z.max at_ms (st_start_date_ms open)))]
  | None => []
  end.

Definition update_state_interval (car_id : Z) (phase : VehiclePhase) (at_ms : Z) (w : Work) : result LifecycleError Work :=
  let '(s, delta) := w in
  match logical_state phase with
  | None => Ok w
  | Some target =>
      if is_some_and (os_open_state s) (fun open => bool_decide (st_state open = target)) then Ok w
      else
        let id := os_next_state_id s in
        next ← next_id id;
        mret (s <| os_next_state_id := next |> <| os_open_state := Some (MkOpenState id car_id target at_ms) |>,
              delta <| d_states := d_states delta ++ closed_state car_id at_ms (os_open_state s)
                                   ++ [MkProjectionState id car_id target at_ms None] |>)
  end.

(** ** The steps in order *)

Definition mark_offline (o : Observation) (s : OpenSessionState) : OpenSessionState :=
  match os_open_drive s with
  | Some drive => if bool_decide (ob_reach o = Some ROffline)
                  then s <| os_open_drive := Some (drive <| od_saw_offline := true |>) |> else s
  | None => s
  end.

Definition phase_step (o : Observation) (w : Work) : result LifecycleError Work :=
  let '(s, delta) := w in
  let phase := derive_phase o s in
  let s := s <| os_phase := phase |> in
  if is_some (ob_reach o) then update_state_interval (ob_car_id o) phase (t_obs o) (s, delta) else mret (s, delta).

Definition apply_lifecycle_steps `{Libm} (o : Observation) (w : Work) : result LifecycleError Work :=
  let '(s, delta) := w in
  w ← apply_version_facts o (apply_service_mode o (apply_car_metadata o s), delta);
  w ← drive_close_step o w;
  '(s, delta) ← charge_close_step o w;
  s ← apply_update_status o (mark_offline o s);
  w ← drive_open_step o (s, delta);
  w ← charge_open_step o w;
  w ← drive_fold_step o w;
  w ← charge_sample_step o w;
  '(s, delta) ← standalone_position_step o w;
  phase_step o (parked_snapshot_step o s, delta).

Definition opt_max (watermark : option Z) (fact_ms : Z) : option Z := Some (map_or watermark fact_ms (fun w => Z.max w fact_ms)).

(** The watermark of each family. *)
Definition motion_mark (o : Observation) (s : OpenSessionState) : OpenSessionState :=
  if fa_motion (ob_fresh o)
  then s <| os_last_drive_timestamp_ms := opt_max (os_last_drive_timestamp_ms s) (p_drive_timestamp_ms (ob_parsed o)) |> else s.
Definition position_mark (o : Observation) (s : OpenSessionState) : OpenSessionState :=
  if fa_position (ob_fresh o)
  then s <| os_last_position_fact_ms := opt_max (opt_or (os_last_position_fact_ms s) (os_last_drive_timestamp_ms s))
                                          (p_drive_timestamp_ms (ob_parsed o)) |> else s.
Definition battery_mark (o : Observation) (s : OpenSessionState) : OpenSessionState :=
  if fa_battery (ob_fresh o)
  then s <| os_last_battery_fact_ms := opt_max (opt_or (os_last_battery_fact_ms s) (os_last_charge_timestamp_ms s))
                                         (p_charge_timestamp_ms (ob_parsed o)) |> else s.
Definition charge_mark (o : Observation) (s : OpenSessionState) : OpenSessionState :=
  if fa_charge_session (ob_fresh o)
  then s <| os_last_charge_timestamp_ms := opt_max (os_last_charge_timestamp_ms s) (p_charge_timestamp_ms (ob_parsed o)) |> else s.
Definition climate_mark (o : Observation) (s : OpenSessionState) : OpenSessionState :=
  if fa_climate (ob_fresh o)
  then s <| os_last_climate_fact_ms := opt_max (os_last_climate_fact_ms s) (p_climate_timestamp_ms (ob_parsed o)) |> else s.
Definition odometer_mark (o : Observation) (s : OpenSessionState) : OpenSessionState :=
  if fa_odometer (ob_fresh o)
  then s <| os_last_odometer_fact_ms := opt_max (opt_or (os_last_odometer_fact_ms s) (os_last_vehicle_timestamp_ms s))
                                          (p_vehicle_timestamp_ms (ob_parsed o)) |> else s.
Definition status_mark (o : Observation) (s : OpenSessionState) : OpenSessionState :=
  if fa_vehicle_status (ob_fresh o)
  then s <| os_last_vehicle_timestamp_ms := opt_max (os_last_vehicle_timestamp_ms s) (p_vehicle_timestamp_ms (ob_parsed o)) |> else s.
Definition observed_mark (o : Observation) (s : OpenSessionState) : OpenSessionState :=
  if bool_decide (p_kind (ob_parsed o) = HubEvent) then s
  else s <| os_last_observed_at_ms := opt_max (os_last_observed_at_ms s) (p_observed_at_ms (ob_parsed o)) |>.
Definition reach_mark (o : Observation) (s : OpenSessionState) : OpenSessionState :=
  match ob_reach o with
  | Some reach => s <| os_last_reach := Some (reach_as_str reach) |>
  | None => s
  end.

Definition advance_watermarks (o : Observation) (s : OpenSessionState) : OpenSessionState :=
  let s := battery_mark o (position_mark o (motion_mark o s)) in
  let s := odometer_mark o (climate_mark o (charge_mark o s)) in
  reach_mark o (observed_mark o (status_mark o s)).

(** ** One observation *)

Definition DEFAULT_OFFLINE_DRIVE_TIMEOUT : Duration := from_secs (10 * 60).

(** Evidence of a parsed observation, after conflict resolution. *)
Definition observe (s : OpenSessionState) (car_id t_gap_ms : Z) (vehicle_state : string) (fresh : Families) (p : ParsedSample)
    : Observation :=
  let status := if fa_vehicle_status fresh && has_vehicle_data (p_kind p)
                then update_status_class (p_software_update_status p) else NoStatus in
  let '(drive, charge, status) :=
    resolve_conflicts p (classify_drive p (fa_motion fresh)) (classify_charge p (fa_charge_session fresh)) status in
  MkObservation p car_id t_gap_ms (accepted_reach s p vehicle_state fresh) fresh drive charge status.

Definition set_cursor (id : Z) (s : OpenSessionState) : OpenSessionState := s <| os_last_observation_id := id |>.

(** Only the cursor advances. *)
Definition cursor_only (id : Z) (quarantined : bool) (s : OpenSessionState) : LifecycleStep :=
  MkLifecycleStep (set_cursor id s) LifecycleDelta_default quarantined.

Definition says_nothing (p : ParsedSample) : bool :=
  bool_decide (p_kind p = UnknownKind) || (bool_decide (p_kind p = HubEvent) && is_none (p_hub_event p)).

(** The observation behind the guards. *)
Definition project `{Libm} (s : OpenSessionState) (car_id t_gap_ms : Z) (sample : LifecycleSample) (p : ParsedSample)
    : result LifecycleError LifecycleStep :=
  let fresh := fresh_families s p in
  let '(s, p) := carry_forward s p fresh in
  let o := observe s car_id t_gap_ms (ls_vehicle_state sample) fresh p in
  '(s, delta) ← apply_lifecycle_steps o (s, LifecycleDelta_default);
  mret (MkLifecycleStep (set_cursor (ls_observation_id sample) (advance_watermarks o s)) delta false).

Definition apply_sample_with_offline_drive_timeout `{Libm} (s : OpenSessionState) (car_id : Z) (sample : LifecycleSample)
    (offline_drive_timeout : Duration) : result LifecycleError LifecycleStep :=
  if car_id <=? 0 then Err LeInvalidCarId
  else
    t_gap_ms ← ok_or (opt_filter (fun millis => 0 <? millis) (i64_try_from (as_millis offline_drive_timeout)))
                 LeInvalidOfflineDriveTimeout;
    if ls_observation_id sample <=? os_last_observation_id s then mret (MkLifecycleStep s LifecycleDelta_default false)
    else
      let s := convert_pending_seed s in
      match parse_sample sample with
      | Err LeInvalidPayload => mret (cursor_only (ls_observation_id sample) true s)
      | Err error => Err error
      | Ok p =>
          if says_nothing p then mret (cursor_only (ls_observation_id sample) false s)
          else project s car_id t_gap_ms sample p
      end.

Definition apply_sample `{Libm} (s : OpenSessionState) (car_id : Z) (sample : LifecycleSample)
    : result LifecycleError LifecycleStep :=
  apply_sample_with_offline_drive_timeout s car_id sample DEFAULT_OFFLINE_DRIVE_TIMEOUT.

(** ** A page of observations *)

(** Whether a child placed before leaves its drive in this step. *)
Definition becomes_standalone (step : LifecycleDelta) (position : ProjectionPosition) : bool :=
  is_some_and (pp_drive_id position) (fun drive_id =>
    bool_decide (drive_id ∈ d_discarded_drive_ids step)
    || existsb (fun drive => (pd_id drive =? drive_id) && (pd_end_date_ms drive <? pp_date_ms position)) (d_drives step)).

Definition merge_step_delta (total step : LifecycleDelta) : LifecycleDelta :=
  let placed := d_open_drive_positions total ++ d_open_drive_positions step in
  let closes := negb (bool_decide (length (d_drives step) = 0%nat) && bool_decide (length (d_discarded_drive_ids step) = 0%nat)) in
  let leaves position := closes && becomes_standalone step position in
  {| d_drives := d_drives total ++ d_drives step;
     d_discarded_drive_ids := d_discarded_drive_ids total ++ d_discarded_drive_ids step;
     d_positions := d_positions total ++ map standalone (List.filter leaves placed) ++ d_positions step;
     d_charges := d_charges total ++ d_charges step;
     d_charge_samples := d_charge_samples total ++ d_charge_samples step;
     d_states := d_states total ++ d_states step;
     d_updates := d_updates total ++ d_updates step;
     d_charge_start_coordinates := d_charge_start_coordinates total ++ d_charge_start_coordinates step;
     d_open_drive_positions := List.filter (fun position => negb (leaves position)) placed;
     d_open_charge_samples := d_open_charge_samples total ++ d_open_charge_samples step |}.

Fixpoint apply_samples_from `{Libm} (s : OpenSessionState) (car_id : Z) (samples : list LifecycleSample)
    (total : LifecycleDelta) (quarantined : bool) : result LifecycleError LifecycleStep :=
  match samples with
  | [] => Ok (MkLifecycleStep s total quarantined)
  | sample :: samples =>
      step ← apply_sample s car_id sample;
      apply_samples_from (step_state step) car_id samples (merge_step_delta total (step_delta step))
        (quarantined || step_quarantined step)
  end.
Definition apply_samples `{Libm} (s : OpenSessionState) (car_id : Z) (samples : list LifecycleSample)
    : result LifecycleError LifecycleStep :=
  apply_samples_from s car_id samples LifecycleDelta_default false.

(** ** Hub events without an observation *)

Definition apply_hub_event `{Libm} (s : OpenSessionState) (car_id at_ms : Z) (event : string)
    : result LifecycleError LifecycleStep :=
  let cursor := os_last_observation_id s in
  id ← next_id cursor;
  step ← apply_sample s car_id
           (MkLifecycleSample id at_ms "unknown" (JObject [("record_type", JString HUB_EVENT_RECORD_TYPE); ("event", JString event)]));
  mret (step <| step_state := set_cursor cursor (step_state step) |>).

Definition force_close_open_sessions `{Libm} (s : OpenSessionState) (car_id closed_at_ms : Z)
    : result LifecycleError LifecycleStep :=
  apply_hub_event s car_id closed_at_ms "no_data".
Definition force_close_for_service `{Libm} (s : OpenSessionState) (car_id closed_at_ms : Z)
    : result LifecycleError LifecycleStep :=
  apply_hub_event s car_id closed_at_ms "service_refused".
