(* ===== verification/LifeInv.v ===== *)
(** * The drive and charge lifecycle: the invariant of a session

    What every step preserves: the identifiers stay in range and above every open
    session, a drive and a charge are never open together, the checkpoints of an open
    drive are bare copies ordered by their cuts, and every row a step produces is well
    formed. *)
From S2P Require Import Prelude RustStr F64 Text External LifeData Geo LifeEnergy LifeCost LifeDrive LifeParse LifeSteps LifeApply LifeProject.
From Stdlib Require Import Sorting.Sorted.
Local Open Scope Z_scope.
Local Open Scope list_scope.

(** ** Definitions *)

Definition id_ok (id : Z) : Prop := 1 <= id <= i64_max.

Definition ids_ok (s : OpenSessionState) : Prop :=
  id_ok (os_next_drive_id s) /\ id_ok (os_next_position_id s) /\ id_ok (os_next_charge_id s)
  /\ id_ok (os_next_charge_sample_id s) /\ id_ok (os_next_state_id s) /\ id_ok (os_next_update_id s).

(** A copy that holds no positions and no copies. *)
Definition bare (d : OpenDrive) : Prop :=
  od_positions d = [] /\ od_still_checkpoint d = None /\ od_lead_checkpoints d = [].

Definition cut_le (a b : LeadCheckpoint) : Prop := lc_cut_ms a <= lc_cut_ms b.

Definition identity (d : OpenDrive) : Z * Z * Z := (od_id d, od_car_id d, od_start_date_ms d).

(** A bare copy of the drive with the identity [i]. *)
Definition copy_of (i : Z * Z * Z) (c : OpenDrive) : Prop := bare c /\ identity c = i.

Definition leads_ok (i : Z * Z * Z) (leads : list LeadCheckpoint) : Prop :=
  (length leads <= K_LEAD_CHECKPOINTS)%nat /\ StronglySorted cut_le leads
  /\ Forall (fun c => copy_of i (lc_drive c)) leads.

Definition drive_ok (d : OpenDrive) : Prop :=
  od_positions d = [] /\ leads_ok (identity d) (od_lead_checkpoints d)
  /\ (forall c, od_still_checkpoint d = Some c -> copy_of (identity d) c).

Record session_ok (s : OpenSessionState) : Prop := MkSessionOk {
  ok_version : os_version s = CURRENT_VERSION;
  ok_ids : ids_ok s;
  ok_cursor : 0 <= os_last_observation_id s;
  ok_exclusive : os_open_drive s = None \/ os_open_charge s = None;
  ok_drive : forall d, os_open_drive s = Some d -> drive_ok d /\ 1 <= od_id d < os_next_drive_id s;
  ok_charge : forall c, os_open_charge s = Some c -> oc_samples c = [] /\ 1 <= oc_id c < os_next_charge_id s;
  ok_update : forall u, os_open_update s = Some u -> 1 <= up_id u < os_next_update_id s;
  ok_state : forall i, os_open_state s = Some i -> 1 <= st_id i < os_next_state_id s;
}.

Definition drive_row_ok (d : ProjectionDrive) : Prop := pd_start_date_ms d <= pd_end_date_ms d /\ 1 <= pd_id d.
Definition charge_row_ok (c : ProjectionCharge) : Prop :=
  1 <= pc_id c /\ exists end_, pc_end_date_ms c = Some end_ /\ pc_start_date_ms c <= end_.
Definition state_row_ok (i : ProjectionState) : Prop :=
  1 <= pst_id i /\ (forall end_, pst_end_date_ms i = Some end_ -> pst_start_date_ms i <= end_).
Definition update_row_ok (u : ProjectionUpdate) : Prop := 1 <= pu_id u /\ pu_start_date_ms u <= pu_end_date_ms u.
Definition position_row_ok (p : ProjectionPosition) : Prop :=
  1 <= pp_id p /\ latitude_ok (pp_latitude p) = true /\ longitude_ok (pp_longitude p) = true.
Definition sample_row_ok (c : ProjectionChargeSample) : Prop := 1 <= ps_id c /\ 1 <= ps_charge_process_id c.

Record delta_ok (d : LifecycleDelta) : Prop := MkDeltaOk {
  rows_drives : Forall drive_row_ok (d_drives d);
  rows_charges : Forall charge_row_ok (d_charges d);
  rows_states : Forall state_row_ok (d_states d);
  rows_updates : Forall update_row_ok (d_updates d);
  rows_positions : Forall position_row_ok (d_positions d);
  rows_open_positions : Forall position_row_ok (d_open_drive_positions d);
  rows_samples : Forall sample_row_ok (d_open_charge_samples d);
}.

Definition work_ok (w : Work) : Prop := session_ok w.1 /\ delta_ok w.2.
Definition keeps (f : Work -> result LifecycleError Work) : Prop :=
  forall w w', work_ok w -> f w = Ok w' -> work_ok w'.

(** ** Small facts *)

Lemma next_id_Ok id next : next_id id = Ok next -> next = id + 1 /\ id <> i64_max.
Proof. unfold next_id. intros. cases. lia. Qed.

Lemma next_id_ok id next : id_ok id -> next_id id = Ok next -> id_ok next /\ id < next.
Proof. intros [? ?] [-> ?]%next_id_Ok. unfold id_ok. lia. Qed.

Lemma Forall_snoc {A} (P : A -> Prop) l x : Forall P l -> P x -> Forall P (l ++ [x]).
Proof. intros. apply Forall_app_2; [done|]. by constructor. Qed.

Lemma Forall_opt {A} (P : A -> Prop) l o : Forall P l -> (forall x, o = Some x -> P x) -> Forall P (l ++ opt_list o).
Proof. intros Hl Ho. apply Forall_app_2; [done|]. destruct o; constructor; auto. Qed.

(** Take a computation of [result] apart. *)
Ltac inv_bind :=
  repeat match goal with
  | H : _ ≫= _ = Ok _ |- _ => apply result_bind_Ok in H as (? & ? & ?)
  | H : mret _ = Ok _ |- _ => apply (inj Ok) in H
  | H : Ok _ = Ok _ |- _ => apply (inj Ok) in H
  | H : (let '(_, _) := ?x in _) = Ok _ |- _ => is_var x; destruct x
  end.

#[export] Instance Ok_inj {E A} : Inj (=) (=) (@Ok E A).
Proof. by intros ?? [=]. Qed.

(** The fields [session_ok] reads. *)
Lemma session_ok_same s s' :
  os_version s' = os_version s -> ids_ok s' -> 0 <= os_last_observation_id s' ->
  os_open_drive s' = os_open_drive s -> os_open_charge s' = os_open_charge s ->
  os_open_update s' = os_open_update s -> os_open_state s' = os_open_state s ->
  os_next_drive_id s <= os_next_drive_id s' -> os_next_charge_id s <= os_next_charge_id s' ->
  os_next_update_id s <= os_next_update_id s' -> os_next_state_id s <= os_next_state_id s' ->
  session_ok s -> session_ok s'.
Proof.
  intros Hv Hi Hc Hd Hch Hu Hst Hnd Hnc Hnu Hns [].
  constructor; rewrite ?Hv, ?Hd, ?Hch, ?Hu, ?Hst; try done.
  - intros d E. destruct (ok_drive0 d E). split; [done|lia].
  - intros d E. destruct (ok_charge0 d E). split; [done|lia].
  - intros d E. specialize (ok_update0 d E). lia.
  - intros d E. specialize (ok_state0 d E). lia.
Qed.

(** A record update of fields the invariant does not read. *)
Ltac ok_frame Hs :=
  refine (session_ok_same _ _ _ _ _ _ _ _ _ _ _ _ _ Hs); cbn; try done; try lia;
  try exact (ok_ids _ Hs); try exact (ok_cursor _ Hs).

(** ** Rows *)

Lemma position_from_sample_ok id drive_id car_id p r :
  1 <= id -> position_from_sample id drive_id car_id p = Ok (Some r) -> position_row_ok r.
Proof.
  intros Hid. unfold position_from_sample, valid_coordinates, latitude_ok, longitude_ok, then_some.
  intros H. cases. split; [done|]. cbn. bsimp. split; by apply andb_true_iff.
Qed.

Lemma next_position_id_ok s id s' :
  session_ok s -> next_position_id s = Ok (id, s') -> 1 <= id /\ session_ok s' /\ os_open_drive s' = os_open_drive s
    /\ os_open_charge s' = os_open_charge s.
Proof.
  intros Hs H. unfold next_position_id in H. inv_bind. simplify_eq/=.
  destruct (ok_ids _ Hs) as (Hd & Hp & Hr).
  destruct (next_id_ok _ _ Hp H) as [? ?]. split_and!; [by destruct Hp|ok_frame Hs; split_and!; naive_solver..|done|done].
Qed.

(** ** The fold of one point keeps the identity of the drive and its copies *)

Definition frame_of (d : OpenDrive) : Z * Z * Z * list ProjectionPosition * list LeadCheckpoint * option OpenDrive :=
  (od_id d, od_car_id d, od_start_date_ms d, od_positions d, od_lead_checkpoints d, od_still_checkpoint d).

(** A fold of a point that keeps the frame. *)
Definition keeps_frame (g : OpenDrive -> OpenDrive) : Prop := forall d, frame_of (g d) = frame_of d.

Lemma fold_values_frame p : keeps_frame (fold_values p).
Proof.
  intros d. unfold fold_values. cbv zeta.
  assert (H1 : keeps_frame (fold_soc p)) by (intros ?; unfold fold_soc; by case_match).
  assert (H2 : keeps_frame (fold_ideal p)) by (intros ?; unfold fold_ideal; by case_match).
  assert (H3 : keeps_frame (fold_rated p)) by (intros ?; unfold fold_rated; by case_match).
  assert (H4 : keeps_frame (fold_speed p)) by (intros ?; unfold fold_speed; by case_match).
  assert (H5 : keeps_frame (fold_power p)) by (intros ?; unfold fold_power; by case_match).
  assert (H6 : keeps_frame (fold_outside p)) by (intros ?; unfold fold_outside; by case_match).
  assert (H7 : keeps_frame (fold_inside p)) by (intros ?; unfold fold_inside; by case_match).
  assert (H8 : keeps_frame (fold_charge_energy p)) by (intros ?; unfold fold_charge_energy; by case_match).
  by rewrite H8, H7, H6, H5, H4, H3, H2, H1.
Qed.

Lemma fold_coordinates_frame `{Libm} at_ : keeps_frame (fold_coordinates at_).
Proof.
  intros d. unfold fold_coordinates. set (d1 := if _ : bool then _ else d).
  assert (frame_of d1 = frame_of d) as <- by (unfold d1; by case_match). clearbody d1.
  case_match; [|done]. case_match; [|done]. by case_match.
Qed.

Section Fold.
Context `{Libm}.

Lemma fold_facts_frame d p e : frame_of (fold_facts d p e) = frame_of d.
Proof.
  unfold fold_facts. rewrite fold_values_frame.
  trans (frame_of (fold_at p (fold_emitted e (fold_time p d)))); [unfold fold_odo; by case_match|].
  trans (frame_of (fold_emitted e (fold_time p d))); [unfold fold_at; case_match; [apply fold_coordinates_frame|done]|].
  unfold fold_emitted. by case_match.
Qed.

Lemma fold_drive_point_eq d p e track :
  fold_drive_point d p e track = fold_still p track (fold_facts d p e).
Proof. reflexivity. Qed.

Lemma fold_drive_point_frame d p e track :
  identity (fold_drive_point d p e track) = identity d
  /\ od_positions (fold_drive_point d p e track) = od_positions d
  /\ od_lead_checkpoints (fold_drive_point d p e track) = od_lead_checkpoints d.
Proof.
  rewrite fold_drive_point_eq. pose proof (fold_facts_frame d p e) as Hf.
  set (d' := fold_facts d p e) in *. clearbody d'. unfold identity. injection Hf as <- <- <- <- <- _.
  unfold fold_still. by repeat case_match.
Qed.

Lemma fold_drive_point_still d p e track c :
  od_still_checkpoint (fold_drive_point d p e track) = Some c ->
  copy_of (identity d) c \/ od_still_checkpoint d = Some c.
Proof.
  rewrite fold_drive_point_eq. pose proof (fold_facts_frame d p e) as Hf.
  set (d' := fold_facts d p e) in *. clearbody d'. unfold copy_of, identity. injection Hf as <- <- <- _ _ <-.
  unfold fold_still. intros E. repeat case_match; simplify_eq/=; auto. by left.
Qed.

Lemma fold_drive_point_copy i d p e : copy_of i d -> copy_of i (fold_drive_point d p e false).
Proof.
  intros [(Hp & Hs & Hl) Hi]. destruct (fold_drive_point_frame d p e false) as (Ei & Ep & El).
  split; [|by rewrite Ei]. split_and!; [by rewrite Ep| |by rewrite El].
  rewrite fold_drive_point_eq. pose proof (fold_facts_frame d p e) as Hf.
  set (d' := fold_facts d p e) in *. clearbody d'. injection Hf as _ _ _ _ _ Hf. rewrite Hs in Hf.
  unfold fold_still. by repeat case_match.
Qed.
End Fold.

(** ** The lead checkpoints *)

Lemma insert_lead_perm x l : insert_lead x l ≡ₚ x :: l.
Proof. induction l as [|y l IH]; simpl; [done|]. case_match; [|done]. rewrite IH. by constructor. Qed.

Lemma insert_lead_sorted x l : StronglySorted cut_le l -> StronglySorted cut_le (insert_lead x l).
Proof.
  induction 1 as [|y l Hs IH Hy]; simpl; [by repeat constructor|].
  case_match; bsimp.
  - constructor; [done|]. rewrite insert_lead_perm. by constructor.
  - constructor; [by constructor|]. constructor; [unfold cut_le; lia|].
    eapply Forall_impl; [exact Hy|]. unfold cut_le. lia.
Qed.

Lemma Forall_filter_sub {A} (Q P : A -> Prop) `{forall x, Decision (P x)} l : Forall Q l -> Forall Q (filter P l).
Proof. rewrite !Forall_forall. intros HQ x [_ ?]%list_elem_of_filter. auto. Qed.

Lemma leads_filter_ok i (P : LeadCheckpoint -> Prop) `{forall x, Decision (P x)} l : leads_ok i l -> leads_ok i (filter P l).
Proof.
  intros (Hl & Hs & Hb). split_and!.
  - pose proof (length_filter P l). lia.
  - clear Hl Hb. induction Hs as [|x l Hs IH Hx]; [constructor|]. rewrite filter_cons. case_decide; [|done].
    constructor; [done|]. by apply Forall_filter_sub.
  - by apply Forall_filter_sub.
Qed.

Lemma leads_insert_ok i c l :
  copy_of i (lc_drive c) -> leads_ok i l ->
  leads_ok i (insert_lead c (if (K_LEAD_CHECKPOINTS <=? length l)%nat then tail l else l)).
Proof.
  intros Hc (Hl & Hs & Hb).
  assert (Hl' : exists l', (if (K_LEAD_CHECKPOINTS <=? length l)%nat then tail l else l) = l'
                 /\ (length l' < K_LEAD_CHECKPOINTS)%nat /\ StronglySorted cut_le l'
                 /\ Forall (fun c => copy_of i (lc_drive c)) l').
  { eexists. split; [reflexivity|]. destruct (K_LEAD_CHECKPOINTS <=? length l)%nat eqn:E.
    - destruct l as [|x l]; simpl in *; [by split_and!; unfold K_LEAD_CHECKPOINTS in *; try lia|].
      inversion Hs. inversion Hb. split_and!; [lia|done|done].
    - apply Nat.leb_gt in E. by split_and!. }
  destruct Hl' as (l' & -> & Hl' & Hs' & Hb'). split_and!.
  - rewrite insert_lead_perm. simpl. lia.
  - by apply insert_lead_sorted.
  - rewrite insert_lead_perm. by constructor.
Qed.

Lemma leads_fold_ok `{Libm} i p l : leads_ok i l -> leads_ok i (map (fold_lead p) l).
Proof.
  assert (Hcut : forall c, lc_cut_ms (fold_lead p c) = lc_cut_ms c) by (intros c; unfold fold_lead; by case_match).
  intros (Hl & Hs & Hb). split_and!.
  - by rewrite length_map.
  - clear Hl Hb. induction Hs as [|x l Hs IH Hx]; simpl; [constructor|]. constructor; [done|].
    apply Forall_fmap. eapply Forall_impl; [exact Hx|]. intros y. unfold cut_le. cbn. by rewrite !Hcut.
  - apply Forall_fmap. eapply Forall_impl; [exact Hb|]. intros c Hc. cbn. unfold fold_lead.
    case_match; [|done]. by apply fold_drive_point_copy.
Qed.

(** ** The fold of one observation keeps the drive *)

Lemma fold_all_ok `{Libm} d p e : drive_ok d -> drive_ok (fold_all d p e) /\ identity (fold_all d p e) = identity d.
Proof.
  intros (Hp & Hl & Hs). unfold fold_all, observe_drive_point.
  destruct (fold_drive_point_frame d p e true) as (Ei & Ep & El).
  pose proof (fold_drive_point_still d p e true) as Est.
  set (d' := fold_drive_point d p e true) in *. clearbody d'.
  assert (Hi : identity (d' <| od_lead_checkpoints := map (fold_lead p) (od_lead_checkpoints d') |>) = identity d) by exact Ei.
  split; [|done]. unfold drive_ok. rewrite Hi. split_and!; cbn; [by rewrite Ep| |].
  - rewrite El. by apply leads_fold_ok.
  - intros c [|]%Est; auto.
Qed.

Lemma lead_update_ok motion lead t d :
  drive_ok d -> drive_ok (lead_update motion lead t d) /\ identity (lead_update motion lead t d) = identity d.
Proof.
  intros (Hp & Hl & Hs). unfold lead_update.
  set (d1 := if motion then _ else d).
  assert (Hd1 : drive_ok d1 /\ identity d1 = identity d).
  { unfold d1. destruct motion; [|done]. split; [|done]. split_and!; [done| |done]. by apply leads_filter_ok. }
  clearbody d1. destruct Hd1 as [(Hp1 & Hl1 & Hs1) Hi1].
  destruct lead; [|done]. split; [|done]. split_and!; [done| |done]. by apply leads_insert_ok.
Qed.
