(* ===== verification/LifeSafe.v ===== *)
(** * The drive and charge lifecycle: every step keeps the invariant

    One lemma per step of [apply_lifecycle_steps], their composition for one
    observation and for a page, and the properties of reachable sessions. *)
From S2P Require Import Prelude RustStr F64 External Text LifeData Geo LifeEnergy LifeCost LifeDrive LifeParse LifeSteps LifeApply LifeProject LifeInv.
From Stdlib Require Import Sorting.Sorted.
Local Open Scope string_scope.
Local Open Scope Z_scope.
Local Open Scope list_scope.

(** ** Changing one session *)

Lemma session_ok_set_drive s d :
  session_ok s -> os_open_charge s = None -> drive_ok d -> 1 <= od_id d < os_next_drive_id s ->
  session_ok (s <| os_open_drive := Some d |>).
Proof. intros [] Hc Hd Hi. constructor; cbn; try done; [by right|]. by intros ? [= <-]. Qed.

Lemma session_ok_close_drive s : session_ok s -> session_ok (s <| os_open_drive := None |>).
Proof. intros []. constructor; cbn; try done. by left. Qed.

Lemma session_ok_set_charge s c :
  session_ok s -> os_open_drive s = None -> oc_samples c = [] -> 1 <= oc_id c < os_next_charge_id s ->
  session_ok (s <| os_open_charge := Some c |>).
Proof. intros [] Hc Hd Hi. constructor; cbn; try done; [by left|]. by intros ? [= <-]. Qed.

Lemma session_ok_close_charge s : session_ok s -> session_ok (s <| os_open_charge := None |>).
Proof. intros []. constructor; cbn; try done. by right. Qed.

Lemma session_ok_close_update s : session_ok s -> session_ok (s <| os_open_update := None |>).
Proof. intros []. by constructor. Qed.

Lemma open_drive_no_charge s d : session_ok s -> os_open_drive s = Some d -> os_open_charge s = None.
Proof. intros Hs E. destruct (ok_exclusive _ Hs); congruence. Qed.

Lemma open_charge_no_drive s c : session_ok s -> os_open_charge s = Some c -> os_open_drive s = None.
Proof. intros Hs E. destruct (ok_exclusive _ Hs); congruence. Qed.

Lemma identity_id a b : identity a = identity b -> od_id a = od_id b.
Proof. unfold identity. congruence. Qed.

(** ** The drive *)

Lemma fold_into_ok `{Libm} o s s' pos :
  session_ok s -> fold_into_open_drive s o = Ok (s', pos) ->
  session_ok s' /\ (forall p, pos = Some p -> position_row_ok p) /\ os_open_charge s' = os_open_charge s
  /\ (os_open_drive s = None -> s' = s).
Proof.
  intros Hs. unfold fold_into_open_drive. destruct (os_open_drive s) as [d|] eqn:Ed.
  2: { intros [= <- <-]. by split_and!. }
  intros E. apply result_bind_Ok in E as ([s1 p1] & E1 & E2). cbv beta iota zeta in E2.
  apply (inj Ok), pair_equal_spec in E2 as [<- <-].
  assert (Hs1 : session_ok s1 /\ os_open_drive s1 = Some d /\ os_open_charge s1 = os_open_charge s
                /\ (forall p, p1 = Some p -> position_row_ok p)).
  { destruct (stores_position d o).
    - apply result_bind_Ok in E1 as ([id s2] & En & E1). apply result_bind_Ok in E1 as (p2 & Ep & E1).
      injection E1 as <- <-. destruct (next_position_id_ok _ _ _ Hs En) as (Hi & Hs2 & Hd2 & Hc2).
      split_and!; [done|congruence|done|]. intros p ->. by eapply position_from_sample_ok.
    - injection E1 as <- <-. by split_and!. }
  destruct Hs1 as (Hs1 & Ed1 & Ec1 & Hp1). destruct (ok_drive _ Hs1 _ Ed1) as [Hd Hi].
  split_and!; [|done|done|done].
  destruct (lead_update_ok (fa_motion (ob_fresh o)) (is_lead s1 o) (dp_at_ms (drive_point o)) d Hd) as [Hl Eil].
  destruct (fold_all_ok _ (drive_point o) p1 Hl) as [Hf Eif].
  apply session_ok_set_drive; [done|by eapply open_drive_no_charge|done|].
  rewrite Eil in Eif. by rewrite (identity_id _ _ Eif).
Qed.

Lemma drive_facts_kept s d :
  session_ok s -> session_ok (record_drive_close_references (s <| os_open_drive := None |>) d).
Proof.
  intros Hs. apply session_ok_close_drive in Hs. set (s1 := s <| os_open_drive := None |>) in *. clearbody s1.
  unfold record_drive_close_references. set (s2 := match od_last_position_date_ms d with Some _ => _ | None => s1 end).
  assert (Hs2 : session_ok s2) by (unfold s2; repeat case_match; [ok_frame Hs|done..]). clearbody s2. ok_frame Hs2.
Qed.
Lemma drive_facts_fields s d :
  let s' := record_drive_close_references (s <| os_open_drive := None |>) d in
  os_open_drive s' = None /\ os_open_charge s' = os_open_charge s.
Proof. unfold record_drive_close_references. cbv zeta. by repeat case_match. Qed.

Lemma end_source_ok d loe explicit :
  drive_ok d -> identity (end_source d loe explicit) = identity d /\ od_positions (end_source d loe explicit) = [].
Proof.
  intros (Hp & (_ & _ & Hl) & Hs). unfold end_source. destruct loe.
  { destruct (od_still_checkpoint d) as [c|] eqn:E; [|done]. cbn. destruct (Hs c eq_refl) as [(? & _) ?]. done. }
  case_match eqn:E; [|done]. split; [|done].
  destruct explicit as [t|]; [|done]. cbn in E. apply find_first_Some in E as [Hin _].
  apply (proj1 (Forall_forall _ _) Hl) in Hin as [_ Hi]. done.
Qed.

Lemma finalize_drive_ok d keep explicit row :
  1 <= od_id d -> finalize_drive d keep explicit = Ok (Some row) -> drive_row_ok row.
Proof.
  intros Hi. unfold finalize_drive. destruct (negb _); [done|]. destruct (walk_totals _) as [up down].
  intros [= <-]. split; [cbn|done]. unfold drive_end. lia.
Qed.

(** After a close of the drive none is open; the charge is untouched. *)
Lemma close_open_drive_ok w loe pos explicit w' :
  work_ok w -> (forall p, pos = Some p -> position_row_ok p) ->
  close_open_drive w loe pos explicit = Ok w' -> 
  work_ok w' /\ os_open_drive w'.1 = None /\ os_open_charge w'.1 = os_open_charge w.1.
Proof.
  destruct w as [s delta]. intros [Hs Hd] Hpos. unfold close_open_drive. destruct (os_open_drive s) as [d|] eqn:Ed.
  2: { intros [= <-]. by split. }
  destruct (ok_drive _ Hs _ Ed) as [Hok [Hi _]].
  destruct (end_source_ok d loe explicit Hok) as [Hid Hbuf].
  set (src := end_source d loe explicit) in *. clearbody src.
  intros E. apply result_bind_Ok in E as (closed & Ef & E). apply (inj Ok) in E as <-.
  pose proof (drive_facts_fields s d) as [Edr Ech]. cbv zeta in Edr, Ech.
  pose proof (drive_facts_kept s d Hs) as Hs'.
  set (s1 := record_drive_close_references _ d) in *. clearbody s1.
  split; [|by split]. split; [done|]. cbn [snd]. rewrite Hbuf. destruct Hd. destruct closed as [row|]; constructor; cbn; try done.
  - apply Forall_snoc; [done|]. eapply finalize_drive_ok; [|exact Ef]. cbn. by rewrite (identity_id _ _ Hid).
  - by apply Forall_opt.
  - apply Forall_app_2; [done|]. destruct pos as [p|]; constructor; [|done]. exact (Hpos p eq_refl).
Qed.

Lemma drive_close_keeps `{Libm} o : keeps (drive_close_step o).
Proof.
  intros [s delta] w' Hw. unfold drive_close_step. destruct (os_open_drive s) as [d|] eqn:Ed; [|by intros [= <-]].
  case_match; [intros E; by eapply close_open_drive_ok in E as (? & _)|].
  case_match; [|by intros [= <-]].
  case_match; [|intros E; by eapply close_open_drive_ok in E as (? & _)].
  intros E. apply result_bind_Ok in E as ([s1 pos] & Ef & E). destruct Hw as [Hs Hd].
  destruct (fold_into_ok _ _ _ _ Hs Ef) as (Hs1 & Hp & _).
  by eapply (close_open_drive_ok (s1, delta)) in E as (? & _).
Qed.

(** ** The charge *)

Lemma finalize_charge_ok c end_ row samples :
  1 <= oc_id c -> finalize_charge c end_ = Ok (row, samples) -> charge_row_ok row /\ samples = oc_samples c.
Proof.
  intros Hi. unfold finalize_charge. case_match eqn:Hlt; [done|]. intros [= <- <-]. bsimp. split; [|done].
  split; [done|]. eexists. split; [done|]. cbn. lia.
Qed.

Lemma close_open_charge_ok w end_ms unplugged w' :
  work_ok w -> close_open_charge w end_ms unplugged = Ok w' -> 
  work_ok w' /\ os_open_charge w'.1 = None /\ os_open_drive w'.1 = os_open_drive w.1.
Proof.
  destruct w as [s delta]. intros [Hs Hd]. unfold close_open_charge. destruct (os_open_charge s) as [c|] eqn:Ec.
  2: { intros [= <-]. by split. }
  destruct (ok_charge _ Hs _ Ec) as [Hsam [Hi _]].
  intros E. apply result_bind_Ok in E as ([row samples] & Ef & E). apply (inj Ok) in E as <-.
  destruct (finalize_charge_ok _ _ _ _ Hi Ef) as [Hrow ->]. rewrite Hsam, app_nil_r.
  apply session_ok_close_charge in Hs.
  split; [|done]. split; [ok_frame Hs|]. destruct Hd. constructor; cbn; try done. by apply Forall_snoc.
Qed.

Lemma charge_close_keeps o : keeps (charge_close_step o).
Proof.
  intros w w' Hw. unfold charge_close_step. destruct (os_open_charge w.1); [|by intros [= <-]].
  case_match; [|by intros [= <-]]. intros E. by eapply close_open_charge_ok in E as (? & _).
Qed.

(** Motion closes the charge. *)
Lemma charge_close_motion o w w' :
  work_ok w -> ob_drive o = Motion -> charge_close_step o w = Ok w' -> os_open_charge w'.1 = None.
Proof.
  intros Hw Hm. unfold charge_close_step. destruct (os_open_charge w.1) as [c|] eqn:Ec; [|by intros [= <-]].
  unfold charge_must_close. rewrite (bool_decide_eq_true_2 _ Hm), orb_true_r, orb_true_l.
  intros E. by eapply close_open_charge_ok in E as (_ & ? & _).
Qed.

(** ** The vehicle facts and the update status *)

Lemma vehicle_facts_ok o s : session_ok s -> session_ok (apply_service_mode o (apply_car_metadata o s)).
Proof.
  intros Hs. unfold apply_car_metadata. set (s1 := match p_car_metadata _ with Some _ => _ | None => s end).
  assert (Hs1 : session_ok s1) by (unfold s1; case_match; [ok_frame Hs|done]). clearbody s1. clear s Hs.
  unfold apply_service_mode, set_service_mode. repeat (case_match; try done); ok_frame Hs1.
Qed.

Lemma finished_update_ok s id start s' :
  session_ok s -> finished_update s = Ok (id, start, s') -> session_ok s' /\ 1 <= id.
Proof.
  intros Hs. unfold finished_update. destruct (os_open_update s) as [u|] eqn:Eu.
  - intros [= <- _ <-]. split; [by apply session_ok_close_update|]. pose proof (ok_update _ Hs _ Eu). lia.
  - intros E. apply result_bind_Ok in E as (next & En & E). injection E as <- _ <-.
    destruct (ok_ids _ Hs) as (Hd & Hp & Hc & Hcs & Hst & Hu). destruct (next_id_ok _ _ Hu En) as [? ?].
    split; [ok_frame Hs; by split_and!|by destruct Hu].
Qed.

Lemma version_facts_keeps o : keeps (apply_version_facts o).
Proof.
  intros [s delta] w' [Hs Hd]. cbn [fst snd] in Hs, Hd. unfold apply_version_facts. case_match; [by intros [= <-]|].
  case_match; [|by intros [= <-]]. case_match.
  2: { intros [= <-]. split; [|done]. unfold known_version. ok_frame Hs. }
  case_match; [| |].
  - intros [= <-]. split; [ok_frame Hs|done].
  - by intros [= <-].
  - intros E. apply result_bind_Ok in E as ([[id start] s1] & Ef & E). injection E as <-.
    destruct (finished_update_ok _ _ _ _ Hs Ef) as [Hs1 Hi]. split; [unfold known_version; ok_frame Hs1|].
    destruct Hd. constructor; cbn; try done. apply Forall_snoc; [done|]. split; cbn; lia.
Qed.

Lemma update_status_ok o s s' :
  session_ok s -> apply_update_status o s = Ok s' ->
  session_ok s' /\ os_open_charge s' = os_open_charge s /\ os_open_drive s' = os_open_drive s.
Proof.
  intros Hs. unfold apply_update_status. case_match.
  { intros [= <-]. split; [by apply session_ok_close_update|done]. }
  case_match; [|by intros [= <-]; split; [by apply session_ok_close_update|]..|by intros [= <-]].
  case_match; [|by intros [= <-]].
  intros E. apply result_bind_Ok in E as (next & En & E). injection E as <-.
  destruct (ok_ids _ Hs) as (Hd & Hp & Hc & Hcs & Hst & Hu). destruct (next_id_ok _ _ Hu En) as [? ?].
  split; [|done]. destruct Hs. constructor; cbn; try done. intros u [= <-]. cbn. unfold id_ok in Hu. lia.
Qed.

Lemma mark_offline_ok o s :
  session_ok s -> session_ok (mark_offline o s) /\ os_open_charge (mark_offline o s) = os_open_charge s.
Proof.
  intros Hs. unfold mark_offline. destruct (os_open_drive s) as [d|] eqn:Ed; [|done]. case_match; [|done].
  split; [|done]. destruct (ok_drive _ Hs _ Ed) as [Hd Hi].
  by apply session_ok_set_drive; [|eapply open_drive_no_charge| |].
Qed.

(** ** Opening a session *)

Lemma next_drive_ok s next :
  session_ok s -> next_id (os_next_drive_id s) = Ok next ->
  session_ok (s <| os_next_drive_id := next |>) /\ 1 <= os_next_drive_id s < next.
Proof.
  intros Hs E. destruct (ok_ids _ Hs) as (Hd & Hr). destruct (next_id_ok _ _ Hd E) as [? ?].
  split; [ok_frame Hs; by split|unfold id_ok in Hd; lia].
Qed.

Lemma drive_from_snapshot_identity n d :
  identity (drive_from_snapshot n d) = identity d /\ od_positions (drive_from_snapshot n d) = od_positions d
  /\ od_still_checkpoint (drive_from_snapshot n d) = od_still_checkpoint d
  /\ od_lead_checkpoints (drive_from_snapshot n d) = od_lead_checkpoints d.
Proof. unfold drive_from_snapshot. by repeat case_match. Qed.

Lemma drive_ok_bare d : bare d -> drive_ok d.
Proof. intros (Hp & Hs & Hl). split_and!; rewrite ?Hs, ?Hl; try done. split_and!; [simpl; lia|constructor|constructor]. Qed.

Lemma drive_open_ok o s delta w' :
  work_ok (s, delta) -> (ob_drive o = Motion -> os_open_charge s = None) ->
  drive_open_step o (s, delta) = Ok w' -> work_ok w'.
Proof.
  intros [Hs Hd] Hm. unfold drive_open_step. destruct (negb _ || _ || _) eqn:Hg; [by intros [= <-]|]. bsimp.
  intros E. apply result_bind_Ok in E as (next & En & E). apply (inj Ok) in E as <-. split; [|done].
  destruct (next_drive_ok _ _ Hs En) as [Hs1 Hi].
  set (d0 := drive_empty _ _ _).
  match goal with |- session_ok (?s1 <| os_open_drive := Some ?d |>, _).1 => set (s2 := s1); set (d1 := d) end.
  assert (Hs2 : session_ok s2) by ok_frame Hs1.
  assert (Hd1 : drive_ok d1 /\ identity d1 = identity d0).
  { unfold d1. case_match; [|split; [by apply drive_ok_bare|done]].
    destruct (drive_from_snapshot_identity p d0) as (Hi0 & Hp0 & Hst0 & Hl0). split; [|done].
    apply drive_ok_bare. by split_and!; rewrite ?Hp0, ?Hst0, ?Hl0. }
  destruct Hd1 as [Hd1 Hi1]. cbn [fst]. apply session_ok_set_drive; [done|by apply Hm|done|].
  by rewrite (identity_id _ _ Hi1).
Qed.

Lemma charge_open_keeps o : keeps (charge_open_step o).
Proof.
  intros [s delta] w' [Hs Hd]. cbn [fst snd] in Hs, Hd. unfold charge_open_step. destruct (is_some _ || _ || _ || _) eqn:Hg; [by intros [= <-]|].
  bsimp. assert (Hdr : os_open_drive s = None) by by destruct (os_open_drive s).
  destruct (charge_start s o) as [[[[start battery] ideal] rated]|]; [|by intros [= <-]].
  intros E. apply result_bind_Ok in E as ([id s1] & Ea & E). apply (inj Ok) in E as <-. split; [|done].
  unfold allocate_charge_id in Ea. apply result_bind_Ok in Ea as (next & En & Ea). apply (inj Ok), pair_equal_spec in Ea as [<- <-].
  destruct (ok_ids _ Hs) as (Hd' & Hp & Hc & Hr). destruct (next_id_ok _ _ Hc En) as [? ?].
  assert (Hs1 : session_ok (s <| os_next_charge_id := next |>)) by (ok_frame Hs; by split_and!).
  cbn [fst]. apply session_ok_set_charge; [done|done| |]; case_match; repeat case_match; try done; cbn; unfold id_ok in Hc; lia.
Qed.

(** ** Extending a session *)

Lemma drive_fold_keeps `{Libm} o : keeps (drive_fold_step o).
Proof.
  intros [s delta] w' [Hs Hd]. cbn [fst snd] in Hs, Hd. unfold drive_fold_step. case_match; [by intros [= <-]|].
  intros E. apply result_bind_Ok in E as ([s1 pos] & Ef & E). apply (inj Ok) in E as <-.
  destruct (fold_into_ok _ _ _ _ Hs Ef) as (Hs1 & Hp & _). split; [done|].
  destruct Hd. constructor; cbn; try done. by apply Forall_opt.
Qed.

Lemma fold_energy_frame c k :
  oc_samples (fold_energy_counter c k) = oc_samples c /\ oc_id (fold_energy_counter c k) = oc_id c.
Proof. unfold fold_energy_counter. repeat case_match; simplify_eq; done. Qed.

Lemma fold_interval_frame c dt pw k :
  oc_samples (fold_charge_interval c dt pw k) = oc_samples c /\ oc_id (fold_charge_interval c dt pw k) = oc_id c.
Proof. unfold fold_charge_interval. by repeat case_match. Qed.

Lemma observe_charge_sample_frame c r :
  oc_samples (observe_charge_sample c r) = oc_samples c /\ oc_id (observe_charge_sample c r) = oc_id c.
Proof.
  unfold observe_charge_sample.
  set (c1 := match usable_energy_counter r with Some _ => _ | None => c end).
  assert (oc_samples c1 = oc_samples c /\ oc_id c1 = oc_id c) as [<- <-].
  { unfold c1. case_match; [apply fold_energy_frame|done]. }
  clearbody c1. cbv zeta.
  match goal with |- context [sample_grid_power_kw r ?a ?b] => generalize (sample_grid_power_kw r a b) end. intros pw.
  match goal with |- context [fold_charge_session_kind ?a r] => generalize (fold_charge_session_kind a r) end. intros k.
  set (c2 := if (oc_sample_count c =? 0) && _ then _ else _).
  assert (oc_samples c2 = oc_samples c1 /\ oc_id c2 = oc_id c1) as [<- <-].
  { unfold c2. case_match; [done|]. case_match; [|done].
    match goal with |- context [fold_charge_interval ?a ?b ?x ?d] => exact (fold_interval_frame a b x d) end. }
  clearbody c2. by case_match.
Qed.

Lemma observe_sample_frame c r :
  oc_samples (observe_sample c r) = oc_samples c /\ oc_id (observe_sample c r) = oc_id c.
Proof.
  unfold observe_sample. destruct (observe_charge_sample_frame (observe_charge_aggregate c r) r) as [E1 E2].
  set (c1 := observe_charge_sample _ r) in *. clearbody c1. cbn. by rewrite E1, E2.
Qed.

Lemma sample_row_keeps o : keeps (charge_sample_row o).
Proof.
  intros [s delta] w' [Hs Hd]. cbn [fst snd] in Hs, Hd. unfold charge_sample_row. destruct (os_open_charge s) as [c|] eqn:Ec; [|by intros [= <-]].
  intros E. apply result_bind_Ok in E as ([id s1] & Ea & E). apply (inj Ok) in E as <-.
  unfold allocate_charge_sample_id in Ea. apply result_bind_Ok in Ea as (next & En & Ea). apply (inj Ok), pair_equal_spec in Ea as [<- <-].
  destruct (ok_ids _ Hs) as (Hd' & Hp & Hc & Hcs & Hr). destruct (next_id_ok _ _ Hcs En) as [? ?].
  assert (Hs1 : session_ok (s <| os_next_charge_sample_id := next |>)) by (ok_frame Hs; by split_and!).
  destruct (ok_charge _ Hs _ Ec) as [Hsam Hi]. pose proof (open_charge_no_drive _ _ Hs Ec) as Hdr.
  set (r := charge_sample_from _ _ _). destruct (observe_sample_frame c r) as [E1 E2].
  split.
  - cbn [fst]. apply session_ok_set_charge; [done|done| |]; rewrite ?E1, ?E2; done.
  - cbn [snd]. destruct Hd. constructor; cbn; try done. apply Forall_snoc; [done|]. split; cbn; [by destruct Hcs|lia].
Qed.

Lemma charge_odometer_ok o s : session_ok s -> session_ok (charge_odometer o s).
Proof.
  intros Hs. unfold charge_odometer. destruct (os_open_charge s) as [c|] eqn:Ec; [|done]. case_match; [|done].
  destruct (ok_charge _ Hs _ Ec) as [Hsam Hi]. by apply session_ok_set_charge; [|eapply open_charge_no_drive| |].
Qed.

Lemma charge_sample_keeps o : keeps (charge_sample_step o).
Proof.
  intros w w' Hw. unfold charge_sample_step. case_match; [by intros [= <-]|].
  intros E. apply result_bind_Ok in E as ([s delta] & Er & E).
  assert (Hw1 : work_ok (s, delta)).
  { destruct (anchors_charge_sample _ _); [by eapply sample_row_keeps|]. apply (inj Ok) in Er as <-. done. }
  destruct Hw1 as [Hs Hd]. cbn [fst snd] in Hs, Hd. apply (charge_odometer_ok o) in Hs. set (s1 := charge_odometer o s) in *. clearbody s1.
  case_match; [|by apply (inj Ok) in E as <-]. by eapply (close_open_charge_ok (s1, delta)) in E as (? & _).
Qed.

(** ** Parked *)

Lemma standalone_keeps `{Libm} o : keeps (standalone_position_step o).
Proof.
  intros [s delta] w' [Hs Hd]. cbn [fst snd] in Hs, Hd. unfold standalone_position_step. case_match; [by intros [= <-]|].
  case_match; [|by intros [= <-]]. repeat case_match; try (by intros [= <-]).
  intros E. apply result_bind_Ok in E as ([id s1] & Ea & E). apply result_bind_Ok in E as (pos & Ep & E).
  destruct (next_position_id_ok _ _ _ Hs Ea) as (Hi & Hs1 & _). destruct pos as [pos|]; apply (inj Ok) in E as <-; [|by split].
  split; [ok_frame Hs1|]. destruct Hd. constructor; cbn; try done. apply Forall_snoc; [done|]. by eapply position_from_sample_ok.
Qed.

Lemma parked_snapshot_ok o s : session_ok s -> session_ok (parked_snapshot_step o s).
Proof. intros Hs. unfold parked_snapshot_step. case_match; [done|]. ok_frame Hs. Qed.

(** ** Phase *)

Lemma state_interval_keeps car_id phase at_ms : keeps (update_state_interval car_id phase at_ms).
Proof.
  intros [s delta] w' [Hs Hd]. cbn [fst snd] in Hs, Hd. unfold update_state_interval. case_match; [|by intros [= <-]]. case_match; [by intros [= <-]|].
  intros E. apply result_bind_Ok in E as (next & En & E). apply (inj Ok) in E as <-.
  destruct (ok_ids _ Hs) as (Hd' & Hp & Hc & Hcs & Hst & Hu). destruct (next_id_ok _ _ Hst En) as [? ?].
  split.
  - destruct Hs. constructor; cbn; try done. intros i [= <-]. cbn. unfold id_ok in Hst. lia.
  - destruct Hd. constructor; cbn; try done. apply Forall_app_2; [done|]. apply Forall_app_2.
    + destruct (os_open_state s) as [i|] eqn:Ei; constructor; [|done]. pose proof (ok_state _ Hs _ Ei).
      split; [cbn; lia|]. intros end_ [= <-]. cbn. lia.
    + constructor; [|done]. split; [by destruct Hst|done].
Qed.

Lemma phase_step_keeps o : keeps (phase_step o).
Proof.
  intros [s delta] w' [Hs Hd]. cbn [fst snd] in Hs, Hd. unfold phase_step.
  assert (Hs1 : session_ok (s <| os_phase := derive_phase o s |>)) by ok_frame Hs.
  case_match; [|by intros [= <-]]. by apply state_interval_keeps.
Qed.

(** ** The ten steps *)

Lemma lifecycle_steps_keeps `{Libm} o : keeps (apply_lifecycle_steps o).
Proof.
  intros [s delta] w' [Hs Hd]. cbn [fst snd] in Hs, Hd. unfold apply_lifecycle_steps. apply (vehicle_facts_ok o) in Hs.
  set (s0 := apply_service_mode _ _) in *. clearbody s0.
  intros E. apply result_bind_Ok in E as (w1 & E1 & E). apply version_facts_keeps in E1; [|done].
  apply result_bind_Ok in E as (w2 & E2 & E). apply drive_close_keeps in E2; [|done].
  apply result_bind_Ok in E as (w3 & E3 & E). pose proof (charge_close_motion o w2 w3 E2) as Hm.
  pose proof (charge_close_keeps _ _ _ E2 E3) as Hw3. destruct w3 as [s3 d3].
  apply result_bind_Ok in E as (s4 & E4 & E). destruct Hw3 as [Hs3 Hd3]. cbn [fst snd] in Hs3, Hd3.
  destruct (mark_offline_ok o _ Hs3) as [Hs3' Hc3]. destruct (update_status_ok _ _ _ Hs3' E4) as (Hs4 & Hc4 & _).
  apply result_bind_Ok in E as (w5 & E5 & E). apply drive_open_ok in E5; [|done|].
  2: { intros Hmo. rewrite Hc4, Hc3. by apply Hm. }
  apply result_bind_Ok in E as (w6 & E6 & E). apply charge_open_keeps in E6; [|done].
  apply result_bind_Ok in E as (w7 & E7 & E). apply drive_fold_keeps in E7; [|done].
  apply result_bind_Ok in E as (w8 & E8 & E). apply charge_sample_keeps in E8; [|done].
  apply result_bind_Ok in E as ([s9 d9] & E9 & E). apply standalone_keeps in E9; [|done]. destruct E9 as [Hs9 Hd9]. cbn [fst snd] in Hs9, Hd9.
  apply phase_step_keeps in E; [done|]. split; [|done]. by apply parked_snapshot_ok.
Qed.

(** ** The drive and charge lifecycle: reachable sessions

    One observation, a page and a Hub event over the invariant of [LifeInv]; the
    sessions the store can hold as an inductive relation; the errors an observation
    can end in; the cursor and the redelivery of a page. *)

(** ** One observation *)

Lemma delta_ok_default : delta_ok LifecycleDelta_default.
Proof. constructor; constructor. Qed.

Lemma convert_seed_ok s : session_ok s -> session_ok (convert_pending_seed s).
Proof. intros Hs. unfold convert_pending_seed. case_match; [|done]. case_match; ok_frame Hs. Qed.

Lemma convert_seed_cursor s : os_last_observation_id (convert_pending_seed s) = os_last_observation_id s.
Proof. unfold convert_pending_seed. case_match; [|done]. by case_match. Qed.

Lemma carry_forward_ok s p fresh : session_ok s -> session_ok (carry_forward s p fresh).1.
Proof. intros Hs. unfold carry_forward. ok_frame Hs. Qed.

Lemma advance_watermarks_ok o s : session_ok s -> session_ok (advance_watermarks o s).
Proof.
  assert (Hm : forall s, session_ok s -> session_ok (motion_mark o s) /\ session_ok (position_mark o s)
    /\ session_ok (battery_mark o s) /\ session_ok (charge_mark o s) /\ session_ok (climate_mark o s)
    /\ session_ok (odometer_mark o s) /\ session_ok (status_mark o s) /\ session_ok (observed_mark o s)
    /\ session_ok (reach_mark o s)).
  { intros s0 Hs. unfold motion_mark, position_mark, battery_mark, charge_mark, climate_mark, odometer_mark, status_mark,
      observed_mark, reach_mark. split_and!; case_match; solve [done|ok_frame Hs]. }
  intros Hs. unfold advance_watermarks. cbv zeta. do 9 (apply Hm). done.
Qed.

Lemma set_cursor_ok id s : 0 <= id -> session_ok s -> session_ok (set_cursor id s).
Proof. intros Hi Hs. unfold set_cursor. ok_frame Hs. Qed.

(** What one observation leaves: a session in order, rows in order, the cursor at the
    observation when it was new. *)
Definition step_ok (s : OpenSessionState) (id : Z) (step : LifecycleStep) : Prop :=
  session_ok (step_state step) /\ delta_ok (step_delta step)
  /\ os_last_observation_id (step_state step) = Z.max (os_last_observation_id s) id.

Lemma apply_sample_timeout_ok `{Libm} s car_id sample timeout step :
  session_ok s -> apply_sample_with_offline_drive_timeout s car_id sample timeout = Ok step ->
  step_ok s (ls_observation_id sample) step.
Proof.
  intros Hs. unfold apply_sample_with_offline_drive_timeout. case_match; [done|].
  intros E. apply result_bind_Ok in E as (gap & Eg & E). case_match eqn:Hid; bsimp.
  { apply (inj Ok) in E as <-. split_and!; [done|apply delta_ok_default|cbn; lia]. }
  pose proof (convert_seed_ok _ Hs) as Hs1. pose proof (convert_seed_cursor s) as Hcur.
  set (s1 := convert_pending_seed s) in *. clearbody s1. pose proof (ok_cursor _ Hs) as Hc0.
  assert (Hcs : forall q, step_ok s (ls_observation_id sample) (cursor_only (ls_observation_id sample) q s1)).
  { intros q. split_and!; [apply set_cursor_ok; [lia|done]|apply delta_ok_default|cbn; lia]. }
  destruct (parse_sample sample) as [p|e].
  2: { destruct e; try done. by apply (inj Ok) in E as <-. }
  case_match; [by apply (inj Ok) in E as <-|].
  unfold project in E. destruct (carry_forward s1 p (fresh_families s1 p)) as [s2 p2] eqn:Ec.
  pose proof (carry_forward_ok s1 p (fresh_families s1 p) Hs1) as Hs2. rewrite Ec in Hs2. cbn [fst] in Hs2.
  apply result_bind_Ok in E as ([s3 d3] & El & E). apply (inj Ok) in E as <-.
  apply lifecycle_steps_keeps in El as [Hs3 Hd3]; [|split; [done|apply delta_ok_default]]. cbn [fst snd] in *.
  split_and!; [|done|cbn; lia]. apply set_cursor_ok; [lia|]. by apply advance_watermarks_ok.
Qed.

Lemma apply_sample_ok `{Libm} s car_id sample step :
  session_ok s -> apply_sample s car_id sample = Ok step -> step_ok s (ls_observation_id sample) step.
Proof. apply apply_sample_timeout_ok. Qed.
