(* ===== verification/LifeTotal.v ===== *)
(** * The drive and charge lifecycle: an observation always applies

    Of the errors a step can end in, only the end of an identifier space is reachable:
    while every identifier has room, every observation the parser accepts is applied.
    Each step allocates at most one identifier of each kind. *)
From S2P Require Import Prelude RustStr F64 Text External LifeData Geo LifeEnergy LifeCost LifeDrive LifeParse LifeSteps LifeApply LifeProject LifeInv LifeSafe.
Local Open Scope string_scope.
Local Open Scope Z_scope.
Local Open Scope list_scope.

(** [n] more identifiers of every kind. *)
Definition room (n : Z) (s : OpenSessionState) : Prop :=
  os_next_drive_id s + n <= i64_max /\ os_next_position_id s + n <= i64_max /\ os_next_charge_id s + n <= i64_max
  /\ os_next_charge_sample_id s + n <= i64_max /\ os_next_state_id s + n <= i64_max /\ os_next_update_id s + n <= i64_max.

Definition progress (f : Work -> result LifecycleError Work) : Prop :=
  forall n w, 0 <= n -> work_ok w -> room (n + 1) w.1 -> exists w', f w = Ok w' /\ work_ok w' /\ room n w'.1.

(** The coordinates the parser gives: a valid pair or none. *)
Definition coordinates_ok (p : ParsedSample) : Prop :=
  (p_latitude p = None /\ p_longitude p = None) \/ is_some (valid_coordinates (p_latitude p) (p_longitude p)) = true.

Lemma room_weaken n m s : room n s -> m <= n -> room m s.
Proof. unfold room. intros (? & ? & ? & ? & ? & ?) ?. split_and!; lia. Qed.

(** The identifiers of [s'] are those of [s]. *)
Definition same_ids (s s' : OpenSessionState) : Prop :=
  os_next_drive_id s' = os_next_drive_id s /\ os_next_position_id s' = os_next_position_id s
  /\ os_next_charge_id s' = os_next_charge_id s /\ os_next_charge_sample_id s' = os_next_charge_sample_id s
  /\ os_next_state_id s' = os_next_state_id s /\ os_next_update_id s' = os_next_update_id s.

Lemma room_same n s s' : same_ids s s' -> room n s -> room n s'.
Proof. unfold same_ids, room. intros (-> & -> & -> & -> & -> & ->). done. Qed.

Lemma next_id_room id n : 0 <= n -> id + (n + 1) <= i64_max -> next_id id = Ok (id + 1) /\ (id + 1) + n <= i64_max.
Proof. intros. unfold next_id. rewrite (proj2 (Z.eqb_neq _ _)) by lia. split; [done|lia]. Qed.

(** It is enough to find a result; [keeps] gives the invariant. *)
Lemma progress_intro f :
  keeps f -> (forall n w, 0 <= n -> work_ok w -> room (n + 1) w.1 -> exists w', f w = Ok w' /\ room n w'.1) -> progress f.
Proof. intros Hk Hf n w Hn Hw Hr. destruct (Hf n w Hn Hw Hr) as (w' & E & Hr'). exists w'. split_and!; [done|by eapply Hk|done]. Qed.

Lemma room_step n s : 0 <= n -> room (n + 1) s -> room n s.
Proof. intros. eapply room_weaken; [done|lia]. Qed.

Lemma position_total id drive_id car_id p :
  coordinates_ok p -> exists r, position_from_sample id drive_id car_id p = Ok r.
Proof.
  unfold position_from_sample. intros [[E1 E2]|E].
  - rewrite E1, E2. by eexists.
  - destruct (valid_coordinates _ _) as [[a b]|]; [by eexists|done].
Qed.

Lemma fold_into_total `{Libm} n s o :
  0 <= n -> coordinates_ok (ob_parsed o) -> room (n + 1) s ->
  exists s' pos, fold_into_open_drive s o = Ok (s', pos) /\ room n s'.
Proof.
  intros Hn Hc Hr. unfold fold_into_open_drive. destruct (os_open_drive s) as [d|].
  2: { exists s, None. split; [done|by apply room_step]. }
  destruct (stores_position d o).
  - unfold next_position_id. pose proof Hr as (? & Hp & ? & ? & ? & ?).
    destruct (next_id_room _ _ Hn Hp) as [-> Hp']. cbn [mbind result_bind mret result_ret].
    destruct (position_total (os_next_position_id s) (Some (od_id d)) (ob_car_id o) _ Hc) as [r ->]. cbn [mbind result_bind].
    do 2 eexists. split; [done|]. split_and!; cbn; lia.
  - cbn [mbind result_bind mret result_ret]. do 2 eexists. split; [done|].
    eapply room_same; [|by apply room_step]. done.
Qed.

Lemma record_references_ids s d : same_ids s (record_drive_close_references s d).
Proof. unfold record_drive_close_references, same_ids. by repeat case_match. Qed.

Lemma finalize_drive_total d keep explicit : exists r, finalize_drive d keep explicit = Ok r.
Proof. unfold finalize_drive. case_match; [by eexists|]. case_match. by eexists. Qed.

Lemma close_open_drive_total w loe pos explicit :
  exists w', close_open_drive w loe pos explicit = Ok w' /\ same_ids w.1 w'.1.
Proof.
  destruct w as [s delta]. unfold close_open_drive. destruct (os_open_drive s) as [d|]; [|by eexists].
  destruct (finalize_drive_total ((end_source d loe explicit) <| od_positions := [] |>) (imported_drive
    (record_drive_close_references (s <| os_open_drive := None |>) d) d) explicit) as [r ->].
  eexists. split; [done|]. cbn [fst].
  destruct (record_references_ids (s <| os_open_drive := None |>) d) as (? & ? & ? & ? & ? & ?). by split_and!.
Qed.

Lemma drive_close_progress `{Libm} o : coordinates_ok (ob_parsed o) -> progress (drive_close_step o).
Proof.
  intros Hc. apply progress_intro; [apply drive_close_keeps|]. intros n [s delta] Hn [Hs Hd] Hr. cbn [fst snd] in *.
  assert (Hclose : forall loe pos explicit, exists w', close_open_drive (s, delta) loe pos explicit = Ok w' /\ room n w'.1).
  { intros loe pos explicit. destruct (close_open_drive_total (s, delta) loe pos explicit) as (w' & E & Hid).
    exists w'. split; [done|]. eapply room_same; [exact Hid|]. by apply room_step. }
  unfold drive_close_step. destruct (os_open_drive s); [|exists (s, delta); split; [done|by apply room_step]].
  case_match; [apply Hclose|]. case_match; [|exists (s, delta); split; [done|by apply room_step]].
  case_match; [|apply Hclose]. destruct (fold_into_total n s o Hn Hc Hr) as (s' & pos & -> & Hr').
  cbn [mbind result_bind]. destruct (close_open_drive_total (s', delta) false pos (Some (p_drive_timestamp_ms (ob_parsed o))))
    as (w' & E & Hid). exists w'. split; [done|]. by eapply room_same.
Qed.

Lemma close_open_charge_total w end_ms unplugged :
  exists w', close_open_charge w end_ms unplugged = Ok w' /\ same_ids w.1 w'.1.
Proof.
  destruct w as [s delta]. unfold close_open_charge. destruct (os_open_charge s) as [c|]; [|by eexists].
  unfold finalize_charge. case_match eqn:Hlt; [|by eexists]. bsimp. cbn in Hlt. lia.
Qed.

Lemma close_charge_room n w end_ms unplugged :
  room n w.1 -> exists w', close_open_charge w end_ms unplugged = Ok w' /\ room n w'.1.
Proof.
  intros Hr. destruct (close_open_charge_total w end_ms unplugged) as (w' & E & Hid). exists w'. split; [done|].
  by eapply room_same.
Qed.

Lemma charge_close_progress o : progress (charge_close_step o).
Proof.
  apply progress_intro; [apply charge_close_keeps|]. intros n w Hn Hw Hr%room_step; [|done]. unfold charge_close_step.
  case_match; [|by eexists]. case_match; [|by eexists]. by apply close_charge_room.
Qed.

Lemma version_facts_progress o : progress (apply_version_facts o).
Proof.
  apply progress_intro; [apply version_facts_keeps|]. intros n [s delta] Hn Hw Hr. cbn [fst] in Hr.
  pose proof (room_step _ _ Hn Hr) as Hr'.
  assert (Hsame : exists w', @Ok LifecycleError _ (s, delta) = Ok w' /\ room n w'.1) by by eexists.
  unfold apply_version_facts. case_match; [done|]. case_match; [|done]. case_match; [|by eexists].
  case_match; [by eexists|done|]. unfold finished_update. destruct (os_open_update s).
  - by eexists.
  - pose proof Hr as (? & ? & ? & ? & ? & Hu). destruct (next_id_room _ _ Hn Hu) as [-> Hu'].
    cbn [mbind result_bind mret result_ret]. eexists. split; [done|]. destruct Hr' as (? & ? & ? & ? & ? & ?).
    by split_and!.
Qed.

Lemma update_status_total n o s :
  0 <= n -> room (n + 1) s -> exists s', apply_update_status o s = Ok s' /\ room n s'.
Proof.
  intros Hn Hr. pose proof (room_step _ _ Hn Hr) as Hr'. unfold apply_update_status.
  case_match; [by eexists|]. case_match; [|by eexists..]. case_match; [|by eexists].
  pose proof Hr as (? & ? & ? & ? & ? & Hu). destruct (next_id_room _ _ Hn Hu) as [-> Hu'].
  cbn [mbind result_bind mret result_ret]. eexists. split; [done|]. destruct Hr' as (? & ? & ? & ? & ? & ?). by split_and!.
Qed.

Lemma drive_open_total n o w :
  0 <= n -> room (n + 1) w.1 -> exists w', drive_open_step o w = Ok w' /\ room n w'.1.
Proof.
  destruct w as [s delta]. cbn [fst]. intros Hn Hr. pose proof (room_step _ _ Hn Hr) as Hr'. unfold drive_open_step.
  case_match; [by eexists|]. pose proof Hr as (Hu & ? & ? & ? & ? & ?). destruct (next_id_room _ _ Hn Hu) as [-> Hu'].
  cbn [mbind result_bind mret result_ret]. eexists. split; [done|]. destruct Hr' as (? & ? & ? & ? & ? & ?). by split_and!.
Qed.

Lemma charge_open_progress o : progress (charge_open_step o).
Proof.
  apply progress_intro; [apply charge_open_keeps|]. intros n [s delta] Hn Hw Hr. cbn [fst] in Hr.
  pose proof (room_step _ _ Hn Hr) as Hr'. unfold charge_open_step. case_match; [by eexists|].
  destruct (charge_start s o) as [[[[start battery] ideal] rated]|]; [|by eexists]. unfold allocate_charge_id.
  pose proof Hr as (? & ? & Hu & ? & ? & ?). destruct (next_id_room _ _ Hn Hu) as [-> Hu'].
  cbn [mbind result_bind mret result_ret]. eexists. split; [done|]. destruct Hr' as (? & ? & ? & ? & ? & ?). by split_and!.
Qed.

Lemma drive_fold_progress `{Libm} o : coordinates_ok (ob_parsed o) -> progress (drive_fold_step o).
Proof.
  intros Hc. apply progress_intro; [apply drive_fold_keeps|]. intros n [s delta] Hn Hw Hr. cbn [fst] in Hr.
  unfold drive_fold_step. case_match; [eexists; split; [done|by apply room_step]|].
  destruct (fold_into_total n s o Hn Hc Hr) as (s' & pos & -> & Hr'). by eexists.
Qed.

Lemma charge_odometer_ids o s : same_ids s (charge_odometer o s).
Proof. unfold charge_odometer. case_match; [|done]. by case_match. Qed.

Lemma charge_sample_progress o : progress (charge_sample_step o).
Proof.
  apply progress_intro; [apply charge_sample_keeps|]. intros n [s delta] Hn Hw Hr. cbn [fst] in Hr.
  pose proof (room_step _ _ Hn Hr) as Hr'. unfold charge_sample_step. cbn [fst]. case_match; [by eexists|].
  assert (Hrow : exists s1 d1, (if anchors_charge_sample s o then charge_sample_row o (s, delta) else @mret (result LifecycleError) _ Work (s, delta))
                   = Ok (s1, d1) /\ room n s1).
  { case_match; [|by exists s, delta]. unfold charge_sample_row. case_match; [|by exists s, delta]. unfold allocate_charge_sample_id.
    pose proof Hr as (? & ? & ? & Hu & ? & ?). destruct (next_id_room _ _ Hn Hu) as [-> Hu'].
    cbn [mbind result_bind mret result_ret]. do 2 eexists. split; [done|]. destruct Hr' as (? & ? & ? & ? & ? & ?). by split_and!. }
  destruct Hrow as (s1 & d1 & E & Hr1).
  match goal with |- context [?m ≫= _] => replace m with (@Ok LifecycleError Work (s1, d1)) by (symmetry; exact E) end.
  cbn [mbind result_bind]. apply (room_same n _ _ (charge_odometer_ids o s1)) in Hr1.
  destruct (anchors_charge_sample s o && is_end (ob_charge o)); [|by eexists]. by apply close_charge_room.
Qed.

Lemma standalone_progress `{Libm} o : coordinates_ok (ob_parsed o) -> progress (standalone_position_step o).
Proof.
  intros Hc. apply progress_intro; [apply standalone_keeps|]. intros n [s delta] Hn Hw Hr. cbn [fst] in Hr.
  pose proof (room_step _ _ Hn Hr) as Hr'.
  assert (Hsame : exists w', @Ok LifecycleError _ (s, delta) = Ok w' /\ room n w'.1) by by eexists.
  unfold standalone_position_step. case_match; [done|]. case_match; [|done]. repeat (case_match; try done).
  unfold next_position_id. pose proof Hr as (? & Hu & ? & ? & ? & ?). destruct (next_id_room _ _ Hn Hu) as [-> Hu'].
  cbn [mbind result_bind mret result_ret].
  destruct (position_total (os_next_position_id s) None (ob_car_id o) _ Hc) as [r ->]. cbn [mbind result_bind].
  destruct Hr' as (? & ? & ? & ? & ? & ?). case_match; eexists; (split; [done|]); by split_and!.
Qed.

Lemma phase_step_progress o : progress (phase_step o).
Proof.
  apply progress_intro; [apply phase_step_keeps|]. intros n [s delta] Hn Hw Hr. cbn [fst] in Hr.
  pose proof (room_step _ _ Hn Hr) as Hr'. unfold phase_step. case_match; [|by eexists]. unfold update_state_interval.
  case_match; [|by eexists]. case_match; [by eexists|]. cbn [os_next_state_id update_with].
  pose proof Hr as (? & ? & ? & ? & Hu & ?). destruct (next_id_room _ _ Hn Hu) as [-> Hu'].
  cbn [mbind result_bind mret result_ret]. eexists. split; [done|]. destruct Hr' as (? & ? & ? & ? & ? & ?). by split_and!.
Qed.

Lemma mark_offline_ids o s : same_ids s (mark_offline o s).
Proof. unfold mark_offline. case_match; [|done]. by case_match. Qed.
Lemma vehicle_facts_ids o s : same_ids s (apply_service_mode o (apply_car_metadata o s)).
Proof.
  unfold apply_service_mode, set_service_mode, apply_car_metadata. set (s1 := match p_car_metadata _ with Some _ => _ | None => s end).
  assert (same_ids s s1) by (unfold s1; by case_match). clearbody s1. by repeat case_match.
Qed.
Lemma parked_snapshot_ids o s : same_ids s (parked_snapshot_step o s).
Proof. unfold parked_snapshot_step. by case_match. Qed.

Definition STEP_IDS : Z := 10.

(** The ten steps apply when every identifier has room for [STEP_IDS] more. *)
Lemma lifecycle_steps_total `{Libm} o s n :
  0 <= n -> coordinates_ok (ob_parsed o) -> session_ok s -> room (n + STEP_IDS) s ->
  exists w', apply_lifecycle_steps o (s, LifecycleDelta_default) = Ok w' /\ room n w'.1.
Proof.
  intros Hn Hc Hs Hr. unfold apply_lifecycle_steps, STEP_IDS in *.
  assert (Hr0 : room (n + 9 + 1) (apply_service_mode o (apply_car_metadata o s))).
  { eapply room_same; [apply vehicle_facts_ids|]. eapply room_weaken; [done|lia]. }
  apply (vehicle_facts_ok o) in Hs. set (s0 := apply_service_mode _ _) in *. clearbody s0.
  assert (Hw0 : work_ok (s0, LifecycleDelta_default)) by (split; [done|apply delta_ok_default]).
  destruct (version_facts_progress o (n + 9) _ ltac:(lia) Hw0 Hr0) as (w1 & -> & Hw1 & Hr1). cbn [mbind result_bind].
  apply (room_weaken _ (n + 8 + 1)) in Hr1; [|lia].
  destruct (drive_close_progress o Hc (n + 8) _ ltac:(lia) Hw1 Hr1) as (w2 & -> & Hw2 & Hr2). cbn [mbind result_bind].
  apply (room_weaken _ (n + 7 + 1)) in Hr2; [|lia].
  destruct (charge_close_progress o (n + 7) _ ltac:(lia) Hw2 Hr2) as (w3 & E3 & Hw3 & Hr3).
  pose proof (charge_close_motion o w2 w3 Hw2) as Hm. rewrite E3. cbn [mbind result_bind].
  destruct w3 as [s3 d3]. destruct Hw3 as [Hs3 Hd3]. cbn [fst snd] in *.
  destruct (mark_offline_ok o _ Hs3) as [Hs3' Hc3]. apply (room_same _ _ _ (mark_offline_ids o s3)) in Hr3.
  apply (room_weaken _ (n + 6 + 1)) in Hr3; [|lia].
  destruct (update_status_total (n + 6) o _ ltac:(lia) Hr3) as (s4 & E4 & Hr4). rewrite E4. cbn [mbind result_bind].
  destruct (update_status_ok _ _ _ Hs3' E4) as (Hs4 & Hc4 & _).
  apply (room_weaken _ (n + 5 + 1)) in Hr4; [|lia].
  destruct (drive_open_total (n + 5) o (s4, d3) ltac:(lia) Hr4) as (w5 & E5 & Hr5). rewrite E5. cbn [mbind result_bind].
  apply drive_open_ok in E5; [|done|intros Hmo; rewrite Hc4, Hc3; by apply Hm].
  apply (room_weaken _ (n + 4 + 1)) in Hr5; [|lia].
  destruct (charge_open_progress o (n + 4) _ ltac:(lia) E5 Hr5) as (w6 & -> & Hw6 & Hr6). cbn [mbind result_bind].
  apply (room_weaken _ (n + 3 + 1)) in Hr6; [|lia].
  destruct (drive_fold_progress o Hc (n + 3) _ ltac:(lia) Hw6 Hr6) as (w7 & -> & Hw7 & Hr7). cbn [mbind result_bind].
  apply (room_weaken _ (n + 2 + 1)) in Hr7; [|lia].
  destruct (charge_sample_progress o (n + 2) _ ltac:(lia) Hw7 Hr7) as (w8 & -> & Hw8 & Hr8). cbn [mbind result_bind].
  destruct w8 as [s8 d8]. apply (room_weaken _ (n + 1 + 1)) in Hr8; [|lia].
  destruct (standalone_progress o Hc (n + 1) _ ltac:(lia) Hw8 Hr8) as (w9 & -> & Hw9 & Hr9). cbn [mbind result_bind].
  destruct w9 as [s9 d9]. destruct Hw9 as [Hs9 Hd9]. cbn [fst snd] in *.
  apply (room_same _ _ _ (parked_snapshot_ids o s9)) in Hr9.
  assert (Hw10 : work_ok (parked_snapshot_step o s9, d9)) by (split; [by apply parked_snapshot_ok|done]).
  destruct (phase_step_progress o n _ Hn Hw10 Hr9) as (w10 & E10 & _ & Hr10). by exists w10.
Qed.

(** ** The parser's coordinates *)

Lemma valid_coordinates_idem a b la lo :
  valid_coordinates a b = Some (la, lo) -> valid_coordinates (Some la) (Some lo) = Some (la, lo).
Proof.
  unfold valid_coordinates, then_some. destruct a as [a|]; [|done]. destruct b as [b|]; [|done].
  destruct (_ && _) eqn:E; [|done]. intros [= <- <-]. by rewrite E.
Qed.

Lemma parse_drive_coordinates drive p :
  p_latitude p = None -> p_longitude p = None -> coordinates_ok (parse_drive drive p).
Proof.
  intros Ha Ho. unfold parse_drive. cbv zeta.
  match goal with |- context [match drive ≫= ?f with _ => _ end] => destruct (drive ≫= f) as [[la lo]|] eqn:E end.
  - right. apply bind_Some in E as (f & _ & E). apply bind_Some in E as (x & _ & E). apply bind_Some in E as (y & _ & E).
    apply valid_coordinates_idem in E. exact (f_equal is_some E).
  - left. by split.
Qed.

Lemma parse_sample_coordinates sample p : parse_sample sample = Ok p -> coordinates_ok p.
Proof.
  unfold parse_sample. intros E. apply result_bind_Ok in E as (root & _ & E). apply result_bind_Ok in E as (en & _ & E).
  case_match; [apply (inj Ok) in E as <-; by left|]. unfold parse_groups in E.
  do 5 (apply result_bind_Ok in E as (? & _ & E)). apply (inj Ok) in E as <-.
  match goal with |- context [parse_drive ?d ?q] => pose proof (parse_drive_coordinates d q) as Hq; set (r := parse_drive d q) in * end.
  assert (Hr : coordinates_ok r) by (apply Hq; by case_match). clearbody r. exact Hr.
Qed.

Lemma carry_forward_coordinates s p fresh : coordinates_ok p -> coordinates_ok (carry_forward s p fresh).2.
Proof. done. Qed.

Lemma carry_forward_ids s p fresh : same_ids s (carry_forward s p fresh).1.
Proof. by split_and!. Qed.

Lemma same_ids_trans a b c : same_ids a b -> same_ids b c -> same_ids a c.
Proof. unfold same_ids. intros (-> & -> & -> & -> & -> & ->). done. Qed.

Lemma advance_watermarks_ids o s : same_ids s (advance_watermarks o s).
Proof.
  assert (H1 : forall s, same_ids s (motion_mark o s)) by (intros; unfold motion_mark; by case_match).
  assert (H2 : forall s, same_ids s (position_mark o s)) by (intros; unfold position_mark; by case_match).
  assert (H3 : forall s, same_ids s (battery_mark o s)) by (intros; unfold battery_mark; by case_match).
  assert (H4 : forall s, same_ids s (charge_mark o s)) by (intros; unfold charge_mark; by case_match).
  assert (H5 : forall s, same_ids s (climate_mark o s)) by (intros; unfold climate_mark; by case_match).
  assert (H6 : forall s, same_ids s (odometer_mark o s)) by (intros; unfold odometer_mark; by case_match).
  assert (H7 : forall s, same_ids s (status_mark o s)) by (intros; unfold status_mark; by case_match).
  assert (H8 : forall s, same_ids s (observed_mark o s)) by (intros; unfold observed_mark; by case_match).
  assert (H9 : forall s, same_ids s (reach_mark o s)) by (intros; unfold reach_mark; by case_match).
  unfold advance_watermarks. cbv zeta.
  refine (same_ids_trans _ _ _ _ (H9 _)). refine (same_ids_trans _ _ _ _ (H8 _)). refine (same_ids_trans _ _ _ _ (H7 _)).
  refine (same_ids_trans _ _ _ _ (H6 _)). refine (same_ids_trans _ _ _ _ (H5 _)). refine (same_ids_trans _ _ _ _ (H4 _)).
  refine (same_ids_trans _ _ _ _ (H3 _)). refine (same_ids_trans _ _ _ _ (H2 _)). apply H1.
Qed.

Lemma vehicle_data_error root e : vehicle_data_object root = Err e -> e = LeInvalidPayload.
Proof. unfold vehicle_data_object. cbv zeta. destruct (opt_or _ _ ≫= _); [done|]. by intros [= <-]. Qed.

Lemma read_envelope_error root e : read_envelope root = Err e -> e = LeInvalidPayload.
Proof.
  unfold read_envelope. cbv zeta.
  assert (Hv : forall A (f : object -> result LifecycleError A), (forall x, is_ok (f x) = true) ->
    vehicle_data_object root ≫= f = Err e -> e = LeInvalidPayload).
  { intros A f Hf. destruct (vehicle_data_object root) as [x|e'] eqn:E; cbn [mbind result_bind].
    - specialize (Hf x). by destruct (f x).
    - intros [= <-]. by apply vehicle_data_error in E. }
  case_match; [by apply Hv|]. case_match; [by apply Hv|]. case_match; [done|]. case_match.
  - destruct (obj_get "fields" root ≫= _); [done|]. by intros [= <-].
  - by case_match.
Qed.

Lemma group_object_error data key e : group_object data key = Err e -> e = LeInvalidPayload.
Proof. unfold group_object. repeat (case_match; try done); by intros [= <-]. Qed.

Lemma parse_sample_error sample e : parse_sample sample = Err e -> e = LeInvalidPayload.
Proof.
  unfold parse_sample. destruct (json_as_object (ls_payload sample)) as [root|]; [|by intros [= <-]]. cbn [ok_or mbind result_bind].
  destruct (read_envelope root) as [en|e'] eqn:En; cbn [mbind result_bind].
  2: { intros [= <-]. by eapply read_envelope_error. }
  case_match; [done|]. unfold parse_groups. cbv zeta.
  repeat match goal with |- context [group_object ?a ?b ≫= _] =>
    let G := fresh "G" in destruct (group_object a b) eqn:G; cbn [mbind result_bind]; [|intros [= <-]; by eapply group_object_error] end.
  done.
Qed.

(** ** One observation and a page *)

Lemma apply_sample_total_aux `{Libm} s car_id sample n :
  0 < car_id -> 0 <= n -> session_ok s -> room (n + STEP_IDS) s ->
  exists step, apply_sample s car_id sample = Ok step /\ room n (step_state step).
Proof.
  intros Hcar Hn Hs Hr. unfold apply_sample, apply_sample_with_offline_drive_timeout.
  rewrite (proj2 (Z.leb_gt _ _) Hcar). replace (ok_or _ LeInvalidOfflineDriveTimeout) with (@Ok LifecycleError _ 600000) by reflexivity.
  cbn [mbind result_bind]. pose proof (room_weaken _ n _ Hr ltac:(unfold STEP_IDS; lia)) as Hr'.
  case_match; [by eexists|].
  assert (Hseed : same_ids s (convert_pending_seed s)) by (unfold convert_pending_seed; case_match; [by case_match|done]).
  pose proof (convert_seed_ok _ Hs) as Hs1. apply (room_same _ _ _ Hseed) in Hr, Hr'.
  set (s1 := convert_pending_seed s) in *. clearbody s1. clear Hseed.
  assert (Hcur : forall id q, room n (step_state (cursor_only id q s1))) by (intros; exact Hr').
  destruct (parse_sample sample) as [p|e] eqn:Ep.
  2: { apply parse_sample_error in Ep as ->. by eexists. }
  apply parse_sample_coordinates in Ep. case_match; [by eexists|]. unfold project.
  destruct (carry_forward s1 p (fresh_families s1 p)) as [s2 p2] eqn:Ec.
  pose proof (carry_forward_ok s1 p (fresh_families s1 p) Hs1) as Hs2.
  pose proof (carry_forward_coordinates s1 p (fresh_families s1 p) Ep) as Hp2.
  pose proof (carry_forward_ids s1 p (fresh_families s1 p)) as Hids.
  rewrite Ec in Hs2, Hp2, Hids. cbn [fst snd] in Hs2, Hp2, Hids. apply (room_same _ _ _ Hids) in Hr.
  set (o := observe s2 car_id 600000 (ls_vehicle_state sample) (fresh_families s1 p) p2).
  assert (Ho : ob_parsed o = p2).
  { unfold o, observe. cbv zeta. by destruct (resolve_conflicts _ _ _ _) as [[? ?] ?]. }
  destruct (lifecycle_steps_total o s2 n Hn ltac:(by rewrite Ho) Hs2 Hr) as ([s3 d3] & -> & Hr3).
  cbn [mbind result_bind mret result_ret]. eexists. split; [done|].
  eapply room_same; [|exact Hr3]. apply (advance_watermarks_ids o s3).
Qed.
