(* ===== verification/LifeMarks.v ===== *)
(** * The drive and charge lifecycle: fact times

    The watermark of a fact family only rises, and a family that was fresh in one
    observation leaves a watermark at its time: no observation, redelivered or late,
    makes the same fact count twice. *)
From S2P Require Import Prelude RustStr F64 Text External LifeData Geo LifeEnergy LifeCost LifeDrive LifeParse LifeSteps LifeApply LifeProject LifeInv LifeSafe.
Local Open Scope Z_scope.
Local Open Scope list_scope.

Inductive Family := FMotion | FPosition | FBattery | FCharge | FClimate | FOdometer | FStatus.

Definition family_of (f : Family) (x : Families) : bool :=
  match f with
  | FMotion => fa_motion x | FPosition => fa_position x | FBattery => fa_battery x | FCharge => fa_charge_session x
  | FClimate => fa_climate x | FOdometer => fa_odometer x | FStatus => fa_vehicle_status x
  end.

(** The time of the facts of a family. *)
Definition fact_time (f : Family) (p : ParsedSample) : Z :=
  match f with
  | FMotion | FPosition => p_drive_timestamp_ms p
  | FBattery | FCharge => p_charge_timestamp_ms p
  | FClimate => p_climate_timestamp_ms p
  | FOdometer | FStatus => p_vehicle_timestamp_ms p
  end.

(** The watermark [fresh_families] compares with. *)
Definition watermark (f : Family) (s : OpenSessionState) : option Z :=
  match f with
  | FMotion => os_last_drive_timestamp_ms s
  | FPosition => opt_or (os_last_position_fact_ms s) (os_last_drive_timestamp_ms s)
  | FBattery => opt_or (os_last_battery_fact_ms s) (os_last_charge_timestamp_ms s)
  | FCharge => os_last_charge_timestamp_ms s
  | FClimate => os_last_climate_fact_ms s
  | FOdometer => opt_or (os_last_odometer_fact_ms s) (os_last_vehicle_timestamp_ms s)
  | FStatus => os_last_vehicle_timestamp_ms s
  end.

(** [None] is below every time. *)
Definition mark_le (a b : option Z) : Prop :=
  match a, b with None, _ => True | Some _, None => False | Some x, Some y => x <= y end.

#[export] Instance mark_le_preorder : PreOrder mark_le.
Proof. split; [by intros []; simpl|]. intros [] [] []; simpl; try done. lia. Qed.

Lemma opt_max_ge w t : mark_le w (opt_max w t).
Proof. destruct w; simpl; [lia|done]. Qed.
Lemma opt_max_time w t : mark_le (Some t) (opt_max w t).
Proof. destruct w; simpl; lia. Qed.

Lemma opt_or_mono a b b' : mark_le b b' -> mark_le (opt_or a b) (opt_or a b').
Proof. by destruct a. Qed.

Lemma fresh_later f s p : family_of f (fresh_families s p) = true -> later_than (fact_time f p) (watermark f s) = true.
Proof. destruct f; simpl; intros; bsimp; done. Qed.

Lemma stale f s p t : mark_le (Some t) (watermark f s) -> fact_time f p <= t -> family_of f (fresh_families s p) = false.
Proof.
  intros Hm Ht. apply not_true_iff_false. intros Hf%fresh_later. unfold later_than in Hf.
  destruct (watermark f s) as [w|]; simpl in *; [|done]. bsimp. lia.
Qed.

(** ** The steps do not touch the watermarks *)

Definition fact_marks (s : OpenSessionState) : option Z * option Z * option Z * option Z * option Z * option Z * option Z :=
  (os_last_drive_timestamp_ms s, os_last_charge_timestamp_ms s, os_last_vehicle_timestamp_ms s,
   os_last_position_fact_ms s, os_last_battery_fact_ms s, os_last_climate_fact_ms s, os_last_odometer_fact_ms s).

(** With the state interval and the newest observation time. *)
Definition marks_of (s : OpenSessionState) :=
  (fact_marks s, os_open_state s, os_last_observed_at_ms s).
Definition still_of (w : Work) := (marks_of w.1, d_states w.2).

Lemma watermark_facts f s s' : fact_marks s = fact_marks s' -> watermark f s = watermark f s'.
Proof. intros [= ? ? ? ? ? ? ?]. destruct f; simpl; congruence. Qed.

Lemma watermark_marks f s s' : marks_of s = marks_of s' -> watermark f s = watermark f s'.
Proof. unfold marks_of. intros E. apply watermark_facts. congruence. Qed.

(** A step that leaves the watermarks, the state interval and the state rows. *)
Definition holds_marks (f : Work -> result LifecycleError Work) : Prop :=
  forall w w', f w = Ok w' -> still_of w' = still_of w.

Lemma still_intro s s' d d' : marks_of s' = marks_of s -> d_states d' = d_states d -> still_of (s', d') = still_of (s, d).
Proof. unfold still_of. cbn. congruence. Qed.

Lemma next_position_marks s id s' : next_position_id s = Ok (id, s') -> marks_of s' = marks_of s.
Proof. unfold next_position_id. intros E. apply result_bind_Ok in E as (n & _ & E). by apply (inj Ok), pair_equal_spec in E as [_ <-]. Qed.

Lemma fold_into_marks `{Libm} o s s' pos : fold_into_open_drive s o = Ok (s', pos) -> marks_of s' = marks_of s.
Proof.
  unfold fold_into_open_drive. case_match; [|by intros [= <- _]].
  intros E. apply result_bind_Ok in E as ([s1 p1] & E1 & E2). apply (inj Ok), pair_equal_spec in E2 as [<- _].
  trans (marks_of s1); [done|]. case_match; [|by apply (inj Ok), pair_equal_spec in E1 as [<- _]].
  apply result_bind_Ok in E1 as ([id s2] & En & E1). apply result_bind_Ok in E1 as (p2 & _ & E1).
  apply (inj Ok), pair_equal_spec in E1 as [<- _]. by eapply next_position_marks.
Qed.

Lemma record_references_marks s d : marks_of (record_drive_close_references s d) = marks_of s.
Proof. unfold record_drive_close_references. by repeat case_match. Qed.

Lemma close_open_drive_marks loe pos explicit : holds_marks (fun w => close_open_drive w loe pos explicit).
Proof.
  intros [s delta] w'. unfold close_open_drive. case_match; [|by intros [= <-]].
  intros E. apply result_bind_Ok in E as (r & _ & E). apply (inj Ok) in E as <-.
  apply still_intro; [by rewrite record_references_marks|by destruct r].
Qed.

Lemma close_open_charge_marks end_ms unplugged : holds_marks (fun w => close_open_charge w end_ms unplugged).
Proof.
  intros [s delta] w'. unfold close_open_charge. case_match; [|by intros [= <-]].
  intros E. apply result_bind_Ok in E as ([r l] & _ & E). apply (inj Ok) in E as <-. by apply still_intro.
Qed.

Lemma drive_close_marks `{Libm} o : holds_marks (drive_close_step o).
Proof.
  intros [s delta] w'. unfold drive_close_step. case_match; [|by intros [= <-]].
  case_match; [by apply close_open_drive_marks|]. case_match; [|by intros [= <-]].
  case_match; [|by apply close_open_drive_marks].
  intros E. apply result_bind_Ok in E as ([s1 pos] & Ef & E). apply close_open_drive_marks in E. rewrite E.
  apply still_intro; [by eapply fold_into_marks|done].
Qed.

Lemma charge_close_marks o : holds_marks (charge_close_step o).
Proof.
  intros w w'. unfold charge_close_step. case_match; [|by intros [= <-]]. case_match; [|by intros [= <-]].
  by apply close_open_charge_marks.
Qed.

Lemma vehicle_facts_marks o s : marks_of (apply_service_mode o (apply_car_metadata o s)) = marks_of s.
Proof.
  unfold apply_service_mode, set_service_mode, apply_car_metadata. set (s1 := match p_car_metadata _ with Some _ => _ | None => s end).
  assert (marks_of s1 = marks_of s) by (unfold s1; by case_match). clearbody s1. by repeat case_match.
Qed.

Lemma version_facts_marks o : holds_marks (apply_version_facts o).
Proof.
  intros [s delta] w'. unfold apply_version_facts. case_match; [by intros [= <-]|]. case_match; [|by intros [= <-]].
  case_match; [|by intros [= <-]]. case_match; [by intros [= <-]|by intros [= <-]|].
  intros E. apply result_bind_Ok in E as ([[id start] s1] & Ef & E). apply (inj Ok) in E as <-. apply still_intro; [|done]. trans (marks_of s1); [done|].
  unfold finished_update in Ef. case_match; [by apply (inj Ok), pair_equal_spec in Ef as [_ <-]|].
  apply result_bind_Ok in Ef as (n & _ & Ef). by apply (inj Ok), pair_equal_spec in Ef as [_ <-].
Qed.

Lemma update_status_marks o s s' : apply_update_status o s = Ok s' -> marks_of s' = marks_of s.
Proof.
  unfold apply_update_status. case_match; [by intros [= <-]|]. case_match; [|by intros [= <-]..]. case_match; [|by intros [= <-]].
  intros E. apply result_bind_Ok in E as (n & _ & E). by apply (inj Ok) in E as <-.
Qed.

Lemma drive_open_marks o : holds_marks (drive_open_step o).
Proof.
  intros [s delta] w'. unfold drive_open_step. case_match; [by intros [= <-]|].
  intros E. apply result_bind_Ok in E as (n & _ & E). apply (inj Ok) in E as <-. by apply still_intro.
Qed.

Lemma charge_open_marks o : holds_marks (charge_open_step o).
Proof.
  intros [s delta] w'. unfold charge_open_step. case_match; [by intros [= <-]|].
  destruct (charge_start s o) as [[[[start battery] ideal] rated]|]; [|by intros [= <-]].
  intros E. apply result_bind_Ok in E as ([id s1] & Ea & E). apply (inj Ok) in E as <-.
  apply still_intro; [|done]. trans (marks_of s1); [done|].
  unfold allocate_charge_id in Ea. apply result_bind_Ok in Ea as (n & _ & Ea). by apply (inj Ok), pair_equal_spec in Ea as [_ <-].
Qed.

Lemma drive_fold_marks `{Libm} o : holds_marks (drive_fold_step o).
Proof.
  intros [s delta] w'. unfold drive_fold_step. case_match; [by intros [= <-]|].
  intros E. apply result_bind_Ok in E as ([s1 pos] & Ef & E). apply (inj Ok) in E as <-.
  apply still_intro; [by eapply fold_into_marks|done].
Qed.

Lemma charge_sample_marks o : holds_marks (charge_sample_step o).
Proof.
  intros w w'. unfold charge_sample_step. case_match; [by intros [= <-]|].
  intros E. apply result_bind_Ok in E as ([s1 d1] & Er & E).
  assert (H1 : still_of (s1, d1) = still_of w).
  { destruct (anchors_charge_sample _ _); [|by apply (inj Ok) in Er as ->].
    destruct w as [s delta]. unfold charge_sample_row in Er.
    destruct (os_open_charge s); [|by apply (inj Ok), pair_equal_spec in Er as [<- <-]].
    apply result_bind_Ok in Er as ([id s2] & Ea & Er). apply (inj Ok), pair_equal_spec in Er as [<- <-].
    apply still_intro; [|done]. trans (marks_of s2); [done|].
    unfold allocate_charge_sample_id in Ea. apply result_bind_Ok in Ea as (n & _ & Ea). by apply (inj Ok), pair_equal_spec in Ea as [_ <-]. }
  assert (H2 : still_of (charge_odometer o s1, d1) = still_of (s1, d1)).
  { apply still_intro; [|done]. unfold charge_odometer. destruct (os_open_charge s1); [|done]. by destruct (when_fresh _ _). }
  rewrite <- H1, <- H2. destruct (_ && _); [by apply close_open_charge_marks in E|by apply (inj Ok) in E as <-].
Qed.

Lemma standalone_marks `{Libm} o : holds_marks (standalone_position_step o).
Proof.
  intros [s delta] w'. unfold standalone_position_step. case_match; [by intros [= <-]|]. case_match; [|by intros [= <-]].
  repeat (case_match; try (by intros [= <-])).
  intros E. apply result_bind_Ok in E as ([id s1] & Ea & E). apply result_bind_Ok in E as (pos & _ & E).
  apply next_position_marks in Ea. case_match; apply (inj Ok) in E as <-; by apply still_intro.
Qed.

Lemma phase_step_marks o w w' : phase_step o w = Ok w' -> fact_marks w'.1 = fact_marks w.1.
Proof.
  destruct w as [s delta]. unfold phase_step. case_match; [|by intros [= <-]]. unfold update_state_interval.
  case_match; [|by intros [= <-]]. case_match; [by intros [= <-]|].
  intros E. apply result_bind_Ok in E as (n & _ & E). by apply (inj Ok) in E as <-.
Qed.

(** Every step but the phase leaves them. *)
Lemma before_phase_marks `{Libm} o w w' :
  apply_lifecycle_steps o w = Ok w' ->
  exists w1, still_of w1 = still_of w /\ phase_step o w1 = Ok w'.
Proof.
  revert w w'.
  intros [s delta] w'. unfold apply_lifecycle_steps. intros E.
  apply result_bind_Ok in E as (w1 & E1%version_facts_marks & E).
  assert (E0 : still_of (apply_service_mode o (apply_car_metadata o s), delta) = still_of (s, delta))
    by (apply still_intro; [apply vehicle_facts_marks|done]).
  apply result_bind_Ok in E as (w2 & E2%drive_close_marks & E).
  apply result_bind_Ok in E as ([s3 d3] & E3%charge_close_marks & E).
  apply result_bind_Ok in E as (s4 & E4%update_status_marks & E).
  assert (E4' : still_of (s4, d3) = still_of (s3, d3))
    by (apply still_intro; [rewrite E4; unfold mark_offline; case_match; [by case_match|done]|done]).
  apply result_bind_Ok in E as (w5 & E5%drive_open_marks & E).
  apply result_bind_Ok in E as (w6 & E6%charge_open_marks & E).
  apply result_bind_Ok in E as (w7 & E7%drive_fold_marks & E).
  apply result_bind_Ok in E as (w8 & E8%charge_sample_marks & E).
  apply result_bind_Ok in E as ([s9 d9] & E9%standalone_marks & E).
  exists (parked_snapshot_step o s9, d9). split; [|done].
  assert (E9' : still_of (parked_snapshot_step o s9, d9) = still_of (s9, d9))
    by (apply still_intro; [unfold parked_snapshot_step; by case_match|done]).
  congruence.
Qed.

Lemma lifecycle_steps_marks `{Libm} o w w' : apply_lifecycle_steps o w = Ok w' -> fact_marks w'.1 = fact_marks w.1.
Proof.
  intros (w1 & E1 & ->%phase_step_marks)%before_phase_marks. unfold still_of, marks_of in E1. congruence.
Qed.

(** ** The tenth step raises them *)

Definition raises (m : Observation -> OpenSessionState -> OpenSessionState) : Prop :=
  forall o s f, mark_le (watermark f s) (watermark f (m o s)).

Ltac mark_cases m :=
  intros o s f; unfold m; case_match; [|reflexivity];
  destruct f; cbn; try reflexivity; try apply opt_max_ge; try apply opt_or_mono; apply opt_max_ge.

Lemma motion_raises : raises motion_mark. Proof. mark_cases motion_mark. Qed.
Lemma position_raises : raises position_mark. Proof. mark_cases position_mark. Qed.
Lemma battery_raises : raises battery_mark. Proof. mark_cases battery_mark. Qed.
Lemma charge_raises : raises charge_mark. Proof. mark_cases charge_mark. Qed.
Lemma climate_raises : raises climate_mark. Proof. mark_cases climate_mark. Qed.
Lemma odometer_raises : raises odometer_mark. Proof. mark_cases odometer_mark. Qed.
Lemma status_raises : raises status_mark. Proof. mark_cases status_mark. Qed.
Lemma observed_same o s : fact_marks (observed_mark o s) = fact_marks s.
Proof. unfold observed_mark. by case_match. Qed.
Lemma reach_same o s : fact_marks (reach_mark o s) = fact_marks s.
Proof. unfold reach_mark. by case_match. Qed.

Lemma tail_marks o s f : watermark f (reach_mark o (observed_mark o s)) = watermark f s.
Proof. apply watermark_facts. by rewrite reach_same, observed_same. Qed.

Lemma advance_raises : raises advance_watermarks.
Proof.
  intros o s f. unfold advance_watermarks. cbv zeta. rewrite tail_marks.
  etrans; [apply motion_raises|]. etrans; [apply position_raises|]. etrans; [apply battery_raises|].
  etrans; [apply charge_raises|]. etrans; [apply climate_raises|]. etrans; [apply odometer_raises|]. apply status_raises.
Qed.

(** A fresh family leaves its watermark at its time or later. *)
Lemma advance_reaches o s f :
  family_of f (ob_fresh o) = true ->
  mark_le (Some (fact_time f (ob_parsed o))) (watermark f (advance_watermarks o s)).
Proof.
  intros Hf. unfold advance_watermarks. cbv zeta. rewrite tail_marks. destruct f; simpl in Hf.
  - do 6 (etrans; [|first [apply status_raises|apply odometer_raises|apply climate_raises|apply charge_raises|apply battery_raises|apply position_raises]]).
    unfold motion_mark. rewrite Hf. apply opt_max_time.
  - do 5 (etrans; [|first [apply status_raises|apply odometer_raises|apply climate_raises|apply charge_raises|apply battery_raises]]).
    unfold position_mark. rewrite Hf. apply opt_max_time.
  - do 4 (etrans; [|first [apply status_raises|apply odometer_raises|apply climate_raises|apply charge_raises]]).
    unfold battery_mark. rewrite Hf. apply opt_max_time.
  - do 3 (etrans; [|first [apply status_raises|apply odometer_raises|apply climate_raises]]).
    unfold charge_mark. rewrite Hf. apply opt_max_time.
  - do 2 (etrans; [|first [apply status_raises|apply odometer_raises]]). unfold climate_mark. rewrite Hf. apply opt_max_time.
  - etrans; [|apply status_raises]. unfold odometer_mark. rewrite Hf. apply opt_max_time.
  - unfold status_mark. rewrite Hf. apply opt_max_time.
Qed.

(** ** One observation and a page *)

Lemma convert_seed_marks s : marks_of (convert_pending_seed s) = marks_of s.
Proof. unfold convert_pending_seed. case_match; [|done]. by case_match. Qed.

Lemma observe_parsed s car_id gap text fresh p :
  ob_parsed (observe s car_id gap text fresh p) = p /\ ob_fresh (observe s car_id gap text fresh p) = fresh.
Proof. unfold observe. cbv zeta. by destruct (resolve_conflicts _ _ _ _) as [[? ?] ?]. Qed.

Lemma project_marks `{Libm} s car_id gap sample p step f :
  project s car_id gap sample p = Ok step ->
  mark_le (watermark f s) (watermark f (step_state step))
  /\ (family_of f (fresh_families s p) = true -> mark_le (Some (fact_time f p)) (watermark f (step_state step))).
Proof.
  unfold project. destruct (carry_forward s p (fresh_families s p)) as [s2 p2] eqn:Ec.
  intros E. apply result_bind_Ok in E as ([s3 d3] & El & E). apply (inj Ok) in E as <-. cbn [step_state].
  assert (H2 : watermark f s2 = watermark f s) by (apply watermark_marks; change s2 with ((s2, p2).1); rewrite <- Ec; done).
  assert (Hp : fact_time f p2 = fact_time f p) by (change p2 with ((s2, p2).2); rewrite <- Ec; by destruct f).
  destruct (observe_parsed s2 car_id gap (ls_vehicle_state sample) (fresh_families s p) p2) as [Ho1 Ho2].
  set (o := observe _ _ _ _ _ _) in *. clearbody o. apply lifecycle_steps_marks in El. cbn [fst] in El.
  assert (H3 : watermark f s3 = watermark f s) by (rewrite <- H2; by apply watermark_facts).
  assert (Hcur : forall x, watermark f (set_cursor (ls_observation_id sample) x) = watermark f x) by by destruct f.
  rewrite Hcur. split.
  - rewrite <- H3. apply advance_raises.
  - intros Hf. rewrite <- Hp, <- Ho1. apply advance_reaches. by rewrite Ho2.
Qed.

Lemma apply_sample_marks `{Libm} s car_id sample step f :
  apply_sample s car_id sample = Ok step -> mark_le (watermark f s) (watermark f (step_state step)).
Proof.
  unfold apply_sample, apply_sample_with_offline_drive_timeout. case_match; [done|].
  intros E. apply result_bind_Ok in E as (gap & _ & E). case_match; [by apply (inj Ok) in E as <-|].
  rewrite (watermark_marks f s (convert_pending_seed s)) by (by rewrite convert_seed_marks).
  assert (Hcur : forall q x, watermark f (step_state (cursor_only (ls_observation_id sample) q x)) = watermark f x) by by destruct f.
  destruct (parse_sample sample) as [p|e].
  2: { destruct e; try done. apply (inj Ok) in E as <-. by rewrite Hcur. }
  case_match; [apply (inj Ok) in E as <-; by rewrite Hcur|]. by eapply project_marks.
Qed.

Lemma apply_samples_from_marks `{Libm} samples s car_id total q st f :
  apply_samples_from s car_id samples total q = Ok st -> mark_le (watermark f s) (watermark f (step_state st)).
Proof.
  revert s total q. induction samples as [|x l IH]; intros s total q; simpl.
  - by intros [= <-].
  - intros E. apply result_bind_Ok in E as (step & E1 & E). apply (apply_sample_marks _ _ _ _ f) in E1.
    etrans; [exact E1|]. by eapply IH.
Qed.
