(* ===== verification/LifeProps.v ===== *)
(** * The drive and charge lifecycle: what holds of every session and page

    The sessions a vehicle reaches by collection, and the theorems about them: the invariant, the
    rows, totality, redelivery, the fact times and the placement of drive children. *)
From S2P Require Import Prelude RustStr F64 Text External LifeData Geo LifeEnergy LifeCost LifeDrive LifeParse LifeSteps LifeApply LifeProject LifeInv LifeSafe LifeTotal LifeMarks.
From Stdlib Require Import Sorting.Sorted.
Local Open Scope string_scope.
Local Open Scope Z_scope.
Local Open Scope list_scope.

(** ** Collected sessions

    The sessions the Hub's own collection reaches from a new one: observations, Hub
    events, raised identifier floors and the versions of stored updates and of the car's
    row. A session seeded from an import ([seed_imported_open_session_state]) is not
    among them: it takes the rows the import left open as they are, and these may be a
    drive and a charge together. *)

Inductive Collected `{Libm} (car_id : Z) : OpenSessionState -> Prop :=
| collected_new : Collected car_id session_new
| collected_sample s sample timeout step :
    Collected car_id s -> apply_sample_with_offline_drive_timeout s car_id sample timeout = Ok step ->
    Collected car_id (step_state step)
| collected_event s at_ms name step :
    Collected car_id s -> apply_hub_event s car_id at_ms name = Ok step -> Collected car_id (step_state step)
| collected_raised s used : Collected car_id s -> Collected car_id (raise_id_cursors s used)
| collected_versions s updates : Collected car_id s -> Collected car_id (seed_version_from_updates s updates)
| collected_car_row s version known : Collected car_id s -> Collected car_id (seed_version_from_car_row s version known).

Lemma session_new_ok : session_ok session_new.
Proof. constructor; cbn; try done. by left. Qed.

Lemma raise_cursor_ok next floor : id_ok next -> id_ok (raise_cursor next floor) /\ next <= raise_cursor next floor.
Proof. unfold id_ok, raise_cursor, i64_sadd, clamp, i64_max, i64_min. lia. Qed.

Lemma raise_ids_ok s used : session_ok s -> session_ok (raise_id_cursors s used).
Proof.
  intros Hs. destruct (ok_ids _ Hs) as (H1 & H2 & H3 & H4 & H5 & H6).
  destruct (raise_cursor_ok _ (if_drives used) H1), (raise_cursor_ok _ (if_charges used) H3),
    (raise_cursor_ok _ (if_states used) H5), (raise_cursor_ok _ (if_updates used) H6).
  unfold raise_id_cursors. ok_frame Hs. split_and!; by apply raise_cursor_ok.
Qed.

Lemma hub_event_ok `{Libm} s car_id at_ms name step :
  session_ok s -> apply_hub_event s car_id at_ms name = Ok step -> session_ok (step_state step) /\ delta_ok (step_delta step).
Proof.
  intros Hs. unfold apply_hub_event. intros E. apply result_bind_Ok in E as (id & _ & E).
  apply result_bind_Ok in E as (st & E1 & E). apply (inj Ok) in E as <-.
  destruct (apply_sample_ok _ _ _ _ Hs E1) as (Hst & Hd & _). split; [|done].
  apply set_cursor_ok; [by apply ok_cursor|done].
Qed.

Lemma reached_ok `{Libm} car_id s : Collected car_id s -> session_ok s.
Proof.
  induction 1 as [|s sample timeout step _ IH E|s at_ms name step _ IH E|s used _ IH|s updates _ IH|s version known _ IH].
  - apply session_new_ok.
  - by destruct (apply_sample_timeout_ok _ _ _ _ _ IH E).
  - by destruct (hub_event_ok _ _ _ _ _ IH E).
  - by apply raise_ids_ok.
  - unfold seed_version_from_updates. case_match; [done|]. case_match; [done|]. ok_frame IH.
  - unfold seed_version_from_car_row. repeat (case_match; try done). ok_frame IH.
Qed.

(** A collected session survives a restart: [decode] accepts it. *)
Lemma session_ok_decodes s : session_ok s -> decode_accepts s = Ok s.
Proof.
  intros [Hv (H1 & H2 & H3 & H4 & H5 & H6) Hc _ _ _ _ _]. unfold decode_accepts. rewrite Hv. cbn [Z.eqb Pos.eqb negb].
  unfold id_ok in *. rewrite !(proj2 (Z.ltb_ge _ _)) by lia. done.
Qed.

(** ** An example drive: parked, two minutes of driving, parked two miles on *)

Definition ex_libm : Libm := {| f64_sin := fun x => x; f64_cos := fun _ => f64_one; f64_asin := fun x => x |}.
Definition ex_number (z : positive) : json := JNumber (PosInt (Zpos z)).
Definition ex_time : positive := 1700000000000.
Definition ex_sample (id : Z) (t : positive) (gear : string) (odometer : positive) : LifecycleSample :=
  MkLifecycleSample id (Zpos t) "online"
    (JObject [("record_type", JString "owner_api_vehicle_data_v1");
              ("vehicle_data", JObject
                [("drive_state", JObject [("timestamp", ex_number t); ("shift_state", JString gear);
                                          ("latitude", ex_number 51); ("longitude", ex_number 1)]);
                 ("vehicle_state", JObject [("timestamp", ex_number t); ("odometer", ex_number odometer)])])]).
Definition ex_page : list LifecycleSample :=
  [ex_sample 1 ex_time "P" 100; ex_sample 2 (ex_time + 60000) "D" 100; ex_sample 3 (ex_time + 120000) "D" 101;
   ex_sample 4 (ex_time + 180000) "P" 102].

(** The page gives one drive of two miles with three positions and one standalone
    position. *)
Definition ex_result (r : result LifecycleError LifecycleStep) : option (list (Z * Z) * nat * nat * VehiclePhase) :=
  step ← result_ok r;
  let d := step_delta step in
  Some (map (fun x => (pd_start_date_ms x, pd_end_date_ms x)) (d_drives d), length (d_open_drive_positions d),
        length (d_positions d), os_phase (step_state step)).
Example ex_page_result :
  ex_result (apply_samples (H := ex_libm) session_new 9 ex_page)
  = Some ([(1700000060000, 1700000180000)], 3%nat, 1%nat, VpOnline).
Proof. vm_compute. reflexivity. Qed.

(** The session after a page, when the page applies. *)
Definition ex_state (l : list LifecycleSample) : OpenSessionState :=
  match apply_samples (H := ex_libm) session_new 9 l with Ok st => step_state st | Err _ => session_new end.

Lemma reached_page `{Libm} car_id l s total q st :
  Collected car_id s -> apply_samples_from s car_id l total q = Ok st -> Collected car_id (step_state st).
Proof.
  revert s total q. induction l as [|x l IH]; intros s total q Hr; simpl; [by intros [= <-]|].
  intros E. apply result_bind_Ok in E as (step & E1 & E). eapply IH; [|exact E]. by eapply collected_sample.
Qed.

Lemma ex_reached l : Collected (H := ex_libm) 9 (ex_state l).
Proof.
  unfold ex_state. destruct (apply_samples _ _ _) as [st|e] eqn:E; [|apply collected_new].
  eapply (@reached_page ex_libm); [apply collected_new|exact E].
Qed.

(** ** The properties *)

(** C12: In every session that collection reaches from a new one, through observations,
    Hub events, raised identifier floors and stored versions, a drive and a charge are
    never open together; the open drive holds at most four lead checkpoints, ordered by
    their cuts, each a bare copy with the identity of the drive; every open session has
    an identifier below the next one; and a restart decodes the session as it is. A
    session seeded with the open rows of an import is not such a session. *)
Theorem reached_session_invariant `{Libm} (car_id : Z) (s : OpenSessionState) (Hs : Collected car_id s) :
  (os_open_drive s = None \/ os_open_charge s = None)
  /\ (forall d, os_open_drive s = Some d ->
        1 <= od_id d < os_next_drive_id s /\ (length (od_lead_checkpoints d) <= 4)%nat
        /\ StronglySorted cut_le (od_lead_checkpoints d)
        /\ Forall (fun c => bare (lc_drive c) /\ identity (lc_drive c) = identity d) (od_lead_checkpoints d))
  /\ (forall c, os_open_charge s = Some c -> 1 <= oc_id c < os_next_charge_id s)
  /\ (forall u, os_open_update s = Some u -> 1 <= up_id u < os_next_update_id s)
  /\ (forall i, os_open_state s = Some i -> 1 <= st_id i < os_next_state_id s)
  /\ decode_accepts s = Ok s.
Proof.
  apply reached_ok in Hs. split; [apply Hs|]. split; [|split; [|split; [apply Hs|split; [apply Hs|by apply session_ok_decodes]]]].
  - intros d Hd. destruct (ok_drive _ Hs _ Hd) as [(_ & (Hl & Hso & Hb) & _) Hi].
    split; [done|]. split; [exact Hl|]. by split.
  - intros c Hc. by destruct (ok_charge _ Hs _ Hc).
Qed.

Lemma reached_session_invariant_witness :
  is_some (os_open_drive (ex_state (take 3 ex_page))) = true
  /\ (os_open_drive (ex_state (take 3 ex_page)) = None \/ os_open_charge (ex_state (take 3 ex_page)) = None).
Proof.
  split; [vm_compute; reflexivity|]. apply (@reached_session_invariant ex_libm 9). apply ex_reached.
Defined.

(** C29: Every row an observation produces on a collected session is well formed: a
    closed drive, charge or state ends at or after its start, an update too; every
    position lies in the WGS84 domain; every row has a positive identifier. *)
Theorem observation_rows_ok `{Libm} (car_id : Z) (s : OpenSessionState) (sample : LifecycleSample) (step : LifecycleStep)
    (Hs : Collected car_id s) (E : apply_sample s car_id sample = Ok step) :
  let d := step_delta step in
  Forall (fun x => 1 <= pd_id x /\ pd_start_date_ms x <= pd_end_date_ms x) (d_drives d)
  /\ Forall (fun x => 1 <= pc_id x /\ exists end_, pc_end_date_ms x = Some end_ /\ pc_start_date_ms x <= end_) (d_charges d)
  /\ Forall (fun x => 1 <= pst_id x /\ forall end_, pst_end_date_ms x = Some end_ -> pst_start_date_ms x <= end_) (d_states d)
  /\ Forall (fun x => 1 <= pu_id x /\ pu_start_date_ms x <= pu_end_date_ms x) (d_updates d)
  /\ Forall (fun x => 1 <= pp_id x /\ latitude_ok (pp_latitude x) = true /\ longitude_ok (pp_longitude x) = true)
       (d_positions d ++ d_open_drive_positions d)
  /\ Forall (fun x => 1 <= ps_id x /\ 1 <= ps_charge_process_id x) (d_open_charge_samples d).
Proof.
  apply reached_ok in Hs. destruct (apply_sample_ok _ _ _ _ Hs E) as (_ & [H1 H2 H3 H4 H5 H6 H7] & _).
  cbv zeta. split_and!; try done; [|by apply Forall_app_2].
  eapply Forall_impl; [exact H1|]. by intros x [? ?].
Qed.

Lemma observation_rows_ok_witness :
  exists step, apply_sample (H := ex_libm) (ex_state (take 3 ex_page)) 9 (ex_sample 4 (ex_time + 180000) "P" 102) = Ok step
  /\ length (d_drives (step_delta step)) = 1%nat
  /\ Forall (fun x => 1 <= pu_id x /\ pu_start_date_ms x <= pu_end_date_ms x) (d_updates (step_delta step)).
Proof.
  eexists. split; [vm_compute; reflexivity|]. split; [reflexivity|].
  eapply (@observation_rows_ok ex_libm 9 (ex_state (take 3 ex_page)) (ex_sample 4 (ex_time + 180000) "P" 102)).
  - apply ex_reached.
  - vm_compute. reflexivity.
Defined.

Lemma apply_samples_total_aux `{Libm} l car_id : 0 < car_id -> forall s total q n,
  0 <= n -> session_ok s -> room (n + STEP_IDS * Z.of_nat (length l)) s ->
  exists st, apply_samples_from s car_id l total q = Ok st /\ room n (step_state st).
Proof.
  intros Hcar. induction l as [|x l IH]; intros s total q n Hn Hs Hr; simpl.
  - eexists. split; [done|]. eapply room_weaken; [exact Hr|]. simpl. unfold STEP_IDS. lia.
  - destruct (apply_sample_total_aux s car_id x (n + STEP_IDS * Z.of_nat (length l)) Hcar) as (step & E & Hr'); [unfold STEP_IDS; lia|done| |].
    { eapply room_weaken; [exact Hr|]. simpl length. unfold STEP_IDS. lia. }
    rewrite E. cbn [mbind result_bind]. apply IH; [done| |done].
    by destruct (apply_sample_ok _ _ _ _ Hs E).
Qed.

(** C6: No observation wedges the projection: on a collected session whose
    identifiers have room for ten more per observation, a page of any observations -
    malformed, stale, out of order, with impossible values - is applied to its end.
    The timeline, coordinate and payload errors never surface. *)
Theorem page_always_applies `{Libm} (car_id : Z) (s : OpenSessionState) (samples : list LifecycleSample)
    (Hcar : 0 < car_id) (Hs : Collected car_id s) (Hroom : room (STEP_IDS * Z.of_nat (length samples)) s) :
  exists st, apply_samples s car_id samples = Ok st /\ Collected car_id (step_state st).
Proof.
  destruct (apply_samples_total_aux samples car_id Hcar s LifecycleDelta_default false 0 ltac:(lia) (reached_ok _ _ Hs) Hroom)
    as (st & E & _).
  exists st. split; [exact E|]. by eapply reached_page.
Qed.

Lemma page_always_applies_witness :
  room (STEP_IDS * 4) session_new
  /\ exists st, apply_samples (H := ex_libm) session_new 9 ex_page = Ok st /\ Collected (H := ex_libm) 9 (step_state st).
Proof.
  split; [by vm_compute|]. apply (@page_always_applies ex_libm); [lia|apply collected_new|by vm_compute].
Defined.

(** ** Redelivery *)

Lemma merge_default total : merge_step_delta total LifecycleDelta_default = total.
Proof.
  destruct total. unfold merge_step_delta. cbn -[becomes_standalone]. rewrite !app_nil_r. f_equal.
  - assert (Hf : forall l : list ProjectionPosition, List.filter (fun _ => false) l = []) by by induction l.
    by rewrite Hf, app_nil_r.
  - induction d_open_drive_positions as [|x l IH]; simpl; [done|]. by f_equal.
Qed.

Lemma apply_old_samples `{Libm} l rest s car_id total q :
  0 < car_id -> Forall (fun x => ls_observation_id x <= os_last_observation_id s) l ->
  apply_samples_from s car_id (l ++ rest) total q = apply_samples_from s car_id rest total q.
Proof.
  intros Hcar Hl. induction Hl as [|x l Hx _ IH]; simpl; [done|].
  unfold apply_sample at 1, apply_sample_with_offline_drive_timeout at 1.
  rewrite (proj2 (Z.leb_gt _ _) Hcar). replace (ok_or _ LeInvalidOfflineDriveTimeout) with (@Ok LifecycleError _ 600000) by reflexivity.
  cbn [mbind result_bind]. rewrite (proj2 (Z.leb_le _ _) Hx). cbn [mret result_ret mbind result_bind step_state step_delta step_quarantined].
  rewrite merge_default, orb_false_r. exact IH.
Qed.

Lemma page_cursor `{Libm} l s car_id total q st :
  session_ok s -> apply_samples_from s car_id l total q = Ok st ->
  os_last_observation_id s <= os_last_observation_id (step_state st)
  /\ Forall (fun x => ls_observation_id x <= os_last_observation_id (step_state st)) l.
Proof.
  revert s total q. induction l as [|x l IH]; intros s total q Hs; simpl; [by intros [= <-]|].
  intros E. apply result_bind_Ok in E as (step & E1 & E). destruct (apply_sample_ok _ _ _ _ Hs E1) as (Hs1 & _ & Hc).
  destruct (IH _ _ _ Hs1 E) as [H1 H2]. split; [lia|]. constructor; [lia|done].
Qed.

Lemma apply_samples_from_app `{Libm} l1 l2 s car_id total q :
  apply_samples_from s car_id (l1 ++ l2) total q
  = apply_samples_from s car_id l1 total q ≫= fun st =>
      apply_samples_from (step_state st) car_id l2 (step_delta st) (step_quarantined st).
Proof.
  revert s total q. induction l1 as [|x l1 IH]; intros s total q; simpl; [done|].
  destruct (apply_sample s car_id x) as [step|e]; cbn [mbind result_bind]; [|done]. apply IH.
Qed.

(** The session after a page does not depend on the delta and flag it starts with. *)
Lemma apply_samples_from_state `{Libm} l s car_id t q t' q' st :
  apply_samples_from s car_id l t q = Ok st ->
  exists st', apply_samples_from s car_id l t' q' = Ok st' /\ step_state st' = step_state st.
Proof.
  revert s t q t' q'. induction l as [|x l IH]; intros s t q t' q'; simpl.
  - intros [= <-]. by eexists.
  - destruct (apply_sample s car_id x) as [step|e]; cbn [mbind result_bind]; [|done]. apply IH.
Qed.

(** C18: A crash between commit and acknowledgement costs nothing: after a committed
    page, redelivering that page followed by new observations gives the result of the
    new observations alone - the same session, rows and quarantine flag - and the
    session is the one that a single page of all of them gives. *)
Theorem redelivery_is_noop `{Libm} (car_id : Z) (s : OpenSessionState) (committed fresh : list LifecycleSample)
    (st : LifecycleStep) (Hcar : 0 < car_id) (Hs : Collected car_id s)
    (E : apply_samples s car_id committed = Ok st) :
  apply_samples (step_state st) car_id (committed ++ fresh) = apply_samples (step_state st) car_id fresh
  /\ (forall whole, apply_samples s car_id (committed ++ fresh) = Ok whole ->
        exists part, apply_samples (step_state st) car_id fresh = Ok part /\ step_state part = step_state whole).
Proof.
  apply reached_ok in Hs. destruct (page_cursor _ _ _ _ _ _ Hs E) as [_ Hl]. split.
  - unfold apply_samples. by apply apply_old_samples.
  - intros whole. unfold apply_samples in *. rewrite apply_samples_from_app, E. cbn [mbind result_bind].
    intros Ew. by eapply apply_samples_from_state in Ew.
Qed.

Lemma redelivery_is_noop_witness :
  exists st, apply_samples (H := ex_libm) session_new 9 (take 2 ex_page) = Ok st
  /\ apply_samples (H := ex_libm) (step_state st) 9 (take 2 ex_page ++ drop 2 ex_page)
     = apply_samples (H := ex_libm) (step_state st) 9 (drop 2 ex_page).
Proof.
  eexists. split; [vm_compute; reflexivity|].
  apply (@redelivery_is_noop ex_libm 9 session_new (take 2 ex_page) (drop 2 ex_page) _ ltac:(lia)).
  - apply collected_new.
  - vm_compute. reflexivity.
Defined.

(** ** Fact times *)

(** C26: A fact counts once.  After an observation with a fresh family, and whatever
    follows it, that family is never fresh again in an observation whose fact time is
    not later: a cached group re-served with its old timestamp changes nothing. *)
Theorem consumed_fact_stays_stale `{Libm} (car_id : Z) (s : OpenSessionState) (sample : LifecycleSample)
    (later : list LifecycleSample) (p p' : ParsedSample) (f : Family) (step st : LifecycleStep)
    (Hnew : os_last_observation_id s < ls_observation_id sample)
    (Ep : parse_sample sample = Ok p) (Hk : says_nothing p = false)
    (E : apply_sample s car_id sample = Ok step)
    (Hf : family_of f (fresh_families (convert_pending_seed s) p) = true)
    (Est : apply_samples (step_state step) car_id later = Ok st)
    (Ht : fact_time f p' <= fact_time f p) :
  family_of f (fresh_families (step_state st) p') = false.
Proof.
  eapply stale; [|exact Ht]. etrans; [|by eapply apply_samples_from_marks].
  revert E. unfold apply_sample, apply_sample_with_offline_drive_timeout. case_match; [done|].
  intros E. apply result_bind_Ok in E as (gap & _ & E). rewrite (proj2 (Z.leb_gt _ _) Hnew), Ep, Hk in E.
  by apply (project_marks _ _ _ _ _ _ f) in E as [_ E%(fun g => g Hf)].
Qed.

Definition ex_parsed (l : LifecycleSample) : ParsedSample :=
  match parse_sample l with Ok p => p | Err _ => ParsedSample_default end.

Definition ex_step (r : result LifecycleError LifecycleStep) : LifecycleStep :=
  default (MkLifecycleStep session_new LifecycleDelta_default true) (result_ok r).
Definition ex_first : LifecycleStep := ex_step (apply_sample (H := ex_libm) session_new 9 (ex_sample 1 ex_time "P" 100)).
Definition ex_rest : LifecycleStep := ex_step (apply_samples (H := ex_libm) (step_state ex_first) 9 (tail ex_page)).

Lemma consumed_fact_stays_stale_witness :
  family_of FMotion (fresh_families session_new (ex_parsed (ex_sample 1 ex_time "P" 100))) = true
  /\ family_of FMotion (fresh_families (step_state ex_rest) (ex_parsed (ex_sample 9 ex_time "D" 100))) = false.
Proof.
  split; [vm_compute; reflexivity|].
  apply (@consumed_fact_stays_stale ex_libm 9 session_new (ex_sample 1 ex_time "P" 100) (tail ex_page)
           (ex_parsed (ex_sample 1 ex_time "P" 100)) _ FMotion ex_first); vm_compute; first [reflexivity|discriminate].
Defined.

(** ** The children of a page *)

Definition free (l : list ProjectionPosition) : list ProjectionPosition := map standalone l.

Lemma standalone_idem p : standalone (standalone p) = standalone p.
Proof. done. Qed.

Lemma free_partition (f : ProjectionPosition -> bool) l :
  free (map standalone (List.filter f l)) ++ free (List.filter (fun p => negb (f p)) l) ≡ₚ free l.
Proof.
  induction l as [|x l IH]; [done|]. cbn [List.filter]. destruct (f x); cbn [negb].
  - cbn [map free app]. rewrite standalone_idem. by constructor.
  - unfold free in *. cbn [map]. rewrite <- IH. symmetry. apply Permutation_middle.
Qed.

Lemma perm_middle {A} (a p f x y : list A) : a ++ f ≡ₚ x ++ y -> (a ++ p) ++ f ≡ₚ (x ++ p) ++ y.
Proof.
  intros E. rewrite (Permutation_app_comm a p), (Permutation_app_comm x p), <- !app_assoc. by apply Permutation_app_head.
Qed.

(** C31: The one merge of the Hub never drops a child: up to the drive a position is
    filed under, the merged delta holds exactly the positions of both; and no position
    stays filed under a drive the step discards, or under a drive the step closes before
    the position's time. *)
Theorem merge_loses_no_position (total step : LifecycleDelta) :
  let m := merge_step_delta total step in
  free (d_positions m ++ d_open_drive_positions m)
    ≡ₚ free (d_positions total ++ d_open_drive_positions total ++ d_positions step ++ d_open_drive_positions step)
  /\ (forall x, x ∈ d_open_drive_positions m -> forall id, pp_drive_id x = Some id ->
        id ∉ d_discarded_drive_ids step
        /\ (forall d, d ∈ d_drives step -> pd_id d = id -> pp_date_ms x <= pd_end_date_ms d)).
Proof.
  cbv zeta. split.
  - unfold merge_step_delta. cbn [d_positions d_open_drive_positions].
    match goal with |- context [List.filter ?f _] => set (leaves := f) end.
    set (placed := d_open_drive_positions total ++ d_open_drive_positions step).
    pose proof (free_partition leaves placed) as Hp. unfold free in *. rewrite !map_app in *.
    unfold placed in Hp at 3. rewrite map_app in Hp. fold placed. rewrite <- !app_assoc.
    apply Permutation_app_head. rewrite !app_assoc. by apply perm_middle.
  - unfold merge_step_delta. cbn [d_open_drive_positions]. intros x Hx id Hid.
    match type of Hx with context [List.filter ?f _] => set (keeps_place := f) in Hx end.
    apply list_elem_of_In, filter_In in Hx as [_ Hx]. unfold keeps_place in Hx. apply negb_true_iff in Hx.
    unfold becomes_standalone in Hx. rewrite Hid in Hx. cbn [is_some_and] in Hx.
    set (closes := negb _) in Hx. apply andb_false_iff in Hx. split.
    + intros Hd. destruct Hx as [Hx|Hx]; [|by rewrite (bool_decide_eq_true_2 _ Hd) in Hx].
      unfold closes in Hx. bsimp. destruct (d_discarded_drive_ids step); [by apply not_elem_of_nil in Hd|done].
    + intros d Hd Hi. destruct Hx as [Hx|Hx].
      * unfold closes in Hx. bsimp. destruct (d_drives step); [by apply not_elem_of_nil in Hd|done].
      * apply orb_false_iff in Hx as [_ Hx]. apply Z.nlt_ge. intros Hlt.
        assert (existsb (fun drive => (pd_id drive =? id) && (pd_end_date_ms drive <? pp_date_ms x)) (d_drives step) = true); [|congruence].
        apply existsb_exists. exists d. split; [by apply list_elem_of_In|].
        rewrite Hi, Z.eqb_refl. by apply Z.ltb_lt.
Qed.
