(* ===== verification/LifeLead.v ===== *)
(** * The drive and charge lifecycle: the end of a drive is exact

    A parked fact may arrive after positions dated later than it.  The lead
    checkpoints of an open drive let such a fact end the drive at its own time: the
    specification replays the points dated up to the end over the drive as it opened,
    and the checkpoint the close takes is that replay. *)
From S2P Require Import Prelude F64 External LifeData Geo LifeEnergy LifeCost LifeDrive LifeSteps LifeApply LifeProject LifeInv LifeMarks LifeProps.
From Stdlib Require Import Sorting.Sorted.
Local Open Scope Z_scope.
Local Open Scope list_scope.

(** ** The folds of an open drive as events *)

Record DriveEvent := MkDriveEvent {
  ev_point : DrivePoint;
  ev_motion : bool;
  ev_position_fresh : bool;
  ev_emitted : option ProjectionPosition;
}.
Definition ev_time (e : DriveEvent) : Z := dp_at_ms (ev_point e).

(** The open drive with the watermarks of its two families. *)
Record DriveMachine := MkDriveMachine { m_drive : OpenDrive; m_motion : option Z; m_position : option Z }.

Definition ev_lead (m : DriveMachine) (e : DriveEvent) : bool :=
  ev_position_fresh e && negb (ev_motion e) && later_than (ev_time e) (m_motion m).

Definition drive_event `{Libm} (m : DriveMachine) (e : DriveEvent) : DriveMachine :=
  MkDriveMachine
    (fold_all (lead_update (ev_motion e) (ev_lead m e) (ev_time e) (m_drive m)) (ev_point e) (ev_emitted e))
    (if ev_motion e then opt_max (m_motion m) (ev_time e) else m_motion m)
    (if ev_position_fresh e then opt_max (m_position m) (ev_time e) else m_position m).
Definition drive_run `{Libm} (m : DriveMachine) (evs : list DriveEvent) : DriveMachine := fold_left drive_event evs m.

(** The event is one the observation steps can fold: a fresh family, each later than
    its watermark, and a stored position only with a fresh position family. *)
Definition ev_ok (m : DriveMachine) (e : DriveEvent) : Prop :=
  (ev_motion e = true \/ ev_position_fresh e = true)
  /\ (ev_motion e = true -> later_than (ev_time e) (m_motion m) = true)
  /\ (ev_position_fresh e = true -> later_than (ev_time e) (m_position m) = true)
  /\ (is_some (ev_emitted e) = true -> ev_position_fresh e = true).

Fixpoint run_ok `{Libm} (m : DriveMachine) (evs : list DriveEvent) : Prop :=
  match evs with [] => True | e :: evs => ev_ok m e /\ run_ok (drive_event m e) evs end.

(** The event of an observation. *)
Definition event_of (o : Observation) (pos : option ProjectionPosition) : DriveEvent :=
  MkDriveEvent (drive_point o) (fa_motion (ob_fresh o)) (fa_position (ob_fresh o)) pos.

(** [fold_into_open_drive] is one event of the machine. *)
Lemma fold_into_is_event `{Libm} s o d s' pos :
  os_open_drive s = Some d -> fold_into_open_drive s o = Ok (s', pos) ->
  os_open_drive s' = Some (m_drive (drive_event (MkDriveMachine d (watermark FMotion s) (watermark FPosition s)) (event_of o pos)))
  /\ (is_some pos = true -> fa_position (ob_fresh o) = true).
Proof.
  intros Hd. unfold fold_into_open_drive. rewrite Hd. intros E.
  apply result_bind_Ok in E as ([s1 p1] & E1 & E2). apply (inj Ok), pair_equal_spec in E2 as [<- <-].
  assert (Hw : os_last_drive_timestamp_ms s1 = os_last_drive_timestamp_ms s /\ (is_some p1 = true -> fa_position (ob_fresh o) = true)).
  { destruct (stores_position d o) eqn:Est.
    - apply result_bind_Ok in E1 as ([id s2] & En & E1). apply result_bind_Ok in E1 as (p2 & _ & E1).
      apply (inj Ok), pair_equal_spec in E1 as [<- <-]. apply next_position_marks in En. split; [by injection En|].
      intros _. unfold stores_position in Est. by bsimp.
    - by apply (inj Ok), pair_equal_spec in E1 as [<- <-]. }
  destruct Hw as [Hw Hp]. split; [|done]. cbn [os_open_drive update_with m_drive drive_event event_of].
  unfold drive_event, ev_lead, event_of, ev_time. cbn. unfold is_lead. by rewrite Hw.
Qed.

(** ** The specification: replay over the drive without its copies *)

Definition replay `{Libm} (start : OpenDrive) (evs : list DriveEvent) : OpenDrive :=
  fold_left (fun d e => fold_drive_point d (ev_point e) (ev_emitted e) false) evs start.

Definition up_to (t : Z) (evs : list DriveEvent) : list DriveEvent := filter (fun e => ev_time e <= t) evs.
Definition after (t : Z) (evs : list DriveEvent) : list DriveEvent := filter (fun e => t < ev_time e) evs.

(** ** The fold commutes with taking a copy *)

Definition commutes (g : OpenDrive -> OpenDrive) : Prop := forall d, g (detached_copy d) = detached_copy (g d).

Lemma commutes_values p : commutes (fold_values p).
Proof.
  intros d. unfold fold_values. cbv zeta.
  assert (H1 : commutes (fold_soc p)) by (intros ?; unfold fold_soc; by case_match).
  assert (H2 : commutes (fold_ideal p)) by (intros ?; unfold fold_ideal; by case_match).
  assert (H3 : commutes (fold_rated p)) by (intros ?; unfold fold_rated; by case_match).
  assert (H4 : commutes (fold_speed p)) by (intros ?; unfold fold_speed; by case_match).
  assert (H5 : commutes (fold_power p)) by (intros ?; unfold fold_power; by case_match).
  assert (H6 : commutes (fold_outside p)) by (intros ?; unfold fold_outside; by case_match).
  assert (H7 : commutes (fold_inside p)) by (intros ?; unfold fold_inside; by case_match).
  assert (H8 : commutes (fold_charge_energy p)) by (intros ?; unfold fold_charge_energy; by case_match).
  by rewrite H1, H2, H3, H4, H5, H6, H7, H8.
Qed.

Lemma commutes_coordinates `{Libm} at_ : commutes (fold_coordinates at_).
Proof.
  intros d. unfold fold_coordinates.
  change (od_start_latitude (detached_copy d)) with (od_start_latitude d).
  change (od_start_longitude (detached_copy d)) with (od_start_longitude d).
  set (b := is_none _ || _). set (d1 := if b then _ else d).
  assert (E : (if b then (detached_copy d) <| od_start_latitude := Some at_.1 |> <| od_start_longitude := Some at_.2 |>
               else detached_copy d) = detached_copy d1) by (unfold d1; by destruct b).
  rewrite E. clearbody d1. clear E.
  change (od_start_latitude (detached_copy d1)) with (od_start_latitude d1).
  change (od_start_longitude (detached_copy d1)) with (od_start_longitude d1).
  destruct (od_start_latitude d1); [|done]. destruct (od_start_longitude d1); [|done]. by destruct (distance_between _ _).
Qed.

Section Replay.
Context `{Libm}.

Lemma fold_facts_detached d p e : fold_facts (detached_copy d) p e = detached_copy (fold_facts d p e).
Proof.
  unfold fold_facts.
  assert (H1 : commutes (fold_time p)) by done.
  assert (H2 : commutes (fold_emitted e)) by (intros ?; unfold fold_emitted; by case_match).
  assert (H3 : commutes (fold_at p)) by (intros ?; unfold fold_at; case_match; [apply commutes_coordinates|done]).
  assert (H4 : commutes (fold_odo p)) by (intros ?; unfold fold_odo; by case_match).
  by rewrite H1, H2, H3, H4, commutes_values.
Qed.

Lemma fold_point_detached d p e track :
  fold_drive_point (detached_copy d) p e false = detached_copy (fold_drive_point d p e track).
Proof.
  unfold fold_drive_point. rewrite fold_facts_detached. set (d1 := fold_facts d p e). clearbody d1.
  unfold fold_still. case_match; [done|done|]. cbn [andb]. by case_match.
Qed.

Lemma detached_event m e :
  detached_copy (m_drive (drive_event m e)) = fold_drive_point (detached_copy (m_drive m)) (ev_point e) (ev_emitted e) false.
Proof.
  unfold drive_event, fold_all, observe_drive_point. cbn [m_drive].
  set (d1 := lead_update _ _ _ _). assert (E : detached_copy (m_drive m) = detached_copy d1).
  { unfold d1, lead_update. by destruct (ev_motion e), (ev_lead m e). }
  rewrite E. rewrite (fold_point_detached d1 _ _ true). done.
Qed.

Lemma detached_run m evs : detached_copy (m_drive (drive_run m evs)) = replay (detached_copy (m_drive m)) evs.
Proof.
  revert m. induction evs as [|e evs IH]; intros m; [done|]. cbn [drive_run fold_left replay].
  change (fold_left drive_event evs (drive_event m e)) with (drive_run (drive_event m e) evs).
  rewrite IH, detached_event. done.
Qed.
End Replay.

(** ** Each lead checkpoint is the replay of the points before its cut *)

Definition cut_lt (a b : LeadCheckpoint) : Prop := lc_cut_ms a < lc_cut_ms b.
Definition before (t : Z) (evs : list DriveEvent) : list DriveEvent := filter (fun e => ev_time e < t) evs.
Definition leads_of (m : DriveMachine) : list LeadCheckpoint := od_lead_checkpoints (m_drive m).

Record machine_ok `{Libm} (start : OpenDrive) (evs : list DriveEvent) (m : DriveMachine) : Prop := MkMachineOk {
  mo_drive : detached_copy (m_drive m) = replay start evs;
  mo_sorted : StronglySorted cut_lt (leads_of m);
  mo_few : (length (leads_of m) <= K_LEAD_CHECKPOINTS)%nat;
  mo_cuts : forall c, c ∈ leads_of m -> mark_le (Some (lc_cut_ms c)) (m_position m);
  mo_motion : forall e, e ∈ evs -> ev_motion e = true -> mark_le (Some (ev_time e)) (m_motion m);
  mo_position : forall e, e ∈ evs -> ev_position_fresh e = true -> mark_le (Some (ev_time e)) (m_position m);
  mo_kinds : forall e, e ∈ evs -> ev_motion e = true \/ ev_position_fresh e = true;
  mo_leads : forall c, c ∈ leads_of m -> lc_drive c = replay start (before (lc_cut_ms c) evs);
}.

Lemma later_than_above t w x : later_than t w = true -> mark_le (Some x) w -> x < t.
Proof. unfold later_than. destruct w; simpl; [|done]. intros. bsimp. lia. Qed.

Lemma insert_lead_last c l : (forall x, x ∈ l -> lc_cut_ms x < lc_cut_ms c) -> insert_lead c l = l ++ [c].
Proof.
  induction l as [|x l IH]; simpl; intros Hx; [done|]. rewrite (proj2 (Z.leb_le _ _)).
  - f_equal. apply IH. intros y Hy. apply Hx. by right.
  - pose proof (Hx x ltac:(left)). lia.
Qed.

Lemma sorted_snoc c l :
  StronglySorted cut_lt l -> (forall x, x ∈ l -> lc_cut_ms x < lc_cut_ms c) -> StronglySorted cut_lt (l ++ [c]).
Proof.
  induction 1 as [|x l Hs IH Hx]; simpl; intros Hc; [by repeat constructor|]. constructor.
  - apply IH. intros y Hy. apply Hc. by right.
  - apply Forall_app_2; [done|]. constructor; [|done]. apply Hc. left.
Qed.

Lemma sorted_filter (P : LeadCheckpoint -> Prop) `{forall x, Decision (P x)} l :
  StronglySorted cut_lt l -> StronglySorted cut_lt (filter P l).
Proof.
  induction 1 as [|x l Hs IH Hx]; [constructor|]. rewrite filter_cons. case_decide; [|done].
  constructor; [done|]. by apply Forall_filter_sub.
Qed.

Lemma sorted_map_cut (g : LeadCheckpoint -> LeadCheckpoint) l :
  (forall c, lc_cut_ms (g c) = lc_cut_ms c) -> StronglySorted cut_lt l -> StronglySorted cut_lt (map g l).
Proof.
  intros Hg. induction 1 as [|x l Hs IH Hx]; simpl; constructor; [done|]. apply Forall_fmap.
  eapply Forall_impl; [exact Hx|]. intros y. unfold cut_lt. cbn. by rewrite !Hg.
Qed.

Lemma filter_all {A} (P : A -> Prop) `{forall x, Decision (P x)} (l : list A) : (forall x, x ∈ l -> P x) -> filter P l = l.
Proof.
  induction l as [|x l IH]; intros Hl; [done|]. rewrite filter_cons_True by (apply Hl; left).
  f_equal. apply IH. intros y Hy. apply Hl. by right.
Qed.

Lemma tail_sub {A} (l : list A) x : x ∈ tail l -> x ∈ l.
Proof. destruct l; simpl; [done|]. intros. by right. Qed.

Section Machine.
Context `{Libm}.

Lemma fold_lead_cut p c : lc_cut_ms (fold_lead p c) = lc_cut_ms c.
Proof. unfold fold_lead. by case_match. Qed.

(** The checkpoints after an event: kept ones, folded, and a new one at the end. *)
Definition kept_leads (m : DriveMachine) (e : DriveEvent) : list LeadCheckpoint :=
  let leads := if ev_motion e then filter (fun c => ev_time e < lc_cut_ms c) (leads_of m) else leads_of m in
  if ev_lead m e then (if (K_LEAD_CHECKPOINTS <=? length leads)%nat then tail leads else leads) else leads.

Lemma kept_sub m e c : c ∈ kept_leads m e -> c ∈ leads_of m /\ (ev_motion e = true -> ev_time e < lc_cut_ms c).
Proof.
  unfold kept_leads. intros Hc.
  assert (Hc' : c ∈ (if ev_motion e then filter (fun c => ev_time e < lc_cut_ms c) (leads_of m) else leads_of m)).
  { destruct (ev_lead m e); [|done]. destruct (_ <=? _)%nat; [by apply tail_sub|done]. }
  destruct (ev_motion e); [|done]. apply list_elem_of_filter in Hc' as [? ?]. by split.
Qed.

Lemma leads_after m e :
  leads_of (drive_event m e) =
  map (fold_lead (ev_point e))
    (if ev_lead m e then insert_lead (MkLeadCheckpoint (ev_time e) (detached_copy (m_drive m))) (kept_leads m e)
     else kept_leads m e).
Proof.
  unfold leads_of, drive_event, fold_all. cbn [m_drive od_lead_checkpoints update_with].
  destruct (fold_drive_point_frame (lead_update (ev_motion e) (ev_lead m e) (ev_time e) (m_drive m)) (ev_point e) (ev_emitted e) true)
    as (_ & _ & El).
  unfold observe_drive_point. change (eta _) with (@id OpenDrive) in *.
  cbn. rewrite El. f_equal. unfold lead_update, kept_leads, leads_of. cbn.
  destruct (ev_motion e), (ev_lead m e); cbn; done.
Qed.

Lemma cuts_below start evs m e c :
  machine_ok start evs m -> ev_ok m e -> ev_position_fresh e = true -> c ∈ leads_of m -> lc_cut_ms c < ev_time e.
Proof. intros Hm (_ & _ & Hp & _) Hf Hc. eapply later_than_above; [by apply Hp|by eapply mo_cuts]. Qed.

Lemma machine_event start evs m e :
  machine_ok start evs m -> ev_ok m e -> machine_ok start (evs ++ [e]) (drive_event m e).
Proof.
  intros Hm He. pose proof He as (Hk & Hmo & Hpo & Hem).
  assert (Hlead : ev_lead m e = true -> ev_position_fresh e = true /\ ev_motion e = false /\ later_than (ev_time e) (m_motion m) = true)
    by (unfold ev_lead; intros; by bsimp).
  assert (Hbelow : ev_lead m e = true -> forall c, c ∈ kept_leads m e -> lc_cut_ms c < ev_time e).
  { intros Hl c Hc. apply kept_sub in Hc as [Hc _]. destruct (Hlead Hl) as (Hf & _). by eapply cuts_below. }
  assert (Hkeep : StronglySorted cut_lt (kept_leads m e) /\ (length (kept_leads m e) <= K_LEAD_CHECKPOINTS)%nat
                  /\ (ev_lead m e = true -> (length (kept_leads m e) < K_LEAD_CHECKPOINTS)%nat)).
  { unfold kept_leads. set (l := if ev_motion e then _ else _).
    assert (Hl : StronglySorted cut_lt l /\ (length l <= K_LEAD_CHECKPOINTS)%nat).
    { unfold l. destruct (ev_motion e); [|split; apply Hm]. split; [apply sorted_filter, Hm|].
      pose proof (length_filter (fun c => ev_time e < lc_cut_ms c) (leads_of m)). pose proof (mo_few _ _ _ Hm). lia. }
    clearbody l. destruct Hl as [Hs Hle]. destruct (ev_lead m e); [|by split_and!].
    destruct (K_LEAD_CHECKPOINTS <=? length l)%nat eqn:E.
    - destruct l as [|x l]; simpl in *; [by split_and!; unfold K_LEAD_CHECKPOINTS in *; try lia|].
      inversion Hs. split_and!; [done|lia|intros; lia].
    - apply Nat.leb_gt in E. by split_and!. }
  destruct Hkeep as (Hks & Hkl & Hkl').
  (* the leads before the fold *)
  set (l1 := if ev_lead m e then insert_lead (MkLeadCheckpoint (ev_time e) (detached_copy (m_drive m))) (kept_leads m e)
             else kept_leads m e).
  assert (Hl1 : l1 = kept_leads m e ++ (if ev_lead m e then [MkLeadCheckpoint (ev_time e) (detached_copy (m_drive m))] else [])).
  { unfold l1. destruct (ev_lead m e); [|by rewrite app_nil_r]. apply insert_lead_last. intros x Hx. by apply Hbelow. }
  assert (Hin : forall c, c ∈ l1 -> (c ∈ leads_of m /\ (ev_motion e = true -> ev_time e < lc_cut_ms c))
                 \/ (ev_lead m e = true /\ c = MkLeadCheckpoint (ev_time e) (detached_copy (m_drive m)))).
  { intros c. rewrite Hl1, elem_of_app. intros [Hc|Hc]; [left; by apply kept_sub|].
    destruct (ev_lead m e); [|by apply elem_of_nil in Hc]. apply list_elem_of_singleton in Hc. by right. }
  assert (Hle1 : mark_le (m_position m) (m_position (drive_event m e))).
  { cbn [drive_event m_position]. destruct (ev_position_fresh e); [apply opt_max_ge|done]. }
  constructor.
  - rewrite detached_event, (mo_drive _ _ _ Hm). unfold replay. by rewrite fold_left_app.
  - rewrite leads_after. fold l1. apply sorted_map_cut; [apply fold_lead_cut|]. rewrite Hl1.
    destruct (ev_lead m e); [|by rewrite app_nil_r]. apply sorted_snoc; [done|]. intros x Hx. by apply Hbelow.
  - rewrite leads_after, length_map. fold l1. rewrite Hl1, length_app.
    destruct (ev_lead m e); simpl; [specialize (Hkl' eq_refl)|]; lia.
  - rewrite leads_after. fold l1. intros c (c0 & -> & Hc)%list_elem_of_fmap. rewrite fold_lead_cut.
    destruct (Hin c0 Hc) as [[Hc0 _]|[Hl ->]]; [etrans; [by eapply mo_cuts|done]|].
    cbn [drive_event m_position lc_cut_ms]. destruct (Hlead Hl) as (-> & _). apply opt_max_time.
  - intros x Hx Hf. cbn [drive_event m_motion]. apply elem_of_app in Hx as [Hx|Hx].
    + destruct (ev_motion e); [etrans; [|apply opt_max_ge]|]; by eapply mo_motion.
    + apply list_elem_of_singleton in Hx as ->. rewrite Hf. apply opt_max_time.
  - intros x Hx Hf. apply elem_of_app in Hx as [Hx|Hx]; [etrans; [by eapply mo_position|done]|].
    apply list_elem_of_singleton in Hx as ->. cbn [drive_event m_position]. rewrite Hf. apply opt_max_time.
  - intros x Hx. apply elem_of_app in Hx as [Hx|Hx]; [by eapply mo_kinds|]. by apply list_elem_of_singleton in Hx as ->.
  - rewrite leads_after. fold l1. intros c (c0 & -> & Hc)%list_elem_of_fmap. rewrite fold_lead_cut.
    unfold before. rewrite filter_app. destruct (Hin c0 Hc) as [[Hc0 Hmot]|[Hl ->]].
    + unfold fold_lead. change (dp_at_ms (ev_point e)) with (ev_time e).
      destruct (Z.ltb_spec (ev_time e) (lc_cut_ms c0)) as [Hlt|Hge].
      * (* a fold below the cut: a motion without a stored position *)
        assert (Hnp : ev_position_fresh e = false).
        { destruct (ev_position_fresh e) eqn:Hf; [|done]. pose proof (cuts_below _ _ _ _ _ Hm He Hf Hc0). lia. }
        assert (Hno : ev_emitted e = None) by (destruct (ev_emitted e) eqn:Hee; [by rewrite (Hem eq_refl) in Hnp|done]).
        cbn [lc_drive lc_cut_ms]. rewrite (mo_leads _ _ _ Hm _ Hc0). rewrite filter_cons_True by done. cbn [filter].
        unfold replay. rewrite fold_left_app. cbn [fold_left]. by rewrite Hno.
      * rewrite filter_cons_False by lia. rewrite filter_nil, app_nil_r. by apply Hm.
    + (* the new checkpoint: every earlier fold is before its cut *)
      destruct (Hlead Hl) as (Hf & Hnm & Hlm). cbn [lc_cut_ms].
      unfold fold_lead. change (dp_at_ms (ev_point e)) with (ev_time e). cbn [lc_cut_ms].
      rewrite Z.ltb_irrefl. cbn [lc_drive]. rewrite (mo_drive _ _ _ Hm). f_equal.
      rewrite filter_cons_False by lia. rewrite filter_nil, app_nil_r. symmetry. apply filter_all. intros x Hx.
      destruct (mo_kinds _ _ _ Hm _ Hx) as [Hxm|Hxp].
      * eapply later_than_above; [exact Hlm|]. by eapply mo_motion.
      * eapply later_than_above; [by apply Hpo|]. by eapply mo_position.
Qed.

Lemma machine_run start evs m l :
  machine_ok start evs m -> run_ok m l -> machine_ok start (evs ++ l) (drive_run m l).
Proof.
  revert evs m. induction l as [|e l IH]; intros evs m Hm Hl; [by rewrite app_nil_r|].
  destruct Hl as [He Hl]. rewrite cons_middle, app_assoc. apply IH; [by apply machine_event|done].
Qed.
End Machine.

(** ** No cut above the end is missing *)

Definition late_cuts (t : Z) (m : DriveMachine) : list Z := lc_cut_ms <$> filter (fun c => t < lc_cut_ms c) (leads_of m).

Lemma sorted_head_le x l c : StronglySorted cut_lt (x :: l) -> c ∈ x :: l -> lc_cut_ms x <= lc_cut_ms c.
Proof.
  intros Hs Hc. inversion Hs as [|? ? _ Hx]; subst. apply elem_of_cons in Hc as [->|Hc]; [lia|].
  apply (proj1 (Forall_forall _ _) Hx) in Hc. unfold cut_lt in Hc. lia.
Qed.

(** Removing the oldest of four leaves the late cuts, unless all four are late. *)
Lemma evict_late (t : Z) l :
  StronglySorted cut_lt l -> (length (filter (fun c => (t < lc_cut_ms c)%Z) l) < K_LEAD_CHECKPOINTS)%nat ->
  filter (fun c => t < lc_cut_ms c) (if (K_LEAD_CHECKPOINTS <=? length l)%nat then tail l else l)
  = filter (fun c => t < lc_cut_ms c) l.
Proof.
  intros Hs Hf. destruct (K_LEAD_CHECKPOINTS <=? length l)%nat eqn:E; [|done]. apply Nat.leb_le in E.
  destruct l as [|x l]; [done|]. cbn [tail]. destruct (decide (t < lc_cut_ms x)) as [Hx|Hx]; [|by rewrite filter_cons_False].
  rewrite filter_all in Hf; [lia|]. intros y Hy. pose proof (sorted_head_le _ _ _ Hs Hy). lia.
Qed.

Section Complete.
Context `{Libm} (t : Z) (start : OpenDrive).

Definition complete (evs : list DriveEvent) (m : DriveMachine) : Prop := late_cuts t m = ev_time <$> after t evs.

Lemma late_cuts_event m e :
  late_cuts t (drive_event m e) =
  lc_cut_ms <$> filter (fun c => t < lc_cut_ms c)
    (if ev_lead m e then insert_lead (MkLeadCheckpoint (ev_time e) (detached_copy (m_drive m))) (kept_leads m e)
     else kept_leads m e).
Proof.
  unfold late_cuts. rewrite leads_after. set (l := if ev_lead m e then _ else _). clearbody l.
  induction l as [|x l IH]; [done|]. cbn [map]. rewrite !filter_cons, fold_lead_cut. case_decide; [|done].
  rewrite !fmap_cons, fold_lead_cut. by f_equal.
Qed.

Lemma complete_event evs m e :
  machine_ok start evs m -> ev_ok m e -> mark_le (m_motion m) (Some t) -> (ev_motion e = true -> ev_time e <= t) ->
  (length (after t (evs ++ [e])) <= K_LEAD_CHECKPOINTS)%nat ->
  complete evs m -> complete (evs ++ [e]) (drive_event m e).
Proof.
  intros Hm He Hmt Hmot Hlen Hc. pose proof He as (Hk & Hmo & Hpo & Hem). unfold complete in *.
  rewrite late_cuts_event. unfold after in *. rewrite filter_app in *. rewrite fmap_app, <- Hc.
  destruct (decide (t < ev_time e)) as [Ht|Ht].
  - (* a late position: a lead whose cut is the greatest *)
    assert (Hnm : ev_motion e = false) by (destruct (ev_motion e); [specialize (Hmot eq_refl); lia|done]).
    assert (Hf : ev_position_fresh e = true) by (destruct Hk; [congruence|done]).
    assert (Hl : ev_lead m e = true).
    { unfold ev_lead. rewrite Hf, Hnm. cbn [negb andb]. unfold later_than. destruct (m_motion m); [|done].
      apply Z.ltb_lt. simpl in Hmt. lia. }
    rewrite Hl. rewrite filter_cons_True in Hlen |- * by done. rewrite filter_nil in Hlen |- *. rewrite length_app in Hlen. cbn [length] in Hlen.
    rewrite insert_lead_last.
    2: { intros x [Hx _]%kept_sub. by eapply cuts_below. }
    rewrite filter_app, fmap_app. f_equal; [|by rewrite filter_cons_True].
    unfold late_cuts. f_equal. unfold kept_leads. rewrite Hnm, Hl. apply evict_late; [apply Hm|].
    assert (Hcl : length (late_cuts t m) = length (filter (fun e => t < ev_time e) evs)) by (rewrite Hc; by rewrite length_fmap).
    unfold late_cuts in Hcl. rewrite length_fmap in Hcl. lia.
  - rewrite filter_cons_False by done. rewrite filter_nil, fmap_nil, app_nil_r.
    unfold late_cuts. f_equal. unfold kept_leads. destruct (ev_lead m e) eqn:Hl.
    + (* every cut is below the position, so none is late *)
      assert (Hf : ev_position_fresh e = true) by (unfold ev_lead in Hl; by bsimp).
      assert (Hlow : forall c, c ∈ leads_of m -> ~ t < lc_cut_ms c).
      { intros c Hcm. pose proof (cuts_below _ _ _ _ _ Hm He Hf Hcm). lia. }
      rewrite (filter_none _ (leads_of m) Hlow). apply filter_none. intros c Hin. rewrite insert_lead_perm in Hin.
      apply elem_of_cons in Hin as [->|Hin]; [cbn; lia|].
      assert (Hin' : c ∈ kept_leads m e) by (unfold kept_leads; by rewrite Hl). apply kept_sub in Hin' as [Hin' _]. by apply Hlow.
    + destruct (ev_motion e); [|done]. rewrite list_filter_filter. apply list_filter_iff. intros c. lia.
Qed.

Lemma motion_mark_mono m l : run_ok m l -> mark_le (m_motion m) (m_motion (drive_run m l)).
Proof.
  revert m. induction l as [|e l IH]; intros m; [done|]. intros [_ Hl]. etrans; [|by apply IH].
  cbn [drive_event m_motion]. destruct (ev_motion e); [apply opt_max_ge|done].
Qed.

Lemma after_mono evs l : (length (after t evs) <= length (after t (evs ++ l)))%nat.
Proof. unfold after. rewrite filter_app, length_app. lia. Qed.

Lemma complete_run evs m l :
  machine_ok start evs m -> run_ok m l -> mark_le (m_motion (drive_run m l)) (Some t) ->
  (length (after t (evs ++ l)) <= K_LEAD_CHECKPOINTS)%nat ->
  complete evs m -> complete (evs ++ l) (drive_run m l).
Proof.
  revert evs m. induction l as [|e l IH]; intros evs m Hm Hl Ht Hlen Hc; [by rewrite app_nil_r|].
  pose proof (motion_mark_mono m (e :: l) Hl) as Hmono. destruct Hl as [He Hl].
  pose proof (motion_mark_mono (drive_event m e) l Hl) as Hmono'.
  rewrite cons_middle, app_assoc in Hlen |- *. apply IH; [by apply machine_event|done|done|done|].
  eapply complete_event; [done|done|by etrans| | |done].
  - intros Hme. cbn [drive_event m_motion] in Hmono'. rewrite Hme in Hmono'.
    assert (Hx : mark_le (Some (ev_time e)) (Some t)); [|exact Hx].
    etrans; [apply opt_max_time|]. etrans; [exact Hmono'|exact Ht].
  - etrans; [apply after_mono|exact Hlen].
Qed.
End Complete.

(** ** The close *)

Lemma find_first_filter {A} (P : A -> Prop) `{forall x, Decision (P x)} (p : A -> bool) (l : list A) :
  (forall x, p x = true <-> P x) -> find_first p l = head (filter P l).
Proof.
  intros Hp. induction l as [|x l IH]; [done|]. cbn [find_first]. rewrite filter_cons. case_decide as Hx.
  - by rewrite (proj2 (Hp x) Hx).
  - destruct (p x) eqn:E; [by apply Hp in E|done].
Qed.

Lemma filter_in_iff {A} (P Q : A -> Prop) `{forall x, Decision (P x)} `{forall x, Decision (Q x)} (l : list A) :
  (forall x, x ∈ l -> P x <-> Q x) -> filter P l = filter Q l.
Proof.
  induction l as [|x l IH]; intros Hl; [done|]. rewrite !filter_cons.
  pose proof (Hl x ltac:(left)). repeat case_decide; try tauto; rewrite IH; try done; intros y Hy; apply Hl; by right.
Qed.

Lemma run_ok_app `{Libm} m l1 l2 : run_ok m (l1 ++ l2) -> run_ok m l1 /\ run_ok (drive_run m l1) l2.
Proof.
  revert m. induction l1 as [|e l1 IH]; intros m; [done|]. cbn. intros [He Hl]. apply IH in Hl as [H1 H2]. by split.
Qed.

Lemma replay_copy `{Libm} i start evs : copy_of i start -> copy_of i (replay start evs).
Proof. revert start. induction evs as [|e evs IH]; intros start Hs; [done|]. cbn. apply IH. by apply fold_drive_point_copy. Qed.

Lemma detached_bare d : bare d -> detached_copy d = d.
Proof. destruct d. intros (Hp & Hs & Hl). cbn in *. subst. done. Qed.

Lemma bare_of_empty d : od_positions d = [] -> d <| od_still_checkpoint := None |> <| od_lead_checkpoints := [] |> = detached_copy d.
Proof. destruct d. cbn. intros ->. done. Qed.

Lemma set_positions_bare d l : l = [] -> bare d -> d <| od_positions := l |> = d.
Proof. intros -> (Hp & _). destruct d. cbn in *. by subst. Qed.

Lemma drive_event_positions `{Libm} m e : od_positions (m_drive (drive_event m e)) = od_positions (m_drive m).
Proof.
  unfold drive_event, fold_all. cbn [m_drive].
  destruct (fold_drive_point_frame (lead_update (ev_motion e) (ev_lead m e) (ev_time e) (m_drive m)) (ev_point e) (ev_emitted e) true)
    as (_ & Ep & _).
  trans (od_positions (observe_drive_point (lead_update (ev_motion e) (ev_lead m e) (ev_time e) (m_drive m)) (ev_point e) (ev_emitted e))); [done|].
  unfold observe_drive_point. rewrite Ep. unfold lead_update. by destruct (ev_motion e), (ev_lead m e).
Qed.
Lemma drive_run_positions `{Libm} m l : od_positions (m_drive (drive_run m l)) = od_positions (m_drive m).
Proof. revert m. induction l as [|e l IH]; intros m; [done|]. cbn. fold (drive_run (drive_event m e) l). by rewrite IH, drive_event_positions. Qed.

(** C3: A parked or plugged-in fact ends a drive exactly at its own time, even when
    positions dated after it were folded first.  Over any interleaving of motion and
    position facts that the freshness rules admit, with at most four facts dated after
    the end, the drive the close takes is the replay of the facts dated up to the end
    over the drive as it opened: distance, displacement, averages, extremes, elevation
    and last position are those of a drive that never saw the later facts. *)
Theorem late_positions_do_not_lengthen_a_drive `{Libm} (start : OpenDrive) (motion position : option Z)
    (evs : list DriveEvent) (park : DriveEvent)
    (Hstart : bare start) (Hpark : ev_motion park = true)
    (Hrun : run_ok (MkDriveMachine start motion position) (evs ++ [park]))
    (Hfew : (length (after (ev_time park) evs) <= 4)%nat) :
  end_source (m_drive (drive_run (MkDriveMachine start motion position) (evs ++ [park]))) false (Some (ev_time park))
  = replay start (up_to (ev_time park) (evs ++ [park])).
Proof.
  set (t := ev_time park). set (m0 := MkDriveMachine start motion position) in *. set (all := evs ++ [park]) in *.
  assert (H0 : machine_ok start [] m0).
  { destruct Hstart as (Hp & Hs & Hl). constructor; cbn [m0 m_drive leads_of]; rewrite ?Hl; try done.
    - by rewrite detached_bare.
    - unfold leads_of; cbn; rewrite Hl; constructor.
    - unfold leads_of; cbn; rewrite Hl. simpl. lia.
    - unfold leads_of; cbn; rewrite Hl. by intros c ?%elem_of_nil.
    - by intros e ?%elem_of_nil.
    - by intros e ?%elem_of_nil.
    - by intros e ?%elem_of_nil.
    - unfold leads_of; cbn; rewrite Hl. by intros c ?%elem_of_nil. }
  pose proof (machine_run start [] m0 all H0 Hrun) as Hm. cbn [app] in Hm.
  assert (Hlate : after t all = after t evs).
  { unfold all, after. rewrite filter_app, filter_cons_False by (unfold t; lia). by rewrite filter_nil, app_nil_r. }
  assert (Hc : complete t all (drive_run m0 all)).
  { apply (complete_run t start [] m0 all H0 Hrun).
    - apply run_ok_app in Hrun as [_ [(_ & Hmo & _) _]]. unfold all, drive_run. rewrite fold_left_app.
      fold (drive_run m0 evs). cbn [fold_left drive_event m_motion]. rewrite Hpark. specialize (Hmo Hpark).
      unfold later_than in Hmo. fold t in Hmo |- *. destruct (m_motion (drive_run m0 evs)); simpl in *; [bsimp|]; lia.
    - cbn [app]. by rewrite Hlate.
    - unfold complete, late_cuts, leads_of. cbn [m0 m_drive]. destruct Hstart as (_ & _ & ->). done. }
  set (m := drive_run m0 all) in *. unfold complete, late_cuts in Hc.
  assert (Hpos : od_positions (m_drive m) = []).
  { unfold m. rewrite drive_run_positions. apply Hstart. }
  assert (Hdet : detached_copy (m_drive m) = replay start all) by apply Hm.
  unfold end_source. cbn [mbind option_bind].
  rewrite (find_first_filter (fun c => t < lc_cut_ms c)) by (intros; apply Z.ltb_lt).
  fold (leads_of m). destruct (filter (fun c => t < lc_cut_ms c) (leads_of m)) as [|c rest] eqn:Ef; cbn [head].
  - rewrite bare_of_empty, Hdet by done. f_equal. symmetry. apply filter_all. intros e He.
    apply Z.le_ngt. intros Hlt. assert (He' : e ∈ after t all) by by apply list_elem_of_filter.
    rewrite fmap_nil in Hc. symmetry in Hc. apply fmap_nil_inv in Hc. rewrite Hc in He'. by apply elem_of_nil in He'.
  - assert (Hcin : c ∈ leads_of m /\ t < lc_cut_ms c).
    { assert (Hx : c ∈ filter (fun c => t < lc_cut_ms c) (leads_of m)) by (rewrite Ef; left).
      apply list_elem_of_filter in Hx as [? ?]. by split. }
    destruct Hcin as [Hcin Hct]. pose proof (mo_leads _ _ _ Hm _ Hcin) as Hcd.
    rewrite set_positions_bare, Hcd; [|done|].
    2: { rewrite Hcd. by apply (replay_copy (identity start)). }
    f_equal. apply filter_in_iff. intros e He. split; [|lia]. intros Hlt. apply Z.le_ngt. intros Hte.
    assert (He' : ev_time e ∈ ev_time <$> after t all) by (apply list_elem_of_fmap_2, list_elem_of_filter; done).
    rewrite <- Hc in He'. apply list_elem_of_fmap in He' as (c' & Ec' & Hc').
    pose proof (sorted_filter (fun c => t < lc_cut_ms c) _ (mo_sorted _ _ _ Hm)) as Hs. rewrite Ef in Hs.
    pose proof (sorted_head_le _ _ _ Hs Hc'). lia.
Qed.

Definition ex_point (t : Z) (odometer : Z) (evidence : DriveEvidence) : DrivePoint :=
  {| dp_at_ms := t; dp_coordinates := None; dp_speed := None; dp_power := None; dp_battery_level := None;
     dp_ideal_range_km := None; dp_rated_range_km := None; dp_odometer_km := Some (f64_of_Z odometer);
     dp_odometer_coarse := false; dp_outside_temp := None; dp_inside_temp := None; dp_charge_energy_added := None;
     dp_evidence := evidence |}.
(** A motion fold, two later positions, then the parked fact dated between. *)
Definition ex_events : list DriveEvent :=
  [MkDriveEvent (ex_point 1000 10 Motion) true true None; MkDriveEvent (ex_point 3000 12 NoInfo) false true None;
   MkDriveEvent (ex_point 4000 13 NoInfo) false true None].
Definition ex_park : DriveEvent := MkDriveEvent (ex_point 2000 11 Park) true false None.

Lemma late_positions_do_not_lengthen_a_drive_witness :
  let d := end_source (m_drive (drive_run (H := ex_libm) (MkDriveMachine (drive_empty 1 9 1000) None None) (ex_events ++ [ex_park])))
             false (Some 2000) in
  od_last_odometer d = Some (f64_of_Z 11)
  /\ d = replay (H := ex_libm) (drive_empty 1 9 1000) (up_to 2000 (ex_events ++ [ex_park])).
Proof.
  split; [vm_compute; reflexivity|].
  apply (@late_positions_do_not_lengthen_a_drive ex_libm (drive_empty 1 9 1000) None None ex_events ex_park).
  - by split_and!.
  - reflexivity.
  - cbn [run_ok app ex_events]. unfold ev_ok. vm_compute. intuition discriminate.
  - vm_compute. lia.
Defined.
