(* ===== verification/LifeStates.v ===== *)
(** * The drive and charge lifecycle: the state timeline

    The state intervals of a vehicle (online, asleep, offline) tile its timeline: an
    interval ends exactly where the next one starts, and the next one says another
    state. *)
From S2P Require Import Prelude RustStr F64 Text External LifeData Geo LifeEnergy LifeCost LifeDrive LifeParse LifeSteps LifeApply LifeProject LifeInv LifeSafe LifeTotal LifeMarks LifeProps.
Local Open Scope string_scope.
Local Open Scope Z_scope.
Local Open Scope list_scope.

(** The rows of an interval that opens and of one that ends. *)
Definition opened_row (car_id : Z) (i : OpenState) : ProjectionState :=
  MkProjectionState (st_id i) car_id (st_state i) (st_start_date_ms i) None.
Definition ended_row (car_id : Z) (i : OpenState) (at_ms : Z) : ProjectionState :=
  MkProjectionState (st_id i) car_id (st_state i) (st_start_date_ms i) (Some at_ms).

(** [tiles car_id i rows i']: the rows lead from the open interval [i] to [i']. *)
Inductive tiles (car_id : Z) : option OpenState -> list ProjectionState -> option OpenState -> Prop :=
| tiles_still i : tiles car_id i [] i
| tiles_first i rows i' :
    tiles car_id (Some i) rows i' -> tiles car_id None (opened_row car_id i :: rows) i'
| tiles_next old new rows i' :
    st_state old <> st_state new -> st_start_date_ms old <= st_start_date_ms new ->
    tiles car_id (Some new) rows i' ->
    tiles car_id (Some old) (ended_row car_id old (st_start_date_ms new) :: opened_row car_id new :: rows) i'.

Lemma tiles_app car_id i r1 i1 r2 i2 : tiles car_id i r1 i1 -> tiles car_id i1 r2 i2 -> tiles car_id i (r1 ++ r2) i2.
Proof. induction 1; cbn; intros; [done|constructor; auto|constructor; auto]. Qed.

(** The open interval starts at or before the newest accepted observation. *)
Definition interval_seen (s : OpenSessionState) : Prop :=
  forall i, os_open_state s = Some i -> mark_le (Some (st_start_date_ms i)) (os_last_observed_at_ms s).

Lemma interval_seen_same s s' :
  os_open_state s' = os_open_state s -> os_last_observed_at_ms s' = os_last_observed_at_ms s -> interval_seen s -> interval_seen s'.
Proof. unfold interval_seen. by intros -> ->. Qed.

(** What one step of the projection writes. *)
Definition states_step (car_id : Z) (s : OpenSessionState) (s' : OpenSessionState) (rows : list ProjectionState) : Prop :=
  interval_seen s' /\ tiles car_id (os_open_state s) rows (os_open_state s').

(** The watermarks of the families are beside the interval. *)
Definition interval_part (s : OpenSessionState) := (os_open_state s, os_last_observed_at_ms s).

Lemma marks_interval o s :
  interval_part (motion_mark o s) = interval_part s /\ interval_part (position_mark o s) = interval_part s
  /\ interval_part (battery_mark o s) = interval_part s /\ interval_part (charge_mark o s) = interval_part s
  /\ interval_part (climate_mark o s) = interval_part s /\ interval_part (odometer_mark o s) = interval_part s
  /\ interval_part (status_mark o s) = interval_part s /\ interval_part (reach_mark o s) = interval_part s.
Proof.
  unfold motion_mark, position_mark, battery_mark, charge_mark, climate_mark, odometer_mark, status_mark, reach_mark.
  split_and!; by case_match.
Qed.

Lemma observed_interval o s s' : interval_part s = interval_part s' -> interval_part (observed_mark o s) = interval_part (observed_mark o s').
Proof. unfold observed_mark, interval_part. intros [= E1 E2]. case_match; cbn; congruence. Qed.

Lemma advance_interval o s : interval_part (advance_watermarks o s) = interval_part (observed_mark o s).
Proof.
  unfold advance_watermarks. cbv zeta. etrans; [apply marks_interval|]. apply observed_interval.
  do 7 (etrans; [apply marks_interval|]). done.
Qed.

(** The phase step on an observation whose reach was accepted no earlier than the newest
    one. *)
Lemma phase_states o s delta s' delta' :
  interval_seen s ->
  (is_some (ob_reach o) = true -> p_kind (ob_parsed o) <> HubEvent /\ mark_le (os_last_observed_at_ms s) (Some (t_obs o))) ->
  phase_step o (s, delta) = Ok (s', delta') ->
  exists rows, d_states delta' = d_states delta ++ rows
  /\ states_step (ob_car_id o) s (advance_watermarks o s') rows.
Proof.
  intros Hi Hr E. pose proof (advance_interval o s') as Ha. unfold interval_part in Ha.
  assert (Ho : os_open_state (advance_watermarks o s') = os_open_state s')
    by (unfold observed_mark in Ha; destruct (bool_decide _); cbn in Ha; congruence).
  assert (Hl : os_last_observed_at_ms (advance_watermarks o s') = os_last_observed_at_ms (observed_mark o s')) by congruence.
  clear Ha. unfold states_step. rewrite Ho.
  assert (Hsame : s'.(os_open_state) = os_open_state s -> os_last_observed_at_ms s' = os_last_observed_at_ms s ->
            interval_seen (advance_watermarks o s')).
  { intros E1 E2 i. rewrite Ho, Hl, E1. intros Hs. etrans; [by apply Hi|]. rewrite <- E2.
    unfold observed_mark. case_match; [done|]. cbn. apply opt_max_ge. }
  unfold phase_step in E. destruct (is_some (ob_reach o)) eqn:Er.
  2: { apply (inj Ok), pair_equal_spec in E as [<- <-]. exists []. rewrite app_nil_r. split; [done|].
       split; [by apply Hsame|constructor]. }
  specialize (Hr eq_refl) as [Hk Hm]. unfold update_state_interval in E.
  destruct (logical_state _) as [target|].
  2: { apply (inj Ok), pair_equal_spec in E as [<- <-]. exists []. rewrite app_nil_r. split; [done|].
       split; [by apply Hsame|constructor]. }
  cbn [os_open_state] in E. destruct (is_some_and _ _) eqn:Et.
  { apply (inj Ok), pair_equal_spec in E as [<- <-]. exists []. rewrite app_nil_r. split; [done|].
    split; [by apply Hsame|constructor]. }
  apply result_bind_Ok in E as (n & _ & E). apply (inj Ok), pair_equal_spec in E as [<- <-].
  eexists. split; [reflexivity|]. split.
  - intros i. rewrite Ho, Hl. cbn. intros [= <-]. unfold observed_mark. rewrite bool_decide_false by done.
    cbn. apply opt_max_time.
  - cbn. destruct (os_open_state s) as [old|] eqn:Es; cbn.
    + specialize (Hi _ Es). assert (Hle : st_start_date_ms old <= t_obs o).
      { destruct (os_last_observed_at_ms s); cbn in *; [lia|done]. }
      rewrite Z.max_l by done.
      eapply (tiles_next _ old (MkOpenState _ _ target (t_obs o)) []); [|done|constructor].
      cbn in Et |- *. rewrite Es in Et. by apply bool_decide_eq_false in Et.
    + eapply (tiles_first _ (MkOpenState _ _ target (t_obs o)) []). constructor.
Qed.

Lemma observe_reach s car_id gap text fresh p :
  let o := observe s car_id gap text fresh p in
  ob_parsed o = p /\ ob_car_id o = car_id /\ ob_reach o = accepted_reach s p text fresh.
Proof. unfold observe. cbv zeta. by destruct (resolve_conflicts _ _ _ _) as [[? ?] ?]. Qed.

Lemma accepted_not_older s p text fresh :
  is_some (accepted_reach s p text fresh) = true ->
  p_kind p <> HubEvent /\ mark_le (os_last_observed_at_ms s) (Some (p_observed_at_ms p)).
Proof.
  unfold accepted_reach. case_match eqn:Hk; [done|]. apply bool_decide_eq_false in Hk. cbv zeta.
  destruct (is_none_or _ _) eqn:Hn; [|done]. intros _. split; [done|].
  destruct (os_last_observed_at_ms s); cbn in *; [by apply Z.leb_le|done].
Qed.

Lemma project_states `{Libm} s car_id gap sample p step :
  interval_seen s -> project s car_id gap sample p = Ok step ->
  states_step car_id s (step_state step) (d_states (step_delta step)).
Proof.
  intros Hi. unfold project. destruct (carry_forward s p (fresh_families s p)) as [s2 p2] eqn:Ec.
  intros E. apply result_bind_Ok in E as ([s3 d3] & El & E). apply (inj Ok) in E as <-. cbn [step_state step_delta].
  destruct (observe_reach s2 car_id gap (ls_vehicle_state sample) (fresh_families s p) p2) as (Ho1 & Ho2 & Ho3).
  set (o := observe _ _ _ _ _ _) in *. clearbody o.
  apply before_phase_marks in El as ([s4 d4] & E4 & El). unfold still_of, marks_of in E4. cbn [fst snd d_states LifecycleDelta_default] in E4.
  assert (H2 : os_open_state s2 = os_open_state s /\ os_last_observed_at_ms s2 = os_last_observed_at_ms s)
    by (change s2 with ((s2, p2).1); rewrite <- Ec; done).
  assert (H4 : os_open_state s4 = os_open_state s /\ os_last_observed_at_ms s4 = os_last_observed_at_ms s /\ d_states d4 = [])
    by (destruct H2; split_and!; congruence).
  destruct H4 as (H4 & H5 & H6).
  eapply phase_states in El as (rows & Hd & Hs & Ht).
  - rewrite H6 in Hd. cbn in Hd. rewrite Hd. split; [by eapply interval_seen_same; [..|exact Hs]|].
    rewrite <- H4, <- Ho2. exact Ht.
  - by eapply interval_seen_same; [..|exact Hi].
  - rewrite Ho3. intros Hr%accepted_not_older. unfold t_obs. rewrite Ho1, H5. destruct H2 as [_ <-]. done.
Qed.

Lemma apply_sample_states `{Libm} s car_id sample timeout step :
  interval_seen s -> apply_sample_with_offline_drive_timeout s car_id sample timeout = Ok step ->
  states_step car_id s (step_state step) (d_states (step_delta step)).
Proof.
  intros Hi. unfold apply_sample_with_offline_drive_timeout. case_match; [done|].
  intros E. apply result_bind_Ok in E as (gap & _ & E). case_match.
  { apply (inj Ok) in E as <-. split; [done|constructor]. }
  pose proof (convert_seed_marks s) as Hm. unfold marks_of in Hm. set (s1 := convert_pending_seed s) in *. clearbody s1.
  assert (Ho : os_open_state s1 = os_open_state s) by congruence.
  assert (Hl : os_last_observed_at_ms s1 = os_last_observed_at_ms s) by congruence.
  assert (Hi1 : interval_seen s1) by by apply (interval_seen_same s).
  assert (Hcs : forall q, states_step car_id s (step_state (cursor_only (ls_observation_id sample) q s1)) []).
  { intros q. split; [by apply (interval_seen_same s1)|]. cbn. rewrite Ho. constructor. }
  destruct (parse_sample sample) as [p|e].
  2: { destruct e; try done. apply (inj Ok) in E as <-. apply Hcs. }
  case_match; [apply (inj Ok) in E as <-; apply Hcs|].
  apply project_states in E; [|done]. unfold states_step in *. by rewrite <- Ho.
Qed.

Lemma apply_samples_states `{Libm} l s car_id total q st :
  interval_seen s -> apply_samples_from s car_id l total q = Ok st ->
  exists rows, d_states (step_delta st) = d_states total ++ rows /\ states_step car_id s (step_state st) rows.
Proof.
  revert s total q. induction l as [|x l IH]; intros s total q Hi; simpl.
  - intros [= <-]. exists []. rewrite app_nil_r. split; [done|]. split; [done|constructor].
  - intros E. apply result_bind_Ok in E as (step & E1 & E). apply apply_sample_states in E1 as [Hi1 Ht1]; [|done].
    apply IH in E as (rows & Hd & Hi2 & Ht2); [|done].
    exists (d_states (step_delta step) ++ rows). cbn [d_states merge_step_delta] in Hd. rewrite <- app_assoc in Hd.
    split; [done|]. split; [done|]. by eapply tiles_app.
Qed.

Lemma reached_interval `{Libm} car_id s : Collected car_id s -> interval_seen s.
Proof.
  induction 1 as [|s sample timeout step _ IH E|s at_ms name step _ IH E|s used _ IH|s updates _ IH|s version known _ IH].
  - done.
  - by destruct (apply_sample_states _ _ _ _ _ IH E).
  - unfold apply_hub_event in E. apply result_bind_Ok in E as (id & _ & E).
    apply result_bind_Ok in E as (st & E1 & E). apply (inj Ok) in E as <-.
    apply apply_sample_states in E1 as [Hi _]; [|done]. by apply (interval_seen_same (step_state st)).
  - by apply (interval_seen_same s).
  - unfold seed_version_from_updates. case_match; [done|]. case_match; [done|]. by apply (interval_seen_same s).
  - unfold seed_version_from_car_row. repeat (case_match; try done); by apply (interval_seen_same s).
Qed.

(** C22: The state intervals of a vehicle tile its timeline: over any page of
    observations, in any order, the state rows lead from the interval open before to the
    one open after, each interval ends exactly where the next starts, no interval ends
    before its start, and two neighbours say different states. *)
Theorem page_states_tile `{Libm} (car_id : Z) (s : OpenSessionState) (samples : list LifecycleSample) (st : LifecycleStep)
    (Hs : Collected car_id s) (E : apply_samples s car_id samples = Ok st) :
  tiles car_id (os_open_state s) (d_states (step_delta st)) (os_open_state (step_state st)).
Proof.
  apply reached_interval in Hs. apply apply_samples_states in E as (rows & Hd & _ & Ht); [|done].
  by rewrite Hd.
Qed.

(** Online, then asleep, then online. *)
Definition ex_asleep : LifecycleSample :=
  MkLifecycleSample 2 (Zpos (ex_time + 60000)) "asleep" (JObject [("record_type", JString "owner_api_discovery_v1")]).
Definition ex_nap : list LifecycleSample :=
  [ex_sample 1 ex_time "P" 100; ex_asleep; ex_sample 3 (ex_time + 120000) "P" 100].
Definition ex_nap_step : LifecycleStep := ex_step (apply_samples (H := ex_libm) session_new 9 ex_nap).

Lemma page_states_tile_witness :
  map (fun r => (pst_state r, pst_start_date_ms r, pst_end_date_ms r)) (d_states (step_delta ex_nap_step))
    = [("online", 1700000000000, None); ("online", 1700000000000, Some 1700000060000);
       ("asleep", 1700000060000, None); ("asleep", 1700000060000, Some 1700000120000); ("online", 1700000120000, None)]
  /\ tiles 9 None (d_states (step_delta ex_nap_step)) (os_open_state (step_state ex_nap_step)).
Proof.
  split; [vm_compute; reflexivity|].
  apply (@page_states_tile ex_libm 9 session_new ex_nap ex_nap_step); [apply collected_new|vm_compute; reflexivity].
Defined.

(** A late observation: asleep, but driving before.  Its motion is fresh, so a drive
    opens under the phase asleep. *)
Example late_motion_opens_a_drive_asleep :
  let s := ex_state [ex_sample 1 ex_time "P" 100; ex_asleep; ex_sample 3 (ex_time + 50000) "D" 100] in
  os_phase s = VpAsleep /\ is_some (os_open_drive s) = true.
Proof. split; vm_compute; reflexivity. Qed.
