(* ===== verification/PublicQuery.v ===== *)
(** * The public history: its items

    The public shapes of a drive, a position, a charge and a charge sample, and their
    construction from the stored rows ([src/src/api/public_query.rs]). *)
From S2P Require Import Prelude RustStr F64 Bytes CursorKey AuthState External Text LifeData.
Local Open Scope string_scope.
Local Open Scope Z_scope.

(** The terrain lookup of a stored position ([db::PositionTerrainLookup]). *)
Record PositionTerrainLookup := MkPositionTerrainLookup {
  tl_dataset : option string;
  tl_dataset_version : option string;
  tl_tile : option string;
}.

Record PublicDrive := MkPublicDrive {
  ud_id : Z;
  ud_vehicle_id : Uuid;
  ud_start_date_ms : Z;
  ud_end_date_ms : Z;
  ud_distance_km : option f64;
  ud_duration_min : option Z;
  ud_efficiency : option f64;
  ud_outside_temp_avg : option f64;
  ud_inside_temp_avg : option f64;
  ud_speed_max : option Z;
  ud_power_max : option f64;
  ud_power_min : option f64;
  ud_start_ideal_range_km : option f64;
  ud_end_ideal_range_km : option f64;
  ud_start_address : option string;
  ud_end_address : option string;
  ud_start_geofence : option string;
  ud_end_geofence : option string;
  ud_start_latitude : option f64;
  ud_start_longitude : option f64;
  ud_end_latitude : option f64;
  ud_end_longitude : option f64;
  ud_start_soc : option Z;
  ud_end_soc : option Z;
  ud_start_rated_range_km : option f64;
  ud_end_rated_range_km : option f64;
  ud_ascent : option Z;
  ud_descent : option Z;
}.
Definition public_drive_from (vehicle_id : Uuid) (drive : ProjectionDrive) : PublicDrive :=
    MkPublicDrive (pd_id drive) vehicle_id (pd_start_date_ms drive) (pd_end_date_ms drive) (pd_distance_km
    drive) (pd_duration_min drive) (pd_efficiency drive) (pd_outside_temp_avg drive) (pd_inside_temp_avg
    drive) (pd_speed_max drive) (pd_power_max drive) (pd_power_min drive) (pd_start_ideal_range_km drive)
    (pd_end_ideal_range_km drive) (pd_start_address drive) (pd_end_address drive) (pd_start_geofence drive)
    (pd_end_geofence drive) (pd_start_latitude drive) (pd_start_longitude drive) (pd_end_latitude drive)
    (pd_end_longitude drive) (pd_start_soc drive) (pd_end_soc drive) (pd_start_rated_range_km drive)
    (pd_end_rated_range_km drive) (pd_ascent drive) (pd_descent drive).

Record PublicElevationProvenance := MkPublicElevationProvenance {
  ue_source : string;
  ue_dataset : option string;
  ue_dataset_version : option string;
  ue_tile : option string;
}.

Record PublicPosition := MkPublicPosition {
  ux_id : Z;
  ux_drive_id : Z;
  ux_date_ms : Z;
  ux_latitude : f64;
  ux_longitude : f64;
  ux_speed : option Z;
  ux_power : option f64;
  ux_battery_level : option Z;
  ux_usable_battery_level : option Z;
  ux_elevation : option Z;
  ux_odometer : option f64;
  ux_ideal_battery_range_km : option f64;
  ux_est_battery_range_km : option f64;
  ux_rated_battery_range_km : option f64;
  ux_inside_temp : option f64;
  ux_outside_temp : option f64;
  ux_is_climate_on : option bool;
  ux_fan_status : option Z;
  ux_driver_temp_setting : option f64;
  ux_passenger_temp_setting : option f64;
  ux_battery_heater : option bool;
  ux_battery_heater_on : option bool;
  ux_tpms_pressure_fl : option f64;
  ux_tpms_pressure_fr : option f64;
  ux_tpms_pressure_rl : option f64;
  ux_tpms_pressure_rr : option f64;
  ux_elevation_provenance : option PublicElevationProvenance;
}.
Definition public_position_from (drive_id : Z) (position : ProjectionPosition) (terrain : option PositionTerrainLookup)
    : PublicPosition :=
  let elevation_provenance :=
    (fun terrain => MkPublicElevationProvenance "terrain" (tl_dataset terrain) (tl_dataset_version terrain) (tl_tile terrain))
      <$> opt_filter (fun _ => is_some (pp_elevation position)) terrain in
    MkPublicPosition (pp_id position) drive_id (pp_date_ms position) (pp_latitude position) (pp_longitude
    position) (pp_speed position) (pp_power position) (pp_battery_level position) (pp_usable_battery_level
    position) (pp_elevation position) (pp_odometer position) (pp_ideal_battery_range_km position)
    (pp_est_battery_range_km position) (pp_rated_battery_range_km position) (pp_inside_temp position)
    (pp_outside_temp position) (pp_is_climate_on position) (pp_fan_status position) (pp_driver_temp_setting
    position) (pp_passenger_temp_setting position) (pp_battery_heater position) (pp_battery_heater_on
    position) (pp_tpms_pressure_fl position) (pp_tpms_pressure_fr position) (pp_tpms_pressure_rl position)
    (pp_tpms_pressure_rr position) elevation_provenance.

Record PublicCharge := MkPublicCharge {
  uc_id : Z;
  uc_vehicle_id : Uuid;
  uc_start_date_ms : Z;
  uc_end_date_ms : Z;
  uc_duration_min : option Z;
  uc_charge_energy_added : option f64;
  uc_charge_energy_used_kwh : option f64;
  uc_start_battery_level : option Z;
  uc_end_battery_level : option Z;
  uc_start_ideal_range_km : option f64;
  uc_end_ideal_range_km : option f64;
  uc_start_rated_range_km : option f64;
  uc_end_rated_range_km : option f64;
  uc_start_latitude : option f64;
  uc_start_longitude : option f64;
  uc_address : option string;
  uc_location_name : option string;
  uc_geofence : option string;
  uc_fast_charger_type : option string;
  uc_is_dc : option bool;
  uc_charge_rate_km_per_hour : option f64;
  uc_max_charger_power_kw : option f64;
  uc_outside_temp_avg : option f64;
  uc_cost : option f64;
  uc_billing_type : option GeofenceBillingType;
  uc_cost_per_unit : option f64;
  uc_session_fee : option f64;
}.
Definition public_charge_from (vehicle_id : Uuid) (charge : ProjectionCharge) : option PublicCharge :=
  end_date_ms ← pc_end_date_ms charge;
  Some (MkPublicCharge (pc_id charge) vehicle_id (pc_start_date_ms charge) end_date_ms (pc_duration_min charge)
    (pc_charge_energy_added charge) (pc_charge_energy_used_kwh charge) (pc_start_battery_level charge)
    (pc_end_battery_level charge) (pc_start_ideal_range_km charge) (pc_end_ideal_range_km charge)
    (pc_start_rated_range_km charge) (pc_end_rated_range_km charge) (pc_start_latitude charge)
    (pc_start_longitude charge) (pc_address charge) (pc_location_name charge) (pc_geofence charge)
    (pc_fast_charger_type charge) (pc_is_dc charge) (pc_charge_rate_km_per_hour charge)
    (pc_max_charger_power_kw charge) (pc_outside_temp_avg charge) (pc_cost charge) (pc_billing_type charge)
    (pc_cost_per_unit charge) (pc_session_fee charge)).

Record PublicChargeSample := MkPublicChargeSample {
  us_id : Z;
  us_charge_id : Z;
  us_timestamp_ms : Z;
  us_battery_level : option Z;
  us_usable_battery_level : option Z;
  us_charge_energy_added_kwh : option f64;
  us_charger_power_kw : option f64;
  us_charger_voltage : option f64;
  us_charger_actual_current : option f64;
  us_charger_pilot_current : option f64;
  us_charger_phases : option Z;
  us_ideal_range_km : option f64;
  us_rated_range_km : option f64;
  us_outside_temp_c : option f64;
  us_battery_heater_on : option bool;
  us_fast_charger_present : option bool;
  us_fast_charger_brand : option string;
  us_fast_charger_type : option string;
  us_charge_cable : option string;
}.
Definition public_charge_sample_from (sample : ProjectionChargeSample) : PublicChargeSample :=
    MkPublicChargeSample (ps_id sample) (ps_charge_process_id sample) (ps_timestamp_ms sample)
    (ps_battery_level sample) (ps_usable_battery_level sample) (ps_charge_energy_added_kwh sample)
    (ps_charger_power_kw sample) (ps_charger_voltage sample) (ps_charger_actual_current sample)
    (ps_charger_pilot_current sample) (ps_charger_phases sample) (ps_ideal_range_km sample)
    (ps_rated_range_km sample) (ps_outside_temp_c sample) (ps_battery_heater_on sample)
    (ps_fast_charger_present sample) (ps_fast_charger_brand sample) (ps_fast_charger_type sample)
    (ps_charge_cable sample).

(** The four items and their ordering keys (the [PageItem] implementations). *)
Inductive PublicItem :=
| ItemDrive (item : PublicDrive)
| ItemPosition (item : PublicPosition)
| ItemCharge (item : PublicCharge)
| ItemSample (item : PublicChargeSample).

Definition page_key (item : PublicItem) : Z * Z :=
  match item with
  | ItemDrive item => (ud_start_date_ms item, ud_id item)
  | ItemPosition item => (ux_date_ms item, ux_id item)
  | ItemCharge item => (uc_start_date_ms item, uc_id item)
  | ItemSample item => (us_timestamp_ms item, us_id item)
  end.

(** ** The public history: queries, cursors and pages

    [src/src/api/public_query.rs]: the page kinds and limits, the validated query, the
    cursor [tqp1] with the legacy drives cursor [tqd1], and the assembly of a page
    within the byte limit. *)

Local Open Scope list_scope.

(** ** Kinds and limits *)

Definition DEFAULT_DRIVE_PAGE_LIMIT : Z := 100.
Definition MAX_DRIVE_PAGE_LIMIT : Z := 500.
Definition DEFAULT_CHARGE_PAGE_LIMIT : Z := 100.
Definition MAX_CHARGE_PAGE_LIMIT : Z := 500.
Definition DEFAULT_POSITION_PAGE_LIMIT : Z := 1000.
Definition MAX_POSITION_PAGE_LIMIT : Z := 2048.
Definition DEFAULT_CHARGE_SAMPLE_PAGE_LIMIT : Z := 1000.
Definition MAX_CHARGE_SAMPLE_PAGE_LIMIT : Z := 2048.
Definition MAX_PUBLIC_PAGE_BYTES : Z := 1024 * 1024.

Definition PAGE_CURSOR_PREFIX : string := "tqp1".
Definition PAGE_CURSOR_VERSION : Z := 1.
Definition PAGE_CURSOR_PAYLOAD_BYTES : nat := 58.
Definition PAGE_CURSOR_TAG_BYTES : nat := 32.
Definition DRIVE_CURSOR_PREFIX : string := "tqd1".
Definition DRIVE_CURSOR_PAYLOAD_BYTES : nat := 49.
Definition DRIVE_CURSOR_TAG_BYTES : nat := 32.

Inductive PageKind := Drives | Charges | Positions | ChargeSamples.
#[export] Instance PageKind_eq_dec : EqDecision PageKind.
Proof. solve_decision. Defined.

Definition cursor_code (kind : PageKind) : Z :=
  match kind with Drives => 1 | Charges => 2 | Positions => 3 | ChargeSamples => 4 end.
Definition default_limit (kind : PageKind) : Z :=
  match kind with
  | Drives => DEFAULT_DRIVE_PAGE_LIMIT
  | Charges => DEFAULT_CHARGE_PAGE_LIMIT
  | Positions => DEFAULT_POSITION_PAGE_LIMIT
  | ChargeSamples => DEFAULT_CHARGE_SAMPLE_PAGE_LIMIT
  end.
Definition max_limit (kind : PageKind) : Z :=
  match kind with
  | Drives => MAX_DRIVE_PAGE_LIMIT
  | Charges => MAX_CHARGE_PAGE_LIMIT
  | Positions => MAX_POSITION_PAGE_LIMIT
  | ChargeSamples => MAX_CHARGE_SAMPLE_PAGE_LIMIT
  end.

(** ** Queries *)

Record PageQueryParameters := MkPageQueryParameters {
  qp_from_ms : option Z;
  qp_to_ms : option Z;
  qp_limit : option Z;
  qp_cursor : option string;
}.

Record PageQuery := MkPageQuery {
  pq_kind : PageKind;
  pq_vehicle_id : Uuid;
  pq_scope_id : Z;
  pq_from_ms : Z;
  pq_to_ms : Z;
  pq_limit : Z;
  pq_after : option (Z * Z);
}.
#[export] Instance eta_PageQuery : Eta PageQuery := fun r =>
  MkPageQuery (pq_kind r) (pq_vehicle_id r) (pq_scope_id r) (pq_from_ms r) (pq_to_ms r) (pq_limit r) (pq_after r).

Inductive PageQueryError := QeTimeRange | QeLimit | QeCursor.

(** ** Cursors *)

Definition i64_at (payload : string) (offset : nat) : result PageQueryError Z :=
  if (offset + 8 <=? String.length payload)%nat then Ok (i64_from_be (slice offset 8 payload)) else Err QeCursor.

Definition page_payload (q : PageQuery) (last : Z * Z) : string :=
  append (be_bytes 1 PAGE_CURSOR_VERSION) (append (be_bytes 1 (cursor_code (pq_kind q)))
    (append (uuid_bytes (pq_vehicle_id q)) (append (be_bytes 8 (pq_scope_id q))
      (append (be_bytes 8 (pq_from_ms q)) (append (be_bytes 8 (pq_to_ms q))
        (append (be_bytes 8 last.1) (be_bytes 8 last.2))))))).

Definition next_cursor `{Hex} `{Digest} (q : PageQuery) (cursor_key : CursorKey) (last : Z * Z) : string :=
  let payload := page_payload q last in
  cursor_text PAGE_CURSOR_PREFIX payload (public_query_cursor_tag cursor_key payload).

(** The last keys lie in the window of the query. *)
Definition last_key_ok (q : PageQuery) (last : Z * Z) : bool :=
  negb ((last.1 <? pq_from_ms q) || (pq_to_ms q <=? last.1) || (last.2 <=? 0)).

Definition decode_legacy_drive_cursor `{Hex} `{Digest} (q : PageQuery) (cursor_key : CursorKey) (cursor : string)
    : result PageQueryError (Z * Z) :=
  '(payload, tag) ← ok_or (split_cursor DRIVE_CURSOR_PAYLOAD_BYTES DRIVE_CURSOR_TAG_BYTES cursor DRIVE_CURSOR_PREFIX) QeCursor;
  if negb (verifies_public_query_cursor_tag cursor_key payload tag) || negb (byte_at 0 payload =? 1) then Err QeCursor
  else
    let vehicle_id := be_value 0 (slice 1 16 payload) in
    from_ms ← i64_at payload 17;
    to_ms ← i64_at payload 25;
    last_start_ms ← i64_at payload 33;
    last_drive_id ← i64_at payload 41;
    if negb (vehicle_id =? pq_vehicle_id q) || negb (from_ms =? pq_from_ms q) || negb (to_ms =? pq_to_ms q)
       || (last_start_ms <? from_ms) || (to_ms <=? last_start_ms) || (last_drive_id <=? 0)
    then Err QeCursor else Ok (last_start_ms, last_drive_id).

Definition decode_cursor `{Hex} `{Digest} (q : PageQuery) (cursor_key : CursorKey) (cursor : string)
    : result PageQueryError (Z * Z) :=
  if starts_with DRIVE_CURSOR_PREFIX cursor && bool_decide (pq_kind q = Drives) then
    decode_legacy_drive_cursor q cursor_key cursor
  else
    '(payload, tag) ← ok_or (split_cursor PAGE_CURSOR_PAYLOAD_BYTES PAGE_CURSOR_TAG_BYTES cursor PAGE_CURSOR_PREFIX) QeCursor;
    if negb (verifies_public_query_cursor_tag cursor_key payload tag) || negb (byte_at 0 payload =? PAGE_CURSOR_VERSION)
    then Err QeCursor
    else
      let vehicle_id := be_value 0 (slice 2 16 payload) in
      scope_id ← i64_at payload 18;
      from_ms ← i64_at payload 26;
      to_ms ← i64_at payload 34;
      last_key_a ← i64_at payload 42;
      last_key_b ← i64_at payload 50;
      if negb (byte_at 1 payload =? cursor_code (pq_kind q)) || negb (vehicle_id =? pq_vehicle_id q)
         || negb (scope_id =? pq_scope_id q) || negb (from_ms =? pq_from_ms q) || negb (to_ms =? pq_to_ms q)
         || (last_key_a <? from_ms) || (to_ms <=? last_key_a) || (last_key_b <=? 0)
      then Err QeCursor else Ok (last_key_a, last_key_b).

Definition parse_query `{Hex} `{Digest} (cursor_key : CursorKey) (kind : PageKind) (vehicle_id : Uuid) (scope_id : Z)
    (parameters : PageQueryParameters) : result PageQueryError PageQuery :=
  let from_ms := default 0 (qp_from_ms parameters) in
  let to_ms := default i64_max (qp_to_ms parameters) in
  if (from_ms <? 0) || (to_ms <? 0) || (to_ms <=? from_ms) then Err QeTimeRange
  else
    let limit := default (default_limit kind) (qp_limit parameters) in
    if (limit =? 0) || (max_limit kind <? limit) then Err QeLimit
    else
      let query := MkPageQuery kind vehicle_id scope_id from_ms to_ms limit None in
      match qp_cursor parameters with
      | None => Ok query
      | Some cursor => last ← decode_cursor query cursor_key cursor; mret (query <| pq_after := Some last |>)
      end.

(** ** The assembly of a page *)

Record PublicPage := MkPublicPage { pg_items : list PublicItem; pg_next_cursor : option string }.

(** [serde_json::to_vec]: the length of the text of an item and of a page. *)
Class PageJson := {
  item_bytes : PublicItem -> option Z;
  page_bytes : PublicPage -> option Z;
}.

(** The loop over the items from [index] on: the bytes of the rows, the number of items
    kept and the cursor after them. *)
Fixpoint fit_items `{PageJson} (next : Z * Z -> string) (fetched_has_more : bool) (index row_bytes : Z) (retained : nat)
    (cursor_after_retained : option string) (items : list PublicItem) : option (nat * option string) :=
  match items with
  | [] => Some (retained, cursor_after_retained)
  | item :: items =>
      bytes ← item_bytes item;
      let candidate_bytes := row_bytes + (if 0 <? index then 1 else 0) + bytes in
      let cursor := if fetched_has_more || negb (bool_decide (items = [])) then Some (next (page_key item)) else None in
      envelope_bytes ← page_bytes (MkPublicPage [] cursor);
      if MAX_PUBLIC_PAGE_BYTES <? candidate_bytes + envelope_bytes then Some (retained, cursor_after_retained)
      else fit_items next fetched_has_more (index + 1) candidate_bytes (S retained) cursor items
  end.

(** [Err] is a serialisation error, [Ok None] a first item over the cap. *)
Definition bounded_public_page `{PageJson} (items : list PublicItem) (fetched_has_more : bool) (next : Z * Z -> string)
    : result unit (option PublicPage) :=
  '(retained, cursor) ← ok_or (fit_items next fetched_has_more 0 0 0 None items) ();
  if bool_decide (retained = 0%nat) && negb (bool_decide (items = [])) then Ok None
  else Ok (Some (MkPublicPage (take retained items) cursor)).
