(* ===== verification/HistoryRoutes.v ===== *)
(** * The public history: the store's pages and the four routes

    The page reads of [src/src/storage/db/observations_and_lifecycle.rs] over a
    catalogue of rows, with the SQL text of [storage/db.rs] as a selection, an order and
    a limit, and the four page handlers of [src/src/api/server/history_routes.rs] after
    their access checks. *)
From S2P Require Import Prelude External AuthState LifeData CursorKey PublicQuery.
From stdpp Require Import sorting.
Local Open Scope string_scope.
Local Open Scope Z_scope.
Local Open Scope list_scope.

(** ** The catalogue *)

(** One row of a materialised table: its key columns and the row its JSON holds. The
    parent is 0 where the column is NULL, a value its check refuses. A drive's JSON always
    has its end ([ProjectionDrive] has no other form), so a drive the queries pass over for
    want of one is no row here. *)
Record StoredRow (A : Type) := MkStoredRow {
  sr_vehicle_id : Uuid;
  sr_id : Z;
  sr_parent_id : Z;
  sr_row : A;
}.
Arguments MkStoredRow {A}. Arguments sr_vehicle_id {A}. Arguments sr_id {A}. Arguments sr_parent_id {A}. Arguments sr_row {A}.

(** A position with the provenance its left join finds. *)
Record TerrainRow := MkTerrainRow { tr_status : string; tr_lookup : PositionTerrainLookup }.
Record PublicPositionRow := MkPublicPositionRow { pr_position : ProjectionPosition; pr_terrain : option PositionTerrainLookup }.

(** [cat_readable] says whether a read-only connection opens and its query runs. *)
Record Catalogue := MkCatalogue {
  cat_drives : list (StoredRow ProjectionDrive);
  cat_charges : list (StoredRow ProjectionCharge);
  cat_positions : list (StoredRow (ProjectionPosition * option TerrainRow));
  cat_samples : list (StoredRow ProjectionChargeSample);
  cat_readable : bool;
}.

(** The errors of [StoreError] these reads end in. *)
Inductive PageStoreError :=
| SeNilVehicleId | SeInvalidDriveId | SeInvalidChargeId
| SeInvalidDriveQueryRange | SeInvalidDriveQueryLimit (limit : Z) | SeInvalidDriveQueryCursor
| SeInvalidPublicPageQuery (what : string)
| SeInvalidDriveProjectionIdentity | SeInvalidPublicProjectionIdentity (what : string)
| SeQuery.

(** ** The selections *)

Definition key_ltb (a b : Z * Z) : bool := (a.1 <? b.1) || ((a.1 =? b.1) && (a.2 <? b.2)).
Definition key_le (a b : Z * Z) : Prop := key_ltb b a = false.
#[export] Instance key_le_dec a b : Decision (key_le a b).
Proof. unfold key_le. apply _. Defined.

(** [ORDER BY time, id] or both descending, and [LIMIT]. *)
Definition ascending {A} (key : A -> Z * Z) (x y : A) : Prop := key_le (key x) (key y).
Definition descending {A} (key : A -> Z * Z) (x y : A) : Prop := key_le (key y) (key x).
#[export] Instance ascending_dec {A} (key : A -> Z * Z) x y : Decision (ascending key x y).
Proof. unfold ascending. apply _. Defined.
#[export] Instance descending_dec {A} (key : A -> Z * Z) x y : Decision (descending key x y).
Proof. unfold descending. apply _. Defined.

Definition in_window (from_ms to_ms at_ms : Z) : bool := (from_ms <=? at_ms) && (at_ms <? to_ms).

Definition drive_key (r : StoredRow ProjectionDrive) : Z * Z := (pd_start_date_ms (sr_row r), sr_id r).
Definition charge_key (r : StoredRow ProjectionCharge) : Z * Z := (pc_start_date_ms (sr_row r), sr_id r).
Definition position_key (r : StoredRow (ProjectionPosition * option TerrainRow)) : Z * Z := (pp_date_ms (sr_row r).1, sr_id r).
Definition sample_row_key (r : StoredRow ProjectionChargeSample) : Z * Z := (ps_timestamp_ms (sr_row r), sr_id r).

Definition PUBLIC_DRIVES_PAGE_SQL (cat : Catalogue) (vehicle_id : Uuid) (from_ms to_ms : Z) (before : Z * Z) (limit : Z)
    : list (StoredRow ProjectionDrive) :=
  take (Z.to_nat limit) (merge_sort (descending drive_key)
    (filter (fun r => (sr_vehicle_id r =? vehicle_id) && in_window from_ms to_ms (drive_key r).1
                      && key_ltb (drive_key r) before) (cat_drives cat))).
Definition PUBLIC_CHARGES_PAGE_SQL (cat : Catalogue) (vehicle_id : Uuid) (from_ms to_ms : Z) (before : Z * Z) (limit : Z)
    : list (StoredRow ProjectionCharge) :=
  take (Z.to_nat limit) (merge_sort (descending charge_key)
    (filter (fun r => (sr_vehicle_id r =? vehicle_id) && is_some (pc_end_date_ms (sr_row r))
                      && in_window from_ms to_ms (charge_key r).1 && key_ltb (charge_key r) before) (cat_charges cat))).
Definition PUBLIC_POSITIONS_PAGE_SQL (cat : Catalogue) (vehicle_id : Uuid) (drive_id from_ms to_ms : Z) (after : Z * Z) (limit : Z)
    : list (StoredRow (ProjectionPosition * option TerrainRow)) :=
  take (Z.to_nat limit) (merge_sort (ascending position_key)
    (filter (fun r => (sr_vehicle_id r =? vehicle_id) && (sr_parent_id r =? drive_id)
                      && in_window from_ms to_ms (position_key r).1 && key_ltb after (position_key r)) (cat_positions cat))).
Definition PUBLIC_CHARGE_SAMPLES_PAGE_SQL (cat : Catalogue) (vehicle_id : Uuid) (charge_id from_ms to_ms : Z) (after : Z * Z)
    (limit : Z) : list (StoredRow ProjectionChargeSample) :=
  take (Z.to_nat limit) (merge_sort (ascending sample_row_key)
    (filter (fun r => (sr_vehicle_id r =? vehicle_id) && (sr_parent_id r =? charge_id)
                      && in_window from_ms to_ms (sample_row_key r).1 && key_ltb after (sample_row_key r)) (cat_samples cat))).

(** The rows a query gives, when it runs, each through the check of its identity. *)
Fixpoint read_rows {A B} (row : StoredRow A -> result PageStoreError B) (rows : list (StoredRow A)) : result PageStoreError (list B) :=
  match rows with
  | [] => Ok []
  | r :: rows => x ← row r; xs ← read_rows row rows; Ok (x :: xs)
  end.
Definition query_rows {A B} (cat : Catalogue) (row : StoredRow A -> result PageStoreError B) (rows : list (StoredRow A))
    : result PageStoreError (list B) :=
  if cat_readable cat then read_rows row rows else Err SeQuery.

(** ** The page reads *)

Definition cursor_outside (from_ms to_ms : Z) (cursor : option (Z * Z)) : bool :=
  is_some_and cursor (fun key => (key.1 <? from_ms) || (to_ms <=? key.1) || (key.2 <=? 0)).

Definition validate_public_page_arguments (from_ms to_ms : Z) (cursor : option (Z * Z)) (limit maximum_fetch : Z)
    (unbounded : Z * Z) : result PageStoreError (Z * Z) :=
  if (from_ms <? 0) || (to_ms <? 0) || (to_ms <=? from_ms) then Err (SeInvalidPublicPageQuery "time range")
  else if (limit =? 0) || (maximum_fetch <? limit) then Err (SeInvalidPublicPageQuery "limit")
  else if cursor_outside from_ms to_ms cursor then Err (SeInvalidPublicPageQuery "cursor")
  else Ok (default unbounded cursor).

Definition drive_row (r : StoredRow ProjectionDrive) : result PageStoreError ProjectionDrive :=
  if negb (pd_id (sr_row r) =? sr_id r) then Err SeInvalidDriveProjectionIdentity else Ok (sr_row r).
Definition charge_row (r : StoredRow ProjectionCharge) : result PageStoreError ProjectionCharge :=
  if negb (pc_id (sr_row r) =? sr_id r) then Err (SeInvalidPublicProjectionIdentity "charge") else Ok (sr_row r).
Definition position_row (drive_id : Z) (r : StoredRow (ProjectionPosition * option TerrainRow))
    : result PageStoreError PublicPositionRow :=
  let '(position, terrain) := sr_row r in
  if negb (pp_id position =? sr_id r) || negb (sr_parent_id r =? drive_id)
     || negb (bool_decide (pp_drive_id position = Some drive_id))
  then Err (SeInvalidPublicProjectionIdentity "position")
  else Ok (MkPublicPositionRow position
             (tr_lookup <$> opt_filter (fun t => bool_decide (tr_status t = "success")) terrain)).
Definition sample_row (charge_id : Z) (r : StoredRow ProjectionChargeSample) : result PageStoreError ProjectionChargeSample :=
  if negb (ps_id (sr_row r) =? sr_id r) || negb (sr_parent_id r =? charge_id)
     || negb (ps_charge_process_id (sr_row r) =? charge_id)
  then Err (SeInvalidPublicProjectionIdentity "charge sample") else Ok (sr_row r).

Definition materialised_drives_page (cat : Catalogue) (vehicle_id : Uuid) (from_ms to_ms : Z) (before : option (Z * Z)) (limit : Z)
    : result PageStoreError (list ProjectionDrive) :=
  let MAXIMUM_FETCH := 501 in
  if vehicle_id =? 0 then Err SeNilVehicleId
  else if (from_ms <? 0) || (to_ms <? 0) || (to_ms <=? from_ms) then Err SeInvalidDriveQueryRange
  else if (limit =? 0) || (MAXIMUM_FETCH <? limit) then Err (SeInvalidDriveQueryLimit limit)
  else if cursor_outside from_ms to_ms before then Err SeInvalidDriveQueryCursor
  else query_rows cat drive_row
         (PUBLIC_DRIVES_PAGE_SQL cat vehicle_id from_ms to_ms (default (i64_max, i64_max) before) limit).

Definition materialised_charges_page (cat : Catalogue) (vehicle_id : Uuid) (from_ms to_ms : Z) (before : option (Z * Z)) (limit : Z)
    : result PageStoreError (list ProjectionCharge) :=
  let MAXIMUM_FETCH := 501 in
  if vehicle_id =? 0 then Err SeNilVehicleId
  else
    before ← validate_public_page_arguments from_ms to_ms before limit MAXIMUM_FETCH (i64_max, i64_max);
    query_rows cat charge_row (PUBLIC_CHARGES_PAGE_SQL cat vehicle_id from_ms to_ms before limit).

Definition drive_positions_window_page (cat : Catalogue) (vehicle_id : Uuid) (drive_id from_ms to_ms : Z) (after : option (Z * Z))
    (limit : Z) : result PageStoreError (list PublicPositionRow) :=
  let MAXIMUM_FETCH := 2049 in
  if vehicle_id =? 0 then Err SeNilVehicleId
  else if drive_id <=? 0 then Err SeInvalidDriveId
  else
    after ← validate_public_page_arguments from_ms to_ms after limit MAXIMUM_FETCH (-1, 0);
    query_rows cat (position_row drive_id) (PUBLIC_POSITIONS_PAGE_SQL cat vehicle_id drive_id from_ms to_ms after limit).

Definition charge_samples_page (cat : Catalogue) (vehicle_id : Uuid) (charge_id from_ms to_ms : Z) (after : option (Z * Z))
    (limit : Z) : result PageStoreError (list ProjectionChargeSample) :=
  let MAXIMUM_FETCH := 2049 in
  if vehicle_id =? 0 then Err SeNilVehicleId
  else if charge_id <=? 0 then Err SeInvalidChargeId
  else
    after ← validate_public_page_arguments from_ms to_ms after limit MAXIMUM_FETCH (-1, 0);
    query_rows cat (sample_row charge_id) (PUBLIC_CHARGE_SAMPLES_PAGE_SQL cat vehicle_id charge_id from_ms to_ms after limit).

(** [PUBLIC_DRIVE_ITEM_SQL] and [PUBLIC_CHARGE_ITEM_SQL]: the row by its primary key. *)
Definition materialised_closed_drive_for_vehicle (cat : Catalogue) (vehicle_id : Uuid) (drive_id : Z)
    : result PageStoreError (option ProjectionDrive) :=
  if vehicle_id =? 0 then Err SeNilVehicleId
  else if drive_id <=? 0 then Err SeInvalidDriveId
  else if negb (cat_readable cat) then Err SeQuery
  else
    match find_first (fun r => (sr_vehicle_id r =? vehicle_id) && (sr_id r =? drive_id)) (cat_drives cat) with
    | None => Ok None
    | Some r => Some <$> drive_row r
    end.
Definition materialised_charge_for_vehicle (cat : Catalogue) (vehicle_id : Uuid) (charge_id : Z)
    : result PageStoreError (option ProjectionCharge) :=
  if vehicle_id =? 0 then Err SeNilVehicleId
  else if charge_id <=? 0 then Err SeInvalidChargeId
  else if negb (cat_readable cat) then Err SeQuery
  else
    match find_first (fun r => (sr_vehicle_id r =? vehicle_id) && (sr_id r =? charge_id)
                               && is_some (pc_end_date_ms (sr_row r))) (cat_charges cat) with
    | None => Ok None
    | Some r => Some <$> charge_row r
    end.

(** ** The handlers *)

Inductive HistoryResponse :=
| HrPage (page : PublicPage)
| HrItem (item : PublicItem)
| HrBadRequest (code : string)
| HrNotFound (code : string)
| HrUnavailable (oversize : bool).

Section Handlers.
Context `{Hex} `{Digest} `{PageJson}.

(** [None] is a query string that does not deserialise. *)
Definition parse_page_query (cursor_key : CursorKey) (kind : PageKind) (vehicle_id : Uuid) (scope_id : Z)
    (parameters : option PageQueryParameters) : result HistoryResponse PageQuery :=
  match parameters with
  | None => Err (HrBadRequest "invalid_query")
  | Some parameters =>
      match parse_query cursor_key kind vehicle_id scope_id parameters with
      | Ok query => Ok query
      | Err QeTimeRange => Err (HrBadRequest "invalid_time_range")
      | Err QeLimit => Err (HrBadRequest "invalid_limit")
      | Err QeCursor => Err (HrBadRequest "invalid_cursor")
      end
  end.

Definition lookahead_limit (query : PageQuery) : Z := pq_limit query + 1.
Definition trim_lookahead {A} (rows : list A) (query : PageQuery) : list A * bool :=
  let has_more := pq_limit query <? Z.of_nat (length rows) in
  (if has_more then take (Z.to_nat (pq_limit query)) rows else rows, has_more).

Definition serve_public_page (items : list PublicItem) (fetched_has_more : bool) (next : Z * Z -> string) : HistoryResponse :=
  match bounded_public_page items fetched_has_more next with
  | Ok (Some page) => if is_some (page_bytes page) then HrPage page else HrUnavailable false
  | Ok None => HrUnavailable true
  | Err _ => HrUnavailable false
  end.

(** What follows the read of the rows in each handler. *)
Definition serve_rows {A} (cursor_key : CursorKey) (query : PageQuery) (rows : result PageStoreError (list A))
    (items : list A -> option (list PublicItem)) : HistoryResponse :=
  match rows with
  | Err _ => HrUnavailable false
  | Ok rows =>
      let '(rows, has_more) := trim_lookahead rows query in
      match items rows with
      | None => HrUnavailable false
      | Some items => serve_public_page items has_more (next_cursor query cursor_key)
      end
  end.

Definition drives (cat : Catalogue) (cursor_key : CursorKey) (vehicle_id : Uuid) (parameters : option PageQueryParameters)
    : HistoryResponse :=
  match parse_page_query cursor_key Drives vehicle_id 0 parameters with
  | Err response => response
  | Ok query =>
      serve_rows cursor_key query
        (materialised_drives_page cat vehicle_id (pq_from_ms query) (pq_to_ms query) (pq_after query) (lookahead_limit query))
        (fun rows => Some (map (fun drive => ItemDrive (public_drive_from vehicle_id drive)) rows))
  end.

Definition charges (cat : Catalogue) (cursor_key : CursorKey) (vehicle_id : Uuid) (parameters : option PageQueryParameters)
    : HistoryResponse :=
  match parse_page_query cursor_key Charges vehicle_id 0 parameters with
  | Err response => response
  | Ok query =>
      serve_rows cursor_key query
        (materialised_charges_page cat vehicle_id (pq_from_ms query) (pq_to_ms query) (pq_after query) (lookahead_limit query))
        (mapM (fun charge => ItemCharge <$> public_charge_from vehicle_id charge))
  end.

(** The parent first: an unknown or unfinished session is not an empty page. *)
Definition drive_positions (cat : Catalogue) (cursor_key : CursorKey) (vehicle_id : Uuid) (drive_id : option Z)
    (parameters : option PageQueryParameters) : HistoryResponse :=
  match drive_id with
  | None => HrNotFound "drive_not_found"
  | Some drive_id =>
      match materialised_closed_drive_for_vehicle cat vehicle_id drive_id with
      | Err _ => HrUnavailable false
      | Ok None => HrNotFound "drive_not_found"
      | Ok (Some _) =>
          match parse_page_query cursor_key Positions vehicle_id drive_id parameters with
          | Err response => response
          | Ok query =>
              serve_rows cursor_key query
                (drive_positions_window_page cat vehicle_id drive_id (pq_from_ms query) (pq_to_ms query) (pq_after query)
                   (lookahead_limit query))
                (fun rows => Some (map (fun r => ItemPosition (public_position_from drive_id (pr_position r) (pr_terrain r))) rows))
          end
      end
  end.

Definition charge_samples (cat : Catalogue) (cursor_key : CursorKey) (vehicle_id : Uuid) (charge_id : option Z)
    (parameters : option PageQueryParameters) : HistoryResponse :=
  match charge_id with
  | None => HrNotFound "charge_not_found"
  | Some charge_id =>
      match materialised_charge_for_vehicle cat vehicle_id charge_id with
      | Err _ => HrUnavailable false
      | Ok None => HrNotFound "charge_not_found"
      | Ok (Some _) =>
          match parse_page_query cursor_key ChargeSamples vehicle_id charge_id parameters with
          | Err response => response
          | Ok query =>
              serve_rows cursor_key query
                (charge_samples_page cat vehicle_id charge_id (pq_from_ms query) (pq_to_ms query) (pq_after query)
                   (lookahead_limit query))
                (fun rows => Some (map (fun sample => ItemSample (public_charge_sample_from sample)) rows))
          end
      end
  end.

(** The two item routes. *)
Definition public_item_response (item : PublicItem) : HistoryResponse :=
  match item_bytes item with
  | None => HrUnavailable false
  | Some bytes => if MAX_PUBLIC_PAGE_BYTES <? bytes then HrUnavailable true else HrItem item
  end.

Definition drive (cat : Catalogue) (vehicle_id : Uuid) (drive_id : option Z) : HistoryResponse :=
  match drive_id with
  | None => HrNotFound "drive_not_found"
  | Some drive_id =>
      match materialised_closed_drive_for_vehicle cat vehicle_id drive_id with
      | Ok (Some drive) => public_item_response (ItemDrive (public_drive_from vehicle_id drive))
      | Ok None => HrNotFound "drive_not_found"
      | Err _ => HrUnavailable false
      end
  end.
Definition charge (cat : Catalogue) (vehicle_id : Uuid) (charge_id : option Z) : HistoryResponse :=
  match charge_id with
  | None => HrNotFound "charge_not_found"
  | Some charge_id =>
      match materialised_charge_for_vehicle cat vehicle_id charge_id with
      | Ok (Some charge) =>
          match public_charge_from vehicle_id charge with
          | Some item => public_item_response (ItemCharge item)
          | None => HrUnavailable false
          end
      | Ok None => HrNotFound "charge_not_found"
      | Err _ => HrUnavailable false
      end
  end.
End Handlers.
