(* ===== verification/PublicCursor.v ===== *)
(** * The public history: what a cursor is accepted for

    A text is accepted for a query exactly when it is the text the Hub issues for that
    query and those last keys, which lie in the query's window. *)
From S2P Require Import Prelude RustStr External AuthState Text Bytes CursorKey PublicQuery.
Local Open Scope string_scope.
Local Open Scope Z_scope.

(** ** The layout of the payload *)

(** The fields a payload of 58 bytes holds. *)
Record PayloadFields := MkPayloadFields {
  pf_version : Z; pf_kind : Z; pf_vehicle : Z; pf_scope : Z; pf_from : Z; pf_to : Z; pf_a : Z; pf_b : Z
}.
Definition payload_fields (p : string) : PayloadFields :=
  MkPayloadFields (byte_at 0 p) (byte_at 1 p) (be_value 0 (slice 2 16 p)) (i64_from_be (slice 18 8 p))
    (i64_from_be (slice 26 8 p)) (i64_from_be (slice 34 8 p)) (i64_from_be (slice 42 8 p)) (i64_from_be (slice 50 8 p)).
Definition fields_payload (f : PayloadFields) : string :=
  append (be_bytes 1 (pf_version f)) (append (be_bytes 1 (pf_kind f)) (append (be_bytes 16 (pf_vehicle f))
    (append (be_bytes 8 (pf_scope f)) (append (be_bytes 8 (pf_from f)) (append (be_bytes 8 (pf_to f))
      (append (be_bytes 8 (pf_a f)) (be_bytes 8 (pf_b f)))))))).
Definition fields_ok (f : PayloadFields) : Prop :=
  0 <= pf_version f < 256 /\ 0 <= pf_kind f < 256 /\ 0 <= pf_vehicle f < 2 ^ 128
  /\ in_i64 (pf_scope f) /\ in_i64 (pf_from f) /\ in_i64 (pf_to f) /\ in_i64 (pf_a f) /\ in_i64 (pf_b f).

Lemma fields_payload_length f : String.length (fields_payload f) = 58%nat.
Proof. unfold fields_payload. rewrite !append_length, !be_bytes_length. done. Qed.

Lemma layout_slices a b c d e f g h :
  String.length a = 1%nat -> String.length b = 1%nat -> String.length c = 16%nat -> String.length d = 8%nat ->
  String.length e = 8%nat -> String.length f = 8%nat -> String.length g = 8%nat -> String.length h = 8%nat ->
  let p := append a (append b (append c (append d (append e (append f (append g h)))))) in
  slice 0 1 p = a /\ slice 1 1 p = b /\ slice 2 16 p = c /\ slice 18 8 p = d /\ slice 26 8 p = e /\ slice 34 8 p = f
  /\ slice 42 8 p = g /\ slice 50 8 p = h.
Proof. intros. explode a. explode b. explode c. explode d. explode e. explode f. explode g. explode h. by repeat split. Qed.

Lemma layout_append p : String.length p = 58%nat ->
  append (slice 0 1 p) (append (slice 1 1 p) (append (slice 2 16 p) (append (slice 18 8 p) (append (slice 26 8 p)
    (append (slice 34 8 p) (append (slice 42 8 p) (slice 50 8 p))))))) = p.
Proof. intros. explode p. reflexivity. Qed.

Lemma payload_fields_of f : fields_ok f -> payload_fields (fields_payload f) = f.
Proof.
  intros (H1 & H2 & H3 & H4 & H5 & H6 & H7 & H8). unfold payload_fields, fields_payload, byte_at.
  destruct (layout_slices (be_bytes 1 (pf_version f)) (be_bytes 1 (pf_kind f)) (be_bytes 16 (pf_vehicle f)) (be_bytes 8 (pf_scope f))
    (be_bytes 8 (pf_from f)) (be_bytes 8 (pf_to f)) (be_bytes 8 (pf_a f)) (be_bytes 8 (pf_b f)))
    as (-> & -> & -> & -> & -> & -> & -> & ->); try by apply be_bytes_length.
  rewrite !i64_from_be_bytes by done. rewrite !be_value_one by (cbn; lia). by destruct f.
Qed.

Lemma fields_payload_of p : String.length p = 58%nat -> fields_payload (payload_fields p) = p.
Proof.
  intros Hl. unfold fields_payload, payload_fields, byte_at.
  cbn [pf_version pf_kind pf_vehicle pf_scope pf_from pf_to pf_a pf_b].
  rewrite !be_bytes_value, !be_bytes_i64_from by (apply slice_length; lia). by apply layout_append.
Qed.

(** A legacy payload of 49 bytes: no kind and no scope. *)
Definition legacy_payload (q : PageQuery) (last : Z * Z) : string :=
  append (be_bytes 1 1) (append (uuid_bytes (pq_vehicle_id q)) (append (be_bytes 8 (pq_from_ms q))
    (append (be_bytes 8 (pq_to_ms q)) (append (be_bytes 8 last.1) (be_bytes 8 last.2))))).
Definition legacy_cursor `{Hex} `{Digest} (q : PageQuery) (cursor_key : CursorKey) (last : Z * Z) : string :=
  cursor_text DRIVE_CURSOR_PREFIX (legacy_payload q last) (public_query_cursor_tag cursor_key (legacy_payload q last)).

Lemma legacy_slices a b c d e f :
  String.length a = 1%nat -> String.length b = 16%nat -> String.length c = 8%nat -> String.length d = 8%nat ->
  String.length e = 8%nat -> String.length f = 8%nat ->
  let p := append a (append b (append c (append d (append e f)))) in
  slice 0 1 p = a /\ slice 1 16 p = b /\ slice 17 8 p = c /\ slice 25 8 p = d /\ slice 33 8 p = e /\ slice 41 8 p = f.
Proof. intros. explode a. explode b. explode c. explode d. explode e. explode f. by repeat split. Qed.
Lemma legacy_append p : String.length p = 49%nat ->
  append (slice 0 1 p) (append (slice 1 16 p) (append (slice 17 8 p) (append (slice 25 8 p) (append (slice 33 8 p)
    (slice 41 8 p))))) = p.
Proof. intros. explode p. reflexivity. Qed.


Definition legacy_fields_payload (v veh from to a b : Z) : string :=
  append (be_bytes 1 v) (append (be_bytes 16 veh) (append (be_bytes 8 from) (append (be_bytes 8 to)
    (append (be_bytes 8 a) (be_bytes 8 b))))).

(** The legacy fields read from a payload and the payload of those fields. *)
Lemma legacy_fields_of v veh from to a b :
  0 <= v < 256 -> 0 <= veh < 2 ^ 128 -> in_i64 from -> in_i64 to -> in_i64 a -> in_i64 b ->
  let p := legacy_fields_payload v veh from to a b in
  byte_at 0 p = v /\ be_value 0 (slice 1 16 p) = veh /\ i64_from_be (slice 17 8 p) = from /\ i64_from_be (slice 25 8 p) = to
  /\ i64_from_be (slice 33 8 p) = a /\ i64_from_be (slice 41 8 p) = b.
Proof.
  intros Hv Hveh Hf Ht Ha Hb. unfold legacy_fields_payload, byte_at.
  destruct (legacy_slices (be_bytes 1 v) (be_bytes 16 veh) (be_bytes 8 from) (be_bytes 8 to) (be_bytes 8 a) (be_bytes 8 b))
    as (-> & -> & -> & -> & -> & ->); try by apply be_bytes_length.
  rewrite !i64_from_be_bytes by done. rewrite !be_value_one by (cbn; lia). done.
Qed.
Lemma legacy_payload_of p : String.length p = 49%nat ->
  legacy_fields_payload (byte_at 0 p) (be_value 0 (slice 1 16 p)) (i64_from_be (slice 17 8 p)) (i64_from_be (slice 25 8 p))
    (i64_from_be (slice 33 8 p)) (i64_from_be (slice 41 8 p)) = p.
Proof.
  intros Hl. unfold legacy_fields_payload, byte_at.
  rewrite !be_bytes_value, !be_bytes_i64_from by (apply slice_length; lia). by apply legacy_append.
Qed.

(** ** What is accepted *)

Lemma last_key_ok_spec q k :
  last_key_ok q k = true <-> (k.1 <? pq_from_ms q) = false /\ (pq_to_ms q <=? k.1) = false /\ (k.2 <=? 0) = false.
Proof. unfold last_key_ok. rewrite negb_true_iff, !orb_false_iff. tauto. Qed.

(** The integers of a query and of the last keys lie in their types. *)
Definition query_typed (q : PageQuery) : Prop :=
  0 <= pq_vehicle_id q < 2 ^ 128 /\ in_i64 (pq_scope_id q) /\ in_i64 (pq_from_ms q) /\ in_i64 (pq_to_ms q).
Definition key_typed (k : Z * Z) : Prop := in_i64 k.1 /\ in_i64 k.2.

Definition query_fields (q : PageQuery) (k : Z * Z) : PayloadFields :=
  MkPayloadFields PAGE_CURSOR_VERSION (cursor_code (pq_kind q)) (pq_vehicle_id q) (pq_scope_id q) (pq_from_ms q) (pq_to_ms q) k.1 k.2.
Lemma query_fields_ok q k : query_typed q -> key_typed k -> fields_ok (query_fields q k).
Proof.
  intros (Hv & Hs & Hf & Ht) [Ha Hb]. repeat split; cbn -[in_i64]; try done; try lia;
    try apply Hs; try apply Hf; try apply Ht; try apply Ha; try apply Hb; destruct (pq_kind q); cbn; lia.
Qed.

Section Accepted.
Context `{HexLaws} `{Digest}.
Hypothesis sha256_len : forall s, String.length (sha256 s) = 32%nat.

Lemma tag_length key p : String.length (public_query_cursor_tag key p) = 32%nat.
Proof. apply sha256_len. Qed.

Lemma verifies_iff key p tag : verifies_public_query_cursor_tag key p tag = true <-> tag = public_query_cursor_tag key p.
Proof. unfold verifies_public_query_cursor_tag. rewrite constant_time_eq_true. split; congruence. Qed.

Lemma i64_at_some p o : (o + 8 <= String.length p)%nat -> i64_at p o = Ok (i64_from_be (slice o 8 p)).
Proof. intros Ho. unfold i64_at. by rewrite (proj2 (Nat.leb_le _ _) Ho). Qed.

Lemma split_cursor_text prefix pl payload key :
  str_contains "." prefix = false -> String.length payload = pl ->
  split_cursor pl 32 (cursor_text prefix payload (public_query_cursor_tag key payload)) prefix
  = Some (payload, public_query_cursor_tag key payload).
Proof. intros Hp Hl. apply split_cursor_spec; [done|]. split; [done|]. split; [done|apply tag_length]. Qed.

Lemma decode_page_spec q key cursor k :
  query_typed q -> starts_with DRIVE_CURSOR_PREFIX cursor && bool_decide (pq_kind q = Drives) = false ->
  decode_cursor q key cursor = Ok k <-> last_key_ok q k = true /\ key_typed k /\ cursor = next_cursor q key k.
Proof.
  intros Hq Hno. unfold decode_cursor. rewrite Hno. split.
  - destruct (split_cursor _ _ cursor PAGE_CURSOR_PREFIX) as [[payload tag]|] eqn:Es; [|done].
    apply split_cursor_spec in Es as (-> & Hp & Ht); [|done]. cbn [ok_or mbind result_bind].
    destruct (negb _ || _) eqn:Hv; [done|]. apply orb_false_iff in Hv as [Hv%negb_false_iff Hver%negb_false_iff].
    apply verifies_iff in Hv as ->. unfold PAGE_CURSOR_PAYLOAD_BYTES in Hp.
    rewrite !i64_at_some by (rewrite Hp; lia). cbn [mbind result_bind].
    destruct (_ || _) eqn:Hf; [done|]. intros E. injection E as <-.
    rewrite !orb_false_iff, !negb_false_iff, !Z.eqb_eq in Hf. destruct Hf as (((((((Hk & Hveh) & Hs) & Hfr) & Hto) & Ha) & Hb) & Hc).
    apply Z.eqb_eq in Hver. rewrite Hfr in Ha. rewrite Hto in Hb.
    split; [by apply last_key_ok_spec|]. split; [split; apply i64_from_be_range|].
    assert (payload = page_payload q (i64_from_be (slice 42 8 payload), i64_from_be (slice 50 8 payload))) as E.
    { rewrite <- (fields_payload_of payload Hp) at 1. unfold fields_payload, page_payload, payload_fields, uuid_bytes.
      cbn [pf_version pf_kind pf_vehicle pf_scope pf_from pf_to pf_a pf_b fst snd]. congruence. }
    unfold next_cursor. by rewrite <- E.
  - intros (Hk & Ht & ->). pose proof (query_fields_ok q k Hq Ht) as Hok.
    unfold next_cursor. rewrite split_cursor_text; [|done|apply (fields_payload_length (query_fields q k))].
    cbn [ok_or mbind result_bind]. rewrite (proj2 (verifies_iff _ _ _) eq_refl).
    change (page_payload q k) with (fields_payload (query_fields q k)).
    pose proof (payload_fields_of _ Hok) as E. pose proof (fields_payload_length (query_fields q k)) as Hl.
    revert E Hl. generalize (fields_payload (query_fields q k)). intros p E Hl.
    unfold payload_fields, query_fields in E. injection E as E1 E2 E3 E4 E5 E6 E7 E8.
    rewrite !i64_at_some by lia. cbn [mbind result_bind negb orb].
    rewrite E1, E2, E3, E4, E5, E6, E7, E8, !Z.eqb_refl. cbn [negb orb].
    apply last_key_ok_spec in Hk as (-> & -> & ->). cbn. by destruct k.
Qed.

Lemma decode_legacy_spec q key cursor k :
  query_typed q ->
  decode_legacy_drive_cursor q key cursor = Ok k <-> last_key_ok q k = true /\ key_typed k /\ cursor = legacy_cursor q key k.
Proof.
  intros Hq. unfold decode_legacy_drive_cursor. split.
  - destruct (split_cursor _ _ cursor DRIVE_CURSOR_PREFIX) as [[payload tag]|] eqn:Es; [|done].
    apply split_cursor_spec in Es as (-> & Hp & Ht); [|done]. cbn [ok_or mbind result_bind].
    destruct (negb _ || _) eqn:Hv; [done|]. apply orb_false_iff in Hv as [Hv%negb_false_iff Hver%negb_false_iff].
    apply verifies_iff in Hv as ->. unfold DRIVE_CURSOR_PAYLOAD_BYTES in Hp.
    rewrite !i64_at_some by (rewrite Hp; lia). cbn [mbind result_bind].
    destruct (_ || _) eqn:Hf; [done|]. intros E. injection E as <-.
    rewrite !orb_false_iff, !negb_false_iff, !Z.eqb_eq in Hf. destruct Hf as (((((Hveh & Hfr) & Hto) & Ha) & Hb) & Hc).
    apply Z.eqb_eq in Hver. rewrite Hfr in Ha. rewrite Hto in Hb.
    split; [by apply last_key_ok_spec|]. split; [split; apply i64_from_be_range|].
    assert (payload = legacy_payload q (i64_from_be (slice 33 8 payload), i64_from_be (slice 41 8 payload))) as E.
    { rewrite <- (legacy_payload_of payload Hp) at 1. unfold legacy_payload, legacy_fields_payload, uuid_bytes. cbn [fst snd]. congruence. }
    unfold legacy_cursor. by rewrite <- E.
  - intros (Hk & [Ha Hb] & ->). destruct Hq as (Hveh & _ & Hfr & Hto). unfold legacy_cursor.
    assert (Hl : String.length (legacy_payload q k) = 49%nat).
    { unfold legacy_payload, uuid_bytes. rewrite !append_length, !be_bytes_length. done. }
    rewrite split_cursor_text by done.
    cbn [ok_or mbind result_bind]. rewrite (proj2 (verifies_iff _ _ _) eq_refl).
    destruct (legacy_fields_of 1 (pq_vehicle_id q) (pq_from_ms q) (pq_to_ms q) k.1 k.2 ltac:(lia) Hveh Hfr Hto Ha Hb)
      as (E1 & E2 & E3 & E4 & E5 & E6). change (legacy_fields_payload _ _ _ _ _ _) with (legacy_payload q k) in *.
    rewrite !i64_at_some by (rewrite Hl; lia). cbn [mbind result_bind negb orb].
    rewrite E1, E2, E3, E4, E5, E6, !Z.eqb_refl. cbn [negb orb].
    apply last_key_ok_spec in Hk as (-> & -> & ->). cbn. by destruct k.
Qed.

(** C33: A cursor is accepted for a query exactly when it is the text the Hub issues for that
    kind, vehicle, parent, window and last keys under its key, or, on the drives route
    alone, the text an earlier release issued, and the last keys lie in the window. A
    text for another route, vehicle, parent or window, a tag that is not the key's, a
    padded or upper-case text and a key outside the window are all refused. *)
Theorem page_cursor_accepted_exactly q key cursor k :
  query_typed q ->
  decode_cursor q key cursor = Ok k
  <-> last_key_ok q k = true /\ key_typed k
      /\ (cursor = next_cursor q key k \/ (pq_kind q = Drives /\ cursor = legacy_cursor q key k)).
Proof.
  intros Hq. destruct (starts_with DRIVE_CURSOR_PREFIX cursor && bool_decide (pq_kind q = Drives)) eqn:Hl.
  - pose proof Hl as E. apply andb_true_iff in Hl as [Hp Hk%bool_decide_eq_true].
    unfold decode_cursor. rewrite E, decode_legacy_spec by done. split.
    + intros (? & ? & ->). eauto.
    + intros (? & ? & [->|[_ ->]]); [discriminate Hp|done].
  - rewrite decode_page_spec by done. split.
    + intros (? & ? & ->). eauto.
    + intros (? & ? & [->|[Hk ->]]); [done|]. rewrite bool_decide_true in Hl by done. discriminate Hl.
Qed.
End Accepted.

(** ** An instance: a digest of thirty-two bytes *)

Definition sample_digest : Digest := {| sha256 s := be_bytes 32 (be_value 7 s * 65599) |}.
Definition sample_query : PageQuery :=
  MkPageQuery Positions 22685491128062564230891640495451214097 72623859790382856 10 1000 1 None.
Definition sample_key : CursorKey := be_bytes 32 12345.

Lemma page_cursor_accepted_exactly_witness :
  let H := ascii_hex in let D := sample_digest in
  decode_cursor sample_query sample_key (next_cursor sample_query sample_key (500, 77)) = Ok (500, 77)
  /\ decode_cursor sample_query sample_key (next_cursor sample_query sample_key (500, 77)) <> Ok (501, 77).
Proof.
  intros H D. assert (Hq : query_typed sample_query) by (cbv; repeat split; congruence).
  assert (Hl : forall s, String.length (@sha256 D s) = 32%nat) by (intros; apply be_bytes_length).
  pose proof (fun c k => @page_cursor_accepted_exactly H ascii_hex_laws D Hl sample_query sample_key c k Hq) as T. split.
  - apply T. split; [reflexivity|]. split; [cbv; repeat split; congruence|]. by left.
  - rewrite T. intros (_ & _ & [E|[E _]]); [|discriminate E]. revert E. vm_compute. discriminate.
Defined.
