(* ===== verification/PublicHistory.v ===== *)
(** * The public history: what the pages hold

    A page is a prefix of the rows asked for within the byte limit, its cursor stands
    after its last row, and a client that follows the cursors of a route from the first
    page sees every row of the window exactly once, in the route's order. *)
From S2P Require Import Prelude F64 Bytes CursorKey AuthState External LifeData PublicQuery HistoryRoutes PublicCursor.
From stdpp Require Import sorting.
Local Open Scope string_scope.
Local Open Scope Z_scope.
Local Open Scope list_scope.

(** ** The assembly of a page *)

Definition bytes_total (bytes : list Z) : Z := foldr Z.add 0 bytes.
(** The commas between [n] rows. *)
Definition commas (n : nat) : Z := Z.of_nat (n - 1).

(** What compact JSON is: the rows and their commas on top of the empty page. *)
Class PageJsonLaws `{PageJson} := {
  page_bytes_rows items cursor :
    page_bytes (MkPublicPage items cursor)
    = (e ← page_bytes (MkPublicPage [] cursor); bs ← mapM item_bytes items; Some (e + (bytes_total bs + commas (length items))));
  empty_page_fits : exists b, page_bytes (MkPublicPage [] None) = Some b /\ b <= MAX_PUBLIC_PAGE_BYTES;
}.

Definition page_fits `{PageJson} (page : PublicPage) : Prop :=
  exists b, page_bytes page = Some b /\ b <= MAX_PUBLIC_PAGE_BYTES.
(** An item that fits a page of its own, with or without a cursor after it. *)
Definition item_fits `{PageJson} (next : Z * Z -> string) (item : PublicItem) : Prop :=
  exists b, item_bytes item = Some b
  /\ forall c, c = None \/ c = Some (next (page_key item)) ->
       exists e, page_bytes (MkPublicPage [] c) = Some e /\ b + e <= MAX_PUBLIC_PAGE_BYTES.
(** The cursor of a page whose last row is [item]. *)
Definition cursor_after (next : Z * Z -> string) (more : bool) (item : PublicItem) : option string :=
  if more then Some (next (page_key item)) else None.

Lemma bytes_total_app xs ys : bytes_total (xs ++ ys) = bytes_total xs + bytes_total ys.
Proof. unfold bytes_total. induction xs as [|x xs IH]; cbn [app foldr]; lia. Qed.

Lemma mapM_app_one {A B} (f : A -> option B) xs x ys y :
  mapM f xs = Some ys -> f x = Some y -> mapM f (xs ++ [x]) = Some (ys ++ [y]).
Proof.
  intros Hx Hy. apply mapM_Some. apply mapM_Some in Hx. apply Forall2_app; [done|]. by constructor.
Qed.

Section Assembly.
Context `{PageJsonLaws} (next : Z * Z -> string) (more : bool).

Lemma fit_items_spec items : forall pre bs rows cursor n c,
  mapM item_bytes pre = Some bs -> rows = bytes_total bs + commas (length pre) ->
  fit_items next more (Z.of_nat (length pre)) rows (length pre) cursor items = Some (n, c) ->
  (n = length pre /\ c = cursor)
  \/ exists kept item, take n (pre ++ items) = kept ++ [item] /\ n = S (length kept) /\ (n <= length (pre ++ items))%nat
     /\ c = cursor_after next (more || bool_decide (n < length (pre ++ items))%nat) item
     /\ page_fits (MkPublicPage (kept ++ [item]) c).
Proof.
  induction items as [|item items IH]; intros pre bs rows cursor n c Hpre Hrows; cbn [fit_items].
  { intros [= <- <-]. by left. }
  intros (b & Hb & (e & He & E)%bind_Some)%bind_Some.
  destruct (Z.ltb_spec MAX_PUBLIC_PAGE_BYTES (rows + (if 0 <? Z.of_nat (length pre) then 1 else 0) + b + e)) as [|Hfit].
  { injection E as <- <-. by left. }
  right.
  assert (Hone : mapM item_bytes (pre ++ [item]) = Some (bs ++ [b])) by by apply mapM_app_one.
  assert (Hsum : rows + (if 0 <? Z.of_nat (length pre) then 1 else 0) + b = bytes_total (bs ++ [b]) + commas (length (pre ++ [item]))).
  { rewrite bytes_total_app, length_app. cbn [bytes_total foldr length]. unfold commas in *. destruct (Z.ltb_spec 0 (Z.of_nat (length pre))); lia. }
  assert (Hcur : (if more || negb (bool_decide (items = [])) then Some (next (page_key item)) else None)
    = cursor_after next (more || bool_decide (length (pre ++ [item]) < length (pre ++ item :: items))%nat) item).
  { unfold cursor_after. rewrite !length_app. cbn [length]. destruct items; repeat case_bool_decide; cbn [length] in *; try done; lia. }
  assert (Hfits : page_fits (MkPublicPage (pre ++ [item]) (if more || negb (bool_decide (items = [])) then Some (next (page_key item)) else None))).
  { eexists. rewrite page_bytes_rows, He, Hone. cbn [mbind option_bind]. split; [reflexivity|]. lia. }
  replace (Z.of_nat (length pre) + 1) with (Z.of_nat (length (pre ++ [item]))) in E by (rewrite length_app; cbn; lia).
  replace (S (length pre)) with (length (pre ++ [item])) in E by (rewrite length_app; cbn; lia).
  assert (Happ : (pre ++ [item]) ++ items = pre ++ item :: items) by by rewrite <- app_assoc.
  destruct (IH _ _ _ _ _ _ Hone Hsum E) as [[-> ->]|(kept & last & Hk & Hn & Hle & Hc & Hp)].
  - exists pre, item. rewrite <- Happ, take_app_length. split; [done|]. rewrite Happ. split; [rewrite length_app; cbn; lia|].
    split; [rewrite !length_app; cbn; lia|]. split; [apply Hcur|apply Hfits].
  - rewrite Happ in *. eauto 10.
Qed.

Lemma fit_items_total items : forall index rows n c,
  Forall (item_fits next) items -> exists n' c', fit_items next more index rows n c items = Some (n', c') /\ (n <= n')%nat.
Proof.
  induction items as [|item items IH]; intros index rows n c Hf; cbn [fit_items]; [by eauto|].
  apply Forall_cons in Hf as [(b & -> & Hc) Hf]. cbn [mbind option_bind].
  destruct (Hc (if more || negb (bool_decide (items = [])) then Some (next (page_key item)) else None)) as (e & -> & He).
  { case_match; auto. }
  cbn [mbind option_bind]. case_match; [by eauto|].
  match goal with |- context [fit_items _ _ ?i ?r ?m ?k _] => destruct (IH i r m k Hf) as (n' & c' & E & Hn) end.
  exists n', c'. split; [done|lia].
Qed.

(** A page is a prefix of the rows with the cursor after its last one, within the limit. *)
Lemma bounded_public_page_spec items page :
  bounded_public_page items more next = Ok (Some page) ->
  page_fits page
  /\ ((items = [] /\ page = MkPublicPage [] None)
      \/ exists kept item rest, items = kept ++ item :: rest
         /\ page = MkPublicPage (kept ++ [item]) (cursor_after next (more || negb (bool_decide (rest = []))) item)).
Proof.
  unfold bounded_public_page. destruct (fit_items _ _ _ _ _ _ _) as [[n c]|] eqn:E; [|done]. cbn [ok_or mbind result_bind].
  destruct (fit_items_spec items [] [] 0 None n c eq_refl eq_refl E) as [[-> ->]|(kept & item & Hk & Hn & Hle & Hc & Hp)].
  - destruct items; [|done]. intros [= <-]. split; [apply empty_page_fits|by left].
  - cbn [app] in *. rewrite bool_decide_false by lia. cbn [andb]. intros [= <-]. rewrite Hk. split; [done|]. right.
    exists kept, item, (drop n items). rewrite <- (take_drop n items) at 1. rewrite Hk, <- app_assoc. split; [done|]. f_equal.
    rewrite Hc. f_equal. f_equal. pose proof (length_drop items n) as Hd.
    destruct (drop n items); cbn [length] in Hd; repeat case_bool_decide; try done; lia.
Qed.

Lemma bounded_public_page_total items :
  Forall (item_fits next) items -> exists page, bounded_public_page items more next = Ok (Some page).
Proof.
  intros Hf. unfold bounded_public_page. destruct items as [|item items]; [by eexists|].
  cbn [fit_items]. apply Forall_cons in Hf as [(b & -> & Hc) Hf]. cbn [mbind option_bind].
  destruct (Hc (if more || negb (bool_decide (items = [])) then Some (next (page_key item)) else None)) as (e & -> & He).
  { case_match; auto. }
  cbn [mbind option_bind]. rewrite (proj2 (Z.ltb_ge _ _)) by (cbn; lia).
  match goal with |- context [fit_items _ _ ?i ?r ?m ?k _] => destruct (fit_items_total items i r m k Hf) as (n & c & -> & Hn) end.
  cbn [ok_or mbind result_bind]. rewrite bool_decide_false by lia. by eexists.
Qed.
End Assembly.

(** ** A client that follows the cursors *)

(** At most [requests] requests, the first with [cursor]. *)
Fixpoint walk (fetch : option string -> HistoryResponse) (requests : nat) (cursor : option string) : option (list PublicItem) :=
  match requests with
  | O => None
  | S requests =>
      match fetch cursor with
      | HrPage page =>
          match pg_next_cursor page with
          | None => Some (pg_items page)
          | Some c => rest ← walk fetch requests (Some c); Some (pg_items page ++ rest)
          end
      | _ => None
      end
  end.

(** A list in a strict order, and what a key leaves of it. *)
Definition strictly {A} (lt : Z * Z -> Z * Z -> bool) (key : A -> Z * Z) (rows : list A) : Prop :=
  StronglySorted (fun x y => lt (key x) (key y) = true) rows.
Definition past {A} (lt : Z * Z -> Z * Z -> bool) (key : A -> Z * Z) (k : Z * Z) (rows : list A) : list A :=
  filter (fun r => lt k (key r) = true) rows.

Class StrictOrder2 (lt : Z * Z -> Z * Z -> bool) := {
  lt_irrefl2 k : lt k k = false;
  lt_trans2 a b c : lt a b = true -> lt b c = true -> lt a c = true;
  lt_total2 a b : lt a b = true \/ a = b \/ lt b a = true;
}.
Definition newest_first (a b : Z * Z) : bool := key_ltb b a.
#[export] Instance key_ltb_order : StrictOrder2 key_ltb.
Proof.
  split; unfold key_ltb; [intros []|intros [] [] []|intros [a b] [c d]]; cbn [fst snd]; rewrite ?orb_true_iff, ?andb_true_iff, ?Z.ltb_lt, ?Z.eqb_eq; try lia.
  destruct (Z.lt_trichotomy a c) as [|[->|]]; [lia| |lia]. destruct (Z.lt_trichotomy b d) as [|[->|]]; auto; lia.
Qed.
#[export] Instance newest_first_order : StrictOrder2 newest_first.
Proof.
  split; unfold newest_first; intros; [apply lt_irrefl2|eapply lt_trans2; eauto|].
  destruct (lt_total2 a b) as [|[|]]; auto.
Qed.

Lemma past_split {A} lt `{StrictOrder2 lt} (key : A -> Z * Z) xs x ys :
  strictly lt key (xs ++ x :: ys) -> past lt key (key x) (xs ++ x :: ys) = ys.
Proof.
  intros Hs. unfold past. rewrite filter_app, filter_cons_False by by rewrite lt_irrefl2.
  assert (Hxs : filter (fun r => lt (key x) (key r) = true) xs = []).
  { apply filter_none. intros y Hy Hlt.
    pose proof (StronglySorted_app_1_elem_of _ _ _ y x Hs Hy ltac:(set_solver)) as E.
    pose proof (lt_trans2 _ _ _ E Hlt) as E2. by rewrite lt_irrefl2 in E2. }
  rewrite Hxs. cbn [app].
  apply StronglySorted_app_1_r in Hs. apply StronglySorted_inv in Hs as [_ Hall].
  by apply filter_every.
Qed.

(** What every page route answers when the rows left are [rest]. *)
Definition page_of {A} `{PageJson} (next : Z * Z -> string) (limit : Z) (item : A -> PublicItem) (rest : list A) : HistoryResponse :=
  serve_public_page (map item (take (Z.to_nat limit) rest)) (limit <? Z.of_nat (length rest)) next.

Section Walk.
Context {A : Type} `{PageJsonLaws} (lt : Z * Z -> Z * Z -> bool) `{!StrictOrder2 lt}.
Context (key : A -> Z * Z) (item : A -> PublicItem) (next : Z * Z -> string) (limit : Z) (rows : list A).
Context (fetch : option string -> HistoryResponse).
Hypothesis Hlimit : 1 <= limit.
Hypothesis Hsorted : strictly lt key rows.
Hypothesis Hitem : Forall (fun r => page_key (item r) = key r /\ item_fits next (item r)) rows.
Hypothesis Hnext : forall r, r ∈ rows -> fetch (Some (next (key r))) = page_of next limit item (past lt key (key r) rows).

Lemma page_of_shape rest :
  rest ⊆+ rows ->
  exists page, page_of next limit item rest = HrPage page
  /\ ((rest = [] /\ page = MkPublicPage [] None)
      \/ exists xs x ys, rest = xs ++ x :: ys
         /\ page = MkPublicPage (map item (xs ++ [x])) (if bool_decide (ys = []) then None else Some (next (key x)))).
Proof.
  intros Hsub. unfold page_of, serve_public_page.
  assert (Hall : Forall (fun r => page_key (item r) = key r /\ item_fits next (item r)) rest).
  { apply Forall_forall. intros r Hr. eapply Forall_forall in Hitem; [done|]. by eapply elem_of_submseteq. }
  edestruct (bounded_public_page_total next (limit <? Z.of_nat (length rest)) (map item (take (Z.to_nat limit) rest))) as [page Hp].
  { apply Forall_map. apply Forall_take. eapply Forall_impl; [done|]. by intros r [_ ?]. }
  rewrite Hp. destruct (bounded_public_page_spec _ _ _ _ Hp) as [(b & Hb & Hle) Hshape]. rewrite Hb. cbn [is_some].
  exists page. split; [done|]. destruct Hshape as [[Hnil ->]|(kept & it & tl & Heq & ->)].
  - left. split; [|done]. destruct rest; [done|]. destruct (Z.to_nat limit) eqn:El; [lia|done].
  - right. apply map_eq_app in Heq as (xs & ys' & Hxy & <- & Heq). destruct ys' as [|x ys']; [done|]. injection Heq as <- <-.
    exists xs, x, (ys' ++ drop (Z.to_nat limit) rest). split.
    { rewrite <- (take_drop (Z.to_nat limit) rest) at 1. by rewrite Hxy, <- app_assoc. }
    rewrite map_app. f_equal. unfold cursor_after.
    assert (Hx : page_key (item x) = key x).
    { rewrite List.Forall_forall in Hall. apply Hall, list_elem_of_In. rewrite <- (take_drop (Z.to_nat limit) rest), Hxy. set_solver. }
    rewrite Hx. pose proof (length_drop rest (Z.to_nat limit)) as Hd.
    destruct (Z.ltb_spec limit (Z.of_nat (length rest))); destruct ys', (drop (Z.to_nat limit) rest) eqn:Ed;
      cbn [length map app] in *; repeat case_bool_decide; cbn [orb negb] in *; try done; try lia.
Qed.

Lemma walk_suffix n : forall done todo c,
  rows = done ++ todo -> fetch c = page_of next limit item todo -> (length todo < n)%nat ->
  walk fetch n c = Some (map item todo).
Proof.
  induction n as [|n IH]; intros done todo c Hrows Hf Hn; [lia|]. cbn [walk]. rewrite Hf.
  destruct (page_of_shape todo) as (page & -> & [[-> ->]|(xs & x & ys & -> & ->)]).
  { rewrite Hrows. apply submseteq_inserts_l. reflexivity. }
  { done. }
  cbn [pg_next_cursor pg_items]. case_bool_decide as Hys; [by subst ys|].
  rewrite app_assoc in Hrows.
  erewrite (IH (done ++ xs ++ [x]) ys); [..|].
  - cbn. f_equal. rewrite !map_app. cbn. by rewrite <- app_assoc.
  - rewrite Hrows, <- !app_assoc. done.
  - rewrite Hnext by (rewrite Hrows; set_solver). f_equal. rewrite Hrows. apply (past_split lt key). by rewrite <- Hrows.
  - rewrite length_app in Hn. cbn in Hn. lia.
Qed.

(** From the first page, one request per row and one more are enough. *)
Lemma walk_lists : fetch None = page_of next limit item rows -> walk fetch (S (length rows)) None = Some (map item rows).
Proof. intros Hf. apply (walk_suffix _ [] rows None eq_refl Hf). lia. Qed.
End Walk.

(** ** The public history: what a client reads by following the cursors

    The catalogue's keys as the schema promises them, the four page routes over it, and
    the rows a walk through the pages gives. *)

(** ** The routes and what they hold *)

Inductive Route := RouteDrives | RouteCharges | RoutePositions (drive_id : Z) | RouteChargeSamples (charge_id : Z).

Definition route_kind (route : Route) : PageKind :=
  match route with
  | RouteDrives => Drives | RouteCharges => Charges | RoutePositions _ => Positions | RouteChargeSamples _ => ChargeSamples
  end.
Definition route_scope (route : Route) : Z :=
  match route with RouteDrives | RouteCharges => 0 | RoutePositions id | RouteChargeSamples id => id end.
(** Sessions newest first, the rows of a session oldest first. *)
Definition route_before (route : Route) : Z * Z -> Z * Z -> bool :=
  match route with RouteDrives | RouteCharges => newest_first | RoutePositions _ | RouteChargeSamples _ => key_ltb end.

Definition fetch_page `{Hex} `{Digest} `{PageJson} (cat : Catalogue) (cursor_key : CursorKey) (vehicle_id : Uuid) (route : Route)
    (parameters : option PageQueryParameters) : HistoryResponse :=
  match route with
  | RouteDrives => drives cat cursor_key vehicle_id parameters
  | RouteCharges => charges cat cursor_key vehicle_id parameters
  | RoutePositions drive_id => drive_positions cat cursor_key vehicle_id (Some drive_id) parameters
  | RouteChargeSamples charge_id => charge_samples cat cursor_key vehicle_id (Some charge_id) parameters
  end.

Definition drive_item (vehicle_id : Uuid) (r : StoredRow ProjectionDrive) : PublicItem :=
  ItemDrive (public_drive_from vehicle_id (sr_row r)).
Definition position_item (drive_id : Z) (r : StoredRow (ProjectionPosition * option TerrainRow)) : PublicItem :=
  ItemPosition (public_position_from drive_id (sr_row r).1
    (tr_lookup <$> opt_filter (fun t => bool_decide (tr_status t = "success")) (sr_row r).2)).
Definition sample_item (r : StoredRow ProjectionChargeSample) : PublicItem := ItemSample (public_charge_sample_from (sr_row r)).

(** Every row of the route in the window, in no order: the finished charges alone. *)
Definition history_items (cat : Catalogue) (vehicle_id : Uuid) (route : Route) (from_ms to_ms : Z) : list PublicItem :=
  match route with
  | RouteDrives =>
      map (drive_item vehicle_id)
        (filter (fun r => (sr_vehicle_id r =? vehicle_id) && in_window from_ms to_ms (drive_key r).1) (cat_drives cat))
  | RouteCharges =>
      omap (fun r => ItemCharge <$> public_charge_from vehicle_id (sr_row r))
        (filter (fun r => (sr_vehicle_id r =? vehicle_id) && in_window from_ms to_ms (charge_key r).1) (cat_charges cat))
  | RoutePositions drive_id =>
      map (position_item drive_id)
        (filter (fun r => (sr_vehicle_id r =? vehicle_id) && (sr_parent_id r =? drive_id)
                          && in_window from_ms to_ms (position_key r).1) (cat_positions cat))
  | RouteChargeSamples charge_id =>
      map sample_item
        (filter (fun r => (sr_vehicle_id r =? vehicle_id) && (sr_parent_id r =? charge_id)
                          && in_window from_ms to_ms (sample_row_key r).1) (cat_samples cat))
  end.

(** ** What the schema promises *)

(** [PRIMARY KEY (vehicle_id, id)] and [CHECK(id > 0)] in an [INTEGER] column. *)
Definition table_ok {A} (rows : list (StoredRow A)) : Prop :=
  NoDup (map (fun r => (sr_vehicle_id r, sr_id r)) rows) /\ Forall (fun r => 0 < sr_id r <= i64_max) rows.
(** The identity columns are those of the row's JSON. *)
Record catalogue_ok (cat : Catalogue) : Prop := {
  ok_readable : cat_readable cat = true;
  ok_drives : table_ok (cat_drives cat) /\ Forall (fun r => pd_id (sr_row r) = sr_id r) (cat_drives cat);
  ok_charges : table_ok (cat_charges cat) /\ Forall (fun r => pc_id (sr_row r) = sr_id r) (cat_charges cat);
  ok_positions : table_ok (cat_positions cat)
    /\ Forall (fun r => pp_id (sr_row r).1 = sr_id r /\ (0 < sr_parent_id r -> pp_drive_id (sr_row r).1 = Some (sr_parent_id r)))
         (cat_positions cat);
  ok_samples : table_ok (cat_samples cat)
    /\ Forall (fun r => ps_id (sr_row r) = sr_id r /\ ps_charge_process_id (sr_row r) = sr_parent_id r) (cat_samples cat);
}.
(** The parent of a nested route is a session of the vehicle, and finished. *)
Definition route_open (cat : Catalogue) (vehicle_id : Uuid) (route : Route) : Prop :=
  match route with
  | RouteDrives | RouteCharges => True
  | RoutePositions id => exists d, materialised_closed_drive_for_vehicle cat vehicle_id id = Ok (Some d)
  | RouteChargeSamples id => exists c, materialised_charge_for_vehicle cat vehicle_id id = Ok (Some c)
  end.

(** ** A selection in its order *)

Section Selection.
Context {A : Type} (lt : Z * Z -> Z * Z -> bool) `{!StrictOrder2 lt} (key : A -> Z * Z).
Context (R : A -> A -> Prop) `{forall x y, Decision (R x y)}.
Hypothesis HR : forall x y, R x y <-> lt (key y) (key x) = false.

Lemma weak_or x y : R x y <-> lt (key x) (key y) = true \/ key x = key y.
Proof.
  rewrite HR. destruct (lt_total2 (key x) (key y)) as [Hl|[He|Hl]].
  - rewrite Hl. split; [by left|]. intros _. destruct (lt (key y) (key x)) eqn:E; [|done].
    pose proof (lt_trans2 _ _ _ E Hl) as E2. by rewrite lt_irrefl2 in E2.
  - rewrite He, lt_irrefl2. split; auto.
  - rewrite Hl. split; [done|]. intros [E|E]; [|by rewrite E, lt_irrefl2 in Hl].
    pose proof (lt_trans2 _ _ _ E Hl) as E2. by rewrite lt_irrefl2 in E2.
Qed.
#[local] Instance weak_trans : Transitive R.
Proof.
  intros x y z. rewrite !weak_or. intros [Hxy|Hxy] [Hyz|Hyz]; [left; by eapply lt_trans2|left; congruence|left; congruence|right; congruence].
Qed.
#[local] Instance weak_total : Total R.
Proof. intros x y. rewrite !weak_or. destruct (lt_total2 (key x) (key y)) as [|[|]]; auto. Qed.

Lemma strictly_of rows : StronglySorted R rows -> NoDup (map key rows) -> strictly lt key rows.
Proof.
  induction 1 as [|x rows Hs IH Hx]; [by constructor|]. cbn. intros [Hn Hd]%NoDup_cons.
  constructor; [by apply IH|]. rewrite Forall_forall in Hx |- *. intros y Hy. destruct (proj1 (weak_or x y) (Hx y Hy)) as [|E]; [done|].
  destruct Hn. rewrite E. by apply list_elem_of_fmap_2.
Qed.
Lemma strictly_filter (P : A -> Prop) `{forall x, Decision (P x)} rows : strictly lt key rows -> strictly lt key (filter P rows).
Proof.
  induction 1 as [|x rows Hs IH Hx]; [by constructor|]. rewrite filter_cons. case_decide; [|done]. constructor; [done|].
  rewrite Forall_forall in Hx |- *. intros y [_ Hy]%list_elem_of_filter. by apply Hx.
Qed.
Lemma strictly_unique xs ys : strictly lt key xs -> strictly lt key ys -> xs ≡ₚ ys -> xs = ys.
Proof.
  intros Hx Hy Hp. eapply StronglySorted_unique_strong; [|exact Hx|exact Hy|exact Hp].
  cbn. intros x y _ _ Hxy Hyx. pose proof (lt_trans2 _ _ _ Hxy Hyx) as E. by rewrite lt_irrefl2 in E.
Qed.

Lemma sorted_strictly rows : NoDup (map key rows) -> strictly lt key (merge_sort R rows).
Proof.
  intros Hd. apply strictly_of; [apply StronglySorted_merge_sort; apply _|].
  by rewrite (Permutation_map key (merge_sort_Permutation R rows)).
Qed.

(** The rows past a key, in order, are what the key leaves of the rows in order. *)
Lemma sort_past (vis : A -> bool) rows k :
  NoDup (map key (filter (fun r => vis r) rows)) ->
  merge_sort R (filter (fun r => vis r && lt k (key r)) rows) = past lt key k (merge_sort R (filter (fun r => vis r) rows)).
Proof.
  intros Hd.
  assert (E : filter (fun r => vis r && lt k (key r)) rows = past lt key k (filter (fun r => vis r) rows)).
  { unfold past. rewrite list_filter_filter. apply list_filter_iff. intros r. rewrite <- !Is_true_true, andb_True. tauto. }
  rewrite E. apply strictly_unique.
  - apply sorted_strictly. eapply sublist_NoDup; [exact Hd|]. apply (fmap_sublist key), sublist_filter.
  - apply strictly_filter. by apply sorted_strictly.
  - rewrite merge_sort_Permutation. unfold past. by rewrite merge_sort_Permutation.
Qed.
End Selection.

(** ** What a page route answers *)

Lemma read_rows_map {A B} (row : StoredRow A -> result PageStoreError B) f rows :
  Forall (fun r => row r = Ok (f r)) rows -> read_rows row rows = Ok (map f rows).
Proof. induction 1 as [|r rows Hr _ IH]; [done|]. cbn [read_rows map]. rewrite Hr. cbn [mbind result_bind]. by rewrite IH. Qed.

Lemma lookahead_rows {A} (limit : Z) (rest : list A) :
  1 <= limit ->
  let rows := take (Z.to_nat (limit + 1)) rest in
  let more := limit <? Z.of_nat (length rows) in
  (if more then take (Z.to_nat limit) rows else rows) = take (Z.to_nat limit) rest /\ more = (limit <? Z.of_nat (length rest)).
Proof.
  intros Hl. cbn zeta. rewrite length_take. split.
  - destruct (Z.ltb_spec limit (Z.of_nat (Z.to_nat (limit + 1) `min` length rest))).
    + rewrite take_take. f_equal. lia.
    + rewrite !take_ge by lia. done.
  - destruct (Z.ltb_spec limit (Z.of_nat (length rest))); [apply Z.ltb_lt|apply Z.ltb_ge]; lia.
Qed.

Section Serve.
Context `{Hex} `{Digest} `{PageJson}.

Lemma serve_rows_page_of {A B} cat cursor_key q (row : StoredRow A -> result PageStoreError B) f items item rest :
  cat_readable cat = true -> 1 <= pq_limit q ->
  Forall (fun r => row r = Ok (f r)) rest ->
  (forall n, items (map f (take n rest)) = Some (map item (take n rest))) ->
  serve_rows cursor_key q (query_rows cat row (take (Z.to_nat (lookahead_limit q)) rest)) items
  = page_of (next_cursor q cursor_key) (pq_limit q) item rest.
Proof.
  intros Hc Hl Hr Hi. unfold query_rows. rewrite Hc, (read_rows_map row f) by by apply Forall_take.
  unfold serve_rows, trim_lookahead, lookahead_limit, page_of.
  destruct (lookahead_rows (pq_limit q) rest Hl) as [H1' H2']. cbn zeta in *. rewrite length_map, H2' in *.
  destruct (pq_limit q <? Z.of_nat (length rest)).
  - by rewrite firstn_map, H1', Hi.
  - by rewrite H1', Hi.
Qed.
End Serve.

(** A request for the window: its integers and its limit. *)
Record request_ok (vehicle_id : Uuid) (route : Route) (from_ms to_ms : Z) (limit : option Z) : Prop := {
  rq_vehicle : 0 < vehicle_id < 2 ^ 128;
  rq_scope : in_i64 (route_scope route);
  rq_window : 0 <= from_ms < to_ms /\ to_ms <= i64_max;
  rq_limit : forall l, limit = Some l -> 1 <= l <= max_limit (route_kind route);
}.
Definition base_query (vehicle_id : Uuid) (route : Route) (from_ms to_ms : Z) (limit : option Z) : PageQuery :=
  MkPageQuery (route_kind route) vehicle_id (route_scope route) from_ms to_ms (default (default_limit (route_kind route)) limit) None.
Definition request (from_ms to_ms : Z) (limit : option Z) (cursor : option string) : option PageQueryParameters :=
  Some (MkPageQueryParameters (Some from_ms) (Some to_ms) limit cursor).

Lemma window_checks from_ms to_ms : 0 <= from_ms < to_ms -> (from_ms <? 0) || (to_ms <? 0) || (to_ms <=? from_ms) = false.
Proof. intros. rewrite !orb_false_iff, !Z.ltb_ge, Z.leb_gt. lia. Qed.
Lemma limit_checks limit maximum : 1 <= limit <= maximum -> (limit =? 0) || (maximum <? limit) = false.
Proof. intros. rewrite orb_false_iff, Z.eqb_neq, Z.ltb_ge. lia. Qed.

Section Parse.
Context `{HexLaws} `{Digest}.
Hypothesis sha256_len : forall s, String.length (sha256 s) = 32%nat.
Context (cursor_key : CursorKey) (vehicle_id : Uuid) (route : Route) (from_ms to_ms : Z) (limit : option Z).
Hypothesis Hrq : request_ok vehicle_id route from_ms to_ms limit.
Let q := base_query vehicle_id route from_ms to_ms limit.

Lemma base_limit : 1 <= pq_limit q <= max_limit (route_kind route).
Proof.
  subst q. cbn [pq_limit base_query]. destruct limit as [l|] eqn:El; cbn [default]; [by apply (rq_limit _ _ _ _ _ Hrq)|].
  destruct route; cbv; split; discriminate.
Qed.

Lemma parse_first : parse_page_query cursor_key (route_kind route) vehicle_id (route_scope route) (request from_ms to_ms limit None) = Ok q.
Proof.
  pose proof base_limit as Hl. destruct (rq_window _ _ _ _ _ Hrq) as [Hw Ht].
  unfold parse_page_query, request, parse_query. cbn [qp_from_ms qp_to_ms qp_limit qp_cursor default from_option id].
  subst q. cbn [pq_limit base_query] in Hl. rewrite window_checks by lia. by rewrite limit_checks by done.
Qed.

Lemma parse_next k :
  last_key_ok q k = true -> key_typed k ->
  parse_page_query cursor_key (route_kind route) vehicle_id (route_scope route) (request from_ms to_ms limit (Some (next_cursor q cursor_key k)))
  = Ok (q <| pq_after := Some k |>).
Proof.
  intros Hk Ht. pose proof base_limit as Hl. destruct (rq_window _ _ _ _ _ Hrq) as [Hw Hto].
  assert (E : decode_cursor q cursor_key (next_cursor q cursor_key k) = Ok k).
  { apply decode_page_spec; [done| |reflexivity|done].
    split; [cbn; pose proof (rq_vehicle _ _ _ _ _ Hrq); lia|]. split; [apply (rq_scope _ _ _ _ _ Hrq)|].
    cbn. unfold in_i64, i64_min, i64_max in *. lia. }
  unfold parse_page_query, request, parse_query. cbn [qp_from_ms qp_to_ms qp_limit qp_cursor default from_option id].
  fold (base_query vehicle_id route from_ms to_ms limit).
  subst q. cbn [pq_limit base_query] in Hl. rewrite window_checks by lia. rewrite limit_checks by done. unfold base_query in *. by rewrite E.
Qed.
End Parse.

(** ** A walk through one route *)

Lemma keys_distinct {A} vehicle_id (key : StoredRow A -> Z * Z) rows :
  (forall r, (key r).2 = sr_id r) -> (forall r, r ∈ rows -> sr_vehicle_id r = vehicle_id) ->
  NoDup (map (fun r => (sr_vehicle_id r, sr_id r)) rows) -> NoDup (map key rows).
Proof.
  intros Hkey. induction rows as [|r rows IH]; intros Hv Hnd; [constructor|]. cbn in *. apply NoDup_cons in Hnd as [Hn Hd].
  apply NoDup_cons. split; [|apply IH; [set_solver|done]].
  intros (r' & E & Hr')%list_elem_of_fmap. apply Hn. apply list_elem_of_fmap. exists r'. split; [|done].
  rewrite (Hv r), (Hv r') by set_solver. by rewrite <- !Hkey, E.
Qed.

Section Plan.
Context `{HexLaws} `{Digest} `{PageJsonLaws}.
Hypothesis sha256_len : forall s, String.length (sha256 s) = 32%nat.
Context (cat : Catalogue) (cursor_key : CursorKey) (vehicle_id : Uuid) (route : Route) (from_ms to_ms : Z) (limit : option Z).
Hypothesis Hcat : cat_readable cat = true.
Hypothesis Hrq : request_ok vehicle_id route from_ms to_ms limit.
Let q := base_query vehicle_id route from_ms to_ms limit.

Context {A B : Type} (table : list (StoredRow A)) (vis : StoredRow A -> bool) (key : StoredRow A -> Z * Z).
Context (lt : Z * Z -> Z * Z -> bool) `{!StrictOrder2 lt} (R : StoredRow A -> StoredRow A -> Prop) `{forall x y, Decision (R x y)}.
Context (row : StoredRow A -> result PageStoreError B) (f : StoredRow A -> B) (items : list B -> option (list PublicItem)).
Context (item : StoredRow A -> PublicItem) (start : Z * Z).
Let selected : list (StoredRow A) := filter (fun r => vis r) table.
Let listed : list (StoredRow A) := merge_sort R selected.

Hypothesis HR : forall x y, R x y <-> lt (key y) (key x) = false.
Hypothesis Htable : table_ok table.
Hypothesis Hkey : forall r, (key r).2 = sr_id r.
Hypothesis Hvis : forall r, r ∈ table -> vis r = true ->
  sr_vehicle_id r = vehicle_id /\ in_window from_ms to_ms (key r).1 = true /\ row r = Ok (f r)
  /\ page_key (item r) = key r /\ lt start (key r) = true.
Hypothesis Hitems : forall rows, (forall r, r ∈ rows -> r ∈ table /\ vis r = true) -> items (map f rows) = Some (map item rows).
Hypothesis Hfits : forall i, i ∈ map item selected -> item_fits (next_cursor q cursor_key) i.
(** The handler: the query, the read of its page and what is served. *)
Hypothesis Hfetch : forall c after,
  parse_page_query cursor_key (route_kind route) vehicle_id (route_scope route) (request from_ms to_ms limit c) = Ok (q <| pq_after := after |>) ->
  (forall k, after = Some k -> last_key_ok q k = true) ->
  fetch_page cat cursor_key vehicle_id route (request from_ms to_ms limit c)
  = serve_rows cursor_key (q <| pq_after := after |>)
      (query_rows cat row (take (Z.to_nat (lookahead_limit q))
        (merge_sort R (filter (fun r => vis r && lt (default start after) (key r)) table)))) items.

Lemma selected_keys : NoDup (map key selected).
Proof.
  destruct Htable as [Hnd _].
  assert (Hv : forall r, r ∈ selected -> sr_vehicle_id r = vehicle_id).
  { intros r [Hs Hin]%list_elem_of_filter. apply Hvis; [done|]. by apply Is_true_true. }
  assert (Hnd' : NoDup (map (fun r => (sr_vehicle_id r, sr_id r)) selected)).
  { eapply sublist_NoDup; [exact Hnd|]. apply (fmap_sublist (fun r => (sr_vehicle_id r, sr_id r))), sublist_filter. }
  by apply (keys_distinct vehicle_id).
Qed.

Lemma listed_elem r : r ∈ listed -> r ∈ table /\ vis r = true.
Proof.
  unfold listed. rewrite (merge_sort_Permutation R selected). intros [Hs Hin]%list_elem_of_filter. split; [done|by apply Is_true_true].
Qed.
Lemma listed_strictly : strictly lt key listed.
Proof. apply (sorted_strictly lt key R HR), selected_keys. Qed.

Lemma listed_page after rest :
  (forall r, r ∈ rest -> r ∈ listed) ->
  serve_rows cursor_key (q <| pq_after := after |>) (query_rows cat row (take (Z.to_nat (lookahead_limit q)) rest)) items
  = page_of (next_cursor q cursor_key) (pq_limit q) item rest.
Proof.
  intros Hin.
  change (serve_rows cursor_key (q <| pq_after := after |>)
    (query_rows cat row (take (Z.to_nat (lookahead_limit (q <| pq_after := after |>))) rest)) items
    = page_of (next_cursor (q <| pq_after := after |>) cursor_key) (pq_limit (q <| pq_after := after |>)) item rest).
  apply (serve_rows_page_of cat cursor_key (q <| pq_after := after |>) row f items item rest Hcat).
  - apply base_limit, Hrq.
  - rewrite List.Forall_forall. intros r Hr%list_elem_of_In. apply Hin in Hr. destruct (listed_elem r Hr). by apply Hvis.
  - intros n. apply Hitems. intros r Hr. apply listed_elem, Hin. rewrite <- (take_drop n rest). set_solver.
Qed.

Lemma listed_key_ok r : r ∈ listed -> last_key_ok q (key r) = true /\ key_typed (key r).
Proof.
  intros Hr. destruct (listed_elem r Hr) as [Hin Hv]. destruct (Hvis r Hin Hv) as (_ & Hw & _).
  destruct Htable as [_ Hpos]. rewrite List.Forall_forall in Hpos. specialize (Hpos r (proj1 (list_elem_of_In _ _) Hin)).
  destruct (rq_window _ _ _ _ _ Hrq) as [Hft Hto]. unfold in_window in Hw. apply andb_true_iff in Hw as [H1w H2w].
  rewrite last_key_ok_spec, Hkey. unfold key_typed. rewrite Hkey. subst q. cbn [pq_from_ms pq_to_ms base_query].
  unfold in_i64, i64_min, i64_max in *. split; [|lia]. rewrite Z.ltb_ge, !Z.leb_gt. lia.
Qed.

Lemma walk_listed :
  walk (fun c => fetch_page cat cursor_key vehicle_id route (request from_ms to_ms limit c)) (S (length selected)) None
  = Some (map item listed).
Proof.
  replace (length selected) with (length listed) by apply Permutation_length, merge_sort_Permutation.
  apply (walk_lists lt key item (next_cursor q cursor_key) (pq_limit q) listed).
  - apply base_limit, Hrq.
  - apply listed_strictly.
  - rewrite List.Forall_forall. intros r Hr%list_elem_of_In. destruct (listed_elem r Hr) as [Hin Hv].
    split; [by apply Hvis|]. apply Hfits, list_elem_of_fmap_2, list_elem_of_filter. split; [by apply Is_true_true|done].
  - intros r Hr. destruct (listed_key_ok r Hr) as [Hk Ht].
    rewrite (Hfetch _ (Some (key r))); [|by apply parse_next|by intros k [= <-]].
    cbn [default from_option id]. rewrite (sort_past lt key R HR vis table (key r) selected_keys).
    apply listed_page. intros r' [_ Hr']%list_elem_of_filter. done.
  - rewrite (Hfetch _ None); [|apply (parse_first cursor_key vehicle_id route from_ms to_ms limit Hrq)|done].
    cbn [default from_option]. rewrite (sort_past lt key R HR vis table start selected_keys).
    unfold past. rewrite filter_every; [by apply listed_page|].
    rewrite List.Forall_forall. intros r Hr%list_elem_of_In. destruct (listed_elem r Hr). by apply Hvis.
Qed.

(** What the walk gives: the selected rows, each once, in the order of the route. *)
Lemma walk_plan :
  exists l, walk (fun c => fetch_page cat cursor_key vehicle_id route (request from_ms to_ms limit c)) (S (length (map item selected))) None = Some l
  /\ l ≡ₚ map item selected /\ StronglySorted (fun x y => lt (page_key x) (page_key y) = true) l.
Proof.
  exists (map item listed). split; [rewrite length_map; apply walk_listed|]. split; [apply Permutation_map, merge_sort_Permutation|].
  pose proof listed_strictly as Hs. assert (Hin : forall r, r ∈ listed -> page_key (item r) = key r).
  { intros r Hr. destruct (listed_elem r Hr). by apply Hvis. }
  clear - Hs Hin. induction Hs as [|x xs Hs IH Hx]; cbn; constructor.
  - apply IH. intros r Hr. apply Hin. set_solver.
  - apply Forall_map. rewrite List.Forall_forall in *. intros r Hr. cbn. rewrite !Hin; [by apply Hx| |by left].
    right. by apply list_elem_of_In.
Qed.
End Plan.

(** ** The reads behind the routes *)

Lemma cursor_inside q after :
  (forall k, after = Some k -> last_key_ok q k = true) -> cursor_outside (pq_from_ms q) (pq_to_ms q) after = false.
Proof.
  intros Ha. destruct after as [k|]; [|done]. destruct (proj1 (last_key_ok_spec q k) (Ha k eq_refl)) as (Hf & Ht & Hk).
  unfold cursor_outside. cbn. by rewrite Hf, Ht, Hk.
Qed.

Section Reads.
Context (cat : Catalogue) (vehicle_id : Uuid) (route : Route) (from_ms to_ms : Z) (limit : option Z).
Hypothesis Hrq : request_ok vehicle_id route from_ms to_ms limit.
Let q := base_query vehicle_id route from_ms to_ms limit.
Context (after : option (Z * Z)).
Hypothesis Hafter : forall k, after = Some k -> last_key_ok q k = true.

Lemma vehicle_checked : (vehicle_id =? 0) = false.
Proof. pose proof (rq_vehicle _ _ _ _ _ Hrq). lia. Qed.
Lemma cursor_valid : cursor_outside from_ms to_ms after = false.
Proof. exact (cursor_inside q after Hafter). Qed.
Lemma arguments_valid maximum unbounded :
  max_limit (route_kind route) + 1 = maximum ->
  validate_public_page_arguments from_ms to_ms after (lookahead_limit q) maximum unbounded = Ok (default unbounded after).
Proof.
  intros Hm. pose proof (base_limit _ _ _ _ _ Hrq) as Hl. fold q in Hl. destruct (rq_window _ _ _ _ _ Hrq) as [Hw _].
  unfold validate_public_page_arguments. rewrite window_checks by done. rewrite limit_checks by (unfold lookahead_limit; lia).
  by rewrite cursor_valid.
Qed.
Lemma drives_read :
  route = RouteDrives ->
  materialised_drives_page cat vehicle_id from_ms to_ms after (lookahead_limit q)
  = query_rows cat drive_row (PUBLIC_DRIVES_PAGE_SQL cat vehicle_id from_ms to_ms (default (i64_max, i64_max) after) (lookahead_limit q)).
Proof.
  intros Hroute. pose proof (base_limit _ _ _ _ _ Hrq) as Hl. fold q in Hl. destruct (rq_window _ _ _ _ _ Hrq) as [Hw _].
  unfold materialised_drives_page. rewrite vehicle_checked, window_checks by done. cbn zeta.
  rewrite limit_checks by (subst route; unfold lookahead_limit; cbn [max_limit route_kind] in Hl; unfold MAX_DRIVE_PAGE_LIMIT in Hl; lia).
  by rewrite cursor_valid.
Qed.
End Reads.

(** ** The four routes *)

Lemma newest_start a b : a < i64_max -> newest_first (i64_max, i64_max) (a, b) = true.
Proof. intros Ha. unfold newest_first, key_ltb. cbn [fst snd]. by rewrite (proj2 (Z.ltb_lt _ _) Ha). Qed.
Lemma oldest_start a b : 0 <= a -> key_ltb (-1, 0) (a, b) = true.
Proof. intros Ha. unfold key_ltb. cbn [fst snd]. by rewrite (proj2 (Z.ltb_lt (-1) a)) by lia. Qed.
Lemma in_window_bounds from_ms to_ms at_ms : in_window from_ms to_ms at_ms = true -> from_ms <= at_ms < to_ms.
Proof. unfold in_window. rewrite andb_true_iff, Z.leb_le, Z.ltb_lt. done. Qed.
Lemma mapM_total {A B C} (f : B -> option C) (g : A -> B) (h : A -> C) xs :
  (forall x, x ∈ xs -> f (g x) = Some (h x)) -> mapM f (map g xs) = Some (map h xs).
Proof.
  induction xs as [|x xs IH]; intros Hf; [done|]. cbn. rewrite (Hf x) by set_solver. cbn. rewrite IH by set_solver. done.
Qed.

(** The item of a charge, when it is finished. *)
Definition unfinished_item (r : StoredRow ProjectionCharge) : PublicItem :=
  ItemCharge (MkPublicCharge (sr_id r) (sr_vehicle_id r) 0 0 None None None None None None None None None None None None None None
    None None None None None None None None None).
Definition charge_item (vehicle_id : Uuid) (r : StoredRow ProjectionCharge) : PublicItem :=
  default (unfinished_item r) (ItemCharge <$> public_charge_from vehicle_id (sr_row r)).
Definition charge_visible (vehicle_id : Uuid) (from_ms to_ms : Z) (r : StoredRow ProjectionCharge) : bool :=
  (sr_vehicle_id r =? vehicle_id) && is_some (pc_end_date_ms (sr_row r)) && in_window from_ms to_ms (charge_key r).1.

Lemma charge_item_some vehicle_id r :
  is_some (pc_end_date_ms (sr_row r)) = true -> ItemCharge <$> public_charge_from vehicle_id (sr_row r) = Some (charge_item vehicle_id r).
Proof. unfold charge_item, public_charge_from. by destruct (pc_end_date_ms (sr_row r)). Qed.
Lemma charge_items vehicle_id from_ms to_ms rows :
  omap (fun r => ItemCharge <$> public_charge_from vehicle_id (sr_row r))
    (filter (fun r => (sr_vehicle_id r =? vehicle_id) && in_window from_ms to_ms (charge_key r).1) rows)
  = map (charge_item vehicle_id) (filter (fun r => charge_visible vehicle_id from_ms to_ms r) rows).
Proof.
  induction rows as [|r rows IH]; [done|]. rewrite !filter_bool_cons. unfold charge_visible at 1.
  destruct (sr_vehicle_id r =? vehicle_id), (in_window _ _ _); rewrite ?andb_false_r; cbn [andb]; try apply IH.
  rewrite andb_true_r. cbn [omap list_omap]. destruct (is_some (pc_end_date_ms (sr_row r))) eqn:E.
  - rewrite charge_item_some by done. cbn [map]. f_equal. apply IH.
  - unfold public_charge_from. destruct (pc_end_date_ms (sr_row r)); [done|]. apply IH.
Qed.

(** A read whose arguments are valid is the query. *)
Lemma page_read {A} (checked : result PageStoreError (Z * Z)) key (query : Z * Z -> result PageStoreError A) rows :
  checked = Ok key -> query key = rows -> (before ← checked; query before) = rows.
Proof. by intros -> <-. Qed.

Section Routes.
Context `{HexLaws} `{Digest} `{PageJsonLaws}.
Hypothesis sha256_len : forall s, String.length (sha256 s) = 32%nat.
Context (cat : Catalogue) (cursor_key : CursorKey) (vehicle_id : Uuid) (from_ms to_ms : Z) (limit : option Z).
Hypothesis Hcat : catalogue_ok cat.

Definition walk_gives (route : Route) : Prop :=
  exists l,
    walk (fun c => fetch_page cat cursor_key vehicle_id route (request from_ms to_ms limit c))
      (S (length (history_items cat vehicle_id route from_ms to_ms))) None = Some l
    /\ l ≡ₚ history_items cat vehicle_id route from_ms to_ms
    /\ StronglySorted (fun x y => route_before route (page_key x) (page_key y) = true) l.
(** Every item of the route fits a page of its own. *)
Definition items_fit (route : Route) : Prop :=
  forall i, i ∈ history_items cat vehicle_id route from_ms to_ms ->
    item_fits (next_cursor (base_query vehicle_id route from_ms to_ms limit) cursor_key) i.

Lemma drives_walk :
  request_ok vehicle_id RouteDrives from_ms to_ms limit -> items_fit RouteDrives -> walk_gives RouteDrives.
Proof.
  intros Hrq Hfit. destruct (ok_drives _ Hcat) as [Ht Hid]. rewrite List.Forall_forall in Hid.
  destruct (rq_window _ _ _ _ _ Hrq) as [Hw Hto].
  apply (walk_plan sha256_len cat cursor_key vehicle_id RouteDrives from_ms to_ms limit (ok_readable _ Hcat) Hrq (cat_drives cat)
    (fun r => (sr_vehicle_id r =? vehicle_id) && in_window from_ms to_ms (drive_key r).1) drive_key newest_first (descending drive_key)
    drive_row sr_row (fun rows => Some (map (fun drive => ItemDrive (public_drive_from vehicle_id drive)) rows))
    (drive_item vehicle_id) (i64_max, i64_max)); [done|done|done| | |done|].
  - intros r Hr [Hv%Z.eqb_eq Hin]%andb_true_iff. apply list_elem_of_In, Hid in Hr. apply in_window_bounds in Hin as Hb; cbn in Hb.
    repeat split; try done.
    + unfold drive_row. by rewrite Hr, Z.eqb_refl.
    + cbn. unfold drive_key. by rewrite Hr.
    + apply newest_start. lia.
  - intros rows _. by rewrite map_map.
  - intros c after Hp Ha. cbn [fetch_page]. unfold drives. cbn [route_kind route_scope] in Hp. rewrite Hp.
    f_equal. exact (drives_read cat vehicle_id RouteDrives from_ms to_ms limit Hrq after Ha eq_refl).
Qed.

Lemma charges_walk :
  request_ok vehicle_id RouteCharges from_ms to_ms limit -> items_fit RouteCharges -> walk_gives RouteCharges.
Proof.
  intros Hrq Hfit. destruct (ok_charges _ Hcat) as [Ht Hid]. rewrite List.Forall_forall in Hid.
  destruct (rq_window _ _ _ _ _ Hrq) as [Hw Hto]. unfold walk_gives, items_fit in *. cbn [history_items] in *. rewrite charge_items in *.
  apply (walk_plan sha256_len cat cursor_key vehicle_id RouteCharges from_ms to_ms limit (ok_readable _ Hcat) Hrq (cat_charges cat)
    (charge_visible vehicle_id from_ms to_ms) charge_key newest_first (descending charge_key)
    charge_row sr_row (mapM (fun charge => ItemCharge <$> public_charge_from vehicle_id charge))
    (charge_item vehicle_id) (i64_max, i64_max)); [done|done|done| | |done|].
  - intros r Hr [[Hv%Z.eqb_eq Hend]%andb_true_iff Hin]%andb_true_iff. apply list_elem_of_In, Hid in Hr.
    apply in_window_bounds in Hin as Hb; cbn in Hb. repeat split; try done.
    + unfold charge_row. by rewrite Hr, Z.eqb_refl.
    + unfold charge_item, public_charge_from. destruct (pc_end_date_ms (sr_row r)); [|done]. cbn. unfold charge_key. by rewrite Hr.
    + apply newest_start. lia.
  - intros rows Hrows. apply mapM_total. intros r Hr. apply Hrows in Hr as [_ [[_ Hend]%andb_true_iff _]%andb_true_iff].
    by apply charge_item_some.
  - intros c after Hp Ha. cbn [fetch_page]. unfold charges. cbn [route_kind route_scope] in Hp. rewrite Hp.
    unfold materialised_charges_page. rewrite (vehicle_checked _ _ _ _ _ Hrq).
    pose proof (arguments_valid _ _ _ _ _ Hrq after Ha 501 (i64_max, i64_max) eq_refl) as E. f_equal.
    exact (page_read _ _ _ _ E eq_refl).
Qed.

Lemma positions_walk drive_id :
  request_ok vehicle_id (RoutePositions drive_id) from_ms to_ms limit -> route_open cat vehicle_id (RoutePositions drive_id) ->
  items_fit (RoutePositions drive_id) -> walk_gives (RoutePositions drive_id).
Proof.
  intros Hrq [d Hd] Hfit. destruct (ok_positions _ Hcat) as [Ht Hid]. rewrite List.Forall_forall in Hid.
  destruct (rq_window _ _ _ _ _ Hrq) as [Hw Hto].
  assert (Hpos : (drive_id <=? 0) = false).
  { unfold materialised_closed_drive_for_vehicle in Hd. rewrite (vehicle_checked _ _ _ _ _ Hrq) in Hd. by destruct (drive_id <=? 0). }
  apply (walk_plan sha256_len cat cursor_key vehicle_id (RoutePositions drive_id) from_ms to_ms limit (ok_readable _ Hcat) Hrq
    (cat_positions cat)
    (fun r => (sr_vehicle_id r =? vehicle_id) && (sr_parent_id r =? drive_id) && in_window from_ms to_ms (position_key r).1)
    position_key key_ltb (ascending position_key) (position_row drive_id)
    (fun r => MkPublicPositionRow (sr_row r).1 (tr_lookup <$> opt_filter (fun t => bool_decide (tr_status t = "success")) (sr_row r).2))
    (fun rows => Some (map (fun r => ItemPosition (public_position_from drive_id (pr_position r) (pr_terrain r))) rows))
    (position_item drive_id) (-1, 0)); [done|done|done| | |done|].
  - intros r Hr [[Hv%Z.eqb_eq Hp%Z.eqb_eq]%andb_true_iff Hin]%andb_true_iff. apply list_elem_of_In, Hid in Hr as [Hr Hdr].
    apply in_window_bounds in Hin as Hb; cbn in Hb. repeat split; try done.
    + unfold position_row. destruct (sr_row r) as [p t]. cbn [fst snd] in *. rewrite Hr, Hp, Hdr, Hp, !Z.eqb_refl by lia.
      by rewrite bool_decide_true.
    + cbn. unfold position_key. by rewrite Hr.
    + apply oldest_start. lia.
  - intros rows _. by rewrite map_map.
  - intros c after Hp Ha. cbn [fetch_page]. unfold drive_positions. cbn [route_kind route_scope] in Hp. rewrite Hd, Hp.
    unfold drive_positions_window_page. rewrite (vehicle_checked _ _ _ _ _ Hrq), Hpos.
    pose proof (arguments_valid _ _ _ _ _ Hrq after Ha 2049 (-1, 0) eq_refl) as E. f_equal.
    exact (page_read _ _ _ _ E eq_refl).
Qed.

Lemma samples_walk charge_id :
  request_ok vehicle_id (RouteChargeSamples charge_id) from_ms to_ms limit -> route_open cat vehicle_id (RouteChargeSamples charge_id) ->
  items_fit (RouteChargeSamples charge_id) -> walk_gives (RouteChargeSamples charge_id).
Proof.
  intros Hrq [d Hd] Hfit. destruct (ok_samples _ Hcat) as [Ht Hid]. rewrite List.Forall_forall in Hid.
  destruct (rq_window _ _ _ _ _ Hrq) as [Hw Hto].
  assert (Hpos : (charge_id <=? 0) = false).
  { unfold materialised_charge_for_vehicle in Hd. rewrite (vehicle_checked _ _ _ _ _ Hrq) in Hd. by destruct (charge_id <=? 0). }
  apply (walk_plan sha256_len cat cursor_key vehicle_id (RouteChargeSamples charge_id) from_ms to_ms limit (ok_readable _ Hcat) Hrq
    (cat_samples cat)
    (fun r => (sr_vehicle_id r =? vehicle_id) && (sr_parent_id r =? charge_id) && in_window from_ms to_ms (sample_row_key r).1)
    sample_row_key key_ltb (ascending sample_row_key) (sample_row charge_id) sr_row
    (fun rows => Some (map (fun sample => ItemSample (public_charge_sample_from sample)) rows))
    sample_item (-1, 0)); [done|done|done| | |done|].
  - intros r Hr [[Hv%Z.eqb_eq Hp%Z.eqb_eq]%andb_true_iff Hin]%andb_true_iff. apply list_elem_of_In, Hid in Hr as [Hr Hdr].
    apply in_window_bounds in Hin as Hb; cbn in Hb. repeat split; try done.
    + unfold sample_row. by rewrite Hr, Hdr, Hp, !Z.eqb_refl.
    + cbn. unfold sample_row_key. by rewrite Hr.
    + apply oldest_start. lia.
  - intros rows _. by rewrite map_map.
  - intros c after Hp Ha. cbn [fetch_page]. unfold charge_samples. cbn [route_kind route_scope] in Hp. rewrite Hd, Hp.
    unfold charge_samples_page. rewrite (vehicle_checked _ _ _ _ _ Hrq), Hpos.
    pose proof (arguments_valid _ _ _ _ _ Hrq after Ha 2049 (-1, 0) eq_refl) as E. f_equal.
    exact (page_read _ _ _ _ E eq_refl).
Qed.
End Routes.

(** ** The public history: the promises of the page routes

    Every row of the window is listed once and in order by a client that follows the
    cursors, and no page is larger than its limits. *)

(** C9: For each of the four page routes, a client that asks for the first page of a window
    and then follows the cursor of each answer gets, after at most one request per row
    and one more, every row of the window exactly once and nothing else, sessions newest
    first and the rows of a session oldest first, whatever its limit and wherever the
    byte limit cuts the pages. The catalogue has the keys its schema promises, the parent
    session of a nested route exists, and no row is larger than a page. *)
Theorem history_pages_list_every_row `{HexLaws} `{Digest} `{PageJsonLaws} cat cursor_key vehicle_id route from_ms to_ms limit :
  (forall s, String.length (sha256 s) = 32%nat) ->
  catalogue_ok cat -> request_ok vehicle_id route from_ms to_ms limit -> route_open cat vehicle_id route ->
  items_fit cat cursor_key vehicle_id from_ms to_ms limit route ->
  exists l,
    walk (fun cursor => fetch_page cat cursor_key vehicle_id route (request from_ms to_ms limit cursor))
      (S (length (history_items cat vehicle_id route from_ms to_ms))) None = Some l
    /\ l ≡ₚ history_items cat vehicle_id route from_ms to_ms
    /\ StronglySorted (fun x y => route_before route (page_key x) (page_key y) = true) l.
Proof.
  intros Hsha Hcat Hrq Hopen Hfit. destruct route.
  - by apply (drives_walk Hsha).
  - by apply (charges_walk Hsha).
  - by apply (positions_walk Hsha).
  - by apply (samples_walk Hsha).
Qed.

(** ** The size of a page *)

Lemma parse_limit `{Hex} `{Digest} cursor_key kind vehicle_id scope_id parameters q :
  parse_page_query cursor_key kind vehicle_id scope_id parameters = Ok q -> pq_limit q <= max_limit kind.
Proof.
  unfold parse_page_query, parse_query. destruct parameters as [p|]; [|done].
  destruct ((_ <? 0) || _ || _); [done|]. destruct (_ || _) eqn:Hl; [done|]. apply orb_false_iff in Hl as [_ Hl%Z.ltb_ge].
  destruct (qp_cursor p) as [c|].
  - destruct (decode_cursor _ _ _) as [k|[]]; cbn [mbind result_bind]; try done. by intros [= <-].
  - by intros [= <-].
Qed.
Lemma max_limit_pos kind : 0 <= max_limit kind.
Proof. by destruct kind. Qed.

(** A page within the bytes of a page and the rows of its query. *)
Definition within `{PageJson} (rows : Z) (response : HistoryResponse) : Prop :=
  match response with
  | HrPage page => Z.of_nat (length (pg_items page)) <= rows /\ page_fits page
  | _ => True
  end.

Lemma refused_within `{Hex} `{Digest} `{PageJson} rows cursor_key kind vehicle_id scope_id parameters response :
  parse_page_query cursor_key kind vehicle_id scope_id parameters = Err response -> within rows response.
Proof. unfold parse_page_query. destruct parameters as [p|]; [|by intros [= <-]]. destruct (parse_query _ _ _ _ _) as [|[]]; by intros [= <-]. Qed.

Lemma served_within `{PageJsonLaws} items more next rows :
  Z.of_nat (length items) <= rows -> within rows (serve_public_page items more next).
Proof.
  intros Hl. unfold serve_public_page. destruct (bounded_public_page items more next) as [[page|]|] eqn:E; [|done|done].
  apply bounded_public_page_spec in E as [Hf Hshape]. destruct (is_some (page_bytes page)); [|done]. split; [|done].
  destruct Hshape as [[-> ->]|(kept & it & rest & -> & ->)]; [done|]. cbn [pg_items]. rewrite !length_app in *. cbn in *. lia.
Qed.

Lemma serve_rows_within `{Hex} `{Digest} `{PageJsonLaws} {A} cursor_key q maximum (rows : result PageStoreError (list A)) items :
  (forall xs l, items xs = Some l -> length l = length xs) -> pq_limit q <= maximum -> 0 <= maximum ->
  within maximum (serve_rows cursor_key q rows items).
Proof.
  intros Hi Hq Hm. unfold serve_rows, trim_lookahead. destruct rows as [rows|]; [|done].
  destruct (Z.ltb_spec (pq_limit q) (Z.of_nat (length rows))); destruct (items _) as [l|] eqn:E; try done;
    apply served_within; rewrite (Hi _ _ E), ?length_take; lia.
Qed.

(** C40: No page any route serves, for any request and whatever the catalogue holds, has more
    rows than the largest limit of its route, and its JSON text never exceeds
    [MAX_PUBLIC_PAGE_BYTES], the page's cursor included. *)
Theorem served_pages_are_bounded `{Hex} `{Digest} `{PageJsonLaws} cat cursor_key vehicle_id route parameters page :
  fetch_page cat cursor_key vehicle_id route parameters = HrPage page ->
  Z.of_nat (length (pg_items page)) <= max_limit (route_kind route)
  /\ exists bytes, page_bytes page = Some bytes /\ bytes <= MAX_PUBLIC_PAGE_BYTES.
Proof.
  intros E. change (within (max_limit (route_kind route)) (HrPage page)). rewrite <- E. pose proof (max_limit_pos (route_kind route)) as Hm.
  destruct route; cbn [fetch_page route_kind] in *; unfold drives, charges, drive_positions, charge_samples in *;
    try (destruct (materialised_closed_drive_for_vehicle _ _ _) as [[]|]; [|done..]);
    try (destruct (materialised_charge_for_vehicle _ _ _) as [[]|]; [|done..]);
    (destruct (parse_page_query _ _ _ _ _) as [q|r] eqn:Eq; [apply parse_limit in Eq|by eapply refused_within, Eq]);
    apply serve_rows_within; try done.
  all: intros xs l El; first [injection El as <-; by rewrite length_map | by apply mapM_Some, Forall2_length in El].
Qed.

(** ** Two drives, one row a page *)

Definition sample_json : PageJson := {|
  item_bytes item := Some 400;
  page_bytes page := Some (36 + match pg_next_cursor page with Some _ => 186 | None => 2 end
    + (400 * Z.of_nat (length (pg_items page)) + commas (length (pg_items page))));
|}.
Lemma sample_json_laws : @PageJsonLaws sample_json.
Proof.
  split; cbn.
  - intros items cursor. assert (E : mapM (fun _ : PublicItem => Some 400) items = Some (map (fun _ => 400) items)).
    { induction items as [|x items IH]; [done|]. cbn. by rewrite IH. }
    rewrite E. cbn [mbind option_bind]. f_equal.
    assert (Et : bytes_total (map (fun _ : PublicItem => 400) items) = 400 * Z.of_nat (length items)).
    { clear. unfold bytes_total. induction items as [|x items IH]; [done|]. cbn [map foldr length]. lia. }
    rewrite Et. unfold commas. destruct cursor; cbn [length]; lia.
  - eexists. split; [reflexivity|]. cbv. discriminate.
Qed.

Definition sample_drive (id start_ms : Z) : StoredRow ProjectionDrive :=
  MkStoredRow 7 id 0 (MkProjectionDrive id 1 None start_ms (start_ms + 60) None None None None None None None None None None
    None None None None None None None None None None None None None None).
Definition sample_catalogue : Catalogue :=
  MkCatalogue [sample_drive 1 100; sample_drive 2 300; sample_drive 3 300; sample_drive 4 5000] [] [] [] true.

(** The drives in the window, newest first, two of them at one start; the fourth starts
    after it. *)
Lemma history_pages_list_every_row_witness :
  let H := ascii_hex in let D := sample_digest in let J := sample_json in
  (exists l,
    walk (fun cursor => fetch_page sample_catalogue sample_key 7 RouteDrives (request 10 1000 (Some 1) cursor)) 4 None = Some l
    /\ l ≡ₚ history_items sample_catalogue 7 RouteDrives 10 1000
    /\ StronglySorted (fun x y => newest_first (page_key x) (page_key y) = true) l)
  /\ map page_key (history_items sample_catalogue 7 RouteDrives 10 1000) = [(100, 1); (300, 2); (300, 3)].
Proof.
  intros H D J. split; [|vm_compute; reflexivity].
  apply (@history_pages_list_every_row H ascii_hex_laws D J sample_json_laws sample_catalogue sample_key 7 RouteDrives 10 1000 (Some 1)).
  - intros s. apply be_bytes_length.
  - split; [reflexivity|..]; (split; [split|]); cbn; repeat first [constructor | set_solver | done].
  - split; [lia|done|unfold i64_max; lia|]. intros l [= <-]. cbv. split; discriminate.
  - done.
  - intros i _. exists 400. split; [reflexivity|]. intros c [->| ->]; eexists; (split; [reflexivity|]); cbv; discriminate.
Defined.

Definition is_page (response : HistoryResponse) : bool := match response with HrPage _ => true | _ => false end.
Lemma page_answered response : is_page response = true -> exists page, response = HrPage page.
Proof. destruct response; try done. by eexists. Qed.

Lemma served_pages_are_bounded_witness :
  let H := ascii_hex in let D := sample_digest in let J := sample_json in
  exists page, fetch_page sample_catalogue sample_key 7 RouteDrives (request 10 1000 (Some 2) None) = HrPage page
  /\ Z.of_nat (length (pg_items page)) <= 500 /\ exists bytes, page_bytes page = Some bytes /\ bytes <= MAX_PUBLIC_PAGE_BYTES.
Proof.
  intros H D J. destruct (page_answered (fetch_page sample_catalogue sample_key 7 RouteDrives (request 10 1000 (Some 2) None))) as [page E].
  { vm_compute. reflexivity. }
  exists page. split; [exact E|].
  exact (@served_pages_are_bounded H D J sample_json_laws sample_catalogue sample_key 7 RouteDrives (request 10 1000 (Some 2) None) page E).
Defined.
