(* ===== verification/StreamWire.v ===== *)
(** * The wire model of the legacy stream ([src/src/collection/tesla_stream/wire.rs])

    The subscribed columns, the frames the Hub sends, the endpoint rule and the
    reader of one [data:update] frame, with [StreamError] and the two endpoints of
    [src/src/collection/tesla_stream.rs]. *)
From S2P Require Import Prelude RustStr F64 External Endpoint Wire.
From Stdlib Require Import SpecFloat.

Local Open Scope string_scope.
Local Open Scope Z_scope.

(** ** Definitions *)

Definition GLOBAL_STREAM_ENDPOINT : string := "wss://streaming.vn.teslamotors.com/streaming/".
Definition CHINA_STREAM_ENDPOINT : string := "wss://streaming.vn.cloud.tesla.cn/streaming/".

Definition streaming_endpoint (region : StreamRegion) : string :=
  match region with
  | Global => GLOBAL_STREAM_ENDPOINT
  | China => CHINA_STREAM_ENDPOINT
  end.

Inductive StreamError :=
| InvalidEndpoint
| InvalidTag
| InvalidToken
| FrameSerialization
| WrongMessageType
| MalformedControlHello
| MalformedDataUpdate
| InvalidTimestamp
| InvalidCoordinates
| InvalidField.

#[global] Instance StreamError_eq_dec : EqDecision StreamError.
Proof. solve_decision. Defined.

Definition STREAM_COLUMNS : list string :=
  ["elevation"; "est_lat"; "est_lng"; "est_range"; "heading"; "odometer"; "power"; "range";
   "shift_state"; "soc"; "speed"].
Definition VALUE_ELEMENTS : nat := 1 + length STREAM_COLUMNS.
Definition NUMBER_TEXT_MAX : Z := 32.
Definition SHIFT_TEXT_MAX : Z := 32.
Definition TIME_DIGITS_MAX : Z := 19.
Definition TAG_DIGITS_MAX : Z := 20.
Definition TOKEN_BYTES_MAX : Z := 8192.
Definition ENDPOINT_BYTES_MAX : Z := 2048.

Record StreamUpdate := {
  tag : string;
  timestamp_ms : Z;
  elevation : option f64;
  est_heading : option Z;
  est_lat : option f64;
  est_lng : option f64;
  est_range : option f64;
  heading : option f64;
  odometer : option f64;
  power : option Z;
  range : option f64;
  shift_state : option string;
  soc : option f64;
  speed : option f64;
}.

Definition subscribe_value : string := str_join "," STREAM_COLUMNS.

Definition validate_tag (tag : string) : result StreamError unit :=
  if str_is_empty tag || (TAG_DIGITS_MAX <? str_len tag) || negb (str_all is_ascii_digit tag)
  then Err InvalidTag else Ok tt.

(** The frame is written twice, once into a counter; its capacity is not modelled. *)
Definition subscribe_frame_zeroizing {J : JsonText} (tag token : string) : result StreamError string :=
  _ ← validate_tag tag;
  if str_is_empty token || (TOKEN_BYTES_MAX <? str_len token) || str_any is_ascii_control token
  then Err InvalidToken
  else
    let wire := [("msg_type", "data:subscribe_oauth"); ("token", token);
                 ("value", subscribe_value); ("tag", tag)] in
    _ ← ok_or (json_write wire) FrameSerialization;
    ok_or (json_write wire) FrameSerialization.

Definition unsubscribe_frame {J : JsonText} (tag : string) : result StreamError string :=
  _ ← validate_tag tag;
  ok_or (json_write [("msg_type", "data:unsubscribe"); ("tag", tag)]) FrameSerialization.

Definition validate_endpoint {X : External} (value : string) (allow_test_loopback : bool) :
    result StreamError unit :=
  if str_is_empty value || (ENDPOINT_BYTES_MAX <? str_len value) then Err InvalidEndpoint
  else if str_any (fun b => (byte_of b <=? 32) || (byte_of b =? 127) || (byte_of b =? 92)
                            || (byte_of b =? 35)) value then Err InvalidEndpoint
  else
    '(scheme, rest) ← ok_or (split_once_str "://" value) InvalidEndpoint;
    let plaintext := eq_ignore_ascii_case scheme "ws" in
    if negb (eq_ignore_ascii_case scheme "wss" || (allow_test_loopback && plaintext))
    then Err InvalidEndpoint
    else
      let authority := take_until (fun b => (byte_of b =? 47) || (byte_of b =? 63)) rest in
      if str_is_empty authority || str_contains "@" authority then Err InvalidEndpoint
      else
        url ← ok_or (url_parse value) InvalidEndpoint;
        if is_none_or (url_host_str url) str_is_empty || negb (str_is_empty (url_username url))
           || is_some (url_password url) || is_some (url_fragment url)
        then Err InvalidEndpoint
        else if plaintext && negb (is_some_and (url_host_str url) (fun host =>
                  bool_decide (host ∈ ["127.0.0.1"; "[::1]"; "localhost"])))
        then Err InvalidEndpoint
        else Ok tt.

Definition validate_endpoint_override {X : External} (value : string) : result StreamError unit :=
  validate_endpoint value false.

(** [trim] of [wire.rs]: ASCII whitespace only. *)
Definition trim (text : string) : string := trim_matches is_ascii_whitespace text.

Definition parse_sample_time (element : string) : result StreamError Z :=
  let text := trim element in
  if str_is_empty text || (TIME_DIGITS_MAX <? str_len text) || negb (str_all is_ascii_digit text)
  then Err InvalidTimestamp
  else match parse_i64 text with
       | Some time => if 0 <? time then Ok time else Err InvalidTimestamp
       | None => Err InvalidTimestamp
       end.

(** [Cell<T>] is [Result<Option<T>, ()>]. *)
Definition Cell (A : Type) : Type := result unit (option A).

Definition settle {A} (cell : Cell A) (invalid : Z) : option A * Z :=
  match cell with
  | Ok v => (v, invalid)
  | Err _ => (None, u32_sadd invalid 1)
  end.

Definition all_digits (part : string) : bool := negb (str_is_empty part) && str_all is_ascii_digit part.

Definition unsigned_part (integer : string) : string :=
  match strip_prefix "-" integer with Some digits => digits | None => integer end.

Definition decimal_parts (text : string) : option (string * option string) :=
  if NUMBER_TEXT_MAX <? str_len text then None
  else
    let '(integer, fraction) :=
      match split_once "." text with
      | Some (integer, fraction) => (integer, Some fraction)
      | None => (text, None)
      end in
    let digits := unsigned_part integer in
    if negb (all_digits digits) || is_some_and fraction (fun fraction => negb (all_digits fraction))
    then None else Some (integer, fraction).

(** [text.parse::<f64>()] of a text [decimal_parts] has split: the nearest double. *)
Definition parse_f64_decimal (integer : string) (fraction : option string) : option f64 :=
  let fraction := default "" fraction in
  n ← digits_value (unsigned_part integer +:+ fraction);
  Some (f64_of_ratio (is_some (strip_prefix "-" integer)) n
          (Z.to_pos (10 ^ str_len fraction))).

Definition parse_float (element : string) : Cell f64 :=
  let text := trim element in
  if str_is_empty text then Ok None
  else
    '(integer, fraction) ← ok_or (decimal_parts text) tt;
    ok_or (Some <$> parse_f64_decimal integer fraction) tt.

Definition parse_whole (element : string) : Cell Z :=
  let text := trim element in
  if str_is_empty text then Ok None
  else
    '(integer, fraction) ← ok_or (decimal_parts text) tt;
    if is_some_and fraction (str_any (fun b => negb (byte_of b =? 48))) then Err tt
    else ok_or (Some <$> parse_i64 integer) tt.

Definition is_printable (b : ascii) : bool := (32 <=? byte_of b) && (byte_of b <=? 126).

Definition parse_shift (element : string) : Cell string :=
  let text := trim element in
  if str_is_empty text then Ok None
  else if (SHIFT_TEXT_MAX <? str_len text) || negb (str_all is_printable text) then Err tt
  else Ok (Some text).

(** The elements of [value] behind the sample time, in column order. *)
Definition read_elements (tag : string) (time : Z) (elements : list string) :
    option (StreamUpdate * Z) :=
  match elements with
  | [e1; e2; e3; e4; e5; e6; e7; e8; e9; e10; e11] =>
      let '(elevation, n) := settle (parse_float e1) 0 in
      let '(est_lat, n) := settle (parse_float e2) n in
      let '(est_lng, n) := settle (parse_float e3) n in
      let '(est_range, n) := settle (parse_float e4) n in
      let '(heading, n) := settle (parse_float e5) n in
      let '(odometer, n) := settle (parse_float e6) n in
      let '(power, n) := settle (parse_whole e7) n in
      let '(range, n) := settle (parse_float e8) n in
      let '(shift_state, n) := settle (parse_shift e9) n in
      let '(soc, n) := settle (parse_float e10) n in
      let '(speed, n) := settle (parse_float e11) n in
      Some ({| tag := tag; timestamp_ms := time; elevation := elevation; est_heading := None;
               est_lat := est_lat; est_lng := est_lng; est_range := est_range; heading := heading;
               odometer := odometer; power := power; range := range; shift_state := shift_state;
               soc := soc; speed := speed |}, n)
  | _ => None
  end.

Definition parse_data_update_counted {X : External} (frame : string) :
    result StreamError (StreamUpdate * Z) :=
  match json_from_slice frame with
  | Some (JObject members) =>
      match obj_get "msg_type" members with
      | Some (JString msg_type) =>
          if negb (bool_decide (msg_type = "data:update")) then Err WrongMessageType
          else
            match obj_get "tag" members, obj_get "value" members with
            | Some (JString tag), Some (JString value) =>
                match str_split "," value with
                | e0 :: elements =>
                    if negb (Nat.eqb (length (e0 :: elements)) VALUE_ELEMENTS)
                    then Err MalformedDataUpdate
                    else
                      time ← parse_sample_time e0;
                      ok_or (read_elements tag time elements) MalformedDataUpdate
                | [] => Err MalformedDataUpdate
                end
            | _, _ => Err MalformedDataUpdate
            end
      | _ => Err MalformedDataUpdate
      end
  | _ => Err MalformedDataUpdate
  end.

Definition parse_data_update {X : External} (frame : string) : result StreamError StreamUpdate :=
  fst <$> parse_data_update_counted frame.

(** ** Lemmas *)

Lemma unsigned_part_len s : str_len (unsigned_part s) <= str_len s.
Proof.
  unfold unsigned_part. destruct (strip_prefix "-" s) as [t|] eqn:E; [|done].
  apply strip_prefix_Some in E as ->. rewrite str_len_app. unfold str_len. simpl. lia.
Qed.

Lemma decimal_parts_Some text integer fraction :
  decimal_parts text = Some (integer, fraction) ->
  str_len integer + str_len (default "" fraction) <= NUMBER_TEXT_MAX /\
  all_digits (unsigned_part integer) = true /\
  text = match fraction with Some f => integer +:+ String "." f | None => integer end /\
  (forall f, fraction = Some f -> all_digits f = true).
Proof.
  unfold decimal_parts. case_match eqn:Hl; [done|]. bsimp.
  destruct (split_once "." text) as [[a b]|] eqn:Es.
  - apply split_once_Some in Es as [-> _]. case_match eqn:Hc; [done|].
    apply orb_false_iff in Hc as [Ha Hb]. intros; simplify_eq. simpl in *. bsimp.
    rewrite str_len_app in Hl. unfold str_len at 2 in Hl. cbn [String.length] in Hl. unfold str_len in *.
    split_and!; [lia|done|done|by intros ? [= ->]].
  - case_match eqn:Hc; [done|]. apply orb_false_iff in Hc as [Ha _]. intros; simplify_eq. bsimp.
    change (str_len (default "" None)) with 0. split_and!; [lia|done|done|done].
Qed.

Lemma digits_value_bound s n : digits_value s = Some n -> 0 <= n < 10 ^ str_len s.
Proof.
  unfold digits_value. destruct s as [|c s]; [done|].
  intros H%digits_acc_bounds; [|lia]. lia.
Qed.

(** A decimal column is finite: never NaN, never an infinity. *)
Lemma parse_float_finite e x : parse_float e = Ok (Some x) -> f64_is_finite x = true.
Proof.
  unfold parse_float. case_match; [done|].
  destruct (decimal_parts (trim e)) as [[i f]|] eqn:Ed; [|done]. cbn [ok_or mbind result_bind].
  apply decimal_parts_Some in Ed as (Hlen & _). unfold parse_f64_decimal.
  destruct (digits_value _) as [n|] eqn:En; [|done]. cbn. intros [= <-].
  apply f64_of_ratio_finite. apply digits_value_bound in En. rewrite str_len_app in En.
  pose proof (unsigned_part_len i). unfold NUMBER_TEXT_MAX in Hlen.
  split; [lia|]. apply Z.lt_le_trans with (10 ^ 32); [|vm_compute; discriminate].
  apply Z.lt_le_trans with (10 ^ (str_len (unsigned_part i) + str_len (default "" f))); [lia|].
  apply Z.pow_le_mono_r; lia.
Qed.

Lemma parse_int_range lo hi s v : parse_int lo hi s = Some v -> lo <= v <= hi.
Proof.
  assert (Hb : forall w, (if (lo <=? w) && (w <=? hi) then Some w else None) = Some v -> lo <= v <= hi).
  { intros w. case_match eqn:E; [|done]. intros [= <-]. bsimp. lia. }
  unfold parse_int. destruct s as [|c s]; [done|].
  destruct (bool_decide (c = "+"%char)); [|destruct (bool_decide (c = "-"%char) && (lo <? 0))];
    intros (w & _ & H)%bind_Some; eauto.
Qed.

Lemma parse_whole_range e n : parse_whole e = Ok (Some n) -> in_i64 n.
Proof.
  unfold parse_whole. case_match; [done|].
  destruct (decimal_parts (trim e)) as [[i f]|]; [|done]. cbn [ok_or mbind result_bind].
  case_match; [done|]. destruct (parse_i64 i) as [m|] eqn:Em; cbn; [|done]. intros [= <-].
  by apply parse_int_range in Em.
Qed.

Lemma parse_shift_Some e s :
  parse_shift e = Ok (Some s) ->
  s = trim e /\ s <> "" /\ str_len s <= SHIFT_TEXT_MAX /\ str_all is_printable s = true.
Proof.
  unfold parse_shift. destruct (trim e) as [|c t] eqn:E; [done|]. cbn [str_is_empty].
  case_match eqn:H; [done|]. intros [= <-]. apply orb_false_iff in H as [? H]. bsimp. split_and!; done.
Qed.

(** ** What an accepted frame is *)

(** The value of one column, by the column's kind. *)
Inductive column_value := Decimal (x : option f64) | Whole (n : option Z) | Gear (s : option string).

(** The field of a column, by its wire name. *)
Definition field_of (name : string) (u : StreamUpdate) : option column_value :=
  if bool_decide (name = "elevation") then Some (Decimal (elevation u))
  else if bool_decide (name = "est_lat") then Some (Decimal (est_lat u))
  else if bool_decide (name = "est_lng") then Some (Decimal (est_lng u))
  else if bool_decide (name = "est_range") then Some (Decimal (est_range u))
  else if bool_decide (name = "heading") then Some (Decimal (heading u))
  else if bool_decide (name = "odometer") then Some (Decimal (odometer u))
  else if bool_decide (name = "power") then Some (Whole (power u))
  else if bool_decide (name = "range") then Some (Decimal (range u))
  else if bool_decide (name = "shift_state") then Some (Gear (shift_state u))
  else if bool_decide (name = "soc") then Some (Decimal (soc u))
  else if bool_decide (name = "speed") then Some (Decimal (speed u))
  else None.

Definition cell_value {A} (cell : Cell A) : option A :=
  match cell with Ok v => v | Err _ => None end.

(** An element read as its column's kind, alone. *)
Definition read_column (name element : string) : column_value :=
  if bool_decide (name = "power") then Whole (cell_value (parse_whole element))
  else if bool_decide (name = "shift_state") then Gear (cell_value (parse_shift element))
  else Decimal (cell_value (parse_float element)).

Definition element_invalid (name element : string) : bool :=
  if bool_decide (name = "power") then negb (is_ok (parse_whole element))
  else if bool_decide (name = "shift_state") then negb (is_ok (parse_shift element))
  else negb (is_ok (parse_float element)).

(** How many elements are invalid, column by column. *)
Definition invalid_elements (elements : list string) : Z :=
  Z.of_nat (length (List.filter (fun '(name, e) => element_invalid name e)
                      (zip STREAM_COLUMNS elements))).

Definition reads_columns (u : StreamUpdate) (elements : list string) : Prop :=
  forall i name e, STREAM_COLUMNS !! i = Some name -> elements !! i = Some e ->
    field_of name u = Some (read_column name e).

Lemma settle_spec {A} (cell : Cell A) n :
  0 <= n <= 20 ->
  settle cell n = (cell_value cell, n + (if is_ok cell then 0 else 1)).
Proof. intros. destruct cell; simpl; f_equal; mlia. Qed.

Lemma count_filter_cons {A} (p : A -> bool) x l :
  Z.of_nat (length (List.filter p (x :: l)))
  = (if p x then 1 else 0) + Z.of_nat (length (List.filter p l)).
Proof. simpl. destruct (p x); cbn [length]; lia. Qed.

Lemma count_negb (b : bool) : (if negb b then 1 else 0) = (if b then 0 else 1) :> Z.
Proof. by destruct b. Qed.

Lemma read_elements_spec t time e1 e2 e3 e4 e5 e6 e7 e8 e9 e10 e11 :
  let elements := [e1; e2; e3; e4; e5; e6; e7; e8; e9; e10; e11] in
  exists u, read_elements t time elements = Some (u, invalid_elements elements) /\
    tag u = t /\ timestamp_ms u = time /\ est_heading u = None /\ reads_columns u elements.
Proof.
  intros elements. unfold read_elements, elements.
  assert (Hb : forall b : bool, 0 <= (if b then 0 else 1) <= 1) by (intros []; lia).
  pose proof (Hb (is_ok (parse_float e1))). pose proof (Hb (is_ok (parse_float e2))).
  pose proof (Hb (is_ok (parse_float e3))). pose proof (Hb (is_ok (parse_float e4))).
  pose proof (Hb (is_ok (parse_float e5))). pose proof (Hb (is_ok (parse_float e6))).
  pose proof (Hb (is_ok (parse_whole e7))). pose proof (Hb (is_ok (parse_float e8))).
  pose proof (Hb (is_ok (parse_shift e9))). pose proof (Hb (is_ok (parse_float e10))).
  do 11 (rewrite settle_spec by lia).
  refine (ex_intro _ _ (conj (f_equal Some (f_equal2 pair eq_refl _)) _)); [|split_and!; [done..|]].
  - unfold invalid_elements, STREAM_COLUMNS. cbn [zip zip_with].
    rewrite !count_filter_cons. cbn [List.filter length].
    unfold element_invalid.
    repeat match goal with |- context [bool_decide (?a = ?b :> string)] =>
      let v := eval vm_compute in (bool_decide (a = b)) in change (bool_decide (a = b)) with v end.
    cbv iota. rewrite !count_negb. lia.
  - intros i name e Hn He.
    do 11 (destruct i as [|i]; [cbn in Hn, He; simplify_eq; reflexivity|]). done.
Qed.

(** The reference of a sample time: 1 to 19 digits with a value in [1, i64::MAX]. *)
Definition sample_time (element : string) (t : Z) : Prop :=
  digits_value (trim element) = Some t /\ str_len (trim element) <= TIME_DIGITS_MAX /\ 0 < t <= i64_max.

Lemma parse_sample_time_spec e t : parse_sample_time e = Ok t <-> sample_time e t.
Proof.
  unfold parse_sample_time, sample_time. destruct (trim e) as [|c s] eqn:E; [naive_solver|].
  cbn [str_is_empty orb]. destruct (TIME_DIGITS_MAX <? str_len (String c s)) eqn:Hl; bsimp; cbn [orb].
  { split; [done|]. lia. }
  destruct (str_all is_ascii_digit (String c s)) eqn:Hd; cbn [negb].
  - unfold parse_i64. rewrite parse_int_digits by (done || mlia).
    destruct (digits_value (String c s)) as [v|]; cbn [mbind option_bind]; [|naive_solver].
    destruct (v <=? i64_max) eqn:Hv; [destruct (0 <? v) eqn:Hp|]; bsimp; naive_solver lia.
  - split; [done|]. intros (H & _). apply digits_value_all in H as [_ H]. congruence.
Qed.

Lemma parse_sample_time_err e err : parse_sample_time e = Err err -> err = InvalidTimestamp.
Proof. unfold parse_sample_time. repeat case_match; naive_solver. Qed.

Section Frames.
Context {X : External}.

(** The text is a JSON object that says it is a [data:update] for [t] with [value]. *)
Definition update_frame (frame t value : string) : Prop :=
  exists members, json_from_slice frame = Some (JObject members) /\
    obj_get "msg_type" members = Some (JString "data:update") /\
    obj_get "tag" members = Some (JString t) /\ obj_get "value" members = Some (JString value).

(** It splits into the sample time and one element per column. *)
Definition sample_frame (frame t e0 : string) (elements : list string) : Prop :=
  exists value, update_frame frame t value /\ str_split "," value = e0 :: elements /\
    length elements = length STREAM_COLUMNS.

Lemma invalid_elements_range elements : 0 <= invalid_elements elements <= 11.
Proof.
  unfold invalid_elements. split; [lia|].
  pose proof (List.filter_length_le (fun '(name, e) => element_invalid name e) (zip STREAM_COLUMNS elements)) as H.
  rewrite length_zip_with in H. change (length STREAM_COLUMNS) with 11%nat in H.
  pose proof (Nat.le_min_l 11 (length elements)). lia.
Qed.

Lemma length_11 {A} (l : list A) : length l = 11%nat ->
  exists a b c d e f g h i j k, l = [a; b; c; d; e; f; g; h; i; j; k].
Proof.
  intros H. do 11 (destruct l as [|? l]; [done|]). destruct l; [|done]. by repeat eexists.
Qed.

(** A sample frame is read; only its time can refuse it. *)
Lemma parse_sample_frame frame t e0 elements :
  sample_frame frame t e0 elements ->
  match parse_sample_time e0 with
  | Ok time => exists u, parse_data_update_counted frame = Ok (u, invalid_elements elements) /\
      tag u = t /\ timestamp_ms u = time /\ est_heading u = None /\ reads_columns u elements
  | Err _ => parse_data_update_counted frame = Err InvalidTimestamp
  end.
Proof.
  intros (v & (m & H1 & H0 & H2 & H3) & H4 & Hlen). unfold parse_data_update_counted.
  rewrite H1, H0, bool_decide_true by done. cbn [negb]. rewrite H2, H3, H4. cbn [length].
  rewrite Hlen. cbn [Nat.eqb VALUE_ELEMENTS length STREAM_COLUMNS plus negb].
  destruct (parse_sample_time e0) as [time|err] eqn:Et; cbn [mbind result_bind].
  - destruct (length_11 elements Hlen) as (a & b & c & d & e & f & g & h & i & j & k & ->).
    destruct (read_elements_spec t time a b c d e f g h i j k) as (u & -> & Hu). by exists u.
  - by apply parse_sample_time_err in Et as ->.
Qed.

(** Anything else is refused without reading a value. *)
Lemma parse_other_frame frame :
  (forall t e0 elements, ~ sample_frame frame t e0 elements) ->
  parse_data_update_counted frame = Err WrongMessageType \/
  parse_data_update_counted frame = Err MalformedDataUpdate.
Proof.
  intros Hno. unfold parse_data_update_counted.
  destruct (json_from_slice frame) as [[| | | | |m]|] eqn:H1; auto.
  destruct (obj_get "msg_type" m) as [[| | |mt| |]|] eqn:H0; auto.
  case_bool_decide as Hmt; cbn [negb]; [subst mt|by left].
  destruct (obj_get "tag" m) as [[| | |t| |]|] eqn:H2; auto.
  destruct (obj_get "value" m) as [[| | |v| |]|] eqn:H3; auto.
  destruct (str_split "," v) as [|e0 elements] eqn:H4; auto.
  destruct (Nat.eqb _ _) eqn:Hl; cbn [negb]; [|by right].
  apply Nat.eqb_eq in Hl. cbn in Hl. destruct (Hno t e0 elements). exists v.
  split; [by exists m|]. split; [done|]. simpl in *. lia.
Qed.

(** The parts of a sample frame, computed. *)
Definition frame_parts (frame : string) : option (string * string * list string) :=
  match json_from_slice frame with
  | Some (JObject m) =>
      match obj_get "msg_type" m, obj_get "tag" m, obj_get "value" m with
      | Some (JString mt), Some (JString t), Some (JString v) =>
          match str_split "," v with
          | e0 :: l => if bool_decide (mt = "data:update") && Nat.eqb (length l) (length STREAM_COLUMNS)
                       then Some (t, e0, l) else None
          | [] => None
          end
      | _, _, _ => None
      end
  | _ => None
  end.

Lemma frame_parts_spec frame t e0 l : sample_frame frame t e0 l <-> frame_parts frame = Some (t, e0, l).
Proof.
  unfold frame_parts. split.
  - intros (v & (m & -> & -> & -> & ->) & -> & Hl). by rewrite Hl, bool_decide_true.
  - destruct (json_from_slice frame) as [[| | | | |m]|] eqn:H1; try done.
    destruct (obj_get "msg_type" m) as [[| | |mt| |]|] eqn:H0; try done.
    destruct (obj_get "tag" m) as [[| | |t'| |]|] eqn:H2; try done.
    destruct (obj_get "value" m) as [[| | |v| |]|] eqn:H3; try done.
    destruct (str_split "," v) as [|e0' l'] eqn:H4; try done. case_match eqn:Hc; [|done].
    intros [= <- <- <-]. apply andb_true_iff in Hc as [Hmt Hl]. apply bool_decide_eq_true in Hmt.
    apply Nat.eqb_eq in Hl. subst mt. exists v. split; [by exists m|done].
Qed.

(** ** Properties *)

(** A telemetry record as the Hub may store it. *)
Definition update_wf (u : StreamUpdate) : Prop :=
  0 < timestamp_ms u <= i64_max /\ est_heading u = None /\
  (forall n, power u = Some n -> in_i64 n) /\
  (forall s, shift_state u = Some s -> s <> "" /\ str_len s <= SHIFT_TEXT_MAX /\ str_all is_printable s = true) /\
  Forall (fun o => forall x, o = Some x -> f64_is_finite x = true)
    [elevation u; est_lat u; est_lng u; est_range u; heading u; odometer u; range u; soc u; speed u].

Lemma cell_value_Some {A} (c : Cell A) a : cell_value c = Some a -> c = Ok (Some a).
Proof. destruct c as [[?|]|]; simpl; naive_solver. Qed.

Lemma reads_columns_wf u elements :
  length elements = length STREAM_COLUMNS -> reads_columns u elements ->
  (forall n, power u = Some n -> in_i64 n) /\
  (forall s, shift_state u = Some s -> s <> "" /\ str_len s <= SHIFT_TEXT_MAX /\ str_all is_printable s = true) /\
  Forall (fun o => forall x, o = Some x -> f64_is_finite x = true)
    [elevation u; est_lat u; est_lng u; est_range u; heading u; odometer u; range u; soc u; speed u].
Proof.
  intros (e1 & e2 & e3 & e4 & e5 & e6 & e7 & e8 & e9 & e10 & e11 & ->)%length_11 H.
  assert (Hf : forall o e, Some (Decimal o) = Some (Decimal (cell_value (parse_float e))) ->
    forall x, o = Some x -> f64_is_finite x = true).
  { intros o e [= ->] x Hx%cell_value_Some. by apply parse_float_finite in Hx. }
  split_and!.
  - intros n Hn. pose proof (H 6%nat "power" e7 eq_refl eq_refl) as [= E]. rewrite E in Hn.
    by apply cell_value_Some, parse_whole_range in Hn.
  - intros s Hs. pose proof (H 8%nat "shift_state" e9 eq_refl eq_refl) as [= E]. rewrite E in Hs.
    apply cell_value_Some, parse_shift_Some in Hs. naive_solver.
  - repeat (apply Forall_cons; split); [..|done].
    + exact (Hf _ _ (H 0%nat "elevation" e1 eq_refl eq_refl)).
    + exact (Hf _ _ (H 1%nat "est_lat" e2 eq_refl eq_refl)).
    + exact (Hf _ _ (H 2%nat "est_lng" e3 eq_refl eq_refl)).
    + exact (Hf _ _ (H 3%nat "est_range" e4 eq_refl eq_refl)).
    + exact (Hf _ _ (H 4%nat "heading" e5 eq_refl eq_refl)).
    + exact (Hf _ _ (H 5%nat "odometer" e6 eq_refl eq_refl)).
    + exact (Hf _ _ (H 7%nat "range" e8 eq_refl eq_refl)).
    + exact (Hf _ _ (H 9%nat "soc" e10 eq_refl eq_refl)).
    + exact (Hf _ _ (H 10%nat "speed" e11 eq_refl eq_refl)).
Qed.

Lemma accepted_update_spec (frame : string) (u : StreamUpdate) (n : Z) :
  parse_data_update_counted frame = Ok (u, n) -> update_wf u /\ 0 <= n <= 11.
Proof.
  intros Hok.
  destruct (frame_parts frame) as [[[t e0] l]|] eqn:Hp.
  - apply frame_parts_spec in Hp. pose proof (parse_sample_frame frame t e0 l Hp) as H.
    destruct (parse_sample_time e0) as [time|] eqn:Et; [|congruence].
    destruct H as (u' & Hu' & Ht & Htime & Hest & Hcols). rewrite Hok in Hu'. simplify_eq.
    destruct Hp as (v & _ & _ & Hlen). apply parse_sample_time_spec in Et as (_ & _ & Htime).
    split; [|by apply invalid_elements_range]. unfold update_wf. split; [done|]. split; [done|].
    by apply (reads_columns_wf _ l).
  - destruct (parse_other_frame frame) as [E|E]; [|congruence..].
    intros t e0 l Hs%frame_parts_spec. congruence.
Qed.

(** Whatever text a server sends, a telemetry record the reader accepts is
    well formed: its time is a positive [i64], its power an [i64], every other
    number is finite (never NaN or an infinity), and a gear is 1 to 32 printable
    bytes; no more elements than columns are counted invalid. *)
Theorem accepted_update_well_formed (frame : string) (u : StreamUpdate) (n : Z)
    (Hok : parse_data_update_counted frame = Ok (u, n)) :
  update_wf u /\ 0 <= n <= 11.
Proof. exact (accepted_update_spec frame u n Hok). Qed.

(** A frame is read exactly when it is a [data:update] object whose value has
    the sample time and one element per requested column; each field is read from
    the element at its column's position and from no other, a bad element costs
    its own field only, and the count is the number of bad elements.  The one
    other refusal of such a frame is a bad sample time. *)
Theorem frame_read_by_columns (frame : string) :
  (forall t e0 elements time, sample_frame frame t e0 elements -> sample_time e0 time ->
    exists u, parse_data_update_counted frame = Ok (u, invalid_elements elements) /\
      tag u = t /\ timestamp_ms u = time /\ reads_columns u elements) /\
  (forall u n, parse_data_update_counted frame = Ok (u, n) ->
    exists e0 elements, sample_frame frame (tag u) e0 elements /\
      sample_time e0 (timestamp_ms u) /\ reads_columns u elements /\ n = invalid_elements elements) /\
  (parse_data_update_counted frame = Err InvalidTimestamp <->
    exists t e0 elements, sample_frame frame t e0 elements /\ forall time, ~ sample_time e0 time) /\
  (forall e, parse_data_update_counted frame = Err e ->
    e ∈ [WrongMessageType; MalformedDataUpdate; InvalidTimestamp]).
Proof.
  destruct (frame_parts frame) as [[[t e0] l]|] eqn:Hp.
  - assert (Hu : forall t' e0' l', sample_frame frame t' e0' l' -> (t', e0', l') = (t, e0, l)).
    { intros ? ? ? Hs%frame_parts_spec. congruence. }
    apply frame_parts_spec in Hp. pose proof (parse_sample_frame frame t e0 l Hp) as H.
    destruct (parse_sample_time e0) as [time|e] eqn:Et.
    + apply parse_sample_time_spec in Et. destruct H as (u & Hok & Ht & Htime & _ & Hcols).
      rewrite Hok. split_and!.
      * intros ? ? ? time' Hs%Hu [Ht' _]. simplify_eq. destruct Et as [Et _]. rewrite Et in Ht'. simplify_eq. eauto.
      * intros u' n' [= <- <-]. exists e0, l. by subst.
      * split; [done|]. intros (? & ? & ? & Hs%Hu & Hno). simplify_eq. by destruct (Hno (timestamp_ms u)).
      * done.
    + rewrite H. split_and!.
      * intros ? ? ? time' Hs%Hu Ht'%parse_sample_time_spec. simplify_eq. congruence.
      * done.
      * split; [|done]. intros _. exists t, e0, l. split; [done|]. intros time Ht%parse_sample_time_spec. congruence.
      * intros ? [= <-]. set_solver.
  - assert (Hno : forall t e0 l, ~ sample_frame frame t e0 l) by (intros ? ? ? Hs%frame_parts_spec; congruence).
    destruct (parse_other_frame frame Hno) as [E|E]; rewrite E; (split_and!; [naive_solver..| |]);
      [split; [done|naive_solver]|intros ? [= <-]; set_solver|split; [done|naive_solver]|intros ? [= <-]; set_solver].
Qed.

End Frames.

(** ** A concrete reader and frames *)
Module SampleFrames.

Definition frame_object (value : string) : json :=
  JObject [("msg_type", JString "data:update"); ("tag", JString "1234567890"); ("value", JString value)].

(** A JSON reader that takes a text for the [value] of one [data:update]. *)
Definition external : External := {|
  Url := Sample.surl;
  url_parse := Sample.parse;
  url_scheme := Sample.su_scheme;
  url_host_str u := Some (Sample.su_host u);
  url_host := Sample.host;
  url_username _ := "";
  url_password _ := None;
  url_query _ := None;
  url_fragment _ := None;
  b64url_decode s := Some s;
  json_from_slice s := Some (frame_object s);
|}.

Definition good : string := "1700000000000,12,33.5,-97.25,200,90,12345.6,-15.0,210,D,80,65".
Definition two_bad : string := "1700000000000,NaN,33.5,-97.25,200,90,1e3,-15,210,,80,65".

Example reads_good :
  match parse_data_update_counted (X := external) good with
  | Ok (u, n) => timestamp_ms u = 1700000000000 /\ power u = Some (-15) /\ shift_state u = Some "D" /\
      est_lng u = Some (f64_of_ratio true 9725 100) /\ n = 0
  | Err _ => False
  end.
Proof. vm_compute. repeat split. Qed.

Example reads_two_bad :
  match parse_data_update_counted (X := external) two_bad with
  | Ok (u, n) => elevation u = None /\ odometer u = None /\ shift_state u = None /\ n = 2
  | Err _ => False
  end.
Proof. vm_compute. repeat split. Qed.

End SampleFrames.

Lemma accepted_update_well_formed_witness :
  match parse_data_update_counted (X := SampleFrames.external) SampleFrames.good with
  | Ok (u, n) => update_wf u /\ 0 <= n <= 11
  | Err _ => False
  end.
Proof.
  destruct (parse_data_update_counted (X := SampleFrames.external) SampleFrames.good) as [[u n]|e] eqn:E.
  - exact (accepted_update_well_formed (X := SampleFrames.external) SampleFrames.good u n E).
  - vm_compute in E. discriminate.
Defined.

(** The columns are requested in the order the reader assigns them, with no comma
    inside a name, so the server's answer lines up with the request. *)
Lemma subscribe_value_columns : str_split "," subscribe_value = STREAM_COLUMNS.
Proof. vm_compute. reflexivity. Qed.
