(* ===== verification/StreamPolicy.v ===== *)
(** * The policy of the legacy stream ([src/src/collection/tesla_stream/policy.rs])

    Failure classes, retry counters and delays, the classification of hellos,
    errors and upgrade answers, the silence limits, the motion rule, the outcome
    of a session and the power gate.  Durations are nanoseconds ([External]); a
    jitter draw is an arbitrary double. *)
From S2P Require Import Prelude RustStr F64 External LifeData StreamWire.
From Stdlib Require Import SpecFloat.

Local Open Scope string_scope.
Local Open Scope Z_scope.

(** ** Definitions *)

Definition PING_INTERVAL_DEFAULT : Duration := from_secs 15.
Definition PING_INTERVAL_MIN : Duration := from_secs 5.
Definition SILENCE_MOVING_MIN : Duration := from_secs 60.
Definition SILENCE_PARKED : Duration := from_secs 300.
Definition TRANSPORT_BASE : Duration := from_secs 2.
Definition TRANSPORT_CAP : Duration := from_secs 300.
Definition VEHICLE_BASE : Duration := from_secs 15.
Definition VEHICLE_CAP : Duration := from_secs 120.
Definition REFUSAL_FIRST : Duration := from_secs 5.
Definition REFUSAL_REPEATED : Duration := from_secs 300.
Definition RETRY_AFTER_CAP : Duration := from_secs 3600.
Definition START_JITTER : Duration := from_secs 1.
Definition COUNTER_SATURATION : Z := 32.
Definition GATE_FRESH_MS : Z := 30000.
(** [K_STREAM_POWER_KW] of [scheduler_sleep.rs]. *)
Definition K_STREAM_POWER_KW : Z := 1.

Inductive FailureClass :=
| Transport
| Busy (retry_after : option Duration)
| Vehicle
| Refusal
| Protocol
| Unknown.

#[global] Instance FailureClass_eq_dec : EqDecision FailureClass.
Proof. unfold EqDecision, Duration. solve_decision. Defined.

Record RetryState := MkRetryState {
  transport_attempt : Z;
  vehicle_attempt : Z;
  refusal_streak : Z;
}.
#[global] Instance eta_RetryState : Eta RetryState := fun x =>
  MkRetryState (transport_attempt x) (vehicle_attempt x) (refusal_streak x).
Definition RetryState_default : RetryState := MkRetryState 0 0 0.

Definition bump (counter : Z) : Z := Z.min (u32_sadd counter 1) COUNTER_SATURATION.

Definition on_session_end (self : RetryState) (class : FailureClass) : RetryState :=
  match class with
  | Transport | Busy _ | Unknown | Protocol =>
      self <| transport_attempt := bump (transport_attempt self) |>
  | Vehicle =>
      self <| vehicle_attempt := bump (vehicle_attempt self) |> <| transport_attempt := 0 |>
  | Refusal =>
      self <| refusal_streak := bump (refusal_streak self) |> <| transport_attempt := 0 |>
  end.

Definition retry_on_first_accepted (self : RetryState) : RetryState :=
  self <| vehicle_attempt := 0 |> <| refusal_streak := 0 |>.

Definition on_stable (self : RetryState) : RetryState := self <| transport_attempt := 0 |>.

Definition doubling (base cap : Duration) (counter : Z) : Duration :=
  let exponent := Z.min (u32_ssub (Z.max counter 1) 1) 16 in
  Z.min (duration_smul base (Z.shiftl 1 exponent)) cap.

Definition nominal_delay (class : FailureClass) (state : RetryState) : Duration :=
  match class with
  | Transport | Busy _ | Unknown | Protocol =>
      doubling TRANSPORT_BASE TRANSPORT_CAP (transport_attempt state)
  | Vehicle => doubling VEHICLE_BASE VEHICLE_CAP (vehicle_attempt state)
  | Refusal => if refusal_streak state <=? 1 then REFUSAL_FIRST else REFUSAL_REPEATED
  end.

Definition f64_half : f64 := f64_div f64_one (f64_of_Z 2).

(** The draw, forced into [0, 1]. *)
Definition unit_draw (u : f64) : f64 :=
  if f64_is_nan u then f64_zero else f64_clamp u f64_zero f64_one.

Definition jittered (nominal : Duration) (u : f64) : Duration :=
  let u := unit_draw u in
  let millis := f64_floor (f64_mul (f64_of_Z (as_millis nominal))
                             (f64_add f64_half (f64_mul f64_half u))) in
  from_millis (f64_as_u64 millis).

Definition next_delay (class : FailureClass) (state : RetryState) (u : f64) : Duration :=
  let delay := jittered (nominal_delay class state) u in
  match class with
  | Busy (Some retry_after) => Z.max delay (Z.min retry_after RETRY_AFTER_CAP)
  | _ => delay
  end.

Definition start_delay (u : f64) : Duration :=
  let u := unit_draw u in
  from_millis (f64_as_u64 (f64_floor (f64_mul (f64_of_Z (as_millis START_JITTER)) u))).

Definition terminal_credential_delay (u : f64) : Duration := jittered REFUSAL_REPEATED u.

Definition is_token_byte (b : ascii) : bool :=
  is_ascii_lowercase b || is_ascii_digit b || (byte_of b =? 95).

Definition is_vehicle_token (token : string) : bool :=
  is_some_and (strip_prefix "vehicle_" token)
    (fun rest => negb (str_is_empty rest) && str_all is_token_byte rest).

Definition classify_error (error_type : option string) : FailureClass :=
  match error_type with
  | Some token => if is_vehicle_token token then Vehicle else Unknown
  | None => Unknown
  end.

Definition classify_hello (code : option Z) (error_type : option string) : option FailureClass :=
  if is_some error_type then Some (classify_error error_type)
  else match code with
  | None => None
  | Some code =>
      if (code =? 0) || ((200 <=? code) && (code <=? 299)) then None
      else if (code =? 401) || (code =? 403) then Some Refusal
      else if (code =? 429) || (code =? 503) then Some (Busy None)
      else Some Unknown
  end.

Definition is_override_endpoint (endpoint : string) : bool :=
  negb (bool_decide (endpoint = GLOBAL_STREAM_ENDPOINT))
  && negb (bool_decide (endpoint = CHINA_STREAM_ENDPOINT)).

Definition classify_upgrade (status : Z) (override_endpoint : bool) : FailureClass :=
  if (status =? 429) || (status =? 503) then Busy None
  else if ((status =? 401) || (status =? 403)) && override_endpoint then Refusal
  else Transport.

Definition ping_interval (connection_timeout_ms : option Z) : Duration :=
  match connection_timeout_ms with
  | Some timeout_ms =>
      if 0 <? timeout_ms
      then clamp PING_INTERVAL_MIN PING_INTERVAL_DEFAULT (from_millis (timeout_ms / 3))
      else PING_INTERVAL_DEFAULT
  | None => PING_INTERVAL_DEFAULT
  end.

Definition effective_health_timeout (configured : Duration) : Duration :=
  clamp SILENCE_MOVING_MIN SILENCE_PARKED configured.

Definition data_silence_limit (configured : Duration) (moving : bool) : Duration :=
  if moving then effective_health_timeout configured else SILENCE_PARKED.

Definition plausible_sample_time (t_ms wall_now_ms : Z) : bool :=
  (K_EARLIEST_MS <=? t_ms) && (t_ms <=? i64_sadd wall_now_ms K_SKEW_MS).

Definition frame_shows_motion (update : StreamUpdate) : bool :=
  let gear := opt_filter (fun name => bool_decide (name ∈ ["P"; "R"; "N"; "D"]))
                (shift_state update ≫= normalise_enum_text) in
  match gear with
  | Some name => bool_decide (name ∈ ["D"; "R"; "N"])
  | None => is_some_and (speed update) (fun speed => f64_ltb f64_zero speed)
  end.

Inductive EndCause :=
| CShutdown
| CConnectFailed
| CCredentialError
| CSubscribeWriteFailed
| CVehicle
| CRefusal
| CUnknown
| CBusy
| CSocketEnded
| CDataSilence
| CProtocol
| CQueueFull
| CReceiverClosed
| CAuditFailed.
#[global] Instance EndCause_eq_dec : EqDecision EndCause.
Proof. solve_decision. Defined.

Inductive SessionOutcome :=
| CancelledBeforeSubscription
| OrderlyShutdown
| TransportEnded
| Failed.
#[global] Instance SessionOutcome_eq_dec : EqDecision SessionOutcome.
Proof. solve_decision. Defined.

(** [StreamSessionTerminalOutcome] of the store. *)
Inductive StreamSessionTerminalOutcome :=
| TerminalCancelledBeforeSubscription
| TerminalTransportEnded
| TerminalFailed.

Definition terminal (self : SessionOutcome) : option StreamSessionTerminalOutcome :=
  match self with
  | CancelledBeforeSubscription => Some TerminalCancelledBeforeSubscription
  | OrderlyShutdown => None
  | TransportEnded => Some TerminalTransportEnded
  | Failed => Some TerminalFailed
  end.

Definition session_outcome (subscribed : bool) (cause : EndCause) (unsubscribe_ok : bool) :
    SessionOutcome :=
  match cause with
  | CShutdown =>
      if negb subscribed then CancelledBeforeSubscription
      else if unsubscribe_ok then OrderlyShutdown
      else TransportEnded
  | CVehicle | CUnknown | CBusy | CSocketEnded | CDataSilence =>
      if subscribed then TransportEnded else Failed
  | _ => Failed
  end.

(** *** The power gate *)

Record GateState := MkGateState { confirmed : bool; confirmed_at_ms : Z }.
#[global] Instance eta_GateState : Eta GateState := fun x => MkGateState (confirmed x) (confirmed_at_ms x).
Definition GateState_default : GateState := MkGateState false 0.

Definition power_shows_use (update : StreamUpdate) : bool :=
  is_some_and (power update) (fun power => Z.abs K_STREAM_POWER_KW <=? Z.abs power).

Definition observe (self : GateState) (update : StreamUpdate) (wall_ms : Z) : GateState :=
  if frame_shows_motion update || power_shows_use update then MkGateState true wall_ms else self.

Definition revoke (self : GateState) : GateState := self <| confirmed := false |>.

Definition is_confirmed_at (self : GateState) (wall_ms : Z) : bool :=
  if negb (confirmed self) then false
  else
    let age := i64_ssub wall_ms (confirmed_at_ms self) in
    (0 <=? age) && (age <=? GATE_FRESH_MS).

(** ** Lemmas: delays *)

Definition retry_wf (s : RetryState) : Prop :=
  0 <= transport_attempt s <= COUNTER_SATURATION /\
  0 <= vehicle_attempt s <= COUNTER_SATURATION /\
  0 <= refusal_streak s <= COUNTER_SATURATION.

Lemma bump_range n : 0 <= n -> 0 <= bump n <= COUNTER_SATURATION.
Proof. unfold bump, COUNTER_SATURATION. mlia. Qed.

Lemma on_session_end_wf s class : retry_wf s -> retry_wf (on_session_end s class).
Proof.
  intros (Ht & Hv & Hr). destruct s as [t v r]. unfold retry_wf, on_session_end in *.
  pose proof (bump_range t). pose proof (bump_range v). pose proof (bump_range r).
  unfold COUNTER_SATURATION in *. destruct class; simpl in *; lia.
Qed.

Lemma doubling_spec base cap n :
  0 < base <= cap -> 0 <= n -> cap * 65536 <= duration_max ->
  doubling base cap n = Z.min (base * 2 ^ Z.min (Z.max n 1 - 1) 16) cap.
Proof.
  intros Hb Hn Hc. unfold doubling, duration_smul, u32_ssub.
  rewrite Z.shiftl_1_l, Z.max_r by lia.
  assert (2 ^ Z.min (Z.max n 1 - 1) 16 <= 2 ^ 16) by (apply Z.pow_le_mono_r; lia).
  assert (0 < 2 ^ Z.min (Z.max n 1 - 1) 16) by (apply Z.pow_pos_nonneg; lia).
  change (2 ^ 16) with 65536 in *. rewrite (Z.min_r duration_max); [done|]. nia.
Qed.

Lemma doubling_range base cap n :
  0 < base <= cap -> 0 <= n -> cap * 65536 <= duration_max -> base <= doubling base cap n <= cap.
Proof.
  intros Hb Hn Hc. rewrite doubling_spec by done.
  assert (1 <= 2 ^ Z.min (Z.max n 1 - 1) 16) by (apply (Z.pow_le_mono_r 2 0); lia). nia.
Qed.

(** The jitter factor [0.5 + 0.5 * u] lies between one half and one. *)
Lemma unit_draw_within u : f64_valid u = true -> f64_within (unit_draw u) (2 ^ 3000).
Proof.
  intros Hu. unfold unit_draw. destruct (f64_is_nan u) eqn:E; [|by apply f64_clamp_unit].
  split_and!; [done| |eauto]. change (f64_sc f64_zero) with 0. apply Z.pow_nonneg. lia.
Qed.

Definition half_m : positive := 4503599627370496.
Lemma f64_half_eq : f64_half = S754_finite false half_m (-53).
Proof. vm_compute. reflexivity. Qed.
Lemma canonical_half : canonical (Z.pos half_m) (-53).
Proof. apply (f64_valid_canonical false). vm_compute. reflexivity. Qed.
Lemma canonical_one : canonical (Z.pos half_m) (-52).
Proof. apply (f64_valid_canonical false). vm_compute. reflexivity. Qed.
Lemma half_one_sc : 2 * sc (Z.pos half_m) (-53) = 2 ^ 3000 /\ sc (Z.pos half_m) (-52) = 2 ^ 3000.
Proof. split; vm_compute; reflexivity. Qed.

(** The jitter factor [0.5 + 0.5 * u] lies between one half and one. *)
Lemma jitter_factor_between u : f64_valid u = true ->
  f64_between (f64_add f64_half (f64_mul f64_half (unit_draw u)))
    (sc (Z.pos half_m) (-53)) (sc (Z.pos half_m) (-52)).
Proof.
  intros Hu. pose proof (unit_draw_within u Hu) as (Hv & Hle & Hform). rewrite f64_half_eq.
  pose proof half_one_sc as [Hh Ho]. pose proof canonical_half as Hch. pose proof canonical_one as Hco.
  assert (Hpos : 0 < 2 ^ 3000) by (apply pow2_pos; lia).
  assert (Hmax : 2 ^ 3000 <= 2 ^ 3971) by (apply Z.pow_le_mono_r; lia).
  assert (Hself : f64_between (S754_finite false half_m (-53)) (sc (Z.pos half_m) (-53)) (sc (Z.pos half_m) (-52))).
  { right. exists half_m, (-53). split_and!; [done|lia|lia|lia]. }
  assert (Hadd0 : forall s, f64_add (S754_finite false half_m (-53)) (S754_zero s) = S754_finite false half_m (-53))
    by done.
  destruct Hform as [[s Hs]|(m & e & Hs)]; rewrite Hs in *.
  { replace (f64_mul _ (S754_zero s)) with (S754_zero s) by (by destruct s). by rewrite Hadd0. }
  apply f64_valid_canonical, canonical_exp in Hv as He. cbn [f64_sc signed] in Hle.
  assert (Hmp : 0 <= sc (Z.pos m) e) by (unfold sc; pose proof (pow2_pos (e + 3000)); nia).
  destruct (f64_mul_between half_m (-53) m e 0 0 (Z.pos half_m) (-53)) as [(s' & -> & _)|(m' & e' & -> & He' & _ & Hm')].
  - lia.
  - lia.
  - done.
  - by left.
  - lia.
  - change (sc 0 0) with 0. revert Hh Hle Hpos Hmp. generalize (2 ^ 3000) (sc (Z.pos half_m) (-53)) (sc (Z.pos m) e).
    intros; nia.
  - by rewrite Hadd0.
  - assert (0 <= sc (Z.pos m') e') by (unfold sc; pose proof (pow2_pos (e' + 3000)); nia).
    apply f64_add_between; [lia|lia|done|by right|lia|lia].
Qed.

(** A whole number of milliseconds scaled by a factor in [lo, 1]. *)
Lemma scaled_floor_between n y (half : bool) :
  0 <= n < 2 ^ 53 ->
  f64_between y (if half then sc (Z.pos half_m) (-53) else 0) (sc (Z.pos half_m) (-52)) ->
  (if half then n / 2 else 0) <= f64_as_u64 (f64_floor (f64_mul (f64_of_Z n) y)) <= n.
Proof.
  intros Hn Hy. pose proof half_one_sc as [Hh Ho].
  assert (Hpos : 0 < 2 ^ 3000) by (apply pow2_pos; lia).
  assert (Hlo : 0 <= (if half then n / 2 else 0) <= n) by (destruct half; dlia).
  assert (Hz : forall s, f64_as_u64 (f64_floor (f64_mul (f64_of_Z n) (S754_zero s))) = 0).
  { intros s. destruct (f64_of_Z_exact n Hn) as [(s' & -> & _)|(m & e & -> & _)]; reflexivity. }
  destruct Hy as [(s & -> & Hy)|(m & e & -> & He & Hy)].
  { rewrite Hz. destruct half; [|lia]. lia. }
  destruct (Z.eq_dec n 0) as [->|Hn0]; [destruct half; by vm_compute|].
  destruct (f64_of_Z_exact n Hn) as [(s' & _ & Hx)|(m1 & e1 & -> & He1 & Hx)].
  { rewrite sc_int in Hx. nia. }
  apply f64_floor_as_u64_between; [lia|lia|].
  destruct (canonical_int n ltac:(lia)) as (mU & eU & HcU & HsU & HmU).
  assert (HL : exists mL eL, (mL = 0 \/ canonical mL eL) /\ sc mL eL = sc (if half then n / 2 else 0) 0).
  { destruct (Z.eq_dec (if half then n / 2 else 0) 0) as [E|E].
    - exists 0, 0. split; [by left|by rewrite E].
    - destruct (canonical_int (if half then n / 2 else 0)) as (mL & eL & Hc & Hs & _); [lia|]. exists mL, eL. auto. }
  destruct HL as (mL & eL & HcL & HsL). rewrite <- HsL, <- HsU.
  apply f64_mul_between; [lia|lia|done|done|done|]. rewrite HsL, HsU.
  assert (Hx' : sc (Z.pos m1) e1 = sc n 0) by (apply Z.le_antisymm; apply Hx).
  rewrite Hx', !sc_int.
  rewrite Ho in *. destruct half.
  - assert (2 * (n / 2) <= n) by dlia. revert Hpos Hh Hy.
    generalize (2 ^ 3000) (sc (Z.pos m) e) (sc (Z.pos half_m) (-53)). intros P y h HP Hh Hy.
    assert (0 <= n / 2) by lia. revert H H0. generalize (n / 2). intros k Hk Hk0. clear - Hk Hk0 HP Hh Hy Hn.
    assert (k * P <= n * y <= n * P) as [H1 H2] by nia.
    replace (n * P * y) with (n * y * P) by ring.
    split; apply Z.mul_le_mono_nonneg_r; lia.
  - revert Hpos Hy. generalize (2 ^ 3000) (sc (Z.pos m) e). intros P y HP Hy. clear - HP Hy Hn.
    assert (0 <= n * y <= n * P) as [H1 H2] by nia.
    replace (n * P * y) with (n * y * P) by ring.
    split; [|apply Z.mul_le_mono_nonneg_r; lia]. nia.
Qed.

Lemma jittered_bounds n u : 0 <= n < 2 ^ 53 -> f64_valid u = true ->
  from_millis (n / 2) <= jittered (from_millis n) u <= from_millis n.
Proof.
  intros Hn Hu. unfold jittered. rewrite as_millis_from_millis.
  pose proof (scaled_floor_between n _ true Hn (jitter_factor_between u Hu)) as H. cbv iota in H.
  revert H. generalize (f64_as_u64 (f64_floor (f64_mul (f64_of_Z n) (f64_add f64_half (f64_mul f64_half (unit_draw u)))))).
  clear. unfold from_millis, NANOS_PER_MILLI. lia.
Qed.

Lemma f64_within_between x b : f64_within x b -> f64_between x 0 b.
Proof.
  intros (Hv & Hle & [[s ->]|(m & e & ->)]); cbn [f64_sc signed] in *.
  - left. exists s. split; [done|lia].
  - right. exists m, e. apply f64_valid_canonical, canonical_exp in Hv.
    split_and!; [done|lia| |done]. unfold sc. pose proof (pow2_pos (e + 3000)). nia.
Qed.

Lemma start_delay_bounds u : f64_valid u = true -> 0 <= start_delay u <= START_JITTER.
Proof.
  intros Hu. unfold start_delay. change (as_millis START_JITTER) with 1000.
  pose proof half_one_sc as [_ Ho].
  pose proof (scaled_floor_between 1000 (unit_draw u) false ltac:(lia)) as H.
  rewrite Ho in H. specialize (H (f64_within_between _ _ (unit_draw_within u Hu))). cbv iota in H.
  revert H. generalize (f64_as_u64 (f64_floor (f64_mul (f64_of_Z 1000) (unit_draw u)))). clear.
  unfold from_millis, START_JITTER, from_secs, NANOS_PER_MILLI, NANOS_PER_SEC. lia.
Qed.

(** Every nominal delay is a whole, even number of milliseconds within its cap. *)
Lemma nominal_delay_millis class s : retry_wf s ->
  exists n, nominal_delay class s = from_millis (2 * n) /\ 1000 <= n <= 150000.
Proof.
  intros (Ht & Hv & Hr).
  assert (Hd : forall base cap c, 2 <= base <= cap -> cap <= 300 -> 0 <= c <= 32 ->
    exists n, doubling (from_secs base) (from_secs cap) c = from_millis (2 * n) /\ 1000 <= n <= 150000).
  { intros base cap c Hb Hc Hcnt. unfold from_secs, from_millis, NANOS_PER_SEC, NANOS_PER_MILLI.
    rewrite doubling_spec; [|nia|lia|dunfold; unfold u64_max; nia].
    set (p := 2 ^ Z.min (Z.max c 1 - 1) 16). assert (1 <= p) by (apply (Z.pow_le_mono_r 2 0); lia).
    exists (500 * Z.min (base * p) cap). nia. }
  destruct class; simpl; try (apply Hd; unfold COUNTER_SATURATION in *; lia).
  case_match; [exists 2500|exists 150000]; by vm_compute.
Qed.

(** The longest delay of a class: its nominal delay, or what a busy server asked for. *)
Definition asked_delay (class : FailureClass) : Duration :=
  match class with Busy (Some retry_after) => Z.min retry_after RETRY_AFTER_CAP | _ => 0 end.

Lemma next_delay_spec class s u : retry_wf s -> f64_valid u = true ->
  nominal_delay class s / 2 <= jittered (nominal_delay class s) u <= nominal_delay class s /\
  next_delay class s u = Z.max (jittered (nominal_delay class s) u) (asked_delay class).
Proof.
  intros Hs Hu. destruct (nominal_delay_millis class s Hs) as (n & Hn & Hb).
  pose proof (jittered_bounds (2 * n) u ltac:(lia) Hu) as Hj. rewrite <- Hn in Hj.
  replace (2 * n / 2) with n in Hj by dlia.
  assert (Hhalf : nominal_delay class s / 2 = from_millis n).
  { rewrite Hn. unfold from_millis, NANOS_PER_MILLI. dlia. }
  rewrite Hhalf. split; [exact Hj|].
  assert (H0 : 0 <= jittered (nominal_delay class s) u).
  { destruct Hj as [Hj _]. unfold from_millis, NANOS_PER_MILLI in Hj. lia. }
  unfold next_delay, asked_delay. destruct class as [|[?|]| | | |]; lia.
Qed.

(** ** Properties *)

(** After any session end, and for every double the jitter source may give
    (NaN and infinities included), the counters stay in range and the wait before
    the next attempt is at least half the class's nominal delay, at most the
    nominal delay or what a busy server asked for, never less than what it asked
    for up to an hour, and always between one second and one hour; a run's first
    wait is at most a second. *)
Theorem retry_delay_in_schedule (class : FailureClass) (s : RetryState) (u : f64)
    (Hs : retry_wf s) (Hu : f64_valid u = true) :
  let s' := on_session_end s class in
  let delay := next_delay class s' u in
  retry_wf s' /\
  nominal_delay class s' / 2 <= delay <= Z.max (nominal_delay class s') (asked_delay class) /\
  asked_delay class <= delay /\
  from_secs 1 <= delay <= from_secs 3600 /\
  from_secs 150 <= terminal_credential_delay u <= from_secs 300 /\
  0 <= start_delay u <= START_JITTER.
Proof.
  intros s' delay. assert (Hs' : retry_wf s') by (by apply on_session_end_wf).
  destruct (next_delay_spec class s' u Hs' Hu) as [Hj Hd]. fold delay in Hd.
  destruct (nominal_delay_millis class s' Hs') as (n & Hn & Hb).
  assert (Ha : asked_delay class <= RETRY_AFTER_CAP).
  { unfold asked_delay. destruct class as [|[d|]| | | |]; [|apply Z.le_min_r|..]; vm_compute; discriminate. }
  pose proof (start_delay_bounds u Hu) as Hst.
  assert (Hterm : from_secs 150 <= terminal_credential_delay u <= from_secs 300).
  { pose proof (jittered_bounds 300000 u ltac:(lia) Hu) as H. unfold terminal_credential_delay.
    replace REFUSAL_REPEATED with (from_millis 300000) by reflexivity.
    replace (from_secs 150) with (from_millis (300000 / 2)) by reflexivity.
    replace (from_secs 300) with (from_millis 300000) by reflexivity. exact H. }
  clearbody delay. revert Hj Hd. rewrite Hn. generalize (jittered (from_millis (2 * n)) u).
  intros d Hj ->. unfold RETRY_AFTER_CAP in Ha. revert Ha. generalize (asked_delay class). intros a Ha.
  split_and!; try done; try lia.
  all: unfold from_millis, from_secs, NANOS_PER_MILLI, NANOS_PER_SEC in *; dlia.
Qed.

Lemma retry_delay_in_schedule_witness :
  let s := MkRetryState 31 0 0 in
  from_secs 900 <= next_delay (Busy (Some (from_secs 900))) (on_session_end s (Busy (Some (from_secs 900)))) f64_one.
Proof.
  refine (proj1 (proj2 (proj2 (retry_delay_in_schedule (Busy (Some (from_secs 900)))
    (MkRetryState 31 0 0) f64_one _ _)))).
  - vm_compute. repeat split; congruence.
  - reflexivity.
Defined.

(** Consecutive transport failures wait nominally 2, 4, 8, ..., 256, 300, 300 s. *)
Example transport_schedule :
  map (fun k => as_secs (nominal_delay Transport (MkRetryState k 0 0))) [0; 1; 2; 3; 8; 9; 32]
  = [2; 2; 4; 8; 256; 300; 300].
Proof. vm_compute. reflexivity. Qed.
