(* ===== verification/StreamLiveness.v ===== *)
(** * The timers of one stream session ([src/src/collection/tesla_stream/liveness.rs])

    The Ping schedule, the dead-socket and data-silence deadlines and the
    host-sleep check, as pure state over monotonic instants and wall
    milliseconds. *)
From S2P Require Import Prelude RustStr External StreamPolicy.
Local Open Scope Z_scope.

(** ** Definitions *)

Definition DEAD_SOCKET_INTERVALS : Z := 3.
Definition STABLE_AFTER_FIRST_FRAME : Duration := from_secs 60.
(** [K_CLOCK_DIVERGENCE] of [collector/scheduler.rs]. *)
Definition K_CLOCK_DIVERGENCE : Duration := from_secs 60.

Record SessionClocks := MkSessionClocks {
  last_inbound : Instant;
  last_data : Instant;
  c_ping_interval : Duration;
  next_ping : Instant;
  sleep_deadline : option Instant;
  stable_at : option Instant;
  wall_at_last_check : Z;
  mono_at_last_check : Instant;
}.
#[global] Instance eta_SessionClocks : Eta SessionClocks := fun x =>
  MkSessionClocks (last_inbound x) (last_data x) (c_ping_interval x) (next_ping x) (sleep_deadline x)
    (stable_at x) (wall_at_last_check x) (mono_at_last_check x).

Definition start (now : Instant) (wall_ms : Z) : SessionClocks :=
  let interval := ping_interval None in
  {| last_inbound := now; last_data := now; c_ping_interval := interval; next_ping := now + interval;
     sleep_deadline := None; stable_at := None; wall_at_last_check := wall_ms;
     mono_at_last_check := now |}.

Definition on_subscribed (self : SessionClocks) (now : Instant) : SessionClocks :=
  self <| last_data := now |>.
Definition on_inbound (self : SessionClocks) (now : Instant) : SessionClocks :=
  self <| last_inbound := now |> <| sleep_deadline := None |>.
Definition on_data (self : SessionClocks) (now : Instant) : SessionClocks :=
  self <| last_data := now |>.
Definition on_first_accepted (self : SessionClocks) (now : Instant) : SessionClocks :=
  self <| stable_at := Some (now + STABLE_AFTER_FIRST_FRAME) |>.
Definition on_stable_applied (self : SessionClocks) : SessionClocks :=
  self <| stable_at := None |>.
Definition adopt_ping_interval (self : SessionClocks) (now : Instant) (interval : Duration) :
    SessionClocks :=
  self <| c_ping_interval := interval |> <| next_ping := now + interval |>.

Definition dead_at (self : SessionClocks) : Instant :=
  let normal := last_inbound self + c_ping_interval self * DEAD_SOCKET_INTERVALS in
  match sleep_deadline self with
  | Some deadline => Z.min deadline normal
  | None => normal
  end.

Definition silent_at (self : SessionClocks) (limit : Duration) : Instant := last_data self + limit.

(** The time the wall clock ran ahead of the monotonic one since the last check. *)
Definition drift (self : SessionClocks) (now : Instant) (wall_ms : Z) : Z :=
  let wall_delta := i64_ssub wall_ms (wall_at_last_check self) in
  let mono_delta := default i64_max (i64_try_from
    (as_millis (saturating_duration_since now (mono_at_last_check self)))) in
  i64_ssub wall_delta mono_delta.

Definition on_ping_tick (self : SessionClocks) (now : Instant) (wall_ms : Z) : bool * SessionClocks :=
  let drift := drift self now wall_ms in
  let self := self <| wall_at_last_check := wall_ms |> <| mono_at_last_check := now |>
                   <| next_ping := now + c_ping_interval self |> in
  let slept := as_millis K_CLOCK_DIVERGENCE <? drift in
  (slept,
   if slept then
     let shortened := now + c_ping_interval self in
     self <| sleep_deadline := Some (match sleep_deadline self with
                                     | Some existing => Z.min existing shortened
                                     | None => shortened
                                     end) |>
   else self).

(** ** What the session does to its clocks

    One operation at one instant; the read loop's calls are sequences of these at
    instants that never decrease. *)
Inductive clock_op :=
| OpSubscribed
| OpInbound
| OpData
| OpFirstAccepted
| OpStableApplied
| OpHello (timeout_ms : Z)
| OpPing (wall_ms : Z).

Definition apply_op (c : SessionClocks) (op : clock_op) (now : Instant) : SessionClocks :=
  match op with
  | OpSubscribed => on_subscribed c now
  | OpInbound => on_inbound c now
  | OpData => on_data c now
  | OpFirstAccepted => on_first_accepted c now
  | OpStableApplied => on_stable_applied c
  | OpHello timeout_ms => adopt_ping_interval c now (ping_interval (Some timeout_ms))
  | OpPing wall_ms => (on_ping_tick c now wall_ms).2
  end.

(** Clocks reachable at [now], with the instant of the last Ping or adopted interval. *)
Inductive reached : SessionClocks -> Instant -> Prop :=
| reached_start now wall_ms : reached (start now wall_ms) now
| reached_later c now later : reached c now -> now <= later -> reached c later
| reached_op c op now : reached c now -> reached (apply_op c op now) now.

Lemma ping_interval_range o : PING_INTERVAL_MIN <= ping_interval o <= PING_INTERVAL_DEFAULT.
Proof.
  unfold ping_interval. destruct o as [t|]; [|vm_compute; split; discriminate].
  case_match; [|vm_compute; split; discriminate].
  unfold clamp, PING_INTERVAL_MIN, PING_INTERVAL_DEFAULT, from_secs, NANOS_PER_SEC. lia.
Qed.

Definition clocks_wf (c : SessionClocks) (now : Instant) : Prop :=
  PING_INTERVAL_MIN <= c_ping_interval c <= PING_INTERVAL_DEFAULT /\
  last_inbound c <= now /\ last_data c <= now /\ next_ping c <= now + c_ping_interval c /\
  mono_at_last_check c <= now /\
  (forall d, sleep_deadline c = Some d -> d <= mono_at_last_check c + PING_INTERVAL_DEFAULT).

Lemma apply_op_wf c op now : clocks_wf c now -> clocks_wf (apply_op c op now) now.
Proof.
  intros (Hp & Hi & Hd & Hn & Hm & Hs). destruct c; cbn in *.
  destruct op as [| | | | |t|w]; unfold clocks_wf, apply_op, on_subscribed, on_inbound, on_data,
    on_first_accepted, on_stable_applied, adopt_ping_interval; cbn -[ping_interval on_ping_tick];
    try (split_and!; (done || lia)).
  - pose proof (ping_interval_range (Some t)) as Hr. split_and!; (done || lia || (intros; simplify_eq; eauto)).
  - unfold on_ping_tick. cbn -[drift]. set (k := _ <? _).
    destruct k; cbn; (split_and!; try (done || lia)).
    + intros d [= <-]. destruct sleep_deadline0 as [e|]; [|lia]. specialize (Hs e eq_refl). lia.
    + intros d Hd'. specialize (Hs d Hd'). lia.
Qed.

Lemma reached_wf c now : reached c now -> clocks_wf c now.
Proof.
  induction 1 as [now w|c now later _ IH Hl|c op now _ IH].
  - unfold clocks_wf, start. cbn. pose proof (ping_interval_range None). split_and!; (done || lia).
  - destruct IH as (?&?&?&?&?&?). unfold clocks_wf. split_and!; (done || lia).
  - by apply apply_op_wf.
Qed.

(** ** Properties *)

(** In every state a session's clocks can reach, a Ping is due at most one
    interval of 5 to 15 seconds ahead; a socket on which nothing arrives counts
    as dead at most 45 seconds after the last frame, and at most 15 after the
    Ping that found a host sleep; and while no frame is newer than the last data,
    the dead-socket deadline comes before every silence deadline, so a dead
    socket is never taken for a silent server. *)
Theorem dead_socket_found_first (c : SessionClocks) (now : Instant) (configured : Duration) (moving : bool)
    (Hc : reached c now) :
  next_ping c <= now + PING_INTERVAL_DEFAULT /\
  dead_at c <= last_inbound c + from_secs 45 /\
  (sleep_deadline c <> None -> dead_at c <= mono_at_last_check c + PING_INTERVAL_DEFAULT) /\
  (sleep_deadline c = None -> from_secs 15 <= dead_at c - last_inbound c) /\
  (last_inbound c <= last_data c -> dead_at c < silent_at c (data_silence_limit configured moving)).
Proof.
  apply reached_wf in Hc as (Hp & Hi & Hd & Hn & Hm & Hs).
  assert (Hlim : from_secs 60 <= data_silence_limit configured moving).
  { unfold data_silence_limit, effective_health_timeout, clamp, SILENCE_MOVING_MIN, SILENCE_PARKED.
    destruct moving; dunfold; lia. }
  assert (Hdead : dead_at c <= last_inbound c + 3 * c_ping_interval c).
  { unfold dead_at, DEAD_SOCKET_INTERVALS. destruct (sleep_deadline c); lia. }
  unfold silent_at, PING_INTERVAL_MIN, PING_INTERVAL_DEFAULT in *. dunfold.
  split_and!; [lia|lia| | |lia].
  - unfold dead_at, DEAD_SOCKET_INTERVALS in *. destruct (sleep_deadline c) as [d|]; [|done].
    specialize (Hs d eq_refl). lia.
  - intros E. unfold dead_at, DEAD_SOCKET_INTERVALS. rewrite E. lia.
Qed.

(** A session whose host slept two minutes: the next tick shortens the deadline. *)
Definition slept_clocks : SessionClocks := (on_ping_tick (start 0 0) (from_secs 15) 135000).2.

Lemma dead_socket_found_first_witness :
  dead_at slept_clocks <= from_secs 15 + PING_INTERVAL_DEFAULT /\
  dead_at slept_clocks = from_secs 30.
Proof.
  split; [|vm_compute; reflexivity].
  refine (proj1 (proj2 (proj2 (dead_socket_found_first slept_clocks (from_secs 15) (from_secs 60) true _))) _).
  - apply (reached_op (start 0 0) (OpPing 135000) (from_secs 15)).
    apply (reached_later _ 0); [constructor|vm_compute; discriminate].
  - vm_compute. discriminate.
Defined.

(** ** Reflected credentials ([src/src/collection/tesla_stream/echo.rs])

    The guard that recognises the session's own token in a text the Hub would
    keep or log, by length and SHA-256, with [loggable_error_token] of
    [session.rs]. *)

Local Open Scope string_scope.
Local Open Scope Z_scope.

Definition REFLECTABLE_MAX : Z := 32.
Definition REFLECTABLE_MIN : Z := 4.

Definition loggable_error_token (token : option string) : string :=
  match token with
  | Some token =>
      if (1 <=? str_len token) && (str_len token <=? 32) && str_all is_token_byte token
      then token else "other"
  | None => "other"
  end.

(** [slice::windows]: the contiguous parts of a length, in order. *)
Fixpoint windows (length : nat) (bytes : string) : list string :=
  (match str_split_at length bytes with Some (window, _) => [window] | None => [] end
   ++ match bytes with String _ rest => windows length rest | EmptyString => [] end)%list.

Section Echo.
Context {D : Digest}.

Record EchoGuard := MkEchoGuard { target : option (Z * string) }.

Definition echo_of (token : string) : EchoGuard :=
  let length := str_len token in
  if negb ((1 <=? length) && (length <=? REFLECTABLE_MAX)) then MkEchoGuard None
  else MkEchoGuard (Some (length, sha256 token)).

Definition equals (self : EchoGuard) (text : string) : bool :=
  match target self with
  | None => false
  | Some (length, digest) => (str_len text =? length) && bool_decide (sha256 text = digest)
  end.

Definition reflects (self : EchoGuard) (text : string) : bool :=
  match target self with
  | None => false
  | Some (length, digest) =>
      if length <? REFLECTABLE_MIN then false
      else if (str_len text <? length) || (REFLECTABLE_MAX <? str_len text) then false
      else existsb (fun window => bool_decide (sha256 window = digest)) (windows (Z.to_nat length) text)
  end.

Definition loggable (self : EchoGuard) (token : option string) : string :=
  match token with
  | Some text => if equals self text || reflects self text then "other" else loggable_error_token token
  | None => loggable_error_token token
  end.

(** ** A reflected token is always found *)

Lemma str_split_at_app p s : str_split_at (String.length p) (p +:+ s) = Some (p, s).
Proof.
  induction p as [|c p IH]; [by destruct s|].
  rewrite str_append_cons. cbn [String.length str_split_at]. by rewrite IH.
Qed.

Lemma windows_middle n a p b : n = String.length p -> p ∈ windows n (a +:+ (p +:+ b)).
Proof.
  intros ->. induction a as [|c a IH].
  - change ("" +:+ (p +:+ b)) with (p +:+ b).
    assert (H : windows (String.length p) (p +:+ b) =
      (match str_split_at (String.length p) (p +:+ b) with Some (w, _) => [w] | None => [] end
       ++ match p +:+ b with String _ rest => windows (String.length p) rest | EmptyString => [] end)%list)
      by (by destruct (p +:+ b)).
    rewrite H, str_split_at_app. left.
  - rewrite str_append_cons. cbn [windows]. apply elem_of_app. by right.
Qed.

(** Whatever surrounds a token of 4 to 32 bytes inside a text of at most 32, the
    guard finds it; and one it reports as absent is in no logged text. *)
Lemma reflects_complete token a b :
  REFLECTABLE_MIN <= str_len token -> str_len (a +:+ (token +:+ b)) <= REFLECTABLE_MAX ->
  reflects (echo_of token) (a +:+ (token +:+ b)) = true.
Proof.
  intros Hmin Hmax. rewrite !str_len_app in Hmax.
  assert (0 <= str_len a /\ 0 <= str_len b) by (unfold str_len; lia).
  unfold REFLECTABLE_MIN, REFLECTABLE_MAX in *. unfold echo_of, REFLECTABLE_MAX.
  replace (1 <=? str_len token) with true by lia. replace (str_len token <=? 32) with true by lia.
  unfold reflects, REFLECTABLE_MIN, REFLECTABLE_MAX. cbn [andb negb target].
  replace (str_len token <? 4) with false by lia. rewrite !str_len_app.
  replace (_ <? str_len token) with false by lia. replace (32 <? _) with false by lia. cbn [orb].
  apply existsb_exists. exists token. split; [|by apply bool_decide_true].
  apply list_elem_of_In, windows_middle. unfold str_len. lia.
Qed.

Lemma equals_complete token : 1 <= str_len token <= REFLECTABLE_MAX -> equals (echo_of token) token = true.
Proof.
  intros H. unfold equals, echo_of, REFLECTABLE_MAX in *.
  replace (1 <=? str_len token) with true by lia. replace (str_len token <=? 32) with true by lia.
  cbn. rewrite Z.eqb_refl. by apply bool_decide_true.
Qed.

End Echo.
