(* ===== verification/StreamSession.v ===== *)
(** * The run of the stream supervisor ([src/src/collection/tesla_stream/session.rs])

    One run is a sequence of attempts; an attempt checks the credential, writes
    the audit rows, connects, admits, subscribes, reads until the session ends
    and closes.  Everything it awaits (the clock, the manager, the socket, the
    event channel, the audit store) is a port over an arbitrary outside state, so
    a theorem holds for every peer and every interleaving; a wait that the
    shutdown signal interrupts is an answer of its port.  The two loops take the
    number of wakes they may serve, and an answer [None] means that the loop is
    still waiting. *)
From S2P Require Import Prelude Effects RustStr F64 Vocabulary External Wire Attempt LifeData StreamWire StreamPolicy StreamLiveness.

Local Open Scope string_scope.
Local Open Scope Z_scope.

(** ** Data *)

Definition K_MAX_MESSAGE : Z := 64 * 1024.
Definition CONNECT_LIMIT : Duration := from_secs 10.
Definition WRITE_LIMIT : Duration := from_secs 10.
Definition LOCK_WAIT : Duration := from_secs 90.
Definition UNSUBSCRIBE_WRITE_LIMIT : Duration := from_secs 2.
Definition EVENT_QUEUE_WAIT : Duration := from_secs 10.
Definition INVALID_FRAME_STREAK : Z := 3.

Definition u32_inc (n : Z) : Z := (n + 1) mod 4294967296.

Inductive StreamEvent :=
| Healthy
| Telemetry (update : StreamUpdate) (queued_at : Instant)
| VehicleOffline
| AuthRejected
| TransportUnavailable
| ProtocolViolation.

(** The store's errors are not told apart. *)
Inductive StreamSupervisorError :=
| SupInvalidEndpoint (error : StreamError)
| SupInvalidTag
| OrderlyShutdownUnavailable
| EventQueueFull
| EventReceiverClosed
| CredentialAuthorityUnavailable
| SupProtocolViolation
| Audit.

Inductive CredentialFailure := SensitiveAccess | Terminal | Unavailable.
#[global] Instance CredentialFailure_eq_dec : EqDecision CredentialFailure.
Proof. solve_decision. Defined.

Definition credential_failure (error : LegacyAuthManagerError) : CredentialFailure :=
  if is_sensitive_access_failure error then SensitiveAccess
  else if is_terminal error then Terminal
  else Unavailable.

Inductive Check := Ready | CheckShutdown | CheckFailed (failure : CredentialFailure).
Inductive Admit := AdmitToken (token : string) | AdmitFailed (failure : CredentialFailure).
Inductive LockResult := Locked | LockShutdown | LockTimedOut.

(** [tungstenite]'s close codes, the ones the code names. *)
Inductive CloseCode := CloseNormal | CloseSize | CloseAgain | CloseOther (code : Z).
#[global] Instance CloseCode_eq_dec : EqDecision CloseCode.
Proof. solve_decision. Defined.

Inductive Message :=
| MText (text : string)
| MBinary (bytes : string)
| MClose (frame : option CloseCode)
| MPing
| MPong
| MFrame.

(** What [socket.next()] gives: the end of the stream (or a closed connection), a
    message above the size bound, another error, or a message. *)
Inductive Inbound := InEnd | InCapacity | InError | InMessage (message : Message).

Inductive Outcome :=
| Stop (result : result StreamSupervisorError unit)
| OFailed (class : FailureClass)
| OTerminalCredential.

Inductive Emit := Sent | EmitShutdown | EmitReceiverClosed | EmitQueueFull.

Record FrameCounts := MkFrameCounts {
  accepted : Z;
  duplicates : Z;
  rejected : Z;
  implausible_time : Z;
  fields_invalid : Z;
  unknown_messages : Z;
  ignored_errors : Z;
}.
#[global] Instance eta_FrameCounts : Eta FrameCounts := fun x =>
  MkFrameCounts (accepted x) (duplicates x) (rejected x) (implausible_time x) (fields_invalid x)
    (unknown_messages x) (ignored_errors x).
Definition FrameCounts_default : FrameCounts := MkFrameCounts 0 0 0 0 0 0 0.

(** State across the attempts of one run, with the shared power gate. *)
Record RunState := MkRunState {
  retry : RetryState;
  last_delivered : option StreamUpdate;
  moving : bool;
  power_gate : option GateState;
}.
#[global] Instance eta_RunState : Eta RunState := fun x =>
  MkRunState (retry x) (last_delivered x) (moving x) (power_gate x).

(** Receipts are the row ids of the audit store, absent without a store. *)
Definition Receipt : Type := option Z.

Record SessionState := MkSessionState {
  subscribe_receipt : Receipt;
  subscribe_open : bool;
  accepted_seen : bool;
  rejected_streak : Z;
  clocks : SessionClocks;
  counts : FrameCounts;
  echo : EchoGuard;
}.
#[global] Instance eta_SessionState : Eta SessionState := fun x =>
  MkSessionState (subscribe_receipt x) (subscribe_open x) (accepted_seen x) (rejected_streak x)
    (clocks x) (counts x) (echo x).

Record SessionEnd := MkSessionEnd {
  cause : EndCause;
  end_class : option FailureClass;
  subscribe_outcome : OutboundRequestOutcome;
  usable : bool;
  unsubscribe : bool;
  close_code : CloseCode;
  stop : option StreamSupervisorError;
}.
#[global] Instance eta_SessionEnd : Eta SessionEnd := fun x =>
  MkSessionEnd (cause x) (end_class x) (subscribe_outcome x) (usable x) (unsubscribe x)
    (close_code x) (stop x).

Definition end_base (cause : EndCause) : SessionEnd :=
  {| cause := cause; end_class := None; subscribe_outcome := OTransportError; usable := true;
     unsubscribe := true; close_code := CloseNormal; stop := None |}.

Definition end_shutdown : SessionEnd := (end_base CShutdown) <| subscribe_outcome := OCancelled |>.

Definition end_protocol (oversize : bool) : SessionEnd :=
  (end_base CProtocol) <| end_class := Some Protocol |> <| subscribe_outcome := OProtocolError |>
    <| close_code := if oversize then CloseSize else CloseNormal |>.

Definition end_for_class (class : FailureClass) (accepted_seen : bool) : SessionEnd :=
  match class with
  | Vehicle => (end_base CVehicle) <| end_class := Some class |> <| subscribe_outcome := OSuccess |>
  | Refusal =>
      (end_base CRefusal) <| end_class := Some class |>
        <| subscribe_outcome := OAuthenticationRejected |> <| unsubscribe := accepted_seen |>
  | Busy _ => (end_base CBusy) <| end_class := Some class |>
  | Protocol => end_protocol false
  | StreamPolicy.Transport | Unknown =>
      (end_base CUnknown) <| end_class := Some class |> <| subscribe_outcome := OProtocolError |>
  end.

Definition end_data_silence : SessionEnd :=
  (end_base CDataSilence) <| end_class := Some StreamPolicy.Transport |>.

Definition end_socket_gone (class : FailureClass) : SessionEnd :=
  (end_base (match class with Busy _ => CBusy | _ => CSocketEnded end))
    <| end_class := Some class |> <| usable := false |> <| unsubscribe := false |>.

Definition end_stopping (cause : EndCause) (error : StreamSupervisorError) : SessionEnd :=
  (end_base cause) <| subscribe_outcome := OCancelled |> <| stop := Some error |>.

Definition end_audit_failed (error : StreamSupervisorError) : SessionEnd :=
  (end_base CAuditFailed) <| usable := false |> <| unsubscribe := false |> <| stop := Some error |>.

Inductive Step := Continue | End (end_ : SessionEnd).

Inductive OutboundRequestOperation :=
| Products
| VehicleProbe
| VehicleData
| VehicleWake
| VehicleCommand
| TokenRefresh
| StreamConnect
| StreamSubscribe
| StreamUnsubscribe.

Record OutboundRequestCompletion := MkCompletion {
  co_outcome : OutboundRequestOutcome;
  co_http_status : option Z;
  co_retry_after_seconds : option Z;
}.

(** [OutboundRequestCompletion::validate]. *)
Definition completion_valid (c : OutboundRequestCompletion) : bool :=
  is_none_or (co_http_status c) (fun status => (100 <=? status) && (status <=? 599))
  && is_none_or (co_retry_after_seconds c) (fun seconds => is_some (i64_try_from seconds)).

Definition completion (outcome : OutboundRequestOutcome) : OutboundRequestCompletion :=
  MkCompletion outcome None None.

(** ** Pure parts *)

Definition event_for (class : FailureClass) (state : RetryState) : option StreamEvent :=
  match class with
  | StreamPolicy.Transport | Busy _ | Unknown => Some TransportUnavailable
  | Vehicle => Some VehicleOffline
  | Refusal => then_some (2 <=? refusal_streak state) AuthRejected
  | Protocol => Some ProtocolViolation
  end.

(** [f64::to_bits] tells apart exactly the floats of the model. *)
#[global] Instance spec_float_eq_dec : EqDecision SpecFloat.spec_float.
Proof. solve_decision. Defined.
#[global] Instance f64_eq_dec : EqDecision f64 := spec_float_eq_dec.

Definition same_sample (a b : StreamUpdate) : bool :=
  (timestamp_ms a =? timestamp_ms b)
  && bool_decide (elevation a = elevation b) && bool_decide (est_lat a = est_lat b)
  && bool_decide (est_lng a = est_lng b) && bool_decide (est_range a = est_range b)
  && bool_decide (heading a = heading b) && bool_decide (odometer a = odometer b)
  && bool_decide (power a = power b) && bool_decide (range a = range b)
  && bool_decide (shift_state a = shift_state b) && bool_decide (soc a = soc b)
  && bool_decide (speed a = speed b).

Definition MONTH_TEXTS : list string :=
  ["Jan"; "Feb"; "Mar"; "Apr"; "May"; "Jun"; "Jul"; "Aug"; "Sep"; "Oct"; "Nov"; "Dec"].

Definition month_number (text : string) : option Z :=
  (fun i => Z.of_nat i + 1) <$> (fst <$> list_find (fun name => name = text) MONTH_TEXTS).

Definition in_range (lo hi z : Z) : bool := (lo <=? z) && (z <=? hi).

(** Days since 1970-01-01 of a proleptic Gregorian date, as [parse_imf_fixdate] counts them. *)
Definition fixdate_days (year month day : Z) : Z :=
  let shifted_year := if month <=? 2 then year - 1 else year in
  let era := shifted_year / 400 in
  let year_of_era := shifted_year - era * 400 in
  let month_index := Z.rem (month + 9) 12 in
  let day_of_year := Z.quot (153 * month_index + 2) 5 + day - 1 in
  let day_of_era := year_of_era * 365 + Z.quot year_of_era 4 - Z.quot year_of_era 100 + day_of_year in
  era * 146097 + day_of_era - 719468.

Definition parse_imf_fixdate (value : string) : option Z :=
  match str_split " " value with
  | [weekday; day; month; year; clock; zone] =>
      if negb (str_len weekday =? 4) || negb (is_some (strip_suffix_char "," weekday)) then None
      else
        day ← parse_i64 day;
        month ← month_number month;
        year ← parse_i64 year;
        if negb (bool_decide (zone = "GMT")) then None
        else match str_split ":" clock with
        | [hour; minute; second] =>
            hour ← parse_i64 hour;
            minute ← parse_i64 minute;
            second ← parse_i64 second;
            if negb (in_range 1 31 day) || negb (in_range 0 23 hour) || negb (in_range 0 59 minute)
               || negb (in_range 0 60 second) || negb (in_range 1970 9999 year)
            then None
            else Some (((fixdate_days year month day * 24 + hour) * 60 + minute) * 60000 + second * 1000)
        | _ => None
        end
  | _ => None
  end.

Definition parse_retry_after (value : string) (wall_now_ms : Z) : option Z :=
  let value := trim_ascii value in
  if str_is_empty value then None
  else if str_all is_ascii_digit value then
    Some (Z.min (default u64_max (parse_int 0 u64_max value)) i64_max)
  else
    at_ms ← parse_imf_fixdate value;
    Some (Z.quot (Z.max (i64_ssub at_ms wall_now_ms) 0) 1000).

Definition close_failure_class (frame : option CloseCode) : FailureClass :=
  if bool_decide (frame = Some CloseAgain) then Busy None else StreamPolicy.Transport.

Inductive AdmittingStep :=
| Liveness
| PingInterval (interval : Duration)
| Classified (class : FailureClass)
| Oversize
| ServerClose (class : FailureClass).

Definition member_str (key : string) (members : list (string * json)) : option string :=
  obj_get key members ≫= json_as_str.
Definition member_i64 (key : string) (members : list (string * json)) : option Z :=
  (obj_get key members ≫= json_as_number) ≫= number_as_i64.

(** A [tag] member that is present and is not the session's own. *)
Definition foreign_tag (members : list (string * json)) (tag : string) : bool :=
  is_some_and (obj_get "tag" members) (fun m => negb (bool_decide (json_as_str m = Some tag))).

Section Pure.
Context {X : External}.

Definition admitting_text (text tag : string) : AdmittingStep :=
  match json_from_slice text with
  | Some (JObject members) =>
      let error_type := member_str "error_type" members in
      match member_str "msg_type" members with
      | Some msg_type =>
          if bool_decide (msg_type = "control:hello") then
            match classify_hello (member_i64 "code" members) error_type with
            | Some class => Classified class
            | None =>
                map_or (opt_filter (fun timeout_ms => 0 <? timeout_ms)
                          (member_i64 "connection_timeout" members))
                  Liveness (fun timeout_ms => PingInterval (ping_interval (Some timeout_ms)))
            end
          else if bool_decide (msg_type = "data:error") then
            if foreign_tag members tag then Liveness else Classified (classify_error error_type)
          else Liveness
      | None => Liveness
      end
  | _ => Liveness
  end.

Definition admitting_step (message : Message) (tag : string) : AdmittingStep :=
  match message with
  | MText text => if K_MAX_MESSAGE <? str_len text then Oversize else admitting_text text tag
  | MBinary bytes =>
      if K_MAX_MESSAGE <? str_len bytes then Oversize
      else if is_utf8 bytes then admitting_text bytes tag
      else Liveness
  | MClose frame => ServerClose (close_failure_class frame)
  | MPing | MPong | MFrame => Liveness
  end.

End Pure.

(** ** The ports *)

(** A wait under the shutdown signal for the check's task. *)
Inductive TaskWait := TaskInterrupted | TaskPanicked | TaskJoined.

(** The connect under its limit and the signal; an upgrade answered with a status
    carries the [Retry-After] header when it is readable text. *)
Inductive ConnectAnswer :=
| ConnectInterrupted
| ConnectElapsed
| ConnectHttp (status : Z) (retry_after : option string)
| ConnectError
| Connected.

(** A bounded write under the signal. *)
Inductive Written := WriteInterrupted | WriteFailed | WriteDone.

(** [events.send] within its limit, under the signal. *)
Inductive EventSend := SendInterrupted | SendElapsed | SendClosed | SendDone.

(** What wakes [live_wait]; the awaited work is the manager's lock. *)
Inductive AdmitWake := AWShutdown | AWLock (lock : LockResult) | AWMessage (message : Inbound) | AWDead | AWPing.

(** What wakes the read loop. *)
Inductive Wake := WShutdown | WMessage (message : Inbound) | WDeadSocket | WSilence | WPing | WStable.

Record StreamPorts (S : Type) := MkStreamPorts {
  draw : st S f64;
  sleep : Duration -> st S bool;
  lock_manager : st S LockResult;
  assert_sensitive_access : st S (result LegacyAuthManagerError unit);
  refresh_if_due : st S (result LegacyAuthManagerError unit);
  access_token : st S (result LegacyAuthManagerError string);
  await_task : st S TaskWait;
  connect : st S ConnectAnswer;
  mono_now : st S Instant;
  wall_now_ms : st S Z;
  select_admitting : Instant -> Instant -> st S AdmitWake;
  select_session : Instant -> Instant -> Instant -> option Instant -> st S Wake;
  write_subscribe : Instant -> string -> st S Written;
  write_ping : Instant -> st S Written;
  write_unsubscribe : string -> st S bool;
  close_handshake : CloseCode -> st S unit;
  send_event : StreamEvent -> st S EventSend;
  (** The audit store and the run's write guard. *)
  refused : st S bool;
  begin_stream_session : Z -> st S (result unit Z);
  begin_outbound_request : Z -> OutboundRequestOperation -> st S (result unit Z);
  complete_outbound_request : Z -> OutboundRequestCompletion -> st S (result unit unit);
  complete_stream_session_terminal : Z -> StreamSessionTerminalOutcome -> st S (result unit unit);
  complete_stream_session_orderly : Z -> Z -> st S (result unit unit);
}.
Arguments draw {S} _.
Arguments sleep {S} _ _.
Arguments lock_manager {S} _.
Arguments assert_sensitive_access {S} _.
Arguments refresh_if_due {S} _.
Arguments access_token {S} _.
Arguments await_task {S} _.
Arguments connect {S} _.
Arguments mono_now {S} _.
Arguments wall_now_ms {S} _.
Arguments select_admitting {S} _ _ _.
Arguments select_session {S} _ _ _ _ _.
Arguments write_subscribe {S} _ _ _.
Arguments write_ping {S} _ _.
Arguments write_unsubscribe {S} _ _.
Arguments close_handshake {S} _ _.
Arguments send_event {S} _ _.
Arguments refused {S} _.
Arguments begin_stream_session {S} _ _.
Arguments begin_outbound_request {S} _ _ _.
Arguments complete_outbound_request {S} _ _ _.
Arguments complete_stream_session_terminal {S} _ _ _.
Arguments complete_stream_session_orderly {S} _ _ _.

(** The parts of [TeslaStreamSupervisor] a run reads; the host is only logged. *)
Record Supervisor := MkSupervisor {
  vehicle_id : Z;
  sup_tag : string;
  endpoint : string;
  has_client : bool;
  has_store : bool;
  health_timeout : Duration;
}.

Section Run.
Context {X : External} {J : JsonText} {D : Digest} {S : Type}.
Variables (sup : Supervisor) (p : StreamPorts S).

(** *** The audit rows of one run *)

Definition guard_write : st S (result StreamSupervisorError unit) :=
  if has_store sup then
    r ← refused p;
    mret (match r with true => Err CredentialAuthorityUnavailable | false => Ok tt end)
  else mret (Ok tt).

(** A store answer as the audit reports it. *)
Definition audit_answer {A} (r : result unit A) : result StreamSupervisorError A :=
  match r with Ok a => Ok a | Err _ => Err Audit end.

Definition begin_session : st S (result StreamSupervisorError Receipt) :=
  g ← guard_write;
  match g with
  | Err e => mret (Err e)
  | Ok _ =>
      if has_store sup then
        r ← begin_stream_session p (vehicle_id sup);
        mret (Some <$> audit_answer r)
      else mret (Ok None)
  end.

Definition begin_request (operation : OutboundRequestOperation) :
    st S (result StreamSupervisorError Receipt) :=
  g ← guard_write;
  match g with
  | Err e => mret (Err e)
  | Ok _ =>
      if has_store sup then
        r ← begin_outbound_request p (vehicle_id sup) operation;
        mret (Some <$> audit_answer r)
      else mret (Ok None)
  end.

Definition complete_request (receipt : Receipt) (completion : OutboundRequestCompletion) :
    st S (result StreamSupervisorError unit) :=
  match has_store sup, receipt with
  | true, Some receipt =>
      g ← guard_write;
      match g with
      | Err e => mret (Err e)
      | Ok _ => r ← complete_outbound_request p receipt completion; mret (audit_answer r)
      end
  | _, _ => mret (Ok tt)
  end.

Definition complete_session (session : Receipt) (outcome : SessionOutcome) (unsubscribe : Receipt) :
    st S (result StreamSupervisorError unit) :=
  match has_store sup, session with
  | true, Some session =>
      g ← guard_write;
      match g with
      | Err e => mret (Err e)
      | Ok _ =>
          match terminal outcome, unsubscribe with
          | Some terminal, _ =>
              r ← complete_stream_session_terminal p session terminal; mret (audit_answer r)
          | None, Some unsubscribe =>
              r ← complete_stream_session_orderly p session unsubscribe; mret (audit_answer r)
          | None, None => mret (Err OrderlyShutdownUnavailable)
          end
      end
  | _, _ => mret (Ok tt)
  end.

Definition stop_failed (session : Receipt) (error : StreamSupervisorError) : st S Outcome :=
  _ ← complete_session session Failed None;
  mret (Stop (Err error)).

Definition end_unsubscribed (session : Receipt) (open : option (Receipt * OutboundRequestCompletion))
    (cause : EndCause) (outcome : Outcome) : st S Outcome :=
  completed ← match open with
              | Some (receipt, completion) => complete_request receipt completion
              | None => mret (Ok tt)
              end;
  match completed with
  | Err error => stop_failed session error
  | Ok _ =>
      done ← complete_session session (session_outcome false cause false) None;
      mret (match done with Ok _ => outcome | Err error => Stop (Err error) end)
  end.

Definition connect_failed (session receipt : Receipt) (http_status retry_after_seconds : option Z)
    (class : FailureClass) : st S Outcome :=
  let outcome := if bool_decide (class = Refusal) then OAuthenticationRejected else OTransportError in
  let class := match class with
               | Busy _ => Busy (from_secs <$> retry_after_seconds)
               | other => other
               end in
  end_unsubscribed session
    (Some (receipt, MkCompletion outcome http_status retry_after_seconds)) CConnectFailed (OFailed class).

(** *** Credentials *)

Definition credential_outcome (failure : CredentialFailure) : Outcome :=
  match failure with
  | SensitiveAccess => Stop (Err CredentialAuthorityUnavailable)
  | Terminal => OTerminalCredential
  | Unavailable => OFailed StreamPolicy.Transport
  end.

(** The task that owns the lock: refresh if due, then learn whether a token can be issued. *)
Definition credential_task : st S (result CredentialFailure unit) :=
  refresh ← refresh_if_due p;
  let stopped := match refresh with
                 | Err error =>
                     match credential_failure error with
                     | Unavailable => None
                     | failure => Some failure
                     end
                 | Ok _ => None
                 end in
  match stopped with
  | Some failure => mret (Err failure)
  | None =>
      token ← access_token p;
      mret (match token with Ok _ => Ok tt | Err error => Err (credential_failure error) end)
  end.

Definition check_credentials : st S Check :=
  lock ← lock_manager p;
  match lock with
  | LockShutdown => mret CheckShutdown
  | LockTimedOut => mret (CheckFailed Unavailable)
  | Locked =>
      access ← assert_sensitive_access p;
      match access with
      | Err error => mret (CheckFailed (credential_failure error))
      | Ok _ =>
          if negb (has_client sup) then mret (CheckFailed Unavailable)
          else
            waited ← await_task p;
            match waited with
            | TaskInterrupted => mret CheckShutdown
            | TaskPanicked => mret (CheckFailed Unavailable)
            | TaskJoined =>
                r ← credential_task;
                mret (match r with Ok _ => Ready | Err failure => CheckFailed failure end)
            end
      end
  end.

(** [admit] once its lock wait is over. *)
Definition admit_token (lock : LockResult) : st S Admit :=
  match lock with
  | LockShutdown | LockTimedOut => mret (AdmitFailed Unavailable)
  | Locked =>
      token ← access_token p;
      mret (match token with
            | Ok token => AdmitToken token
            | Err error => AdmitFailed (credential_failure error)
            end)
  end.

(** *** Events and Pings *)

Definition emit (event : StreamEvent) : st S Emit :=
  sent ← send_event p event;
  mret (match sent with
        | SendInterrupted => EmitShutdown
        | SendElapsed => EmitQueueFull
        | SendClosed => EmitReceiverClosed
        | SendDone => Sent
        end).

Definition deliver (event : StreamEvent) : st S (option SessionEnd) :=
  sent ← emit event;
  mret (match sent with
        | Sent => None
        | EmitShutdown => Some end_shutdown
        | EmitQueueFull => Some (end_stopping CQueueFull EventQueueFull)
        | EmitReceiverClosed => Some (end_stopping CReceiverClosed EventReceiverClosed)
        end).

(** A ping tick; the gate is revoked when the host has slept. *)
Definition send_ping (run : RunState) (clocks : SessionClocks) :
    st S (option SessionEnd * RunState * SessionClocks) :=
  now ← mono_now p;
  wall ← wall_now_ms p;
  let '(slept, clocks) := on_ping_tick clocks now wall in
  let run := if slept then run <| power_gate := revoke <$> power_gate run |> else run in
  sent ← write_ping p (dead_at clocks);
  mret (match sent with
        | WriteInterrupted => Some end_shutdown
        | WriteFailed => Some (end_socket_gone StreamPolicy.Transport)
        | WriteDone => None
        end, run, clocks).

(** *** Admitting *)

Inductive Live :=
| LDone (admitted : Admit)
| LShutdown
| LGone (class : FailureClass)
| LEnded (class : FailureClass) (code : CloseCode).

(** One message of an open socket that has no subscription yet. *)
Definition live_message (arrived : Instant) (message : Inbound) (clocks : SessionClocks) :
    option Live * SessionClocks :=
  match message with
  | InEnd | InError => (Some (LGone StreamPolicy.Transport), clocks)
  | InCapacity => (Some (LEnded Protocol CloseSize), clocks)
  | InMessage message =>
      let clocks := on_inbound clocks arrived in
      match admitting_step message (sup_tag sup) with
      | Liveness => (None, clocks)
      | PingInterval interval => (None, adopt_ping_interval clocks arrived interval)
      | Classified class => (Some (LEnded class CloseNormal), clocks)
      | Oversize => (Some (LEnded Protocol CloseSize), clocks)
      | ServerClose class => (Some (LGone class), clocks)
      end
  end.

Fixpoint live_wait (fuel : nat) (run : RunState) (clocks : SessionClocks) :
    st S (option Live * RunState * SessionClocks) :=
  match fuel with
  | O => mret (None, run, clocks)
  | Datatypes.S fuel =>
      wake ← select_admitting p (dead_at clocks) (next_ping clocks);
      match wake with
      | AWShutdown => mret (Some LShutdown, run, clocks)
      | AWLock lock => admitted ← admit_token lock; mret (Some (LDone admitted), run, clocks)
      | AWDead => mret (Some (LGone StreamPolicy.Transport), run, clocks)
      | AWPing =>
          pinged ← send_ping run clocks;
          match pinged with
          | (Some e, run, clocks) =>
              mret (Some (match cause e with
                          | CShutdown => LShutdown
                          | _ => LGone (default StreamPolicy.Transport (end_class e))
                          end), run, clocks)
          | (None, run, clocks) => live_wait fuel run clocks
          end
      | AWMessage message =>
          arrived ← mono_now p;
          match live_message arrived message clocks with
          | (Some live, clocks) => mret (Some live, run, clocks)
          | (None, clocks) => live_wait fuel run clocks
          end
      end
  end.

(** *** The messages of a subscribed session *)

Definition reject (state : SessionState) : Step * SessionState :=
  let state := state <| counts := (counts state) <| rejected := u32_inc (rejected (counts state)) |> |>
                     <| rejected_streak := u32_inc (rejected_streak state) |> in
  (if INVALID_FRAME_STREAK <=? rejected_streak state then End (end_protocol false) else Continue, state).

Definition handle_error (text : string) (state : SessionState) : Step * SessionState :=
  match json_from_slice text with
  | Some (JObject members) =>
      if foreign_tag members (sup_tag sup) then
        (Continue, state <| counts := (counts state)
                              <| ignored_errors := u32_inc (ignored_errors (counts state)) |> |>)
      else
        (End (end_for_class (classify_error (member_str "error_type" members)) (accepted_seen state)), state)
  | _ => reject state
  end.

Definition handle_hello (text : string) (queued_at : Instant) (state : SessionState) : Step * SessionState :=
  match json_from_slice text with
  | Some (JObject members) =>
      let connection_timeout := member_i64 "connection_timeout" members in
      match classify_hello (member_i64 "code" members) (member_str "error_type" members) with
      | None =>
          (Continue,
           if is_some_and connection_timeout (fun timeout_ms => 0 <? timeout_ms)
           then state <| clocks := adopt_ping_interval (clocks state) queued_at
                                     (ping_interval connection_timeout) |>
           else state)
      | Some class => (End (end_for_class class (accepted_seen state)), state)
      end
  | _ => reject state
  end.

(** The [error_type] as the log may carry it. *)
Definition loggable_error_type (state : SessionState) (error_type : option string) : string :=
  if bool_decide (error_type = Some (sup_tag sup)) then "other" else loggable (echo state) error_type.

(** The sample a [data:update] carries, after the echo and tag rules: the record and
    how many of its fields were invalid. *)
Definition session_sample (text : string) (state : SessionState) : option (StreamUpdate * Z) :=
  match parse_data_update_counted text with
  | Err _ => None
  | Ok (update, invalid) =>
      let '(update, invalid) :=
        if is_some_and (shift_state update) (reflects (echo state))
        then ({| tag := tag update; timestamp_ms := timestamp_ms update;
                 elevation := elevation update; est_heading := est_heading update;
                 est_lat := est_lat update; est_lng := est_lng update;
                 est_range := est_range update; heading := heading update;
                 odometer := odometer update; power := power update; range := range update;
                 shift_state := None; soc := soc update; speed := speed update |},
              u32_sadd invalid 1)
        else (update, invalid) in
      if negb (bool_decide (tag update = sup_tag sup)) then None else Some (update, invalid)
  end.

(** The counters, clocks, motion and gate of an accepted sample. *)
Definition note_sample (update : StreamUpdate) (invalid : Z) (duplicate : bool) (queued_at : Instant)
    (wall_ms : Z) (run : RunState) (state : SessionState) : RunState * SessionState :=
  let state := state <| rejected_streak := 0 |>
                     <| clocks := on_data (clocks state) queued_at |> in
  let run := run <| moving := frame_shows_motion update |> in
  let state := state <| counts := (counts state)
                        <| fields_invalid := u32_sadd (fields_invalid (counts state)) invalid |> |> in
  let run := run <| power_gate := (fun gate => observe gate update wall_ms) <$> power_gate run |> in
  let state := state <| counts :=
    if duplicate
    then (counts state) <| duplicates := u32_inc (duplicates (counts state)) |>
    else (counts state) <| accepted := u32_inc (accepted (counts state)) |> |> in
  (run, state).

(** The first accepted frame of a session: counters, the stable timer, the subscribe
    receipt and [Healthy]. *)
Definition first_accepted (queued_at : Instant) (run : RunState) (state : SessionState) :
    st S (option SessionEnd * RunState * SessionState) :=
  let state := state <| accepted_seen := true |> in
  let run := run <| retry := retry_on_first_accepted (retry run) |> in
  let state := state <| clocks := on_first_accepted (clocks state) queued_at |> in
  let was_open := subscribe_open state in
  let state := state <| subscribe_open := false |> in
  completed ← (if was_open then complete_request (subscribe_receipt state) (completion OSuccess)
               else mret (Ok tt));
  match completed with
  | Err error => mret (Some (end_audit_failed error), run, state)
  | Ok _ => ended ← deliver Healthy; mret (ended, run, state)
  end.

Definition handle_update (text : string) (queued_at : Instant) (run : RunState) (state : SessionState) :
    st S (Step * RunState * SessionState) :=
  match session_sample text state with
  | None => let '(step, state) := reject state in mret (step, run, state)
  | Some (update, invalid) =>
      wall_ms ← wall_now_ms p;
      if negb (plausible_sample_time (timestamp_ms update) wall_ms) then
        let state := state <| counts := (counts state)
                              <| implausible_time := u32_inc (implausible_time (counts state)) |> |> in
        let '(step, state) := reject state in mret (step, run, state)
      else
        let duplicate := is_some_and (last_delivered run) (fun last => same_sample last update) in
        let '(run, state) := note_sample update invalid duplicate queued_at wall_ms run state in
        first ← (if negb (accepted_seen state) then first_accepted queued_at run state
                 else mret (None, run, state));
        match first with
        | (Some e, run, state) => mret (End e, run, state)
        | (None, run, state) =>
            if duplicate then mret (Continue, run, state)
            else
              ended ← deliver (Telemetry update queued_at);
              match ended with
              | Some e => mret (End e, run, state)
              | None => mret (Continue, run <| last_delivered := Some update |>, state)
              end
        end
  end.

(** The derived [Deserialize] of [MessageHead]. *)
Definition message_head (text : string) : option string :=
  es ← json_entries ["msg_type"] text;
  e ← only_entry "msg_type" es;
  e ≫= string_of.

Definition handle_text (text : string) (queued_at : Instant) (run : RunState) (state : SessionState) :
    st S (Step * RunState * SessionState) :=
  let pure (r : Step * SessionState) : st S (Step * RunState * SessionState) :=
    mret (r.1, run, r.2) in
  if negb (is_json_object_text text) then pure (reject state)
  else match message_head text with
  | None => pure (reject state)
  | Some msg_type =>
      if bool_decide (msg_type = "data:update") then handle_update text queued_at run state
      else if bool_decide (msg_type = "data:error") then pure (handle_error text state)
      else if bool_decide (msg_type = "control:hello") then pure (handle_hello text queued_at state)
      else pure (Continue, state <| counts := (counts state)
                             <| unknown_messages := u32_inc (unknown_messages (counts state)) |> |>)
  end.

Definition handle_message (message : Message) (queued_at : Instant) (run : RunState)
    (state : SessionState) : st S (Step * RunState * SessionState) :=
  let state := state <| clocks := on_inbound (clocks state) queued_at |> in
  match message with
  | MPing | MPong | MFrame => mret (Continue, run, state)
  | MClose frame => mret (End (end_socket_gone (close_failure_class frame)), run, state)
  | MText text => handle_text text queued_at run state
  | MBinary bytes =>
      if is_utf8 bytes then handle_text bytes queued_at run state
      else let '(step, state) := reject state in mret (step, run, state)
  end.

(** *** The read loop *)

Definition read_step (run : RunState) (state : SessionState) : st S (Step * RunState * SessionState) :=
  wake ← select_session p (dead_at (clocks state))
           (silent_at (clocks state) (data_silence_limit (health_timeout sup) (moving run)))
           (next_ping (clocks state)) (stable_at (clocks state));
  match wake with
  | WShutdown => mret (End end_shutdown, run, state)
  | WDeadSocket => mret (End (end_socket_gone StreamPolicy.Transport), run, state)
  | WSilence => mret (End end_data_silence, run, state)
  | WPing =>
      pinged ← send_ping run (clocks state);
      let '(ended, run, clocks') := pinged in
      mret (match ended with Some e => End e | None => Continue end, run, state <| clocks := clocks' |>)
  | WStable =>
      mret (Continue, run <| retry := on_stable (retry run) |>,
            state <| clocks := on_stable_applied (clocks state) |>)
  | WMessage message =>
      queued_at ← mono_now p;
      match message with
      | InEnd | InError => mret (End (end_socket_gone StreamPolicy.Transport), run, state)
      | InCapacity => mret (End (end_protocol true), run, state)
      | InMessage message => handle_message message queued_at run state
      end
  end.

Fixpoint read_loop (fuel : nat) (run : RunState) (state : SessionState) :
    st S (option SessionEnd * RunState * SessionState) :=
  match fuel with
  | O => mret (None, run, state)
  | Datatypes.S fuel =>
      stepped ← read_step run state;
      match stepped with
      | (End e, run, state) => mret (Some e, run, state)
      | (Continue, run, state) => read_loop fuel run state
      end
  end.

(** *** The end of a subscribed session *)

Definition revoke_gate (run : RunState) : RunState := run <| power_gate := revoke <$> power_gate run |>.

(** The unsubscribe and the close on a usable socket: the receipt, whether the
    unsubscribe was written, or the audit error that ends it all. *)
Definition leave_socket (e : SessionEnd) : st S (result StreamSupervisorError (Receipt * bool)) :=
  if negb (usable e) then mret (Ok (None, false))
  else if unsubscribe e then
    begun ← begin_request StreamUnsubscribe;
    match begun with
    | Err error => mret (Err error)
    | Ok receipt =>
        written ← match unsubscribe_frame (sup_tag sup) with
                  | Ok frame => write_unsubscribe p frame
                  | Err _ => mret false
                  end;
        completed ← complete_request receipt (completion (match written with true => OSuccess | false => OTransportError end));
        match completed with
        | Err error => mret (Err error)
        | Ok _ =>
            match written with
            | true => _ ← close_handshake p (close_code e); mret (Ok (receipt, true))
            | false => mret (Ok (receipt, false))
            end
        end
    end
  else _ ← close_handshake p (close_code e); mret (Ok (None, false)).

Definition finish_subscribed (e : SessionEnd) (session : Receipt) (run : RunState) (state : SessionState) :
    st S (Outcome * RunState) :=
  let run := revoke_gate run in
  if bool_decide (cause e = CAuditFailed) then
    o ← stop_failed session (default OrderlyShutdownUnavailable (stop e)); mret (o, run)
  else
    completed ← (if subscribe_open state
                 then complete_request (subscribe_receipt state) (completion (subscribe_outcome e))
                 else mret (Ok tt));
    match completed with
    | Err error => o ← stop_failed session error; mret (o, run)
    | Ok _ =>
        left_ ← leave_socket e;
        match left_ with
        | Err error => o ← stop_failed session error; mret (o, run)
        | Ok (unsubscribe_receipt, unsubscribe_ok) =>
            done ← complete_session session (session_outcome true (cause e) unsubscribe_ok) unsubscribe_receipt;
            mret (match done, stop e, end_class e with
                  | Err error, _, _ => Stop (Err error)
                  | Ok _, Some error, _ => Stop (Err error)
                  | Ok _, None, None => Stop (Ok tt)
                  | Ok _, None, Some class => OFailed class
                  end, run)
        end
    end.

(** *** One attempt *)

Definition upgrade_failure (answer : ConnectAnswer) : st S (FailureClass * option Z * option Z) :=
  match answer with
  | ConnectHttp status header =>
      retry_after ← match header with
                    | Some value => now ← wall_now_ms p; mret (parse_retry_after value now)
                    | None => mret None
                    end;
      mret (classify_upgrade status (is_override_endpoint (endpoint sup)),
            then_some (in_range 100 599 status) status, retry_after)
  | _ => mret (StreamPolicy.Transport, None, None)
  end.

(** Steps 6 to 8, with the token admitted: subscribe, read, close. *)
Definition subscribe_and_read (fuel : nat) (token : string) (session : Receipt) (run : RunState)
    (clocks : SessionClocks) : st S (option Outcome * RunState) :=
  let finished (o : st S Outcome) : st S (option Outcome * RunState) := o ← o; mret (Some o, run) in
  match subscribe_frame_zeroizing (sup_tag sup) token with
  | Err _ => finished (end_unsubscribed session None CCredentialError (OFailed StreamPolicy.Transport))
  | Ok frame =>
      if negb (is_utf8 frame)
      then finished (end_unsubscribed session None CCredentialError (OFailed StreamPolicy.Transport))
      else
        begun ← begin_request StreamSubscribe;
        match begun with
        | Err error => finished (stop_failed session error)
        | Ok receipt =>
            now ← mono_now p;
            written ← write_subscribe p (Z.min (now + WRITE_LIMIT) (dead_at clocks)) frame;
            match written with
            | WriteInterrupted =>
                finished (end_unsubscribed session (Some (receipt, completion OCancelled)) CShutdown (Stop (Ok tt)))
            | WriteFailed =>
                finished (end_unsubscribed session (Some (receipt, completion OTransportError))
                            CSubscribeWriteFailed (OFailed StreamPolicy.Transport))
            | WriteDone =>
                subscribed_at ← mono_now p;
                let state := {| subscribe_receipt := receipt; subscribe_open := true;
                                accepted_seen := false; rejected_streak := 0;
                                clocks := on_subscribed clocks subscribed_at;
                                counts := FrameCounts_default; echo := echo_of token |} in
                looped ← read_loop fuel run state;
                match looped with
                | (Some e, run, state) =>
                    o ← finish_subscribed e session run state;
                    mret (Some o.1, o.2)
                | (None, run, state) => mret (None, run)
                end
            end
        end
  end.

(** Step 5, on an open socket. *)
Definition admit_and_subscribe (fuel : nat) (session : Receipt) (run : RunState)
    (clocks : SessionClocks) : st S (option Outcome * RunState) :=
  waited ← live_wait fuel run clocks;
  match waited with
  | (None, run, _) => mret (None, run)
  | (Some live, run, clocks) =>
      let finished (o : st S Outcome) : st S (option Outcome * RunState) := o ← o; mret (Some o, run) in
      match live with
      | LDone (AdmitToken token) => subscribe_and_read fuel token session run clocks
      | LShutdown => finished (end_unsubscribed session None CShutdown (Stop (Ok tt)))
      | LGone class => finished (end_unsubscribed session None CSocketEnded (OFailed class))
      | LEnded class code =>
          _ ← close_handshake p code;
          finished (end_unsubscribed session None (cause (end_for_class class false)) (OFailed class))
      | LDone (AdmitFailed failure) =>
          _ ← (if bool_decide (failure = SensitiveAccess) then mret tt else close_handshake p CloseNormal);
          finished (end_unsubscribed session None CCredentialError (credential_outcome failure))
      end
  end.

Definition attempt (fuel : nat) (run : RunState) : st S (option Outcome * RunState) :=
  let finished (o : st S Outcome) : st S (option Outcome * RunState) := o ← o; mret (Some o, run) in
  check ← check_credentials;
  match check with
  | CheckShutdown => mret (Some (Stop (Ok tt)), run)
  | CheckFailed failure => mret (Some (credential_outcome failure), run)
  | Ready =>
      begun ← begin_session;
      match begun with
      | Err error => mret (Some (Stop (Err error)), run)
      | Ok session =>
          begun ← begin_request StreamConnect;
          match begun with
          | Err error => finished (stop_failed session error)
          | Ok receipt =>
              connected ← connect p;
              match connected with
              | ConnectInterrupted =>
                  finished (end_unsubscribed session (Some (receipt, completion OCancelled)) CShutdown (Stop (Ok tt)))
              | ConnectElapsed =>
                  finished (connect_failed session receipt None None StreamPolicy.Transport)
              | Connected =>
                  now ← mono_now p;
                  wall ← wall_now_ms p;
                  completed ← complete_request receipt (completion OSuccess);
                  match completed with
                  | Err error => finished (stop_failed session error)
                  | Ok _ => admit_and_subscribe fuel session run (start now wall)
                  end
              | answer =>
                  failure ← upgrade_failure answer;
                  let '(class, status, retry_after) := failure in
                  finished (connect_failed session receipt status retry_after class)
              end
          end
      end
  end.

(** *** The run *)

(** What the loop does with an outcome: stop, or the delay before the next attempt. *)
Definition after_attempt (outcome : Outcome) (run : RunState) :
    st S (result StreamSupervisorError unit + Duration) * RunState :=
  match outcome with
  | Stop r => (mret (inl r), run)
  | OTerminalCredential => (u ← draw p; mret (inr (terminal_credential_delay u)), run)
  | OFailed class =>
      let run := run <| retry := on_session_end (retry run) class |> in
      (emitted ← match event_for class (retry run) with
                 | Some event => emit event
                 | None => mret Sent
                 end;
       match emitted with
       | Sent => u ← draw p; mret (inr (next_delay class (retry run) u))
       | EmitShutdown => mret (inl (Ok tt))
       | EmitReceiverClosed => mret (inl (Err EventReceiverClosed))
       | EmitQueueFull => mret (inl (Err EventQueueFull))
       end, run)
  end.

(** [fuel] bounds the attempts and the wakes of each attempt's loops. *)
Fixpoint run_attempts (fuel : nat) (delay : Duration) (run : RunState) :
    st S (option (result StreamSupervisorError unit) * RunState) :=
  match fuel with
  | O => mret (None, run)
  | Datatypes.S fuel =>
      slept ← sleep p delay;
      match slept with
      | false => mret (Some (Ok tt), revoke_gate run)
      | true =>
          attempted ← attempt fuel run;
          match attempted with
          | (None, run) => mret (None, run)
          | (Some outcome, run) =>
              let '(next, run) := after_attempt outcome run in
              next ← next;
              match next with
              | inl r => mret (Some r, revoke_gate run)
              | inr delay => run_attempts fuel delay run
              end
          end
      end
  end.

Definition run_supervisor (fuel : nat) (gate : option GateState) :
    st S (option (result StreamSupervisorError unit) * RunState) :=
  let run := revoke_gate {| retry := RetryState_default; last_delivered := None; moving := false;
                            power_gate := gate |} in
  match i64_try_from (vehicle_id sup) with
  | None => mret (Some (Err Audit), run)
  | Some _ =>
      u ← draw p;
      run_attempts fuel (start_delay u) run
  end.

End Run.
