(* ===== verification/StreamAudit.v ===== *)
(** * The audit discipline of a stream run, whatever its peer does

    The calls of a run of [StreamSession] on its ports are noted in a log; a
    monitor reads the log and is stuck exactly when a rule was broken: rows before
    the requests they describe, one request open at a time, every row completed
    once, tokens read when they must be. *)
From S2P Require Import Prelude Effects RustStr F64 Vocabulary External Wire Attempt LifeData StreamWire StreamPolicy StreamLiveness StreamSession.

Local Open Scope string_scope.
Local Open Scope Z_scope.

(** ** The calls of a run *)

Inductive SCall :=
| KSleep (d : Duration)
| KToken (r : result LegacyAuthManagerError string)
| KConnect (a : ConnectAnswer)
| KSubscribe (frame : string) (w : Written)
| KUnsubscribe (frame : string)
| KEvent (event : StreamEvent) (sent : EventSend)
| KWall (now : Z)
| KRefused (b : bool)
| KBeginSession (r : result unit Z)
| KBegin (op : OutboundRequestOperation) (r : result unit Z)
| KComplete (receipt : Z) (c : OutboundRequestCompletion) (r : result unit unit)
| KTerminal (session : Z) (o : StreamSessionTerminalOutcome) (r : result unit unit)
| KOrderly (session unsubscribe : Z) (r : result unit unit).

Definition noted_ports {S} (p : StreamPorts S) : StreamPorts (S * list SCall) := {|
  draw := quiet (draw p);
  sleep d := noting (fun _ => KSleep d) (sleep p d);
  lock_manager := quiet (lock_manager p);
  assert_sensitive_access := quiet (assert_sensitive_access p);
  refresh_if_due := quiet (refresh_if_due p);
  access_token := noting KToken (access_token p);
  await_task := quiet (await_task p);
  connect := noting KConnect (connect p);
  mono_now := quiet (mono_now p);
  wall_now_ms := noting KWall (wall_now_ms p);
  select_admitting a b := quiet (select_admitting p a b);
  select_session a b c d := quiet (select_session p a b c d);
  write_subscribe d f := noting (KSubscribe f) (write_subscribe p d f);
  write_ping d := quiet (write_ping p d);
  write_unsubscribe f := noting (fun _ => KUnsubscribe f) (write_unsubscribe p f);
  close_handshake c := quiet (close_handshake p c);
  send_event e := noting (KEvent e) (send_event p e);
  refused := noting KRefused (refused p);
  begin_stream_session v := noting KBeginSession (begin_stream_session p v);
  begin_outbound_request v op := noting (KBegin op) (begin_outbound_request p v op);
  complete_outbound_request r c := noting (KComplete r c) (complete_outbound_request p r c);
  complete_stream_session_terminal s o := noting (KTerminal s o) (complete_stream_session_terminal p s o);
  complete_stream_session_orderly s u := noting (KOrderly s u) (complete_stream_session_orderly p s u);
|}.

(** ** The audit monitor of one attempt *)

Inductive session_row := RowNone | RowOpen (id : Z) | RowClosed.

Record mon := MkMon {
  m_row : session_row;
  m_open : option (OutboundRequestOperation * Z);
  m_token : option string;
  m_unsubscribed : option Z;
  m_broken : bool;
}.
#[global] Instance eta_mon : Eta mon := fun x =>
  MkMon (m_row x) (m_open x) (m_token x) (m_unsubscribed x) (m_broken x).
Definition mon_start : mon := MkMon RowNone None None None false.

#[global] Instance OutboundRequestOperation_eq_dec : EqDecision OutboundRequestOperation.
Proof. solve_decision. Defined.
#[global] Instance TerminalOutcome_eq_dec : EqDecision StreamSessionTerminalOutcome.
Proof. solve_decision. Defined.

(** The completed unsubscribe of an orderly end. *)
Definition unsubscribed_by (op : OutboundRequestOperation) (receipt : Z) (c : OutboundRequestCompletion) :
    option Z :=
  match op with
  | StreamUnsubscribe => then_some (bool_decide (co_outcome c = OSuccess)) receipt
  | _ => None
  end.

(** Nothing is left to complete and nothing failed. *)
Definition settled (m : mon) : bool :=
  match m_row m with RowOpen _ => false | _ => true end && is_none (m_open m) && negb (m_broken m).

(** The calls an audit fault can end a run with: the store refused a write, the row
    could not be begun or completed, or the row is completed as failed. *)
Definition fault_ends (call : SCall) : bool :=
  match call with
  | KRefused b => b
  | KBeginSession r => negb (is_ok r)
  | KTerminal _ o r => bool_decide (o = TerminalFailed) || negb (is_ok r)
  | KOrderly _ _ r => negb (is_ok r)
  | _ => false
  end.
Definition ends_in_fault (log : list SCall) : bool := is_some_and (last log) fault_ends.
(** How a run that answered leaves its rows: all completed, or an audit fault happened
    and the row was given its last call. *)
Definition closed_off (m : mon) (log : list SCall) : bool := settled m || m_broken m && ends_in_fault log.

Section Monitor.
Context {J : JsonText}.
Variable the_tag : string.

(** [None] is a broken rule. *)
Definition mon_step (m : mon) (call : SCall) : option mon :=
  match call with
  | KSleep _ => if settled m then Some mon_start else None
  | KToken (Ok token) => Some (m <| m_token := Some token |>)
  | KToken (Err _) => Some (m <| m_token := None |>)
  | KWall _ | KEvent _ _ => Some m
  | KRefused b => Some (m <| m_broken := m_broken m || b |>)
  | KBeginSession r =>
      (* a token can be issued, and this is the attempt's only row *)
      if is_some (m_token m) && negb (m_broken m) then
        match m_row m, r with
        | RowNone, Ok id => Some (m <| m_row := RowOpen id |>)
        | RowNone, Err _ => Some (m <| m_broken := true |>)
        | _, _ => None
        end
      else None
  | KBegin op r =>
      (* inside an open session, no other request open *)
      if negb (m_broken m) && is_none (m_open m) then
        match m_row m, r with
        | RowOpen _, Ok id => Some (m <| m_open := Some (op, id) |>)
        | RowOpen _, Err _ => Some (m <| m_broken := true |>)
        | _, _ => None
        end
      else None
  | KConnect _ =>
      (* its receipt is open; a token read before does not count any more *)
      match m_open m with
      | Some (StreamConnect, _) => Some (m <| m_token := None |>)
      | _ => None
      end
  | KSubscribe frame _ =>
      (* its receipt is open and the frame carries the token read last *)
      match m_open m, m_token m with
      | Some (StreamSubscribe, _), Some token =>
          if bool_decide (subscribe_frame_zeroizing the_tag token = Ok frame) then Some m else None
      | _, _ => None
      end
  | KUnsubscribe frame =>
      match m_open m with
      | Some (StreamUnsubscribe, _) =>
          if bool_decide (unsubscribe_frame the_tag = Ok frame) then Some m else None
      | _ => None
      end
  | KComplete receipt c r =>
      (* exactly the open request, once, with values the table takes *)
      match m_open m with
      | Some (op, id) =>
          if bool_decide (id = receipt) && negb (m_broken m) && completion_valid c then
            match r with
            | Ok _ => Some (m <| m_open := None |> <| m_unsubscribed := unsubscribed_by op receipt c |>)
            | Err _ => Some (m <| m_broken := true |>)
            end
          else None
      | None => None
      end
  | KTerminal session o r =>
      (* the open row, with no request left open, or as failed after an audit fault *)
      match m_row m with
      | RowOpen id =>
          if bool_decide (id = session)
             && (is_none (m_open m) && negb (m_broken m)
                 || m_broken m && bool_decide (o = TerminalFailed))
          then match r with
               | Ok _ => Some (m <| m_row := RowClosed |>)
               | Err _ => Some (m <| m_broken := true |>)
               end
          else None
      | _ => None
      end
  | KOrderly session receipt r =>
      (* only with the receipt of a written unsubscribe *)
      match m_row m with
      | RowOpen id =>
          if bool_decide (id = session) && is_none (m_open m) && negb (m_broken m)
             && bool_decide (m_unsubscribed m = Some receipt)
          then match r with
               | Ok _ => Some (m <| m_row := RowClosed |>)
               | Err _ => Some (m <| m_broken := true |>)
               end
          else None
      | _ => None
      end
  end.

Definition run_mon (m : mon) (log : list SCall) : option mon :=
  fold_left (fun m call => m ≫= fun m => mon_step m call) log (Some m).

Lemma run_mon_snoc m log call : run_mon m (log ++ [call])%list = run_mon m log ≫= fun m => mon_step m call.
Proof. unfold run_mon. by rewrite fold_left_app. Qed.

End Monitor.

(** ** The audit functions under the monitor *)

Section Audit.
Context {X : External} {J : JsonText} {D : Digest} {S : Type}.
Variables (sup : Supervisor) (p : StreamPorts S).
Hypothesis Hstore : has_store sup = true.

Notation np := (noted_ports p).

Definition At (m : mon) (w : S * list SCall) : Prop := run_mon (sup_tag sup) mon_start w.2 = Some m.

Lemma At_note {A} (call : A -> SCall) (f : st S A) m w (Q : A -> S * list SCall -> Prop) :
  At m w ->
  (forall a w', run_mon (sup_tag sup) mon_start w'.2 = mon_step (sup_tag sup) m (call a) -> Q a w') ->
  wp (noting call f) Q w.
Proof.
  intros Hm HQ. destruct w as [s log]. apply wp_noting. intros a s'. apply HQ.
  cbn [snd]. rewrite run_mon_snoc. unfold At in Hm. cbn [snd] in Hm. by rewrite Hm.
Qed.

(** The same, with the call as the last one of the log. *)
Lemma At_note_last {A} (call : A -> SCall) (f : st S A) m w (Q : A -> S * list SCall -> Prop) :
  At m w ->
  (forall a w', run_mon (sup_tag sup) mon_start w'.2 = mon_step (sup_tag sup) m (call a) ->
     ends_in_fault w'.2 = fault_ends (call a) -> Q a w') ->
  wp (noting call f) Q w.
Proof.
  intros Hm HQ. destruct w as [s log]. apply wp_noting. intros a s'. apply HQ.
  - cbn [snd]. rewrite run_mon_snoc. unfold At in Hm. cbn [snd] in Hm. by rewrite Hm.
  - unfold ends_in_fault. cbn [snd]. by rewrite last_snoc.
Qed.

Lemma At_quiet {A} (f : st S A) m w (Q : A -> S * list SCall -> Prop) :
  At m w -> (forall a w', At m w' -> Q a w') -> wp (quiet f) Q w.
Proof. intros Hm HQ. destruct w as [s log]. apply wp_quiet. intros a s'. by apply HQ. Qed.

Lemma mon_broken_same m : m <| m_broken := m_broken m || false |> = m.
Proof. destruct m; cbn. by rewrite orb_false_r. Qed.
Lemma mon_broken_set m : m <| m_broken := m_broken m || true |> = m <| m_broken := true |>.
Proof. destruct m; cbn. by rewrite orb_true_r. Qed.

Lemma wp_guard m w (Q : result StreamSupervisorError unit -> S * list SCall -> Prop) :
  At m w -> (forall w', At m w' -> Q (Ok tt) w') ->
  (forall e w', At (m <| m_broken := true |>) w' -> ends_in_fault w'.2 = true -> Q (Err e) w') ->
  wp (guard_write sup np) Q w.
Proof.
  intros Hm Hok Herr. unfold guard_write. rewrite Hstore. apply wp_bind.
  eapply At_note_last; [exact Hm|]. intros b w' Hw Hl. apply wp_ret. cbn [mon_step] in Hw. destruct b.
  - apply Herr; [|exact Hl]. unfold At. by rewrite <- mon_broken_set.
  - apply Hok. unfold At. by rewrite mon_broken_same in Hw.
Qed.

Lemma wp_begin_session m w (Q : result StreamSupervisorError Receipt -> S * list SCall -> Prop) :
  At m w -> is_some (m_token m) = true -> m_broken m = false -> m_row m = RowNone ->
  (forall id w', At (m <| m_row := RowOpen id |>) w' -> Q (Ok (Some id)) w') ->
  (forall e w', At (m <| m_broken := true |>) w' -> ends_in_fault w'.2 = true -> Q (Err e) w') ->
  wp (begin_session sup np) Q w.
Proof.
  intros Hm Ht Hb Hr Hok Herr. unfold begin_session. apply wp_bind.
  eapply wp_guard; [exact Hm| |intros; apply wp_ret; eauto]. intros w' Hw'. rewrite Hstore. apply wp_bind.
  eapply At_note_last; [exact Hw'|]. intros r w2 Hw2 Hl. apply wp_ret.
  cbn [mon_step] in Hw2. rewrite Ht, Hb, Hr in Hw2. cbn [andb negb] in Hw2.
  destruct r as [id|e]; cbn; [by apply Hok|by apply Herr].
Qed.

Lemma wp_begin m w op id (Q : result StreamSupervisorError Receipt -> S * list SCall -> Prop) :
  At m w -> m_row m = RowOpen id -> m_broken m = false -> m_open m = None ->
  (forall rid w', At (m <| m_open := Some (op, rid) |>) w' -> Q (Ok (Some rid)) w') ->
  (forall e w', At (m <| m_broken := true |>) w' -> Q (Err e) w') ->
  wp (begin_request sup np op) Q w.
Proof.
  intros Hm Hr Hb Ho Hok Herr. unfold begin_request. apply wp_bind.
  eapply wp_guard; [exact Hm| |intros; apply wp_ret; eauto]. intros w' Hw'. rewrite Hstore. apply wp_bind.
  eapply At_note; [exact Hw'|]. intros r w2 Hw2. apply wp_ret.
  cbn [mon_step] in Hw2. rewrite Hb, Ho, Hr in Hw2. cbn [is_none is_some andb negb] in Hw2.
  destruct r as [rid|e]; cbn; [by apply Hok|by apply Herr].
Qed.

Lemma wp_complete m w op rid c (Q : result StreamSupervisorError unit -> S * list SCall -> Prop) :
  At m w -> m_open m = Some (op, rid) -> m_broken m = false -> completion_valid c = true ->
  (forall w', At (m <| m_open := None |> <| m_unsubscribed := unsubscribed_by op rid c |>) w' -> Q (Ok tt) w') ->
  (forall e w', At (m <| m_broken := true |>) w' -> Q (Err e) w') ->
  wp (complete_request sup np (Some rid) c) Q w.
Proof.
  intros Hm Ho Hb Hv Hok Herr. unfold complete_request. rewrite Hstore. apply wp_bind.
  eapply wp_guard; [exact Hm| |intros; apply wp_ret; eauto]. intros w' Hw'. apply wp_bind.
  eapply At_note; [exact Hw'|]. intros r w2 Hw2. apply wp_ret.
  cbn [mon_step] in Hw2. rewrite Ho, Hb, Hv, bool_decide_true in Hw2 by done. cbn [andb negb] in Hw2.
  destruct r as [[]|e]; cbn; [by apply Hok|by apply Herr].
Qed.

Lemma wp_complete_session m w id outcome unsub (Q : result StreamSupervisorError unit -> S * list SCall -> Prop) :
  At m w -> m_row m = RowOpen id -> m_open m = None -> m_broken m = false ->
  (outcome = OrderlyShutdown -> exists u, unsub = Some u /\ m_unsubscribed m = Some u) ->
  (forall w', At (m <| m_row := RowClosed |>) w' -> Q (Ok tt) w') ->
  (forall e w', At (m <| m_broken := true |>) w' -> ends_in_fault w'.2 = true -> Q (Err e) w') ->
  wp (complete_session sup np (Some id) outcome unsub) Q w.
Proof.
  intros Hm Hr Ho Hb Hu Hok Herr. unfold complete_session. rewrite Hstore. apply wp_bind.
  eapply wp_guard; [exact Hm| |intros; apply wp_ret; eauto]. intros w' Hw'.
  destruct (terminal outcome) as [t|] eqn:Et.
  - apply wp_bind. eapply At_note_last; [exact Hw'|]. intros r w2 Hw2 Hl. apply wp_ret.
    cbn [mon_step] in Hw2. rewrite Hr, Ho, Hb, bool_decide_true in Hw2 by done.
    destruct r as [[]|e]; cbn; [by apply Hok|apply Herr; [done|]]. rewrite Hl. cbn. apply orb_true_r.
  - destruct Hu as (u & -> & Hu); [by destruct outcome|]. apply wp_bind.
    eapply At_note_last; [exact Hw'|]. intros r w2 Hw2 Hl. apply wp_ret.
    cbn [mon_step] in Hw2. rewrite Hr, Ho, Hb, Hu, !bool_decide_true in Hw2 by done.
    destruct r as [[]|e]; cbn; [by apply Hok|by apply Herr].
Qed.

(** After an audit fault the row is tried once more, as failed. *)
Lemma wp_stop_failed m w id e (Q : Outcome -> S * list SCall -> Prop) :
  At m w -> m_row m = RowOpen id -> m_broken m = true ->
  (forall m' w', At m' w' -> m_broken m' = true -> ends_in_fault w'.2 = true -> Q (Stop (Err e)) w') ->
  wp (stop_failed sup np (Some id) e) Q w.
Proof.
  intros Hm Hr Hb HQ. unfold stop_failed, complete_session. rewrite Hstore. apply wp_bind, wp_bind.
  eapply wp_guard; [exact Hm| |intros e' w' Hw' Hl; apply wp_ret, wp_ret; eapply HQ; [exact Hw'|done..]].
  intros w' Hw'. cbn [terminal].
  apply wp_bind. eapply At_note_last; [exact Hw'|]. intros r w2 Hw2 Hl. apply wp_ret, wp_ret.
  cbn [mon_step] in Hw2. rewrite Hr, Hb, !bool_decide_true in Hw2 by done.
  rewrite andb_false_r in Hw2. cbn [andb orb] in Hw2. destruct r as [[]|?]; (eapply HQ; [exact Hw2|by destruct m|exact Hl]).
Qed.

(** *** The ends of an attempt *)

(** How an attempt leaves its rows: settled, or stopped by the error of an audit fault,
    with nothing left to call. *)
Definition Fin (o : Outcome) (w : S * list SCall) : Prop :=
  exists m, At m w /\
    (settled m = true \/ m_broken m = true /\ ends_in_fault w.2 = true /\ exists e, o = Stop (Err e)).

Lemma Fin_stop m w e : At m w -> m_broken m = true -> ends_in_fault w.2 = true -> Fin (Stop (Err e)) w.
Proof. intros. exists m. eauto 6. Qed.
Lemma Fin_fault m w e : At (m <| m_broken := true |>) w -> ends_in_fault w.2 = true -> Fin (Stop (Err e)) w.
Proof. intros. by eapply Fin_stop. Qed.

Lemma wp_stop_failed_Fin m w id e :
  At m w -> m_row m = RowOpen id -> m_broken m = true ->
  wp (stop_failed sup np (Some id) e) Fin w.
Proof. intros. eapply wp_stop_failed; eauto using Fin_stop. Qed.

(** The request an attempt leaves open is the one it hands over to be completed. *)
Definition open_is (m : mon) (open : option (Receipt * OutboundRequestCompletion)) : Prop :=
  match open with
  | Some (receipt, c) =>
      completion_valid c = true /\ exists op rid, receipt = Some rid /\ m_open m = Some (op, rid)
  | None => m_open m = None
  end.

Lemma wp_end_unsubscribed m w id open cause outcome :
  At m w -> m_row m = RowOpen id -> m_broken m = false -> open_is m open ->
  wp (end_unsubscribed sup np (Some id) open cause outcome) Fin w.
Proof.
  intros Hm Hr Hb Ho. unfold end_unsubscribed. apply wp_bind.
  assert (Hend : forall m' w', At m' w' -> m_row m' = RowOpen id -> m_open m' = None -> m_broken m' = false ->
    wp (done ← complete_session sup np (Some id) (session_outcome false cause false) None;
        mret match done with Ok _ => outcome | Err error => Stop (Err error) end) Fin w').
  { intros m' w' Hm' Hr' Ho' Hb'. apply wp_bind. eapply wp_complete_session; [done..| | |].
    - by destruct cause.
    - intros w2 Hw2. apply wp_ret. eexists. split; [exact Hw2|]. left. destruct m'; cbn in *. by subst.
    - intros e w2 Hw2 Hl. apply wp_ret. by eapply Fin_fault. }
  destruct open as [[r c]|]; [|apply wp_ret; by eapply Hend].
  destruct Ho as (Hv & op & rid & -> & Ho). eapply wp_complete; [exact Hm|exact Ho|done|exact Hv| |].
  - intros w' Hw'. eapply Hend; [exact Hw'|..]; by destruct m; cbn in *.
  - intros e w' Hw'. eapply wp_stop_failed_Fin; [exact Hw'|..]; by destruct m; cbn in *.
Qed.

(** *** A subscribed session *)

(** The rows of an open session: its row, and the subscribe receipt until it is answered. *)
Definition InSession (id rid : Z) (state : SessionState) (m : mon) : Prop :=
  m_row m = RowOpen id /\ m_broken m = false /\ subscribe_receipt state = Some rid /\
  m_open m = if subscribe_open state then Some (StreamSubscribe, rid) else None.

(** What holds of the monitor when a step of the session is over. *)
Definition StepPost (id rid : Z) (r : Step * RunState * SessionState) (w : S * list SCall) : Prop :=
  exists m, At m w /\
    match r.1.1 with
    | Continue => InSession id rid r.2 m
    | End e =>
        (cause e <> CAuditFailed /\ InSession id rid r.2 m) \/
        (cause e = CAuditFailed /\ is_some (stop e) = true /\ m_row m = RowOpen id /\ m_broken m = true)
    end.

Lemma step_continue id rid run state m w : At m w -> InSession id rid state m -> StepPost id rid (Continue, run, state) w.
Proof. intros. exists m. auto. Qed.
Lemma step_end id rid e run state m w :
  At m w -> InSession id rid state m -> cause e <> CAuditFailed -> StepPost id rid (End e, run, state) w.
Proof. intros. exists m. split; [done|]. by left. Qed.

(** Steps that only change counters and clocks keep the rows. *)
Lemma in_session_same id rid state state' m :
  subscribe_receipt state' = subscribe_receipt state -> subscribe_open state' = subscribe_open state ->
  InSession id rid state m -> InSession id rid state' m.
Proof. unfold InSession. by intros -> ->. Qed.

Lemma reject_rows state step state' :
  reject state = (step, state') ->
  subscribe_receipt state' = subscribe_receipt state /\ subscribe_open state' = subscribe_open state /\
  match step with Continue => True | End e => cause e = CProtocol end.
Proof. unfold reject. intros [= <- <-]. destruct state; cbn. split_and!; [done..|].
  by destruct (INVALID_FRAME_STREAK <=? _). Qed.

Lemma end_for_class_cause class seen : cause (end_for_class class seen) <> CAuditFailed.
Proof. by destruct class. Qed.

Lemma handle_error_rows text state step state' :
  handle_error sup text state = (step, state') ->
  subscribe_receipt state' = subscribe_receipt state /\ subscribe_open state' = subscribe_open state /\
  match step with Continue => True | End e => cause e <> CAuditFailed end.
Proof.
  unfold handle_error. destruct (json_from_slice text) as [[| | | | |m]|];
    try (intros (? & ? & H)%reject_rows; split_and!; [done..|]; destruct step; [done|by rewrite H]).
  case_match; intros [= <- <-]; destruct state; (split_and!; [done..|]); [done|apply end_for_class_cause].
Qed.

Lemma handle_hello_rows text at_ state step state' :
  handle_hello text at_ state = (step, state') ->
  subscribe_receipt state' = subscribe_receipt state /\ subscribe_open state' = subscribe_open state /\
  match step with Continue => True | End e => cause e <> CAuditFailed end.
Proof.
  unfold handle_hello. destruct (json_from_slice text) as [[| | | | |m]|];
    try (intros (? & ? & H)%reject_rows; split_and!; [done..|]; destruct step; [done|by rewrite H]).
  case_match; intros [= <- <-].
  - destruct state; split_and!; [done..|]. apply end_for_class_cause.
  - case_match; destruct state; split_and!; done.
Qed.

Lemma wp_deliver event m w (Q : option SessionEnd -> S * list SCall -> Prop) :
  At m w ->
  (forall r w', At m w' -> match r with Some e => cause e <> CAuditFailed | None => True end -> Q r w') ->
  wp (deliver np event) Q w.
Proof.
  intros Hm HQ. unfold deliver, emit. apply wp_bind, wp_bind. eapply At_note; [exact Hm|].
  intros r w' Hw'. apply wp_ret, wp_ret. cbn [mon_step] in Hw'. by destruct r; apply HQ.
Qed.

Lemma wp_send_ping run c m w (Q : option SessionEnd * RunState * SessionClocks -> S * list SCall -> Prop) :
  At m w ->
  (forall r run' c' w', At m w' -> match r with Some e => cause e <> CAuditFailed | None => True end ->
    Q (r, run', c') w') ->
  wp (send_ping np run c) Q w.
Proof.
  intros Hm HQ. unfold send_ping. apply wp_bind. eapply At_quiet; [exact Hm|]. intros now w1 H1.
  apply wp_bind. eapply At_note; [exact H1|]. intros wall w2 H2. cbn [mon_step] in H2.
  destruct (on_ping_tick c now wall) as [slept c']. apply wp_bind. eapply At_quiet; [exact H2|].
  intros sent w3 H3. apply wp_ret. by destruct sent; apply HQ.
Qed.

Lemma step_reject id rid run state m w :
  At m w -> InSession id rid state m ->
  wp (let '(step, state') := reject state in mret (step, run, state')) (StepPost id rid) w.
Proof.
  intros Hm Hs. destruct (reject state) as [step state'] eqn:E. apply reject_rows in E as (H1 & H2 & H3).
  apply (in_session_same _ _ state state') in Hs; [|done..]. apply wp_ret.
  destruct step; [by eapply step_continue|]. eapply step_end; [done..|]. by rewrite H3.
Qed.

Lemma note_sample_rows u n dup at_ wall run state run' state' :
  note_sample u n dup at_ wall run state = (run', state') ->
  subscribe_receipt state' = subscribe_receipt state /\ subscribe_open state' = subscribe_open state.
Proof. unfold note_sample. intros [= _ <-]. by destruct state. Qed.

Lemma wp_first_accepted id rid at_ run state m w
    (Q : option SessionEnd * RunState * SessionState -> S * list SCall -> Prop) :
  At m w -> InSession id rid state m ->
  (forall r w', match r with
     | (None, run', state') => StepPost id rid (Continue, run', state') w'
     | (Some e, run', state') => StepPost id rid (End e, run', state') w'
     end -> Q r w') ->
  wp (first_accepted sup np at_ run state) Q w.
Proof.
  intros Hm (Hr & Hb & Hrc & Ho) HQ. unfold first_accepted.
  assert (Hdel : forall m' w' run' state', At m' w' -> InSession id rid state' m' ->
    wp (ended ← deliver np Healthy; mret (ended, run', state')) Q w').
  { intros m' w' run' state' Hm' Hs'. apply wp_bind. eapply wp_deliver; [exact Hm'|].
    intros r w2 Hw2 Hc. apply wp_ret, HQ. destruct r; [by eapply step_end|by eapply step_continue]. }
  destruct state as [sr so seen streak c cn ec]; cbn [subscribe_receipt subscribe_open] in *. cbn.
  apply wp_bind. destruct so.
  - rewrite Hrc. eapply wp_complete; [exact Hm|exact Ho|done|done| |].
    + intros w' Hw'. eapply Hdel; [exact Hw'|]. destruct m; cbn in *. by split_and!.
    + intros e w' Hw'. apply wp_ret, HQ. exists (m <| m_broken := true |>). split; [done|].
      right. destruct m; cbn in *. by split_and!.
  - apply wp_ret. eapply Hdel; [exact Hm|]. by split_and!.
Qed.

Lemma wp_handle_update id rid text at_ run state m w :
  At m w -> InSession id rid state m ->
  wp (handle_update sup np text at_ run state) (StepPost id rid) w.
Proof.
  intros Hm Hs. unfold handle_update.
  destruct (session_sample sup text state) as [[u n]|]; [|by eapply step_reject].
  apply wp_bind. eapply At_note; [exact Hm|]. intros wall w1 H1. cbn [mon_step] in H1.
  destruct (negb _); [eapply step_reject; [exact H1|]; by destruct state|].
  set (dup := is_some_and _ _). destruct (note_sample u n dup at_ wall run state) as [run' state'] eqn:En.
  apply note_sample_rows in En as [E1 E2]. apply (in_session_same _ _ _ state') in Hs; [|done..].
  assert (Hrest : forall m' w' run' state', At m' w' -> InSession id rid state' m' ->
    wp (if dup then mret (Continue, run', state')
        else ended ← deliver np (Telemetry u at_);
             match ended with
             | Some e => mret (End e, run', state')
             | None => mret (Continue, run' <| last_delivered := Some u |>, state')
             end) (StepPost id rid) w').
  { clear -Hstore. intros m' w' run' state' Hm' Hs'. destruct dup; [apply wp_ret; by eapply step_continue|].
    apply wp_bind. eapply wp_deliver; [exact Hm'|]. intros r w2 Hw2 Hc.
    destruct r; apply wp_ret; [by eapply step_end|by eapply step_continue]. }
  apply wp_bind. destruct (negb (accepted_seen state')).
  - eapply wp_first_accepted; [exact H1|exact Hs|]. intros [[[e|] run2] state2] w2 (m2 & Hm2 & Hp).
    + apply wp_ret. by exists m2.
    + by eapply Hrest.
  - apply wp_ret. by eapply Hrest.
Qed.

Lemma step_pure id rid run m w (r : Step * SessionState) state :
  At m w -> InSession id rid state m ->
  subscribe_receipt r.2 = subscribe_receipt state /\ subscribe_open r.2 = subscribe_open state /\
  match r.1 with Continue => True | End e => cause e <> CAuditFailed end ->
  wp (mret (r.1, run, r.2)) (StepPost id rid) w.
Proof.
  intros Hm Hs (H1 & H2 & H3). destruct r as [[|e] state']; cbn [fst snd] in *; apply wp_ret;
    apply (in_session_same _ _ _ state') in Hs; try done; [by eapply step_continue|by eapply step_end].
Qed.

Lemma wp_handle_text id rid text at_ run state m w :
  At m w -> InSession id rid state m ->
  wp (handle_text sup np text at_ run state) (StepPost id rid) w.
Proof.
  intros Hm Hs. unfold handle_text.
  assert (Hrej : wp (mret ((reject state).1, run, (reject state).2)) (StepPost id rid) w).
  { eapply step_pure; [exact Hm|exact Hs|]. destruct (reject state) as [st s'] eqn:E. apply reject_rows in E as (? & ? & H).
    split_and!; [done..|]. cbn. destruct st; [done|by rewrite H]. }
  destruct (negb _); [exact Hrej|]. destruct (message_head text) as [mt|]; [|exact Hrej].
  case_match; [by eapply wp_handle_update|]. case_match; [|case_match].
  - eapply step_pure; [exact Hm|exact Hs|]. destruct (handle_error sup text state) as [st s'] eqn:E. by apply handle_error_rows in E.
  - eapply step_pure; [exact Hm|exact Hs|]. destruct (handle_hello text at_ state) as [st s'] eqn:E. by apply handle_hello_rows in E.
  - eapply step_pure; [exact Hm|exact Hs|]. by destruct state.
Qed.

Lemma wp_handle_message id rid msg at_ run state m w :
  At m w -> InSession id rid state m ->
  wp (handle_message sup np msg at_ run state) (StepPost id rid) w.
Proof.
  intros Hm Hs. unfold handle_message.
  apply (in_session_same _ _ _ (state <| clocks := on_inbound (clocks state) at_ |>)) in Hs; [|by destruct state..].
  destruct msg as [text|bytes|frame| | |]; try (apply wp_ret; by eapply step_continue).
  - by eapply wp_handle_text.
  - destruct (is_utf8 bytes); [by eapply wp_handle_text|by eapply step_reject].
  - apply wp_ret. eapply step_end; [done..|]. cbn. by destruct (close_failure_class frame).
Qed.

Lemma wp_read_step id rid run state m w :
  At m w -> InSession id rid state m ->
  wp (read_step sup np run state) (StepPost id rid) w.
Proof.
  intros Hm Hs. unfold read_step. apply wp_bind. eapply At_quiet; [exact Hm|]. intros wake w1 H1.
  destruct wake as [|msg| | | |]; try (apply wp_ret; by eapply step_end).
  - apply wp_bind. eapply At_quiet; [exact H1|]. intros at_ w2 H2.
    destruct msg; try (apply wp_ret; by eapply step_end). by eapply wp_handle_message.
  - apply wp_bind. eapply wp_send_ping; [exact H1|]. intros r run' c' w2 H2 Hc. apply wp_ret.
    apply (in_session_same _ _ _ (state <| clocks := c' |>)) in Hs; [|by destruct state..].
    destruct r; [by eapply step_end|by eapply step_continue].
  - apply wp_ret. eapply step_continue; [exact H1|]. by destruct state.
Qed.

Definition LoopPost (id rid : Z) (r : option SessionEnd * RunState * SessionState) (w : S * list SCall) : Prop :=
  match r with
  | (None, run, state) => exists m, At m w
  | (Some e, run, state) => StepPost id rid (End e, run, state) w
  end.

Lemma wp_read_loop id rid fuel run state m w :
  At m w -> InSession id rid state m ->
  wp (read_loop sup np fuel run state) (LoopPost id rid) w.
Proof.
  revert run state m w. induction fuel as [|fuel IH]; intros run state m w Hm Hs; cbn [read_loop].
  { apply wp_ret. by exists m. }
  apply wp_bind. eapply wp_mono; [by eapply wp_read_step|].
  intros [[[|e] run'] state'] w' Hp.
  - destruct Hp as (m' & Hm' & Hp). by eapply IH.
  - by apply wp_ret.
Qed.

(** *** Leaving *)

(** The unsubscribe and close: the row stays open, no request does, and a written
    unsubscribe is the receipt that is handed on. *)
Lemma wp_leave_socket id e m w
    (Q : result StreamSupervisorError (Receipt * bool) -> S * list SCall -> Prop) :
  At m w -> m_row m = RowOpen id -> m_broken m = false -> m_open m = None ->
  (forall m' r ok w', At m' w' -> m_row m' = RowOpen id -> m_broken m' = false -> m_open m' = None ->
     (ok = true -> exists u, r = Some u /\ m_unsubscribed m' = Some u) -> Q (Ok (r, ok)) w') ->
  (forall m' e w', At m' w' -> m_row m' = RowOpen id -> m_broken m' = true -> Q (Err e) w') ->
  wp (leave_socket sup np e) Q w.
Proof.
  intros Hm Hr Hb Ho Hok Herr. unfold leave_socket.
  destruct (usable e); cbn [negb]; [|apply wp_ret; by eapply Hok].
  destruct (unsubscribe e).
  2: { apply wp_bind. eapply At_quiet; [exact Hm|]. intros _ w' Hw'. apply wp_ret. by eapply Hok. }
  apply wp_bind. eapply wp_begin; [exact Hm|exact Hr|exact Hb|exact Ho| |].
  2: { intros e' w' Hw'. apply wp_ret. eapply Herr; [exact Hw'|..]; by destruct m. }
  intros rid w1 H1. apply wp_bind.
  assert (Hwritten : forall written w', At (m <| m_open := Some (StreamUnsubscribe, rid) |>) w' ->
    wp (completed ← complete_request sup np (Some rid)
          (completion (match written with true => OSuccess | false => OTransportError end));
        match completed with
        | Err error => mret (Err error)
        | Ok _ =>
            match written with
            | true => _ ← close_handshake np (close_code e); mret (Ok (Some rid, true))
            | false => mret (Ok (Some rid, false))
            end
        end) Q w').
  { intros written w' Hw'. apply wp_bind. eapply wp_complete; [exact Hw'|by destruct m|by destruct m|done| |].
    - intros w2 Hw2. destruct written.
      + apply wp_bind. eapply At_quiet; [exact Hw2|]. intros _ w3 Hw3. apply wp_ret.
        eapply Hok; [exact Hw3|by destruct m..|]. intros _. exists rid. by destruct m.
      + apply wp_ret. eapply Hok; [exact Hw2|by destruct m..|done].
    - intros e' w2 Hw2. apply wp_ret. eapply Herr; [exact Hw2|..]; by destruct m. }
  destruct (unsubscribe_frame (sup_tag sup)) as [frame|] eqn:Ef.
  - eapply At_note; [exact H1|]. intros written w2 Hw2. apply Hwritten.
    cbn [mon_step] in Hw2. replace (m_open _) with (Some (StreamUnsubscribe, rid)) in Hw2 by (by destruct m).
    rewrite Ef, bool_decide_true in Hw2 by done. exact Hw2.
  - apply wp_ret. exact (Hwritten false w1 H1).
Qed.

Definition FinRun (r : Outcome * RunState) (w : S * list SCall) : Prop := Fin r.1 w.

Lemma wp_stop_failed_run m w id e run :
  At m w -> m_row m = RowOpen id -> m_broken m = true ->
  wp (o ← stop_failed sup np (Some id) e; mret (o, run)) FinRun w.
Proof.
  intros Hm Hr Hb. apply wp_bind. eapply wp_mono; [by eapply wp_stop_failed_Fin|].
  intros o w' H. by apply wp_ret.
Qed.

Lemma wp_finish_subscribed id rid e run state w :
  StepPost id rid (End e, run, state) w ->
  wp (finish_subscribed sup np e (Some id) run state) FinRun w.
Proof.
  intros (m & Hm & Hp). unfold finish_subscribed. cbn [fst snd] in Hp.
  destruct Hp as [[Hc (Hr & Hb & Hrc & Ho)]|(Hc & Hst & Hr & Hb)].
  2: { rewrite bool_decide_true by done. by eapply wp_stop_failed_run. }
  rewrite bool_decide_false by done. apply wp_bind.
  assert (Hleave : forall m' w', At m' w' -> m_row m' = RowOpen id -> m_broken m' = false -> m_open m' = None ->
    wp (left_ ← leave_socket sup np e;
        match left_ with
        | Err error => o ← stop_failed sup np (Some id) error; mret (o, revoke_gate run)
        | Ok (receipt, ok) =>
            done ← complete_session sup np (Some id) (session_outcome true (cause e) ok) receipt;
            mret (match done, stop e, end_class e with
                  | Err error, _, _ => Stop (Err error)
                  | Ok _, Some error, _ => Stop (Err error)
                  | Ok _, None, None => Stop (Ok tt)
                  | Ok _, None, Some class => OFailed class
                  end, revoke_gate run)
        end) FinRun w').
  { clear m w Hm Hr Hb Ho. intros m w Hm Hr Hb Ho. apply wp_bind.
    eapply wp_leave_socket; [done..| |].
    - intros m' r ok w' Hm' Hr' Hb' Ho' Hu. apply wp_bind. eapply wp_complete_session; [done..| | |].
      + intros Hor. destruct ok; [by apply Hu|]. by destruct (cause e).
      + intros w2 Hw2. apply wp_ret. eexists. split; [exact Hw2|]. left. destruct m'; cbn in *. by subst.
      + intros e' w2 Hw2 Hl. apply wp_ret. by eapply Fin_fault.
    - intros m' e' w' Hm' Hr' Hb'. by eapply wp_stop_failed_run. }
  destruct (subscribe_open state); [rewrite Hrc; eapply wp_complete; [exact Hm|exact Ho|done|done| |]|].
  - intros w' Hw'. eapply Hleave; [exact Hw'|..]; by destruct m.
  - intros e' w' Hw'. eapply wp_stop_failed_run; [exact Hw'|..]; by destruct m.
  - apply wp_ret. by eapply Hleave.
Qed.

(** *** Admitting *)

(** While admitting: the row is open and no request is; a token handed on is the last one read. *)
Definition LivePost (m0 : mon) (r : option Live * RunState * SessionClocks) (w : S * list SCall) : Prop :=
  exists token, At (m0 <| m_token := token |>) w /\
    match r.1.1 with Some (LDone (AdmitToken t)) => token = Some t | _ => True end.

Lemma LivePost_same m0 live run c w :
  At m0 w -> match live with Some (LDone (AdmitToken _)) => False | _ => True end ->
  LivePost m0 (live, run, c) w.
Proof.
  intros Hm Hl. exists (m_token m0). split; [by destruct m0|]. cbn. by destruct live as [[[]| | |]|].
Qed.

Lemma live_message_not_token at_ msg c live c' :
  live_message sup at_ msg c = (Some live, c') -> match live with LDone (AdmitToken _) => False | _ => True end.
Proof.
  unfold live_message. destruct msg as [| | |msg]; try by intros [= <- <-].
  destruct (admitting_step msg (sup_tag sup)); intros [= <- <-]; done.
Qed.

Lemma wp_live_wait fuel run c m w :
  At m w -> wp (live_wait sup np fuel run c) (LivePost m) w.
Proof.
  revert run c w. induction fuel as [|fuel IH]; intros run c w Hm; cbn [live_wait].
  { apply wp_ret. by apply LivePost_same. }
  apply wp_bind. eapply At_quiet; [exact Hm|]. intros wake w1 H1.
  destruct wake as [|lock|msg| |]; try (apply wp_ret; by apply LivePost_same).
  - apply wp_bind. destruct lock; [|apply wp_ret, wp_ret; by apply LivePost_same..].
    unfold admit_token. apply wp_bind. eapply At_note; [exact H1|]. intros r w2 H2. apply wp_ret, wp_ret.
    cbn [mon_step] in H2. destruct r as [t|e]; eexists; (split; [exact H2|done]).
  - apply wp_bind. eapply At_quiet; [exact H1|]. intros at_ w2 H2.
    destruct (live_message sup at_ msg c) as [[live|] c'] eqn:E; [|by apply IH].
    apply wp_ret. apply LivePost_same; [done|]. by apply live_message_not_token in E.
  - apply wp_bind. eapply wp_send_ping; [exact H1|]. intros r run' c' w2 H2 Hc.
    destruct r as [e|]; [|by apply IH]. apply wp_ret. apply LivePost_same; [done|]. by destruct (cause e).
Qed.

(** *** One attempt *)

Definition AttemptPost (r : option Outcome * RunState) (w : S * list SCall) : Prop :=
  match r.1 with
  | Some o => Fin o w
  | None => exists m, At m w
  end.

Lemma wp_finished (o : st (S * list SCall) Outcome) run w :
  wp o Fin w -> wp (x ← o; mret (Some x, run)) AttemptPost w.
Proof. intros H. apply wp_bind. eapply wp_mono; [exact H|]. intros x w' Hx. by apply wp_ret. Qed.

(** The credential check touches no row; when it is ready, a token was just read. *)
Lemma wp_check m w (Q : Check -> S * list SCall -> Prop) :
  At m w ->
  (forall c token w', At (m <| m_token := token |>) w' -> (c = Ready -> is_some token = true) -> Q c w') ->
  wp (check_credentials sup np) Q w.
Proof.
  intros Hm HQ.
  assert (Hsame : forall c w', At m w' -> c <> Ready -> Q c w').
  { intros c w' Hw' Hc. eapply (HQ _ (m_token m)); [by destruct m|done]. }
  unfold check_credentials. apply wp_bind. eapply At_quiet; [exact Hm|]. intros lock w1 H1.
  destruct lock; [|apply wp_ret; by apply Hsame..]. apply wp_bind. eapply At_quiet; [exact H1|].
  intros access w2 H2. destruct access as [[]|e]; [|apply wp_ret; by apply Hsame].
  destruct (has_client sup); cbn [negb]; [|apply wp_ret; by apply Hsame].
  apply wp_bind. eapply At_quiet; [exact H2|]. intros waited w3 H3.
  destruct waited; try (apply wp_ret; by apply Hsame).
  apply wp_bind. unfold credential_task. apply wp_bind. eapply At_quiet; [exact H3|]. intros refresh w4 H4.
  set (stopped := match refresh with Err _ => _ | Ok _ => None end).
  destruct stopped as [f|]; [apply wp_ret, wp_ret; by apply Hsame|].
  apply wp_bind. eapply At_note; [exact H4|]. intros token w5 H5. apply wp_ret, wp_ret.
  cbn [mon_step] in H5. destruct token as [tk|e].
  - eapply (HQ Ready (Some tk)); [exact H5|done].
  - eapply (HQ _ None); [exact H5|done].
Qed.

Lemma wp_subscribe_and_read fuel token id run c m w :
  At m w -> m_row m = RowOpen id -> m_broken m = false -> m_open m = None -> m_token m = Some token ->
  wp (subscribe_and_read sup np fuel token (Some id) run c) AttemptPost w.
Proof.
  intros Hm Hr Hb Ho Ht. unfold subscribe_and_read.
  destruct (subscribe_frame_zeroizing (sup_tag sup) token) as [frame|] eqn:Ef.
  2: { apply wp_finished. by eapply wp_end_unsubscribed. }
  destruct (is_utf8 frame); cbn [negb]; [|apply wp_finished; by eapply wp_end_unsubscribed].
  apply wp_bind. eapply wp_begin; [exact Hm|exact Hr|exact Hb|exact Ho| |].
  2: { intros e w' Hw'. apply wp_finished. eapply wp_stop_failed_Fin; [exact Hw'|..]; by destruct m. }
  intros rid w1 H1. apply wp_bind. eapply At_quiet; [exact H1|]. intros now w2 H2.
  apply wp_bind. eapply At_note; [exact H2|]. intros written w3 H3.
  destruct m as [row op tk un br]; cbn in Hr, Hb, Ho, Ht; subst.
  cbn [mon_step] in H3. cbn [m_open m_token] in H3. cbn in H3. rewrite Ef, bool_decide_true in H3 by done.
  assert (H3' : At (MkMon (RowOpen id) (Some (StreamSubscribe, rid)) (Some token) un false) w3) by exact H3.
  destruct written.
  - apply wp_finished. eapply wp_end_unsubscribed; [exact H3'|done..|]. split; [done|]. by exists StreamSubscribe, rid.
  - apply wp_finished. eapply wp_end_unsubscribed; [exact H3'|done..|]. split; [done|]. by exists StreamSubscribe, rid.
  - apply wp_bind. eapply At_quiet; [exact H3'|]. intros subscribed_at w4 H4. apply wp_bind.
    eapply wp_mono; [eapply (wp_read_loop id rid); [exact H4|by split_and!]|].
    intros [[[e|] run'] state'] w5 Hp; cbn [LoopPost] in Hp.
    + apply wp_bind. eapply wp_mono; [by eapply wp_finish_subscribed|]. intros o w6 Ho. by apply wp_ret.
    + by apply wp_ret.
Qed.

Lemma wp_admit_and_subscribe fuel id run c m w :
  At m w -> m_row m = RowOpen id -> m_broken m = false -> m_open m = None ->
  wp (admit_and_subscribe sup np fuel (Some id) run c) AttemptPost w.
Proof.
  intros Hm Hr Hb Ho. unfold admit_and_subscribe. apply wp_bind.
  eapply wp_mono; [by eapply wp_live_wait|]. intros [[live run'] c'] w' (token & Hw' & Ht).
  cbn [fst] in Ht. destruct m as [row op tk un br]; cbn in Hr, Hb, Ho; subst. cbn in Hw'.
  assert (Hend : forall cause outcome w2, At (MkMon (RowOpen id) None token un false) w2 ->
    wp (o ← end_unsubscribed sup np (Some id) None cause outcome; mret (Some o, run')) AttemptPost w2).
  { intros cause outcome w2 Hw2. apply wp_finished. by eapply wp_end_unsubscribed. }
  destruct live as [[[t|f]| |class|class code]|].
  - subst token. by eapply wp_subscribe_and_read.
  - apply wp_bind. case_match; [apply wp_ret; by apply Hend|].
    eapply At_quiet; [exact Hw'|]. intros _ w2 Hw2. by apply Hend.
  - by apply Hend.
  - by apply Hend.
  - apply wp_bind. eapply At_quiet; [exact Hw'|]. intros _ w2 Hw2. by apply Hend.
  - apply wp_ret. by eexists.
Qed.

Lemma parse_retry_after_range v now seconds : parse_retry_after v now = Some seconds -> 0 <= seconds <= i64_max.
Proof.
  unfold parse_retry_after. case_match; [done|]. case_match.
  - intros [= <-]. assert (0 <= default u64_max (parse_int 0 u64_max (trim_ascii v))).
    { destruct (parse_int 0 u64_max (trim_ascii v)) as [n|] eqn:E; [|done].
      by apply parse_int_range in E as [? _]. }
    mlia.
  - destruct (parse_imf_fixdate (trim_ascii v)) as [at_|]; [|done]. cbn. intros [= <-].
    rewrite Z.quot_div_nonneg by lia. pose proof (i64_ssub_range at_ now) as [? ?].
    split; [apply Z.div_pos; lia|]. apply Z.div_le_upper_bound; [lia|]. mlia.
Qed.

(** Whatever the upgrade was answered with, the audit column takes it. *)
Lemma upgrade_completion_valid outcome status ra :
  (forall seconds, ra = Some seconds -> 0 <= seconds <= i64_max) ->
  completion_valid (MkCompletion outcome (then_some (in_range 100 599 status) status) ra) = true.
Proof.
  intros Hra. unfold completion_valid. cbn [co_http_status co_retry_after_seconds].
  apply andb_true_iff. split.
  - unfold then_some, in_range. destruct ((100 <=? status) && (status <=? 599)) eqn:E; [exact E|done].
  - destruct ra as [n|]; [|done]. cbn. specialize (Hra n eq_refl). unfold i64_try_from, i64_min in *.
    replace (-9223372036854775808 <=? n) with true by lia. by replace (n <=? i64_max) with true by lia.
Qed.

Lemma wp_attempt fuel run w :
  At mon_start w -> wp (attempt sup np fuel run) AttemptPost w.
Proof.
  intros Hm. unfold attempt. apply wp_bind. eapply wp_check; [exact Hm|].
  intros check token w1 H1 Hready. cbn in H1.
  destruct check as [| |f].
  2: { apply wp_ret. eexists. split; [exact H1|by left]. }
  2: { apply wp_ret. eexists. split; [exact H1|by left]. }
  specialize (Hready eq_refl). apply wp_bind.
  eapply wp_begin_session; [exact H1|done..| |].
  2: { intros e w' Hw' Hl. apply wp_ret. by eapply Fin_fault. }
  intros id w2 H2. apply wp_bind. cbn in H2.
  eapply wp_begin; [exact H2|done..| |].
  2: { intros e w' Hw'. apply wp_finished. by eapply wp_stop_failed_Fin. }
  intros rid w3 H3. apply wp_bind. cbn in H3. eapply At_note; [exact H3|]. intros answer w4 H4.
  cbn [mon_step m_open] in H4. cbn in H4.
  assert (H4' : At (MkMon (RowOpen id) (Some (StreamConnect, rid)) None None false) w4) by exact H4.
  assert (Hend : forall c cause outcome w2, completion_valid c = true ->
    At (MkMon (RowOpen id) (Some (StreamConnect, rid)) None None false) w2 ->
    wp (o ← end_unsubscribed sup np (Some id) (Some (Some rid, c)) cause outcome; mret (Some o, run)) AttemptPost w2).
  { intros c cause outcome w5 Hc Hw5. apply wp_finished. eapply wp_end_unsubscribed; [exact Hw5|done..|].
    split; [exact Hc|]. by exists StreamConnect, rid. }
  destruct answer as [| |status header| |]; unfold connect_failed.
  - by apply Hend.
  - by apply Hend.
  - apply wp_bind. unfold upgrade_failure. apply wp_bind. destruct header as [v|].
    + apply wp_bind. eapply At_note; [exact H4'|]. intros now w5 H5. apply wp_ret, wp_ret.
      apply Hend; [apply upgrade_completion_valid, parse_retry_after_range|exact H5].
    + apply wp_ret, wp_ret. apply Hend; [|exact H4']. by apply upgrade_completion_valid.
  - apply wp_bind. unfold upgrade_failure. apply wp_ret. by apply Hend.
  - apply wp_bind. eapply At_quiet; [exact H4'|]. intros now w5 H5. apply wp_bind.
    eapply At_note; [exact H5|]. intros wall w6 H6. cbn [mon_step] in H6. apply wp_bind.
    eapply wp_complete; [exact H6|done..| |].
    + intros w7 H7. by eapply wp_admit_and_subscribe.
    + intros e w7 H7. apply wp_finished. by eapply wp_stop_failed_Fin.
Qed.

(** *** The run *)

Definition RunPost (r : option (result StreamSupervisorError unit) * RunState) (w : S * list SCall) : Prop :=
  exists m, At m w /\ (r.1 = Some (Ok tt) -> settled m = true) /\ (r.1 <> None -> closed_off m w.2 = true).

Lemma RunPost_settled r m w : At m w -> settled m = true -> RunPost r w.
Proof. intros Hm Hs. exists m. unfold closed_off. by rewrite Hs. Qed.
Lemma RunPost_open run m w : At m w -> RunPost (None, run) w.
Proof. intros Hm. exists m. by split_and!. Qed.

Lemma wp_run_attempts fuel delay run m w :
  At m w -> settled m = true -> wp (run_attempts sup np fuel delay run) RunPost w.
Proof.
  revert delay run m w. induction fuel as [|fuel IH]; intros delay run m w Hm Hs; cbn [run_attempts].
  { apply wp_ret. by eapply RunPost_open. }
  apply wp_bind. eapply At_note; [exact Hm|]. intros slept w1 H1. cbn [mon_step] in H1. rewrite Hs in H1.
  destruct slept; [|apply wp_ret; by eapply RunPost_settled].
  apply wp_bind. eapply wp_mono; [by apply wp_attempt|]. intros [[o|] run'] w2 Hp.
  2: { destruct Hp as [m' Hm']. apply wp_ret. by eapply RunPost_open. }
  destruct Hp as (m' & Hm' & Hset). cbn [fst] in Hset.
  assert (Hdraw : forall (f : f64 -> Duration) run2 w', At m' w' -> settled m' = true ->
    wp (u ← draw np; mret (inr (f u)))
      (fun next w2 => wp (match next with
        | inl r => mret (Some r, revoke_gate run2)
        | inr d => run_attempts sup np fuel d run2
        end) RunPost w2) w').
  { intros f run2 w' Hw' Hs'. apply wp_bind. eapply At_quiet; [exact Hw'|].
    intros u w3 H3. apply wp_ret. by eapply IH. }
  destruct o as [r|class|]; cbn [after_attempt]; apply wp_bind.
  - apply wp_ret, wp_ret. destruct Hset as [Hset|(Hb & Hl & e & [= ->])]; [by eapply RunPost_settled|].
    exists m'. unfold closed_off. rewrite Hb, Hl, orb_true_r. by split_and!.
  - assert (Hs' : settled m' = true) by (by destruct Hset as [|(_ & _ & e & ?)]).
    apply wp_bind. destruct (event_for _ _) as [ev|]; [|apply wp_ret; by apply Hdraw].
    unfold emit. apply wp_bind. eapply At_note; [exact Hm'|]. intros sent w3 H3. cbn [mon_step] in H3.
    apply wp_ret. destruct sent; [..|by apply Hdraw]; apply wp_ret, wp_ret; by eapply RunPost_settled.
  - assert (Hs' : settled m' = true) by (by destruct Hset as [|(_ & _ & e & ?)]). by apply Hdraw.
Qed.

End Audit.

(** ** The theorem about the rows *)

(** C14: whatever the peer, the credential manager, the clock and the audit store do,
    a run keeps its audit discipline in every prefix of its calls: a session row is
    begun only after a token could be read; a request is sent only with its receipt
    open, one request at a time; the subscribe frame carries the token read last,
    after the socket opened; a row or a receipt is completed at most once and before
    the next attempt, with values the table takes, an orderly end only with the
    receipt of a written unsubscribe; after an audit fault nothing more is begun and
    the row is only tried as failed.  A run that answers, with an error or without, has
    completed every row and receipt it began, unless the audit store refused or failed
    a write: then its last call is the one that failed or the row's completion as
    failed. A run that answers without an error left nothing open. *)
Theorem audit_rows_disciplined `{X : External} `{J : JsonText} `{D : Digest} {S : Type}
    (sup : Supervisor) (p : StreamPorts S) (fuel : nat) (gate : option GateState) (s : S)
    (Hstore : has_store sup = true) :
  match run_supervisor sup (noted_ports p) fuel gate (s, []) with
  | ((answer, _), (_, log)) =>
      exists m, run_mon (sup_tag sup) mon_start log = Some m /\
        (answer = Some (Ok tt) -> settled m = true) /\
        (answer <> None -> settled m = true \/ m_broken m = true /\ ends_in_fault log = true)
  end.
Proof.
  assert (H : wp (run_supervisor sup (noted_ports p) fuel gate) (RunPost sup) (s, [])).
  { unfold run_supervisor. destruct (i64_try_from (vehicle_id sup)); [|apply wp_ret; by eapply RunPost_settled].
    apply wp_bind. eapply (At_quiet sup _ mon_start); [done|]. intros u w H.
    by eapply wp_run_attempts. }
  unfold wp in H. destruct (run_supervisor _ _ _ _ _) as [[answer run] [s' log]].
  destruct H as (m & Hm & Hok & Hc). exists m. split_and!; [exact Hm|exact Hok|]. intros Ha.
  specialize (Hc Ha). by apply orb_true_iff in Hc as [|[? ?]%andb_true_iff]; [left|right].
Qed.

(** ** A concrete run *)
Module SampleRun.

(** A JSON reader that takes [{value] for a [data:update] with that [value]. *)
Definition from_slice (s : string) : option json :=
  SampleFrames.frame_object <$> strip_prefix "{" s.

Definition external : External := {|
  Url := Sample.surl;
  url_parse := Sample.parse;
  url_scheme := Sample.su_scheme;
  url_host_str u := Some (Sample.su_host u);
  url_host := Sample.host;
  url_username _ := "";
  url_password _ := None;
  url_query _ := None;
  url_fragment _ := None;
  b64url_decode s := Some s;
  json_from_slice := from_slice;
|}.

Definition json_text : JsonText := {|
  json_entries _ _ := Some [("msg_type", MkEntry (VisitStr "data:update") None)];
  json_write members := Some (str_join "," (map snd members));
|}.

Definition digest : Digest := {| sha256 s := s |}.

(** A peer that answers everything and then does what the script says, and how the
    reader of the events takes them. *)
Definition ports_with (sent : EventSend) : StreamPorts (list Wake) := {|
  draw s := (f64_zero, s);
  sleep _ s := (bool_decide (s <> []), s);
  lock_manager s := (Locked, s);
  assert_sensitive_access s := (Ok tt, s);
  refresh_if_due s := (Ok tt, s);
  access_token s := (Ok "token", s);
  await_task s := (TaskJoined, s);
  connect s := (Connected, s);
  mono_now s := (0, s);
  wall_now_ms s := (1700000000000, s);
  select_admitting _ _ s := (AWLock Locked, s);
  select_session _ _ _ _ s := match s with w :: s => (w, s) | [] => (WShutdown, []) end;
  write_subscribe _ _ s := (WriteDone, s);
  write_ping _ s := (WriteDone, s);
  write_unsubscribe _ s := (true, s);
  close_handshake _ s := (tt, s);
  send_event _ s := (sent, s);
  refused s := (false, s);
  begin_stream_session _ s := (Ok 1, s);
  begin_outbound_request _ op s :=
    (Ok (match op with StreamConnect => 2 | StreamSubscribe => 3 | _ => 4 end), s);
  complete_outbound_request _ _ s := (Ok tt, s);
  complete_stream_session_terminal _ _ s := (Ok tt, s);
  complete_stream_session_orderly _ _ s := (Ok tt, s);
|}.
Definition ports := ports_with SendDone.

Definition sup : Supervisor := MkSupervisor 7 "1234567890" GLOBAL_STREAM_ENDPOINT true true (from_secs 60).

Definition frame : Wake := WMessage (InMessage (MText (String "{" SampleFrames.good))).

(** One frame twice, then the server ends the stream, then shutdown. *)
Definition script : list Wake := [frame; frame; WMessage InEnd; WPing; WShutdown].

Definition result_with (sent : EventSend) (fuel : nat) : option (result StreamSupervisorError unit) * list SCall :=
  let '((answer, _), (_, log)) :=
    run_supervisor (X := external) (J := json_text) (D := digest) sup (noted_ports (ports_with sent)) fuel
      (Some GateState_default) (script, []) in (answer, log).
Definition result_of := result_with SendDone.

Definition is_telemetry (c : SCall) : bool := match c with KEvent (Telemetry _ _) _ => true | _ => false end.
Definition is_orderly (c : SCall) : bool := match c with KOrderly 1 4 _ => true | _ => false end.

(** The duplicate is not delivered, the broken session is retried, the shutdown is orderly. *)
Example run_ex :
  (result_of 20).1 = Some (Ok tt) /\
  length (List.filter is_telemetry (result_of 20).2) = 1%nat /\
  length (List.filter is_orderly (result_of 20).2) = 1%nat.
Proof. vm_compute. repeat split. Qed.

End SampleRun.

(** An orderly run, and one whose reader went away at the first sample: it ends in an
    error, and its rows are completed all the same. *)
Lemma audit_rows_disciplined_witness :
  (let '(answer, log) := SampleRun.result_of 20 in
   answer = Some (Ok tt) /\
   exists m, run_mon (J := SampleRun.json_text) "1234567890" mon_start log = Some m /\ settled m = true) /\
  (let '(answer, log) := SampleRun.result_with SendClosed 20 in
   answer = Some (Err EventReceiverClosed) /\
   exists m, run_mon (J := SampleRun.json_text) "1234567890" mon_start log = Some m /\ settled m = true).
Proof.
  assert (T := fun sent => audit_rows_disciplined (X := SampleRun.external) (J := SampleRun.json_text)
    (D := SampleRun.digest) SampleRun.sup (SampleRun.ports_with sent) 20 (Some GateState_default)
    SampleRun.script eq_refl).
  assert (Aok : (SampleRun.result_with SendDone 20).1 = Some (Ok tt)) by (vm_compute; reflexivity).
  assert (Ac : (SampleRun.result_with SendClosed 20).1 = Some (Err EventReceiverClosed)) by (vm_compute; reflexivity).
  assert (Bc : m_broken <$> run_mon (J := SampleRun.json_text) "1234567890" mon_start (SampleRun.result_with SendClosed 20).2
               = Some false) by (vm_compute; reflexivity).
  unfold SampleRun.result_of. split; [specialize (T SendDone)|specialize (T SendClosed)]; unfold SampleRun.result_with in *;
    destruct (run_supervisor _ (noted_ports (SampleRun.ports_with _)) _ _ _) as [[answer run] [s' log]].
  - split; [exact Aok|]. destruct T as (m & Hm & Hs & _). exists m. split; [exact Hm|exact (Hs Aok)].
  - split; [exact Ac|]. destruct T as (m & Hm & _ & Hs). exists m. split; [exact Hm|]. cbn [fst snd] in Ac, Bc.
    destruct Hs as [Hs|[Hs _]]; [by rewrite Ac|exact Hs|].
    change (run_mon (J := SampleRun.json_text) "1234567890" mon_start log = Some m) in Hm.
    rewrite Hm in Bc. cbn in Bc. congruence.
Defined.
