(* ===== verification/StreamDelivery.v ===== *)
(** * What a stream run delivers, when its gate is open and how it ends

    Theorems about [StreamSession] over the log of [StreamAudit]: the samples put
    on the event channel, the power gate between sessions, and the end of a session
    whose peer is gone. *)
From S2P Require Import Prelude Effects RustStr F64 Vocabulary External Wire Attempt LifeData StreamWire StreamPolicy StreamLiveness StreamSession StreamAudit.

Local Open Scope string_scope.
Local Open Scope Z_scope.

(** ** The deliveries *)

(** What the log says when a sample is put on the event channel. *)
Record seen := MkSeen { s_last : option StreamUpdate; s_wall : option Z; s_token : option string }.
#[global] Instance eta_seen : Eta seen := fun x => MkSeen (s_last x) (s_wall x) (s_token x).
Definition seen_start : seen := MkSeen None None None.

Definition seen_next (d : seen) (call : SCall) : seen :=
  match call with
  | KEvent (Telemetry u _) SendDone => d <| s_last := Some u |>
  | KWall now => d <| s_wall := Some now |>
  | KToken (Ok token) => d <| s_token := Some token |>
  | _ => d
  end.

(** A sample that may be delivered: for the session's own tag, well formed, with a
    plausible time by the clock just read, not the sample delivered last, and with
    no gear that carries the session's token. *)
Definition deliverable (the_tag : string) (d : seen) (u : StreamUpdate) : Prop :=
  tag u = the_tag /\ update_wf u /\
  (exists now, s_wall d = Some now /\ plausible_sample_time (timestamp_ms u) now = true) /\
  (forall last, s_last d = Some last -> same_sample last u = false) /\
  (forall token gear a b, s_token d = Some token -> shift_state u = Some gear ->
     REFLECTABLE_MIN <= str_len token -> gear <> a +:+ (token +:+ b)).

Definition call_ok (the_tag : string) (d : seen) (call : SCall) : Prop :=
  match call with KEvent (Telemetry u _) _ => deliverable the_tag d u | _ => True end.

Fixpoint deliveries_ok (the_tag : string) (d : seen) (log : list SCall) : Prop :=
  match log with
  | [] => True
  | call :: log => call_ok the_tag d call /\ deliveries_ok the_tag (seen_next d call) log
  end.

Lemma deliveries_snoc the_tag d log call :
  deliveries_ok the_tag d (log ++ [call])%list <->
  deliveries_ok the_tag d log /\ call_ok the_tag (fold_left seen_next log d) call.
Proof. revert d. induction log as [|c log IH]; intros d; simpl; [tauto|]. rewrite IH. tauto. Qed.

Section Deliveries.
Context {X : External} {J : JsonText} {D : Digest} {S : Type}.
Variables (sup : Supervisor) (p : StreamPorts S).

Notation np := (noted_ports p).

Definition Seen (d : seen) (w : S * list SCall) : Prop :=
  deliveries_ok (sup_tag sup) seen_start w.2 /\ fold_left seen_next w.2 seen_start = d.

(** Calls the deliveries do not depend on. *)
Definition aside (call : SCall) : Prop :=
  match call with
  | KEvent (Telemetry _ _) _ | KWall _ | KToken (Ok _) => False
  | _ => True
  end.

Lemma Seen_note {A} (call : A -> SCall) (f : st S A) d w (Q : A -> S * list SCall -> Prop) :
  Seen d w -> (forall a, call_ok (sup_tag sup) d (call a)) ->
  (forall a w', Seen (seen_next d (call a)) w' -> Q a w') ->
  wp (noting call f) Q w.
Proof.
  intros [Hok Hd] Hc HQ. destruct w as [s log]. apply wp_noting. intros a s'. apply HQ.
  split; cbn [snd] in *; [rewrite deliveries_snoc, Hd; eauto|]. by rewrite fold_left_app, Hd.
Qed.

Lemma Seen_aside {A} (call : A -> SCall) (f : st S A) d w (Q : A -> S * list SCall -> Prop) :
  Seen d w -> (forall a, aside (call a)) -> (forall a w', Seen d w' -> Q a w') -> wp (noting call f) Q w.
Proof.
  intros Hd Hc HQ. eapply Seen_note; [exact Hd| |].
  - intros a. specialize (Hc a). by destruct (call a) as [| | | | |[] ?| | | | | | |].
  - intros a w' Hw'. apply HQ. specialize (Hc a).
    by destruct (call a) as [|[]| | | |[] ?| | | | | | |].
Qed.

Lemma Seen_quiet {A} (f : st S A) d w (Q : A -> S * list SCall -> Prop) :
  Seen d w -> (forall a w', Seen d w' -> Q a w') -> wp (quiet f) Q w.
Proof. intros Hd HQ. destruct w as [s log]. apply wp_quiet. intros a s'. by apply HQ. Qed.

(** The audit functions make no delivery. *)
Lemma seen_guard d w (Q : _ -> S * list SCall -> Prop) :
  Seen d w -> (forall r w', Seen d w' -> Q r w') -> wp (guard_write sup np) Q w.
Proof.
  intros H HQ. unfold guard_write. destruct (has_store sup); [|apply wp_ret; auto].
  apply wp_bind. eapply Seen_aside; [exact H|done|]. intros b w' H'. apply wp_ret. auto.
Qed.

Lemma seen_begin_session d w (Q : _ -> S * list SCall -> Prop) :
  Seen d w -> (forall r w', Seen d w' -> Q r w') -> wp (begin_session sup np) Q w.
Proof.
  intros H HQ. unfold begin_session. apply wp_bind. eapply seen_guard; [exact H|].
  intros [[]|e] w' H'; [|apply wp_ret; auto]. destruct (has_store sup); [|apply wp_ret; auto].
  apply wp_bind. eapply Seen_aside; [exact H'|done|]. intros r w2 H2. apply wp_ret. auto.
Qed.

Lemma seen_begin op d w (Q : _ -> S * list SCall -> Prop) :
  Seen d w -> (forall r w', Seen d w' -> Q r w') -> wp (begin_request sup np op) Q w.
Proof.
  intros H HQ. unfold begin_request. apply wp_bind. eapply seen_guard; [exact H|].
  intros [[]|e] w' H'; [|apply wp_ret; auto]. destruct (has_store sup); [|apply wp_ret; auto].
  apply wp_bind. eapply Seen_aside; [exact H'|done|]. intros r w2 H2. apply wp_ret. auto.
Qed.

Lemma seen_complete rc c d w (Q : _ -> S * list SCall -> Prop) :
  Seen d w -> (forall r w', Seen d w' -> Q r w') -> wp (complete_request sup np rc c) Q w.
Proof.
  intros H HQ. unfold complete_request. destruct (has_store sup), rc as [rc|]; try (apply wp_ret; by auto).
  apply wp_bind. eapply seen_guard; [exact H|].
  intros [[]|e] w' H'; [|apply wp_ret; auto].
  apply wp_bind. eapply Seen_aside; [exact H'|done|]. intros r w2 H2. apply wp_ret. auto.
Qed.

Lemma seen_complete_session id o u d w (Q : _ -> S * list SCall -> Prop) :
  Seen d w -> (forall r w', Seen d w' -> Q r w') -> wp (complete_session sup np id o u) Q w.
Proof.
  intros H HQ. unfold complete_session. destruct (has_store sup), id as [id|]; try (apply wp_ret; by auto).
  apply wp_bind. eapply seen_guard; [exact H|].
  intros [[]|e] w' H'; [|apply wp_ret; auto].
  destruct (terminal o), u; try (apply wp_ret; by auto); apply wp_bind;
    (eapply Seen_aside; [exact H'|done|]); intros r w2 H2; apply wp_ret; auto.
Qed.

Lemma seen_stop_failed id e d w (Q : _ -> S * list SCall -> Prop) :
  Seen d w -> (forall r w', Seen d w' -> Q r w') -> wp (stop_failed sup np id e) Q w.
Proof.
  intros H HQ. unfold stop_failed. apply wp_bind. eapply seen_complete_session; [exact H|].
  intros r w' H'. apply wp_ret. auto.
Qed.

Lemma seen_end_unsubscribed id open c o d w (Q : _ -> S * list SCall -> Prop) :
  Seen d w -> (forall r w', Seen d w' -> Q r w') -> wp (end_unsubscribed sup np id open c o) Q w.
Proof.
  intros H HQ. unfold end_unsubscribed. apply wp_bind.
  assert (Hend : forall w', Seen d w' ->
    wp (done ← complete_session sup np id (session_outcome false c false) None;
        mret match done with Ok _ => o | Err error => Stop (Err error) end) Q w').
  { intros w' H'. apply wp_bind. eapply seen_complete_session; [exact H'|]. intros r w2 H2. apply wp_ret. auto. }
  destruct open as [[rc cc]|]; [|apply wp_ret; by apply Hend].
  eapply seen_complete; [exact H|]. intros [[]|e] w' H'; [by apply Hend|]. by eapply seen_stop_failed.
Qed.

(** *** A session's samples *)

Definition RunSeen (d : seen) (run : RunState) : Prop := s_last d = last_delivered run.
Definition SessionSeen (d : seen) (run : RunState) (state : SessionState) : Prop :=
  RunSeen d run /\ exists token, s_token d = Some token /\ echo state = echo_of token.

Lemma session_sample_spec text state u n :
  session_sample sup text state = Some (u, n) ->
  tag u = sup_tag sup /\ update_wf u /\
  (forall gear, shift_state u = Some gear -> reflects (echo state) gear = false).
Proof.
  unfold session_sample. destruct (parse_data_update_counted text) as [[v k]|] eqn:Ev; [|done].
  apply accepted_update_spec in Ev as [Hwf _].
  destruct (is_some_and (shift_state v) (reflects (echo state))) eqn:Er.
  - case_bool_decide as Ht; [|done]. intros [= <- <-]. split; [exact Ht|]. split; [|done].
    destruct Hwf as (H1 & H2 & H3 & _ & H5). by refine (conj H1 (conj H2 (conj H3 (conj _ H5)))).
  - case_bool_decide as Ht; [|done]. intros [= <- <-]. split_and!; [done..|].
    intros gear Hg. rewrite Hg in Er. exact Er.
Qed.

Lemma sample_deliverable text state u n run d now :
  session_sample sup text state = Some (u, n) -> SessionSeen d run state -> s_wall d = Some now ->
  plausible_sample_time (timestamp_ms u) now = true ->
  is_some_and (last_delivered run) (fun last => same_sample last u) = false ->
  deliverable (sup_tag sup) d u.
Proof.
  intros Hs (Hrun & token & Htok & Hecho) Hw Hpl Hdup.
  apply session_sample_spec in Hs as (Ht & Hwf & Hgear).
  split; [done|]. split; [done|]. split; [eauto|]. split.
  - intros last Hl. rewrite Hrun in Hl. by rewrite Hl in Hdup.
  - intros tk gear a b Htk Hg Hmin ->. rewrite Htok in Htk. simplify_eq.
    destruct Hwf as (_ & _ & _ & Hsh & _). destruct (Hsh _ Hg) as (_ & Hlen & _).
    specialize (Hgear _ Hg). rewrite Hecho in Hgear.
    rewrite reflects_complete in Hgear by done. done.
Qed.

(** What a step of the session leaves, whether it goes on or ends. *)
Definition StepSeen (r : Step * RunState * SessionState) (w : S * list SCall) : Prop :=
  exists d, Seen d w /\ SessionSeen d r.1.2 r.2.

Lemma session_same d run run' state state' :
  last_delivered run' = last_delivered run -> echo state' = echo state ->
  SessionSeen d run state -> SessionSeen d run' state'.
Proof. unfold SessionSeen, RunSeen. by intros -> ->. Qed.

Lemma reject_echo state : echo (reject state).2 = echo state.
Proof. by destruct state. Qed.

Lemma seen_step_pure d w run state (r : Step * SessionState) :
  Seen d w -> SessionSeen d run state -> echo r.2 = echo state ->
  wp (mret (r.1, run, r.2)) StepSeen w.
Proof. intros H Hs He. apply wp_ret. exists d. split; [done|]. by apply (session_same d run run state). Qed.

Lemma seen_reject d w run state :
  Seen d w -> SessionSeen d run state ->
  wp (let '(step, state') := reject state in mret (step, run, state')) StepSeen w.
Proof.
  intros H Hs. pose proof (seen_step_pure d w run state (reject state) H Hs (reject_echo state)) as Hp.
  by destruct (reject state).
Qed.

Lemma seen_deliver_healthy d w (Q : _ -> S * list SCall -> Prop) :
  Seen d w -> (forall r w', Seen d w' -> Q r w') -> wp (deliver np Healthy) Q w.
Proof.
  intros H HQ. unfold deliver, emit. apply wp_bind, wp_bind. eapply Seen_aside; [exact H|done|].
  intros r w' H'. apply wp_ret, wp_ret. by destruct r; apply HQ.
Qed.

Lemma seen_deliver u at_ d w (Q : _ -> S * list SCall -> Prop) :
  Seen d w -> deliverable (sup_tag sup) d u ->
  (forall w', Seen (d <| s_last := Some u |>) w' -> Q None w') ->
  (forall e w', Seen d w' -> Q (Some e) w') ->
  wp (deliver np (Telemetry u at_)) Q w.
Proof.
  intros H Hu Hok Hend. unfold deliver, emit. apply wp_bind, wp_bind. eapply Seen_note; [exact H|done|].
  intros r w' H'. apply wp_ret, wp_ret. destruct r; cbn in H'; auto.
Qed.

Lemma seen_first_accepted at_ run state d w
    (Q : option SessionEnd * RunState * SessionState -> S * list SCall -> Prop) :
  Seen d w ->
  (forall r run' state' w', Seen d w' -> last_delivered run' = last_delivered run -> echo state' = echo state ->
     Q (r, run', state') w') ->
  wp (first_accepted sup np at_ run state) Q w.
Proof.
  intros H HQ. unfold first_accepted. apply wp_bind.
  assert (Hgo : forall (r : result StreamSupervisorError unit) w', Seen d w' -> wp (match r with
      | Ok _ => ended ← deliver np Healthy; mret (ended, run <| retry := retry_on_first_accepted (retry run) |>,
          state <| accepted_seen := true |> <| clocks := on_first_accepted (clocks state) at_ |> <| subscribe_open := false |>)
      | Err error => mret (Some (end_audit_failed error), run <| retry := retry_on_first_accepted (retry run) |>,
          state <| accepted_seen := true |> <| clocks := on_first_accepted (clocks state) at_ |> <| subscribe_open := false |>)
      end) Q w').
  { intros [[]|e] w' H'; [|apply wp_ret, HQ; [done|by destruct run|by destruct state]].
    apply wp_bind. eapply seen_deliver_healthy; [exact H'|]. intros r w2 H2. apply wp_ret, HQ; [done|by destruct run|by destruct state]. }
  destruct state as [sr so sn sk c cn ec]; cbn in *. destruct so.
  - eapply seen_complete; [exact H|]. intros r w' H'. by apply Hgo.
  - apply wp_ret. by apply (Hgo (Ok tt)).
Qed.

Lemma seen_handle_update text at_ run state d w :
  Seen d w -> SessionSeen d run state -> wp (handle_update sup np text at_ run state) StepSeen w.
Proof.
  intros H Hs. unfold handle_update.
  destruct (session_sample sup text state) as [[u n]|] eqn:Eu; [|by eapply seen_reject].
  apply wp_bind. eapply Seen_note; [exact H|done|]. intros now w1 H1. cbn [seen_next] in H1.
  assert (Hs1 : SessionSeen (d <| s_wall := Some now |>) run state) by (destruct d; exact Hs).
  destruct (plausible_sample_time (timestamp_ms u) now) eqn:Hp; cbn [negb].
  2: { eapply seen_reject; [exact H1|]. eapply session_same; [done| |exact Hs1]. by destruct state. }
  set (dup := is_some_and _ _).
  destruct (note_sample u n dup at_ now run state) as [run' state'] eqn:En.
  assert (Hn : last_delivered run' = last_delivered run /\ echo state' = echo state).
  { unfold note_sample in En. simplify_eq. by destruct run, state. }
  destruct Hn as [Hn1 Hn2]. apply (session_same _ _ run' _ state') in Hs1; [|done..].
  assert (Hrest : forall run2 state2 w', Seen (d <| s_wall := Some now |>) w' ->
    last_delivered run2 = last_delivered run' -> echo state2 = echo state' ->
    wp (if dup then mret (Continue, run2, state2)
        else ended ← deliver np (Telemetry u at_);
             match ended with
             | Some e => mret (End e, run2, state2)
             | None => mret (Continue, run2 <| last_delivered := Some u |>, state2)
             end) StepSeen w').
  { intros run2 state2 w' Hw' E1 E2. apply (session_same _ _ run2 _ state2) in Hs1; [|done..].
    destruct dup eqn:Ed; [apply wp_ret; by eexists|]. apply wp_bind. eapply seen_deliver; [exact Hw'|..].
    - eapply (sample_deliverable text state u n run2); [done| |by destruct d|done|by rewrite E1, Hn1].
      apply (session_same _ run2 run2 state2 state); [done|by rewrite E2, Hn2|exact Hs1].
    - intros w2 H2. apply wp_ret. eexists. split; [exact H2|]. destruct d, run2. exact (conj eq_refl (proj2 Hs1)).
    - intros e w2 H2. apply wp_ret. by eexists. }
  apply wp_bind. destruct (negb (accepted_seen state')).
  - eapply seen_first_accepted; [exact H1|]. intros r run2 state2 w2 H2 E1 E2.
    destruct r as [e|]; [|by apply Hrest]. apply wp_ret. eexists. split; [exact H2|].
    by apply (session_same _ run' _ state').
  - apply wp_ret. by apply Hrest.
Qed.

Lemma handle_error_echo text state : echo (handle_error sup text state).2 = echo state.
Proof.
  unfold handle_error. destruct (json_from_slice text) as [[| | | | |m]|]; try apply reject_echo.
  by case_match; destruct state.
Qed.
Lemma handle_hello_echo text at_ state : echo (handle_hello text at_ state).2 = echo state.
Proof.
  unfold handle_hello. destruct (json_from_slice text) as [[| | | | |m]|]; try apply reject_echo.
  case_match; [done|]. by case_match; destruct state.
Qed.

Lemma seen_handle_text text at_ run state d w :
  Seen d w -> SessionSeen d run state -> wp (handle_text sup np text at_ run state) StepSeen w.
Proof.
  intros H Hs. unfold handle_text.
  destruct (negb _); [eapply seen_step_pure; eauto using reject_echo|].
  destruct (message_head text); [|eapply seen_step_pure; eauto using reject_echo].
  case_match; [by eapply seen_handle_update|].
  case_match; [eapply seen_step_pure; eauto using handle_error_echo|].
  case_match; [eapply seen_step_pure; eauto using handle_hello_echo|].
  eapply seen_step_pure; [exact H|exact Hs|]. by destruct state.
Qed.

Lemma seen_send_ping run c d w (Q : option SessionEnd * RunState * SessionClocks -> S * list SCall -> Prop) :
  Seen d w ->
  (forall r run' c' d' w', Seen d' w' -> s_last d' = s_last d -> s_token d' = s_token d ->
     last_delivered run' = last_delivered run -> Q (r, run', c') w') ->
  wp (send_ping np run c) Q w.
Proof.
  intros H HQ. unfold send_ping. apply wp_bind. eapply Seen_quiet; [exact H|]. intros now w1 H1.
  apply wp_bind. eapply Seen_note; [exact H1|done|]. intros wall w2 H2. cbn [seen_next] in H2.
  destruct (on_ping_tick c now wall) as [slept c']. apply wp_bind. eapply Seen_quiet; [exact H2|].
  intros sent w3 H3. apply wp_ret. eapply HQ; [exact H3|by destruct d..|by destruct slept, run].
Qed.

Lemma seen_read_step run state d w :
  Seen d w -> SessionSeen d run state -> wp (read_step sup np run state) StepSeen w.
Proof.
  intros H Hs. unfold read_step. apply wp_bind. eapply Seen_quiet; [exact H|]. intros wake w1 H1.
  destruct wake as [|msg| | | |]; try (apply wp_ret; by exists d).
  - apply wp_bind. eapply Seen_quiet; [exact H1|]. intros at_ w2 H2.
    destruct msg as [| | |msg]; try (apply wp_ret; by exists d). unfold handle_message.
    apply (session_same _ _ run _ (state <| clocks := on_inbound (clocks state) at_ |>)) in Hs; [|by destruct state..].
    destruct msg as [text|bytes|frame| | |]; try (apply wp_ret; by exists d); [by eapply seen_handle_text|].
    destruct (is_utf8 bytes); [by eapply seen_handle_text|by eapply seen_reject].
  - apply wp_bind. eapply seen_send_ping; [exact H1|]. intros r run' c' d' w2 H2 E1 E2 E3. apply wp_ret.
    exists d'. split; [done|]. destruct Hs as (Hr & tk & Ht & He). split.
    + unfold RunSeen in *. cbn. congruence.
    + exists tk. rewrite E2. split; [done|]. by destruct state.
Qed.

Definition LoopSeen {A} (r : A * RunState) (w : S * list SCall) : Prop := exists d, Seen d w /\ RunSeen d r.2.

Lemma seen_read_loop fuel run state d w :
  Seen d w -> SessionSeen d run state ->
  wp (read_loop sup np fuel run state) (fun r w' => LoopSeen r.1 w') w.
Proof.
  revert run state d w. induction fuel as [|fuel IH]; intros run state d w H Hs; cbn [read_loop].
  { apply wp_ret. exists d. split; [done|apply Hs]. }
  apply wp_bind. eapply wp_mono; [by eapply seen_read_step|].
  intros [[[|e] run'] state'] w' (d' & H' & Hs'); [by eapply IH|].
  apply wp_ret. exists d'. split; [done|apply Hs'].
Qed.

Lemma seen_leave_socket e d w (Q : _ -> S * list SCall -> Prop) :
  Seen d w -> (forall r w', Seen d w' -> Q r w') -> wp (leave_socket sup np e) Q w.
Proof.
  intros H HQ. unfold leave_socket. destruct (negb _); [apply wp_ret; auto|]. destruct (unsubscribe e).
  2: { apply wp_bind. eapply Seen_quiet; [exact H|]. intros ? w' H'. apply wp_ret. auto. }
  apply wp_bind. eapply seen_begin; [exact H|]. intros [rc|err] w1 H1; [|apply wp_ret; auto].
  apply wp_bind.
  assert (Hrest : forall (written : bool) w', Seen d w' ->
    wp (completed ← complete_request sup np rc
          (completion (match written with true => OSuccess | false => OTransportError end));
        match completed with
        | Err error => mret (Err error)
        | Ok _ => match written with
                  | true => _ ← close_handshake np (close_code e); mret (Ok (rc, true))
                  | false => mret (Ok (rc, false))
                  end
        end) Q w').
  { intros written w' H'. apply wp_bind. eapply seen_complete; [exact H'|].
    intros [[]|err] w2 H2; [|apply wp_ret; auto]. destruct written; [|apply wp_ret; auto].
    apply wp_bind. eapply Seen_quiet; [exact H2|]. intros ? w3 H3. apply wp_ret. auto. }
  destruct (unsubscribe_frame (sup_tag sup)).
  - eapply Seen_aside; [exact H1|done|]. intros b w2 H2. by apply Hrest.
  - apply wp_ret. exact (Hrest false w1 H1).
Qed.

Lemma seen_finish_subscribed e id run state d w :
  Seen d w -> RunSeen d run ->
  wp (finish_subscribed sup np e id run state) LoopSeen w.
Proof.
  intros H Hr. unfold finish_subscribed.
  assert (Hg : RunSeen d (revoke_gate run)) by (by destruct run).
  assert (Hstop : forall err w', Seen d w' -> wp (o ← stop_failed sup np id err; mret (o, revoke_gate run)) LoopSeen w').
  { intros err w' H'. apply wp_bind. eapply seen_stop_failed; [exact H'|]. intros o w2 H2. apply wp_ret. by exists d. }
  case_match; [by apply Hstop|]. apply wp_bind.
  assert (Hleave : forall w', Seen d w' ->
    wp (left_ ← leave_socket sup np e;
        match left_ with
        | Err error => o ← stop_failed sup np id error; mret (o, revoke_gate run)
        | Ok (receipt, ok) =>
            done ← complete_session sup np id (session_outcome true (cause e) ok) receipt;
            mret (match done, stop e, end_class e with
                  | Err error, _, _ => Stop (Err error)
                  | Ok _, Some error, _ => Stop (Err error)
                  | Ok _, None, None => Stop (Ok tt)
                  | Ok _, None, Some class => OFailed class
                  end, revoke_gate run)
        end) LoopSeen w').
  { intros w' H'. apply wp_bind. eapply seen_leave_socket; [exact H'|]. intros [[rc ok]|err] w2 H2; [|by apply Hstop].
    apply wp_bind. eapply seen_complete_session; [exact H2|]. intros r w3 H3. apply wp_ret. by exists d. }
  destruct (subscribe_open state); [|apply wp_ret; by apply Hleave].
  eapply seen_complete; [exact H|]. intros [[]|err] w' H'; [by apply Hleave|by apply Hstop].
Qed.

Lemma seen_live_wait fuel run c d w :
  Seen d w -> RunSeen d run ->
  wp (live_wait sup np fuel run c)
    (fun r w' => exists d', Seen d' w' /\ RunSeen d' r.1.2 /\
       match r.1.1 with Some (LDone (AdmitToken t)) => s_token d' = Some t | _ => True end) w.
Proof.
  revert run c d w. induction fuel as [|fuel IH]; intros run c d w H Hr; cbn [live_wait].
  { apply wp_ret. by exists d. }
  apply wp_bind. eapply Seen_quiet; [exact H|]. intros wake w1 H1.
  destruct wake as [|lock|msg| |]; try (apply wp_ret; by exists d).
  - apply wp_bind. destruct lock; [|apply wp_ret, wp_ret; by exists d..].
    unfold admit_token. apply wp_bind. eapply Seen_note; [exact H1|done|]. intros r w2 H2. apply wp_ret, wp_ret.
    destruct r as [t|e]; eexists; (split; [exact H2|]); destruct d; done.
  - apply wp_bind. eapply Seen_quiet; [exact H1|]. intros at_ w2 H2.
    destruct (live_message sup at_ msg c) as [[live|] c'] eqn:E; [|by eapply IH].
    apply wp_ret. exists d. split_and!; [done..|]. apply live_message_not_token in E. by destruct live as [[]| | |].
  - apply wp_bind. eapply seen_send_ping; [exact H1|]. intros r run' c' d' w2 H2 E1 E2 E3.
    assert (Hr' : RunSeen d' run') by (unfold RunSeen in *; congruence).
    destruct r as [e|]; [|by eapply IH]. apply wp_ret. exists d'. split_and!; [done..|]. cbn. by destruct (cause e).
Qed.

Lemma seen_finished (o : st (S * list SCall) Outcome) run d w :
  (forall Q, (forall r w', Seen d w' -> Q r w') -> wp o Q w) -> RunSeen d run ->
  wp (x ← o; mret (Some x, run)) LoopSeen w.
Proof. intros Ho Hr. apply wp_bind, Ho. intros x w' H'. apply wp_ret. by exists d. Qed.

Lemma seen_subscribe_and_read fuel token id run c d w :
  Seen d w -> RunSeen d run -> s_token d = Some token ->
  wp (subscribe_and_read sup np fuel token id run c) LoopSeen w.
Proof.
  intros H Hr Ht. unfold subscribe_and_read.
  destruct (subscribe_frame_zeroizing (sup_tag sup) token) as [frame|].
  2: { eapply (seen_finished _ run d); [|done]. intros Q HQ. by eapply seen_end_unsubscribed. }
  destruct (negb _); [eapply (seen_finished _ run d); [|done]; intros Q HQ; by eapply seen_end_unsubscribed|].
  apply wp_bind. eapply seen_begin; [exact H|]. intros [rc|err] w1 H1.
  2: { eapply (seen_finished _ run d); [|done]. intros Q HQ. by eapply seen_stop_failed. }
  apply wp_bind. eapply Seen_quiet; [exact H1|]. intros now w2 H2.
  apply wp_bind. eapply Seen_aside; [exact H2|done|]. intros written w3 H3.
  destruct written; try (eapply (seen_finished _ run d); [|done]; intros Q HQ; by eapply seen_end_unsubscribed).
  apply wp_bind. eapply Seen_quiet; [exact H3|]. intros at_ w4 H4. apply wp_bind.
  eapply wp_mono; [eapply seen_read_loop; [exact H4|split; [exact Hr|by exists token]]|].
  intros [[[e|] run'] state'] w5 (d' & H5 & Hr').
  - apply wp_bind. eapply wp_mono; [by eapply seen_finish_subscribed|].
    intros o w6 (d2 & H6 & Hr2). apply wp_ret. by exists d2.
  - apply wp_ret. by exists d'.
Qed.

Lemma seen_admit_and_subscribe fuel id run c d w :
  Seen d w -> RunSeen d run -> wp (admit_and_subscribe sup np fuel id run c) LoopSeen w.
Proof.
  intros H Hr. unfold admit_and_subscribe. apply wp_bind.
  eapply wp_mono; [by eapply seen_live_wait|]. intros [[live run'] c'] w' (d' & H' & Hr' & Ht). cbn in Hr', Ht.
  assert (Hend : forall cause o w2, Seen d' w2 ->
    wp (x ← end_unsubscribed sup np id None cause o; mret (Some x, run')) LoopSeen w2).
  { intros cause o w2 H2. eapply (seen_finished _ run' d'); [|done]. intros Q HQ. by eapply seen_end_unsubscribed. }
  destruct live as [[[t|f]| |class|class code]|]; try by apply Hend.
  - by eapply seen_subscribe_and_read.
  - apply wp_bind. case_match; [apply wp_ret; by apply Hend|].
    eapply Seen_quiet; [exact H'|]. intros ? w2 H2. by apply Hend.
  - apply wp_bind. eapply Seen_quiet; [exact H'|]. intros ? w2 H2. by apply Hend.
  - apply wp_ret. by exists d'.
Qed.

Lemma seen_check d w (Q : Check -> S * list SCall -> Prop) :
  Seen d w -> (forall c d' w', Seen d' w' -> s_last d' = s_last d -> Q c w') ->
  wp (check_credentials sup np) Q w.
Proof.
  intros H HQ. unfold check_credentials. apply wp_bind. eapply Seen_quiet; [exact H|]. intros lock w1 H1.
  destruct lock; [|apply wp_ret; by eapply HQ..]. apply wp_bind. eapply Seen_quiet; [exact H1|].
  intros access w2 H2. destruct access as [[]|e]; [|apply wp_ret; by eapply HQ].
  destruct (negb _); [apply wp_ret; by eapply HQ|].
  apply wp_bind. eapply Seen_quiet; [exact H2|]. intros waited w3 H3.
  destruct waited; try (apply wp_ret; by eapply HQ).
  apply wp_bind. unfold credential_task. apply wp_bind. eapply Seen_quiet; [exact H3|]. intros refresh w4 H4.
  set (stopped := match refresh with Err _ => _ | Ok _ => None end).
  destruct stopped as [f|]; [apply wp_ret, wp_ret; by eapply HQ|].
  apply wp_bind. eapply Seen_note; [exact H4|done|]. intros token w5 H5. apply wp_ret, wp_ret.
  destruct token; eapply HQ; try exact H5; by destruct d.
Qed.

Lemma seen_attempt fuel run d w :
  Seen d w -> RunSeen d run -> wp (attempt sup np fuel run) LoopSeen w.
Proof.
  intros H Hr. unfold attempt. apply wp_bind. eapply seen_check; [exact H|]. intros check d1 w1 H1 E1.
  assert (Hr1 : RunSeen d1 run) by (unfold RunSeen in *; congruence). clear H Hr E1 d.
  destruct check as [| |f]; try (apply wp_ret; by exists d1).
  apply wp_bind. eapply seen_begin_session; [exact H1|]. intros [id|e] w2 H2; [|apply wp_ret; by exists d1].
  apply wp_bind. eapply seen_begin; [exact H2|]. intros [rc|e] w3 H3.
  2: { eapply (seen_finished _ run d1); [|done]. intros Q HQ. by eapply seen_stop_failed. }
  apply wp_bind. eapply Seen_aside; [exact H3|done|]. intros answer w4 H4.
  assert (Hend : forall d' open cause o w2, Seen d' w2 -> s_last d' = s_last d1 ->
    wp (x ← end_unsubscribed sup np id open cause o; mret (Some x, run)) LoopSeen w2).
  { intros d' open cause o w5 H5 E5. eapply (seen_finished _ run d'); [|unfold RunSeen in *; congruence].
    intros Q HQ. by eapply seen_end_unsubscribed. }
  destruct answer as [| |status header| |]; unfold connect_failed.
  - by eapply Hend.
  - by eapply Hend.
  - apply wp_bind. unfold upgrade_failure. apply wp_bind. destruct header as [v|].
    + apply wp_bind. eapply Seen_note; [exact H4|done|]. intros now w5 H5. apply wp_ret, wp_ret.
      eapply Hend; [exact H5|by destruct d1].
    + apply wp_ret, wp_ret. by eapply Hend.
  - apply wp_bind. unfold upgrade_failure. apply wp_ret. by eapply Hend.
  - apply wp_bind. eapply Seen_quiet; [exact H4|]. intros now w5 H5. apply wp_bind.
    eapply Seen_note; [exact H5|done|]. intros wall w6 H6. cbn [seen_next] in H6. apply wp_bind.
    assert (Hr6 : RunSeen (d1 <| s_wall := Some wall |>) run) by (by destruct d1).
    eapply seen_complete; [exact H6|]. intros [[]|e] w7 H7; [by eapply seen_admit_and_subscribe|].
    eapply (seen_finished _ run _); [|exact Hr6]. intros Q HQ. by eapply seen_stop_failed.
Qed.

Lemma seen_after_attempt o run d w (Q : _ -> S * list SCall -> Prop) :
  Seen d w -> (forall r w', Seen d w' -> Q r w') -> wp (after_attempt np o run).1 Q w.
Proof.
  intros H HQ. destruct o as [r|class|]; cbn [after_attempt fst].
  - apply wp_ret. auto.
  - apply wp_bind.
    assert (Hdraw : forall (f : f64 -> Duration) w', Seen d w' -> wp (u ← draw np; mret (inr (f u))) Q w').
    { intros f w' H'. apply wp_bind. eapply Seen_quiet; [exact H'|]. intros u w2 H2. apply wp_ret. auto. }
    destruct (event_for class _) as [ev|] eqn:Ee; [|apply wp_ret; by apply Hdraw].
    assert (Hev : forall sent, aside (KEvent ev sent)).
    { intros sent. unfold event_for, then_some in Ee. by destruct class; repeat case_match; simplify_eq. }
    unfold emit. apply wp_bind. eapply Seen_aside; [exact H|exact Hev|]. intros sent w2 H2. apply wp_ret.
    destruct sent; [apply wp_ret; by auto..|by apply Hdraw].
  - apply wp_bind. eapply Seen_quiet; [exact H|]. intros u w2 H2. apply wp_ret. auto.
Qed.

Lemma after_attempt_last o run : last_delivered (after_attempt np o run).2 = last_delivered run.
Proof. by destruct o, run. Qed.

Lemma seen_run_attempts fuel delay run d w :
  Seen d w -> RunSeen d run -> wp (run_attempts sup np fuel delay run) LoopSeen w.
Proof.
  revert delay run d w. induction fuel as [|fuel IH]; intros delay run d w H Hr; cbn [run_attempts].
  { apply wp_ret. by exists d. }
  apply wp_bind. eapply Seen_aside; [exact H|done|]. intros slept w1 H1.
  destruct slept; [|apply wp_ret; exists d; split; [done|by destruct run]].
  apply wp_bind. eapply wp_mono; [by eapply seen_attempt|]. intros [[o|] run'] w2 (d2 & H2 & Hr2).
  2: { apply wp_ret. by exists d2. }
  pose proof (after_attempt_last o run') as El.
  pose proof (seen_after_attempt o run' d2 w2) as Hnext.
  destruct (after_attempt np o run') as [next run2]; cbn [fst snd] in *.
  assert (Hr3 : RunSeen d2 run2) by (unfold RunSeen in *; cbn in Hr2; congruence).
  apply wp_bind. apply Hnext; [done|]. intros [r|delay'] w3 H3.
  - apply wp_ret. exists d2. split; [done|]. by destruct run2.
  - by eapply IH.
Qed.

End Deliveries.

(** C39: whatever texts the peer sends and whatever the ports answer, every sample a
    run puts on its channel is well formed, names the session's own vehicle, has a
    plausible time by the clock read for it, is not the sample delivered just before
    it (in this session or an earlier one of the run), and carries no gear text that
    contains the session's access token of four bytes or more. *)
Theorem deliveries_sound `{X : External} `{J : JsonText} `{D : Digest} {S : Type}
    (sup : Supervisor) (p : StreamPorts S) (fuel : nat) (gate : option GateState) (s : S) :
  let '(_, (_, log)) := run_supervisor sup (noted_ports p) fuel gate (s, []) in
  deliveries_ok (sup_tag sup) seen_start log.
Proof.
  assert (H : wp (run_supervisor sup (noted_ports p) fuel gate) (LoopSeen sup) (s, [])).
  { unfold run_supervisor. set (run := revoke_gate _).
    assert (Hr : RunSeen seen_start run) by done.
    assert (Hs : Seen sup seen_start (s, [])) by done.
    destruct (i64_try_from (vehicle_id sup)); [|apply wp_ret; by exists seen_start].
    apply wp_bind. eapply Seen_quiet; [exact Hs|]. intros u w H. by eapply seen_run_attempts. }
  unfold wp in H. destruct (run_supervisor _ _ _ _ _) as [r [s' log]]. destruct H as (d & [H _] & _). exact H.
Qed.

(** ** The power gate *)

Section Gate.
Context {X : External} {J : JsonText} {D : Digest} {S : Type}.
Variables (sup : Supervisor) (p : StreamPorts S).

(** The gate, if there is one, is not confirmed. *)
Definition gate_closed (run : RunState) : Prop :=
  forall g, power_gate run = Some g -> confirmed g = false.

Lemma revoke_closed run : gate_closed (revoke_gate run).
Proof. destruct run as [r l m [g|]]; unfold gate_closed; cbn; [|done].
  intros g' [= <-]. by destruct g. Qed.

Lemma wp_any {A} (m : st S A) (Q : A -> S -> Prop) s : (forall a s', Q a s') -> wp m Q s.
Proof. intros H. apply wp_intro. auto. Qed.

Definition ClosedIfDone {A} (r : option A * RunState) (s : S) : Prop := r.1 <> None -> gate_closed r.2.

Lemma gate_ret {A} (o : option A) run s : gate_closed run -> wp (mret (o, run)) ClosedIfDone s.
Proof. intros H. by apply wp_ret; intros _. Qed.
Lemma gate_running {A} run s : wp (mret (@None A, run)) ClosedIfDone s.
Proof. by apply wp_ret; intros []. Qed.

Lemma gate_finished (o : st S Outcome) run s :
  gate_closed run -> wp (x ← o; mret (Some x, run)) ClosedIfDone s.
Proof. intros H. apply wp_bind, wp_any. intros x s'. by apply gate_ret. Qed.

Lemma gate_finish_subscribed e id run state s :
  wp (finish_subscribed sup p e id run state) (fun r _ => gate_closed r.2) s.
Proof.
  unfold finish_subscribed. pose proof (revoke_closed run) as Hc.
  assert (Hstop : forall err s', wp (o ← stop_failed sup p id err; mret (o, revoke_gate run))
                                   (fun r _ => gate_closed r.2) s').
  { intros err s'. apply wp_bind, wp_any. intros o s2. by apply wp_ret. }
  case_match; [apply Hstop|]. apply wp_bind, wp_any. intros [[]|err] s1; [|apply Hstop].
  apply wp_bind, wp_any. intros [[rc ok]|err] s2; [|apply Hstop].
  apply wp_bind, wp_any. intros r s3. by apply wp_ret.
Qed.

Lemma gate_send_ping run c s :
  gate_closed run -> wp (send_ping p run c) (fun r _ => gate_closed r.1.2) s.
Proof.
  intros H. unfold send_ping. apply wp_bind, wp_any. intros now s1. apply wp_bind, wp_any. intros wall s2.
  destruct (on_ping_tick c now wall) as [slept c']. apply wp_bind, wp_any. intros sent s3. apply wp_ret.
  cbn. destruct slept; [apply (revoke_closed run)|done].
Qed.

Lemma gate_live_wait fuel run c s :
  gate_closed run -> wp (live_wait sup p fuel run c) (fun r _ => gate_closed r.1.2) s.
Proof.
  revert run c s. induction fuel as [|fuel IH]; intros run c s H; cbn [live_wait]; [by apply wp_ret|].
  apply wp_bind, wp_any. intros wake s1. destruct wake as [|lock|msg| |]; try by apply wp_ret.
  - apply wp_bind, wp_any. intros a s2. by apply wp_ret.
  - apply wp_bind, wp_any. intros at_ s2. destruct (live_message sup at_ msg c) as [[live|] c']; [by apply wp_ret|by apply IH].
  - apply wp_bind. eapply wp_mono; [by apply gate_send_ping|]. intros [[r run'] c'] s2 H2.
    destruct r; [by apply wp_ret|by apply IH].
Qed.

Lemma gate_subscribe_and_read fuel token id run c s :
  gate_closed run -> wp (subscribe_and_read sup p fuel token id run c) ClosedIfDone s.
Proof.
  intros H. unfold subscribe_and_read.
  destruct (subscribe_frame_zeroizing _ _) as [frame|]; [|by apply gate_finished].
  destruct (negb _); [by apply gate_finished|]. apply wp_bind, wp_any. intros [rc|e] s1; [|by apply gate_finished].
  apply wp_bind, wp_any. intros now s2. apply wp_bind, wp_any. intros written s3.
  destruct written; try by apply gate_finished. apply wp_bind, wp_any. intros at_ s4.
  apply wp_bind, wp_any. intros [[[e|] run'] state'] s5; [|apply gate_running].
  apply wp_bind. eapply wp_mono; [apply gate_finish_subscribed|]. intros r s6 Hr. by apply gate_ret.
Qed.

Lemma gate_attempt fuel run s : gate_closed run -> wp (attempt sup p fuel run) ClosedIfDone s.
Proof.
  intros H. unfold attempt. apply wp_bind, wp_any. intros check s1.
  destruct check; try by apply gate_ret. apply wp_bind, wp_any. intros [id|e] s2; [|by apply gate_ret].
  apply wp_bind, wp_any. intros [rc|e] s3; [|by apply gate_finished]. apply wp_bind, wp_any. intros answer s4.
  destruct answer as [| |status header| |]; [by apply gate_finished..| | |].
  1,2: apply wp_bind, wp_any; intros [[class status'] ra] s5; by apply gate_finished.
  apply wp_bind, wp_any. intros now s5. apply wp_bind, wp_any. intros wall s6.
  apply wp_bind, wp_any. intros [[]|e] s7; [|by apply gate_finished].
  unfold admit_and_subscribe. apply wp_bind. eapply wp_mono; [by apply gate_live_wait|].
  intros [[[live|] run'] c'] s8 H8; cbn in H8; [|apply gate_running].
  destruct live as [[t|f]| |class|class code]; try by apply gate_finished.
  - by apply gate_subscribe_and_read.
  - apply wp_bind, wp_any. intros ? s9. by apply gate_finished.
  - apply wp_bind, wp_any. intros ? s9. by apply gate_finished.
Qed.

Lemma gate_run_attempts fuel delay run s :
  gate_closed run -> wp (run_attempts sup p fuel delay run) ClosedIfDone s.
Proof.
  revert delay run s. induction fuel as [|fuel IH]; intros delay run s H; cbn [run_attempts]; [apply gate_running|].
  apply wp_bind, wp_any. intros slept s1. destruct slept; [|apply gate_ret, revoke_closed].
  apply wp_bind. eapply wp_mono; [by apply gate_attempt|]. intros [[o|] run'] s2 H2; [|apply gate_running].
  specialize (H2 ltac:(done)). destruct (after_attempt p o run') as [next run2] eqn:E.
  assert (H3 : gate_closed run2).
  { cbn in H2. destruct o; cbn in E; simplify_eq; [done| |done]. by destruct run'. }
  apply wp_bind, wp_any. intros [r|d] s3; [apply gate_ret, revoke_closed|by apply IH].
Qed.

End Gate.

(** The power gate is closed whenever no session is open: every attempt that
    starts with a closed gate and comes to an end leaves it closed, and so does the
    run itself, however it ends; and an open gate always rests on a frame with motion
    or power at most thirty seconds old by a wall clock that did not go back. *)
Theorem gate_open_only_in_session `{X : External} `{J : JsonText} `{D : Digest} {S : Type}
    (sup : Supervisor) (p : StreamPorts S) (fuel : nat) :
  (forall run s, gate_closed run ->
     let '((o, run'), _) := attempt sup p fuel run s in o <> None -> gate_closed run') /\
  (forall gate s, let '((answer, run'), _) := run_supervisor sup p fuel gate s in
     answer <> None -> gate_closed run') /\
  (forall run now, gate_closed run -> forall g, power_gate run = Some g -> is_confirmed_at g now = false) /\
  (forall g u t now, confirmed g = false -> in_i64 t -> in_i64 now ->
     is_confirmed_at (observe g u t) now = true <->
     (frame_shows_motion u = true \/ power_shows_use u = true) /\ t <= now <= t + GATE_FRESH_MS).
Proof.
  split_and!.
  - intros run s H. pose proof (gate_attempt sup p fuel run s H) as Hw. unfold wp in Hw.
    destruct (attempt sup p fuel run s) as [[o run'] s']. exact Hw.
  - intros gate s. unfold run_supervisor. set (run := revoke_gate _).
    assert (H : gate_closed run) by apply revoke_closed. destruct (i64_try_from _); [|intros _; exact H].
    unfold mbind, st_bind. destruct (draw p s) as [u s1].
    pose proof (gate_run_attempts sup p fuel (start_delay u) run s1 H) as Hw. unfold wp in Hw.
    destruct (run_attempts _ _ _ _ _ s1) as [[o run'] s']. exact Hw.
  - intros run now H g Hg. unfold is_confirmed_at. by rewrite (H g Hg).
  - intros g u t now Hg Ht Hn. unfold observe, is_confirmed_at.
    destruct (frame_shows_motion u || power_shows_use u) eqn:E.
    + apply orb_true_iff in E. cbn [confirmed confirmed_at_ms negb]. rewrite andb_true_iff, !Z.leb_le.
      unfold GATE_FRESH_MS, i64_ssub, clamp, in_i64, i64_min, i64_max in *. split; [intros; split; [done|lia]|lia].
    + rewrite Hg. cbn. apply orb_false_iff in E as [-> ->]. split; [done|]. by intros [[|] _].
Qed.

(** ** A peer that is gone *)

Section SilentPeer.
Context {X : External} {J : JsonText} {D : Digest} {S : Type}.
Variables (sup : Supervisor) (p : StreamPorts S) (now : S -> Instant).

(** The biased [select!] of the read loop when no message and no signal comes: at
    the first instant at which a deadline has passed, the first branch that has. *)
Definition first_ready (t dead silent : Instant) : Instant -> Wake := fun ping =>
  if dead <=? t then WDeadSocket else if silent <=? t then WSilence
  else if ping <=? t then WPing else WStable.

Definition woken_at (t dead silent ping : Instant) (stable : option Instant) : Instant :=
  let first := Z.min dead (Z.min silent ping) in
  Z.max t (match stable with Some stable => Z.min first stable | None => first end).

(** Nothing arrives, Pings are accepted by the kernel, the clock runs on. *)
Record silent_peer : Prop := {
  sp_select dead silent ping stable s :
    exists s', select_session p dead silent ping stable s
               = (first_ready (now s') dead silent ping, s') /\
               now s' = woken_at (now s) dead silent ping stable;
  sp_mono s : mono_now p s = (now s, s);
  sp_wall s : exists wall s', wall_now_ms p s = (wall, s') /\ now s' = now s;
  sp_ping deadline s : exists s', write_ping p deadline s = (WriteDone, s') /\ now s' = now s;
}.
Hypothesis Hsilent : silent_peer.

Definition ends (fuel : nat) (run : RunState) (state : SessionState) (s : S) : Prop :=
  exists e run' state' s', read_loop sup p fuel run state s = ((Some e, run', state'), s') /\
    (e = end_socket_gone StreamPolicy.Transport \/ e = end_data_silence) /\
    now s' <= Z.max (now s) (dead_at (clocks state)).

Definition stable_wakes (c : SessionClocks) : nat := if is_some (stable_at c) then 1 else 0.

Lemma ping_tick_dead c t wall :
  dead_at (on_ping_tick c t wall).2 <= dead_at c /\
  c_ping_interval (on_ping_tick c t wall).2 = c_ping_interval c /\
  next_ping (on_ping_tick c t wall).2 = t + c_ping_interval c /\
  stable_at (on_ping_tick c t wall).2 = stable_at c.
Proof.
  unfold on_ping_tick. destruct c as [li ld pi np' sd sa wl ml]. cbn -[drift].
  destruct (_ <? _); (split_and!; [|done..]); unfold dead_at; cbn; destruct sd; lia.
Qed.

(** With [n] Pings left before the dead-socket deadline, the loop ends. *)
Lemma silent_ends n fuel run state s :
  0 < c_ping_interval (clocks state) ->
  dead_at (clocks state) <= next_ping (clocks state) + Z.of_nat n * c_ping_interval (clocks state) ->
  (n + stable_wakes (clocks state) < fuel)%nat -> ends fuel run state s.
Proof.
  revert n run state s. induction fuel as [|fuel IH]; intros n run state s HI Hn Hf; [lia|].
  unfold ends. cbn [read_loop]. unfold read_step, mbind, st_bind, mret, st_ret.
  set (c := clocks state) in *.
  destruct (sp_select Hsilent (dead_at c) (silent_at c (data_silence_limit (health_timeout sup) (moving run)))
    (next_ping c) (stable_at c) s) as (s1 & -> & Hnow).
  set (silent := silent_at c _) in *. unfold first_ready.
  assert (Hlate : now s1 <= Z.max (now s) (dead_at c)).
  { rewrite Hnow. unfold woken_at. destruct (stable_at c); lia. }
  destruct (dead_at c <=? now s1) eqn:E1; [repeat eexists; eauto|]. bsimp.
  destruct (silent <=? now s1) eqn:E2; [repeat eexists; eauto|]. bsimp.
  destruct (next_ping c <=? now s1) eqn:E3; bsimp.
  - destruct n as [|n]; [lia|]. unfold send_ping, mbind, st_bind, mret, st_ret. rewrite (sp_mono Hsilent).
    destruct (sp_wall Hsilent s1) as (wall & s2 & -> & Hs2).
    pose proof (ping_tick_dead c (now s1) wall) as (Hd & Hi & Hp & Hst).
    destruct (on_ping_tick c (now s1) wall) as [slept c'] eqn:Et. cbn [snd] in Hd, Hi, Hp, Hst.
    destruct (sp_ping Hsilent (dead_at c') s2) as (s3 & -> & Hs3).
    set (run2 := if slept then _ else run). set (state2 := state <| clocks := c' |>).
    assert (Hc2 : clocks state2 = c') by (by destruct state).
    destruct (IH n run2 state2 s3) as (e & run' & state' & s' & Hr & He & Ht).
    + by rewrite Hc2, Hi.
    + rewrite Hc2, Hi, Hp. lia.
    + rewrite Hc2. unfold stable_wakes in *. rewrite Hst. lia.
    + exists e, run', state', s'. split; [exact Hr|]. split; [exact He|]. rewrite Hc2, Hs3, Hs2 in Ht. lia.
  - assert (Hst : exists at_, stable_at c = Some at_).
    { unfold woken_at in Hnow. destruct (stable_at c) as [at_|]; [by exists at_|]. lia. }
    destruct Hst as [at_ Hst]. set (run2 := run <| retry := _ |>).
    set (state2 := state <| clocks := on_stable_applied c |>).
    assert (Hc2 : clocks state2 = on_stable_applied c) by (by destruct state).
    assert (Hk : c_ping_interval (on_stable_applied c) = c_ping_interval c /\
      next_ping (on_stable_applied c) = next_ping c /\ dead_at (on_stable_applied c) = dead_at c /\
      stable_at (on_stable_applied c) = None) by (by destruct c).
    destruct Hk as (K1 & K2 & K3 & K4).
    destruct (IH n run2 state2 s1) as (e & run' & state' & s' & Hr & He & Ht).
    + by rewrite Hc2, K1.
    + by rewrite Hc2, K1, K2, K3.
    + rewrite Hc2. unfold stable_wakes in *. rewrite K4. rewrite Hst in Hf. cbn in *. lia.
    + exists e, run', state', s'. split; [exact Hr|]. split; [exact He|]. rewrite Hc2, K3 in Ht. lia.
Qed.

Lemma silent_session_spec run state s :
  reached (clocks state) (now s) ->
  now s <= next_ping (clocks state) ->
  ends 5 run state s /\ dead_at (clocks state) <= last_inbound (clocks state) + from_secs 45.
Proof.
  intros Hc%reached_wf Hp. destruct Hc as (HI & Hi & _ & Hn & _).
  unfold PING_INTERVAL_MIN, PING_INTERVAL_DEFAULT in HI. dunfold.
  assert (Hd : dead_at (clocks state) <= last_inbound (clocks state) + 3 * c_ping_interval (clocks state)).
  { unfold dead_at, DEAD_SOCKET_INTERVALS. destruct (sleep_deadline (clocks state)); lia. }
  split; [|lia]. apply (silent_ends 3); [lia|lia|]. unfold stable_wakes. case_match; lia.
Qed.

End SilentPeer.

(** A session whose peer is gone always ends.  From every state its clocks can
    reach, with the next Ping still ahead, when nothing more arrives and only the
    timers run, the read loop ends after at most five wakes, as a dead socket or a
    silent server, and no later than 45 seconds after the last frame that arrived. *)
Theorem silent_session_terminates `{X : External} `{J : JsonText} `{D : Digest} {S : Type}
    (sup : Supervisor) (p : StreamPorts S) (now : S -> Instant) (run : RunState) (state : SessionState) (s : S)
    (Hsilent : silent_peer p now) (Hc : reached (clocks state) (now s))
    (Hp : now s <= next_ping (clocks state)) :
  exists e run' state' s', read_loop sup p 5 run state s = ((Some e, run', state'), s') /\
    (e = end_socket_gone StreamPolicy.Transport \/ e = end_data_silence) /\
    now s' <= Z.max (now s) (last_inbound (clocks state) + from_secs 45).
Proof.
  destruct (silent_session_spec sup p now Hsilent run state s Hc Hp) as [(e & r & st & s' & H & He & Ht) Hd].
  exists e, r, st, s'. split; [exact H|]. split; [exact He|]. lia.
Qed.

(** A peer that is gone: the state is the monotonic clock. *)
Definition gone_ports : StreamPorts Instant := {|
  draw s := (f64_zero, s);
  sleep _ s := (true, s);
  lock_manager s := (Locked, s);
  assert_sensitive_access s := (Ok tt, s);
  refresh_if_due s := (Ok tt, s);
  access_token s := (Ok "token", s);
  await_task s := (TaskJoined, s);
  connect s := (Connected, s);
  mono_now s := (s, s);
  wall_now_ms s := (s / 1000000, s);
  select_admitting _ _ s := (AWDead, s);
  select_session dead silent ping stable s :=
    let t := woken_at s dead silent ping stable in (first_ready t dead silent ping, t);
  write_subscribe _ _ s := (WriteDone, s);
  write_ping _ s := (WriteDone, s);
  write_unsubscribe _ s := (true, s);
  close_handshake _ s := (tt, s);
  send_event _ s := (SendDone, s);
  refused s := (false, s);
  begin_stream_session _ s := (Ok 1, s);
  begin_outbound_request _ _ s := (Ok 2, s);
  complete_outbound_request _ _ s := (Ok tt, s);
  complete_stream_session_terminal _ _ s := (Ok tt, s);
  complete_stream_session_orderly _ _ s := (Ok tt, s);
|}.

Definition gone_state : SessionState :=
  MkSessionState (Some 3) true false 0 (StreamLiveness.start 0 0) FrameCounts_default (MkEchoGuard None).
Definition gone_run : RunState := MkRunState RetryState_default None false None.

Lemma silent_session_terminates_witness :
  exists e run' state' s',
    read_loop (X := SampleRun.external) (J := SampleRun.json_text) (D := SampleRun.digest)
      SampleRun.sup gone_ports 5 gone_run gone_state 0 = ((Some e, run', state'), s') /\
    (e = end_socket_gone StreamPolicy.Transport \/ e = end_data_silence) /\ s' <= from_secs 45.
Proof.
  refine (silent_session_terminates (X := SampleRun.external) (J := SampleRun.json_text)
    (D := SampleRun.digest) SampleRun.sup gone_ports (fun s => s) gone_run gone_state 0 _ _ _).
  - constructor; intros; eauto.
  - constructor.
  - vm_compute. discriminate.
Defined.
