(* ===== verification/BTree.v ===== *)
(** * [BTreeMap] as an ordered association list

    The scheduler iterates its maps in key order and the order reaches what it
    writes and sends, so a [BTreeMap] is the list of its entries in key order.
    A key type says how it is ordered; the lookup lemmas hold for every list,
    the order only for maps built by the operations. *)
From stdpp Require Import sorting.
From S2P Require Import Prelude.

Class OrdKey (K : Type) := {
  key_compare : K -> K -> comparison;
  key_compare_eq k k' : key_compare k k' = Eq <-> k = k';
  key_compare_opp k k' : key_compare k' k = CompOpp (key_compare k k');
  key_compare_trans k1 k2 k3 : key_compare k1 k2 = Lt -> key_compare k2 k3 = Lt -> key_compare k1 k3 = Lt;
}.

#[global] Arguments key_compare : simpl never.

Lemma Zcompare_trans_lt (a b c : Z) : (a ?= b)%Z = Lt -> (b ?= c)%Z = Lt -> (a ?= c)%Z = Lt.
Proof. rewrite !Z.compare_lt_iff. apply Z.lt_trans. Qed.
#[export] Instance Z_key : OrdKey Z :=
  {| key_compare := Z.compare; key_compare_eq := Z.compare_eq_iff;
     key_compare_opp := fun k k' => Z.compare_antisym k k'; key_compare_trans := Zcompare_trans_lt |}.

Definition bmap (K V : Type) : Type := list (K * V).

Section BTree.
Context {K V : Type} `{O : OrdKey K}.
Implicit Types (m : bmap K V) (k : K) (v : V).

(** [get], [contains_key]. *)
Fixpoint bget k m : option V :=
  match m with
  | [] => None
  | (k', v) :: m => match key_compare k k' with Eq => Some v | _ => bget k m end
  end.
Definition bhas k m : bool := is_some (bget k m).

(** [insert]. *)
Fixpoint bset k v m : bmap K V :=
  match m with
  | [] => [(k, v)]
  | (k', v') :: m' =>
      match key_compare k k' with
      | Lt => (k, v) :: m
      | Eq => (k, v) :: m'
      | Gt => (k', v') :: bset k v m'
      end
  end.

(** [remove] and [retain]. *)
Definition bretain (p : K -> V -> bool) m : bmap K V := List.filter (fun '(k, v) => p k v) m.
Definition bdel k m : bmap K V :=
  bretain (fun k' _ => match key_compare k k' with Eq => false | _ => true end) m.

(** [get_mut]: change the value of a key that is there. *)
Definition bupd (f : V -> V) k m : bmap K V :=
  map (fun '(k', v) => (k', match key_compare k k' with Eq => f v | _ => v end)) m.
(** [values_mut] or [iter_mut]. *)
Definition bmapv (f : K -> V -> V) m : bmap K V := map (fun '(k, v) => (k, f k v)) m.

Definition bkeys m : list K := map fst m.
Definition bvals m : list V := map snd m.

Lemma key_compare_refl k : key_compare k k = Eq.
Proof. by apply key_compare_eq. Qed.
Lemma key_compare_ne k k' : k <> k' -> key_compare k k' <> Eq.
Proof. by rewrite key_compare_eq. Qed.

Lemma bget_bset k v m : bget k (bset k v m) = Some v.
Proof.
  induction m as [|[k' v'] m IH]; simpl; [by rewrite key_compare_refl|].
  destruct (key_compare k k') eqn:E; simpl; by rewrite ?key_compare_refl, ?E.
Qed.
Lemma bget_bset_ne k k' v m : k' <> k -> bget k' (bset k v m) = bget k' m.
Proof.
  intros Hne%key_compare_ne. induction m as [|[k2 v2] m IH]; simpl; [by destruct (key_compare k' k)|].
  destruct (key_compare k k2) eqn:E; simpl.
  - apply key_compare_eq in E as <-. by destruct (key_compare k' k).
  - by destruct (key_compare k' k).
  - by rewrite IH.
Qed.
Lemma bget_bmapv f k m : bget k (bmapv f m) = f k <$> bget k m.
Proof.
  induction m as [|[k' v] m IH]; simpl; [done|]. destruct (key_compare k k') eqn:E; [|done..].
  by apply key_compare_eq in E as <-.
Qed.
Lemma bkeys_bmapv f m : bkeys (bmapv f m) = bkeys m.
Proof. unfold bkeys, bmapv. rewrite map_map. apply map_ext. by intros []. Qed.
Lemma bget_bdel k m : bget k (bdel k m) = None.
Proof.
  unfold bdel, bretain. induction m as [|[k' v] m IH]; simpl; [done|].
  destruct (key_compare k k') eqn:E; simpl; by rewrite ?E.
Qed.
Lemma bget_bretain_ne p k m : (forall v, bget k m = Some v -> p k v = true) ->
  (forall k' v, k' = k -> p k' v = p k v) -> bget k (bretain p m) = bget k m.
Proof.
  intros Hp Hk. unfold bretain. induction m as [|[k' v] m IH]; simpl in *; [done|].
  destruct (key_compare k k') eqn:E.
  - apply key_compare_eq in E as <-. rewrite (Hp v eq_refl). simpl. by rewrite key_compare_refl.
  - destruct (p k' v); simpl; rewrite ?E; auto.
  - destruct (p k' v); simpl; rewrite ?E; auto.
Qed.
Lemma bget_bdel_ne k k' m : k' <> k -> bget k' (bdel k m) = bget k' m.
Proof.
  intros Hne. apply bget_bretain_ne; [|by intros ? ? ->].
  intros v _. destruct (key_compare k k') eqn:E; [|done..]. apply key_compare_eq in E. congruence.
Qed.
(** A filter that looks at the key alone. *)
Lemma bget_bretain_key (p : K -> bool) k m :
  bget k (bretain (fun k _ => p k) m) = if p k then bget k m else None.
Proof.
  unfold bretain. induction m as [|[k' v] m IH]; simpl; [by destruct (p k)|].
  destruct (key_compare k k') eqn:E.
  - apply key_compare_eq in E as <-. destruct (p k); simpl; [by rewrite key_compare_refl|done].
  - destruct (p k'); simpl; rewrite ?E; done.
  - destruct (p k'); simpl; rewrite ?E; done.
Qed.

Lemma bget_elem k v m : bget k m = Some v -> (k, v) ∈ m.
Proof.
  induction m as [|[k' v'] m IH]; simpl; [done|]. destruct (key_compare k k') eqn:E.
  - apply key_compare_eq in E as <-. intros [= <-]. left.
  - intros H. right. auto.
  - intros H. right. auto.
Qed.
Lemma bget_keys k m : is_Some (bget k m) <-> k ∈ bkeys m.
Proof.
  unfold bkeys. induction m as [|[k' v'] m IH]; simpl.
  - split; [by intros []|by intros ?%elem_of_nil].
  - rewrite elem_of_cons, <- IH. destruct (key_compare k k') eqn:E.
    + apply key_compare_eq in E. split; [by left|by eexists].
    + split; [by right|intros [->|]; [by rewrite key_compare_refl in E|done]].
    + split; [by right|intros [->|]; [by rewrite key_compare_refl in E|done]].
Qed.
Lemma bget_nodup k v m : NoDup (bkeys m) -> (k, v) ∈ m -> bget k m = Some v.
Proof.
  unfold bkeys. induction m as [|[k' v'] m IH]; simpl; [by intros _ ?%elem_of_nil|].
  intros [Hni Hnd]%NoDup_cons [[= -> ->]|Hin]%elem_of_cons; [by rewrite key_compare_refl|].
  destruct (key_compare k k') eqn:E; [|auto..]. apply key_compare_eq in E as <-. destruct Hni.
  apply (list_elem_of_fmap_2 fst) in Hin. exact Hin.
Qed.

Lemma bupd_bmapv f k m :
  bupd f k m = bmapv (fun k' v => match key_compare k k' with Eq => f v | _ => v end) m.
Proof. done. Qed.
Lemma bget_bupd f k m : bget k (bupd f k m) = f <$> bget k m.
Proof. by rewrite bupd_bmapv, bget_bmapv, key_compare_refl. Qed.
Lemma bget_bupd_ne f k k' m : k' <> k -> bget k' (bupd f k m) = bget k' m.
Proof.
  intros Hne. rewrite bupd_bmapv, bget_bmapv. destruct (key_compare k k') eqn:E.
  - apply key_compare_eq in E. congruence.
  - by destruct (bget k' m).
  - by destruct (bget k' m).
Qed.
Lemma bkeys_bupd f k m : bkeys (bupd f k m) = bkeys m.
Proof. apply bkeys_bmapv. Qed.
Lemma bhas_bget k m : bhas k m = true <-> is_Some (bget k m).
Proof. unfold bhas. destruct (bget k m); simpl; split; [by eexists|done|done|by intros []]. Qed.

(** *** Order *)

Definition klt k k' : Prop := key_compare k k' = Lt.
Definition bwf m : Prop := StronglySorted klt (bkeys m).

Lemma klt_ne k k' : klt k k' -> k <> k'.
Proof. unfold klt. intros H ->. by rewrite key_compare_refl in H. Qed.
Lemma bwf_nodup m : bwf m -> NoDup (bkeys m).
Proof.
  unfold bwf. induction 1 as [|k l _ IH Hf]; constructor; [|done].
  intros Hin. rewrite Forall_forall in Hf. by apply (klt_ne k k (Hf k Hin)).
Qed.
Lemma bset_keys k v m x : x ∈ bkeys (bset k v m) <-> x = k \/ x ∈ bkeys m.
Proof.
  rewrite <- !bget_keys. destruct (decide (key_compare x k = Eq)) as [E|E].
  - apply key_compare_eq in E as ->. rewrite bget_bset. split; [by left|by eexists].
  - rewrite key_compare_eq in E. rewrite bget_bset_ne by done. naive_solver.
Qed.
Lemma bwf_bset k v m : bwf m -> bwf (bset k v m).
Proof.
  unfold bwf. induction m as [|[k' v'] m IH]; simpl; [by repeat constructor|].
  intros [Hf Hs]%StronglySorted_cons.
  destruct (key_compare k k') eqn:E; simpl.
  - apply key_compare_eq in E as <-. by constructor.
  - constructor; [by constructor|]. constructor; [done|].
    eapply Forall_impl; [exact Hf|]. intros x. by apply key_compare_trans.
  - constructor; [by apply IH|]. apply Forall_forall. intros x [->|Hx]%bset_keys.
    + unfold klt. by rewrite key_compare_opp, E.
    + rewrite Forall_forall in Hf. by apply Hf.
Qed.
Lemma bwf_bmapv f m : bwf (bmapv f m) <-> bwf m.
Proof. unfold bwf. by rewrite bkeys_bmapv. Qed.
Lemma bwf_bupd f k m : bwf (bupd f k m) <-> bwf m.
Proof. unfold bwf. by rewrite bkeys_bupd. Qed.
Lemma bwf_bretain p m : bwf m -> bwf (bretain p m).
Proof.
  unfold bwf, bretain. induction m as [|[k v] m IH]; simpl; [done|].
  intros [Hf Hs]%StronglySorted_cons. destruct (p k v); simpl; [|auto]. constructor; [auto|].
  apply Forall_forall. intros x Hx. rewrite Forall_forall in Hf. apply Hf. clear -Hx.
  unfold bkeys in *. induction m as [|[k' v'] m IH]; simpl in *; [done|].
  destruct (p k' v'); simpl in *; [|right; auto].
  apply elem_of_cons in Hx as [->|Hx]; [left|right; auto].
Qed.

End BTree.
