(* ===== verification/SchedTypes.v ===== *)
(** * The vehicle scheduler: times, vocabulary and records

    [src/src/collection/collector/scheduler.rs], its constants, clock and jitter
    seams, types and the rules that concern one car, with the free functions of
    [scheduler_sleep.rs] they call.  [BTreeMap] is [BTree.bmap]; a car's id and a
    Hub id are numbers; the reason codes are their texts.  The decision log is
    not modelled: the functions that only log have no counterpart. *)
From S2P Require Import Prelude RustStr F64 Endpoint Ledger External LifeData StreamPolicy BTree.
From Stdlib Require Import SpecFloat.
Local Open Scope string_scope.
Local Open Scope Z_scope.

(** ** Constants *)

Definition CONTROL_SETTINGS_REFRESH : Duration := from_secs 5.
Definition K_STREAM_DRAIN_CAP : Duration := from_millis 100.
Definition K_MAX_IDLE_WAIT : Duration := from_secs 60.
Definition K_LOOP_FLOOR : Duration := from_millis 100.
Definition K_MAX_IN_FLIGHT : nat := 4.
Definition SUPERVISED_COLLECTOR_HEARTBEAT_INTERVAL : Duration := from_secs 5.
Definition K_GAP_MIN : Duration := SUPERVISED_COLLECTOR_HEARTBEAT_INTERVAL + from_secs 60.
Definition K_RETRY_AFTER_MAX : Duration := from_secs 3600.
Definition K_BILLING_PROBE : Duration := from_secs (6 * 60 * 60).
Definition K_PAUSE_PROBE : Duration := from_secs (60 * 60).
Definition K_SERVICE_PROBE : Duration := from_secs (15 * 60).
Definition K_BACKOFF_BASE : Duration := from_secs 10.
Definition K_DRIVE_FRAME_SILENCE : Duration := from_secs 30.
Definition SETTING_MIN_MINUTES : Z := 1.
Definition SETTING_MAX_MINUTES : Z := 1440.
Definition RETRY_OVERFLOW_FALLBACK : Duration := from_secs (100 * 365 * 24 * 60 * 60).
Definition K_WAKE_WATCH : Duration := from_secs (5 * 60).
Definition K_UPDATE_STALE : Duration := from_secs (2 * 60 * 60).

Definition collection_sleep_cap (has_active_streams : bool) : Duration :=
  if has_active_streams then K_STREAM_DRAIN_CAP else CONTROL_SETTINGS_REFRESH.

(** ** Instants and deadlines *)

(** An [Instant] counts its seconds in an [i64]. *)
Definition instant_max : Instant := i64_max * NANOS_PER_SEC + 999999999.
Definition instant_min : Instant := i64_min * NANOS_PER_SEC.
Definition checked_add (now : Instant) (d : Duration) : option Instant :=
  then_some (now + d <=? instant_max) (now + d).
Definition checked_sub (now : Instant) (d : Duration) : option Instant :=
  then_some (instant_min <=? now - d) (now - d).

Definition deadline_after (now : Instant) (delay : Duration) : Instant :=
  default now (opt_or (checked_add now delay) (checked_add now RETRY_OVERFLOW_FALLBACK)).

Definition bound_millis (bound : Duration) : Z := default i64_max (i64_try_from (as_millis bound)).

Definition deadline_from_wall (mono_now : Instant) (wall_now_ms deadline_ms : Z) (bound : Duration) : Instant :=
  let remaining_ms := clamp 0 (bound_millis bound) (i64_ssub deadline_ms wall_now_ms) in
  deadline_after mono_now (from_millis remaining_ms).

Definition past_instant_from_wall (mono_now : Instant) (wall_now_ms persisted_ms : Z) (bound : Duration)
    : option Instant :=
  let bound_ms := bound_millis bound in
  let age_ms := clamp 0 bound_ms (i64_ssub wall_now_ms persisted_ms) in
  if age_ms >=? bound_ms then None
  else Some (default mono_now (checked_sub mono_now (from_millis age_ms))).

Definition wall_of_instant (mono_now : Instant) (wall_now_ms : Z) (instant : Instant) : Z :=
  let delta := if instant >=? mono_now then as_millis (instant - mono_now)
               else - as_millis (mono_now - instant) in
  default i64_max (i64_try_from (Z.max (wall_now_ms + delta) 0)).

(** ** The back-off *)

(** [Duration::as_secs_f64]. *)
Definition as_secs_f64 (d : Duration) : f64 :=
  f64_add (f64_of_Z (as_secs d)) (f64_div (f64_of_Z (d mod NANOS_PER_SEC)) (f64_of_Z NANOS_PER_SEC)).

(** The integer nearest to [n / d], ties to even. *)
Definition div_nearest_even (n d : Z) : Z :=
  let q := n / d in
  let r := 2 * (n mod d) in
  if (r <? d) || ((r =? d) && Z.even q) then q else q + 1.

(** [Duration::from_secs_f64], the nearest nanosecond; [None] is its panic. *)
Definition from_secs_f64 (x : f64) : option Duration :=
  match x with
  | S754_zero _ => Some 0
  | S754_finite false m e =>
      let nanos := if 0 <=? e then Z.pos m * 2 ^ e * NANOS_PER_SEC
                   else div_nearest_even (Z.pos m * NANOS_PER_SEC) (2 ^ (- e)) in
      then_some (nanos <=? duration_max) nanos
  | _ => None
  end.
Definition mul_f64 (d : Duration) (u : f64) : option Duration := from_secs_f64 (f64_mul u (as_secs_f64 d)).

(** [backoff_delay]; the panic of [mul_f64] (a negative, infinite or overflowing
    product) is the default. *)
Definition backoff_nominal (failures : Z) (maximum : Duration) : Duration :=
  Z.min (duration_smul K_BACKOFF_BASE (2 ^ Z.min (u32_ssub failures 1) 31)) maximum.
Definition backoff_unit (u : f64) : f64 :=
  if f64_is_finite u then f64_clamp u f64_zero f64_one else f64_zero.
Definition backoff_delay (failures : Z) (maximum : Duration) (u : f64) : Duration :=
  let nominal := backoff_nominal failures maximum in
  nominal / 2 + default 0 (mul_f64 nominal (backoff_unit u)) / 2.

(** [OsJitter::draw]: xorshift64*, the top 53 bits as a fraction. *)
Definition u64_wrap (z : Z) : Z := z mod 18446744073709551616.
Definition xorshift (x : Z) : Z :=
  let x := Z.lxor x (Z.shiftr x 12) in
  let x := Z.lxor x (u64_wrap (Z.shiftl x 25)) in
  Z.lxor x (Z.shiftr x 27).
Definition os_jitter_draw (state : Z) : f64 * Z :=
  let x := xorshift state in
  let scrambled := u64_wrap (x * 2685821657736338717) in
  (f64_div (f64_of_Z (Z.shiftr scrambled 11)) (f64_of_Z (2 ^ 53)), x).

(** ** Vocabulary *)

Inductive PollPhase := Unknown | Asleep | Offline | Online | Suspended | Driving | Charging | Updating.
#[export] Instance PollPhase_eq_dec : EqDecision PollPhase.
Proof. solve_decision. Defined.
Definition phase_code (p : PollPhase) : string :=
  match p with
  | Unknown => "unknown" | Asleep => "asleep" | Offline => "offline" | Online => "online"
  | Suspended => "suspended" | Driving => "driving" | Charging => "charging" | Updating => "updating"
  end.
Definition is_session (p : PollPhase) : bool :=
  match p with Driving | Charging | Updating => true | _ => false end.
Definition is_read_phase (p : PollPhase) : bool :=
  match p with Online => true | _ => is_session p end.

Inductive PauseReason := PersistentFailure | MobileAccessDisabled | LegalPrivacy | AccessRefused.
#[export] Instance PauseReason_eq_dec : EqDecision PauseReason.
Proof. solve_decision. Defined.
Inductive VehicleHold := HoldNone | Disabled | Service | Paused (reason : PauseReason) | Removed.
#[export] Instance VehicleHold_eq_dec : EqDecision VehicleHold.
Proof. solve_decision. Defined.
Definition hold_code (h : VehicleHold) : string :=
  match h with
  | HoldNone => "none" | Disabled => "disabled" | Service => "service" | Paused _ => "paused"
  | Removed => "removed"
  end.
Definition is_paused (h : VehicleHold) : bool := match h with Paused _ => true | _ => false end.

Inductive AccountState :=
| AcCollecting
| AcOwnerApiRefused
| AcProviderRefused
| AcFleetAccessRefused
| AcBillingSuspended
| AcCapReached
| AcConfigError
| AcAccountLocked
| AcCredentialStop.
#[export] Instance AccountState_eq_dec : EqDecision AccountState.
Proof. solve_decision. Defined.
Definition account_code (s : AccountState) : string :=
  match s with
  | AcCollecting => "collecting"
  | AcOwnerApiRefused => "owner_api_refused"
  | AcProviderRefused => "provider_refused"
  | AcFleetAccessRefused => "fleet_access_refused"
  | AcBillingSuspended => "billing_suspended"
  | AcCapReached => "cap_reached"
  | AcConfigError => "config_error"
  | AcAccountLocked => "account_locked"
  | AcCredentialStop => "credential_stop"
  end.

Inductive WaitReason := WaRateLimited | WaTeslaUnreachable | WaAuthWait | WaStore.
#[export] Instance WaitReason_eq_dec : EqDecision WaitReason.
Proof. solve_decision. Defined.

Inductive ErrorClass :=
| ClAuth
| ClAuthWait
| ClCredentialStop
| ClUnavailable
| ClRateLimited
| ClUnreachable
| ClTransient
| ClProtocol
| ClNotFound
| ClInService
| ClOwnerApiRefusal
| ClProviderRefusal
| ClFleetAccess
| ClAccessRefused
| ClBilling
| ClConfig
| ClLocked
| ClMobileAccessDisabled
| ClLegalPrivacy
| ClClientError
| ClGateNotConfirmed.
#[export] Instance ErrorClass_eq_dec : EqDecision ErrorClass.
Proof. solve_decision. Defined.

Inductive ProbeKind := ServiceRecord | ProbeRead.
Inductive RequestKind := ListRequest | RecordRequest | ReadRequest | ProbeRequest.
#[export] Instance RequestKind_eq_dec : EqDecision RequestKind.
Proof. solve_decision. Defined.

Inductive GatedEvidence := Motion | Power.
#[export] Instance GatedEvidence_eq_dec : EqDecision GatedEvidence.
Proof. solve_decision. Defined.

Definition is_owner_wire (m : CollectorMode) : bool :=
  match m with Legacy | ProviderMode => true | FleetPolling => false end.

(** ** Settings and cadence *)

Definition VehicleId : Type := Z.
(** [VehicleId::try_from_i64], and the same for [StreamVehicleId]. *)
Definition vehicle_id_try_from_i64 (z : Z) : option VehicleId := then_some (0 <? z) z.

Record ProjectionCarSettings := MkCarSettings {
  cs_enabled : bool;
  cs_use_streaming_api : bool;
  cs_suspend_after_idle_min : Z;
  cs_suspend_min : Z;
  cs_suspend_min_resolved : bool;
  cs_req_not_unlocked : bool;
  cs_free_supercharging : bool;
  cs_lfp_battery : bool;
}.
#[export] Instance ProjectionCarSettings_eq_dec : EqDecision ProjectionCarSettings.
Proof. solve_decision. Defined.

Record Vehicle := MkVehicle {
  ve_id : VehicleId;
  ve_stream_id : Z;
  ve_vin : string;
  ve_state : string;
  ve_display_name : option string;
  ve_settings : ProjectionCarSettings;
}.
#[export] Instance eta_Vehicle : Eta Vehicle := fun v =>
  MkVehicle (ve_id v) (ve_stream_id v) (ve_vin v) (ve_state v) (ve_display_name v) (ve_settings v).

Record EffectiveSettings := MkEffectiveSettings {
  es_enabled : bool;
  es_use_streaming_api : bool;
  es_suspend_after_idle : Duration;
  es_suspend : Duration;
  es_req_not_unlocked : bool;
}.

Definition setting_minutes (value : Z) : Duration :=
  from_secs (clamp SETTING_MIN_MINUTES SETTING_MAX_MINUTES value * 60).
Definition from_car (settings : ProjectionCarSettings) : EffectiveSettings :=
  MkEffectiveSettings (cs_enabled settings) (cs_use_streaming_api settings)
    (setting_minutes (cs_suspend_after_idle_min settings)) (setting_minutes (cs_suspend_min settings))
    (cs_req_not_unlocked settings).

(** The durations of [CollectorCadence] and [FleetIntervals] the scheduler reads. *)
Record CollectorCadence := MkCadence {
  cd_driving : Duration;
  cd_driving_stream : Duration;
  cd_charging : Duration;
  cd_online : Duration;
  cd_sleeping : Duration;
  cd_offline_drive_timeout : Duration;
  cd_suspended : Duration;
  cd_updating : Duration;
  cd_inventory : Duration;
  cd_maximum_backoff : Duration;
}.
Record FleetIntervals := MkFleetIntervals {
  fi_driving : Duration;
  fi_charging : Duration;
  fi_updating : Duration;
  fi_online : Duration;
  fi_state_check : Duration;
  fi_inventory : Duration;
}.
Record FleetPolicy := MkFleetPolicy {
  fp_intervals : FleetIntervals;
  fp_monthly_cap_cents : Z;
  fp_pricing : FleetPricing;
}.

Record Timing := MkTiming {
  t_driving : Duration;
  t_driving_stream : option Duration;
  t_charging : Duration;
  t_online : Duration;
  t_updating : Duration;
  t_state_suspended : Duration;
  t_state_other : Duration;
  t_inventory : Duration;
  t_max_backoff : Duration;
  t_min_read_spacing : Duration;
  t_offline_drive_timeout : Duration;
}.

Definition timing_new (cadence : CollectorCadence) (mode : CollectorMode) (fleet : FleetPolicy) : Timing :=
  let min_spacing driving driving_stream := Z.min driving (default driving driving_stream) in
  if is_owner_wire mode then
    MkTiming (cd_driving cadence) (Some (cd_driving_stream cadence)) (cd_charging cadence)
      (cd_online cadence) (cd_updating cadence) (cd_suspended cadence) (cd_sleeping cadence)
      (cd_inventory cadence) (cd_maximum_backoff cadence)
      (min_spacing (cd_driving cadence) (Some (cd_driving_stream cadence)))
      (cd_offline_drive_timeout cadence)
  else
    let i := fp_intervals fleet in
    MkTiming (fi_driving i) None (fi_charging i) (fi_online i) (fi_updating i) (fi_state_check i)
      (fi_state_check i) (fi_inventory i) (cd_maximum_backoff cadence)
      (min_spacing (fi_driving i) None) (cd_offline_drive_timeout cadence).

Definition read_interval (t : Timing) (phase : PollPhase) (stream_healthy : bool) : option Duration :=
  match phase with
  | Driving => Some (match stream_healthy, t_driving_stream t with
                     | true, Some interval => interval
                     | _, _ => t_driving t
                     end)
  | Charging => Some (t_charging t)
  | Updating => Some (t_updating t)
  | Online => Some (t_online t)
  | Unknown | Asleep | Offline | Suspended => None
  end.
Definition state_interval (t : Timing) (phase : PollPhase) : Duration :=
  if bool_decide (phase = Suspended) then t_state_suspended t else t_state_other t.

(** ** The record of one car *)

Record LifecycleView := MkLifecycleView { lv_last_reach : option string; lv_drive_open : bool }.

Record StreamView := MkStreamView {
  connected : bool;
  last_frame : option Instant;
  outage_reported : bool;
  task_failures : Z;
  restart_not_before : option Instant;
  outage_started : option Instant;
  outage_failures : Z;
  audit_failed : bool;
}.
#[export] Instance eta_StreamView : Eta StreamView := fun s =>
  MkStreamView (connected s) (last_frame s) (outage_reported s) (task_failures s)
    (restart_not_before s) (outage_started s) (outage_failures s) (audit_failed s).
Definition stream_view_default : StreamView := MkStreamView false None false 0 None None 0 false.

Record ScheduledVehicle := MkScheduled {
  vehicle : Vehicle;
  hub_id : option Z;
  settings : EffectiveSettings;
  phase : PollPhase;
  phase_since : Instant * Z;
  hold : VehicleHold;
  reason : string;
  reported_state : option string;
  next_read_due : option Instant;
  next_check_due : option Instant;
  next_probe_due : option Instant;
  suspend_at : option Instant;
  suspended_until : option Instant;
  last_in_use : option Instant;
  last_read : option Instant;
  last_wake_read : option Instant;
  last_success : option (Instant * Z);
  offline_from_session : bool;
  consecutive_failures : Z;
  first_failure : option Instant;
  last_error : option ErrorClass;
  stream : StreamView;
  missing_lists : Z;
  missing_last : option Instant;
  not_found_check : bool;
  lifecycle : option LifecycleView;
  lifecycle_stale : bool;
  last_stored_obs_ms : option Z;
  force_closed_at_gap : bool;
  current_discovery : option (option string);
  in_flight : bool;
  placeholder : bool;
  gated_read : option GatedEvidence;
  wake_read_pending : bool;
  suspension_read : bool;
  last_power_trigger : option Instant;
  stream_wanted : bool;
  unavailable_check : bool;
}.
#[export] Instance eta_ScheduledVehicle : Eta ScheduledVehicle := fun v =>
  MkScheduled (vehicle v) (hub_id v) (settings v) (phase v) (phase_since v) (hold v) (reason v)
    (reported_state v) (next_read_due v) (next_check_due v) (next_probe_due v) (suspend_at v)
    (suspended_until v) (last_in_use v) (last_read v) (last_wake_read v) (last_success v)
    (offline_from_session v) (consecutive_failures v) (first_failure v) (last_error v) (stream v)
    (missing_lists v) (missing_last v) (not_found_check v) (lifecycle v) (lifecycle_stale v)
    (last_stored_obs_ms v) (force_closed_at_gap v) (current_discovery v) (in_flight v)
    (placeholder v) (gated_read v) (wake_read_pending v) (suspension_read v) (last_power_trigger v)
    (stream_wanted v) (unavailable_check v).

Definition scheduled_new (vh : Vehicle) (now : Instant) (wall_ms : Z) : ScheduledVehicle :=
  let st := from_car (ve_settings vh) in
  {| vehicle := vh; hub_id := None; settings := st; phase := Unknown; phase_since := (now, wall_ms);
     hold := if es_enabled st then HoldNone else Disabled;
     reason := if es_enabled st then "collecting" else "vehicle_disabled";
     reported_state := None; next_read_due := None; next_check_due := None; next_probe_due := None;
     suspend_at := None; suspended_until := None; last_in_use := None; last_read := None;
     last_wake_read := None; last_success := None; offline_from_session := false;
     consecutive_failures := 0; first_failure := None; last_error := None;
     stream := stream_view_default; missing_lists := 0; missing_last := None;
     not_found_check := false; lifecycle := None; lifecycle_stale := true;
     last_stored_obs_ms := None; force_closed_at_gap := false; current_discovery := None;
     in_flight := false; placeholder := false; gated_read := None; wake_read_pending := false;
     suspension_read := false; last_power_trigger := None; stream_wanted := false;
     unavailable_check := false |}.

Definition configured_only (id : VehicleId) (hub : Z) (st : ProjectionCarSettings) (now : Instant)
    (wall_ms : Z) : option ScheduledVehicle :=
  stream_id ← (i64_try_from id ≫= vehicle_id_try_from_i64);
  let v := scheduled_new (MkVehicle id stream_id "" "unknown" None st) now wall_ms in
  Some (v <| hub_id := Some hub |> <| placeholder := true |>).

Definition is_inactive (v : ScheduledVehicle) : bool :=
  match hold v with Disabled | Removed => true | _ => false end.

Definition stream_healthy_for_cadence (v : ScheduledVehicle) (now : Instant) : bool :=
  connected (stream v)
  && (negb (bool_decide (phase v = Driving))
      || is_some_and (last_frame (stream v)) (fun frame =>
           saturating_duration_since now frame <? K_DRIVE_FRAME_SILENCE)).

Definition interval (v : ScheduledVehicle) (t : Timing) (now : Instant) : Duration :=
  default (state_interval t (phase v)) (read_interval t (phase v) (stream_healthy_for_cadence v now)).

Definition needs_state_check (v : ScheduledVehicle) : bool :=
  match hold v with
  | Disabled | Removed => false
  | h => if placeholder v then false
         else match h with
              | Service | Paused _ => true
              | _ => negb (is_read_phase (phase v))
              end
  end.

(** [[..].into_iter().flatten().min()]. *)
Definition earliest_of (l : list (option Instant)) : option Instant :=
  fold_left (fun best due => match best, due with
                             | Some a, Some b => Some (Z.min a b)
                             | Some a, None => Some a
                             | None, d => d
                             end) l None.
Definition next_due (v : ScheduledVehicle) : option Instant :=
  earliest_of [next_read_due v; next_check_due v; next_probe_due v; suspend_at v; suspended_until v].

Definition reported_is (v : ScheduledVehicle) (state : string) : bool :=
  bool_decide (reported_state v = Some state).

(** ** The vehicle scheduler: the rules of one car

    Phases, suspension, wake reads and reported states of [scheduler.rs] and
    [scheduler_sleep.rs], holds, probes and the list's effects of
    [scheduler_holds.rs], and the stored row of [scheduler_state.rs], as
    functions of the car's record.  A [&mut ScheduledVehicle] is the record
    before and after. *)

(** ** Phases *)

(** [enter_phase_gated]; the [gated] flag is for the log alone. *)
Definition enter_phase (t : Timing) (v : ScheduledVehicle) (new : PollPhase) (now : Instant) (wall_ms : Z)
    (why : string) : ScheduledVehicle :=
  if bool_decide (phase v = new) then v
  else
    let v := v <| phase := new |> <| phase_since := (now, wall_ms) |> <| reason := why |> in
    let v := match new with
             | Asleep | Offline | Suspended => v <| next_read_due := None |>
             | _ => v
             end in
    let v := if bool_decide (new = Online) then v else v <| suspend_at := None |> in
    let v := if bool_decide (new = Suspended) then v else v <| suspended_until := None |> in
    match next_read_due v, read_interval t new (stream_healthy_for_cadence v now) with
    | Some due, Some interval => v <| next_read_due := Some (Z.min due (deadline_after now interval)) |>
    | _, _ => v
    end.

Definition clear_pending_reads (v : ScheduledVehicle) : ScheduledVehicle :=
  v <| next_read_due := None |> <| wake_read_pending := false |> <| gated_read := None |>
    <| suspension_read := false |>.

Definition begin_suspension (t : Timing) (v : ScheduledVehicle) (now : Instant) (wall_ms : Z)
    (until : Instant) (why : string) : ScheduledVehicle :=
  let v := enter_phase t v Suspended now wall_ms why in
  v <| suspended_until := Some until |> <| suspend_at := None |> <| next_read_due := None |>
    <| gated_read := None |>.

(** [online_after_sleep]; the flag says that the power gate must be revoked. *)
Definition online_after_sleep (t : Timing) (v : ScheduledVehicle) (now : Instant) (wall_ms : Z)
    : bool * ScheduledVehicle :=
  if bool_decide (phase v = Offline) && offline_from_session v then
    (false, v <| next_read_due := Some now |> <| reason := "session_return" |>)
  else
    let suspend := es_suspend (settings v) in
    let allowed := is_none_or (last_wake_read v) (fun last => saturating_duration_since now last >=? suspend) in
    if allowed then
      (false, v <| last_wake_read := Some now |> <| wake_read_pending := true |>
                <| next_read_due := Some now |> <| reason := "wake_read" |>)
    else
      let until := map_or (last_wake_read v) now (fun last => deadline_after last suspend) in
      (true, begin_suspension t v now wall_ms until "wake_read_limited").

Definition apply_reported_state (t : Timing) (v : ScheduledVehicle) (state : string) (now : Instant)
    (wall_ms : Z) : bool * ScheduledVehicle :=
  let previously_online := reported_is v "online" in
  let probe_now :=
    bool_decide (state = "online")
    && match hold v with Paused r => negb (bool_decide (r = AccessRefused)) | _ => false end
    && is_some_and (reported_state v) (fun earlier => negb (bool_decide (earlier = "online"))) in
  let v := if probe_now then v <| next_probe_due := Some now |> else v in
  let v := v <| vehicle := (vehicle v) <| ve_state := state |> |> <| reported_state := Some state |> in
  if is_inactive v then (false, v)
  else if bool_decide (state = "asleep") then
    (false, clear_pending_reads (enter_phase t v Asleep now wall_ms "reported_asleep"))
  else if bool_decide (state = "offline") then
    match phase v with
    | Updating | Offline => (false, v)
    | p =>
        let v := match p with Driving | Charging => v <| offline_from_session := true |> | _ => v end in
        (false, clear_pending_reads (enter_phase t v Offline now wall_ms "reported_offline"))
    end
  else if bool_decide (state = "online") then
    if bool_decide (phase v = Unknown) && bool_decide (hold v = HoldNone) && negb (in_flight v)
       && is_none (next_read_due v)
    then (false, v <| next_read_due := Some now |> <| reason := "first_contact_read" |>)
    else if negb previously_online && bool_decide (hold v = HoldNone) && negb (in_flight v)
            && match phase v with Asleep | Offline => true | _ => false end
    then online_after_sleep t v now wall_ms
    else (false, v)
  else (false, v).

(** ** Stream deadlines *)

Definition silence_deadline (v : ScheduledVehicle) : option Instant :=
  if negb (bool_decide (phase v = Driving)) || negb (connected (stream v)) || outage_reported (stream v)
  then None
  else (fun frame => deadline_after frame K_DRIVE_FRAME_SILENCE) <$> last_frame (stream v).

Definition update_stale_deadline (v : ScheduledVehicle) : option Instant :=
  if negb (bool_decide (phase v = Updating)) || negb (bool_decide (hold v = HoldNone)) then None
  else
    let anchor := map_or (last_success v) (phase_since v).1 (fun '(read, _) => Z.max read (phase_since v).1) in
    Some (deadline_after anchor K_UPDATE_STALE).

Definition STATUS_STREAM_ONLY : string := "partial: stream only".
Definition STATUS_STREAM_AUDIT_FAILED : string := "stream receipts cannot be written".
Definition STATUS_NOT_IN_ACCOUNT : string := "not in the Tesla account".
Definition stream_detail (v : ScheduledVehicle) (now : Instant) : option string :=
  if audit_failed (stream v) then Some STATUS_STREAM_AUDIT_FAILED
  else if is_paused (hold v) && stream_healthy_for_cadence v now then Some STATUS_STREAM_ONLY
  else None.
Definition status_detail (v : ScheduledVehicle) (now : Instant) : option string :=
  if bool_decide (hold v = Removed) then Some STATUS_NOT_IN_ACCOUNT else stream_detail v now.

(** ** Evidence *)

Inductive EvidenceSource := FromStream | FromTelemetry.
Definition evidence_reason (s : EvidenceSource) : string :=
  match s with FromStream => "use_evidence_stream" | FromTelemetry => "use_evidence_telemetry" end.

Record FrameEvidence := MkEvidence { motion : bool; parked_gear : bool; wants_read : bool }.

Definition known_gear (text : option string) : option string :=
  opt_filter (fun name => bool_decide (name ∈ ["P"; "R"; "N"; "D"])) (text ≫= normalise_enum_text).
Definition moving_gear (gear : option string) : bool :=
  is_some_and gear (fun g => bool_decide (g ∈ ["D"; "R"; "N"])).

Definition from_stream (shift_state : option string) (speed : option f64) (power : option Z) : FrameEvidence :=
  let gear := known_gear shift_state in
  let is_motion := match gear with
                   | Some _ => moving_gear gear
                   | None => is_some_and speed (fun s => f64_ltb f64_zero s)
                   end in
  MkEvidence is_motion (bool_decide (gear = Some "P"))
    (negb is_motion && is_some_and power (fun p => Z.abs p >=? Z.abs K_STREAM_POWER_KW)).
Definition from_telemetry (gear_text charging_state : option string) : FrameEvidence :=
  let gear := known_gear gear_text in
  let is_motion := moving_gear gear in
  let charging := charging_state ≫= normalise_enum_text in
  MkEvidence is_motion (bool_decide (gear = Some "P"))
    (negb is_motion && is_some_and charging (fun c => bool_decide (c ∈ ["Charging"; "Starting"]))).

Definition evidence_read_time (t : Timing) (v : ScheduledVehicle) (now : Instant) : Instant :=
  map_or (last_read v) now (fun last => Z.max now (deadline_after last (t_min_read_spacing t))).

(** The closure [make_read_due] of [apply_frame_evidence]. *)
Definition make_read_due (t : Timing) (now : Instant) (v : ScheduledVehicle) : ScheduledVehicle :=
  let at_ := evidence_read_time t v now in
  v <| next_read_due := Some (map_or (next_read_due v) at_ (fun due => Z.min due at_)) |>.

(** [apply_frame_evidence], for a known car. *)
Definition car_evidence (t : Timing) (v : ScheduledVehicle) (e : FrameEvidence) (source : EvidenceSource)
    (now : Instant) (wall_ms : Z) : ScheduledVehicle :=
  if is_inactive v then v
  else
    let reads_allowed := bool_decide (hold v = HoldNone) in
    if motion e then
      let v := v <| last_in_use := Some now |> in
      match phase v with
      | Driving => v
      | Suspended => if reads_allowed then make_read_due t now (v <| gated_read := Some Motion |>) else v
      | _ =>
          let v := enter_phase t v Driving now wall_ms (evidence_reason source) in
          if reads_allowed then make_read_due t now v else v
      end
    else if negb reads_allowed then v
    else if parked_gear e && bool_decide (phase v = Driving) then make_read_due t now v
    else if wants_read e && match phase v with
                            | Unknown | Asleep | Offline | Online | Suspended => true
                            | _ => false
                            end then
      if is_none_or (last_power_trigger v) (fun last => saturating_duration_since now last >=? t_online t) then
        let v := v <| last_power_trigger := Some now |> in
        let v := if bool_decide (phase v = Suspended)
                 then v <| gated_read := Some (default Power (gated_read v)) |> else v in
        make_read_due t now v
      else v
    else v.

(** ** Holds *)

Definition pause_reason_code (r : PauseReason) : string :=
  match r with
  | PersistentFailure => "paused_persistent_failure"
  | MobileAccessDisabled => "paused_mobile_access_disabled"
  | LegalPrivacy => "paused_legal_privacy"
  | AccessRefused => "paused_access_refused"
  end.

Definition probe_due_at (v : ScheduledVehicle) (owner_wire : bool) : option Instant :=
  due ← next_probe_due v;
  match hold v with
  | Service => if owner_wire then Some due else then_some (reported_is v "online") due
  | Paused AccessRefused => None
  | Paused _ => then_some (reported_is v "online") due
  | HoldNone | Disabled | Removed => None
  end.

Definition shown_reason (v : ScheduledVehicle) : string :=
  match hold v with
  | Paused r => pause_reason_code r
  | Service => "service_entered"
  | Removed => "vehicle_removed"
  | Disabled => "vehicle_disabled"
  | HoldNone => if audit_failed (stream v) then "stream_audit_failed" else reason v
  end.

Definition stop_timers (v : ScheduledVehicle) : ScheduledVehicle :=
  v <| next_read_due := None |> <| next_check_due := None |> <| suspend_at := None |>
    <| suspended_until := None |> <| gated_read := None |> <| wake_read_pending := false |>
    <| suspension_read := false |> <| unavailable_check := false |>.

Definition note_listed (v : ScheduledVehicle) (now : Instant) (wall_ms : Z) : ScheduledVehicle :=
  let v := v <| missing_lists := 0 |> <| missing_last := None |> <| not_found_check := false |> in
  if bool_decide (hold v = Removed) then
    v <| hold := HoldNone |> <| phase := Unknown |> <| phase_since := (now, wall_ms) |>
      <| reason := "vehicle_reappeared" |>
  else v.

(** [settle_unavailable]: the flag is whether the 408 is now a failure. *)
Definition settle_unavailable (v : ScheduledVehicle) (state : string) : bool * ScheduledVehicle :=
  (unavailable_check v && bool_decide (state = "online"), v <| unavailable_check := false |>).

(** [pause_vehicle], for a known car. *)
Definition car_pause (v : ScheduledVehicle) (why : PauseReason) (class : ErrorClass) (now : Instant)
    : ScheduledVehicle :=
  let v := v <| in_flight := false |> <| last_error := Some class |> in
  if is_inactive v then v
  else
    (stop_timers v) <| hold := Paused why |> <| reason := pause_reason_code why |>
      <| next_probe_due := match why with
                           | AccessRefused => None
                           | _ => Some (deadline_after now K_PAUSE_PROBE)
                           end |>.

(** [release_hold], for a known car; the flag is whether it was held. *)
Definition car_release (v : ScheduledVehicle) (why : string) (now : Instant) (wall_ms : Z)
    : bool * ScheduledVehicle :=
  match hold v with
  | Service | Paused _ =>
      let v := v <| hold := HoldNone |> <| next_probe_due := None |> <| in_flight := false |>
                 <| consecutive_failures := 0 |> <| first_failure := None |> <| last_error := None |>
                 <| offline_from_session := false |> in
      (true, (stop_timers v) <| phase := Unknown |> <| phase_since := (now, wall_ms) |> <| reason := why |>)
  | _ => (false, v)
  end.

(** [enter_service_mode], for a known car; the flag is whether it newly entered. *)
Definition car_service (v : ScheduledVehicle) (now : Instant) : bool * ScheduledVehicle :=
  let v := v <| in_flight := false |> in
  if is_inactive v || bool_decide (hold v = Service) then (false, v)
  else
    (true, (stop_timers v) <| hold := Service |> <| reason := "service_entered" |>
             <| next_probe_due := Some (deadline_after now K_SERVICE_PROBE) |>
             <| consecutive_failures := 0 |> <| first_failure := None |>
             <| last_error := Some ClInService |>).

Definition K_REMOVE_LISTS : Z := 2.
(** One round of the loop of [note_unlisted]. *)
Definition car_unlisted (v : ScheduledVehicle) (inventory : Duration) (now : Instant) : ScheduledVehicle :=
  let spaced := not_found_check v
                || is_none_or (missing_last v) (fun last => saturating_duration_since now last >=? inventory) in
  let v := v <| not_found_check := false |> in
  if negb spaced then v
  else
    let v := v <| missing_lists := u8_sadd (missing_lists v) 1 |> <| missing_last := Some now |> in
    if missing_lists v <? K_REMOVE_LISTS then v
    else stop_timers (v <| hold := Removed |> <| reason := "vehicle_removed" |> <| next_probe_due := None |>).
