(* ===== verification/SchedState.v ===== *)
(** * The vehicle scheduler: its state

    The account record and the scheduler of [scheduler.rs], with the stored rows
    ([storage/db/collector_state.rs]), gaps, ticks and baselines of
    [scheduler_state.rs] they hold.  [clock] and [write_guard] are not fields:
    each operation takes one reading of both clocks as its argument, and the
    guard belongs to the loops.  The jitter source is any infinite sequence of
    doubles. *)
From S2P Require Import Prelude RustStr F64 External Endpoint Ledger BTree SchedTypes.
Local Open Scope string_scope.
Local Open Scope Z_scope.

(** ** Gaps *)

Inductive GapKind :=
| GapHostSuspended
| GapRateLimited
| GapTeslaUnreachable
| GapVehiclePaused
| GapAuthTerminal
| GapOwnerApiRefused
| GapProviderRefused
| GapFleetAccessRefused
| GapBillingSuspended
| GapCapReached
| GapConfigError
| GapAccountLocked.
#[export] Instance GapKind_eq_dec : EqDecision GapKind.
Proof. solve_decision. Defined.

Definition all_gap_kinds : list GapKind :=
  [GapHostSuspended; GapRateLimited; GapTeslaUnreachable; GapVehiclePaused; GapAuthTerminal;
   GapOwnerApiRefused; GapProviderRefused; GapFleetAccessRefused; GapBillingSuspended; GapCapReached;
   GapConfigError; GapAccountLocked].

Definition gap_code (k : GapKind) : string :=
  match k with
  | GapHostSuspended => "host_suspended"
  | GapRateLimited => "rate_limited"
  | GapTeslaUnreachable => "tesla_unreachable"
  | GapVehiclePaused => "vehicle_paused"
  | GapAuthTerminal => "auth_terminal"
  | GapOwnerApiRefused => "owner_api_refused"
  | GapProviderRefused => "provider_refused"
  | GapFleetAccessRefused => "fleet_access_refused"
  | GapBillingSuspended => "billing_suspended"
  | GapCapReached => "cap_reached"
  | GapConfigError => "config_error"
  | GapAccountLocked => "account_locked"
  end.

Definition of_account_state (s : AccountState) : option GapKind :=
  match s with
  | AcCollecting => None
  | AcOwnerApiRefused => Some GapOwnerApiRefused
  | AcProviderRefused => Some GapProviderRefused
  | AcFleetAccessRefused => Some GapFleetAccessRefused
  | AcBillingSuspended => Some GapBillingSuspended
  | AcCapReached => Some GapCapReached
  | AcConfigError => Some GapConfigError
  | AcAccountLocked => Some GapAccountLocked
  | AcCredentialStop => Some GapAuthTerminal
  end.

Definition gap_kind_from_code (code : string) : option GapKind :=
  find_first (fun k => bool_decide (gap_code k = code)) all_gap_kinds.

Record GapRecord := MkGapRecord {
  gr_kind : GapKind;
  gr_vehicle : option VehicleId;
  gr_started_ms : Z;
  gr_ended_ms : option Z;
  gr_alert : bool;
}.

Record GapKey := MkGapKey { gk_kind : GapKind; gk_vehicle : option VehicleId }.
#[export] Instance GapKey_eq_dec : EqDecision GapKey.
Proof. solve_decision. Defined.

(** The derived [Ord]: the declaration order of the kinds, then [None] first. *)
Definition gap_number (k : GapKind) : Z :=
  match k with
  | GapHostSuspended => 0 | GapRateLimited => 1 | GapTeslaUnreachable => 2 | GapVehiclePaused => 3
  | GapAuthTerminal => 4 | GapOwnerApiRefused => 5 | GapProviderRefused => 6 | GapFleetAccessRefused => 7
  | GapBillingSuspended => 8 | GapCapReached => 9 | GapConfigError => 10 | GapAccountLocked => 11
  end.
Definition gap_key_compare (a b : GapKey) : comparison :=
  match Z.compare (gap_number (gk_kind a)) (gap_number (gk_kind b)) with
  | Eq => match gk_vehicle a, gk_vehicle b with
          | None, None => Eq
          | None, Some _ => Lt
          | Some _, None => Gt
          | Some x, Some y => Z.compare x y
          end
  | c => c
  end.
Lemma gap_number_inj k k' : gap_number k = gap_number k' -> k = k'.
Proof. by destruct k, k'. Qed.
Lemma gap_key_compare_eq a b : gap_key_compare a b = Eq <-> a = b.
Proof.
  destruct a as [k [v|]], b as [k' [v'|]]; unfold gap_key_compare; cbn [gk_kind gk_vehicle];
    destruct (Z.compare_spec (gap_number k) (gap_number k')) as [E%gap_number_inj|E|E];
    rewrite ?Z.compare_eq_iff; subst; split; intros H; simplify_eq; try done; lia.
Qed.
Lemma gap_key_compare_opp a b : gap_key_compare b a = CompOpp (gap_key_compare a b).
Proof.
  destruct a as [k [v|]], b as [k' [v'|]]; unfold gap_key_compare; cbn [gk_kind gk_vehicle];
    rewrite (Z.compare_antisym (gap_number k) (gap_number k')); destruct (gap_number k ?= gap_number k'); try done.
  simpl. apply Z.compare_antisym.
Qed.
Lemma gap_key_compare_trans a b c :
  gap_key_compare a b = Lt -> gap_key_compare b c = Lt -> gap_key_compare a c = Lt.
Proof.
  destruct a as [k1 v1], b as [k2 v2], c as [k3 v3]; unfold gap_key_compare; cbn [gk_kind gk_vehicle].
  destruct (Z.compare_spec (gap_number k1) (gap_number k2)),
    (Z.compare_spec (gap_number k2) (gap_number k3)), (Z.compare_spec (gap_number k1) (gap_number k3));
    try done; try lia; destruct v1, v2, v3; try done; rewrite ?Z.compare_lt_iff; lia.
Qed.
#[export] Instance GapKey_key : OrdKey GapKey :=
  {| key_compare := gap_key_compare; key_compare_eq := gap_key_compare_eq;
     key_compare_opp := gap_key_compare_opp; key_compare_trans := gap_key_compare_trans |}.
Lemma gap_kind_compare_eq k k' : (gap_number k ?= gap_number k') = Eq <-> k = k'.
Proof. rewrite Z.compare_eq_iff. split; [apply gap_number_inj|by intros ->]. Qed.
#[export] Instance GapKind_key : OrdKey GapKind :=
  {| key_compare := fun k k' => Z.compare (gap_number k) (gap_number k');
     key_compare_eq := gap_kind_compare_eq;
     key_compare_opp := fun k k' => Z.compare_antisym (gap_number k) (gap_number k');
     key_compare_trans := fun a b c => Zcompare_trans_lt (gap_number a) (gap_number b) (gap_number c) |}.

Record OpenGap := MkOpenGap { og_started_ms : Z; og_alert : bool; og_hub_id : option Z }.

(** ** Stored rows and their views *)

Record CollectorAccountRow := MkAccountRow {
  ar_mode : string;
  ar_config_fingerprint : string;
  ar_state : string;
  ar_reason_code : string;
  ar_since_ms : Z;
  ar_rate_limited_until_ms : option Z;
  ar_next_probe_ms : option Z;
}.
Record CollectorVehicleRow := MkVehicleRow {
  vr_vehicle_id : Z;
  vr_phase : string;
  vr_hold : string;
  vr_reason_code : string;
  vr_phase_since_ms : Z;
  vr_suspended_until_ms : option Z;
  vr_next_probe_ms : option Z;
  vr_last_wake_read_at_ms : option Z;
}.
Record CollectionGapRecord := MkGapRow {
  gp_gap_id : Z;
  gp_vehicle_id : option Z;
  gp_kind : string;
  gp_started_at_ms : Z;
  gp_ended_at_ms : option Z;
  gp_alert : bool;
  gp_notified_at_ms : option Z;
  gp_created_at_ms : Z;
}.

Record AccountView := MkAccountView {
  av_state : AccountState;
  av_reason : string;
  av_since_ms : Z;
  av_rate_limited_until : option Instant;
  av_next_probe : option Instant;
}.
#[export] Instance AccountView_eq_dec : EqDecision AccountView.
Proof. solve_decision. Defined.

Record VehicleView := MkVehicleView {
  vv_phase : PollPhase;
  vv_hold : VehicleHold;
  vv_reason : string;
  vv_phase_since_ms : Z;
  vv_suspended_until : option Instant;
  vv_next_probe : option Instant;
  vv_last_wake_read : option Instant;
}.
#[export] Instance VehicleView_eq_dec : EqDecision VehicleView.
Proof. solve_decision. Defined.

Definition is_initial (w : VehicleView) : bool :=
  bool_decide (vv_phase w = Unknown) && bool_decide (vv_hold w = HoldNone)
  && bool_decide (vv_reason w = "collecting") && is_none (vv_suspended_until w)
  && is_none (vv_next_probe w) && is_none (vv_last_wake_read w).

Record AccountWrite := MkAccountWrite { aw_view : AccountView; aw_row : CollectorAccountRow }.
Record VehicleWrite := MkVehicleWrite { vw_id : VehicleId; vw_view : VehicleView; vw_row : CollectorVehicleRow }.
Record GapOpen := MkGapOpen { go_key : GapKey; go_hub_id : option Z; go_started_ms : Z; go_alert : bool }.
Record GapClose := MkGapClose {
  gc_key : GapKey;
  gc_hub_id : option Z;
  gc_ended_ms : Z;
  gc_alert_at_or_over_ms : Z;
}.

Record PendingTick := MkTick {
  pt_gaps : list GapRecord;
  pt_account : option AccountWrite;
  pt_vehicles : list VehicleWrite;
  pt_gap_opens : list GapOpen;
  pt_gap_closes : list GapClose;
  pt_counters : list CollectorCounterRow;
  pt_applied_actions : list Z;
}.
#[export] Instance eta_PendingTick : Eta PendingTick := fun t =>
  MkTick (pt_gaps t) (pt_account t) (pt_vehicles t) (pt_gap_opens t) (pt_gap_closes t) (pt_counters t)
    (pt_applied_actions t).
Definition tick_default : PendingTick := MkTick [] None [] [] [] [] [].
Definition list_is_empty {A} (l : list A) : bool := match l with [] => true | _ => false end.
Definition tick_is_empty (t : PendingTick) : bool :=
  list_is_empty (pt_gaps t) && is_none (pt_account t) && list_is_empty (pt_vehicles t)
  && list_is_empty (pt_gap_opens t) && list_is_empty (pt_gap_closes t) && list_is_empty (pt_counters t)
  && list_is_empty (pt_applied_actions t).

(** The rows of a tick's transaction. *)
Record CollectorGapInsert := MkGapInsert {
  gi_vehicle_id : option Z;
  gi_kind : string;
  gi_started_at_ms : Z;
  gi_ended_at_ms : option Z;
  gi_alert : bool;
}.
Record CollectorGapClose := MkGapCloseRow {
  gcr_vehicle_id : option Z;
  gcr_kind : string;
  gcr_ended_at_ms : Z;
  gcr_alert_at_or_over_ms : Z;
}.
Record CollectorRowsWrite := MkRowsWrite {
  rw_now_ms : Z;
  rw_account : option CollectorAccountRow;
  rw_vehicles : list CollectorVehicleRow;
  rw_counters : list CollectorCounterRow;
  rw_gap_inserts : list CollectorGapInsert;
  rw_gap_closes : list CollectorGapClose;
  rw_applied_actions : list Z;
}.
Definition to_rows_write (t : PendingTick) (now_ms : Z) : CollectorRowsWrite :=
  {| rw_now_ms := now_ms;
     rw_account := aw_row <$> pt_account t;
     rw_vehicles := vw_row <$> pt_vehicles t;
     rw_counters := pt_counters t;
     rw_gap_inserts :=
       ((fun g => MkGapInsert None (gap_code (gr_kind g)) (gr_started_ms g) (gr_ended_ms g) (gr_alert g))
          <$> pt_gaps t)
       ++ ((fun o => MkGapInsert (go_hub_id o) (gap_code (gk_kind (go_key o))) (go_started_ms o) None (go_alert o))
             <$> pt_gap_opens t);
     rw_gap_closes :=
       (fun c => MkGapCloseRow (gc_hub_id c) (gap_code (gk_kind (gc_key c))) (gc_ended_ms c)
                   (gc_alert_at_or_over_ms c)) <$> pt_gap_closes t;
     rw_applied_actions := pt_applied_actions t |}%list.

Record RestoredVehicle := MkRestored { rs_tesla_id : VehicleId; rs_row : CollectorVehicleRow; rs_suspend : Duration }.

(** ** Codes read back *)

Definition REASON_CODES : list string :=
  ["first_contact_read"; "wake_read"; "wake_read_limited"; "session_return"; "use_evidence_snapshot";
   "use_evidence_stream"; "use_evidence_telemetry"; "idle_window_started"; "suspended_idle";
   "suspension_ended_still_online"; "reported_asleep"; "reported_offline"; "reported_online";
   "update_stale"; "stream_outage"; "stream_recovered"; "stream_restart_delayed"; "stream_audit_failed";
   "rest_failure"; "refusal_check"; "paused_persistent_failure"; "paused_mobile_access_disabled";
   "paused_legal_privacy"; "paused_access_refused"; "pause_probe"; "resumed"; "service_entered";
   "service_probe"; "service_exited"; "rate_limited"; "tesla_unreachable"; "tesla_reachable"; "auth_wait";
   "auth_terminal"; "owner_api_refused"; "owner_api_client_refused"; "owner_api_gone";
   "provider_payment_required"; "provider_gone"; "provider_forbidden"; "provider_client_refused";
   "fleet_access_refused"; "billing_suspended"; "billing_probe"; "billing_resumed";
   "config_partner_unregistered"; "config_wrong_region"; "account_locked"; "cap_warning"; "cap_reached";
   "cap_cleared"; "month_rolled_over"; "month_change_deferred"; "vehicle_missing_from_list";
   "vehicle_removed"; "vehicle_reappeared"; "vehicle_disabled"; "vehicle_enabled"; "settings_applied";
   "owner_retry"; "owner_resume"; "config_changed"; "force_close_no_evidence"; "gap_opened"; "gap_closed";
   "config_key_ignored"; "config_value_clamped"; "wall_clock_stepped_back"; "store_failure";
   "store_recovered"; "collecting"].

Definition intern_reason (code : string) : string :=
  default "collecting" (find_first (fun known => bool_decide (known = code)) REASON_CODES).

(** A [match] of a text on literals, with its last arm. *)
Definition text_match {A} (arms : list (string * A)) (otherwise : A) (text : string) : A :=
  default otherwise (snd <$> find_first (fun arm => bool_decide (fst arm = text)) arms).

Definition account_state_from_code (code : string) : AccountState :=
  text_match [("owner_api_refused", AcOwnerApiRefused); ("provider_refused", AcProviderRefused);
              ("fleet_access_refused", AcFleetAccessRefused); ("billing_suspended", AcBillingSuspended);
              ("cap_reached", AcCapReached); ("config_error", AcConfigError);
              ("account_locked", AcAccountLocked)] AcCollecting code.
Definition phase_from_code (code : string) : PollPhase :=
  text_match [("asleep", Asleep); ("offline", Offline); ("online", Online); ("suspended", Suspended);
              ("driving", Driving); ("charging", Charging); ("updating", Updating)] Unknown code.
Definition pause_reason_from_code (code : string) : PauseReason :=
  text_match [("paused_mobile_access_disabled", MobileAccessDisabled);
              ("paused_legal_privacy", LegalPrivacy); ("paused_access_refused", AccessRefused)]
    PersistentFailure code.

(** ** The snapshot of a start *)

Record CollectorStateRows := MkStateRows {
  sr_account : option CollectorAccountRow;
  sr_vehicles : list CollectorVehicleRow;
  sr_counters : list CollectorCounterRow;
  sr_open_gaps : list CollectionGapRecord;
}.
Record CollectorStateSnapshot := MkSnapshot {
  sn_account : option CollectorAccountRow;
  sn_vehicles : list RestoredVehicle;
  sn_counters : list CollectorCounterRow;
  sn_open_gaps : list CollectionGapRecord;
  sn_vehicle_ids : bmap Z VehicleId;
  sn_config_fingerprint : string;
}.

Definition configured_ids (configured : list (Z * Z * ProjectionCarSettings))
    : bmap Z VehicleId * bmap Z Duration :=
  fold_left (fun '(ids, suspends) '(hub, tesla_id, st) =>
    match vehicle_id_try_from_i64 tesla_id with
    | Some id => (bset hub id ids, bset hub (es_suspend (from_car st)) suspends)
    | None => (ids, suspends)
    end) configured ([], []).

Definition from_rows (rows : CollectorStateRows) (config_fingerprint : string)
    (configured : list (Z * Z * ProjectionCarSettings)) : CollectorStateSnapshot :=
  let '(vehicle_ids, suspends) := configured_ids configured in
  {| sn_account := sr_account rows;
     sn_vehicles := omap (fun row =>
       tesla_id ← bget (vr_vehicle_id row) vehicle_ids;
       suspend ← bget (vr_vehicle_id row) suspends;
       Some (MkRestored tesla_id row suspend)) (sr_vehicles rows);
     sn_counters := sr_counters rows;
     sn_open_gaps := sr_open_gaps rows;
     sn_vehicle_ids := vehicle_ids;
     sn_config_fingerprint := config_fingerprint |}.

(** ** Baselines *)

Record VehicleBaseline := MkVehicleBaseline {
  vb_state : string;
  vb_phase : PollPhase;
  vb_phase_since : Instant * Z;
  vb_hold : VehicleHold;
  vb_reason : string;
  vb_reported_state : option string;
  vb_next_read_due : option Instant;
  vb_next_check_due : option Instant;
  vb_next_probe_due : option Instant;
  vb_suspend_at : option Instant;
  vb_suspended_until : option Instant;
  vb_last_in_use : option Instant;
  vb_last_success : option (Instant * Z);
  vb_offline_from_session : bool;
  vb_consecutive_failures : Z;
  vb_first_failure : option Instant;
  vb_last_error : option ErrorClass;
  vb_missing_lists : Z;
  vb_missing_last : option Instant;
  vb_not_found_check : bool;
  vb_placeholder : bool;
}.
Record AccountBaseline := MkAccountBaseline {
  ab_state : AccountState;
  ab_state_reason : string;
  ab_state_since_ms : Z;
  ab_last_discovery : option Instant;
  ab_list_floor : option Instant;
  ab_list_wanted : option Instant;
  ab_discovery_failures : Z;
  ab_next_billing_probe : option Instant;
  ab_telemetry_check_due : bool;
}.
Record TickBaseline := MkTickBaseline { tb_vehicles : bmap VehicleId VehicleBaseline; tb_account : AccountBaseline }.

(** ** The account and the scheduler *)

Record AccountRecord := MkAccount {
  ac_state : AccountState;
  ac_state_reason : string;
  ac_state_since_ms : Z;
  ac_wait : option (Instant * WaitReason);
  ac_consecutive_429 : Z;
  ac_consecutive_unreachable : Z;
  ac_auth_failures : Z;
  ac_store_failures : Z;
  ac_discovery_failures : Z;
  ac_last_discovery : option Instant;
  ac_list_floor : option Instant;
  ac_list_wanted : option Instant;
  ac_next_billing_probe : option Instant;
  ac_probe_time_of_the_tick : option Instant;
  ac_reservation_commits : Z;
  ac_telemetry_check_due : bool;
}.
#[export] Instance eta_AccountRecord : Eta AccountRecord := fun a =>
  MkAccount (ac_state a) (ac_state_reason a) (ac_state_since_ms a) (ac_wait a) (ac_consecutive_429 a)
    (ac_consecutive_unreachable a) (ac_auth_failures a) (ac_store_failures a) (ac_discovery_failures a)
    (ac_last_discovery a) (ac_list_floor a) (ac_list_wanted a) (ac_next_billing_probe a)
    (ac_probe_time_of_the_tick a) (ac_reservation_commits a) (ac_telemetry_check_due a).
Definition account_new (wall_ms : Z) : AccountRecord :=
  MkAccount AcCollecting "collecting" wall_ms None 0 0 0 0 0 None None None None None 0 false.
Definition account_record_view (a : AccountRecord) : AccountView :=
  MkAccountView (ac_state a) (ac_state_reason a) (ac_state_since_ms a) None (ac_next_billing_probe a).

(** One reading of [CollectorClock]. *)
Record Clock := MkClock { mono_now : Instant; wall_now_ms : option Z }.

Record VehicleScheduler := MkScheduler {
  vs_mode : CollectorMode;
  vs_timing : Timing;
  vs_jitter : nat -> f64;
  vs_vehicles : bmap VehicleId ScheduledVehicle;
  vs_account : AccountRecord;
  vs_created_at : Instant;
  vs_clock_watch : Instant * Z;
  vs_ledger : LedgerState;
  vs_pending : PendingTick;
  vs_persisted_account : AccountView;
  vs_persisted_vehicles : bmap VehicleId VehicleView;
  vs_open_gaps : bmap GapKey OpenGap;
  vs_gap_episodes : bmap GapKind (Instant * Z);
  vs_config_fingerprint : string;
  vs_restored : bmap VehicleId RestoredVehicle;
  vs_baseline : option TickBaseline;
  vs_alert_gaps_unnotified : Z;
  vs_stream_delivery : bool;
  vs_gate_revocations : bmap VehicleId unit;
}.
#[export] Instance eta_VehicleScheduler : Eta VehicleScheduler := fun s =>
  MkScheduler (vs_mode s) (vs_timing s) (vs_jitter s) (vs_vehicles s) (vs_account s) (vs_created_at s)
    (vs_clock_watch s) (vs_ledger s) (vs_pending s) (vs_persisted_account s) (vs_persisted_vehicles s)
    (vs_open_gaps s) (vs_gap_episodes s) (vs_config_fingerprint s) (vs_restored s) (vs_baseline s)
    (vs_alert_gaps_unnotified s) (vs_stream_delivery s) (vs_gate_revocations s).

Definition NO_FINGERPRINT : string :=
  "0000000000000000000000000000000000000000000000000000000000000000".

(** [RequestLedger::new]'s month. *)
Definition first_span `{Calendar} (wall : Z) : MonthSpan :=
  default (MkMonthSpan "1970-01" 0 0) (opt_or (containing wall) (containing 0)).

Definition scheduler_new `{Calendar} (cadence : CollectorCadence) (mode : CollectorMode) (fleet : FleetPolicy)
    (now : Instant) (clk : Clock) (jitter : nat -> f64) : VehicleScheduler :=
  let wall_ms := default 0 (wall_now_ms clk) in
  let account := account_new wall_ms in
  {| vs_mode := mode; vs_timing := timing_new cadence mode fleet; vs_jitter := jitter; vs_vehicles := [];
     vs_account := account; vs_created_at := now; vs_clock_watch := (now, wall_ms);
     vs_ledger := ledger_new mode (fp_pricing fleet) (fp_monthly_cap_cents fleet) (first_span wall_ms) now wall_ms;
     vs_pending := tick_default; vs_persisted_account := account_record_view account;
     vs_persisted_vehicles := []; vs_open_gaps := []; vs_gap_episodes := [];
     vs_config_fingerprint := NO_FINGERPRINT; vs_restored := []; vs_baseline := None;
     vs_alert_gaps_unnotified := 0; vs_stream_delivery := bool_decide (mode = Legacy);
     vs_gate_revocations := [] |}.

(** ** Small accessors *)

(** [self.jitter.draw()]: the next double of the sequence. *)
Definition draw (s : VehicleScheduler) : f64 * VehicleScheduler :=
  (vs_jitter s 0%nat, s <| vs_jitter := fun n => vs_jitter s (S n) |>).
(** [self.account] changed, and [self.vehicles.get_mut(&id)]. *)
Definition on_account (f : AccountRecord -> AccountRecord) (s : VehicleScheduler) : VehicleScheduler :=
  s <| vs_account := f (vs_account s) |>.
Definition on_vehicle (id : VehicleId) (f : ScheduledVehicle -> ScheduledVehicle) (s : VehicleScheduler)
    : VehicleScheduler :=
  s <| vs_vehicles := bupd f id (vs_vehicles s) |>.
Definition wall_or_last (s : VehicleScheduler) (clk : Clock) : Z :=
  default (vs_clock_watch s).2 (wall_now_ms clk).
Definition requests_allowed (s : VehicleScheduler) (now : Instant) : bool :=
  bool_decide (ac_state (vs_account s) = AcCollecting)
  && is_none_or (ac_wait (vs_account s)) (fun '(until, _) => now >=? until).
Definition after_wait (s : VehicleScheduler) (due : Instant) : Instant :=
  match ac_wait (vs_account s) with Some (until, _) => Z.max due until | None => due end.
(** [gate_revocations.insert] and [.extend]. *)
Definition revoke_gates (ids : list VehicleId) (s : VehicleScheduler) : VehicleScheduler :=
  s <| vs_gate_revocations := fold_left (fun m id => bset id () m) ids (vs_gate_revocations s) |>.
