(* ===== verification/SchedAccount.v ===== *)
(** * The vehicle scheduler: errors, account waits and account states

    [src/src/collection/collector/scheduler_errors.rs] and the account half of
    [scheduler_holds.rs]: the one classifier of a failed request, the account's
    waits and the account's states.  [CollectorError] is its variants that the
    scheduler looks into; the rest are one constructor. *)
From S2P Require Import Prelude RustStr F64 External Vocabulary Endpoint Ledger BTree SchedTypes SchedState.
Local Open Scope string_scope.
Local Open Scope Z_scope.

(** ** Errors *)

Inductive OwnerApiError :=
| OwInvalidEndpoint
| OwRequestTimeout
| OwTransport
| OwHttpStatus (status : Z)
| OwRateLimited (retry_after_seconds : Z)
| OwForbidden (fleet_api_named : bool)
| OwGone
| OwVehicleNotFound
| OwVehicleInService
| OwResponseTooLarge
| OwResponseRead
| OwInvalidResponseEnvelope
| OwInvalidVehicleListCount
| OwInvalidVehicleRecord
| OwInvalidVehicleDataEnvelope
| OwInvalidCommandResponse
| OwInvalidCommand
| OwCommandRejected
| OwSensitiveDataInResponse
| OwStreamPowerNotConfirmed
| OwCredentialAuthorityUnavailable
| OwLegacyAuth.

Inductive OwnerApiAuthError := AuOwner (e : OwnerApiError) | AuAuth (e : LegacyAuthManagerError) | AuNotSignedIn.

(** [FleetCredentialError]: what the scheduler tells apart. *)
Inductive FleetCredentialError := FcApi (e : FleetApiError) | FcSensitiveAccessUnavailable | FcOther.
Definition is_admission_loss (e : FleetCredentialError) : bool :=
  match e with FcSensitiveAccessUnavailable => true | _ => false end.

Inductive CollectorError :=
| CeSensitiveAccessUnavailable
| CeOwnerApi (e : OwnerApiError)
| CeOwnerApiAuth (e : OwnerApiAuthError)
| CeLegacyAuthManager (e : LegacyAuthManagerError)
| CeLegacyAuth (e : LegacyAuthError)
| CeFleetApi (e : FleetApiError)
| CeFleetCredential (e : FleetCredentialError)
| CeOther.

Definition owner_api_error (e : CollectorError) : option OwnerApiError :=
  match e with CeOwnerApi e | CeOwnerApiAuth (AuOwner e) => Some e | _ => None end.
Definition legacy_auth_error_of (e : CollectorError) : option LegacyAuthError :=
  match e with
  | CeLegacyAuth e | CeLegacyAuthManager (MAuth e) | CeOwnerApiAuth (AuAuth (MAuth e)) => Some e
  | _ => None
  end.
Definition rate_limit_retry_after_seconds (e : CollectorError) : option Z :=
  match e with
  | CeOwnerApi (OwRateLimited secs) | CeOwnerApiAuth (AuOwner (OwRateLimited secs))
  | CeFleetApi (RateLimited secs) => Some secs
  | _ => None
  end.
Definition fleet_http_status (e : FleetApiError) : option Z :=
  match e with
  | FleetHttpStatus status | ProviderHttpStatus status _ _ => Some status
  | RateLimited _ => Some 429
  | _ => None
  end.
Definition http_status_of (e : CollectorError) : option Z :=
  match e with
  | CeOwnerApi e | CeOwnerApiAuth (AuOwner e) =>
      match e with
      | OwHttpStatus status => Some status
      | OwRateLimited _ => Some 429
      | OwForbidden _ => Some 403
      | OwGone => Some 410
      | OwVehicleNotFound => Some 404
      | OwVehicleInService => Some 405
      | _ => None
      end
  | CeFleetApi e => fleet_http_status e
  | _ => None
  end.
Definition is_owner_wire_forbidden (e : CollectorError) : bool :=
  match owner_api_error e with
  | Some (OwForbidden _) => true
  | Some (OwHttpStatus status) => status =? 403
  | _ => false
  end.
Definition is_plain_owner_forbidden (e : CollectorError) : bool :=
  match owner_api_error e with
  | Some (OwForbidden named) => negb named
  | Some (OwHttpStatus status) => status =? 403
  | _ => false
  end.
Definition FLEET_REFRESH_REQUEST_NOT_SENT_RETRY : Duration := from_secs (5 * 60).
Definition fleet_refresh_retry_delay (e : FleetCredentialError) : option Duration :=
  match e with FcApi RequestNotSent => Some FLEET_REFRESH_REQUEST_NOT_SENT_RETRY | _ => None end.

(** ** Classification *)

Definition MOBILE_ACCESS_DISABLED_CODE : string := "mobile_access_disabled".
Definition VEHICLE_IN_SERVICE_CODE : string := "vehicle_in_service".

Definition owner_refusal (provider : bool) : ErrorClass :=
  if provider then ClProviderRefusal else ClOwnerApiRefusal.
Definition owner_forbidden (fleet_api_named : bool) (request : RequestKind) (provider : bool) : ErrorClass :=
  match request, fleet_api_named with
  | ListRequest, true => owner_refusal provider
  | _, false => ClClientError
  | _, true => ClAccessRefused
  end.
Definition owner_status (status : Z) (request : RequestKind) (provider : bool) : ErrorClass :=
  if status =? 401 then ClAuth
  else if (status =? 402) && provider then ClProviderRefusal
  else if status =? 403 then owner_forbidden false request provider
  else if status =? 404 then ClNotFound
  else if status =? 408 then ClUnavailable
  else if status =? 410 then owner_refusal provider
  else if status =? 429 then ClRateLimited
  else if status =? 451 then ClLegalPrivacy
  else if (500 <=? status) && (status <=? 599) then ClTransient
  else if (400 <=? status) && (status <=? 499) then ClClientError
  else ClProtocol.
Definition classify_owner (e : OwnerApiError) (request : RequestKind) (provider : bool) : ErrorClass :=
  match e with
  | OwRateLimited _ => ClRateLimited
  | OwVehicleNotFound => ClNotFound
  | OwVehicleInService => ClInService
  | OwForbidden fleet_api_named => owner_forbidden fleet_api_named request provider
  | OwGone => owner_refusal provider
  | OwRequestTimeout | OwTransport => ClUnreachable
  | OwStreamPowerNotConfirmed => ClGateNotConfirmed
  | OwCredentialAuthorityUnavailable | OwLegacyAuth => ClAuth
  | OwHttpStatus status => owner_status status request provider
  | OwResponseTooLarge | OwResponseRead | OwInvalidResponseEnvelope | OwInvalidVehicleListCount
  | OwInvalidVehicleRecord | OwInvalidVehicleDataEnvelope | OwSensitiveDataInResponse
  | OwInvalidEndpoint | OwInvalidCommandResponse | OwInvalidCommand | OwCommandRejected => ClProtocol
  end.
Definition fleet_status (status : Z) (code : option string) (request : RequestKind) : ErrorClass :=
  if (status =? 401) && bool_decide (code = Some MOBILE_ACCESS_DISABLED_CODE) then ClMobileAccessDisabled
  else if status =? 401 then ClAuth
  else if status =? 402 then ClBilling
  else if (status =? 403) && bool_decide (request = ListRequest) then ClFleetAccess
  else if status =? 403 then ClAccessRefused
  else if status =? 404 then ClNotFound
  else if (status =? 405) && bool_decide (code = Some VEHICLE_IN_SERVICE_CODE) then ClInService
  else if status =? 408 then ClUnavailable
  else if (status =? 412) || (status =? 421) then ClConfig
  else if status =? 423 then ClLocked
  else if status =? 429 then ClRateLimited
  else if status =? 451 then ClLegalPrivacy
  else if (500 <=? status) && (status <=? 599) then ClTransient
  else if (400 <=? status) && (status <=? 499) then ClClientError
  else ClProtocol.
Definition classify_fleet (e : FleetApiError) (request : RequestKind) : ErrorClass :=
  match e with
  | RateLimited _ => ClRateLimited
  | RequestTimeout | RequestNotSent | FleetTransport => ClUnreachable
  | FleetHttpStatus status => fleet_status status None request
  | ProviderHttpStatus status error _ => fleet_status status (Some error) request
  | FleetResponseTooLarge | ResponseRead | FleetInvalidResponse | InvalidEndpoint | InvalidCommand
  | CommandRejected | InvalidTelemetryConfig | TelemetryConfigTooLarge | CommandProxyUnavailable
  | InvalidChargeLimit => ClProtocol
  end.
Definition list_class (c : ErrorClass) : ErrorClass :=
  match c with
  | ClUnavailable => ClTransient
  | ClNotFound | ClInService | ClMobileAccessDisabled | ClLegalPrivacy | ClAccessRefused => ClClientError
  | other => other
  end.
Definition classify_legacy_auth (e : LegacyAuthError) (provider : bool) : ErrorClass :=
  match e with
  | AuthUnavailable _ => ClAuthWait
  | VehicleAccessRejected => ClClientError
  | OwnerApiRefused _ => owner_refusal provider
  | SensitiveAccessUnavailable | SensitiveRotationOutcomeUnknown => ClCredentialStop
  | Persistence | SensitivePersistenceUnavailable => ClAuth
  | e => if is_terminal_auth_failure e then ClCredentialStop else ClAuth
  end.

(** The [match] of [classify] on the error. *)
Definition error_class (e : CollectorError) (request : RequestKind) (provider : bool) : ErrorClass :=
  match e with
  | CeSensitiveAccessUnavailable => ClTransient
  | CeFleetCredential e => if is_admission_loss e then ClTransient else ClAuth
  | CeOwnerApiAuth AuNotSignedIn => ClCredentialStop
  | CeOwnerApiAuth (AuAuth e) | CeLegacyAuthManager e =>
      if is_sensitive_access_failure e then ClTransient
      else match e with MAuth e => classify_legacy_auth e provider | _ => ClAuth end
  | CeLegacyAuth e => classify_legacy_auth e provider
  | CeOwnerApi e | CeOwnerApiAuth (AuOwner e) => classify_owner e request provider
  | CeFleetApi e => classify_fleet e request
  | CeOther => ClTransient
  end.
Definition classify (e : CollectorError) (request : RequestKind) (mode : CollectorMode) : ErrorClass :=
  let class := error_class e request (bool_decide (mode = ProviderMode)) in
  if bool_decide (request = ListRequest) then list_class class else class.

Definition is_account_wait_class (c : ErrorClass) : bool :=
  match c with ClAuth | ClAuthWait | ClCredentialStop | ClRateLimited | ClUnreachable => true | _ => false end.
Definition is_account_state_class (c : ErrorClass) : bool :=
  match c with
  | ClOwnerApiRefusal | ClProviderRefusal | ClFleetAccess | ClBilling | ClConfig | ClLocked => true
  | _ => false
  end.

(** ** Waits *)

Definition K_429_DEFAULT : Duration := from_secs 60.

Definition wait_running (s : VehicleScheduler) (why : WaitReason) (now : Instant) : bool :=
  is_some_and (ac_wait (vs_account s)) (fun '(until, current) => bool_decide (current = why) && (now <? until)).
Definition extend_wait (until : Instant) (why : WaitReason) (s : VehicleScheduler) : VehicleScheduler :=
  match ac_wait (vs_account s) with
  | Some (current, _) => if current >=? until then s
                         else on_account (fun a => a <| ac_wait := Some (until, why) |>) s
  | None => on_account (fun a => a <| ac_wait := Some (until, why) |>) s
  end.
Definition wait_remaining (s : VehicleScheduler) (now : Instant) : Duration :=
  map_or (ac_wait (vs_account s)) 0 (fun '(until, _) => saturating_duration_since until now).

Definition rate_limited (s : VehicleScheduler) (retry_after_seconds : Z) (now : Instant)
    : Duration * VehicleScheduler :=
  let burst := wait_running s WaRateLimited now in
  let s := if burst then s
           else on_account (fun a => a <| ac_consecutive_429 := u32_sadd (ac_consecutive_429 a) 1 |>) s in
  let named := Z.min (from_secs retry_after_seconds) K_RETRY_AFTER_MAX in
  let '(delay, s) :=
    if negb (named =? 0) then (named, s)
    else if burst then (0, s)
    else
      let '(u, s) := draw s in
      (Z.max K_429_DEFAULT (backoff_delay (ac_consecutive_429 (vs_account s)) (t_max_backoff (vs_timing s)) u), s) in
  let s := extend_wait (deadline_after now delay) WaRateLimited s in
  (wait_remaining s now, s).

Definition unreachable (s : VehicleScheduler) (now : Instant) : Duration * VehicleScheduler :=
  let burst := wait_running s WaTeslaUnreachable now in
  let s :=
    if burst then s
    else
      let s := on_account (fun a => a <| ac_consecutive_unreachable :=
                                          u32_sadd (ac_consecutive_unreachable a) 1 |>) s in
      let '(u, s) := draw s in
      let delay := backoff_delay (ac_consecutive_unreachable (vs_account s)) (t_max_backoff (vs_timing s)) u in
      extend_wait (deadline_after now delay) WaTeslaUnreachable s in
  (wait_remaining s now, s).

Definition legacy_auth_retry_after (s : VehicleScheduler) (clk : Clock) (e : CollectorError) : option Duration :=
  match legacy_auth_error_of e with
  | Some (AuthUnavailable retry_at) =>
      let wall_seconds := wall_or_last s clk / 1000 in
      let seconds := clamp 1 3600 (map_or retry_at 60 (fun at_ => i64_ssub at_ wall_seconds)) in
      Some (from_secs seconds)
  | _ => None
  end.

Inductive CredentialRefusal := CrOwnerApi | CrClient.
Inductive CredentialOutcome :=
| CoAuthUnavailable (retry_after : Duration)
| CoOwnerApiRefused (kind : CredentialRefusal)
| CoVehicleAccessRejected
| CoTerminalStop.
Inductive CredentialStateSeen := SeenReady | SeenTerminalStop | SeenApiRefused (kind : CredentialRefusal).

Definition refusal_of_reason (r : RefusalReason) : CredentialRefusal :=
  match r with OwnerApi => CrOwnerApi | Client => CrClient end.
Definition credential_outcome_for (s : VehicleScheduler) (clk : Clock) (e : CollectorError)
    : option CredentialOutcome :=
  e ← legacy_auth_error_of e;
  match e with
  | AuthUnavailable _ => CoAuthUnavailable <$> legacy_auth_retry_after s clk (CeLegacyAuth e)
  | OwnerApiRefused r => Some (CoOwnerApiRefused (refusal_of_reason r))
  | VehicleAccessRejected => Some CoVehicleAccessRejected
  | e => then_some (is_terminal_auth_failure e) CoTerminalStop
  end.

(** [auth_failed]; its class and status are for the log alone. *)
Definition auth_failed (s : VehicleScheduler) (credential_retry : option Duration) (now : Instant)
    : Duration * VehicleScheduler :=
  let burst := wait_running s WaAuthWait now in
  let s :=
    if burst then s
    else
      let s := on_account (fun a => a <| ac_auth_failures := u32_sadd (ac_auth_failures a) 1 |>) s in
      let '(u, s) := draw s in
      let delay := default (backoff_delay (ac_auth_failures (vs_account s)) (t_max_backoff (vs_timing s)) u)
                     credential_retry in
      extend_wait (deadline_after now delay) WaAuthWait s in
  (wait_remaining s now, s).

Definition waits_for (s : VehicleScheduler) (why : WaitReason) : bool :=
  match ac_wait (vs_account s) with Some (_, w) => bool_decide (w = why) | None => false end.
Definition end_auth_wait (s : VehicleScheduler) (now : Instant) : VehicleScheduler :=
  if waits_for s WaAuthWait
  then on_account (fun a => a <| ac_wait := None |> <| ac_list_wanted := Some now |>) s else s.

Definition note_answered (s : VehicleScheduler) : VehicleScheduler :=
  if ac_consecutive_unreachable (vs_account s) =? 0 then s
  else
    let s := on_account (fun a => a <| ac_consecutive_unreachable := 0 |>) s in
    if waits_for s WaTeslaUnreachable then on_account (fun a => a <| ac_wait := None |>) s else s.
Definition note_success (s : VehicleScheduler) : VehicleScheduler :=
  let s := note_answered s in
  let s := on_account (fun a => a <| ac_consecutive_429 := 0 |> <| ac_auth_failures := 0 |>) s in
  if waits_for s WaAuthWait then on_account (fun a => a <| ac_wait := None |>) s else s.

(** ** Account states *)

(** The three assignments of every change of the account's state. *)
Definition set_account_state (state : AccountState) (why : string) (wall_ms : Z) (a : AccountRecord)
    : AccountRecord :=
  a <| ac_state := state |> <| ac_state_reason := why |> <| ac_state_since_ms := wall_ms |>.
Definition account_is (s : VehicleScheduler) (state : AccountState) : bool :=
  bool_decide (ac_state (vs_account s) = state).

Definition enter_credential_stop (s : VehicleScheduler) (clk : Clock) : VehicleScheduler :=
  if account_is s AcCollecting
  then on_account (set_account_state AcCredentialStop "auth_terminal" (wall_or_last s clk)) s else s.
Definition enter_fleet_refresh_stop_now (s : VehicleScheduler) (clk : Clock) : VehicleScheduler :=
  on_account (set_account_state AcCredentialStop "auth_terminal" (wall_or_last s clk)) s.
Definition enter_fleet_refresh_stop (s : VehicleScheduler) (clk : Clock) : VehicleScheduler :=
  if account_is s AcCollecting then enter_fleet_refresh_stop_now s clk else s.
Definition enter_fleet_refresh_stop_at_start (s : VehicleScheduler) (clk : Clock) : VehicleScheduler :=
  if account_is s AcCredentialStop then s else enter_fleet_refresh_stop_now s clk.
Definition clear_credential_stop (s : VehicleScheduler) (clk : Clock) (now : Instant) : VehicleScheduler :=
  if account_is s AcCredentialStop
  then on_account (fun a => (set_account_state AcCollecting "collecting" (wall_or_last s clk) a)
                              <| ac_list_wanted := Some now |>) s
  else s.

Inductive RefusalCause :=
| RefForbidden
| RefGone
| RefPaymentRequired
| RefCredentialUnitOwnerApi
| RefCredentialUnitClient.
Definition cause_of_refusal (k : CredentialRefusal) : RefusalCause :=
  match k with CrOwnerApi => RefCredentialUnitOwnerApi | CrClient => RefCredentialUnitClient end.

Definition refusal_for (s : VehicleScheduler) (cause : RefusalCause) : AccountState * string :=
  if bool_decide (vs_mode s = ProviderMode) then
    (AcProviderRefused, match cause with
                        | RefForbidden | RefCredentialUnitOwnerApi => "provider_forbidden"
                        | RefGone => "provider_gone"
                        | RefPaymentRequired => "provider_payment_required"
                        | RefCredentialUnitClient => "provider_client_refused"
                        end)
  else
    (AcOwnerApiRefused, match cause with
                        | RefForbidden | RefCredentialUnitOwnerApi | RefPaymentRequired => "owner_api_refused"
                        | RefGone => "owner_api_gone"
                        | RefCredentialUnitClient => "owner_api_client_refused"
                        end).

(** [enter_account_state]; its class and status are for the log alone. *)
Definition enter_account_state (s : VehicleScheduler) (clk : Clock) (state : AccountState) (why : string)
    (now : Instant) : VehicleScheduler :=
  let billing := bool_decide (state = AcBillingSuspended) in
  let probe := deadline_after now K_BILLING_PROBE in
  if account_is s state && bool_decide (ac_state_reason (vs_account s) = why) then
    if billing then on_account (fun a => a <| ac_next_billing_probe := Some probe |>) s else s
  else if negb (account_is s AcCollecting) then s
  else
    on_account (fun a => (set_account_state state why (wall_or_last s clk) a)
                           <| ac_next_billing_probe := then_some billing probe |>
                           <| ac_list_wanted := None |> <| ac_list_floor := None |>) s.

Definition refuse (s : VehicleScheduler) (clk : Clock) (cause : RefusalCause) (now : Instant) : VehicleScheduler :=
  let '(state, why) := refusal_for s cause in enter_account_state s clk state why now.

Definition account_state_failed (s : VehicleScheduler) (clk : Clock) (class : ErrorClass) (e : CollectorError)
    (now : Instant) : Duration * VehicleScheduler :=
  let status := http_status_of e in
  match class with
  | ClOwnerApiRefusal | ClProviderRefusal =>
      let cause := match legacy_auth_error_of e with
                   | Some (OwnerApiRefused r) => cause_of_refusal (refusal_of_reason r)
                   | _ => if bool_decide (status = Some 402) then RefPaymentRequired
                          else if bool_decide (status = Some 410) then RefGone
                          else RefForbidden
                   end in
      (CONTROL_SETTINGS_REFRESH, refuse s clk cause now)
  | ClFleetAccess =>
      (CONTROL_SETTINGS_REFRESH, enter_account_state s clk AcFleetAccessRefused "fleet_access_refused" now)
  | ClBilling => (K_BILLING_PROBE, enter_account_state s clk AcBillingSuspended "billing_suspended" now)
  | ClConfig =>
      let why := if bool_decide (status = Some 421) then "config_wrong_region"
                 else "config_partner_unregistered" in
      (CONTROL_SETTINGS_REFRESH, enter_account_state s clk AcConfigError why now)
  | ClLocked => (CONTROL_SETTINGS_REFRESH, enter_account_state s clk AcAccountLocked "account_locked" now)
  | _ => (CONTROL_SETTINGS_REFRESH, s)
  end.

Definition account_failed (s : VehicleScheduler) (clk : Clock) (class : ErrorClass) (e : CollectorError)
    (now : Instant) : option Duration * VehicleScheduler :=
  if is_account_state_class class then
    let '(delay, s) := account_state_failed s clk class e now in (Some delay, s)
  else if negb (is_account_wait_class class) then (None, s)
  else
    let '(delay, s) :=
      match class with
      | ClRateLimited => rate_limited s (default 0 (rate_limit_retry_after_seconds e)) now
      | ClUnreachable => unreachable s now
      | ClCredentialStop => (CONTROL_SETTINGS_REFRESH, enter_credential_stop s clk)
      | _ =>
          let credential_retry := match e with
                                  | CeFleetCredential e => fleet_refresh_retry_delay e
                                  | e => legacy_auth_retry_after s clk e
                                  end in
          auth_failed s credential_retry now
      end in
    (Some delay, s).

Definition list_refused_after_check (s : VehicleScheduler) (clk : Clock) (now : Instant)
    : Duration * VehicleScheduler :=
  (CONTROL_SETTINGS_REFRESH, refuse (note_answered s) clk RefForbidden now).
Definition request_refusal_check (s : VehicleScheduler) (now : Instant) : VehicleScheduler :=
  on_account (fun a => a <| ac_list_wanted := Some now |>) s.

Definition check_every_vehicle_refused (s : VehicleScheduler) (clk : Clock) (now : Instant) : VehicleScheduler :=
  if negb (is_owner_wire (vs_mode s)) || negb (account_is s AcCollecting) then s
  else
    let collected := List.filter (fun v => negb (is_inactive v)) (bvals (vs_vehicles s)) in
    if list_is_empty collected || negb (forallb (fun v => bool_decide (hold v = Paused AccessRefused)) collected)
    then s
    else refuse s clk RefForbidden now.

Definition resume_from_billing (s : VehicleScheduler) (clk : Clock) : VehicleScheduler :=
  if negb (account_is s AcBillingSuspended) then s
  else on_account (fun a => (set_account_state AcCollecting "billing_resumed" (wall_or_last s clk) a)
                              <| ac_next_billing_probe := None |> <| ac_probe_time_of_the_tick := None |>
                              <| ac_telemetry_check_due := true |>) s.
Definition note_new_month (s : VehicleScheduler) (now : Instant) : VehicleScheduler :=
  if account_is s AcBillingSuspended
  then on_account (fun a => a <| ac_next_billing_probe := Some now |>) s else s.
Definition credential_state_seen (s : VehicleScheduler) (clk : Clock) (seen : CredentialStateSeen)
    (now : Instant) : VehicleScheduler :=
  match seen with
  | SeenReady => clear_credential_stop s clk now
  | SeenTerminalStop => enter_credential_stop s clk
  | SeenApiRefused kind => refuse s clk (cause_of_refusal kind) now
  end.
