(* ===== verification/SchedOps.v ===== *)
(** * The vehicle scheduler: reads, lists, probes and owner actions

    The operations of [scheduler.rs], [scheduler_errors.rs], [scheduler_holds.rs]
    and [scheduler_sleep.rs] that change the cars, in the order they call each
    other.  [clk] is the clock reading of the call, [now] the loop's instant. *)
From S2P Require Import Prelude RustStr Vocabulary F64 Endpoint Ledger External BTree SchedTypes SchedState SchedAccount.
Local Open Scope string_scope.
Local Open Scope Z_scope.

(** ** A car's failures *)

Definition K_PAUSE_FAILURES : Z := 12.
Definition K_PAUSE_MIN_AGE : Duration := from_secs (60 * 60).

Definition pause_vehicle (s : VehicleScheduler) (clk : Clock) (id : VehicleId) (why : PauseReason)
    (class : ErrorClass) (now : Instant) : VehicleScheduler :=
  match bget id (vs_vehicles s) with
  | None => s
  | Some v =>
      let s := on_vehicle id (fun v => car_pause v why class now) s in
      if negb (is_inactive v) && bool_decide (why = AccessRefused)
      then check_every_vehicle_refused s clk now else s
  end.

(** The two thresholds of [pause_if_persistent]. *)
Definition failures_lasted (v : ScheduledVehicle) (now : Instant) : bool :=
  bool_decide (hold v = HoldNone) && (consecutive_failures v >=? K_PAUSE_FAILURES)
  && is_some_and (first_failure v) (fun first => saturating_duration_since now first >=? K_PAUSE_MIN_AGE).
Definition pause_if_persistent (s : VehicleScheduler) (clk : Clock) (id : VehicleId) (now : Instant)
    : VehicleScheduler :=
  match bget id (vs_vehicles s) with
  | None => s
  | Some v =>
      if failures_lasted v now
      then pause_vehicle s clk id PersistentFailure (default ClTransient (last_error v)) now else s
  end.

(** A Suspended car gets no timed read but the one that ends its suspension. *)
Definition unless_suspended (v : ScheduledVehicle) (due : Instant) : option Instant :=
  if bool_decide (phase v = Suspended) && negb (suspension_read v) then None else Some due.

Definition count_vehicle_failure (s : VehicleScheduler) (clk : Clock) (id : VehicleId) (class : ErrorClass)
    (now : Instant) : VehicleScheduler :=
  let '(u, s) := draw s in
  let t := vs_timing s in
  let s := on_vehicle id (fun v =>
    let v := v <| consecutive_failures := u32_sadd (consecutive_failures v) 1 |>
               <| first_failure := Some (default now (first_failure v)) |>
               <| last_error := Some class |> in
    let delay := Z.max (interval v t now) (backoff_delay (consecutive_failures v) (t_max_backoff t) u) in
    v <| next_read_due := unless_suspended v (deadline_after now delay) |>) s in
  pause_if_persistent s clk id now.

Definition schedule_offline_state_fetch (s : VehicleScheduler) (id : VehicleId) (now : Instant)
    : VehicleScheduler :=
  match bget id (vs_vehicles s) with
  | None => s
  | Some v =>
      if is_inactive v then s
      else if is_owner_wire (vs_mode s) then on_vehicle id (fun v => v <| next_check_due := Some now |>) s
      else on_account (fun a => a <| ac_list_wanted := Some now |>) s
  end.

Definition read_unavailable (s : VehicleScheduler) (id : VehicleId) (now : Instant) : VehicleScheduler :=
  match bget id (vs_vehicles s) with
  | None => s
  | Some _ =>
      let t := vs_timing s in
      let s := on_vehicle id (fun v =>
        let v := v <| unavailable_check := true |> in
        v <| next_read_due := unless_suspended v (deadline_after now (interval v t now)) |>) s in
      schedule_offline_state_fetch s id now
  end.

(** The car's part of [vehicle_not_found]. *)
Definition car_not_found (t : Timing) (now : Instant) (v : ScheduledVehicle) : ScheduledVehicle :=
  let v := v <| in_flight := false |> <| last_error := Some ClNotFound |> <| not_found_check := true |> in
  let v := if bool_decide (hold v = HoldNone)
              && negb (bool_decide (phase v = Suspended) && negb (suspension_read v))
              && is_some (next_read_due v)
           then v <| next_read_due := Some (deadline_after now (interval v t now)) |> else v in
  if is_some (next_check_due v)
  then v <| next_check_due := Some (deadline_after now (state_interval t (phase v))) |> else v.
Definition vehicle_not_found (s : VehicleScheduler) (id : VehicleId) (now : Instant) : VehicleScheduler :=
  match bget id (vs_vehicles s) with
  | None => s
  | Some _ =>
      let s := on_vehicle id (car_not_found (vs_timing s) now) s in
      on_account (fun a => a <| ac_list_wanted := Some now |>) s
  end.

Definition enter_service_mode (s : VehicleScheduler) (id : VehicleId) (now : Instant) : bool * VehicleScheduler :=
  match bget id (vs_vehicles s) with
  | None => (false, s)
  | Some v => ((car_service v now).1, on_vehicle id (fun v => (car_service v now).2) s)
  end.

Inductive FailureEffect := Counted | ServiceEntered.

(** A gated read that was sent and failed moves a car in motion to Driving. *)
Definition gated_motion (t : Timing) (gated : option GatedEvidence) (now : Instant) (wall_ms : Z)
    (v : ScheduledVehicle) : option ScheduledVehicle :=
  if bool_decide (gated = Some Motion) && bool_decide (phase v = Suspended)
  then Some (enter_phase t v Driving now wall_ms "use_evidence_stream") else None.

Definition vehicle_class_failure (s : VehicleScheduler) (clk : Clock) (id : VehicleId) (class : ErrorClass)
    (now : Instant) : FailureEffect * VehicleScheduler :=
  let wall_ms := wall_or_last s clk in
  let t := vs_timing s in
  match bget id (vs_vehicles s) with
  | None => (Counted, s)
  | Some v =>
      let gated := gated_read v in
      let s := on_vehicle id (fun v => v <| gated_read := None |> <| in_flight := false |>) s in
      if bool_decide (phase v = Updating) && bool_decide (class = ClUnavailable) then
        (Counted, on_vehicle id (fun v => v <| next_read_due := Some (deadline_after now (interval v t now)) |>) s)
      else
        let s := on_vehicle id (fun v => default v (gated_motion t gated now wall_ms v)) s in
        match class with
        | ClUnavailable => (Counted, read_unavailable s id now)
        | ClNotFound => (Counted, vehicle_not_found s id now)
        | ClInService =>
            let '(entered, s) := enter_service_mode s id now in
            (if (entered : bool) then ServiceEntered else Counted, s)
        | ClMobileAccessDisabled => (Counted, pause_vehicle s clk id MobileAccessDisabled class now)
        | ClLegalPrivacy => (Counted, pause_vehicle s clk id LegalPrivacy class now)
        | ClAccessRefused => (Counted, pause_vehicle s clk id AccessRefused class now)
        | _ => (Counted, count_vehicle_failure s clk id class now)
        end
  end.

Definition release_after_account_failure (s : VehicleScheduler) (clk : Clock) (id : VehicleId)
    (class : ErrorClass) (now : Instant) : VehicleScheduler :=
  let wall_ms := wall_or_last s clk in
  let t := vs_timing s in
  let until := fst <$> ac_wait (vs_account s) in
  on_vehicle id (fun v =>
    let v := v <| in_flight := false |> <| last_error := Some class |> in
    let gated := gated_read v in
    let v := default v (gated_motion t gated now wall_ms (v <| gated_read := None |>)) in
    if bool_decide (phase v = Suspended) && negb (suspension_read v) then v
    else
      let due := default now (next_read_due v) in
      v <| next_read_due := Some (map_or until due (fun until => Z.max due until)) |>) s.

Definition gate_not_confirmed (s : VehicleScheduler) (id : VehicleId) : VehicleScheduler :=
  on_vehicle id (fun v =>
    let v := v <| in_flight := false |> <| gated_read := None |> in
    if bool_decide (phase v = Suspended) && negb (suspension_read v) then v <| next_read_due := None |> else v) s.

Definition credential_outcome (s : VehicleScheduler) (clk : Clock) (id : option VehicleId)
    (outcome : CredentialOutcome) (now : Instant) : Duration * VehicleScheduler :=
  let release class s := match id with
                         | Some id => release_after_account_failure s clk id class now
                         | None => s
                         end in
  match outcome with
  | CoAuthUnavailable retry_after =>
      let '(delay, s) := auth_failed s (Some retry_after) now in
      (delay, release ClAuthWait s)
  | CoOwnerApiRefused kind =>
      let s := note_answered s in
      let class := owner_refusal (bool_decide (vs_mode s = ProviderMode)) in
      (CONTROL_SETTINGS_REFRESH, release class (refuse s clk (cause_of_refusal kind) now))
  | CoVehicleAccessRejected =>
      let s := note_answered s in
      (0, match id with
          | Some id => (vehicle_class_failure s clk id ClClientError now).2
          | None => s
          end)
  | CoTerminalStop => (CONTROL_SETTINGS_REFRESH, release ClCredentialStop (enter_credential_stop s clk))
  end.

Definition vehicle_failed_for_error (s : VehicleScheduler) (clk : Clock) (id : VehicleId) (e : CollectorError)
    (now : Instant) : FailureEffect * VehicleScheduler :=
  match credential_outcome_for s clk e with
  | Some outcome => (Counted, (credential_outcome s clk (Some id) outcome now).2)
  | None =>
      let class := classify e ReadRequest (vs_mode s) in
      if bool_decide (class = ClGateNotConfirmed) then (Counted, gate_not_confirmed s id)
      else
        let s := if bool_decide (class = ClUnreachable) then s else note_answered s in
        let '(failed, s) := account_failed s clk class e now in
        if is_some failed then (Counted, release_after_account_failure s clk id class now)
        else
          let s := if is_owner_wire (vs_mode s) && is_owner_wire_forbidden e
                   then request_refusal_check s now else s in
          vehicle_class_failure s clk id class now
  end.

(** ** Targeted checks *)

Definition reschedule_check (t : Timing) (now : Instant) (v : ScheduledVehicle) : ScheduledVehicle :=
  v <| next_check_due := Some (deadline_after now (state_interval t (phase v))) |>.

Definition offline_state_failed_for_error (s : VehicleScheduler) (clk : Clock) (id : VehicleId)
    (e : CollectorError) (now : Instant) : VehicleScheduler :=
  let class := classify e RecordRequest (vs_mode s) in
  let s := if bool_decide (class = ClUnreachable) || bool_decide (class = ClGateNotConfirmed) then s
           else note_answered s in
  let '(failed, s) := account_failed s clk class e now in
  if is_some failed then s
  else
    let s := if is_owner_wire (vs_mode s) && is_owner_wire_forbidden e
             then request_refusal_check s now else s in
    let t := vs_timing s in
    let s :=
      match class with
      | ClNotFound => vehicle_not_found s id now
      | ClMobileAccessDisabled => pause_vehicle s clk id MobileAccessDisabled class now
      | ClLegalPrivacy => pause_vehicle s clk id LegalPrivacy class now
      | ClAccessRefused => pause_vehicle s clk id AccessRefused class now
      | ClTransient | ClProtocol | ClClientError =>
          let s := on_vehicle id (fun v =>
            reschedule_check t now
              (v <| consecutive_failures := u32_sadd (consecutive_failures v) 1 |>
                 <| first_failure := Some (default now (first_failure v)) |>
                 <| last_error := Some class |>)) s in
          pause_if_persistent s clk id now
      | _ => on_vehicle id (fun v => reschedule_check t now (v <| last_error := Some class |>)) s
      end in
    on_vehicle id (fun v => if bool_decide (hold v = HoldNone) then v else v <| next_check_due := None |>) s.

(** ** The account list *)

Definition list_interval (s : VehicleScheduler) : Duration :=
  let intervals := map (fun v => state_interval (vs_timing s) (phase v))
                     (List.filter needs_state_check (bvals (vs_vehicles s))) in
  Z.max (match intervals with
         | [] => t_inventory (vs_timing s)
         | i :: is_ => fold_left Z.min is_ i
         end) K_LOOP_FLOOR.

Definition list_due_at (s : VehicleScheduler) : option Instant :=
  let a := vs_account s in
  if account_is s AcCredentialStop then None
  else if negb (account_is s AcCollecting) then (fun probe => after_wait s probe) <$> ac_next_billing_probe a
  else
    let routine := map_or (ac_last_discovery a) (vs_created_at s)
                     (fun last => deadline_after last (list_interval s)) in
    let due := map_or (ac_list_wanted a) routine (fun wanted => Z.min routine wanted) in
    let due := map_or (ac_list_floor a) due (fun floor => Z.max due floor) in
    Some (after_wait s due).
Definition discovery_due (s : VehicleScheduler) (now : Instant) : bool :=
  is_some_and (list_due_at s) (fun due => due <=? now).

Definition discovery_failed (s : VehicleScheduler) (now : Instant) : Duration * VehicleScheduler :=
  let s := on_account (fun a => a <| ac_discovery_failures := u32_sadd (ac_discovery_failures a) 1 |>) s in
  let '(u, s) := draw s in
  let delay := Z.max (list_interval s)
                 (backoff_delay (ac_discovery_failures (vs_account s)) (t_max_backoff (vs_timing s)) u) in
  (delay, on_account (fun a => a <| ac_list_floor := Some (deadline_after now delay) |>) s).

Definition capped_delay (s : VehicleScheduler) (delay : Duration) : Duration :=
  if account_is s AcCollecting then delay else Z.min delay CONTROL_SETTINGS_REFRESH.
Definition discovery_failed_for_error (s : VehicleScheduler) (clk : Clock) (e : CollectorError) (now : Instant)
    : Duration * VehicleScheduler :=
  match credential_outcome_for s clk e with
  | Some outcome =>
      let '(delay, s) := credential_outcome s clk None outcome now in (capped_delay s delay, s)
  | None =>
      let class := classify e ListRequest (vs_mode s) in
      let s := if bool_decide (class = ClUnreachable) then s else note_answered s in
      let '(failed, s) := account_failed s clk class e now in
      let '(delay, s) := match failed with Some delay => (delay, s) | None => discovery_failed s now end in
      (capped_delay s delay, s)
  end.

Definition note_unlisted (s : VehicleScheduler) (present : list VehicleId) (now : Instant) : VehicleScheduler :=
  let inventory := t_inventory (vs_timing s) in
  s <| vs_vehicles := bmapv (fun id v =>
         if bool_decide (id ∈ present) then v
         else match hold v with
              | HoldNone | Service | Paused _ => car_unlisted v inventory now
              | Disabled | Removed => v
              end) (vs_vehicles s) |>.

(** *** A stored row applied to a car *)

Definition probe_bound (stored_hold : string) : Duration :=
  if bool_decide (stored_hold = "service") then K_SERVICE_PROBE else K_PAUSE_PROBE.
Definition stored_wake_read (restored : RestoredVehicle) (now : Instant) (wall : Z) : option Instant :=
  ms ← vr_last_wake_read_at_ms (rs_row restored);
  past_instant_from_wall now wall ms (rs_suspend restored).
Definition apply_restored (v : ScheduledVehicle) (restored : RestoredVehicle) (now : Instant) (wall : Z)
    : ScheduledVehicle :=
  let row := rs_row restored in
  let v := v <| hub_id := Some (vr_vehicle_id row) |>
             <| last_wake_read := stored_wake_read restored now wall |> in
  if bool_decide (hold v = Disabled) then v
  else
    let why := intern_reason (vr_reason_code row) in
    let probe bound := default (deadline_after now bound)
                         ((fun ms => deadline_from_wall now wall ms bound) <$> vr_next_probe_ms row) in
    let h := vr_hold row in
    let v := if bool_decide (h ∈ ["removed"; "paused"; "service"])
             then v <| phase_since := (now, vr_phase_since_ms row) |> else v in
    if bool_decide (h = "removed") then v <| hold := Removed |> <| reason := why |>
    else if bool_decide (h = "paused") then
      let pause := pause_reason_from_code (vr_reason_code row) in
      v <| hold := Paused pause |>
        <| next_probe_due := then_some (negb (bool_decide (pause = AccessRefused))) (probe K_PAUSE_PROBE) |>
        <| reason := why |>
    else if bool_decide (h = "service") then
      v <| hold := Service |> <| next_probe_due := Some (probe K_SERVICE_PROBE) |> <| reason := why |>
    else
      match opt_filter (fun ms => ms >? wall) (vr_suspended_until_ms row) with
      | Some until_ms =>
          if bool_decide (vr_phase row = "suspended") then
            v <| phase := Suspended |>
              <| suspended_until := Some (deadline_from_wall now wall until_ms (rs_suspend restored)) |>
              <| phase_since :=
                   (default now (past_instant_from_wall now wall (vr_phase_since_ms row) (rs_suspend restored)),
                    vr_phase_since_ms row) |>
              <| reported_state := Some "online" |> <| reason := why |>
          else v
      | None => v
      end.

(** One car of the list: the record it makes, the gate it revokes and the 408 it
    leaves unexplained. *)
Definition list_car (t : Timing) (known : option ScheduledVehicle) (restored : option RestoredVehicle)
    (incoming : Vehicle) (now : Instant) (wall_ms : Z) : bool * bool * ScheduledVehicle :=
  let restore v := match restored with Some r => apply_restored v r now wall_ms | None => v end in
  let v := match known with Some v => v | None => restore (scheduled_new incoming now wall_ms) end in
  let v := if placeholder v then restore (v <| placeholder := false |>) else v in
  let v := v <| vehicle := incoming <| ve_settings := ve_settings (vehicle v) |> |> in
  let v := note_listed v now wall_ms in
  let '(revoke, v) := apply_reported_state t v (ve_state incoming) now wall_ms in
  let '(unavailable_online, v) := settle_unavailable v (ve_state incoming) in
  (revoke, unavailable_online, v).

(** The loop of [accept_discovery]: candidates, revocations and unexplained 408s
    in the order of the list. *)
Definition list_step (now : Instant) (wall_ms : Z)
    (acc : VehicleScheduler * list Vehicle * list VehicleId * list VehicleId) (incoming : Vehicle)
    : VehicleScheduler * list Vehicle * list VehicleId * list VehicleId :=
  let '(s, candidates, revoke, unavailable) := acc in
  let id := ve_id incoming in
  let '(revokes, unexplained, v) :=
    list_car (vs_timing s) (bget id (vs_vehicles s)) (bget id (vs_restored s)) incoming now wall_ms in
  (s <| vs_vehicles := bset id v (vs_vehicles s) |>,
   if is_inactive v then candidates else (candidates ++ [vehicle v])%list,
   if (revokes : bool) then (revoke ++ [id])%list else revoke,
   if (unexplained : bool) then (unavailable ++ [id])%list else unavailable).

Definition accept_discovery (s : VehicleScheduler) (clk : Clock) (vehicles : list Vehicle) (now : Instant)
    : list Vehicle * VehicleScheduler :=
  let wall_ms := wall_or_last s clk in
  let '(s, candidates, revoke, unavailable) := fold_left (list_step now wall_ms) vehicles (s, [], [], []) in
  let s := revoke_gates revoke s in
  let s := fold_left (fun s id => count_vehicle_failure s clk id ClTransient now) unavailable s in
  let s := note_unlisted s (ve_id <$> vehicles) now in
  let s := resume_from_billing (note_success s) clk in
  (candidates,
   on_account (fun a => a <| ac_last_discovery := Some now |> <| ac_list_floor := None |>
                          <| ac_list_wanted := None |> <| ac_discovery_failures := 0 |>) s).

Definition accept_vehicle_state (s : VehicleScheduler) (clk : Clock) (id : VehicleId) (state : string)
    (now : Instant) : list Vehicle * VehicleScheduler :=
  let wall_ms := wall_or_last s clk in
  match bget id (vs_vehicles s) with
  | None => ([], s)
  | Some v =>
      let v := note_listed (v <| next_check_due := None |>) now wall_ms in
      let '(revoke, v) := apply_reported_state (vs_timing s) v state now wall_ms in
      let '(unavailable_online, v) := settle_unavailable v state in
      let s := s <| vs_vehicles := bset id v (vs_vehicles s) |> in
      let s := if (revoke : bool) then revoke_gates [id] s else s in
      let s := if (unavailable_online : bool) then count_vehicle_failure s clk id ClTransient now else s in
      (if is_inactive v then [] else [vehicle v], note_success s)
  end.

(** ** The vehicle scheduler: due work, successes, streams, settings and waiting

    The rest of the operations of [scheduler.rs], [scheduler_holds.rs] and
    [scheduler_sleep.rs]: which requests are due, what a successful read, probe
    or frame does, the owner's settings and actions, and how long the loop
    sleeps. *)

(** ** Timers *)

(** One car of [advance_timers]; the flag revokes its gate. *)
Definition car_timers (t : Timing) (now : Instant) (wall_ms : Z) (v : ScheduledVehicle) : bool * ScheduledVehicle :=
  if negb (bool_decide (hold v = HoldNone)) then (false, v)
  else
    let suspend_idle v := begin_suspension t v now wall_ms (deadline_after now (es_suspend (settings v)))
                            "suspended_idle" in
    match phase v with
    | Online => if is_some_and (suspend_at v) (fun at_ => at_ <=? now) then (true, suspend_idle v) else (false, v)
    | Suspended =>
        if is_some_and (suspended_until v) (fun at_ => at_ <=? now) then
          if reported_is v "online" then
            (false, v <| suspended_until := None |> <| suspension_read := true |> <| gated_read := None |>
                      <| next_read_due := Some now |> <| reason := "suspension_ended_still_online" |>)
          else (true, suspend_idle v)
        else (false, v)
    | Updating =>
        if is_some_and (update_stale_deadline v) (fun stale => stale <=? now)
        then (false, clear_pending_reads (enter_phase t v Offline now wall_ms "update_stale"))
        else (false, v)
    | _ => (false, v)
    end.
Definition advance_timers (s : VehicleScheduler) (clk : Clock) (now : Instant) : VehicleScheduler :=
  let wall_ms := wall_or_last s clk in
  let t := vs_timing s in
  let revoke := bkeys (bretain (fun _ v => (car_timers t now wall_ms v).1) (vs_vehicles s)) in
  revoke_gates revoke (s <| vs_vehicles := bmapv (fun _ v => (car_timers t now wall_ms v).2) (vs_vehicles s) |>).

(** ** Due work *)

(** The order of [(Instant, VehicleId)]; a stable sort by it. *)
Definition due_le (a b : Instant * VehicleId) : bool :=
  (a.1 <? b.1) || ((a.1 =? b.1) && (a.2 <=? b.2)).
Fixpoint insert_due {K} (x : Instant * VehicleId * K) (l : list (Instant * VehicleId * K)) :=
  match l with
  | [] => [x]
  | y :: l' => if due_le x.1 y.1 then x :: l else y :: insert_due x l'
  end.
Definition sort_due {K} (l : list (Instant * VehicleId * K)) : list (Instant * VehicleId * K) :=
  foldr insert_due [] l.

Definition in_flight_count (s : VehicleScheduler) : nat :=
  length (List.filter in_flight (bvals (vs_vehicles s))).
Definition mark_in_flight (ids : list VehicleId) (s : VehicleScheduler) : VehicleScheduler :=
  fold_left (fun s id => on_vehicle id (fun v => v <| in_flight := true |>) s) ids s.

(** The filters of [due_vehicles]. *)
Definition read_is_due (now : Instant) (v : ScheduledVehicle) : option Instant :=
  if bool_decide (hold v = HoldNone) && negb (in_flight v)
  then opt_filter (fun due => due <=? now) (next_read_due v) else None.

(** Choose by due time and id what fits the cap, and mark it in flight. *)
Definition take_due {K} (pick : ScheduledVehicle -> option (Instant * K)) (s : VehicleScheduler)
    : list (VehicleId * K) * VehicleScheduler :=
  let capacity := (K_MAX_IN_FLIGHT - in_flight_count s)%nat in
  let due := omap (fun '(id, v) => (fun '(at_, kind) => (at_, id, kind)) <$> pick v) (vs_vehicles s) in
  let chosen := (fun '(_, id, kind) => (id, kind)) <$> take capacity (sort_due due) in
  (chosen, mark_in_flight (fst <$> chosen) s).

Definition due_vehicles (s : VehicleScheduler) (clk : Clock) (now : Instant) : list VehicleId * VehicleScheduler :=
  let s := advance_timers s clk now in
  if negb (requests_allowed s now) then ([], s)
  else
    let '(chosen, s) := take_due (fun v => (fun due => (due, ())) <$> read_is_due now v) s in
    (fst <$> chosen, s).

Definition probe_is_due (owner_wire : bool) (now : Instant) (v : ScheduledVehicle) : option (Instant * ProbeKind) :=
  if in_flight v then None
  else
    at_ ← opt_filter (fun at_ => at_ <=? now) (probe_due_at v owner_wire);
    Some (at_, if bool_decide (hold v = Service) && owner_wire then ServiceRecord else ProbeRead).
Definition due_probe_vehicles (s : VehicleScheduler) (now : Instant)
    : list (VehicleId * ProbeKind) * VehicleScheduler :=
  if negb (requests_allowed s now) then ([], s)
  else take_due (probe_is_due (is_owner_wire (vs_mode s)) now) s.

Definition due_offline_state_vehicles (s : VehicleScheduler) (now : Instant) : list VehicleId :=
  if negb (is_owner_wire (vs_mode s)) || negb (requests_allowed s now) then []
  else
    let due := omap (fun '(id, v) =>
                 if is_inactive v then None
                 else (fun at_ => (at_, id, ())) <$> opt_filter (fun due => due <=? now) (next_check_due v))
               (vs_vehicles s) in
    (fun '(_, id, _) => id) <$> take K_MAX_IN_FLIGHT (sort_due due).

Definition release_in_flight (s : VehicleScheduler) : VehicleScheduler :=
  s <| vs_vehicles := bmapv (fun _ v => v <| in_flight := false |>) (vs_vehicles s) |>.
Definition request_withheld (s : VehicleScheduler) (id : VehicleId) : VehicleScheduler :=
  on_vehicle id (fun v => v <| in_flight := false |>) s.

(** ** Successes *)

(** [vehicle_succeeded], for a known car; the flag revokes its gate. *)
Definition car_read (t : Timing) (v : ScheduledVehicle) (new : PollPhase) (sleep_eligible : bool)
    (now : Instant) (wall_ms : Z) : bool * ScheduledVehicle :=
  let previous := phase v in
  let gated := is_some (gated_read v) in
  let wake_read := wake_read_pending v in
  let v := v <| gated_read := None |> <| wake_read_pending := false |> <| suspension_read := false |>
             <| in_flight := false |> <| last_read := Some now |> <| last_success := Some (now, wall_ms) |>
             <| consecutive_failures := 0 |> <| first_failure := None |> <| last_error := None |>
             <| unavailable_check := false |> <| offline_from_session := false |> in
  let v := if sleep_eligible then v else v <| last_in_use := Some now |> in
  let '(suspend_again, v) :=
    if is_session new then
      (false, enter_phase t v new now wall_ms
                (if gated then "use_evidence_stream" else "use_evidence_snapshot"))
    else if negb sleep_eligible then
      let why := if gated then "use_evidence_stream"
                 else if bool_decide (previous = Suspended) then "use_evidence_snapshot"
                 else if wake_read then "wake_read" else "reported_online" in
      (false, (enter_phase t v new now wall_ms why) <| suspend_at := None |>)
    else if bool_decide (previous = Suspended) then (true, v)
    else
      let v := enter_phase t v new now wall_ms (if wake_read then "wake_read" else "reported_online") in
      (false,
       if wake_read then
         v <| suspend_at := Some (if connected (stream v) then now else deadline_after now K_WAKE_WATCH) |>
       else if is_none (suspend_at v) then
         v <| suspend_at := Some (deadline_after (default now (last_in_use v))
                                    (es_suspend_after_idle (settings v))) |>
       else v) in
  let v := match read_interval t (phase v) (stream_healthy_for_cadence v now) with
           | Some i => v <| next_read_due := Some (deadline_after now i) |>
           | None => v
           end in
  let suspend v := begin_suspension t v now wall_ms (deadline_after now (es_suspend (settings v)))
                     "suspended_idle" in
  if (suspend_again : bool) then (true, suspend v)
  else if bool_decide (hold v = HoldNone) && bool_decide (phase v = Online)
          && is_some_and (suspend_at v) (fun at_ => at_ <=? now)
  then (true, suspend v)
  else (false, v).

Definition vehicle_succeeded (s : VehicleScheduler) (clk : Clock) (id : VehicleId) (new : PollPhase)
    (sleep_eligible : bool) (now : Instant) : VehicleScheduler :=
  let wall_ms := wall_or_last s clk in
  let t := vs_timing s in
  let s := note_success s in
  match bget id (vs_vehicles s) with
  | None => s
  | Some v =>
      let '(revoke, v) := car_read t v new sleep_eligible now wall_ms in
      let s := s <| vs_vehicles := bset id v (vs_vehicles s) |> in
      if (revoke : bool) then revoke_gates [id] s else s
  end.

Definition release_hold (s : VehicleScheduler) (clk : Clock) (id : VehicleId) (why : string) (now : Instant)
    : bool * VehicleScheduler :=
  let wall_ms := wall_or_last s clk in
  match bget id (vs_vehicles s) with
  | None => (false, s)
  | Some v =>
      ((car_release v why now wall_ms).1, on_vehicle id (fun v => (car_release v why now wall_ms).2) s)
  end.

(** ** Probes *)

Inductive ProbeOutcome :=
| PrInService (in_service : bool)
| PrRead (phase : PollPhase) (sleep_eligible : bool)
| PrFailed (e : CollectorError).

(** The closure [rearm] of [probe_failed]. *)
Definition rearm_probe (class : ErrorClass) (now : Instant) (v : ScheduledVehicle) : ScheduledVehicle :=
  let bound := if bool_decide (hold v = Service) then K_SERVICE_PROBE else K_PAUSE_PROBE in
  let v := match hold v with
           | Paused AccessRefused => v
           | Service | Paused _ => v <| next_probe_due := Some (deadline_after now bound) |>
           | _ => v
           end in
  v <| last_error := Some class |>.

Definition probe_failed (s : VehicleScheduler) (clk : Clock) (id : VehicleId) (e : CollectorError)
    (now : Instant) : bool * VehicleScheduler :=
  let class := classify e ProbeRequest (vs_mode s) in
  let s := if bool_decide (class = ClUnreachable) then s else note_answered s in
  let '(failed, s) := account_failed s clk class e now in
  if is_some failed then (false, s)
  else
    let s := if is_owner_wire (vs_mode s) && is_owner_wire_forbidden e
             then request_refusal_check s now else s in
    let held := hold <$> bget id (vs_vehicles s) in
    let rearm s := on_vehicle id (rearm_probe class now) s in
    match class with
    | ClInService =>
        if bool_decide (held = Some Service) then (false, rearm s) else enter_service_mode s id now
    | ClMobileAccessDisabled => (false, pause_vehicle s clk id MobileAccessDisabled class now)
    | ClLegalPrivacy => (false, pause_vehicle s clk id LegalPrivacy class now)
    | ClAccessRefused => (false, pause_vehicle s clk id AccessRefused class now)
    | ClNotFound => (false, rearm (vehicle_not_found s id now))
    | _ => (false, rearm s)
    end.

Definition probe_finished (s : VehicleScheduler) (clk : Clock) (id : VehicleId) (outcome : ProbeOutcome)
    (now : Instant) : bool * VehicleScheduler :=
  let s := on_vehicle id (fun v => v <| in_flight := false |>) s in
  match outcome with
  | PrInService true =>
      let s := note_success s in
      (false, on_vehicle id (fun v => if bool_decide (hold v = Service)
                                      then v <| next_probe_due := Some (deadline_after now K_SERVICE_PROBE) |>
                                      else v) s)
  | PrInService false =>
      let '(released, s) := release_hold (note_success s) clk id "service_exited" now in
      (false, if (released : bool)
              then on_vehicle id (fun v => if reported_is v "online" then v <| next_read_due := Some now |> else v) s
              else s)
  | PrRead new sleep_eligible =>
      match hold <$> bget id (vs_vehicles s) with
      | Some Service =>
          let '(_, s) := release_hold s clk id "service_exited" now in
          (false, vehicle_succeeded s clk id new sleep_eligible now)
      | Some (Paused _) =>
          let s := note_success s in
          let wall_ms := wall_or_last s clk in
          let '(_, s) := release_hold s clk id "resumed" now in
          (false, on_vehicle id (fun v => v <| last_read := Some now |> <| last_success := Some (now, wall_ms) |>) s)
      | _ => (false, vehicle_succeeded s clk id new sleep_eligible now)
      end
  | PrFailed e => probe_failed s clk id e now
  end.
