(* ===== verification/SchedLoop.v ===== *)
(** * The vehicle scheduler: streams, lifecycle facts, settings, owner actions, waiting

    The operations the supervised loop calls between requests, of
    [scheduler.rs], [scheduler_sleep.rs], [scheduler_holds.rs] and
    [scheduler_state.rs]. *)
From S2P Require Import Prelude RustStr F64 External Vocabulary Endpoint Ledger BTree SchedTypes SchedState SchedAccount SchedOps.
Local Open Scope string_scope.
Local Open Scope Z_scope.

(** ** Stream evidence *)

Definition apply_frame_evidence (s : VehicleScheduler) (clk : Clock) (id : VehicleId) (e : FrameEvidence)
    (source : EvidenceSource) (now : Instant) : VehicleScheduler :=
  let wall_ms := wall_or_last s clk in
  on_vehicle id (fun v => car_evidence (vs_timing s) v e source now wall_ms) s.
Definition schedule_stream_evidence (s : VehicleScheduler) (clk : Clock) (id : VehicleId)
    (shift_state : option string) (speed : option f64) (power : option Z) (now : Instant) : VehicleScheduler :=
  apply_frame_evidence s clk id (from_stream shift_state speed power) FromStream now.
Definition telemetry_evidence (s : VehicleScheduler) (clk : Clock) (id : VehicleId)
    (gear charging_state : option string) (now : Instant) : VehicleScheduler :=
  apply_frame_evidence s clk id (from_telemetry gear charging_state) FromTelemetry now.

Definition requires_live_stream_power_gate (s : VehicleScheduler) (id : VehicleId) : bool :=
  is_some_and (bget id (vs_vehicles s)) (fun v => is_some (gated_read v) && bool_decide (phase v = Suspended)).
Definition revoke_gate (s : VehicleScheduler) (id : VehicleId) : VehicleScheduler :=
  if bhas id (vs_vehicles s) then revoke_gates [id] s else s.
Definition take_gate_revocations (s : VehicleScheduler) : list VehicleId * VehicleScheduler :=
  (bkeys (vs_gate_revocations s), s <| vs_gate_revocations := [] |>).

(** ** Stream health and runs *)

Record StreamRecoveryStatus := MkRecoveryStatus { sr_failures : Z; sr_outage_duration : Duration }.
Inductive StreamRecovery := RecoveryUnchanged | Recovered (status : StreamRecoveryStatus).
Record StreamOutageStatus := MkOutageStatus {
  so_consecutive_failures : Z;
  so_outage_duration : Duration;
  so_owner_api_fallback_scheduled : bool;
  so_owner_api_fallback_after : option Duration;
  so_suspended : bool;
  so_live_power_gate : bool;
  so_phase : PollPhase;
}.
Inductive StreamOutage := OutageIgnored | OutageActive (status : StreamOutageStatus).

Definition on_stream (f : StreamView -> StreamView) (v : ScheduledVehicle) : ScheduledVehicle :=
  v <| stream := f (stream v) |>.

Definition car_stream_healthy (now : Instant) (v : ScheduledVehicle) : StreamRecovery * ScheduledVehicle :=
  let audit_cleared := audit_failed (stream v) in
  let v := on_stream (fun x => x <| connected := true |> <| last_frame := Some now |>
                                 <| task_failures := 0 |> <| audit_failed := false |>) v in
  if negb (outage_reported (stream v)) then
    (RecoveryUnchanged, if audit_cleared then v <| reason := "stream_recovered" |> else v)
  else
    let status := MkRecoveryStatus (outage_failures (stream v))
                    (map_or (outage_started (stream v)) 0 (fun started => saturating_duration_since now started)) in
    (Recovered status,
     (on_stream (fun x => x <| outage_reported := false |> <| outage_started := None |>
                            <| outage_failures := 0 |>) v) <| reason := "stream_recovered" |>).
Definition stream_healthy (s : VehicleScheduler) (id : VehicleId) (now : Instant)
    : StreamRecovery * VehicleScheduler :=
  match bget id (vs_vehicles s) with
  | None => (RecoveryUnchanged, s)
  | Some v => ((car_stream_healthy now v).1, on_vehicle id (fun v => (car_stream_healthy now v).2) s)
  end.

Definition car_stream_unhealthy (t : Timing) (now : Instant) (v : ScheduledVehicle)
    : StreamOutage * ScheduledVehicle :=
  let v := on_stream (fun x => x <| connected := false |>
                                 <| outage_failures := u32_sadd (outage_failures x) 1 |>) v in
  if outage_reported (stream v) then (OutageIgnored, v)
  else
    let v := (on_stream (fun x => x <| outage_reported := true |> <| outage_started := Some now |>) v)
               <| reason := "stream_outage" |> in
    let fallback := bool_decide (phase v = Driving) && bool_decide (hold v = HoldNone) in
    let v := match next_read_due v with
             | Some due =>
                 if fallback then
                   let fallback_due := map_or (last_read v) now
                                         (fun last => Z.max now (deadline_after last (t_driving t))) in
                   v <| next_read_due := Some (Z.min due fallback_due) |>
                 else v
             | None => v
             end in
    (OutageActive {| so_consecutive_failures := outage_failures (stream v); so_outage_duration := 0;
                     so_owner_api_fallback_scheduled := fallback;
                     so_owner_api_fallback_after := then_some fallback (t_driving t);
                     so_suspended := bool_decide (phase v = Suspended);
                     so_live_power_gate := is_some (gated_read v) && bool_decide (phase v = Suspended);
                     so_phase := phase v |}, v).
Definition stream_unhealthy (s : VehicleScheduler) (id : VehicleId) (now : Instant)
    : StreamOutage * VehicleScheduler :=
  match bget id (vs_vehicles s) with
  | None => (OutageIgnored, s)
  | Some v => ((car_stream_unhealthy (vs_timing s) now v).1,
               on_vehicle id (fun v => (car_stream_unhealthy (vs_timing s) now v).2) s)
  end.

Definition has_due_stream_fallback (s : VehicleScheduler) (now : Instant) : bool :=
  existsb (fun v =>
    bool_decide (hold v = HoldNone) && bool_decide (phase v = Driving) && negb (in_flight v)
    && (outage_reported (stream v) || (connected (stream v) && negb (stream_healthy_for_cadence v now)))
    && is_some_and (next_read_due v) (fun due => due <=? now)) (bvals (vs_vehicles s)).

Definition should_persist_stream_telemetry (s : VehicleScheduler) (id : VehicleId) (now : Instant)
    : bool * VehicleScheduler :=
  match bget id (vs_vehicles s) with
  | None => (false, s)
  | Some v => (negb (is_inactive v),
               on_vehicle id (on_stream (fun x => x <| connected := true |> <| last_frame := Some now |>)) s)
  end.
Definition should_persist_stopping_stream_telemetry (s : VehicleScheduler) (id : VehicleId) : bool :=
  is_some_and (bget id (vs_vehicles s)) (fun v => negb (is_inactive v)).

Definition set_stream_delivery (s : VehicleScheduler) (delivers : bool) : VehicleScheduler :=
  s <| vs_stream_delivery := delivers |>.
Definition restart_waiting (v : ScheduledVehicle) (now : Instant) : bool :=
  is_some_and (restart_not_before (stream v)) (fun restart => now <? restart).
Definition car_wants_stream (s : VehicleScheduler) (clk : Clock) (v : ScheduledVehicle) : bool :=
  vs_stream_delivery s && es_use_streaming_api (settings v) && account_is s AcCollecting
  && negb (restart_waiting v (mono_now clk))
  && match hold v with
     | HoldNone => match phase v with
                   | Online | Suspended | Driving | Charging | Updating => true
                   | _ => false
                   end
     | Paused _ | Service => reported_is v "online"
     | Disabled | Removed => false
     end.
Definition should_start_stream (s : VehicleScheduler) (clk : Clock) (id : VehicleId) : bool :=
  is_some_and (bget id (vs_vehicles s)) (car_wants_stream s clk).

(** The rule reads the account and the car alone, so the cars of the loop of
    [streams_to_stop] do not affect each other. *)
Definition streams_to_stop (s : VehicleScheduler) (clk : Clock) : list VehicleId * VehicleScheduler :=
  let stop := bkeys (bretain (fun _ v => stream_wanted v && negb (car_wants_stream s clk v)) (vs_vehicles s)) in
  let step v :=
    let wanted := car_wants_stream s clk v in
    let v := v <| stream_wanted := wanted |> in
    if wanted then v
    else
      let v := on_stream (fun x => x <| connected := false |>) v in
      if restart_waiting v (mono_now clk) then v
      else on_stream (fun x => x <| outage_reported := false |> <| outage_started := None |>
                                 <| outage_failures := 0 |>) v in
  (stop, s <| vs_vehicles := bmapv (fun _ v => step v) (vs_vehicles s) |>).

Definition K_STREAM_RESTART_BASE : Duration := from_secs 30.
Definition K_STREAM_RESTART_MAX : Duration := from_secs 300.
Definition K_STREAM_EVENT_CAPACITY : Z := 40.
Definition stream_task_ended (s : VehicleScheduler) (id : VehicleId) (now : Instant) : VehicleScheduler :=
  on_vehicle id (fun v =>
    let v := on_stream (fun x => x <| connected := false |> <| task_failures := u32_sadd (task_failures x) 1 |>) v in
    let exponent := Z.min (u32_ssub (task_failures (stream v)) 1) 4 in
    let delay := Z.min (duration_smul K_STREAM_RESTART_BASE (2 ^ exponent)) K_STREAM_RESTART_MAX in
    (on_stream (fun x => x <| restart_not_before := Some (deadline_after now delay) |>) v)
      <| reason := "stream_restart_delayed" |>) s.
Definition stream_audit_failed (s : VehicleScheduler) (id : VehicleId) : bool * VehicleScheduler :=
  match bget id (vs_vehicles s) with
  | None => (false, s)
  | Some v => (negb (audit_failed (stream v)), on_vehicle id (on_stream (fun x => x <| audit_failed := true |>)) s)
  end.
Definition stream_audit_failed_count (s : VehicleScheduler) : nat :=
  length (List.filter (fun v => negb (is_inactive v) && audit_failed (stream v)) (bvals (vs_vehicles s))).
Definition silent_drive_streams (s : VehicleScheduler) (now : Instant) : list VehicleId :=
  bkeys (bretain (fun _ v =>
    negb (is_inactive v) && bool_decide (phase v = Driving) && connected (stream v)
    && negb (outage_reported (stream v))
    && is_some_and (last_frame (stream v)) (fun frame =>
         saturating_duration_since now frame >=? K_DRIVE_FRAME_SILENCE)) (vs_vehicles s)).

(** ** Lifecycle facts *)

Definition lifecycle_changed (s : VehicleScheduler) (id : VehicleId) : VehicleScheduler :=
  on_vehicle id (fun v => v <| lifecycle_stale := true |>) s.
Definition set_lifecycle_view (s : VehicleScheduler) (id : VehicleId) (view : LifecycleView)
    (obs_ms : option Z) : VehicleScheduler :=
  on_vehicle id (fun v => v <| lifecycle := Some view |> <| lifecycle_stale := false |>
                            <| last_stored_obs_ms := obs_ms |>) s.
Record CollectorLifecycleSnapshot := MkLifecycleSnapshot {
  ls_last_reach : option string;
  ls_drive_open : bool;
  ls_current_discovery_state : option string;
  ls_last_stored_obs_ms : option Z;
}.
Definition set_lifecycle_snapshot (s : VehicleScheduler) (id : VehicleId) (x : CollectorLifecycleSnapshot)
    : VehicleScheduler :=
  let s := set_lifecycle_view s id (MkLifecycleView (ls_last_reach x) (ls_drive_open x)) (ls_last_stored_obs_ms x) in
  on_vehicle id (fun v => v <| current_discovery := Some (ls_current_discovery_state x) |>) s.
Definition cached_discovery_view (s : VehicleScheduler) (id : VehicleId) : option (option string * option string) :=
  v ← bget id (vs_vehicles s);
  if lifecycle_stale v then None
  else view ← lifecycle v; current ← current_discovery v; Some (lv_last_reach view, current).
Definition note_observation_stored (s : VehicleScheduler) (id : VehicleId) (received_at_ms : Z) : VehicleScheduler :=
  on_vehicle id (fun v =>
    v <| last_stored_obs_ms := Some (map_or (last_stored_obs_ms v) received_at_ms
                                       (fun stored => Z.max stored received_at_ms)) |>
      <| force_closed_at_gap := false |> <| lifecycle_stale := true |>) s.
Definition note_force_closed (s : VehicleScheduler) (id : VehicleId) : VehicleScheduler :=
  on_vehicle id (fun v => v <| force_closed_at_gap := true |> <| lifecycle_stale := true |>) s.
Definition set_alert_gap_count (s : VehicleScheduler) (unnotified : Z) : VehicleScheduler :=
  s <| vs_alert_gaps_unnotified := unnotified |>.

Definition timeout_ms (t : Timing) : Z := bound_millis (t_offline_drive_timeout t).
Definition no_data_deadline_ms (s : VehicleScheduler) (v : ScheduledVehicle) : option Z :=
  if force_closed_at_gap v || negb (is_some_and (lifecycle v) lv_drive_open) then None
  else (fun stored => i64_sadd stored (timeout_ms (vs_timing s))) <$> last_stored_obs_ms v.
Definition due_lifecycle_events (s : VehicleScheduler) (wall_ms : Z) : list VehicleId :=
  bkeys (bretain (fun _ v => is_some_and (no_data_deadline_ms s v) (fun due => wall_ms >? due)) (vs_vehicles s)).
Definition lifecycle_views_for_no_data (s : VehicleScheduler) (wall_ms : Z) : list VehicleId :=
  bkeys (bretain (fun _ v =>
    is_some (hub_id v)
    && match lifecycle v with
       | None => true
       | Some _ => lifecycle_stale v && negb (force_closed_at_gap v)
                   && is_some_and (last_stored_obs_ms v) (fun stored =>
                        wall_ms >? i64_sadd stored (timeout_ms (vs_timing s)))
       end) (vs_vehicles s)).

(** ** The owner's settings and actions *)

(** One configured car's settings; whether its stream disconnects and whether a
    list is wanted. *)
Definition car_apply_settings (t : Timing) (hub : Z) (st : ProjectionCarSettings) (now : Instant) (wall_ms : Z)
    (v : ScheduledVehicle) : bool * bool * ScheduledVehicle :=
  let v := v <| hub_id := Some hub |> in
  let old := ve_settings (vehicle v) in
  if bool_decide (old = st) then (false, false, v)
  else
    let v := v <| vehicle := (vehicle v) <| ve_settings := st |> |> <| settings := from_car st |> in
    let '(disconnect, wanted, v) :=
      if cs_enabled old && negb (cs_enabled st) then
        (true, false,
         v <| hold := Disabled |> <| next_read_due := None |> <| next_check_due := None |>
           <| next_probe_due := None |> <| suspend_at := None |> <| suspended_until := None |>
           <| reason := "vehicle_disabled" |>)
      else if negb (cs_enabled old) && cs_enabled st && bool_decide (hold v = Disabled) then
        (false, true,
         enter_phase t (v <| hold := HoldNone |> <| next_read_due := None |>) Unknown now wall_ms "vehicle_enabled")
      else (false, false, v) in
    let disconnect := disconnect || (cs_use_streaming_api old && negb (cs_use_streaming_api st)) in
    let v := match last_in_use v with
             | Some anchor =>
                 if negb (cs_suspend_after_idle_min old =? cs_suspend_after_idle_min st) && is_some (suspend_at v)
                 then v <| suspend_at := Some (deadline_after anchor (es_suspend_after_idle (settings v))) |> else v
             | None => v
             end in
    let v := if negb (cs_suspend_min old =? cs_suspend_min st) && bool_decide (phase v = Suspended)
             then v <| suspended_until :=
                         Some (Z.max (deadline_after (phase_since v).1 (es_suspend (settings v))) now) |>
             else v in
    (disconnect, wanted, v).

Definition control_targets (configured : list (Z * Z * ProjectionCarSettings))
    : bmap VehicleId (Z * ProjectionCarSettings) :=
  fold_left (fun m '(hub, tesla_id, st) =>
    match vehicle_id_try_from_i64 tesla_id with Some id => bset id (hub, st) m | None => m end) configured [].

(** The record of a configured car no list has named. *)
Definition add_configured (now : Instant) (wall_ms : Z) (s : VehicleScheduler)
    (target : VehicleId * (Z * ProjectionCarSettings)) : VehicleScheduler :=
  let '(id, (hub, st)) := target in
  if bhas id (vs_vehicles s) then s
  else match configured_only id hub st now wall_ms with
       | None => s
       | Some v =>
           let v := match bget id (vs_restored s) with
                    | Some r => if bool_decide (vr_hold (rs_row r) ∈ ["removed"; "paused"; "service"])
                                then apply_restored v r now wall_ms else v
                    | None => v
                    end in
           s <| vs_vehicles := bset id v (vs_vehicles s) |>
       end.

Definition apply_control_settings (s : VehicleScheduler) (clk : Clock)
    (configured : list (Z * Z * ProjectionCarSettings)) (now : Instant) : list VehicleId * VehicleScheduler :=
  let wall_ms := wall_or_last s clk in
  let targets := control_targets configured in
  let s := fold_left (add_configured now wall_ms) targets s in
  let dropped := List.filter (fun id => negb (bhas id targets)) (bkeys (vs_vehicles s)) in
  let s := s <| vs_vehicles := bretain (fun id _ => bhas id targets) (vs_vehicles s) |> in
  let apply id v := match bget id targets with
                    | Some (hub, st) => car_apply_settings (vs_timing s) hub st now wall_ms v
                    | None => (false, false, v)
                    end in
  let disconnect := bkeys (bretain (fun id v => (apply id v).1.1) (vs_vehicles s)) in
  let wanted := existsb (fun '(id, v) => (apply id v).1.2) (vs_vehicles s) in
  let s := s <| vs_vehicles := bmapv (fun id v => (apply id v).2) (vs_vehicles s) |> in
  ((dropped ++ disconnect)%list,
   if wanted then on_account (fun a => a <| ac_list_wanted := Some now |>) s else s).

Inductive OwnerActionKind := RetryCollection | ResumeVehicle.
Record OwnerActionRow := MkOwnerAction { oa_id : Z; oa_kind : OwnerActionKind; oa_vehicle : option Z }.
(** [OwnerActionRow::from_record] of the row's id, action text and car. *)
Definition action_from_record (action_id : Z) (action : string) (vehicle_id : option Z) : option OwnerActionRow :=
  (fun kind => MkOwnerAction action_id kind vehicle_id)
    <$> text_match [("retry_collection", Some RetryCollection); ("resume_vehicle", Some ResumeVehicle)] None action.

Definition owner_retry (s : VehicleScheduler) (clk : Clock) (now : Instant) : VehicleScheduler :=
  let wall_ms := wall_or_last s clk in
  let fleet_stop := account_is s AcCredentialStop && bool_decide (vs_mode s = FleetPolling) in
  let s := if fleet_stop || negb (account_is s AcCollecting || account_is s AcCredentialStop)
           then on_account (fun a => (set_account_state AcCollecting "owner_retry" wall_ms a)
                                       <| ac_next_billing_probe := None |>) s
           else s in
  let s := on_account (fun a => a <| ac_wait := None |> <| ac_list_wanted := Some now |> <| ac_list_floor := None |>) s in
  let paused := bkeys (bretain (fun _ v => is_paused (hold v)) (vs_vehicles s)) in
  let s := fold_left (fun s id => (release_hold s clk id "owner_retry" now).2) paused s in
  s <| vs_restored := bretain (fun _ r => negb (bool_decide (vr_hold (rs_row r) = "paused"))) (vs_restored s) |>.

Definition owner_resume (s : VehicleScheduler) (clk : Clock) (hub : option Z) (now : Instant) : VehicleScheduler :=
  match hub with
  | None => s
  | Some hub =>
      match find_first (fun '(_, v) => bool_decide (hub_id v = Some hub)) (vs_vehicles s) with
      | Some (id, v) => if is_paused (hold v) then (release_hold s clk id "owner_resume" now).2 else s
      | None =>
          s <| vs_restored := bretain (fun _ r => negb ((vr_vehicle_id (rs_row r) =? hub)
                                                        && bool_decide (vr_hold (rs_row r) = "paused")))
                                (vs_restored s) |>
      end
  end.

Definition apply_owner_action (clk : Clock) (now : Instant) (acc : list Z * VehicleScheduler)
    (action : OwnerActionRow) : list Z * VehicleScheduler :=
  let '(applied, s) := acc in
  if bool_decide (oa_id action ∈ pt_applied_actions (vs_pending s)) then acc
  else
    let s := match oa_kind action with
             | RetryCollection => owner_retry s clk now
             | ResumeVehicle => owner_resume s clk (oa_vehicle action) now
             end in
    let s := s <| vs_pending := (vs_pending s) <| pt_applied_actions :=
                    (pt_applied_actions (vs_pending s) ++ [oa_id action])%list |> |> in
    ((applied ++ [oa_id action])%list, s).
Definition apply_owner_actions (s : VehicleScheduler) (clk : Clock) (actions : list OwnerActionRow)
    (now : Instant) : list Z * VehicleScheduler :=
  fold_left (apply_owner_action clk now) actions ([], s).

(** ** Waiting *)

(** The due instants of one car's requests. *)
Definition request_dues (s : VehicleScheduler) (v : ScheduledVehicle) : list (option Instant) :=
  [if bool_decide (hold v = HoldNone) && negb (in_flight v) then after_wait s <$> next_read_due v else None;
   if negb (is_inactive v) then after_wait s <$> next_check_due v else None;
   after_wait s <$> probe_due_at v (is_owner_wire (vs_mode s))].
(** The due instants of one car's timers and deadlines. *)
Definition timer_dues (s : VehicleScheduler) (clk : Clock) (now : Instant) (v : ScheduledVehicle)
    : list (option Instant) :=
  (if negb (is_inactive v) then
     (if bool_decide (hold v = HoldNone) then [suspend_at v; suspended_until v] else [])
     ++ [opt_filter (fun restart => restart >? now) (restart_not_before (stream v));
         silence_deadline v; update_stale_deadline v]
   else [])
  ++ [(fun deadline_ms =>
         deadline_after now (from_millis (Z.max 0 (i64_sadd (i64_ssub deadline_ms (wall_or_last s clk)) 1))))
        <$> no_data_deadline_ms s v].

Definition all_dues (s : VehicleScheduler) (clk : Clock) (now : Instant) : list (option Instant) :=
  (if account_is s AcCollecting then concat (map (request_dues s) (bvals (vs_vehicles s))) else [])
  ++ concat (map (timer_dues s clk now) (bvals (vs_vehicles s)))
  ++ [list_due_at s; opt_filter (fun until => until >? now) (fst <$> ac_wait (vs_account s))].

Definition delay_until_next_action (s : VehicleScheduler) (clk : Clock) (now : Instant) : Duration :=
  Z.min (map_or (earliest_of (all_dues s clk now)) K_MAX_IDLE_WAIT
           (fun due => saturating_duration_since due now)) K_MAX_IDLE_WAIT.
Definition next_wait (s : VehicleScheduler) (clk : Clock) (now : Instant)
    (has_active_streams previous_iteration_idle : bool) : Duration :=
  let wait := Z.min (delay_until_next_action s clk now) (collection_sleep_cap has_active_streams) in
  if previous_iteration_idle then Z.max wait K_LOOP_FLOOR else wait.
