(* ===== verification/SchedTick.v ===== *)
(** * The vehicle scheduler: ticks, gaps, admission and the restart load

    [src/src/collection/collector/scheduler_state.rs] with the scheduler's half
    of [scheduler_counters.rs] and the clock watch of [scheduler.rs].  The store
    is not part of it: [take_tick] hands over what changed and the commit's
    outcome comes back. *)
From S2P Require Import Prelude RustStr F64 External Vocabulary Endpoint Ledger BTree SchedTypes SchedState SchedAccount SchedOps SchedLoop.
Local Open Scope string_scope.
Local Open Scope Z_scope.

Definition any_car_awake (s : VehicleScheduler) (only : option VehicleId) : bool :=
  existsb (fun '(id, v) =>
    is_none_or only (fun wanted => wanted =? id) && negb (is_inactive v)
    && match phase v with
       | Online | Driving | Charging | Updating => true
       | Suspended => reported_is v "online"
       | Unknown | Asleep | Offline => false
       end) (vs_vehicles s).

(** ** The tick *)

Definition account_view (s : VehicleScheduler) : AccountView :=
  if account_is s AcCredentialStop then vs_persisted_account s
  else
    let a := vs_account s in
    {| av_state := ac_state a; av_reason := ac_state_reason a; av_since_ms := ac_state_since_ms a;
       av_rate_limited_until :=
         fst <$> opt_filter (fun '(_, why) => bool_decide (why = WaRateLimited)) (ac_wait a);
       av_next_probe := ac_next_billing_probe a |}.

Definition vehicle_view (v : ScheduledVehicle) : VehicleView :=
  {| vv_phase := phase v; vv_hold := hold v; vv_reason := shown_reason v;
     vv_phase_since_ms := (phase_since v).2;
     vv_suspended_until := if bool_decide (phase v = Suspended) then suspended_until v else None;
     vv_next_probe := match hold v with Service | Paused _ => next_probe_due v | _ => None end;
     vv_last_wake_read := last_wake_read v |}.

Definition account_write (s : VehicleScheduler) (now : Instant) (wall : Z) : option AccountWrite :=
  let view := account_view s in
  then_some (negb (bool_decide (view = vs_persisted_account s)))
    (MkAccountWrite view
       {| ar_mode := mode_code (vs_mode s); ar_config_fingerprint := vs_config_fingerprint s;
          ar_state := account_code (av_state view); ar_reason_code := av_reason view;
          ar_since_ms := Z.max (av_since_ms view) 0;
          ar_rate_limited_until_ms := wall_of_instant now wall <$> av_rate_limited_until view;
          ar_next_probe_ms := wall_of_instant now wall <$> av_next_probe view |}).

(** The row of one car, when its view differs from the store's. *)
Definition vehicle_write (s : VehicleScheduler) (now : Instant) (wall : Z) (id : VehicleId)
    (v : ScheduledVehicle) : option VehicleWrite :=
  hub ← hub_id v;
  let persisted := bget id (vs_persisted_vehicles s) in
  if placeholder v && is_none_or persisted (fun p => bool_decide (vv_hold p = hold v)) then None
  else
    let view := vehicle_view v in
    let changed := match persisted with
                   | Some p => negb (bool_decide (p = view))
                   | None => negb (is_initial view)
                   end in
    then_some changed
      (MkVehicleWrite id view
         {| vr_vehicle_id := hub; vr_phase := phase_code (vv_phase view); vr_hold := hold_code (vv_hold view);
            vr_reason_code := vv_reason view; vr_phase_since_ms := Z.max (vv_phase_since_ms view) 0;
            vr_suspended_until_ms := wall_of_instant now wall <$> vv_suspended_until view;
            vr_next_probe_ms := wall_of_instant now wall <$> vv_next_probe view;
            vr_last_wake_read_at_ms := wall_of_instant now wall <$> vv_last_wake_read view |}).

(** ** Gaps *)

(** The account waits that may be an episode. *)
Definition wait_kinds (s : VehicleScheduler) : list (GapKind * bool) :=
  [(GapRateLimited, ac_consecutive_429 (vs_account s) >? 0);
   (GapTeslaUnreachable, ac_consecutive_unreachable (vs_account s) >? 0)].

(** [gap_episodes] after the loop over the waits: an ended episode is dropped and
    a new one begins now. *)
Definition episodes_now (s : VehicleScheduler) (now : Instant) (wall : Z) : bmap GapKind (Instant * Z) :=
  fold_left (fun episodes '(kind, active) =>
    if negb active then bdel kind episodes
    else match bget kind episodes with
         | Some _ => episodes
         | None => bset kind (now, wall) episodes
         end) (wait_kinds s) (vs_gap_episodes s).

(** The gaps that should be open now, in the order [derive_gaps] inserts them. *)
Definition wanted_state_gaps (s : VehicleScheduler) (wall : Z) : list (GapKey * Z) :=
  let stop := account_is s AcCredentialStop in
  (match of_account_state (ac_state (vs_account s)) with
   | Some kind => [(MkGapKey kind None, if stop then ac_state_since_ms (vs_account s) else wall)]
   | None => []
   end)
  ++ match of_account_state (av_state (vs_persisted_account s)) with
     | Some kind => if stop then [(MkGapKey kind None, wall)] else []
     | None => []
     end.
Definition wanted_pause_gaps (s : VehicleScheduler) (wall : Z) : list (GapKey * Z) :=
  omap (fun '(id, v) => then_some (is_paused (hold v) && is_some (hub_id v))
                          (MkGapKey GapVehiclePaused (Some id), wall)) (vs_vehicles s).
Definition wanted_wait_gaps (s : VehicleScheduler) (now : Instant) (wall : Z) : list (GapKey * Z) :=
  omap (fun '(kind, active) =>
    if negb active then None
    else
      let '(began, began_ms) := default (now, wall) (bget kind (vs_gap_episodes s)) in
      then_some (saturating_duration_since now began >=? K_GAP_MIN) (MkGapKey kind None, began_ms))
    (wait_kinds s).
Definition wanted_gaps (s : VehicleScheduler) (now : Instant) (wall : Z) : bmap GapKey Z :=
  fold_left (fun m '(k, ms) => bset k ms m)
    (wanted_state_gaps s wall ++ wanted_pause_gaps s wall ++ wanted_wait_gaps s now wall) [].

Definition derive_gaps (s : VehicleScheduler) (tick : PendingTick) (now : Instant) (wall : Z)
    : PendingTick * VehicleScheduler :=
  let wanted := wanted_gaps s now wall in
  let opens := omap (fun '(k, started_ms) =>
                 if bhas k (vs_open_gaps s) then None
                 else Some (MkGapOpen k (id ← gk_vehicle k; v ← bget id (vs_vehicles s); hub_id v) started_ms
                              (any_car_awake s (gk_vehicle k)))) wanted in
  let closes := omap (fun '(k, open) =>
                  if bhas k wanted then None
                  else Some (MkGapClose k (og_hub_id open) wall (timeout_ms (vs_timing s)))) (vs_open_gaps s) in
  (tick <| pt_gap_opens := (pt_gap_opens tick ++ opens)%list |>
        <| pt_gap_closes := (pt_gap_closes tick ++ closes)%list |>,
   s <| vs_gap_episodes := episodes_now s now wall |>).

Definition take_tick (s : VehicleScheduler) (clk : Clock) : PendingTick * VehicleScheduler :=
  let tick := vs_pending s in
  let s := s <| vs_pending := tick_default |> in
  let now := mono_now clk in
  let wall := wall_or_last s clk in
  let tick := match account_write s now wall with
              | Some w => tick <| pt_account := Some w |>
              | None => tick
              end in
  let writes := omap (fun '(id, v) => vehicle_write s now wall id v) (vs_vehicles s) in
  let tick := tick <| pt_vehicles := (pt_vehicles tick ++ writes)%list |> in
  derive_gaps s tick now wall.

(** ** The commit protocol *)

Definition vehicle_baseline (v : ScheduledVehicle) : VehicleBaseline :=
  {| vb_state := ve_state (vehicle v); vb_phase := phase v; vb_phase_since := phase_since v;
     vb_hold := hold v; vb_reason := reason v; vb_reported_state := reported_state v;
     vb_next_read_due := next_read_due v; vb_next_check_due := next_check_due v;
     vb_next_probe_due := next_probe_due v; vb_suspend_at := suspend_at v;
     vb_suspended_until := suspended_until v; vb_last_in_use := last_in_use v;
     vb_last_success := last_success v; vb_offline_from_session := offline_from_session v;
     vb_consecutive_failures := consecutive_failures v; vb_first_failure := first_failure v;
     vb_last_error := last_error v; vb_missing_lists := missing_lists v; vb_missing_last := missing_last v;
     vb_not_found_check := not_found_check v; vb_placeholder := placeholder v |}.
Definition account_baseline (a : AccountRecord) : AccountBaseline :=
  {| ab_state := ac_state a; ab_state_reason := ac_state_reason a; ab_state_since_ms := ac_state_since_ms a;
     ab_last_discovery := ac_last_discovery a; ab_list_floor := ac_list_floor a;
     ab_list_wanted := ac_list_wanted a; ab_discovery_failures := ac_discovery_failures a;
     ab_next_billing_probe := ac_next_billing_probe a; ab_telemetry_check_due := ac_telemetry_check_due a |}.
Definition capture_baseline (s : VehicleScheduler) : TickBaseline :=
  MkTickBaseline (map (fun '(id, v) => (id, vehicle_baseline v)) (vs_vehicles s)) (account_baseline (vs_account s)).
Definition begin_tick (s : VehicleScheduler) : VehicleScheduler :=
  let s := on_account (fun a => a <| ac_probe_time_of_the_tick := None |>) s in
  s <| vs_baseline := Some (capture_baseline s) |>.
Definition renew_baseline (s : VehicleScheduler) : VehicleScheduler :=
  s <| vs_baseline := Some (capture_baseline s) |>.

Definition restore_vehicle (base : VehicleBaseline) (v : ScheduledVehicle) : ScheduledVehicle :=
  v <| vehicle := (vehicle v) <| ve_state := vb_state base |> |>
    <| phase := vb_phase base |> <| phase_since := vb_phase_since base |> <| hold := vb_hold base |>
    <| reason := vb_reason base |> <| reported_state := vb_reported_state base |>
    <| next_read_due := vb_next_read_due base |> <| next_check_due := vb_next_check_due base |>
    <| next_probe_due := vb_next_probe_due base |> <| suspend_at := vb_suspend_at base |>
    <| suspended_until := vb_suspended_until base |> <| last_in_use := vb_last_in_use base |>
    <| last_success := vb_last_success base |> <| offline_from_session := vb_offline_from_session base |>
    <| consecutive_failures := vb_consecutive_failures base |> <| first_failure := vb_first_failure base |>
    <| last_error := vb_last_error base |> <| missing_lists := vb_missing_lists base |>
    <| missing_last := vb_missing_last base |> <| not_found_check := vb_not_found_check base |>
    <| placeholder := vb_placeholder base |> <| gated_read := None |> <| wake_read_pending := false |>
    <| suspension_read := false |>.
Definition restore_account (base : AccountBaseline) (a : AccountRecord) : AccountRecord :=
  a <| ac_state := ab_state base |> <| ac_state_reason := ab_state_reason base |>
    <| ac_state_since_ms := ab_state_since_ms base |> <| ac_last_discovery := ab_last_discovery base |>
    <| ac_list_floor := ab_list_floor base |> <| ac_list_wanted := ab_list_wanted base |>
    <| ac_discovery_failures := ab_discovery_failures base |>
    <| ac_next_billing_probe := ab_next_billing_probe base |>
    <| ac_telemetry_check_due := ab_telemetry_check_due base |>.
Definition restore_baseline (b : TickBaseline) (s : VehicleScheduler) : VehicleScheduler :=
  let s := s <| vs_vehicles := bretain (fun id _ => bhas id (tb_vehicles b)) (vs_vehicles s) |> in
  let s := s <| vs_vehicles := fold_left (fun m '(id, base) => bupd (restore_vehicle base) id m)
                                 (tb_vehicles b) (vs_vehicles s) |> in
  on_account (restore_account (tb_account b)) s.

(** The gaps the store holds open after the tick. *)
Definition opens_after (opens : list GapOpen) (m : bmap GapKey OpenGap) : bmap GapKey OpenGap :=
  fold_left (fun m o => bset (go_key o) (MkOpenGap (go_started_ms o) (go_alert o) (go_hub_id o)) m) opens m.
Definition closes_after (closes : list GapClose) (m : bmap GapKey OpenGap) : bmap GapKey OpenGap :=
  fold_left (fun m c => bdel (gc_key c) m) closes m.

Definition commit_succeeded (s : VehicleScheduler) (clk : Clock) (tick : PendingTick) : VehicleScheduler :=
  let s := on_account (fun a => a <| ac_probe_time_of_the_tick := None |>) s in
  let s := s <| vs_ledger := mark_persisted (vs_ledger s) (pt_counters tick) (mono_now clk) |> in
  let s := match pt_account tick with Some w => s <| vs_persisted_account := aw_view w |> | None => s end in
  let s := s <| vs_persisted_vehicles :=
                 fold_left (fun m w => bset (vw_id w) (vw_view w) m) (pt_vehicles tick) (vs_persisted_vehicles s) |> in
  let alerts := Z.of_nat (length (List.filter go_alert (pt_gap_opens tick))) in
  let s := s <| vs_open_gaps := closes_after (pt_gap_closes tick) (opens_after (pt_gap_opens tick) (vs_open_gaps s)) |>
             <| vs_alert_gaps_unnotified := u64_sadd (vs_alert_gaps_unnotified s) alerts |> in
  let s := if ac_store_failures (vs_account s) >? 0 then
             let s := on_account (fun a => a <| ac_store_failures := 0 |>) s in
             if waits_for s WaStore then on_account (fun a => a <| ac_wait := None |>) s else s
           else s in
  let s := s <| vs_restored := bretain (fun id _ => is_none_or (bget id (vs_vehicles s)) placeholder) (vs_restored s) |> in
  s <| vs_baseline := Some (capture_baseline s) |>.

(** The parts of [commit_failed]: the tick's gap events and the baseline return,
    a credential stop stands, a billing probe that was sent stays armed, and the
    store's back-off begins. *)
Definition rolled_back (s : VehicleScheduler) (tick : PendingTick) : VehicleScheduler :=
  let s := s <| vs_pending := (vs_pending s) <| pt_gaps := (pt_gaps tick ++ pt_gaps (vs_pending s))%list |> |> in
  match vs_baseline s with
  | Some b => restore_baseline b (s <| vs_baseline := None |>)
  | None => s
  end.
Definition keep_stop (entered_stop : option (string * Z)) (s : VehicleScheduler) : VehicleScheduler :=
  match entered_stop with
  | Some (why, since_ms) => on_account (set_account_state AcCredentialStop why since_ms) s
  | None => s
  end.
Definition keep_probe (s : VehicleScheduler) : VehicleScheduler :=
  let armed := ac_probe_time_of_the_tick (vs_account s) in
  let s := on_account (fun a => a <| ac_probe_time_of_the_tick := None |>) s in
  match armed with
  | Some at_ => if account_is s AcBillingSuspended
                then on_account (fun a => a <| ac_next_billing_probe := Some at_ |>) s else s
  | None => s
  end.
Definition store_wait (now : Instant) (s : VehicleScheduler) : VehicleScheduler :=
  let s := on_account (fun a => a <| ac_store_failures := u32_sadd (ac_store_failures a) 1 |>) s in
  let '(u, s) := draw s in
  let delay := backoff_delay (ac_store_failures (vs_account s)) (t_max_backoff (vs_timing s)) u in
  extend_wait (deadline_after now delay) WaStore s.
Definition commit_failed (s : VehicleScheduler) (tick : PendingTick) (now : Instant) : VehicleScheduler :=
  let entered_stop := then_some (account_is s AcCredentialStop)
                        (ac_state_reason (vs_account s), ac_state_since_ms (vs_account s)) in
  store_wait now (keep_probe (keep_stop entered_stop (rolled_back s tick))).

(** ** Months, admission and counters *)

Section Months.
Context `{Cal : Calendar}.

Definition resume_from_cap (s : VehicleScheduler) (clk : Clock) (now : Instant) : VehicleScheduler :=
  on_account (fun a => (set_account_state AcCollecting "cap_cleared" (wall_or_last s clk) a)
                         <| ac_list_wanted := Some now |>) s.
Definition refresh_month (s : VehicleScheduler) (clk : Clock) (now : Instant) : VehicleScheduler :=
  let '(event, ledger) := refresh (vs_ledger s) (wall_now_ms clk) (mono_now clk) in
  let s := s <| vs_ledger := ledger |> in
  match event with
  | MonthUnchanged => s
  | Rolled _ _ =>
      let s := note_new_month s now in
      if account_is s AcCapReached then resume_from_cap s clk now else s
  end.

Inductive ClockEvent := HostSuspended (from_wall_ms to_wall_ms : Z) | WallClockSteppedBack.
Definition observe_clock_drift (s : VehicleScheduler) (clk : Clock) (now : Instant)
    : option ClockEvent * VehicleScheduler :=
  match wall_now_ms clk with
  | None => (None, s)
  | Some wall_ms =>
      let '(prev_mono, prev_wall) := vs_clock_watch s in
      let s := s <| vs_clock_watch := (now, wall_ms) |> in
      let wall_delta := wall_ms - prev_wall in
      let mono_delta := as_millis (saturating_duration_since now prev_mono) in
      let drift := wall_delta - mono_delta in
      if drift >? K_CLOCK_DIVERGENCE_MS then
        let s := s <| vs_ledger := (vs_ledger s) <| frozen := true |> |> in
        let length := from_millis (default u64_max (u64_try_from wall_delta)) in
        let alert := any_car_awake s None || (length >=? t_offline_drive_timeout (vs_timing s)) in
        let gap := MkGapRecord GapHostSuspended None prev_wall (Some wall_ms) alert in
        (Some (HostSuspended prev_wall wall_ms),
         s <| vs_pending := (vs_pending s) <| pt_gaps := (pt_gaps (vs_pending s) ++ [gap])%list |> |>)
      else if drift <? - K_CLOCK_DIVERGENCE_MS then (Some WallClockSteppedBack, s)
      else (None, s)
  end.
Definition observe_clock (s : VehicleScheduler) (clk : Clock) (now : Instant)
    : option ClockEvent * VehicleScheduler :=
  let '(event, s) := observe_clock_drift s clk now in (event, refresh_month s clk now).

Definition enter_cap_reached (s : VehicleScheduler) (clk : Clock) : VehicleScheduler :=
  if account_is s AcCollecting
  then on_account (fun a => (set_account_state AcCapReached "cap_reached" (wall_or_last s clk) a)
                              <| ac_list_wanted := None |> <| ac_list_floor := None |>) s
  else s.

Definition billing_probe_admissible (s : VehicleScheduler) (c : RequestCategory) (now : Instant) : bool :=
  bool_decide (vs_mode s = FleetPolling) && account_is s AcBillingSuspended && bool_decide (c = State)
  && is_none_or (ac_wait (vs_account s)) (fun '(until, _) => now >=? until)
  && is_some_and (ac_next_billing_probe (vs_account s)) (fun probe => now >=? probe).

Definition admit_request (s : VehicleScheduler) (clk : Clock) (c : RequestCategory) (now : Instant)
    : Admission * VehicleScheduler :=
  let s := refresh_month s clk now in
  let probe := billing_probe_admissible s c now in
  if negb (requests_allowed s now || probe) then (IsWithheld WAccount, s)
  else
    let '(admission, ledger) := start (vs_ledger s) c in
    let s := s <| vs_ledger := ledger |> in
    let armed := deadline_after now K_BILLING_PROBE in
    match admission with
    | StartAdmitted =>
        (admission,
         if probe then on_account (fun a => a <| ac_next_billing_probe := Some armed |>
                                              <| ac_probe_time_of_the_tick := Some armed |>) s
         else s)
    | IsWithheld WCap =>
        (admission,
         if probe then on_account (fun a => a <| ac_next_billing_probe := Some armed |>) s
         else enter_cap_reached s clk)
    | IsWithheld _ => (admission, s)
    end.

Definition plan_reservation (s : VehicleScheduler) (clk : Clock) (steps : list (RequestCategory * Z))
    (now : Instant) : bool * VehicleScheduler :=
  let s := refresh_month s clk now in
  let probe := existsb (fun '(c, _) => billing_probe_admissible s c now) steps in
  if negb (requests_allowed s now || probe) then (false, s)
  else let '(raised, ledger) := plan (vs_ledger s) steps in (raised, s <| vs_ledger := ledger |>).

Definition resend_withheld (s : VehicleScheduler) (clk : Clock) (c : RequestCategory) (now : Instant)
    : VehicleScheduler :=
  (plan_reservation s clk [(c, 1)] now).2.
Definition list_resend_withheld (s : VehicleScheduler) (clk : Clock) (now : Instant) : VehicleScheduler :=
  let s := if account_is s AcBillingSuspended
           then on_account (fun a => a <| ac_next_billing_probe := Some now |>
                                       <| ac_probe_time_of_the_tick := Some now |>) s
           else s in
  resend_withheld s clk State now.
Definition note_reservation_commit (s : VehicleScheduler) : VehicleScheduler :=
  on_account (fun a => a <| ac_reservation_commits := u64_sadd (ac_reservation_commits a) 1 |>) s.

Definition same_counter (a b : CollectorCounterRow) : bool :=
  bool_decide (cr_month a = cr_month b) && bool_decide (cr_mode a = cr_mode b)
  && bool_decide (cr_category a = cr_category b).
Definition attach_counters (s : VehicleScheduler) (clk : Clock) (tick : PendingTick) (other_writes force : bool)
    : PendingTick :=
  let l := vs_ledger s in
  if negb (dirty l) then tick
  else if bool_decide (vs_mode s = FleetPolling) || other_writes || force || flush_due l (mono_now clk) then
    tick <| pt_counters :=
             fold_left (fun counters row =>
               (List.filter (fun existing => negb (same_counter existing row)) counters ++ [row])%list)
               (rows l) (pt_counters tick) |>
  else tick.

Definition load_counters (s : VehicleScheduler) (clk : Clock) (stored : list CollectorCounterRow) (now : Instant)
    : VehicleScheduler :=
  let s := s <| vs_ledger := Ledger.load (vs_ledger s) stored (wall_now_ms clk) (mono_now clk) |> in
  let s := if account_is s AcCapReached && cap_allows_one_more (vs_ledger s)
           then resume_from_cap s clk now else s in
  if account_is s AcBillingSuspended then
    let counted := latest_month (List.filter (fun r => bool_decide (cr_mode r = mode_code (vs_mode s))) stored) in
    let last_counted := opt_or counted (key <$> containing (ac_state_since_ms (vs_account s))) in
    if is_some_and last_counted (fun last => String.ltb last (key (span (vs_ledger s))))
    then note_new_month s now else s
  else s.

(** ** The restart load *)

Definition view_from_row (restored : RestoredVehicle) (now : Instant) (wall : Z) : VehicleView :=
  let row := rs_row restored in
  {| vv_phase := phase_from_code (vr_phase row);
     vv_hold := text_match [("disabled", Disabled); ("service", Service);
                            ("paused", Paused (pause_reason_from_code (vr_reason_code row)));
                            ("removed", Removed)] HoldNone (vr_hold row);
     vv_reason := intern_reason (vr_reason_code row);
     vv_phase_since_ms := vr_phase_since_ms row;
     vv_suspended_until := (fun ms => deadline_from_wall now wall ms (rs_suspend restored)) <$> vr_suspended_until_ms row;
     vv_next_probe := (fun ms => deadline_from_wall now wall ms (probe_bound (vr_hold row))) <$> vr_next_probe_ms row;
     vv_last_wake_read := stored_wake_read restored now wall |}.

Definition load_account (s : VehicleScheduler) (row : CollectorAccountRow) (fingerprint : string) (now : Instant)
    (wall : Z) : VehicleScheduler :=
  let state := account_state_from_code (ar_state row) in
  let why := intern_reason (ar_reason_code row) in
  let rate_limited_until := (fun ms => deadline_from_wall now wall ms K_RETRY_AFTER_MAX) <$> ar_rate_limited_until_ms row in
  let next_probe := (fun ms => deadline_from_wall now wall ms K_BILLING_PROBE) <$> ar_next_probe_ms row in
  let s := s <| vs_persisted_account := MkAccountView state why (ar_since_ms row) rate_limited_until next_probe |> in
  if bool_decide (ar_mode row = mode_code (vs_mode s)) && bool_decide (ar_config_fingerprint row = fingerprint) then
    on_account (fun a =>
      (set_account_state state why (ar_since_ms row) a)
        <| ac_wait := (fun until => (until, WaRateLimited)) <$> opt_filter (fun until => until >? now) rate_limited_until |>
        <| ac_next_billing_probe := next_probe |>) s
  else if bool_decide (state = AcCollecting) then s
  else on_account (set_account_state AcCollecting "config_changed" wall) s.

Definition load_vehicle (now : Instant) (wall : Z) (s : VehicleScheduler) (restored : RestoredVehicle)
    : VehicleScheduler :=
  let id := rs_tesla_id restored in
  let s := s <| vs_persisted_vehicles := bset id (view_from_row restored now wall) (vs_persisted_vehicles s) |> in
  if bhas id (vs_vehicles s) then on_vehicle id (fun v => apply_restored v restored now wall) s
  else s <| vs_restored := bset id restored (vs_restored s) |>.

Definition load_gap (ids : bmap Z VehicleId) (m : bmap GapKey OpenGap) (gap : CollectionGapRecord)
    : bmap GapKey OpenGap :=
  let open v := match gap_kind_from_code (gp_kind gap) with
                | Some kind => bset (MkGapKey kind v)
                                 (MkOpenGap (gp_started_at_ms gap) (gp_alert gap) (gp_vehicle_id gap)) m
                | None => m
                end in
  match gp_vehicle_id gap with
  | Some hub => match bget hub ids with Some id => open (Some id) | None => m end
  | None => open None
  end.

Definition load (s : VehicleScheduler) (clk : Clock) (snapshot : CollectorStateSnapshot) (now : Instant)
    : VehicleScheduler :=
  let wall := wall_or_last s clk in
  let s := s <| vs_config_fingerprint := sn_config_fingerprint snapshot |> in
  let s := match sn_account snapshot with
           | Some row => load_account s row (sn_config_fingerprint snapshot) now wall
           | None => s
           end in
  let s := fold_left (load_vehicle now wall) (sn_vehicles snapshot) s in
  let s := s <| vs_open_gaps := fold_left (load_gap (sn_vehicle_ids snapshot)) (sn_open_gaps snapshot) (vs_open_gaps s) |>
             <| vs_alert_gaps_unnotified :=
                  Z.of_nat (length (List.filter (fun g => gp_alert g && is_none (gp_notified_at_ms g))
                                      (sn_open_gaps snapshot))) |> in
  load_counters s clk (sn_counters snapshot) now.

End Months.
