(* ===== verification/SchedDue.v ===== *)
(** * The vehicle scheduler: a concrete scheduler

    The default cadence, cars and scheduler states the evaluations of the
    scheduler's theorems run on. *)
From S2P Require Import Prelude RustStr Vocabulary F64 Endpoint Ledger LedgerSafety External BTree SchedTypes SchedState SchedAccount SchedOps SchedLoop SchedTick.
From stdpp Require Import sorting.
Local Open Scope string_scope.
Local Open Scope Z_scope.

Definition sample_cadence : CollectorCadence :=
  MkCadence (from_secs 4) (from_secs 15) (from_secs 10) (from_secs 60) (from_secs 60) (from_secs 900)
    (from_secs 30) (from_secs 15) (from_secs 3600) (from_secs 300).
Definition sample_fleet : FleetPolicy :=
  MkFleetPolicy (MkFleetIntervals (from_secs 60) (from_secs 60) (from_secs 60) (from_secs 60) (from_secs 60)
                   (from_secs 3600)) 1000 tesla_pricing.
Definition sample_car_settings : ProjectionCarSettings := MkCarSettings true true 15 21 true false false false.
Definition sample_clock : Clock := MkClock (from_secs 1000) (Some 1767225600000).
Definition sample_now : Instant := mono_now sample_clock.
(** A listed car with its hub row. *)
Definition sample_car (id : Z) : ScheduledVehicle :=
  (scheduled_new (MkVehicle id (id + 100) "VIN" "online" None sample_car_settings) sample_now 1767225600000)
    <| hub_id := Some id |> <| reported_state := Some "online" |>.
Definition sample_start : VehicleScheduler :=
  scheduler_new sample_cadence Legacy sample_fleet sample_now sample_clock (fun _ => f64_zero).
Definition with_cars (cars : list ScheduledVehicle) (s : VehicleScheduler) : VehicleScheduler :=
  s <| vs_vehicles := fold_left (fun m v => bset (ve_id (vehicle v)) v m) cars [] |>.

(** ** The vehicle scheduler: which requests are sent, and when the loop wakes

    Theorems on [SchedOps] and the waiting half of [SchedLoop]: what
    [due_vehicles] and [due_probe_vehicles] choose, that a stopped or waiting
    account sends nothing, and that the loop's wait ends in time for every
    deadline. *)

(** ** The sort by due time *)

Definition due_before (a b : Instant * VehicleId) : Prop := due_le a b = true.

Lemma due_before_iff a b : due_before a b <-> a.1 < b.1 \/ (a.1 = b.1 /\ a.2 <= b.2).
Proof.
  unfold due_before, due_le.
  rewrite orb_true_iff, andb_true_iff, Z.ltb_lt, Z.eqb_eq, Z.leb_le. done.
Qed.
Lemma due_before_total a b : due_le a b = false -> due_before b a.
Proof.
  intros H. apply not_true_iff_false in H. rewrite due_before_iff.
  assert (~ due_before a b) as Hn by done. rewrite due_before_iff in Hn. lia.
Qed.
Lemma due_before_trans a b c : due_before a b -> due_before b c -> due_before a c.
Proof. rewrite !due_before_iff. lia. Qed.

Section Sort.
Context {K : Type}.
Implicit Types (x : Instant * VehicleId * K) (l : list (Instant * VehicleId * K)).

Lemma insert_due_perm x l : insert_due x l ≡ₚ x :: l.
Proof.
  induction l as [|y l IH]; simpl; [done|]. destruct (due_le x.1 y.1); [done|].
  rewrite IH. apply Permutation_swap.
Qed.
Lemma sort_due_perm l : sort_due l ≡ₚ l.
Proof. induction l as [|x l IH]; simpl; [done|]. by rewrite insert_due_perm, IH. Qed.

Lemma insert_due_sorted x l :
  StronglySorted (fun a b => due_before a.1 b.1) l ->
  StronglySorted (fun a b => due_before a.1 b.1) (insert_due x l).
Proof.
  induction l as [|y l IH]; simpl; intros Hs; [by repeat constructor|].
  apply StronglySorted_cons in Hs as [Hf Hs]. destruct (due_le x.1 y.1) eqn:E.
  - apply StronglySorted_cons. split; [|by apply StronglySorted_cons].
    constructor; [done|]. eapply Forall_impl; [exact Hf|]. intros z. by apply due_before_trans.
  - apply StronglySorted_cons. split; [|auto]. rewrite insert_due_perm. constructor; [|done].
    by apply due_before_total.
Qed.
Lemma sort_due_sorted l : StronglySorted (fun a b => due_before a.1 b.1) (sort_due l).
Proof. induction l as [|x l IH]; simpl; [constructor|]. by apply insert_due_sorted. Qed.

End Sort.

(** ** Marking cars in flight *)

Definition flying (v : ScheduledVehicle) : ScheduledVehicle := v <| in_flight := true |>.

Lemma mark_in_flight_vehicles ids s :
  vs_vehicles (mark_in_flight ids s) = fold_left (fun m id => bupd flying id m) ids (vs_vehicles s).
Proof. unfold mark_in_flight. revert s. induction ids as [|id ids IH]; intros s; [done|]. apply IH. Qed.
Lemma mark_in_flight_account ids s : vs_account (mark_in_flight ids s) = vs_account s.
Proof. unfold mark_in_flight. revert s. induction ids as [|id ids IH]; intros s; [done|]. simpl. by rewrite IH. Qed.
Lemma mark_in_flight_mode ids s : vs_mode (mark_in_flight ids s) = vs_mode s.
Proof. unfold mark_in_flight. revert s. induction ids as [|id ids IH]; intros s; [done|]. simpl. by rewrite IH. Qed.

Lemma mark_in_flight_keys ids s : bkeys (vs_vehicles (mark_in_flight ids s)) = bkeys (vs_vehicles s).
Proof.
  rewrite mark_in_flight_vehicles. generalize (vs_vehicles s). induction ids as [|id ids IH]; intros m; [done|].
  simpl. by rewrite IH, bkeys_bupd.
Qed.
Lemma mark_in_flight_get ids s id :
  bget id (vs_vehicles (mark_in_flight ids s))
  = (if bool_decide (id ∈ ids) then flying else fun v => v) <$> bget id (vs_vehicles s).
Proof.
  rewrite mark_in_flight_vehicles. generalize (vs_vehicles s). induction ids as [|i ids IH]; intros m.
  { case_bool_decide as Hin; [by apply elem_of_nil in Hin|]. simpl. by destruct (bget id m). }
  simpl. rewrite IH. destruct (decide (id = i)) as [->|Hne].
  - rewrite bget_bupd, (bool_decide_eq_true_2 (i ∈ i :: ids)) by by left.
    destruct (bget i m); simpl; [|done]. by case_bool_decide.
  - rewrite bget_bupd_ne by done. by rewrite (bool_decide_ext (id ∈ i :: ids) (id ∈ ids)) by set_solver.
Qed.

Definition flying_count (m : bmap VehicleId ScheduledVehicle) : nat :=
  length (List.filter in_flight (bvals m)).

Lemma flying_count_none id (f : ScheduledVehicle -> ScheduledVehicle) m :
  id ∉ bkeys m -> flying_count (bupd f id m) = flying_count m.
Proof.
  unfold flying_count, bvals, bupd, bkeys. induction m as [|[k v] m IH]; simpl; [done|].
  intros [Hne Hni]%not_elem_of_cons. apply key_compare_ne in Hne.
  destruct (key_compare id k); [done|..]; (destruct (in_flight v); simpl; by rewrite IH).
Qed.
Lemma flying_count_mark id v m :
  NoDup (bkeys m) -> bget id m = Some v -> in_flight v = false ->
  flying_count (bupd flying id m) = S (flying_count m).
Proof.
  induction m as [|[k w] m IH]; [done|]. intros [Hni Hnd]%NoDup_cons. simpl.
  destruct (key_compare id k) eqn:E.
  - apply key_compare_eq in E as ->. intros [= ->] Hv.
    change (flying_count ((k, flying v) :: bupd flying k m) = S (flying_count ((k, v) :: m))).
    unfold flying_count at 1 2. unfold bvals. simpl. rewrite Hv. simpl. f_equal. by apply flying_count_none.
  - intros Hg Hv. unfold flying_count, bvals in *. simpl. destruct (in_flight w); simpl; by rewrite IH.
  - intros Hg Hv. unfold flying_count, bvals in *. simpl. destruct (in_flight w); simpl; by rewrite IH.
Qed.
Lemma in_flight_count_mark ids s :
  NoDup (bkeys (vs_vehicles s)) -> NoDup ids ->
  (forall id, id ∈ ids -> exists v, bget id (vs_vehicles s) = Some v /\ in_flight v = false) ->
  in_flight_count (mark_in_flight ids s) = (in_flight_count s + length ids)%nat.
Proof.
  unfold in_flight_count. rewrite mark_in_flight_vehicles.
  change (length (List.filter in_flight (bvals ?x))) with (flying_count x).
  generalize (vs_vehicles s). induction ids as [|id ids IH]; intros m Hm Hnd Hids; simpl; [lia|].
  apply NoDup_cons in Hnd as [Hni Hnd]. destruct (Hids id) as (v & Hv & Hf); [by left|].
  rewrite IH; [|by rewrite bkeys_bupd|done|].
  - rewrite (flying_count_mark id v m) by done. lia.
  - intros i Hi. rewrite bget_bupd_ne by by intros ->. apply Hids. by right.
Qed.

(** ** What is chosen *)

(** The candidates of a choice: the cars [pick] accepts, with their due time. *)
Definition candidate {K} (pick : ScheduledVehicle -> option (Instant * K)) (s : VehicleScheduler)
    (id : VehicleId) (at_ : Instant) (kind : K) : Prop :=
  exists v, bget id (vs_vehicles s) = Some v /\ pick v = Some (at_, kind).

(** A choice sends only to candidates, once each, within the cap and by due time
    and id; the chosen cars are in flight and the others as they were. *)
Record fair_choice {K} (pick : ScheduledVehicle -> option (Instant * K)) (s : VehicleScheduler)
    (chosen : list (VehicleId * K)) (s' : VehicleScheduler) : Prop := {
  fc_once : NoDup chosen.*1;
  fc_candidates id kind : (id, kind) ∈ chosen -> exists at_, candidate pick s id at_ kind;
  fc_cap : (in_flight_count s' <= Nat.max K_MAX_IN_FLIGHT (in_flight_count s))%nat;
  fc_order id kind at_ id' at_' kind' :
    (id, kind) ∈ chosen -> candidate pick s id at_ kind ->
    candidate pick s id' at_' kind' -> id' ∉ chosen.*1 -> due_before (at_, id) (at_', id');
  fc_full id at_ kind : candidate pick s id at_ kind -> id ∉ chosen.*1 -> (K_MAX_IN_FLIGHT <= in_flight_count s')%nat;
  fc_marked id : bget id (vs_vehicles s')
                 = (if bool_decide (id ∈ chosen.*1) then flying else fun v => v) <$> bget id (vs_vehicles s);
}.

Section Choice.
Context {K : Type} (pick : ScheduledVehicle -> option (Instant * K)) (s : VehicleScheduler).

Definition due_entries : list (Instant * VehicleId * K) :=
  omap (fun '(id, v) => (fun '(at_, kind) => (at_, id, kind)) <$> pick v) (vs_vehicles s).
Definition entry_choice (x : Instant * VehicleId * K) : VehicleId * K := let '(_, id, kind) := x in (id, kind).

Hypothesis Hwf : bwf (vs_vehicles s).

Lemma due_entries_candidate at_ id kind : (at_, id, kind) ∈ due_entries <-> candidate pick s id at_ kind.
Proof.
  unfold due_entries, candidate. rewrite list_elem_of_omap. split.
  - intros ([id' v] & Hin & Hp). destruct (pick v) as [[a k]|] eqn:E; simplify_eq/=.
    exists v. split; [by apply bget_nodup; [apply bwf_nodup|]|done].
  - intros (v & Hv%bget_elem & Hp). exists (id, v). by rewrite Hp.
Qed.
Lemma due_entries_ids : NoDup ((fun x => x.1.2) <$> due_entries).
Proof.
  unfold due_entries. pose proof (bwf_nodup _ Hwf) as Hnd. unfold bkeys in Hnd.
  clear Hwf. induction (vs_vehicles s) as [|[id v] m IH]; simpl; [constructor|].
  apply NoDup_cons in Hnd as [Hni Hnd]. destruct (pick v) as [[a k]|]; simpl; [|auto].
  apply NoDup_cons. split; [|auto]. intros Hin. apply Hni.
  apply list_elem_of_fmap in Hin as ([[a' id'] k'] & -> & Hin).
  apply list_elem_of_omap in Hin as ([id2 v2] & Hin & Hp). destruct (pick v2) as [[? ?]|]; simplify_eq/=.
  by apply (list_elem_of_fmap_2 fst) in Hin.
Qed.
Lemma due_entries_inj a a' id k k' :
  (a, id, k) ∈ due_entries -> (a', id, k') ∈ due_entries -> a = a' /\ k = k'.
Proof.
  rewrite !due_entries_candidate. unfold candidate. intros (v & Hv & Hp) (v' & Hv' & Hp'). by simplify_eq.
Qed.

Lemma take_due_fair :
  (forall v x, pick v = Some x -> in_flight v = false) ->
  fair_choice pick s (take_due pick s).1 (take_due pick s).2.
Proof.
  intros Hpick. unfold take_due. fold due_entries. fold entry_choice. cbn [fst snd].
  set (cap := (K_MAX_IN_FLIGHT - in_flight_count s)%nat). set (sorted := sort_due due_entries).
  assert (Hperm : sorted ≡ₚ due_entries) by apply sort_due_perm.
  pose proof (sort_due_sorted due_entries) as Hsorted. fold sorted in Hsorted.
  set (sent := take cap sorted). set (chosen := entry_choice <$> sent).
  assert (Hids : chosen.*1 = (fun x => x.1.2) <$> sent)
    by (subst chosen; rewrite <- list_fmap_compose; apply list_fmap_ext; by intros ? [[? ?] ?]).
  assert (Hsub : forall x, x ∈ sent -> x ∈ due_entries).
  { intros x Hx. rewrite <- Hperm. apply elem_of_take in Hx as (i & Hx & _). by eapply list_elem_of_lookup_2. }
  assert (Hin : forall id kind, (id, kind) ∈ chosen -> exists a, (a, id, kind) ∈ sent).
  { intros id kind ([[a i] k] & [= -> ->] & Hs)%list_elem_of_fmap. by exists a. }
  assert (Hnd : NoDup chosen.*1).
  { rewrite Hids. apply (sublist_NoDup _ ((fun x => x.1.2) <$> sorted)).
    - rewrite Hperm. apply due_entries_ids.
    - apply fmap_sublist, sublist_take. }
  assert (Hflight : in_flight_count (mark_in_flight chosen.*1 s) = (in_flight_count s + length sent)%nat).
  { rewrite in_flight_count_mark; [by rewrite Hids, length_fmap|by apply bwf_nodup|done|].
    intros id. rewrite Hids. intros ([[a i] k] & -> & Hs%Hsub%due_entries_candidate)%list_elem_of_fmap.
    destruct Hs as (v & Hv & Hp). exists v. split; [done|]. by eapply Hpick. }
  assert (Hlen : length sent = Nat.min cap (length sorted)) by apply length_take.
  assert (Hrest : forall id a k, candidate pick s id a k -> id ∉ chosen.*1 -> (a, id, k) ∈ drop cap sorted).
  { intros id a k Hc Hni. apply due_entries_candidate in Hc. rewrite <- Hperm in Hc.
    rewrite <- (take_drop cap sorted), elem_of_app in Hc. destruct Hc as [Hc|]; [|done].
    destruct Hni. rewrite Hids. by apply (list_elem_of_fmap_2 (fun x => x.1.2) _ (a, id, k)). }
  split.
  - done.
  - intros id kind [a Ha%Hsub]%Hin. exists a. by apply due_entries_candidate.
  - rewrite Hflight. lia.
  - intros id kind a id' a' kind' Hc Hcand Hcand' Hni. destruct (Hin _ _ Hc) as [a0 Ha0].
    apply due_entries_candidate in Hcand. destruct (due_entries_inj _ _ _ _ _ Hcand (Hsub _ Ha0)) as [-> _].
    rewrite <- (take_drop cap sorted) in Hsorted.
    by apply (StronglySorted_app_1_elem_of _ _ _ _ _ Hsorted Ha0 (Hrest _ _ _ Hcand' Hni)).
  - intros id a kind Hc Hni. specialize (Hrest _ _ _ Hc Hni).
    assert (cap < length sorted)%nat.
    { destruct (decide (cap < length sorted)%nat); [done|]. rewrite drop_ge in Hrest by lia. by apply elem_of_nil in Hrest. }
    rewrite Hflight. lia.
  - intros id. apply mark_in_flight_get.
Qed.

End Choice.

(** ** Timers *)

Lemma car_timers_in_flight t now wall v : in_flight (car_timers t now wall v).2 = in_flight v.
Proof.
  unfold car_timers, begin_suspension, enter_phase, clear_pending_reads.
  repeat (case_match; simplify_eq/=; try done).
Qed.
Lemma advance_timers_vehicles s clk now :
  vs_vehicles (advance_timers s clk now)
  = bmapv (fun _ v => (car_timers (vs_timing s) now (wall_or_last s clk) v).2) (vs_vehicles s).
Proof. done. Qed.
Lemma advance_timers_count s clk now : in_flight_count (advance_timers s clk now) = in_flight_count s.
Proof.
  unfold in_flight_count. rewrite advance_timers_vehicles. unfold bvals, bmapv.
  induction (vs_vehicles s) as [|[id v] m IH]; simpl; [done|].
  rewrite car_timers_in_flight. destruct (in_flight v); simpl; by rewrite IH.
Qed.
Lemma advance_timers_allowed s clk now i : requests_allowed (advance_timers s clk now) i = requests_allowed s i.
Proof. done. Qed.
Lemma advance_timers_wf s clk now : bwf (vs_vehicles s) -> bwf (vs_vehicles (advance_timers s clk now)).
Proof. rewrite advance_timers_vehicles. by rewrite bwf_bmapv. Qed.

(** ** The requests of a tick *)

Definition read_pick (now : Instant) (v : ScheduledVehicle) : option (Instant * ()) :=
  (fun due => (due, ())) <$> read_is_due now v.

Lemma read_is_due_iff now v due :
  read_is_due now v = Some due
  <-> hold v = HoldNone /\ in_flight v = false /\ next_read_due v = Some due /\ due <= now.
Proof.
  unfold read_is_due, opt_filter. case_bool_decide; simpl; [|naive_solver].
  destruct (in_flight v); simpl; [naive_solver|]. destruct (next_read_due v) as [d|]; [|naive_solver].
  destruct (d <=? now) eqn:E; [apply Z.leb_le in E|apply Z.leb_gt in E]; naive_solver lia.
Qed.
Lemma probe_is_due_iff owner_wire now v at_ kind :
  probe_is_due owner_wire now v = Some (at_, kind)
  <-> in_flight v = false /\ probe_due_at v owner_wire = Some at_ /\ at_ <= now
      /\ kind = if bool_decide (hold v = Service) && owner_wire then ServiceRecord else ProbeRead.
Proof.
  unfold probe_is_due, opt_filter. destruct (in_flight v); [naive_solver|].
  destruct (probe_due_at v owner_wire) as [d|]; simpl; [|naive_solver].
  destruct (d <=? now) eqn:E; simpl; [apply Z.leb_le in E|apply Z.leb_gt in E]; naive_solver lia.
Qed.

Lemma read_pick_ready now v x : read_pick now v = Some x -> in_flight v = false.
Proof.
  unfold read_pick. destruct (read_is_due now v) eqn:Hr; [|done]. intros _.
  by apply read_is_due_iff in Hr as (_ & ? & _).
Qed.
Lemma probe_pick_ready owner_wire now v x : probe_is_due owner_wire now v = Some x -> in_flight v = false.
Proof. destruct x as [a k]. by intros (? & _)%probe_is_due_iff. Qed.
Lemma take_due_frame {K} (pick : ScheduledVehicle -> option (Instant * K)) s :
  bkeys (vs_vehicles (take_due pick s).2) = bkeys (vs_vehicles s)
  /\ vs_account (take_due pick s).2 = vs_account s /\ vs_mode (take_due pick s).2 = vs_mode s.
Proof. cbn [take_due snd]. by rewrite mark_in_flight_keys, mark_in_flight_account, mark_in_flight_mode. Qed.

Lemma due_vehicles_spec s clk now :
  bwf (vs_vehicles s) -> requests_allowed s now = true ->
  fair_choice (read_pick now) (advance_timers s clk now)
    ((fun id => (id, ())) <$> (due_vehicles s clk now).1) (due_vehicles s clk now).2
  /\ bwf (vs_vehicles (due_vehicles s clk now).2) /\ vs_mode (due_vehicles s clk now).2 = vs_mode s
  /\ requests_allowed (due_vehicles s clk now).2 now = true.
Proof.
  intros Hwf Hallowed. apply (advance_timers_wf s clk now) in Hwf.
  unfold due_vehicles. rewrite advance_timers_allowed, Hallowed. cbn [negb]. fold (read_pick now).
  pose proof (take_due_fair _ _ Hwf (read_pick_ready now)) as Hfair.
  destruct (take_due_frame (read_pick now) (advance_timers s clk now)) as (Hkeys & Hacc & Hmode).
  destruct (take_due (read_pick now) (advance_timers s clk now)) as [chosen s2]. cbn [fst snd] in *.
  assert (Hc : (fun id => (id, ())) <$> chosen.*1 = chosen).
  { rewrite <- list_fmap_compose. rewrite <- (list_fmap_id chosen) at 2. apply list_fmap_ext. by intros ? [? []]. }
  rewrite Hc. split; [done|]. unfold bwf, requests_allowed in *. by rewrite Hkeys, Hacc.
Qed.

(** C17: When the account may send, [due_vehicles] and [due_probe_vehicles] each
    choose every car at most once and only among those whose request is due (no
    hold, not in flight and a read time that has come; or a held car's probe time),
    never pass [K_MAX_IN_FLIGHT] requests in flight, prefer the earlier due time
    and then the lower id, leave a due car out only when the cap is full, and mark
    exactly the chosen cars in flight. *)
Theorem due_requests_fair_and_capped s clk now :
  bwf (vs_vehicles s) -> requests_allowed s now = true ->
  let s1 := advance_timers s clk now in
  let '(reads, s2) := due_vehicles s clk now in
  let '(probes, s3) := due_probe_vehicles s2 now in
  fair_choice (read_pick now) s1 ((fun id => (id, ())) <$> reads) s2
  /\ fair_choice (probe_is_due (is_owner_wire (vs_mode s)) now) s2 probes s3
  /\ (in_flight_count s <= K_MAX_IN_FLIGHT -> in_flight_count s3 <= K_MAX_IN_FLIGHT)%nat
  /\ (forall id, id ∈ reads -> exists v due, bget id (vs_vehicles s1) = Some v /\ hold v = HoldNone
        /\ in_flight v = false /\ next_read_due v = Some due /\ due <= now).
Proof.
  intros Hwf Hallowed. cbv zeta.
  destruct (due_vehicles_spec s clk now Hwf Hallowed) as (Hread & Hwf2 & Hmode & Hallowed2).
  destruct (due_vehicles s clk now) as [reads s2]. cbn [fst snd] in *.
  unfold due_probe_vehicles. rewrite Hallowed2, Hmode. cbn [negb].
  pose proof (take_due_fair _ s2 Hwf2 (probe_pick_ready (is_owner_wire (vs_mode s)) now)) as Hprobe.
  destruct (take_due _ s2) as [probes s3]. cbn [fst snd] in *.
  split_and!; [done|done| |].
  - pose proof (fc_cap _ _ _ _ Hread) as H1. pose proof (fc_cap _ _ _ _ Hprobe) as H2.
    rewrite advance_timers_count in H1. lia.
  - intros id Hin. destruct (fc_candidates _ _ _ _ Hread id ()) as (due & v & Hv & Hp).
    { by apply (list_elem_of_fmap_2 (fun id => (id, ()))). }
    unfold read_pick in Hp. destruct (read_is_due now v) as [d|] eqn:Hd; simplify_eq/=.
    apply read_is_due_iff in Hd as (? & ? & ? & ?). by exists v, due.
Qed.

(** ** Stopped accounts *)

(** C25: An account that is not collecting sends nothing of its own: no read, probe,
    targeted check or stream is due for any car, the list is due only at an armed
    billing probe, and not at all after a credential stop. *)
Theorem stopped_account_sends_nothing s clk now :
  ac_state (vs_account s) <> AcCollecting ->
  (due_vehicles s clk now).1 = [] /\ (due_probe_vehicles s now).1 = []
  /\ due_offline_state_vehicles s now = []
  /\ (forall id, should_start_stream s clk id = false)
  /\ (forall at_, list_due_at s = Some at_ ->
        ac_state (vs_account s) <> AcCredentialStop
        /\ exists probe, ac_next_billing_probe (vs_account s) = Some probe /\ probe <= at_).
Proof.
  intros Hstop. assert (Hallowed : forall x, vs_account x = vs_account s -> requests_allowed x now = false).
  { intros x Hx. unfold requests_allowed. by rewrite Hx, bool_decide_eq_false_2. }
  assert (Hcol : account_is s AcCollecting = false) by by apply bool_decide_eq_false_2.
  unfold due_vehicles, due_probe_vehicles, due_offline_state_vehicles, should_start_stream, list_due_at.
  rewrite advance_timers_allowed, Hallowed by done. rewrite orb_true_r. split_and!; [done..| |].
  - intros id. destruct (bget id (vs_vehicles s)); simpl; [|done]. unfold car_wants_stream.
    by rewrite Hcol, andb_false_r.
  - intros at_. unfold account_is at 1. case_bool_decide as Hc; [done|]. rewrite Hcol. simpl.
    destruct (ac_next_billing_probe (vs_account s)) as [probe|]; [|done]. simpl. intros [= <-].
    split; [done|]. exists probe. split; [done|]. unfold after_wait. case_match; [case_match; lia|lia].
Qed.

(** ** The loop's wait *)

Lemma earliest_of_acc l best :
  let r := fold_left (fun best due => match best, due with
                                      | Some a, Some b => Some (Z.min a b)
                                      | Some a, None => Some a
                                      | None, d => d
                                      end) l best in
  (forall d, best = Some d \/ Some d ∈ l -> exists e, r = Some e /\ e <= d)
  /\ (forall e, r = Some e -> best = Some e \/ Some e ∈ l).
Proof.
  cbv zeta. revert best. induction l as [|x l IH]; intros best; simpl.
  - split; [intros d [->|Hin]; [by exists d|by apply elem_of_nil in Hin]|by left].
  - destruct (IH match best, x with
                 | Some a, Some b => Some (Z.min a b) | Some a, None => Some a | None, d => d end) as [H1 H2].
    split.
    + intros d Hd. rewrite elem_of_cons in Hd.
      destruct Hd as [->|[<-|Hin]]; [| |by apply H1; right].
      * destruct x as [b|]; [|apply H1; by left].
        destruct (H1 (Z.min d b)) as (e & -> & ?); [by left|]. exists e. split; [done|lia].
      * destruct best as [a|]; [|apply H1; by left].
        destruct (H1 (Z.min a d)) as (e & -> & ?); [by left|]. exists e. split; [done|lia].
    + intros e He%H2. rewrite elem_of_cons. destruct He as [He|]; [|by auto]. destruct best as [a|], x as [b|]; auto.
      injection He as <-. destruct (Z.min_spec a b) as [[_ ->]|[_ ->]]; auto.
Qed.
Lemma earliest_of_le l d : Some d ∈ l -> exists e, earliest_of l = Some e /\ e <= d.
Proof. intros Hin. apply (earliest_of_acc l None). by right. Qed.

Lemma delay_in_time s clk now d :
  Some d ∈ all_dues s clk now -> now + delay_until_next_action s clk now <= Z.max now d.
Proof.
  intros Hin. destruct (earliest_of_le _ _ Hin) as (e & He & Hle).
  unfold delay_until_next_action. rewrite He. simpl. unfold saturating_duration_since. lia.
Qed.
Lemma delay_bounds s clk now : 0 <= delay_until_next_action s clk now <= K_MAX_IDLE_WAIT.
Proof.
  unfold delay_until_next_action, saturating_duration_since, K_MAX_IDLE_WAIT.
  destruct (earliest_of _); simpl; unfold from_secs, NANOS_PER_SEC; lia.
Qed.

Lemma request_due_listed s clk now v o :
  account_is s AcCollecting = true -> v ∈ bvals (vs_vehicles s) -> o ∈ request_dues s v -> o ∈ all_dues s clk now.
Proof.
  intros Hc Hv Ho. unfold all_dues. rewrite Hc. apply elem_of_app. left.
  apply list_elem_of_In, in_concat. exists (request_dues s v).
  split; [apply in_map; by apply list_elem_of_In|by apply list_elem_of_In].
Qed.
Lemma timer_due_listed s clk now v o :
  v ∈ bvals (vs_vehicles s) -> o ∈ timer_dues s clk now v -> o ∈ all_dues s clk now.
Proof.
  intros Hv Ho. unfold all_dues. apply elem_of_app. right. apply elem_of_app. left.
  apply list_elem_of_In, in_concat. exists (timer_dues s clk now v).
  split; [apply in_map; by apply list_elem_of_In|by apply list_elem_of_In].
Qed.
Lemma bget_vals {K V} `{OrdKey K} (k : K) (v : V) m : bget k m = Some v -> v ∈ bvals m.
Proof. intros Hin%bget_elem. by apply (list_elem_of_fmap_2 snd) in Hin. Qed.

(** C27: The wait between two iterations never passes the idle maximum or the
    settings refresh, is at least the loop floor after an iteration without work,
    and otherwise ends no later than the next action: the list, the end of the
    account's wait, and for every car its admissible read, check and probe (moved
    past the wait), its suspension timers, its stream deadlines and its no-data
    close. *)
Theorem wait_ends_before_every_deadline s clk now streams idle :
  let wait := next_wait s clk now streams idle in
  let in_time d := now + wait <= Z.max (if idle : bool then now + K_LOOP_FLOOR else now) d in
  0 <= wait <= Z.max K_LOOP_FLOOR (Z.min K_MAX_IDLE_WAIT (collection_sleep_cap streams))
  /\ (idle = true -> K_LOOP_FLOOR <= wait)
  /\ (forall d, list_due_at s = Some d -> in_time d)
  /\ (forall until why, ac_wait (vs_account s) = Some (until, why) -> until > now -> in_time until)
  /\ (forall id v, bget id (vs_vehicles s) = Some v ->
      (forall d, ac_state (vs_account s) = AcCollecting -> hold v = HoldNone -> in_flight v = false ->
         next_read_due v = Some d -> in_time (after_wait s d))
      /\ (forall d, ac_state (vs_account s) = AcCollecting -> is_inactive v = false ->
           next_check_due v = Some d -> in_time (after_wait s d))
      /\ (forall d, ac_state (vs_account s) = AcCollecting ->
           probe_due_at v (is_owner_wire (vs_mode s)) = Some d -> in_time (after_wait s d))
      /\ (forall d, hold v = HoldNone -> suspend_at v = Some d \/ suspended_until v = Some d -> in_time d)
      /\ (forall d, is_inactive v = false -> silence_deadline v = Some d \/ update_stale_deadline v = Some d -> in_time d)
      /\ (forall ms, no_data_deadline_ms s v = Some ms ->
           in_time (deadline_after now (from_millis (Z.max 0 (i64_sadd (i64_ssub ms (wall_or_last s clk)) 1)))))).
Proof.
  cbv zeta. pose proof (delay_bounds s clk now) as Hb. assert (Hfl : 0 <= K_LOOP_FLOOR) by done.
  assert (Hin : forall d, Some d ∈ all_dues s clk now ->
    now + next_wait s clk now streams idle <= Z.max (if idle : bool then now + K_LOOP_FLOOR else now) d).
  { intros d Hd%delay_in_time. unfold next_wait. destruct idle; lia. }
  assert (Hcap : 0 <= collection_sleep_cap streams) by by destruct streams.
  split; [unfold next_wait; destruct idle; unfold K_LOOP_FLOOR, from_millis, NANOS_PER_MILLI in *; lia|].
  split; [intros ->; unfold next_wait; lia|].
  split. { intros d Hd. apply Hin. unfold all_dues. rewrite Hd. set_solver. }
  split. { intros u why Hw Hgt. apply Hin. unfold all_dues. rewrite Hw. simpl.
           rewrite (proj2 (Z.gtb_lt u now)) by lia. set_solver. }
  intros id v Hv%bget_vals.
  pose proof (fun o Hc => request_due_listed s clk now v o Hc Hv) as Hreq.
  pose proof (fun o => timer_due_listed s clk now v o Hv) as Htim.
  split_and!; intros d.
  - intros Hc Hh Hf Hd. apply Hin, Hreq; [by apply bool_decide_eq_true_2|]. unfold request_dues.
    rewrite Hh, Hf, Hd. set_solver.
  - intros Hc Hi Hd. apply Hin, Hreq; [by apply bool_decide_eq_true_2|]. unfold request_dues. rewrite Hi, Hd. set_solver.
  - intros Hc Hd. apply Hin, Hreq; [by apply bool_decide_eq_true_2|]. unfold request_dues. rewrite Hd. set_solver.
  - intros Hh Hd. apply Hin, Htim. unfold timer_dues, is_inactive. rewrite Hh. simpl.
    destruct Hd as [->| ->]; set_solver.
  - intros Hi Hd. apply Hin, Htim. unfold timer_dues. rewrite Hi. simpl. destruct Hd as [->| ->]; set_solver.
  - intros Hd. apply Hin, Htim. unfold timer_dues. rewrite Hd. simpl. set_solver.
Qed.

(** ** Evaluations *)

(** Five online cars whose reads came due at different seconds, and a paused one. *)
Definition busy : VehicleScheduler :=
  with_cars (((sample_car 9) <| hold := Paused LegalPrivacy |> <| next_probe_due := Some sample_now |>)
             :: map (fun id => (sample_car id) <| phase := Online |> <| next_read_due := Some (sample_now - id) |>)
                  [1; 2; 3; 4; 5]) sample_start.
Lemma busy_wf : bwf (vs_vehicles busy).
Proof. unfold bwf. vm_compute. repeat constructor. Qed.

Example busy_reads : (due_vehicles busy sample_clock sample_now).1 = [5; 4; 3; 2].
Proof. vm_compute. reflexivity. Qed.
Lemma due_requests_fair_and_capped_witness :
  NoDup ((fun id => (id, ())) <$> (due_vehicles busy sample_clock sample_now).1).*1
  /\ (in_flight_count (due_probe_vehicles (due_vehicles busy sample_clock sample_now).2 sample_now).2 <= 4)%nat.
Proof.
  pose proof (due_requests_fair_and_capped busy sample_clock sample_now busy_wf eq_refl) as H. cbv zeta in H.
  destruct (due_vehicles busy sample_clock sample_now) as [reads s2].
  cbn [fst snd]. destruct (due_probe_vehicles s2 sample_now) as [probes s3].
  destruct H as (Hr & _ & Hcap & _). split; [exact (fc_once _ _ _ _ Hr)|]. apply Hcap. vm_compute. lia.
Defined.

Definition suspended_billing : VehicleScheduler :=
  on_account (fun a => a <| ac_state := AcBillingSuspended |> <| ac_next_billing_probe := Some (sample_now + 7) |>) busy.
Lemma stopped_account_sends_nothing_witness :
  (due_vehicles suspended_billing sample_clock sample_now).1 = []
  /\ list_due_at suspended_billing = Some (sample_now + 7).
Proof.
  split; [|vm_compute; reflexivity].
  apply (stopped_account_sends_nothing suspended_billing sample_clock sample_now). vm_compute. discriminate.
Defined.
