(* ===== verification/SchedCommit.v ===== *)
(** * The vehicle scheduler: the commit protocol

    Theorems on [SchedTick]: a committed tick leaves nothing to write, the gaps
    the store holds open are the ones the state asks for, and a failed commit
    returns the tick's facts. *)
From S2P Require Import Prelude RustStr F64 External Vocabulary Endpoint Ledger LedgerSafety BTree SchedTypes SchedState SchedAccount SchedOps SchedLoop SchedTick SchedDue.
Local Open Scope string_scope.
Local Open Scope Z_scope.

(** ** Gaps *)

Lemma opens_after_has k opens m :
  is_Some (bget k (opens_after opens m)) <-> is_Some (bget k m) \/ k ∈ go_key <$> opens.
Proof.
  unfold opens_after. revert m. induction opens as [|o opens IH]; intros m; simpl.
  { rewrite elem_of_nil. tauto. }
  rewrite IH, elem_of_cons. destruct (decide (key_compare k (go_key o) = Eq)) as [E|E].
  - apply key_compare_eq in E as ->. rewrite bget_bset. split; [by right; left|left; by eexists].
  - rewrite key_compare_eq in E. rewrite bget_bset_ne by done. tauto.
Qed.
Lemma closes_after_has k closes m :
  is_Some (bget k (closes_after closes m)) <-> is_Some (bget k m) /\ k ∉ gc_key <$> closes.
Proof.
  unfold closes_after. revert m. induction closes as [|c closes IH]; intros m; simpl.
  { pose proof (not_elem_of_nil k). tauto. }
  rewrite IH, not_elem_of_cons. destruct (decide (key_compare k (gc_key c) = Eq)) as [E|E].
  - apply key_compare_eq in E as ->. rewrite bget_bdel. split; [by intros [[? ?] _]|by intros (_ & [] & _)].
  - rewrite key_compare_eq in E. rewrite bget_bdel_ne by done. tauto.
Qed.

(** The entries [derive_gaps] opens and closes. *)
Definition gap_opens (s : VehicleScheduler) (wanted : bmap GapKey Z) : list GapOpen :=
  omap (fun '(k, started_ms) =>
    if bhas k (vs_open_gaps s) then None
    else Some (MkGapOpen k (id ← gk_vehicle k; v ← bget id (vs_vehicles s); hub_id v) started_ms
                 (any_car_awake s (gk_vehicle k)))) wanted.
Definition gap_closes (s : VehicleScheduler) (wanted : bmap GapKey Z) (wall : Z) : list GapClose :=
  omap (fun '(k, open) =>
    if bhas k wanted then None
    else Some (MkGapClose k (og_hub_id open) wall (timeout_ms (vs_timing s)))) (vs_open_gaps s).

Lemma gap_opens_key s wanted k :
  k ∈ go_key <$> gap_opens s wanted <-> is_Some (bget k wanted) /\ ~ is_Some (bget k (vs_open_gaps s)).
Proof.
  unfold gap_opens. rewrite list_elem_of_fmap. setoid_rewrite list_elem_of_omap. split.
  - intros (o & -> & [k' ms] & Hin & Ho). destruct (bhas k' (vs_open_gaps s)) eqn:E; simplify_eq/=.
    split; [apply bget_keys; by apply (list_elem_of_fmap_2 fst) in Hin|]. by rewrite <- bhas_bget, E.
  - intros [[ms Hms%bget_elem] Hno]. rewrite <- bhas_bget in Hno.
    eexists. split; [|exists (k, ms); split; [done|]]; [|by destruct (bhas k (vs_open_gaps s))]. done.
Qed.
Lemma gap_closes_key s wanted wall k :
  k ∈ gc_key <$> gap_closes s wanted wall <-> is_Some (bget k (vs_open_gaps s)) /\ ~ is_Some (bget k wanted).
Proof.
  unfold gap_closes. rewrite list_elem_of_fmap. setoid_rewrite list_elem_of_omap. split.
  - intros (o & -> & [k' open] & Hin & Ho). destruct (bhas k' wanted) eqn:E; simplify_eq/=.
    split; [apply bget_keys; by apply (list_elem_of_fmap_2 fst) in Hin|]. by rewrite <- bhas_bget, E.
  - intros [[open Hms%bget_elem] Hno]. rewrite <- bhas_bget in Hno.
    eexists. split; [|exists (k, open); split; [done|]]; [|by destruct (bhas k wanted)]. done.
Qed.

(** After the commit the store holds exactly the wanted gaps open. *)
Lemma gaps_settle s wanted wall k :
  is_Some (bget k (closes_after (gap_closes s wanted wall) (opens_after (gap_opens s wanted) (vs_open_gaps s))))
  <-> is_Some (bget k wanted).
Proof.
  rewrite closes_after_has, opens_after_has, gap_opens_key, gap_closes_key.
  destruct (bget k wanted), (bget k (vs_open_gaps s)); naive_solver.
Qed.

(** ** A committed tick *)

(** The parts of a tick that [take_tick] alone fills in. *)
Definition pending_plain (t : PendingTick) : Prop :=
  pt_account t = None /\ pt_vehicles t = [] /\ pt_gap_opens t = [] /\ pt_gap_closes t = [] /\ pt_counters t = [].

Lemma commit_frame s clk tick :
  let s' := commit_succeeded s clk tick in
  vs_vehicles s' = vs_vehicles s /\ vs_mode s' = vs_mode s /\ vs_timing s' = vs_timing s
  /\ vs_clock_watch s' = vs_clock_watch s /\ vs_gap_episodes s' = vs_gap_episodes s
  /\ vs_pending s' = vs_pending s /\ vs_config_fingerprint s' = vs_config_fingerprint s
  /\ vs_persisted_account s' = default (vs_persisted_account s) (aw_view <$> pt_account tick)
  /\ vs_persisted_vehicles s' = fold_left (fun m w => bset (vw_id w) (vw_view w) m) (pt_vehicles tick) (vs_persisted_vehicles s)
  /\ vs_open_gaps s' = closes_after (pt_gap_closes tick) (opens_after (pt_gap_opens tick) (vs_open_gaps s))
  /\ vs_account s' = (vs_account s) <| ac_store_failures := ac_store_failures (vs_account s') |>
                      <| ac_wait := ac_wait (vs_account s') |> <| ac_probe_time_of_the_tick := None |>
  /\ opt_filter (fun '(_, why) => bool_decide (why = WaRateLimited)) (ac_wait (vs_account s'))
     = opt_filter (fun '(_, why) => bool_decide (why = WaRateLimited)) (ac_wait (vs_account s)).
Proof.
  cbv zeta. unfold commit_succeeded. destruct (pt_account tick) as [w|];
    cbn -[capture_baseline]; (destruct (ac_store_failures (vs_account s) >? 0) eqn:Hf; cbn -[capture_baseline]);
    try (unfold waits_for; cbn -[capture_baseline]; destruct (ac_wait (vs_account s)) as [[u why]|] eqn:Hw; cbn -[capture_baseline]);
    try (case_bool_decide; cbn -[capture_baseline]); split_and!; try done;
    rewrite ?Hw; subst; try done; destruct (vs_account s); cbn in *; by subst.
Qed.

Lemma take_tick_parts s clk :
  pending_plain (vs_pending s) ->
  let now := mono_now clk in
  let wall := wall_or_last s clk in
  let wanted := wanted_gaps s now wall in
  let tick := (take_tick s clk).1 in
  pt_gaps tick = pt_gaps (vs_pending s) /\ pt_account tick = account_write s now wall
  /\ pt_vehicles tick = omap (fun '(id, v) => vehicle_write s now wall id v) (vs_vehicles s)
  /\ pt_gap_opens tick = gap_opens s wanted /\ pt_gap_closes tick = gap_closes s wanted wall
  /\ pt_counters tick = [] /\ pt_applied_actions tick = pt_applied_actions (vs_pending s)
  /\ (take_tick s clk).2 = s <| vs_pending := tick_default |> <| vs_gap_episodes := episodes_now s now wall |>.
Proof.
  intros (Ha & Hv & Ho & Hc & Hn). cbv zeta.
  change (account_write s (mono_now clk) (wall_or_last s clk))
    with (account_write (s <| vs_pending := tick_default |>) (mono_now clk) (wall_or_last s clk)).
  unfold take_tick. destruct (vs_pending s) as [g a vs os cs ns aa]; cbn in Ha, Hv, Ho, Hc, Hn; subst.
  destruct (account_write _ _ _); done.
Qed.

(** One wait of [episodes_now]. *)
Definition episode_step (now : Instant) (wall : Z) (episodes : bmap GapKind (Instant * Z)) (wait : GapKind * bool)
    : bmap GapKind (Instant * Z) :=
  let '(kind, active) := wait in
  if negb active then bdel kind episodes
  else match bget kind episodes with
       | Some _ => episodes
       | None => bset kind (now, wall) episodes
       end.
Lemma episode_step_ne now wall m kind kind' active :
  kind <> kind' -> bget kind (episode_step now wall m (kind', active)) = bget kind m.
Proof.
  intros Hne. unfold episode_step. destruct active; simpl; [|by apply bget_bdel_ne].
  case_match; [done|by apply bget_bset_ne].
Qed.
Lemma episode_step_active now wall m kind :
  bget kind (episode_step now wall m (kind, true)) = Some (default (now, wall) (bget kind m)).
Proof. unfold episode_step. simpl. destruct (bget kind m) eqn:E; [done|apply bget_bset]. Qed.

Lemma episodes_now_active s now wall kind :
  (kind, true) ∈ wait_kinds s ->
  default (now, wall) (bget kind (episodes_now s now wall)) = default (now, wall) (bget kind (vs_gap_episodes s)).
Proof.
  change (episodes_now s now wall) with (fold_left (episode_step now wall) (wait_kinds s) (vs_gap_episodes s)).
  unfold wait_kinds. cbn [fold_left]. intros [[= -> Ha]|[[= -> Ha]|Hn%elem_of_nil]%elem_of_cons]%elem_of_cons; [| |done].
  - by rewrite episode_step_ne, <- Ha, episode_step_active.
  - by rewrite <- Ha, episode_step_active, episode_step_ne.
Qed.

Lemma vehicle_write_shape s now wall id v w :
  vehicle_write s now wall id v = Some w -> vw_id w = id /\ vw_view w = vehicle_view v.
Proof.
  unfold vehicle_write. destruct (hub_id v); simpl; [|done]. case_match; [done|].
  unfold then_some. case_match; [|done]. by intros [= <-].
Qed.
Lemma vehicle_writes_notin s now wall id (cars : list (VehicleId * ScheduledVehicle)) m :
  id ∉ bkeys cars ->
  bget id (fold_left (fun m w => bset (vw_id w) (vw_view w) m)
             (omap (fun '(id, v) => vehicle_write s now wall id v) cars) m) = bget id m.
Proof.
  unfold bkeys. revert m. induction cars as [|[k v] cars IH]; intros m; [done|]. simpl.
  intros [Hne Hni]%not_elem_of_cons. destruct (vehicle_write s now wall k v) as [w|] eqn:E; simpl; [|by apply IH].
  rewrite IH by done. apply vehicle_write_shape in E as [-> _]. by apply bget_bset_ne.
Qed.
Lemma vehicle_writes_get s now wall id v (cars : list (VehicleId * ScheduledVehicle)) m :
  NoDup (bkeys cars) -> (id, v) ∈ cars ->
  bget id (fold_left (fun m w => bset (vw_id w) (vw_view w) m)
             (omap (fun '(id, v) => vehicle_write s now wall id v) cars) m)
  = match vehicle_write s now wall id v with Some _ => Some (vehicle_view v) | None => bget id m end.
Proof.
  revert m. induction cars as [|[k v'] cars IH]; intros m; [by intros _ ?%elem_of_nil|].
  intros [Hni Hnd]%NoDup_cons [[= <- <-]|Hin]%elem_of_cons; simpl.
  - destruct (vehicle_write s now wall id v) as [w|] eqn:E; simpl; rewrite vehicle_writes_notin by done; [|done].
    apply vehicle_write_shape in E as [-> ->]. apply bget_bset.
  - assert (id <> k). { intros ->. destruct Hni. by apply (list_elem_of_fmap_2 fst) in Hin. }
    destruct (vehicle_write s now wall k v') as [w|] eqn:E; simpl; rewrite IH by done; [|done].
    case_match; [done|]. apply vehicle_write_shape in E as [-> _]. by apply bget_bset_ne.
Qed.

Lemma omap_ext_elem {A B} (f g : A -> option B) (l : list A) :
  (forall x, x ∈ l -> f x = g x) -> omap f l = omap g l.
Proof.
  intros H. apply list_omap_ext. induction l as [|x l IH]; constructor; [apply H; by left|].
  apply IH. intros y Hy. apply H. by right.
Qed.
(** The committed state asks for the same gaps. *)
Lemma wanted_gaps_committed s s' now wall :
  vs_vehicles s' = vs_vehicles s -> wait_kinds s' = wait_kinds s ->
  vs_gap_episodes s' = episodes_now s now wall ->
  wanted_state_gaps s' wall = wanted_state_gaps s wall ->
  wanted_gaps s' now wall = wanted_gaps s now wall.
Proof.
  intros Hv Hk He Hst. unfold wanted_gaps, wanted_pause_gaps, wanted_wait_gaps. rewrite Hst, Hv, Hk, He.
  do 3 f_equal. apply omap_ext_elem. intros [kind []] Hin; [|done]. simpl. by rewrite episodes_now_active.
Qed.

Section Committed.
Context (s : VehicleScheduler) (clk : Clock).
Hypothesis Hwf : bwf (vs_vehicles s).
Hypothesis Hplain : pending_plain (vs_pending s).
Local Notation now := (mono_now clk).
Local Notation wall := (wall_or_last s clk).

(** The state after the tick was taken and committed. *)
Definition after_commit : VehicleScheduler := commit_succeeded (take_tick s clk).2 clk (take_tick s clk).1.

Lemma after_commit_frame :
  vs_vehicles after_commit = vs_vehicles s /\ wall_or_last after_commit clk = wall
  /\ vs_timing after_commit = vs_timing s /\ vs_pending after_commit = tick_default
  /\ vs_gap_episodes after_commit = episodes_now s now wall /\ wait_kinds after_commit = wait_kinds s
  /\ ac_state (vs_account after_commit) = ac_state (vs_account s)
  /\ ac_state_since_ms (vs_account after_commit) = ac_state_since_ms (vs_account s)
  /\ vs_persisted_account after_commit = default (vs_persisted_account s) (aw_view <$> account_write s now wall)
  /\ vs_persisted_vehicles after_commit
     = fold_left (fun m w => bset (vw_id w) (vw_view w) m)
         (omap (fun '(id, v) => vehicle_write s now wall id v) (vs_vehicles s)) (vs_persisted_vehicles s)
  /\ vs_open_gaps after_commit
     = closes_after (gap_closes s (wanted_gaps s now wall) wall)
         (opens_after (gap_opens s (wanted_gaps s now wall)) (vs_open_gaps s)).
Proof.
  destruct (take_tick_parts s clk Hplain) as (_ & Ha & Hv & Ho & Hc & _ & _ & Hs). unfold after_commit.
  destruct (commit_frame (take_tick s clk).2 clk (take_tick s clk).1)
    as (F1 & F2 & F3 & F4 & F5 & F6 & F7 & F8 & F9 & F10 & F11 & _).
  unfold wall_or_last, wait_kinds. rewrite F1, F3, F4, F5, F6, F8, F9, F10, F11, Ha, Hv, Ho, Hc, Hs. done.
Qed.

Lemma account_view_after : account_view after_commit = if account_is s AcCredentialStop
  then vs_persisted_account after_commit else account_view s.
Proof.
  destruct (take_tick_parts s clk Hplain) as (_ & _ & _ & _ & _ & _ & _ & Hs).
  destruct (commit_frame (take_tick s clk).2 clk (take_tick s clk).1)
    as (_ & _ & _ & _ & _ & _ & _ & _ & _ & _ & Hacc & Hwait). fold after_commit in Hacc, Hwait.
  rewrite Hs in Hacc, Hwait. unfold account_view, account_is in *. rewrite Hwait, Hacc. cbn.
  by case_bool_decide.
Qed.
Lemma account_settled : account_view after_commit = vs_persisted_account after_commit.
Proof.
  rewrite account_view_after. destruct (account_is s AcCredentialStop) eqn:E; [done|].
  destruct after_commit_frame as (_ & _ & _ & _ & _ & _ & _ & _ & -> & _).
  unfold account_write, then_some. case_bool_decide; done.
Qed.
Lemma vehicle_settled id v :
  bget id (vs_vehicles s) = Some v -> vehicle_write after_commit now wall id v = None.
Proof.
  intros Hv. destruct after_commit_frame as (_ & _ & _ & _ & _ & _ & _ & _ & _ & Hp & _).
  pose proof (vehicle_writes_get s now wall id v (vs_vehicles s) (vs_persisted_vehicles s)
                (bwf_nodup _ Hwf) (bget_elem _ _ _ Hv)) as Hget. rewrite <- Hp in Hget.
  destruct (vehicle_write s now wall id v) eqn:E.
  - unfold vehicle_write. rewrite Hget. destruct (hub_id v); simpl; [|done]. case_match; [done|].
    by rewrite bool_decide_eq_true_2.
  - unfold vehicle_write in *. rewrite Hget. exact E.
Qed.
Lemma state_gaps_settled : wanted_state_gaps after_commit wall = wanted_state_gaps s wall.
Proof.
  destruct after_commit_frame as (_ & _ & _ & _ & _ & _ & Hst & Hsince & Hp & _).
  unfold wanted_state_gaps, account_is. rewrite Hst, Hsince. f_equal.
  case_bool_decide as Hc; [|by repeat case_match]. rewrite Hp. unfold account_write, account_view, account_is.
  rewrite (bool_decide_eq_true_2 (ac_state _ = _)) by done. by rewrite bool_decide_eq_true_2.
Qed.
Lemma gaps_settled : wanted_gaps after_commit now wall = wanted_gaps s now wall.
Proof.
  destruct after_commit_frame as (Hv & _ & _ & _ & He & Hk & _).
  apply wanted_gaps_committed; [done..|]. apply state_gaps_settled.
Qed.
Lemma open_gaps_settled k :
  is_Some (bget k (vs_open_gaps after_commit)) <-> is_Some (bget k (wanted_gaps s now wall)).
Proof.
  destruct after_commit_frame as (_ & _ & _ & _ & _ & _ & _ & _ & _ & _ & ->). apply gaps_settle.
Qed.

End Committed.

Lemma omap_none {A B} (f : A -> option B) (l : list A) : (forall x, x ∈ l -> f x = None) -> omap f l = [].
Proof.
  intros H. rewrite (omap_ext_elem f (fun _ => None)) by done. clear H. induction l as [|x l IH]; [done|exact IH].
Qed.
Lemma gap_opens_nil s wanted :
  (forall k, is_Some (bget k wanted) -> is_Some (bget k (vs_open_gaps s))) -> gap_opens s wanted = [].
Proof.
  intros H. destruct (gap_opens s wanted) as [|o l] eqn:E; [done|].
  assert (Hin : go_key o ∈ go_key <$> gap_opens s wanted) by (rewrite E; by left).
  apply gap_opens_key in Hin as [Hw Hn]. by destruct Hn; apply H.
Qed.
Lemma gap_closes_nil s wanted wall :
  (forall k, is_Some (bget k (vs_open_gaps s)) -> is_Some (bget k wanted)) -> gap_closes s wanted wall = [].
Proof.
  intros H. destruct (gap_closes s wanted wall) as [|c l] eqn:E; [done|].
  assert (Hin : gc_key c ∈ gc_key <$> gap_closes s wanted wall) by (rewrite E; by left).
  apply gap_closes_key in Hin as [Ho Hn]. by destruct Hn; apply H.
Qed.

Lemma tick_empty_eq t :
  pt_gaps t = [] -> pt_account t = None -> pt_vehicles t = [] -> pt_gap_opens t = [] -> pt_gap_closes t = [] ->
  pt_counters t = [] -> pt_applied_actions t = [] -> t = tick_default.
Proof. destruct t; simpl. by intros -> -> -> -> -> -> ->. Qed.
Lemma second_tick_empty s clk :
  bwf (vs_vehicles s) -> pending_plain (vs_pending s) -> (take_tick (after_commit s clk) clk).1 = tick_default.
Proof.
  intros Hwf Hplain. destruct (after_commit_frame s clk Hplain) as (Hv & Hw & _ & Hp & _).
  destruct (take_tick_parts (after_commit s clk) clk) as (P1 & P2 & P3 & P4 & P5 & P6 & P7 & _); [by rewrite Hp|].
  apply tick_empty_eq; [by rewrite P1, Hp| | | | |done|by rewrite P7, Hp].
  - rewrite P2. unfold account_write. rewrite account_settled by done. by rewrite bool_decide_eq_true_2.
  - rewrite P3, Hw, Hv. apply omap_none. intros [id v] Hin. apply vehicle_settled; [done..|].
    apply bget_nodup; [by apply bwf_nodup|done].
  - rewrite P4, Hw, gaps_settled by done. apply gap_opens_nil. intros k. by apply open_gaps_settled.
  - rewrite P5, Hw, gaps_settled by done. apply gap_closes_nil. intros k. by apply open_gaps_settled.
Qed.
Lemma row_settled s clk id v :
  bwf (vs_vehicles s) -> pending_plain (vs_pending s) ->
  bget id (vs_vehicles s) = Some v -> is_Some (hub_id v) -> placeholder v = false ->
  bget id (vs_persisted_vehicles (after_commit s clk)) = Some (vehicle_view v)
  \/ bget id (vs_persisted_vehicles (after_commit s clk)) = None /\ is_initial (vehicle_view v) = true.
Proof.
  intros Hwf Hplain Hget [hub Hhub] Hph. pose proof (vehicle_settled s clk Hwf Hplain id v Hget) as Hs.
  revert Hs. unfold vehicle_write. rewrite Hhub, Hph. cbn [andb mbind option_bind]. generalize (vehicle_view v) as view.
  intros view. unfold then_some.
  destruct (bget id (vs_persisted_vehicles (after_commit s clk))) as [p|].
  - case_bool_decide; [subst; by left|done].
  - right. split; [done|]. by destruct (is_initial view).
Qed.

(** C8: A tick that was taken and committed leaves nothing to write: the next tick
    at the same clock is empty, the store's account row is the account in memory,
    the row of every listed car is the car in memory (or the car never left its
    initial state), and the gaps the store holds open are exactly the ones the
    state asks for. *)
Theorem committed_tick_settles s clk :
  bwf (vs_vehicles s) -> pending_plain (vs_pending s) ->
  let '(tick, s1) := take_tick s clk in
  let s2 := commit_succeeded s1 clk tick in
  (take_tick s2 clk).1 = tick_default
  /\ vs_persisted_account s2 = account_view s2
  /\ (forall id v, bget id (vs_vehicles s2) = Some v -> is_Some (hub_id v) -> placeholder v = false ->
        bget id (vs_persisted_vehicles s2) = Some (vehicle_view v)
        \/ bget id (vs_persisted_vehicles s2) = None /\ is_initial (vehicle_view v) = true)
  /\ (forall k, is_Some (bget k (vs_open_gaps s2))
        <-> is_Some (bget k (wanted_gaps s (mono_now clk) (wall_or_last s clk)))).
Proof.
  intros Hwf Hplain. destruct (take_tick s clk) as [tick s1] eqn:Et.
  assert (He : commit_succeeded s1 clk tick = after_commit s clk) by (unfold after_commit; by rewrite Et).
  rewrite He. cbv zeta. destruct (after_commit_frame s clk Hplain) as (Hv & Hw & _ & Hp & _).
  split_and!.
  - by apply second_tick_empty.
  - by rewrite account_settled.
  - intros id v. rewrite Hv. by apply row_settled.
  - intros k. by apply open_gaps_settled.
Qed.

(** ** A failed commit *)

Lemma restore_get b s id v base :
  NoDup (bkeys (tb_vehicles b)) -> bget id (vs_vehicles s) = Some v -> bget id (tb_vehicles b) = Some base ->
  bget id (vs_vehicles (restore_baseline b s)) = Some (restore_vehicle base v).
Proof.
  intros Hnd Hv Hb. unfold restore_baseline. cbn.
  assert (Hr : bget id (bretain (fun id _ => bhas id (tb_vehicles b)) (vs_vehicles s)) = Some v).
  { rewrite bget_bretain_key. unfold bhas. by rewrite Hb. }
  revert Hr Hb Hnd. generalize (bretain (fun id _ => bhas id (tb_vehicles b)) (vs_vehicles s)) as m.
  unfold bkeys. induction (tb_vehicles b) as [|[k bs] l IH]; intros m Hm; [done|]. simpl.
  intros Hb [Hni Hnd]%NoDup_cons. destruct (key_compare id k) eqn:E.
  - apply key_compare_eq in E as <-. injection Hb as ->.
    assert (Hk : bget id (bupd (restore_vehicle base) id m) = Some (restore_vehicle base v)) by by rewrite bget_bupd, Hm.
    revert Hk. generalize (bupd (restore_vehicle base) id m). clear -Hni.
    induction l as [|[k bs] l IH]; intros m Hk; [done|]. simpl. apply not_elem_of_cons in Hni as [Hne Hni].
    apply IH; [done|]. by rewrite bget_bupd_ne.
  - apply IH; [|done..]. rewrite bget_bupd_ne; [done|]. intros ->. by rewrite key_compare_refl in E.
  - apply IH; [|done..]. rewrite bget_bupd_ne; [done|]. intros ->. by rewrite key_compare_refl in E.
Qed.
Lemma restore_gone b s id :
  bget id (tb_vehicles b) = None -> bget id (vs_vehicles (restore_baseline b s)) = None.
Proof.
  intros Hb. unfold restore_baseline. cbn.
  assert (Hr : bget id (bretain (fun id _ => bhas id (tb_vehicles b)) (vs_vehicles s)) = None).
  { rewrite bget_bretain_key. unfold bhas. by rewrite Hb. }
  revert Hr. generalize (bretain (fun id _ => bhas id (tb_vehicles b)) (vs_vehicles s)).
  induction (tb_vehicles b) as [|[k bs] l IH]; intros m Hm; [done|]. simpl in *.
  destruct (key_compare id k) eqn:E; [done|..]; (apply IH; [done|]);
    (rewrite bget_bupd_ne; [done|intros ->; by rewrite key_compare_refl in E]).
Qed.

(** ** Evaluations *)

(** A paused and a suspended car, and an account that Tesla refused. *)
Definition refused_account : VehicleScheduler :=
  on_account (fun a => a <| ac_state := AcOwnerApiRefused |> <| ac_state_reason := "owner_api_refused" |>)
    (with_cars [(sample_car 1) <| hold := Paused LegalPrivacy |> <| reason := "paused_legal_privacy" |>;
                (sample_car 2) <| phase := Suspended |> <| suspended_until := Some (sample_now + 5) |>] sample_start).
Lemma refused_account_wf : bwf (vs_vehicles refused_account).
Proof. unfold bwf. vm_compute. repeat constructor. Qed.
Example refused_account_tick :
  let tick := (take_tick refused_account sample_clock).1 in
  vr_hold <$> (vw_row <$> pt_vehicles tick) = ["paused"; "none"]
  /\ (gk_kind ∘ go_key) <$> pt_gap_opens tick = [GapVehiclePaused; GapOwnerApiRefused].
Proof. vm_compute. split; reflexivity. Qed.
Lemma committed_tick_settles_witness :
  tick_is_empty (take_tick refused_account sample_clock).1 = false
  /\ (take_tick (commit_succeeded (take_tick refused_account sample_clock).2 sample_clock
                   (take_tick refused_account sample_clock).1) sample_clock).1 = tick_default.
Proof.
  split; [vm_compute; reflexivity|].
  pose proof (committed_tick_settles refused_account sample_clock refused_account_wf
                (conj eq_refl (conj eq_refl (conj eq_refl (conj eq_refl eq_refl))))) as H.
  destruct (take_tick refused_account sample_clock) as [tick s1]. exact (proj1 H).
Defined.
