(* ===== verification/SchedInv.v ===== *)
(** * The vehicle scheduler: the invariant of its cars

    What holds of every car of every reachable scheduler, rule by rule: its
    reason is one the store knows, and the read of a Suspended car is the one
    that ends its suspension or carries the live stream's gate.  The second part
    is lost by two operations, so the invariant takes a flag and [SchedSteps]
    says which steps keep it. *)
From S2P Require Import Prelude RustStr F64 External Vocabulary Endpoint Ledger BTree SchedTypes SchedState SchedAccount SchedOps SchedLoop SchedTick.
Local Open Scope string_scope.
Local Open Scope Z_scope.

Definition interned (why : string) : Prop := bool_decide (why ∈ REASON_CODES) = true.
Definition qualified (v : ScheduledVehicle) : Prop :=
  hold v = HoldNone -> phase v = Suspended -> is_Some (next_read_due v) ->
  suspension_read v = true \/ is_Some (gated_read v).

(** [gates]: the gates of Suspended cars are part of it. *)
Record car_ok (gates : bool) (v : ScheduledVehicle) : Prop := MkCarOk {
  ok_reason : interned (reason v);
  ok_gate : gates = true -> qualified v;
}.

Section Cars.
Context (gates : bool).
Local Notation ok := (car_ok gates).

(** A change of fields the invariant does not read. *)
Lemma ok_same v v' :
  reason v' = reason v -> hold v' = hold v -> phase v' = phase v -> next_read_due v' = next_read_due v ->
  suspension_read v' = suspension_read v -> gated_read v' = gated_read v -> ok v -> ok v'.
Proof. intros H1 H2 H3 H4 H5 H6 [Hr Hq]. split; [by rewrite H1|]. unfold qualified in *. by rewrite H2, H3, H4, H5, H6. Qed.
(** Outside of Suspended, or held, or with no read due, only the reason counts. *)
Lemma ok_unread v : interned (reason v) -> next_read_due v = None -> ok v.
Proof. intros Hr Hn. split; [done|]. intros _ _ _ [? H]. congruence. Qed.
Lemma ok_phase v : interned (reason v) -> phase v <> Suspended -> ok v.
Proof. intros Hr Hp. split; [done|]. by intros _ _ ?. Qed.
Lemma ok_held v : interned (reason v) -> hold v <> HoldNone -> ok v.
Proof. intros Hr Hp. split; [done|]. by intros _ ?. Qed.
Lemma ok_gated v : interned (reason v) -> is_Some (gated_read v) -> ok v.
Proof. intros Hr Hg. split; [done|]. by right. Qed.
Lemma ok_ending v : interned (reason v) -> suspension_read v = true -> ok v.
Proof. intros Hr Hg. split; [done|]. by left. Qed.

Lemma ok_new vh now wall : ok (scheduled_new vh now wall).
Proof. apply ok_unread; [|done]. unfold scheduled_new. cbn [reason]. by destruct (es_enabled _). Qed.
Lemma ok_configured id hub st now wall v : configured_only id hub st now wall = Some v -> ok v.
Proof.
  intros (stream_id & _ & [= <-])%bind_Some. by apply (ok_same (scheduled_new (MkVehicle id stream_id "" "unknown" None st) now wall)), ok_new.
Qed.

(** *** Phases *)

Definition core_rest (v : ScheduledVehicle) := (hold v, gated_read v, suspension_read v, settings v, stream v).
Definition core (v : ScheduledVehicle) := (phase v, reason v, core_rest v).
Lemma enter_phase_fields t v new now wall why :
  let v' := enter_phase t v new now wall why in
  phase v' = new /\ hold v' = hold v /\ gated_read v' = gated_read v /\ suspension_read v' = suspension_read v
  /\ settings v' = settings v /\ stream v' = stream v
  /\ (reason v' = reason v \/ reason v' = why)
  /\ (new = Suspended -> phase v <> Suspended -> next_read_due v' = None).
Proof.
  cbv zeta. unfold enter_phase. case_bool_decide as Hp; [by split_and!; auto; congruence|]. cbv zeta.
  set (v1 := v <| phase := new |> <| phase_since := (now, wall) |> <| reason := why |>).
  assert (H1 : core v1 = (new, why, core_rest v)) by done. clearbody v1.
  set (v2 := match new with
             | Asleep | Offline | Suspended => v1 <| next_read_due := None |>
             | _ => v1
             end).
  assert (H2 : core v2 = core v1 /\ (new = Suspended -> next_read_due v2 = None)) by by destruct new. clearbody v2.
  set (v3 := if bool_decide (new = Online) then v2 else v2 <| suspend_at := None |>).
  assert (H3 : core v3 = core v2 /\ next_read_due v3 = next_read_due v2) by (unfold v3; by case_match). clearbody v3.
  set (v4 := if bool_decide (new = Suspended) then v3 else v3 <| suspended_until := None |>).
  assert (H4 : core v4 = core v3 /\ next_read_due v4 = next_read_due v3) by (unfold v4; by case_match). clearbody v4.
  destruct H2 as [H2 Hn], H3 as [H3 Hn3], H4 as [H4 Hn4].
  assert (Hc : core v4 = (new, why, core_rest v)) by congruence. unfold core, core_rest in Hc. simplify_eq.
  assert (Hnone : phase v4 = Suspended -> next_read_due v4 = None) by (intros; rewrite Hn4, Hn3; auto).
  destruct (next_read_due v4) as [due|] eqn:En; [|split_and!; auto].
  destruct (read_interval _ _ _); split_and!; auto; intros Hs; by specialize (Hnone Hs).
Qed.
Lemma enter_phase_reason t v new now wall why :
  interned (reason v) -> interned why -> interned (reason (enter_phase t v new now wall why)).
Proof.
  intros Hv Hw. destruct (enter_phase_fields t v new now wall why) as (_ & _ & _ & _ & _ & _ & [->| ->] & _); done.
Qed.
Lemma ok_enter_phase t v new now wall why : interned why -> ok v -> ok (enter_phase t v new now wall why).
Proof.
  intros Hw Hv. destruct (decide (phase v = new)) as [E|E].
  { unfold enter_phase. by rewrite bool_decide_eq_true_2. }
  assert (Hr : interned (reason (enter_phase t v new now wall why))) by (apply enter_phase_reason; [apply Hv|done]).
  destruct (enter_phase_fields t v new now wall why) as (Hp & _ & _ & _ & _ & _ & _ & Hn).
  destruct (decide (new = Suspended)) as [->|Hne]; [apply ok_unread; auto|]. apply ok_phase; [done|congruence].
Qed.
Lemma ok_enter_out t v new now wall why :
  interned (reason v) -> interned why -> new <> Suspended -> ok (enter_phase t v new now wall why).
Proof.
  intros Hr Hw Hn. apply ok_phase; [by apply enter_phase_reason|].
  destruct (enter_phase_fields t v new now wall why) as (-> & _). done.
Qed.
Lemma ok_clear_pending v : interned (reason v) -> ok (clear_pending_reads v).
Proof. intros Hr. by apply ok_unread. Qed.
Lemma ok_begin_suspension t v now wall until why :
  interned (reason v) -> interned why -> ok (begin_suspension t v now wall until why).
Proof. intros Hr Hw. apply ok_unread; [|done]. by apply (enter_phase_reason t v Suspended now wall why). Qed.

Lemma ok_online_after_sleep t v now wall :
  phase v <> Suspended -> interned (reason v) -> ok (online_after_sleep t v now wall).2.
Proof.
  intros Hp Hr. unfold online_after_sleep. case_match; [by apply ok_phase|]. case_match; [by apply ok_phase|].
  by apply ok_begin_suspension.
Qed.
Lemma ok_apply_reported t v state now wall : ok v -> ok (apply_reported_state t v state now wall).2.
Proof.
  intros Hv. unfold apply_reported_state. cbv zeta.
  set (v1 := (if _ : bool then v <| next_probe_due := Some now |> else v)).
  assert (Hv1 : ok v1) by (unfold v1; case_match; [by apply (ok_same v)|done]).
  clearbody v1. set (v2 := v1 <| vehicle := _ |> <| reported_state := _ |>).
  assert (Hv2 : ok v2) by by apply (ok_same v1). clearbody v2. clear v1 Hv1.
  pose proof (ok_reason _ _ Hv2) as Hr.
  case_match; [done|]. case_bool_decide; [by apply ok_clear_pending, enter_phase_reason|].
  case_bool_decide.
  { destruct (phase v2) eqn:E; try done; by apply ok_clear_pending, enter_phase_reason. }
  case_bool_decide; [|done].
  destruct (bool_decide (phase v2 = Unknown)) eqn:E; [apply bool_decide_eq_true in E|]; simpl.
  { rewrite E, !andb_false_r. case_match; [|done]. by apply ok_phase. }
  destruct (phase v2) eqn:E2; rewrite ?andb_false_r; try done;
    (case_match; [apply ok_online_after_sleep; [congruence|done]|done]).
Qed.

(** *** Evidence and timers *)

Lemma ok_make_read_due t now v :
  interned (reason v) -> (phase v = Suspended -> is_Some (gated_read v)) -> ok (make_read_due t now v).
Proof.
  intros Hr Hg. destruct (decide (phase v = Suspended)); [apply ok_gated; [done|by apply Hg]|by apply ok_phase].
Qed.
Lemma ok_evidence t v e source now wall : ok v -> ok (car_evidence t v e source now wall).
Proof.
  intros Hv. pose proof (ok_reason _ _ Hv) as Hr. unfold car_evidence. case_match; [done|]. cbv zeta.
  destruct (motion e).
  - assert (Hu : ok (v <| last_in_use := Some now |>)) by by apply (ok_same v).
    assert (Hout : ok (let v := enter_phase t (v <| last_in_use := Some now |>) Driving now wall (evidence_reason source) in
                       if bool_decide (hold v = HoldNone) then make_read_due t now v else v)).
    { cbv zeta. set (w := enter_phase _ _ _ _ _ _).
      assert (Hw : interned (reason w)) by (apply enter_phase_reason; [done|by destruct source]).
      assert (Hp : phase w = Driving) by apply enter_phase_fields.
      case_match; [apply ok_make_read_due; [done|congruence]|by apply ok_phase; [|congruence]]. }
    destruct (enter_phase_fields t (v <| last_in_use := Some now |>) Driving now wall (evidence_reason source)) as (_ & Hh & _).
    cbv zeta in Hout. rewrite Hh in Hout. cbn [hold] in Hout.
    change (phase (v <| last_in_use := Some now |>)) with (phase v).
    destruct (phase v) eqn:E; try exact Hout; try exact Hu.
    clear Hout Hh. case_bool_decide; [|exact Hu]. apply ok_make_read_due; [done|by eexists].
  - destruct (negb _); [done|].
    destruct (parked_gear e && bool_decide (phase v = Driving)) eqn:Hpk.
    { apply andb_true_iff in Hpk as [_ Hd%bool_decide_eq_true]. apply ok_make_read_due; [done|congruence]. }
    destruct (wants_read e && _); [|done]. destruct (is_none_or _ _); [|done].
    change (phase (v <| last_power_trigger := Some now |>)) with (phase v).
    clear Hpk. case_bool_decide; (apply ok_make_read_due; [done|]); [by eexists|done].
Qed.
Lemma ok_timers t now wall v : ok v -> ok (car_timers t now wall v).2.
Proof.
  intros Hv. pose proof (ok_reason _ _ Hv) as Hr. unfold car_timers. case_match; [done|]. cbv zeta.
  destruct (phase v) eqn:E; try done.
  - case_match; [by apply ok_begin_suspension|done].
  - case_match; [|done]. case_match; [by apply ok_ending|by apply ok_begin_suspension].
  - case_match; [by apply ok_clear_pending, enter_phase_reason|done].
Qed.

(** *** Reads *)

Lemma ok_due_interval t v now :
  phase v <> Suspended -> interned (reason v) ->
  ok (match read_interval t (phase v) (stream_healthy_for_cadence v now) with
      | Some i => v <| next_read_due := Some (deadline_after now i) |>
      | None => v
      end).
Proof. intros Hp Hr. case_match; by apply ok_phase. Qed.
Lemma ok_car_read t v new sleep_eligible now wall :
  is_read_phase new = true -> ok v -> ok (car_read t v new sleep_eligible now wall).2.
Proof.
  intros Hnew [Hr _]. assert (Hns : new <> Suspended) by by intros ->. unfold car_read. cbv zeta.
  set (v1 := (if sleep_eligible then _ else _)).
  assert (Hr1 : interned (reason v1)) by (unfold v1; by destruct sleep_eligible). clearbody v1.
  match goal with |- context [let '(a, b) := ?x in _] => set (r := x) end.
  assert (H : interned (reason r.2) /\ (r.1 = false -> phase r.2 <> Suspended)).
  { assert (Hent : forall w, interned w -> interned (reason (enter_phase t v1 new now wall w))
                            /\ phase (enter_phase t v1 new now wall w) <> Suspended).
    { intros w Hw. split; [by apply enter_phase_reason|].
      destruct (enter_phase_fields t v1 new now wall w) as (-> & _). done. }
    unfold r. destruct (is_session new); [destruct (is_some (gated_read v)); (split; [by apply Hent|intros _; by apply Hent])|].
    destruct (negb sleep_eligible).
    { match goal with |- context [enter_phase t v1 new now wall ?w] => destruct (Hent w) as [H1 H2] end; [|done].
      destruct (is_some (gated_read v)); [done|]. destruct (bool_decide (phase v = Suspended)); [done|].
      by destruct (wake_read_pending v). }
    destruct (bool_decide (phase v = Suspended)); [done|].
    match goal with |- context [enter_phase t v1 new now wall ?w] =>
      destruct (Hent w) as [H1 H2]; [by destruct (wake_read_pending v)|];
      generalize dependent (enter_phase t v1 new now wall w); intros v2 H1 H2 end.
    repeat case_match; done. }
  destruct r as [[] v2]; cbn [fst snd] in H; destruct H as [H1 H2].
  { apply ok_begin_suspension; [|done]. by case_match. }
  match goal with |- context [bool_decide (hold ?x = HoldNone)] => set (v3 := x) end.
  assert (Hv3 : ok v3) by (apply ok_due_interval; [by apply H2|done]). clearbody v3.
  case_match; [|done]. apply ok_begin_suspension; [by apply Hv3|done].
Qed.

(** The car's part of a failed read that counts, of a 408, of a failure of the
    account and of a gate the stream did not confirm. *)
Lemma ok_unless_suspended v due :
  interned (reason v) -> ok (v <| next_read_due := unless_suspended v due |>).
Proof.
  intros Hr. unfold unless_suspended. destruct (bool_decide (phase v = Suspended)) eqn:Hp.
  - destruct (suspension_read v) eqn:E; [by apply ok_ending|by apply ok_unread].
  - apply bool_decide_eq_false in Hp. by apply ok_phase.
Qed.
Lemma ok_failure t now class u v :
  interned (reason v) ->
  ok (let v := v <| consecutive_failures := u32_sadd (consecutive_failures v) 1 |>
                 <| first_failure := Some (default now (first_failure v)) |> <| last_error := Some class |> in
      let delay := Z.max (interval v t now) (backoff_delay (consecutive_failures v) (t_max_backoff t) u) in
      v <| next_read_due := unless_suspended v (deadline_after now delay) |>).
Proof. intros Hr. by apply ok_unless_suspended. Qed.
Lemma ok_unavailable t now v :
  interned (reason v) ->
  ok (let v := v <| unavailable_check := true |> in
      v <| next_read_due := unless_suspended v (deadline_after now (interval v t now)) |>).
Proof. intros Hr. by apply ok_unless_suspended. Qed.
Lemma ok_gated_motion t gated now wall v v' :
  interned (reason v) -> gated_motion t gated now wall v = Some v' -> ok v'.
Proof.
  unfold gated_motion. intros Hr. case_match; [|done]. intros [= <-]. by apply ok_enter_out.
Qed.
Lemma gated_motion_none t gated now wall v :
  gated_motion t gated now wall v = None -> gated = Some Motion -> phase v <> Suspended.
Proof. unfold gated_motion. intros H ->. case_match eqn:E; [done|]. simpl in E. by apply bool_decide_eq_false in E. Qed.
Lemma ok_gate_not_confirmed v :
  ok v ->
  ok (let v := v <| in_flight := false |> <| gated_read := None |> in
      if bool_decide (phase v = Suspended) && negb (suspension_read v) then v <| next_read_due := None |> else v).
Proof.
  intros Hv. pose proof (ok_reason _ _ Hv) as Hr. cbv zeta.
  change (phase (v <| in_flight := false |> <| gated_read := None |>)) with (phase v).
  change (suspension_read (v <| in_flight := false |> <| gated_read := None |>)) with (suspension_read v).
  destruct (bool_decide (phase v = Suspended)) eqn:Hp; [apply bool_decide_eq_true in Hp|apply bool_decide_eq_false in Hp].
  - destruct (suspension_read v) eqn:E; [by apply ok_ending|by apply ok_unread].
  - by apply ok_phase.
Qed.
Lemma ok_release_read t class now wall until v :
  ok v ->
  ok (let v := v <| in_flight := false |> <| last_error := Some class |> in
      let gated := gated_read v in
      let v := default v (gated_motion t gated now wall (v <| gated_read := None |>)) in
      if bool_decide (phase v = Suspended) && negb (suspension_read v) then v
      else
        let due := default now (next_read_due v) in
        v <| next_read_due := Some (map_or until due (fun until => Z.max due until)) |>).
Proof.
  intros Hv. cbv zeta. set (v1 := v <| in_flight := false |> <| last_error := Some class |>).
  assert (Hv1 : ok v1) by by apply (ok_same v). clearbody v1. clear Hv.
  set (v2 := default v1 _).
  assert (Hv2 : ok v2).
  { unfold v2. destruct (gated_motion t _ now wall _) as [w|] eqn:E; [|done].
    apply (ok_gated_motion t (gated_read v1) now wall (v1 <| gated_read := None |>)); [apply Hv1|exact E]. }
  clearbody v2. pose proof (ok_reason _ _ Hv2).
  destruct (bool_decide (phase v2 = Suspended)) eqn:Hp; [apply bool_decide_eq_true in Hp|apply bool_decide_eq_false in Hp].
  - destruct (suspension_read v2) eqn:E; [by apply ok_ending|done].
  - by apply ok_phase.
Qed.
Lemma ok_not_found t now v : ok v -> ok (car_not_found t now v).
Proof.
  intros Hv. unfold car_not_found. cbv zeta.
  set (v1 := v <| in_flight := false |> <| last_error := Some ClNotFound |> <| not_found_check := true |>).
  assert (Hv1 : ok v1) by by apply (ok_same v). clearbody v1. clear Hv. pose proof (ok_reason _ _ Hv1) as Hr.
  set (v2 := (if _ : bool then _ else v1)).
  assert (Hv2 : ok v2).
  { unfold v2. destruct (bool_decide (hold v1 = HoldNone)); [|done]. destruct (is_some _); rewrite ?andb_false_r; [|done].
    destruct (bool_decide (phase v1 = Suspended)) eqn:Hp; simpl.
    - destruct (suspension_read v1) eqn:E; simpl; [by apply ok_ending|done].
    - apply bool_decide_eq_false in Hp. by apply ok_phase. }
  clearbody v2. case_match; [by apply (ok_same v2)|done].
Qed.

(** *** Holds and lists *)

Lemma inactive_held v : is_inactive v = true -> hold v <> HoldNone.
Proof. unfold is_inactive. by destruct (hold v). Qed.
Lemma ok_pause v why class now : interned (reason v) -> ok (car_pause v why class now).
Proof.
  intros Hr. unfold car_pause. cbv zeta. case_match eqn:E; (apply ok_held; [|done]) || apply ok_held.
  - done.
  - by apply (inactive_held v).
  - by destruct why.
Qed.
Lemma ok_service v now : interned (reason v) -> ok (car_service v now).2.
Proof.
  intros Hr. unfold car_service. cbv zeta. case_match eqn:E; [|by apply ok_held].
  apply ok_held; [done|]. apply orb_true_iff in E as [E|E%bool_decide_eq_true]; [by apply (inactive_held v)|].
  cbn in *. congruence.
Qed.
Lemma ok_car_release v why now wall : interned why -> ok v -> ok (car_release v why now wall).2.
Proof. intros Hw Hv. unfold car_release. destruct (hold v); try done; by apply ok_phase. Qed.
Lemma ok_unlisted v inventory now : ok v -> ok (car_unlisted v inventory now).
Proof.
  intros Hv. unfold car_unlisted. cbv zeta. case_match; [by apply (ok_same v)|].
  case_match; [by apply (ok_same v)|by apply ok_held].
Qed.
Lemma ok_note_listed v now wall : ok v -> ok (note_listed v now wall).
Proof. intros Hv. unfold note_listed. cbv zeta. case_match; [by apply ok_phase|by apply (ok_same v)]. Qed.
Lemma ok_settle v state : ok v -> ok (settle_unavailable v state).2.
Proof. intros Hv. by apply (ok_same v). Qed.
Lemma ok_rearm class now v : ok v -> ok (rearm_probe class now v).
Proof.
  intros Hv. unfold rearm_probe. cbv zeta. apply (ok_same v); [..|done];
    (destruct (hold v) as [| | |[]|] eqn:E; cbn; by rewrite ?E).
Qed.

Lemma intern_reason_known code : interned (intern_reason code).
Proof.
  unfold intern_reason. destruct (find_first _ _) as [r|] eqn:E; [|done]. simpl. unfold interned.
  apply bool_decide_eq_true. revert E. generalize REASON_CODES.
  induction l as [|x l IH]; simpl; [done|]. case_bool_decide; [intros [= <-]; left|].
  intros Hf. right. auto.
Qed.
Lemma intern_reason_id code : code ∈ REASON_CODES -> intern_reason code = code.
Proof.
  unfold intern_reason. generalize REASON_CODES. induction l as [|x l IH]; [by intros ?%elem_of_nil|].
  intros [->|Hin]%elem_of_cons; simpl; [by rewrite bool_decide_eq_true_2|]. case_bool_decide; [done|by apply IH].
Qed.
Lemma restored_reason v restored now wall :
  interned (reason v) -> interned (reason (apply_restored v restored now wall)).
Proof.
  intros Hr. unfold apply_restored. cbv zeta. pose proof (intern_reason_known (vr_reason_code (rs_row restored))).
  case_match; [done|].
  set (v1 := (if bool_decide (vr_hold (rs_row restored) ∈ _) then _ else _)).
  assert (H1 : interned (reason v1)) by (unfold v1; case_match; done).
  clearbody v1. by repeat case_match.
Qed.
Lemma restored_unread v restored now wall : next_read_due (apply_restored v restored now wall) = next_read_due v.
Proof.
  unfold apply_restored. cbv zeta. case_match; [done|].
  set (v1 := (if bool_decide (vr_hold (rs_row restored) ∈ _) then _ else _)).
  assert (H1 : next_read_due v1 = next_read_due v) by (unfold v1; case_match; done).
  clearbody v1. by repeat case_match.
Qed.

Lemma ok_restored v restored now wall :
  interned (reason v) -> (gates = true -> next_read_due v = None) -> ok (apply_restored v restored now wall).
Proof.
  intros Hr Hn. split; [by apply restored_reason|]. intros Hg _ _ [due Hd].
  rewrite restored_unread, Hn in Hd by done. done.
Qed.

Lemma ok_list_car t known restored incoming now wall :
  (forall v, known = Some v -> ok v /\ (gates = true -> placeholder v = true -> next_read_due v = None)) ->
  ok (list_car t known restored incoming now wall).2.
Proof.
  intros Hk. unfold list_car. cbv zeta.
  set (v1 := match known with Some v => v | None => _ end).
  assert (H1 : ok v1 /\ (gates = true -> placeholder v1 = true -> next_read_due v1 = None)).
  { unfold v1. destruct known as [v|]; [by apply Hk|].
    assert (Hn := ok_new incoming now wall). destruct restored as [r|]; [|done].
    split; [apply ok_restored; [apply Hn|done]|intros _ _; apply restored_unread]. }
  clearbody v1. destruct H1 as [H1 Hp].
  set (v2 := (if placeholder v1 then _ else v1)).
  assert (H2 : ok v2).
  { unfold v2. destruct (placeholder v1) eqn:E; [|done].
    destruct restored as [r|]; [apply ok_restored; [apply H1|intros Hg; by apply Hp]|by apply (ok_same v1)]. }
  clearbody v2. set (v3 := note_listed _ now wall).
  assert (H3 : ok v3) by (apply ok_note_listed; by apply (ok_same v2)). clearbody v3.
  pose proof (ok_apply_reported t v3 (ve_state incoming) now wall H3) as H4.
  destruct (apply_reported_state t v3 (ve_state incoming) now wall) as [revoke v4].
  by apply (ok_same v4).
Qed.

(** *** Settings and streams *)

Lemma ok_settings t hub st now wall v : ok v -> ok (car_apply_settings t hub st now wall v).2.
Proof.
  intros Hv. unfold car_apply_settings. cbv zeta. case_match; [by apply (ok_same v)|].
  set (v1 := v <| hub_id := Some hub |> <| vehicle := _ |> <| settings := from_car st |>).
  assert (H1 : ok v1) by by apply (ok_same v). clearbody v1.
  match goal with |- context [let '(_, _) := ?x in _] => set (r := x) end.
  assert (H2 : ok r.2).
  { unfold r. case_match; [by apply ok_unread|]. case_match; [|done]. by apply ok_enter_out; [apply H1|..]. }
  destruct r as [[d w] v2]. cbn [fst snd] in *.
  set (v3 := match last_in_use v2 with Some _ => _ | None => v2 end).
  assert (H3 : ok v3) by (unfold v3; repeat case_match; try done; by apply (ok_same v2)). clearbody v3.
  case_match; [by apply (ok_same v3)|done].
Qed.
Lemma ok_on_stream f v : ok v -> ok (on_stream f v).
Proof. intros Hv. by apply (ok_same v). Qed.
Lemma ok_reason_set v why : interned why -> ok v -> ok (v <| reason := why |>).
Proof. intros Hw [Hr Hq]. by split. Qed.
Lemma ok_stream_healthy now v : ok v -> ok (car_stream_healthy now v).2.
Proof.
  intros Hv. unfold car_stream_healthy. cbv zeta. case_match; cbn [snd].
  - case_match; [apply ok_reason_set; [done|]|]; by apply ok_on_stream.
  - apply ok_reason_set; [done|]. by apply ok_on_stream, ok_on_stream.
Qed.
Lemma ok_stream_unhealthy t now v : ok v -> ok (car_stream_unhealthy t now v).2.
Proof.
  intros Hv. unfold car_stream_unhealthy. cbv zeta. case_match; cbn [snd]; [by apply ok_on_stream|].
  set (v1 := (on_stream _ (on_stream _ v)) <| reason := _ |>).
  assert (H1 : ok v1) by (apply ok_reason_set; [done|]; by apply ok_on_stream, ok_on_stream). clearbody v1.
  case_match; [|done]. destruct (bool_decide (phase v1 = Driving)) eqn:E; simpl; [|done].
  apply bool_decide_eq_true in E. case_match; [|done]. apply ok_phase; [apply H1|]. cbn. congruence.
Qed.

End Cars.
