(* ===== verification/SchedSteps.v ===== *)
(** * The vehicle scheduler: every operation, as a step

    The scheduler's operations as one step relation and the invariant of its
    reachable states: the cars in key order and each satisfying [car_ok], a
    pending tick that holds no row, and a baseline whose reasons are known. *)
From S2P Require Import Prelude RustStr F64 External Vocabulary Endpoint Ledger BTree SchedTypes SchedState SchedAccount SchedOps SchedLoop SchedTick LedgerSafety SchedDue SchedCommit SchedInv.
Local Open Scope string_scope.
Local Open Scope Z_scope.

Definition cars_ok (gates : bool) (m : bmap VehicleId ScheduledVehicle) : Prop :=
  bwf m /\ forall id v, bget id m = Some v -> car_ok gates v.
Definition baseline_ok (b : option TickBaseline) : Prop :=
  forall base, b = Some base ->
    bwf (tb_vehicles base) /\ forall id vb, bget id (tb_vehicles base) = Some vb -> interned (vb_reason vb).
Definition sched_ok (gates : bool) (s : VehicleScheduler) : Prop :=
  cars_ok gates (vs_vehicles s) /\ pending_plain (vs_pending s) /\ baseline_ok (vs_baseline s).

(** ** Maps of cars *)

Section Maps.
Context (gates : bool).
Implicit Types (m : bmap VehicleId ScheduledVehicle).

Lemma cars_ok_bupd f id m :
  (forall v, bget id m = Some v -> car_ok gates v -> car_ok gates (f v)) -> cars_ok gates m -> cars_ok gates (bupd f id m).
Proof.
  intros Hf [Hwf Hm]. split; [by apply bwf_bupd|]. intros k v. destruct (decide (k = id)) as [->|Hne].
  - rewrite bget_bupd. intros (w & Hw & ->)%fmap_Some. apply Hf; [done|]. by apply (Hm id).
  - rewrite bget_bupd_ne by done. apply Hm.
Qed.
Lemma cars_ok_bmapv f m :
  (forall id v, bget id m = Some v -> car_ok gates v -> car_ok gates (f id v)) -> cars_ok gates m -> cars_ok gates (bmapv f m).
Proof.
  intros Hf [Hwf Hm]. split; [by apply bwf_bmapv|]. intros k v. rewrite bget_bmapv.
  intros (w & Hw & ->)%fmap_Some. apply Hf; [done|]. by apply (Hm k).
Qed.
Lemma cars_ok_bset id v m : car_ok gates v -> cars_ok gates m -> cars_ok gates (bset id v m).
Proof.
  intros Hv [Hwf Hm]. split; [by apply bwf_bset|]. intros k w. destruct (decide (k = id)) as [->|Hne].
  - rewrite bget_bset. by intros [= <-].
  - rewrite bget_bset_ne by done. apply Hm.
Qed.
Lemma cars_ok_retain_key (p : VehicleId -> bool) m : cars_ok gates m -> cars_ok gates (bretain (fun id _ => p id) m).
Proof.
  intros [Hwf Hm]. split; [by apply bwf_bretain|]. intros k v. rewrite bget_bretain_key.
  case_match; [apply Hm|done].
Qed.

End Maps.

(** ** Operations that leave the cars alone *)

Record same_cars (s s' : VehicleScheduler) : Prop := MkSameCars {
  sc_vehicles : vs_vehicles s' = vs_vehicles s;
  sc_pending : vs_pending s' = vs_pending s;
  sc_baseline : vs_baseline s' = vs_baseline s;
  sc_timing : vs_timing s' = vs_timing s;
  sc_mode : vs_mode s' = vs_mode s;
}.
#[export] Instance same_cars_preorder : PreOrder same_cars.
Proof.
  split; [by intros s|]. intros s1 s2 s3 [] []. split; congruence.
Qed.
Lemma same_cars_ok gates s s' : same_cars s s' -> sched_ok gates s -> sched_ok gates s'.
Proof. intros [Hv Hp Hb _ _]. unfold sched_ok. by rewrite Hv, Hp, Hb. Qed.

Create HintDb sched.
Ltac same_cars_tac := repeat (case_match; simplify_eq/=); try done; try (by split).

Lemma same_on_account f s : same_cars s (on_account f s).
Proof. by split. Qed.
Lemma same_draw s : same_cars s (draw s).2.
Proof. by split. Qed.
#[export] Hint Resolve same_on_account same_draw : sched.
Lemma same_extend_wait u why s : same_cars s (extend_wait u why s).
Proof. unfold extend_wait. same_cars_tac. Qed.
#[export] Hint Resolve same_extend_wait : sched.
Lemma same_rate_limited s n now : same_cars s (rate_limited s n now).2.
Proof.
  unfold rate_limited. cbv zeta. set (s1 := (if wait_running s WaRateLimited now then _ else _)).
  assert (H1 : same_cars s s1) by (unfold s1; case_match; auto with sched; done). clearbody s1.
  destruct (negb _); [etrans; [exact H1|apply same_extend_wait]|].
  destruct (wait_running _ _ _); [etrans; [exact H1|apply same_extend_wait]|].
  etrans; [exact H1|]. etrans; [apply same_draw|]. apply same_extend_wait.
Qed.
Lemma same_unreachable s now : same_cars s (unreachable s now).2.
Proof.
  unfold unreachable. cbv zeta. case_match; cbn [snd]; [done|].
  etrans; [apply same_on_account|]. etrans; [apply same_draw|]. apply same_extend_wait.
Qed.
Lemma same_auth_failed s retry now : same_cars s (auth_failed s retry now).2.
Proof.
  unfold auth_failed. cbv zeta. case_match; cbn [snd]; [done|].
  etrans; [apply same_on_account|]. etrans; [apply same_draw|]. apply same_extend_wait.
Qed.
#[export] Hint Resolve same_rate_limited same_unreachable same_auth_failed : sched.
Lemma same_note_answered s : same_cars s (note_answered s).
Proof. unfold note_answered. same_cars_tac. Qed.
Lemma same_note_success s : same_cars s (note_success s).
Proof.
  etrans; [apply same_note_answered|]. unfold note_success. generalize (note_answered s) as s1. intros s1.
  case_match; by split.
Qed.
Lemma same_enter_account_state s clk st why now : same_cars s (enter_account_state s clk st why now).
Proof. unfold enter_account_state. cbv zeta. same_cars_tac. Qed.
Lemma same_enter_credential_stop s clk : same_cars s (enter_credential_stop s clk).
Proof. unfold enter_credential_stop. same_cars_tac. Qed.
#[export] Hint Resolve same_note_answered same_note_success same_enter_account_state same_enter_credential_stop : sched.
Lemma same_refuse s clk cause now : same_cars s (refuse s clk cause now).
Proof. unfold refuse. destruct (refusal_for s cause). auto with sched. Qed.
#[export] Hint Resolve same_refuse : sched.
Lemma same_account_failed s clk class e now : same_cars s (account_failed s clk class e now).2.
Proof.
  unfold account_failed. destruct (is_account_state_class class).
  - unfold account_state_failed. destruct class; cbn [snd]; auto with sched; done.
  - case_match; [done|].
    assert (Ha : forall r, same_cars s (let '(delay, s0) := auth_failed s r now in (Some delay, s0)).2).
    { intros r. pose proof (same_auth_failed s r now). by destruct (auth_failed s r now). }
    pose proof (same_rate_limited s (default 0 (rate_limit_retry_after_seconds e)) now).
    pose proof (same_unreachable s now).
    destruct class; try apply Ha; try (by destruct (rate_limited _ _ _)); try (by destruct (unreachable _ _)).
    apply same_enter_credential_stop.
Qed.
Lemma same_check_every s clk now : same_cars s (check_every_vehicle_refused s clk now).
Proof. unfold check_every_vehicle_refused. case_match; [done|]. cbv zeta. case_match; auto with sched; done. Qed.
Lemma same_resume_from_billing s clk : same_cars s (resume_from_billing s clk).
Proof. unfold resume_from_billing. case_match; auto with sched; done. Qed.
Lemma same_revoke ids s : same_cars s (revoke_gates ids s).
Proof. by split. Qed.
#[export] Hint Resolve same_account_failed same_check_every same_resume_from_billing same_revoke : sched.

(** ** Operations on one car *)

Section Ops.
Context (gates : bool).
Local Notation ok := (sched_ok gates).

Lemma ok_set_vehicles m s : cars_ok gates m -> ok s -> ok (s <| vs_vehicles := m |>).
Proof. intros Hm (_ & Hp & Hb). by split_and!. Qed.
Lemma ok_on_vehicle id f s :
  (forall v, bget id (vs_vehicles s) = Some v -> car_ok gates v -> car_ok gates (f v)) -> ok s -> ok (on_vehicle id f s).
Proof. intros Hf Hs. apply ok_set_vehicles; [|done]. apply cars_ok_bupd; [done|apply Hs]. Qed.
Lemma ok_get id v s : ok s -> bget id (vs_vehicles s) = Some v -> car_ok gates v.
Proof. intros ((_ & Hm) & _). apply Hm. Qed.

(** Between two operations on a car its gate may be gone. *)
Definition ok_but (id : VehicleId) (s : VehicleScheduler) : Prop :=
  (bwf (vs_vehicles s) /\ forall k v, bget k (vs_vehicles s) = Some v -> interned (reason v) /\ (k <> id -> car_ok gates v))
  /\ pending_plain (vs_pending s) /\ baseline_ok (vs_baseline s).
Lemma ok_ok_but id s : ok s -> ok_but id s.
Proof. intros ((Hwf & Hm) & Hp & Hb). split_and!; try done. intros k v Hv%Hm. split; [apply Hv|done]. Qed.
Lemma ok_but_upd id f s :
  (forall v, bget id (vs_vehicles s) = Some v -> interned (reason v) -> interned (reason (f v))) ->
  ok_but id s -> ok_but id (on_vehicle id f s).
Proof.
  intros Hf ((Hwf & Hm) & Hp & Hb). split_and!; [by apply bwf_bupd| |done..]. intros k v. cbn.
  destruct (decide (k = id)) as [->|Hne].
  - rewrite bget_bupd. intros (w & Hw & ->)%fmap_Some. split; [|done]. apply Hf; [done|]. exact (proj1 (Hm id w Hw)).
  - rewrite bget_bupd_ne by done. apply Hm.
Qed.
Lemma ok_but_fix id f s :
  (forall v, bget id (vs_vehicles s) = Some v -> interned (reason v) -> car_ok gates (f v)) ->
  ok_but id s -> ok (on_vehicle id f s).
Proof.
  intros Hf ((Hwf & Hm) & Hp & Hb). split_and!; [|done..]. split; [by apply bwf_bupd|]. intros k v. cbn.
  destruct (decide (k = id)) as [->|Hne].
  - rewrite bget_bupd. intros (w & Hw & ->)%fmap_Some. apply Hf; [done|]. exact (proj1 (Hm id w Hw)).
  - rewrite bget_bupd_ne by done. intros Hv. exact (proj2 (Hm k v Hv) Hne).
Qed.
Lemma ok_but_same id s s' : same_cars s s' -> ok_but id s -> ok_but id s'.
Proof. intros [Hv Hp Hb _ _]. unfold ok_but. by rewrite Hv, Hp, Hb. Qed.

Lemma ok_but_false id s : gates = false -> ok_but id s -> ok s.
Proof.
  intros Hg ((Hwf & Hm) & Hp & Hb). split_and!; try done. split; [done|]. intros k v [Hr _]%Hm. split; [done|congruence].
Qed.

Lemma pause_vehicle_but s clk id why class now v :
  bget id (vs_vehicles s) = Some v -> ok_but id s -> ok (pause_vehicle s clk id why class now).
Proof.
  intros Hv Hs. unfold pause_vehicle. rewrite Hv.
  assert (H : ok (on_vehicle id (fun v => car_pause v why class now) s))
    by (apply ok_but_fix; [intros; by apply ok_pause|done]).
  case_match; [|done]. by apply (same_cars_ok _ _ _ (same_check_every _ clk now)).
Qed.
Lemma pause_vehicle_ok s clk id why class now : ok s -> ok (pause_vehicle s clk id why class now).
Proof.
  intros Hs. destruct (bget id (vs_vehicles s)) as [v|] eqn:E.
  - by eapply pause_vehicle_but; [done|apply ok_ok_but].
  - unfold pause_vehicle. by rewrite E.
Qed.
Lemma pause_if_persistent_ok s clk id now : ok s -> ok (pause_if_persistent s clk id now).
Proof.
  intros Hs. unfold pause_if_persistent. case_match; [|done]. case_match; [by apply pause_vehicle_ok|done].
Qed.
Lemma count_failure_but s clk id class now : ok_but id s -> ok (count_vehicle_failure s clk id class now).
Proof.
  intros Hs. unfold count_vehicle_failure. cbv zeta. apply pause_if_persistent_ok. apply ok_but_fix.
  - intros v _ Hr. exact (ok_failure gates _ _ _ _ _ Hr).
  - by apply (ok_but_same _ _ _ (same_draw s)).
Qed.
Lemma count_failure_ok s clk id class now : ok s -> ok (count_vehicle_failure s clk id class now).
Proof. intros Hs. by apply count_failure_but, ok_ok_but. Qed.
Lemma offline_fetch_ok s id now : ok s -> ok (schedule_offline_state_fetch s id now).
Proof.
  intros Hs. unfold schedule_offline_state_fetch. case_match; [|done]. case_match; [done|]. case_match.
  - apply ok_on_vehicle; [|done]. intros v _ Hv. by apply (ok_same _ v).
  - by apply (same_cars_ok _ s).
Qed.
Lemma read_unavailable_but s id now v :
  bget id (vs_vehicles s) = Some v -> ok_but id s -> ok (read_unavailable s id now).
Proof.
  intros Hv Hs. unfold read_unavailable. rewrite Hv. apply offline_fetch_ok, ok_but_fix; [|done].
  intros w _ Hr. exact (ok_unavailable gates _ _ _ Hr).
Qed.
Lemma vehicle_not_found_ok s id now : ok s -> ok (vehicle_not_found s id now).
Proof.
  intros Hs. unfold vehicle_not_found. case_match; [|done].
  refine (same_cars_ok _ _ _ (same_on_account _ _) _). apply ok_on_vehicle; [|done].
  intros v _ Hv. by apply ok_not_found.
Qed.
Lemma enter_service_but s id now v :
  bget id (vs_vehicles s) = Some v -> ok_but id s -> ok (enter_service_mode s id now).2.
Proof.
  intros Hv Hs. unfold enter_service_mode. rewrite Hv. apply ok_but_fix; [|done].
  intros w _ Hr. by apply ok_service.
Qed.
Lemma enter_service_ok s id now : ok s -> ok (enter_service_mode s id now).2.
Proof.
  intros Hs. destruct (bget id (vs_vehicles s)) as [v|] eqn:E.
  - by eapply enter_service_but; [done|apply ok_ok_but].
  - unfold enter_service_mode. by rewrite E.
Qed.

(** A read's own failure keeps the invariant unless it is a 404 and gates count. *)
Lemma class_failure_ok s clk id class now :
  (gates = true -> class <> ClNotFound) -> ok s -> ok (vehicle_class_failure s clk id class now).2.
Proof.
  intros Hc Hs. unfold vehicle_class_failure. destruct (bget id (vs_vehicles s)) as [v|] eqn:Hv; [|done]. cbv zeta.
  set (s1 := on_vehicle id (fun v => v <| gated_read := None |> <| in_flight := false |>) s).
  assert (H1 : ok_but id s1) by (apply ok_but_upd; [done|by apply ok_ok_but]).
  assert (Hv1 : bget id (vs_vehicles s1) = Some (v <| gated_read := None |> <| in_flight := false |>))
    by (unfold s1; cbn; by rewrite bget_bupd, Hv).
  clearbody s1. destruct (bool_decide (phase v = Updating) && bool_decide (class = ClUnavailable)) eqn:E.
  { apply andb_true_iff in E as [E%bool_decide_eq_true _]. apply ok_but_fix; [|done].
    rewrite Hv1. intros w [= <-] Hr. apply ok_phase; [done|]. cbn. congruence. }
  set (s2 := on_vehicle id _ s1).
  assert (H2 : ok_but id s2).
  { apply ok_but_upd; [|done]. intros w _ Hr. destruct (gated_motion _ _ _ _ w) eqn:Eg; [|done].
    by apply (ok_gated_motion true _ _ _ _ _ _ Hr) in Eg as []. }
  assert (Hv2 : is_Some (bget id (vs_vehicles s2))) by (unfold s2; cbn; rewrite bget_bupd, Hv1; by eexists).
  clearbody s2. destruct Hv2 as [w Hw].
  assert (Hcount : ok (Counted, count_vehicle_failure s2 clk id class now).2) by by apply count_failure_but.
  destruct class; try exact Hcount; try (by eapply pause_vehicle_but).
  - by eapply read_unavailable_but.
  - apply vehicle_not_found_ok. destruct (bool_dec gates true) as [Hg|Hg%not_true_is_false]; [by destruct (Hc Hg)|].
    by eapply ok_but_false.
  - pose proof (enter_service_but s2 id now w Hw H2). by destruct (enter_service_mode s2 id now).
Qed.

Lemma release_read_ok s clk id class now : ok s -> ok (release_after_account_failure s clk id class now).
Proof.
  intros Hs. unfold release_after_account_failure. cbv zeta. apply ok_on_vehicle; [|done].
  intros v _ Hv. exact (ok_release_read gates _ _ _ _ _ _ Hv).
Qed.
Lemma gate_not_confirmed_ok s id : ok s -> ok (gate_not_confirmed s id).
Proof.
  intros Hs. apply ok_on_vehicle; [|done]. intros v _ Hv. exact (ok_gate_not_confirmed gates _ Hv).
Qed.
Lemma credential_outcome_ok s clk id outcome now : ok s -> ok (credential_outcome s clk id outcome now).2.
Proof.
  intros Hs. assert (Hrel : forall class s', ok s' ->
    ok (match id with Some id => release_after_account_failure s' clk id class now | None => s' end)).
  { intros class s' H'. destruct id; [by apply release_read_ok|done]. }
  unfold credential_outcome. cbv zeta. destruct outcome.
  - pose proof (same_auth_failed s (Some retry_after) now) as Ha.
    destruct (auth_failed s (Some retry_after) now) as [delay s1]. apply Hrel. by apply (same_cars_ok _ s).
  - apply Hrel. apply (same_cars_ok _ _ _ (same_refuse _ _ _ _)). by apply (same_cars_ok _ _ _ (same_note_answered s)).
  - cbn [snd]. assert (H : ok (note_answered s)) by by apply (same_cars_ok _ _ _ (same_note_answered s)).
    destruct id; [|done]. by apply class_failure_ok.
  - apply Hrel. by apply (same_cars_ok _ _ _ (same_enter_credential_stop s clk)).
Qed.
Lemma answered_ok (b : bool) s : ok s -> ok (if b then s else note_answered s).
Proof. intros Hs. destruct b; [done|]. by apply (same_cars_ok _ _ _ (same_note_answered s)). Qed.
Lemma refusal_check_ok (b : bool) s now : ok s -> ok (if b then request_refusal_check s now else s).
Proof. intros Hs. destruct b; [|done]. by apply (same_cars_ok _ s). Qed.

(** The failures that change what is still gated: a read's 404. *)
Definition keeps_gates (s : VehicleScheduler) (clk : Clock) (e : CollectorError) : Prop :=
  credential_outcome_for s clk e = None -> classify e ReadRequest (vs_mode s) <> ClNotFound.
Lemma vehicle_failed_ok s clk id e now :
  (gates = true -> keeps_gates s clk e) -> ok s -> ok (vehicle_failed_for_error s clk id e now).2.
Proof.
  intros Hk Hs. unfold vehicle_failed_for_error, keeps_gates in *.
  destruct (credential_outcome_for s clk e) as [o|]; [by apply credential_outcome_ok|]. cbv zeta.
  case_match; [by apply gate_not_confirmed_ok|].
  set (s1 := (if bool_decide (classify e ReadRequest (vs_mode s) = ClUnreachable) then s else _)).
  assert (H1 : ok s1) by by apply answered_ok. clearbody s1.
  pose proof (same_account_failed s1 clk (classify e ReadRequest (vs_mode s)) e now) as Ha.
  destruct (account_failed s1 clk _ e now) as [failed s2]. cbn [snd] in Ha. apply (same_cars_ok _ _ _ Ha) in H1.
  case_match; [by apply release_read_ok|]. apply class_failure_ok; [intros Hg; by apply Hk|]. by apply refusal_check_ok.
Qed.

Lemma offline_failed_ok s clk id e now : ok s -> ok (offline_state_failed_for_error s clk id e now).
Proof.
  intros Hs. unfold offline_state_failed_for_error. cbv zeta.
  set (class := classify e RecordRequest (vs_mode s)). clearbody class.
  set (s1 := (if bool_decide (class = ClUnreachable) || _ then s else _)).
  assert (H1 : ok s1) by by apply answered_ok. clearbody s1.
  pose proof (same_account_failed s1 clk class e now) as Ha.
  destruct (account_failed s1 clk class e now) as [failed s2]. cbn [snd] in Ha. apply (same_cars_ok _ _ _ Ha) in H1.
  case_match; [done|]. set (s3 := (if _ : bool then _ else s2)).
  assert (H3 : ok s3) by by apply refusal_check_ok. clearbody s3.
  apply ok_on_vehicle; [intros v _ Hv; case_match; [done|by apply (ok_same _ v)]|].
  assert (Hn : ok (on_vehicle id (fun v => reschedule_check (vs_timing s3) now (v <| last_error := Some class |>)) s3))
    by (apply ok_on_vehicle; [intros v _ Hv; by apply (ok_same _ v)|done]).
  assert (Hp : ok (pause_if_persistent (on_vehicle id (fun v => reschedule_check (vs_timing s3) now
      (v <| consecutive_failures := u32_sadd (consecutive_failures v) 1 |>
         <| first_failure := Some (default now (first_failure v)) |> <| last_error := Some class |>)) s3) clk id now))
    by (apply pause_if_persistent_ok, ok_on_vehicle; [intros v _ Hv; by apply (ok_same _ v)|done]).
  destruct class; try exact Hn; try exact Hp; try (by apply pause_vehicle_ok). by apply vehicle_not_found_ok.
Qed.
Lemma same_discovery_failed s now : same_cars s (discovery_failed s now).2.
Proof. by split. Qed.
Lemma discovery_error_ok s clk e now : ok s -> ok (discovery_failed_for_error s clk e now).2.
Proof.
  intros Hs. unfold discovery_failed_for_error. destruct (credential_outcome_for s clk e) as [o|].
  { pose proof (credential_outcome_ok s clk None o now Hs). by destruct (credential_outcome s clk None o now). }
  cbv zeta. set (s1 := (if _ : bool then s else _)). assert (H1 : ok s1) by by apply answered_ok. clearbody s1.
  pose proof (same_account_failed s1 clk (classify e ListRequest (vs_mode s)) e now) as Ha.
  destruct (account_failed s1 clk _ e now) as [[d|] s2]; cbn [snd] in Ha; apply (same_cars_ok _ _ _ Ha) in H1; [done|].
  by apply (same_cars_ok _ s2).
Qed.

(** *** Lists *)

(** No read is due of a car no list has named. *)
Definition placeholders_unread (s : VehicleScheduler) : Prop :=
  forall id v, bget id (vs_vehicles s) = Some v -> placeholder v = true -> next_read_due v = None.

Lemma accept_discovery_ok s clk vehicles now :
  (gates = true -> NoDup (ve_id <$> vehicles) /\ placeholders_unread s) -> ok s -> ok (accept_discovery s clk vehicles now).2.
Proof.
  intros Hnd Hs. unfold accept_discovery. cbv zeta.
  assert (Hfold : forall l acc,
    (gates = true -> NoDup (ve_id <$> l) /\ forall id v, id ∈ ve_id <$> l -> bget id (vs_vehicles acc.1.1.1) = Some v -> placeholder v = true -> next_read_due v = None) ->
    ok acc.1.1.1 -> ok (fold_left (list_step now (wall_or_last s clk)) l acc).1.1.1).
  { induction l as [|incoming l IH]; intros acc Hu Ha; [done|]. simpl.
    destruct acc as [[[s1 cs] rs] us]. cbn [fst] in *.
    assert (Hcar : car_ok gates (list_car (vs_timing s1) (bget (ve_id incoming) (vs_vehicles s1))
                     (bget (ve_id incoming) (vs_restored s1)) incoming now (wall_or_last s clk)).2).
    { apply ok_list_car. intros v Hv. split; [by eapply ok_get|].
      intros Hg. apply (proj2 (Hu Hg) (ve_id incoming)); [by left|done]. }
    unfold list_step at 2. destruct (list_car _ _ _ _ _ _) as [[rv un] v]. cbn [snd] in Hcar.
    apply IH.
    - intros Hg. destruct (Hu Hg) as [[Hni Hl]%NoDup_cons Hu']. split; [done|].
      intros id w Hid. cbn. rewrite bget_bset_ne by (intros ->; done). apply Hu'. by right.
    - cbn. apply ok_set_vehicles; [|done]. apply cars_ok_bset; [done|apply Ha]. }
  assert (Hf : ok (fold_left (list_step now (wall_or_last s clk)) vehicles (s, [], [], [])).1.1.1).
  { apply Hfold; [|done]. intros Hg. destruct (Hnd Hg) as [H1 H2]. split; [done|]. intros id v _. apply H2. }
  clear Hfold. rename Hf into Hfold.
  destruct (fold_left _ vehicles _) as [[[s1 cs] rs] us]. cbn [fst] in Hfold.
  refine (same_cars_ok _ _ _ (same_on_account _ _) _).
  refine (same_cars_ok _ _ _ (same_resume_from_billing _ _) _).
  refine (same_cars_ok _ _ _ (same_note_success _) _).
  unfold note_unlisted. cbv zeta.
  assert (Hc : forall l s', ok s' -> ok (fold_left (fun s id => count_vehicle_failure s clk id ClTransient now) l s')).
  { induction l as [|i l IH]; intros s' H'; [done|]. simpl. apply IH. by apply count_failure_ok. }
  specialize (Hc us (revoke_gates rs s1) (same_cars_ok _ _ _ (same_revoke _ _) Hfold)).
  apply ok_set_vehicles; [|done]. apply cars_ok_bmapv; [|apply Hc].
  intros id v _ Hv. case_match; [done|]. case_match; try done; by apply ok_unlisted.
Qed.
Lemma accept_state_ok s clk id state now : ok s -> ok (accept_vehicle_state s clk id state now).2.
Proof.
  intros Hs. unfold accept_vehicle_state. cbv zeta. destruct (bget id (vs_vehicles s)) as [v|] eqn:E; [|done].
  set (v1 := note_listed _ now _).
  assert (H1 : car_ok gates v1).
  { apply ok_note_listed. apply (ok_same _ v); try done. by eapply ok_get. }
  clearbody v1. pose proof (ok_apply_reported gates (vs_timing s) v1 state now (wall_or_last s clk) H1) as H2.
  destruct (apply_reported_state _ _ _ _ _) as [revoke v2]. cbn [snd] in H2.
  unfold settle_unavailable.
  set (v3 := v2 <| unavailable_check := false |>). assert (H3 : car_ok gates v3) by by apply (ok_same _ v2).
  clearbody v3. cbn [snd]. refine (same_cars_ok _ _ _ (same_note_success _) _).
  assert (Hset : ok (s <| vs_vehicles := bset id v3 (vs_vehicles s) |>))
    by (apply ok_set_vehicles; [|done]; apply cars_ok_bset; [done|apply Hs]).
  case_match; [apply count_failure_ok|]; (destruct revoke; [by apply (same_cars_ok _ _ _ (same_revoke _ _))|done]).
Qed.

(** *** Reads and probes *)

Lemma on_same_ok id f s :
  (forall v, reason (f v) = reason v /\ hold (f v) = hold v /\ phase (f v) = phase v
     /\ next_read_due (f v) = next_read_due v /\ suspension_read (f v) = suspension_read v
     /\ gated_read (f v) = gated_read v) ->
  ok s -> ok (on_vehicle id f s).
Proof.
  intros Hf Hs. apply ok_on_vehicle; [|done]. intros v _ Hv.
  destruct (Hf v) as (H1 & H2 & H3 & H4 & H5 & H6). by apply (ok_same _ v).
Qed.
Lemma mark_in_flight_ok ids s : ok s -> ok (mark_in_flight ids s).
Proof.
  unfold mark_in_flight. revert s. induction ids as [|id ids IH]; intros s Hs; [done|]. simpl. apply IH.
  by apply on_same_ok.
Qed.
Lemma advance_timers_ok s clk now : ok s -> ok (advance_timers s clk now).
Proof.
  intros Hs. unfold advance_timers. cbv zeta. refine (same_cars_ok _ _ _ (same_revoke _ _) _).
  apply ok_set_vehicles; [|done]. apply cars_ok_bmapv; [|apply Hs]. intros id v _ Hv. by apply ok_timers.
Qed.
Lemma due_vehicles_ok s clk now : ok s -> ok (due_vehicles s clk now).2.
Proof.
  intros Hs. unfold due_vehicles. cbv zeta. case_match; cbn [snd]; [by apply advance_timers_ok|].
  by apply mark_in_flight_ok, advance_timers_ok.
Qed.
Lemma due_probes_ok s now : ok s -> ok (due_probe_vehicles s now).2.
Proof. intros Hs. unfold due_probe_vehicles. case_match; [done|]. by apply mark_in_flight_ok. Qed.
Lemma release_in_flight_ok s : ok s -> ok (release_in_flight s).
Proof.
  intros Hs. apply ok_set_vehicles; [|done]. apply cars_ok_bmapv; [|apply Hs]. intros id v _ Hv. by apply (ok_same _ v).
Qed.
Lemma succeeded_ok s clk id new sleep now :
  is_read_phase new = true -> ok s -> ok (vehicle_succeeded s clk id new sleep now).
Proof.
  intros Hnew Hs. unfold vehicle_succeeded. cbv zeta. apply (same_cars_ok _ _ _ (same_note_success s)) in Hs.
  set (s1 := note_success s) in *. clearbody s1. destruct (bget id (vs_vehicles s1)) as [v|] eqn:E; [|done].
  pose proof (ok_car_read gates (vs_timing s) v new sleep now (wall_or_last s clk) Hnew (ok_get _ _ _ Hs E)) as Hv.
  destruct (car_read _ _ _ _ _ _) as [revoke v1]. cbn [snd] in Hv.
  assert (Hset : ok (s1 <| vs_vehicles := bset id v1 (vs_vehicles s1) |>))
    by (apply ok_set_vehicles; [|done]; apply cars_ok_bset; [done|apply Hs]).
  destruct revoke; [by apply (same_cars_ok _ _ _ (same_revoke _ _))|done].
Qed.
Lemma release_hold_ok s clk id why now : interned why -> ok s -> ok (release_hold s clk id why now).2.
Proof.
  intros Hw Hs. unfold release_hold. cbv zeta. case_match; [|done]. apply ok_on_vehicle; [|done].
  intros v _ Hv. by apply ok_car_release.
Qed.
Lemma rearm_ok s id class now : ok s -> ok (on_vehicle id (rearm_probe class now) s).
Proof. intros Hs. apply ok_on_vehicle; [|done]. intros v _ Hv. by apply ok_rearm. Qed.
Lemma probe_failed_ok s clk id e now : ok s -> ok (probe_failed s clk id e now).2.
Proof.
  intros Hs. unfold probe_failed. cbv zeta. set (class := classify e ProbeRequest (vs_mode s)). clearbody class.
  set (s1 := (if bool_decide (class = ClUnreachable) then s else _)).
  assert (H1 : ok s1) by by apply answered_ok. clearbody s1.
  pose proof (same_account_failed s1 clk class e now) as Ha.
  destruct (account_failed s1 clk class e now) as [failed s2]. cbn [snd] in Ha. apply (same_cars_ok _ _ _ Ha) in H1.
  case_match; [done|]. set (s3 := (if _ : bool then _ else s2)).
  assert (H3 : ok s3) by by apply refusal_check_ok. clearbody s3.
  pose proof (rearm_ok s3 id class now H3) as Hr.
  destruct class; try exact Hr; cbn [snd]; try (by apply pause_vehicle_ok).
  - by apply rearm_ok, vehicle_not_found_ok.
  - case_match; [done|]. by apply enter_service_ok.
Qed.
Lemma probe_finished_ok s clk id outcome now :
  (forall p e, outcome = PrRead p e -> is_read_phase p = true) -> ok s -> ok (probe_finished s clk id outcome now).2.
Proof.
  intros Hp Hs. unfold probe_finished. cbv zeta. set (s1 := on_vehicle id _ s).
  assert (H1 : ok s1) by by apply on_same_ok. clearbody s1.
  pose proof (same_cars_ok _ _ _ (same_note_success s1) H1) as Hn.
  destruct outcome as [[]|new sleep|e]; cbn [snd].
  - apply on_same_ok; [|done]. intros v. by case_match.
  - pose proof (release_hold_ok (note_success s1) clk id "service_exited" now eq_refl Hn) as Hr.
    unfold release_hold in *. destruct (bget id (vs_vehicles (note_success s1))) as [v|] eqn:Ev; [|done].
    cbn [snd fst] in *. destruct (car_release v "service_exited" now _).1 eqn:Ec; [|done].
    apply ok_on_vehicle; [|done]. intros w Hw Hok. case_match; [|done].
    cbn in Hw. rewrite bget_bupd, Ev in Hw. injection Hw as <-. apply ok_phase; [apply Hok|].
    unfold car_release in *. by destruct (hold v).
  - specialize (Hp new sleep eq_refl). case_match; [|by apply succeeded_ok]. case_match; try (by apply succeeded_ok).
    + pose proof (release_hold_ok s1 clk id "service_exited" now eq_refl H1) as Hr.
      destruct (release_hold s1 clk id "service_exited" now). by apply succeeded_ok.
    + pose proof (release_hold_ok (note_success s1) clk id "resumed" now eq_refl Hn) as Hr.
      destruct (release_hold (note_success s1) clk id "resumed" now). by apply on_same_ok.
  - by apply probe_failed_ok.
Qed.

(** *** Evidence, streams and lifecycle facts *)

Lemma evidence_ok s clk id e source now : ok s -> ok (apply_frame_evidence s clk id e source now).
Proof. intros Hs. apply ok_on_vehicle; [|done]. intros v _ Hv. by apply ok_evidence. Qed.
Lemma stream_healthy_ok s id now : ok s -> ok (stream_healthy s id now).2.
Proof.
  intros Hs. unfold stream_healthy. case_match; [|done]. apply ok_on_vehicle; [|done].
  intros v _ Hv. by apply ok_stream_healthy.
Qed.
Lemma stream_unhealthy_ok s id now : ok s -> ok (stream_unhealthy s id now).2.
Proof.
  intros Hs. unfold stream_unhealthy. case_match; [|done]. apply ok_on_vehicle; [|done].
  intros v _ Hv. by apply ok_stream_unhealthy.
Qed.
Lemma should_persist_ok s id now : ok s -> ok (should_persist_stream_telemetry s id now).2.
Proof. intros Hs. unfold should_persist_stream_telemetry. case_match; [|done]. by apply on_same_ok. Qed.
Lemma streams_to_stop_ok s clk : ok s -> ok (streams_to_stop s clk).2.
Proof.
  intros Hs. unfold streams_to_stop. cbv zeta. apply ok_set_vehicles; [|done]. apply cars_ok_bmapv; [|apply Hs].
  intros id v _ Hv. repeat case_match; by apply (ok_same _ v).
Qed.
Lemma stream_task_ended_ok s id now : ok s -> ok (stream_task_ended s id now).
Proof.
  intros Hs. unfold stream_task_ended. apply ok_on_vehicle; [|done]. intros v _ Hv. cbv zeta.
  apply ok_reason_set; [done|]. by apply ok_on_stream, ok_on_stream.
Qed.
Lemma stream_audit_failed_ok s id : ok s -> ok (stream_audit_failed s id).2.
Proof. intros Hs. unfold stream_audit_failed. case_match; [|done]. by apply on_same_ok. Qed.

(** *** Settings and owner actions *)

Lemma add_configured_ok now wall s target : ok s -> ok (add_configured now wall s target).
Proof.
  intros Hs. unfold add_configured. destruct target as [id [hub st]]. case_match; [done|].
  destruct (configured_only id hub st now wall) as [v|] eqn:E; [|done].
  assert (Hn : next_read_due v = None) by by apply bind_Some in E as (? & _ & [= <-]).
  apply (ok_configured gates) in E. apply ok_set_vehicles; [|done]. apply cars_ok_bset; [|apply Hs].
  case_match; [|done]. case_match; [|done]. apply ok_restored; [apply E|done].
Qed.
Lemma control_settings_ok s clk configured now : ok s -> ok (apply_control_settings s clk configured now).2.
Proof.
  intros Hs. unfold apply_control_settings. cbv zeta. set (targets := control_targets configured).
  assert (H1 : forall l s', ok s' -> ok (fold_left (add_configured now (wall_or_last s clk)) l s')).
  { induction l as [|x l IH]; intros s' H'; [done|]. simpl. apply IH. by apply add_configured_ok. }
  specialize (H1 targets s Hs). set (s1 := fold_left _ targets s) in *. clearbody s1. cbn [snd].
  match goal with |- ok (if _ then on_account _ ?x else _) => assert (H2 : ok x) end.
  { assert (Hret : ok (s1 <| vs_vehicles := bretain (fun id _ => bhas id targets) (vs_vehicles s1) |>))
      by (apply ok_set_vehicles; [apply cars_ok_retain_key; apply H1|done]).
    apply ok_set_vehicles; [|exact Hret]. apply cars_ok_bmapv; [|apply Hret].
    intros id v _ Hv. case_match; [|done]. case_match. by apply ok_settings. }
  case_match; [by apply (same_cars_ok _ _ _ (same_on_account _ _))|done].
Qed.
Lemma release_holds_ok clk why now ids s :
  interned why -> ok s -> ok (fold_left (fun s id => (release_hold s clk id why now).2) ids s).
Proof.
  intros Hw. revert s. induction ids as [|i ids IH]; intros s Hs; [done|]. simpl. apply IH. by apply release_hold_ok.
Qed.
Lemma owner_retry_ok s clk now : ok s -> ok (owner_retry s clk now).
Proof.
  intros Hs. unfold owner_retry. cbv zeta.
  set (s1 := (if _ : bool then on_account _ s else s)).
  assert (H1 : ok s1) by (unfold s1; case_match; [by apply (same_cars_ok _ s)|done]). clearbody s1.
  match goal with |- ok ?x => change (ok (x <| vs_restored := vs_restored s |>)) end.
  match goal with |- ok ((?x <| vs_restored := _ |>) <| vs_restored := _ |>) => change (ok x) end.
  by apply release_holds_ok.
Qed.
Lemma owner_resume_ok s clk hub now : ok s -> ok (owner_resume s clk hub now).
Proof.
  intros Hs. unfold owner_resume. case_match; [|done]. case_match; [|by apply (same_cars_ok _ s)].
  case_match. case_match; [by apply release_hold_ok|done].
Qed.
Lemma owner_actions_ok s clk actions now : ok s -> ok (apply_owner_actions s clk actions now).2.
Proof.
  unfold apply_owner_actions. intros Hs. assert (H : ok (@nil Z, s).2) by done. revert H.
  generalize (@nil Z, s) as acc. induction actions as [|a actions IH]; intros [applied s1] H1; [done|].
  simpl. apply IH. unfold apply_owner_action. case_match; [done|]. cbv zeta. cbn [snd] in *.
  assert (H2 : ok (match oa_kind a with
                   | RetryCollection => owner_retry s1 clk now
                   | ResumeVehicle => owner_resume s1 clk (oa_vehicle a) now
                   end)) by (case_match; [by apply owner_retry_ok|by apply owner_resume_ok]).
  revert H2. generalize (match oa_kind a with
                         | RetryCollection => owner_retry s1 clk now
                         | ResumeVehicle => owner_resume s1 clk (oa_vehicle a) now
                         end) as s2. intros s2 (Hc & Hp & Hb). by split_and!.
Qed.

(** *** Ticks *)

Lemma bget_map_vals {K V W} `{OrdKey K} (g : V -> W) (k : K) (m : list (K * V)) :
  bget k (map (fun '(k, v) => (k, g v)) m) = g <$> bget k m.
Proof. induction m as [|[k' v] m IH]; simpl; [done|]. by destruct (key_compare k k'). Qed.
Lemma bkeys_map_vals {K V W} (g : V -> W) (m : list (K * V)) : bkeys (map (fun '(k, v) => (k, g v)) m) = bkeys m.
Proof. unfold bkeys. rewrite map_map. apply map_ext. by intros []. Qed.
Lemma capture_ok s : cars_ok gates (vs_vehicles s) -> baseline_ok (Some (capture_baseline s)).
Proof.
  intros [Hwf Hm] base [= <-]. unfold capture_baseline, bwf. cbn [tb_vehicles]. rewrite bkeys_map_vals.
  split; [done|]. intros id vb. rewrite bget_map_vals. intros (v & Hv & ->)%fmap_Some. by apply (Hm id v).
Qed.
Lemma renew_ok s : ok s -> ok (renew_baseline s).
Proof. intros (Hc & Hp & _). split_and!; [done|done|]. by apply capture_ok. Qed.
Lemma begin_tick_ok s : ok s -> ok (begin_tick s).
Proof. intros (Hc & Hp & _). split_and!; [done|done|]. by apply capture_ok. Qed.
Lemma take_tick_ok s clk : ok s -> ok (take_tick s clk).2.
Proof. intros (Hc & Hp & Hb). by split_and!. Qed.
Lemma commit_ok s clk tick : ok s -> ok (commit_succeeded s clk tick).
Proof.
  intros (Hc & Hp & Hb). destruct (commit_frame s clk tick) as (Hv & _ & _ & _ & _ & Hpe & _).
  split_and!; [by rewrite Hv|by rewrite Hpe|].
  assert (Hbase : exists s', vs_vehicles s' = vs_vehicles s
                             /\ vs_baseline (commit_succeeded s clk tick) = Some (capture_baseline s')).
  { unfold commit_succeeded. cbv zeta.
    match goal with |- exists s', _ /\ vs_baseline (?x <| vs_baseline := Some (capture_baseline ?y) |>) = _ => exists y end.
    split; [exact Hv|done]. }
  destruct Hbase as (s' & Hs' & ->). apply capture_ok. by rewrite Hs'.
Qed.

Lemma same_keep_stop o s : same_cars s (keep_stop o s).
Proof. destruct o as [[? ?]|]; [apply same_on_account|done]. Qed.
Lemma same_keep_probe s : same_cars s (keep_probe s).
Proof.
  unfold keep_probe. cbv zeta. etrans; [apply (same_on_account (fun a => a <| ac_probe_time_of_the_tick := None |>))|].
  case_match; [case_match; [apply same_on_account|done]|done].
Qed.
Lemma same_store_wait now s : same_cars s (store_wait now s).
Proof.
  unfold store_wait. cbv zeta.
  etrans; [apply same_on_account|]. etrans; [apply same_draw|]. apply same_extend_wait.
Qed.
Lemma commit_failed_same s tick now : same_cars (rolled_back s tick) (commit_failed s tick now).
Proof.
  unfold commit_failed. etrans; [apply same_keep_stop|]. etrans; [apply same_keep_probe|]. apply same_store_wait.
Qed.
Lemma rolled_back_ok s tick : gates = false -> ok s -> ok (rolled_back s tick).
Proof.
  intros Hg (Hc & Hp & Hb). unfold rolled_back. cbv zeta. cbn [vs_baseline].
  change (vs_baseline (s <| vs_pending := _ |>)) with (vs_baseline s).
  destruct (vs_baseline s) as [b|] eqn:E; [|split_and!; [done|done|]; cbn; by rewrite E].
  destruct (Hb b eq_refl) as [_ Hr]. split_and!; [|done|done]. unfold restore_baseline. cbn.
  assert (Hfold : forall l m, (forall id vb, (id, vb) ∈ l -> interned (vb_reason vb)) -> cars_ok gates m ->
    cars_ok gates (fold_left (fun m '(id, base) => bupd (restore_vehicle base) id m) l m)).
  { induction l as [|[id vb] l IH]; intros m Hl Hm; [done|]. simpl. apply IH; [intros i w Hi; apply (Hl i); by right|].
    apply cars_ok_bupd; [|done]. intros v _ _. split; [apply (Hl id); by left|congruence]. }
  apply Hfold; [|by apply (cars_ok_retain_key gates (fun id => bhas id (tb_vehicles b)))].
  intros id vb Hin. apply (Hr id). apply bget_nodup; [|done]. apply bwf_nodup. by destruct (Hb b eq_refl).
Qed.
Lemma commit_failed_ok s tick now : gates = false -> ok s -> ok (commit_failed s tick now).
Proof. intros Hg Hs. apply (same_cars_ok _ _ _ (commit_failed_same s tick now)). by apply rolled_back_ok. Qed.

(** *** Months, admission and the restart load *)

Section Calendar.
Context `{Cal : Calendar}.

Lemma same_note_new_month s now : same_cars s (note_new_month s now).
Proof. unfold note_new_month. case_match; [by split|done]. Qed.
Lemma same_refresh_month s clk now : same_cars s (refresh_month s clk now).
Proof.
  unfold refresh_month. destruct (refresh _ _ _) as [[] l]; [by split|].
  set (s1 := s <| vs_ledger := l |>). assert (H1 : same_cars s s1) by by split. clearbody s1. cbv zeta.
  etrans; [exact H1|]. etrans; [apply (same_note_new_month s1 now)|]. case_match; [by split|done].
Qed.
Lemma observe_clock_ok s clk now : ok s -> ok (observe_clock s clk now).2.
Proof.
  intros Hs. unfold observe_clock.
  assert (H : ok (observe_clock_drift s clk now).2).
  { destruct Hs as (Hc & Hp & Hb). unfold observe_clock_drift. case_match; [|by split_and!].
    destruct (vs_clock_watch s). cbv zeta. case_match; [by split_and!|]. case_match; by split_and!. }
  destruct (observe_clock_drift s clk now) as [ev s1]. by apply (same_cars_ok _ _ _ (same_refresh_month s1 clk now)).
Qed.
Lemma same_admit s clk c now : same_cars s (admit_request s clk c now).2.
Proof.
  unfold admit_request. cbv zeta. etrans; [apply (same_refresh_month s clk now)|].
  generalize (refresh_month s clk now) as s1. intros s1. case_match; [done|].
  destruct (start (vs_ledger s1) c) as [adm l]. 
  assert (Hcap : same_cars s1 (enter_cap_reached (s1 <| vs_ledger := l |>) clk))
    by (unfold enter_cap_reached; case_match; by split).
  destruct adm as [|[]]; try (by split); case_match; done || by split.
Qed.
Lemma same_plan s clk steps now : same_cars s (plan_reservation s clk steps now).2.
Proof.
  unfold plan_reservation. cbv zeta. etrans; [apply (same_refresh_month s clk now)|].
  generalize (refresh_month s clk now) as s1. intros s1. case_match; [done|].
  destruct (plan (vs_ledger s1) steps) as [raised l]. by split.
Qed.
Lemma same_list_resend s clk now : same_cars s (list_resend_withheld s clk now).
Proof.
  unfold list_resend_withheld, resend_withheld. cbv zeta.
  set (s1 := (if account_is s AcBillingSuspended then _ else s)).
  assert (H1 : same_cars s s1) by (unfold s1; case_match; [by split|done]). clearbody s1.
  etrans; [exact H1|]. apply same_plan.
Qed.
Lemma load_ok s clk snapshot now : vs_vehicles s = [] -> ok s -> ok (load s clk snapshot now).
Proof.
  intros Hempty Hs. unfold load. cbv zeta. set (wall := wall_or_last s clk). clearbody wall.
  set (s0 := s <| vs_config_fingerprint := _ |>).
  assert (H0 : same_cars s s0) by by split. clearbody s0.
  set (s1 := match sn_account snapshot with Some _ => _ | None => s0 end).
  assert (H1 : same_cars s s1).
  { etrans; [exact H0|]. unfold s1. case_match; [|done]. unfold load_account. cbv zeta.
    case_match; [by split|]. case_match; by split. }
  clearbody s1. apply (same_cars_ok _ _ _ H1) in Hs. assert (Hv : vs_vehicles s1 = []) by (rewrite (sc_vehicles _ _ H1); done).
  assert (Hl : forall l s', vs_vehicles s' = [] -> ok s' ->
    same_cars s' (fold_left (load_vehicle now wall) l s')).
  { induction l as [|r l IH]; intros s' He H'; [done|]. simpl.
    assert (Hstep : same_cars s' (load_vehicle now wall s' r)) by (unfold load_vehicle; cbn; rewrite He; by split).
    etrans; [exact Hstep|]. apply IH; [by rewrite (sc_vehicles _ _ Hstep)|by apply (same_cars_ok _ _ _ Hstep)]. }
  pose proof (Hl (sn_vehicles snapshot) s1 Hv Hs) as H2. apply (same_cars_ok _ _ _ H2) in Hs. clear Hl H2 H1 H0.
  set (s2 := fold_left _ _ s1) in *. clearbody s2. unfold load_counters. cbv zeta.
  match goal with |- context [if account_is ?x AcCapReached && _ then _ else _] => set (s3 := x) end.
  assert (H3 : same_cars s2 s3) by by split. clearbody s3. apply (same_cars_ok _ _ _ H3) in Hs.
  set (s4 := (if account_is s3 AcCapReached && _ then _ else s3)).
  assert (H4 : same_cars s3 s4) by (unfold s4; case_match; [by split|done]). clearbody s4.
  apply (same_cars_ok _ _ _ H4) in Hs. case_match; [|done]. case_match; [|done].
  by apply (same_cars_ok _ _ _ (same_note_new_month s4 now)).
Qed.

End Calendar.
End Ops.

(** ** The step relation *)

(** One call of the supervised loop.  With [gates], the two operations that drop
    a Suspended car's gate but not its read are left out (a read's 404 and a
    failed commit), a list names a car once, and no read is due of a car it names
    for the first time. *)
Inductive sched_step `{Calendar} (gates : bool) : VehicleScheduler -> VehicleScheduler -> Prop :=
| ss_due_reads s clk now : sched_step gates s (due_vehicles s clk now).2
| ss_due_probes s now : sched_step gates s (due_probe_vehicles s now).2
| ss_release s : sched_step gates s (release_in_flight s)
| ss_withheld s id : sched_step gates s (request_withheld s id)
| ss_succeeded s clk id new sleep now :
    is_read_phase new = true -> sched_step gates s (vehicle_succeeded s clk id new sleep now)
| ss_failed s clk id e now :
    (gates = true -> keeps_gates s clk e) -> sched_step gates s (vehicle_failed_for_error s clk id e now).2
| ss_check_failed s clk id e now : sched_step gates s (offline_state_failed_for_error s clk id e now)
| ss_list_failed s clk e now : sched_step gates s (discovery_failed_for_error s clk e now).2
| ss_list_refused s clk now : sched_step gates s (list_refused_after_check s clk now).2
| ss_credential s clk id outcome now : sched_step gates s (credential_outcome s clk id outcome now).2
| ss_credential_seen s clk seen now : sched_step gates s (credential_state_seen s clk seen now)
| ss_fleet_stop s clk : sched_step gates s (enter_fleet_refresh_stop s clk)
| ss_fleet_stop_at_start s clk : sched_step gates s (enter_fleet_refresh_stop_at_start s clk)
| ss_auth_ended s now : sched_step gates s (end_auth_wait s now)
| ss_list s clk vehicles now :
    (gates = true -> NoDup (ve_id <$> vehicles) /\ placeholders_unread s) ->
    sched_step gates s (accept_discovery s clk vehicles now).2
| ss_checked s clk id state now : sched_step gates s (accept_vehicle_state s clk id state now).2
| ss_check_wanted s id now : sched_step gates s (schedule_offline_state_fetch s id now)
| ss_probed s clk id outcome now :
    (forall p e, outcome = PrRead p e -> is_read_phase p = true) ->
    sched_step gates s (probe_finished s clk id outcome now).2
| ss_service s id now : sched_step gates s (enter_service_mode s id now).2
| ss_evidence s clk id e source now : sched_step gates s (apply_frame_evidence s clk id e source now)
| ss_revocations s : sched_step gates s (take_gate_revocations s).2
| ss_healthy s id now : sched_step gates s (stream_healthy s id now).2
| ss_unhealthy s id now : sched_step gates s (stream_unhealthy s id now).2
| ss_frame s id now : sched_step gates s (should_persist_stream_telemetry s id now).2
| ss_streams s clk : sched_step gates s (streams_to_stop s clk).2
| ss_stream_ended s id now : sched_step gates s (stream_task_ended s id now)
| ss_audit_failed s id : sched_step gates s (stream_audit_failed s id).2
| ss_lifecycle s id : sched_step gates s (lifecycle_changed s id)
| ss_lifecycle_read s id x : sched_step gates s (set_lifecycle_snapshot s id x)
| ss_stored s id ms : sched_step gates s (note_observation_stored s id ms)
| ss_force_closed s id : sched_step gates s (note_force_closed s id)
| ss_settings s clk configured now : sched_step gates s (apply_control_settings s clk configured now).2
| ss_owner s clk actions now : sched_step gates s (apply_owner_actions s clk actions now).2
| ss_clock s clk now : sched_step gates s (observe_clock s clk now).2
| ss_admit s clk c now : sched_step gates s (admit_request s clk c now).2
| ss_plan s clk steps now : sched_step gates s (plan_reservation s clk steps now).2
| ss_resend s clk now : sched_step gates s (list_resend_withheld s clk now)
| ss_load s clk snapshot now : vs_vehicles s = [] -> sched_step gates s (load s clk snapshot now)
| ss_begin s : sched_step gates s (begin_tick s)
| ss_renew s : sched_step gates s (renew_baseline s)
| ss_take s clk : sched_step gates s (take_tick s clk).2
| ss_committed s clk tick : sched_step gates s (commit_succeeded s clk tick)
| ss_commit_failed s tick now : gates = false -> sched_step gates s (commit_failed s tick now).

Lemma same_credential_seen s clk seen now : same_cars s (credential_state_seen s clk seen now).
Proof.
  destruct seen; cbn [credential_state_seen]; [unfold clear_credential_stop; case_match; [by split|done]|..]; auto with sched.
Qed.
Lemma same_fleet_stop s clk : same_cars s (enter_fleet_refresh_stop s clk).
Proof. unfold enter_fleet_refresh_stop. case_match; [by split|done]. Qed.
Lemma same_fleet_stop_at_start s clk : same_cars s (enter_fleet_refresh_stop_at_start s clk).
Proof. unfold enter_fleet_refresh_stop_at_start. case_match; [done|by split]. Qed.
Lemma same_end_auth_wait s now : same_cars s (end_auth_wait s now).
Proof. unfold end_auth_wait. case_match; [by split|done]. Qed.
Lemma same_list_refused s clk now : same_cars s (list_refused_after_check s clk now).2.
Proof. etrans; [apply same_note_answered|]. apply same_refuse. Qed.

#[export] Hint Resolve due_vehicles_ok due_probes_ok release_in_flight_ok succeeded_ok vehicle_failed_ok
  offline_failed_ok discovery_error_ok credential_outcome_ok accept_discovery_ok accept_state_ok offline_fetch_ok
  probe_finished_ok enter_service_ok evidence_ok stream_healthy_ok stream_unhealthy_ok should_persist_ok
  streams_to_stop_ok stream_task_ended_ok stream_audit_failed_ok control_settings_ok owner_actions_ok
  observe_clock_ok load_ok begin_tick_ok renew_ok take_tick_ok commit_ok commit_failed_ok : sched.
#[export] Hint Resolve same_credential_seen same_fleet_stop same_fleet_stop_at_start same_end_auth_wait
  same_list_refused same_admit same_plan same_list_resend : sched.

Lemma sched_step_ok `{Calendar} gates s s' : sched_step gates s s' -> sched_ok gates s -> sched_ok gates s'.
Proof.
  destruct 1; intros Hs; auto with sched; try (by apply on_same_ok);
    try (by refine (same_cars_ok _ _ _ _ Hs); auto with sched).
  unfold set_lifecycle_snapshot. apply on_same_ok; [done|]. by apply on_same_ok.
Qed.
Lemma sched_reachable_ok `{Calendar} gates cadence mode fleet now clk jitter s :
  rtc (sched_step gates) (scheduler_new cadence mode fleet now clk jitter) s -> sched_ok gates s.
Proof.
  remember (scheduler_new cadence mode fleet now clk jitter) as s0 eqn:E. intros Hr.
  assert (H0 : sched_ok gates s0) by (subst; by split_and!; [split; [constructor|]|..]). clear E.
  induction Hr as [|s0 s1 s Hs _ IH]; [done|]. apply IH. by apply (sched_step_ok gates s0).
Qed.

(** C28: In every state the scheduler reaches, through every operation and in every
    order, its cars are stored once each in key order, every car's reason is a
    code the store's reader knows, and the pending tick holds no row of its own, so
    each tick is made of the state alone. *)
Theorem reachable_scheduler_well_formed `{Calendar} cadence mode fleet now clk jitter s :
  rtc (sched_step false) (scheduler_new cadence mode fleet now clk jitter) s ->
  bwf (vs_vehicles s) /\ NoDup (bkeys (vs_vehicles s))
  /\ (forall id v, bget id (vs_vehicles s) = Some v -> reason v ∈ REASON_CODES /\ intern_reason (reason v) = reason v)
  /\ pending_plain (vs_pending s).
Proof.
  intros ((Hwf & Hm) & Hp & _)%sched_reachable_ok. split_and!; [done|by apply bwf_nodup| |done].
  intros id v [Hr _]%Hm. unfold interned in Hr. apply bool_decide_eq_true in Hr. split; [done|].
  by apply intern_reason_id.
Qed.

(** C5: A Suspended car is left to sleep: in every state reached without a lost
    gate, a read that [due_vehicles] sends to a Suspended car either ends its
    suspension or waits for the live stream's power gate. *)
Theorem suspended_car_read_only_at_end_or_gated `{Calendar} cadence mode fleet now0 clk0 jitter s clk now id :
  rtc (sched_step true) (scheduler_new cadence mode fleet now0 clk0 jitter) s ->
  id ∈ (due_vehicles s clk now).1 ->
  exists v, bget id (vs_vehicles (due_vehicles s clk now).2) = Some v
    /\ (phase v = Suspended -> suspension_read v = true
          \/ requires_live_stream_power_gate (due_vehicles s clk now).2 id = true).
Proof.
  intros Hs%sched_reachable_ok Hin. destruct (requests_allowed s now) eqn:Ha.
  2:{ unfold due_vehicles in Hin. rewrite advance_timers_allowed, Ha in Hin. by apply elem_of_nil in Hin. }
  destruct (due_vehicles_spec s clk now) as [Hfair _]; [apply Hs|done|].
  apply (list_elem_of_fmap_2 (fun id => (id, ()))) in Hin as Hin'.
  destruct (fc_candidates _ _ _ _ Hfair id () Hin') as (due & v & Hv & Hp).
  unfold read_pick in Hp. destruct (read_is_due now v) as [d|] eqn:Hd; [|done].
  apply read_is_due_iff in Hd as (Hh & _ & Hdue & _).
  pose proof (fc_marked _ _ _ _ Hfair id) as Hm. rewrite Hv, bool_decide_eq_true_2 in Hm.
  2:{ apply (list_elem_of_fmap_2 fst) in Hin'. done. }
  exists (flying v). split; [done|]. intros Hsus. unfold requires_live_stream_power_gate. rewrite Hm.
  apply (advance_timers_ok true s clk now) in Hs. destruct (ok_get true id v _ Hs Hv) as [_ Hq].
  destruct (Hq eq_refl Hh Hsus) as [Hsr|[g Hg]]; [by rewrite Hdue|by left|right]. cbn in Hsus |- *.
  by rewrite Hg, Hsus.
Qed.

(** ** The two ways a gate is lost *)

Lemma bget_on_vehicle id f s : bget id (vs_vehicles (on_vehicle id f s)) = f <$> bget id (vs_vehicles s).
Proof. apply bget_bupd. Qed.

(** C37: Two operations leave a Suspended car's read due without its gate: a 404
    answered to a read gated by the car's power, and a failed commit while such a read
    is due, whatever the tick was about. In both cases the car is still Suspended and
    not at the end of its suspension, its read is due at once, and it no longer
    requires the live power gate. After the commit the read waits only for the store's
    back-off. (A 404 to a read gated by motion moves the car to Driving instead.) *)
Theorem gate_lost_by_not_found_and_failed_commit s clk id v due tick now :
  bget id (vs_vehicles s) = Some v -> phase v = Suspended -> hold v = HoldNone ->
  next_read_due v = Some due -> due <= now -> suspension_read v = false -> gated_read v = Some Power ->
  (let s' := (vehicle_class_failure s clk id ClNotFound now).2 in
   exists v', bget id (vs_vehicles s') = Some v'
     /\ phase v' = Suspended /\ suspension_read v' = false
     /\ read_is_due now v' = Some due /\ requires_live_stream_power_gate s' id = false)
  /\ (bwf (vs_vehicles s) -> vs_baseline s = Some (capture_baseline s) -> in_flight v = false ->
      let s' := commit_failed s tick now in
      exists v', bget id (vs_vehicles s') = Some v'
        /\ phase v' = Suspended /\ suspension_read v' = false
        /\ read_is_due now v' = Some due /\ requires_live_stream_power_gate s' id = false).
Proof.
  intros Hv Hp Hh Hd Hle Hs Hg. cbv zeta.
  assert (Hout : forall s' v', bget id (vs_vehicles s') = Some v' -> phase v' = Suspended -> hold v' = HoldNone ->
    in_flight v' = false -> next_read_due v' = Some due -> suspension_read v' = false -> gated_read v' = None ->
    exists v', bget id (vs_vehicles s') = Some v' /\ phase v' = Suspended /\ suspension_read v' = false
      /\ read_is_due now v' = Some due /\ requires_live_stream_power_gate s' id = false).
  { intros s' v' E ????? Hg'. exists v'. unfold requires_live_stream_power_gate. rewrite E. cbn. rewrite Hg'.
    split_and!; [done..| |done]. by apply read_is_due_iff. }
  split.
  - unfold vehicle_class_failure. rewrite Hv, Hp, Hg, (bool_decide_eq_false_2 (Suspended = Updating)) by done.
    cbn [andb snd]. unfold vehicle_not_found. rewrite !bget_on_vehicle, Hv. cbn [fmap option_fmap option_map].
    eapply Hout; [change (vs_vehicles (on_account ?f ?x)) with (vs_vehicles x); rewrite !bget_on_vehicle, Hv; reflexivity|..];
      destruct (next_check_due v) eqn:Hc; destruct v; cbn in Hp, Hh, Hd, Hs, Hg, Hc; by subst.
  - intros Hwf Hb Hf. assert (E : bget id (vs_vehicles (commit_failed s tick now)) = Some (restore_vehicle (vehicle_baseline v) v)).
    { rewrite (sc_vehicles _ _ (commit_failed_same s tick now)). unfold rolled_back.
      change (vs_baseline (s <| vs_pending := _ |>)) with (vs_baseline s). rewrite Hb. apply restore_get.
      - unfold capture_baseline. cbn [tb_vehicles]. rewrite bkeys_map_vals. by apply bwf_nodup.
      - exact Hv.
      - unfold capture_baseline. cbn [tb_vehicles]. by rewrite bget_map_vals, Hv. }
    eapply Hout; [exact E|..]; destruct v; cbn in Hp, Hh, Hd, Hs, Hg, Hf; by subst.
Qed.

(** ** Evaluations *)

Definition later (minutes : Z) : Instant := sample_now + from_secs (60 * minutes).
Definition sample_listed : VehicleScheduler :=
  (accept_discovery sample_start sample_clock [vehicle (sample_car 1)] sample_now).2.
Definition sample_online : VehicleScheduler := vehicle_succeeded sample_listed sample_clock 1 Online true sample_now.
(** The idle window has passed, then the stream sees the car move. *)
Definition sample_suspended : VehicleScheduler := (due_vehicles sample_online sample_clock (later 16)).2.
Definition sample_moving : VehicleScheduler :=
  apply_frame_evidence sample_suspended sample_clock 1 (MkEvidence true false false) FromStream (later 17).

Lemma sample_moving_reachable gates : rtc (sched_step gates) sample_start sample_moving.
Proof.
  apply (rtc_l _ _ sample_listed).
  { apply (ss_list gates sample_start sample_clock [vehicle (sample_car 1)] sample_now).
    intros _. split; [repeat constructor; by intros ?%elem_of_nil|by intros id v]. }
  apply (rtc_l _ _ sample_online). { by apply (ss_succeeded gates sample_listed sample_clock 1 Online true sample_now). }
  apply (rtc_l _ _ sample_suspended). { apply (ss_due_reads gates sample_online sample_clock (later 16)). }
  apply rtc_once, (ss_evidence gates sample_suspended sample_clock 1 (MkEvidence true false false) FromStream (later 17)).
Qed.
Example sample_moving_gated :
  (fun v => (phase v, gated_read v)) <$> bget 1 (vs_vehicles sample_moving) = Some (Suspended, Some Motion).
Proof. vm_compute. reflexivity. Qed.
Lemma reachable_scheduler_well_formed_witness : bwf (vs_vehicles sample_moving) /\ length (vs_vehicles sample_moving) = 1%nat.
Proof.
  split; [|vm_compute; reflexivity].
  exact (proj1 (reachable_scheduler_well_formed sample_cadence Legacy sample_fleet sample_now sample_clock
    (fun _ => f64_zero) sample_moving (sample_moving_reachable false))).
Defined.
Lemma suspended_car_read_only_at_end_or_gated_witness :
  (due_vehicles sample_moving sample_clock (later 17)).1 = [1]
  /\ exists v, bget 1 (vs_vehicles (due_vehicles sample_moving sample_clock (later 17)).2) = Some v
       /\ (phase v = Suspended -> suspension_read v = true
             \/ requires_live_stream_power_gate (due_vehicles sample_moving sample_clock (later 17)).2 1 = true).
Proof.
  assert (E : (due_vehicles sample_moving sample_clock (later 17)).1 = [1]) by (vm_compute; reflexivity).
  split; [exact E|].
  apply (suspended_car_read_only_at_end_or_gated sample_cadence Legacy sample_fleet sample_now sample_clock
    (fun _ => f64_zero) sample_moving sample_clock (later 17) 1 (sample_moving_reachable true)).
  rewrite E. left.
Defined.

(** The same car, woken by its power draw instead. *)
Definition sample_powered : VehicleScheduler :=
  apply_frame_evidence sample_suspended sample_clock 1 (MkEvidence false false true) FromStream (later 17).
Definition sample_powered_car : ScheduledVehicle := default (sample_car 1) (bget 1 (vs_vehicles sample_powered)).
(** The tick whose commit fails began with the gated read due. *)
Definition sample_powered_tick : VehicleScheduler := begin_tick sample_powered.
Lemma gate_lost_witness_both :
  (exists v, bget 1 (vs_vehicles (vehicle_class_failure sample_powered_tick sample_clock 1 ClNotFound (later 17)).2) = Some v
    /\ phase v = Suspended /\ read_is_due (later 17) v = Some (later 17))
  /\ (exists v, bget 1 (vs_vehicles (commit_failed sample_powered_tick tick_default (later 17))) = Some v
    /\ phase v = Suspended /\ read_is_due (later 17) v = Some (later 17)).
Proof.
  assert (E : bget 1 (vs_vehicles sample_powered_tick) = Some sample_powered_car) by (vm_compute; reflexivity).
  assert (Hv : phase sample_powered_car = Suspended /\ hold sample_powered_car = HoldNone
               /\ next_read_due sample_powered_car = Some (later 17) /\ suspension_read sample_powered_car = false
               /\ gated_read sample_powered_car = Some Power) by (vm_compute; repeat split).
  assert (Hb : bwf (vs_vehicles sample_powered_tick) /\ vs_baseline sample_powered_tick = Some (capture_baseline sample_powered_tick)
               /\ in_flight sample_powered_car = false) by (split_and!; [unfold bwf; vm_compute; repeat constructor|vm_compute; reflexivity..]).
  destruct Hv as (H1 & H2 & H3 & H4 & H5), Hb as (B1 & B2 & B3).
  destruct (gate_lost_by_not_found_and_failed_commit sample_powered_tick sample_clock 1 sample_powered_car (later 17)
              tick_default (later 17) E H1 H2 H3 (Z.le_refl _) H4 H5) as [(w & Hw & Hp & _ & Hd & _) T].
  destruct (T B1 B2 B3) as (w' & Hw' & Hp' & _ & Hd' & _).
  split; [exists w|exists w']; split_and!; assumption.
Defined.
