(* ===== verification/SchedRestart.v ===== *)
(** * The vehicle scheduler: rows read back, failed commits and account stops

    The row a tick writes for a car read back by the next start, what a failed
    commit returns, and that the first account stop stands. *)
From S2P Require Import Prelude RustStr F64 External Vocabulary Endpoint Ledger LedgerSafety BTree SchedTypes SchedState SchedAccount SchedOps SchedLoop SchedTick SchedDue SchedCommit SchedInv SchedSteps.
Local Open Scope string_scope.
Local Open Scope Z_scope.

(** ** Deadlines across a restart *)

Lemma deadline_after_exact now delay : now + delay <= instant_max -> deadline_after now delay = now + delay.
Proof. intros H. unfold deadline_after, checked_add, then_some. by rewrite (proj2 (Z.leb_le _ _)). Qed.

(** The times of a clock that a row can hold. *)
Definition storable_clock (now : Instant) (wall : Z) : Prop :=
  now <= instant_max /\ 0 <= wall <= i64_max.

Lemma wall_of_instant_exact now wall at_ :
  storable_clock now wall -> now <= at_ -> wall + as_millis (at_ - now) <= i64_max ->
  wall_of_instant now wall at_ = wall + as_millis (at_ - now).
Proof.
  intros [_ Hw] Hle Hmax. unfold wall_of_instant. rewrite (proj2 (Z.geb_le at_ now)) by lia.
  assert (0 <= as_millis (at_ - now)) by (apply Z.div_pos; unfold NANOS_PER_MILLI; lia).
  rewrite Z.max_l by lia. unfold i64_try_from.
  by rewrite (proj2 (Z.leb_le _ _)), (proj2 (Z.leb_le _ i64_max)) by (munfold; lia).
Qed.
Lemma deadline_roundtrip now wall at_ bound :
  storable_clock now wall -> now <= at_ <= instant_max ->
  wall + as_millis (at_ - now) <= i64_max -> as_millis (at_ - now) <= bound_millis bound ->
  let back := deadline_from_wall now wall (wall_of_instant now wall at_) bound in
  back <= at_ < back + NANOS_PER_MILLI.
Proof.
  intros Hc [Hle Hat] Hmax Hb. cbv zeta. rewrite wall_of_instant_exact by done.
  set (ms := as_millis (at_ - now)) in *.
  assert (Hms : 0 <= ms) by (apply Z.div_pos; unfold NANOS_PER_MILLI; lia).
  assert (Hdm : ms * NANOS_PER_MILLI <= at_ - now < ms * NANOS_PER_MILLI + NANOS_PER_MILLI).
  { unfold ms, as_millis. pose proof (Z.div_mod (at_ - now) NANOS_PER_MILLI).
    pose proof (Z.mod_pos_bound (at_ - now) NANOS_PER_MILLI). unfold NANOS_PER_MILLI in *. lia. }
  unfold deadline_from_wall. rewrite i64_ssub_small by (destruct Hc; munfold; lia).
  replace (wall + ms - wall) with ms by lia.
  assert (Hcl : clamp 0 (bound_millis bound) ms = ms) by (unfold clamp; lia). rewrite Hcl.
  assert (Hd : deadline_after now (from_millis ms) = now + from_millis ms)
    by (apply deadline_after_exact; unfold from_millis; lia). rewrite Hd. unfold from_millis. lia.
Qed.

(** ** Codes *)

Lemma phase_code_roundtrip p : phase_from_code (phase_code p) = p.
Proof. by destruct p. Qed.
Lemma shown_reason_known v : interned (reason v) -> interned (shown_reason v).
Proof. intros Hr. unfold shown_reason. destruct (hold v) as [| | |[]|]; try done. by case_match. Qed.
Lemma hold_roundtrip v :
  text_match [("disabled", Disabled); ("service", Service);
              ("paused", Paused (pause_reason_from_code (shown_reason v))); ("removed", Removed)] HoldNone
    (hold_code (hold v)) = hold v.
Proof. unfold shown_reason. by destruct (hold v) as [| | |[]|]. Qed.

(** The row a tick writes for a car, read back by the next start at the same
    clock, gives the view that was written: the same phase, hold with its pause
    reason, and shown reason, and its suspension and probe deadlines to the
    millisecond, whenever they lie within the bound the reader applies. *)
Theorem stored_car_row_reads_back `{Calendar} cadence mode fleet now0 clk0 jitter s now wall id v w suspend :
  rtc (sched_step false) (scheduler_new cadence mode fleet now0 clk0 jitter) s ->
  bget id (vs_vehicles s) = Some v -> vehicle_write s now wall id v = Some w -> storable_clock now wall ->
  let back := view_from_row (MkRestored id (vw_row w) suspend) now wall in
  vv_phase back = phase v /\ vv_hold back = hold v /\ vv_reason back = shown_reason v
  /\ vv_phase_since_ms back = Z.max (phase_since v).2 0
  /\ (phase v <> Suspended -> vv_suspended_until back = None)
  /\ (forall at_, phase v = Suspended -> suspended_until v = Some at_ -> now <= at_ <= instant_max ->
        wall + as_millis (at_ - now) <= i64_max -> as_millis (at_ - now) <= bound_millis suspend ->
        exists at', vv_suspended_until back = Some at' /\ at' <= at_ < at' + NANOS_PER_MILLI)
  /\ (forall at_, vv_next_probe (vehicle_view v) = Some at_ -> now <= at_ <= instant_max ->
        wall + as_millis (at_ - now) <= i64_max -> as_millis (at_ - now) <= bound_millis (probe_bound (hold_code (hold v))) ->
        exists at', vv_next_probe back = Some at' /\ at' <= at_ < at' + NANOS_PER_MILLI).
Proof.
  intros ((_ & Hm) & _)%sched_reachable_ok Hv Hw Hc. apply Hm in Hv as [Hr _]. clear Hm.
  assert (Hrow : exists hub, vw_row w =
    {| vr_vehicle_id := hub; vr_phase := phase_code (phase v); vr_hold := hold_code (hold v);
       vr_reason_code := shown_reason v; vr_phase_since_ms := Z.max (phase_since v).2 0;
       vr_suspended_until_ms := wall_of_instant now wall <$> vv_suspended_until (vehicle_view v);
       vr_next_probe_ms := wall_of_instant now wall <$> vv_next_probe (vehicle_view v);
       vr_last_wake_read_at_ms := wall_of_instant now wall <$> last_wake_read v |}).
  { unfold vehicle_write in Hw. apply bind_Some in Hw as (hub & _ & Hw). exists hub.
    destruct (_ && _); [done|]. unfold then_some in Hw. destruct (match bget _ _ with Some _ => _ | None => _ end); [|done].
    by injection Hw as <-. }
  destruct Hrow as [hub Hrow]. cbv zeta. unfold view_from_row. rewrite Hrow. cbn [rs_row rs_suspend vr_phase vr_hold
    vr_reason_code vr_phase_since_ms vr_suspended_until_ms vr_next_probe_ms vv_phase vv_hold vv_reason
    vv_phase_since_ms vv_suspended_until vv_next_probe].
  split_and!; [apply phase_code_roundtrip|apply hold_roundtrip| |done|..].
  - apply intern_reason_id. exact (proj1 (bool_decide_eq_true _) (shown_reason_known v Hr)).
  - intros Hp. cbn. by rewrite bool_decide_eq_false_2.
  - intros at_ Hp Hat Hle Hmax Hb. unfold vehicle_view. cbn [vv_suspended_until].
    rewrite bool_decide_eq_true_2, Hat by done. eexists. split; [reflexivity|]. by apply deadline_roundtrip.
  - intros at_ Hat Hle Hmax Hb. rewrite Hat. eexists. split; [reflexivity|]. by apply deadline_roundtrip.
Qed.

(** ** Failed commits *)


Lemma extend_wait_fields u why s :
  let s' := extend_wait u why s in
  pt_gaps (vs_pending s') = pt_gaps (vs_pending s) /\ vs_ledger s' = vs_ledger s
  /\ vs_persisted_account s' = vs_persisted_account s /\ vs_persisted_vehicles s' = vs_persisted_vehicles s
  /\ vs_open_gaps s' = vs_open_gaps s /\ ac_state (vs_account s') = ac_state (vs_account s)
  /\ ac_next_billing_probe (vs_account s') = ac_next_billing_probe (vs_account s)
  /\ exists u' why', ac_wait (vs_account s') = Some (u', why') /\ u <= u'.
Proof.
  cbv zeta. unfold extend_wait. destruct (ac_wait (vs_account s)) as [[current w]|] eqn:E.
  - destruct (current >=? u) eqn:Hc; split_and!; try done.
    + apply Z.geb_le in Hc. by exists current, w.
    + by exists u, why.
  - split_and!; try done. by exists u, why.
Qed.
(** What a roll-back never touches. *)
Record same_facts (s s' : VehicleScheduler) : Prop := MkSameFacts {
  sf_ledger : vs_ledger s' = vs_ledger s;
  sf_account : vs_persisted_account s' = vs_persisted_account s;
  sf_vehicles : vs_persisted_vehicles s' = vs_persisted_vehicles s;
  sf_gaps : vs_open_gaps s' = vs_open_gaps s;
  sf_timing : vs_timing s' = vs_timing s;
  sf_jitter : vs_jitter s' = vs_jitter s;
}.
#[export] Instance same_facts_preorder : PreOrder same_facts.
Proof. split; [by intros s|]. intros s1 s2 s3 [] []. split; congruence. Qed.




(** ** The first stop stands *)

Definition keeps_stop (s s' : VehicleScheduler) : Prop :=
  ac_state (vs_account s) <> AcCollecting -> ac_state (vs_account s') = ac_state (vs_account s).
#[export] Instance keeps_stop_preorder : PreOrder keeps_stop.
Proof. split; [by intros s|]. unfold keeps_stop. intros s1 s2 s3 H1 H2 Hs. rewrite H2, H1; [done..|]. by rewrite H1. Qed.

Lemma keeps_same_state s s' : ac_state (vs_account s') = ac_state (vs_account s) -> keeps_stop s s'.
Proof. by intros H _. Qed.
Create HintDb stops.
Lemma keeps_extend_wait u why s : keeps_stop s (extend_wait u why s).
Proof. apply keeps_same_state. by destruct (extend_wait_fields u why s) as (_ & _ & _ & _ & _ & E & _). Qed.
Lemma keeps_note_answered s : keeps_stop s (note_answered s).
Proof. apply keeps_same_state. unfold note_answered. by repeat case_match. Qed.
Lemma keeps_enter_account_state s clk st why now : keeps_stop s (enter_account_state s clk st why now).
Proof.
  intros Hs. unfold enter_account_state. cbv zeta. case_match eqn:E1; [by case_match|].
  unfold account_is. by rewrite (bool_decide_eq_false_2 (_ = AcCollecting)).
Qed.
Lemma keeps_refuse s clk cause now : keeps_stop s (refuse s clk cause now).
Proof. unfold refuse. destruct (refusal_for s cause). apply keeps_enter_account_state. Qed.
Lemma keeps_credential_stop s clk : keeps_stop s (enter_credential_stop s clk).
Proof. intros Hs. unfold enter_credential_stop, account_is. by rewrite bool_decide_eq_false_2. Qed.
#[export] Hint Resolve keeps_extend_wait keeps_note_answered keeps_enter_account_state keeps_refuse
  keeps_credential_stop : stops.
Lemma keeps_rate_limited s n now : keeps_stop s (rate_limited s n now).2.
Proof.
  unfold rate_limited. cbv zeta. set (s1 := (if wait_running s WaRateLimited now then _ else _)).
  assert (H1 : keeps_stop s s1) by (unfold s1; case_match; [done|by apply keeps_same_state]). clearbody s1.
  etrans; [exact H1|]. destruct (negb _); [apply keeps_extend_wait|].
  destruct (wait_running _ _ _); [apply keeps_extend_wait|].
  etrans; [by apply (keeps_same_state s1 (draw s1).2)|]. apply keeps_extend_wait.
Qed.
Lemma keeps_counted f s now why (delay : VehicleScheduler -> f64 -> Duration) :
  (forall a, ac_state (f a) = ac_state a) ->
  keeps_stop s (let '(u, s) := draw (on_account f s) in extend_wait (deadline_after now (delay s u)) why s).
Proof.
  intros Hf. cbn [draw]. etrans; [|apply keeps_extend_wait]. apply keeps_same_state. apply Hf.
Qed.
Lemma keeps_unreachable s now : keeps_stop s (unreachable s now).2.
Proof. unfold unreachable. cbv zeta. cbn [snd]. case_match; [done|]. by apply keeps_counted. Qed.
Lemma keeps_auth_failed s retry now : keeps_stop s (auth_failed s retry now).2.
Proof. unfold auth_failed. cbv zeta. cbn [snd]. case_match; [done|]. by apply keeps_counted. Qed.
#[export] Hint Resolve keeps_rate_limited keeps_unreachable keeps_auth_failed : stops.
Lemma keeps_account_failed s clk class e now : keeps_stop s (account_failed s clk class e now).2.
Proof.
  unfold account_failed. destruct (is_account_state_class class).
  - unfold account_state_failed. destruct class; cbn [snd]; auto with stops; done.
  - case_match; [done|].
    assert (Ha : forall r, keeps_stop s (let '(delay, s0) := auth_failed s r now in (Some delay, s0)).2).
    { intros r. pose proof (keeps_auth_failed s r now). by destruct (auth_failed s r now). }
    pose proof (keeps_rate_limited s (default 0 (rate_limit_retry_after_seconds e)) now).
    pose proof (keeps_unreachable s now).
    destruct class; try apply Ha; try (by destruct (rate_limited _ _ _)); try (by destruct (unreachable _ _)).
    apply keeps_credential_stop.
Qed.
Lemma keeps_pause s clk id why class now : keeps_stop s (pause_vehicle s clk id why class now).
Proof.
  unfold pause_vehicle. case_match; [|done]. cbv zeta. etrans; [by apply (keeps_same_state s (on_vehicle id (fun v => car_pause v why class now) s))|].
  case_match; [|done]. unfold check_every_vehicle_refused. case_match; [done|]. cbv zeta. case_match; auto with stops; done.
Qed.
Lemma keeps_persistent s clk id now : keeps_stop s (pause_if_persistent s clk id now).
Proof. unfold pause_if_persistent. case_match; [|done]. case_match; [apply keeps_pause|done]. Qed.
Lemma keeps_count_failure s clk id class now : keeps_stop s (count_vehicle_failure s clk id class now).
Proof. unfold count_vehicle_failure. cbv zeta. etrans; [|apply keeps_persistent]. by apply keeps_same_state. Qed.
#[export] Hint Resolve keeps_account_failed keeps_pause keeps_persistent keeps_count_failure : stops.
Lemma keeps_not_found s id now : keeps_stop s (vehicle_not_found s id now).
Proof. unfold vehicle_not_found. apply keeps_same_state. by case_match. Qed.
#[export] Hint Resolve keeps_not_found : stops.
Lemma keeps_class_failure s clk id class now : keeps_stop s (vehicle_class_failure s clk id class now).2.
Proof.
  unfold vehicle_class_failure. cbv zeta. destruct (bget id (vs_vehicles s)) as [v|]; [|done].
  set (s1 := on_vehicle id _ s). assert (H1 : keeps_stop s s1) by by apply keeps_same_state. clearbody s1.
  case_match; [etrans; [exact H1|]; by apply keeps_same_state|].
  set (s2 := on_vehicle id _ s1). assert (H2 : keeps_stop s s2) by (etrans; [exact H1|]; by apply keeps_same_state).
  clearbody s2. etrans; [exact H2|].
  destruct class; cbn [snd]; auto with stops.
  - unfold read_unavailable, schedule_offline_state_fetch. apply keeps_same_state. by repeat case_match.
  - unfold enter_service_mode. apply keeps_same_state. by destruct (bget id (vs_vehicles s2)).
Qed.
Lemma keeps_credential_outcome s clk id outcome now : keeps_stop s (credential_outcome s clk id outcome now).2.
Proof.
  assert (Hrel : forall class s', keeps_stop s'
    (match id with Some id => release_after_account_failure s' clk id class now | None => s' end)).
  { intros class s'. destruct id; [by apply keeps_same_state|done]. }
  unfold credential_outcome. cbv zeta. destruct outcome; cbn [snd].
  - pose proof (keeps_auth_failed s (Some retry_after) now) as Ha.
    destruct (auth_failed s (Some retry_after) now) as [delay s1]. etrans; [exact Ha|]. apply Hrel.
  - etrans; [apply keeps_note_answered|]. etrans; [|apply Hrel]. apply keeps_refuse.
  - etrans; [apply keeps_note_answered|]. destruct id; [apply keeps_class_failure|done].
  - etrans; [|apply Hrel]. apply keeps_credential_stop.
Qed.
#[export] Hint Resolve keeps_class_failure keeps_credential_outcome : stops.
Lemma keeps_answered (b : bool) s : keeps_stop s (if b then s else note_answered s).
Proof. destruct b; [done|apply keeps_note_answered]. Qed.
Lemma keeps_refusal_check (b : bool) s now : keeps_stop s (if b then request_refusal_check s now else s).
Proof. destruct b; [by apply keeps_same_state|done]. Qed.

Lemma keeps_vehicle_failed s clk id e now : keeps_stop s (vehicle_failed_for_error s clk id e now).2.
Proof.
  unfold vehicle_failed_for_error. destruct (credential_outcome_for s clk e); [apply keeps_credential_outcome|]. cbv zeta.
  case_match; [by apply keeps_same_state|]. etrans; [apply (keeps_answered (bool_decide (classify e ReadRequest (vs_mode s) = ClUnreachable)))|].
  pose proof (keeps_account_failed (if bool_decide (classify e ReadRequest (vs_mode s) = ClUnreachable) then s else note_answered s)
                clk (classify e ReadRequest (vs_mode s)) e now) as Ha.
  destruct (account_failed _ clk _ e now) as [failed s2]. cbn [snd] in Ha. etrans; [exact Ha|].
  destruct (is_some failed); [by apply keeps_same_state|].
  etrans; [apply (keeps_refusal_check (is_owner_wire (vs_mode s2) && is_owner_wire_forbidden e) s2 now)|]. apply keeps_class_failure.
Qed.
Lemma keeps_check_failed s clk id e now : keeps_stop s (offline_state_failed_for_error s clk id e now).
Proof.
  unfold offline_state_failed_for_error. cbv zeta.
  etrans; [apply (keeps_answered (bool_decide (classify e RecordRequest (vs_mode s) = ClUnreachable) || bool_decide (classify e RecordRequest (vs_mode s) = ClGateNotConfirmed)))|].
  match goal with |- keeps_stop ?x _ => set (s1 := x) end. clearbody s1.
  set (class := classify e RecordRequest (vs_mode s)). clearbody class.
  pose proof (keeps_account_failed s1 clk class e now) as Ha.
  destruct (account_failed s1 clk class e now) as [failed s2]. cbn [snd] in Ha. etrans; [exact Ha|].
  destruct (is_some failed); [done|].
  etrans; [apply (keeps_refusal_check (is_owner_wire (vs_mode s2) && is_owner_wire_forbidden e) s2 now)|].
  match goal with |- keeps_stop ?x _ => set (s3 := x) end. clearbody s3.
  match goal with |- keeps_stop _ (on_vehicle _ _ ?x) => trans x; [|by apply keeps_same_state] end.
  destruct class; auto with stops; try (by apply keeps_same_state).
  all: etrans; [|apply keeps_persistent]; by apply keeps_same_state.
Qed.
Lemma keeps_list_failed s clk e now : keeps_stop s (discovery_failed_for_error s clk e now).2.
Proof.
  unfold discovery_failed_for_error. destruct (credential_outcome_for s clk e) as [o|].
  { pose proof (keeps_credential_outcome s clk None o now). by destruct (credential_outcome s clk None o now). }
  cbv zeta. etrans; [apply (keeps_answered (bool_decide (classify e ListRequest (vs_mode s) = ClUnreachable)))|]. match goal with |- keeps_stop ?x _ => set (s1 := x) end. clearbody s1.
  pose proof (keeps_account_failed s1 clk (classify e ListRequest (vs_mode s)) e now) as Ha.
  destruct (account_failed s1 clk _ e now) as [[d|] s2]; cbn [snd] in Ha; (etrans; [exact Ha|]); [done|].
  by apply keeps_same_state.
Qed.
Lemma keeps_probe_failed s clk id e now : keeps_stop s (probe_failed s clk id e now).2.
Proof.
  unfold probe_failed. cbv zeta. set (class := classify e ProbeRequest (vs_mode s)). clearbody class.
  etrans; [apply (keeps_answered (bool_decide (class = ClUnreachable)))|]. match goal with |- keeps_stop ?x _ => set (s1 := x) end. clearbody s1.
  pose proof (keeps_account_failed s1 clk class e now) as Ha.
  destruct (account_failed s1 clk class e now) as [failed s2]. cbn [snd] in Ha. etrans; [exact Ha|].
  destruct (is_some failed); [done|].
  etrans; [apply (keeps_refusal_check (is_owner_wire (vs_mode s2) && is_owner_wire_forbidden e) s2 now)|].
  match goal with |- keeps_stop ?x _ => set (s3 := x) end. clearbody s3.
  destruct class; cbn [snd]; auto with stops; try (by apply keeps_same_state).
  - etrans; [apply (keeps_not_found s3 id now)|]. by apply keeps_same_state.
  - case_match; [by apply keeps_same_state|]. unfold enter_service_mode. apply keeps_same_state.
    by destruct (bget id (vs_vehicles s3)).
Qed.

(** The first stop of the account stands: once the account is not collecting,
    no failure of a read, a targeted check, a list, a probe or the credential, of
    whatever class, changes its state. *)
Theorem first_account_stop_stands s clk id e outcome now :
  ac_state (vs_account s) <> AcCollecting ->
  let st := ac_state (vs_account s) in
  ac_state (vs_account (vehicle_failed_for_error s clk id e now).2) = st
  /\ ac_state (vs_account (offline_state_failed_for_error s clk id e now)) = st
  /\ ac_state (vs_account (discovery_failed_for_error s clk e now).2) = st
  /\ ac_state (vs_account (probe_finished s clk id (PrFailed e) now).2) = st
  /\ ac_state (vs_account (credential_outcome s clk (Some id) outcome now).2) = st.
Proof.
  intros Hs. cbv zeta. split_and!; [by apply keeps_vehicle_failed|by apply keeps_check_failed|
    by apply keeps_list_failed| |by apply keeps_credential_outcome].
  exact (keeps_probe_failed (on_vehicle id (fun v => v <| in_flight := false |>) s) clk id e now Hs).
Qed.

(** ** Evaluations *)

(** The Suspended car of [SchedSteps], written a minute after its suspension. *)
Definition sample_configured : VehicleScheduler :=
  (apply_control_settings sample_suspended sample_clock [(1, 1, sample_car_settings)] (later 16)).2.
Definition sample_written : ScheduledVehicle := default (sample_car 1) (bget 1 (vs_vehicles sample_configured)).
Definition sample_row : VehicleWrite :=
  default (MkVehicleWrite 0 (vehicle_view sample_written) (MkVehicleRow 0 "" "" "" 0 None None None))
    (vehicle_write sample_configured (later 17) 1767226620000 1 sample_written).
Lemma sample_row_written :
  bget 1 (vs_vehicles sample_configured) = Some sample_written
  /\ vehicle_write sample_configured (later 17) 1767226620000 1 sample_written = Some sample_row
  /\ storable_clock (later 17) 1767226620000.
Proof. split; [vm_compute; reflexivity|]. split; [vm_compute; reflexivity|]. vm_compute. repeat split; discriminate. Qed.
Lemma sample_configured_reachable gates : rtc (sched_step gates) sample_start sample_configured.
Proof.
  apply (rtc_l _ _ sample_listed).
  { apply (ss_list gates sample_start sample_clock [vehicle (sample_car 1)] sample_now).
    intros _. split; [repeat constructor; by intros ?%elem_of_nil|by intros id v]. }
  apply (rtc_l _ _ sample_online). { by apply (ss_succeeded gates sample_listed sample_clock 1 Online true sample_now). }
  apply (rtc_l _ _ sample_suspended). { apply (ss_due_reads gates sample_online sample_clock (later 16)). }
  apply rtc_once, (ss_settings gates sample_suspended sample_clock [(1, 1, sample_car_settings)] (later 16)).
Qed.
Lemma stored_car_row_reads_back_witness :
  vr_phase (vw_row sample_row) = "suspended"
  /\ vv_phase (view_from_row (MkRestored 1 (vw_row sample_row) (from_secs 1260)) (later 17) 1767226620000)
     = phase sample_written.
Proof.
  split; [vm_compute; reflexivity|].
  exact (proj1 (stored_car_row_reads_back sample_cadence Legacy sample_fleet sample_now sample_clock
    (fun _ => f64_zero) sample_configured (later 17) 1767226620000 1 sample_written sample_row (from_secs 1260)
    (sample_configured_reachable false) (proj1 sample_row_written) (proj1 (proj2 sample_row_written))
    (proj2 (proj2 sample_row_written)))).
Defined.


Definition locked : VehicleScheduler := on_account (fun a => a <| ac_state := AcAccountLocked |>) sample_online.
Lemma first_account_stop_stands_witness :
  ac_state (vs_account (credential_outcome locked sample_clock (Some 1) CoTerminalStop sample_now).2) = AcAccountLocked.
Proof.
  apply (first_account_stop_stands locked sample_clock 1 (CeLegacyAuth VehicleAccessRejected) CoTerminalStop sample_now).
  vm_compute. discriminate.
Defined.
