(* ===== verification/PackData.v ===== *)
(** * Packs: the data

    The rows and requests of [src/src/sync/hub_pack/model.rs] that a projection pack is
    written from: the full snapshot, the sparse delta and the physical snapshot of
    schema 2.2, with [SequenceRange], [ProtocolLimits] and [MirrorTable] of
    [src/src/api/protocol.rs]. *)
From S2P Require Import Prelude RustStr F64 AuthState LifeData SchedTypes.
Local Open Scope string_scope.
Local Open Scope Z_scope.
Local Open Scope list_scope.

(** ** Rows in order *)

(** Every row of a table in turn, with what the rows before it left. *)
Fixpoint each_row {E S A} (f : S -> A -> result E S) (s : S) (rows : list A) : result E S :=
  match rows with
  | [] => Ok s
  | row :: rows => s ← f s row; each_row f s rows
  end.
(** [Display] of an [i64]. *)
Definition print_i64 (z : Z) : string := if z <? 0 then append "-" (print_u64 (- z)) else print_u64 z.
Definition is_nil (id : Uuid) : bool := id =? 0.

(** ** Bounds and errors *)

(** Thirty-two bytes. *)
Definition Sha256Digest : Type := string.
Definition is_zero (digest : Sha256Digest) : bool := str_all (fun c => byte_of c =? 0) digest.

Record SequenceRange := MkSequenceRange {
  sq_from_exclusive : Z;
  sq_to_inclusive : Z;
}.
#[export] Instance SequenceRange_eq_dec : EqDecision SequenceRange.
Proof. solve_decision. Defined.
Definition is_ordered (r : SequenceRange) : bool := sq_from_exclusive r <=? sq_to_inclusive r.

Record ProtocolLimits := MkProtocolLimits {
  lim_max_chunks : Z;
  lim_max_relative_path_bytes : Z;
  lim_max_compressed_pack_bytes : Z;
  lim_max_uncompressed_pack_bytes : Z;
  lim_max_expansion_ratio : Z;
  lim_max_rows_per_pack : Z;
  lim_max_tables_per_pack : Z;
}.
#[export] Instance eta_ProtocolLimits : Eta ProtocolLimits := fun r =>
  MkProtocolLimits (lim_max_chunks r) (lim_max_relative_path_bytes r) (lim_max_compressed_pack_bytes r)
    (lim_max_uncompressed_pack_bytes r) (lim_max_expansion_ratio r) (lim_max_rows_per_pack r)
    (lim_max_tables_per_pack r).
Definition ProtocolLimits_default : ProtocolLimits :=
  MkProtocolLimits 512 256 (64 * 1024 * 1024) (256 * 1024 * 1024) 64 1000000 8.
Definition hub_sync_v1_1_3_schema_2_2 : ProtocolLimits :=
  ProtocolLimits_default <| lim_max_chunks := 1771 |> <| lim_max_compressed_pack_bytes := 16 * 1024 * 1024 |>.

Inductive MirrorTable :=
| MtVehicle | MtCar | MtDrive | MtChargingProcess | MtPosition | MtCharge | MtChargeSample | MtState | MtUpdate | MtTombstone.
#[export] Instance MirrorTable_eq_dec : EqDecision MirrorTable.
Proof. solve_decision. Defined.

(** What the checks of a pack end in. *)
Inductive ProjectionPackError := PeInvalid (message : string) | PeTooManyRows.

Definition count_rows (counts : list nat) : result ProjectionPackError Z :=
  fold_left (fun total count =>
    total ← total; if u64_max <? total + Z.of_nat count then Err PeTooManyRows else Ok (total + Z.of_nat count))
    counts (Ok 0).

(** ** The compatibility rows *)

Record ProjectionBinding := MkProjectionBinding {
  pb_installation_id : Uuid;
  pb_account_id : Uuid;
  pb_vehicle_id : Uuid;
  pb_generation : Z;
  pb_selected_car_id : Z;
}.

Record ProjectionCar := MkProjectionCar {
  pcar_id : Z;
  pcar_name : string;
  pcar_model : string;
  pcar_vin : option string;
  pcar_source_eid : option Z;
  pcar_source_vid : option Z;
  pcar_trim_badging : option string;
  pcar_marketing_name : option string;
  pcar_exterior_color : option string;
  pcar_wheel_type : option string;
  pcar_spoiler_type : option string;
  pcar_firmware_version : option string;
  pcar_efficiency_wh_per_km : option f64;
  pcar_settings : ProjectionCarSettings;
}.
#[export] Instance eta_ProjectionCar : Eta ProjectionCar := fun r =>
  MkProjectionCar (pcar_id r) (pcar_name r) (pcar_model r) (pcar_vin r) (pcar_source_eid r) (pcar_source_vid r)
    (pcar_trim_badging r) (pcar_marketing_name r) (pcar_exterior_color r) (pcar_wheel_type r) (pcar_spoiler_type r)
    (pcar_firmware_version r) (pcar_efficiency_wh_per_km r) (pcar_settings r).

Definition LIVE_SUSPEND_AFTER_IDLE_MIN : Z := 15.
Definition LIVE_SUSPEND_MIN : Z := 30.
Definition new_live : ProjectionCarSettings :=
  MkCarSettings true true LIVE_SUSPEND_AFTER_IDLE_MIN LIVE_SUSPEND_MIN true false false false.
Definition source_column_defaults : ProjectionCarSettings := MkCarSettings true true 15 21 true false false false.

(** [into_car]: the stated facts over the known row. *)
Definition into_car (p : ProjectionCarPatch) (car_id : Z) (existing : option ProjectionCar)
    (fallback_name fallback_vin : option string) : ProjectionCar :=
  let known {A} (field : ProjectionCar -> option A) : option A := car ← existing; field car in
  {| pcar_id := car_id;
     pcar_name := default "Tesla" (opt_or (opt_or (cp_name p) (pcar_name <$> existing)) fallback_name);
     pcar_model := default "Unknown Tesla" (opt_or (cp_model p) (pcar_model <$> existing));
     pcar_vin := opt_or (opt_or (cp_vin p) (known pcar_vin)) fallback_vin;
     pcar_source_eid := known pcar_source_eid;
     pcar_source_vid := known pcar_source_vid;
     pcar_trim_badging := opt_or (cp_trim_badging p) (known pcar_trim_badging);
     pcar_marketing_name := opt_or (cp_marketing_name p) (known pcar_marketing_name);
     pcar_exterior_color := opt_or (cp_exterior_color p) (known pcar_exterior_color);
     pcar_wheel_type := opt_or (cp_wheel_type p) (known pcar_wheel_type);
     pcar_spoiler_type := opt_or (cp_spoiler_type p) (known pcar_spoiler_type);
     pcar_firmware_version := opt_or (cp_firmware_version p) (known pcar_firmware_version);
     pcar_efficiency_wh_per_km := known pcar_efficiency_wh_per_km;
     pcar_settings := default new_live (pcar_settings <$> existing) |}.

Record ProjectionSnapshot := MkProjectionSnapshot {
  sp_cars : list ProjectionCar;
  sp_drives : list ProjectionDrive;
  sp_positions : list ProjectionPosition;
  sp_charges : list ProjectionCharge;
  sp_charge_samples : list ProjectionChargeSample;
}.
Definition snapshot_row_count (s : ProjectionSnapshot) : result ProjectionPackError Z :=
  count_rows [length (sp_cars s); length (sp_drives s); length (sp_positions s); length (sp_charges s); length (sp_charge_samples s)].

Record ProjectionPackRequest := MkProjectionPackRequest {
  pr_pack_id : Uuid;
  pr_snapshot_id : Uuid;
  pr_ordinal : Z;
  pr_binding : ProjectionBinding;
  pr_sequence : SequenceRange;
  pr_snapshot : ProjectionSnapshot;
}.

(** ** The sparse delta *)

Inductive ProjectionDeltaEntity :=
| DeCar | DeCarSetting | DeGeofence | DeAddress | DeDrive | DePosition | DeCharge | DeChargeSample | DeState | DeUpdate.
#[export] Instance ProjectionDeltaEntity_eq_dec : EqDecision ProjectionDeltaEntity.
Proof. solve_decision. Defined.
Definition entity_as_str (e : ProjectionDeltaEntity) : string :=
  match e with
  | DeCar => "car" | DeCarSetting => "car_setting" | DeGeofence => "geofence" | DeAddress => "address" | DeDrive => "drive"
  | DePosition => "position" | DeCharge => "charge" | DeChargeSample => "charge_sample" | DeState => "state" | DeUpdate => "update"
  end.
(** Dependent rows before their parents. *)
Definition source_owned_tombstone_order (e : ProjectionDeltaEntity) : option Z :=
  match e with
  | DeChargeSample => Some 0 | DePosition => Some 1 | DeCharge => Some 2 | DeDrive => Some 3 | DeState => Some 4 | DeUpdate => Some 5
  | DeCar | DeCarSetting | DeGeofence | DeAddress => None
  end.

Record ProjectionTombstone := MkProjectionTombstone {
  pt_entity : ProjectionDeltaEntity;
  pt_id : Z;
  pt_car_id : Z;
}.

Record ProjectionCarSettingsPatch := MkProjectionCarSettingsPatch {
  sps_car_id : Z;
  sps_settings : ProjectionCarSettings;
}.

Record ProjectionDelta := MkProjectionDelta {
  pdl_binding : ProjectionBinding;
  pdl_sequence : SequenceRange;
  pdl_parent_digest : Sha256Digest;
  pdl_cars : list ProjectionCar;
  pdl_car_settings : list ProjectionCarSettingsPatch;
  pdl_drives : list ProjectionDrive;
  pdl_positions : list ProjectionPosition;
  pdl_charges : list ProjectionCharge;
  pdl_charge_samples : list ProjectionChargeSample;
  pdl_states : list ProjectionState;
  pdl_updates : list ProjectionUpdate;
  pdl_tombstones : list ProjectionTombstone;
}.
#[export] Instance eta_ProjectionDelta : Eta ProjectionDelta := fun r =>
  MkProjectionDelta (pdl_binding r) (pdl_sequence r) (pdl_parent_digest r) (pdl_cars r) (pdl_car_settings r)
    (pdl_drives r) (pdl_positions r) (pdl_charges r) (pdl_charge_samples r) (pdl_states r) (pdl_updates r)
    (pdl_tombstones r).
Definition delta_row_count (d : ProjectionDelta) : result ProjectionPackError Z :=
  count_rows [length (pdl_cars d); length (pdl_car_settings d); length (pdl_drives d); length (pdl_positions d); length (pdl_charges d);
              length (pdl_charge_samples d); length (pdl_states d); length (pdl_updates d); length (pdl_tombstones d)].
Definition delta_is_empty (d : ProjectionDelta) : bool := match delta_row_count d with Ok n => n =? 0 | Err _ => false end.

Record ProjectionDeltaPackRequest := MkProjectionDeltaPackRequest {
  dpr_pack_id : Uuid;
  dpr_snapshot_id : Uuid;
  dpr_ordinal : Z;
  dpr_delta : ProjectionDelta;
}.

(** ** The physical rows of schema 2.2 *)

Inductive ProjectionUnitOfLengthV2_2 := Kilometers | Miles.
Inductive ProjectionUnitOfTemperatureV2_2 := Celsius | Fahrenheit.
Inductive ProjectionUnitOfPressureV2_2 := Bar | Psi.
Inductive ProjectionPreferredRangeV2_2 := Ideal | Rated.
Inductive ProjectionStateStatusV2_2 := SsOnline | SsOffline | SsAsleep.

Definition billing_as_str (b : GeofenceBillingType) : string := match b with PerKwh => "per_kwh" | PerMinute => "per_minute" end.
Definition length_as_str (u : ProjectionUnitOfLengthV2_2) : string := match u with Kilometers => "km" | Miles => "mi" end.
Definition temperature_as_str (u : ProjectionUnitOfTemperatureV2_2) : string := match u with Celsius => "C" | Fahrenheit => "F" end.
Definition pressure_as_str (u : ProjectionUnitOfPressureV2_2) : string := match u with Bar => "bar" | Psi => "psi" end.
Definition range_as_str (r : ProjectionPreferredRangeV2_2) : string := match r with Ideal => "ideal" | Rated => "rated" end.
Definition status_as_str (s : ProjectionStateStatusV2_2) : string :=
  match s with SsOnline => "online" | SsOffline => "offline" | SsAsleep => "asleep" end.

(** The [FromStr] implementations: the value whose label it is. *)
Definition from_label {A} (label : A -> string) (values : list A) (text : string) : option A :=
  find_first (fun v => bool_decide (label v = text)) values.
Definition billing_from_str : string -> option GeofenceBillingType := from_label billing_as_str [PerKwh; PerMinute].
Definition length_from_str : string -> option ProjectionUnitOfLengthV2_2 := from_label length_as_str [Kilometers; Miles].
Definition temperature_from_str : string -> option ProjectionUnitOfTemperatureV2_2 := from_label temperature_as_str [Celsius; Fahrenheit].
Definition pressure_from_str : string -> option ProjectionUnitOfPressureV2_2 := from_label pressure_as_str [Bar; Psi].
Definition range_from_str : string -> option ProjectionPreferredRangeV2_2 := from_label range_as_str [Ideal; Rated].

(** A constrained PostgreSQL [numeric(p,s)]: a scaled integer or NaN; and the bits of a
    [double precision]. *)
Inductive ProjectionFixedNumericV2_2 := FnFinite (value : Z) | FnNaN.
Definition sqlite_parts (n : ProjectionFixedNumericV2_2) : option Z * Z :=
  match n with FnFinite value => (Some value, 0) | FnNaN => (None, 1) end.
Definition optional_fixed_numeric_sqlite_parts (n : option ProjectionFixedNumericV2_2) : option Z * Z :=
  match n with Some value => sqlite_parts value | None => (None, 0) end.
Definition ProjectionFloat64BitsV2_2 : Type := Z.

Record ProjectionGlobalSettingsV2_2 := MkProjectionGlobalSettingsV2_2 {
  gs22_id : Z;
  gs22_unit_of_length : ProjectionUnitOfLengthV2_2;
  gs22_unit_of_temperature : ProjectionUnitOfTemperatureV2_2;
  gs22_unit_of_pressure : ProjectionUnitOfPressureV2_2;
  gs22_preferred_range : ProjectionPreferredRangeV2_2;
  gs22_base_url : option string;
  gs22_grafana_url : option string;
  gs22_language : string;
  gs22_theme_mode : string;
  gs22_inserted_at_pg_us : Z;
  gs22_updated_at_pg_us : Z;
}.

Record ProjectionCarSettingsV2_2 := MkProjectionCarSettingsV2_2 {
  cs22_id : Z;
  cs22_suspend_min : Z;
  cs22_suspend_after_idle_min : Z;
  cs22_req_not_unlocked : bool;
  cs22_free_supercharging : bool;
  cs22_use_streaming_api : bool;
  cs22_enabled : bool;
  cs22_lfp_battery : bool;
}.

Record ProjectionCarV2_2 := MkProjectionCarV2_2 {
  car22_id : Z;
  car22_eid : Z;
  car22_vid : Z;
  car22_vin : option string;
  car22_name : option string;
  car22_model : option string;
  car22_efficiency : option f64;
  car22_trim_badging : option string;
  car22_marketing_name : option string;
  car22_exterior_color : option string;
  car22_wheel_type : option string;
  car22_spoiler_type : option string;
  car22_display_priority : Z;
  car22_inserted_at_pg_us : Z;
  car22_updated_at_pg_us : Z;
  car22_settings_id : Z;
}.

Record ProjectionStateV2_2 := MkProjectionStateV2_2 {
  st22_id : Z;
  st22_car_id : Z;
  st22_state : ProjectionStateStatusV2_2;
  st22_start_date_pg_us : Z;
  st22_end_date_pg_us : option Z;
}.

Record ProjectionUpdateV2_2 := MkProjectionUpdateV2_2 {
  up22_id : Z;
  up22_car_id : Z;
  up22_start_date_pg_us : Z;
  up22_end_date_pg_us : option Z;
  up22_version : option string;
}.

Record ProjectionAddressV2_2 := MkProjectionAddressV2_2 {
  ad22_id : Z;
  ad22_display_name : option string;
  ad22_latitude_e6 : option ProjectionFixedNumericV2_2;
  ad22_longitude_e6 : option ProjectionFixedNumericV2_2;
  ad22_name : option string;
  ad22_house_number : option string;
  ad22_road : option string;
  ad22_neighbourhood : option string;
  ad22_city : option string;
  ad22_county : option string;
  ad22_postcode : option string;
  ad22_state : option string;
  ad22_state_district : option string;
  ad22_country : option string;
  ad22_inserted_at_pg_us : Z;
  ad22_updated_at_pg_us : Z;
  ad22_osm_id : option Z;
  ad22_osm_type : option string;
}.

Record ProjectionGeofenceV2_2 := MkProjectionGeofenceV2_2 {
  ge22_id : Z;
  ge22_name : string;
  ge22_latitude_e6 : ProjectionFixedNumericV2_2;
  ge22_longitude_e6 : ProjectionFixedNumericV2_2;
  ge22_radius : Z;
  ge22_billing_type : GeofenceBillingType;
  ge22_cost_per_unit_e4 : option ProjectionFixedNumericV2_2;
  ge22_session_fee_e2 : option ProjectionFixedNumericV2_2;
  ge22_inserted_at_pg_us : Z;
  ge22_updated_at_pg_us : Z;
}.

Record ProjectionDriveV2_2 := MkProjectionDriveV2_2 {
  dr22_id : Z;
  dr22_car_id : Z;
  dr22_start_date_pg_us : Z;
  dr22_end_date_pg_us : option Z;
  dr22_start_position_id : option Z;
  dr22_end_position_id : option Z;
  dr22_start_address_id : option Z;
  dr22_end_address_id : option Z;
  dr22_start_geofence_id : option Z;
  dr22_end_geofence_id : option Z;
  dr22_outside_temp_avg_e1 : option ProjectionFixedNumericV2_2;
  dr22_inside_temp_avg_e1 : option ProjectionFixedNumericV2_2;
  dr22_speed_max : option Z;
  dr22_power_max : option Z;
  dr22_power_min : option Z;
  dr22_start_ideal_range_km_e2 : option ProjectionFixedNumericV2_2;
  dr22_end_ideal_range_km_e2 : option ProjectionFixedNumericV2_2;
  dr22_start_rated_range_km_e2 : option ProjectionFixedNumericV2_2;
  dr22_end_rated_range_km_e2 : option ProjectionFixedNumericV2_2;
  dr22_start_km : option ProjectionFloat64BitsV2_2;
  dr22_end_km : option ProjectionFloat64BitsV2_2;
  dr22_distance : option ProjectionFloat64BitsV2_2;
  dr22_duration_min : option Z;
  dr22_ascent : option Z;
  dr22_descent : option Z;
}.

Record ProjectionPositionV2_2 := MkProjectionPositionV2_2 {
  po22_id : Z;
  po22_car_id : Z;
  po22_drive_id : option Z;
  po22_date_pg_us : Z;
  po22_latitude_e6 : ProjectionFixedNumericV2_2;
  po22_longitude_e6 : ProjectionFixedNumericV2_2;
  po22_elevation : option Z;
  po22_speed : option Z;
  po22_power : option Z;
  po22_odometer : option ProjectionFloat64BitsV2_2;
  po22_ideal_battery_range_km_e2 : option ProjectionFixedNumericV2_2;
  po22_est_battery_range_km_e2 : option ProjectionFixedNumericV2_2;
  po22_rated_battery_range_km_e2 : option ProjectionFixedNumericV2_2;
  po22_battery_level : option Z;
  po22_usable_battery_level : option Z;
  po22_battery_heater : option bool;
  po22_battery_heater_on : option bool;
  po22_battery_heater_no_power : option bool;
  po22_outside_temp_e1 : option ProjectionFixedNumericV2_2;
  po22_inside_temp_e1 : option ProjectionFixedNumericV2_2;
  po22_fan_status : option Z;
  po22_driver_temp_setting_e1 : option ProjectionFixedNumericV2_2;
  po22_passenger_temp_setting_e1 : option ProjectionFixedNumericV2_2;
  po22_is_climate_on : option bool;
  po22_is_rear_defroster_on : option bool;
  po22_is_front_defroster_on : option bool;
  po22_tpms_pressure_fl_e1 : option ProjectionFixedNumericV2_2;
  po22_tpms_pressure_fr_e1 : option ProjectionFixedNumericV2_2;
  po22_tpms_pressure_rl_e1 : option ProjectionFixedNumericV2_2;
  po22_tpms_pressure_rr_e1 : option ProjectionFixedNumericV2_2;
}.

Record ProjectionChargingProcessV2_2 := MkProjectionChargingProcessV2_2 {
  pc22_id : Z;
  pc22_car_id : Z;
  pc22_position_id : Z;
  pc22_address_id : option Z;
  pc22_geofence_id : option Z;
  pc22_start_date_pg_us : Z;
  pc22_end_date_pg_us : option Z;
  pc22_charge_energy_added_e2 : option ProjectionFixedNumericV2_2;
  pc22_charge_energy_used_e2 : option ProjectionFixedNumericV2_2;
  pc22_start_ideal_range_km_e2 : option ProjectionFixedNumericV2_2;
  pc22_end_ideal_range_km_e2 : option ProjectionFixedNumericV2_2;
  pc22_start_rated_range_km_e2 : option ProjectionFixedNumericV2_2;
  pc22_end_rated_range_km_e2 : option ProjectionFixedNumericV2_2;
  pc22_start_battery_level : option Z;
  pc22_end_battery_level : option Z;
  pc22_duration_min : option Z;
  pc22_outside_temp_avg_e1 : option ProjectionFixedNumericV2_2;
  pc22_cost_e2 : option ProjectionFixedNumericV2_2;
}.

Record ProjectionChargeV2_2 := MkProjectionChargeV2_2 {
  ch22_id : Z;
  ch22_charging_process_id : Z;
  ch22_date_pg_us : Z;
  ch22_battery_heater : option bool;
  ch22_battery_heater_on : option bool;
  ch22_battery_heater_no_power : option bool;
  ch22_battery_level : option Z;
  ch22_usable_battery_level : option Z;
  ch22_charge_energy_added_e2 : ProjectionFixedNumericV2_2;
  ch22_charger_actual_current : option Z;
  ch22_charger_phases : option Z;
  ch22_charger_pilot_current : option Z;
  ch22_charger_power : Z;
  ch22_charger_voltage : option Z;
  ch22_conn_charge_cable : option string;
  ch22_fast_charger_present : option bool;
  ch22_fast_charger_brand : option string;
  ch22_fast_charger_type : option string;
  ch22_ideal_battery_range_km_e2 : ProjectionFixedNumericV2_2;
  ch22_rated_battery_range_km_e2 : option ProjectionFixedNumericV2_2;
  ch22_not_enough_power_to_heat : option bool;
  ch22_outside_temp_e1 : option ProjectionFixedNumericV2_2;
}.

Record ProjectionSnapshotV2_2 := MkProjectionSnapshotV2_2 {
  sn22_global_settings : list ProjectionGlobalSettingsV2_2;
  sn22_cars : list ProjectionCarV2_2;
  sn22_car_settings : list ProjectionCarSettingsV2_2;
  sn22_addresses : list ProjectionAddressV2_2;
  sn22_geofences : list ProjectionGeofenceV2_2;
  sn22_drives : list ProjectionDriveV2_2;
  sn22_positions : list ProjectionPositionV2_2;
  sn22_charging_processes : list ProjectionChargingProcessV2_2;
  sn22_charges : list ProjectionChargeV2_2;
  sn22_states : list ProjectionStateV2_2;
  sn22_updates : list ProjectionUpdateV2_2;
}.

Definition snapshot_row_count_v2_2 (s : ProjectionSnapshotV2_2) : result ProjectionPackError Z :=
  count_rows [length (sn22_global_settings s); length (sn22_cars s); length (sn22_car_settings s); length (sn22_addresses s);
              length (sn22_geofences s); length (sn22_drives s); length (sn22_positions s); length (sn22_charging_processes s);
              length (sn22_charges s); length (sn22_states s); length (sn22_updates s)].

Record ProjectionPackRequestV2_2 := MkProjectionPackRequestV2_2 {
  pr22_pack_id : Uuid;
  pr22_snapshot_id : Uuid;
  pr22_ordinal : Z;
  pr22_binding : ProjectionBinding;
  pr22_sequence : SequenceRange;
  pr22_snapshot : ProjectionSnapshotV2_2;
}.
