(* ===== verification/PackRules.v ===== *)
(** * Packs: the checks of the compatibility schemas

    The checks of [src/src/sync/hub_pack/validation_helpers.rs] and, from
    [validation.rs], those of a full snapshot and of a sparse delta, in the order of the
    code. A [HashSet] of identifiers is the list of those seen. *)
From S2P Require Import Prelude RustStr F64 AuthState Text LifeData SchedTypes PackData.
Local Open Scope string_scope.
Local Open Scope Z_scope.
Local Open Scope list_scope.

Definition MAX_TEXT_BYTES : Z := 16 * 1024.

(** ** The checks of one value *)

Notation check := (result ProjectionPackError unit).
Definition invalid {A} (message : string) : result ProjectionPackError A := Err (PeInvalid message).
Definition require (ok : bool) (message : string) : check := if ok then Ok () else invalid message.

Definition require_positive (value : Z) (field : string) : check :=
  require (0 <? value) (append field " must be positive").
Definition seen (ids : list Z) (value : Z) : bool := bool_decide (value ∈ ids).
Definition require_unique_positive (ids : list Z) (value : Z) (field : string) : result ProjectionPackError (list Z) :=
  require_positive value field;;
  if seen ids value then invalid (append "duplicate " field) else Ok (value :: ids).
Definition require_unique_signed_i32 (ids : list Z) (value : Z) (field : string) : result ProjectionPackError (list Z) :=
  if seen ids value then invalid (append "duplicate " field) else Ok (value :: ids).
Definition require_same_car (value expected : Z) (field : string) : check :=
  require (value =? expected) (append field " does not match selected_car_id").
Definition validate_interval (start end_ : Z) (field : string) : check :=
  require_positive start (append field ".start_date_ms");;
  require_positive end_ (append field ".end_date_ms");;
  require (start <=? end_) (append field ".end_date_ms precedes start_date_ms").
Definition validate_optional_positive (value : option Z) (field : string) : check :=
  match value with Some value => require_positive value field | None => Ok () end.
Definition validate_optional_nonnegative (value : option f64) (field : string) : check :=
  require (negb (is_some_and value (fun v => negb (f64_is_finite v) || f64_ltb v f64_zero)))
    (append field " must be finite and nonnegative").
Definition validate_optional_finite (value : option f64) (field : string) : check :=
  require (negb (is_some_and value (fun v => negb (f64_is_finite v)))) (append field " must be finite").
Definition validate_optional_soc (value : option Z) (field : string) : check :=
  require (negb (is_some_and value (fun v => negb ((0 <=? v) && (v <=? 100))))) (append field " must be between 0 and 100").
Definition validate_coordinate (latitude longitude : f64) (field : string) : check :=
  require (negb (negb (f64_is_finite latitude) || negb (f64_is_finite longitude)
                 || negb (f64_contains (f64_of_Z (-90)) (f64_of_Z 90) latitude)
                 || negb (f64_contains (f64_of_Z (-180)) (f64_of_Z 180) longitude)
                 || (f64_eqb latitude f64_zero && f64_eqb longitude f64_zero)))
    (append field " coordinates are invalid").
Definition validate_coordinate_pair (latitude longitude : option f64) (field : string) : check :=
  match latitude, longitude with
  | None, None => Ok ()
  | Some latitude, Some longitude => validate_coordinate latitude longitude field
  | _, _ => invalid (append field " coordinate pair is incomplete")
  end.
Definition validate_optional_text (value : option string) (field : string) : check :=
  require (negb (is_some_and value (fun v => (MAX_TEXT_BYTES <? str_len v) || str_contains (ascii_of_nat 0) v)))
    (append field " is unsafe or too large").
Definition validate_required_text (value : string) (field : string) : check :=
  require (negb (str_is_empty value)) (append field " must not be empty");;
  validate_optional_text (Some value) field.

(** Every value of a list of fields. *)
Fixpoint for_each {A} (f : A -> check) (values : list A) : check :=
  match values with
  | [] => Ok ()
  | v :: values => f v;; for_each f values
  end.
Definition texts (values : list (option string * string)) : check := for_each (fun v => validate_optional_text v.1 v.2) values.
Definition nonnegatives (values : list (option f64 * string)) : check :=
  for_each (fun v => validate_optional_nonnegative v.1 v.2) values.

Definition validate_car_settings (settings : ProjectionCarSettings) : check :=
  require (negb ((cs_suspend_after_idle_min settings <=? 0) || (cs_suspend_min settings <=? 0)))
    "car settings durations must be positive".

Definition binding_incomplete (b : ProjectionBinding) : bool :=
  is_nil (pb_installation_id b) || is_nil (pb_account_id b) || is_nil (pb_vehicle_id b) || (pb_generation b =? 0).
Definition validate_binding (binding : ProjectionBinding) : check :=
  require (negb (binding_incomplete binding)) "projection binding is incomplete";;
  require_positive (pb_selected_car_id binding) "selected_car_id".

(** ** States and updates *)

(** The identifiers seen and the cars with an open state. *)
Definition validate_state (selected_car_id : Z) (s : list Z * list Z) (state : ProjectionState)
    : result ProjectionPackError (list Z * list Z) :=
  ids ← require_unique_positive s.1 (pst_id state) "state.id";
  require_same_car (pst_car_id state) selected_car_id "state.car_id";;
  require (bool_decide (pst_state state ∈ ["online"; "offline"; "asleep"])) "state.state is not a TeslaMate state";;
  require_positive (pst_start_date_ms state) "state.start_date_ms";;
  match pst_end_date_ms state with
  | Some end_ => require (pst_start_date_ms state <=? end_) "state.end_date_ms precedes state.start_date_ms";; Ok (ids, s.2)
  | None => if seen s.2 (pst_car_id state) then invalid "more than one open state exists for a car"
            else Ok (ids, pst_car_id state :: s.2)
  end.
Definition validate_states (states : list ProjectionState) (selected_car_id : Z) : check :=
  each_row (validate_state selected_car_id) ([], []) states;; Ok ().

Definition validate_update (selected_car_id : Z) (ids : list Z) (update : ProjectionUpdate) : result ProjectionPackError (list Z) :=
  ids ← require_unique_positive ids (pu_id update) "update.id";
  require_same_car (pu_car_id update) selected_car_id "update.car_id";;
  require_positive (pu_start_date_ms update) "update.start_date_ms";;
  require (pu_start_date_ms update <=? pu_end_date_ms update) "update.end_date_ms precedes update.start_date_ms";;
  validate_required_text (pu_version update) "update.version";; Ok ids.
Definition validate_updates (updates : list ProjectionUpdate) (selected_car_id : Z) : check :=
  each_row (validate_update selected_car_id) [] updates;; Ok ().

(** ** The full snapshot *)

Definition validate_car_facts (car : ProjectionCar) : check :=
  validate_required_text (pcar_name car) "car.name";;
  validate_required_text (pcar_model car) "car.model";;
  validate_optional_text (pcar_vin car) "car.vin";;
  validate_optional_text (pcar_firmware_version car) "car.firmware_version";;
  validate_optional_nonnegative (pcar_efficiency_wh_per_km car) "car.efficiency_wh_per_km";;
  validate_car_settings (pcar_settings car).

Definition drive_places (drive : ProjectionDrive) : check :=
  validate_coordinate_pair (pd_start_latitude drive) (pd_start_longitude drive) "drive.start";;
  validate_coordinate_pair (pd_end_latitude drive) (pd_end_longitude drive) "drive.end";;
  validate_optional_soc (pd_start_soc drive) "drive.start_soc";;
  validate_optional_soc (pd_end_soc drive) "drive.end_soc";;
  texts [(pd_start_address drive, "drive.start_address"); (pd_end_address drive, "drive.end_address");
         (pd_start_geofence drive, "drive.start_geofence"); (pd_end_geofence drive, "drive.end_geofence")].

Definition snapshot_drive (selected : Z) (ids : list Z) (drive : ProjectionDrive) : result ProjectionPackError (list Z) :=
  ids ← require_unique_positive ids (pd_id drive) "drive.id";
  require_same_car (pd_car_id drive) selected "drive.car_id";;
  validate_interval (pd_start_date_ms drive) (pd_end_date_ms drive) "drive";;
  validate_optional_positive (pd_optimized_at_ms drive) "drive.optimized_at_ms";;
  validate_optional_nonnegative (pd_distance_km drive) "drive.distance_km";;
  validate_optional_nonnegative (pd_efficiency drive) "drive.efficiency";;
  validate_optional_nonnegative (pd_start_rated_range_km drive) "drive.start_rated_range_km";;
  validate_optional_nonnegative (pd_end_rated_range_km drive) "drive.end_rated_range_km";;
  validate_optional_finite (pd_outside_temp_avg drive) "drive.outside_temp_avg";;
  drive_places drive;; Ok ids.

Definition charge_interval_ok (charge : ProjectionCharge) : bool :=
  negb (is_some_and (pc_end_date_ms charge) (fun end_ => end_ <? pc_start_date_ms charge)).
Definition snapshot_charge (selected : Z) (ids : list Z) (charge : ProjectionCharge) : result ProjectionPackError (list Z) :=
  ids ← require_unique_positive ids (pc_id charge) "charge.id";
  require_same_car (pc_car_id charge) selected "charge.car_id";;
  require_positive (pc_start_date_ms charge) "charge.start_date_ms";;
  require (charge_interval_ok charge) "charge.end_date_ms precedes charge.start_date_ms";;
  validate_optional_nonnegative (pc_charge_energy_added charge) "charge.charge_energy_added";;
  validate_optional_finite (pc_cost charge) "charge.cost";;
  validate_optional_finite (pc_cost_per_unit charge) "charge.cost_per_unit";;
  validate_optional_finite (pc_session_fee charge) "charge.session_fee";;
  nonnegatives [(pc_charge_energy_used_kwh charge, "charge.charge_energy_used_kwh");
                (pc_charge_rate_km_per_hour charge, "charge.charge_rate_km_per_hour");
                (pc_max_charger_power_kw charge, "charge.max_charger_power_kw");
                (pc_start_rated_range_km charge, "charge.start_rated_range_km");
                (pc_end_rated_range_km charge, "charge.end_rated_range_km")];;
  validate_optional_finite (pc_outside_temp_avg charge) "charge.outside_temp_avg";;
  validate_optional_soc (pc_start_battery_level charge) "charge.start_battery_level";;
  validate_optional_soc (pc_end_battery_level charge) "charge.end_battery_level";;
  texts [(pc_address charge, "charge.address"); (pc_location_name charge, "charge.location_name");
         (pc_geofence charge, "charge.geofence"); (pc_fast_charger_type charge, "charge.fast_charger_type")];; Ok ids.

Definition snapshot_position (selected : Z) (drive_ids ids : list Z) (position : ProjectionPosition)
    : result ProjectionPackError (list Z) :=
  ids ← require_unique_positive ids (pp_id position) "position.id";
  require_same_car (pp_car_id position) selected "position.car_id";;
  require_positive (pp_date_ms position) "position.date_ms";;
  require (is_none_or (pp_drive_id position) (seen drive_ids)) "position.drive_id is not present in this pack";;
  validate_coordinate (pp_latitude position) (pp_longitude position) "position";;
  validate_optional_soc (pp_battery_level position) "position.battery_level";;
  validate_optional_soc (pp_usable_battery_level position) "position.usable_battery_level";;
  nonnegatives [(pp_odometer position, "position.odometer"); (pp_ideal_battery_range_km position, "position.ideal_battery_range_km");
                (pp_rated_battery_range_km position, "position.rated_battery_range_km")];;
  validate_optional_finite (pp_inside_temp position) "position.inside_temp";;
  validate_optional_finite (pp_outside_temp position) "position.outside_temp";; Ok ids.

Definition snapshot_sample (charge_ids ids : list Z) (sample : ProjectionChargeSample) : result ProjectionPackError (list Z) :=
  ids ← require_unique_positive ids (ps_id sample) "charge_sample.id";
  require_positive (ps_timestamp_ms sample) "charge_sample.timestamp_ms";;
  require (seen charge_ids (ps_charge_process_id sample)) "charge_sample.charge_process_id is not present in this pack";;
  validate_optional_soc (ps_battery_level sample) "charge_sample.battery_level";;
  validate_optional_soc (ps_usable_battery_level sample) "charge_sample.usable_battery_level";;
  nonnegatives [(ps_charge_energy_added_kwh sample, "charge_sample.charge_energy_added_kwh");
                (ps_charger_power_kw sample, "charge_sample.charger_power_kw");
                (ps_charger_voltage sample, "charge_sample.charger_voltage");
                (ps_charger_actual_current sample, "charge_sample.charger_actual_current");
                (ps_charger_pilot_current sample, "charge_sample.charger_pilot_current");
                (ps_ideal_range_km sample, "charge_sample.ideal_range_km");
                (ps_rated_range_km sample, "charge_sample.rated_range_km")];;
  validate_optional_finite (ps_outside_temp_c sample) "charge_sample.outside_temp_c";;
  texts [(ps_fast_charger_brand sample, "charge_sample.fast_charger_brand");
         (ps_fast_charger_type sample, "charge_sample.fast_charger_type"); (ps_charge_cable sample, "charge_sample.charge_cable")];;
  Ok ids.

Definition validate_request (request : ProjectionPackRequest) (limits : ProtocolLimits) : check :=
  let snapshot := pr_snapshot request in
  let selected := pb_selected_car_id (pr_binding request) in
  require (negb (is_nil (pr_pack_id request) || is_nil (pr_snapshot_id request))) "pack and snapshot IDs must not be nil";;
  validate_binding (pr_binding request);;
  require (is_ordered (pr_sequence request)) "full snapshot sequence is unordered";;
  rows ← snapshot_row_count snapshot;
  if lim_max_rows_per_pack limits <? rows then Err PeTooManyRows
  else
    match sp_cars snapshot with
    | [car] =>
        require_positive (pcar_id car) "car.id";;
        require (pcar_id car =? selected) "selected_car_id does not match car.id";;
        validate_car_facts car;;
        drive_ids ← each_row (snapshot_drive selected) [] (sp_drives snapshot);
        charge_ids ← each_row (snapshot_charge selected) [] (sp_charges snapshot);
        each_row (snapshot_position selected drive_ids) [] (sp_positions snapshot);;
        each_row (snapshot_sample charge_ids) [] (sp_charge_samples snapshot);; Ok ()
    | _ => invalid "one vehicle projection must contain exactly one car"
    end.

(** [v1_position_power]: an integer within [i64]. *)
Definition v1_position_power (value : option f64) : result ProjectionPackError (option Z) :=
  match value with
  | None => Ok None
  | Some value =>
      if negb (f64_is_finite value) || negb (f64_eqb (f64_fract value) f64_zero) || f64_ltb value (f64_of_Z i64_min)
         || f64_leb (f64_opp (f64_of_Z i64_min)) value
      then invalid "schema 2.0 position.power must be an integer" else Ok (Some (f64_as_i64 value))
  end.
Definition validate_v1_snapshot (request : ProjectionPackRequest) : check :=
  for_each (fun position =>
    require (is_some (pp_drive_id position)) "schema 2.0 position.drive_id must be present";;
    v1_position_power (pp_power position);; Ok ()) (sp_positions (pr_snapshot request)).

Definition row_count_with_states_and_updates (snapshot : ProjectionSnapshot) (states : list ProjectionState)
    (updates : list ProjectionUpdate) : result ProjectionPackError Z :=
  rows ← snapshot_row_count snapshot;
  if u64_max <? rows + Z.of_nat (length states) then Err PeTooManyRows
  else if u64_max <? rows + Z.of_nat (length states) + Z.of_nat (length updates) then Err PeTooManyRows
  else Ok (rows + Z.of_nat (length states) + Z.of_nat (length updates)).

Definition nonempty {A} (rows : list A) : bool := match rows with [] => false | _ => true end.
Definition when (condition : bool) (table : MirrorTable) : list MirrorTable := if condition then [table] else [].
Definition tables_for_snapshot (snapshot : ProjectionSnapshot) (includes_states : bool) : list MirrorTable :=
  [MtCar] ++ when (nonempty (sp_drives snapshot)) MtDrive ++ when (nonempty (sp_charges snapshot)) MtCharge
  ++ when (nonempty (sp_positions snapshot)) MtPosition ++ when (nonempty (sp_charge_samples snapshot)) MtChargeSample
  ++ (if includes_states then [MtState; MtUpdate] else []).

(** ** The sparse delta *)

Definition delta_car (selected : Z) (ids : list Z) (car : ProjectionCar) : result ProjectionPackError (list Z) :=
  ids ← require_unique_positive ids (pcar_id car) "car.id";
  require_same_car (pcar_id car) selected "car.id";;
  validate_car_facts car;; Ok ids.
Definition delta_settings (selected : Z) (car_ids ids : list Z) (patch : ProjectionCarSettingsPatch)
    : result ProjectionPackError (list Z) :=
  ids ← require_unique_positive ids (sps_car_id patch) "car_settings.car_id";
  require_same_car (sps_car_id patch) selected "car_settings.car_id";;
  require (negb (seen car_ids (sps_car_id patch))) "car upsert and car settings patch overlap";;
  validate_car_settings (sps_settings patch);; Ok ids.
Definition delta_drive (selected : Z) (ids : list Z) (drive : ProjectionDrive) : result ProjectionPackError (list Z) :=
  ids ← require_unique_positive ids (pd_id drive) "drive.id";
  require_same_car (pd_car_id drive) selected "drive.car_id";;
  validate_interval (pd_start_date_ms drive) (pd_end_date_ms drive) "drive";;
  validate_optional_nonnegative (pd_distance_km drive) "drive.distance_km";;
  validate_optional_finite (pd_efficiency drive) "drive.efficiency";;
  validate_optional_finite (pd_power_max drive) "drive.power_max";;
  validate_optional_finite (pd_power_min drive) "drive.power_min";;
  drive_places drive;; Ok ids.
Definition delta_charge (selected : Z) (ids : list Z) (charge : ProjectionCharge) : result ProjectionPackError (list Z) :=
  ids ← require_unique_positive ids (pc_id charge) "charge.id";
  require_same_car (pc_car_id charge) selected "charge.car_id";;
  require_positive (pc_start_date_ms charge) "charge.start_date_ms";;
  require (charge_interval_ok charge) "charge.end_date_ms precedes start_date_ms";;
  validate_optional_nonnegative (pc_charge_energy_added charge) "charge.charge_energy_added";;
  validate_optional_finite (pc_cost charge) "charge.cost";;
  validate_coordinate_pair (pc_start_latitude charge) (pc_start_longitude charge) "charge.start";;
  validate_optional_soc (pc_start_battery_level charge) "charge.start_battery_level";;
  validate_optional_soc (pc_end_battery_level charge) "charge.end_battery_level";;
  texts [(pc_address charge, "charge.address"); (pc_location_name charge, "charge.location_name");
         (pc_geofence charge, "charge.geofence")];; Ok ids.
Definition delta_position (selected : Z) (ids : list Z) (position : ProjectionPosition) : result ProjectionPackError (list Z) :=
  ids ← require_unique_positive ids (pp_id position) "position.id";
  require_same_car (pp_car_id position) selected "position.car_id";;
  require_positive (pp_date_ms position) "position.date_ms";;
  validate_optional_positive (pp_drive_id position) "position.drive_id";;
  validate_coordinate (pp_latitude position) (pp_longitude position) "position";;
  validate_optional_soc (pp_battery_level position) "position.battery_level";;
  validate_optional_soc (pp_usable_battery_level position) "position.usable_battery_level";;
  validate_optional_finite (pp_power position) "position.power";;
  validate_optional_nonnegative (pp_odometer position) "position.odometer";;
  validate_optional_nonnegative (pp_ideal_battery_range_km position) "position.ideal_battery_range_km";; Ok ids.
Definition delta_sample (ids : list Z) (sample : ProjectionChargeSample) : result ProjectionPackError (list Z) :=
  ids ← require_unique_positive ids (ps_id sample) "charge_sample.id";
  require_positive (ps_timestamp_ms sample) "charge_sample.timestamp_ms";;
  require_positive (ps_charge_process_id sample) "charge_sample.charge_process_id";;
  validate_optional_soc (ps_battery_level sample) "charge_sample.battery_level";;
  validate_optional_nonnegative (ps_charge_energy_added_kwh sample) "charge_sample.charge_energy_added_kwh";; Ok ids.

Definition delta_upsert_ids (delta : ProjectionDelta) : list (ProjectionDeltaEntity * Z) :=
  map (fun row => (DeCar, pcar_id row)) (pdl_cars delta)
  ++ map (fun row => (DeCarSetting, sps_car_id row)) (pdl_car_settings delta)
  ++ map (fun row => (DeDrive, pd_id row)) (pdl_drives delta)
  ++ map (fun row => (DePosition, pp_id row)) (pdl_positions delta)
  ++ map (fun row => (DeCharge, pc_id row)) (pdl_charges delta)
  ++ map (fun row => (DeChargeSample, ps_id row)) (pdl_charge_samples delta)
  ++ map (fun row => (DeState, pst_id row)) (pdl_states delta)
  ++ map (fun row => (DeUpdate, pu_id row)) (pdl_updates delta).

Definition delta_tombstone (selected : Z) (upsert_ids ids : list (ProjectionDeltaEntity * Z)) (tombstone : ProjectionTombstone)
    : result ProjectionPackError (list (ProjectionDeltaEntity * Z)) :=
  let key := (pt_entity tombstone, pt_id tombstone) in
  require_positive (pt_id tombstone) "tombstone.id";;
  require_same_car (pt_car_id tombstone) selected "tombstone.car_id";;
  require (is_some (source_owned_tombstone_order (pt_entity tombstone)))
    (append "unsupported source-owned delta tombstone entity " (entity_as_str (pt_entity tombstone)));;
  require (negb (bool_decide (key ∈ ids))) "duplicate typed tombstone";;
  require (negb (bool_decide (key ∈ upsert_ids))) "typed delta upsert and tombstone overlap";; Ok (key :: ids).

Definition validate_delta (request : ProjectionDeltaPackRequest) (limits : ProtocolLimits) : result ProjectionPackError Z :=
  let delta := dpr_delta request in
  let selected := pb_selected_car_id (pdl_binding delta) in
  require (negb (is_nil (dpr_pack_id request) || is_nil (dpr_snapshot_id request))) "delta pack and snapshot IDs must not be nil";;
  validate_binding (pdl_binding delta);;
  require (sq_from_exclusive (pdl_sequence delta) <? sq_to_inclusive (pdl_sequence delta)) "delta sequence must make forward progress";;
  require (negb (is_zero (pdl_parent_digest delta))) "delta parent digest must not be zero";;
  car_ids ← each_row (delta_car selected) [] (pdl_cars delta);
  each_row (delta_settings selected car_ids) [] (pdl_car_settings delta);;
  each_row (delta_drive selected) [] (pdl_drives delta);;
  each_row (delta_charge selected) [] (pdl_charges delta);;
  each_row (delta_position selected) [] (pdl_positions delta);;
  each_row delta_sample [] (pdl_charge_samples delta);;
  validate_states (pdl_states delta) selected;;
  validate_updates (pdl_updates delta) selected;;
  each_row (delta_tombstone selected (delta_upsert_ids delta)) [] (pdl_tombstones delta);;
  rows ← delta_row_count delta;
  if (rows =? 0) || (lim_max_rows_per_pack limits <? rows) then Err PeTooManyRows else Ok rows.

(** Tombstones in the order they are written. *)
Definition tombstone_key (t : ProjectionTombstone) : Z * Z := (default 255 (source_owned_tombstone_order (pt_entity t)), pt_id t).
Definition tables_for_delta (delta : ProjectionDelta) : list MirrorTable :=
  when (nonempty (pdl_cars delta) || nonempty (pdl_car_settings delta)) MtCar ++ when (nonempty (pdl_drives delta)) MtDrive
  ++ when (nonempty (pdl_charges delta)) MtCharge ++ when (nonempty (pdl_positions delta)) MtPosition
  ++ when (nonempty (pdl_charge_samples delta)) MtChargeSample ++ when (nonempty (pdl_states delta)) MtState
  ++ when (nonempty (pdl_updates delta)) MtUpdate ++ when (nonempty (pdl_tombstones delta)) MtTombstone.

(** ** Packs: the checks of the physical schema 2.2

    [validate_request_v2_2] of [src/src/sync/hub_pack/validation.rs] and what it calls.
    A [HashSet] is the list of what was inserted; where the code names one element of a
    set in an error, which one is not specified and the model names the last inserted. *)

(** ** The checks of one value *)

Definition POSTGRES_TIMESTAMP_FINITE_MIN_US : Z := -211813488000000000.
Definition POSTGRES_TIMESTAMP_FINITE_END_EXCLUSIVE_US : Z := 9223371331200000000.

Definition postgres_finite (value : Z) : bool :=
  (POSTGRES_TIMESTAMP_FINITE_MIN_US <=? value) && (value <? POSTGRES_TIMESTAMP_FINITE_END_EXCLUSIVE_US).
Definition validate_postgres_timestamp_us (value : Z) (field : string) : check :=
  require ((value =? i64_min) || (value =? i64_max) || postgres_finite value)
    (append field " is outside the PostgreSQL timestamp source domain").
Definition validate_timestamp_0_pg_us (value : Z) (field : string) : check :=
  require (negb (negb ((value =? i64_min) || (value =? i64_max)) && negb (postgres_finite value && (value mod 1000000 =? 0))))
    (append field " is outside the PostgreSQL timestamp(0) source domain").
Definition validate_optional_timestamp (value : option Z) (field : string) : check :=
  match value with Some value => validate_postgres_timestamp_us value field | None => Ok () end.

Definition validate_bounded_i64 (value minimum maximum : Z) (field : string) : check :=
  require ((minimum <=? value) && (value <=? maximum)) (append field " is outside its pinned source range").
Definition validate_fixed_numeric_v2_2 (value : ProjectionFixedNumericV2_2) (minimum maximum : Z) (field : string) : check :=
  match value with FnFinite value => validate_bounded_i64 value minimum maximum field | FnNaN => Ok () end.
Definition validate_optional_fixed_numeric_v2_2 (value : option ProjectionFixedNumericV2_2) (minimum maximum : Z) (field : string) : check :=
  match value with Some value => validate_fixed_numeric_v2_2 value minimum maximum field | None => Ok () end.
Definition validate_optional_text_with_source_width (value : option string) (maximum_characters : Z) (field : string) : check :=
  validate_optional_text value field;;
  require (negb (is_some_and value (fun v => maximum_characters <? chars_count v))) (append field " exceeds its pinned source width").
Definition validate_required_text_with_source_width (value : string) (maximum_characters : Z) (field : string) : check :=
  validate_optional_text (Some value) field;;
  require (negb (maximum_characters <? chars_count value)) (append field " exceeds its pinned source width").

Definition validate_binding_v2_2 (binding : ProjectionBinding) : check :=
  require (negb (binding_incomplete binding)) "projection binding is incomplete";;
  require ((-32768 <=? pb_selected_car_id binding) && (pb_selected_car_id binding <=? 32767))
    "schema 2.2 selected_car_id is outside the TeslaMate smallint source domain".

(** Fields of one width or of one numeric domain, in order. *)
Definition wide_texts (values : list (option string * string)) : check :=
  for_each (fun v => validate_optional_text_with_source_width v.1 255 v.2) values.
Definition numerics (values : list (option ProjectionFixedNumericV2_2 * Z * string)) : check :=
  for_each (fun v => validate_optional_fixed_numeric_v2_2 v.1.1 (- v.1.2) v.1.2 v.2) values.

(** ** The rows *)

Definition global_settings_row (g : ProjectionGlobalSettingsV2_2) : check :=
  wide_texts [(gs22_base_url g, "global_settings.base_url"); (gs22_grafana_url g, "global_settings.grafana_url")];;
  validate_optional_text (Some (gs22_language g)) "global_settings.language";;
  validate_optional_text (Some (gs22_theme_mode g)) "global_settings.theme_mode";;
  validate_timestamp_0_pg_us (gs22_inserted_at_pg_us g) "global_settings.inserted_at_pg_us";;
  validate_timestamp_0_pg_us (gs22_updated_at_pg_us g) "global_settings.updated_at_pg_us".

Definition car_row (selected : Z) (car : ProjectionCarV2_2) (settings : ProjectionCarSettingsV2_2) : check :=
  require (car22_id car =? selected) "selected_car_id does not match car.id";;
  wide_texts [(car22_model car, "car.model"); (car22_marketing_name car, "car.marketing_name")];;
  validate_timestamp_0_pg_us (car22_inserted_at_pg_us car) "car.inserted_at_pg_us";;
  validate_timestamp_0_pg_us (car22_updated_at_pg_us car) "car.updated_at_pg_us";;
  texts [(car22_vin car, "car.vin"); (car22_name car, "car.name"); (car22_trim_badging car, "car.trim_badging");
         (car22_exterior_color car, "car.exterior_color"); (car22_wheel_type car, "car.wheel_type");
         (car22_spoiler_type car, "car.spoiler_type")];;
  require (car22_settings_id car =? cs22_id settings) "car.settings_id does not match the selected car_settings.id".

(** The identifiers of a table, and the addresses and geofences its rows reference. *)
Definition References : Type := list Z * list Z.
Definition some_ids (ids : list (option Z)) : list Z := omap id ids.

Definition drive_row (selected : Z) (s : list Z * References) (drive : ProjectionDriveV2_2) : result ProjectionPackError (list Z * References) :=
  ids ← require_unique_signed_i32 s.1 (dr22_id drive) "drive.id";
  require (dr22_car_id drive =? selected) "drive.car_id does not match selected_car_id";;
  validate_postgres_timestamp_us (dr22_start_date_pg_us drive) "drive.start_date_pg_us";;
  validate_optional_timestamp (dr22_end_date_pg_us drive) "drive.end_date_pg_us";;
  numerics [(dr22_outside_temp_avg_e1 drive, 9999, "drive.outside_temp_avg_e1");
            (dr22_inside_temp_avg_e1 drive, 9999, "drive.inside_temp_avg_e1");
            (dr22_start_ideal_range_km_e2 drive, 999999, "drive.start_ideal_range_km_e2");
            (dr22_end_ideal_range_km_e2 drive, 999999, "drive.end_ideal_range_km_e2");
            (dr22_start_rated_range_km_e2 drive, 999999, "drive.start_rated_range_km_e2");
            (dr22_end_rated_range_km_e2 drive, 999999, "drive.end_rated_range_km_e2")];;
  Ok (ids, (some_ids [dr22_start_address_id drive; dr22_end_address_id drive] ++ s.2.1,
            some_ids [dr22_start_geofence_id drive; dr22_end_geofence_id drive] ++ s.2.2)).

Definition address_row (ids : list Z) (a : ProjectionAddressV2_2) : result ProjectionPackError (list Z) :=
  ids ← require_unique_signed_i32 ids (ad22_id a) "address.id";
  validate_optional_text_with_source_width (ad22_display_name a) 512 "address.display_name";;
  validate_optional_fixed_numeric_v2_2 (ad22_latitude_e6 a) (-99999999) 99999999 "address.latitude_e6";;
  validate_optional_fixed_numeric_v2_2 (ad22_longitude_e6 a) (-999999999) 999999999 "address.longitude_e6";;
  wide_texts [(ad22_name a, "address.name"); (ad22_house_number a, "address.house_number"); (ad22_road a, "address.road");
              (ad22_neighbourhood a, "address.neighbourhood"); (ad22_city a, "address.city"); (ad22_county a, "address.county");
              (ad22_postcode a, "address.postcode"); (ad22_state a, "address.state");
              (ad22_state_district a, "address.state_district"); (ad22_country a, "address.country")];;
  validate_optional_text (ad22_osm_type a) "address.osm_type";;
  validate_timestamp_0_pg_us (ad22_inserted_at_pg_us a) "address.inserted_at_pg_us";;
  validate_timestamp_0_pg_us (ad22_updated_at_pg_us a) "address.updated_at_pg_us";; Ok ids.

Definition geofence_row (ids : list Z) (g : ProjectionGeofenceV2_2) : result ProjectionPackError (list Z) :=
  ids ← require_unique_signed_i32 ids (ge22_id g) "geofence.id";
  validate_required_text_with_source_width (ge22_name g) 255 "geofence.name";;
  validate_fixed_numeric_v2_2 (ge22_latitude_e6 g) (-99999999) 99999999 "geofence.latitude_e6";;
  validate_fixed_numeric_v2_2 (ge22_longitude_e6 g) (-999999999) 999999999 "geofence.longitude_e6";;
  validate_optional_fixed_numeric_v2_2 (ge22_cost_per_unit_e4 g) (-999999999) 999999999 "geofence.cost_per_unit_e4";;
  validate_optional_fixed_numeric_v2_2 (ge22_session_fee_e2 g) (-99999999999999) 99999999999999 "geofence.session_fee_e2";;
  validate_timestamp_0_pg_us (ge22_inserted_at_pg_us g) "geofence.inserted_at_pg_us";;
  validate_timestamp_0_pg_us (ge22_updated_at_pg_us g) "geofence.updated_at_pg_us";; Ok ids.

Definition process_row (selected : Z) (s : list Z * References) (p : ProjectionChargingProcessV2_2)
    : result ProjectionPackError (list Z * References) :=
  ids ← require_unique_signed_i32 s.1 (pc22_id p) "charging_process.id";
  require (pc22_car_id p =? selected) "charging_process.car_id does not match selected_car_id";;
  validate_postgres_timestamp_us (pc22_start_date_pg_us p) "charging_process.start_date_pg_us";;
  validate_optional_timestamp (pc22_end_date_pg_us p) "charging_process.end_date_pg_us";;
  numerics [(pc22_charge_energy_added_e2 p, 99999999, "charging_process.charge_energy_added_e2");
            (pc22_charge_energy_used_e2 p, 99999999, "charging_process.charge_energy_used_e2");
            (pc22_start_ideal_range_km_e2 p, 999999, "charging_process.start_ideal_range_km_e2");
            (pc22_end_ideal_range_km_e2 p, 999999, "charging_process.end_ideal_range_km_e2");
            (pc22_start_rated_range_km_e2 p, 999999, "charging_process.start_rated_range_km_e2");
            (pc22_end_rated_range_km_e2 p, 999999, "charging_process.end_rated_range_km_e2");
            (pc22_outside_temp_avg_e1 p, 9999, "charging_process.outside_temp_avg_e1");
            (pc22_cost_e2 p, 99999999999999, "charging_process.cost_e2")];;
  Ok (ids, (some_ids [pc22_address_id p] ++ s.2.1, some_ids [pc22_geofence_id p] ++ s.2.2)).

Definition position_row (selected : Z) (ids : list Z) (p : ProjectionPositionV2_2) : result ProjectionPackError (list Z) :=
  ids ← require_unique_signed_i32 ids (po22_id p) "position.id";
  require (po22_car_id p =? selected) "position.car_id does not match selected_car_id";;
  validate_postgres_timestamp_us (po22_date_pg_us p) "position.date_pg_us";;
  validate_fixed_numeric_v2_2 (po22_latitude_e6 p) (-99999999) 99999999 "position.latitude_e6";;
  validate_fixed_numeric_v2_2 (po22_longitude_e6 p) (-999999999) 999999999 "position.longitude_e6";;
  numerics [(po22_ideal_battery_range_km_e2 p, 999999, "position.ideal_battery_range_km_e2");
            (po22_est_battery_range_km_e2 p, 999999, "position.est_battery_range_km_e2");
            (po22_rated_battery_range_km_e2 p, 999999, "position.rated_battery_range_km_e2");
            (po22_outside_temp_e1 p, 9999, "position.outside_temp_e1"); (po22_inside_temp_e1 p, 9999, "position.inside_temp_e1");
            (po22_driver_temp_setting_e1 p, 9999, "position.driver_temp_setting_e1");
            (po22_passenger_temp_setting_e1 p, 9999, "position.passenger_temp_setting_e1");
            (po22_tpms_pressure_fl_e1 p, 9999, "position.tpms_pressure_fl_e1");
            (po22_tpms_pressure_fr_e1 p, 9999, "position.tpms_pressure_fr_e1");
            (po22_tpms_pressure_rl_e1 p, 9999, "position.tpms_pressure_rl_e1");
            (po22_tpms_pressure_rr_e1 p, 9999, "position.tpms_pressure_rr_e1")];; Ok ids.

Definition charge_row (process_ids ids : list Z) (c : ProjectionChargeV2_2) : result ProjectionPackError (list Z) :=
  ids ← require_unique_signed_i32 ids (ch22_id c) "charge.id";
  require (seen process_ids (ch22_charging_process_id c)) "charge.charging_process_id is not present in this local physical slice";;
  validate_postgres_timestamp_us (ch22_date_pg_us c) "charge.date_pg_us";;
  validate_fixed_numeric_v2_2 (ch22_charge_energy_added_e2 c) (-99999999) 99999999 "charge.charge_energy_added_e2";;
  validate_fixed_numeric_v2_2 (ch22_ideal_battery_range_km_e2 c) (-999999) 999999 "charge.ideal_battery_range_km_e2";;
  validate_optional_fixed_numeric_v2_2 (ch22_rated_battery_range_km_e2 c) (-999999) 999999 "charge.rated_battery_range_km_e2";;
  validate_optional_fixed_numeric_v2_2 (ch22_outside_temp_e1 c) (-9999) 9999 "charge.outside_temp_e1";;
  wide_texts [(ch22_conn_charge_cable c, "charge.conn_charge_cable"); (ch22_fast_charger_brand c, "charge.fast_charger_brand");
              (ch22_fast_charger_type c, "charge.fast_charger_type")];; Ok ids.

Definition state_row (selected : Z) (ids : list Z) (s : ProjectionStateV2_2) : result ProjectionPackError (list Z) :=
  require (negb (seen ids (st22_id s))) "state.id is duplicated";;
  require (st22_car_id s =? selected) "state.car_id does not match selected car";;
  validate_postgres_timestamp_us (st22_start_date_pg_us s) "state.start_date_pg_us";;
  validate_optional_timestamp (st22_end_date_pg_us s) "state.end_date_pg_us";; Ok (st22_id s :: ids).
Definition validate_states_v2_2 (states : list ProjectionStateV2_2) (selected_car_id : Z) : check :=
  each_row (state_row selected_car_id) [] states;; Ok ().
Definition update_row (selected : Z) (ids : list Z) (u : ProjectionUpdateV2_2) : result ProjectionPackError (list Z) :=
  require (negb (seen ids (up22_id u))) "update.id is duplicated";;
  require (up22_car_id u =? selected) "update.car_id does not match selected car";;
  validate_postgres_timestamp_us (up22_start_date_pg_us u) "update.start_date_pg_us";;
  validate_optional_timestamp (up22_end_date_pg_us u) "update.end_date_pg_us";;
  validate_optional_text_with_source_width (up22_version u) 255 "update.version";; Ok (up22_id u :: ids).
Definition validate_updates_v2_2 (updates : list ProjectionUpdateV2_2) (selected_car_id : Z) : check :=
  each_row (update_row selected_car_id) [] updates;; Ok ().

(** Every loaded row of a table must be referenced. *)
Definition all_referenced (entity : string) (ids referenced : list Z) : check :=
  match find_first (fun id => negb (seen referenced id)) ids with
  | Some unreferenced => invalid (append entity (append " " (append (print_i64 unreferenced) " is not referenced by the selected car")))
  | None => Ok ()
  end.

Definition one_row {A} (rows : list A) (message : string) : result ProjectionPackError A :=
  match rows with [row] => Ok row | _ => invalid message end.

Definition validate_request_v2_2 (request : ProjectionPackRequestV2_2) (limits : ProtocolLimits) : result ProjectionPackError Z :=
  let snapshot := pr22_snapshot request in
  let selected := pb_selected_car_id (pr22_binding request) in
  require (negb (is_nil (pr22_pack_id request) || is_nil (pr22_snapshot_id request))) "pack and snapshot IDs must not be nil";;
  validate_binding_v2_2 (pr22_binding request);;
  require (is_ordered (pr22_sequence request)) "full snapshot sequence is unordered";;
  row_count ← snapshot_row_count_v2_2 snapshot;
  if lim_max_rows_per_pack limits <? row_count then Err PeTooManyRows
  else
    global ← one_row (sn22_global_settings snapshot) "schema 2.2 physical snapshot must contain exactly one global_settings row";
    global_settings_row global;;
    car ← one_row (sn22_cars snapshot) "one vehicle projection must contain exactly one car";
    settings ← one_row (sn22_car_settings snapshot) "one vehicle projection must contain exactly one car_settings row";
    car_row selected car settings;;
    drives ← each_row (drive_row selected) ([], ([], [])) (sn22_drives snapshot);
    address_ids ← each_row address_row [] (sn22_addresses snapshot);
    geofence_ids ← each_row geofence_row [] (sn22_geofences snapshot);
    processes ← each_row (process_row selected) ([], drives.2) (sn22_charging_processes snapshot);
    all_referenced "address" address_ids processes.2.1;;
    all_referenced "geofence" geofence_ids processes.2.2;;
    each_row (position_row selected) [] (sn22_positions snapshot);;
    each_row (charge_row processes.1) [] (sn22_charges snapshot);;
    validate_states_v2_2 (sn22_states snapshot) selected;;
    validate_updates_v2_2 (sn22_updates snapshot) selected;;
    Ok row_count.

Definition tables_for_snapshot_v2_2 (snapshot : ProjectionSnapshotV2_2) : list MirrorTable :=
  [MtCar] ++ when (nonempty (sn22_drives snapshot)) MtDrive ++ when (nonempty (sn22_charging_processes snapshot)) MtCharge
  ++ when (nonempty (sn22_positions snapshot)) MtPosition ++ when (nonempty (sn22_charges snapshot)) MtChargeSample
  ++ when (nonempty (sn22_states snapshot)) MtState ++ when (nonempty (sn22_updates snapshot)) MtUpdate.
