(* ===== verification/SyncProtocol.v ===== *)
(** * The sync protocol: versions, packs, manifests and lineages

    [src/src/api/protocol.rs]: what a receiver accepts before it attaches a pack. A
    digest is its thirty-two bytes and is written through the [hex] interface; a set of
    seen identifiers is the list of them. Indices are cut to the width the code casts
    them to and every sum is checked where the code checks it. *)
From S2P Require Import Prelude RustStr External Bytes CursorKey AuthState PackData PackRules.
Local Open Scope string_scope.
Local Open Scope Z_scope.
Local Open Scope list_scope.

(** ** Versions and schemas *)

Record ProtocolVersion := MkProtocolVersion { prv_major : Z; prv_minor : Z }.
Record SchemaVersion := MkSchemaVersion { scv_major : Z; scv_minor : Z }.
#[export] Instance ProtocolVersion_eq_dec : EqDecision ProtocolVersion.
Proof. solve_decision. Defined.
#[export] Instance SchemaVersion_eq_dec : EqDecision SchemaVersion.
Proof. solve_decision. Defined.

Definition PROTOCOL_NAME : string := "teslatlas-sync".
Definition PROTOCOL_V1 : ProtocolVersion := MkProtocolVersion 1 0.
Definition LINEAGE_PROTOCOL_V2 : ProtocolVersion := MkProtocolVersion 2 0.
Definition TRANSPORT_SCHEMA_V1 : SchemaVersion := MkSchemaVersion 1 0.
Definition HUB_PROJECTION_SCHEMA_V1 : SchemaVersion := MkSchemaVersion 2 0.
Definition HUB_PROJECTION_SCHEMA_V2 : SchemaVersion := MkSchemaVersion 2 1.
Definition HUB_PROJECTION_SCHEMA_V3 : SchemaVersion := MkSchemaVersion 2 2.
(** [0x5453_5031] and [0x5448_5031]. *)
Definition SQLITE_TRANSPORT_APPLICATION_ID : Z := 1414746161.
Definition SQLITE_HUB_PROJECTION_APPLICATION_ID : Z := 1414025265.
Definition SQLITE_HEADER_BYTES : Z := 100.
Definition SQLITE_HEADER_MAGIC : string := append "SQLite format 3" (String "000"%char "").

Definition protocol_is_supported (v : ProtocolVersion) : bool :=
  (prv_major v =? prv_major PROTOCOL_V1) && (prv_minor v =? prv_minor PROTOCOL_V1).

Inductive SchemaSupport := GenericTransport | TypedHubProjection | FullSnapshotOnlyHubProjection.
#[export] Instance SchemaSupport_eq_dec : EqDecision SchemaSupport.
Proof. solve_decision. Defined.

Definition schema_support (v : SchemaVersion) : option SchemaSupport :=
  if (scv_major v =? scv_major TRANSPORT_SCHEMA_V1) && (scv_minor v =? scv_minor TRANSPORT_SCHEMA_V1) then Some GenericTransport
  else if (scv_major v =? scv_major HUB_PROJECTION_SCHEMA_V1)
          && ((scv_minor v =? scv_minor HUB_PROJECTION_SCHEMA_V1) || (scv_minor v =? scv_minor HUB_PROJECTION_SCHEMA_V2))
  then Some TypedHubProjection
  else if (scv_major v =? scv_major HUB_PROJECTION_SCHEMA_V3) && (scv_minor v =? scv_minor HUB_PROJECTION_SCHEMA_V3)
  then Some FullSnapshotOnlyHubProjection
  else None.
Definition schema_is_supported (v : SchemaVersion) : bool := is_some (schema_support v).
Definition supports_incremental (v : SchemaVersion) : bool :=
  match schema_support v with Some GenericTransport | Some TypedHubProjection => true | _ => false end.
Definition supports_lineage_v2 (v : SchemaVersion) : bool := supports_incremental v.
Definition schema_is_hub_projection (v : SchemaVersion) : bool :=
  match schema_support v with Some TypedHubProjection | Some FullSnapshotOnlyHubProjection => true | _ => false end.
Definition sqlite_user_version (v : SchemaVersion) : Z := Z.lor (Z.shiftl (scv_major v) 16) (scv_minor v).
Definition sqlite_application_id (v : SchemaVersion) : option Z :=
  match schema_support v with
  | Some GenericTransport => Some SQLITE_TRANSPORT_APPLICATION_ID
  | Some TypedHubProjection | Some FullSnapshotOnlyHubProjection => Some SQLITE_HUB_PROJECTION_APPLICATION_ID
  | None => None
  end.

(** ** Errors *)

Inductive ProtocolError :=
| UnsupportedProtocol (v : ProtocolVersion) | UnsupportedSchema (v : SchemaVersion) | NilUuid (field : string)
| InvalidGeneration | InvalidManifestSequence | InvalidChunkCount (declared actual : Z) | MissingDeltaChunks
| NonContiguousChunkOrder | ChunkSnapshotMismatch | ChunkSchemaMismatch | DuplicatePackId | SnapshotSequenceMismatch
| SnapshotDependencyOrder | DeltaSequenceGap | ManifestTotalsMismatch | InvalidDigest | NonCanonicalDigest | ZeroDigest
| NonCanonicalPackPath | UnsafePackPath | CompressedSizeOutOfBounds (bytes : Z) | UncompressedSizeOutOfBounds (bytes : Z)
| ExpansionRatioExceeded | RowCountOutOfBounds (rows : Z) | InvalidSequenceRange | InvalidTableCount | DuplicateTable
| FormatSchemaMismatch | PackTablesDoNotMatchFormat | PackDecompression | PackTooLarge
| CompressedSizeMismatch (expected actual : Z) | PackHashMismatch | UncompressedSizeMismatch (expected actual : Z)
| InvalidSqliteHeader | InvalidSqliteApplicationId | InvalidSqliteUserVersion | PackRead | TotalsOverflow | MalformedCursor
| InvalidCursorSignature | CursorDoesNotMatchManifest | UnsupportedLineageProtocol (v : ProtocolVersion)
| UnsupportedLineageCapability | FullSnapshotOnlySchemaInLineageV2 (v : SchemaVersion)
| FullSnapshotOnlySchemaInIncrementalManifest (v : SchemaVersion) | LineageBaseRequired | LineageAggregateLimitExceeded
| LineageDigestRequired | LineageBasePackMismatch | LineageSequenceGap | LineageChainMismatch | LineageDeltaPackMismatch
| LineageHeadMismatch.

Notation checked := (result ProtocolError unit).
Definition ensure (ok : bool) (e : ProtocolError) : checked := if ok then Ok () else Err e.
Definition require_non_nil_uuid (field : string) (value : Uuid) : checked := ensure (negb (is_nil value)) (NilUuid field).

Definition checked_total (left right : Z) : result ProtocolError Z :=
  if u64_max <? left + right then Err TotalsOverflow else Ok (left + right).
Definition lineage_aggregate_limit (per_pack max_packs : Z) : result ProtocolError Z :=
  if u64_max <? per_pack * max_packs then Err LineageAggregateLimitExceeded else Ok (per_pack * max_packs).
Definition checked_lineage_total (current added limit : Z) : result ProtocolError Z :=
  if u64_max <? current + added then Err LineageAggregateLimitExceeded
  else if limit <? current + added then Err LineageAggregateLimitExceeded else Ok (current + added).

(** ** Digests *)

(** [Display]: lower-case hexadecimal. *)
Definition digest_text `{Hex} (digest : Sha256Digest) : string := hex_encode digest.
Definition is_ascii_hexdigit (c : ascii) : bool := is_ascii_digit c || byte_in 97 102 c || byte_in 65 70 c.
Definition parse_digest `{Hex} (value : string) : result ProtocolError Sha256Digest :=
  if negb (str_len value =? 64) || negb (str_all is_ascii_hexdigit value) then Err InvalidDigest
  else if str_any is_ascii_uppercase value then Err NonCanonicalDigest
  else ok_or (decode_to_slice 32 value) InvalidDigest.
Definition digest_matches `{Digest} (digest : Sha256Digest) (bytes : string) : bool := constant_time_eq digest (sha256 bytes).

(** ** Packs *)

Inductive TransferMode := FullSnapshot | Incremental.
Inductive PackFormat := SqliteTransport | HubProjectionSqlite.
Inductive PackCompression := PackZstd.
#[export] Instance TransferMode_eq_dec : EqDecision TransferMode.
Proof. solve_decision. Defined.
#[export] Instance PackFormat_eq_dec : EqDecision PackFormat.
Proof. solve_decision. Defined.
#[export] Instance PackCompression_eq_dec : EqDecision PackCompression.
Proof. solve_decision. Defined.

Definition snapshot_stage (t : MirrorTable) : Z :=
  match t with
  | MtVehicle | MtCar => 0
  | MtDrive | MtChargingProcess | MtCharge => 1
  | MtPosition | MtChargeSample | MtState | MtUpdate => 2
  | MtTombstone => 3
  end.
Definition table_is_generic_transport (t : MirrorTable) : bool := match t with MtCar | MtChargeSample => false | _ => true end.
Definition table_is_hub_projection (t : MirrorTable) : bool :=
  match t with
  | MtCar | MtDrive | MtPosition | MtCharge | MtChargeSample | MtState | MtUpdate | MtTombstone => true
  | MtVehicle | MtChargingProcess => false
  end.

Record TransportPack := MkTransportPack {
  tp_pack_id : Uuid;
  tp_snapshot_id : Uuid;
  tp_ordinal : Z;
  tp_schema : SchemaVersion;
  tp_format : PackFormat;
  tp_compression : PackCompression;
  tp_relative_path : string;
  tp_sha256 : Sha256Digest;
  tp_compressed_bytes : Z;
  tp_uncompressed_bytes : Z;
  tp_row_count : Z;
  tp_sequence : SequenceRange;
  tp_tables : list MirrorTable;
}.
#[export] Instance TransportPack_eq_dec : EqDecision TransportPack.
Proof. solve_decision. Defined.
#[export] Instance eta_TransportPack : Eta TransportPack := fun r =>
  MkTransportPack (tp_pack_id r) (tp_snapshot_id r) (tp_ordinal r) (tp_schema r) (tp_format r) (tp_compression r)
    (tp_relative_path r) (tp_sha256 r) (tp_compressed_bytes r) (tp_uncompressed_bytes r) (tp_row_count r) (tp_sequence r)
    (tp_tables r).

Definition canonical_relative_path `{Hex} (digest : Sha256Digest) : string :=
  append "/v1/packs/sha256/" (append (digest_text digest) ".sqlite.zst").
Definition quote : string := String (ascii_of_nat 34) "".
Definition pack_etag `{Hex} (p : TransportPack) : string := append quote (append (digest_text (tp_sha256 p)) quote).

Fixpoint all_unique {A} `{EqDecision A} (seen rows : list A) : bool :=
  match rows with
  | [] => true
  | row :: rows => negb (bool_decide (row ∈ seen)) && all_unique (row :: seen) rows
  end.
Definition format_matches_schema (p : TransportPack) : bool :=
  match tp_format p with
  | SqliteTransport => bool_decide (tp_schema p = TRANSPORT_SCHEMA_V1)
  | HubProjectionSqlite => schema_is_hub_projection (tp_schema p)
  end.
Definition path_is_unsafe (limits : ProtocolLimits) (path : string) : bool :=
  (lim_max_relative_path_bytes limits <? str_len path) || negb (str_all (fun c => byte_of c <? 128) path)
  || str_contains "?" path || str_contains "#" path || str_contains "\" path.
Definition tables_match_format (p : TransportPack) : bool :=
  match tp_format p with
  | SqliteTransport => forallb table_is_generic_transport (tp_tables p)
  | HubProjectionSqlite => forallb table_is_hub_projection (tp_tables p)
  end.

(** [TransportPack::validate]. *)
Definition pack_validate `{Hex} (limits : ProtocolLimits) (p : TransportPack) : checked :=
  require_non_nil_uuid "pack_id" (tp_pack_id p);;
  require_non_nil_uuid "snapshot_id" (tp_snapshot_id p);;
  ensure (schema_is_supported (tp_schema p)) (UnsupportedSchema (tp_schema p));;
  ensure (format_matches_schema p) FormatSchemaMismatch;;
  ensure (negb (is_zero (tp_sha256 p))) ZeroDigest;;
  ensure (bool_decide (tp_relative_path p = canonical_relative_path (tp_sha256 p))) NonCanonicalPackPath;;
  ensure (negb (path_is_unsafe limits (tp_relative_path p))) UnsafePackPath;;
  ensure (negb ((tp_compressed_bytes p =? 0) || (lim_max_compressed_pack_bytes limits <? tp_compressed_bytes p)))
    (CompressedSizeOutOfBounds (tp_compressed_bytes p));;
  ensure (negb ((tp_uncompressed_bytes p <? SQLITE_HEADER_BYTES) || (lim_max_uncompressed_pack_bytes limits <? tp_uncompressed_bytes p)))
    (UncompressedSizeOutOfBounds (tp_uncompressed_bytes p));;
  ensure (tp_uncompressed_bytes p <=? u64_smul (tp_compressed_bytes p) (lim_max_expansion_ratio limits)) ExpansionRatioExceeded;;
  ensure (tp_row_count p <=? lim_max_rows_per_pack limits) (RowCountOutOfBounds (tp_row_count p));;
  ensure (is_ordered (tp_sequence p)) InvalidSequenceRange;;
  ensure (negb (bool_decide (tp_tables p = []) || (lim_max_tables_per_pack limits <? Z.of_nat (length (tp_tables p))))) InvalidTableCount;;
  ensure (all_unique [] (tp_tables p)) DuplicateTable;;
  ensure (tables_match_format p) PackTablesDoNotMatchFormat.

(** ** The lineage of an immutable base and ordered deltas *)

(** A signed token: [tsp1.<payload hex>.<tag hex>]. *)
Definition OpaqueCursor : Type := string.
Definition CURSOR_PREFIX : string := "tsp1".
Definition CURSOR_PAYLOAD_BYTES : nat := 77.
Definition CURSOR_TAG_BYTES : nat := 32.
Definition cursor_decode `{Hex} (cursor : OpaqueCursor) : result ProtocolError (string * string) :=
  ok_or (split_cursor CURSOR_PAYLOAD_BYTES CURSOR_TAG_BYTES cursor CURSOR_PREFIX) MalformedCursor.
Definition validate_shape `{Hex} (cursor : OpaqueCursor) : checked := cursor_decode cursor;; Ok ().

Inductive LineageCapability := ImmutableBaseOrderedDeltas.

Record LineageBase := MkLineageBase {
  lb_snapshot_id : Uuid;
  lb_sequence : Z;
  lb_digest : Sha256Digest;
  lb_packs : list TransportPack;
}.
Record LineageDelta := MkLineageDelta {
  ld_from_sequence : Z;
  ld_to_sequence : Z;
  ld_parent_chain_digest : Sha256Digest;
  ld_chain_digest : Sha256Digest;
  ld_pack_digest : Sha256Digest;
  ld_pack : TransportPack;
}.
#[export] Instance LineageDelta_eq_dec : EqDecision LineageDelta.
Proof. solve_decision. Defined.

Definition canonical_delta_chain_digest `{Hex} `{Digest} (parent_chain_digest pack_digest : Sha256Digest) : Sha256Digest :=
  sha256 (append "delta-v2/" (append (digest_text parent_chain_digest) (append ":" (digest_text pack_digest)))).

Record LineageManifestV2 := MkLineageManifestV2 {
  lm_protocol : ProtocolVersion;
  lm_capability : LineageCapability;
  lm_schema : SchemaVersion;
  lm_installation_id : Uuid;
  lm_account_id : Uuid;
  lm_vehicle_id : Uuid;
  lm_generation : Z;
  lm_base : LineageBase;
  lm_deltas : list LineageDelta;
  lm_head_sequence : Z;
  lm_head_digest : Sha256Digest;
  lm_terminal_cursor : OpaqueCursor;
}.
#[export] Instance eta_LineageManifestV2 : Eta LineageManifestV2 := fun r =>
  MkLineageManifestV2 (lm_protocol r) (lm_capability r) (lm_schema r) (lm_installation_id r) (lm_account_id r) (lm_vehicle_id r)
    (lm_generation r) (lm_base r) (lm_deltas r) (lm_head_sequence r) (lm_head_digest r) (lm_terminal_cursor r).

(** The pack identifiers seen and the three totals. *)
Record Totals := MkTotals { tt_seen : list Uuid; tt_compressed : Z; tt_uncompressed : Z; tt_rows : Z }.
(** The ceilings of the totals: bytes, expanded bytes and rows. *)
Record Ceilings := MkCeilings { ce_compressed : Z; ce_uncompressed : Z; ce_rows : Z }.
Definition lineage_ceilings (limits : ProtocolLimits) : result ProtocolError Ceilings :=
  c ← lineage_aggregate_limit (lim_max_compressed_pack_bytes limits) (lim_max_chunks limits);
  u ← lineage_aggregate_limit (lim_max_uncompressed_pack_bytes limits) (lim_max_chunks limits);
  r ← lineage_aggregate_limit (lim_max_rows_per_pack limits) (lim_max_chunks limits);
  Ok (MkCeilings c u r).
Definition add_pack (ceilings : Ceilings) (t : Totals) (p : TransportPack) : result ProtocolError Totals :=
  c ← checked_lineage_total (tt_compressed t) (tp_compressed_bytes p) (ce_compressed ceilings);
  u ← checked_lineage_total (tt_uncompressed t) (tp_uncompressed_bytes p) (ce_uncompressed ceilings);
  r ← checked_lineage_total (tt_rows t) (tp_row_count p) (ce_rows ceilings);
  Ok (MkTotals (tt_seen t) c u r).
Definition insert_pack_id (t : Totals) (p : TransportPack) : result ProtocolError Totals :=
  ensure (negb (bool_decide (tp_pack_id p ∈ tt_seen t))) DuplicatePackId;;
  Ok (MkTotals (tp_pack_id p :: tt_seen t) (tt_compressed t) (tt_uncompressed t) (tt_rows t)).

Section Lineage.
Context `{Hex} `{Digest}.

(** One base pack, with its index. *)
Definition lineage_base_pack (m : LineageManifestV2) (limits : ProtocolLimits) (ceilings : Ceilings) (s : Z * Totals) (p : TransportPack)
    : result ProtocolError (Z * Totals) :=
  let sequence := lb_sequence (lm_base m) in
  ensure (bool_decide (tp_schema p = lm_schema m) && bool_decide (tp_snapshot_id p = lb_snapshot_id (lm_base m))) LineageBasePackMismatch;;
  t ← insert_pack_id s.2 p;
  pack_validate limits p;;
  ensure ((tp_ordinal p =? s.1 mod 2 ^ 32) && bool_decide (tp_sequence p = MkSequenceRange sequence sequence)) LineageBasePackMismatch;;
  t ← add_pack ceilings t p;
  Ok (s.1 + 1, t).

(** One delta, with the sequence and the digest it must continue. *)
Definition lineage_delta (m : LineageManifestV2) (limits : ProtocolLimits) (ceilings : Ceilings)
    (s : Z * Sha256Digest * Totals) (d : LineageDelta) : result ProtocolError (Z * Sha256Digest * Totals) :=
  let '(expected_from, parent, t) := s in
  ensure (negb (negb (ld_from_sequence d =? expected_from) || (ld_to_sequence d <=? ld_from_sequence d))) LineageSequenceGap;;
  ensure (bool_decide (ld_parent_chain_digest d = parent) && bool_decide (ld_pack_digest d = tp_sha256 (ld_pack d))
          && bool_decide (ld_chain_digest d = canonical_delta_chain_digest (ld_parent_chain_digest d) (ld_pack_digest d))) LineageChainMismatch;;
  ensure (bool_decide (tp_schema (ld_pack d) = lm_schema m) && bool_decide (tp_snapshot_id (ld_pack d) = lb_snapshot_id (lm_base m))
          && bool_decide (tp_sequence (ld_pack d) = MkSequenceRange (ld_from_sequence d) (ld_to_sequence d))) LineageDeltaPackMismatch;;
  t ← insert_pack_id t (ld_pack d);
  pack_validate limits (ld_pack d);;
  t ← add_pack ceilings t (ld_pack d);
  Ok (ld_to_sequence d, ld_chain_digest d, t).

(** [LineageManifestV2::validate_with_limits]. *)
Definition lineage_validate (limits : ProtocolLimits) (m : LineageManifestV2) : checked :=
  let base := lm_base m in
  ensure (bool_decide (lm_protocol m = LINEAGE_PROTOCOL_V2)) (UnsupportedLineageProtocol (lm_protocol m));;
  ensure (match lm_capability m with ImmutableBaseOrderedDeltas => true end) UnsupportedLineageCapability;;
  ensure (schema_is_supported (lm_schema m)) (UnsupportedSchema (lm_schema m));;
  ensure (supports_lineage_v2 (lm_schema m)) (FullSnapshotOnlySchemaInLineageV2 (lm_schema m));;
  require_non_nil_uuid "installation_id" (lm_installation_id m);;
  require_non_nil_uuid "account_id" (lm_account_id m);;
  require_non_nil_uuid "vehicle_id" (lm_vehicle_id m);;
  require_non_nil_uuid "base snapshot_id" (lb_snapshot_id base);;
  ensure (negb ((lm_generation m =? 0) || bool_decide (lb_packs base = []))) LineageBaseRequired;;
  let total_pack_count := Z.of_nat (length (lb_packs base)) + Z.of_nat (length (lm_deltas m)) in
  ensure (total_pack_count <=? u64_max) LineageAggregateLimitExceeded;;
  ensure (total_pack_count <=? lim_max_chunks limits) LineageAggregateLimitExceeded;;
  ceilings ← lineage_ceilings limits;
  ensure (negb (is_zero (lb_digest base))) LineageDigestRequired;;
  s ← each_row (lineage_base_pack m limits ceilings) (0, MkTotals [] 0 0 0) (lb_packs base);
  s ← each_row (lineage_delta m limits ceilings) (lb_sequence base, lb_digest base, s.2) (lm_deltas m);
  ensure ((lm_head_sequence m =? s.1.1) && bool_decide (lm_head_digest m = s.1.2)) LineageHeadMismatch;;
  validate_shape (lm_terminal_cursor m).
End Lineage.

(** ** The sync protocol: manifests, cursors and the verified object

    The rest of [src/src/api/protocol.rs]: the manifest of a snapshot or of a range, the
    signed cursor and its claims, the header of an expanded pack, and the streaming
    verification of an object through the hashing reader; and, from
    [src/src/sync/hub_pack/manifest.rs], the manifest the Hub signs. *)

(** ** The cursor *)

Record CursorClaims := MkCursorClaims {
  ccl_protocol : ProtocolVersion;
  ccl_schema : SchemaVersion;
  ccl_installation_id : Uuid;
  ccl_account_id : Uuid;
  ccl_vehicle_id : Uuid;
  ccl_generation : Z;
  ccl_sequence : Z;
}.
#[export] Instance CursorClaims_eq_dec : EqDecision CursorClaims.
Proof. solve_decision. Defined.

Definition claims_validate (c : CursorClaims) : checked :=
  ensure (protocol_is_supported (ccl_protocol c)) (UnsupportedProtocol (ccl_protocol c));;
  ensure (schema_is_supported (ccl_schema c)) (UnsupportedSchema (ccl_schema c));;
  require_non_nil_uuid "cursor installation_id" (ccl_installation_id c);;
  require_non_nil_uuid "cursor account_id" (ccl_account_id c);;
  require_non_nil_uuid "cursor vehicle_id" (ccl_vehicle_id c);;
  ensure (negb (ccl_generation c =? 0)) InvalidGeneration.

Definition CURSOR_MAGIC : string := "TSPC".
Definition CURSOR_FORMAT_VERSION : Z := 1.
Definition be_u16 (bytes : string) : Z := be_value 0 (slice 0 2 bytes).
Definition be_u32 (bytes : string) : Z := be_value 0 (slice 0 4 bytes).

Definition encode_cursor_claims (c : CursorClaims) : string :=
  append CURSOR_MAGIC (append (be_bytes 1 CURSOR_FORMAT_VERSION)
    (append (be_bytes 2 (prv_major (ccl_protocol c))) (append (be_bytes 2 (prv_minor (ccl_protocol c)))
    (append (be_bytes 2 (scv_major (ccl_schema c))) (append (be_bytes 2 (scv_minor (ccl_schema c)))
    (append (uuid_bytes (ccl_installation_id c)) (append (uuid_bytes (ccl_account_id c)) (append (uuid_bytes (ccl_vehicle_id c))
    (append (be_bytes 8 (ccl_generation c)) (be_bytes 8 (ccl_sequence c))))))))))).
Definition claims_of (bytes : string) : CursorClaims :=
  MkCursorClaims (MkProtocolVersion (be_u16 (slice 5 2 bytes)) (be_u16 (slice 7 2 bytes)))
    (MkSchemaVersion (be_u16 (slice 9 2 bytes)) (be_u16 (slice 11 2 bytes)))
    (be_value 0 (slice 13 16 bytes)) (be_value 0 (slice 29 16 bytes)) (be_value 0 (slice 45 16 bytes))
    (be_value 0 (slice 61 8 bytes)) (be_value 0 (slice 69 8 bytes)).
Definition decode_cursor_claims (bytes : string) : result ProtocolError CursorClaims :=
  if negb (bool_decide (slice 0 4 bytes = CURSOR_MAGIC)) || negb (byte_at 4 bytes =? CURSOR_FORMAT_VERSION)
  then Err MalformedCursor
  else claims_validate (claims_of bytes);; Ok (claims_of bytes).

Definition cursor_issue `{Hex} `{Digest} (key : CursorKey) (claims : CursorClaims) : result ProtocolError OpaqueCursor :=
  claims_validate claims;;
  Ok (cursor_text CURSOR_PREFIX (encode_cursor_claims claims) (hmac_sha256 key (encode_cursor_claims claims))).
Definition cursor_verify `{Hex} `{Digest} (key : CursorKey) (cursor : OpaqueCursor) : result ProtocolError CursorClaims :=
  parts ← cursor_decode cursor;
  if negb (constant_time_eq (hmac_sha256 key parts.1) parts.2) then Err InvalidCursorSignature
  else decode_cursor_claims parts.1.

(** ** The manifest *)

Record SyncManifest := MkSyncManifest {
  sym_protocol : ProtocolVersion;
  sym_schema : SchemaVersion;
  sym_installation_id : Uuid;
  sym_account_id : Uuid;
  sym_vehicle_id : Uuid;
  sym_generation : Z;
  sym_snapshot_id : Uuid;
  sym_mode : TransferMode;
  sym_base_sequence : Z;
  sym_head_sequence : Z;
  sym_chunk_count : Z;
  sym_total_compressed_bytes : Z;
  sym_total_uncompressed_bytes : Z;
  sym_total_rows : Z;
  sym_chunks : list TransportPack;
  sym_terminal_cursor : OpaqueCursor;
}.

(** What the loop over the chunks carries: the index, the totals, the stage of the chunk
    before and where its sequence ended. *)
Record ChunkWalk := MkChunkWalk {
  cw_index : Z; cw_ids : list Uuid; cw_compressed : Z; cw_uncompressed : Z; cw_rows : Z; cw_stage : Z; cw_expected_from : Z
}.
(** [min] over the stages of the tables, which [validate] has found nonempty. *)
Definition lowest_stage (tables : list MirrorTable) : Z := foldr (fun t low => Z.min (snapshot_stage t) low) 255 tables.

Section Manifest.
Context `{Hex} `{Digest}.

Definition manifest_chunk (m : SyncManifest) (limits : ProtocolLimits) (w : ChunkWalk) (chunk : TransportPack)
    : result ProtocolError ChunkWalk :=
  ensure (tp_ordinal chunk =? cw_index w mod 2 ^ 32) NonContiguousChunkOrder;;
  ensure (tp_snapshot_id chunk =? sym_snapshot_id m) ChunkSnapshotMismatch;;
  ensure (bool_decide (tp_schema chunk = sym_schema m)) ChunkSchemaMismatch;;
  ensure (negb (bool_decide (tp_pack_id chunk ∈ cw_ids w))) DuplicatePackId;;
  pack_validate limits chunk;;
  compressed ← checked_total (cw_compressed w) (tp_compressed_bytes chunk);
  uncompressed ← checked_total (cw_uncompressed w) (tp_uncompressed_bytes chunk);
  rows ← checked_total (cw_rows w) (tp_row_count chunk);
  let next stage := MkChunkWalk (cw_index w + 1) (tp_pack_id chunk :: cw_ids w) compressed uncompressed rows stage
                      (sq_to_inclusive (tp_sequence chunk)) in
  match sym_mode m with
  | FullSnapshot =>
      ensure (bool_decide (tp_sequence chunk = MkSequenceRange (sym_base_sequence m) (sym_head_sequence m))) SnapshotSequenceMismatch;;
      ensure (cw_stage w <=? lowest_stage (tp_tables chunk)) SnapshotDependencyOrder;;
      Ok (next (lowest_stage (tp_tables chunk)))
  | Incremental =>
      ensure (negb (negb (sq_from_exclusive (tp_sequence chunk) =? cw_expected_from w)
                    || (sq_to_inclusive (tp_sequence chunk) <=? sq_from_exclusive (tp_sequence chunk)))) DeltaSequenceGap;;
      Ok (next (cw_stage w))
  end.

Definition is_incremental (m : SyncManifest) : bool := bool_decide (sym_mode m = Incremental).
Definition chunk_count_matches (limits : ProtocolLimits) (m : SyncManifest) : bool :=
  (Z.of_nat (length (sym_chunks m)) <=? lim_max_chunks limits) && (sym_chunk_count m =? Z.of_nat (length (sym_chunks m))).
(** The last chunk of a nonempty range ends at the head. *)
Definition range_reaches_head (m : SyncManifest) : bool :=
  match last (sym_chunks m) with
  | None => true
  | Some chunk => sq_to_inclusive (tp_sequence chunk) =? sym_head_sequence m
  end.

(** [SyncManifest::validate_with_limits]. *)
Definition manifest_validate (limits : ProtocolLimits) (m : SyncManifest) : checked :=
  ensure (protocol_is_supported (sym_protocol m)) (UnsupportedProtocol (sym_protocol m));;
  ensure (schema_is_supported (sym_schema m)) (UnsupportedSchema (sym_schema m));;
  ensure (negb (is_incremental m && negb (supports_incremental (sym_schema m))))
    (FullSnapshotOnlySchemaInIncrementalManifest (sym_schema m));;
  require_non_nil_uuid "installation_id" (sym_installation_id m);;
  require_non_nil_uuid "account_id" (sym_account_id m);;
  require_non_nil_uuid "vehicle_id" (sym_vehicle_id m);;
  require_non_nil_uuid "snapshot_id" (sym_snapshot_id m);;
  ensure (negb (sym_generation m =? 0)) InvalidGeneration;;
  ensure (sym_base_sequence m <=? sym_head_sequence m) InvalidManifestSequence;;
  ensure (chunk_count_matches limits m) (InvalidChunkCount (sym_chunk_count m) (Z.of_nat (length (sym_chunks m))));;
  ensure (negb (is_incremental m && (sym_base_sequence m <? sym_head_sequence m) && bool_decide (sym_chunks m = []))) MissingDeltaChunks;;
  w ← each_row (manifest_chunk m limits) (MkChunkWalk 0 [] 0 0 0 0 (sym_base_sequence m)) (sym_chunks m);
  ensure (negb (is_incremental m && negb (range_reaches_head m))) DeltaSequenceGap;;
  ensure ((cw_compressed w =? sym_total_compressed_bytes m) && (cw_uncompressed w =? sym_total_uncompressed_bytes m)
          && (cw_rows w =? sym_total_rows m)) ManifestTotalsMismatch;;
  validate_shape (sym_terminal_cursor m).

Definition claims_match_manifest (m : SyncManifest) (c : CursorClaims) : bool :=
  bool_decide (ccl_protocol c = sym_protocol m) && bool_decide (ccl_schema c = sym_schema m)
  && (ccl_installation_id c =? sym_installation_id m) && (ccl_account_id c =? sym_account_id m)
  && (ccl_vehicle_id c =? sym_vehicle_id m) && (ccl_generation c =? sym_generation m) && (ccl_sequence c =? sym_head_sequence m).
Definition validate_terminal_cursor (key : CursorKey) (m : SyncManifest) : checked :=
  claims ← cursor_verify key (sym_terminal_cursor m);
  ensure (claims_match_manifest m claims) CursorDoesNotMatchManifest.

(** ** The manifest the Hub signs *)

Inductive SnapshotManifestError :=
| SmPack (e : ProjectionPackError) | SmTooManyChunks | SmManifestTotalsOverflow | SmProtocol (e : ProtocolError).
Definition sm_invalid {A} (message : string) : result SnapshotManifestError A := Err (SmPack (PeInvalid message)).
Definition sm_require (ok : bool) (message : string) : result SnapshotManifestError unit := if ok then Ok () else sm_invalid message.
Definition map_err {E F A} (f : E -> F) (r : result E A) : result F A := match r with Ok a => Ok a | Err e => Err (f e) end.
Definition sm_total (total added : Z) : result SnapshotManifestError Z :=
  if u64_max <? total + added then Err SmManifestTotalsOverflow else Ok (total + added).

(** The expected ordinal and the totals of the chunks before. *)
Definition built_chunk (snapshot_id : Uuid) (schema : SchemaVersion) (sequence : SequenceRange) (s : Z * Z * Z * Z) (pack : TransportPack)
    : result SnapshotManifestError (Z * Z * Z * Z) :=
  let '(ordinal, compressed, uncompressed, rows) := s in
  let mismatch := "built chunk does not match its snapshot manifest" in
  sm_require ((tp_snapshot_id pack =? snapshot_id) && bool_decide (tp_schema pack = schema)
              && bool_decide (tp_format pack = HubProjectionSqlite) && bool_decide (tp_sequence pack = sequence)) mismatch;;
  (if u32_max <? ordinal then Err SmTooManyChunks else sm_require (tp_ordinal pack =? ordinal) mismatch);;
  compressed ← sm_total compressed (tp_compressed_bytes pack);
  uncompressed ← sm_total uncompressed (tp_uncompressed_bytes pack);
  rows ← sm_total rows (tp_row_count pack);
  Ok (ordinal + 1, compressed, uncompressed, rows).

Definition signed_full_snapshot_manifest_with_limits (binding : ProjectionBinding) (snapshot_id : Uuid)
    (sequence : SequenceRange) (chunks : list TransportPack) (total_rows : Z) (cursor_key : CursorKey) (limits : ProtocolLimits) : result SnapshotManifestError SyncManifest :=
  map_err SmPack (if is_some_and (head chunks) (fun built => bool_decide (tp_schema built = HUB_PROJECTION_SCHEMA_V3))
                  then validate_binding_v2_2 binding else validate_binding binding);;
  sm_require (negb (is_nil snapshot_id)) "snapshot ID must not be nil";;
  sm_require (is_ordered sequence) "full snapshot sequence is unordered";;
  match chunks with
  | [] => sm_invalid "full snapshot needs at least one chunk"
  | first :: _ =>
      let schema := tp_schema first in
      sm_require (bool_decide (schema ∈ [HUB_PROJECTION_SCHEMA_V1; HUB_PROJECTION_SCHEMA_V2; HUB_PROJECTION_SCHEMA_V3]))
        "unsupported projection schema";;
      totals ← each_row (built_chunk snapshot_id schema sequence) (0, 0, 0, 0) chunks;
      let '(_, compressed, uncompressed, rows) := totals in
      sm_require (total_rows =? rows) "manifest row total does not match transport rows";;
      cursor ← map_err SmProtocol (cursor_issue cursor_key
        (MkCursorClaims PROTOCOL_V1 schema (pb_installation_id binding) (pb_account_id binding) (pb_vehicle_id binding)
           (pb_generation binding) (sq_to_inclusive sequence)));
      let manifest := MkSyncManifest PROTOCOL_V1 schema (pb_installation_id binding) (pb_account_id binding) (pb_vehicle_id binding)
        (pb_generation binding) snapshot_id FullSnapshot (sq_from_exclusive sequence) (sq_to_inclusive sequence)
        (Z.of_nat (length chunks)) compressed uncompressed total_rows chunks cursor in
      (if u32_max <? Z.of_nat (length chunks) then Err SmTooManyChunks else Ok ());;
      map_err SmProtocol (manifest_validate limits manifest);;
      map_err SmProtocol (validate_terminal_cursor cursor_key manifest);;
      Ok manifest
  end.
End Manifest.
