(* ===== verification/SyncReader.v ===== *)
(** * The sync protocol: verifying an object while it is read

    [verify_reader], [HashingLimitedReader] and [validate_sqlite_header] of
    [src/src/api/protocol.rs]. The source is its bytes with a script of how each read
    goes: short, whole or failing. The zstd decoder is an interface: a read of it asks
    for source bytes any number of times and then gives bytes or fails, and an error of
    the source ends it, as [std::io::Read] adapters do. *)
From S2P Require Import Prelude RustStr External AuthState Bytes CursorKey PackData SyncProtocol.
Local Open Scope string_scope.
Local Open Scope Z_scope.
Local Open Scope list_scope.

(** ** The header of an expanded pack *)

Definition is_power_of_two (v : Z) : bool := (0 <? v) && (Z.land v (v - 1) =? 0).
Definition header_magic_ok (header : string) : bool :=
  let at_ i := byte_at i header in
  negb (negb (bool_decide (slice 0 16 header = SQLITE_HEADER_MAGIC))
        || negb ((at_ 18%nat =? 1) || (at_ 18%nat =? 2)) || negb ((at_ 19%nat =? 1) || (at_ 19%nat =? 2))
        || negb (at_ 21%nat =? 64) || negb (at_ 22%nat =? 32) || negb (at_ 23%nat =? 32)
        || negb (be_u32 (slice 44 4 header) =? 4)
        || negb ((1 <=? be_u32 (slice 56 4 header)) && (be_u32 (slice 56 4 header) <=? 3))).
Definition page_size (header : string) : option Z :=
  let value := be_u16 (slice 16 2 header) in
  if value =? 1 then Some 65536 else if (512 <=? value) && is_power_of_two value then Some value else None.
Definition validate_sqlite_header (header : string) (schema : SchemaVersion) (total_bytes : Z) : checked :=
  ensure (header_magic_ok header) InvalidSqliteHeader;;
  page_size ← ok_or (page_size header) InvalidSqliteHeader;
  ensure (negb ((total_bytes <? page_size) || negb (total_bytes mod page_size =? 0))) InvalidSqliteHeader;;
  ensure (negb (is_none_or (sqlite_application_id schema) (fun expected => negb (be_u32 (slice 68 4 header) =? expected))))
    InvalidSqliteApplicationId;;
  ensure (be_u32 (slice 60 4 header) =? sqlite_user_version schema) InvalidSqliteUserVersion.

(** ** Reads *)

Inductive IoError := IoInvalidData | IoOther.
Inductive ReadEvent := RdShort (most : nat) | RdFail.
(** The bytes not read yet, and how the next reads go. *)
Record Source := MkSource { src_rest : string; src_script : list ReadEvent }.

Definition str_take (n : nat) (s : string) : string := substring 0 n s.
Definition str_drop (n : nat) (s : string) : string := substring n (String.length s - n) s.
(** A read into [wanted] bytes: at least one byte while any is left. *)
Definition source_read (wanted : nat) (s : Source) : result IoError (string * Source) :=
  match src_script s with
  | RdFail :: _ => Err IoOther
  | RdShort most :: script =>
      let n := Nat.min wanted (S most) in Ok (str_take n (src_rest s), MkSource (str_drop n (src_rest s)) script)
  | [] => Ok (str_take wanted (src_rest s), MkSource (str_drop wanted (src_rest s)) [])
  end.

(** [HashingLimitedReader]: the hasher is the bytes given to it. *)
Record HashingLimitedReader := MkHashingLimitedReader {
  hl_inner : Source;
  hl_hashed : string;
  hl_bytes_read : Z;
  hl_max_bytes : Z;
}.
Definition limited_new (inner : Source) (max_bytes : Z) : HashingLimitedReader := MkHashingLimitedReader inner "" 0 max_bytes.
Definition limited_finish `{Digest} (r : HashingLimitedReader) : Sha256Digest := sha256 (hl_hashed r).
Definition limited_read (output_len : nat) (r : HashingLimitedReader) : result IoError (string * HashingLimitedReader) :=
  if (output_len =? 0)%nat then Ok ("", r)
  else if hl_bytes_read r =? hl_max_bytes r then
    p ← source_read 1 (hl_inner r);
    if str_is_empty p.1 then Ok ("", MkHashingLimitedReader p.2 (hl_hashed r) (hl_bytes_read r) (hl_max_bytes r))
    else Err IoInvalidData
  else
    let remaining := Z.to_nat (hl_max_bytes r - hl_bytes_read r) in
    p ← source_read (Nat.min output_len remaining) (hl_inner r);
    Ok (p.1, MkHashingLimitedReader p.2 (append (hl_hashed r) p.1) (hl_bytes_read r + str_len p.1) (hl_max_bytes r)).

(** [drain_to_eof]; [None] is out of fuel. *)
Fixpoint drain_to_eof (fuel : nat) (r : HashingLimitedReader) : option (result IoError HashingLimitedReader) :=
  match fuel with
  | O => None
  | S fuel =>
      match limited_read 4096 r with
      | Err e => Some (Err e)
      | Ok (bytes, r) => if str_is_empty bytes then Some (Ok r) else drain_to_eof fuel r
      end
  end.
Definition map_source_read_error (e : IoError) : ProtocolError := match e with IoInvalidData => PackTooLarge | IoOther => PackRead end.

(** ** The decoder *)

Inductive Decoding (D : Type) :=
| DNeed (wanted : nat) (continue : string -> Decoding D)
| DGive (bytes : string) (decoder : D)
| DFail.
Arguments DNeed {D}.
Arguments DGive {D}.
Arguments DFail {D}.

Class Zstd := {
  Decoder : Type;
  (** [Decoder::new] *)
  decoder_new : option Decoder;
  (** A read into so many bytes. *)
  decoder_read : nat -> Decoder -> Decoding Decoder;
}.

Fixpoint run_decoding {D} (d : Decoding D) (r : HashingLimitedReader) : option (string * D * HashingLimitedReader) :=
  match d with
  | DNeed wanted continue =>
      match limited_read wanted r with
      | Ok (bytes, r) => run_decoding (continue bytes) r
      | Err _ => None
      end
  | DGive bytes decoder => Some (bytes, decoder, r)
  | DFail => None
  end.

(** The bytes the decoder gives when it is read to its end, one buffer at a time, and
    the reader after them: nothing of the loop that counts and checks them. *)
Inductive decoded `{Zstd} : Decoder -> HashingLimitedReader -> string -> HashingLimitedReader -> Prop :=
| decoded_end decoder r decoder' r' :
    run_decoding (decoder_read (64 * 1024) decoder) r = Some ("", decoder', r') -> decoded decoder r "" r'
| decoded_more decoder r bytes decoder' r' rest r'' :
    run_decoding (decoder_read (64 * 1024) decoder) r = Some (bytes, decoder', r') -> bytes <> "" ->
    decoded decoder' r' rest r'' -> decoded decoder r (append bytes rest) r''.

Record VerifiedTransportPack := MkVerifiedTransportPack {
  vtp_pack_id : Uuid;
  vtp_sha256 : Sha256Digest;
  vtp_compressed_bytes : Z;
  vtp_uncompressed_bytes : Z;
}.

Section Verify.
Context `{Hex} `{Digest} `{Zstd}.
Variable limits : ProtocolLimits.
Variable pack : TransportPack.

(** What the loop ends with: the header, the total and the reader. *)
Definition Expanded : Type := string * Z * HashingLimitedReader.
Fixpoint expand (fuel : nat) (decoder : Decoder) (header : string) (total : Z) (r : HashingLimitedReader)
    : option (result ProtocolError Expanded) :=
  match fuel with
  | O => None
  | S fuel =>
      match run_decoding (decoder_read (64 * 1024) decoder) r with
      | None => Some (Err PackDecompression)
      | Some (bytes, decoder, r) =>
          if str_is_empty bytes then Some (Ok (header, total, r))
          else
            let total := total + str_len bytes in
            if u64_max <? total then Some (Err PackTooLarge)
            else if (tp_uncompressed_bytes pack <? total) || (lim_max_uncompressed_pack_bytes limits <? total) then Some (Err PackTooLarge)
            else expand fuel decoder (append header (str_take (100 - String.length header) bytes)) total r
      end
  end.

(** After the loop. *)
Definition finish_verify (e : Expanded) : option (result ProtocolError VerifiedTransportPack) :=
  let '(header, total, r) := e in
  drained ← drain_to_eof (S (String.length (src_rest (hl_inner r)))) r;
  Some (
    r ← map_err map_source_read_error drained;
    ensure (hl_bytes_read r =? tp_compressed_bytes pack) (CompressedSizeMismatch (tp_compressed_bytes pack) (hl_bytes_read r));;
    ensure (constant_time_eq (tp_sha256 pack) (limited_finish r)) PackHashMismatch;;
    ensure (total =? tp_uncompressed_bytes pack) (UncompressedSizeMismatch (tp_uncompressed_bytes pack) total);;
    validate_sqlite_header (zero_padded 100 header) (tp_schema pack) total;;
    Ok (MkVerifiedTransportPack (tp_pack_id pack) (tp_sha256 pack) (tp_compressed_bytes pack) total)).

(** [verify_reader]; the loop takes at most one step per expanded byte and one more to
    see the end. *)
Definition verify_reader (source : Source) : option (result ProtocolError VerifiedTransportPack) :=
  match pack_validate limits pack with
  | Err e => Some (Err e)
  | Ok _ =>
      match decoder_new with
      | None => Some (Err PackDecompression)
      | Some decoder =>
          expanded ← expand (S (S (Z.to_nat (tp_uncompressed_bytes pack)))) decoder "" 0 (limited_new source (tp_compressed_bytes pack));
          match expanded with
          | Err e => Some (Err e)
          | Ok e => finish_verify e
          end
      end
  end.
End Verify.

(** ** What the reads preserve *)

Lemma take_drop_str n s : append (str_take n s) (str_drop n s) = s.
Proof.
  unfold str_take, str_drop. revert s. induction n as [|n IH]; intros s.
  - rewrite Nat.sub_0_r. assert (E : substring 0 (String.length s) s = s).
    { induction s as [|d s IH]; [done|]. cbn [String.length substring]. by rewrite IH. }
    rewrite E. by destruct s.
  - destruct s as [|c s]; [done|]. cbn [substring String.length Nat.sub]. rewrite str_append_cons. f_equal. apply IH.
Qed.
Lemma str_take_length n s : String.length (str_take n s) = Nat.min n (String.length s).
Proof. unfold str_take. revert s. induction n as [|n IH]; intros [|c s]; cbn; [done..|]. f_equal. apply IH. Qed.
Lemma str_is_empty_iff s : str_is_empty s = true <-> s = "".
Proof. by destruct s. Qed.
Lemma str_append_assoc a b c : append (append a b) c = append a (append b c).
Proof. induction a as [|x a IH]; [done|]. rewrite !str_append_cons. by f_equal. Qed.

(** The first bytes of a text, collected block by block. *)
Lemma str_take_app n s u : str_take n (append s u) = append (str_take n s) (str_take (n - String.length s) u).
Proof.
  unfold str_take. revert n. induction s as [|c s IH]; intros n.
  - change (append "" u) with u. rewrite Nat.sub_0_r. by destruct n.
  - rewrite str_append_cons. destruct n as [|n]; [by destruct u|]. cbn [substring String.length Nat.sub].
    by rewrite IH, str_append_cons.
Qed.
Lemma str_take_collect n s u :
  append (str_take n s) (str_take (n - String.length (str_take n s)) u) = str_take n (append s u).
Proof. rewrite str_take_app, str_take_length. do 2 f_equal. lia. Qed.
Lemma zero_padded_take n s : (n <= String.length s)%nat -> zero_padded n (str_take n s) = str_take n s.
Proof.
  intros Hn. unfold zero_padded. rewrite str_take_length, Nat.min_l by done. rewrite Nat.sub_diag. apply str_append_nil.
Qed.

Lemma source_read_spec wanted s bytes s' :
  source_read wanted s = Ok (bytes, s') ->
  src_rest s = append bytes (src_rest s') /\ (String.length bytes <= wanted)%nat /\ (bytes = "" -> wanted <> 0%nat -> src_rest s = "").
Proof.
  unfold source_read. intros E.
  assert (Hn : forall n, n <> 0%nat -> str_take n (src_rest s) = "" -> src_rest s = "").
  { intros n Hn He. apply (f_equal String.length) in He. rewrite str_take_length in He. destruct (src_rest s) as [|c t]; [done|]. cbn [String.length] in He. lia. }
  destruct (src_script s) as [|[most|] script]; [..|done]; injection E as <- <-; cbn [src_rest];
    rewrite take_drop_str, str_take_length; (split; [done|split; [lia|]]); intros He Hw.
  - by apply (Hn wanted).
  - apply (Hn (Nat.min wanted (S most))); [lia|done].
Qed.

(** The bytes of the source: those hashed, then those not read. *)
Definition reads (whole : string) (r : HashingLimitedReader) : Prop :=
  whole = append (hl_hashed r) (src_rest (hl_inner r)) /\ hl_bytes_read r = str_len (hl_hashed r)
  /\ hl_bytes_read r <= hl_max_bytes r.

Lemma limited_read_spec whole n r bytes r' :
  reads whole r -> limited_read n r = Ok (bytes, r') ->
  reads whole r' /\ hl_max_bytes r' = hl_max_bytes r
  /\ String.length (src_rest (hl_inner r)) = (String.length bytes + String.length (src_rest (hl_inner r')))%nat
  /\ (n <> 0%nat -> bytes = "" -> src_rest (hl_inner r') = "").
Proof.
  intros (Hw & Hb & Hm). unfold limited_read.
  destruct (Nat.eqb_spec n 0) as [->|Hn]; [intros [= <- <-]; done|].
  destruct (Z.eqb_spec (hl_bytes_read r) (hl_max_bytes r)) as [Heq|Hne].
  - destruct (source_read 1 (hl_inner r)) as [[p s]|] eqn:Es; [|done]. apply source_read_spec in Es as (Hs & _ & He).
    cbn [mbind result_bind fst snd]. destruct (str_is_empty p) eqn:Hp; [|done]. apply str_is_empty_iff in Hp as ->.
    intros [= <- <-]. unfold reads. cbn [hl_hashed hl_inner hl_bytes_read hl_max_bytes]. change (append "" (src_rest s)) with (src_rest s) in Hs.
    rewrite <- Hs. repeat split; auto.
  - destruct (source_read _ (hl_inner r)) as [[p s]|] eqn:Es; [|done]. apply source_read_spec in Es as (Hs & Hl & He).
    cbn [mbind result_bind fst snd]. intros [= <- <-]. unfold reads. cbn [hl_hashed hl_inner hl_bytes_read hl_max_bytes].
    rewrite Hw, Hs, str_append_assoc, append_length, str_len_app, Hb. unfold str_len in *. repeat split; [lia|].
    intros _ ->. change (append "" (src_rest s)) with (src_rest s) in Hs. rewrite <- Hs. apply He; [done|lia].
Qed.

Lemma drain_spec whole fuel r : reads whole r -> (String.length (src_rest (hl_inner r)) < fuel)%nat ->
  exists res, drain_to_eof fuel r = Some res
  /\ forall r', res = Ok r' -> hl_hashed r' = whole /\ hl_bytes_read r' = str_len whole.
Proof.
  revert r. induction fuel as [|fuel IH]; intros r Hr Hf; [lia|]. cbn [drain_to_eof].
  destruct (limited_read 4096 r) as [[bytes r']|e] eqn:El; [|by eexists].
  destruct (limited_read_spec _ _ _ _ _ Hr El) as (Hr' & _ & Hlen & He).
  destruct (str_is_empty bytes) eqn:Hb.
  - apply str_is_empty_iff in Hb as ->. eexists. split; [done|]. intros ? [= <-]. destruct Hr' as (Hw & Hn & _).
    rewrite He in Hw by done. rewrite str_append_nil in Hw. by rewrite Hw.
  - apply IH; [done|]. destruct bytes; [done|]. cbn in Hlen. lia.
Qed.

Section Verified.
Context `{Hex} `{Digest} `{Zstd}.
Variable limits : ProtocolLimits.
Variable pack : TransportPack.

Lemma run_decoding_spec {D} whole (d : Decoding D) r bytes d' r' :
  reads whole r -> run_decoding d r = Some (bytes, d', r') -> reads whole r' /\ hl_max_bytes r' = hl_max_bytes r.
Proof.
  revert r. induction d as [wanted continue IH|b d0|]; intros r Hr; cbn [run_decoding]; [|intros [= <- <- <-]; done|done].
  destruct (limited_read wanted r) as [[b r1]|] eqn:El; [|done]. intros E.
  destruct (limited_read_spec _ _ _ _ _ Hr El) as (Hr1 & <- & _). by eapply IH.
Qed.

(** The loop holds the first 100 bytes of what was given so far and their number, and
    ends with those of all that is given. *)
Lemma expand_spec whole fuel d r given :
  reads whole r -> str_len given <= tp_uncompressed_bytes pack ->
  (Z.to_nat (tp_uncompressed_bytes pack - str_len given) + 1 < fuel)%nat ->
  exists res, expand limits pack fuel d (str_take 100 given) (str_len given) r = Some res
  /\ forall h t r', res = Ok (h, t, r') ->
       reads whole r' /\ exists rest, decoded d r rest r' /\ h = str_take 100 (append given rest) /\ t = str_len (append given rest).
Proof.
  revert d given r. induction fuel as [|fuel IH]; intros d given r Hr Hle Hf; [lia|]. cbn [expand].
  destruct (run_decoding _ r) as [[[bytes d'] r']|] eqn:Ed; [|by eexists].
  destruct (run_decoding_spec _ _ _ _ _ _ Hr Ed) as [Hr' _].
  destruct (str_is_empty bytes) eqn:Hb.
  { apply str_is_empty_iff in Hb as ->. eexists. split; [done|]. intros ? ? ? [= <- <- <-]. split; [done|].
    exists "". rewrite str_append_nil. split_and!; [by econstructor|done..]. }
  destruct (Z.ltb_spec u64_max (str_len given + str_len bytes)); [by eexists|].
  destruct (_ || _) eqn:Hx; [by eexists|]. apply orb_false_iff in Hx as [Hx%Z.ltb_ge _].
  assert (1 <= str_len bytes) by (destruct bytes; [done|]; unfold str_len; cbn; lia).
  rewrite str_take_collect, <- str_len_app in *.
  destruct (IH d' (append given bytes) r') as (res & E & Hres); [done|done|rewrite str_len_app in *; lia|].
  exists res. split; [exact E|]. intros h t r2 Er. destruct (Hres _ _ _ Er) as (Hr2 & rest & Hd & Hh & Ht).
  split; [done|]. exists (append bytes rest). rewrite <- str_append_assoc. split; [|done].
  econstructor; [exact Ed|by intros ->|exact Hd].
Qed.
End Verified.

(** ** What a verified object is *)

Lemma ensure_ok b e u : ensure b e = Ok u <-> b = true.
Proof. by destruct b, u. Qed.
Lemma seq_ok {E A B} (r : result E A) (k : result E B) b : (r;; k) = Ok b <-> (exists a, r = Ok a) /\ k = Ok b.
Proof. destruct r as [a|e]; cbn; [|naive_solver]. naive_solver. Qed.

Lemma ok_bind {E A B} (a : A) (k : A -> result E B) : (x ← Ok a; k x) = k a.
Proof. done. Qed.

(** The sizes a validated pack declares. *)
Lemma pack_validate_sizes `{Hex} limits pack :
  pack_validate limits pack = Ok () ->
  tp_compressed_bytes pack <= lim_max_compressed_pack_bytes limits /\ SQLITE_HEADER_BYTES <= tp_uncompressed_bytes pack
  /\ tp_uncompressed_bytes pack <= lim_max_uncompressed_pack_bytes limits.
Proof.
  unfold pack_validate. rewrite !seq_ok, !ensure_ok. intros (_ & _ & _ & _ & _ & _ & _ & [? Hc] & [? Hu] & _).
  apply ensure_ok, negb_true_iff, orb_false_iff in Hc as [_ Hc%Z.ltb_ge].
  apply ensure_ok, negb_true_iff, orb_false_iff in Hu as [Hl%Z.ltb_ge Hu%Z.ltb_ge]. done.
Qed.

Section Object.
Context `{Hex} `{Digest} `{Zstd}.

Lemma finish_verify_spec whole pack h t r :
  reads whole r ->
  exists res, finish_verify pack (h, t, r) = Some res
  /\ forall v, res = Ok v -> str_len whole = tp_compressed_bytes pack /\ tp_sha256 pack = sha256 whole /\ t = tp_uncompressed_bytes pack
       /\ validate_sqlite_header (zero_padded 100 h) (tp_schema pack) t = Ok ()
       /\ v = MkVerifiedTransportPack (tp_pack_id pack) (sha256 whole) (str_len whole) (tp_uncompressed_bytes pack).
Proof.
  intros Hr. unfold finish_verify.
  destruct (drain_spec whole (S (String.length (src_rest (hl_inner r)))) r Hr ltac:(lia)) as (res & -> & Hres).
  cbn [mbind option_bind]. eexists. split; [done|]. intros v. destruct res as [r'|e]; [|done]. cbn [map_err]. rewrite ok_bind.
  destruct (Hres r' eq_refl) as [Hh Hb].
  rewrite !seq_ok. intros ([? Hn] & [? Hd] & [? Ht] & [[] Hs] & E).
  apply ensure_ok, Z.eqb_eq in Hn. apply ensure_ok, constant_time_eq_true in Hd. apply ensure_ok, Z.eqb_eq in Ht.
  unfold limited_finish in Hd. rewrite Hh in Hd. rewrite Hb in Hn. injection E as <-. rewrite Hd, Hn, Ht in *. done.
Qed.

(** C15: Whatever the decoder does and however short or failing the reads are, the
    verification of an object ends. It accepts one only when the whole source hashes to
    the digest the pack is named by and is exactly as long as declared, and what the
    decoder gives for it, read to its end, is exactly as long as declared and starts
    with a database header of the pack's schema whose page size divides that length. *)
Theorem verified_object_is_the_named_one limits pack source :
  0 <= tp_compressed_bytes pack ->
  exists res, verify_reader limits pack source = Some res
  /\ forall v, res = Ok v ->
       pack_validate limits pack = Ok ()
       /\ sha256 (src_rest source) = tp_sha256 pack /\ str_len (src_rest source) = tp_compressed_bytes pack
       /\ (exists decoder object r, decoder_new = Some decoder
            /\ decoded decoder (limited_new source (tp_compressed_bytes pack)) object r
            /\ str_len object = tp_uncompressed_bytes pack
            /\ validate_sqlite_header (str_take 100 object) (tp_schema pack) (str_len object) = Ok ())
       /\ v = MkVerifiedTransportPack (tp_pack_id pack) (tp_sha256 pack) (tp_compressed_bytes pack) (tp_uncompressed_bytes pack).
Proof.
  intros Hc. unfold verify_reader. destruct (pack_validate limits pack) as [[]|e] eqn:Hp; [|by eexists].
  destruct decoder_new as [d|]; [|by eexists].
  destruct (pack_validate_sizes _ _ Hp) as (_ & Hu & _). unfold SQLITE_HEADER_BYTES in Hu.
  destruct (expand_spec limits pack (src_rest source) (S (S (Z.to_nat (tp_uncompressed_bytes pack)))) d
    (limited_new source (tp_compressed_bytes pack)) "") as (res & E & Hres); [by repeat split|unfold str_len; cbn [String.length]; lia..|].
  change (str_take 100 "") with "" in E. change (str_len "") with 0 in E.
  rewrite E. cbn [mbind option_bind]. destruct res as [[[h t] r]|e]; [|by eexists].
  destruct (Hres _ _ _ eq_refl) as (Hr & object & Hd & -> & ->). change (append "" object) with object.
  destruct (finish_verify_spec (src_rest source) pack (str_take 100 object) (str_len object) r Hr) as (res & -> & Hv).
  eexists. split; [done|]. intros v Ev. destruct (Hv v Ev) as (Hn & Hs & Ht & Hh & ->).
  rewrite zero_padded_take in Hh by (unfold str_len in Ht; lia).
  split; [done|]. split; [by rewrite Hs|]. split; [exact Hn|]. split; [by exists d, object, r|]. by rewrite Hs, Hn.
Qed.
End Object.

(** ** An instance: a decoder that gives the bytes it reads *)

Definition sample_zstd : Zstd := {| Decoder := unit; decoder_new := Some tt; decoder_read n d := DNeed n (fun b => DGive b d) |}.
Definition sample_sha : Digest := {| sha256 s := be_bytes 32 (be_value 7 s mod 170141183460469231731687303715884105727) |}.
Definition zeros (n : nat) : string := string_of_list_ascii (repeat (byte_ascii 0) n).
(** One page of 512 bytes with the header of schema 2.1. *)
Definition sample_object : string :=
  append SQLITE_HEADER_MAGIC (append (be_bytes 2 512) (append (be_bytes 6 1103810797600) (append (zeros 20) (append (be_bytes 4 4)
    (append (zeros 8) (append (be_bytes 4 1) (append (be_bytes 4 (sqlite_user_version HUB_PROJECTION_SCHEMA_V2))
      (append (zeros 4) (append (be_bytes 4 SQLITE_HUB_PROJECTION_APPLICATION_ID) (zeros 440)))))))))).
Definition sample_pack (D : Digest) : TransportPack :=
  let digest := @sha256 D sample_object in
  MkTransportPack 11 22 0 HUB_PROJECTION_SCHEMA_V2 HubProjectionSqlite PackZstd (@canonical_relative_path ascii_hex digest) digest
    512 512 3 (MkSequenceRange 0 4) [MtCar].
Definition sample_source : Source := MkSource sample_object [RdShort 5; RdShort 200].

Lemma verified_object_is_the_named_one_witness :
  let H := ascii_hex in let D := sample_sha in let Z := sample_zstd in
  is_ok (default (Err PackRead) (verify_reader ProtocolLimits_default (sample_pack D) sample_source)) = true
  /\ exists res, verify_reader ProtocolLimits_default (sample_pack D) sample_source = Some res
     /\ forall v, res = Ok v -> sha256 sample_object = tp_sha256 (sample_pack D).
Proof.
  intros H D Z. split; [vm_compute; reflexivity|].
  assert (Hc : 0 <= tp_compressed_bytes (sample_pack D)) by (cbv; congruence).
  destruct (verified_object_is_the_named_one ProtocolLimits_default (sample_pack D) sample_source Hc) as (res & E & T).
  exists res. split; [exact E|]. intros v Hv. exact (proj1 (proj2 (T v Hv))).
Defined.
