(* ===== verification/SyncSafety.v ===== *)
(** * The sync protocol: what a cursor is accepted for

    A terminal cursor verifies under a key for certain claims exactly when it is the text
    the Hub issues for those claims under that key. *)
From S2P Require Import Prelude RustStr External Bytes CursorKey AuthState PackData SyncProtocol SyncReader.
Local Open Scope string_scope.
Local Open Scope Z_scope.

(** ** Slices of a layout *)

Lemma slice_here n a b : String.length a = n -> slice 0 n (append a b) = a.
Proof.
  revert n. induction a as [|c a IH]; intros n <-; [unfold slice; by destruct b|]. rewrite str_append_cons.
  unfold slice in *. cbn [String.length substring]. by rewrite IH.
Qed.
Lemma slice_all n a : String.length a = n -> slice 0 n a = a.
Proof. intros Hn. rewrite <- (str_append_nil a) at 1. by apply slice_here. Qed.
Lemma slice_skip k i n a b : String.length a = k -> slice (k + i) n (append a b) = slice i n b.
Proof.
  revert k. induction a as [|c a IH]; intros k <-; [done|]. rewrite str_append_cons. cbn [String.length Nat.add].
  unfold slice in *. cbn [substring]. by apply IH.
Qed.
Lemma slice_slices i n m p : (i + n + m <= String.length p)%nat -> append (slice i n p) (slice (i + n) m p) = slice i (n + m) p.
Proof.
  unfold slice. revert i n. induction p as [|c p IH]; intros i n Hl; cbn [String.length] in Hl.
  - assert (i = 0 /\ n = 0 /\ m = 0)%nat as (-> & -> & ->) by lia. done.
  - destruct i as [|i].
    + destruct n as [|n]; [cbn [Nat.add substring]; by destruct m|].
      cbn [Nat.add substring]. rewrite str_append_cons. f_equal. apply (IH 0%nat n). lia.
    + cbn [Nat.add substring]. apply IH. lia.
Qed.

(** ** The claims in a payload *)

Definition in_u16 (z : Z) : Prop := 0 <= z < 2 ^ 16.
Definition uuid_typed (id : Uuid) : Prop := 0 <= id < 2 ^ 128.
(** The fields lie in their types. *)
Definition claims_typed (c : CursorClaims) : Prop :=
  in_u16 (prv_major (ccl_protocol c)) /\ in_u16 (prv_minor (ccl_protocol c)) /\ in_u16 (scv_major (ccl_schema c))
  /\ in_u16 (scv_minor (ccl_schema c)) /\ uuid_typed (ccl_installation_id c) /\ uuid_typed (ccl_account_id c)
  /\ uuid_typed (ccl_vehicle_id c) /\ 0 <= ccl_generation c < 2 ^ 64 /\ 0 <= ccl_sequence c < 2 ^ 64.

Lemma encode_length c : String.length (encode_cursor_claims c) = CURSOR_PAYLOAD_BYTES.
Proof. unfold encode_cursor_claims, uuid_bytes. rewrite !append_length, !be_bytes_length. done. Qed.

(** Each field stands at its offset. *)
Lemma encode_fields c :
  let p := encode_cursor_claims c in
  slice 0 4 p = CURSOR_MAGIC /\ slice 4 1 p = be_bytes 1 CURSOR_FORMAT_VERSION
  /\ slice 5 2 p = be_bytes 2 (prv_major (ccl_protocol c)) /\ slice 7 2 p = be_bytes 2 (prv_minor (ccl_protocol c))
  /\ slice 9 2 p = be_bytes 2 (scv_major (ccl_schema c)) /\ slice 11 2 p = be_bytes 2 (scv_minor (ccl_schema c))
  /\ slice 13 16 p = uuid_bytes (ccl_installation_id c) /\ slice 29 16 p = uuid_bytes (ccl_account_id c)
  /\ slice 45 16 p = uuid_bytes (ccl_vehicle_id c) /\ slice 61 8 p = be_bytes 8 (ccl_generation c)
  /\ slice 69 8 p = be_bytes 8 (ccl_sequence c).
Proof.
  cbn zeta. unfold encode_cursor_claims, uuid_bytes.
  assert (Hs : forall k o i n a b, String.length a = k -> o = (k + i)%nat -> slice o n (append a b) = slice i n b)
    by (intros ? ? ? ? ? ? ? ->; by apply slice_skip).
  assert (Hl : forall w z, String.length (be_bytes w z) = w) by apply be_bytes_length.
  repeat apply conj.
  - by apply slice_here.
  - rewrite (Hs 4 4 0)%nat by done. by apply slice_here.
  - rewrite (Hs 4 5 1)%nat, (Hs 1 1 0)%nat by done. by apply slice_here.
  - rewrite (Hs 4 7 3)%nat, (Hs 1 3 2)%nat, (Hs 2 2 0)%nat by done. by apply slice_here.
  - rewrite (Hs 4 9 5)%nat, (Hs 1 5 4)%nat, (Hs 2 4 2)%nat, (Hs 2 2 0)%nat by done. by apply slice_here.
  - rewrite (Hs 4 11 7)%nat, (Hs 1 7 6)%nat, (Hs 2 6 4)%nat, (Hs 2 4 2)%nat, (Hs 2 2 0)%nat by done. by apply slice_here.
  - rewrite (Hs 4 13 9)%nat, (Hs 1 9 8)%nat, (Hs 2 8 6)%nat, (Hs 2 6 4)%nat, (Hs 2 4 2)%nat, (Hs 2 2 0)%nat by done. by apply slice_here.
  - rewrite (Hs 4 29 25)%nat, (Hs 1 25 24)%nat, (Hs 2 24 22)%nat, (Hs 2 22 20)%nat, (Hs 2 20 18)%nat, (Hs 2 18 16)%nat, (Hs 16 16 0)%nat by done.
    by apply slice_here.
  - rewrite (Hs 4 45 41)%nat, (Hs 1 41 40)%nat, (Hs 2 40 38)%nat, (Hs 2 38 36)%nat, (Hs 2 36 34)%nat, (Hs 2 34 32)%nat, (Hs 16 32 16)%nat,
      (Hs 16 16 0)%nat by done. by apply slice_here.
  - rewrite (Hs 4 61 57)%nat, (Hs 1 57 56)%nat, (Hs 2 56 54)%nat, (Hs 2 54 52)%nat, (Hs 2 52 50)%nat, (Hs 2 50 48)%nat, (Hs 16 48 32)%nat,
      (Hs 16 32 16)%nat, (Hs 16 16 0)%nat by done. by apply slice_here.
  - rewrite (Hs 4 69 65)%nat, (Hs 1 65 64)%nat, (Hs 2 64 62)%nat, (Hs 2 62 60)%nat, (Hs 2 60 58)%nat, (Hs 2 58 56)%nat, (Hs 16 56 40)%nat,
      (Hs 16 40 24)%nat, (Hs 16 24 8)%nat, (Hs 8 8 0)%nat by done. by apply slice_all.
Qed.

Lemma claims_of_encode c : claims_typed c -> claims_of (encode_cursor_claims c) = c.
Proof.
  intros (H1 & H2 & H3 & H4 & H5 & H6 & H7 & H8 & H9). unfold claims_of, be_u16.
  destruct (encode_fields c) as (_ & _ & -> & -> & -> & -> & -> & -> & -> & -> & ->).
  unfold uuid_bytes. rewrite !slice_all by apply be_bytes_length. rewrite !be_value_one by (unfold in_u16, uuid_typed in *; cbn in *; lia).
  by destruct c as [[] [] ? ? ? ? ?].
Qed.

(** A payload with the magic and the version is the payload of its claims. *)
Lemma encode_claims_of p :
  String.length p = CURSOR_PAYLOAD_BYTES -> slice 0 4 p = CURSOR_MAGIC -> byte_at 4 p = CURSOR_FORMAT_VERSION ->
  encode_cursor_claims (claims_of p) = p.
Proof.
  unfold CURSOR_PAYLOAD_BYTES, byte_at. intros Hl Hm Hv. unfold encode_cursor_claims, claims_of, be_u16, uuid_bytes.
  cbn [ccl_protocol ccl_schema ccl_installation_id ccl_account_id ccl_vehicle_id ccl_generation ccl_sequence
       prv_major prv_minor scv_major scv_minor].
  assert (Hs : forall o n, (o + n <= 77)%nat -> String.length (slice o n p) = n) by (intros; apply slice_length; lia).
  rewrite !(slice_all 2) by (apply Hs; lia). rewrite <- Hm, <- Hv, !be_bytes_value by (apply Hs; lia).
  assert (Hj : forall i n j m k, j = (i + n)%nat -> k = (n + m)%nat -> (i + n + m <= 77)%nat ->
    append (slice i n p) (slice j m p) = slice i k p) by (intros ? ? ? ? ? -> -> ?; apply slice_slices; lia).
  rewrite (Hj 61 8 69 8 16)%nat, (Hj 45 16 61 16 32)%nat, (Hj 29 16 45 32 48)%nat, (Hj 13 16 29 48 64)%nat, (Hj 11 2 13 64 66)%nat,
    (Hj 9 2 11 66 68)%nat, (Hj 7 2 9 68 70)%nat, (Hj 5 2 7 70 72)%nat, (Hj 4 1 5 72 73)%nat, (Hj 0 4 4 73 77)%nat by lia.
  by apply slice_all.
Qed.

Lemma be_value_bound w s : String.length s = w -> 0 <= be_value 0 s < 256 ^ Z.of_nat w.
Proof. intros <-. apply (be_value_range s). Qed.
Lemma claims_of_typed p : String.length p = CURSOR_PAYLOAD_BYTES -> claims_typed (claims_of p).
Proof.
  unfold CURSOR_PAYLOAD_BYTES. intros Hl.
  assert (Hs : forall o n, (o + n <= 77)%nat -> String.length (slice o n p) = n) by (intros; apply slice_length; lia).
  unfold claims_typed, claims_of, be_u16, in_u16, uuid_typed.
  cbn [ccl_protocol ccl_schema ccl_installation_id ccl_account_id ccl_vehicle_id ccl_generation ccl_sequence
       prv_major prv_minor scv_major scv_minor].
  rewrite !(slice_all 2) by (apply Hs; lia).
  change (2 ^ 16) with (256 ^ Z.of_nat 2). change (2 ^ 128) with (256 ^ Z.of_nat 16). change (2 ^ 64) with (256 ^ Z.of_nat 8).
  repeat apply conj; try apply be_value_bound; try (apply Hs; lia); apply be_value_range || (apply be_value_bound, Hs; lia).
Qed.

(** ** What verifies *)

Section Verifies.
Context `{HexLaws} `{Digest}.
Hypothesis sha256_len : forall s, String.length (sha256 s) = 32%nat.

Lemma hmac_length key p : String.length (hmac_sha256 key p) = 32%nat.
Proof. apply sha256_len. Qed.

(** C34: A cursor verifies under a key as certain claims exactly when those claims are ones
    the Hub may issue and the cursor is the text it issues for them under that key: the
    protocol, schema, installation, account, vehicle, generation and sequence a client
    holds are those the Hub signed, and there is one text for them. *)
Theorem sync_cursor_verifies_exactly key cursor claims :
  cursor_verify key cursor = Ok claims <-> claims_typed claims /\ cursor_issue key claims = Ok cursor.
Proof.
  unfold cursor_verify, cursor_issue, cursor_decode. split.
  - destruct (split_cursor _ _ cursor CURSOR_PREFIX) as [[payload tag]|] eqn:Es; [|done].
    apply split_cursor_spec in Es as (-> & Hp & _); [|done]. cbn [ok_or mbind result_bind fst snd].
    destruct (constant_time_eq _ tag) eqn:Ht; [|done]. apply constant_time_eq_true in Ht as <-. cbn [negb].
    unfold decode_cursor_claims. destruct (negb _ || _) eqn:Hm; [done|].
    apply orb_false_iff in Hm as [Hm%negb_false_iff%bool_decide_eq_true Hv%negb_false_iff%Z.eqb_eq].
    rewrite seq_ok. intros [[[] Hc] E]. injection E as <-. split; [by apply claims_of_typed|].
    rewrite encode_claims_of by done. by rewrite Hc.
  - intros [Ht E]. rewrite seq_ok in E. destruct E as [[[] Hc] E]. injection E as <-.
    rewrite (proj2 (split_cursor_spec CURSOR_PAYLOAD_BYTES CURSOR_TAG_BYTES _ CURSOR_PREFIX (encode_cursor_claims claims)
      (hmac_sha256 key (encode_cursor_claims claims)) eq_refl)); [|split; [done|split; [apply encode_length|apply hmac_length]]].
    cbn [ok_or mbind result_bind fst snd]. rewrite (proj2 (constant_time_eq_true _ _) eq_refl). cbn [negb].
    unfold decode_cursor_claims, byte_at. destruct (encode_fields claims) as (-> & -> & _).
    rewrite bool_decide_true by done. rewrite claims_of_encode by done. cbn. by rewrite Hc.
Qed.
End Verifies.

(** ** An instance *)

Definition sample_claims : CursorClaims :=
  MkCursorClaims PROTOCOL_V1 HUB_PROJECTION_SCHEMA_V2 22685491128062564230891640495451214097 7 8 2 12345.
Lemma sync_cursor_verifies_exactly_witness :
  let H := ascii_hex in let D := sample_sha in
  exists cursor, cursor_issue (be_bytes 32 99) sample_claims = Ok cursor /\ cursor_verify (be_bytes 32 99) cursor = Ok sample_claims.
Proof.
  intros H D. eexists. split; [reflexivity|].
  apply (@sync_cursor_verifies_exactly H ascii_hex_laws D (fun s => be_bytes_length 32 _)).
  split; [cbv; repeat split; congruence|reflexivity].
Defined.

(** ** The sync protocol: what a validated lineage is

    A lineage the Hub serves is one unbroken chain from its base to its head, its head
    digest commits to every delta pack on the way, and its packs are distinct and within
    the aggregate bounds. *)

Local Open Scope list_scope.

(** ** Rows in order *)

Lemma each_row_app {E S A} (f : S -> A -> result E S) s rows rows' :
  each_row f s (rows ++ rows') = (t ← each_row f s rows; each_row f t rows').
Proof.
  revert s. induction rows as [|row rows IH]; intros s; [done|]. cbn [app each_row]. destruct (f s row) as [t|e]; [|done].
  cbn [mbind result_bind]. apply IH.
Qed.

(** A relation every row steps along holds over all the rows. *)
Lemma each_row_inv {E S A} (f : S -> A -> result E S) (P : S -> list A -> Prop) rows s s' :
  (forall s done row s', P s done -> f s row = Ok s' -> P s' (done ++ [row])) ->
  each_row f s rows = Ok s' -> forall before, P s before -> P s' (before ++ rows).
Proof.
  intros Hf. revert s. induction rows as [|row rows IH]; intros s; cbn [each_row].
  { intros Hr before Hb. injection Hr as <-. by rewrite app_nil_r. }
  intros Hr before Hb. destruct (f s row) as [t|e] eqn:Ef; [|done]. cbn [mbind result_bind] in Hr.
  change (row :: rows) with ([row] ++ rows). rewrite app_assoc. apply (IH t Hr). by eapply Hf.
Qed.

(** ** The chain *)

Section Chain.
Context `{Hex} `{Digest}.

(** The digest after a chain of packs. *)
Definition chain_digest (parent : Sha256Digest) (packs : list Sha256Digest) : Sha256Digest :=
  fold_left canonical_delta_chain_digest packs parent.

(** Deltas that lead from a sequence and digest to a head, each carrying its own pack. *)
Inductive chained (schema : SchemaVersion) (snapshot : Uuid) : Z -> Sha256Digest -> list LineageDelta -> Z -> Sha256Digest -> Prop :=
| chained_nil from parent : chained schema snapshot from parent [] from parent
| chained_cons from parent d ds to head :
    ld_from_sequence d = from -> from < ld_to_sequence d -> ld_parent_chain_digest d = parent ->
    ld_pack_digest d = tp_sha256 (ld_pack d) -> ld_chain_digest d = canonical_delta_chain_digest parent (ld_pack_digest d) ->
    tp_schema (ld_pack d) = schema -> tp_snapshot_id (ld_pack d) = snapshot -> tp_sequence (ld_pack d) = MkSequenceRange from (ld_to_sequence d) ->
    chained schema snapshot (ld_to_sequence d) (ld_chain_digest d) ds to head ->
    chained schema snapshot from parent (d :: ds) to head.

Lemma chained_digest schema snapshot from parent ds to head :
  chained schema snapshot from parent ds to head -> head = chain_digest parent (map ld_pack_digest ds).
Proof.
  induction 1 as [|from parent d ds to head Hf Hlt Hp Hd Hc Hs Hi Hr _ IH]; [done|].
  cbn [map]. unfold chain_digest in *. cbn [fold_left]. by rewrite <- Hc.
Qed.
Lemma chained_packs schema snapshot from parent ds to head :
  chained schema snapshot from parent ds to head -> map ld_pack_digest ds = map (fun d => tp_sha256 (ld_pack d)) ds.
Proof. induction 1; [done|]. cbn [map]. congruence. Qed.
Lemma chained_forward schema snapshot from parent ds to head : chained schema snapshot from parent ds to head -> from <= to.
Proof. induction 1; lia. Qed.
Lemma chained_app schema snapshot from parent ds mid digest ds' to head :
  chained schema snapshot from parent ds mid digest -> chained schema snapshot mid digest ds' to head ->
  chained schema snapshot from parent (ds ++ ds') to head.
Proof. induction 1; [done|]. intros Hx. cbn [app]. econstructor; eauto. Qed.

Definition pack_ids (ps : list TransportPack) : list Uuid := map tp_pack_id ps.
Definition sum_of (f : TransportPack -> Z) (ps : list TransportPack) : Z := foldr (fun p acc => f p + acc) 0 ps.
Lemma sum_of_app f ps qs : sum_of f (ps ++ qs) = sum_of f ps + sum_of f qs.
Proof. unfold sum_of. induction ps as [|p ps IH]; cbn [app foldr]; lia. Qed.

(** The totals of the packs walked, their identifiers distinct, their bounds kept. *)
Definition walked (limits : ProtocolLimits) (c : Ceilings) (t : Totals) (ps : list TransportPack) : Prop :=
  NoDup (tt_seen t) /\ tt_seen t ≡ₚ pack_ids ps /\ Forall (fun p => pack_validate limits p = Ok ()) ps
  /\ tt_compressed t = sum_of tp_compressed_bytes ps /\ tt_uncompressed t = sum_of tp_uncompressed_bytes ps
  /\ tt_rows t = sum_of tp_row_count ps
  /\ (ps <> [] -> sum_of tp_compressed_bytes ps <= ce_compressed c /\ sum_of tp_uncompressed_bytes ps <= ce_uncompressed c
                  /\ sum_of tp_row_count ps <= ce_rows c).

Lemma walked_nil limits c : walked limits c (MkTotals [] 0 0 0) [].
Proof. repeat split; [constructor|done|constructor|done..]. Qed.

Lemma checked_lineage_total_ok a b l r : checked_lineage_total a b l = Ok r -> r = a + b /\ r <= l.
Proof.
  unfold checked_lineage_total. destruct (Z.ltb_spec u64_max (a + b)); [done|]. destruct (Z.ltb_spec l (a + b)); [done|].
  intros [= <-]. done.
Qed.

Lemma walked_step limits c t ps p t1 t2 :
  walked limits c t ps -> insert_pack_id t p = Ok t1 -> pack_validate limits p = Ok () -> add_pack c t1 p = Ok t2 ->
  walked limits c t2 (ps ++ [p]).
Proof.
  intros (Hd & Hp & Hf & Hc & Hu & Hr & _) Hi Hv Ha. unfold insert_pack_id in Hi. rewrite seq_ok in Hi. destruct Hi as [[? Hi] E].
  apply ensure_ok, negb_true_iff, bool_decide_eq_false in Hi. injection E as <-. unfold add_pack in Ha.
  apply result_bind_Ok in Ha as (c1 & Ha & E). apply result_bind_Ok in E as (u1 & Hb & E). apply result_bind_Ok in E as (r1 & Hz & E).
  injection E as <-. cbn [tt_compressed tt_uncompressed tt_rows tt_seen] in *.
  apply checked_lineage_total_ok in Ha as [-> Ha], Hb as [-> Hb], Hz as [-> Hz]. unfold walked.
  cbn [tt_compressed tt_uncompressed tt_rows tt_seen]. rewrite !sum_of_app. cbn [sum_of foldr]. rewrite Hc, Hu, Hr in *.
  repeat split; try lia.
  - by constructor.
  - unfold pack_ids in *. rewrite map_app, Hp. cbn [map]. apply Permutation_cons_append.
  - apply Forall_app. split; [done|]. by constructor.
Qed.

(** ** A validated lineage *)

Definition lineage_packs (m : LineageManifestV2) : list TransportPack := lb_packs (lm_base m) ++ map ld_pack (lm_deltas m).

Record lineage_sound (limits : ProtocolLimits) (m : LineageManifestV2) : Prop := {
  ls_schema : supports_lineage_v2 (lm_schema m) = true;
  ls_base : lb_packs (lm_base m) <> [] /\ is_zero (lb_digest (lm_base m)) = false;
  ls_base_packs : forall i p, lb_packs (lm_base m) !! i = Some p ->
    tp_schema p = lm_schema m /\ tp_snapshot_id p = lb_snapshot_id (lm_base m) /\ tp_ordinal p = Z.of_nat i mod 2 ^ 32
    /\ tp_sequence p = MkSequenceRange (lb_sequence (lm_base m)) (lb_sequence (lm_base m));
  ls_chain : chained (lm_schema m) (lb_snapshot_id (lm_base m)) (lb_sequence (lm_base m)) (lb_digest (lm_base m)) (lm_deltas m)
               (lm_head_sequence m) (lm_head_digest m);
  ls_ids : NoDup (pack_ids (lineage_packs m));
  ls_valid : Forall (fun p => pack_validate limits p = Ok ()) (lineage_packs m);
  ls_count : Z.of_nat (length (lineage_packs m)) <= lim_max_chunks limits;
  ls_totals : sum_of tp_compressed_bytes (lineage_packs m) <= lim_max_compressed_pack_bytes limits * lim_max_chunks limits
    /\ sum_of tp_uncompressed_bytes (lineage_packs m) <= lim_max_uncompressed_pack_bytes limits * lim_max_chunks limits
    /\ sum_of tp_row_count (lineage_packs m) <= lim_max_rows_per_pack limits * lim_max_chunks limits;
}.

(** After some base packs: their index, their totals and what they are. *)
Definition base_walked limits c (m : LineageManifestV2) (s : Z * Totals) (ps : list TransportPack) : Prop :=
  s.1 = Z.of_nat (length ps) /\ walked limits c s.2 ps
  /\ forall i p, ps !! i = Some p ->
       tp_schema p = lm_schema m /\ tp_snapshot_id p = lb_snapshot_id (lm_base m) /\ tp_ordinal p = Z.of_nat i mod 2 ^ 32
       /\ tp_sequence p = MkSequenceRange (lb_sequence (lm_base m)) (lb_sequence (lm_base m)).

Lemma base_step limits c m s ps p s' :
  base_walked limits c m s ps -> lineage_base_pack m limits c s p = Ok s' -> base_walked limits c m s' (ps ++ [p]).
Proof.
  intros (Hi & Hw & Hall). unfold lineage_base_pack. rewrite seq_ok. intros [[? He] E].
  apply ensure_ok, andb_true_iff in He as [Hs%bool_decide_eq_true Hn%bool_decide_eq_true].
  apply result_bind_Ok in E as (t1 & Ht1 & E). rewrite !seq_ok in E. destruct E as ([[] Hv] & [? Ho] & E).
  apply ensure_ok, andb_true_iff in Ho as [Ho%Z.eqb_eq Hq%bool_decide_eq_true].
  apply result_bind_Ok in E as (t2 & Ht2 & E). injection E as <-. split; [|split]; cbn [fst snd].
  - rewrite length_app, Hi. cbn. lia.
  - by eapply walked_step.
  - intros i q Hq'. apply lookup_app_Some in Hq' as [Hq'|[Hge Hq']]; [by apply Hall|].
    apply list_lookup_singleton_Some in Hq' as [Hz ->]. rewrite Hi in Ho. replace i with (length ps) by lia. done.
Qed.

Definition deltas_walked limits c (m : LineageManifestV2) (s : Z * Sha256Digest * Totals) (ds : list LineageDelta) : Prop :=
  walked limits c s.2 (lb_packs (lm_base m) ++ map ld_pack ds)
  /\ chained (lm_schema m) (lb_snapshot_id (lm_base m)) (lb_sequence (lm_base m)) (lb_digest (lm_base m)) ds s.1.1 s.1.2.

Lemma delta_step limits c m s ds d s' :
  deltas_walked limits c m s ds -> lineage_delta m limits c s d = Ok s' -> deltas_walked limits c m s' (ds ++ [d]).
Proof.
  destruct s as [[from parent] t]. intros [Hw Hch]. cbn [fst snd] in *. unfold lineage_delta. rewrite !seq_ok.
  intros ([? Hf] & [? Hp] & [? Hk] & E).
  apply ensure_ok, negb_true_iff, orb_false_iff in Hf as [Hf%negb_false_iff%Z.eqb_eq Hlt%Z.leb_gt].
  apply ensure_ok in Hp. rewrite !andb_true_iff, !bool_decide_eq_true in Hp. destruct Hp as [[Hp Hpk] Hcd].
  apply ensure_ok in Hk. rewrite !andb_true_iff, !bool_decide_eq_true in Hk. destruct Hk as [[Hs Hn] Hq].
  apply result_bind_Ok in E as (t1 & Ht1 & E). rewrite seq_ok in E. destruct E as ([[] Hv] & E).
  apply result_bind_Ok in E as (t2 & Ht2 & E). injection E as <-. split; cbn [fst snd].
  - rewrite map_app, app_assoc. by eapply walked_step.
  - eapply chained_app; [exact Hch|]. econstructor; try done; [lia|congruence|congruence|constructor].
Qed.

Lemma ceilings_ok limits c : lineage_ceilings limits = Ok c ->
  c = MkCeilings (lim_max_compressed_pack_bytes limits * lim_max_chunks limits)
        (lim_max_uncompressed_pack_bytes limits * lim_max_chunks limits) (lim_max_rows_per_pack limits * lim_max_chunks limits).
Proof.
  unfold lineage_ceilings, lineage_aggregate_limit.
  destruct (u64_max <? lim_max_compressed_pack_bytes limits * _); [done|]. cbn [mbind result_bind].
  destruct (u64_max <? lim_max_uncompressed_pack_bytes limits * _); [done|]. cbn [mbind result_bind].
  destruct (u64_max <? lim_max_rows_per_pack limits * _); [done|]. cbn [mbind result_bind]. intros E. by injection E as <-.
Qed.

(** Validation establishes all of it. *)
Lemma lineage_validate_sound limits m : lineage_validate limits m = Ok () -> lineage_sound limits m.
Proof.
  unfold lineage_validate. cbn zeta. rewrite !seq_ok.
  intros (_ & _ & _ & [? Hs] & _ & _ & _ & _ & [? Hb] & _ & [? Hcount] & E).
  apply ensure_ok in Hs. apply ensure_ok, negb_true_iff, orb_false_iff in Hb as [_ Hb%bool_decide_eq_false].
  apply ensure_ok, Z.leb_le in Hcount. apply result_bind_Ok in E as (c & Hc & E). apply ceilings_ok in Hc as ->.
  rewrite seq_ok in E. destruct E as [[? Hz] E]. apply ensure_ok, negb_true_iff in Hz.
  apply result_bind_Ok in E as (s & Hbase & E). apply result_bind_Ok in E as (s' & Hds & E). rewrite seq_ok in E.
  destruct E as [[? Hh] _]. apply ensure_ok, andb_true_iff in Hh as [Hseq%Z.eqb_eq Hdig%bool_decide_eq_true].
  set (c := MkCeilings _ _ _) in *.
  pose proof (each_row_inv _ (base_walked limits c m) _ _ _ ltac:(intros; by eapply base_step) Hbase []
    ltac:(split; [done|split; [apply walked_nil|done]])) as (_ & Hw & Hall). cbn [app] in *.
  pose proof (each_row_inv _ (deltas_walked limits c m) _ _ _ ltac:(intros; by eapply delta_step) Hds []
    ltac:(split; cbn [map fst snd]; [by rewrite app_nil_r|constructor])) as [Hw' Hch]. cbn [app] in *.
  destruct Hw' as (Hd & Hp & Hv & _ & _ & _ & Ht). assert (Hne : lineage_packs m <> []).
  { unfold lineage_packs. intros [? _]%app_nil. done. }
  constructor; try done.
  - by rewrite Hseq, Hdig.
  - unfold lineage_packs. by rewrite <- Hp.
  - unfold lineage_packs. rewrite length_app, length_map. lia.
  - by apply Ht.
Qed.
End Chain.

(** ** What the head digest commits to *)

Section Commitment.
Context `{HexLaws} `{Digest}.

(** The text a delta's chain digest is of. *)
Definition delta_message (link : Sha256Digest * Sha256Digest) : string :=
  append "delta-v2/" (append (digest_text link.1) (append ":" (digest_text link.2))).
(** The parent and the pack of every delta of a chain. *)
Fixpoint links (parent : Sha256Digest) (packs : list Sha256Digest) : list (Sha256Digest * Sha256Digest) :=
  match packs with
  | [] => []
  | pack :: packs => (parent, pack) :: links (canonical_delta_chain_digest parent pack) packs
  end.

Lemma lowercase_hex_no_colon s : lowercase_hex s = true -> str_contains ":" s = false.
Proof. intros Hs. by eapply str_all_not_contains. Qed.
Lemma hex_encode_inj a b : hex_encode a = hex_encode b -> a = b.
Proof. intros E. apply (f_equal hex_decode) in E. rewrite !hex_decode_encode in E. by injection E. Qed.
Lemma delta_message_inj a b : delta_message a = delta_message b -> a = b.
Proof.
  unfold delta_message, digest_text. intros E. apply (f_equal (strip_prefix "delta-v2/")) in E. rewrite !strip_prefix_app in E.
  injection E as E. change (append ":" ?s) with (String ":" s) in E. apply (f_equal (split_once ":")) in E.
  rewrite !split_once_app in E by (apply lowercase_hex_no_colon, hex_encode_lower).
  injection E as E1 E2. apply hex_encode_inj in E1, E2. destruct a, b. cbn in *. congruence.
Qed.

Lemma links_snoc parent packs pack : links parent (packs ++ [pack]) = links parent packs ++ [(chain_digest parent packs, pack)].
Proof. revert parent. induction packs as [|q packs IH]; intros parent; [done|]. cbn [app links]. by rewrite IH. Qed.
Lemma chain_digest_snoc parent packs pack :
  chain_digest parent (packs ++ [pack]) = canonical_delta_chain_digest (chain_digest parent packs) pack.
Proof. unfold chain_digest. by rewrite fold_left_app. Qed.

(** Two chains from one digest to one digest, when SHA-256 does not collide on the texts
    they hash and none of them hashes to the digest they start from. *)
Lemma chain_digest_inj parent ps qs :
  (forall a b, a ∈ links parent ps -> b ∈ links parent qs ->
     sha256 (delta_message a) = sha256 (delta_message b) -> delta_message a = delta_message b) ->
  (forall a, a ∈ links parent ps ++ links parent qs -> sha256 (delta_message a) <> parent) ->
  chain_digest parent ps = chain_digest parent qs -> ps = qs.
Proof.
  revert qs. induction ps as [|p ps IH] using rev_ind; intros qs; destruct qs as [|q qs _] using rev_ind; [done|..];
    rewrite ?links_snoc, ?chain_digest_snoc; intros Hc Hb E.
  - exfalso. apply (Hb (chain_digest parent qs, q)); [set_solver|]. symmetry. exact E.
  - exfalso. apply (Hb (chain_digest parent ps, p)); [set_solver|]. exact E.
  - assert (Hm : delta_message (chain_digest parent ps, p) = delta_message (chain_digest parent qs, q)) by (apply Hc; [set_solver..|exact E]).
    apply delta_message_inj in Hm. injection Hm as Ed ->. rewrite (IH qs); [done| | |exact Ed].
    + intros a b Ha Hb'. apply Hc; set_solver.
    + intros a Ha. apply Hb. set_solver.
Qed.

Definition pack_digests (m : LineageManifestV2) : list Sha256Digest := map ld_pack_digest (lm_deltas m).
Definition lineage_links (m : LineageManifestV2) : list (Sha256Digest * Sha256Digest) := links (lb_digest (lm_base m)) (pack_digests m).

(** C23: The head digest of a lineage commits to its whole history: two lineages a receiver
    accepts over one base with one head digest list the same packs in the same order,
    unless SHA-256 collides on the texts they hash or maps one of them to the base
    digest. *)
Theorem head_digest_commits_to_the_packs limits m m' :
  lineage_validate limits m = Ok () -> lineage_validate limits m' = Ok () ->
  lb_digest (lm_base m) = lb_digest (lm_base m') -> lm_head_digest m = lm_head_digest m' ->
  (forall a b, a ∈ lineage_links m -> b ∈ lineage_links m' ->
     sha256 (delta_message a) = sha256 (delta_message b) -> delta_message a = delta_message b) ->
  (forall a, a ∈ lineage_links m ++ lineage_links m' -> sha256 (delta_message a) <> lb_digest (lm_base m)) ->
  map (fun d => tp_sha256 (ld_pack d)) (lm_deltas m) = map (fun d => tp_sha256 (ld_pack d)) (lm_deltas m').
Proof.
  intros Hv Hv' Hb Hh Hc Hn. apply lineage_validate_sound in Hv, Hv'. destruct Hv as [_ _ _ Hch _ _ _ _], Hv' as [_ _ _ Hch' _ _ _ _].
  assert (E : pack_digests m = pack_digests m').
  { unfold lineage_links in *. rewrite <- Hb in Hc, Hn. apply (chain_digest_inj (lb_digest (lm_base m))); [done..|].
    transitivity (lm_head_digest m); [symmetry; by eapply chained_digest|]. rewrite Hh, Hb. by eapply chained_digest. }
  unfold pack_digests in E. rewrite (chained_packs _ _ _ _ _ _ _ Hch), (chained_packs _ _ _ _ _ _ _ Hch') in E. done.
Qed.
End Commitment.

(** ** An instance: a base and two deltas *)

Section Sample.
Context `{Hex} `{Digest}.

Definition lineage_pack (pack ordinal from to : Z) (tables : list MirrorTable) : TransportPack :=
  let digest := sha256 (be_bytes 8 pack) in
  MkTransportPack pack 22 ordinal HUB_PROJECTION_SCHEMA_V2 HubProjectionSqlite PackZstd (canonical_relative_path digest) digest
    512 512 3 (MkSequenceRange from to) tables.
Definition lineage_delta_of (parent : Sha256Digest) (pack ordinal from to : Z) : LineageDelta :=
  let p := lineage_pack pack ordinal from to [MtPosition] in
  MkLineageDelta from to parent (canonical_delta_chain_digest parent (tp_sha256 p)) (tp_sha256 p) p.
Definition sample_lineage (cursor_tag : Z) : LineageManifestV2 :=
  let base := lineage_pack 100 0 4 4 [MtCar] in
  let d1 := lineage_delta_of (tp_sha256 base) 101 1 4 9 in
  let d2 := lineage_delta_of (ld_chain_digest d1) 102 2 9 10 in
  MkLineageManifestV2 LINEAGE_PROTOCOL_V2 ImmutableBaseOrderedDeltas HUB_PROJECTION_SCHEMA_V2 1 2 3 1
    (MkLineageBase 22 4 (tp_sha256 base) [base]) [d1; d2] 10 (ld_chain_digest d2)
    (cursor_text CURSOR_PREFIX (be_bytes 77 5) (be_bytes 32 cursor_tag)).
End Sample.

(** Two lineages that differ in their cursors alone. *)
Definition sample_hex : Hex := ascii_hex.
Lemma sample_lineage_valid tag : 
  tag = 6 \/ tag = 7 -> @lineage_validate sample_hex sample_sha ProtocolLimits_default (@sample_lineage sample_hex sample_sha tag) = Ok ().
Proof. intros [-> | ->]; vm_compute; reflexivity. Qed.

Lemma head_digest_commits_to_the_packs_witness :
  let H := sample_hex in let D := sample_sha in
  length (lm_deltas (sample_lineage 6)) = 2%nat
  /\ map (fun d => tp_sha256 (ld_pack d)) (lm_deltas (sample_lineage 6)) = map (fun d => tp_sha256 (ld_pack d)) (lm_deltas (sample_lineage 7)).
Proof.
  intros H D. split; [reflexivity|].
  apply (@head_digest_commits_to_the_packs H ascii_hex_laws D ProtocolLimits_default); [apply sample_lineage_valid; by left|
    apply sample_lineage_valid; by right|reflexivity|reflexivity| |].
  - assert (Hi : forallb (fun a => forallb (fun b => negb (bool_decide (sha256 (delta_message a) = sha256 (delta_message b)))
      || bool_decide (delta_message a = delta_message b)) (lineage_links (sample_lineage 7))) (lineage_links (sample_lineage 6)) = true)
      by (vm_compute; reflexivity).
    intros a b Ha Hb E. rewrite forallb_forall in Hi. specialize (Hi a (proj1 (list_elem_of_In _ _) Ha)).
    rewrite forallb_forall in Hi. specialize (Hi b (proj1 (list_elem_of_In _ _) Hb)).
    apply orb_true_iff in Hi as [Hi|Hi]; [|by apply bool_decide_eq_true in Hi]. apply negb_true_iff, bool_decide_eq_false in Hi. by destruct (Hi E).
  - assert (Hi : forallb (fun a => negb (bool_decide (sha256 (delta_message a) = lb_digest (lm_base (sample_lineage 6)))))
      (lineage_links (sample_lineage 6) ++ lineage_links (sample_lineage 7)) = true) by (vm_compute; reflexivity).
    intros a Ha E. rewrite forallb_forall in Hi. specialize (Hi a (proj1 (list_elem_of_In _ _) Ha)).
    apply negb_true_iff, bool_decide_eq_false in Hi. exact (Hi E).
Defined.
