(* ===== verification/SyncDelta.v ===== *)
(** * Sync deltas: from the mutation journal to a sparse delta

    [projection_delta_for_mutations] and [projection_delta_for_compaction] of
    [src/src/storage/db/live_sync.rs] with the helpers of [projection_helpers.rs]. The
    [HashMap] of final mutations is a map by entity and identifier whose values are then
    sorted, as the code sorts them; reading the JSON of a row is an interface, and the
    materialised tables are maps from vehicle and identifier to that JSON. *)
From S2P Require Import Prelude RustStr AuthState LifeData SchedTypes PackData PackRules SyncProtocol.
From stdpp Require Import sorting.
Local Open Scope string_scope.
Local Open Scope Z_scope.
Local Open Scope list_scope.

(** ** The journal *)

Record SyncMutation := MkSyncMutation {
  smu_vehicle_id : Uuid;
  smu_revision : Z;
  smu_entity : string;
  smu_entity_id : Z;
  smu_car_id : Z;
  smu_operation : string;
  smu_payload_json : string;
}.
Record SyncMutationClaim := MkSyncMutationClaim {
  smc_vehicle_id : Uuid;
  smc_from_revision : Z;
  smc_to_revision : Z;
  smc_mutations : list SyncMutation;
}.

Record LiveDeltaCompactionSpan := MkLiveDeltaCompactionSpan {
  lcs_delta : LineageDelta;
  lcs_from_revision : Z;
  lcs_to_revision : Z;
}.
Record LiveDeltaCompactionPlan := MkLiveDeltaCompactionPlan {
  lcp_vehicle_id : Uuid;
  lcp_base_snapshot_id : Uuid;
  lcp_anchor_sequence : Z;
  lcp_anchor_digest : Sha256Digest;
  lcp_head_sequence : Z;
  lcp_head_digest : Sha256Digest;
  lcp_first_ordinal : Z;
  lcp_from_revision : Z;
  lcp_to_revision : Z;
  lcp_mutations : list SyncMutation;
  lcp_replaced_spans : list LiveDeltaCompactionSpan;
}.

Definition parse_sync_entity (value : string) : option ProjectionDeltaEntity :=
  from_label entity_as_str [DeCar; DeCarSetting; DeGeofence; DeAddress; DeDrive; DePosition; DeCharge; DeChargeSample; DeState; DeUpdate] value.

Inductive SyncStoreError :=
| SeLineageCatalogConflict | SeSyncMutation (message : string) | SeDeserializeLifecycleRow | SeLineageCompactionUnavailable.

(** [serde_json::from_str] at the type of each row. *)
Class RowJson := {
  read_car : string -> option ProjectionCar;
  read_settings : string -> option ProjectionCarSettings;
  read_drive : string -> option ProjectionDrive;
  read_position : string -> option ProjectionPosition;
  read_charge : string -> option ProjectionCharge;
  read_charge_sample : string -> option ProjectionChargeSample;
  read_state : string -> option ProjectionState;
  read_update : string -> option ProjectionUpdate;
}.

(** ** The final mutation of each row, in order *)

Definition mutation_key (m : SyncMutation) : string * Z := (smu_entity m, smu_entity_id m).
(** The tuple order of [(revision, entity, entity_id)]. *)
Definition mutation_le (a b : SyncMutation) : bool :=
  match smu_revision a ?= smu_revision b with
  | Lt => true
  | Gt => false
  | Eq => match String.compare (smu_entity a) (smu_entity b) with
          | Lt => true
          | Gt => false
          | Eq => smu_entity_id a <=? smu_entity_id b
          end
  end.
Definition mutation_before (a b : SyncMutation) : Prop := mutation_le a b.
#[export] Instance mutation_before_dec : RelDecision mutation_before.
Proof. intros a b. unfold mutation_before. apply _. Defined.
(** [into_values] and [sort_by_key]. *)
Definition ordered_values (final : gmap (string * Z) SyncMutation) : list SyncMutation :=
  merge_sort mutation_before (map_to_list final).*2.

(** The last one of a claim wins. *)
Definition final_of_claim (mutations : list SyncMutation) : gmap (string * Z) SyncMutation :=
  fold_left (fun final m => <[mutation_key m := m]> final) mutations ∅.

Definition is_upsert (entity : string) (m : SyncMutation) : bool :=
  bool_decide (smu_entity m = entity) && bool_decide (smu_operation m = "upsert").

Definition empty_delta (binding : ProjectionBinding) (sequence : SequenceRange) (parent_digest : Sha256Digest) : ProjectionDelta :=
  MkProjectionDelta binding sequence parent_digest [] [] [] [] [] [] [] [] [].
Definition push_car (r : ProjectionCar) (d : ProjectionDelta) : ProjectionDelta := d <| pdl_cars := pdl_cars d ++ [r] |>.
Definition push_settings (r : ProjectionCarSettingsPatch) (d : ProjectionDelta) : ProjectionDelta :=
  d <| pdl_car_settings := pdl_car_settings d ++ [r] |>.
Definition push_drive (r : ProjectionDrive) (d : ProjectionDelta) : ProjectionDelta := d <| pdl_drives := pdl_drives d ++ [r] |>.
Definition push_position (r : ProjectionPosition) (d : ProjectionDelta) : ProjectionDelta := d <| pdl_positions := pdl_positions d ++ [r] |>.
Definition push_charge (r : ProjectionCharge) (d : ProjectionDelta) : ProjectionDelta := d <| pdl_charges := pdl_charges d ++ [r] |>.
Definition push_charge_sample (r : ProjectionChargeSample) (d : ProjectionDelta) : ProjectionDelta :=
  d <| pdl_charge_samples := pdl_charge_samples d ++ [r] |>.
Definition push_state (r : ProjectionState) (d : ProjectionDelta) : ProjectionDelta := d <| pdl_states := pdl_states d ++ [r] |>.
Definition push_update (r : ProjectionUpdate) (d : ProjectionDelta) : ProjectionDelta := d <| pdl_updates := pdl_updates d ++ [r] |>.
Definition push_tombstone (r : ProjectionTombstone) (d : ProjectionDelta) : ProjectionDelta :=
  d <| pdl_tombstones := pdl_tombstones d ++ [r] |>.

(** What both loops do with a mutation before they look at its row. *)
Definition push_mutation (upsert : ProjectionDeltaEntity -> result SyncStoreError ProjectionDelta) (delta : ProjectionDelta) (m : SyncMutation)
    : result SyncStoreError ProjectionDelta :=
  entity ← ok_or (parse_sync_entity (smu_entity m)) (SeSyncMutation (append "unknown entity " (smu_entity m)));
  if bool_decide (smu_operation m = "tombstone") then Ok (push_tombstone (MkProjectionTombstone entity (smu_entity_id m) (smu_car_id m)) delta)
  else if negb (bool_decide (smu_operation m = "upsert")) then Err (SeSyncMutation "invalid mutation operation")
  else upsert entity.
Definition no_typed_row {A} : result SyncStoreError A := Err (SeSyncMutation "entity has no typed projection row").

Section Payload.
Context `{RowJson}.

Definition parsed {A} (row : option A) : result SyncStoreError A := ok_or row SeDeserializeLifecycleRow.

(** ** A compacted suffix, from the payloads of the journal *)

Definition final_of_plan (plan : LiveDeltaCompactionPlan) : result SyncStoreError (gmap (string * Z) SyncMutation) :=
  each_row (fun final m =>
    if negb (smu_vehicle_id m =? lcp_vehicle_id plan) || (smu_revision m <? lcp_from_revision plan) || (lcp_to_revision plan <? smu_revision m)
    then Err SeLineageCatalogConflict
    else Ok (match final !! mutation_key m with
             | None => <[mutation_key m := m]> final
             | Some old => if smu_revision old <? smu_revision m then <[mutation_key m := m]> final else final
             end)) ∅ (lcp_mutations plan).

Definition settings_of (ordered : list SyncMutation) : result SyncStoreError (gmap Z (Z * ProjectionCarSettings)) :=
  each_row (fun settings m =>
    if is_upsert "car_setting" m then s ← parsed (read_settings (smu_payload_json m)); Ok (<[smu_entity_id m := (smu_revision m, s)]> settings)
    else Ok settings) ∅ ordered.

Definition compacted_car (settings : gmap Z (Z * ProjectionCarSettings)) (m : SyncMutation) (car : ProjectionCar) : ProjectionCar :=
  match settings !! smu_entity_id m with
  | Some (revision, s) => if smu_revision m <? revision then car <| pcar_settings := s |> else car
  | None => car
  end.

Definition push_payload (car_upserts : list Z) (settings : gmap Z (Z * ProjectionCarSettings)) (delta : ProjectionDelta) (m : SyncMutation)
    : result SyncStoreError ProjectionDelta :=
  let json := smu_payload_json m in
  push_mutation (fun entity =>
    match entity with
    | DeCar => car ← parsed (read_car json); Ok (push_car (compacted_car settings m car) delta)
    | DeCarSetting =>
        if negb (bool_decide (smu_entity_id m ∈ car_upserts)) then
          s ← parsed (read_settings json); Ok (push_settings (MkProjectionCarSettingsPatch (smu_entity_id m) s) delta)
        else Ok delta
    | DeDrive => row ← parsed (read_drive json); Ok (push_drive row delta)
    | DePosition => row ← parsed (read_position json); Ok (push_position row delta)
    | DeCharge => row ← parsed (read_charge json); Ok (push_charge row delta)
    | DeChargeSample => row ← parsed (read_charge_sample json); Ok (push_charge_sample row delta)
    | DeState => row ← parsed (read_state json); Ok (push_state row delta)
    | DeUpdate => row ← parsed (read_update json); Ok (push_update row delta)
    | DeGeofence | DeAddress => no_typed_row
    end) delta m.

Definition projection_delta_for_compaction (plan : LiveDeltaCompactionPlan) (binding : ProjectionBinding) : result SyncStoreError ProjectionDelta :=
  if negb (lcp_vehicle_id plan =? pb_vehicle_id binding) || (lcp_head_sequence plan <=? lcp_anchor_sequence plan)
     || (lcp_from_revision plan <=? 0) || (lcp_to_revision plan <? lcp_from_revision plan)
  then Err SeLineageCatalogConflict
  else
    final ← final_of_plan plan;
    let ordered := ordered_values final in
    let car_upserts := map smu_entity_id (filter (fun m => is_upsert "car" m) ordered) in
    settings ← settings_of ordered;
    delta ← each_row (push_payload car_upserts settings)
      (empty_delta binding (MkSequenceRange (lcp_anchor_sequence plan) (lcp_head_sequence plan)) (lcp_anchor_digest plan)) ordered;
    if delta_is_empty delta then Err SeLineageCompactionUnavailable else Ok delta.

(** ** A claim, from the materialised rows *)

Record MaterialisedTables := MkMaterialisedTables {
  mat_cars : gmap (Uuid * Z) string;
  mat_drives : gmap (Uuid * Z) string;
  mat_positions : gmap (Uuid * Z) string;
  mat_charges : gmap (Uuid * Z) string;
  mat_charge_samples : gmap (Uuid * Z) string;
  mat_states : gmap (Uuid * Z) string;
  mat_updates : gmap (Uuid * Z) string;
}.

Definition load_projection_json {A} (read : string -> option A) (table : gmap (Uuid * Z) string) (m : SyncMutation) : result SyncStoreError A :=
  json ← ok_or (table !! (smu_vehicle_id m, smu_entity_id m))
    (SeSyncMutation (append "missing materialised " (append (smu_entity m) (append " " (print_i64 (smu_entity_id m))))));
  parsed (read json).

Definition push_row (tables : MaterialisedTables) (has_car_upsert : bool) (delta : ProjectionDelta) (m : SyncMutation)
    : result SyncStoreError ProjectionDelta :=
  push_mutation (fun entity =>
    match entity with
    | DeCar => row ← load_projection_json read_car (mat_cars tables) m; Ok (push_car row delta)
    | DeCarSetting =>
        if has_car_upsert then Ok delta
        else car ← load_projection_json read_car (mat_cars tables) m;
             Ok (push_settings (MkProjectionCarSettingsPatch (smu_entity_id m) (pcar_settings car)) delta)
    | DeDrive => row ← load_projection_json read_drive (mat_drives tables) m; Ok (push_drive row delta)
    | DePosition => row ← load_projection_json read_position (mat_positions tables) m; Ok (push_position row delta)
    | DeCharge => row ← load_projection_json read_charge (mat_charges tables) m; Ok (push_charge row delta)
    | DeChargeSample => row ← load_projection_json read_charge_sample (mat_charge_samples tables) m; Ok (push_charge_sample row delta)
    | DeState => row ← load_projection_json read_state (mat_states tables) m; Ok (push_state row delta)
    | DeUpdate => row ← load_projection_json read_update (mat_updates tables) m; Ok (push_update row delta)
    | DeGeofence | DeAddress => no_typed_row
    end) delta m.

Definition projection_delta_for_mutations (tables : MaterialisedTables) (claim : SyncMutationClaim) (binding : ProjectionBinding)
    (sequence : SequenceRange) (parent_digest : Sha256Digest) : result SyncStoreError ProjectionDelta :=
  let ordered := ordered_values (final_of_claim (smc_mutations claim)) in
  let has_car_upsert := existsb (is_upsert "car") ordered in
  each_row (push_row tables has_car_upsert) (empty_delta binding sequence parent_digest) ordered.
End Payload.

(** The rows of [plan_live_delta_compaction]'s query: those without a newer one of their
    key. *)
Definition newest_mutations (journal : list SyncMutation) : list SyncMutation :=
  filter (fun m => forallb (fun newer => negb (bool_decide (mutation_key newer = mutation_key m) && (smu_revision m <? smu_revision newer)))
                     journal) journal.
