(* ===== verification/SyncMirror.v ===== *)
(** * Sync deltas: a compacted delta replays the journal

    What a mirror is after a journal of mutations, what it is after a delta, and that a
    delta built from the journal by compaction leaves every mirror as the journal does. *)
From S2P Require Import Prelude RustStr AuthState LifeData SchedTypes PackData PackRules SyncProtocol SyncReader SyncSafety SyncDelta.
From stdpp Require Import sorting.
Local Open Scope string_scope.
Local Open Scope Z_scope.
Local Open Scope list_scope.

(** ** The last of each key *)

Section KeepLast.
Context {A K : Type} `{EqDecision K} (key : A -> K).

Fixpoint keep_last (l : list A) : list A :=
  match l with
  | [] => []
  | x :: l => if bool_decide (key x ∈ map key l) then keep_last l else x :: keep_last l
  end.
Definition last_of (k : K) (l : list A) : option A := last (filter (fun x => key x = k) l).

Lemma keep_last_sublist l : keep_last l `sublist_of` l.
Proof. induction l as [|x l IH]; cbn [keep_last]; [done|]. case_bool_decide; by constructor. Qed.
Lemma keep_last_keys k l : k ∈ map key (keep_last l) <-> k ∈ map key l.
Proof.
  induction l as [|x l IH]; cbn [keep_last map]; [done|]. case_bool_decide as Hx; cbn [map]; rewrite ?elem_of_cons, IH; [|done].
  split; [tauto|]. by intros [->|?].
Qed.
Lemma keep_last_NoDup l : NoDup (map key (keep_last l)).
Proof.
  induction l as [|x l IH]; cbn [keep_last map]; [constructor|]. case_bool_decide; [done|]. cbn [map]. constructor; [|done].
  by rewrite keep_last_keys.
Qed.
Lemma last_of_cons k x l : last_of k (x :: l) = match last_of k l with Some y => Some y | None => if decide (key x = k) then Some x else None end.
Proof.
  unfold last_of. rewrite filter_cons. case_decide as E; [|by destruct (last _)].
  destruct (filter _ l) as [|y ys] eqn:Ef; [done|]. change (last (x :: y :: ys)) with (last (y :: ys)).
  destruct (last (y :: ys)) eqn:El; [done|]. by apply last_None in El.
Qed.
Lemma last_of_None k l : last_of k l = None <-> k ∉ map key l.
Proof.
  induction l as [|x l IH]; [split; [intros _; apply not_elem_of_nil|done]|]. rewrite last_of_cons. cbn [map]. rewrite not_elem_of_cons.
  destruct (last_of k l) as [y|]; [split; [done|]; intros [_ Hn%IH]; done|]. destruct (decide (key x = k)) as [->|Hne].
  - split; [done|]. by intros [? _].
  - split; [|done]. intros _. split; [congruence|by apply IH].
Qed.
Lemma keep_last_elem l x : x ∈ keep_last l <-> last_of (key x) l = Some x.
Proof.
  induction l as [|y l IH]; [split; [intros []%not_elem_of_nil|done]|]. rewrite last_of_cons. cbn [keep_last].
  case_bool_decide as Hy.
  - rewrite IH. destruct (last_of (key x) l) as [z|] eqn:Ez; [done|]. apply last_of_None in Ez.
    case_decide as E; [rewrite E in Hy; done|done].
  - rewrite elem_of_cons, IH. destruct (last_of (key x) l) as [z|] eqn:Ez.
    + split; [|tauto]. intros [->|?]; [|done]. apply last_of_None in Hy. congruence.
    + case_decide as E; [|split; [intros [->|?]; done|done]]. split; [by intros [->|?]|intros [= ->]; by left].
Qed.

(** Inserting every element under its key leaves the last of each. *)
Context `{Countable K}.
Definition insert_all (l : list A) (m : gmap K A) : gmap K A := fold_left (fun m x => <[key x := x]> m) l m.
Lemma insert_all_lookup l k : insert_all l ∅ !! k = last_of k l.
Proof.
  unfold insert_all. induction l as [|x l IH] using rev_ind; [cbn [fold_left]; by rewrite lookup_empty|]. rewrite fold_left_app. cbn [fold_left].
  unfold last_of in *. rewrite filter_app, filter_cons, filter_nil. case_decide as E.
  - by rewrite last_snoc, E, lookup_insert_eq.
  - by rewrite app_nil_r, lookup_insert_ne.
Qed.
Lemma insert_all_values l : (map_to_list (insert_all l ∅)).*2 ≡ₚ keep_last l.
Proof.
  assert (Hk : forall k x, (k, x) ∈ map_to_list (insert_all l ∅) -> key x = k /\ last_of k l = Some x).
  { intros k x Hx%elem_of_map_to_list. rewrite insert_all_lookup in Hx. split; [|done]. unfold last_of in Hx.
    apply last_Some_elem_of, list_elem_of_filter in Hx as [? _]. done. }
  apply NoDup_Permutation.
  - assert (Hn : NoDup (map_to_list (insert_all l ∅)).*1) by apply NoDup_fst_map_to_list. revert Hk Hn.
    generalize (map_to_list (insert_all l ∅)). intros kx Hk. induction kx as [|[k x] kx IH]; [constructor|]. rewrite !fmap_cons.
    intros [Hx Hn]%NoDup_cons. constructor; [|apply IH; [|done]; intros; apply Hk; by right].
    intros [[k' x'] [E Hin]]%list_elem_of_fmap. cbn in E, Hx. subst x'. apply Hx. destruct (Hk k x ltac:(left)) as [<- _].
    destruct (Hk k' x ltac:(by right)) as [<- _]. by apply (list_elem_of_fmap_2 fst) in Hin.
  - eapply NoDup_fmap_1. apply keep_last_NoDup.
  - intros x. rewrite keep_last_elem, <- insert_all_lookup. split.
    + intros [[k y] [-> Hy]]%list_elem_of_fmap. cbn. destruct (Hk _ _ Hy) as [E _]. apply elem_of_map_to_list in Hy. by rewrite E.
    + intros Hx%elem_of_map_to_list. by apply (list_elem_of_fmap_2 snd) in Hx.
Qed.
End KeepLast.

(** ** Journals in revision order *)

Definition earlier (a b : SyncMutation) : Prop := smu_revision a < smu_revision b.
Definition no_later (a b : SyncMutation) : Prop := smu_revision a <= smu_revision b.

#[export] Instance mutation_before_total : Total mutation_before.
Proof.
  intros a b. unfold mutation_before, mutation_le. rewrite (Z.compare_antisym (smu_revision a)).
  rewrite (String.compare_antisym (smu_entity a) (smu_entity b)).
  destruct (smu_revision a ?= smu_revision b); cbn; [|by left|by right].
  destruct (String.compare (smu_entity b) (smu_entity a)); cbn; [|by right|by left].
  destruct (Z.leb_spec (smu_entity_id a) (smu_entity_id b)); [by left|]. right. apply Is_true_true, Z.leb_le. lia.
Qed.

Lemma strictly_once l x y : StronglySorted earlier l -> x ∈ l -> y ∈ l -> smu_revision x = smu_revision y -> x = y.
Proof.
  induction 1 as [|z l Hs IH Hz]; [by intros []%not_elem_of_nil|]. rewrite !elem_of_cons. rewrite Forall_forall in Hz. unfold earlier in Hz.
  intros [->|Hx] [->|Hy] E; [done|specialize (Hz _ Hy); lia|specialize (Hz _ Hx); lia|by apply IH].
Qed.
Lemma strictly_sublist l l' : l' `sublist_of` l -> StronglySorted earlier l -> StronglySorted earlier l'.
Proof.
  induction 1 as [|x l l' Hl IH|x l l' Hl IH]; [done|..]; intros [Hs Hx]%StronglySorted_inv; [|by apply IH]. constructor; [by apply IH|].
  rewrite Forall_forall in *. intros y Hy. apply Hx. by eapply elem_of_sublist.
Qed.

(** The sort puts a permutation of a journal back in order. *)
Lemma sorted_back l vs : StronglySorted earlier l -> vs ≡ₚ l -> merge_sort mutation_before vs = l.
Proof.
  intros Hs Hp.
  assert (Hle : StronglySorted no_later (merge_sort mutation_before vs)).
  { apply Sorted_StronglySorted; [intros a b c; unfold no_later; lia|].
    assert (Hm : Sorted mutation_before (merge_sort mutation_before vs)) by (apply Sorted_merge_sort; apply _).
    assert (Hr : forall a b, mutation_before a b -> no_later a b).
    { intros a b. unfold mutation_before, mutation_le, no_later. by destruct (Z.compare_spec (smu_revision a) (smu_revision b)); [lia|lia|]. }
    induction Hm as [|x l' Hm IH Hx]; constructor; [done|]. destruct Hx; constructor. by apply Hr. }
  eapply (StronglySorted_unique_strong no_later); [|exact Hle| |by rewrite merge_sort_Permutation].
  - intros x y Hx Hy. rewrite merge_sort_Permutation, Hp in Hx. unfold no_later. intros ? ?. apply (strictly_once l); [done..|lia].
  - clear -Hs. induction Hs as [|x l Hs IH Hx]; constructor; [done|]. eapply Forall_impl; [exact Hx|]. unfold earlier, no_later. lia.
Qed.

(** ** Mirrors, changes and slots *)

(** The rows of every table of a mirror, by entity and identifier. *)
Inductive Row :=
| RowCar (r : ProjectionCar) | RowDrive (r : ProjectionDrive) | RowPosition (r : ProjectionPosition) | RowCharge (r : ProjectionCharge)
| RowChargeSample (r : ProjectionChargeSample) | RowState (r : ProjectionState) | RowUpdate (r : ProjectionUpdate).
Definition row_entity (r : Row) : ProjectionDeltaEntity :=
  match r with
  | RowCar _ => DeCar | RowDrive _ => DeDrive | RowPosition _ => DePosition | RowCharge _ => DeCharge
  | RowChargeSample _ => DeChargeSample | RowState _ => DeState | RowUpdate _ => DeUpdate
  end.
Definition row_id (r : Row) : Z :=
  match r with
  | RowCar r => pcar_id r | RowDrive r => pd_id r | RowPosition r => pp_id r | RowCharge r => pc_id r
  | RowChargeSample r => ps_id r | RowState r => pst_id r | RowUpdate r => pu_id r
  end.
Definition entity_code (e : ProjectionDeltaEntity) : nat :=
  match e with
  | DeCar => 0 | DeCarSetting => 1 | DeGeofence => 2 | DeAddress => 3 | DeDrive => 4 | DePosition => 5 | DeCharge => 6
  | DeChargeSample => 7 | DeState => 8 | DeUpdate => 9
  end.
#[export] Instance entity_countable : Countable ProjectionDeltaEntity.
Proof.
  refine (inj_countable' entity_code (fun n =>
    nth n [DeCar; DeCarSetting; DeGeofence; DeAddress; DeDrive; DePosition; DeCharge; DeChargeSample; DeState; DeUpdate] DeCar) _).
  by intros [].
Defined.
Notation Slot := (ProjectionDeltaEntity * Z)%type.
Notation Mirror := (gmap Slot Row).

(** What one change does: to insert or replace a row, to set the settings of a car that is
    there, to remove a row. *)
Inductive Change := Upsert (row : Row) | Patch (car_id : Z) (settings : ProjectionCarSettings) | Remove (e : ProjectionDeltaEntity) (id : Z).
Definition with_settings (s : ProjectionCarSettings) (row : Row) : Row :=
  match row with RowCar car => RowCar (car <| pcar_settings := s |>) | _ => row end.
Definition change_slot (c : Change) : Slot :=
  match c with Upsert row => (row_entity row, row_id row) | Patch id _ => (DeCar, id) | Remove e id => (e, id) end.
Definition apply_slot (row : option Row) (c : Change) : option Row :=
  match c with Upsert row => Some row | Patch _ s => with_settings s <$> row | Remove _ _ => None end.
Definition apply_change (m : Mirror) (c : Change) : Mirror := partial_alter (fun row => apply_slot row c) (change_slot c) m.
Definition apply_changes (cs : list Change) (m : Mirror) : Mirror := fold_left apply_change cs m.

(** The changes of a delta: its rows, then its patches, then its tombstones. *)
Definition delta_changes (d : ProjectionDelta) : list Change :=
  map (fun r => Upsert (RowCar r)) (pdl_cars d) ++ map (fun r => Upsert (RowDrive r)) (pdl_drives d)
  ++ map (fun r => Upsert (RowPosition r)) (pdl_positions d) ++ map (fun r => Upsert (RowCharge r)) (pdl_charges d)
  ++ map (fun r => Upsert (RowChargeSample r)) (pdl_charge_samples d) ++ map (fun r => Upsert (RowState r)) (pdl_states d)
  ++ map (fun r => Upsert (RowUpdate r)) (pdl_updates d)
  ++ map (fun p => Patch (sps_car_id p) (sps_settings p)) (pdl_car_settings d)
  ++ map (fun t => Remove (pt_entity t) (pt_id t)) (pdl_tombstones d).
Definition apply_delta (d : ProjectionDelta) (m : Mirror) : Mirror := apply_changes (delta_changes d) m.

Definition at_slot (k : Slot) (c : Change) : bool := bool_decide (change_slot c = k).
Lemma apply_changes_lookup cs m k :
  apply_changes cs m !! k = fold_left apply_slot (filter (fun c => at_slot k c) cs) (m !! k).
Proof.
  unfold apply_changes. revert m. induction cs as [|c cs IH]; intros m; [done|]. cbn [fold_left]. rewrite IH. unfold at_slot. rewrite filter_cons.
  unfold apply_change. case_decide as E; apply Is_true_true in E || apply Is_true_false in E.
  - apply bool_decide_eq_true in E as <-. by rewrite lookup_partial_alter_eq.
  - apply bool_decide_eq_false in E. by rewrite lookup_partial_alter_ne.
Qed.

Section Journal.
Context `{RowJson}.

(** The change a well-formed mutation makes: an upsert whose payload is a row of the
    mutation's identifier, a patch of a car's settings, or the removal of a row of a
    table whose rows the source owns. *)
Definition row_change (id : Z) (row : option Row) : option Change :=
  row ← row; if row_id row =? id then Some (Upsert row) else None.
Definition mutation_change (m : SyncMutation) : option Change :=
  entity ← parse_sync_entity (smu_entity m);
  let json := smu_payload_json m in
  let id := smu_entity_id m in
  if bool_decide (smu_operation m = "tombstone") then
    if is_some (source_owned_tombstone_order entity) then Some (Remove entity id) else None
  else if bool_decide (smu_operation m = "upsert") then
    match entity with
    | DeCar => row_change id (RowCar <$> read_car json)
    | DeCarSetting => Patch id <$> read_settings json
    | DeDrive => row_change id (RowDrive <$> read_drive json)
    | DePosition => row_change id (RowPosition <$> read_position json)
    | DeCharge => row_change id (RowCharge <$> read_charge json)
    | DeChargeSample => row_change id (RowChargeSample <$> read_charge_sample json)
    | DeState => row_change id (RowState <$> read_state json)
    | DeUpdate => row_change id (RowUpdate <$> read_update json)
    | DeGeofence | DeAddress => None
    end
  else None.
Definition well_formed (m : SyncMutation) : Prop := is_Some (mutation_change m).
(** The mirror after a journal. *)
Definition replay (journal : list SyncMutation) (m : Mirror) : Mirror := apply_changes (omap mutation_change journal) m.

Definition touches (k : Slot) (m : SyncMutation) : bool :=
  match mutation_change m with Some c => at_slot k c | None => false end.

Lemma filter_omap_slot (f : SyncMutation -> option Change) (l : list SyncMutation) k :
  (forall m c, m ∈ l -> f m = Some c -> at_slot k c = touches k m) ->
  filter (fun c => at_slot k c) (omap f l) = omap f (filter (fun m => touches k m) l).
Proof.
  induction l as [|m l IH]; intros Hf; [done|]. cbn [omap list_omap]. rewrite (filter_cons _ m).
  destruct (f m) as [c|] eqn:Ec.
  - rewrite (filter_cons _ c), (Hf m c) by (done || left). destruct (touches k m); cbn [decide Is_true_dec].
    + rewrite !decide_True by done. cbn [omap list_omap]. rewrite Ec. f_equal. apply IH. intros; eapply Hf; [by right|done].
    + rewrite !decide_False by (by intros []). apply IH. intros; eapply Hf; [by right|done].
  - destruct (touches k m); [rewrite decide_True by done; cbn [omap list_omap]; rewrite Ec|rewrite decide_False by (by intros [])];
      apply IH; intros; eapply Hf; by (right || done).
Qed.

Lemma replay_lookup l m k :
  replay l m !! k = fold_left apply_slot (omap mutation_change (filter (fun mu => touches k mu) l)) (m !! k).
Proof.
  unfold replay. rewrite apply_changes_lookup, filter_omap_slot; [done|]. intros mu c _ E. unfold touches. by rewrite E.
Qed.
(** ** Mutations and their keys *)

Definition change_entity (c : Change) : ProjectionDeltaEntity :=
  match c with Upsert row => row_entity row | Patch _ _ => DeCarSetting | Remove e _ => e end.
Definition is_patch (c : Change) : bool := match c with Patch _ _ => true | _ => false end.

Lemma parse_sync_entity_iff s e : parse_sync_entity s = Some e <-> entity_as_str e = s.
Proof.
  split; [|by intros <-; destruct e].
  unfold parse_sync_entity, from_label. intros Hf. apply find_first_Some in Hf as [_ Hf]. by apply bool_decide_eq_true in Hf.
Qed.

Lemma row_change_Some id row c : row_change id row = Some c -> exists r, row = Some r /\ c = Upsert r /\ row_id r = id.
Proof.
  unfold row_change. intros (r & -> & Hc)%bind_Some. destruct (Z.eqb_spec (row_id r) id); [|done]. injection Hc as <-. eauto.
Qed.

(** The entity and the identifier of a mutation are those of its change; a change of a
    settings key is a patch and no other is. *)
Lemma mutation_change_key m c :
  mutation_change m = Some c ->
  mutation_key m = (entity_as_str (change_entity c), (change_slot c).2) /\ is_patch c = bool_decide (change_entity c = DeCarSetting).
Proof.
  unfold mutation_change, mutation_key. intros (e & He & Hc)%bind_Some. apply parse_sync_entity_iff in He as <-. cbn zeta in Hc.
  destruct (bool_decide (smu_operation m = "tombstone")).
  { destruct e; cbn in Hc; try done; injection Hc as <-; done. }
  destruct (bool_decide (smu_operation m = "upsert")); [|done].
  destruct e; try done.
  2: { apply fmap_Some in Hc as (s & _ & ->). done. }
  all: apply row_change_Some in Hc as (r & Hr & -> & <-); apply fmap_Some in Hr as (x & _ & ->); done.
Qed.
Lemma same_key_same_kind m m' c c' :
  mutation_key m = mutation_key m' -> mutation_change m = Some c -> mutation_change m' = Some c' ->
  change_slot c = change_slot c' /\ is_patch c = is_patch c'.
Proof.
  intros Hk Hc Hc'. apply mutation_change_key in Hc as [Hm Hp], Hc' as [Hm' Hp']. rewrite Hm, Hm' in Hk. injection Hk as He Hi.
  assert (E : change_entity c = change_entity c') by (apply (f_equal parse_sync_entity) in He;
    rewrite !(proj2 (parse_sync_entity_iff _ _) eq_refl) in He; by injection He).
  rewrite Hp, Hp', E. split; [|done]. rewrite E in Hp. destruct c, c'; cbn in *; try done; try congruence;
    (rewrite <- E in *; done) || (rewrite E in *; done) || congruence.
Qed.

(** ** Shadowed mutations *)

(** Rows that differ in settings at most. *)
Definition same_but_settings (o o' : option Row) : Prop := forall s, with_settings s <$> o = with_settings s <$> o'.
Lemma same_but_settings_step o o' c : same_but_settings o o' -> same_but_settings (apply_slot o c) (apply_slot o' c).
Proof. intros Hs s. destruct c as [row|id s'|e id]; cbn [apply_slot]; [done| |done]. by rewrite Hs. Qed.
Lemma patched_same o id s : same_but_settings (apply_slot o (Patch id s)) o.
Proof. intros s'. cbn [apply_slot]. destruct o as [[]|]; done. Qed.

Lemma patch_absorbs cs o o' : existsb is_patch cs = true -> same_but_settings o o' -> fold_left apply_slot cs o = fold_left apply_slot cs o'.
Proof.
  revert o o'. induction cs as [|c cs IH]; intros o o'; [done|]. cbn [existsb fold_left]. intros Hx Hs.
  destruct c as [row|id s|e id]; cbn [is_patch orb] in Hx; [done| |done]. cbn [apply_slot]. by rewrite Hs.
Qed.
Lemma const_absorbs cs o o' : existsb (fun c => negb (is_patch c)) cs = true -> fold_left apply_slot cs o = fold_left apply_slot cs o'.
Proof.
  revert o o'. induction cs as [|c cs IH]; intros o o'; [done|]. cbn [existsb fold_left]. intros Hx.
  destruct c as [row|id s|e id]; cbn [is_patch negb orb] in Hx; [done| |done]. by apply IH.
Qed.

Lemma touches_spec k m c : mutation_change m = Some c -> touches k m = bool_decide (change_slot c = k).
Proof. unfold touches. by intros ->. Qed.

Lemma shadowed_change k l x c o :
  mutation_change x = Some c -> change_slot c = k -> Forall well_formed l -> mutation_key x ∈ map mutation_key l ->
  fold_left apply_slot (omap mutation_change (filter (fun mu => touches k mu) l)) (apply_slot o c)
  = fold_left apply_slot (omap mutation_change (filter (fun mu => touches k mu) l)) o.
Proof.
  intros Hc Hk Hw (y & Hy & Hin)%list_elem_of_fmap. rewrite Forall_forall in Hw. destruct (Hw y Hin) as [c' Hc'].
  destruct (same_key_same_kind _ _ _ _ Hy Hc Hc') as [Hs Hp].
  assert (Hcs : c' ∈ omap mutation_change (filter (fun mu => touches k mu) l)).
  { apply list_elem_of_omap. exists y. split; [|done]. apply list_elem_of_filter. split; [|done].
    rewrite (touches_spec _ _ _ Hc'). apply Is_true_true, bool_decide_eq_true. congruence. }
  assert (He : forall f : Change -> bool, f c' = true -> existsb f (omap mutation_change (filter (fun mu => touches k mu) l)) = true).
  { intros f Hf. apply existsb_exists. exists c'. split; [by apply list_elem_of_In|done]. }
  destruct c as [row|id s|e id]; [apply const_absorbs, He; by rewrite <- Hp| |apply const_absorbs, He; by rewrite <- Hp].
  apply patch_absorbs; [apply He; by rewrite <- Hp|apply patched_same].
Qed.

(** Leaving the shadowed mutations out changes no mirror. *)
Lemma replay_keep_last l m : Forall well_formed l -> replay (keep_last mutation_key l) m = replay l m.
Proof.
  intros Hw. apply map_eq. intros k. rewrite !replay_lookup. generalize (m !! k). induction Hw as [|x l [c Hc] Hw IH]; intros o; [done|].
  cbn [keep_last]. rewrite (filter_cons _ x l). case_bool_decide as Hx.
  - rewrite IH. destruct (touches k x) eqn:Ht; [|done]. rewrite decide_True by done. cbn [omap list_omap]. rewrite Hc. cbn [fold_left].
    rewrite (touches_spec _ _ _ Hc) in Ht. apply bool_decide_eq_true in Ht. symmetry. by eapply shadowed_change.
  - rewrite (filter_cons _ x (keep_last _ l)). destruct (touches k x) eqn:Ht.
    + rewrite !decide_True by done. cbn [omap list_omap]. rewrite Hc. cbn [fold_left]. apply IH.
    + rewrite !decide_False by (by intros []). apply IH.
Qed.
(** ** The delta of a list of mutations *)

Definition row_of {A} (f : Row -> option A) (m : SyncMutation) : option A :=
  match mutation_change m with Some (Upsert row) => f row | _ => None end.
Definition car_of (settings : gmap Z (Z * ProjectionCarSettings)) (m : SyncMutation) : option ProjectionCar :=
  row_of (fun row => match row with RowCar r => Some (compacted_car settings m r) | _ => None end) m.
Definition drive_of : SyncMutation -> option ProjectionDrive := row_of (fun row => match row with RowDrive r => Some r | _ => None end).
Definition position_of : SyncMutation -> option ProjectionPosition := row_of (fun row => match row with RowPosition r => Some r | _ => None end).
Definition charge_of : SyncMutation -> option ProjectionCharge := row_of (fun row => match row with RowCharge r => Some r | _ => None end).
Definition charge_sample_of : SyncMutation -> option ProjectionChargeSample :=
  row_of (fun row => match row with RowChargeSample r => Some r | _ => None end).
Definition state_of : SyncMutation -> option ProjectionState := row_of (fun row => match row with RowState r => Some r | _ => None end).
Definition update_of : SyncMutation -> option ProjectionUpdate := row_of (fun row => match row with RowUpdate r => Some r | _ => None end).
Definition patch_of (car_upserts : list Z) (m : SyncMutation) : option ProjectionCarSettingsPatch :=
  match mutation_change m with
  | Some (Patch id s) => if bool_decide (id ∈ car_upserts) then None else Some (MkProjectionCarSettingsPatch id s)
  | _ => None
  end.
Definition tombstone_of (m : SyncMutation) : option ProjectionTombstone :=
  match mutation_change m with Some (Remove e id) => Some (MkProjectionTombstone e id (smu_car_id m)) | _ => None end.

Definition delta_of (car_upserts : list Z) (settings : gmap Z (Z * ProjectionCarSettings)) (l : list SyncMutation) (d : ProjectionDelta)
    : ProjectionDelta :=
  MkProjectionDelta (pdl_binding d) (pdl_sequence d) (pdl_parent_digest d) (pdl_cars d ++ omap (car_of settings) l)
    (pdl_car_settings d ++ omap (patch_of car_upserts) l) (pdl_drives d ++ omap drive_of l) (pdl_positions d ++ omap position_of l)
    (pdl_charges d ++ omap charge_of l) (pdl_charge_samples d ++ omap charge_sample_of l) (pdl_states d ++ omap state_of l)
    (pdl_updates d ++ omap update_of l) (pdl_tombstones d ++ omap tombstone_of l).

Lemma delta_of_cons ups st m l d : delta_of ups st l (delta_of ups st [m] d) = delta_of ups st (m :: l) d.
Proof.
  unfold delta_of. cbn [pdl_binding pdl_sequence pdl_parent_digest pdl_cars pdl_car_settings pdl_drives pdl_positions pdl_charges
    pdl_charge_samples pdl_states pdl_updates pdl_tombstones].
  by f_equal; rewrite <- app_assoc, <- omap_app.
Qed.
Lemma delta_of_nil ups st d : delta_of ups st [] d = d.
Proof. unfold delta_of. cbn [omap list_omap]. rewrite !app_nil_r. by destruct d. Qed.

Lemma push_payload_ok ups st d m : well_formed m -> push_payload ups st d m = Ok (delta_of ups st [m] d).
Proof.
  intros [c Hc]. unfold push_payload, push_mutation, delta_of, car_of, drive_of, position_of, charge_of, charge_sample_of, state_of, update_of,
    row_of, patch_of, tombstone_of. cbn [omap list_omap]. rewrite Hc.
  revert Hc. unfold mutation_change. intros (e & He & Hc)%bind_Some. rewrite He. cbn [ok_or mbind result_bind]. cbn zeta in Hc.
  destruct (bool_decide (smu_operation m = "tombstone")).
  { destruct e; cbn in Hc; try done; injection Hc as <-; rewrite !app_nil_r; by destruct d. }
  destruct (bool_decide (smu_operation m = "upsert")); [|done]. cbn [negb].
  destruct e; try done.
  2: { apply fmap_Some in Hc as (s & Hs & ->). rewrite Hs. cbn [parsed ok_or mbind result_bind].
       destruct (bool_decide (smu_entity_id m ∈ ups)); cbn [negb]; rewrite !app_nil_r; by destruct d. }
  all: apply row_change_Some in Hc as (r & Hr & -> & Hid); apply fmap_Some in Hr as (x & Hx & ->); rewrite Hx;
    cbn [parsed ok_or mbind result_bind]; rewrite !app_nil_r; by destruct d.
Qed.
Lemma push_payloads_ok ups st l d : Forall well_formed l -> each_row (push_payload ups st) d l = Ok (delta_of ups st l d).
Proof.
  intros Hw. revert d. induction Hw as [|m l Hm Hw IH]; intros d; cbn [each_row]; [by rewrite delta_of_nil|].
  rewrite push_payload_ok by done. cbn [mbind result_bind]. by rewrite IH, delta_of_cons.
Qed.
(** ** The settings and the cars of a journal *)

Definition patch_at (id : Z) (m : SyncMutation) : option (Z * ProjectionCarSettings) :=
  match mutation_change m with Some (Patch i s) => if i =? id then Some (smu_revision m, s) else None | _ => None end.

Lemma change_cases m c : mutation_change m = Some c ->
  is_upsert "car_setting" m = is_patch c
  /\ is_upsert "car" m = match c with Upsert (RowCar _) => true | _ => false end
  /\ (change_slot c).2 = smu_entity_id m
  /\ match c with
     | Patch _ s => read_settings (smu_payload_json m) = Some s
     | Remove e _ => e <> DeCar
     | Upsert _ => True
     end.
Proof.
  unfold mutation_change, is_upsert. intros (e & He & Hc)%bind_Some. apply parse_sync_entity_iff in He. cbn zeta in Hc.
  destruct (bool_decide (smu_operation m = "tombstone")) eqn:Ht.
  { apply bool_decide_eq_true in Ht. rewrite Ht, !andb_false_r. destruct e; cbn in Hc; try done; injection Hc as <-; done. }
  destruct (bool_decide (smu_operation m = "upsert")); [|done]. rewrite !andb_true_r, <- He.
  destruct e; try done.
  2: { apply fmap_Some in Hc as (s & Hs & ->). done. }
  all: apply row_change_Some in Hc as (r & Hr & -> & <-); apply fmap_Some in Hr as (x & _ & ->); done.
Qed.

Lemma settings_of_ok l : Forall well_formed l ->
  exists st, settings_of l = Ok st /\ forall id, st !! id = last (omap (patch_at id) l).
Proof.
  unfold settings_of. induction l as [|m l IH] using rev_ind; intros Hw; [by exists ∅|].
  apply Forall_app in Hw as [Hw Hm]. apply Forall_inv in Hm as [c Hc]. destruct (IH Hw) as (st & E & Hst).
  rewrite each_row_app, E. cbn [mbind result_bind each_row]. destruct (change_cases m c Hc) as (-> & _ & Hid & Hcase).
  destruct c as [row|i s|e i]; cbn [is_patch mbind result_bind]; cbn in Hid.
  - exists st. split; [done|]. intros id. rewrite omap_app, Hst. unfold patch_at at 3. cbn [omap list_omap]. rewrite Hc. by rewrite app_nil_r.
  - rewrite Hcase. cbn [parsed ok_or mbind result_bind]. eexists. split; [done|]. intros id. rewrite omap_app. cbn [omap list_omap].
    unfold patch_at at 2. rewrite Hc. subst i. destruct (Z.eqb_spec (smu_entity_id m) id) as [->|Hne].
    + by rewrite last_snoc, lookup_insert_eq.
    + by rewrite app_nil_r, lookup_insert_ne.
  - exists st. split; [done|]. intros id. rewrite omap_app, Hst. unfold patch_at at 3. cbn [omap list_omap]. rewrite Hc. by rewrite app_nil_r.
Qed.

Lemma patch_at_touching id (l : list SyncMutation) : omap (patch_at id) l = omap (patch_at id) (filter (fun m => touches (DeCar, id) m) l).
Proof.
  induction l as [|m l IH]; [done|]. rewrite (filter_cons _ m). cbn [omap list_omap].
  destruct (touches (DeCar, id) m) eqn:Ht; [rewrite decide_True by done; cbn [omap list_omap]; by rewrite IH|].
  rewrite decide_False by (by intros []). rewrite <- IH. unfold patch_at at 1. destruct (mutation_change m) as [[row|i s|e i]|] eqn:Hc; try done.
  rewrite (touches_spec _ _ _ Hc) in Ht. apply bool_decide_eq_false in Ht. destruct (Z.eqb_spec i id) as [->|]; done.
Qed.

Definition car_upserts_of (l : list SyncMutation) : list Z := map smu_entity_id (filter (fun m => is_upsert "car" m) l).
Lemma car_upserts_touching id l : Forall well_formed l ->
  id ∈ car_upserts_of l
  <-> exists m r, m ∈ filter (fun m => touches (DeCar, id) m) l /\ mutation_change m = Some (Upsert (RowCar r)).
Proof.
  intros Hw. rewrite Forall_forall in Hw. unfold car_upserts_of. split.
  - intros (m & -> & [Hu Hm]%list_elem_of_filter)%list_elem_of_fmap. destruct (Hw m Hm) as [c Hc].
    destruct (change_cases m c Hc) as (_ & Hcar & Hid & _). apply Is_true_true in Hu. rewrite Hcar in Hu.
    destruct c as [[r| | | | | |]| |]; try done. exists m, r. split; [|done]. apply list_elem_of_filter. split; [|done].
    rewrite (touches_spec _ _ _ Hc). apply Is_true_true, bool_decide_eq_true. cbn in *. by rewrite Hid.
  - intros (m & r & [Ht Hm]%list_elem_of_filter & Hc). destruct (change_cases m _ Hc) as (_ & Hcar & Hid & _).
    rewrite (touches_spec _ _ _ Hc) in Ht. apply Is_true_true, bool_decide_eq_true in Ht. injection Ht as Ht. cbn in Hid. rewrite Ht in Hid.
    apply list_elem_of_fmap. exists m. split; [done|]. apply list_elem_of_filter. split; [|done]. by rewrite Hcar.
Qed.

(** ** At most two mutations touch a slot *)

Lemma same_slot_same_kind m m' c c' :
  mutation_change m = Some c -> mutation_change m' = Some c' -> change_slot c = change_slot c' -> is_patch c = is_patch c' ->
  mutation_key m = mutation_key m'.
Proof.
  intros Hc Hc' Hs Hp. destruct (mutation_change_key m c Hc) as [-> H1], (mutation_change_key m' c' Hc') as [-> H2].
  rewrite Hs. do 2 f_equal. destruct c, c'; cbn in *; try done; congruence.
Qed.

(** The mutations that touch a slot: none, one, or a row and a patch. *)
Inductive touching (k : Slot) : list SyncMutation -> Prop :=
| touching_none : touching k []
| touching_one m c : mutation_change m = Some c -> change_slot c = k -> touching k [m]
| touching_two m c m' c' : mutation_change m = Some c -> change_slot c = k -> mutation_change m' = Some c' -> change_slot c' = k ->
    is_patch c = negb (is_patch c') -> touching k [m; m'].

Lemma touching_filter k l : Forall well_formed l -> NoDup (map mutation_key l) -> touching k (filter (fun m => touches k m) l).
Proof.
  intros Hw Hn. set (L := filter _ l).
  assert (HL : Forall (fun m => exists c, mutation_change m = Some c /\ change_slot c = k) L).
  { apply Forall_forall. intros m [Ht Hm]%list_elem_of_filter. rewrite Forall_forall in Hw. destruct (Hw m Hm) as [c Hc]. exists c.
    split; [done|]. rewrite (touches_spec _ _ _ Hc) in Ht. by apply Is_true_true, bool_decide_eq_true in Ht. }
  assert (HN : NoDup (map mutation_key L)) by (eapply sublist_NoDup; [exact Hn|apply (fmap_sublist mutation_key), sublist_filter]).
  clearbody L. clear Hw Hn.
  assert (Hd : forall m m' c c', mutation_change m = Some c -> mutation_change m' = Some c' -> change_slot c = k -> change_slot c' = k ->
    mutation_key m <> mutation_key m' -> is_patch c = negb (is_patch c')).
  { intros m m' c c' Hc Hc' Hk Hk' Hne. destruct (bool_decide (is_patch c = is_patch c')) eqn:Hp.
    - apply bool_decide_eq_true in Hp. destruct Hne. eapply same_slot_same_kind; [done..|congruence|done].
    - apply bool_decide_eq_false in Hp. by destruct (is_patch c), (is_patch c'). }
  destruct L as [|a [|b [|x L]]]; [constructor|..]; inversion_clear HL as [|? ? (ca & Ha & Ka) HL'].
  - by econstructor.
  - inversion_clear HL' as [|? ? (cb & Hb & Kb) _]. cbn [map] in HN. apply NoDup_cons in HN as [Hab _].
    apply not_elem_of_cons in Hab as [Hab _]. eapply touching_two; [exact Ha|done|exact Hb|done|]. by eapply Hd.
  - inversion_clear HL' as [|? ? (cb & Hb & Kb) HL2]. inversion_clear HL2 as [|? ? (cx & Hx & Kx) _]. cbn [map] in HN.
    apply NoDup_cons in HN as [[Hab [Hax _]%not_elem_of_cons]%not_elem_of_cons [[Hbx _]%not_elem_of_cons _]%NoDup_cons].
    pose proof (Hd a b ca cb Ha Hb Ka Kb Hab) as E1. pose proof (Hd b x cb cx Hb Hx Kb Kx Hbx) as E2.
    pose proof (Hd a x ca cx Ha Hx Ka Kx Hax) as E3. by destruct (is_patch ca), (is_patch cb), (is_patch cx).
Qed.
(** ** A delta at one slot *)

(** The changes one mutation adds to a delta, in the order of the delta's tables. *)
Definition delta_parts (ups : list Z) (st : gmap Z (Z * ProjectionCarSettings)) : list (SyncMutation -> option Change) :=
  [fun m => Upsert ∘ RowCar <$> car_of st m; fun m => Upsert ∘ RowDrive <$> drive_of m; fun m => Upsert ∘ RowPosition <$> position_of m;
   fun m => Upsert ∘ RowCharge <$> charge_of m; fun m => Upsert ∘ RowChargeSample <$> charge_sample_of m;
   fun m => Upsert ∘ RowState <$> state_of m; fun m => Upsert ∘ RowUpdate <$> update_of m;
   fun m => (fun p => Patch (sps_car_id p) (sps_settings p)) <$> patch_of ups m;
   fun m => (fun t => Remove (pt_entity t) (pt_id t)) <$> tombstone_of m].
Definition parts_of (parts : list (SyncMutation -> option Change)) (l : list SyncMutation) : list Change :=
  concat (map (fun part => omap part l) parts).

Lemma map_omap {A B} (f : SyncMutation -> option A) (g : A -> B) (l : list SyncMutation) : map g (omap f l) = omap (fun m => g <$> f m) l.
Proof. induction l as [|m l IH]; [done|]. cbn [omap list_omap]. destruct (f m); cbn; by rewrite <- IH. Qed.

Lemma delta_changes_of ups st l binding sequence parent :
  delta_changes (delta_of ups st l (empty_delta binding sequence parent)) = parts_of (delta_parts ups st) l.
Proof.
  unfold delta_changes, delta_of, empty_delta, parts_of, delta_parts.
  cbn [pdl_binding pdl_sequence pdl_parent_digest pdl_cars pdl_car_settings pdl_drives pdl_positions pdl_charges
    pdl_charge_samples pdl_states pdl_updates pdl_tombstones app map concat].
  by rewrite !map_omap, app_nil_r.
Qed.

Lemma compacted_car_id st m r : pcar_id (compacted_car st m r) = pcar_id r.
Proof. unfold compacted_car. destruct (st !! _) as [[rev s]|]; [|done]. by destruct (_ <? rev). Qed.

(** Every part of a mutation lies in the slot the mutation touches. *)
Lemma parts_touch ups st k part m c : part ∈ delta_parts ups st -> part m = Some c -> at_slot k c = touches k m.
Proof.
  intros Hp E.
  assert (Hm : exists c', mutation_change m = Some c' /\ change_slot c = change_slot c').
  { apply list_elem_of_In in Hp. unfold delta_parts in Hp. cbn [In] in Hp.
    destruct Hp as [<-|[<-|[<-|[<-|[<-|[<-|[<-|[<-|[<-|[]]]]]]]]]];
      apply fmap_Some in E as (x & E & ->);
      unfold car_of, drive_of, position_of, charge_of, charge_sample_of, state_of, update_of, row_of, patch_of, tombstone_of in E;
      destruct (mutation_change m) as [[row|i s|e i]|] eqn:Hm; try done; eexists; (split; [done|]).
    all: try (destruct row; try done; injection E as <-; cbn; by rewrite ?compacted_car_id).
    - destruct (bool_decide _); [done|]. by injection E as <-.
    - by injection E as <-. }
  destruct Hm as (c' & Hc & Hs). unfold at_slot. by rewrite Hs, (touches_spec _ _ _ Hc).
Qed.

Lemma parts_filter ups st k l :
  filter (fun c => at_slot k c) (parts_of (delta_parts ups st) l) = parts_of (delta_parts ups st) (filter (fun m => touches k m) l).
Proof.
  unfold parts_of. pose proof (parts_touch ups st k) as Ht. induction (delta_parts ups st) as [|part parts IH]; [done|].
  cbn [map concat]. rewrite filter_app, filter_omap_slot by (intros m c _; apply Ht; left). f_equal. apply IH. intros; eapply Ht; [by right|done].
Qed.
Ltac parts := unfold parts_of, delta_parts, car_of, drive_of, position_of, charge_of, charge_sample_of, state_of, update_of, row_of, patch_of,
  tombstone_of; cbn [map concat omap list_omap app fmap option_fmap option_map].

Lemma parts_one ups st m c : mutation_change m = Some c ->
  parts_of (delta_parts ups st) [m]
  = match c with
    | Upsert (RowCar r) => [Upsert (RowCar (compacted_car st m r))]
    | Patch id _ => if bool_decide (id ∈ ups) then [] else [c]
    | _ => [c]
    end.
Proof. intros Hc. parts. rewrite Hc. destruct c as [[]|id s|e id]; try done. cbn. by destruct (bool_decide _). Qed.
Lemma parts_car_and_patch ups st m r p id s l :
  mutation_change m = Some (Upsert (RowCar r)) -> mutation_change p = Some (Patch id s) -> id ∈ ups -> l = [m; p] \/ l = [p; m] ->
  parts_of (delta_parts ups st) l = [Upsert (RowCar (compacted_car st m r))].
Proof.
  intros Hm Hp Hid Hl. assert (Hb : bool_decide (id ∈ ups) = true) by by apply bool_decide_eq_true.
  destruct Hl as [-> | ->]; parts; rewrite Hm, Hp, Hb; done.
Qed.

Lemma car_slot_row m c id : mutation_change m = Some c -> change_slot c = (DeCar, id) -> is_patch c = false -> exists r, c = Upsert (RowCar r).
Proof.
  intros Hc Hs Hp. destruct (change_cases m c Hc) as (_ & _ & _ & Hcase). destruct c as [row|i s|e i]; [|done|]; cbn in Hs.
  - destruct row; try done. by eexists.
  - by injection Hs.
Qed.

Lemma settings_at l st id L : settings_of l = Ok st -> Forall well_formed l -> filter (fun m => touches (DeCar, id) m) l = L ->
  st !! id = last (omap (patch_at id) L).
Proof.
  intros E Hw <-. destruct (settings_of_ok l Hw) as (st' & E' & Hst). rewrite E in E'. injection E' as <-. by rewrite Hst, patch_at_touching.
Qed.

Section Slot.
Context (l : list SyncMutation) (st : gmap Z (Z * ProjectionCarSettings)).
Hypothesis Hw : Forall well_formed l.
Hypothesis Hn : NoDup (map mutation_key l).
Hypothesis Hs : StronglySorted earlier l.
Hypothesis Hst : settings_of l = Ok st.
Let ups := car_upserts_of l.

Lemma slot_one k m c o : filter (fun m => touches k m) l = [m] -> mutation_change m = Some c -> change_slot c = k ->
  fold_left apply_slot (parts_of (delta_parts ups st) [m]) o = apply_slot o c.
Proof.
  intros HL Hc Hk. rewrite (parts_one _ _ _ _ Hc). destruct c as [[r| | | | | |]|id s|e id]; try done.
  - subst k. cbn in HL. unfold compacted_car. destruct (change_cases m _ Hc) as (_ & _ & <- & _). cbn.
    rewrite (settings_at l st (pcar_id r) _ Hst Hw HL). cbn [omap list_omap patch_at]. unfold patch_at. by rewrite Hc.
  - rewrite bool_decide_false; [done|]. unfold ups. rewrite car_upserts_touching by done. intros (m' & r & Hm' & Hr).
    subst k. cbn in HL. rewrite HL in Hm'. apply list_elem_of_singleton in Hm' as ->. congruence.
Qed.

Lemma slot_two k m r p id s L o :
  filter (fun m => touches k m) l = L -> L = [m; p] \/ L = [p; m] ->
  mutation_change m = Some (Upsert (RowCar r)) -> mutation_change p = Some (Patch id s) -> k = (DeCar, id) -> pcar_id r = id ->
  fold_left apply_slot (parts_of (delta_parts ups st) L) o = fold_left apply_slot (omap mutation_change L) o.
Proof.
  intros HL Hl Hm Hp -> Hr. assert (Hid : id ∈ ups).
  { apply car_upserts_touching; [done|]. exists m, r. split; [|done]. rewrite HL. destruct Hl as [-> | ->]; set_solver. }
  assert (HsL : StronglySorted earlier L) by (rewrite <- HL; eapply strictly_sublist; [apply sublist_filter|done]).
  rewrite (parts_car_and_patch _ _ m r p id s) by done.
  pose proof (settings_at l st id L Hst Hw HL) as E. unfold compacted_car. destruct (change_cases m _ Hm) as (_ & _ & <- & _). cbn [change_slot snd row_id].
  rewrite Hr, E. destruct Hl as [-> | ->]; cbn [omap list_omap]; unfold patch_at; rewrite Hm, Hp, Z.eqb_refl; cbn [last];
    apply StronglySorted_inv in HsL as [_ Hlt%Forall_inv]; unfold earlier in Hlt.
  - by rewrite (proj2 (Z.ltb_lt _ _) Hlt).
  - rewrite (proj2 (Z.ltb_ge _ _)) by lia. done.
Qed.

(** The delta of a journal without shadowed mutations does what the journal does. *)
Lemma delta_of_replays binding sequence parent m :
  apply_delta (delta_of ups st l (empty_delta binding sequence parent)) m = replay l m.
Proof.
  apply map_eq. intros k. unfold apply_delta. rewrite delta_changes_of, apply_changes_lookup, parts_filter, replay_lookup.
  generalize (m !! k). intros o. pose proof (touching_filter k l Hw Hn) as Ht.
  remember (filter (fun m => touches k m) l) as L eqn:HL. symmetry in HL. destruct Ht as [|a c Ha Hk|a ca b cb Ha Ka Hb Kb Hp].
  - done.
  - rewrite (slot_one k a c) by done. cbn [omap list_omap]. by rewrite Ha.
  - destruct (is_patch cb) eqn:Hpb; cbn [negb] in Hp.
    + destruct cb as [|id s|]; try done. cbn in Kb. rewrite <- Kb in HL, Ka. destruct (car_slot_row a ca id Ha Ka Hp) as [r ->]. cbn in Ka.
      eapply (slot_two (DeCar, id) a r b id s); [done|by left|done..|]. by injection Ka.
    + destruct ca as [|id s|]; try done. cbn in Ka. rewrite <- Ka in HL, Kb. destruct (car_slot_row b cb id Hb Kb Hpb) as [r ->]. cbn in Kb.
      eapply (slot_two (DeCar, id) b r a id s); [done|by right|done..|]. by injection Kb.
Qed.
End Slot.
End Journal.

(** ** Sync deltas: compaction and publication

    A compacted delta leaves every mirror as the journal it stands for does, and the
    delta of a claim brings a mirror up to the materialised rows. *)

(** ** The final mutations of a journal *)

Lemma Forall_in_sublist {A} (P : A -> Prop) l l' : l' `sublist_of` l -> Forall P l -> Forall P l'.
Proof. rewrite !Forall_forall. intros Hs Hl x Hx. apply Hl. by eapply elem_of_sublist. Qed.

Lemma ordered_final l : StronglySorted earlier l -> ordered_values (insert_all mutation_key l ∅) = keep_last mutation_key l.
Proof.
  intros Hs. unfold ordered_values. apply sorted_back; [|apply insert_all_values].
  eapply strictly_sublist; [apply keep_last_sublist|done].
Qed.

(** The mutations of a plan belong to its vehicle and lie in its revisions. *)
Definition in_plan (plan : LiveDeltaCompactionPlan) (m : SyncMutation) : Prop :=
  smu_vehicle_id m = lcp_vehicle_id plan /\ lcp_from_revision plan <= smu_revision m <= lcp_to_revision plan.

Lemma final_of_plan_ok plan : Forall (in_plan plan) (lcp_mutations plan) -> StronglySorted earlier (lcp_mutations plan) ->
  final_of_plan plan = Ok (insert_all mutation_key (lcp_mutations plan) ∅).
Proof.
  unfold final_of_plan, insert_all. intros Hp Hs. induction (lcp_mutations plan) as [|m l IH] using rev_ind; [done|].
  apply Forall_app in Hp as [Hp (Hv & Hr)%Forall_inv]. rewrite each_row_app, IH; [|done|eapply strictly_sublist; [apply sublist_inserts_r; done|done]].
  cbn [mbind result_bind each_row]. rewrite (proj2 (Z.eqb_eq _ _) Hv), !(proj2 (Z.ltb_ge _ _)) by lia. cbn [negb orb].
  rewrite fold_left_app. cbn [fold_left].
  pose proof (insert_all_lookup mutation_key l (mutation_key m)) as E. unfold insert_all in E. rewrite E.
  destruct (last_of mutation_key (mutation_key m) l) as [old|] eqn:Eo; [|done].
  rewrite (proj2 (Z.ltb_lt _ _)); [done|]. unfold last_of in Eo. apply last_Some_elem_of, list_elem_of_filter in Eo as [_ Ho].
  clear -Hs Ho. apply list_elem_of_split in Ho as (l1 & l2 & ->). induction l1 as [|x l1 IH]; apply StronglySorted_inv in Hs as [Hs Hx].
  - rewrite Forall_forall in Hx. apply Hx. set_solver.
  - by apply IH.
Qed.

Lemma last_of_newest l x y :
  StronglySorted earlier l -> x ∈ l -> last_of mutation_key (mutation_key x) l = Some y -> smu_revision x <= smu_revision y.
Proof.
  intros Hs. induction Hs as [|z l Hs IH Hz]; [by intros []%not_elem_of_nil|]. rewrite last_of_cons. intros [->|Hx]%elem_of_cons E.
  - destruct (last_of _ _ l) as [y'|] eqn:Ey; [|rewrite decide_True in E by done; injection E as <-; lia]. injection E as <-.
    unfold last_of in Ey. apply last_Some_elem_of, list_elem_of_filter in Ey as [_ Hy]. rewrite Forall_forall in Hz. specialize (Hz _ Hy).
    unfold earlier in Hz. lia.
  - destruct (last_of _ _ l) as [y'|] eqn:Ey; [injection E as <-; by apply IH|]. apply last_of_None in Ey. destruct Ey. by apply list_elem_of_fmap_2.
Qed.
(** Two parts of a journal with the same mutations are one. *)
Lemma strictly_unique_elems l l1 l2 :
  StronglySorted earlier l -> l1 `sublist_of` l -> l2 `sublist_of` l -> (forall m, m ∈ l1 <-> m ∈ l2) -> l1 = l2.
Proof.
  intros Hs H1 H2 He.
  assert (Hnd : NoDup l) by (clear -Hs; induction Hs as [|x l Hs IH Hx]; constructor; [|done]; intros Hin;
    rewrite Forall_forall in Hx; specialize (Hx _ Hin); unfold earlier in Hx; lia).
  eapply (StronglySorted_unique_strong earlier).
  - intros x y _ _. unfold earlier. lia.
  - by eapply strictly_sublist.
  - by eapply strictly_sublist.
  - apply NoDup_Permutation; [by eapply sublist_NoDup..|done].
Qed.

(** The rows the plan's query leaves are the last of each key. *)
Lemma newest_keep_last l : StronglySorted earlier l -> newest_mutations l = keep_last mutation_key l.
Proof.
  intros Hs. assert (Hn : forall m, m ∈ newest_mutations l <-> m ∈ keep_last mutation_key l).
  { intros m. unfold newest_mutations. rewrite list_elem_of_filter, keep_last_elem, Is_true_true, forallb_forall. split.
    - intros [Hf Hm]. destruct (last_of mutation_key (mutation_key m) l) as [y|] eqn:Ey.
      + f_equal. assert (Hy := Ey). unfold last_of in Hy. apply last_Some_elem_of, list_elem_of_filter in Hy as [Hk Hy].
        specialize (Hf y (proj1 (list_elem_of_In _ _) Hy)). rewrite Hk, bool_decide_true in Hf by done. cbn in Hf.
        apply negb_true_iff, Z.ltb_ge in Hf. pose proof (last_of_newest l m y Hs Hm Ey). apply (strictly_once l); [done..|lia].
      + apply last_of_None in Ey. destruct Ey. by apply list_elem_of_fmap_2.
    - intros Ey. assert (Hm := Ey). unfold last_of in Hm. apply last_Some_elem_of, list_elem_of_filter in Hm as [_ Hm]. split; [|done].
      intros y Hy%list_elem_of_In. case_bool_decide as Hk; [|done]. cbn. apply negb_true_iff, Z.ltb_ge.
      apply (last_of_newest l y m Hs Hy). by rewrite Hk. }
  assert (Hsub : newest_mutations l `sublist_of` l) by apply sublist_filter.
  apply (strictly_unique_elems l); [done|done|apply keep_last_sublist|done].
Qed.

(** ** Compaction *)

Section Compaction.
Context `{RowJson}.

Lemma rows_nonempty d : count_rows [length (pdl_cars d); length (pdl_car_settings d); length (pdl_drives d); length (pdl_positions d);
  length (pdl_charges d); length (pdl_charge_samples d); length (pdl_states d); length (pdl_updates d); length (pdl_tombstones d)] = Ok 0 ->
  delta_changes d = [].
Proof.
  unfold count_rows. cbn [fold_left]. intros E.
  assert (Hz : forall (r : result ProjectionPackError Z) n, (t ← r; if u64_max <? t + Z.of_nat n then Err PeTooManyRows else Ok (t + Z.of_nat n)) = Ok 0 ->
    (forall t, r = Ok t -> 0 <= t) -> r = Ok 0 /\ n = 0%nat).
  { intros r n Er Hr. destruct r as [t|e]; [|done]. cbn [mbind result_bind] in Er. specialize (Hr t eq_refl).
    destruct (u64_max <? _); [done|]. injection Er as Er. split; [f_equal|]; lia. }
  assert (Hp : forall (r : result ProjectionPackError Z) n, (forall t, r = Ok t -> 0 <= t) ->
    forall t, (t ← r; if u64_max <? t + Z.of_nat n then Err PeTooManyRows else Ok (t + Z.of_nat n)) = Ok t -> 0 <= t).
  { intros r n Hr t. destruct r as [t'|e]; [|done]. cbn [mbind result_bind]. specialize (Hr t' eq_refl).
    destruct (u64_max <? _); [done|]. intros [= <-]. lia. }
  assert (H0 : forall t, Ok 0 = @Ok ProjectionPackError Z t -> 0 <= t) by (intros t [= <-]; lia).
  apply Hz in E as [E E9]; [|repeat apply Hp; exact H0]. apply Hz in E as [E E8]; [|repeat apply Hp; exact H0].
  apply Hz in E as [E E7]; [|repeat apply Hp; exact H0]. apply Hz in E as [E E6]; [|repeat apply Hp; exact H0].
  apply Hz in E as [E E5]; [|repeat apply Hp; exact H0]. apply Hz in E as [E E4]; [|repeat apply Hp; exact H0].
  apply Hz in E as [E E3]; [|repeat apply Hp; exact H0]. apply Hz in E as [E E2]; [|repeat apply Hp; exact H0].
  apply Hz in E as [_ E1]; [|exact H0]. unfold delta_changes.
  rewrite (nil_length_inv _ E1), (nil_length_inv _ E2), (nil_length_inv _ E3), (nil_length_inv _ E4), (nil_length_inv _ E5),
    (nil_length_inv _ E6), (nil_length_inv _ E7), (nil_length_inv _ E8), (nil_length_inv _ E9). done.
Qed.

(** A delta of a nonempty journal has a row: a patch is left out only beside its car. *)
Lemma delta_of_nonempty st l binding sequence parent :
  Forall well_formed l -> l <> [] -> delta_is_empty (delta_of (car_upserts_of l) st l (empty_delta binding sequence parent)) = false.
Proof.
  intros Hw Hne. unfold delta_is_empty, delta_row_count. destruct (count_rows _) as [n|e] eqn:En; [|done].
  destruct (Z.eqb_spec n 0) as [->|]; [|done]. exfalso. apply rows_nonempty in En. rewrite delta_changes_of in En.
  assert (Hone : forall m c, m ∈ l -> mutation_change m = Some c -> is_patch c = false -> False).
  { intros m c Hm Hc Hp. assert (Hparts := parts_one (car_upserts_of l) st m c Hc).
    assert (Hx : exists c', c' ∈ parts_of (delta_parts (car_upserts_of l) st) [m]).
    { rewrite Hparts. destruct c as [[]|id s|e id]; cbn in Hp; try done; eexists; by left. }
    destruct Hx as [c' Hx]. assert (Hin : c' ∈ parts_of (delta_parts (car_upserts_of l) st) l).
    { unfold parts_of in *. apply list_elem_of_In, in_concat in Hx as (cs & Hcs & Hc'). apply in_map_iff in Hcs as (part & <- & Hpart).
      apply list_elem_of_In, in_concat. exists (omap part l). split; [by apply (in_map (fun part => omap part l))|]. apply list_elem_of_In, list_elem_of_omap.
      apply list_elem_of_In, list_elem_of_omap in Hc' as (m' & ->%list_elem_of_singleton & Hm'). by exists m. }
    rewrite En in Hin. by apply not_elem_of_nil in Hin. }
  destruct l as [|m l]; [done|]. apply Forall_cons in Hw as [[c Hc] Hw]. destruct (is_patch c) eqn:Hp; [|by eapply (Hone m c); [left|..]].
  destruct c as [|id s|]; try done. assert (Hx : Patch id s ∈ parts_of (delta_parts (car_upserts_of (m :: l)) st) (m :: l)).
  { assert (Hid : bool_decide (id ∈ car_upserts_of (m :: l)) = false).
    { apply bool_decide_eq_false. rewrite car_upserts_touching by (constructor; [by eexists|done]). intros (m' & r & Hm' & Hr).
      apply list_elem_of_filter in Hm' as [_ Hm']. by eapply Hone. }
    unfold parts_of. apply list_elem_of_In, in_concat. eexists. split.
    - apply (in_map (fun part => omap part (m :: l))), list_elem_of_In. unfold delta_parts. do 7 right. left.
    - apply list_elem_of_In, list_elem_of_omap. exists m. split; [left|]. unfold patch_of. rewrite Hc, Hid. done. }
  rewrite En in Hx. by apply not_elem_of_nil in Hx.
Qed.

(** C4: Compacting a contiguous run of the journal loses nothing: for a plan over a run of
    well-formed mutations in revision order, the delta the Hub builds from the newest
    mutation of each row exists, spans the plan's sequences over its anchor, and leaves
    every mirror exactly as replaying the whole run one mutation at a time does, a car
    and its settings included whichever came last. *)
Theorem compaction_replays_the_journal plan binding journal :
  StronglySorted earlier journal -> Forall well_formed journal -> journal <> [] -> Forall (in_plan plan) journal ->
  lcp_mutations plan = newest_mutations journal ->
  lcp_vehicle_id plan = pb_vehicle_id binding -> lcp_anchor_sequence plan < lcp_head_sequence plan ->
  0 < lcp_from_revision plan <= lcp_to_revision plan ->
  exists d, projection_delta_for_compaction plan binding = Ok d
  /\ pdl_binding d = binding /\ pdl_sequence d = MkSequenceRange (lcp_anchor_sequence plan) (lcp_head_sequence plan)
  /\ pdl_parent_digest d = lcp_anchor_digest plan
  /\ forall m, apply_delta d m = replay journal m.
Proof.
  intros Hs Hw Hne Hp Hm Hv Ha Hr. rewrite newest_keep_last in Hm by done.
  set (l := keep_last mutation_key journal) in *. assert (Hsub : l `sublist_of` journal) by apply keep_last_sublist.
  assert (Hsl : StronglySorted earlier l) by by eapply strictly_sublist.
  assert (Hwl : Forall well_formed l) by (by apply (Forall_in_sublist _ journal)).
  assert (Hnl : NoDup (map mutation_key l)) by apply keep_last_NoDup.
  assert (Hll : keep_last mutation_key l = l).
  { clear -Hnl. induction l as [|x l IH]; [done|]. cbn [map] in Hnl. apply NoDup_cons in Hnl as [Hx Hn]. cbn [keep_last].
    rewrite bool_decide_false by done. by rewrite IH. }
  assert (Hnel : l <> []).
  { destruct journal as [|x j]; [done|]. intros E. assert (Hx : mutation_key x ∈ map mutation_key l).
    { apply keep_last_keys. left. } rewrite E in Hx. by apply not_elem_of_nil in Hx. }
  unfold projection_delta_for_compaction. rewrite (proj2 (Z.eqb_eq _ _) Hv), (proj2 (Z.leb_gt _ _) Ha), (proj2 (Z.leb_gt _ _)), (proj2 (Z.ltb_ge _ _)) by lia.
  cbn [negb orb]. rewrite final_of_plan_ok by (rewrite Hm; by apply (Forall_in_sublist _ journal) || done).
  cbn [mbind result_bind]. rewrite Hm, ordered_final, Hll by done.
  destruct (settings_of_ok l Hwl) as (st & Est & _). rewrite Est. cbn [mbind result_bind]. rewrite push_payloads_ok by done.
  cbn [mbind result_bind]. fold (car_upserts_of l). rewrite delta_of_nonempty by done.
  eexists. split; [done|]. split; [done|]. split; [done|]. split; [done|]. intros m.
  rewrite delta_of_replays by done. by apply replay_keep_last.
Qed.
End Compaction.

(** ** An instance: a car, its settings and two states *)

Definition sample_car : ProjectionCar :=
  MkProjectionCar 7 "Blue" "Model 3" None None None None None None None None None None new_live.
(** A state's payload is its identifier; every car is the sample car. *)
Definition sample_rows : RowJson := {|
  read_car _ := Some sample_car;
  read_settings s := Some (if bool_decide (s = "off") then source_column_defaults else new_live);
  read_drive _ := None; read_position _ := None; read_charge _ := None; read_charge_sample _ := None;
  read_state s := (fun id => MkProjectionState id 7 "online" 1000 None) <$> digits_value s;
  read_update _ := None;
|}.
Definition sample_journal : list SyncMutation :=
  [MkSyncMutation 3 11 "state" 3 7 "upsert" "3"; MkSyncMutation 3 12 "car" 7 7 "upsert" "{}"; MkSyncMutation 3 13 "car_setting" 7 7 "upsert" "off";
   MkSyncMutation 3 14 "state" 3 7 "tombstone" "{}"; MkSyncMutation 3 15 "state" 4 7 "upsert" "4"].
Definition sample_binding : ProjectionBinding := MkProjectionBinding 1 2 3 1 7.
Definition sample_plan : LiveDeltaCompactionPlan :=
  MkLiveDeltaCompactionPlan 3 22 20 "anchor" 25 "head" 2 11 15 (newest_mutations sample_journal) [].

Lemma compaction_replays_the_journal_witness :
  let R := sample_rows in
  length (lcp_mutations sample_plan) = 4%nat
  /\ exists d, projection_delta_for_compaction sample_plan sample_binding = Ok d
     /\ map (fun c => pcar_settings c) (pdl_cars d) = [source_column_defaults] /\ pdl_car_settings d = []
     /\ apply_delta d ∅ = replay sample_journal ∅.
Proof.
  intros R. split; [reflexivity|].
  destruct (@compaction_replays_the_journal R sample_plan sample_binding sample_journal) as (d & Hd & _ & _ & _ & Hr).
  - repeat constructor; reflexivity.
  - repeat constructor; eexists; reflexivity.
  - discriminate.
  - repeat constructor; cbn; lia.
  - reflexivity.
  - reflexivity.
  - cbn; lia.
  - cbn; lia.
  - exists d. split; [exact Hd|]. assert (E : Ok d = projection_delta_for_compaction sample_plan sample_binding) by (symmetry; exact Hd).
    clear Hd. vm_compute in E. injection E as ->. split; [reflexivity|]. split; [reflexivity|]. apply Hr.
Defined.

(** ** Sync deltas: the delta of a claim

    The delta the Hub publishes for a claim of the journal brings a mirror that lags in
    the claimed rows alone to exactly the materialised rows. *)

Section Publish.
Context `{R : RowJson}.
Variable tables : MaterialisedTables.
Variable vehicle : Uuid.

(** ** The rows of the tables *)

(** The table a mutation's row is read from. *)
Definition entity_table (e : ProjectionDeltaEntity) : gmap (Uuid * Z) string :=
  match e with
  | DeCar | DeCarSetting => mat_cars tables
  | DeDrive => mat_drives tables
  | DePosition => mat_positions tables
  | DeCharge => mat_charges tables
  | DeChargeSample => mat_charge_samples tables
  | DeState => mat_states tables
  | DeUpdate => mat_updates tables
  | DeGeofence | DeAddress => ∅
  end.
Definition read_entity (e : ProjectionDeltaEntity) (json : string) : option Row :=
  match e with
  | DeCar | DeCarSetting => RowCar <$> read_car json
  | DeDrive => RowDrive <$> read_drive json
  | DePosition => RowPosition <$> read_position json
  | DeCharge => RowCharge <$> read_charge json
  | DeChargeSample => RowChargeSample <$> read_charge_sample json
  | DeState => RowState <$> read_state json
  | DeUpdate => RowUpdate <$> read_update json
  | DeGeofence | DeAddress => None
  end.
(** The row a mirror should hold in a slot. *)
Definition stored_row (k : Slot) : option Row :=
  if bool_decide (k.1 = DeCarSetting) then None else json ← entity_table k.1 !! (vehicle, k.2); read_entity k.1 json.
(** The slot a mutation's row stands in. *)
Definition slot_entity (e : ProjectionDeltaEntity) : ProjectionDeltaEntity := match e with DeCarSetting => DeCar | _ => e end.

(** A mutation the tables agree with: the row it wrote is there under its own identifier,
    the row it removed is not. *)
Definition settled (m : SyncMutation) : Prop :=
  exists e, parse_sync_entity (smu_entity m) = Some e /\ smu_vehicle_id m = vehicle
  /\ ((smu_operation m = "tombstone" /\ is_some (source_owned_tombstone_order e) = true /\ stored_row (e, smu_entity_id m) = None)
      \/ (smu_operation m = "upsert"
          /\ exists row, stored_row (slot_entity e, smu_entity_id m) = Some row /\ row_id row = smu_entity_id m /\ row_entity row = slot_entity e)).

(** ** The journal the tables stand for *)

(** The settings of a car are read from its row. *)
#[local] Instance row_settings : RowJson := {|
  read_car := read_car; read_settings json := pcar_settings <$> read_car json; read_drive := read_drive; read_position := read_position;
  read_charge := read_charge; read_charge_sample := read_charge_sample; read_state := read_state; read_update := read_update;
|}.
(** A mutation with the row of the tables as its payload. *)
Definition refreshed (m : SyncMutation) : SyncMutation :=
  MkSyncMutation (smu_vehicle_id m) (smu_revision m) (smu_entity m) (smu_entity_id m) (smu_car_id m) (smu_operation m)
    (default "" (e ← parse_sync_entity (smu_entity m); entity_table e !! (smu_vehicle_id m, smu_entity_id m))).

Lemma read_entity_kind e json row : read_entity e json = Some row -> row_entity row = slot_entity e.
Proof. destruct e; cbn; try done; intros (x & _ & ->)%fmap_Some; done. Qed.

(** What a settled mutation changes, once its payload is the row. *)
Definition settled_change (m : SyncMutation) (c : Change) : Prop :=
  change_slot c = (match parse_sync_entity (smu_entity m) with Some e => slot_entity e | None => DeCar end, smu_entity_id m)
  /\ match c with
     | Upsert row => stored_row (change_slot c) = Some row
     | Patch id s => exists car, stored_row (DeCar, id) = Some (RowCar car) /\ pcar_settings car = s
     | Remove e id => stored_row (e, id) = None
     end.
Lemma refreshed_change m : settled m -> exists c, mutation_change (refreshed m) = Some c /\ settled_change m c.
Proof.
  intros (e & He & Hv & Hop). unfold mutation_change, refreshed, settled_change. cbn [smu_entity smu_payload_json smu_entity_id smu_operation].
  rewrite He. cbn [mbind option_bind]. rewrite Hv. destruct Hop as [(Ho & Hs & Hn)|(Ho & row & Hrow & Hid & Hent)].
  - rewrite Ho. rewrite bool_decide_true by done. rewrite Hs. eexists. split; [done|]. split; [|done]. by destruct e.
  - rewrite Ho. rewrite bool_decide_false by done. rewrite bool_decide_true by done.
    unfold stored_row in Hrow. rewrite bool_decide_false in Hrow by (by destruct e). cbn [fst snd] in Hrow.
    apply bind_Some in Hrow as (json & Hj & Hread).
    assert (Hj' : entity_table e !! (vehicle, smu_entity_id m) = Some json) by (by destruct e). rewrite Hj'. cbn [default from_option id].
    assert (Hst : stored_row (slot_entity e, smu_entity_id m) = Some row).
    { unfold stored_row. rewrite bool_decide_false by (by destruct e). cbn [fst snd]. rewrite Hj. done. }
    destruct e; cbn in Hread; try done; apply fmap_Some in Hread as (x & Hx & ->); cbn in Hid;
      unfold row_change; cbn [read_car read_settings read_drive read_position read_charge read_charge_sample read_state read_update row_settings];
      rewrite Hx; cbn [fmap option_fmap option_map mbind option_bind row_id]; rewrite ?Hid, ?Z.eqb_refl; eexists; (split; [reflexivity|]);
      cbn [change_slot row_entity row_id slot_entity]; rewrite ?Hid; (split; [done|]); try done.
    exists x. done.
Qed.
(** ** The delta of the claim is the delta of that journal *)

(** Settings of the journal, which the rows of the cars already carry. *)
Definition settings_match (st : gmap Z (Z * ProjectionCarSettings)) : Prop :=
  forall id rev s car, st !! id = Some (rev, s) -> stored_row (DeCar, id) = Some (RowCar car) -> pcar_settings car = s.

Lemma compacted_car_same st m car :
  settings_match st -> stored_row (DeCar, smu_entity_id m) = Some (RowCar car) -> compacted_car st m car = car.
Proof.
  intros Hst Hcar. unfold compacted_car. destruct (st !! smu_entity_id m) as [[rev s]|] eqn:E; [|done].
  destruct (_ <? rev); [|done]. rewrite <- (Hst _ _ _ _ E Hcar). by destruct car.
Qed.

Lemma stored_slot e id row : e <> DeCarSetting -> stored_row (e, id) = Some row ->
  exists json, entity_table e !! (vehicle, id) = Some json /\ read_entity e json = Some row.
Proof.
  intros He Hr. unfold stored_row in Hr. rewrite bool_decide_false in Hr by done. cbn [fst snd] in Hr.
  by apply bind_Some in Hr as (json & Hj & Hr); exists json.
Qed.

Lemma push_row_refreshed has_car ups st d m :
  settled m -> settings_match st -> (smu_entity m = "car_setting" -> has_car = bool_decide (smu_entity_id m ∈ ups)) ->
  @push_row R tables has_car d m = @push_payload row_settings ups st d (refreshed m).
Proof.
  intros (e & He & Hv & Hop) Hst Hc. unfold push_row, push_payload, push_mutation. cbn [refreshed smu_entity smu_payload_json smu_entity_id smu_operation smu_car_id].
  rewrite He. cbn [ok_or mbind result_bind option_bind].
  destruct Hop as [(-> & _)|(-> & row & Hrow & _)]; [by rewrite !bool_decide_true by done|].
  rewrite bool_decide_false by done. rewrite bool_decide_true by done. cbn [negb].
  destruct (stored_slot (slot_entity e) _ _ ltac:(by destruct e) Hrow) as (json & Hj & Hread).
  destruct e; cbn [slot_entity read_entity] in Hread, Hrow, Hj; try done; apply fmap_Some in Hread as (x & Hx & ->);
    unfold load_projection_json; rewrite Hv; cbn [entity_table] in Hj |- *; rewrite Hj; cbn [ok_or mbind result_bind default from_option id];
    cbn [read_car read_settings read_drive read_position read_charge read_charge_sample read_state read_update row_settings];
    rewrite Hx; cbn [parsed ok_or mbind result_bind fmap option_fmap option_map]; try done.
  - rewrite (compacted_car_same st (refreshed m) x) by done. done.
  - apply parse_sync_entity_iff in He. rewrite <- He in Hc. rewrite Hc by done. by destruct (bool_decide _).
Qed.

Lemma push_rows_refreshed has_car ups st l d :
  Forall settled l -> settings_match st -> (forall m, m ∈ l -> smu_entity m = "car_setting" -> has_car = bool_decide (smu_entity_id m ∈ ups)) ->
  each_row (@push_row R tables has_car) d l = each_row (@push_payload row_settings ups st) d (map refreshed l).
Proof.
  intros Hl Hst. revert d. induction Hl as [|m l Hm Hl IH]; intros d Hc; [done|]. cbn [each_row map].
  rewrite (push_row_refreshed has_car ups st d m) by (done || (apply Hc; left)).
  destruct (push_payload _ _ _ _) as [d'|e]; [|done]. cbn [mbind result_bind]. apply IH. intros; apply Hc; [by right|done].
Qed.

Lemma refreshed_well_formed l : Forall settled l -> Forall (@well_formed row_settings) (map refreshed l).
Proof.
  intros Hl. apply Forall_forall. intros ? (m & -> & Hm)%list_elem_of_fmap. rewrite Forall_forall in Hl.
  destruct (refreshed_change m (Hl m Hm)) as (c & Hc & _). by exists c.
Qed.
Lemma refreshed_keys l : map mutation_key (map refreshed l) = map mutation_key l.
Proof. rewrite map_map. by apply map_ext. Qed.
Lemma refreshed_sorted l : StronglySorted earlier l -> StronglySorted earlier (map refreshed l).
Proof.
  induction 1 as [|m l Hs IH Hm]; cbn [map]; constructor; [done|]. apply Forall_map. eapply Forall_impl; [exact Hm|]. by intros x Hx.
Qed.

(** The settings of that journal are those of the rows. *)
Lemma refreshed_settings l : Forall settled l ->
  exists st, @settings_of row_settings (map refreshed l) = Ok st /\ settings_match st.
Proof.
  intros Hl. destruct (@settings_of_ok row_settings (map refreshed l) (refreshed_well_formed l Hl)) as (st & E & Hst).
  exists st. split; [done|]. intros id rev s car Hid Hcar. rewrite Hst in Hid.
  apply last_Some_elem_of, list_elem_of_omap in Hid as (m' & (m & -> & Hm)%list_elem_of_fmap & Hp).
  rewrite Forall_forall in Hl. destruct (refreshed_change m (Hl m Hm)) as (c & Hc & _ & Hcase). unfold patch_at in Hp. rewrite Hc in Hp.
  destruct c as [|i s'|]; try done. destruct (Z.eqb_spec i id) as [->|]; [|done]. injection Hp as <- <-.
  destruct Hcase as (car' & Hcar' & <-). congruence.
Qed.
(** ** What publication does to a mirror *)

Definition slot_of (m : SyncMutation) : option Slot :=
  e ← parse_sync_entity (smu_entity m); Some (slot_entity e, smu_entity_id m).
(** A mirror that lags behind the tables in the rows of some mutations alone; where only
    the settings of a car were claimed, in those settings alone. *)
Definition lags_in (mutations : list SyncMutation) (m : Mirror) : Prop :=
  (forall k, (forall mu, mu ∈ mutations -> slot_of mu <> Some k) -> m !! k = stored_row k)
  /\ (forall id, (forall mu, mu ∈ mutations -> mutation_key mu <> ("car", id)) ->
        same_but_settings (m !! (DeCar, id)) (stored_row (DeCar, id))).
(** One vehicle has one car. *)
Definition one_car (car : Z) (mutations : list SyncMutation) : Prop :=
  forall m, m ∈ mutations -> smu_entity m = "car" \/ smu_entity m = "car_setting" -> smu_entity_id m = car.

Lemma same_key_slot m m' : mutation_key m = mutation_key m' -> slot_of m = slot_of m'.
Proof. unfold mutation_key, slot_of. by intros [= -> ->]. Qed.
Lemma kept_slot ms m k : m ∈ ms -> slot_of m = Some k -> exists m', m' ∈ keep_last mutation_key ms /\ mutation_key m' = mutation_key m.
Proof.
  intros Hm _. assert (Hk : mutation_key m ∈ map mutation_key (keep_last mutation_key ms)) by (apply keep_last_keys; by apply list_elem_of_fmap_2).
  apply list_elem_of_fmap in Hk as (m' & E & Hm'). by exists m'.
Qed.

(** A settled mutation touches the slot its row stands in. *)
Lemma settled_touches m k : settled m -> slot_of m = Some k -> @touches row_settings k (refreshed m) = true.
Proof.
  intros Hs Hk. destruct (refreshed_change m Hs) as (c & Hc & Hslot & _). rewrite (@touches_spec row_settings _ _ _ Hc).
  apply bool_decide_eq_true. rewrite Hslot. unfold slot_of in Hk. destruct (parse_sync_entity (smu_entity m)) as [e|]; [|done]. by injection Hk.
Qed.

Lemma touched_row m k c : settled m -> @mutation_change row_settings (refreshed m) = Some c -> change_slot c = k ->
  match c with
  | Upsert row => stored_row k = Some row
  | Patch _ s => exists car, stored_row k = Some (RowCar car) /\ pcar_settings car = s
  | Remove _ _ => stored_row k = None
  end.
Proof.
  intros Hs Hc Hk. destruct (refreshed_change m Hs) as (c' & Hc' & _ & Hcase). rewrite Hc in Hc'. injection Hc' as <-.
  destruct c; subst k; done.
Qed.

Lemma stored_car id row : stored_row (DeCar, id) = Some row -> exists car, row = RowCar car.
Proof.
  unfold stored_row. rewrite bool_decide_false by done. cbn [fst snd]. intros (json & _ & Hr)%bind_Some. cbn in Hr.
  apply fmap_Some in Hr as (car & _ & ->). by exists car.
Qed.

Section Claim.
Context (ms l : list SyncMutation) (m : Mirror).
Hypothesis Hl : l = keep_last mutation_key ms.
Hypothesis Hset : Forall settled l.
Hypothesis Hlag : lags_in ms m.

Lemma untouched_slot k : filter (fun mu => @touches row_settings k mu) (map refreshed l) = [] -> m !! k = stored_row k.
Proof using Hl Hset Hlag.
  intros Hf. apply Hlag. intros mu Hmu Hk. destruct (kept_slot ms mu k Hmu Hk) as (mu' & Hin & Hkey). rewrite <- Hl in Hin.
  rewrite Forall_forall in Hset. pose proof (settled_touches mu' k (Hset _ Hin)) as Ht. rewrite (same_key_slot _ _ Hkey) in Ht.
  specialize (Ht Hk). assert (Hx : refreshed mu' ∈ filter (fun mu => @touches row_settings k mu) (map refreshed l)).
  { apply list_elem_of_filter. rewrite Ht. split; [done|]. by apply list_elem_of_fmap_2. }
  rewrite Hf in Hx. by apply not_elem_of_nil in Hx.
Qed.

Lemma patched_slot id s x :
  filter (fun mu => @touches row_settings (DeCar, id) mu) (map refreshed l) = [x] -> @mutation_change row_settings x = Some (Patch id s) ->
  same_but_settings (m !! (DeCar, id)) (stored_row (DeCar, id)).
Proof using Hl Hset Hlag.
  intros Hf Hx. apply Hlag. intros mu Hmu Hkey.
  assert (Hk : slot_of mu = Some (DeCar, id)) by (unfold slot_of; unfold mutation_key in Hkey; by injection Hkey as -> ->).
  destruct (kept_slot ms mu _ Hmu Hk) as (mu' & Hin & Hkey'). rewrite <- Hl in Hin. rewrite Forall_forall in Hset.
  pose proof (settled_touches mu' (DeCar, id) (Hset _ Hin)) as Ht. rewrite (same_key_slot _ _ Hkey') in Ht. specialize (Ht Hk).
  assert (Hy : refreshed mu' ∈ filter (fun mu => @touches row_settings (DeCar, id) mu) (map refreshed l)).
  { apply list_elem_of_filter. rewrite Ht. split; [done|]. by apply list_elem_of_fmap_2. }
  rewrite Hf in Hy. apply list_elem_of_singleton in Hy as <-. apply (@mutation_change_key row_settings) in Hx as [Hx _].
  assert (Hz : mutation_key (refreshed mu') = ("car", id)) by (by rewrite <- Hkey, <- Hkey'). rewrite Hx in Hz. cbn in Hz. by injection Hz.
Qed.

(** Replaying the rows of the tables brings every slot up to them. *)
Lemma refreshed_replay_stored k : NoDup (map mutation_key l) -> @replay row_settings (map refreshed l) m !! k = stored_row k.
Proof using Hl Hset Hlag.
  intros Hn. rewrite (@replay_lookup row_settings).
  assert (Ht : @touching row_settings k (filter (fun mu => @touches row_settings k mu) (map refreshed l))).
  { apply (@touching_filter row_settings); [by apply refreshed_well_formed|by rewrite refreshed_keys]. }
  remember (filter (fun mu => @touches row_settings k mu) (map refreshed l)) as L eqn:HL. symmetry in HL.
  assert (Hin : forall x, x ∈ L -> exists mu, x = refreshed mu /\ settled mu).
  { intros x Hx. rewrite <- HL in Hx. apply list_elem_of_filter in Hx as [_ (mu & -> & Hmu)%list_elem_of_fmap].
    rewrite Forall_forall in Hset. eauto. }
  destruct Ht as [|a c Ha Hk|a ca b cb Ha Ka Hb Kb Hp].
  - by apply untouched_slot.
  - destruct (Hin a ltac:(left)) as (mu & -> & Hmu). pose proof (touched_row mu k c Hmu Ha Hk) as Hrow. cbn [omap list_omap]. rewrite Ha.
    cbn [fold_left]. destruct c as [row|id s|e id]; cbn [apply_slot]; [done| |done]. cbn in Hk. rewrite <- Hk in *.
    rewrite (patched_slot id s _ HL Ha s). destruct Hrow as (car & -> & <-). cbn. by destruct car.
  - destruct (Hin a ltac:(left)) as (ma & -> & Hma). destruct (Hin b ltac:(right; left)) as (mb & -> & Hmb).
    pose proof (touched_row ma k ca Hma Ha Ka) as Hra. pose proof (touched_row mb k cb Hmb Hb Kb) as Hrb.
    cbn [omap list_omap]. rewrite Ha, Hb. cbn [fold_left].
    destruct cb as [row|id s|e id]; cbn [apply_slot]; [done| |done]. destruct ca as [row|id' s'|e id']; cbn in Hp; try done; cbn [apply_slot].
    rewrite Hra in *. destruct Hrb as (car & E & <-). injection E as ->. cbn. by destruct car.
Qed.
End Claim.

Lemma one_car_upserts car l : Forall settled l -> one_car car l -> forall m, m ∈ l -> smu_entity m = "car_setting" ->
  existsb (is_upsert "car") l = bool_decide (smu_entity_id m ∈ @car_upserts_of (map refreshed l)).
Proof.
  intros Hs Hone m Hm He. rewrite (Hone m Hm) by auto. symmetry. destruct (existsb _ _) eqn:Hx.
  - apply bool_decide_eq_true. apply existsb_exists in Hx as (x & Hx%list_elem_of_In & Hu). unfold car_upserts_of.
    apply list_elem_of_fmap. exists (refreshed x). split.
    + cbn. symmetry. apply Hone; [done|]. left. unfold is_upsert in Hu. apply andb_true_iff in Hu as [Hu _]. by apply bool_decide_eq_true in Hu.
    + apply list_elem_of_filter. split; [by apply Is_true_true|]. by apply list_elem_of_fmap_2.
  - apply bool_decide_eq_false. unfold car_upserts_of. intros (x & _ & [Hu Hin]%list_elem_of_filter)%list_elem_of_fmap.
    apply list_elem_of_fmap in Hin as (y & -> & Hy). assert (Ht : existsb (is_upsert "car") l = true).
    { apply existsb_exists. exists y. split; [by apply list_elem_of_In|]. by apply Is_true_true in Hu. }
    congruence.
Qed.

(** C10: Publishing a claim brings a mirror up to date: when the newest mutation of every row
    claimed agrees with the materialised tables (collection may have gone on past the
    claim) and the mirror lags in the claimed rows alone, the delta the Hub publishes
    exists and applied to that mirror gives in every slot exactly the row the tables
    hold. *)
Theorem claim_delta_catches_up car claim binding sequence parent m :
  StronglySorted earlier (smc_mutations claim) -> Forall settled (newest_mutations (smc_mutations claim)) ->
  one_car car (smc_mutations claim) -> lags_in (smc_mutations claim) m ->
  exists d, @projection_delta_for_mutations R tables claim binding sequence parent = Ok d
  /\ pdl_binding d = binding /\ pdl_sequence d = sequence /\ pdl_parent_digest d = parent
  /\ forall k, apply_delta d m !! k = stored_row k.
Proof.
  intros Hs Hset Hone Hlag. rewrite newest_keep_last in Hset by done. set (l := keep_last mutation_key (smc_mutations claim)) in *.
  assert (Hsub : l `sublist_of` smc_mutations claim) by apply keep_last_sublist.
  assert (Hsl : StronglySorted earlier l) by by eapply strictly_sublist.
  assert (Hnl : NoDup (map mutation_key l)) by apply keep_last_NoDup.
  assert (Hone' : one_car car l) by (intros mu Hmu; apply Hone; by eapply elem_of_sublist).
  unfold projection_delta_for_mutations. change (final_of_claim (smc_mutations claim)) with (insert_all mutation_key (smc_mutations claim) ∅).
  rewrite ordered_final by done. fold l. destruct (refreshed_settings l Hset) as (st & Est & Hst).
  rewrite (push_rows_refreshed _ (car_upserts_of (map refreshed l)) st l _ Hset Hst (one_car_upserts car l Hset Hone')).
  rewrite (@push_payloads_ok row_settings) by by apply refreshed_well_formed.
  eexists. split; [done|]. split; [done|]. split; [done|]. split; [done|]. intros k.
  rewrite (@delta_of_replays row_settings (map refreshed l) st);
    [|by apply refreshed_well_formed|by rewrite refreshed_keys|by apply refreshed_sorted|done].
  by apply (refreshed_replay_stored (smc_mutations claim) l m eq_refl Hset Hlag).
Qed.
End Publish.

(** ** An instance: the sample journal published to an empty mirror *)

Definition sample_tables : MaterialisedTables :=
  MkMaterialisedTables {[ (3, 7) := "{}" ]} ∅ ∅ ∅ ∅ {[ (3, 4) := "4" ]} ∅.
Definition sample_claim : SyncMutationClaim := MkSyncMutationClaim 3 11 15 sample_journal.

Lemma sample_lags : let R := sample_rows in lags_in sample_tables 3 sample_journal ∅.
Proof.
  intros R. assert (Hin : forall k mu, mu ∈ sample_journal -> slot_of mu = Some k -> (forall mu, mu ∈ sample_journal -> slot_of mu <> Some k) -> False)
    by (intros k mu Hm Hk Hn; exact (Hn mu Hm Hk)).
  split.
  - intros [e id] Hk. rewrite lookup_empty. symmetry. unfold stored_row. case_bool_decide as He; [done|]. cbn [fst snd] in *.
    destruct e; cbn [entity_table sample_tables mat_cars mat_drives mat_positions mat_charges mat_charge_samples mat_states mat_updates];
      rewrite ?lookup_empty; try done.
    + destruct (decide (id = 7)) as [->|Hne]; [|rewrite lookup_singleton_ne by congruence; done].
      exfalso. apply (Hin (DeCar, 7) (MkSyncMutation 3 12 "car" 7 7 "upsert" "{}")); [right; left|reflexivity|exact Hk].
    + destruct (decide (id = 4)) as [->|Hne]; [|rewrite lookup_singleton_ne by congruence; done].
      exfalso. apply (Hin (DeState, 4) (MkSyncMutation 3 15 "state" 4 7 "upsert" "4")); [do 4 right; left|reflexivity|exact Hk].
  - intros id Hk s. rewrite lookup_empty. unfold stored_row. rewrite bool_decide_false by done. cbn [fst snd entity_table sample_tables mat_cars].
    destruct (decide (id = 7)) as [->|Hne]; [|rewrite lookup_singleton_ne by congruence; done].
    exfalso. apply (Hk (MkSyncMutation 3 12 "car" 7 7 "upsert" "{}")); [right; left|reflexivity].
Qed.

Lemma claim_delta_catches_up_witness :
  let R := sample_rows in
  exists d, projection_delta_for_mutations sample_tables sample_claim sample_binding (MkSequenceRange 20 25) "parent" = Ok d
  /\ apply_delta d ∅ !! (DeState, 4) = Some (RowState (MkProjectionState 4 7 "online" 1000 None))
  /\ apply_delta d ∅ !! (DeState, 3) = None.
Proof.
  intros R. destruct (@claim_delta_catches_up R sample_tables 3 7 sample_claim sample_binding (MkSequenceRange 20 25) "parent" ∅)
    as (d & Hd & _ & _ & _ & Hk).
  - repeat constructor; reflexivity.
  - assert (E : newest_mutations (smc_mutations sample_claim) = tail sample_journal) by (vm_compute; reflexivity). rewrite E.
    repeat constructor.
    + exists DeCar. split; [reflexivity|]. split; [reflexivity|]. right. split; [reflexivity|]. eexists. split; [reflexivity|split; reflexivity].
    + exists DeCarSetting. split; [reflexivity|]. split; [reflexivity|]. right. split; [reflexivity|]. eexists. split; [reflexivity|split; reflexivity].
    + exists DeState. split; [reflexivity|]. split; [reflexivity|]. left. split; [reflexivity|split; reflexivity].
    + exists DeState. split; [reflexivity|]. split; [reflexivity|]. right. split; [reflexivity|]. eexists. split; [reflexivity|split; reflexivity].
  - intros mu Hmu Hcar. unfold sample_claim, sample_journal in Hmu. cbn [smc_mutations] in Hmu. rewrite !elem_of_cons in Hmu.
    destruct Hmu as [->|[->|[->|[->|[->|[]%not_elem_of_nil]]]]]; cbn in *; destruct Hcar; congruence.
  - apply sample_lags.
  - exists d. split; [exact Hd|]. split; rewrite Hk; reflexivity.
Defined.
