(* ===== verification/PackLife.v ===== *)
(** * Packs and the lifecycle: what a position row must satisfy to be published

    The lifecycle makes a position row of every observation with coordinates
    ([position_from_sample] of [LifeApply], [valid_coordinates] of [Geo]); the delta pack
    checks each row again ([delta_position] of [PackRules]).  The two agree on every
    field but the point (0, 0), which the lifecycle keeps and the pack refuses. *)
From S2P Require Import Prelude F64 External LifeData Geo LifeDrive LifeParse LifeSteps LifeApply LifeProject LifeInv LifeProps PackData PackRules SyncDelta SyncReader.
Local Open Scope string_scope.
Local Open Scope Z_scope.

(** ** Values that pass the checks *)

(** What the checks of a position row ask of the observation, besides the coordinates. *)
Record position_facts (p : ParsedSample) : Prop := MkPositionFacts {
  pf_time : 0 < p_drive_timestamp_ms p;
  pf_level : is_none_or (p_battery_level p) (in_range 0 100) = true;
  pf_usable : is_none_or (p_usable_battery_level p) (in_range 0 100) = true;
  pf_power : is_none_or (p_power p) f64_is_finite = true;
  pf_odometer : is_none_or (p_odometer p) (fun v => f64_is_finite v && f64_leb f64_zero v) = true;
  pf_ideal : is_none_or (p_ideal_range_km p) (fun v => f64_is_finite v && f64_leb f64_zero v) = true;
}.

Lemma contains_finite lo hi v : f64_is_finite lo = true -> f64_is_finite hi = true -> f64_contains lo hi v = true -> f64_is_finite v = true.
Proof. by destruct lo as [| [] | |], hi as [| [] | |], v as [| [] | |]. Qed.
Lemma contains_low lo hi v : f64_contains lo hi v = true -> f64_leb lo v = true.
Proof. unfold f64_contains. intros [? _]%andb_true_iff. done. Qed.
Lemma not_below_zero v : f64_is_finite v = true -> f64_leb f64_zero v = true -> f64_ltb v f64_zero = false.
Proof.
  intros Hf Hl. rewrite f64_leb_total in Hl; [|done|by apply f64_finite_not_nan]. by apply negb_true_iff in Hl.
Qed.

Lemma filtered_holds {A} (f : A -> bool) (o : option A) : is_none_or (opt_filter f o) f = true.
Proof. by destruct o as [a|]; simpl; [case_match|]. Qed.
Lemma none_or_weaken {A} (f g : A -> bool) (o : option A) :
  (forall a, f a = true -> g a = true) -> is_none_or o f = true -> is_none_or o g = true.
Proof. intros Hf. destruct o as [a|]; simpl; auto. Qed.
Lemma filtered_default {A} (f : A -> bool) (d : A) (o : option A) (P : A -> Prop) :
  P d -> (forall a, f a = true -> P a) -> P (default d (opt_filter f o)).
Proof. intros Hd Hf. destruct o as [a|]; simpl; [case_match; auto|done]. Qed.

Lemma scaled_finite map key precision min max :
  f64_is_finite min = true -> f64_is_finite max = true -> is_none_or (scaled_field map key precision min max) f64_is_finite = true.
Proof.
  intros Hmin Hmax. unfold scaled_field. destruct map as [fields|]; [|done]. simpl.
  destruct (float_field fields key) as [x|]; [|done]. simpl. unfold then_some.
  destruct (f64_contains _ _ _) eqn:E; [|done]. cbn [is_none_or]. exact (contains_finite _ _ _ Hmin Hmax E).
Qed.
Lemma miles_nonnegative map key precision max :
  f64_is_finite max = true ->
  is_none_or (miles_field map key precision f64_zero max) (fun v => f64_is_finite v && f64_leb f64_zero v) = true.
Proof.
  intros Hmax. unfold miles_field. destruct map as [fields|]; [|done]. simpl.
  destruct (float_field fields key) as [x|]; [|done]. simpl. unfold then_some.
  destruct (f64_contains _ _ _) eqn:E; [|done]. cbn [is_none_or].
  rewrite (contains_finite f64_zero max _ eq_refl Hmax E). by rewrite (contains_low _ _ _ E).
Qed.

Lemma group_time_positive group at_ms : 0 < at_ms -> 0 < group_time group at_ms.
Proof.
  intros Ht. unfold group_time. apply filtered_default; [done|].
  intros t [H _]%andb_true_iff. apply Z.leb_le in H. unfold K_EARLIEST_MS in H. lia.
Qed.

Lemma parse_drive_time drive p : p_drive_timestamp_ms (parse_drive drive p) = p_drive_timestamp_ms p.
Proof. unfold parse_drive. cbv zeta. by repeat case_match. Qed.
Lemma parse_drive_power drive p : is_none_or (p_power (parse_drive drive p)) f64_is_finite = true.
Proof.
  assert (H := scaled_finite drive "power" 0 (f64_of_Z SMALLINT_MIN) (f64_of_Z SMALLINT_MAX) eq_refl eq_refl).
  unfold parse_drive. cbv zeta. by destruct (_ : option (f64 * f64)) as [[]|].
Qed.

(** Every parsed observation states them. *)
Lemma parsed_position_facts sample p : 0 < ls_observed_at_ms sample -> parse_sample sample = Ok p -> position_facts p.
Proof.
  intros Ht. unfold parse_sample. intros E. apply result_bind_Ok in E as (root & _ & E). apply result_bind_Ok in E as (en & _ & E).
  case_match; [apply (inj Ok) in E as <-; by split|]. unfold parse_groups in E.
  do 5 (apply result_bind_Ok in E as (? & _ & E)). apply (inj Ok) in E as <-.
  match goal with |- context [parse_drive ?d ?q] =>
      pose proof (parse_drive_time d q) as Htime; pose proof (parse_drive_power d q) as Hpower; set (r := parse_drive d q) in * end.
  assert (Hr : 0 < p_drive_timestamp_ms r) by (rewrite Htime; case_match; by apply group_time_positive).
  clearbody r. split.
  - exact Hr.
  - apply filtered_holds.
  - apply filtered_holds.
  - exact Hpower.
  - eapply none_or_weaken; [|apply filtered_holds]. intros v [? ?]%andb_true_iff. by apply andb_true_iff.
  - by apply miles_nonnegative.
Qed.

(** ** The checks of a row *)

Lemma soc_checked value field : is_none_or value (in_range 0 100) = true -> validate_optional_soc value field = Ok ().
Proof. destruct value as [v|]; [|done]. cbn. unfold in_range. intros E. unfold validate_optional_soc, require. cbn [is_some_and]. by rewrite E. Qed.
Lemma finite_checked value field : is_none_or value f64_is_finite = true -> validate_optional_finite value field = Ok ().
Proof. destruct value as [v|]; [|done]. intros E. unfold validate_optional_finite, require. cbn [is_some_and]. cbn [is_none_or] in E. by rewrite E. Qed.
Lemma nonnegative_checked value field :
  is_none_or value (fun v => f64_is_finite v && f64_leb f64_zero v) = true -> validate_optional_nonnegative value field = Ok ().
Proof.
  unfold validate_optional_nonnegative. destruct value as [v|]; cbn [is_none_or is_some_and]; [|done].
  intros [Hf Hl]%andb_true_iff. by rewrite Hf, not_below_zero.
Qed.
Lemma coordinate_checked latitude longitude la lo field :
  valid_coordinates latitude longitude = Some (la, lo) ->
  validate_coordinate la lo field
  = if f64_eqb la f64_zero && f64_eqb lo f64_zero then invalid (append field " coordinates are invalid") else Ok ().
Proof.
  unfold valid_coordinates, then_some. destruct latitude as [a|], longitude as [b|]; try done. case_match eqn:E; [|done].
  intros [= <- <-]. apply andb_true_iff in E as [E H4]. apply andb_true_iff in E as [E H3]. apply andb_true_iff in E as [H1 H2].
  unfold validate_coordinate, require. rewrite H1, H2, H3, H4. cbn [negb orb]. by destruct (_ && _).
Qed.

(** The point (0, 0). *)
Definition at_zero (r : ProjectionPosition) : bool := f64_eqb (pp_latitude r) f64_zero && f64_eqb (pp_longitude r) f64_zero.

(** C38: a position row made of an observation with a positive time passes the checks of a
    delta pack on every field but one: the row is published exactly when it is not at
    (0, 0), which the lifecycle accepts as a coordinate and the pack refuses. *)
Theorem position_row_published_unless_at_zero (sample : LifecycleSample) (p : ParsedSample) (id car_id : Z) (drive_id : option Z)
    (r : ProjectionPosition) (ids : list Z) :
  0 < ls_observed_at_ms sample -> parse_sample sample = Ok p ->
  position_from_sample id drive_id car_id p = Ok (Some r) ->
  0 < id -> is_none_or drive_id (fun d => 0 <? d) = true -> id ∉ ids ->
  delta_position car_id ids r = if at_zero r then invalid "position coordinates are invalid" else Ok (id :: ids).
Proof.
  intros Ht Hp Hr Hid Hd Hfresh. destruct (parsed_position_facts _ _ Ht Hp) as [Ht' Hl Hu Hpo Ho Hi].
  unfold position_from_sample in Hr. destruct (valid_coordinates _ _) as [[la lo]|] eqn:Ec; [|by case_match].
  injection Hr as <-.
  unfold delta_position, row_of_sample, at_zero, require_unique_positive, require_positive, seen, require_same_car, require.
  cbn [pp_id pp_car_id pp_date_ms pp_drive_id pp_latitude pp_longitude pp_battery_level pp_usable_battery_level pp_power pp_odometer
       pp_ideal_battery_range_km].
  rewrite (proj2 (Z.ltb_lt _ _) Hid), (proj2 (Z.ltb_lt _ _) Ht'), Z.eqb_refl, bool_decide_false by done.
  assert (E : validate_optional_positive drive_id "position.drive_id" = Ok ()) by
    (destruct drive_id as [d|]; [|done]; unfold validate_optional_positive, require_positive; cbn [is_none_or] in Hd; by rewrite Hd).
  rewrite E, (coordinate_checked _ _ _ _ _ Ec). case_match; [done|].
  by rewrite !soc_checked, finite_checked, !nonnegative_checked.
Qed.

(** ** A car at (0, 0) *)

Definition zero_sample (id : Z) (t : positive) (gear : string) : LifecycleSample :=
  MkLifecycleSample id (Zpos t) "online"
    (JObject [("record_type", JString "owner_api_vehicle_data_v1");
              ("vehicle_data", JObject
                [("drive_state", JObject [("timestamp", ex_number t); ("shift_state", JString gear);
                                          ("latitude", JNumber (PosInt 0)); ("longitude", JNumber (PosInt 0))])])]).
Definition zero_parsed : ParsedSample :=
  match parse_sample (zero_sample 1 ex_time "P") with Ok p => p | Err _ => ParsedSample_default end.
Definition zero_row : ProjectionPosition := row_of_sample 1 None 9 zero_parsed f64_zero f64_zero.

Lemma position_row_published_unless_at_zero_witness :
  parse_sample (zero_sample 1 ex_time "P") = Ok zero_parsed
  /\ delta_position 9 [] zero_row = invalid "position coordinates are invalid".
Proof.
  split; [vm_compute; reflexivity|].
  rewrite (position_row_published_unless_at_zero (zero_sample 1 ex_time "P") zero_parsed 1 9 None zero_row []);
    [vm_compute; reflexivity|reflexivity|vm_compute; reflexivity|vm_compute; reflexivity|lia|reflexivity|apply not_elem_of_nil].
Defined.

(** The rows such an observation leaves in the store, and the delta of its claim. *)
Definition zero_rows : list ProjectionPosition :=
  match apply_samples (H := ex_libm) session_new 9 [zero_sample 1 ex_time "P"] with Ok st => d_positions (step_delta st) | Err _ => [] end.
Definition zero_request : ProjectionDeltaPackRequest :=
  let delta := empty_delta (MkProjectionBinding 1 2 3 1 9) (MkSequenceRange 1 2) (String "001"%char EmptyString) in
  MkProjectionDeltaPackRequest 1 2 0 (delta <| pdl_positions := zero_rows |>).

(** The page applies and stores the row; the pack of its delta is refused. *)
Example row_at_zero_is_stored_and_refused :
  length zero_rows = 1%nat
  /\ validate_delta zero_request ProtocolLimits_default = Err (PeInvalid "position coordinates are invalid").
Proof. split; vm_compute; reflexivity. Qed.
