(* ===== verification/TileRaster.v ===== *)
(** * Map tiles: the raster kernel

    [src/compute/src/raster.rs]: the simplification of a drive, its guard against long
    and curved shortcuts, and the segments it leaves on the tiles of every zoom.  The
    kernel asks its caller whether to go on ([controlled_checkpoint]), takes distance
    evaluations from a budget ([reserve_evaluation]) and gives its segments to a visitor;
    each of these returns nothing but an error that ends the kernel.  So a kernel is its
    result with the list of what it asks for on the way ([steps]), and [TileGen] performs
    the list, in order, up to the first error.

    The three loops of the kernel run on fuel ([None] is out of fuel, and
    [TileRoute.v] shows that it never is).  [powi(2)] is one multiplication; [sin], [cos],
    [asin], [tan] and [ln] are the platform's. *)
From S2P Require Import Prelude F64.
From Stdlib Require Import SpecFloat.
Local Open Scope string_scope.
Local Open Scope Z_scope.
Local Open Scope list_scope.

(** ** Single precision and the remainder of floats *)

Definition f32 : Type := spec_float.
Definition Point : Type := f32 * f32.

(** [x as f32] and [f64::from]. *)
Definition f32_of_f64 (x : f64) : f32 :=
  match x with S754_finite s m e => binary_normalize 24 128 (signed s (Z.pos m)) e s | _ => x end.
Definition f64_of_f32 (x : f32) : f64 :=
  match x with S754_finite s m e => binary_normalize 53 1024 (signed s (Z.pos m)) e s | _ => x end.
Definition f32_sub : f32 -> f32 -> f32 := SFsub 24 128.
Definition f32_eqb : f32 -> f32 -> bool := SFeqb.

(** [x % y]: exact, with the sign of [x]. *)
Definition f64_rem (x y : f64) : f64 :=
  match x, y with
  | S754_nan, _ | _, S754_nan | S754_infinity _, _ | _, S754_zero _ => S754_nan
  | _, S754_infinity _ | S754_zero _, _ => x
  | S754_finite s m e, S754_finite _ m' e' =>
      let low := Z.min e e' in
      let r := (Z.pos m * 2 ^ (e - low)) mod (Z.pos m' * 2 ^ (e' - low)) in
      if r =? 0 then S754_zero s else binary_normalize 53 1024 (signed s r) low s
  end.
Definition f64_rem_euclid (x y : f64) : f64 :=
  let r := f64_rem x y in if f64_ltb r f64_zero then f64_add r (f64_abs y) else r.

Definition f64_infinity : f64 := S754_infinity false.
(** [f64::EPSILON]. *)
Definition f64_epsilon : f64 := f64_lit 1 4503599627370496.
Definition f64_as_i32 : f64 -> Z := f64_to_int i32_min i32_max.
Definition squared (x : f64) : f64 := f64_mul x x.

Class TileLibm := { f64_tan : f64 -> f64; f64_ln : f64 -> f64 }.

(** ** Steps of a kernel *)

Inductive TileError := Cancelled | InvalidData (message : string).

(** One tier of zooms and its tolerances. *)
Record LongRangeLodTier := MkLongRangeLodTier {
  lt_zoom_min : Z;
  lt_zoom_max : Z;
  lt_epsilon_meters : f64;
  lt_max_segment_meters : f64;
  lt_curve_guard_meters : f64;
}.
Record TileSegment := MkTileSegment {
  ts_zoom : Z;
  ts_tile_x : Z;
  ts_tile_y : Z;
  ts_start : Z * Z;
  ts_end : Z * Z;
}.

(** What a kernel asks for: [controlled_checkpoint] with its tier's pulse,
    [RdpBudget::reserve_evaluation], the visitor, or to end with an error. *)
Inductive Action :=
| AtCheckpoint
| AtReserve
| AtVisit (segment : option TileSegment)
| AtFail (e : TileError).

Definition steps (E A : Type) : Type := list E * option A.
#[export] Instance steps_ret {E} : MRet (steps E) := fun _ a => ([], Some a).
#[export] Instance steps_bind {E} : MBind (steps E) := fun _ _ f m =>
  match m.2 with
  | Some a => let r := f a in (m.1 ++ r.1, r.2)
  | None => (m.1, None)
  end.
Definition act {E} (e : E) : steps E unit := ([e], Some ()).
Definition out_of_fuel {E A} : steps E A := ([], None).
Notation step := (steps Action).

Fixpoint steps_fold {E S I} (f : S -> I -> steps E S) (s : S) (l : list I) : steps E S :=
  match l with
  | [] => mret s
  | i :: l => s ← f s i; steps_fold f s l
  end.

Definition checkpoint_step : step unit := act AtCheckpoint.
(** A checkpoint at every so many. *)
Definition every (n : Z) (index : Z) : step unit := if index mod n =? 0 then checkpoint_step else mret ().

(** ** Distances *)

Section Raster.
Context `{Libm} `{TileLibm}.

Definition TILE_SIZE : Z := 512.
Definition MIN_ZOOM : Z := 2.
Definition MAX_ZOOM : Z := 13.
Definition MAX_RENDER_SEGMENT_METERS : f64 := f64_of_Z 5000.
Definition WEB_MERCATOR_MAX_LATITUDE : f64 := f64_lit 8505112878 100000000.
Definition EARTH_RADIUS_KM : f64 := f64_of_Z 6371.
Definition LAT_M : f64 := f64_of_Z 111320.
Definition f64_two : f64 := f64_of_Z 2.

Definition distance_meters (a b : Point) : f64 :=
  let lat1 := to_radians (f64_of_f32 a.1) in
  let lat2 := to_radians (f64_of_f32 b.1) in
  let delta_lat := to_radians (f64_sub (f64_of_f32 b.1) (f64_of_f32 a.1)) in
  let delta_lon := to_radians (f64_sub (f64_of_f32 b.2) (f64_of_f32 a.2)) in
  let value := f64_add (squared (f64_sin (f64_div delta_lat f64_two)))
                 (f64_mul (f64_mul (f64_cos lat1) (f64_cos lat2)) (squared (f64_sin (f64_div delta_lon f64_two)))) in
  f64_mul (f64_mul (f64_mul EARTH_RADIUS_KM (f64_of_Z 1000)) f64_two) (f64_asin (f64_sqrt value)).

Definition wrapped_longitude_delta (delta : f64) : f64 :=
  f64_sub (f64_rem_euclid (f64_add delta (f64_of_Z 180)) (f64_of_Z 360)) (f64_of_Z 180).

Definition perpendicular_distance (point start end_ : Point) : f64 :=
  let lon_m := f64_mul LAT_M (f64_cos (to_radians (f64_of_f32 start.1))) in
  let px := f64_mul (wrapped_longitude_delta (f64_sub (f64_of_f32 point.2) (f64_of_f32 start.2))) lon_m in
  let py := f64_mul (f64_of_f32 (f32_sub point.1 start.1)) LAT_M in
  let bx := f64_mul (wrapped_longitude_delta (f64_sub (f64_of_f32 end_.2) (f64_of_f32 start.2))) lon_m in
  let by_ := f64_mul (f64_of_f32 (f32_sub end_.1 start.1)) LAT_M in
  let length_squared := f64_add (squared bx) (squared by_) in
  if f64_ltb length_squared (f64_lit 1 10000000000) then f64_sqrt (f64_add (squared px) (squared py))
  else
    let t := f64_clamp (f64_div (f64_add (f64_mul px bx) (f64_mul py by_)) length_squared) f64_zero f64_one in
    let dx := f64_sub px (f64_mul t bx) in
    let dy := f64_sub py (f64_mul t by_) in
    f64_sqrt (f64_add (squared dx) (squared dy)).

Definition valid_coordinate (lat lon : f64) : bool :=
  f64_is_finite lat && f64_is_finite lon && f64_contains (f64_of_Z (-90)) (f64_of_Z 90) lat
  && f64_contains (f64_of_Z (-180)) (f64_of_Z 180) lon && negb (f64_eqb lat f64_zero && f64_eqb lon f64_zero).

(** ** Simplification *)

Definition at_ (points : list Point) (i : nat) : Point := nth i points (f64_zero, f64_zero).

(** The scan for the farthest point between two ends. *)
Record Scan := MkScan { sn_max_distance : f64; sn_split : nat; sn_examined : Z }.
Definition scan_point (points : list Point) (start end_ : nat) (s : Scan) (index : nat) : step Scan :=
  let examined := sn_examined s + 1 in
  every 1024 examined;;
  act AtReserve;;
  let distance := perpendicular_distance (at_ points index) (at_ points start) (at_ points end_) in
  mret (if f64_ltb (sn_max_distance s) distance then MkScan distance index examined
        else MkScan (sn_max_distance s) (sn_split s) examined).
(** The indices strictly between two. *)
Definition inner_range (start end_ : nat) : list nat := seq (S start) (end_ - S start).

Fixpoint rdp_loop (fuel : nat) (points : list Point) (epsilon : f64) (keep : list bool) (stack : list (nat * nat))
    (examined : Z) : step (list bool) :=
  match stack with
  | [] => mret keep
  | (start, end_) :: stack =>
      match fuel with
      | O => out_of_fuel
      | S fuel =>
          checkpoint_step;;
          if (end_ - start <=? 1)%nat then rdp_loop fuel points epsilon keep stack examined
          else
            s ← steps_fold (scan_point points start end_) (MkScan f64_zero start examined) (inner_range start end_);
            if f64_ltb epsilon (sn_max_distance s) then
              rdp_loop fuel points epsilon (<[sn_split s := true]> keep) ((sn_split s, end_) :: (start, sn_split s) :: stack)
                (sn_examined s)
            else rdp_loop fuel points epsilon keep stack (sn_examined s)
      end
  end.
Definition rdp_keep_mask (points : list Point) (epsilon : f64) : step (list bool) :=
  let n := length points in
  if (n <=? 2)%nat then mret (replicate n true)
  else rdp_loop (2 * n) points epsilon (<[(n - 1)%nat := true]> (<[0%nat := true]> (replicate n false))) [(0%nat, (n - 1)%nat)] 0.

(** ** The guard of a kept segment *)

Fixpoint walk_to (points : list Point) (start : nat) (target walked : f64) (indices : list nat) : step (option nat) :=
  match indices with
  | [] => mret None
  | index :: indices =>
      every 1024 (Z.of_nat (index - start));;
      let walked := f64_add walked (distance_meters (at_ points (index - 1)) (at_ points index)) in
      if f64_leb target walked then mret (Some index) else walk_to points start target walked indices
  end.
Definition midpoint_by_path_length (points : list Point) (start end_ : nat) (path_length : f64) : step (option nat) :=
  if (end_ <=? start + 1)%nat then mret None
  else
    found ← walk_to points start (f64_div path_length f64_two) f64_zero (inner_range start end_);
    mret (match found with Some index => Some index | None => Some (start + Nat.max ((end_ - start) / 2) 1)%nat end).

(** The length of a range and its farthest point from the chord. *)
Record GuardScan := MkGuardScan { gs_path_length : f64; gs_max_perpendicular : f64; gs_curve_split : option nat }.
Definition guard_point (points : list Point) (start end_ : nat) (g : GuardScan) (index : nat) : step GuardScan :=
  every 1024 (Z.of_nat (index - start));;
  let path_length := f64_add (gs_path_length g) (distance_meters (at_ points (index - 1)) (at_ points index)) in
  let perpendicular := perpendicular_distance (at_ points index) (at_ points start) (at_ points end_) in
  mret (if f64_ltb (gs_max_perpendicular g) perpendicular then MkGuardScan path_length perpendicular (Some index)
        else MkGuardScan path_length (gs_max_perpendicular g) (gs_curve_split g)).

Definition point_eqb (a b : Point) : bool := f32_eqb a.1 b.1 && f32_eqb a.2 b.2.
(** A point that repeats the last one is not pushed. *)
Definition push_new (output : list Point) (p : Point) : list Point :=
  if is_some_and (last output) (fun q => point_eqb q p) then output else output ++ [p].
(** The choice of [append_guarded] between the two splits. *)
Definition chosen_split (too_curvy : bool) (curve_split midpoint : option nat) : option nat :=
  if too_curvy then opt_or curve_split midpoint else opt_or midpoint curve_split.

Fixpoint append_guarded (fuel : nat) (points : list Point) (stack : list (nat * nat)) (max_segment_meters curve_guard_meters : f64)
    (output : list Point) : step (list Point) :=
  match stack with
  | [] => mret output
  | (start, end_) :: stack =>
      match fuel with
      | O => out_of_fuel
      | S fuel =>
          checkpoint_step;;
          if (end_ <=? start)%nat then append_guarded fuel points stack max_segment_meters curve_guard_meters output
          else
            g ← steps_fold (guard_point points start end_) (MkGuardScan f64_zero f64_zero None) (inner_range start end_);
            let path_length := f64_add (gs_path_length g) (distance_meters (at_ points (end_ - 1)) (at_ points end_)) in
            let too_long := f64_ltb max_segment_meters path_length in
            let too_curvy := f64_ltb f64_zero curve_guard_meters && f64_ltb curve_guard_meters (gs_max_perpendicular g) in
            chosen ← (if too_long || too_curvy then
                        midpoint ← midpoint_by_path_length points start end_ path_length;
                        mret (chosen_split too_curvy (gs_curve_split g) midpoint)
                      else mret None);
            match chosen with
            | Some chosen =>
                append_guarded fuel points ((start, chosen) :: (chosen, end_) :: stack) max_segment_meters curve_guard_meters output
            | None => append_guarded fuel points stack max_segment_meters curve_guard_meters (push_new output (at_ points end_))
            end
      end
  end.

Fixpoint kept_from (i : nat) (mask : list bool) : list nat :=
  match mask with
  | [] => []
  | keep :: mask => if keep then i :: kept_from (S i) mask else kept_from (S i) mask
  end.
Definition guard_window (points : list Point) (tier : LongRangeLodTier) (output : list Point) (w : nat * (nat * nat)) : step (list Point) :=
  let '(index, (start, end_)) := w in
  every 64 (Z.of_nat index);;
  append_guarded (2 * (end_ - start)) points [(start, end_)] (lt_max_segment_meters tier) (lt_curve_guard_meters tier) output.
(** [windows(2)] and [enumerate]. *)
Definition windows (kept : list nat) : list (nat * (nat * nat)) :=
  imap (fun i w => (i, w)) (zip kept (tail kept)).

Definition simplify_controlled (points : list Point) (tier : LongRangeLodTier) : step (list Point) :=
  checkpoint_step;;
  if (length points <=? 2)%nat then mret points
  else
    mask ← rdp_keep_mask points (lt_epsilon_meters tier);
    let kept := kept_from 0 mask in
    match kept with
    | first :: _ :: _ =>
        if f64_leb (lt_max_segment_meters tier) f64_zero then mret (map (at_ points) kept)
        else steps_fold (guard_window points tier) [at_ points first] (windows kept)
    | _ => mret (map (at_ points) kept)
    end.

(** ** Segments on tiles *)

Record ProjectedPoint := MkProjectedPoint { pj_lat : f32; pj_lon : f32; pj_nx : f64; pj_ny : f64 }.

Definition mercator_y (latitude : f64) : f64 :=
  let radians := to_radians (f64_clamp latitude (f64_opp WEB_MERCATOR_MAX_LATITUDE) WEB_MERCATOR_MAX_LATITUDE) in
  f64_clamp (f64_div (f64_sub f64_one (f64_div (f64_ln (f64_add (f64_tan radians) (f64_div f64_one (f64_cos radians)))) PI)) f64_two)
    f64_zero f64_one.

Definition world_to_tile_pixel (world_x world_y : f64) (tile_x tile_y : Z) : Z * Z :=
  let size := f64_of_Z TILE_SIZE in
  (f64_as_i32 (f64_round (f64_sub world_x (f64_mul (f64_of_Z tile_x) size))),
   f64_as_i32 (f64_round (f64_sub world_y (f64_mul (f64_of_Z tile_y) size)))).

(** [partial_cmp(&0.0).map_or(0, ...)]. *)
Definition direction (d : f64) : Z :=
  match SFcompare d f64_zero with Some Lt => -1 | Some Gt => 1 | _ => 0 end.

(** The walk over the tiles: where it is and how far each next border is. *)
Record TileWalk := MkTileWalk { tw_x : Z; tw_y : Z; tw_max_x : f64; tw_max_y : f64 }.
Fixpoint walk_tiles (iterations : nat) (max_tile end_x end_y step_x step_y : Z) (delta_x delta_y : f64)
    (visit : Z -> Z -> step unit) (w : TileWalk) : step unit :=
  match iterations with
  | O => mret ()
  | S iterations =>
      if (0 <=? tw_x w) && (tw_x w <=? max_tile) && (0 <=? tw_y w) && (tw_y w <=? max_tile) then
        visit (tw_x w) (tw_y w);;
        if (tw_x w =? end_x) && (tw_y w =? end_y) then mret ()
        else
          let in_x w := MkTileWalk (tw_x w + step_x) (tw_y w) (f64_add (tw_max_x w) delta_x) (tw_max_y w) in
          let in_y w := MkTileWalk (tw_x w) (tw_y w + step_y) (tw_max_x w) (f64_add (tw_max_y w) delta_y) in
          walk_tiles iterations max_tile end_x end_y step_x step_y delta_x delta_y visit
            (if f64_ltb (tw_max_x w) (tw_max_y w) then in_x w
             else if f64_ltb (tw_max_y w) (tw_max_x w) then in_y w
             else in_y (in_x w))
      else mret ()
  end.

(** How one coordinate of the walk starts: the clamped ends, the tiles they lie in, the
    direction, the first border and the distance between borders. *)
Record Axis := MkAxis { ax_tile : Z; ax_end_tile : Z; ax_step : Z; ax_max : f64; ax_delta : f64 }.
Definition off_border (a toward : bool) (x : f64) : f64 :=
  if a && toward then f64_sub x (f64_lit 1 10000) else x.
Definition on_border (x : f64) : bool := f64_ltb (f64_abs (f64_rem x (f64_of_Z TILE_SIZE))) f64_epsilon.
(** Both borders are tested with the other end as it is by then. *)
Definition axis (start end_ max_world : f64) : Axis :=
  let size := f64_of_Z TILE_SIZE in
  let start := f64_clamp start f64_zero max_world in
  let end_ := f64_clamp end_ f64_zero max_world in
  let start := off_border (on_border start) (f64_ltb end_ start) start in
  let end_ := off_border (on_border end_) (f64_ltb start end_) end_ in
  let tile := f64_as_i32 (f64_floor (f64_div start size)) in
  let end_tile := f64_as_i32 (f64_floor (f64_div end_ size)) in
  let d := f64_sub end_ start in
  let step := direction d in
  let inv := if f64_ltb f64_epsilon (f64_abs d) then f64_div f64_one (f64_abs d) else f64_infinity in
  let max := if 0 <? step then f64_mul (f64_sub (f64_mul (f64_of_Z (tile + 1)) size) start) inv
             else if step <? 0 then f64_mul (f64_sub start (f64_mul (f64_of_Z tile) size)) inv
             else f64_infinity in
  MkAxis tile end_tile step max (if step =? 0 then f64_infinity else f64_mul size inv).

Definition visit_crossed_tiles (start_x start_y end_x end_y : f64) (zoom : Z) (visit : Z -> Z -> step unit) : step unit :=
  let max_world := f64_sub (f64_mul (f64_of_Z (2 ^ zoom)) (f64_of_Z TILE_SIZE)) (f64_lit 1 10000) in
  let x := axis start_x end_x max_world in
  let y := axis start_y end_y max_world in
  walk_tiles 4096 (2 ^ zoom - 1) (ax_end_tile x) (ax_end_tile y) (ax_step x) (ax_step y) (ax_delta x) (ax_delta y) visit
    (MkTileWalk (ax_tile x) (ax_tile y) (ax_max x) (ax_max y)).

Definition add_world_segment (zoom : Z) (start_x start_y end_x end_y : f64) : step unit :=
  visit_crossed_tiles start_x start_y end_x end_y zoom (fun tile_x tile_y =>
    let start := world_to_tile_pixel start_x start_y tile_x tile_y in
    let end_ := world_to_tile_pixel end_x end_y tile_x tile_y in
    if bool_decide (start = end_) then mret ()
    else act (AtVisit (Some (MkTileSegment zoom tile_x tile_y start end_)))).

Definition away (a b : f64) : bool := f64_ltb f64_epsilon (f64_abs (f64_sub a b)).

Definition add_projected_segment (zoom : Z) (start end_ : ProjectedPoint) (scale : f64) : step unit :=
  let at_scale v := f64_mul v scale in
  let delta_x := f64_sub (pj_nx end_) (pj_nx start) in
  if f64_leb (f64_abs delta_x) (f64_lit 1 2) then
    add_world_segment zoom (at_scale (pj_nx start)) (at_scale (pj_ny start)) (at_scale (pj_nx end_)) (at_scale (pj_ny end_))
  else
    let last_edge := f64_sub scale (f64_lit 1 10000) in
    let '(unwrapped_end_x, boundary_x, first_edge_x, second_edge_x) :=
      if f64_ltb delta_x f64_zero then (f64_add (pj_nx end_) f64_one, f64_one, last_edge, f64_zero)
      else (f64_sub (pj_nx end_) f64_one, f64_zero, f64_zero, last_edge) in
    let denominator := f64_sub unwrapped_end_x (pj_nx start) in
    if f64_leb (f64_abs denominator) f64_epsilon then
      add_world_segment zoom (at_scale (pj_nx start)) (at_scale (pj_ny start)) (at_scale (pj_nx start)) (at_scale (pj_ny end_))
    else
      let crossing_t := f64_clamp (f64_div (f64_sub boundary_x (pj_nx start)) denominator) f64_zero f64_one in
      let edge_y := at_scale (f64_add (pj_ny start) (f64_mul (f64_sub (pj_ny end_) (pj_ny start)) crossing_t)) in
      let start_x := at_scale (pj_nx start) in
      let start_y := at_scale (pj_ny start) in
      let end_x := at_scale (pj_nx end_) in
      let end_y := at_scale (pj_ny end_) in
      (if away start_x first_edge_x || away start_y edge_y
       then add_world_segment zoom start_x start_y first_edge_x edge_y else mret ());;
      (if away second_edge_x end_x || away edge_y end_y
       then add_world_segment zoom second_edge_x edge_y end_x end_y else mret ()).

Definition renderable_segment (start end_ : ProjectedPoint) : bool :=
  let cosine := f64_cos (to_radians (f64_of_f32 (pj_lat start))) in
  let dy := f64_mul (f64_of_f32 (f32_sub (pj_lat end_) (pj_lat start))) LAT_M in
  let dx := f64_mul (f64_mul (wrapped_longitude_delta (f64_sub (f64_of_f32 (pj_lon end_)) (f64_of_f32 (pj_lon start)))) LAT_M) cosine in
  f64_ltb (f64_add (squared dy) (squared dx)) (squared MAX_RENDER_SEGMENT_METERS).

Definition project (p : Point) : option ProjectedPoint :=
  let lat := f64_of_f32 p.1 in
  let lon := f64_of_f32 p.2 in
  then_some (valid_coordinate lat lon)
    (MkProjectedPoint p.1 p.2 (f64_div (f64_add lon (f64_of_Z 180)) (f64_of_Z 360)) (mercator_y lat)).

(** One point of the walk over a drive, with the valid point before it. *)
Definition add_projected_point (zoom : Z) (scale : f64) (previous : option ProjectedPoint) (p : nat * option ProjectedPoint)
    : step (option ProjectedPoint) :=
  every 1024 (Z.of_nat p.1);;
  match p.2 with
  | None => mret None
  | Some point =>
      (match previous with
       | Some start => if renderable_segment start point then add_projected_segment zoom start point scale else mret ()
       | None => mret ()
       end);;
      mret (Some point)
  end.
Definition add_projected_drive (points : list (option ProjectedPoint)) (zoom : Z) : step unit :=
  let scale := f64_mul (f64_of_Z (2 ^ zoom)) (f64_of_Z TILE_SIZE) in
  steps_fold (add_projected_point zoom scale) None (imap pair points);;
  mret ().

Definition zooms (zoom_min zoom_max : Z) : list Z := map Z.of_nat (seq (Z.to_nat zoom_min) (Z.to_nat (zoom_max + 1 - zoom_min))).
Definition add_drive_multi_zoom (points : list Point) (zoom_min zoom_max : Z) : step unit :=
  if (length points <? 2)%nat then mret ()
  else
    projected ← steps_fold (fun projected p => every 1024 (Z.of_nat p.1);; mret (projected ++ [project p.2])) [] (imap pair points);
    steps_fold (fun _ zoom => checkpoint_step;; add_projected_drive projected zoom) () (zooms zoom_min zoom_max).

(** ** One drive *)

(** A step of the search for runs of valid points; the state is where the run began. *)
Definition visit_run (points : list Point) (tier : LongRangeLodTier) (run_start index : nat) : step nat :=
  every 1024 (Z.of_nat index);;
  let p := at_ points index in
  if (index =? length points)%nat || negb (valid_coordinate (f64_of_f32 p.1) (f64_of_f32 p.2)) then
    (if (run_start <? index)%nat then
       simplified ← simplify_controlled (take (index - run_start) (drop run_start points)) tier;
       add_drive_multi_zoom simplified (lt_zoom_min tier) (lt_zoom_max tier)
     else mret ());;
    mret (S index)
  else mret run_start.

Definition visit_tier (points : list Point) (tier : LongRangeLodTier) : step unit :=
  if (lt_zoom_min tier <? MIN_ZOOM) || (MAX_ZOOM <? lt_zoom_max tier) || (lt_zoom_max tier <? lt_zoom_min tier)
  then act (AtFail (InvalidData "canonical CPU LOD tier is outside z2-z13"))
  else
    checkpoint_step;;
    steps_fold (visit_run points tier) 0%nat (seq 0 (S (length points)));;
    act (AtVisit None).

(** The steps of every tier, each with its tier's index. *)
Definition in_tier {A} (tier_index : nat) (m : step A) : steps (nat * Action) A := (map (pair tier_index) m.1, m.2).
Definition visit_drive_lod_tiers (points : list Point) (tiers : list LongRangeLodTier) : steps (nat * Action) unit :=
  steps_fold (fun _ t => in_tier t.1 (visit_tier points t.2)) () (imap pair tiers).
End Raster.
