(* ===== verification/TileGen.v ===== *)
(** * Map tiles: pages of positions and the payload of a month

    [src/compute/src/lib.rs]: the reading of a page of cleaned positions, the
    accumulation of the raster kernel's segments, and the payload they are packed into.
    The cancellation flag is set by another thread at any time and the progress callback
    is the caller's: both answer from a state of their own ([Control]).  A visitor of
    pages may look at each answer before it gives the next page ([Visitor]). *)
From stdpp Require Import sorting.
From S2P Require Import Prelude RustStr F64 Bytes BTree TileRaster.
From Stdlib Require Import SpecFloat.
Local Open Scope string_scope.
Local Open Scope Z_scope.
Local Open Scope list_scope.

(** ** Data *)

Definition POSITION_PAGE_FORMAT_VERSION : Z := 1.
Definition TILE_PAYLOAD_FORMAT_VERSION : Z := 1.
Definition TILE_DIRECTORY_BYTES : Z := 16.
Definition TILE_PAYLOAD_HEADER_BYTES : Z := 8.
Definition SEGMENT_BYTES : Z := 8.
Definition POSITION_PAGE_HEADER_BYTES : Z := 8.
Definition POSITION_DRIVE_HEADER_BYTES : Z := 8.
Definition POSITION_POINT_BYTES : Z := 8.
Definition MAX_POSITION_DRIVES_PER_PAGE : Z := 128.
Definition MAX_POSITION_PAGE_BYTES : Z := 8 * 1024 * 1024.
Definition MAX_TILE_PAYLOAD_BYTES : Z := 8 * 1024 * 1024.
Definition MAX_TILE_PAYLOAD_TILES : Z := 4096.
Definition MAX_CANONICAL_SEGMENTS_PER_TILE : Z := 200000.
Definition MAX_CANONICAL_RAW_WEIGHT_ENTRIES : Z := MAX_TILE_PAYLOAD_BYTES / SEGMENT_BYTES.
Definition MAX_RAW_UNIQUE_SEGMENTS_PER_TILE : Z := MAX_TILE_PAYLOAD_BYTES / SEGMENT_BYTES.

Definition LONG_RANGE_LOD_TIERS : list LongRangeLodTier :=
  [MkLongRangeLodTier 2 4 (f64_of_Z 120) (f64_of_Z 3000) (f64_of_Z 240);
   MkLongRangeLodTier 5 7 (f64_of_Z 30) (f64_of_Z 800) (f64_of_Z 60);
   MkLongRangeLodTier 8 10 (f64_of_Z 3) (f64_of_Z 50) (f64_of_Z 6);
   MkLongRangeLodTier 11 13 (f64_of_Z 2) (f64_of_Z 20) (f64_of_Z 3)].

Record Drive := MkDrive { dv_drive_id : Z; dv_points : list Point }.

Inductive ProgressStage := ParsingPositions | GeneratingTier | PackingPayload.
Record Progress := MkProgress {
  pg_stage : ProgressStage;
  pg_tier_index : Z;
  pg_tier_count : Z;
  pg_zoom_min : Z;
  pg_zoom_max : Z;
  pg_drives_completed : Z;
  pg_drive_count : Z;
  pg_work_units : Z;
}.
#[export] Instance eta_Progress : Eta Progress := fun r =>
  MkProgress (pg_stage r) (pg_tier_index r) (pg_tier_count r) (pg_zoom_min r) (pg_zoom_max r) (pg_drives_completed r)
    (pg_drive_count r) (pg_work_units r).

Record Diagnostics := MkDiagnostics {
  dg_visitor_invocations : Z;
  dg_drive_count : Z;
  dg_input_point_count : Z;
  dg_produced_tile_count : Z;
}.
Inductive TileOutput :=
| ReadyEmpty (drive_count : Z) (diagnostics : Diagnostics)
| ReadyData (drive_count tile_count : Z) (payload : string) (diagnostics : Diagnostics).

Record TileKey := MkTileKey { tk_zoom : Z; tk_tile_x : Z; tk_tile_y : Z }.
Record SegmentKey := MkSegmentKey { sk_x1 : Z; sk_y1 : Z; sk_x2 : Z; sk_y2 : Z }.
Definition tile_tuple (k : TileKey) : Z * Z * Z := (tk_zoom k, tk_tile_x k, tk_tile_y k).
Definition segment_tuple (k : SegmentKey) : Z * Z * Z * Z := (sk_x1 k, sk_y1 k, sk_x2 k, sk_y2 k).

(** The derived orders: lexicographic. *)
Definition pair_compare {A B} `{OrdKey A} `{OrdKey B} (p q : A * B) : comparison :=
  match key_compare p.1 q.1 with Eq => key_compare p.2 q.2 | c => c end.
#[export] Instance pair_key {A B} `{OrdKey A} `{OrdKey B} : OrdKey (A * B).
Proof.
  refine {| key_compare := pair_compare |}; unfold pair_compare.
  - intros [a b] [a' b']. cbn. destruct (key_compare a a') eqn:E.
    + apply key_compare_eq in E as <-. rewrite key_compare_eq. naive_solver.
    + split; [done|]. intros [= <- <-]. by rewrite key_compare_refl in E.
    + split; [done|]. intros [= <- <-]. by rewrite key_compare_refl in E.
  - intros [a b] [a' b']. cbn. rewrite (key_compare_opp a a'). destruct (key_compare a a'); cbn; [apply key_compare_opp|done|done].
  - intros [a b] [a' b'] [a2 b2]. cbn. destruct (key_compare a a') eqn:E, (key_compare a' a2) eqn:E'; try done.
    + apply key_compare_eq in E as <-, E' as <-. rewrite key_compare_refl. apply key_compare_trans.
    + apply key_compare_eq in E as <-. by rewrite E'.
    + apply key_compare_eq in E' as <-. by rewrite E.
    + by rewrite (key_compare_trans _ _ _ E E').
Defined.
Definition tuple_key {A B} `{OrdKey B} (f : A -> B) (Hf : forall a b, f a = f b -> a = b) : OrdKey A.
Proof.
  refine {| key_compare := fun a b => key_compare (f a) (f b) |}.
  - intros a b. rewrite key_compare_eq. split; [apply Hf|congruence].
  - intros a b. apply key_compare_opp.
  - intros a b c. apply key_compare_trans.
Defined.
Lemma tile_tuple_inj a b : tile_tuple a = tile_tuple b -> a = b.
Proof. destruct a, b. by intros [= -> -> ->]. Qed.
Lemma segment_tuple_inj a b : segment_tuple a = segment_tuple b -> a = b.
Proof. destruct a, b. by intros [= -> -> -> ->]. Qed.
#[export] Instance TileKey_key : OrdKey TileKey := tuple_key tile_tuple tile_tuple_inj.
#[export] Instance SegmentKey_key : OrdKey SegmentKey := tuple_key segment_tuple segment_tuple_inj.

Notation SegmentWeights := (bmap SegmentKey Z).
Notation TierWeights := (bmap TileKey SegmentWeights).
Definition TileShard : Type := TileKey * string.

Record TierAccumulator := MkTierAccumulator { ta_tier : LongRangeLodTier; ta_weights : TierWeights; ta_drive_count : Z }.
Record WeightBudget := MkWeightBudget { wb_used : Z; wb_tile_count : Z }.

(** ** Control *)

Class Control (W : Type) := {
  cancelled_load : W -> bool * W;
  progress : option (Progress -> W -> result TileError unit * W);
}.

(** A computation that may be cancelled, over the caller's state and the work units. *)
Definition run (W A : Type) : Type := W * Z -> result TileError A * (W * Z).
#[export] Instance run_ret {W} : MRet (run W) := fun _ a s => (Ok a, s).
#[export] Instance run_bind {W} : MBind (run W) := fun _ _ f m s =>
  match m s with
  | (Ok a, s) => f a s
  | (Err e, s) => (Err e, s)
  end.
Definition lift {W A} (r : result TileError A) : run W A := fun s => (r, s).
Definition invalid_data {A} (message : string) : result TileError A := Err (InvalidData message).
Fixpoint run_fold {W S I} (f : S -> I -> run W S) (s : S) (l : list I) : run W S :=
  match l with
  | [] => mret s
  | i :: l => s ← f s i; run_fold f s l
  end.

Section Generate.
Context {W : Type} `{Control W}.

Definition check_cancelled : run W unit := fun s =>
  let '(cancelled, w) := cancelled_load s.1 in (if cancelled then Err Cancelled else Ok (), (w, s.2)).
Definition checkpoint (value : Progress) : run W unit :=
  check_cancelled;;
  work ← (fun s => let work := (s.2 + 1) mod 2 ^ 64 in (Ok work, (s.1, work)));
  (match progress with
   | None => mret ()
   | Some report => fun s => let '(r, w) := report (value <| pg_work_units := work |>) s.1 in (r, (w, s.2))
   end);;
  check_cancelled.
(** [controlled_checkpoint] of [raster.rs] with the pulse of a tier. *)
Definition controlled_checkpoint (value : Progress) : run W unit := check_cancelled;; checkpoint value;; check_cancelled.

(** ** A page of positions *)

Fixpoint le_value (bytes : string) : Z :=
  match bytes with EmptyString => 0 | String c bytes => byte_of c + 256 * le_value bytes end.
Definition i32_wrap (z : Z) : Z := if z <=? i32_max then z else z - 2 ^ 32.
Definition f32_from_bits (bits : Z) : f32 :=
  let s := 2 ^ 31 <=? bits in
  let e := (bits / 2 ^ 23) mod 256 in
  let m := bits mod 2 ^ 23 in
  if e =? 0 then match m with Z.pos p => S754_finite s p (-149) | _ => S754_zero s end
  else if e =? 255 then if m =? 0 then S754_infinity s else S754_nan
  else match m + 2 ^ 23 with Z.pos p => S754_finite s p (e - 150) | _ => S754_nan end.

(** [Reader]: the bytes not read yet. *)
Definition read_exact (count : nat) (rest : string) : result TileError (string * string) :=
  if Z.of_nat count <=? str_len rest
  then Ok (slice 0 count rest, slice count (String.length rest - count) rest)
  else invalid_data "canonical position page is truncated".
Definition read_u32 (rest : string) : result TileError (Z * string) := r ← read_exact 4 rest; Ok (le_value r.1, r.2).
Definition read_i32 (rest : string) : result TileError (Z * string) := r ← read_u32 rest; Ok (i32_wrap r.1, r.2).
Definition read_f32 (rest : string) : result TileError (f32 * string) := r ← read_u32 rest; Ok (f32_from_bits r.1, r.2).

Definition parsing (drive_index drive_count : Z) : Progress := MkProgress ParsingPositions 0 4 2 13 drive_index drive_count 0.

Definition parse_point (at_drive : Progress) (s : list Point * string) (point_index : nat) : run W (list Point * string) :=
  (if Z.of_nat point_index mod 1024 =? 0 then checkpoint at_drive else mret ());;
  latitude ← lift (read_f32 s.2);
  longitude ← lift (read_f32 latitude.2);
  mret (s.1 ++ [(latitude.1, longitude.1)], longitude.2).
Definition parse_drive_record (drive_count : Z) (s : list Drive * string) (drive_index : nat) : run W (list Drive * string) :=
  let at_drive := parsing (Z.of_nat drive_index) drive_count in
  checkpoint at_drive;;
  id ← lift (read_i32 s.2);
  count ← lift (read_u32 id.2);
  let required := count.1 * POSITION_POINT_BYTES in
  (if str_len count.2 <? required then lift (invalid_data "canonical position page is truncated") else mret ());;
  points ← run_fold (parse_point at_drive) ([], count.2) (seq 0 (Z.to_nat count.1));
  mret (s.1 ++ [MkDrive id.1 points.1], points.2).
Definition parse_position_page_v1 (bytes : string) : run W (list Drive) :=
  check_cancelled;;
  (if MAX_POSITION_PAGE_BYTES <? str_len bytes then lift (invalid_data "canonical CPU position page exceeds the bounded page limit")
   else mret ());;
  version ← lift (read_u32 bytes);
  (if version.1 =? POSITION_PAGE_FORMAT_VERSION then mret ()
   else lift (invalid_data (append "unsupported canonical position page version " (print_u64 version.1))));;
  count ← lift (read_u32 version.2);
  (if MAX_POSITION_DRIVES_PER_PAGE <? count.1
   then lift (invalid_data (append "canonical position page declared " (append (print_u64 count.1) " drives over the 128 cap")))
   else mret ());;
  drives ← run_fold (parse_drive_record count.1) ([], count.2) (seq 0 (Z.to_nat count.1));
  (if str_len drives.2 =? 0 then mret () else lift (invalid_data "canonical position page contains trailing bytes"));;
  mret drives.1.

(** ** Accumulation *)

Definition reserve (budget : WeightBudget) : result TileError WeightBudget :=
  if MAX_CANONICAL_RAW_WEIGHT_ENTRIES <=? wb_used budget
  then invalid_data "canonical CPU tier exceeded the global raw-weight memory limit"
  else Ok (MkWeightBudget (wb_used budget + 1) (wb_tile_count budget)).
Definition coordinate (value : Z) : result TileError Z :=
  if (-32768 <=? value) && (value <=? 32767) then Ok value
  else invalid_data "canonical CPU segment coordinate exceeds signed i16".
Definition segment_key (segment : TileSegment) : result TileError SegmentKey :=
  x1 ← coordinate (ts_start segment).1;
  y1 ← coordinate (ts_start segment).2;
  x2 ← coordinate (ts_end segment).1;
  y2 ← coordinate (ts_end segment).2;
  Ok (MkSegmentKey x1 y1 x2 y2).
Definition tile_of (segment : TileSegment) : TileKey := MkTileKey (ts_zoom segment) (ts_tile_x segment) (ts_tile_y segment).

Definition merge_raw_segment (target : TierWeights) (segment : TileSegment) (budget : WeightBudget)
    : result TileError (TierWeights * WeightBudget) :=
  key ← segment_key segment;
  match bget (tile_of segment) target with
  | None =>
      if MAX_TILE_PAYLOAD_TILES <=? wb_tile_count budget
      then invalid_data (append "canonical CPU output contains "
             (append (print_u64 (wb_tile_count budget + 1)) " tiles over the 4096 cap"))
      else
        budget ← reserve budget;
        Ok (bset (tile_of segment) [(key, 1)] target, MkWeightBudget (wb_used budget) (wb_tile_count budget + 1))
  | Some weights =>
      match bget key weights with
      | None =>
          if MAX_RAW_UNIQUE_SEGMENTS_PER_TILE <=? Z.of_nat (length weights)
          then invalid_data "canonical CPU tile exceeded the bounded raw unique-segment limit"
          else budget ← reserve budget; Ok (bset (tile_of segment) (bset key 1 weights) target, budget)
      | Some weight =>
          if u64_max <? weight + 1 then invalid_data "canonical CPU segment weight overflow"
          else Ok (bset (tile_of segment) (bset key (weight + 1) weights) target, budget)
      end
  end.

(** What the generation carries: the four tiers, the two budgets and the points seen. *)
Record Generation := MkGeneration {
  gn_tiers : list TierAccumulator;
  gn_budget : WeightBudget;
  gn_rdp : option Z;
  gn_input_point_count : Z;
}.

Definition reserve_evaluation (remaining : option Z) : result TileError (option Z) :=
  match remaining with
  | None => Ok None
  | Some remaining =>
      if remaining =? 0 then invalid_data "canonical RDP examined-work limit exceeded" else Ok (Some (remaining - 1))
  end.
Definition merge_into (g : Generation) (tier : nat) (segment : TileSegment) : result TileError Generation :=
  match gn_tiers g !! tier with
  | None => Ok g
  | Some a =>
      r ← merge_raw_segment (ta_weights a) segment (gn_budget g);
      Ok (MkGeneration (<[tier := MkTierAccumulator (ta_tier a) r.1 (ta_drive_count a)]> (gn_tiers g)) r.2 (gn_rdp g)
            (gn_input_point_count g))
  end.
Definition complete_drive (g : Generation) (tier : nat) : result TileError Generation :=
  match gn_tiers g !! tier with
  | None => Ok g
  | Some a =>
      if u64_max <? ta_drive_count a + 1 then invalid_data "canonical drive count overflow"
      else Ok (MkGeneration (<[tier := MkTierAccumulator (ta_tier a) (ta_weights a) (ta_drive_count a + 1)]> (gn_tiers g))
                 (gn_budget g) (gn_rdp g) (gn_input_point_count g))
  end.

(** One step of the kernel, performed; the second part of the state is
    [emitted_segments]. *)
Definition perform (templates : nat -> Progress) (s : Generation * Z) (a : nat * Action) : run W (Generation * Z) :=
  let g := s.1 in
  let tier := a.1 in
  match a.2 with
  | AtCheckpoint => controlled_checkpoint (templates tier);; mret s
  | AtReserve =>
      remaining ← lift (reserve_evaluation (gn_rdp g));
      mret (MkGeneration (gn_tiers g) (gn_budget g) remaining (gn_input_point_count g), s.2)
  | AtVisit (Some segment) =>
      (if s.2 mod 1024 =? 0 then checkpoint (templates tier) else mret ());;
      g ← lift (merge_into g tier segment);
      mret (g, (s.2 + 1) mod 2 ^ 64)
  | AtVisit None => g ← lift (complete_drive g tier); mret (g, s.2)
  | AtFail e => lift (Err e)
  end.

Definition drives_completed (g : Generation) : Z := default 0 (ta_drive_count <$> head (gn_tiers g)).
Definition generating (reported completed : Z) (tier_index : nat) : Progress :=
  let tier := nth tier_index LONG_RANGE_LOD_TIERS (MkLongRangeLodTier 0 0 f64_zero f64_zero f64_zero) in
  MkProgress GeneratingTier (Z.of_nat tier_index) 4 (lt_zoom_min tier) (lt_zoom_max tier) completed reported 0.

Section Kernel.
Context `{Libm} `{TileLibm}.

(** The steps of the raster kernel on a drive. *)
Definition drive_steps (points : list Point) : list (nat * Action) := (visit_drive_lod_tiers points LONG_RANGE_LOD_TIERS).1.

Definition consume_drive (reported : Z) (g : Generation) (drive : Drive) : run W Generation :=
  check_cancelled;;
  let points := Z.of_nat (length (dv_points drive)) in
  (if i64_max <? points then lift (invalid_data "canonical input point count exceeds i64") else mret ());;
  (if i64_max <? gn_input_point_count g + points then lift (invalid_data "canonical input point count overflow") else mret ());;
  let g := MkGeneration (gn_tiers g) (gn_budget g) (gn_rdp g) (gn_input_point_count g + points) in
  s ← run_fold (perform (generating reported (drives_completed g))) (g, 0) (drive_steps (dv_points drive));
  mret s.1.

Definition page_bytes (drives : list Drive) : Z :=
  fold_left (fun bytes drive => bytes + POSITION_DRIVE_HEADER_BYTES + Z.of_nat (length (dv_points drive)) * POSITION_POINT_BYTES)
    drives POSITION_PAGE_HEADER_BYTES.
Definition validate_typed_position_page (drives : list Drive) : result TileError unit :=
  if MAX_POSITION_DRIVES_PER_PAGE <? Z.of_nat (length drives)
  then invalid_data (append "canonical position page contains " (append (print_u64 (Z.of_nat (length drives))) " drives over the 128 cap"))
  else if u64_max <? page_bytes drives then invalid_data "canonical position page size overflow"
  else if MAX_POSITION_PAGE_BYTES <? page_bytes drives then invalid_data "canonical position page exceeds the bounded page limit"
  else Ok ().

Definition consume_page (reported : Z) (g : Generation) (drives : list Drive) : run W Generation :=
  check_cancelled;; lift (validate_typed_position_page drives);; run_fold (consume_drive reported) g drives.

(** A visitor of pages: it ends, or gives a page and goes on from the answer. *)
Inductive Visitor :=
| VtDone (r : result TileError unit)
| VtPage (page : list Drive) (continue : result TileError unit -> Visitor).

(** The first error of a page answers every later page. *)
Fixpoint visit_pages (reported : Z) (v : Visitor) (g : result TileError Generation) (s : W * Z)
    : result TileError unit * result TileError Generation * (W * Z) :=
  match v with
  | VtDone r => (r, g, s)
  | VtPage page continue =>
      match g with
      | Err e => visit_pages reported (continue (Err e)) g s
      | Ok g =>
          match consume_page reported g page s with
          | (Ok g, s) => visit_pages reported (continue (Ok ())) (Ok g) s
          | (Err e, s) => visit_pages reported (continue (Err e)) (Err e) s
          end
      end
  end.
Definition visited (reported : Z) (v : Visitor) (g : Generation) : run W Generation := fun s =>
  match visit_pages reported v (Ok g) s with
  | (_, Err e, s) => (Err e, s)
  | (Err e, Ok _, s) => (Err e, s)
  | (Ok _, Ok g, s) => (Ok g, s)
  end.

(** ** Packing *)

Definition append_bytes (k : SegmentKey) : string :=
  append (le_bytes 2 (sk_x1 k)) (append (le_bytes 2 (sk_y1 k)) (append (le_bytes 2 (sk_x2 k)) (le_bytes 2 (sk_y2 k)))).

(** The heavier first, then the smaller key. *)
Definition heavier (a b : SegmentKey * Z) : Prop := b.2 < a.2 \/ b.2 = a.2 /\ key_compare b.1 a.1 <> Lt.
#[export] Instance heavier_dec : RelDecision heavier.
Proof. intros a b. unfold heavier. apply _. Defined.
Definition key_le {K} `{OrdKey K} (a b : K) : Prop := key_compare b a <> Lt.
#[export] Instance key_le_dec {K} `{OrdKey K} : RelDecision (@key_le K _).
Proof. intros a b. unfold key_le. apply _. Defined.

Definition budgeted_segments (weights : SegmentWeights) : run W (list SegmentKey) :=
  check_cancelled;;
  if Z.of_nat (length weights) <=? MAX_CANONICAL_SEGMENTS_PER_TILE then mret (bkeys weights)
  else
    let weighted := take (Z.to_nat MAX_CANONICAL_SEGMENTS_PER_TILE) (merge_sort heavier weights) in
    check_cancelled;;
    mret (merge_sort key_le (map fst weighted)).

Definition pack_tile (template : Progress) (shards : list TileShard) (t : nat * (TileKey * SegmentWeights)) : run W (list TileShard) :=
  (if Z.of_nat t.1 mod 16 =? 0 then checkpoint template else mret ());;
  selected ← budgeted_segments t.2.2;
  mret (match selected with
        | [] => shards
        | _ => shards ++ [(t.2.1, foldr (fun k blob => append (append_bytes k) blob) "" selected)]
        end).
Definition finalize_tier (weights : TierWeights) (template : Progress) : run W (list TileShard) :=
  run_fold (pack_tile template) [] (imap pair weights).

Definition payload_bytes (shards : list TileShard) : Z :=
  fold_left (fun total shard => total + TILE_DIRECTORY_BYTES + str_len shard.2) shards TILE_PAYLOAD_HEADER_BYTES.
Definition ensure_payload_bound (shards : list TileShard) : result TileError unit :=
  if MAX_TILE_PAYLOAD_TILES <? Z.of_nat (length shards)
  then invalid_data (append "canonical CPU output contains " (append (print_u64 (Z.of_nat (length shards))) " tiles over the 4096 cap"))
  else if u64_max <? payload_bytes shards then invalid_data "canonical CPU tile payload size overflow"
  else if MAX_TILE_PAYLOAD_BYTES <? payload_bytes shards
  then invalid_data "canonical CPU tile payload exceeds the bounded publication limit"
  else Ok ().

Definition encode_shard (payload : string) (t : nat * TileShard) : run W string :=
  let '(index, (tile, blob)) := t in
  (if Z.of_nat index mod 64 =? 0 then check_cancelled else mret ());;
  (if (str_len blob =? 0) || negb (str_len blob mod SEGMENT_BYTES =? 0)
   then lift (invalid_data "canonical CPU tile blob is empty or misaligned") else mret ());;
  (if u32_max <? str_len blob then lift (invalid_data "canonical tile blob overflow") else mret ());;
  mret (append payload (append (le_bytes 4 (tk_zoom tile)) (append (le_bytes 4 (tk_tile_x tile))
         (append (le_bytes 4 (tk_tile_y tile)) (append (le_bytes 4 (str_len blob)) blob))))).
Definition encode_payload (shards : list TileShard) : run W string :=
  lift (ensure_payload_bound shards);;
  (if u32_max <? Z.of_nat (length shards) then lift (invalid_data "canonical tile count overflow") else mret ());;
  run_fold encode_shard (append (le_bytes 4 TILE_PAYLOAD_FORMAT_VERSION) (le_bytes 4 (Z.of_nat (length shards)))) (imap pair shards).

(** ** Generation *)

Definition first_generation (limit : option Z) : Generation :=
  MkGeneration (map (fun tier => MkTierAccumulator tier [] 0) LONG_RANGE_LOD_TIERS) (MkWeightBudget 0 0) limit 0.
Definition packing (observed : Z) (tier_index : nat) (tier : LongRangeLodTier) : Progress :=
  MkProgress PackingPayload (Z.of_nat tier_index) 4 (lt_zoom_min tier) (lt_zoom_max tier) observed observed 0.
Definition pack_tier (observed : Z) (shards : list TileShard) (t : nat * TierAccumulator) : run W (list TileShard) :=
  tier ← finalize_tier (ta_weights t.2) (packing observed t.1 (ta_tier t.2));
  lift (ensure_payload_bound (shards ++ tier));;
  mret (shards ++ tier).
Definition shard_le (a b : TileShard) : Prop := key_le a.1 b.1.
#[export] Instance shard_le_dec : RelDecision shard_le.
Proof. intros a b. unfold shard_le. apply _. Defined.

Definition finish (expected : option Z) (g : Generation) : run W TileOutput :=
  check_cancelled;;
  let observed := drives_completed g in
  (if existsb (fun a => negb (ta_drive_count a =? observed)) (gn_tiers g)
   then lift (invalid_data "canonical CPU LOD drive counts diverged") else mret ());;
  (if is_some_and expected (fun expected => negb (expected =? observed))
   then lift (invalid_data "canonical CPU drive pages changed during generation") else mret ());;
  shards ← run_fold (pack_tier observed) [] (imap pair (gn_tiers g));
  (if i64_max <? observed then lift (invalid_data "canonical drive count exceeds i64") else mret ());;
  (if i64_max <? Z.of_nat (length shards) then lift (invalid_data "canonical output count exceeds i64") else mret ());;
  let diagnostics := MkDiagnostics 1 observed (gn_input_point_count g) (Z.of_nat (length shards)) in
  match shards with
  | [] => mret (ReadyEmpty observed diagnostics)
  | _ =>
      payload ← encode_payload (merge_sort shard_le shards);
      mret (ReadyData observed (Z.of_nat (length shards)) payload diagnostics)
  end.

Definition generate_internal (expected rdp_evaluation_limit : option Z) (v : Visitor) : run W TileOutput :=
  check_cancelled;;
  g ← visited (default 0 expected) v (first_generation rdp_evaluation_limit);
  finish expected g.

(** Every drive as one page, which ends with the page's answer. *)
Definition one_page (drives : list Drive) : Visitor := VtPage drives VtDone.
Definition generate_tile_payload_v1 (drives : list Drive) : run W TileOutput :=
  generate_internal (Some (Z.of_nat (length drives))) None (one_page drives).
Definition generate_tile_payload_v1_with_rdp_limit (drives : list Drive) (limit : Z) : run W TileOutput :=
  generate_internal (Some (Z.of_nat (length drives))) (Some limit) (one_page drives).
Definition generate_tile_payload_v1_from_pages (v : Visitor) : run W TileOutput := generate_internal None None v.
Definition generate_tile_payload_v1_from_pages_with_rdp_limit (limit : Z) (v : Visitor) : run W TileOutput :=
  generate_internal None (Some limit) v.
End Kernel.
End Generate.
