(* ===== verification/TileClean.v ===== *)
(** * Map tiles: the cleaning of raw positions

    [src/compute/src/cleaner.rs]: the raw positions of a drive without invalid rows,
    bridgeable outliers and parked drift; and what is left of them. *)
From S2P Require Import Prelude F64 TileRaster.
From Stdlib Require Import SpecFloat.
Local Open Scope Z_scope.
Local Open Scope list_scope.

Definition MAX_RAW_MAP_POSITIONS_PER_DRIVE : Z := 64 * 1024.

Record RawMapPosition := MkRawMapPosition {
  rw_date_ms : Z;
  rw_latitude : f64;
  rw_longitude : f64;
  rw_speed_kmh : option Z;
}.
Inductive CleanMapError := OversizedDrive.

Section Clean.
Context `{Libm}.

Definition haversine_distance_m (lat1 lon1 lat2 lon2 : f64) : f64 :=
  let lat1_rad := to_radians lat1 in
  let lat2_rad := to_radians lat2 in
  let delta_lat := to_radians (f64_sub lat2 lat1) in
  let delta_lon := to_radians (f64_sub lon2 lon1) in
  let a := f64_add (squared (f64_sin (f64_div delta_lat f64_two)))
             (f64_mul (f64_mul (f64_cos lat1_rad) (f64_cos lat2_rad)) (squared (f64_sin (f64_div delta_lon f64_two)))) in
  let c := f64_mul f64_two (f64_asin (f64_sqrt (f64_clamp a f64_zero f64_one))) in
  f64_mul (f64_mul (f64_of_Z 6371) c) (f64_of_Z 1000).
Definition position_distance (a b : RawMapPosition) : f64 :=
  haversine_distance_m (rw_latitude a) (rw_longitude a) (rw_latitude b) (rw_longitude b).

(** The interval in [i128], then as a float. *)
Definition elapsed_seconds (start_ms end_ms : Z) : f64 := f64_div (f64_of_Z (end_ms - start_ms)) (f64_of_Z 1000).
Definition segment_speed_kmh (start end_ : RawMapPosition) : option f64 :=
  let seconds := elapsed_seconds (rw_date_ms start) (rw_date_ms end_) in
  if f64_leb seconds f64_zero then None
  else Some (f64_mul (f64_div (position_distance start end_) seconds) (f64_lit 36 10)).

Definition over_300 (speed : f64) : bool := f64_ltb (f64_of_Z 300) speed.
Definition is_bridgeable_outlier (previous current next : RawMapPosition) : bool :=
  match segment_speed_kmh previous next with
  | None => false
  | Some bridge_speed =>
      if over_300 bridge_speed then false
      else
        let before := segment_speed_kmh previous current in
        let after := segment_speed_kmh current next in
        if is_some_and before over_300 || is_some_and after over_300 then true
        else
          match before, after with
          | Some before, Some after =>
              let before_seconds := elapsed_seconds (rw_date_ms previous) (rw_date_ms current) in
              let after_seconds := elapsed_seconds (rw_date_ms current) (rw_date_ms next) in
              if f64_leb before_seconds f64_zero || f64_leb after_seconds f64_zero then false
              else
                let acceleration := f64_div (f64_div (f64_sub after before) (f64_lit 36 10))
                                      (f64_div (f64_add before_seconds after_seconds) f64_two) in
                f64_ltb (f64_of_Z 10) (f64_abs acceleration)
          | _, _ => false
          end
  end.

(** One position of [remove_outliers]; the state is what is kept so far. *)
Definition position_at (positions : list RawMapPosition) (index : nat) : RawMapPosition :=
  nth index positions (MkRawMapPosition 0 f64_zero f64_zero None).
Definition keep_position (positions result : list RawMapPosition) (index : nat) : list RawMapPosition :=
  let current := position_at positions index in
  if (index =? length positions - 1)%nat then
    if is_none_or (last result) (fun last => negb (rw_date_ms last =? rw_date_ms current)) then result ++ [current] else result
  else
    let previous := default (position_at positions (index - 1)) (last result) in
    if is_bridgeable_outlier previous current (position_at positions (index + 1)) then result else result ++ [current].
(** Only called on three positions or more. *)
Definition remove_outliers (positions : list RawMapPosition) : list RawMapPosition :=
  fold_left (keep_position positions) (seq 1 (length positions - 1)) [position_at positions 0].

Definition minimum_meters (current : RawMapPosition) : f64 :=
  if is_some_and (rw_speed_kmh current) (fun speed => speed <? 5) then f64_of_Z 10 else f64_of_Z 5.
Definition moved (previous current : RawMapPosition) : bool := f64_leb (minimum_meters current) (position_distance previous current).
Definition keep_moved (result : list RawMapPosition) (current : RawMapPosition) : list RawMapPosition :=
  match last result with
  | None => result
  | Some previous => if moved previous current then result ++ [current] else result
  end.
Definition remove_stationary_drift (positions : list RawMapPosition) : list RawMapPosition :=
  if (length positions <? 2)%nat then positions else fold_left keep_moved (tail positions) [position_at positions 0].

Definition position_valid (p : RawMapPosition) : bool := valid_coordinate (rw_latitude p) (rw_longitude p).
Definition point_of_position (p : RawMapPosition) : Point := (f32_of_f64 (rw_latitude p), f32_of_f64 (rw_longitude p)).
Definition prepare_positions_for_tile_rendering_v1 (positions : list RawMapPosition) : result CleanMapError (list Point) :=
  if MAX_RAW_MAP_POSITIONS_PER_DRIVE <? Z.of_nat (length positions) then Err OversizedDrive
  else
    let valid := filter (fun p => position_valid p = true) positions in
    let cleaned := if (length valid <? 3)%nat then valid else remove_stationary_drift (remove_outliers valid) in
    Ok (map point_of_position cleaned).

(** ** What is left *)

(** A filter that grows its result at the end keeps a part of the list in its order. *)
Lemma fold_sublist {A I} (f : list A -> I -> list A) (pick : I -> A) l result :
  (forall r i, i ∈ l -> f r i = r \/ f r i = r ++ [pick i]) ->
  exists kept, fold_left f l result = result ++ kept /\ sublist kept (map pick l).
Proof.
  revert result. induction l as [|i l IH]; intros result Hf; cbn [fold_left map].
  - exists []. by rewrite app_nil_r.
  - destruct (IH (f result i)) as (kept & -> & Hs); [intros r j Hj; apply Hf; by right|].
    destruct (Hf result i ltac:(left)) as [->| ->].
    + exists kept. split; [done|by apply sublist_cons].
    + exists (pick i :: kept). rewrite <- app_assoc. split; [done|by apply sublist_skip].
Qed.
Lemma nth_by_index {A} (d : A) l : map (fun i => nth i l d) (seq 0 (length l)) = l.
Proof. induction l as [|a l IH]; [done|]. cbn [length seq map nth]. f_equal. rewrite <- seq_shift, map_map. exact IH. Qed.
Lemma positions_by_index positions : positions <> [] ->
  position_at positions 0 :: map (position_at positions) (seq 1 (length positions - 1)) = positions.
Proof.
  intros Hne. etrans; [|apply (nth_by_index (MkRawMapPosition 0 f64_zero f64_zero None) positions)].
  destruct positions as [|p positions]; [done|]. cbn [length Nat.sub seq map]. by rewrite Nat.sub_0_r.
Qed.
Lemma remove_outliers_sublist positions : positions <> [] ->
  exists kept, remove_outliers positions = position_at positions 0 :: kept /\ sublist (remove_outliers positions) positions.
Proof.
  intros Hne. destruct (fold_sublist (keep_position positions) (position_at positions) (seq 1 (length positions - 1)) [position_at positions 0])
    as (kept & E & Hs).
  { intros r i _. unfold keep_position. destruct (_ =? _)%nat; [destruct (is_none_or _ _)|destruct (is_bridgeable_outlier _ _ _)]; auto. }
  unfold remove_outliers. rewrite E. exists kept. split; [done|]. rewrite <- (positions_by_index positions Hne) at 2. by apply sublist_skip.
Qed.

(** What parked drift leaves: each position moved enough from the one kept before it. *)
Fixpoint all_moved (previous : RawMapPosition) (l : list RawMapPosition) : Prop :=
  match l with
  | [] => True
  | p :: l => moved previous p = true /\ all_moved p l
  end.
Lemma all_moved_snoc first l p : all_moved first (l ++ [p]) <-> all_moved first l /\ moved (default first (last l)) p = true.
Proof.
  revert first. induction l as [|q l IH]; intros first; cbn [app all_moved]; [cbn; tauto|].
  rewrite IH, last_cons. by destruct (last l); cbn; tauto.
Qed.
Lemma keep_moved_all l first kept : all_moved first kept ->
  exists kept', fold_left keep_moved l (first :: kept) = first :: kept' /\ all_moved first kept'.
Proof.
  revert kept. induction l as [|p l IH]; intros kept Hk; cbn [fold_left]; [by exists kept|]. unfold keep_moved at 2. rewrite last_cons.
  destruct (last kept) as [q|] eqn:El.
  - destruct (moved q p) eqn:Em; [|by apply IH]. apply (IH (kept ++ [p])). apply all_moved_snoc. by rewrite El.
  - destruct (moved first p) eqn:Em; [|by apply IH]. apply (IH (kept ++ [p])). apply all_moved_snoc. by rewrite El.
Qed.
Lemma remove_drift_spec positions : positions <> [] ->
  exists kept, remove_stationary_drift positions = position_at positions 0 :: kept /\ all_moved (position_at positions 0) kept
  /\ sublist (remove_stationary_drift positions) positions.
Proof.
  intros Hne. unfold remove_stationary_drift. destruct positions as [|first l]; [done|]. cbn [length]. destruct (Nat.ltb_spec (S (length l)) 2).
  - destruct l; [|cbn in *; lia]. by exists [].
  - cbn [tail]. change (position_at (first :: l) 0) with first. destruct (keep_moved_all l first [] I) as (kept & E & Hk). exists kept.
    split; [done|]. split; [done|]. destruct (fold_sublist keep_moved id l [first]) as (kept' & E' & Hs).
    { intros r i _. unfold keep_moved. destruct (last r); [destruct (moved _ _)|]; auto. }
    rewrite E'. apply sublist_skip. by rewrite map_id in Hs.
Qed.

(** C36: a cleaned drive is a part of the drive's valid positions in their order, from the
    first of them, each rounded once; where there are three valid positions or more, any
    two in a row are at least five metres apart, or ten when the second is slower than
    five kilometres an hour; and a drive is refused exactly when it has more than 65536
    positions. *)
Theorem cleaned_drive positions :
  match prepare_positions_for_tile_rendering_v1 positions with
  | Err OversizedDrive => MAX_RAW_MAP_POSITIONS_PER_DRIVE < Z.of_nat (length positions)
  | Ok route =>
      Z.of_nat (length positions) <= MAX_RAW_MAP_POSITIONS_PER_DRIVE /\
      let valid := filter (fun p => position_valid p = true) positions in
      exists kept, route = map point_of_position kept /\ sublist kept valid /\ head kept = head valid
      /\ ((3 <= length valid)%nat -> exists first rest, kept = first :: rest /\ all_moved first rest)
  end.
Proof.
  unfold prepare_positions_for_tile_rendering_v1. destruct (Z.ltb_spec MAX_RAW_MAP_POSITIONS_PER_DRIVE (Z.of_nat (length positions))); [done|].
  split; [done|]. set (valid := filter _ _). cbv zeta. destruct (Nat.ltb_spec (length valid) 3).
  - exists valid. split; [done|]. split; [done|]. split; [done|]. lia.
  - assert (Hne : valid <> []) by (intros E; rewrite E in *; cbn in *; lia).
    destruct (remove_outliers_sublist valid Hne) as (kept & Eo & Hs).
    destruct (remove_drift_spec (remove_outliers valid)) as (rest & Ed & Hm & Hs'); [by rewrite Eo|].
    assert (Ef : position_at (remove_outliers valid) 0 = position_at valid 0) by by rewrite Eo.
    exists (remove_stationary_drift (remove_outliers valid)). split; [done|]. split; [by etrans|]. rewrite Ed, Ef in *. split.
    + cbn [head]. by destruct valid.
    + intros _. by exists (position_at valid 0), rest.
Qed.
End Clean.
