(* ===== verification/TileRoute.v ===== *)
(** * Map tiles: the simplified route

    The kernel of [TileRaster] ends on every drive, and what its simplification keeps: a
    point is dropped only near the chord of the points kept around it, and the guard cuts
    every range that is too long or bends too far. *)
From stdpp Require Import sorting.
From S2P Require Import Prelude F64 BTree TileRaster TileGen.
Local Open Scope Z_scope.
Local Open Scope list_scope.

(** ** Steps *)

Lemma bind_gives {E A B} (m : steps E A) (f : A -> steps E B) b :
  (m ≫= f).2 = Some b <-> exists a, m.2 = Some a /\ (f a).2 = Some b.
Proof. unfold mbind, steps_bind. destruct m as [l [a|]]; cbn; naive_solver. Qed.
Lemma act_gives {E} (e : E) (u : unit) : (act e).2 = Some u <-> u = ().
Proof. destruct u. by split. Qed.
Lemma ret_gives {E A} (a b : A) : (mret (M := steps E) a).2 = Some b <-> a = b.
Proof. cbn. naive_solver. Qed.
Lemma act_bind {E A} (e : E) (f : unit -> steps E A) : (act e ≫= f).2 = (f ()).2.
Proof. done. Qed.
Lemma ret_bind {E A B} (a : A) (f : A -> steps E B) : (mret a ≫= f) = f a.
Proof. unfold mbind, steps_bind, mret, steps_ret. cbn. by destruct (f a). Qed.
Lemma every_bind {A} n i (f : unit -> step A) : (every n i ≫= f).2 = (f ()).2.
Proof. unfold every. by case_match. Qed.
Lemma checkpoint_bind {A} (f : unit -> step A) : (checkpoint_step ≫= f).2 = (f ()).2.
Proof. done. Qed.

(** A fold ends when each of its steps does, under an invariant of what was done. *)
Lemma steps_fold_prefix {E S X} (I : list X -> S -> Prop) (f : S -> X -> steps E S) (l : list X) (s : S) :
  I [] s ->
  (forall before i after s, l = before ++ i :: after -> I before s -> exists s', (f s i).2 = Some s' /\ I (before ++ [i]) s') ->
  exists s', (steps_fold f s l).2 = Some s' /\ I l s'.
Proof.
  intros Hs Hf. assert (H : forall before after s, l = before ++ after -> I before s ->
    exists s', (steps_fold f s after).2 = Some s' /\ I l s').
  { intros before after. revert before. induction after as [|i after IH]; intros before s0 El H0; cbn [steps_fold].
    - rewrite app_nil_r in El. subst. by exists s0.
    - destruct (Hf before i after s0 El H0) as (s1 & E1 & H1). destruct (IH (before ++ [i]) s1) as (s2 & E2 & H2);
        [by rewrite <- app_assoc|done|]. exists s2. split; [|done]. apply bind_gives. by exists s1. }
  by apply (H []).
Qed.
Lemma steps_fold_ends {E S X} (f : S -> X -> steps E S) (l : list X) (s : S) :
  (forall s i, i ∈ l -> is_Some (f s i).2) -> is_Some (steps_fold f s l).2.
Proof.
  intros Hf. destruct (steps_fold_prefix (fun _ _ => True) f l s) as (r & Er & _); [done| |by exists r].
  intros before i after s0 -> _. destruct (Hf s0 i) as [s1 E1]; [set_solver|]. by exists s1.
Qed.

Lemma ltb_total_trans x y z : f64_ltb x y = true -> f64_ltb x z = false -> f64_ltb y z = false.
Proof.
  intros Hxy Hxz. apply not_true_iff_false. intros Hyz. apply not_true_iff_false in Hxz. apply Hxz.
  rewrite f64_ltb_rank in *. destruct Hxy as (? & ? & Hxy), Hyz as (? & ? & Hyz). split_and!; [done..|].
  destruct (rank x) as [[a b] c], (rank y) as [[a' b'] c'], (rank z) as [[a2 b2] c2]. cbn in *. lia.
Qed.
Lemma ltb_irrefl x : f64_ltb x x = false.
Proof.
  apply not_true_iff_false. rewrite f64_ltb_rank. intros (_ & _ & H). destruct (rank x) as [[a b] c]. cbn in H. lia.
Qed.
Lemma ltb_not_nan_r x y : f64_ltb x y = true -> f64_is_nan y = false.
Proof. rewrite f64_ltb_rank. by intros (_ & ? & _). Qed.
(** A bound that does not lie below the greatest lies below none. *)
Lemma ltb_under eps m d : f64_is_nan m = false -> f64_ltb eps m = false -> f64_ltb m d = false -> f64_ltb eps d = false.
Proof.
  intros Hm He Hd. apply not_true_iff_false in He, Hd. apply not_true_iff_false. intros H. rewrite f64_ltb_rank in *.
  destruct H as (Hne & Hnd & H). assert (Hr : ~ rank_lt (rank eps) (rank m)) by naive_solver.
  assert (Hr' : ~ rank_lt (rank m) (rank d)) by naive_solver.
  destruct (rank eps) as [[a b] c], (rank m) as [[a' b'] c'], (rank d) as [[a2 b2] c2]. cbn in *. lia.
Qed.

Lemma elem_of_inner_range (i a b : nat) : i ∈ inner_range a b <-> (a < i < b)%nat.
Proof. unfold inner_range. rewrite elem_of_seq. lia. Qed.

Section Route.
Context `{Libm} `{TileLibm}.
Variable points : list Point.

(** ** The scan *)

Definition turn (a b i : nat) : f64 := perpendicular_distance (at_ points i) (at_ points a) (at_ points b).

Lemma scan_point_gives a b s i :
  (scan_point points a b s i).2
  = Some (if f64_ltb (sn_max_distance s) (turn a b i) then MkScan (turn a b i) i (sn_examined s + 1)
          else MkScan (sn_max_distance s) (sn_split s) (sn_examined s + 1)).
Proof. unfold scan_point, turn. by rewrite every_bind. Qed.
Lemma scan_ends a b examined :
  exists s, (steps_fold (scan_point points a b) (MkScan f64_zero a examined) (inner_range a b)).2 = Some s
  /\ f64_is_nan (sn_max_distance s) = false /\ (forall i, (a < i < b)%nat -> f64_ltb (sn_max_distance s) (turn a b i) = false)
  /\ ((a < sn_split s < b)%nat \/ sn_max_distance s = f64_zero).
Proof.
  destruct (steps_fold_prefix (fun before s => f64_is_nan (sn_max_distance s) = false
    /\ (forall i, i ∈ before -> f64_ltb (sn_max_distance s) (turn a b i) = false)
    /\ ((sn_split s ∈ before) \/ sn_max_distance s = f64_zero)) (scan_point points a b) (inner_range a b) (MkScan f64_zero a examined))
    as (s & E & Hn & Hi & Hs).
  - split; [done|]. split; [intros i Hi; by apply elem_of_nil in Hi|by right].
  - intros before i after s _ (Hn & Hi & Hs). eexists. split; [apply scan_point_gives|].
    destruct (f64_ltb (sn_max_distance s) (turn a b i)) eqn:E; cbn [sn_max_distance sn_split].
    + split; [by eapply ltb_not_nan_r|]. split; [|left; set_solver]. intros j [Hj| ->%list_elem_of_singleton]%elem_of_app.
      * by eapply ltb_total_trans; [|apply Hi].
      * apply ltb_irrefl.
    + split; [done|]. split; [|destruct Hs; [left; set_solver|by right]].
      intros j [Hj| ->%list_elem_of_singleton]%elem_of_app; [by apply Hi|done].
  - exists s. split; [done|]. split; [done|]. split.
    + intros i Hab. apply Hi. by apply elem_of_inner_range.
    + destruct Hs as [Hs|Hs]; [left; by apply elem_of_inner_range|by right].
Qed.

(** ** The points the simplification keeps *)

Definition kept (keep : list bool) (i : nat) : Prop := keep !! i = Some true.
(** Two kept points with none between. *)
Definition gap (keep : list bool) (p : nat * nat) : Prop :=
  (p.1 < p.2)%nat /\ kept keep p.1 /\ kept keep p.2 /\ forall i, (p.1 < i < p.2)%nat -> keep !! i = Some false.
Definition near (epsilon : f64) (p : nat * nat) : Prop :=
  forall i, (p.1 < i < p.2)%nat -> f64_ltb epsilon (turn p.1 p.2 i) = false.

(** The gaps still on the stack and those that are settled. *)
Record settling (epsilon : f64) (keep : list bool) (stack settled : list (nat * nat)) : Prop := MkSettling {
  st_gaps : Forall (gap keep) (stack ++ settled);
  st_once : NoDup (stack ++ settled);
  st_covered : forall i, keep !! i = Some false -> exists p, p ∈ stack ++ settled /\ (p.1 < i < p.2)%nat;
  st_near : Forall (near epsilon) settled;
}.

Definition work (stack : list (nat * nat)) : nat := sum_list_with (fun p => 2 * (p.2 - p.1) - 1)%nat stack.
Lemma work_cons a b stack : work ((a, b) :: stack) = (2 * (b - a) - 1 + work stack)%nat.
Proof. done. Qed.

Lemma settle epsilon keep p stack settled :
  settling epsilon keep (p :: stack) settled -> near epsilon p -> settling epsilon keep stack (p :: settled).
Proof.
  intros [Hg Ho Hc Hn] Hp. assert (Hperm : (p :: stack) ++ settled ≡ₚ stack ++ p :: settled) by (cbn; by rewrite Permutation_middle).
  split; [by rewrite <- Hperm|by rewrite <- Hperm| |by constructor].
  intros i Hi. destruct (Hc i Hi) as (q & Hq & Hr). exists q. split; [by rewrite <- Hperm|done].
Qed.

(** Gaps that share an inner point are one. *)
Lemma gaps_equal keep p q i : gap keep p -> gap keep q -> (p.1 < i < p.2)%nat -> (q.1 < i < q.2)%nat -> p = q.
Proof.
  intros (_ & Hp1 & Hp2 & Hp) (_ & Hq1 & Hq2 & Hq) Hi Hi'. unfold kept in *.
  assert (H1 : ~ (p.1 < q.1 < p.2)%nat) by (intros Hx; specialize (Hp _ Hx); congruence).
  assert (H2 : ~ (p.1 < q.2 < p.2)%nat) by (intros Hx; specialize (Hp _ Hx); congruence).
  assert (H3 : ~ (q.1 < p.1 < q.2)%nat) by (intros Hx; specialize (Hq _ Hx); congruence).
  assert (H4 : ~ (q.1 < p.2 < q.2)%nat) by (intros Hx; specialize (Hq _ Hx); congruence).
  destruct p, q. cbn in *. f_equal; lia.
Qed.

Lemma gap_insert keep p m : gap keep p -> ~ (p.1 < m < p.2)%nat -> gap (<[m := true]> keep) p.
Proof.
  intros (Hl & H1 & H2 & Hi) Hm. unfold gap, kept in *. split_and!; [done| | |].
  - destruct (decide (m = p.1)) as [->|]; [apply list_lookup_insert_eq; by eapply lookup_lt_Some|by rewrite list_lookup_insert_ne].
  - destruct (decide (m = p.2)) as [->|]; [apply list_lookup_insert_eq; by eapply lookup_lt_Some|by rewrite list_lookup_insert_ne].
  - intros i Hr. rewrite list_lookup_insert_ne; [by apply Hi|]. intros ->. done.
Qed.

Lemma split_gap epsilon keep a b m stack settled :
  settling epsilon keep ((a, b) :: stack) settled -> (a < m < b)%nat ->
  settling epsilon (<[m := true]> keep) ((m, b) :: (a, m) :: stack) settled.
Proof.
  intros [Hg Ho Hc Hn] Hm. cbn [app] in *. apply Forall_cons in Hg as [Hp Hg]. apply NoDup_cons in Ho as [Hni Ho].
  destruct Hp as (Hab & Ha & Hb & Hin). cbn [fst snd] in *. pose proof (Hin m Hm) as Hkm.
  assert (Hkm' : <[m := true]> keep !! m = Some true) by (apply list_lookup_insert_eq; by eapply lookup_lt_Some).
  assert (Hother : forall i, i <> m -> <[m := true]> keep !! i = keep !! i) by (intros; by apply list_lookup_insert_ne).
  assert (Hne : forall q, q ∈ stack ++ settled -> q.1 <> m /\ q.2 <> m).
  { intros q Hq. rewrite Forall_forall in Hg. destruct (Hg q Hq) as (_ & H1 & H2 & _). unfold kept in *.
    split; intros Hx; rewrite Hx in *; congruence. }
  split.
  - repeat constructor; unfold kept; cbn [fst snd]; [lia|done|by rewrite Hother by lia| |lia|by rewrite Hother by lia|done| |].
    + intros i Hi. rewrite Hother by lia. apply Hin. lia.
    + intros i Hi. rewrite Hother by lia. apply Hin. lia.
    + rewrite Forall_forall in *. intros q Hq. apply gap_insert; [by apply Hg|]. intros Hmq. apply Hni.
      rewrite (gaps_equal keep (a, b) q m); [done|split_and!; done|by apply Hg|done|done].
  - apply NoDup_cons. split.
    + intros [[= ?]|Hq]%elem_of_cons; [lia|]. by destruct (Hne _ Hq).
    + apply NoDup_cons. split; [|done]. intros Hq. by destruct (Hne _ Hq).
  - intros i Hi. destruct (decide (i = m)) as [->|Him]; [congruence|]. rewrite Hother in Hi by done.
    destruct (Hc i Hi) as (q & [->|Hq]%elem_of_cons & Hr); cbn [fst snd] in *.
    + destruct (decide (i < m)%nat); [exists (a, m)|exists (m, b)]; cbn; (split; [set_solver|lia]).
    + exists q. split; [set_solver|done].
  - done.
Qed.

(** The loop ends and leaves settled gaps alone. *)
Lemma rdp_loop_spec epsilon fuel keep stack settled examined :
  f64_ltb epsilon f64_zero = false -> settling epsilon keep stack settled -> (work stack <= fuel)%nat ->
  exists keep' settled', (rdp_loop fuel points epsilon keep stack examined).2 = Some keep' /\ settling epsilon keep' [] settled'
  /\ length keep' = length keep /\ (forall i, kept keep i -> kept keep' i).
Proof.
  intros He. revert keep stack settled examined. induction fuel as [|fuel IH]; intros keep [|[a b] stack] settled examined Hs Hw.
  1,3: by exists keep, settled.
  { exfalso. destruct Hs as [Hg _ _ _]. apply Forall_cons in Hg as [(Hab & _) _]. cbn in Hab. rewrite work_cons in Hw. lia. }
  pose proof Hs as [Hg _ _ _]. apply Forall_cons in Hg as [(Hab & _) _]. cbn [fst snd] in Hab.
  assert (Hw' : (work stack + (2 * (b - a) - 1) <= S fuel)%nat) by (rewrite work_cons in Hw; lia).
  cbn [rdp_loop]. rewrite checkpoint_bind. destruct (b - a <=? 1)%nat eqn:Eab.
  - apply Nat.leb_le in Eab. apply (IH keep stack ((a, b) :: settled)); [|lia]. apply settle; [done|]. intros i Hi. cbn in Hi. lia.
  - apply Nat.leb_gt in Eab. destruct (scan_ends a b examined) as (s & Es & Hn & Hi & Hsp).
    unfold mbind at 1, steps_bind at 1. rewrite Es. cbn [snd]. destruct (f64_ltb epsilon (sn_max_distance s)) eqn:Ee.
    + assert (Hm : (a < sn_split s < b)%nat) by (destruct Hsp as [?|Hz]; [done|rewrite Hz in Ee; congruence]).
      destruct (IH (<[sn_split s := true]> keep) ((sn_split s, b) :: (a, sn_split s) :: stack) settled (sn_examined s))
        as (keep' & settled' & E' & Hs' & Hl & Hk); [by apply split_gap|rewrite !work_cons; lia|].
      exists keep', settled'. split; [done|]. split; [done|]. split; [by rewrite Hl, length_insert|].
      intros i Hki. apply Hk. unfold kept in *. destruct (decide (sn_split s = i)) as [->|];
        [apply list_lookup_insert_eq; by eapply lookup_lt_Some|by rewrite list_lookup_insert_ne].
    + apply (IH keep stack ((a, b) :: settled)); [|lia]. apply settle; [done|]. intros i Hr. cbn [fst snd] in *.
      apply (ltb_under epsilon (sn_max_distance s)); [done|done|by apply Hi].
Qed.
(** ** The mask *)

Lemma rdp_keep_mask_spec epsilon :
  f64_ltb epsilon f64_zero = false -> (2 < length points)%nat ->
  exists keep, (rdp_keep_mask points epsilon).2 = Some keep /\ length keep = length points
  /\ kept keep 0 /\ kept keep (length points - 1)
  /\ forall i, keep !! i = Some false -> exists p, gap keep p /\ near epsilon p /\ (p.1 < i < p.2)%nat.
Proof.
  intros He Hn. unfold rdp_keep_mask. set (n := length points) in *. rewrite (proj2 (Nat.leb_gt n 2)) by lia.
  set (keep := <[(n - 1)%nat := true]> (<[0%nat := true]> (replicate n false))).
  assert (Hl : length keep = n) by (unfold keep; by rewrite !length_insert, length_replicate).
  assert (Hfirst : kept keep 0).
  { unfold kept, keep. rewrite list_lookup_insert_ne by lia. apply list_lookup_insert_eq. rewrite length_replicate. lia. }
  assert (Hlast : kept keep (n - 1)).
  { unfold kept, keep. apply list_lookup_insert_eq. rewrite length_insert, length_replicate. lia. }
  assert (Hi : forall i, (0 < i < n - 1)%nat -> keep !! i = Some false).
  { intros i Hi. unfold keep. rewrite !list_lookup_insert_ne by lia. apply lookup_replicate. lia. }
  destruct (rdp_loop_spec epsilon (2 * n) keep [(0%nat, (n - 1)%nat)] [] 0 He) as (keep' & settled & Ek & [Hg _ Hc Hs] & Hl' & Hk).
  - split; cbn [app].
    + repeat constructor; [cbn; lia|done|done|done].
    + apply NoDup_singleton.
    + intros i Hf. exists (0%nat, (n - 1)%nat). split; [set_solver|]. cbn. unfold kept in *.
      assert (i < n)%nat by (rewrite <- Hl; by eapply lookup_lt_Some).
      assert (i <> 0%nat) by (intros ->; congruence). assert (i <> (n - 1)%nat) by (intros ->; congruence). lia.
    + constructor.
  - rewrite work_cons. cbn. lia.
  - exists keep'. split; [done|]. split; [by rewrite Hl'|]. split; [by apply Hk|]. split; [by apply Hk|].
    intros i Hf. destruct (Hc i Hf) as (p & Hp & Hr). rewrite Forall_forall in Hg, Hs. exists p. auto.
Qed.

Lemma elem_of_kept_from (k i : nat) (mask : list bool) :
  i ∈ kept_from k mask <-> (k <= i)%nat /\ mask !! (i - k)%nat = Some true.
Proof.
  revert k. induction mask as [|keep mask IH]; intros k; cbn [kept_from].
  - split; [by intros ?%elem_of_nil|]. by intros [_ ?].
  - assert (Hstep : (S k <= i)%nat /\ mask !! (i - S k)%nat = Some true <-> (S k <= i)%nat /\ (keep :: mask) !! (i - k)%nat = Some true).
    { split; intros [Hk Hm]; (split; [done|]); replace (i - k)%nat with (S (i - S k)) in * by lia; done. }
    destruct keep.
    + rewrite elem_of_cons, IH, Hstep. split.
      * intros [->|[? ?]]; [split; [done|by rewrite Nat.sub_diag]|split; [lia|done]].
      * intros [Hk Hm]. destruct (decide (i = k)) as [->|]; [by left|right; split; [lia|done]].
    + rewrite IH, Hstep. split; [intros [? ?]; split; [lia|done]|]. intros [Hk Hm].
      destruct (decide (i = k)) as [->|]; [by rewrite Nat.sub_diag in Hm|split; [lia|done]].
Qed.
Lemma kept_from_sorted k mask : StronglySorted lt (kept_from k mask).
Proof.
  revert k. induction mask as [|[] mask IH]; intros k; cbn [kept_from]; [constructor| |apply IH].
  constructor; [apply IH|]. apply Forall_forall. intros i [Hi _]%elem_of_kept_from. lia.
Qed.

(** ** The guard *)

Variables max_segment guard_meters : f64.

Definition path (a b : nat) : f64 :=
  fold_left (fun walked i => f64_add walked (distance_meters (at_ points (i - 1)) (at_ points i))) (inner_range a b ++ [b]) f64_zero.
(** A range the guard lets stand: it has no inner point, or it is not too long and no
    point in it lies too far from its chord. *)
Definition fine (a b : nat) : Prop :=
  b = S a \/ f64_ltb max_segment (path a b) = false
             /\ (f64_ltb f64_zero guard_meters = true -> forall i, (a < i < b)%nat -> f64_ltb guard_meters (turn a b i) = false).
(** A route from one point to another by ranges that stand. *)
Fixpoint chain (a : nat) (cuts : list nat) (b : nat) : Prop :=
  match cuts with
  | [] => a = b
  | c :: cuts => (a < c)%nat /\ fine a c /\ chain c cuts b
  end.
Lemma chain_app a l b l' c : chain a l b -> chain b l' c -> chain a (l ++ l') c.
Proof. revert a. induction l as [|x l IH]; intros a; cbn; [by intros ->|]. intros (? & ? & ?) ?. naive_solver. Qed.
Lemma chain_last a l b : chain a l b -> l = [] \/ last l = Some b.
Proof.
  revert a. induction l as [|x l IH]; intros a; cbn; [by left|]. intros (_ & _ & Hc). right. destruct (IH x Hc) as [->|E]; cbn in *; [by subst|].
  destruct l; [done|]. exact E.
Qed.
Lemma chain_sorted a l b : chain a l b -> StronglySorted lt (a :: l).
Proof.
  revert a. induction l as [|x l IH]; intros a; cbn [chain]; [by repeat constructor|]. intros (Hx & _ & Hc).
  pose proof (IH x Hc) as Hs. constructor; [done|]. apply StronglySorted_cons in Hs as [Hf _]. constructor; [done|].
  eapply Forall_impl; [exact Hf|]. cbn. lia.
Qed.

(** Ranges end to end. *)
Fixpoint joined (a : nat) (stack : list (nat * nat)) (b : nat) : Prop :=
  match stack with
  | [] => a = b
  | p :: stack => p.1 = a /\ (p.1 < p.2)%nat /\ joined p.2 stack b
  end.

Lemma guard_point_gives a b g i :
  (guard_point points a b g i).2
  = Some (let path_length := f64_add (gs_path_length g) (distance_meters (at_ points (i - 1)) (at_ points i)) in
          if f64_ltb (gs_max_perpendicular g) (turn a b i) then MkGuardScan path_length (turn a b i) (Some i)
          else MkGuardScan path_length (gs_max_perpendicular g) (gs_curve_split g)).
Proof. unfold guard_point, turn. by rewrite every_bind. Qed.
Lemma guard_ends a b :
  exists g, (steps_fold (guard_point points a b) (MkGuardScan f64_zero f64_zero None) (inner_range a b)).2 = Some g
  /\ f64_add (gs_path_length g) (distance_meters (at_ points (b - 1)) (at_ points b)) = path a b
  /\ f64_is_nan (gs_max_perpendicular g) = false
  /\ (forall i, (a < i < b)%nat -> f64_ltb (gs_max_perpendicular g) (turn a b i) = false)
  /\ (forall m, gs_curve_split g = Some m -> (a < m < b)%nat).
Proof.
  destruct (steps_fold_prefix (fun before g =>
      gs_path_length g = fold_left (fun walked i => f64_add walked (distance_meters (at_ points (i - 1)) (at_ points i))) before f64_zero
      /\ f64_is_nan (gs_max_perpendicular g) = false
      /\ (forall i, i ∈ before -> f64_ltb (gs_max_perpendicular g) (turn a b i) = false)
      /\ (forall m, gs_curve_split g = Some m -> m ∈ before)) (guard_point points a b) (inner_range a b) (MkGuardScan f64_zero f64_zero None))
    as (g & Eg & Hp & Hn & Hi & Hs).
  - split_and!; [done|done|by intros i ?%elem_of_nil|done].
  - intros before i after g _ (Hp & Hn & Hi & Hs). eexists. split; [apply guard_point_gives|]. cbn zeta. rewrite fold_left_app, Hp.
    cbn [fold_left].
    destruct (f64_ltb (gs_max_perpendicular g) (turn a b i)) eqn:Et; cbn [gs_path_length gs_max_perpendicular gs_curve_split].
    + split_and!; [done|by eapply ltb_not_nan_r| |intros m [= ->]; set_solver]. intros j [Hj| ->%list_elem_of_singleton]%elem_of_app.
      * by eapply ltb_total_trans; [|apply Hi].
      * apply ltb_irrefl.
    + split_and!; [done|done| |intros m Hm; set_solver]. intros j [Hj| ->%list_elem_of_singleton]%elem_of_app; [by apply Hi|done].
  - exists g. unfold path. rewrite fold_left_app, <- Hp. split_and!; [done|done|done| |].
    + intros i Hr. apply Hi. by apply elem_of_inner_range.
    + intros m Hm. by apply elem_of_inner_range, Hs.
Qed.

Lemma walk_to_ends a target walked l : exists found, (walk_to points a target walked l).2 = Some found /\ forall m, found = Some m -> m ∈ l.
Proof.
  revert walked. induction l as [|i l IH]; intros walked; cbn [walk_to]; [by exists None|]. rewrite every_bind.
  destruct (f64_leb _ _); [exists (Some i); split; [done|intros m [= ->]; left]|].
  destruct (IH (f64_add walked (distance_meters (at_ points (i - 1)) (at_ points i)))) as (found & Ef & Hf).
  exists found. split; [done|]. intros m Hm. right. by apply Hf.
Qed.
Lemma midpoint_ends a b length :
  exists found, (midpoint_by_path_length points a b length).2 = Some found
  /\ (forall m, found = Some m -> (a < m < b)%nat) /\ (found = None -> (b <= a + 1)%nat).
Proof.
  unfold midpoint_by_path_length. destruct (b <=? a + 1)%nat eqn:El.
  - apply Nat.leb_le in El. exists None. done.
  - apply Nat.leb_gt in El. destruct (walk_to_ends a (f64_div length f64_two) f64_zero (inner_range a b)) as (found & Ef & Hf).
    eexists. split; [apply bind_gives; exists found; split; [done|reflexivity]|]. split; [|by destruct found].
    intros m. destruct found as [i|].
    + intros [= <-]. by apply elem_of_inner_range, Hf.
    + intros Em%(inj Some). subst m. assert (Hd : ((b - a) / 2 < b - a)%nat) by (apply Nat.div_lt; lia). set (d := ((b - a) / 2)%nat) in *. lia.
Qed.

Lemma append_guarded_spec fuel stack output a b :
  joined a stack b -> (work stack <= fuel)%nat ->
  exists cuts, (append_guarded fuel points stack max_segment guard_meters output).2 = Some (fold_left push_new (map (at_ points) cuts) output)
  /\ chain a cuts b /\ forall p, p ∈ stack -> p.2 ∈ cuts.
Proof.
  revert stack output a. induction fuel as [|fuel IH]; intros [|[s e] stack] output a Hj Hw; cbn [joined fst snd] in Hj.
  1,3: exists []; split; [done|]; split; [done|]; by intros p ?%elem_of_nil.
  { destruct Hj as (_ & Hlt & _). rewrite work_cons in Hw. lia. }
  destruct Hj as (-> & Hlt & Hj). rewrite work_cons in Hw. cbn [append_guarded]. rewrite checkpoint_bind, (proj2 (Nat.leb_gt _ _)) by lia.
  destruct (guard_ends a e) as (g & Eg & Hp & Hn & Hi & Hs). unfold mbind at 1, steps_bind at 1. rewrite Eg. cbn [snd]. rewrite Hp.
  set (too_long := f64_ltb max_segment (path a e)). set (too_curvy := f64_ltb f64_zero guard_meters && f64_ltb guard_meters (gs_max_perpendicular g)).
  assert (Hc : exists chosen, ((if too_long || too_curvy then midpoint ← midpoint_by_path_length points a e (path a e);
      mret (chosen_split too_curvy (gs_curve_split g) midpoint) else mret None) : step (option nat)).2 = Some chosen
      /\ (forall m, chosen = Some m -> (a < m < e)%nat) /\ (chosen = None -> fine a e)).
  { destruct (too_long || too_curvy) eqn:Et.
    - destruct (midpoint_ends a e (path a e)) as (found & Ef & Hf & Hnone). eexists.
      split; [apply bind_gives; exists found; split; [done|reflexivity]|]. unfold chosen_split, opt_or. split.
      + intros m. destruct too_curvy, (gs_curve_split g), found; naive_solver.
      + intros Hno. left. assert (Hno' : found = None) by (destruct too_curvy, (gs_curve_split g), found; done). specialize (Hnone Hno'). lia.
    - apply orb_false_iff in Et as [Etl Etc]. exists None. split; [done|]. split; [done|]. intros _. right. split; [done|].
      intros Hg i Hr. unfold too_curvy in Etc. rewrite Hg in Etc. cbn in Etc. by eapply ltb_under; [| |apply Hi]. }
  destruct Hc as (chosen & Ec & Hm & Hfine). unfold mbind at 1, steps_bind at 1. rewrite Ec. cbn [snd]. destruct chosen as [m|].
  - specialize (Hm m eq_refl). destruct (IH ((a, m) :: (m, e) :: stack) output a) as (cuts & E' & Hch & Hcov);
      [cbn; split_and!; done || lia|rewrite !work_cons; lia|]. exists cuts. split; [done|]. split; [done|].
    intros p [->|Hp']%elem_of_cons; [apply (Hcov (m, e)); set_solver|apply Hcov; set_solver].
  - destruct (IH stack (push_new output (at_ points e)) e Hj ltac:(lia)) as (cuts & E' & Hch & Hcov). exists (e :: cuts).
    split; [done|]. split; [cbn; auto|]. intros p [->|Hp']%elem_of_cons; [left|right; by apply Hcov].
Qed.

End Route.

(** ** The whole simplification *)

Section Simplified.
Context `{Libm} `{TileLibm}.

Lemma kept_windows (l : list nat) a b :
  StronglySorted lt l -> (a, b) ∈ zip l (tail l) -> (a < b)%nat /\ a ∈ l /\ b ∈ l /\ forall x, x ∈ l -> ~ (a < x < b)%nat.
Proof.
  induction l as [|y l IH]; cbn [tail zip zip_with]; [by intros _ ?%elem_of_nil|].
  intros [Hs Hf]%StronglySorted_inv. destruct l as [|z l]; cbn [zip zip_with]; [by intros ?%elem_of_nil|].
  rewrite Forall_forall in Hf. intros [[= -> ->]|Hab]%elem_of_cons.
  - pose proof (Hf z ltac:(left)) as Hyz. split; [done|]. split; [left|]. split; [right; left|].
    intros x [->|[->|Hx]%elem_of_cons]%elem_of_cons; [lia..|]. apply StronglySorted_inv in Hs as [_ Hz]. rewrite Forall_forall in Hz.
    specialize (Hz x Hx). lia.
  - destruct (IH Hs Hab) as (? & Ha & Hb & Hx). split; [done|]. split; [by right|]. split; [by right|].
    intros x [->|Hxl]%elem_of_cons; [|by apply Hx]. specialize (Hf a Ha). lia.
Qed.

Lemma fold_windows points tier l a b output :
  (forall p, p ∈ zip (a :: l) l -> (p.1 < p.2)%nat) -> last (a :: l) = Some b ->
  forall k, exists cuts,
  (steps_fold (guard_window points tier) output (imap (fun i w => ((k + i)%nat, w)) (zip (a :: l) l))).2
  = Some (fold_left push_new (map (at_ points) cuts) output)
  /\ chain points (lt_max_segment_meters tier) (lt_curve_guard_meters tier) a cuts b /\ forall x, x ∈ l -> x ∈ cuts.
Proof.
  revert a output. induction l as [|c l IH]; intros a output Hlt Hb k.
  - exists []. cbn in *. split; [done|]. split; [congruence|done].
  - cbn [zip zip_with imap]. destruct (append_guarded_spec points (lt_max_segment_meters tier) (lt_curve_guard_meters tier)
      (2 * (c - a)) [(a, c)] output a c) as (cuts & Ec & Hc & Hin).
    { cbn. split; [done|]. split; [apply (Hlt (a, c)); left|done]. } { rewrite work_cons. cbn. lia. }
    destruct (IH c (fold_left push_new (map (at_ points) cuts) output)) with (k := S k) as (cuts' & Ec' & Hc' & Hin').
    { intros p Hp. apply Hlt. by right. } { by rewrite <- Hb. }
    exists (cuts ++ cuts'). split; [|split].
    + cbn [steps_fold]. apply bind_gives. eexists. split; [unfold guard_window; rewrite every_bind; exact Ec|].
      rewrite map_app, fold_left_app, <- Ec'. f_equal. f_equal. apply imap_ext. intros i x _. cbn. f_equal. lia.
    + by eapply chain_app.
    + intros x [->|Hx]%elem_of_cons; [|apply elem_of_app; right; by apply Hin'].
      apply elem_of_app. left. apply (Hin (a, c)). left.
Qed.

(** A tier whose tolerances are numbers and whose segments are bounded. *)
Definition tier_ok (tier : LongRangeLodTier) : Prop :=
  f64_ltb (lt_epsilon_meters tier) f64_zero = false /\ f64_leb (lt_max_segment_meters tier) f64_zero = false.

(** What the simplification keeps of a route: the cuts, from the first point to the last,
    and the turns among them. *)
Record simplified (points : list Point) (tier : LongRangeLodTier) (turns cuts : list nat) (route : list Point) : Prop := MkSimplified {
  sf_route : route = fold_left push_new (map (at_ points) (tail cuts)) [at_ points 0];
  sf_first : head cuts = Some 0%nat;
  sf_last : last cuts = Some (length points - 1)%nat;
  sf_sorted : StronglySorted lt cuts;
  sf_turns : forall i, i ∈ turns -> i ∈ cuts;
  (** A point that is no turn is near the chord of the turns around it. *)
  sf_near : forall i, (i < length points)%nat -> i ∉ turns ->
    exists a b, (a < i < b)%nat /\ a ∈ turns /\ b ∈ turns /\ (forall j, j ∈ turns -> ~ (a < j < b)%nat)
    /\ f64_ltb (lt_epsilon_meters tier) (turn points a b i) = false;
  (** Two cuts in a row are neighbours or a short and straight enough range. *)
  sf_fine : forall a b, (a, b) ∈ zip cuts (tail cuts) -> fine points (lt_max_segment_meters tier) (lt_curve_guard_meters tier) a b;
}.

Lemma chain_fine points m g a l b p q : chain points m g a l b -> (p, q) ∈ zip (a :: l) l -> fine points m g p q.
Proof.
  revert a. induction l as [|c l IH]; intros a; cbn [zip zip_with chain]; [by intros _ ?%elem_of_nil|].
  intros (_ & Hf & Hc) [[= -> ->]|Hpq]%elem_of_cons; [done|]. by apply (IH c).
Qed.

Lemma simplify_spec points tier :
  tier_ok tier -> (2 < length points)%nat ->
  exists turns cuts route, (simplify_controlled points tier).2 = Some route /\ simplified points tier turns cuts route.
Proof.
  intros [He Hm] Hn. destruct (rdp_keep_mask_spec points _ He Hn) as (keep & Ek & Hl & Hfirst & Hlast & Hgap).
  unfold simplify_controlled. rewrite checkpoint_bind, (proj2 (Nat.leb_gt _ _)) by lia.
  set (turns := kept_from 0 keep).
  assert (Hin : forall i, i ∈ turns <-> kept keep i).
  { intros i. unfold turns. rewrite elem_of_kept_from, Nat.sub_0_r. unfold kept. split; [by intros [_ ?]|]. split; [lia|done]. }
  pose proof (kept_from_sorted 0 keep) as Hsort. fold turns in Hsort.
  assert (Hhead : exists rest, turns = 0%nat :: rest).
  { assert (H0' : 0%nat ∈ turns) by by apply Hin. destruct turns as [|t rest] eqn:Et; [by apply elem_of_nil in H0'|]. exists rest. f_equal.
    apply elem_of_cons in H0' as [?|Hx]; [done|]. apply StronglySorted_inv in Hsort as [_ Hf]. rewrite Forall_forall in Hf. specialize (Hf _ Hx). lia. }
  destruct Hhead as [rest Et].
  assert (Hend : last turns = Some (length points - 1)%nat).
  { destruct (last turns) as [z|] eqn:Ez; [|by apply last_None in Ez; rewrite Et in Ez].
    assert (Hz : z ∈ turns) by by apply last_Some_elem_of. assert (Hz' := proj1 (Hin z) Hz). apply lookup_lt_Some in Hz'.
    destruct (decide (z = length points - 1)%nat) as [->|Hne]; [done|]. exfalso.
    assert (Hx : (length points - 1)%nat ∈ turns) by by apply Hin. apply last_Some in Ez as [l' El']. rewrite El' in Hx, Hsort.
    apply elem_of_app in Hx as [Hx|Hx]; [|apply list_elem_of_singleton in Hx; lia].
    pose proof (StronglySorted_app_1_elem_of _ _ _ _ z Hsort Hx ltac:(left)). lia. }
  assert (Hnear : forall i, (i < length points)%nat -> i ∉ turns ->
    exists a b, (a < i < b)%nat /\ a ∈ turns /\ b ∈ turns /\ (forall j, j ∈ turns -> ~ (a < j < b)%nat)
    /\ f64_ltb (lt_epsilon_meters tier) (turn points a b i) = false).
  { intros i Hi Hni. assert (Hk : keep !! i = Some false).
    { destruct (keep !! i) as [[]|] eqn:Eki; [destruct Hni; by apply Hin|done|]. apply lookup_ge_None in Eki. lia. }
    destruct (Hgap i Hk) as ([a b] & (Hab & Ha & Hb & Hno) & Hne & Hr). cbn in *. exists a, b.
    split; [done|]. split; [by apply Hin|]. split; [by apply Hin|]. split; [|by apply Hne].
    intros j Hj Hr'. apply Hin in Hj. unfold kept in Hj. specialize (Hno j Hr'). congruence. }
  destruct rest as [|second rest].
  { exfalso. rewrite Et in Hend. cbn in Hend. injection Hend. lia. }
  destruct (fold_windows points tier (second :: rest) 0 (length points - 1) [at_ points 0]) with (k := 0%nat) as (cuts & Ec & Hc & Hcov).
  { intros [a b] Hp. rewrite Et in Hsort. by destruct (kept_windows (0%nat :: second :: rest) a b Hsort Hp) as (? & _). }
  { by rewrite <- Et. }
  exists turns, (0%nat :: cuts). eexists. split.
  - apply bind_gives. exists keep. split; [exact Ek|]. fold turns. rewrite Et. rewrite Hm. exact Ec.
  - split; [done|done| | |intros i Hi; rewrite Et in Hi; apply elem_of_cons in Hi as [->|Hi]; [left|right; by apply Hcov]|done|].
    + destruct (chain_last _ _ _ _ _ _ Hc) as [->|E']; [|destruct cuts; [done|exact E']]. cbn [chain] in Hc. exfalso. lia.
    + by eapply chain_sorted.
    + intros a b Hab. by eapply chain_fine.
Qed.
End Simplified.

(** ** Every drive ends, and where its segments lie *)

Definition ends {E A} (m : steps E A) : Prop := is_Some m.2.
Definition emits {E A} (P : E -> Prop) (m : steps E A) : Prop := Forall P m.1.

Lemma ends_ret {E A} (a : A) : ends (mret (M := steps E) a).
Proof. by exists a. Qed.
Lemma ends_act {E} (e : E) : ends (act e).
Proof. by exists (). Qed.
Lemma ends_bind {E A B} (m : steps E A) (f : A -> steps E B) : ends m -> (forall a, ends (f a)) -> ends (m ≫= f).
Proof. intros [a Ea] Hf. destruct (Hf a) as [b Eb]. exists b. apply bind_gives. by exists a. Qed.
Lemma ends_fold {E S X} (f : S -> X -> steps E S) (l : list X) (s : S) : (forall s i, ends (f s i)) -> ends (steps_fold f s l).
Proof. intros Hf. apply steps_fold_ends. intros. apply Hf. Qed.
Lemma emits_ret {E A} (P : E -> Prop) (a : A) : emits P (mret (M := steps E) a).
Proof. constructor. Qed.
Lemma emits_fuel {E A} (P : E -> Prop) : emits P (out_of_fuel (E := E) (A := A)).
Proof. constructor. Qed.
Lemma emits_act {E} (P : E -> Prop) (e : E) : P e -> emits P (act e).
Proof. intros He. by repeat constructor. Qed.
Lemma emits_bind {E A B} (P : E -> Prop) (m : steps E A) (f : A -> steps E B) : emits P m -> (forall a, emits P (f a)) -> emits P (m ≫= f).
Proof. unfold emits, mbind, steps_bind. intros Hm Hf. destruct m.2 as [a|]; [|done]. apply Forall_app. split; [done|apply Hf]. Qed.
Lemma emits_fold {E S X} (P : E -> Prop) (f : S -> X -> steps E S) (l : list X) (s : S) :
  (forall s i, emits P (f s i)) -> emits P (steps_fold f s l).
Proof. intros Hf. revert s. induction l as [|i l IH]; intros s; cbn [steps_fold]; [apply emits_ret|]. apply emits_bind; [apply Hf|apply IH]. Qed.
(** What follows a bound step is looked at before the step is split. *)
Create HintDb tile_steps discriminated.
#[export] Hint Resolve ends_ret ends_act emits_ret emits_fuel : tile_steps.
Ltac steps :=
  repeat match goal with
  | |- forall _, _ => intros
  | |- ends (_ ≫= _) => apply ends_bind
  | |- ends (steps_fold _ _ _) => apply ends_fold
  | |- ends (if ?b then _ else _) => destruct b
  | |- ends (match ?o with _ => _ end) => destruct o
  | |- emits _ (_ ≫= _) => apply emits_bind
  | |- emits _ (steps_fold _ _ _) => apply emits_fold
  | |- emits _ (if ?b then _ else _) => destruct b
  | |- emits _ (match ?o with _ => _ end) => destruct o
  | |- emits _ (act _) => apply emits_act
  | _ => solve [auto with tile_steps]
  end.

Section Drive.
Context `{Libm} `{TileLibm}.

Lemma ends_every n i : ends (every n i).
Proof. unfold every, checkpoint_step. steps. Qed.
#[local] Hint Resolve ends_every : tile_steps.
Lemma ends_walk n max_tile end_x end_y step_x step_y delta_x delta_y visit w :
  (forall x y, ends (visit x y)) -> ends (walk_tiles n max_tile end_x end_y step_x step_y delta_x delta_y visit w).
Proof. intros Hv. revert w. induction n as [|n IH]; intros w; cbn [walk_tiles]; steps. Qed.
Lemma ends_world zoom a b c d : ends (add_world_segment zoom a b c d).
Proof. unfold add_world_segment, visit_crossed_tiles. cbv zeta. apply ends_walk. steps. Qed.
#[local] Hint Resolve ends_world : tile_steps.
Lemma ends_projected zoom a b scale : ends (add_projected_segment zoom a b scale).
Proof. unfold add_projected_segment. cbv zeta. steps. Qed.
#[local] Hint Resolve ends_projected : tile_steps.
Lemma ends_multi_zoom points zoom_min zoom_max : ends (add_drive_multi_zoom points zoom_min zoom_max).
Proof. unfold add_drive_multi_zoom, add_projected_drive, add_projected_point, checkpoint_step. steps. Qed.
#[local] Hint Resolve ends_multi_zoom : tile_steps.
Lemma ends_simplify points tier : tier_ok tier -> ends (simplify_controlled points tier).
Proof.
  intros Ht. destruct (decide (2 < length points)%nat) as [Hn|Hn].
  - destruct (simplify_spec points tier Ht Hn) as (_ & _ & route & Er & _). by exists route.
  - unfold simplify_controlled. rewrite (proj2 (Nat.leb_le _ _)) by lia. apply ends_bind; [apply ends_act|steps].
Qed.
Lemma ends_tier points tier : tier_ok tier -> ends (visit_tier points tier).
Proof.
  intros Ht. pose proof (fun p => ends_simplify p tier Ht). unfold visit_tier, visit_run, checkpoint_step. steps.
Qed.

(** The tiers of the Hub. *)
Lemma lod_tiers_ok : Forall tier_ok LONG_RANGE_LOD_TIERS.
Proof. repeat constructor. Qed.

(** C16: a simplified route keeps the shape of the drive: it runs from the first point to
    the last through points of the drive in their order; a point that is no turn is
    within the tier's tolerance of the chord of the turns around it; and between two
    points in a row that are no neighbours the drive is no longer than the tier's longest
    segment and strays no farther than its guard. *)
Theorem route_keeps_its_shape points tier : tier ∈ LONG_RANGE_LOD_TIERS -> (2 < length points)%nat ->
  exists turns cuts route, (simplify_controlled points tier).2 = Some route /\ simplified points tier turns cuts route.
Proof. intros Ht. apply simplify_spec. pose proof lod_tiers_ok as Hok. rewrite Forall_forall in Hok. by apply Hok. Qed.

(** C19: the kernel ends on every drive, whatever its points: the loops of its
    simplification and of its guard take at most two steps per point. *)
Theorem every_drive_ends points : (visit_drive_lod_tiers points LONG_RANGE_LOD_TIERS).2 = Some ().
Proof.
  assert (He : ends (visit_drive_lod_tiers points LONG_RANGE_LOD_TIERS)).
  { unfold visit_drive_lod_tiers. apply steps_fold_ends. intros _ [i tier] Hi. apply elem_of_lookup_imap in Hi as (j & t & [= -> ->] & Ht).
    pose proof lod_tiers_ok as Hok. rewrite Forall_forall in Hok. destruct (ends_tier points t) as [u Eu]; [apply Hok; by eapply list_elem_of_lookup_2|].
    by exists u. }
  destruct He as [[] He]. exact He.
Qed.
End Drive.

(** Functions to evaluate the kernel with; they are not the platform's. *)
Definition sample_libm : Libm := {| f64_sin := fun x => x; f64_cos := fun _ => f64_one; f64_asin := fun x => x |}.
Definition sample_tile_libm : TileLibm := {| f64_tan := fun x => x; f64_ln := fun x => f64_sub x f64_one |}.
Definition sample_point (lat lon : Z) : Point := (f32_of_f64 (f64_lit lat 1000), f32_of_f64 (f64_lit lon 1000)).

Lemma route_keeps_its_shape_witness :
  let points := [sample_point 51500 (-100); sample_point 51501 (-101); sample_point 51502 (-100)] in
  let tier := MkLongRangeLodTier 8 10 (f64_of_Z 3) (f64_of_Z 50) (f64_of_Z 6) in
  tier ∈ LONG_RANGE_LOD_TIERS /\ (2 < length points)%nat /\
  exists turns cuts route, (simplify_controlled (H := sample_libm) points tier).2 = Some route
  /\ simplified (H := sample_libm) points tier turns cuts route.
Proof.
  cbv zeta. assert (Ht : MkLongRangeLodTier 8 10 (f64_of_Z 3) (f64_of_Z 50) (f64_of_Z 6) ∈ LONG_RANGE_LOD_TIERS) by (right; right; left).
  split; [exact Ht|]. split; [cbn; lia|]. apply (route_keeps_its_shape (H := sample_libm)); [exact Ht|cbn; lia].
Defined.
