(* ===== verification/TileTally.v ===== *)
(** * Map tiles: what a generation adds up to

    The weights a generation carries are, per tier, the number of times each segment was
    drawn ([tally]), so what it ends with is the same for every order of the drives and
    every grouping into pages; and what the payload of a month holds. *)
From stdpp Require Import sorting.
From S2P Require Import Prelude RustStr F64 Bytes BTree TileRaster TileGen TileRoute.
From Stdlib Require Import SpecFloat.
Local Open Scope string_scope.
Local Open Scope Z_scope.
Local Open Scope list_scope.

(** ** Ordered maps that look the same *)

Section Extensional.
Context {K V : Type} `{O : OrdKey K}.
Implicit Types m : bmap K V.

Lemma bget_below k m : Forall (klt k) (bkeys m) -> bget k m = None.
Proof.
  intros Hf. destruct (bget k m) as [v|] eqn:E; [|done]. rewrite Forall_forall in Hf.
  destruct (klt_ne k k); [apply Hf, bget_keys; by exists v|done].
Qed.
Lemma bwf_ext m m' : bwf m -> bwf m' -> (forall k, bget k m = bget k m') -> m = m'.
Proof.
  unfold bwf. revert m'. induction m as [|[k v] m IH]; intros [|[k' v'] m'] Hm Hm' He; cbn [bkeys map fst] in *; [done| | |].
  - specialize (He k'). cbn in He. by rewrite key_compare_refl in He.
  - specialize (He k). cbn in He. by rewrite key_compare_refl in He.
  - apply StronglySorted_cons in Hm as [Hk Hm], Hm' as [Hk' Hm'].
    assert (k = k') as <-.
    { pose proof (He k) as E. pose proof (He k') as E'. cbn in E, E'. rewrite key_compare_refl in E, E'.
      destruct (key_compare k k') eqn:C; [by apply key_compare_eq| |].
      - rewrite bget_below in E; [done|]. eapply Forall_impl; [exact Hk'|]. intros x. by apply key_compare_trans.
      - assert (C' : key_compare k' k = Lt) by by rewrite key_compare_opp, C. rewrite C' in E'. rewrite bget_below in E'; [done|].
        eapply Forall_impl; [exact Hk|]. intros x. by apply key_compare_trans. }
    assert (v = v') as <-.
    { specialize (He k). cbn in He. rewrite key_compare_refl in He. by injection He. }
    f_equal. apply IH; [done..|]. intros x. specialize (He x). cbn in He. destruct (key_compare x k) eqn:C; [|done..].
    apply key_compare_eq in C as ->. by rewrite !bget_below.
Qed.
End Extensional.

(** ** The tally of the kernel's steps *)

#[export] Instance TileKey_eq_dec : EqDecision TileKey.
Proof. solve_decision. Defined.
#[export] Instance SegmentKey_eq_dec : EqDecision SegmentKey.
Proof. solve_decision. Defined.

Definition total {A} (f : A -> Z) (l : list A) : Z := foldr (fun a n => f a + n) 0 l.
Lemma total_app {A} (f : A -> Z) l l' : total f (l ++ l') = total f l + total f l'.
Proof. unfold total. induction l as [|a l IH]; cbn [foldr app]; [done|]. rewrite IH. lia. Qed.
Lemma total_perm {A} (f : A -> Z) l l' : l ≡ₚ l' -> total f l = total f l'.
Proof. unfold total. induction 1; cbn [foldr]; lia. Qed.

(** How often a step draws a segment of a tile, and whether it ends a drive. *)
Definition draws (i : nat) (k : TileKey) (key : SegmentKey) (a : nat * Action) : Z :=
  match a with
  | (j, AtVisit (Some s)) =>
      match segment_key s with Ok key' => if bool_decide (i = j /\ tile_of s = k /\ key' = key) then 1 else 0 | Err _ => 0 end
  | _ => 0
  end.
Definition closes (i : nat) (a : nat * Action) : Z := match a with (j, AtVisit None) => if bool_decide (i = j) then 1 else 0 | _ => 0 end.
Notation tally i k key := (total (draws i k key)).
Notation completed i := (total (closes i)).

(** The weight of a segment of a tile. *)
Definition weight (w : TierWeights) (k : TileKey) (key : SegmentKey) : Z :=
  match bget k w with Some s => default 0 (bget key s) | None => 0 end.

(** What the operations keep of a tier's weights: they are in order, no tile is empty
    and no weight is zero. *)
Definition segments_wf (s : SegmentWeights) : Prop := bwf s /\ s <> [] /\ forall key n, bget key s = Some n -> 0 < n.
Definition tier_wf (w : TierWeights) : Prop := bwf w /\ forall k s, bget k w = Some s -> segments_wf s.

Lemma segments_first s : segments_wf s -> exists key n, bget key s = Some n /\ 0 < n.
Proof.
  intros (_ & Hne & Hp). destruct s as [|[key n] s]; [done|]. exists key, n.
  assert (E : bget key ((key, n) :: s) = Some n) by (cbn; by rewrite key_compare_refl). split; [done|by eapply Hp].
Qed.
(** Two tiers with the same weights are the same. *)
Lemma tier_ext w w' : tier_wf w -> tier_wf w' -> (forall k key, weight w k key = weight w' k key) -> w = w'.
Proof.
  assert (Hhalf : forall w w' k s, tier_wf w -> (forall key, weight w k key = weight w' k key) -> bget k w = Some s -> bget k w' <> None).
  { intros v v' k s [_ Hv] He Ek En. destruct (segments_first s (Hv _ _ Ek)) as (key & n & Es & Hn).
    specialize (He key). unfold weight in He. rewrite Ek, En, Es in He. cbn in He. lia. }
  intros Hw Hw' He. pose proof Hw as [Hb Hs]. pose proof Hw' as [Hb' Hs']. apply bwf_ext; [done..|]. intros k.
  destruct (bget k w) as [s|] eqn:Ek, (bget k w') as [s'|] eqn:Ek'.
  - f_equal. destruct (Hs _ _ Ek) as (Hsb & _ & Hp), (Hs' _ _ Ek') as (Hsb' & _ & Hp'). apply bwf_ext; [done..|].
    intros key. specialize (He k key). unfold weight in He. rewrite Ek, Ek' in He.
    destruct (bget key s) as [n|] eqn:E, (bget key s') as [n'|] eqn:E'; cbn in He; [by rewrite He| | |done].
    + specialize (Hp _ _ E). lia.
    + specialize (Hp' _ _ E'). lia.
  - by destruct (Hhalf w w' k s Hw (He k) Ek).
  - destruct (Hhalf w' w k s' Hw' (fun key => eq_sym (He k key)) Ek'); done.
  - done.
Qed.

Lemma segments_wf_bset key n s : (s = [] \/ segments_wf s) -> 0 < n -> segments_wf (bset key n s).
Proof.
  intros Hs Hn. assert (Hb : bwf s /\ forall key' n', bget key' s = Some n' -> 0 < n').
  { destruct Hs as [->|(Hb & _ & Hp)]; [|done]. split; [constructor|done]. }
  destruct Hb as [Hb Hp]. split; [by apply bwf_bset|]. split.
  - intros E. pose proof (bget_bset key n s) as Hg. by rewrite E in Hg.
  - intros key' n'. destruct (decide (key' = key)) as [->|Hne].
    + rewrite bget_bset. by intros [= <-].
    + rewrite bget_bset_ne by done. apply Hp.
Qed.
Lemma tier_wf_bset k s w : tier_wf w -> segments_wf s -> tier_wf (bset k s w).
Proof.
  intros [Hb Hs] Hw. split; [by apply bwf_bset|]. intros k' s'. destruct (decide (k' = k)) as [->|Hne].
  - rewrite bget_bset. by intros [= <-].
  - rewrite bget_bset_ne by done. apply Hs.
Qed.
Definition segments_at (w : TierWeights) (k : TileKey) : SegmentWeights := default [] (bget k w).
Lemma weight_bset k key n w k' key' :
  weight (bset k (bset key n (segments_at w k)) w) k' key' = if bool_decide (k' = k /\ key' = key) then n else weight w k' key'.
Proof.
  unfold weight. destruct (decide (k' = k)) as [->|Hk]; [rewrite bget_bset|rewrite bget_bset_ne by done].
  - destruct (decide (key' = key)) as [->|Hkey].
    + rewrite bget_bset. by rewrite bool_decide_true.
    + rewrite bget_bset_ne by done. rewrite bool_decide_false by (intros [_ ?]; congruence). unfold segments_at. by destruct (bget k w).
  - by rewrite bool_decide_false by (intros [? _]; congruence).
Qed.

(** One segment merged adds one to its weight. *)
Lemma merge_raw_segment_ok w s b w' b' : merge_raw_segment w s b = Ok (w', b') -> tier_wf w ->
  exists key, segment_key s = Ok key /\ tier_wf w'
  /\ forall k' key', weight w' k' key' = weight w k' key' + if bool_decide (tile_of s = k' /\ key = key') then 1 else 0.
Proof.
  unfold merge_raw_segment. destruct (segment_key s) as [key|]; [|done]. cbn [mbind result_bind]. intros E Hw. exists key. split; [done|].
  assert (Hset : exists n, n = weight w (tile_of s) key + 1 /\ 0 < n /\ (bget (tile_of s) w = None \/ segments_wf (segments_at w (tile_of s)))
    /\ w' = bset (tile_of s) (bset key n (segments_at w (tile_of s))) w).
  { unfold weight, segments_at. destruct (bget (tile_of s) w) as [ws|] eqn:Ek; cbn [default] in *.
    - pose proof (proj2 Hw _ _ Ek) as Hs. destruct (bget key ws) as [n|] eqn:En; cbn.
      + destruct (u64_max <? n + 1); [done|]. injection E as <- _. exists (n + 1). pose proof (proj2 (proj2 Hs) _ _ En). repeat split; try lia. by right.
      + destruct (MAX_RAW_UNIQUE_SEGMENTS_PER_TILE <=? _); [done|]. destruct (reserve b) as [b2|]; [|done]. injection E as <- _.
        exists 1. repeat split; try lia. by right.
    - destruct (MAX_TILE_PAYLOAD_TILES <=? _); [done|]. destruct (reserve b) as [b2|]; [|done]. cbn in E. injection E as <- _.
      exists 1. repeat split; try lia. by left. }
  destruct Hset as (n & Hn & Hpos & Hs & ->). split.
  - apply tier_wf_bset; [done|]. apply segments_wf_bset; [|done]. unfold segments_at in *. destruct Hs as [Hs|Hs]; [left; by rewrite Hs|by right].
  - intros k' key'. rewrite weight_bset. destruct (decide (k' = tile_of s /\ key' = key)) as [[-> ->]|Hne].
    + rewrite !bool_decide_true by done. lia.
    + rewrite !bool_decide_false by (intros [? ?]; apply Hne; split; congruence). lia.
Qed.

(** ** Runs that succeed *)

Section Runs.
Context {W : Type}.

Lemma run_bind_ok {A B} (m : run W A) (f : A -> run W B) s b s' : (m ≫= f) s = (Ok b, s') -> exists a t, m s = (Ok a, t) /\ f a t = (Ok b, s').
Proof. unfold mbind, run_bind. destruct (m s) as [[a|e] t]; [|done]. by exists a, t. Qed.
Lemma run_ret_ok {A} (a b : A) (s s' : W * Z) : (mret a : run W A) s = (Ok b, s') -> a = b.
Proof. by intros [= ->]. Qed.
Lemma lift_ok {A} (r : result TileError A) (a : A) (s s' : W * Z) : lift r s = (Ok a, s') -> r = Ok a.
Proof. by intros [= ->]. Qed.
Lemma run_fold_ok {S I} (P : list I -> S -> Prop) (f : S -> I -> run W S) l :
  (forall seen x i s y s', i ∈ l -> f x i s = (Ok y, s') -> P seen x -> P (seen ++ [i]) y) ->
  forall seen x s y s', run_fold f x l s = (Ok y, s') -> P seen x -> P (seen ++ l) y.
Proof.
  induction l as [|i l IH]; intros Hf seen x s y s' E Hx; cbn [run_fold] in E.
  - apply run_ret_ok in E as <-. by rewrite app_nil_r.
  - apply run_bind_ok in E as (x' & t & E1 & E2). rewrite (cons_middle i seen l), app_assoc. eapply IH; [|exact E2|].
    + intros ?????? Hi. apply Hf. by right.
    + eapply Hf; [by left|exact E1|done].
Qed.
End Runs.
(** The shapes of a step that succeeded. *)
Ltac succeeded E :=
  repeat match type of E with
  | (_ ≫= _) _ = (Ok _, _) => let F := fresh "F" in apply run_bind_ok in E as (? & ? & F & E)
  | lift _ _ = (Ok _, _) => apply lift_ok in E
  | mret _ _ = (Ok _, _) => apply run_ret_ok in E
  end.

(** Two runs agree when their successes do, whatever their callers. *)
Definition agree {W W' A} (m : run W A) (m' : run W' A) : Prop :=
  forall s a t s' a' t', m s = (Ok a, t) -> m' s' = (Ok a', t') -> a = a'.
Lemma agree_ret {W W' A} (a : A) : agree (mret a : run W A) (mret a : run W' A).
Proof. intros s b t s' b' t' E E'. apply run_ret_ok in E, E'. congruence. Qed.
Lemma agree_lift {W W' A} (r : result TileError A) : agree (lift r : run W A) (lift r : run W' A).
Proof. intros s b t s' b' t' E E'. apply lift_ok in E, E'. congruence. Qed.
Lemma agree_unit {W W'} (m : run W unit) (m' : run W' unit) : agree m m'.
Proof. intros s [] t s' [] t' _ _. done. Qed.
Lemma agree_bind {W W' A B} (m : run W A) (m' : run W' A) (f : A -> run W B) (f' : A -> run W' B) :
  agree m m' -> (forall a, agree (f a) (f' a)) -> agree (m ≫= f) (m' ≫= f').
Proof.
  intros Hm Hf s b t s' b' t' E E'. apply run_bind_ok in E as (a & u & E1 & E2), E' as (a' & u' & E1' & E2').
  rewrite <- (Hm _ _ _ _ _ _ E1 E1') in E2'. by eapply Hf.
Qed.
Lemma agree_fold {W W' S I} (f : S -> I -> run W S) (f' : S -> I -> run W' S) l :
  (forall x i, agree (f x i) (f' x i)) -> forall x, agree (run_fold f x l) (run_fold f' x l).
Proof. intros Hf. induction l as [|i l IH]; intros x; cbn [run_fold]; [apply agree_ret|]. by apply agree_bind. Qed.
Create HintDb tile_agree discriminated.
#[export] Hint Resolve agree_ret agree_lift agree_unit : tile_agree.
Ltac agree :=
  repeat match goal with
  | |- forall _, _ => intros
  | |- agree (_ ≫= _) _ => apply agree_bind
  | |- agree (run_fold _ _ _) _ => apply agree_fold
  | |- agree (if ?b then _ else _) _ => destruct b
  | |- agree (match ?o with _ => _ end) _ => destruct o
  | _ => solve [auto with tile_agree]
  end.

(** ** What a generation carries *)

(** The generation after some steps of the kernel. *)
Record carried (acts : list (nat * Action)) (g : Generation) : Prop := MkCarried {
  cr_tiers : map ta_tier (gn_tiers g) = LONG_RANGE_LOD_TIERS;
  cr_tier : forall i a, gn_tiers g !! i = Some a ->
    tier_wf (ta_weights a) /\ (forall k key, weight (ta_weights a) k key = tally i k key acts) /\ ta_drive_count a = completed i acts;
}.

Lemma carried_first limit : carried [] (first_generation limit).
Proof.
  split; [done|]. intros i a E. unfold first_generation in E. cbn [gn_tiers] in E. apply list_lookup_fmap_Some in E as (tier & -> & _).
  cbn. split; [|done]. split; [constructor|done].
Qed.
(** Steps of the same kind in any order carry the same tiers. *)
Lemma carried_same acts acts' g g' : carried acts g -> carried acts' g' -> acts ≡ₚ acts' -> gn_tiers g = gn_tiers g'.
Proof.
  intros [Ht Hc] [Ht' Hc'] Hp. apply list_eq. intros i.
  assert (Hl : ta_tier <$> gn_tiers g !! i = ta_tier <$> gn_tiers g' !! i).
  { rewrite <- 2!list_lookup_fmap. f_equal. exact (eq_trans Ht (eq_sym Ht')). }
  destruct (gn_tiers g !! i) as [a|] eqn:E, (gn_tiers g' !! i) as [a'|] eqn:E'; [|done..]. f_equal. cbn in Hl. injection Hl as Hl.
  destruct (Hc _ _ E) as (Hw & Hwt & Hd), (Hc' _ _ E') as (Hw' & Hwt' & Hd').
  destruct a, a'. cbn in *. f_equal; [done| |by rewrite Hd, Hd', (total_perm _ _ _ Hp)].
  apply tier_ext; [done..|]. intros k key. by rewrite Hwt, Hwt', (total_perm _ _ _ Hp).
Qed.

Lemma ok_eq {A} (a b : A) : Ok (E := TileError) a = Ok b -> a = b.
Proof. by intros [= ->]. Qed.
Lemma total_snoc {A} (f : A -> Z) l a : total f (l ++ [a]) = total f l + f a.
Proof. rewrite total_app. unfold total at 2. cbn [foldr]. lia. Qed.
Lemma draws_other i j k key e : j <> i -> draws i k key (j, e) = 0.
Proof. intros Hne. destruct e as [| |[s|]|]; cbn [draws]; try done. destruct (segment_key s); [|done]. by rewrite bool_decide_false by (intros [? _]; congruence). Qed.
Lemma closes_other i j e : j <> i -> closes i (j, e) = 0.
Proof. intros Hne. destruct e as [| |[s|]|]; cbn [closes]; try done. by rewrite bool_decide_false. Qed.

(** A step that leaves the tiers alone, and one that changes its own. *)
Lemma carried_keep acts e g g' : gn_tiers g' = gn_tiers g ->
  (forall i a, gn_tiers g !! i = Some a -> (forall k key, draws i k key e = 0) /\ closes i e = 0) ->
  carried acts g -> carried (acts ++ [e]) g'.
Proof.
  intros Et Hz [Ht Hc]. split; rewrite Et; [done|]. intros i a Ea. destruct (Hc _ _ Ea) as (Hw & Hwt & Hd), (Hz _ _ Ea) as [Hz1 Hz2].
  split; [done|]. split; [|rewrite total_snoc; lia]. intros k key. rewrite total_snoc, Hwt, Hz1. lia.
Qed.
Lemma carried_change acts i e g a a' b rdp n : gn_tiers g !! i = Some a -> ta_tier a' = ta_tier a -> tier_wf (ta_weights a') ->
  (forall k key, weight (ta_weights a') k key = weight (ta_weights a) k key + draws i k key (i, e)) ->
  ta_drive_count a' = ta_drive_count a + closes i (i, e) ->
  carried acts g -> carried (acts ++ [(i, e)]) (MkGeneration (<[i := a']> (gn_tiers g)) b rdp n).
Proof.
  intros Ea Et Hw Hwt Hd [Ht Hc]. split; cbn [gn_tiers].
  - rewrite <- Ht. apply list_eq. intros j. rewrite !list_lookup_fmap. destruct (decide (j = i)) as [->|Hne].
    + rewrite list_lookup_insert_eq by by eapply lookup_lt_Some. rewrite Ea. cbn. by rewrite Et.
    + by rewrite list_lookup_insert_ne.
  - intros j a2 Ej. destruct (decide (i = j)) as [<-|Hne].
    + rewrite list_lookup_insert_eq in Ej by by eapply lookup_lt_Some. injection Ej as <-. destruct (Hc _ _ Ea) as (_ & Hwt0 & Hd0).
      split; [done|]. split; [|rewrite total_snoc; lia]. intros k key. by rewrite total_snoc, Hwt, Hwt0.
    + rewrite list_lookup_insert_ne in Ej by done. destruct (Hc _ _ Ej) as (? & Hwt2 & Hd2). split; [done|].
      split; [|rewrite total_snoc, closes_other; lia]. intros k key. rewrite total_snoc, draws_other, Hwt2; lia.
Qed.
Lemma merge_into_ok acts g i s g' : merge_into g i s = Ok g' -> carried acts g -> carried (acts ++ [(i, AtVisit (Some s))]) g'.
Proof.
  unfold merge_into. intros E Hc. destruct (gn_tiers g !! i) as [a|] eqn:Ea.
  - destruct (merge_raw_segment (ta_weights a) s (gn_budget g)) as [[w b]|] eqn:Em; [|done]. apply ok_eq in E as <-.
    destruct (cr_tier _ _ Hc _ _ Ea) as (Hw & _ & _). destruct (merge_raw_segment_ok _ _ _ _ _ Em Hw) as (key & Ek & Hw' & Hadd).
    eapply carried_change; [done|done|done| |cbn; lia|done]. intros k key'. cbn [ta_weights draws]. rewrite Hadd, Ek. f_equal.
    destruct (decide (tile_of s = k /\ key = key')); [rewrite !bool_decide_true by naive_solver|rewrite !bool_decide_false by naive_solver]; done.
  - apply ok_eq in E as <-. eapply carried_keep; [done| |done]. intros j a Ej. assert (i <> j) by congruence.
    split; [intros; by apply draws_other|by apply closes_other].
Qed.
Lemma complete_drive_ok acts g i g' : complete_drive g i = Ok g' -> carried acts g -> carried (acts ++ [(i, AtVisit None)]) g'.
Proof.
  unfold complete_drive. intros E Hc. destruct (gn_tiers g !! i) as [a|] eqn:Ea.
  - destruct (u64_max <? ta_drive_count a + 1); [done|]. apply ok_eq in E as <-. destruct (cr_tier _ _ Hc _ _ Ea) as (Hw & _ & _).
    eapply carried_change; [done|done|done|intros; cbn; lia| |done]. cbn. by rewrite bool_decide_true.
  - apply ok_eq in E as <-. eapply carried_keep; [done| |done]. intros j a Ej. assert (i <> j) by congruence.
    split; [done|by apply closes_other].
Qed.
Lemma counted g i s g' : merge_into g i s = Ok g' \/ complete_drive g i = Ok g' -> gn_input_point_count g' = gn_input_point_count g.
Proof.
  unfold merge_into, complete_drive. destruct (gn_tiers g !! i) as [a|].
  - destruct (merge_raw_segment _ s _) as [[w b]|], (u64_max <? _); intros [E|E]; try done; by apply ok_eq in E as <-.
  - intros [E|E]; by apply ok_eq in E as <-.
Qed.

Section Carry.
Context {W : Type} `{Control W}.

Lemma perform_ok templates acts g n e s r s' : perform templates (g, n) e s = (Ok r, s') -> carried acts g ->
  carried (acts ++ [e]) r.1 /\ gn_input_point_count r.1 = gn_input_point_count g.
Proof.
  destruct e as [i e]. unfold perform. cbn [fst snd]. destruct e as [| |[seg|]|e]; intros E Hc; succeeded E.
  - subst r. split; [apply (carried_keep _ _ g); [done|by split|done]|done].
  - subst r. split; [apply (carried_keep _ _ g); [done|by split|done]|done].
  - apply lift_ok in F0. subst r. cbn [fst]. split; [by eapply merge_into_ok|]. eapply counted. by left.
  - apply lift_ok in F. subst r. cbn [fst]. split; [by eapply complete_drive_ok|]. eapply counted with (s := MkTileSegment 0 0 0 (0, 0) (0, 0)). by right.
  - done.
Qed.

Context `{Libm} `{TileLibm}.
Definition point_count (drives : list Drive) : Z := total (fun d => Z.of_nat (length (dv_points d))) drives.
Definition all_steps (drives : list Drive) : list (nat * Action) := drives ≫= fun d => drive_steps (dv_points d).

(** A generation that has consumed some drives. *)
Record consumed (drives : list Drive) (g : Generation) : Prop := MkConsumed {
  cs_carried : carried (all_steps drives) g;
  cs_points : gn_input_point_count g = point_count drives;
}.
Lemma consume_drive_ok reported drives g d s g' s' : consume_drive reported g d s = (Ok g', s') -> consumed drives g -> consumed (drives ++ [d]) g'.
Proof.
  unfold consume_drive. intros E [Hc Hp]. succeeded E. subst g'.
  set (g0 := MkGeneration _ _ _ _) in *.
  apply (run_fold_ok (fun seen r => carried (all_steps drives ++ seen) r.1 /\ gn_input_point_count r.1 = gn_input_point_count g0)
    _ _) with (seen := []) in F2.
  - destruct F2 as [Hc' Hp']. split.
    + unfold all_steps. rewrite bind_app. cbn [mbind list_bind]. rewrite app_nil_r. exact Hc'.
    + rewrite Hp'. cbn [g0 gn_input_point_count]. rewrite Hp. unfold point_count. by rewrite total_snoc.
  - intros seen [g1 n] e t r t' _ Ep [Hc1 Hp1]. rewrite app_assoc. cbn [fst] in *. rewrite <- Hp1. by eapply perform_ok.
  - rewrite app_nil_r. split; [|done]. destruct Hc. by split.
Qed.
End Carry.

(** ** Pages, and the payload they end in *)

(** The pages a visitor gives when every page is taken. *)
Fixpoint pages_of (v : Visitor) : list (list Drive) :=
  match v with
  | VtDone _ => []
  | VtPage page continue => page :: pages_of (continue (Ok ()))
  end.
Definition drives_of (v : Visitor) : list Drive := concat (pages_of v).

Section Pages.
Context {W : Type} `{Control W} `{Libm} `{TileLibm}.

Lemma consume_page_ok reported drives g page s g' s' :
  consume_page reported g page s = (Ok g', s') -> consumed drives g -> consumed (drives ++ page) g'.
Proof.
  unfold consume_page. intros E Hc. succeeded E.
  eapply (run_fold_ok (fun seen g => consumed (drives ++ seen) g)) with (seen := []) in E.
  - exact E.
  - intros seen g1 d t g2 t' _ Ep Hs. rewrite app_assoc. by eapply consume_drive_ok.
  - by rewrite app_nil_r.
Qed.
(** An error stays. *)
Lemma visit_pages_err reported v e s : (visit_pages reported v (Err e) s).1.2 = Err e.
Proof. induction v as [|page continue IH]; cbn [visit_pages]; [done|apply IH]. Qed.
Lemma visit_pages_ok reported v drives g s r g' s' :
  visit_pages reported v (Ok g) s = (r, Ok g', s') -> consumed drives g -> consumed (drives ++ drives_of v) g'.
Proof.
  unfold drives_of. revert drives g s. induction v as [r0|page continue IH]; intros drives g s E Hc; cbn [visit_pages pages_of concat] in *.
  - injection E as _ <- _. by rewrite app_nil_r.
  - destruct (consume_page reported g page s) as [[g1|e] t] eqn:Ep.
    + rewrite app_assoc. eapply IH; [exact E|]. by eapply consume_page_ok.
    + pose proof (visit_pages_err reported (continue (Err e)) e t) as Hv. by rewrite E in Hv.
Qed.
Lemma visited_ok reported limit v s g s' :
  visited reported v (first_generation limit) s = (Ok g, s') -> consumed (drives_of v) g.
Proof.
  unfold visited. destruct (visit_pages reported v _ s) as [[[[]|] [g'|]] t] eqn:E; try done. intros [= <- _].
  apply (visit_pages_ok _ _ [] _ _ _ _ _ E). split; [apply carried_first|done].
Qed.
End Pages.

Lemma finish_agree {W W'} `{Control W} `{Control W'} expected expected' g g' :
  gn_tiers g = gn_tiers g' -> gn_input_point_count g = gn_input_point_count g' ->
  agree (finish (W := W) expected g) (finish (W := W') expected' g').
Proof.
  intros Et Ep. unfold finish, drives_completed. rewrite Et, Ep. apply agree_bind; [agree|]. intros _.
  apply agree_bind; [apply agree_unit|]. intros _. apply agree_bind; [apply agree_unit|]. intros _.
  assert (Hsegs : forall ws, agree (budgeted_segments (W := W) ws) (budgeted_segments (W := W') ws)) by (unfold budgeted_segments; agree).
  assert (Htile : forall templ templ' shards t, agree (pack_tile (W := W) templ shards t) (pack_tile (W := W') templ' shards t)).
  { intros. unfold pack_tile. apply agree_bind; [apply agree_unit|]. intros _. apply agree_bind; [done|]. agree. }
  assert (Htier : forall shards t, agree (pack_tier (W := W) (default 0 (ta_drive_count <$> head (gn_tiers g'))) shards t)
    (pack_tier (W := W') (default 0 (ta_drive_count <$> head (gn_tiers g'))) shards t)).
  { intros. unfold pack_tier, finalize_tier. agree. }
  apply agree_bind; [agree|]. intros shards. apply agree_bind; [agree|]. intros _. apply agree_bind; [agree|]. intros _.
  destruct shards; [agree|]. apply agree_bind; [|agree]. unfold encode_payload. apply agree_bind; [agree|]. intros _.
  apply agree_bind; [agree|]. intros _. apply agree_fold. intros payload [index [tile blob]]. unfold encode_shard. agree.
Qed.

Lemma all_steps_perm `{Libm} `{TileLibm} l l' : map dv_points l ≡ₚ map dv_points l' -> all_steps l ≡ₚ all_steps l' /\ point_count l = point_count l'.
Proof.
  assert (Hs : forall l, all_steps l = map dv_points l ≫= drive_steps).
  { intros l0. unfold all_steps. induction l0 as [|d l0 IH]; [done|]. cbn [map mbind list_bind]. by f_equal. }
  assert (Hp : forall l, point_count l = total (fun p : list Point => Z.of_nat (length p)) (map dv_points l)).
  { intros l0. unfold point_count, total. induction l0 as [|d l0 IH]; [done|]. cbn [map foldr]. by rewrite IH. }
  intros Hperm. rewrite !Hs, !Hp. split; [by apply bind_Permutation|by apply total_perm].
Qed.

(** C11: the payload of a month is the same for every order of its drives and every
    grouping of them into pages: two generations that succeed on drives with the same
    routes, in any order, give the same output, whatever their callers, their limits of
    work, the visitors of pages and the ids of the drives. *)
Theorem output_order_independent {W W'} `{Control W} `{Control W'} `{Libm} `{TileLibm} expected expected' limit limit' v v' s s' o o' t t' :
  generate_internal (W := W) expected limit v s = (Ok o, t) ->
  generate_internal (W := W') expected' limit' v' s' = (Ok o', t') ->
  map dv_points (drives_of v) ≡ₚ map dv_points (drives_of v') -> o = o'.
Proof.
  unfold generate_internal. intros E E' Hp.
  apply run_bind_ok in E as (_ & u & _ & E), E' as (_ & u' & _ & E').
  apply run_bind_ok in E as (g & r & [Hc Hn]%visited_ok & E), E' as (g' & r' & [Hc' Hn']%visited_ok & E').
  destruct (all_steps_perm _ _ Hp) as [Hs Hq].
  assert (Ha : agree (finish (W := W) expected g) (finish (W := W') expected' g')).
  { apply finish_agree; [by eapply carried_same|by rewrite Hn, Hn']. }
  exact (Ha _ _ _ _ _ _ E E').
Qed.

(** A caller that never cancels. *)
Definition sample_control : Control unit := {| cancelled_load := fun w => (false, w); progress := None |}.
Definition sample_drive (id lat lon : Z) : Drive := MkDrive id [sample_point lat lon; sample_point lat (lon + 1)].

Lemma output_order_independent_witness :
  let a := sample_drive 1 51500 (-100) in
  let b := sample_drive 2 48200 16300 in
  let one := generate_internal (H := sample_control) (H0 := sample_libm) (H1 := sample_tile_libm) (Some 2) None (one_page [a; b]) ((), 0) in
  let two := generate_internal (H := sample_control) (H0 := sample_libm) (H1 := sample_tile_libm) None (Some 9)
               (VtPage [b] (fun _ => VtPage [a] VtDone)) ((), 0) in
  match one, two with (Ok o, _), (Ok o', _) => o = o' | _, _ => False end.
Proof.
  cbv zeta. destruct (generate_internal _ None _ _) as [[o|e] t] eqn:E; [|vm_compute in E; discriminate].
  destruct (generate_internal _ (Some 9) _ _) as [[o'|e'] t'] eqn:E'; [|vm_compute in E'; discriminate].
  eapply (output_order_independent (H := sample_control) (H0 := sample_control)); [exact E|exact E'|apply perm_swap].
Defined.
