(* ===== verification/TilePayload.v ===== *)
(** * Map tiles: what the payload of a month holds

    The packing of a tier's weights into tiles, the order of the tiles and the bytes of
    the payload; and the reading of a page of positions back from its bytes. *)
From stdpp Require Import sorting.
From S2P Require Import Prelude RustStr F64 Bytes BTree TileRaster TileGen TileRoute TileTally.
From Stdlib Require Import SpecFloat.
Local Open Scope string_scope.
Local Open Scope Z_scope.
Local Open Scope list_scope.

(** ** Orders *)

Section KeyOrder.
Context {K : Type} `{O : OrdKey K}.
Implicit Types k : K.

Lemma key_le_klt k k' : key_le k k' <-> klt k k' \/ k = k'.
Proof.
  unfold key_le, klt. rewrite (key_compare_opp k k'). destruct (key_compare k k') eqn:E; cbn [CompOpp].
  - apply key_compare_eq in E as ->. by split; [right|].
  - by split; [left|].
  - split; [done|]. intros [?| ->]; [done|]. by rewrite key_compare_refl in E.
Qed.
#[export] Instance klt_trans : Transitive (@klt K O).
Proof. intros a b c. apply key_compare_trans. Qed.
#[export] Instance key_le_trans : Transitive (@key_le K O).
Proof. intros a b c. rewrite !key_le_klt. intros [H1| ->] [H2| ->]; auto. left. by etrans. Qed.
#[export] Instance key_le_total : Total (@key_le K O).
Proof. intros a b. unfold key_le. rewrite (key_compare_opp a b). destruct (key_compare a b); cbn [CompOpp]; [by left|by left|by right]. Qed.
Lemma klt_asym k k' : klt k k' -> klt k' k -> False.
Proof. unfold klt. rewrite (key_compare_opp k k'). by intros ->. Qed.
(** Keys in order without repeats are in strict order. *)
Lemma keys_sorted_strictly l : StronglySorted key_le l -> NoDup l -> StronglySorted klt l.
Proof.
  induction 1 as [|k l Hs IH Hf]; intros Hd; [constructor|]. apply NoDup_cons in Hd as [Hni Hd]. constructor; [by apply IH|].
  rewrite Forall_forall in *. intros x Hx. apply Hf in Hx as Hle. apply key_le_klt in Hle as [?|<-]; [done|by destruct Hni].
Qed.
End KeyOrder.

#[export] Instance heavier_trans : Transitive heavier.
Proof.
  intros a b c. unfold heavier. intros [H1|[H1 H1']] [H2|[H2 H2']]; [left; lia..|right].
  split; [lia|]. change (key_le a.1 c.1). by etrans; [exact H1'|exact H2'].
Qed.
#[export] Instance heavier_total : Total heavier.
Proof.
  intros a b. unfold heavier. destruct (Z.lt_trichotomy a.2 b.2) as [?|[E|?]]; [right; by left| |left; by left].
  destruct (key_le_total a.1 b.1); [left|right]; right; split; [by rewrite E|done|by rewrite E|done].
Qed.

(** ** The segments of a tile *)

(** What is kept of a tile's segments: all of them, or the heaviest 200000; in order. *)
Record selected (ws : SegmentWeights) (segs : list SegmentKey) : Prop := MkSelected {
  sl_sorted : StronglySorted klt segs;
  sl_bound : Z.of_nat (length segs) <= MAX_CANONICAL_SEGMENTS_PER_TILE;
  sl_some : ws <> [] -> segs <> [];
  sl_in : forall key, key ∈ segs -> is_Some (bget key ws);
  sl_rest : forall key n, bget key ws = Some n ->
    key ∈ segs \/ Z.of_nat (length segs) = MAX_CANONICAL_SEGMENTS_PER_TILE
                  /\ forall key' n', key' ∈ segs -> bget key' ws = Some n' -> n <= n';
}.

Section Packing.
Context {W : Type} `{Control W}.

Lemma budgeted_segments_ok ws s segs s' : budgeted_segments ws s = (Ok segs, s') -> bwf ws -> selected ws segs.
Proof.
  unfold budgeted_segments. intros E Hw. succeeded E. destruct (Z.leb_spec (Z.of_nat (length ws)) MAX_CANONICAL_SEGMENTS_PER_TILE) as [Hle|Hgt].
  - succeeded E. subst segs. split; [done|unfold bkeys; by rewrite length_map|by destruct ws|intros key; by apply bget_keys|].
    intros key n Hn. left. apply bget_keys. by exists n.
  - succeeded E. set (top := take _ _) in E. set (segs' := merge_sort _ _) in E. subst segs.
    assert (Hcap : 0 < MAX_CANONICAL_SEGMENTS_PER_TILE) by done.
    assert (Hp : segs' ≡ₚ map fst top) by apply merge_sort_Permutation.
    assert (Hsub : forall e, e ∈ top -> bget e.1 ws = Some e.2).
    { intros [key n] He. apply bget_nodup; [by apply bwf_nodup|]. rewrite <- (merge_sort_Permutation heavier ws).
      by eapply elem_of_take in He as (i & Hi & _); apply list_elem_of_lookup_2 in Hi. }
    assert (Hlen : length top = Z.to_nat MAX_CANONICAL_SEGMENTS_PER_TILE).
    { unfold top. rewrite length_take, (Permutation_length (merge_sort_Permutation heavier ws)). lia. }
    assert (Hnd : NoDup (map fst top)).
    { assert (Hall : NoDup (map fst (merge_sort heavier ws))).
      { eapply NoDup_Permutation_proper; [apply fmap_Permutation, merge_sort_Permutation|]. by apply bwf_nodup. }
      unfold top. change (map fst) with (fmap (M := list) (@fst SegmentKey Z)) in *. rewrite fmap_take. by eapply sublist_NoDup; [exact Hall|apply sublist_take]. }
    split.
    + apply keys_sorted_strictly; [apply StronglySorted_merge_sort; apply _|by rewrite Hp].
    + rewrite Hp, length_map, Hlen. lia.
    + intros _ En. apply (f_equal length) in En. rewrite Hp, length_map, Hlen in En. cbn in En. lia.
    + intros key. rewrite Hp. intros ([k n] & -> & He)%list_elem_of_fmap. apply Hsub in He. by exists n.
    + intros key n Hn. destruct (decide ((key, n) ∈ top)) as [Hin|Hout].
      * left. rewrite Hp. by apply (list_elem_of_fmap_2 fst _ (key, n)).
      * right. split; [rewrite Hp, length_map, Hlen; lia|]. intros key' n'. rewrite Hp. intros ([k m] & -> & He)%list_elem_of_fmap Hn'.
        apply Hsub in He as He'. cbn in He', Hn'. assert (m = n') as <- by congruence.
        assert (Hs : StronglySorted heavier (merge_sort heavier ws)) by (apply StronglySorted_merge_sort; apply _).
        rewrite <- (take_drop (Z.to_nat MAX_CANONICAL_SEGMENTS_PER_TILE) (merge_sort heavier ws)) in Hs. fold top in Hs.
        destruct (StronglySorted_app_1_elem_of _ _ _ (k, m) (key, n) Hs He) as [Hlt|[Heq _]]; [|cbn in Hlt; lia|cbn in Heq; lia].
        apply bget_elem in Hn. rewrite <- (merge_sort_Permutation heavier ws), <- (take_drop (Z.to_nat MAX_CANONICAL_SEGMENTS_PER_TILE)) in Hn.
        fold top in Hn. by apply elem_of_app in Hn as [?|?].
Qed.
End Packing.

(** ** Where the segments of a tier lie *)

Definition in_zooms (tier : LongRangeLodTier) (a : Action) : Prop :=
  match a with AtVisit (Some s) => lt_zoom_min tier <= ts_zoom s <= lt_zoom_max tier | _ => True end.

#[export] Hint Extern 1 (in_zooms _ _) => done : tile_steps.

Section Zooms.
Context `{Libm} `{TileLibm} (tier : LongRangeLodTier).
Notation placed := (emits (in_zooms tier)).

Lemma emits_every n i : placed (every n i).
Proof. unfold every, checkpoint_step. steps. Qed.
#[local] Hint Resolve emits_every : tile_steps.
Lemma emits_rdp_loop fuel points epsilon keep stack examined : placed (rdp_loop fuel points epsilon keep stack examined).
Proof.
  revert keep stack examined. induction fuel as [|fuel IH]; intros keep [|[start end_] stack] examined; cbn [rdp_loop]; [steps..|].
  unfold checkpoint_step, scan_point. steps.
Qed.
Lemma emits_walk_to points start target walked indices : placed (walk_to points start target walked indices).
Proof. revert walked. induction indices as [|i indices IH]; intros walked; cbn [walk_to]; steps. Qed.
#[local] Hint Resolve emits_rdp_loop emits_walk_to : tile_steps.
Lemma emits_append fuel points stack m g output : placed (append_guarded fuel points stack m g output).
Proof.
  revert stack output. induction fuel as [|fuel IH]; intros [|[start end_] stack] output; cbn [append_guarded]; [steps..|].
  unfold checkpoint_step, guard_point, midpoint_by_path_length. cbv zeta. steps.
Qed.
#[local] Hint Resolve emits_append : tile_steps.
Lemma emits_simplify points : placed (simplify_controlled points tier).
Proof. unfold simplify_controlled, rdp_keep_mask, guard_window, checkpoint_step. steps. Qed.
Lemma emits_walk n max_tile end_x end_y step_x step_y delta_x delta_y visit w :
  (forall x y, placed (visit x y)) -> placed (walk_tiles n max_tile end_x end_y step_x step_y delta_x delta_y visit w).
Proof. intros Hv. revert w. induction n as [|n IH]; intros w; cbn [walk_tiles]; steps. Qed.
Lemma emits_world zoom a b c d : lt_zoom_min tier <= zoom <= lt_zoom_max tier -> placed (add_world_segment zoom a b c d).
Proof. intros Hz. unfold add_world_segment, visit_crossed_tiles. cbv zeta. apply emits_walk. steps. Qed.
#[local] Hint Resolve emits_simplify emits_world : tile_steps.
Lemma emits_projected zoom a b scale : lt_zoom_min tier <= zoom <= lt_zoom_max tier -> placed (add_projected_segment zoom a b scale).
Proof. intros Hz. unfold add_projected_segment. cbv zeta. steps. Qed.
#[local] Hint Resolve emits_projected : tile_steps.
Lemma emits_fold_in {E S X} (P : E -> Prop) (f : S -> X -> steps E S) (l : list X) (s : S) :
  (forall s i, i ∈ l -> emits P (f s i)) -> emits P (steps_fold f s l).
Proof.
  revert s. induction l as [|i l IH]; intros s Hf; cbn [steps_fold]; [apply emits_ret|].
  apply emits_bind; [apply Hf; by left|intros a; apply IH; intros; apply Hf; by right].
Qed.
Lemma zooms_between zoom_min zoom_max zoom : 0 <= zoom_min -> zoom ∈ zooms zoom_min zoom_max -> zoom_min <= zoom <= zoom_max.
Proof. intros H0'. unfold zooms. intros (n & -> & Hn)%list_elem_of_fmap. apply elem_of_seq in Hn. lia. Qed.
Lemma emits_multi_zoom points : 0 <= lt_zoom_min tier -> placed (add_drive_multi_zoom points (lt_zoom_min tier) (lt_zoom_max tier)).
Proof.
  intros H0'. unfold add_drive_multi_zoom. destruct (_ <? _)%nat; [steps|]. apply emits_bind; [steps|]. intros projected.
  apply emits_fold_in. intros _ zoom Hz%zooms_between; [|done]. unfold add_projected_drive, add_projected_point, checkpoint_step. steps.
Qed.
Lemma emits_tier points : 0 <= lt_zoom_min tier -> placed (visit_tier points tier).
Proof. intros H0'. pose proof (fun p => emits_multi_zoom p H0'). unfold visit_tier, visit_run, checkpoint_step. steps. Qed.
End Zooms.

Definition placed_step (a : nat * Action) : Prop := exists tier, LONG_RANGE_LOD_TIERS !! a.1 = Some tier /\ in_zooms tier a.2.
Lemma all_steps_placed `{Libm} `{TileLibm} drives : Forall placed_step (all_steps drives).
Proof.
  apply Forall_forall. intros a (d & Ha & _)%list_elem_of_bind. revert a Ha. apply Forall_forall. unfold drive_steps.
  change (emits placed_step (visit_drive_lod_tiers (dv_points d) LONG_RANGE_LOD_TIERS)). unfold visit_drive_lod_tiers.
  apply emits_fold_in. intros _ [i tier] Hi. apply elem_of_lookup_imap in Hi as (j & t & [= -> ->] & Ht).
  assert (Hz : 0 <= lt_zoom_min t).
  { apply list_elem_of_lookup_2 in Ht. repeat (apply elem_of_cons in Ht as [->|Ht]; [done|]). by apply elem_of_nil in Ht. }
  pose proof (emits_tier t (dv_points d) Hz) as He. unfold emits, in_tier in *. cbn [fst snd]. apply Forall_map.
  eapply Forall_impl; [exact He|]. intros a Ha. by exists t.
Qed.

(** ** From the tiers to the tiles *)

(** How often the steps draw a segment of a tile, in whatever tier. *)
Definition shows (k : TileKey) (key : SegmentKey) (a : nat * Action) : Z := draws a.1 k key a.
Notation times k key := (total (shows k key)).
Definition zoom_in (tier : LongRangeLodTier) (k : TileKey) : Prop := lt_zoom_min tier <= tk_zoom k <= lt_zoom_max tier.

Lemma draws_nonneg i k key a : 0 <= draws i k key a.
Proof. destruct a as [j [| |[s|]|]]; cbn [draws]; try done. destruct (segment_key s); [|done]. by destruct (bool_decide _). Qed.
Lemma draws_pos i k key a : 0 < draws i k key a -> exists s, a = (i, AtVisit (Some s)) /\ tile_of s = k /\ segment_key s = Ok key.
Proof.
  destruct a as [j [| |[s|]|]]; cbn [draws]; try done. destruct (segment_key s) as [key'|] eqn:Es; [|done].
  destruct (bool_decide_reflect (i = j /\ tile_of s = k /\ key' = key)) as [(<- & Hk & <-)|]; [|done]. intros _. by exists s.
Qed.
Lemma total_pos {A} (f : A -> Z) l : (forall a, 0 <= f a) -> 0 < total f l -> exists a, a ∈ l /\ 0 < f a.
Proof.
  intros Hf. unfold total. induction l as [|a l IH]; cbn [foldr]; [lia|]. intros Hp. destruct (Z.lt_ge_cases 0 (f a)) as [Ha|Ha].
  - exists a. split; [left|done].
  - destruct IH as (b & Hb & Hp'); [specialize (Hf a); lia|]. exists b. split; [by right|done].
Qed.
Lemma draws_placed i k key a : placed_step a -> 0 < draws i k key a -> exists tier, LONG_RANGE_LOD_TIERS !! i = Some tier /\ zoom_in tier k.
Proof. intros (tier & Ht & Hz) (s & -> & <- & _)%draws_pos. by exists tier. Qed.

(** The tiers' zooms go up and do not meet. *)
Lemma tiers_apart i j t t' z z' : (i < j)%nat -> LONG_RANGE_LOD_TIERS !! i = Some t -> LONG_RANGE_LOD_TIERS !! j = Some t' ->
  lt_zoom_min t <= z <= lt_zoom_max t -> lt_zoom_min t' <= z' <= lt_zoom_max t' -> z < z'.
Proof.
  intros Hij Hi Hj. destruct i as [|[|[|[|i]]]], j as [|[|[|[|j]]]]; try lia; try done;
    cbv in Hi, Hj; injection Hi as <-; injection Hj as <-; cbv [lt_zoom_min lt_zoom_max]; lia.
Qed.
Lemma tier_of_zoom i j t t' k : LONG_RANGE_LOD_TIERS !! i = Some t -> LONG_RANGE_LOD_TIERS !! j = Some t' -> zoom_in t k -> zoom_in t' k -> i = j.
Proof.
  intros Hi Hj Hz Hz'. destruct (Nat.lt_trichotomy i j) as [Hlt|[?|Hlt]]; [|done|].
  - pose proof (tiers_apart _ _ _ _ _ _ Hlt Hi Hj Hz Hz'). lia.
  - pose proof (tiers_apart _ _ _ _ _ _ Hlt Hj Hi Hz' Hz). lia.
Qed.
Lemma times_tally i tier k key acts : Forall placed_step acts -> LONG_RANGE_LOD_TIERS !! i = Some tier -> zoom_in tier k ->
  times k key acts = tally i k key acts.
Proof.
  intros Hp Hi Hz. unfold total. induction Hp as [|[j e] acts Ha _ IH]; cbn [foldr]; [done|]. rewrite IH. f_equal.
  unfold shows. cbn [fst]. destruct (decide (j = i)) as [->|Hne]; [done|]. rewrite (draws_other i) by done.
  destruct (Z.lt_ge_cases 0 (draws j k key (j, e))) as [Hd|Hd]; [|pose proof (draws_nonneg j k key (j, e)); lia].
  destruct (draws_placed _ _ _ _ Ha Hd) as (t & Hj & Hz'). by destruct Hne, (tier_of_zoom _ _ _ _ _ Hj Hi Hz' Hz).
Qed.

Section Carried.
Variables (acts : list (nat * Action)) (g : Generation).
Hypotheses (Hcarried : carried acts g) (Hplaced : Forall placed_step acts).

Definition all_tiles : list (TileKey * SegmentWeights) := concat (map ta_weights (gn_tiers g)).

Lemma carried_lod i a : gn_tiers g !! i = Some a -> LONG_RANGE_LOD_TIERS !! i = Some (ta_tier a).
Proof. intros Ea. rewrite <- (cr_tiers _ _ Hcarried). by apply list_lookup_fmap_Some; exists a. Qed.
Lemma carried_zoom i a k : gn_tiers g !! i = Some a -> k ∈ bkeys (ta_weights a) -> zoom_in (ta_tier a) k.
Proof.
  intros Ea [ws Ek]%bget_keys. destruct (cr_tier _ _ Hcarried _ _ Ea) as ([_ Hs] & Hwt & _).
  destruct (segments_first ws (Hs _ _ Ek)) as (key & n & En & Hn). specialize (Hwt k key). unfold weight in Hwt. rewrite Ek, En in Hwt.
  cbn in Hwt. destruct (total_pos (draws i k key) acts) as (e & He & Hd); [apply draws_nonneg|lia|].
  rewrite Forall_forall in Hplaced. destruct (draws_placed _ _ _ _ (Hplaced _ He) Hd) as (t & Ht & Hz).
  rewrite (carried_lod _ _ Ea) in Ht. by injection Ht as ->.
Qed.
Lemma klt_zoom k k' : tk_zoom k < tk_zoom k' -> klt k k'.
Proof. intros Hz. unfold klt. cbv [key_compare TileKey_key tuple_key pair_key pair_compare tile_tuple fst Z_key]. by rewrite (proj2 (Z.compare_lt_iff _ _) Hz). Qed.
Lemma concat_sorted {A} (R : relation A) (ls : list (list A)) :
  (forall i l, ls !! i = Some l -> StronglySorted R l) ->
  (forall i j l l' x y, (i < j)%nat -> ls !! i = Some l -> ls !! j = Some l' -> x ∈ l -> y ∈ l' -> R x y) ->
  StronglySorted R (concat ls).
Proof.
  induction ls as [|l ls IH]; intros Hs Hc; cbn [concat]; [constructor|]. apply StronglySorted_app. split.
  - intros x y Hx Hy. apply list_elem_of_In, in_concat in Hy as (l' & Hl' & Hy).
    apply list_elem_of_In, list_elem_of_lookup in Hl' as [j Hj]. apply (Hc 0%nat (S j) l l'); [lia|done|done|done|by apply list_elem_of_In].
  - split; [by apply (Hs 0%nat)|]. apply IH; [intros i; apply (Hs (S i))|]. intros i j ???? Hij. apply (Hc (S i) (S j)). lia.
Qed.
Lemma all_tiles_sorted : StronglySorted klt (map fst all_tiles).
Proof.
  unfold all_tiles. rewrite concat_map, map_map. apply concat_sorted.
  - intros i l (a & -> & Ea)%list_lookup_fmap_Some. by destruct (cr_tier _ _ Hcarried _ _ Ea) as ([Hb _] & _).
  - intros i j l l' x y Hij (a & -> & Ea)%list_lookup_fmap_Some (b & -> & Eb)%list_lookup_fmap_Some Hx Hy.
    apply klt_zoom. eapply (tiers_apart i j); [done|by apply carried_lod|by apply carried_lod| |]; by eapply carried_zoom.
Qed.
(** The weights of a tile are how often its segments were drawn. *)
Lemma all_tiles_in k ws : (k, ws) ∈ all_tiles -> segments_wf ws /\ forall key, default 0 (bget key ws) = times k key acts.
Proof.
  unfold all_tiles. intros Hin. apply list_elem_of_In, in_concat in Hin as (w & Hw & Hin).
  apply list_elem_of_In, list_elem_of_fmap in Hw as (a & -> & Ha). apply list_elem_of_In in Hin.
  apply list_elem_of_lookup in Ha as [i Ea]. destruct (cr_tier _ _ Hcarried _ _ Ea) as ([Hb Hs] & Hwt & _).
  assert (Ek : bget k (ta_weights a) = Some ws) by (apply bget_nodup; [by apply bwf_nodup|done]). split; [by eapply Hs|]. intros key.
  rewrite (times_tally i (ta_tier a)); [|done|by apply carried_lod|eapply carried_zoom; [done|apply bget_keys; by exists ws]].
  rewrite <- Hwt. unfold weight. by rewrite Ek.
Qed.
Lemma all_tiles_has k key : 0 < times k key acts -> exists ws, (k, ws) ∈ all_tiles.
Proof.
  intros Hp. destruct (total_pos (shows k key) acts) as ([i e] & He & Hd); [intros; apply draws_nonneg|done|].
  pose proof Hplaced as Hf. rewrite Forall_forall in Hf. destruct (draws_placed _ _ _ _ (Hf _ He) Hd) as (t & Ht & Hz). cbn [fst] in Ht.
  destruct (gn_tiers g !! i) as [a|] eqn:Ea.
  - pose proof (carried_lod _ _ Ea) as Ht'. rewrite Ht' in Ht. injection Ht as <-. destruct (cr_tier _ _ Hcarried _ _ Ea) as (_ & Hwt & _).
    rewrite (times_tally i (ta_tier a)) in Hp; [|done..]. rewrite <- Hwt in Hp. unfold weight in Hp.
    destruct (bget k (ta_weights a)) as [ws|] eqn:Ek; [|lia]. exists ws. unfold all_tiles. apply list_elem_of_In, in_concat.
    exists (ta_weights a). split; apply list_elem_of_In; [|by apply bget_elem]. apply list_elem_of_fmap. exists a. split; [done|by eapply list_elem_of_lookup_2].
  - exfalso. apply lookup_ge_None in Ea. apply lookup_lt_Some in Ht. rewrite <- (cr_tiers _ _ Hcarried), length_map in Ht. lia.
Qed.
End Carried.

(** ** The bytes of the payload *)

Definition blob_of (segs : list SegmentKey) : string := foldr (fun k blob => append (append_bytes k) blob) "" segs.
Definition entry_of (t : TileShard) : string :=
  append (le_bytes 4 (tk_zoom t.1)) (append (le_bytes 4 (tk_tile_x t.1)) (append (le_bytes 4 (tk_tile_y t.1))
    (append (le_bytes 4 (str_len t.2)) t.2))).
(** The version, the number of tiles, and the tiles. *)
Definition add_entry (payload : string) (t : TileShard) : string := append payload (entry_of t).
Definition payload_of (shards : list TileShard) : string :=
  foldl add_entry (append (le_bytes 4 TILE_PAYLOAD_FORMAT_VERSION) (le_bytes 4 (Z.of_nat (length shards)))) shards.
Definition shard_of (t : TileKey * list SegmentKey) : TileShard := (t.1, blob_of t.2).

Section Encoding.
Context {W : Type} `{Control W}.

(** Tiles packed from their weights. *)
Definition packed (tiles : list (TileKey * SegmentWeights)) (segs : list (TileKey * list SegmentKey)) : Prop :=
  Forall2 (fun t s => t.1 = s.1 /\ selected t.2 s.2) tiles segs.

Lemma imap_pair_snoc {A} (l : list A) a : imap pair (l ++ [a]) = imap pair l ++ [(length l, a)].
Proof. rewrite imap_app. cbn. by rewrite Nat.add_0_r. Qed.
Lemma imap_pair_snd {A} (l : list A) : map snd (imap pair l) = l.
Proof. induction l as [|a l IH] using rev_ind; [done|]. by rewrite imap_pair_snoc, map_app, IH. Qed.

Lemma pack_tile_ok templ shards t s r s' : pack_tile templ shards t s = (Ok r, s') -> segments_wf t.2.2 ->
  exists segs, selected t.2.2 segs /\ r = shards ++ [shard_of (t.2.1, segs)].
Proof.
  intros E (Hb & Hne & _). unfold pack_tile in E. succeeded E. destruct t as [i [k ws]]. cbn [fst snd] in *.
  apply budgeted_segments_ok in F0 as Hs; [|done]. exists x1. split; [done|]. subst r. pose proof (sl_some _ _ Hs Hne). by destruct x1.
Qed.
Lemma finalize_tier_ok templ w s r s' : finalize_tier w templ s = (Ok r, s') -> tier_wf w ->
  exists segs, packed w segs /\ r = map shard_of segs.
Proof.
  unfold finalize_tier. intros E [Hb Hw].
  eapply (run_fold_ok (fun seen r => exists segs, packed (map snd seen) segs /\ r = map shard_of segs)) with (seen := []) in E.
  - cbn [app] in E. by rewrite imap_pair_snd in E.
  - intros seen shards [i [k ws]] u y u' Hi Ep (segs & Hp & ->).
    assert (Hs : segments_wf ws).
    { apply elem_of_lookup_imap in Hi as (j & e & [= <- <-] & He). apply list_elem_of_lookup_2 in He. eapply Hw. by apply bget_nodup; [apply bwf_nodup|]. }
    destruct (pack_tile_ok _ _ _ _ _ _ Ep Hs) as (new & Hnew & ->). exists (segs ++ [(k, new)]). rewrite !map_app. split; [|done].
    apply Forall2_app; [done|]. by apply Forall2_cons.
  - exists []. by split; [constructor|].
Qed.

(** The encoding of a payload within its bound. *)
Lemma encode_payload_ok shards s payload s' : encode_payload shards s = (Ok payload, s') ->
  ensure_payload_bound shards = Ok () /\ payload = payload_of shards.
Proof.
  unfold encode_payload. intros E. succeeded E. apply lift_ok in F as Hb. destruct x. split; [done|]. unfold payload_of.
  set (start := append _ _) in *.
  eapply (run_fold_ok (fun seen r => r = foldl add_entry start (map snd seen))) with (seen := []) in E; [|clear|done].
  - cbn [app] in E. by rewrite imap_pair_snd in E.
  - intros seen r [i [tile blob]] u y u' _ Ep ->. unfold encode_shard in Ep. succeeded Ep. subst y. by rewrite map_app, foldl_app.
Qed.

(** The length of a payload is what the bound counts. *)
Lemma payload_of_length shards : str_len (payload_of shards) = payload_bytes shards.
Proof.
  unfold payload_of, payload_bytes. set (start := append _ _).
  assert (Hs : str_len start = TILE_PAYLOAD_HEADER_BYTES) by done. clearbody start. revert start Hs. generalize TILE_PAYLOAD_HEADER_BYTES.
  induction shards as [|t shards IH]; intros n start Hs; [done|]. cbn [foldl fold_left]. apply IH. unfold add_entry, entry_of.
  rewrite !str_len_app, Hs. change (str_len (le_bytes 4 _)) with 4. unfold TILE_DIRECTORY_BYTES. lia.
Qed.
End Encoding.

(** ** The payload of a month *)

Section Payload.
Context {W : Type} `{Control W}.

Lemma pack_tiers_ok observed tiers s shards s' :
  run_fold (pack_tier observed) [] (imap pair tiers) s = (Ok shards, s') -> (forall a, a ∈ tiers -> tier_wf (ta_weights a)) ->
  exists segs, packed (concat (map ta_weights tiers)) segs /\ shards = map shard_of segs.
Proof.
  intros E Hw.
  eapply (run_fold_ok (fun seen r => exists segs, packed (concat (map (fun t => ta_weights t.2) seen)) segs /\ r = map shard_of segs))
    with (seen := []) in E.
  - cbn [app] in E. by rewrite <- (map_map snd ta_weights), imap_pair_snd in E.
  - intros seen r [i a] u y u' Hi Ep (segs & Hp & ->).
    apply elem_of_lookup_imap in Hi as (j & e & [= <- <-] & He). apply list_elem_of_lookup_2, Hw in He.
    unfold pack_tier in Ep. succeeded Ep. subst y. cbn [snd] in *. destruct (finalize_tier_ok _ _ _ _ _ F He) as (new & Hn & ->).
    exists (segs ++ new). rewrite !map_app, concat_app. cbn [map concat snd]. rewrite app_nil_r. split; [|done]. by apply Forall2_app.
  - exists []. by split; [constructor|].
Qed.
Lemma packed_keys tiles segs : packed tiles segs -> map fst (map shard_of segs) = map fst tiles.
Proof. induction 1 as [|t p tiles segs [E _] _ IH]; [done|]. cbn [map shard_of fst]. by rewrite IH, E. Qed.
(** Tiles in order stay as they are. *)
Lemma sort_shards shards : StronglySorted klt (map fst shards) -> merge_sort shard_le shards = shards.
Proof.
  intros Hs. assert (Hnd : NoDup (map fst shards)) by by apply (bwf_nodup (V := string)).
  apply (StronglySorted_unique_strong shard_le).
  - intros [k b] [k' b']. rewrite (merge_sort_Permutation shard_le shards). unfold shard_le. cbn [fst]. rewrite !key_le_klt.
    intros Hx Hy Hle Hge. assert (k = k') as <-.
    { destruct Hle as [Hlt|?]; [|done]. destruct Hge as [Hgt|?]; [|done]. by destruct (klt_asym _ _ Hlt Hgt). }
    pose proof (bget_nodup k b shards Hnd Hx) as E. rewrite (bget_nodup k b' shards Hnd Hy) in E. congruence.
  - apply StronglySorted_merge_sort.
    + intros a b c. unfold shard_le. apply key_le_trans.
    + intros a b. unfold shard_le. apply key_le_total.
  - clear Hnd. induction shards as [|t shards IH]; cbn [map] in Hs; [constructor|]. apply StronglySorted_cons in Hs as [Hf Hs].
    constructor; [by apply IH|]. apply Forall_forall. intros x Hx. apply key_le_klt. left. apply (proj1 (Forall_forall _ _) Hf). by apply (list_elem_of_fmap_2 fst).
  - apply merge_sort_Permutation.
Qed.
Lemma ensured shards : ensure_payload_bound shards = Ok () ->
  Z.of_nat (length shards) <= MAX_TILE_PAYLOAD_TILES /\ payload_bytes shards <= MAX_TILE_PAYLOAD_BYTES.
Proof.
  unfold ensure_payload_bound. destruct (Z.ltb_spec MAX_TILE_PAYLOAD_TILES (Z.of_nat (length shards))); [done|].
  destruct (u64_max <? payload_bytes shards); [done|]. destruct (Z.ltb_spec MAX_TILE_PAYLOAD_BYTES (payload_bytes shards)); [done|]. done.
Qed.

Context `{Libm} `{TileLibm}.

(** A tile of a payload: some of the segments the drives draw on it, in order, the most
    drawn ones when there are more than fit. *)
Record tile_ok (drives : list Drive) (k : TileKey) (segs : list SegmentKey) : Prop := MkTileOk {
  tk_some : segs <> [];
  tk_bound : Z.of_nat (length segs) <= MAX_CANONICAL_SEGMENTS_PER_TILE;
  tk_sorted : StronglySorted klt segs;
  tk_drawn : forall key, key ∈ segs -> 0 < times k key (all_steps drives);
  tk_rest : forall key, 0 < times k key (all_steps drives) ->
    key ∈ segs \/ Z.of_nat (length segs) = MAX_CANONICAL_SEGMENTS_PER_TILE
                  /\ forall key', key' ∈ segs -> times k key (all_steps drives) <= times k key' (all_steps drives);
}.
(** The payload of some drives. *)
Record payload_ok (drives : list Drive) (tiles : list (TileKey * list SegmentKey)) (payload : string) : Prop := MkPayloadOk {
  po_bytes : payload = payload_of (map shard_of tiles);
  po_size : str_len payload <= MAX_TILE_PAYLOAD_BYTES;
  po_tiles : Z.of_nat (length tiles) <= MAX_TILE_PAYLOAD_TILES;
  po_sorted : StronglySorted klt (map fst tiles);
  po_tile : forall k segs, (k, segs) ∈ tiles -> tile_ok drives k segs;
  po_all : forall k key, 0 < times k key (all_steps drives) -> exists segs, (k, segs) ∈ tiles;
}.

Lemma tile_ok_selected drives g k ws segs : carried (all_steps drives) g -> (k, ws) ∈ all_tiles g -> selected ws segs -> tile_ok drives k segs.
Proof.
  intros Hc Hin [Hs Hb Hne Hi Hr]. destruct (all_tiles_in _ _ Hc (all_steps_placed drives) _ _ Hin) as ((_ & Hn & Hp) & Ht).
  split; [by apply Hne|done|done| |].
  - intros key Hk. destruct (Hi _ Hk) as [n En]. rewrite <- Ht, En. by eapply Hp.
  - intros key. rewrite <- Ht. intros Hpos. destruct (bget key ws) as [n|] eqn:En; [|cbn in Hpos; lia].
    destruct (Hr _ _ En) as [?|[Hl Hm]]; [by left|]. right. split; [done|]. intros key' Hk. destruct (Hi _ Hk) as [n' En'].
    rewrite <- Ht, En'. cbn. by eapply Hm.
Qed.
Lemma packed_elem tiles segs k s : packed tiles segs -> (k, s) ∈ segs -> exists ws, (k, ws) ∈ tiles /\ selected ws s.
Proof.
  induction 1 as [|[k' ws] [k2 s2] tiles segs [E Hs] _ IH]; [by intros ?%elem_of_nil|]. cbn in E. subst k2.
  intros [[= <- <-]|Hin]%elem_of_cons; [exists ws; split; [left|done]|]. destruct (IH Hin) as (ws' & ? & ?). exists ws'. split; [by right|done].
Qed.
Lemma packed_has tiles segs k ws : packed tiles segs -> (k, ws) ∈ tiles -> exists s, (k, s) ∈ segs.
Proof.
  induction 1 as [|[k' ws'] [k2 s2] tiles segs [E Hs] _ IH]; [by intros ?%elem_of_nil|]. cbn in E. subst k2.
  intros [[= <- <-]|Hin]%elem_of_cons; [exists s2; left|]. destruct (IH Hin) as [s ?]. exists s. by right.
Qed.

(** C13: a payload holds what the drives draw: its tiles are in strictly increasing order,
    each with segments that were drawn on it, in strictly increasing order; a tile with
    any segment drawn is there, and a segment that is left out belongs to a tile with
    200000 kept ones, each drawn at least as often. It has at most 4096 tiles and eight
    mebibytes. *)
Theorem payload_holds_the_drawn_segments expected limit v s n tiles payload d s' :
  generate_internal expected limit v s = (Ok (ReadyData n tiles payload d), s') ->
  exists l, payload_ok (drives_of v) l payload /\ tiles = Z.of_nat (length l).
Proof.
  unfold generate_internal. intros E. apply run_bind_ok in E as (_ & u & _ & E). apply run_bind_ok in E as (g & r & [Hc _]%visited_ok & E).
  unfold finish in E. do 3 (apply run_bind_ok in E as (_ & ? & _ & E)). apply run_bind_ok in E as (shards & ? & Ep & E).
  do 2 (apply run_bind_ok in E as (_ & ? & _ & E)).
  apply pack_tiers_ok in Ep as (segs & Hp & ->); [|intros a [i Ea]%list_elem_of_lookup; by destruct (cr_tier _ _ Hc _ _ Ea)].
  change (concat (map ta_weights (gn_tiers g))) with (all_tiles g) in Hp.
  pose proof (all_tiles_sorted _ _ Hc (all_steps_placed _)) as Hs. rewrite <- (packed_keys _ _ Hp) in Hs.
  exists segs. remember (map shard_of segs) as shards eqn:Es. destruct shards as [|t shards]; [done|].
  apply run_bind_ok in E as (bytes & ? & E & Er). rewrite sort_shards in E by done. apply encode_payload_ok in E as [Hb ->].
  apply run_ret_ok in Er. injection Er as _ <- <- _. rewrite Es in *. destruct (ensured _ Hb) as [Hn Hz]. rewrite length_map in Hn.
  split; [|by rewrite <- (length_map shard_of segs), <- Es].
  split; [done|by rewrite payload_of_length|done|by rewrite map_map in Hs| |].
  - intros k s0 Hin. destruct (packed_elem _ _ _ _ Hp Hin) as (ws & Hw & Hsel). by eapply tile_ok_selected.
  - intros k key Hpos. destruct (all_tiles_has _ _ Hc (all_steps_placed _) _ _ Hpos) as [ws Hw]. by eapply packed_has.
Qed.
End Payload.

(** ** A page of positions and its bytes *)

Lemma substring_all s : substring 0 (String.length s) s = s.
Proof. induction s as [|c s IH]; [done|]. cbn. by rewrite IH. Qed.
Lemma substring_app_l s t : substring 0 (String.length s) (append s t) = s.
Proof. induction s as [|c s IH]; [by destruct t|]. rewrite str_append_cons. cbn. by rewrite IH. Qed.
Lemma substring_app_r s t n : substring (String.length s) n (append s t) = substring 0 n t.
Proof. induction s as [|c s IH]; [done|]. rewrite str_append_cons. cbn. by rewrite IH. Qed.
Lemma substring_split n s : (n <= String.length s)%nat -> append (substring 0 n s) (substring n (String.length s - n) s) = s.
Proof.
  revert s. induction n as [|n IH]; intros s Hn.
  - rewrite Nat.sub_0_r, substring_all. by destruct s.
  - destruct s as [|c s]; [cbn in Hn; lia|]. cbn [String.length substring Nat.sub]. rewrite str_append_cons. f_equal. apply IH. cbn in Hn. lia.
Qed.
Lemma le_value_bytes s n : String.length s = n -> le_bytes n (le_value s) = s /\ 0 <= le_value s < 256 ^ Z.of_nat n.
Proof.
  revert n. induction s as [|c s IH]; intros [|n] Hn; try done. cbn in Hn. injection Hn as Hn. destruct (IH n Hn) as [E Hr].
  cbn [le_value le_bytes]. pose proof (byte_of_range c). rewrite Nat2Z.inj_succ, Z.pow_succ_r by lia. split; [|nia].
  replace ((byte_of c + 256 * le_value s) / 256) with (le_value s) by (rewrite Z.mul_comm, Z.div_add, Z.div_small; lia). rewrite E. f_equal.
  rewrite <- (byte_ascii_of c) at 2. unfold byte_ascii. do 2 f_equal. by rewrite Z.mul_comm, Z.mod_add by lia.
Qed.
Lemma le_bytes_value n z : 0 <= z < 256 ^ Z.of_nat n -> le_value (le_bytes n z) = z /\ String.length (le_bytes n z) = n.
Proof.
  revert z. induction n as [|n IH]; intros z Hz; [split; [cbn in *; lia|done]|]. rewrite Nat2Z.inj_succ, Z.pow_succ_r in Hz by lia.
  destruct (IH (z / 256)) as [E El]; [split; [apply Z.div_pos; lia|apply Z.div_lt_upper_bound; lia]|].
  cbn [le_bytes le_value String.length]. rewrite E, El, byte_of_ascii. split; [|done]. pose proof (Z.div_mod z 256). lia.
Qed.

Definition is_word (w : Z) : Prop := 0 <= w < 2 ^ 32.
Lemma read_u32_ok rest w rest' : read_u32 rest = Ok (w, rest') <-> is_word w /\ rest = append (le_bytes 4 w) rest'.
Proof.
  unfold read_u32, read_exact, slice, is_word. split.
  - destruct (Z.leb_spec (Z.of_nat 4) (str_len rest)) as [Hle|]; [|done]. unfold str_len in Hle. cbn [mbind result_bind]. intros E. apply ok_eq in E.
    apply pair_eq in E as [Ev Er]. cbn [fst snd] in *. assert (Hl : String.length (substring 0 4 rest) = 4%nat) by (apply slice_length; lia).
    destruct (le_value_bytes _ _ Hl) as [Eb Hr]. rewrite <- Ev, Eb, <- Er. split; [exact Hr|]. symmetry. apply substring_split. lia.
  - intros [Hw ->]. destruct (le_bytes_value 4 w Hw) as [Ev El]. set (b := le_bytes 4 w) in *. rewrite str_len_app. unfold str_len. rewrite El.
    destruct (Z.leb_spec (Z.of_nat 4) (Z.of_nat 4 + Z.of_nat (String.length rest'))); [|lia]. cbn [mbind result_bind fst snd].
    assert (E4 : substring 0 4 (append b rest') = b) by (rewrite <- El; apply substring_app_l). rewrite E4, Ev. do 2 f_equal.
    assert (Hl : String.length (append b rest') = (4 + String.length rest')%nat).
    { pose proof (str_len_app b rest') as Hs. unfold str_len in Hs. lia. }
    rewrite Hl, <- El at 1. rewrite substring_app_r. replace (4 + String.length rest' - 4)%nat with (String.length rest') by lia. apply substring_all.
Qed.

(** A page as the words it is made of. *)
Definition RawDrive : Type := Z * list (Z * Z).
Definition word_bytes (p : Z * Z) (rest : string) : string := append (le_bytes 4 p.1) (append (le_bytes 4 p.2) rest).
Definition encode_points (points : list (Z * Z)) (rest : string) : string := foldr word_bytes rest points.
Definition encode_drive (d : RawDrive) (rest : string) : string :=
  append (le_bytes 4 d.1) (append (le_bytes 4 (Z.of_nat (length d.2))) (encode_points d.2 rest)).
Definition encode_page (drives : list RawDrive) : string :=
  append (le_bytes 4 POSITION_PAGE_FORMAT_VERSION) (append (le_bytes 4 (Z.of_nat (length drives))) (foldr encode_drive "" drives)).
Definition point_of (p : Z * Z) : Point := (f32_from_bits p.1, f32_from_bits p.2).
Definition drive_of (d : RawDrive) : Drive := MkDrive (i32_wrap d.1) (map point_of d.2).
Definition raw_point_ok (p : Z * Z) : Prop := is_word p.1 /\ is_word p.2.
Definition raw_drive_ok (d : RawDrive) : Prop := is_word d.1 /\ is_word (Z.of_nat (length d.2)) /\ Forall raw_point_ok d.2.

Section Page.
Context {W : Type} `{Control W}.

Lemma parse_point_ok at_drive acc rest i s r s' : parse_point at_drive (acc, rest) i s = (Ok r, s') ->
  exists p, raw_point_ok p /\ rest = word_bytes p r.2 /\ r.1 = acc ++ [point_of p].
Proof.
  unfold parse_point, read_f32. intros E. succeeded E. apply lift_ok in F0, F1. cbn [fst snd] in *.
  destruct (read_u32 rest) as [[a rest1]|] eqn:Ea; [|done]. cbn in F0. apply ok_eq in F0 as <-. cbn [fst snd] in *.
  destruct (read_u32 rest1) as [[b rest2]|] eqn:Eb; [|done]. cbn in F1. apply ok_eq in F1 as <-. cbn [fst snd] in *.
  apply read_u32_ok in Ea as [Ha ->], Eb as [Hb ->]. exists (a, b). subst r. split; [by split|by split].
Qed.
Lemma parse_points_ok at_drive rest l s r s' : run_fold (parse_point at_drive) ([], rest) l s = (Ok r, s') ->
  exists ps, length ps = length l /\ Forall raw_point_ok ps /\ rest = encode_points ps r.2 /\ r.1 = map point_of ps.
Proof.
  intros E. eapply (run_fold_ok (fun seen r => exists ps, length ps = length seen /\ Forall raw_point_ok ps /\ rest = encode_points ps r.2
    /\ r.1 = map point_of ps)) with (seen := []) in E; [exact E| |by exists []].
  intros seen [acc rest1] i u y u' _ Ep (ps & El & Hf & -> & Er). cbn [fst snd] in *. subst acc.
  destruct (parse_point_ok _ _ _ _ _ _ _ Ep) as (p & Hp & -> & Ey). exists (ps ++ [p]). rewrite !length_app, El, Ey, map_app. split; [done|].
  split; [by apply Forall_app; split; [|constructor]|]. split; [|done]. unfold encode_points. by rewrite foldr_app.
Qed.

Lemma parse_drive_ok count acc rest i s r s' : parse_drive_record count (acc, rest) i s = (Ok r, s') ->
  exists d, raw_drive_ok d /\ rest = encode_drive d r.2 /\ r.1 = acc ++ [drive_of d].
Proof.
  unfold parse_drive_record, read_i32. cbv zeta. intros E. succeeded E. apply lift_ok in F0, F1. cbn [fst snd] in *.
  destruct (read_u32 rest) as [[w rest1]|] eqn:Ew; [|done]. cbn in F0. apply ok_eq in F0 as <-. cbn [fst snd] in *.
  destruct x3 as [n rest2]. apply read_u32_ok in Ew as [Hw ->], F1 as [Hn ->]. cbn [fst snd] in *.
  destruct (parse_points_ok _ _ _ _ _ _ F3) as (ps & El & Hf & -> & Ep). rewrite length_seq in El.
  assert (Hlen : Z.of_nat (length ps) = n) by (unfold is_word in Hn; lia).
  exists (w, ps). subst r. unfold raw_drive_ok, encode_drive, drive_of. cbn [fst snd]. by rewrite Hlen, Ep.
Qed.
Lemma parse_page_ok bytes s drives s' : parse_position_page_v1 bytes s = (Ok drives, s') ->
  exists raw, Forall raw_drive_ok raw /\ Z.of_nat (length raw) <= MAX_POSITION_DRIVES_PER_PAGE /\ str_len bytes <= MAX_POSITION_PAGE_BYTES
  /\ bytes = encode_page raw /\ drives = map drive_of raw.
Proof.
  unfold parse_position_page_v1. intros E. succeeded E. apply lift_ok in F1, F3.
  destruct (Z.ltb_spec MAX_POSITION_PAGE_BYTES (str_len bytes)); [done|].
  destruct x3 as [version rest], x7 as [n rest1]. apply read_u32_ok in F1 as [Hv ->], F3 as [Hn Er]. cbn [fst snd] in *.
  destruct (Z.eqb_spec version POSITION_PAGE_FORMAT_VERSION) as [->|]; [|done]. destruct (Z.ltb_spec MAX_POSITION_DRIVES_PER_PAGE n); [done|].
  eapply (run_fold_ok (fun seen r => exists ds, length ds = length seen /\ Forall raw_drive_ok ds /\ rest1 = foldr encode_drive r.2 ds
    /\ r.1 = map drive_of ds)) with (seen := []) in F5; [|clear|by exists []].
  - destruct F5 as (ds & El & Hf & Ed & Ep). cbn [app] in El. rewrite length_seq in El. subst drives.
    assert (Hlen : Z.of_nat (length ds) = n) by (unfold is_word in Hn; lia).
    exists ds. split; [done|]. split; [by rewrite Hlen|]. split; [done|]. split; [|done]. unfold encode_page. rewrite Er, Ed, Hlen.
    destruct (Z.eqb_spec (str_len x11.2) 0) as [E0|]; [|done]. by destruct x11.2.
  - intros seen [acc rest2] i u y u' _ Ep (ds & El & Hf & -> & Er). cbn [fst snd] in *. subst acc.
    destruct (parse_drive_ok _ _ _ _ _ _ _ Ep) as (d & Hd & -> & Ey). exists (ds ++ [d]). rewrite !length_app, El, Ey, map_app. split; [done|].
    split; [by apply Forall_app; split; [|constructor]|]. split; [|done]. by rewrite foldr_app.
Qed.

(** A caller that never cancels and whose progress callback never fails. *)
Definition calm : Prop :=
  (forall w, (cancelled_load w).1 = false) /\ forall report p w, progress = Some report -> (report p w).1 = Ok ().
(** A run that always gives the same. *)
Definition gives {A} (m : run W A) (a : A) : Prop := forall s, (m s).1 = Ok a.
Lemma gives_ret {A} (a : A) : gives (mret a) a.
Proof. done. Qed.
Lemma gives_lift {A} (a : A) : gives (lift (Ok a)) a.
Proof. done. Qed.
Lemma gives_bind {A B} (m : run W A) (f : A -> run W B) a b : gives m a -> gives (f a) b -> gives (m ≫= f) b.
Proof. intros Hm Hf s. unfold mbind, run_bind. specialize (Hm s). destruct (m s) as [r t]. cbn in Hm. subst r. apply Hf. Qed.

Hypothesis Hcalm : calm.
Lemma gives_check : gives check_cancelled ().
Proof. intros s. unfold check_cancelled. pose proof (proj1 Hcalm s.1) as Hc. destruct (cancelled_load s.1) as [c w]. cbn in Hc. by subst c. Qed.
Lemma gives_checkpoint p : gives (checkpoint p) ().
Proof.
  unfold checkpoint. eapply gives_bind; [apply gives_check|]. intros s. unfold mbind at 1, run_bind. cbn [fst snd].
  apply gives_bind with (a := ()); [|apply gives_check]. intros [w n]. destruct progress as [report|] eqn:Ep; [|done].
  pose proof (proj2 Hcalm report (p <| pg_work_units := (s.2 + 1) mod 2 ^ 64 |>) w Ep) as Hr. cbn [fst snd]. destruct (report _ w) as [r w']. exact Hr.
Qed.
Lemma gives_read_u32 w rest : is_word w -> gives (lift (read_u32 (append (le_bytes 4 w) rest))) (w, rest).
Proof. intros Hw. rewrite (proj2 (read_u32_ok _ w rest)) by done. apply gives_lift. Qed.
Lemma gives_points at_drive ps rest acc k : Forall raw_point_ok ps ->
  gives (run_fold (parse_point at_drive) (acc, encode_points ps rest) (seq k (length ps))) (acc ++ map point_of ps, rest).
Proof.
  intros Hf. revert acc k. induction Hf as [|[a b] ps [Ha Hb] _ IH]; intros acc k; cbn [length seq run_fold encode_points foldr map].
  - rewrite app_nil_r. apply gives_ret.
  - eapply gives_bind; [|rewrite (cons_middle _ acc), app_assoc; apply IH]. unfold parse_point, word_bytes, read_f32. cbn [fst snd].
    eapply gives_bind; [instantiate (1 := ()); destruct (_ =? 0); [apply gives_checkpoint|apply gives_ret]|].
    rewrite (proj2 (read_u32_ok _ a _)) by done. cbn [mbind result_bind fst snd]. eapply gives_bind; [apply gives_lift|]. cbn [fst snd].
    rewrite (proj2 (read_u32_ok _ b _)) by done. cbn [mbind result_bind fst snd]. eapply gives_bind; [apply gives_lift|]. apply gives_ret.
Qed.

Lemma encode_points_long ps rest : Forall raw_point_ok ps -> Z.of_nat (length ps) * POSITION_POINT_BYTES <= str_len (encode_points ps rest).
Proof.
  induction 1 as [|[a b] ps [Ha Hb] _ IH]; cbn [length]; [unfold str_len; lia|].
  change (encode_points ((a, b) :: ps) rest) with (append (le_bytes 4 a) (append (le_bytes 4 b) (encode_points ps rest))).
  rewrite !str_len_app. change (str_len (le_bytes 4 a)) with 4. change (str_len (le_bytes 4 b)) with 4. unfold POSITION_POINT_BYTES in *. lia.
Qed.
Lemma gives_drives count ds rest acc k : Forall raw_drive_ok ds ->
  gives (run_fold (parse_drive_record count) (acc, foldr encode_drive rest ds) (seq k (length ds))) (acc ++ map drive_of ds, rest).
Proof.
  intros Hf. revert acc k. induction Hf as [|[w ps] ds (Hw & Hn & Hp) _ IH]; intros acc k; cbn [length seq run_fold foldr map].
  - rewrite app_nil_r. apply gives_ret.
  - eapply gives_bind; [|rewrite (cons_middle _ acc), app_assoc; apply IH]. unfold parse_drive_record, encode_drive, read_i32. cbn [fst snd] in *. cbv zeta.
    eapply gives_bind; [apply gives_checkpoint|]. rewrite (proj2 (read_u32_ok _ w _)) by done. cbn [mbind result_bind fst snd].
    eapply gives_bind; [apply gives_lift|]. cbn [fst snd]. eapply gives_bind; [by apply gives_read_u32|]. cbn [fst snd].
    rewrite (proj2 (Z.ltb_ge _ _)) by by apply encode_points_long. eapply gives_bind; [apply gives_ret|]. rewrite Nat2Z.id.
    eapply gives_bind; [by apply gives_points|]. apply gives_ret.
Qed.
Lemma gives_page raw : Forall raw_drive_ok raw -> Z.of_nat (length raw) <= MAX_POSITION_DRIVES_PER_PAGE ->
  str_len (encode_page raw) <= MAX_POSITION_PAGE_BYTES -> gives (parse_position_page_v1 (encode_page raw)) (map drive_of raw).
Proof.
  intros Hf Hn Hb. unfold parse_position_page_v1. eapply gives_bind; [apply gives_check|].
  rewrite (proj2 (Z.ltb_ge _ _)) by done. eapply gives_bind; [apply gives_ret|]. unfold encode_page.
  eapply gives_bind; [by apply gives_read_u32|]. cbn [fst snd]. rewrite Z.eqb_refl. eapply gives_bind; [apply gives_ret|].
  eapply gives_bind; [apply gives_read_u32; unfold is_word, MAX_POSITION_DRIVES_PER_PAGE in *; lia|]. cbn [fst snd].
  rewrite (proj2 (Z.ltb_ge _ _)) by done. eapply gives_bind; [apply gives_ret|]. rewrite Nat2Z.id.
  eapply gives_bind; [by apply gives_drives|]. cbn [fst snd]. eapply gives_bind; [apply gives_ret|]. apply gives_ret.
Qed.
End Page.

(** C35: a page of positions reads back: for a caller that does not cancel, exactly the
    bytes of a page of at most 128 drives within eight mebibytes are accepted, and they
    give the drives whose words they hold. *)
Theorem position_page_reads_back {W} `{Control W} bytes drives s : calm (W := W) ->
  (parse_position_page_v1 bytes s).1 = Ok drives <->
  exists raw, Forall raw_drive_ok raw /\ Z.of_nat (length raw) <= MAX_POSITION_DRIVES_PER_PAGE /\ str_len bytes <= MAX_POSITION_PAGE_BYTES
  /\ bytes = encode_page raw /\ drives = map drive_of raw.
Proof.
  intros Hc. split.
  - destruct (parse_position_page_v1 bytes s) as [r s'] eqn:E. cbn [fst]. intros ->. by eapply parse_page_ok.
  - intros (raw & Hf & Hn & Hb & -> & ->). by apply gives_page.
Qed.

Lemma payload_holds_the_drawn_segments_witness :
  let v := one_page [sample_drive 1 51500 (-100)] in
  match generate_internal (H := sample_control) (H0 := sample_libm) (H1 := sample_tile_libm) (Some 1) None v ((), 0) with
  | (Ok (ReadyData _ tiles payload _), _) =>
      exists l, payload_ok (H0 := sample_libm) (H1 := sample_tile_libm) (drives_of v) l payload /\ tiles = Z.of_nat (length l)
  | _ => False
  end.
Proof.
  cbv zeta. destruct (generate_internal _ _ _ _) as [[[n d|n tiles payload d]|e] s'] eqn:E; [vm_compute in E; discriminate| |vm_compute in E; discriminate].
  exact (payload_holds_the_drawn_segments (H := sample_control) _ _ _ _ _ _ _ _ _ E).
Defined.
Lemma position_page_reads_back_witness :
  calm (H := sample_control) /\
  (parse_position_page_v1 (H := sample_control) (encode_page [(7, [(1112409899, 1098907648)])]) ((), 0)).1
  = Ok [MkDrive 7 [point_of (1112409899, 1098907648)]].
Proof.
  assert (Hc : calm (H := sample_control)) by (split; [done|intros report p w E; discriminate]). split; [exact Hc|].
  apply (position_page_reads_back _ _ _ Hc). exists [(7, [(1112409899, 1098907648)])].
  split; [|by vm_compute]. repeat (constructor; cbn [fst snd]); unfold is_word; cbn; lia.
Defined.
